(* ===== verification/_CoqProject ===== *)
-Q . S2P
Prelude.v
Sums.v
Adler32.v
CrcTheory.v
CrcTables.v
Crc32.v
Deflate.v
Puff.v
PuffBits.v
PuffTables.v
PuffSpec.v
PuffDynamic.v
PuffTop.v
Trees.v
TreeFlush.v
TreeBits.v
TreeSend.v
TreeCompress.v
TreeHeap.v
TreeLens.v
TreeSpec.v
TreeRle.v
TreeBlock.v
TreeSession.v
TreeTheorems.v
Coding.v
Crc32c.v
Slice.v
FileName.v
Env.v
Log.v
LogSpec.v
MemEnv.v
MemFs.v
LogTheorems.v
WriteBatch.v
SkipList.v
SkipListSpec.v
SkipListRefine.v
SkipListReaders.v
DbFormat.v
MemTable.v
VersionEdit.v
KvStore.v
DbWrite.v
DbTheorems.v
Iterator.v
TwoLevel.v
Merger.v
Bloom.v
InternalKey.v
DbIter.v
DbIterSpec.v
FilterBlock.v
Block.v
BlockSpec.v
BlockTheorems.v
TableFormat.v
Table.v
TableBuildSpec.v
TableFile.v
TableSpec.v
TableTheorems.v
Version.v
VersionSpec.v
VersionBuilder.v
Compaction.v
CompactionWork.v
LruCache.v
LruSpec.v
LruTheorems.v
LruBlockCache.v
TableCache.v
DbReadTheorems.v
CompactionTheorems.v
StoreTheorems.v
Loc.v
Level.v
OctTile.v
TileTheorems.v
