(* ===== verification/Prelude.v ===== *)
(** * Verification of mapbg

    mapbg is a voxel-world game.  Its own code, under src/core, splits the
    world into the cells of an octree (core/Loc.h), turns terrain into tiles
    of 256^3 voxels (core/OctTile.cpp) and keeps the tiles of a world in a
    leveldb database (core/Level.cpp).  leveldb (src/leveldb) compresses its
    blocks with zlib (src/zlib).  The three are modelled here from the bottom
    up.  A definition has the name it has in the source where Rocq allows it.

    ** How the parts meet

<<
    Level.cpp --keys and chunks--> leveldb
    OctTile.cpp, Loc.h                |
      Write: queue -> log -> batch -> memtable -> skip list
      Get:   memtable, then Version -> table cache -> tables
      iterators: memtables and tables -> merging iterator -> DBIter
      compaction: Version -> inputs -> merged -> tables -> edit -> Version
      tables: data blocks, filter block, index block, checksums
      recovery: log -> batches -> memtable;  files: memenv
                                      |
                     zlib: deflate's trees -> format -> puff
                           checksums: Adler-32, CRC-32
>>

    Where one part calls another through an interface of the source, the
    interface is a class with its laws beside it, and the client is proved
    against the laws.  [Comparator] (Slice.v): the bytewise comparator and, in
    InternalKey.v, that of internal keys; [Neighbours] (TableBuildSpec.v) is
    what a table's index asks of a comparator besides.  [FilterPolicy]
    (DbFormat.v, laws in Bloom.v): the Bloom filter and the policy of internal
    keys.  [OrderedTable] (SkipListRefine.v), what the memtable uses of its
    skip list; [KvStore] (KvStore.v), what the level uses of leveldb;
    [Handler] (WriteBatch.v), what iterating over a batch calls.
    [WritableFile], [SequentialFile], [RandomAccessFile] and [Crc32c] (Env.v):
    the files of memenv and the routines of Crc32c.v; [FileOpener]
    (TableCache.v): memenv.  [Iterator] with [IteratorLaws] (Iterator.v), to be
    a cursor over a list: blocks, two-level and merging iterators, the files
    of a level.  [BlockCache] (Table.v): the LRU cache.  [TableStore]
    (Version.v), what a version uses of the cache of tables.  [OutputStore]
    (CompactionWork.v), what a compaction uses of the environment, of the
    cache of tables and of the rest of the database.

    ** The files

    zlib's checksums.  Adler32.v is zlib/adler32.c and Crc32.v zlib/crc32.c,
    with the tables of zlib/crc32.h in CrcTables.v; CrcTheory.v has what the
    two cyclic checks of the sources share.

    The deflate format.  Deflate.v (prefix codes from their lengths, and the
    grammar of RFC 1951 on bits) is the specification; it does not depend on
    the C code.

    The decoder zlib/contrib/puff/puff.c.  Puff.v has the definitions, in a
    monad with the outcomes return, [longjmp] and fault.  PuffBits.v (input),
    PuffTables.v ([construct], [decode]), PuffSpec.v, PuffDynamic.v (blocks)
    and PuffTop.v ([puff]) are the proofs.

    The encoder's back end, zlib/trees.c with [flush_pending] of
    zlib/deflate.c.  Trees.v (data of deflate.h and trees.h, bit output) and
    TreeFlush.v (heap, lengths, codes and the entry points) have the
    definitions.  TreeHeap.v, TreeLens.v and TreeSpec.v prove [build_tree];
    TreeBits.v, TreeSend.v, TreeRle.v, TreeCompress.v the output; TreeBlock.v
    and TreeSession.v blocks and whole streams; TreeTheorems.v states the
    results.

    leveldb, in memory.  Coding.v is util/coding.cc, Slice.v slice.h,
    status.h and the comparators, WriteBatch.v db/write_batch.cc, DbFormat.v
    db/dbformat.cc, SkipList.v db/skiplist.h with util/random.h, MemTable.v
    db/memtable.cc.  SkipListSpec.v, SkipListRefine.v, SkipListReaders.v
    (readers beside a writer, as a step relation) and KvStore.v are proofs;
    StoreTheorems.v states the results.

    leveldb, the log.  Env.v has the interfaces of files, Crc32c.v is
    util/crc32c.cc, Log.v db/log_writer.cc and db/log_reader.cc with the
    proofs in LogSpec.v and the results in LogTheorems.v.  MemEnv.v and MemFs.v
    are helpers/memenv/memenv.cc, FileName.v is db/filename.cc.  DbWrite.v has
    [DBImpl::Write] with its queue, [MakeRoomForWrite] with the switch to a new
    memtable and log, and [CompactMemTable] as the steps of a relation, and the
    recovery of the logs; DbTheorems.v the results.

    leveldb, tables.  Iterator.v, TwoLevel.v and Merger.v are the iterators of
    table/.  Bloom.v is util/hash.cc and util/bloom.cc, FilterBlock.v
    table/filter_block.cc, Block.v table/block_builder.cc and table/block.cc
    with BlockSpec.v and BlockTheorems.v; TableFormat.v is table/format.cc, Table.v
    table/table_builder.cc and table/table.cc with TableBuildSpec.v,
    TableFile.v, TableSpec.v and TableTheorems.v.  LruCache.v is util/cache.cc
    with LruSpec.v and LruTheorems.v; LruBlockCache.v makes it a block cache;
    TableCache.v is db/table_cache.cc.

    leveldb, versions.  VersionEdit.v is db/version_edit.cc.  Version.v has
    class [Version] of db/version_set.cc and [DBImpl::Get], proved in
    VersionSpec.v; DbIter.v is db/db_iter.cc, proved in DbIterSpec.v;
    DbReadTheorems.v states what reading the database gives, and has the
    instances of the theorems on tables.  VersionBuilder.v is
    [VersionSet::Builder].  Compaction.v has class [Compaction] and how its
    inputs are chosen, CompactionWork.v the work ([DoCompactionWork]) with what
    it drops and what it writes, CompactionTheorems.v what becomes of reads.

    The game.  Loc.v is core/Loc.h, Level.v core/Level.cpp, OctTile.v the
    integer part of core/OctTile.cpp with the proofs of its run-length coding
    and of its ray casting; TileTheorems.v states the results.

    Prelude.v (this file) has the integers, arrays, loops, bit strings and
    buffers they share, and Sums.v the sums of the counting arguments.

    ** How the source is modelled

    Pure functions are functions; a struct is a record that the operations
    take and return.  A [w]-bit integer is a [Z] and [wrap w] stands wherever
    the source can wrap around; [W] is the width of [unsigned long], which is
    32 or 64.  [None] (or a fault of puff's monad) is what the source must not
    do: access an array outside its bounds, fail an [assert], overflow a
    signed integer, use memory that has been freed, or stay in a loop for
    longer than its fuel.  That a result is [Some] is therefore a safety and
    termination statement, and the theorems say it.  Machines of both byte
    orders are covered: [Port] in leveldb, both routines in crc32.c.  Objects
    that are shared (file states of memenv, handles of the LRU cache, nodes of
    the skip list) are in a heap, and are named by their address.

    ** Fuel

    Loops that count a length down have that length as fuel.  puff's loops
    have the number of input bits plus one ([puff_fuel]): each turn uses a
    bit.  Those of trees.c have the size of the heap or of the array they
    walk.  A search of the skip list has levels times nodes ([search_fuel]):
    each turn moves forward or down.  Scans of a data block have its length
    (an entry has at least three bytes), searches of its restart points their
    number.  [FindHit] has 255 steps, the greatest distance inside a tile
    ([hit_fuel]).  Varints have 9 turns after the first byte, one for each
    seven bits of 64.  A log reader takes its fuel as an argument, and it is
    enough when it is above the length of the file; decoding an edit has the
    length of the record.  Two-level iterators and [DBIter] take their
    fuel as an argument, and it is enough when it is above the number of index
    entries, or of entries; the loop of a compaction, when it is above the
    number of entries of its inputs.  [LoadVB]'s fuel is an argument: with any
    amount, its loop ends exactly when no run of ones is over 255.

    ** What is proved

    - puff: it is memory safe and ends on every input; it accepts exactly the
      streams of the format and decodes them to what the format says; it
      reports output that does not fit; its table-driven decoding inverts the
      canonical code, and its two versions agree.
    - trees.c: whatever the frequencies, [build_tree] makes a complete code
      within the length limit; a flushed block is a block of the format for the
      symbols recorded; a stream written block by block is decoded by puff to
      the data, if each block leaves the output behind the symbols still to be
      read ([stream_sendable], TreeSession.v).  That condition the code relies
      on can fail ([flush_overwrites_overlay]).
    - checksums: the unrolled, table-driven and word-wise routines compute the
      definition; combining is concatenation.
    - leveldb in memory: readers invert writers; batches, memtable and skip
      list together refine a map with history; readers of the skip list are
      safe and never blocked beside a writer; internal keys sort newest first;
      filters have no false negatives.
    - the log and the write path: what was written survives a crash that
      cuts the file anywhere behind it, damage is noticed and not returned;
      concurrent writes take effect in the order of the queue, whichever calls
      on files fail, also while memtables and logs are switched and flushed;
      if no [Append] and [Flush] of a log fails ([ReliableAppend] in Env.v), a
      crash loses nothing that was told OK and tears no batch.
    - files in memory: which calls can use a null file state, and that no
      other call uses a dangling reference; files hold what was written to
      them; names of database files are parsed back.
    - tables: blocks, iterators over several blocks and merged iterators are
      cursors over sorted lists; a finished table is read back, with or
      without cache and filter, and a lookup finds the newest visible version;
      damage to a block is noticed.  The LRU cache frees nothing that is in
      use, and keeps to its capacity; without capacity the key it gives to a
      deleter is undetermined.
    - versions: a record of the manifest is read back; a lookup in the
      database finds the newest version visible at its snapshot, wherever it
      is, and iterating shows just those; applying edits gives the files that
      the edits say, sorted; the outputs of a compaction are tables of what it
      keeps, and installing them changes no read at a snapshot that is held.
    - the game: the level is three maps in one store; cells form an octree;
      run-length coding loses nothing; a ray finds the first voxel set on
      the digital line between its ends, and the ground is the highest voxel
      set; and four places where the code does not do what it means to
      (TileTheorems.v).

    ** Not modelled

    Floating point (bounding boxes, terrain noise, physics, the scores of
    [VersionSet::Finalize]), drawing, input, threads of the application, files
    of the operating system.  Vendored libraries the game only calls (dear
    imgui, gmtl, cppcoro, simplex noise), zlib's tools, bindings and tests.
    deflate.c's match finder and stream state machine, inflate.c with
    inftrees.c and inffast.c.  Of leveldb: opening and recovering a database
    beyond its logs ([VersionSet::LogAndApply] and [Recover], the repairer),
    the scheduling of compactions, [WriteLevel0Table] and [BuildTable] (their
    results are arguments of [CompactMemTable] and of recovery, and what they
    do to a compaction under way is a parameter of it), [MakeInputIterator], whose children are modelled.  The loading of tiles
    ([OctTile::BackgroundLoad], the tile selections).  In puff the static
    tables of [fixed] are rebuilt at each call; reference counts of versions
    and files, allocation, statistics and text for logs are left out
    everywhere. *)

From Stdlib Require Import ZArith Lia.
From stdpp Require Import base option numbers list.

Declare Scope c_scope.
Delimit Scope c_scope with c.

Open Scope Z_scope.

(** ** Machine integers

    A [w]-bit unsigned C integer is a [Z]; every place where the source can
    wrap around applies [wrap w]. *)

Definition wrap (w x : Z) : Z := x mod 2 ^ w.

Abbreviation u8 := (wrap 8).
Abbreviation u16 := (wrap 16).
Abbreviation u32 := (wrap 32).

(** A value of the [w]-bit unsigned type. *)
Definition in_width (w x : Z) : Prop := 0 ≤ x < 2 ^ w.

Lemma pow2_pos w : 0 ≤ w → 0 < 2 ^ w.
Proof. intros. apply Z.pow_pos_nonneg; lia. Qed.

Lemma wrap_range w x : 0 ≤ w → in_width w (wrap w x).
Proof. intros. unfold in_width, wrap. apply Z.mod_pos_bound, pow2_pos; done. Qed.

Lemma wrap_small w x : in_width w x → wrap w x = x.
Proof. unfold in_width, wrap. intros. apply Z.mod_small; done. Qed.

Lemma wrap_idemp w x : 0 ≤ w → wrap w (wrap w x) = wrap w x.
Proof. intros. apply wrap_small, wrap_range; done. Qed.

Lemma in_width_mono v w x : 0 ≤ v ≤ w → in_width v x → in_width w x.
Proof.
  unfold in_width. intros ? [? Hx]. split; [done|].
  eapply Z.lt_le_trans; [exact Hx|]. apply Z.pow_le_mono_r; lia.
Qed.

(** Bitwise facts about values of a given width. *)
Lemma testbit_above w x i : 0 ≤ w → in_width w x → w ≤ i → Z.testbit x i = false.
Proof.
  intros Hw [? ?] ?. rewrite <-(Z.mod_small x (2 ^ w)) by done.
  apply Z.mod_pow2_bits_high; lia.
Qed.

Lemma in_width_testbit w x :
  0 ≤ w → 0 ≤ x → (∀ i, w ≤ i → Z.testbit x i = false) → in_width w x.
Proof.
  intros Hw Hx Hb. split; [done|].
  destruct (decide (x < 2 ^ w)) as [|Hge]; [done|exfalso].
  assert (0 < 2 ^ w) by (apply pow2_pos; done).
  assert (w ≤ Z.log2 x) by (apply Z.log2_le_pow2; lia).
  specialize (Hb (Z.log2 x) ltac:(lia)). rewrite Z.bit_log2 in Hb by lia. done.
Qed.

Lemma lxor_width w x y : 0 ≤ w → in_width w x → in_width w y → in_width w (Z.lxor x y).
Proof.
  intros Hw Hx Hy. apply in_width_testbit; [done| |].
  - apply Z.lxor_nonneg. destruct Hx, Hy; tauto.
  - intros i Hi. rewrite Z.lxor_spec, !(testbit_above w) by done. done.
Qed.

Lemma lor_width w x y : 0 ≤ w → in_width w x → in_width w y → in_width w (Z.lor x y).
Proof.
  intros Hw Hx Hy. apply in_width_testbit; [done| |].
  - apply Z.lor_nonneg. destruct Hx, Hy; tauto.
  - intros i Hi. rewrite Z.lor_spec, !(testbit_above w) by done. done.
Qed.

Lemma shiftr_width w x k : 0 ≤ w → 0 ≤ k → in_width w x → in_width w (Z.shiftr x k).
Proof.
  intros Hw Hk Hx. apply in_width_testbit; [done| |].
  - apply Z.shiftr_nonneg. apply Hx.
  - intros i Hi. rewrite Z.shiftr_spec by lia. apply (testbit_above w); [done..|lia].
Qed.

(** [a | (b << k)] is [a + b * 2^k] when [a] has [k] bits: how the checksums
    and the bit buffers are packed. *)
Lemma lor_shiftl_add a b k : 0 ≤ k → in_width k a → Z.lor a (Z.shiftl b k) = a + b * 2 ^ k.
Proof.
  intros Hk Ha. rewrite <-Z.shiftl_mul_pow2 by done.
  symmetry.
  rewrite <-Z.lxor_lor; [apply Z.add_nocarry_lxor|];
    apply Z.bits_inj'; intros i Hi; rewrite Z.land_spec, Z.bits_0;
    (destruct (decide (i < k)) as [Hik|Hik];
     [rewrite Z.shiftl_spec_low by lia; apply andb_false_r
     |rewrite (testbit_above k) by (done || lia); done]).
Qed.

(** ** Partiality

    A C operation that may read or write outside an array, or a loop that
    runs out of its fuel, is [None]; [succeeds o Q] says that [o] is neither
    and that its value satisfies [Q]. *)

Definition succeeds {A} (o : option A) (Q : A → Prop) : Prop :=
  match o with Some x => Q x | None => False end.

Lemma succeeds_ret {A} (x : A) Q : Q x → succeeds (Some x) Q.
Proof. done. Qed.

Lemma succeeds_elim {A} (o : option A) Q :
  succeeds o Q → ∃ x, o = Some x ∧ Q x.
Proof. destruct o; simpl; [eauto|done]. Qed.

Lemma succeeds_intro {A} (o : option A) x (Q : A → Prop) :
  o = Some x → Q x → succeeds o Q.
Proof. intros -> ?. done. Qed.

Lemma succeeds_eq {A} (o : option A) x : succeeds o (λ y, y = x) → o = Some x.
Proof. destruct o; simpl; [by intros ->|done]. Qed.

Lemma succeeds_bind {A B} (o : option A) (f : A → option B) (R : A → Prop) Q :
  succeeds o R → (∀ x, R x → succeeds (f x) Q) → succeeds (o ≫= f) Q.
Proof. destruct o; simpl; naive_solver. Qed.

Lemma succeeds_mono {A} (o : option A) (P Q : A → Prop) :
  succeeds o P → (∀ x, P x → Q x) → succeeds o Q.
Proof. destruct o; simpl; naive_solver. Qed.

(** Runs a sequence of operations one bind further, once the first is known. *)
Tactic Notation "simpl_bind" := cbn [mbind option_bind].
Tactic Notation "simpl_bind" "in" hyp(H) := cbn [mbind option_bind] in H.
Tactic Notation "simpl_bind" "in" "*" := cbn [mbind option_bind] in *.

(** ** Arrays

    A C array is a list; [aget] and [aset] are the checked accesses. *)

Definition aget {A} (l : list A) (i : Z) : option A :=
  if 0 <=? i then l !! Z.to_nat i else None.

Definition aset {A} (l : list A) (i : Z) (v : A) : option (list A) :=
  if (0 <=? i) && (i <? Z.of_nat (length l))
  then Some (<[Z.to_nat i := v]> l) else None.

Notation "a .[ i ]" := (aget a i) (at level 1, left associativity, format "a .[ i ]") : c_scope.
Notation "a .[ i <- v ]" := (aset a i v)
  (at level 1, left associativity, format "a .[ i  <-  v ]") : c_scope.
Open Scope c_scope.

(** Total reading of an array, for specifications. *)
Definition anth (l : list Z) (i : Z) : Z := default 0 (aget l i).

Lemma aget_some {A} (l : list A) i x :
  aget l i = Some x ↔ 0 ≤ i ∧ l !! Z.to_nat i = Some x.
Proof. unfold aget. destruct (Z.leb_spec 0 i); [tauto|]. split; [done|lia]. Qed.

Lemma aget_lookup {A} (l : list A) (n : nat) : aget l (Z.of_nat n) = l !! n.
Proof. unfold aget. rewrite Nat2Z.id. destruct (Z.leb_spec 0 (Z.of_nat n)); [done|lia]. Qed.

Lemma aget_in {A} (l : list A) i :
  0 ≤ i < Z.of_nat (length l) → ∃ x, aget l i = Some x.
Proof.
  intros Hi. destruct (lookup_lt_is_Some_2 l (Z.to_nat i)) as [x Hx]; [lia|].
  exists x. apply aget_some. split; [lia|done].
Qed.

Lemma aget_range {A} (l : list A) i x :
  aget l i = Some x → 0 ≤ i < Z.of_nat (length l).
Proof. rewrite aget_some. intros [? H%lookup_lt_Some]. lia. Qed.

Lemma aset_in {A} (l : list A) i v :
  0 ≤ i < Z.of_nat (length l) → aset l i v = Some (<[Z.to_nat i := v]> l).
Proof.
  intros. unfold aset.
  destruct (Z.leb_spec 0 i), (Z.ltb_spec i (Z.of_nat (length l))); simpl; (done || lia).
Qed.

Lemma aset_some {A} (l l' : list A) i v :
  aset l i v = Some l' → 0 ≤ i < Z.of_nat (length l) ∧ l' = <[Z.to_nat i := v]> l.
Proof.
  unfold aset.
  destruct (Z.leb_spec 0 i), (Z.ltb_spec i (Z.of_nat (length l))); simpl; naive_solver lia.
Qed.

Lemma aget_insert {A} (l : list A) i j v :
  0 ≤ i < Z.of_nat (length l) →
  aget (<[Z.to_nat i := v]> l) j = if decide (i = j) then Some v else aget l j.
Proof.
  intros Hi. unfold aget. destruct (Z.leb_spec 0 j); case_decide; subst; try done; try lia.
  - apply list_lookup_insert_eq. lia.
  - apply list_lookup_insert_ne. lia.
Qed.

Lemma anth_insert (l : list Z) i j v :
  0 ≤ i < Z.of_nat (length l) →
  anth (<[Z.to_nat i := v]> l) j = if decide (i = j) then v else anth l j.
Proof. intros. unfold anth. rewrite aget_insert by done. by case_decide. Qed.

Lemma aget_anth (l : list Z) i :
  0 ≤ i < Z.of_nat (length l) → aget l i = Some (anth l i).
Proof. intros H. unfold anth. destruct (aget_in l i H) as [x ->]. done. Qed.

Lemma anth_replicate n x i : 0 ≤ i < Z.of_nat n → anth (replicate n x) i = x.
Proof.
  intros. unfold anth, aget. destruct (Z.leb_spec 0 i); [|lia].
  rewrite lookup_replicate_2 by lia. done.
Qed.

(** ** Loops

    [while] is C's [while (cond) body]; [None] when the fuel is used up.
    [for_up n i body] runs [body i], [body (i+1)], ... ([n] times), which is
    [for (v = i; v < i + n; v++) body]. *)

Fixpoint while {S} (fuel : nat) (cond : S → bool) (body : S → option S) (s : S)
  : option S :=
  if cond s then
    match fuel with
    | O => None
    | Datatypes.S fuel' => s' ← body s; while fuel' cond body s'
    end
  else Some s.

Fixpoint for_up {S} (n : nat) (i : Z) (body : Z → S → option S) (s : S) : option S :=
  match n with
  | O => Some s
  | Datatypes.S n' => s' ← body i s; for_up n' (i + 1) body s'
  end.

Lemma while_total {S} (I : S → Prop) (m : S → nat) cond body :
  (∀ s, I s → cond s = true → succeeds (body s) (λ s', I s' ∧ (m s' < m s)%nat)) →
  ∀ fuel s, I s → (m s ≤ fuel)%nat →
  succeeds (while fuel cond body s) (λ s', I s' ∧ cond s' = false).
Proof.
  intros Hb. induction fuel as [|fuel IH]; intros s Hs Hm; simpl.
  - destruct (cond s) eqn:E; [|done].
    specialize (Hb s Hs E). destruct (body s); simpl in *; [lia|done].
  - destruct (cond s) eqn:E; [|done].
    eapply succeeds_bind; [apply Hb; done|]. simpl. intros s' [? ?]. apply IH; [done|lia].
Qed.

Lemma for_up_total {S} (I : Z → S → Prop) body n :
  ∀ i s,
  (∀ j s, i ≤ j < i + Z.of_nat n → I j s → succeeds (body j s) (I (j + 1))) →
  I i s → succeeds (for_up n i body s) (I (i + Z.of_nat n)).
Proof.
  induction n as [|n IH]; intros i s Hb Hs; cbn [for_up].
  - rewrite Z.add_0_r. done.
  - eapply succeeds_bind; [apply Hb; [lia|done]|]. intros s' Hs'.
    replace (i + Z.of_nat (Datatypes.S n)) with (i + 1 + Z.of_nat n) by lia.
    apply IH; [|done]. intros. apply Hb; [lia|done].
Qed.

(** ** Bit strings

    Deflate streams are sequences of bits, least significant bit of each
    value first: [bits_of n v] are the [n] low bits of [v] in that order. *)

Fixpoint bits_of (n : nat) (v : Z) : list bool :=
  match n with
  | O => []
  | S n' => Z.odd v :: bits_of n' (Z.div2 v)
  end.

Fixpoint of_bits (l : list bool) : Z :=
  match l with
  | [] => 0
  | b :: l' => Z.b2z b + 2 * of_bits l'
  end.

Definition bytes_bits (l : list Z) : list bool := l ≫= bits_of 8.

Lemma length_bits_of n v : length (bits_of n v) = n.
Proof. revert v. induction n; intros; simpl; f_equal; done. Qed.

Lemma odd_div2 v : v = Z.b2z (Z.odd v) + 2 * Z.div2 v.
Proof. pose proof (Z.div2_odd v) as H. destruct (Z.odd v); simpl in *; lia. Qed.

Lemma of_bits_range l : in_width (Z.of_nat (length l)) (of_bits l).
Proof.
  unfold in_width. induction l as [|b l IH]; [simpl; lia|].
  cbn [length of_bits]. rewrite Nat2Z.inj_succ, Z.pow_succ_r by lia.
  destruct b; simpl; lia.
Qed.

Lemma of_bits_bits_of n v : of_bits (bits_of n v) = v mod 2 ^ Z.of_nat n.
Proof.
  revert v. induction n as [|n IH]; intros v.
  { cbn. rewrite Z.mod_1_r. done. }
  cbn [bits_of of_bits]. rewrite IH, Nat2Z.inj_succ, Z.pow_succ_r by lia.
  rewrite Z.div2_div, Z.rem_mul_r by lia.
  rewrite Zmod_odd. destruct (Z.odd v); cbn [Z.b2z]; lia.
Qed.

Lemma of_bits_bits_of_small n v : in_width (Z.of_nat n) v → of_bits (bits_of n v) = v.
Proof. intros. rewrite of_bits_bits_of. by apply Z.mod_small. Qed.

Lemma odd_b2z_add (b : bool) k : Z.odd (Z.b2z b + 2 * k) = b.
Proof. rewrite Z.odd_add_mul_2. by destruct b. Qed.

Lemma div2_b2z_add (b : bool) k : Z.div2 (Z.b2z b + 2 * k) = k.
Proof.
  rewrite Z.div2_div, Z.mul_comm, Z.div_add by lia.
  destruct b; cbn; rewrite ?Z.div_small by lia; lia.
Qed.

Lemma bits_of_of_bits l : bits_of (length l) (of_bits l) = l.
Proof.
  induction l as [|b l IH]; [done|].
  cbn [length bits_of of_bits]. rewrite odd_b2z_add, div2_b2z_add, IH. done.
Qed.

Lemma bits_of_add m n v :
  bits_of (m + n) v = bits_of m v ++ bits_of n (Z.shiftr v (Z.of_nat m)).
Proof.
  revert v. induction m as [|m IH]; intros v.
  { cbn. done. }
  cbn [Nat.add bits_of app]. f_equal. rewrite IH. do 2 f_equal.
  rewrite Z.div2_spec, Z.shiftr_shiftr by lia. f_equal. lia.
Qed.

Lemma bits_of_ext n v w :
  (∀ i, 0 ≤ i < Z.of_nat n → Z.testbit v i = Z.testbit w i) → bits_of n v = bits_of n w.
Proof.
  revert v w. induction n as [|n IH]; intros v w H; [done|]. cbn [bits_of]. f_equal.
  - rewrite <-!Z.bit0_odd. apply H. lia.
  - apply IH. intros i Hi. rewrite !Z.div2_spec, !Z.shiftr_spec by lia. apply H. lia.
Qed.

(** Appending [n] bits [b] above the [m] valid bits of a bit buffer. *)
Lemma bits_of_lor m n a b :
  in_width (Z.of_nat m) a →
  bits_of (m + n) (Z.lor a (Z.shiftl b (Z.of_nat m))) = bits_of m a ++ bits_of n b.
Proof.
  intros Ha. rewrite bits_of_add. f_equal; apply bits_of_ext; intros i Hi.
  - rewrite Z.lor_spec, Z.shiftl_spec_low by lia. apply orb_false_r.
  - rewrite Z.shiftr_spec, Z.lor_spec, Z.shiftl_spec by lia.
    rewrite (testbit_above (Z.of_nat m) a) by (done || lia).
    simpl. f_equal. lia.
Qed.

Lemma bits_of_zero n : bits_of n 0 = replicate n false.
Proof. induction n; simpl; f_equal; done. Qed.

Lemma bits_of_wrap n w v : Z.of_nat n ≤ w → bits_of n (wrap w v) = bits_of n v.
Proof.
  intros Hw. apply bits_of_ext. intros i Hi. unfold wrap. apply Z.mod_pow2_bits_low. lia.
Qed.

Lemma bytes_bits_app l1 l2 : bytes_bits (l1 ++ l2) = bytes_bits l1 ++ bytes_bits l2.
Proof. apply bind_app. Qed.

Lemma length_bytes_bits l : length (bytes_bits l) = (8 * length l)%nat.
Proof.
  induction l as [|b l IH]; [done|].
  change (bytes_bits (b :: l)) with (bits_of 8 b ++ bytes_bits l).
  rewrite length_app, length_bits_of, IH. cbn [length]. lia.
Qed.

(** ** Buffers of bytes *)

Definition bytes (l : list Z) : Prop := Forall (in_width 8) l.

(** The [n] bytes at position [p] of the buffer. *)
Definition slice (l : list Z) (p n : Z) : list Z :=
  take (Z.to_nat n) (drop (Z.to_nat p) l).

Lemma slice_app l p m n :
  0 ≤ p → 0 ≤ m → 0 ≤ n → slice l p (m + n) = slice l p m ++ slice l (p + m) n.
Proof.
  intros. unfold slice. rewrite !Z2Nat.inj_add by lia.
  rewrite <-drop_drop, <-take_take_drop. done.
Qed.

Lemma slice_bytes l p n : bytes l → bytes (slice l p n).
Proof. intros. apply Forall_take, Forall_drop. done. Qed.

Lemma slice_1 l p x : aget l p = Some x → slice l p 1 = [x].
Proof. intros [_ Hx]%aget_some. unfold slice. rewrite (drop_S _ _ _ Hx). done. Qed.

Lemma slice_0 l p : slice l p 0 = [].
Proof. done. Qed.

Lemma slice_all l : slice l 0 (Z.of_nat (length l)) = l.
Proof. unfold slice. rewrite Nat2Z.id, drop_0. apply firstn_all. Qed.

Lemma length_slice l p n :
  0 ≤ p → 0 ≤ n → p + n ≤ Z.of_nat (length l) → length (slice l p n) = Z.to_nat n.
Proof. intros. unfold slice. rewrite length_take, length_drop. lia. Qed.

Lemma bytes_aget l i x : bytes l → aget l i = Some x → in_width 8 x.
Proof. intros Hl [_ Hx]%aget_some. exact (Forall_lookup_1 _ _ _ _ Hl Hx). Qed.

Lemma bytes_nil : bytes [].
Proof. constructor. Qed.

Lemma bytes_app l1 l2 : bytes l1 → bytes l2 → bytes (l1 ++ l2).
Proof. intros. by apply Forall_app. Qed.

Lemma bytes_cons x l : in_width 8 x → bytes l → bytes (x :: l).
Proof. by constructor. Qed.

Lemma bytes_take n l : bytes l → bytes (take n l).
Proof. apply Forall_take. Qed.

Lemma bytes_drop n l : bytes l → bytes (drop n l).
Proof. apply Forall_drop. Qed.

Lemma bytes_rev l : bytes l → bytes (rev l).
Proof. apply Forall_rev. Qed.

(** Writing [l] over the bytes of [dst] from offset [off] on: [memcpy] into
    a buffer, [None] past its end. *)
Definition store_bytes (dst : list Z) (off : nat) (l : list Z) : option (list Z) :=
  if bool_decide (off + length l ≤ length dst)%nat
  then Some (take off dst ++ l ++ drop (off + length l) dst) else None.

Lemma store_bytes_app l1 l2 l3 l :
  length l = length l2 →
  store_bytes (l1 ++ l2 ++ l3) (length l1) l = Some (l1 ++ l ++ l3).
Proof.
  intros Hl. unfold store_bytes. rewrite bool_decide_true.
  - rewrite take_app_length, Hl. rewrite <-drop_drop, !drop_app_length. done.
  - rewrite !length_app. lia.
Qed.

(** ** Automation

    [width] proves that values fit their types and that buffers hold bytes;
    the files of the components add the results of their operations. *)

Create HintDb width.

#[export] Hint Resolve wrap_range lxor_width lor_width shiftr_width : width.
#[export] Hint Resolve bytes_nil bytes_app bytes_cons bytes_take bytes_drop bytes_rev slice_bytes : width.
#[export] Hint Extern 1 (_ <= _) => lia : width.

Ltac solve_width := solve [eauto 10 with width].
