(* ===== verification/Sums.v ===== *)
(** Sums of integers over lists: the counting arguments of the Huffman trees
    (Kraft sums, numbers of codes per length) are statements about them. *)

From Stdlib Require Import ZArith Lia.
From stdpp Require Import base option numbers list sets.
From S2P Require Import Prelude.

Open Scope Z_scope.

Definition zsum {A} (f : A → Z) (l : list A) : Z := foldr (λ x a, f x + a) 0 l.

(** One if the property holds: sums of it count. *)
Definition ind (P : Prop) `{Decision P} : Z := if decide P then 1 else 0.

Lemma ind_range (P : Prop) `{Decision P} : 0 ≤ ind P ≤ 1.
Proof. unfold ind. case_decide; lia. Qed.

Lemma ind_true (P : Prop) `{Decision P} : P → ind P = 1.
Proof. intros HP. unfold ind. by rewrite decide_True. Qed.

Lemma ind_false (P : Prop) `{Decision P} : ¬ P → ind P = 0.
Proof. intros HP. unfold ind. by rewrite decide_False. Qed.

Lemma ind_iff (P Q : Prop) `{Decision P, Decision Q} : (P ↔ Q) → ind P = ind Q.
Proof. intros HPQ. unfold ind. repeat case_decide; tauto. Qed.

Section sums.
Context {A : Type}.
Implicit Types (f g : A → Z) (l : list A).

Lemma zsum_nil f : zsum f [] = 0.
Proof. done. Qed.

Lemma zsum_cons f x l : zsum f (x :: l) = f x + zsum f l.
Proof. done. Qed.

Lemma zsum_app f l1 l2 : zsum f (l1 ++ l2) = zsum f l1 + zsum f l2.
Proof. induction l1 as [|x l1 IH]; [done|]. cbn [app]. rewrite !zsum_cons, IH. lia. Qed.

#[export] Instance zsum_perm f : Proper ((≡ₚ) ==> (=)) (zsum f).
Proof.
  intros l1 l2. induction 1 as [|x l1 l2 _ IH|x y l|l1 l2 l3 _ IH1 _ IH2]; rewrite ?zsum_cons; try lia; done.
Qed.

Lemma zsum_ext f g l : (∀ x, x ∈ l → f x = g x) → zsum f l = zsum g l.
Proof.
  induction l as [|x l IH]; intros H; [done|]. rewrite !zsum_cons.
  rewrite (H x) by set_solver. rewrite IH; [done|]. set_solver.
Qed.

Lemma zsum_le f g l : (∀ x, x ∈ l → f x ≤ g x) → zsum f l ≤ zsum g l.
Proof.
  induction l as [|x l IH]; intros H; [done|]. rewrite !zsum_cons.
  specialize (H x ltac:(set_solver)) as Hx. specialize (IH ltac:(set_solver)). lia.
Qed.

Lemma zsum_const c l : zsum (λ _, c) l = c * Z.of_nat (length l).
Proof. induction l as [|x l IH]; [simpl; lia|]. rewrite zsum_cons, IH. cbn [length]. lia. Qed.

Lemma zsum_nonneg f l : (∀ x, x ∈ l → 0 ≤ f x) → 0 ≤ zsum f l.
Proof. intros H. pose proof (zsum_le (λ _, 0) f l H) as Hle. rewrite zsum_const in Hle. lia. Qed.

Lemma zsum_zero f l : (∀ x, x ∈ l → f x = 0) → zsum f l = 0.
Proof. intros H. rewrite (zsum_ext f (λ _, 0)) by done. rewrite zsum_const. lia. Qed.

Lemma zsum_add f g l : zsum (λ x, f x + g x) l = zsum f l + zsum g l.
Proof. induction l as [|x l IH]; [done|]. rewrite !zsum_cons, IH. lia. Qed.

Lemma zsum_elem f l x : (∀ y, y ∈ l → 0 ≤ f y) → x ∈ l → f x ≤ zsum f l.
Proof.
  intros Hf Hx. apply list_elem_of_split in Hx as (l1 & l2 & ->).
  rewrite zsum_app, zsum_cons.
  pose proof (zsum_nonneg f l1 ltac:(set_solver)). pose proof (zsum_nonneg f l2 ltac:(set_solver)). lia.
Qed.

(** Some term of a sum that is not zero is not zero. *)
Lemma zsum_pos_elem f l : 0 < zsum f l → ∃ x, x ∈ l ∧ 0 < f x.
Proof.
  induction l as [|x l IH]; [done|]. rewrite zsum_cons. intros H.
  destruct (decide (0 < f x)); [exists x; set_solver|].
  destruct IH as (y & Hy & Hf); [lia|]. exists y. set_solver.
Qed.

(** Changing one term. *)
Lemma zsum_update `{EqDecision A} f g l x :
  NoDup l → x ∈ l → (∀ y, y ∈ l → y ≠ x → g y = f y) → zsum g l = zsum f l + (g x - f x).
Proof.
  intros Hnd Hx Hg. apply list_elem_of_split in Hx as (l1 & l2 & ->).
  apply NoDup_app in Hnd as (_ & Hd & [Hx2 _]%NoDup_cons).
  rewrite !zsum_app, !zsum_cons.
  rewrite (zsum_ext g f l1), (zsum_ext g f l2); [lia|..].
  - intros y Hy. apply Hg; set_solver.
  - intros y Hy. apply Hg; [set_solver|]. intros ->. apply (Hd x Hy). set_solver.
Qed.

End sums.

(** Terms gathered by the value they depend on. *)
Lemma zsum_by_value {A} (v : A → Z) (g : Z → Z) l B :
  NoDup B → (∀ x, x ∈ l → v x ∈ B) →
  zsum (λ x, g (v x)) l = zsum (λ b, g b * zsum (λ x, ind (v x = b)) l) B.
Proof.
  intros HB. induction l as [|x l IH]; intros Hv.
  { rewrite zsum_nil. symmetry. apply zsum_zero. intros b _. rewrite zsum_nil. lia. }
  rewrite zsum_cons, IH by set_solver.
  rewrite (zsum_update (λ b, g b * zsum (λ x, ind (v x = b)) l)
    (λ b, g b * zsum (λ x, ind (v x = b)) (x :: l)) B (v x) HB).
  - rewrite zsum_cons, ind_true by done. lia.
  - set_solver.
  - intros b _ Hb. rewrite zsum_cons, ind_false by done. lia.
Qed.
(** A count is at most the length. *)
Lemma zsum_ind_le {A} (P : A → Prop) `{∀ x, Decision (P x)} l : 0 ≤ zsum (λ x, ind (P x)) l ≤ Z.of_nat (length l).
Proof.
  split; [apply zsum_nonneg; intros; apply ind_range|].
  etrans; [apply (zsum_le _ (λ _, 1)); intros; apply ind_range|]. rewrite zsum_const. lia.
Qed.

(** Filters that keep everything or nothing. *)
Lemma filter_keep {A} (P : A → Prop) `{∀ x, Decision (P x)} l : Forall P l → filter P l = l.
Proof. induction 1 as [|x l Hx _ IH]; [done|]. by rewrite filter_cons, decide_True, IH. Qed.

Lemma filter_drop {A} (P : A → Prop) `{∀ x, Decision (P x)} l : Forall (λ x, ¬ P x) l → filter P l = [].
Proof. induction 1 as [|x l Hx _ IH]; [done|]. by rewrite filter_cons, decide_False, IH. Qed.
