(* ===== verification/Adler32.v ===== *)
(** Adler-32 ([src/zlib/adler32.c]): the checksum routine with its unrolled
    and deferred-modulo loops, the combination of two checksums, and the
    division-free variants of the reduction macros.  [W] is the width of
    [unsigned long] (32 on Windows, 64 on iOS); every sum is kept at it. *)

From Stdlib Require Import ZArith Lia.
From stdpp Require Import base option numbers list.
From S2P Require Import Prelude.

Open Scope Z_scope.

Definition BASE : Z := 65521.
Definition NMAX : Z := 5552.

Section adler32.
Context (W : Z).

Definition DO1 (buf : list Z) (p i : Z) (st : Z * Z) : option (Z * Z) :=
  b ← buf.[p + i];
  let adler := wrap W (st.1 + b) in
  Some (adler, wrap W (st.2 + adler)).

Definition DO2 (buf : list Z) (p i : Z) (st : Z * Z) : option (Z * Z) :=
  st ← DO1 buf p i st; DO1 buf p (i + 1) st.

Definition DO4 (buf : list Z) (p i : Z) (st : Z * Z) : option (Z * Z) :=
  st ← DO2 buf p i st; DO2 buf p (i + 2) st.

Definition DO8 (buf : list Z) (p i : Z) (st : Z * Z) : option (Z * Z) :=
  st ← DO4 buf p i st; DO4 buf p (i + 4) st.

Definition DO16 (buf : list Z) (p : Z) (st : Z * Z) : option (Z * Z) :=
  st ← DO8 buf p 0 st; DO8 buf p 8 st.

Definition MOD (a : Z) : Z := a mod BASE.
Definition MOD28 (a : Z) : Z := a mod BASE.
Definition MOD63 (a : Z) : Z := a mod BASE.

(** The loop [while (len--) { adler += *buf++; sum2 += adler; }]. *)
Record bytes_state := BytesState { b_len : Z; b_pos : Z; b_sums : Z * Z }.

Definition byte_loop (buf : list Z) (st : bytes_state) : option bytes_state :=
  while (Z.to_nat (b_len st)) (λ st, negb (b_len st =? 0))
    (λ st, s ← DO1 buf (b_pos st) 0 (b_sums st);
           Some (BytesState (b_len st - 1) (b_pos st + 1) s)) st.

(** The loop [while (len >= 16) { len -= 16; DO16(buf); buf += 16; }]. *)
Definition block16_loop (buf : list Z) (st : bytes_state) : option bytes_state :=
  while (Z.to_nat (b_len st)) (λ st, 16 <=? b_len st)
    (λ st, s ← DO16 buf (b_pos st) (b_sums st);
           Some (BytesState (b_len st - 16) (b_pos st + 16) s)) st.

(** [n = NMAX / 16; do { DO16(buf); buf += 16; } while (--n);] *)
Definition nmax_block (buf : list Z) (st : bytes_state) : option bytes_state :=
  for_up (Z.to_nat (NMAX / 16)) 0
    (λ _ st, s ← DO16 buf (b_pos st) (b_sums st);
             Some (BytesState (b_len st) (b_pos st + 16) s)) st.

(** The outer loop over blocks of [NMAX] bytes. *)
Definition nmax_loop (buf : list Z) (st : bytes_state) : option bytes_state :=
  while (Z.to_nat (b_len st)) (λ st, NMAX <=? b_len st)
    (λ st,
       st ← nmax_block buf (BytesState (b_len st - NMAX) (b_pos st) (b_sums st));
       Some (BytesState (b_len st) (b_pos st)
               (MOD (b_sums st).1, MOD (b_sums st).2))) st.

Definition recombine (adler sum2 : Z) : Z :=
  Z.lor adler (wrap W (Z.shiftl sum2 16)).

(** [buf] is [None] for [Z_NULL]; [None] as the result is a read outside the
    buffer (or through the null pointer). *)
Definition adler32_z (adler : Z) (buf : option (list Z)) (len : Z) : option Z :=
  let sum2 := Z.land (Z.shiftr adler 16) 65535 in
  let adler := Z.land adler 65535 in
  if len =? 1 then
    b ← buf;
    b0 ← b.[0];
    let adler := wrap W (adler + b0) in
    let adler := if BASE <=? adler then adler - BASE else adler in
    let sum2 := wrap W (sum2 + adler) in
    let sum2 := if BASE <=? sum2 then sum2 - BASE else sum2 in
    Some (recombine adler sum2)
  else
    match buf with
    | None => Some 1
    | Some buf =>
        if len <? 16 then
          st ← byte_loop buf (BytesState len 0 (adler, sum2));
          let adler := (b_sums st).1 in
          let adler := if BASE <=? adler then adler - BASE else adler in
          Some (recombine adler (MOD28 (b_sums st).2))
        else
          st ← nmax_loop buf (BytesState len 0 (adler, sum2));
          st ← (if b_len st =? 0 then Some st
                else
                  st ← block16_loop buf st;
                  st ← byte_loop buf st;
                  Some (BytesState 0 (b_pos st)
                          (MOD (b_sums st).1, MOD (b_sums st).2)));
          Some (recombine (b_sums st).1 (b_sums st).2)
    end.

Definition adler32 (adler : Z) (buf : option (list Z)) (len : Z) : option Z :=
  adler32_z adler buf len.

Definition adler32_combine_ (adler1 adler2 len2 : Z) : Z :=
  if len2 <? 0 then 4294967295
  else
    let rem := MOD63 len2 in
    let sum1 := Z.land adler1 65535 in
    let sum2 := MOD (wrap W (rem * sum1)) in
    let sum1 := wrap W (sum1 + wrap W (Z.land adler2 65535 + BASE - 1)) in
    let sum2 :=
      wrap W (sum2 + wrap W (Z.land (Z.shiftr adler1 16) 65535
                             + Z.land (Z.shiftr adler2 16) 65535 + BASE - rem)) in
    let sum1 := if BASE <=? sum1 then sum1 - BASE else sum1 in
    let sum1 := if BASE <=? sum1 then sum1 - BASE else sum1 in
    let sum2 := if 2 * BASE <=? sum2 then sum2 - 2 * BASE else sum2 in
    let sum2 := if BASE <=? sum2 then sum2 - BASE else sum2 in
    recombine sum1 sum2.

Definition adler32_combine (adler1 adler2 len2 : Z) : Z :=
  adler32_combine_ adler1 adler2 len2.

Definition adler32_combine64 (adler1 adler2 len2 : Z) : Z :=
  adler32_combine_ adler1 adler2 len2.

End adler32.

(** The variants of the reduction macros for processors without a divider
    ([NO_DIVIDE]): [CHOP], [MOD28], [MOD] and [MOD63]. *)

Definition CHOP (a : Z) : Z :=
  let tmp := Z.shiftr a 16 in
  Z.land a 65535 + (Z.shiftl tmp 4 - tmp).

Definition MOD28_no_divide (a : Z) : Z :=
  let a := CHOP a in if BASE <=? a then a - BASE else a.

Definition MOD_no_divide (a : Z) : Z := MOD28_no_divide (CHOP a).

Definition MOD63_no_divide (a : Z) : Z :=
  let tmp := Z.shiftr a 32 in
  let a := Z.land a 4294967295 in
  let a := a + (Z.shiftl tmp 8 - Z.shiftl tmp 5 + tmp) in
  let tmp := Z.shiftr a 16 in
  let a := Z.land a 65535 in
  let a := a + (Z.shiftl tmp 4 - tmp) in
  let tmp := Z.shiftr a 16 in
  let a := Z.land a 65535 in
  let a := a + (Z.shiftl tmp 4 - tmp) in
  if BASE <=? a then a - BASE else a.

(** ** Reference definition

    The two sums of RFC 1950, reduced after every byte. *)

Definition adler_step (s : Z * Z) (b : Z) : Z * Z :=
  let a := (s.1 + b) mod BASE in (a, (s.2 + a) mod BASE).

Definition adler_split (adler : Z) : Z * Z :=
  (adler mod 65536, adler / 65536 mod 65536).

Definition adler_join (s : Z * Z) : Z := s.1 + s.2 * 65536.

Definition adler32_ref (adler : Z) (data : list Z) : Z :=
  adler_join (foldl adler_step (adler_split adler) data).

(** Both sums are reduced. *)
Definition sums_reduced (s : Z * Z) : Prop := 0 ≤ s.1 < BASE ∧ 0 ≤ s.2 < BASE.
Definition adler_valid (adler : Z) : Prop :=
  sums_reduced (adler_split adler) ∧ in_width 32 adler.

(** ** Unreduced sums *)

Definition acc (s : Z * Z) (b : Z) : Z * Z := (s.1 + b, s.2 + s.1 + b).

(** [n] more bytes can be added without wrapping a 32-bit counter: the
    inequality in the comment on [NMAX], doubled. *)
Definition fits (s : Z * Z) (n : Z) : Prop :=
  0 ≤ s.1 ∧ 0 ≤ s.2 ∧ 0 ≤ n ∧ s.1 + 255 * n < 2 ^ 32 ∧
  2 * s.2 + 2 * n * s.1 + 255 * n * (n + 1) < 2 * 2 ^ 32.

Lemma fits_mono s m n : 0 ≤ m ≤ n → fits s n → fits s m.
Proof. unfold fits. intros. nia. Qed.

Lemma fits_acc s x n : in_width 8 x → fits s (n + 1) → 0 ≤ n → fits (acc s x) n.
Proof. unfold fits, acc, in_width. simpl. intros. nia. Qed.

Lemma sum_bound l s :
  bytes l → (foldl acc s l).1 ≤ s.1 + 255 * Z.of_nat (length l).
Proof.
  intros Hl. revert s. induction Hl as [|x l Hx Hl IH]; intros s; [simpl; lia|].
  cbn [foldl length]. etrans; [apply IH|]. unfold acc, in_width in *. simpl. lia.
Qed.

Lemma fits_reduced s n : sums_reduced s → 0 ≤ n ≤ NMAX → fits s n.
Proof. unfold sums_reduced, fits, BASE, NMAX. intros. nia. Qed.

Definition reduce (s : Z * Z) : Z * Z := (s.1 mod BASE, s.2 mod BASE).

Lemma adler_step_reduce s x : adler_step (reduce s) x = reduce (acc s x).
Proof.
  unfold adler_step, reduce, acc, BASE. simpl. f_equal.
  - apply Zplus_mod_idemp_l.
  - rewrite Zplus_mod_idemp_r, Zplus_mod_idemp_l, Z.add_shuffle3, Zplus_mod_idemp_l.
    f_equal. lia.
Qed.

Lemma foldl_acc_reduce s l : foldl adler_step (reduce s) l = reduce (foldl acc s l).
Proof.
  revert s. induction l as [|x l IH]; intros s; [done|].
  simpl. rewrite adler_step_reduce. apply IH.
Qed.

Lemma reduce_id s : sums_reduced s → reduce s = s.
Proof.
  destruct s. unfold sums_reduced, reduce. simpl. intros [? ?].
  rewrite !Z.mod_small by lia. done.
Qed.

Lemma reduce_reduced s : sums_reduced (reduce s).
Proof.
  unfold sums_reduced, reduce, BASE. simpl. split; apply Z.mod_pos_bound; lia.
Qed.

Lemma foldl_step_reduced s l : sums_reduced s → sums_reduced (foldl adler_step s l).
Proof.
  intros Hs. rewrite <-(reduce_id s) by done. rewrite foldl_acc_reduce. apply reduce_reduced.
Qed.

Lemma foldl_step_acc s l :
  sums_reduced s → foldl adler_step s l = reduce (foldl acc s l).
Proof. intros. rewrite <-foldl_acc_reduce, reduce_id by done. done. Qed.

(** ** The unrolled sums *)

Section unrolled.
Context (W : Z) (HW : 32 ≤ W) (buf : list Z) (Hbuf : bytes buf).

Definition runs (f : Z → Z → Z * Z → option (Z * Z)) (k : Z) : Prop :=
  ∀ p i s n, 0 ≤ p → 0 ≤ i → 0 ≤ n → p + i + k ≤ Z.of_nat (length buf) → fits s (n + k) →
  f p i s = Some (foldl acc s (slice buf (p + i) k)) ∧
  fits (foldl acc s (slice buf (p + i) k)) n.

Lemma DO1_runs : runs (DO1 W buf) 1.
Proof.
  intros p i s n Hp Hi Hn Hlen Hf. unfold DO1.
  destruct (aget_in buf (p + i)) as [x Hx]; [lia|].
  assert (in_width 8 x) as Hb.
  { apply aget_some in Hx as [_ Hx]. exact (Forall_lookup_1 _ _ _ _ Hbuf Hx). }
  assert (slice buf (p + i) 1 = [x]) as ->.
  { apply aget_some in Hx as [_ Hx]. unfold slice.
    rewrite (drop_S _ _ _ Hx). done. }
  assert (fits (acc s x) n) as Hf' by (apply fits_acc; [done..|lia]).
  split; [|done]. rewrite Hx. simpl. unfold acc.
  assert (2 ^ 32 ≤ 2 ^ W) by (apply Z.pow_le_mono_r; lia).
  destruct Hf' as (? & ? & ? & Ha & Hs). simpl in *.
  rewrite (wrap_small W (s.1 + x)) by (unfold in_width; lia).
  rewrite wrap_small by (unfold in_width; nia).
  do 2 f_equal. lia.
Qed.

Lemma runs_compose f g k :
  0 ≤ k → runs f k → runs g k →
  runs (λ p i s, s ← f p i s; g p (i + k) s) (k + k).
Proof.
  intros Hk Hf Hg p i s n Hp Hi Hn Hlen Hfit.
  destruct (Hf p i s (n + k)) as [E1 F1]; [lia..| |].
  { by replace (n + k + k) with (n + (k + k)) by lia. }
  destruct (Hg p (i + k) _ n Hp ltac:(lia) Hn ltac:(lia) F1) as [E2 F2].
  rewrite Z.add_assoc in E2, F2.
  rewrite slice_app, foldl_app by lia. rewrite E1. simpl. rewrite E2. done.
Qed.

Lemma DO16_run p s n :
  0 ≤ p → 0 ≤ n → p + 16 ≤ Z.of_nat (length buf) → fits s (n + 16) →
  DO16 W buf p s = Some (foldl acc s (slice buf p 16)) ∧
  fits (foldl acc s (slice buf p 16)) n.
Proof.
  intros Hp Hn Hlen Hf.
  pose proof (runs_compose _ _ 1 ltac:(lia) DO1_runs DO1_runs) as H2.
  pose proof (runs_compose _ _ 2 ltac:(lia) H2 H2) as H4.
  pose proof (runs_compose _ _ 4 ltac:(lia) H4 H4) as H8.
  pose proof (runs_compose _ _ 8 ltac:(lia) H8 H8) as H16.
  specialize (H16 p 0 s n Hp ltac:(lia) Hn ltac:(lia) Hf).
  rewrite Z.add_0_r in H16. exact H16.
Qed.

(** What the loops keep: the bytes consumed so far have been summed. *)
Definition summed (s0 : Z * Z) (p0 len0 : Z) (st : bytes_state) : Prop :=
  0 ≤ b_len st ∧ p0 ≤ b_pos st ∧ b_pos st + b_len st = p0 + len0 ∧
  b_sums st = foldl acc s0 (slice buf p0 (b_pos st - p0)) ∧
  fits (b_sums st) (b_len st).

Lemma summed_advance s0 p0 len0 st k s' :
  summed s0 p0 len0 st → 0 ≤ p0 → 0 ≤ k ≤ b_len st →
  s' = foldl acc (b_sums st) (slice buf (b_pos st) k) → fits s' (b_len st - k) →
  summed s0 p0 len0 (BytesState (b_len st - k) (b_pos st + k) s').
Proof.
  intros (? & ? & ? & Hs & ?) Hp Hk -> Hf. unfold summed. simpl.
  split_and!; [lia|lia|lia| |done].
  replace (b_pos st + k - p0) with (b_pos st - p0 + k) by lia.
  rewrite slice_app, foldl_app, <-Hs by lia. do 2 f_equal. lia.
Qed.

Lemma byte_loop_sums s0 p0 len0 st :
  0 ≤ p0 → p0 + len0 ≤ Z.of_nat (length buf) → summed s0 p0 len0 st →
  succeeds (byte_loop W buf st) (λ st', summed s0 p0 len0 st' ∧ b_len st' = 0).
Proof.
  intros Hp0 Hlen Hst. unfold byte_loop.
  eapply succeeds_mono.
  - apply (while_total (summed s0 p0 len0) (λ st, Z.to_nat (b_len st))); [|done..].
    intros st' Hs Hc. apply negb_true_iff, Z.eqb_neq in Hc.
    pose proof Hs as (? & ? & ? & ? & Hf).
    destruct (DO1_runs (b_pos st') 0 (b_sums st') (b_len st' - 1)) as [-> F];
      [lia..|by replace (b_len st' - 1 + 1) with (b_len st') by lia|].
    rewrite Z.add_0_r in *. cbn. split; [|lia].
    apply summed_advance; [done|lia|lia|done|done].
  - simpl. intros st' [? Hc]. split; [done|]. apply negb_false_iff, Z.eqb_eq in Hc. done.
Qed.

Lemma block16_loop_sums s0 p0 len0 st :
  0 ≤ p0 → p0 + len0 ≤ Z.of_nat (length buf) → summed s0 p0 len0 st →
  succeeds (block16_loop W buf st) (summed s0 p0 len0).
Proof.
  intros Hp0 Hlen Hst. unfold block16_loop.
  eapply succeeds_mono.
  - apply (while_total (summed s0 p0 len0) (λ st, Z.to_nat (b_len st))); [|done..].
    intros st' Hs Hc%Z.leb_le. pose proof Hs as (? & ? & ? & ? & Hf).
    destruct (DO16_run (b_pos st') (b_sums st') (b_len st' - 16)) as [-> F];
      [lia..|by replace (b_len st' - 16 + 16) with (b_len st') by lia|].
    cbn. split; [|lia]. apply summed_advance; [done|lia|lia|done|done].
  - intros ? [? ?]. done.
Qed.

Lemma nmax_block_sums p0 len s0 :
  0 ≤ p0 → p0 + NMAX ≤ Z.of_nat (length buf) → sums_reduced s0 →
  succeeds (nmax_block W buf (BytesState len p0 s0))
    (λ st, st = BytesState len (p0 + NMAX) (foldl acc s0 (slice buf p0 NMAX))).
Proof.
  intros Hp0 Hlen Hs0. unfold nmax_block.
  set (I := λ (j : Z) st, 
    st = BytesState len (p0 + 16 * j) (foldl acc s0 (slice buf p0 (16 * j)))
    ∧ fits (foldl acc s0 (slice buf p0 (16 * j))) (NMAX - 16 * j)).
  eapply succeeds_mono; [apply (for_up_total I)|].
  - intros j st Hj [-> Hf]. change (Z.of_nat (Z.to_nat (NMAX / 16))) with 347 in Hj.
    unfold NMAX in *. cbn.
    destruct (DO16_run (p0 + 16 * j) (foldl acc s0 (slice buf p0 (16 * j)))
                (5552 - 16 * (j + 1))) as [-> F]; [lia..| |].
    { by replace (5552 - 16 * (j + 1) + 16) with (5552 - 16 * j) by lia. }
    cbn. unfold I. replace (16 * (j + 1)) with (16 * j + 16) by lia.
    rewrite slice_app, foldl_app by lia. split; [f_equal; lia|].
    by replace (5552 - (16 * j + 16)) with (5552 - 16 * (j + 1)) by lia.
  - unfold I. rewrite Z.mul_0_r, Z.add_0_r. split; [done|].
    apply fits_reduced; [done|unfold NMAX; lia].
  - intros st [-> _]. done.
Qed.

Lemma nmax_loop_sums len s0 :
  0 ≤ len ≤ Z.of_nat (length buf) → sums_reduced s0 →
  succeeds (nmax_loop W buf (BytesState len 0 s0)) (λ st,
    0 ≤ b_len st < NMAX ∧ 0 ≤ b_pos st ∧ b_pos st + b_len st = len ∧
    sums_reduced (b_sums st) ∧
    b_sums st = foldl adler_step s0 (slice buf 0 (b_pos st))).
Proof.
  intros Hlen Hs0. unfold nmax_loop.
  set (I := λ st, 0 ≤ b_len st ∧ 0 ≤ b_pos st ∧ b_pos st + b_len st = len ∧
    sums_reduced (b_sums st) ∧
    b_sums st = foldl adler_step s0 (slice buf 0 (b_pos st))).
  eapply succeeds_mono.
  - apply (while_total I (λ st, Z.to_nat (b_len st))); [|unfold I; cbn; split_and!; (lia||done)|done].
    intros st (? & ? & ? & Hr & Hs) Hc%Z.leb_le. unfold NMAX in Hc.
    eapply succeeds_bind; [apply nmax_block_sums; [done|unfold NMAX; lia|done]|].
    intros ? ->. cbn. unfold I, NMAX in *. cbn. split; [|lia].
    split_and!; [lia..|apply reduce_reduced|].
    rewrite slice_app, foldl_app, <-Hs by lia.
    rewrite foldl_step_acc by done. done.
  - intros st [(? & ? & ? & ? & ?) Hc%Z.leb_gt]. split_and!; (done || lia).
Qed.

End unrolled.

(** ** Splitting and packing *)

Lemma land_65535 x : Z.land x 65535 = x mod 65536.
Proof. exact (Z.land_ones x 16 ltac:(lia)). Qed.

Lemma split_sums adler :
  (Z.land adler 65535, Z.land (Z.shiftr adler 16) 65535) = adler_split adler.
Proof. unfold adler_split. rewrite !land_65535, Z.shiftr_div_pow2 by lia. done. Qed.

Lemma recombine_join W s :
  32 ≤ W → sums_reduced s → recombine W s.1 s.2 = adler_join s.
Proof.
  unfold sums_reduced, recombine, adler_join, BASE. intros HW [? ?].
  assert (2 ^ 32 ≤ 2 ^ W) by (apply Z.pow_le_mono_r; lia).
  rewrite wrap_small by (unfold in_width; rewrite Z.shiftl_mul_pow2 by lia; lia).
  apply lor_shiftl_add; [lia|unfold in_width; lia].
Qed.

Lemma adler_join_valid s : sums_reduced s → adler_valid (adler_join s).
Proof.
  destruct s as [a b]. unfold adler_valid, sums_reduced, adler_split, adler_join, BASE, in_width.
  simpl. intros [? ?].
  rewrite Z.mod_add, Z.div_add, (Z.div_small a), (Z.mod_small a) by lia.
  rewrite Z.mod_small by lia. lia.
Qed.

Lemma reduce_small_1 a : 0 ≤ a < 2 * BASE → (if BASE <=? a then a - BASE else a) = a mod BASE.
Proof.
  unfold BASE. intros. destruct (Z.leb_spec 65521 a).
  - rewrite <-(Z.mod_small (a - 65521) 65521) by lia.
    rewrite <-(Z.mod_add (a - 65521) 1) by lia. f_equal. lia.
  - rewrite Z.mod_small by lia. done.
Qed.

Section branches.
Context (W : Z) (HW : 32 ≤ W) (buf : list Z) (Hbuf : bytes buf).
Context (s0 : Z * Z) (Hs0 : sums_reduced s0).

Lemma adler_one_byte x :
  in_width 8 x →
  (let a := if BASE <=? wrap W (s0.1 + x) then wrap W (s0.1 + x) - BASE
            else wrap W (s0.1 + x) in
   let b := wrap W (s0.2 + a) in
   (a, if BASE <=? b then b - BASE else b)) = adler_step s0 x.
Proof.
  destruct Hs0 as [H1 H2]. unfold BASE in H1, H2. intros [? ?]. simpl.
  assert (2 ^ 32 ≤ 2 ^ W) by (apply Z.pow_le_mono_r; lia).
  rewrite !(wrap_small W (s0.1 + x)) by (unfold in_width; lia).
  rewrite (reduce_small_1 (s0.1 + x)) by (unfold BASE; lia).
  pose proof (Z.mod_pos_bound (s0.1 + x) BASE eq_refl).
  rewrite wrap_small by (unfold in_width, BASE in *; lia).
  rewrite (reduce_small_1 (s0.2 + _)) by (unfold BASE in *; lia). done.
Qed.

Lemma summed_start p len : 0 ≤ p → 0 ≤ len ≤ NMAX →
  summed buf s0 p len (BytesState len p s0).
Proof.
  intros. unfold summed. cbn. rewrite Z.sub_diag.
  split_and!; [lia..|done|by apply fits_reduced].
Qed.

Lemma adler_short len :
  0 ≤ len < 16 → len ≤ Z.of_nat (length buf) →
  succeeds (byte_loop W buf (BytesState len 0 s0)) (λ st,
    let a := (b_sums st).1 in
    (if BASE <=? a then a - BASE else a, MOD28 (b_sums st).2)
      = foldl adler_step s0 (slice buf 0 len)).
Proof.
  intros Hlen Hin. eapply succeeds_mono.
  { apply (byte_loop_sums W HW buf Hbuf s0 0 len); [lia..|].
    apply summed_start; unfold NMAX; lia. }
  simpl. intros st [(? & ? & ? & Hs & Hfit) Hl0].
  assert (b_pos st = len) as Hpos by lia. rewrite Hpos, Z.sub_0_r in Hs.
  rewrite foldl_step_acc, Hs by done. unfold reduce, MOD28. f_equal.
  apply reduce_small_1. split.
  - rewrite <-Hs. apply Hfit.
  - pose proof (sum_bound (slice buf 0 len) s0 (slice_bytes _ _ _ Hbuf)) as Hb.
    assert (length (slice buf 0 len) ≤ Z.to_nat len)%nat
      by (unfold slice; rewrite length_take; lia).
    destruct Hs0 as [? _]. unfold BASE in *. lia.
Qed.

Lemma adler_tail st :
  0 ≤ b_len st < NMAX → 0 ≤ b_pos st → b_pos st + b_len st ≤ Z.of_nat (length buf) →
  sums_reduced (b_sums st) →
  succeeds
    (if b_len st =? 0 then Some st
     else st ← block16_loop W buf st;
          st ← byte_loop W buf st;
          Some (BytesState 0 (b_pos st) (MOD (b_sums st).1, MOD (b_sums st).2)))
    (λ st', b_sums st' = foldl adler_step (b_sums st) (slice buf (b_pos st) (b_len st))).
Proof.
  intros Hlen Hpos Hin Hr. destruct (Z.eqb_spec (b_len st) 0) as [E|E].
  { rewrite E. done. }
  assert (summed buf (b_sums st) (b_pos st) (b_len st) st) as Hst.
  { unfold summed. rewrite Z.sub_diag. split_and!; [lia..|done|].
    apply fits_reduced; [done|lia]. }
  eapply succeeds_bind; [by apply block16_loop_sums|]. intros st1 H1. cbn beta.
  eapply succeeds_bind; [by eapply byte_loop_sums|]. intros st2 [(? & ? & ? & Hs & ?) ?].
  cbn. rewrite foldl_step_acc by done.
  change (MOD (b_sums st2).1, MOD (b_sums st2).2) with (reduce (b_sums st2)).
  rewrite Hs. do 3 f_equal. lia.
Qed.

End branches.

Lemma adler32_z_ref (W adler len : Z) (buf : list Z) :
  32 ≤ W → bytes buf → adler_valid adler → 0 ≤ len ≤ Z.of_nat (length buf) →
  adler32_z W adler (Some buf) len = Some (adler32_ref adler (take (Z.to_nat len) buf)) ∧
  adler_valid (adler32_ref adler (take (Z.to_nat len) buf)).
Proof.
  intros HW Hbuf [Hs0 _] Hlen. split; [|by apply adler_join_valid, foldl_step_reduced].
  unfold adler32_z, adler32_ref. cbv zeta.
  assert (Z.land adler 65535 = (adler_split adler).1) as -> by by rewrite <-split_sums.
  assert (Z.land (Z.shiftr adler 16) 65535 = (adler_split adler).2) as ->
    by by rewrite <-split_sums.
  set (s0 := adler_split adler) in *.
  assert (take (Z.to_nat len) buf = slice buf 0 len) as -> by done.
  destruct (Z.eqb_spec len 1) as [->|Hl1].
  - destruct (aget_in buf 0) as [x Hx]; [lia|].
    apply aget_some in Hx as Hx'. destruct Hx' as [_ Hx'].
    pose proof (adler_one_byte W HW s0 Hs0 x (Forall_lookup_1 _ _ _ _ Hbuf Hx')) as H1.
    simpl. rewrite Hx. simpl. f_equal. cbn zeta in H1. unfold slice.
    rewrite (drop_S _ _ _ Hx'). simpl. rewrite <-H1.
    rewrite <-(recombine_join W); [done..|]. rewrite H1. by apply (foldl_step_reduced s0 [x]).
  - destruct (Z.ltb_spec len 16).
    + rewrite <-(surjective_pairing s0).
      destruct (succeeds_elim _ _ (adler_short W HW buf Hbuf s0 Hs0 len ltac:(lia) ltac:(lia)))
        as (st & -> & Hst).
      simpl. f_equal. rewrite <-Hst, <-(recombine_join W); [done..|].
      rewrite Hst. by apply foldl_step_reduced.
    + rewrite <-(surjective_pairing s0).
      destruct (succeeds_elim _ _ (nmax_loop_sums W HW buf Hbuf len s0 ltac:(lia) Hs0))
        as (st & -> & ? & ? & ? & Hr & Hst). simpl.
      destruct (succeeds_elim _ _ (adler_tail W HW buf Hbuf st ltac:(lia) ltac:(lia) ltac:(lia) Hr))
        as (st' & -> & Hst'). simpl. f_equal.
      rewrite recombine_join by (done || rewrite Hst'; by apply foldl_step_reduced).
      rewrite Hst', Hst, <-foldl_app.
      replace len with (b_pos st + b_len st) by lia. rewrite slice_app by lia. done.
Qed.

(** ** Combination *)

Lemma acc_shift l a b :
  foldl acc (a, b) l =
  (a + (foldl acc (0, 0) l).1, b + Z.of_nat (length l) * a + (foldl acc (0, 0) l).2).
Proof.
  revert a b. induction l as [|x l IH]; intros a b; [simpl; f_equal; lia|].
  cbn [foldl length]. unfold acc at 2 4 6; cbn [fst snd].
  rewrite IH, (IH (0 + x)). cbn [fst snd]. f_equal; lia.
Qed.

Lemma step_shift l a b :
  sums_reduced (a, b) →
  (foldl adler_step (a, b) l).1 = (a + (foldl acc (0, 0) l).1) mod BASE ∧
  (foldl adler_step (a, b) l).2
    = (b + Z.of_nat (length l) * a + (foldl acc (0, 0) l).2) mod BASE.
Proof. intros. rewrite foldl_step_acc, acc_shift by done. done. Qed.

Lemma split_join s : sums_reduced s → adler_split (adler_join s) = s.
Proof.
  destruct s as [a b]. unfold sums_reduced, adler_split, adler_join, BASE. simpl. intros [? ?].
  rewrite Z.mod_add, Z.div_add, (Z.div_small a), (Z.mod_small a) by lia.
  rewrite Z.mod_small by lia. done.
Qed.

Lemma land_split x :
  Z.land x 65535 = (adler_split x).1 ∧ Z.land (Z.shiftr x 16) 65535 = (adler_split x).2.
Proof. rewrite <-split_sums. done. Qed.

Lemma reduce_small_2 a :
  0 ≤ a < 4 * BASE →
  (let a := if 2 * BASE <=? a then a - 2 * BASE else a in
   if BASE <=? a then a - BASE else a) = a mod BASE.
Proof.
  intros Ha. cbv zeta. unfold BASE in *.
  destruct (Z.leb_spec (2 * 65521) a).
  - rewrite reduce_small_1 by (unfold BASE; lia). unfold BASE.
    rewrite <-(Z.mod_add (a - 2 * 65521) 2) by lia. f_equal. lia.
  - apply reduce_small_1. unfold BASE. lia.
Qed.

Lemma reduce_twice a :
  0 ≤ a < 3 * BASE →
  (let a := if BASE <=? a then a - BASE else a in
   if BASE <=? a then a - BASE else a) = a mod BASE.
Proof.
  intros Ha. cbv zeta. destruct (Z.leb_spec BASE a).
  - rewrite reduce_small_1 by lia. rewrite <-(Z.mod_add (a - BASE) 1) by done. f_equal. lia.
  - apply reduce_small_1. unfold BASE in *. lia.
Qed.

Lemma combine_sums W s1 s2 n :
  32 ≤ W → sums_reduced s1 → sums_reduced s2 → 0 ≤ n →
  adler32_combine_ W (adler_join s1) (adler_join s2) n =
  adler_join ((s1.1 + s2.1 - 1) mod BASE, (s1.2 + s2.2 + n * s1.1 - n) mod BASE).
Proof.
  intros HW H1 H2 Hn. unfold adler32_combine_.
  destruct (Z.ltb_spec n 0); [lia|]. cbv zeta.
  destruct (land_split (adler_join s1)) as [-> ->].
  destruct (land_split (adler_join s2)) as [-> ->].
  rewrite !split_join by done. unfold MOD63, MOD.
  destruct s1 as [a1 b1], s2 as [a2 b2], H1 as [? ?], H2 as [? ?]. cbn [fst snd] in *.
  pose proof (Z.mod_pos_bound n BASE eq_refl) as Hr. set (rem := n mod BASE) in *.
  assert (2 ^ 32 ≤ 2 ^ W) by (apply Z.pow_le_mono_r; lia).
  pose proof (Z.mod_pos_bound (rem * a1) BASE eq_refl) as Hm.
  rewrite (wrap_small W (rem * a1)) by (unfold in_width, BASE in *; nia).
  rewrite !(wrap_small W (a2 + BASE - 1)) by (unfold in_width, BASE in *; lia).
  rewrite !(wrap_small W (b1 + b2 + BASE - rem)) by (unfold in_width, BASE in *; lia).
  rewrite !(wrap_small W (a1 + _)) by (unfold in_width, BASE in *; lia).
  rewrite !(wrap_small W (_ mod BASE + _)) by (unfold in_width, BASE in *; lia).
  rewrite (reduce_small_2 (_ mod BASE + _)) by (unfold BASE in *; lia).
  rewrite (reduce_twice (a1 + _)) by (unfold BASE in *; lia).
  set (s := (_ mod BASE, _ mod BASE)).
  transitivity (recombine W s.1 s.2);
    [|apply recombine_join; [done|split; apply Z.mod_pos_bound; done]].
  unfold s. cbn [fst snd]. f_equal.
  - rewrite <-(Z.mod_add (a1 + a2 - 1) 1) by done. f_equal. lia.
  - rewrite Zplus_mod_idemp_l.
    pose proof (Z.div_mod n BASE ltac:(done)) as Hd. fold rem in Hd.
    rewrite <-(Z.mod_add (rem * a1 + _) (n / BASE * a1 - n / BASE - 1)) by done.
    f_equal. rewrite Hd at 3 4. ring.
Qed.

Lemma adler32_ref_app adler d1 d2 :
  sums_reduced (adler_split adler) →
  let s1 := foldl adler_step (adler_split adler) d1 in
  let s2 := foldl adler_step (1, 0) d2 in
  let n := Z.of_nat (length d2) in
  adler32_ref adler (d1 ++ d2) =
  adler_join ((s1.1 + s2.1 - 1) mod BASE, (s1.2 + s2.2 + n * s1.1 - n) mod BASE).
Proof.
  intros Hs s1 s2 n. unfold adler32_ref. rewrite foldl_app.
  assert (sums_reduced s1) as H1 by by apply foldl_step_reduced. fold s1.
  assert (sums_reduced (1, 0)) as H0 by (unfold sums_reduced, BASE; simpl; lia).
  destruct (step_shift d2 1 0 H0) as [E1 E2]. fold s2 in E1, E2.
  rewrite E1, E2. destruct s1 as [a1 b1].
  destruct (step_shift d2 a1 b1 H1) as [F1 F2]. cbn [fst snd].
  rewrite (surjective_pairing (foldl adler_step (a1, b1) d2)), F1, F2. fold n. do 2 f_equal.
  - rewrite Z.add_sub_swap, Zplus_mod_idemp_r. f_equal. lia.
  - set (x := (0 + n * 1 + _) mod BASE).
    replace (b1 + x + n * a1 - n) with (x + (b1 + n * a1 - n)) by lia.
    unfold x. rewrite Zplus_mod_idemp_l. f_equal. lia.
Qed.

(** ** The division-free reductions *)

Lemma land_pow2 a k : 0 ≤ k → Z.land a (2 ^ k - 1) = a mod 2 ^ k.
Proof. intros. rewrite <-Z.land_ones, Z.ones_equiv by done. f_equal. Qed.

Lemma CHOP_spec a : CHOP a = a mod 65536 + 15 * (a / 65536).
Proof.
  unfold CHOP. cbv zeta. rewrite land_65535, Z.shiftl_mul_pow2, Z.shiftr_div_pow2 by lia.
  change (2 ^ 16) with 65536. lia.
Qed.

Lemma CHOP_cong a : CHOP a mod BASE = a mod BASE.
Proof.
  rewrite CHOP_spec. rewrite (Z.div_mod a 65536) at 3 by lia.
  rewrite <-(Z.mod_add (_ + 15 * _) (a / 65536)) by done.
  f_equal. unfold BASE. lia.
Qed.

Lemma MOD28_small a : 0 ≤ a < 2 ^ 28 → MOD28_no_divide a = a mod BASE.
Proof.
  intros Ha. unfold MOD28_no_divide. cbv zeta. rewrite <-CHOP_cong.
  apply reduce_small_1. rewrite CHOP_spec. unfold BASE.
  pose proof (Z.mod_pos_bound a 65536 ltac:(lia)).
  assert (0 ≤ a / 65536 < 4096) by (split; [apply Z.div_pos|apply Z.div_lt_upper_bound]; lia).
  lia.
Qed.

Lemma MOD63_fold a :
  0 ≤ a < 2 ^ 63 →
  let a1 := Z.land a 4294967295 + (Z.shiftl (Z.shiftr a 32) 8 - Z.shiftl (Z.shiftr a 32) 5
                                   + Z.shiftr a 32) in
  a1 mod BASE = a mod BASE ∧ 0 ≤ a1 < 2 ^ 40.
Proof.
  intros Ha. cbv zeta. change 4294967295 with (2 ^ 32 - 1). rewrite land_pow2 by lia.
  rewrite !Z.shiftl_mul_pow2, Z.shiftr_div_pow2 by lia.
  pose proof (Z.div_mod a (2 ^ 32) ltac:(lia)) as Hd.
  pose proof (Z.mod_pos_bound a (2 ^ 32) ltac:(lia)).
  assert (0 ≤ a / 2 ^ 32 < 2 ^ 31) by (split; [apply Z.div_pos|apply Z.div_lt_upper_bound]; lia).
  split; [|lia].
  rewrite Hd at 5.
  rewrite <-(Z.mod_add (a mod 2 ^ 32 + _) (65551 * (a / 2 ^ 32))) by done.
  f_equal. unfold BASE. lia.
Qed.

(** ** The properties *)

(** For every buffer of bytes, every valid running checksum and every
    length within the buffer, [adler32_z] reads inside the buffer and returns
    the checksum that the definition of RFC 1950 (reduce after each byte)
    gives for those bytes: the one-byte and short-length fast paths, the
    blocks of NMAX bytes with a single modulo each and the unrolled sums all
    agree with it, on 32-bit and wider [unsigned long] alike. *)
Theorem adler32_z_correct (W adler len : Z) (buf : list Z) :
  32 ≤ W → bytes buf → adler_valid adler → 0 ≤ len ≤ Z.of_nat (length buf) →
  adler32_z W adler (Some buf) len = Some (adler32_ref adler (take (Z.to_nat len) buf)) ∧
  adler_valid (adler32_ref adler (take (Z.to_nat len) buf)).
Proof. apply adler32_z_ref. Qed.

(** Nine bytes through the short path; the reference value is the published
    checksum of "Wikipedia". *)
Lemma adler32_z_correct_witness :
  adler32_z 32 1 (Some [87;105;107;105;112;101;100;105;97]) 9 = Some 300286872.
Proof.
  destruct (adler32_z_correct 32 1 9 [87;105;107;105;112;101;100;105;97]) as [H _].
  - lia.
  - repeat constructor; unfold in_width; lia.
  - split; [split; vm_compute; done|vm_compute; done].
  - simpl; lia.
  - rewrite H. vm_compute. reflexivity.
Defined.

(** Combining the checksum of a first piece of data with the checksum of
    a second piece (computed from the initial value 1) and the second piece's
    length gives the checksum of the concatenation. *)
Theorem adler32_combine_concat (W adler c1 c2 : Z) (d1 d2 : list Z) :
  32 ≤ W → bytes d1 → bytes d2 → adler_valid adler →
  adler32 W adler (Some d1) (Z.of_nat (length d1)) = Some c1 →
  adler32 W 1 (Some d2) (Z.of_nat (length d2)) = Some c2 →
  adler32 W adler (Some (d1 ++ d2)) (Z.of_nat (length (d1 ++ d2)))
  = Some (adler32_combine W c1 c2 (Z.of_nat (length d2))).
Proof.
  intros HW H1 H2 Ha E1 E2. unfold adler32, adler32_combine in *.
  assert (adler_valid 1) as Hone by (split; [split|]; vm_compute; done).
  destruct (adler32_z_ref W adler (Z.of_nat (length d1)) d1 HW H1 Ha ltac:(lia)) as [F1 _].
  destruct (adler32_z_ref W 1 (Z.of_nat (length d2)) d2 HW H2 Hone ltac:(lia)) as [F2 _].
  destruct (adler32_z_ref W adler (Z.of_nat (length (d1 ++ d2))) (d1 ++ d2) HW) as [F _];
    [by apply Forall_app|done|lia|].
  rewrite Nat2Z.id, firstn_all in F1, F2, F. rewrite E1 in F1. rewrite E2 in F2.
  simplify_eq. rewrite F, adler32_ref_app by apply Ha. f_equal. symmetry.
  apply combine_sums; [done|..|lia]; apply foldl_step_reduced; [apply Ha|apply Hone].
Qed.

Lemma adler32_combine_concat_witness :
  adler32 32 1 (Some ([1;2] ++ [3;4;5])) 5 = Some (adler32_combine 32 393220 1638413 3).
Proof.
  apply (adler32_combine_concat 32 1 393220 1638413 [1;2] [3;4;5]).
  - lia.
  - repeat constructor; unfold in_width; lia.
  - repeat constructor; unfold in_width; lia.
  - split; [split|]; vm_compute; done.
  - vm_compute. reflexivity.
  - vm_compute. reflexivity.
Defined.

(** The division-free reductions selected by [NO_DIVIDE] compute the same
    remainders modulo 65521 as the [%] versions, on the ranges on which the
    code applies them. *)
Theorem no_divide_equiv (a : Z) :
  0 ≤ a →
  (a < 2 ^ 28 → MOD28_no_divide a = MOD28 a) ∧
  (a < 2 ^ 32 → MOD_no_divide a = MOD a) ∧
  (a < 2 ^ 63 → MOD63_no_divide a = MOD63 a).
Proof.
  intros Ha. split_and!; intros Hlt.
  - by apply MOD28_small.
  - unfold MOD_no_divide, MOD. rewrite MOD28_small; [apply CHOP_cong|].
    rewrite CHOP_spec. pose proof (Z.mod_pos_bound a 65536 ltac:(lia)).
    assert (0 ≤ a / 65536 < 65536) by (split; [apply Z.div_pos|apply Z.div_lt_upper_bound]; lia).
    lia.
  - unfold MOD63_no_divide, MOD63. destruct (MOD63_fold a ltac:(lia)) as [E R].
    cbv zeta in *. set (a1 := Z.land a _ + _) in *.
    change (Z.land a1 65535 + _) with (CHOP a1). rewrite <-E, <-(CHOP_cong a1).
    apply MOD28_small. rewrite CHOP_spec. pose proof (Z.mod_pos_bound a1 65536 ltac:(lia)).
    assert (0 ≤ a1 / 65536 < 2 ^ 24) by (split; [apply Z.div_pos|apply Z.div_lt_upper_bound]; lia).
    lia.
Qed.

Lemma no_divide_equiv_witness :
  0 ≤ 4294967295 ∧ MOD_no_divide 4294967295 = MOD 4294967295.
Proof. split; [lia|]. apply (no_divide_equiv 4294967295); lia. Defined.
