(* ===== verification/CrcTheory.v ===== *)
(** * CrcTheory: shift-register checksums over GF(2)

    The two 32-bit cyclic redundancy checks of the sources (zlib/crc32.c and
    leveldb/util/crc32c.cc) differ only in the generator polynomial.  This
    file has what they share: the register advanced one bit and one byte at a
    time, its linearity, and the split of a 32-bit word into bytes that
    justifies the table-driven steps. *)
From Stdlib Require Import ZArith Lia.
From stdpp Require Import base option numbers list.
From S2P Require Import Prelude.
Local Open Scope Z_scope.
Local Open Scope c_scope.

(** The generator polynomial, bit-reversed and without its leading term; its
    constant term is 1, the top bit here. *)
Class CrcPoly := { poly : Z; poly_width : in_width 32 poly; poly_top : 2 ^ 31 ≤ poly }.

(** ** Linearity over GF(2) *)

Definition linear (f : Z → Z) : Prop :=
  ∀ a b, f (Z.lxor a b) = Z.lxor (f a) (f b).

Lemma odd_lxor a b : Z.odd (Z.lxor a b) = xorb (Z.odd a) (Z.odd b).
Proof. rewrite <-!Z.bit0_odd. apply Z.lxor_spec. Qed.

Lemma lxor_shuffle a b c d :
  Z.lxor (Z.lxor a b) (Z.lxor c d) = Z.lxor (Z.lxor a c) (Z.lxor b d).
Proof.
  rewrite !Z.lxor_assoc. f_equal. rewrite <-!Z.lxor_assoc. f_equal. apply Z.lxor_comm.
Qed.

Lemma linear_iter f n : linear f → linear (Nat.iter n f).
Proof. intros Hf a b. induction n as [|n IH]; simpl; [done|]. rewrite IH. apply Hf. Qed.

Lemma linear_0 f : linear f → f 0 = 0.
Proof.
  intros Hf. specialize (Hf 0 0). rewrite !Z.lxor_nilpotent in Hf. done.
Qed.

Lemma iter_width f n c :
  (∀ x, in_width 32 x → in_width 32 (f x)) → in_width 32 c → in_width 32 (Nat.iter n f c).
Proof. intros Hf Hc. induction n; simpl; auto. Qed.

Lemma lxor_split c k : 0 ≤ k →
  c = Z.lxor (c mod 2 ^ k) (Z.shiftl (Z.shiftr c k) k).
Proof.
  intros Hk. apply Z.bits_inj'. intros i Hi. rewrite Z.lxor_spec.
  destruct (decide (i < k)).
  - rewrite Z.mod_pow2_bits_low, Z.shiftl_spec_low by lia. by rewrite xorb_false_r.
  - rewrite Z.mod_pow2_bits_high, Z.shiftl_spec, Z.shiftr_spec by lia.
    rewrite xorb_false_l. f_equal. lia.
Qed.

Lemma land_byte x : Z.land x 255 = x mod 2 ^ 8.
Proof. exact (Z.land_ones x 8 ltac:(lia)). Qed.

(** ** Words and their byte order *)

Definition word (b0 b1 b2 b3 : Z) : Z :=
  Z.lxor (Z.lxor (Z.lxor b0 (Z.shiftl b1 8)) (Z.shiftl b2 16)) (Z.shiftl b3 24).

Definition byte_at (k : Z) (x : Z) : Z := Z.land (Z.shiftr x (8 * k)) 255.

Lemma byte_at_width k x : in_width 8 (byte_at k x).
Proof. unfold byte_at. rewrite land_byte. apply (wrap_range 8). lia. Qed.

Lemma byte_at_linear k : linear (byte_at k).
Proof.
  intros a b. unfold byte_at. rewrite Z.shiftr_lxor. apply Z.bits_inj'. intros i Hi.
  rewrite !Z.lxor_spec, !Z.land_spec, !Z.lxor_spec.
  destruct (Z.testbit (Z.shiftr a _) i), (Z.testbit (Z.shiftr b _) i), (Z.testbit 255 i); done.
Qed.

Lemma lxor_shiftl_add a b k :
  0 ≤ k → in_width k a → Z.lxor a (Z.shiftl b k) = a + Z.shiftl b k.
Proof.
  intros Hk Ha. symmetry. apply Z.add_nocarry_lxor, Z.bits_inj'.
  intros i Hi. rewrite Z.land_spec, Z.bits_0. destruct (decide (i < k)).
  - rewrite Z.shiftl_spec_low by lia. apply andb_false_r.
  - rewrite (testbit_above k) by (done || lia). done.
Qed.

Lemma word_add b0 b1 b2 b3 :
  in_width 8 b0 → in_width 8 b1 → in_width 8 b2 → in_width 8 b3 →
  word b0 b1 b2 b3 = b0 + Z.shiftl b1 8 + Z.shiftl b2 16 + Z.shiftl b3 24.
Proof.
  unfold word. intros [? ?] [? ?] [? ?] [? ?].
  rewrite (lxor_shiftl_add b0) by (done || lia).
  rewrite (lxor_shiftl_add (b0 + _)) by (unfold in_width; rewrite ?Z.shiftl_mul_pow2; lia).
  rewrite lxor_shiftl_add by (unfold in_width; rewrite ?Z.shiftl_mul_pow2; lia). done.
Qed.

Lemma word_lxor a0 a1 a2 a3 b0 b1 b2 b3 :
  Z.lxor (word a0 a1 a2 a3) (word b0 b1 b2 b3) =
  word (Z.lxor a0 b0) (Z.lxor a1 b1) (Z.lxor a2 b2) (Z.lxor a3 b3).
Proof.
  unfold word. rewrite !Z.shiftl_lxor, lxor_shuffle. f_equal.
  rewrite lxor_shuffle. f_equal. apply lxor_shuffle.
Qed.

Lemma word_testbit b0 b1 b2 b3 i :
  in_width 8 b0 → in_width 8 b1 → in_width 8 b2 → in_width 8 b3 → 0 ≤ i →
  Z.testbit (word b0 b1 b2 b3) i =
  if i <? 8 then Z.testbit b0 i else if i <? 16 then Z.testbit b1 (i - 8)
  else if i <? 24 then Z.testbit b2 (i - 16) else Z.testbit b3 (i - 24).
Proof.
  intros H0 H1 H2 H3 Hi. unfold word. rewrite !Z.lxor_spec, !Z.shiftl_spec by lia.
  destruct (Z.ltb_spec i 8), (Z.ltb_spec i 16), (Z.ltb_spec i 24); try lia;
  repeat match goal with
  | |- context [Z.testbit ?b ?j] =>
      first [rewrite (Z.testbit_neg_r b j) by lia
            |rewrite (testbit_above 8 b j) by (done || lia)]
  end; destruct (Z.testbit _ _); done.
Qed.

Lemma byte_at_testbit k x i :
  0 ≤ k → 0 ≤ i < 8 → Z.testbit (byte_at k x) i = Z.testbit x (i + 8 * k).
Proof.
  intros Hk Hi. unfold byte_at. rewrite land_byte, Z.mod_pow2_bits_low, Z.shiftr_spec by lia. done.
Qed.

Lemma word_bytes x :
  in_width 32 x → word (byte_at 0 x) (byte_at 1 x) (byte_at 2 x) (byte_at 3 x) = x.
Proof.
  intros Hx. apply Z.bits_inj'. intros i Hi.
  rewrite word_testbit by (done || apply byte_at_width).
  destruct (Z.ltb_spec i 8), (Z.ltb_spec i 16), (Z.ltb_spec i 24); try lia;
    try (rewrite byte_at_testbit by lia; f_equal; lia).
  destruct (decide (i < 32)).
  - rewrite byte_at_testbit by lia. f_equal. lia.
  - rewrite (testbit_above 32 x) by (done || lia).
    apply (testbit_above 8); [lia|apply byte_at_width|lia].
Qed.

Lemma word_width b0 b1 b2 b3 :
  in_width 8 b0 → in_width 8 b1 → in_width 8 b2 → in_width 8 b3 →
  in_width 32 (word b0 b1 b2 b3).
Proof.
  intros. rewrite word_add by done. unfold in_width in *. rewrite !Z.shiftl_mul_pow2 by lia. lia.
Qed.

#[export] Hint Resolve byte_at_width word_width : width.

Lemma byte_at_word b0 b1 b2 b3 :
  in_width 8 b0 → in_width 8 b1 → in_width 8 b2 → in_width 8 b3 →
  byte_at 0 (word b0 b1 b2 b3) = b0 ∧ byte_at 1 (word b0 b1 b2 b3) = b1 ∧
  byte_at 2 (word b0 b1 b2 b3) = b2 ∧ byte_at 3 (word b0 b1 b2 b3) = b3.
Proof.
  intros H0 H1 H2 H3.
  assert (∀ k b, 0 ≤ k → in_width 8 b →
    (∀ i, 0 ≤ i < 8 → Z.testbit (word b0 b1 b2 b3) (i + 8 * k) = Z.testbit b i) →
    byte_at k (word b0 b1 b2 b3) = b) as Hb.
  { intros k b Hk Hb Hi. apply Z.bits_inj'. intros i ?. destruct (decide (i < 8)).
    - rewrite byte_at_testbit by lia. apply Hi. lia.
    - rewrite !(testbit_above 8) by (done || lia || apply byte_at_width). done. }
  split_and!; (apply Hb; [lia|done|]; intros i Hi; rewrite word_testbit by (done || lia);
    repeat match goal with |- context [?a <? ?b] => destruct (Z.ltb_spec a b); try lia end;
    f_equal; lia).
Qed.

Lemma shiftr_lxor_byte c b : in_width 8 b → Z.shiftr (Z.lxor c b) 8 = Z.shiftr c 8.
Proof.
  intros [? ?]. rewrite Z.shiftr_lxor, (Z.shiftr_div_pow2 b) by lia.
  rewrite Z.div_small, Z.lxor_0_r by lia. done.
Qed.

Lemma shiftr24_byte c : in_width 32 c → Z.shiftr c 24 = byte_at 3 c.
Proof.
  intros [? ?]. unfold byte_at. rewrite land_byte. change (8 * 3) with 24.
  rewrite Z.mod_small; [done|]. rewrite Z.shiftr_div_pow2 by lia.
  split; [apply Z.div_pos|apply Z.div_lt_upper_bound]; lia.
Qed.

Lemma ones_width : in_width 32 4294967295.
Proof. unfold in_width. lia. Qed.

#[export] Hint Resolve ones_width : width.

(** ** The register *)

Section register.
Context `{CrcPoly}.

Definition crc_bit (c : Z) : Z :=
  if Z.odd c then Z.lxor poly (Z.shiftr c 1) else Z.shiftr c 1.

Definition crc8 (c : Z) : Z := Nat.iter 8 crc_bit c.

Definition crc_byte (c b : Z) : Z := crc8 (Z.lxor c b).

Lemma crc_bit_linear : linear crc_bit.
Proof.
  intros a b. unfold crc_bit. rewrite odd_lxor, Z.shiftr_lxor.
  destruct (Z.odd a), (Z.odd b); simpl xorb; cbv iota.
  - rewrite lxor_shuffle, Z.lxor_nilpotent, Z.lxor_0_l. done.
  - rewrite Z.lxor_assoc. done.
  - rewrite <-!Z.lxor_assoc. f_equal. apply Z.lxor_comm.
  - done.
Qed.

Lemma crc8_linear : linear crc8.
Proof. apply linear_iter, crc_bit_linear. Qed.

Lemma crc_bit_width c : in_width 32 c → in_width 32 (crc_bit c).
Proof.
  intros. unfold crc_bit. destruct (Z.odd c); [apply lxor_width|]; try lia;
    try (apply shiftr_width; [lia..|done]). apply poly_width.
Qed.

Lemma crc8_width c : in_width 32 c → in_width 32 (crc8 c).
Proof. apply iter_width, crc_bit_width. Qed.

Lemma crc_byte_width c b : in_width 32 c → in_width 8 b → in_width 32 (crc_byte c b).
Proof.
  intros. apply crc8_width, lxor_width; [lia|done|].
  eapply in_width_mono; [|done]. lia.
Qed.

(** Shifting a byte out of the register. *)
Lemma crc_bit_shiftl c k : 0 < k → crc_bit (Z.shiftl c k) = Z.shiftl c (k - 1).
Proof.
  intros Hk. unfold crc_bit. rewrite <-Z.bit0_odd, Z.shiftl_spec_low by lia.
  rewrite Z.shiftr_shiftl_l by lia. done.
Qed.

Lemma crc8_shiftl c k : 8 ≤ k → crc8 (Z.shiftl c k) = Z.shiftl c (k - 8).
Proof.
  intros Hk. unfold crc8. cbn [Nat.iter nat_rect].
  rewrite !crc_bit_shiftl by lia. f_equal. lia.
Qed.

Lemma crc8_split c : crc8 c = Z.lxor (crc8 (Z.land c 255)) (Z.shiftr c 8).
Proof.
  rewrite land_byte. rewrite (lxor_split c 8) at 1 by lia.
  rewrite crc8_linear, crc8_shiftl by lia. rewrite Z.shiftl_0_r. done.
Qed.

Lemma crc8_xor_shiftl8 x y : crc8 (Z.lxor x (Z.shiftl y 8)) = Z.lxor (crc8 x) y.
Proof. rewrite crc8_linear, crc8_shiftl, Z.shiftl_0_r by lia. done. Qed.

Lemma crc8_word a0 a1 a2 a3 :
  Nat.iter 4 crc8 (word a0 a1 a2 a3) =
  Z.lxor (Z.lxor (Z.lxor (Nat.iter 4 crc8 a0) (Nat.iter 3 crc8 a1)) (Nat.iter 2 crc8 a2))
    (crc8 a3).
Proof.
  unfold word. cbn [Nat.iter nat_rect]. rewrite !crc8_linear.
  rewrite !(crc8_shiftl _ 24), !(crc8_shiftl _ 16), !(crc8_shiftl _ 8), !Z.shiftl_0_r by lia.
  done.
Qed.

Lemma crc_byte_4 c b0 b1 b2 b3 :
  foldl crc_byte c [b0; b1; b2; b3] = Nat.iter 4 crc8 (Z.lxor c (word b0 b1 b2 b3)).
Proof.
  unfold word. cbn [Nat.iter nat_rect foldl]. unfold crc_byte.
  rewrite <-!Z.lxor_assoc, !crc8_linear.
  rewrite !(crc8_shiftl _ 24), !(crc8_shiftl _ 16), !(crc8_shiftl _ 8), !Z.shiftl_0_r by lia.
  done.
Qed.

Lemma crc_byte_shift d c x :
  bytes d → foldl crc_byte (Z.lxor c x) d =
  Z.lxor (foldl crc_byte c d) (Nat.iter (length d) crc8 x).
Proof.
  intros Hd. revert c x. induction Hd as [|b d Hb Hd IH]; intros c x; [done|].
  cbn [foldl length]. rewrite Nat.iter_succ_r, <-IH. f_equal.
  unfold crc_byte. rewrite <-crc8_linear. f_equal.
  rewrite !Z.lxor_assoc. f_equal. apply Z.lxor_comm.
Qed.

Lemma crc_byte_step c b :
  in_width 8 b →
  crc_byte c b = Z.lxor (crc8 (Z.lxor (Z.land c 255) b)) (Z.shiftr c 8).
Proof.
  intros Hb. unfold crc_byte. rewrite (crc8_split (Z.lxor c b)), shiftr_lxor_byte by done.
  do 2 f_equal. rewrite <-(Z.mod_small b (2 ^ 8)) at 2 by done. rewrite <-land_byte.
  rewrite <-(Z.shiftr_0_r c) at 2. rewrite <-(Z.shiftr_0_r b) at 2.
  rewrite <-(Z.shiftr_0_r (Z.lxor c b)). apply (byte_at_linear 0).
Qed.

(** *** No information is lost

    A step of the register is a bijection on 32-bit words, because the
    polynomial has a constant term. *)

Lemma crc_bit_zero x : in_width 32 x → crc_bit x = 0 → x = 0.
Proof.
  intros Hx. unfold crc_bit. pose proof poly_top as Ht. pose proof poly_width as Hp.
  assert (Z.shiftr x 1 = x / 2) as E by (by rewrite Z.shiftr_div_pow2).
  assert (0 ≤ x / 2 < 2 ^ 31) as Hh.
  { unfold in_width in Hx. split; [apply Z.div_pos; lia|apply Z.div_lt_upper_bound; lia]. }
  destruct (Z.odd x) eqn:Ho; intros Hz.
  - apply Z.lxor_eq in Hz. lia.
  - rewrite E in Hz. pose proof (Z.div_mod x 2 ltac:(lia)) as Hd.
    rewrite Zodd_mod in Ho. apply Zeq_bool_neq in Ho. pose proof (Z.mod_pos_bound x 2). lia.
Qed.

Lemma linear_inj f :
  linear f → (∀ x, in_width 32 x → f x = 0 → x = 0) →
  ∀ x y, in_width 32 x → in_width 32 y → f x = f y → x = y.
Proof.
  intros Hl Hz x y Hx Hy E. apply Z.lxor_eq, Hz; [by apply lxor_width|].
  by rewrite Hl, E, Z.lxor_nilpotent.
Qed.

Lemma crc8_iter_inj n x y :
  in_width 32 x → in_width 32 y → Nat.iter n crc8 x = Nat.iter n crc8 y → x = y.
Proof.
  apply linear_inj; [apply linear_iter, crc8_linear|]. clear x y.
  induction n as [|n IH]; intros x Hx; [done|]. cbn. intros Hz. apply IH; [done|].
  assert (∀ m c, in_width 32 c → Nat.iter m crc_bit c = 0 → c = 0) as Hb.
  { induction m as [|m IHm]; intros c Hc; [done|]. cbn. intros Hm. apply IHm; [done|].
    apply crc_bit_zero; [|done]. by apply iter_width; [apply crc_bit_width|]. }
  apply (Hb 8%nat); [|done]. by apply iter_width; [apply crc8_width|].
Qed.

(** *** Whole messages

    The register starts and ends inverted, so that a checksum can be continued
    from the value it returned. *)

Definition crc_ref (crc : Z) (data : list Z) : Z :=
  Z.lxor (foldl crc_byte (Z.lxor crc 4294967295) data) 4294967295.

Lemma crc_fold_width d c : bytes d → in_width 32 c → in_width 32 (foldl crc_byte c d).
Proof.
  intros Hd. revert c. induction Hd; intros c Hc; [done|]. apply IHHd. by apply crc_byte_width.
Qed.

Lemma crc_ref_width crc d : bytes d → in_width 32 crc → in_width 32 (crc_ref crc d).
Proof.
  intros. unfold crc_ref. apply lxor_width; [lia| |apply ones_width].
  apply crc_fold_width; [done|]. solve_width.
Qed.

Lemma crc_ref_continue crc d1 d2 : crc_ref crc (d1 ++ d2) = crc_ref (crc_ref crc d1) d2.
Proof.
  unfold crc_ref. by rewrite foldl_app, Z.lxor_assoc, Z.lxor_nilpotent, Z.lxor_0_r.
Qed.

(** Two registers that differ still differ after the same bytes. *)
Lemma crc_fold_inj d c c' :
  bytes d → in_width 32 c → in_width 32 c' → foldl crc_byte c d = foldl crc_byte c' d → c = c'.
Proof.
  intros Hd Hc Hc' E. apply (crc8_iter_inj (length d)); [done..|].
  pose proof (crc_byte_shift d 0 c Hd) as E1. pose proof (crc_byte_shift d 0 c' Hd) as E2.
  rewrite Z.lxor_0_l in E1, E2. rewrite E1, E2 in E.
  apply Z.lxor_eq. apply (f_equal (Z.lxor (foldl crc_byte 0 d))) in E.
  rewrite <-!Z.lxor_assoc, Z.lxor_nilpotent, !Z.lxor_0_l in E. rewrite E. apply Z.lxor_nilpotent.
Qed.

Lemma crc_ref_app crc d1 d2 :
  bytes d2 →
  crc_ref crc (d1 ++ d2) = Z.lxor (Nat.iter (length d2) crc8 (crc_ref crc d1)) (crc_ref 0 d2).
Proof.
  intros Hd. unfold crc_ref. rewrite foldl_app, Z.lxor_0_l.
  set (r := foldl crc_byte _ d1).
  assert (r = Z.lxor 4294967295 (Z.lxor r 4294967295)) as Hr.
  { rewrite (Z.lxor_comm r), <-Z.lxor_assoc, Z.lxor_nilpotent, Z.lxor_0_l. done. }
  rewrite Hr at 1. rewrite crc_byte_shift by done.
  rewrite (Z.lxor_comm (foldl _ _ _)), Z.lxor_assoc. done.
Qed.

End register.

#[global] Arguments crc_bit : simpl never.
#[global] Arguments crc8 : simpl never.
#[global] Arguments crc_byte : simpl never.

#[export] Hint Resolve crc8_width crc_byte_width : width.
