(* ===== verification/CrcTables.v ===== *)
(** The CRC tables of [src/zlib/crc32.h] ([crc_table[TBLS][256]], with
    [TBLS] = 8), transcribed in decimal.  [crc_table] is the array of the
    eight tables. *)

From Stdlib Require Import ZArith.
From stdpp Require Import base list.

Open Scope Z_scope.

Definition crc_table_0 : list Z := [
    0; 1996959894; 3993919788; 2567524794; 124634137; 1886057615;
    3915621685; 2657392035; 249268274; 2044508324; 3772115230; 2547177864;
    162941995; 2125561021; 3887607047; 2428444049; 498536548; 1789927666;
    4089016648; 2227061214; 450548861; 1843258603; 4107580753; 2211677639;
    325883990; 1684777152; 4251122042; 2321926636; 335633487; 1661365465;
    4195302755; 2366115317; 997073096; 1281953886; 3579855332; 2724688242;
    1006888145; 1258607687; 3524101629; 2768942443; 901097722; 1119000684;
    3686517206; 2898065728; 853044451; 1172266101; 3705015759; 2882616665;
    651767980; 1373503546; 3369554304; 3218104598; 565507253; 1454621731;
    3485111705; 3099436303; 671266974; 1594198024; 3322730930; 2970347812;
    795835527; 1483230225; 3244367275; 3060149565; 1994146192; 31158534;
    2563907772; 4023717930; 1907459465; 112637215; 2680153253; 3904427059;
    2013776290; 251722036; 2517215374; 3775830040; 2137656763; 141376813;
    2439277719; 3865271297; 1802195444; 476864866; 2238001368; 4066508878;
    1812370925; 453092731; 2181625025; 4111451223; 1706088902; 314042704;
    2344532202; 4240017532; 1658658271; 366619977; 2362670323; 4224994405;
    1303535960; 984961486; 2747007092; 3569037538; 1256170817; 1037604311;
    2765210733; 3554079995; 1131014506; 879679996; 2909243462; 3663771856;
    1141124467; 855842277; 2852801631; 3708648649; 1342533948; 654459306;
    3188396048; 3373015174; 1466479909; 544179635; 3110523913; 3462522015;
    1591671054; 702138776; 2966460450; 3352799412; 1504918807; 783551873;
    3082640443; 3233442989; 3988292384; 2596254646; 62317068; 1957810842;
    3939845945; 2647816111; 81470997; 1943803523; 3814918930; 2489596804;
    225274430; 2053790376; 3826175755; 2466906013; 167816743; 2097651377;
    4027552580; 2265490386; 503444072; 1762050814; 4150417245; 2154129355;
    426522225; 1852507879; 4275313526; 2312317920; 282753626; 1742555852;
    4189708143; 2394877945; 397917763; 1622183637; 3604390888; 2714866558;
    953729732; 1340076626; 3518719985; 2797360999; 1068828381; 1219638859;
    3624741850; 2936675148; 906185462; 1090812512; 3747672003; 2825379669;
    829329135; 1181335161; 3412177804; 3160834842; 628085408; 1382605366;
    3423369109; 3138078467; 570562233; 1426400815; 3317316542; 2998733608;
    733239954; 1555261956; 3268935591; 3050360625; 752459403; 1541320221;
    2607071920; 3965973030; 1969922972; 40735498; 2617837225; 3943577151;
    1913087877; 83908371; 2512341634; 3803740692; 2075208622; 213261112;
    2463272603; 3855990285; 2094854071; 198958881; 2262029012; 4057260610;
    1759359992; 534414190; 2176718541; 4139329115; 1873836001; 414664567;
    2282248934; 4279200368; 1711684554; 285281116; 2405801727; 4167216745;
    1634467795; 376229701; 2685067896; 3608007406; 1308918612; 956543938;
    2808555105; 3495958263; 1231636301; 1047427035; 2932959818; 3654703836;
    1088359270; 936918000; 2847714899; 3736837829; 1202900863; 817233897;
    3183342108; 3401237130; 1404277552; 615818150; 3134207493; 3453421203;
    1423857449; 601450431; 3009837614; 3294710456; 1567103746; 711928724;
    3020668471; 3272380065; 1510334235; 755167117].

Definition crc_table_1 : list Z := [
    0; 421212481; 842424962; 724390851; 1684849924; 2105013317;
    1448781702; 1329698503; 3369699848; 3519200073; 4210026634; 3824474571;
    2897563404; 3048111693; 2659397006; 2274893007; 1254232657; 1406739216;
    2029285587; 1643069842; 783210325; 934667796; 479770071; 92505238;
    2182846553; 2600511768; 2955803355; 2838940570; 3866582365; 4285295644;
    3561045983; 3445231262; 2508465314; 2359236067; 2813478432; 3198777185;
    4058571174; 3908292839; 3286139684; 3670389349; 1566420650; 1145479147;
    1869335592; 1987116393; 959540142; 539646703; 185010476; 303839341;
    3745920755; 3327985586; 3983561841; 4100678960; 3140154359; 2721170102;
    2300350837; 2416418868; 396344571; 243568058; 631889529; 1018359608;
    1945336319; 1793607870; 1103436669; 1490954812; 4034481925; 3915546180;
    3259968903; 3679722694; 2484439553; 2366552896; 2787371139; 3208174018;
    950060301; 565965900; 177645455; 328046286; 1556873225; 1171730760;
    1861902987; 2011255754; 3132841300; 2745199637; 2290958294; 2442530455;
    3738671184; 3352078609; 3974232786; 4126854035; 1919080284; 1803150877;
    1079293406; 1498383519; 370020952; 253043481; 607678682; 1025720731;
    1711106983; 2095471334; 1472923941; 1322268772; 26324643; 411738082;
    866634785; 717028704; 2904875439; 3024081134; 2668790573; 2248782444;
    3376948395; 3495106026; 4219356713; 3798300520; 792689142; 908347575;
    487136116; 68299317; 1263779058; 1380486579; 2036719216; 1618931505;
    3890672638; 4278043327; 3587215740; 3435896893; 2206873338; 2593195963;
    2981909624; 2829542713; 998479947; 580430090; 162921161; 279890824;
    1609522511; 1190423566; 1842954189; 1958874764; 4082766403; 3930137346;
    3245109441; 3631694208; 2536953671; 2385372678; 2768287173; 3155920004;
    1900120602; 1750776667; 1131931800; 1517083097; 355290910; 204897887;
    656092572; 1040194781; 3113746450; 2692952403; 2343461520; 2461357009;
    3723805974; 3304059991; 4022511508; 4141455061; 2919742697; 3072101800;
    2620513899; 2234183466; 3396041197; 3547351212; 4166851439; 3779471918;
    1725839073; 2143618976; 1424512099; 1307796770; 45282277; 464110244;
    813994343; 698327078; 3838160568; 4259225593; 3606301754; 3488152955;
    2158586812; 2578602749; 2996767038; 2877569151; 740041904; 889656817;
    506086962; 120682355; 1215357364; 1366020341; 2051441462; 1667084919;
    3422213966; 3538019855; 4190942668; 3772220557; 2945847882; 3062702859;
    2644537544; 2226864521; 52649286; 439905287; 823476164; 672009861;
    1733269570; 2119477507; 1434057408; 1281543041; 2167981343; 2552493150;
    3004082077; 2853541596; 3847487515; 4233048410; 3613549209; 3464057816;
    1239502615; 1358593622; 2077699477; 1657543892; 764250643; 882293586;
    532408465; 111204816; 1585378284; 1197851309; 1816695150; 1968414767;
    974272232; 587794345; 136598634; 289367339; 2527558116; 2411481253;
    2760973158; 3179948583; 4073438432; 3956313505; 3237863010; 3655790371;
    347922877; 229101820; 646611775; 1066513022; 1892689081; 1774917112;
    1122387515; 1543337850; 3697634229; 3313392372; 3998419255; 4148705398;
    3087642289; 2702352368; 2319436851; 2468674930].

Definition crc_table_2 : list Z := [
    0; 29518391; 59036782; 38190681; 118073564; 114017003;
    76381362; 89069189; 236147128; 265370511; 228034006; 206958561;
    152762724; 148411219; 178138378; 190596925; 472294256; 501532999;
    530741022; 509615401; 456068012; 451764635; 413917122; 426358261;
    305525448; 334993663; 296822438; 275991697; 356276756; 352202787;
    381193850; 393929805; 944588512; 965684439; 1003065998; 973863097;
    1061482044; 1049003019; 1019230802; 1023561829; 912136024; 933002607;
    903529270; 874031361; 827834244; 815125939; 852716522; 856752605;
    611050896; 631869351; 669987326; 640506825; 593644876; 580921211;
    551983394; 556069653; 712553512; 733666847; 704405574; 675154545;
    762387700; 749958851; 787859610; 792175277; 1889177024; 1901651959;
    1931368878; 1927033753; 2006131996; 1985040171; 1947726194; 1976933189;
    2122964088; 2135668303; 2098006038; 2093965857; 2038461604; 2017599123;
    2047123658; 2076625661; 1824272048; 1836991623; 1866005214; 1861914857;
    1807058540; 1786244187; 1748062722; 1777547317; 1655668488; 1668093247;
    1630251878; 1625932113; 1705433044; 1684323811; 1713505210; 1742760333;
    1222101792; 1226154263; 1263738702; 1251046777; 1339974652; 1310460363;
    1281013650; 1301863845; 1187289752; 1191637167; 1161842422; 1149379777;
    1103966788; 1074747507; 1112139306; 1133218845; 1425107024; 1429406311;
    1467333694; 1454888457; 1408811148; 1379576507; 1350309090; 1371438805;
    1524775400; 1528845279; 1499917702; 1487177649; 1575719220; 1546255107;
    1584350554; 1605185389; 3778354048; 3774312887; 3803303918; 3816007129;
    3862737756; 3892238699; 3854067506; 3833203973; 4012263992; 4007927823;
    3970080342; 3982554209; 3895452388; 3924658387; 3953866378; 3932773565;
    4245928176; 4241609415; 4271336606; 4283762345; 4196012076; 4225268251;
    4187931714; 4166823541; 4076923208; 4072833919; 4035198246; 4047918865;
    4094247316; 4123732899; 4153251322; 4132437965; 3648544096; 3636082519;
    3673983246; 3678331705; 3732010428; 3753090955; 3723829714; 3694611429;
    3614117080; 3601426159; 3572488374; 3576541825; 3496125444; 3516976691;
    3555094634; 3525581405; 3311336976; 3298595879; 3336186494; 3340255305;
    3260503756; 3281337595; 3251864226; 3222399125; 3410866088; 3398419871;
    3368647622; 3372945905; 3427010420; 3448139075; 3485520666; 3456284973;
    2444203584; 2423127159; 2452308526; 2481530905; 2527477404; 2539934891;
    2502093554; 2497740997; 2679949304; 2659102159; 2620920726; 2650438049;
    2562027300; 2574714131; 2603727690; 2599670141; 2374579504; 2353749767;
    2383274334; 2412743529; 2323684844; 2336421851; 2298759554; 2294686645;
    2207933576; 2186809023; 2149495014; 2178734801; 2224278612; 2236720739;
    2266437690; 2262135309; 2850214048; 2820717207; 2858812622; 2879680249;
    2934667388; 2938704459; 2909776914; 2897069605; 2817622296; 2788420399;
    2759153014; 2780249921; 2700618180; 2704950259; 2742877610; 2730399645;
    3049550800; 3020298727; 3057690558; 3078802825; 2999835404; 3004150075;
    2974355298; 2961925461; 3151438440; 3121956959; 3092510214; 3113327665;
    3168701108; 3172786307; 3210370778; 3197646061].

Definition crc_table_3 : list Z := [
    0; 3099354981; 2852767883; 313896942; 2405603159; 937357362;
    627793884; 2648127673; 3316918511; 2097696650; 1874714724; 3607201537;
    1255587768; 4067088605; 3772741427; 1482887254; 1343838111; 3903140090;
    4195393300; 1118632049; 3749429448; 1741137837; 1970407491; 3452858150;
    2511175536; 756094997; 1067759611; 2266550430; 449832999; 2725482306;
    2965774508; 142231497; 2687676222; 412010587; 171665333; 2995192016;
    793786473; 2548850444; 2237264098; 1038456711; 1703315409; 3711623348;
    3482275674; 1999841343; 3940814982; 1381529571; 1089329165; 4166106984;
    4029413537; 1217896388; 1512189994; 3802027855; 2135519222; 3354724499;
    3577784189; 1845280792; 899665998; 2367928107; 2677414085; 657096608;
    3137160985; 37822588; 284462994; 2823350519; 2601801789; 598228824;
    824021174; 2309093331; 343330666; 2898962447; 3195996129; 113467524;
    1587572946; 3860600759; 4104763481; 1276501820; 3519211397; 1769898208;
    2076913422; 3279374443; 3406630818; 1941006535; 1627703081; 3652755532;
    1148164341; 4241751952; 3999682686; 1457141531; 247015245; 3053797416;
    2763059142; 470583459; 2178658330; 963106687; 735213713; 2473467892;
    992409347; 2207944806; 2435792776; 697522413; 3024379988; 217581361;
    508405983; 2800865210; 4271038444; 1177467017; 1419450215; 3962007554;
    1911572667; 3377213406; 3690561584; 1665525589; 1799331996; 3548628985;
    3241568279; 2039091058; 3831314379; 1558270126; 1314193216; 4142438437;
    2928380019; 372764438; 75645176; 3158189981; 568925988; 2572515393;
    2346768303; 861712586; 3982079547; 1441124702; 1196457648; 4293663189;
    1648042348; 3666298377; 3358779879; 1888390786; 686661332; 2421291441;
    2196002399; 978858298; 2811169155; 523464422; 226935048; 3040519789;
    3175145892; 100435649; 390670639; 2952089162; 841119475; 2325614998;
    2553003640; 546822429; 2029308235; 3225988654; 3539796416; 1782671013;
    4153826844; 1328167289; 1570739863; 3844338162; 1298864389; 4124540512;
    3882013070; 1608431339; 3255406162; 2058742071; 1744848601; 3501990332;
    2296328682; 811816591; 584513889; 2590678532; 129869501; 3204563416;
    2914283062; 352848211; 494030490; 2781751807; 3078325777; 264757620;
    2450577869; 715964072; 941166918; 2158327331; 3636881013; 1618608400;
    1926213374; 3396585883; 1470427426; 4011365959; 4255988137; 1158766284;
    1984818694; 3471935843; 3695453837; 1693991400; 4180638033; 1100160564;
    1395044826; 3952793279; 3019491049; 189112716; 435162722; 2706139399;
    1016811966; 2217162459; 2526189877; 774831696; 643086745; 2666061564;
    2354934034; 887166583; 2838900430; 294275499; 54519365; 3145957664;
    3823145334; 1532818963; 1240029693; 4048895640; 1820460577; 3560857924;
    3331051178; 2117577167; 3598663992; 1858283101; 2088143283; 3301633750;
    1495127663; 3785470218; 4078182116; 1269332353; 332098007; 2876706482;
    3116540252; 25085497; 2628386432; 605395429; 916469259; 2384220526;
    2254837415; 1054503362; 745528876; 2496903497; 151290352; 2981684885;
    2735556987; 464596510; 1137851976; 4218313005; 3923506883; 1365741990;
    3434129695; 1946996346; 1723425172; 3724871409].

Definition crc_table_4 : list Z := [
    0; 2519730039; 744558318; 3125873049; 432303367; 2415159920;
    900031465; 2744476830; 847829774; 2763578489; 518641120; 2295976599;
    726447625; 3179065726; 120436967; 2434645904; 1678817053; 4062228586;
    1215412723; 3728850564; 2111101466; 3957644653; 1370871028; 3347436419;
    1452829715; 3232263012; 2063164157; 3972621706; 1331429652; 3647735395;
    1664946170; 4111272077; 3357568571; 1578133836; 3829489877; 1920034722;
    3521381180; 1205077067; 4253355474; 1807026853; 4205360437; 1821946434;
    3603545051; 1090108588; 3815561266; 1969020741; 3473790684; 1497223595;
    2888882470; 973135441; 2152847304; 375509183; 3052712993; 600093526;
    2576726735; 262520248; 2662859304; 143131999; 3000569030; 619252657;
    2273079087; 290220120; 2870829505; 1026385590; 2420235382; 108124929;
    3156267672; 705746415; 2307240305; 532002310; 2783231903; 869578984;
    2731083640; 888733711; 2393377174; 412618465; 3138218623; 759000328;
    2540463249; 22832102; 4098976619; 1650551836; 3627050373; 1308648178;
    3985966700; 2074411291; 3253995650; 1472466933; 3336155237; 1357494034;
    3937975947; 2089335292; 3743276386; 1227741717; 4085044108; 1699534075;
    1482797645; 3461461306; 1946205347; 3794844628; 1101389642; 3616921661;
    1841615268; 4227126995; 1793681731; 4242107956; 1183344557; 3501744346;
    1932330052; 3843883827; 1598818986; 3380350429; 1014039888; 2856387111;
    269487038; 2250247369; 632645719; 3011866400; 164914873; 2682544590;
    251256414; 2563365161; 580440240; 3030964167; 389919577; 2165158958;
    995933623; 2909584064; 545503469; 3065233306; 216184323; 2597499252;
    961009130; 2943865501; 354867972; 2199313523; 302736355; 2218484884;
    1047162125; 2824497786; 198119140; 2650737043; 665714698; 2979923837;
    1150488560; 3533899911; 1760690462; 4274128489; 1566008055; 3412551040;
    1899392025; 3875957614; 1981535486; 3760968585; 1518000656; 3427458407;
    1876933113; 4193238670; 1136572183; 3582898272; 3903051478; 2123616673;
    3301103672; 1391648591; 4050107345; 1733803174; 3708204351; 1261875784;
    3660254680; 1276840623; 4132045622; 1618609217; 3287245023; 1440704424;
    4019088945; 2042521926; 2360566219; 444819132; 2698145573; 920807506;
    2507607244; 54987707; 3105227298; 791020885; 3191585477; 671858098;
    2455417899; 74101596; 2818561986; 835702965; 2342443308; 497999451;
    2965529755; 653419500; 2627955317; 177433858; 2835745180; 1060507371;
    2238121842; 324468741; 2185936789; 343587042; 2922099067; 941340172;
    2609828498; 230610405; 3085950076; 568318731; 3570586502; 1122161905;
    4172537192; 1854134815; 3440819841; 1529264630; 3782717551; 2001188632;
    3864660104; 1885999103; 3392865894; 1544225041; 4288570767; 1773036280;
    3556731745; 1171221526; 2028079776; 4006743511; 1417872462; 3266511673;
    1629906855; 4145438928; 1296525641; 3682037310; 1248514478; 3696940761;
    1712054080; 4030453815; 1403960489; 3315514334; 2144318023; 3925849392;
    485670333; 2328017610; 814986067; 2795746340; 87478458; 2466699213;
    693624404; 3211254051; 779773619; 3091882436; 35350621; 2485874474;
    935201716; 2710441155; 467600730; 2381251117].

Definition crc_table_5 : list Z := [
    0; 1093737241; 2187474482; 3277008171; 80047204; 1173649277;
    2259114582; 3348513103; 143317448; 1237041873; 2330521594; 3420058851;
    206550444; 1300147893; 2385347486; 3474757767; 1360183882; 270784851;
    3547395192; 2453794657; 1440198190; 350663991; 3619002396; 2525266693;
    1503140738; 413728923; 3690606000; 2597009065; 1566406630; 476867839;
    3745464788; 2651740877; 2720302229; 3809845132; 541504167; 1635232190;
    2799823089; 3889230824; 612622019; 1706214874; 2863553885; 3953083972;
    684485487; 1778217078; 2926260537; 4015663648; 738789131; 1832393746;
    4080420575; 2986827206; 1901359341; 811953140; 4159908539; 3066180002;
    1972444297; 882902928; 4223442711; 3129836558; 2044635429; 955232828;
    4286182259; 3192449130; 2098971969; 1009442392; 89094640; 1149133545;
    2267893698; 3323745499; 25826708; 1086000781; 2213028774; 3269015743;
    231055416; 1291107105; 2410124810; 3465973011; 151047260; 1211225925;
    2338519662; 3394494839; 1415429050; 359440547; 3594489224; 2534315665;
    1352194014; 296340679; 3539657196; 2479618805; 1557619314; 501643627;
    3736425536; 2676248409; 1477578262; 421729551; 3664787492; 2604737341;
    2808872293; 3864716924; 621398871; 1681444942; 2746126593; 3802106392;
    567060275; 1627241514; 2950767789; 4006625204; 763564703; 1823607174;
    2871281865; 3927266256; 692485883; 1752655330; 4135141167; 3074958390;
    1947928861; 891949572; 4072428363; 3012380754; 1893623161; 837779040;
    4277397223; 3217227262; 2089930965; 1033948108; 4197878403; 3137835418;
    2018819249; 962963368; 1268286267; 178886690; 3388650761; 2295049744;
    1331556191; 242021446; 3443513709; 2349777524; 1125276403; 35865066;
    3245370561; 2151774168; 1205286551; 115748238; 3316973733; 2223250364;
    445268337; 1539005032; 2565371715; 3654904922; 508505365; 1602106892;
    2620201767; 3709599806; 302028985; 1395753888; 2422386315; 3511924114;
    382072029; 1475669956; 2494022383; 3583433206; 3921414062; 2827820215;
    1809723804; 720317061; 3984157642; 2890428627; 1864064504; 774522593;
    3778469478; 2684863871; 1666508884; 577106765; 3857953282; 2764220699;
    1737589808; 648060713; 3098461668; 4188004093; 986510294; 2080237775;
    3161172352; 4250579609; 1040818098; 2134410411; 2955156524; 4044687157;
    843459102; 1937191175; 3034673224; 4124076881; 914572922; 2008178019;
    1322777291; 266789330; 3434466553; 2374293472; 1242732207; 186879414;
    3362824349; 2302786436; 1180508931; 124532762; 3292468529; 2232290856;
    1117278055; 61428862; 3237640533; 2177589836; 533018753; 1593058200;
    2644971187; 3700823466; 453006565; 1513181180; 2573361879; 3629349326;
    391110985; 1451162192; 2502809467; 3558657122; 327847213; 1388025396;
    2447948575; 3503923206; 3975380574; 2915198279; 1855015020; 799036277;
    3895857722; 2835810595; 1783899144; 728055569; 3833178006; 2773007503;
    1713082788; 657099453; 3770469362; 2710425835; 1658781120; 602924761;
    3185687572; 4241532685; 1065585190; 2125631807; 3106197616; 4162177897;
    994502210; 2054683995; 3043714524; 4099571397; 923358190; 1983400183;
    2980972984; 4036956833; 869023626; 1929192595].

Definition crc_table_6 : list Z := [
    0; 929743361; 1859421187; 1505641986; 3701999879; 3955411718;
    2994507012; 2232831749; 3092321038; 2403062031; 3599079181; 3790558476;
    1694046729; 1402198024; 170761738; 1028086795; 1889740316; 1204413469;
    511156767; 689791006; 2886414107; 2606886170; 3269438232; 4122306841;
    3371316498; 4288214803; 2787553553; 2437706512; 341457941; 590413332;
    2056173590; 1306819095; 3762703672; 3610021689; 2391984443; 3120040762;
    1022247999; 193234494; 1379582012; 1699742269; 1477926454; 1870502967;
    918805045; 27858996; 2227132209; 3017119024; 3932934962; 3707834675;
    2430954276; 2811210021; 4264685351; 3378195750; 1280139811; 2066194466;
    580511264; 368256033; 682915882; 534690347; 1180761129; 1896496680;
    4095504685; 3279336236; 2596861230; 2913089327; 3230505584; 4159133809;
    2925076083; 2570312818; 472224631; 726618486; 1928402804; 1167840629;
    2027719038; 1337346943; 369626493; 560123772; 2759098489; 2468233848;
    3399484538; 4257924731; 2955852908; 2269412973; 3740940399; 3918592622;
    1820767595; 1542223722; 38941032; 892924777; 142585698; 1058368867;
    1722493793; 1371662688; 3570902629; 3820840036; 3120767590; 2372526183;
    550229832; 396432713; 1310675787; 2037748042; 4234403407; 3406371918;
    2461489740; 2782763085; 2560279622; 2951743047; 4132323397; 3240395332;
    1144180033; 1935150912; 719735106; 495749955; 1349054804; 1728197461;
    1052538199; 165066582; 2361456723; 3148495442; 3792993360; 3581853265;
    3896107610; 3746766939; 2263705177; 2978456664; 881978205; 66791772;
    1514499934; 1831841119; 2149266913; 3077699552; 4006588898; 3651498979;
    1555250406; 1809448679; 845658341; 84769508; 944383727; 253813998;
    1453236972; 1643405549; 3840028648; 3548966377; 2318838763; 3176950250;
    4038595581; 3352482300; 2657916926; 2835764735; 739252986; 461035771;
    1120182009; 1974361336; 1223229683; 2139341554; 641565936; 290932465;
    2487290356; 2737556469; 4204105207; 3456061430; 1616738521; 1463270104;
    243924186; 971194075; 3170202078; 2342499295; 3525440989; 3846911964;
    3624692695; 4016482774; 3067670484; 2175938005; 77882064; 869179601;
    1785784019; 1561994450; 285105861; 664050884; 2116737734; 1228937415;
    3428210626; 4215051715; 2726482881; 2515014080; 2830061003; 2680524746;
    3330001352; 4044426185; 1946633420; 1131251405; 450085071; 767099598;
    1083617169; 2013031824; 776088466; 422111635; 2621351574; 2874434711;
    4075430549; 3313557652; 4173839519; 3484253854; 2517842076; 2709125789;
    611300760; 319125401; 1253781915; 2110911386; 808814989; 123685772;
    1591807374; 1770770319; 3969745034; 3690414731; 2185823369; 3039020680;
    2288294531; 3205388418; 3870301824; 3520781441; 1422693252; 1671844229;
    974657415; 225629574; 2698044073; 2545557672; 3456394922; 4184777899;
    2088299438; 1259481519; 313290669; 633777580; 411169191; 803943334;
    1985312164; 1094694821; 3291084960; 4081269409; 2868739235; 2643967650;
    3497247925; 3877177012; 3198632118; 2311946935; 215731634; 1001459635;
    1645169073; 1432718256; 1747113915; 1598559674; 116806584; 832344505;
    3028999868; 2212502717; 3663616703; 3979647166].

Definition crc_table_7 : list Z := [
    0; 1701297336; 2345142698; 4004492562; 1469538959; 854646327;
    3697240869; 3107510173; 4012422341; 2320435325; 1692450159; 25625047;
    3099579978; 3721947890; 863494112; 1443914584; 2673285456; 4197492200;
    345968890; 1912122434; 3368057823; 2913453927; 1124627061; 644861645;
    1887415701; 353898797; 4223116351; 2664437895; 669568794; 1116697506;
    2887829168; 3376904712; 1051669152; 1539870232; 3043441418; 3489695666;
    1765298223; 207613079; 3807402373; 2274878781; 3515319909; 3034594013;
    1515163599; 1059599223; 2249254122; 3816249426; 232320320; 1757368824;
    2717395952; 3298793288; 707797594; 1331142370; 4134488447; 2466837959;
    2108113109; 415300717; 1322295093; 733422477; 3306722975; 2692688423;
    424148410; 2082488578; 2458907664; 4159195304; 1029182619; 1480566819;
    3062897969; 3556221321; 1791981076; 262720172; 3775365054; 2220933894;
    3530596446; 3071745254; 1505274356; 1021252940; 2246558417; 3766517353;
    238013307; 1799911363; 2718895563; 3345527155; 700908641; 1285601497;
    4120407876; 2432685052; 2119198446; 456645206; 1294448910; 675284406;
    3337597092; 2743602204; 447798145; 2144823097; 2440614443; 4095700627;
    66528827; 1720752771; 2285842321; 3982005033; 1415595188; 822605836;
    3752348958; 3134189990; 3974075134; 2310549062; 1729600340; 40904684;
    3142119537; 3727641801; 813758939; 1441219939; 2627747691; 4190602195;
    392705729; 1913621113; 3409403364; 2924536156; 1090475086; 630778102;
    1938328494; 384775958; 4164977156; 2636594876; 606071073; 1098405273;
    2950160523; 3400555571; 1001806317; 1590814037; 2961068103; 3575246079;
    1814117218; 155617242; 3890819784; 2190380656; 3567185192; 2985906576;
    1599530114; 976312378; 2198441895; 3865981727; 146900493; 1839610549;
    2766225597; 3246849029; 791234839; 1246688687; 4084605490; 2517737098;
    2025728920; 500799264; 1271526520; 783173824; 3221355986; 2774942058;
    475961079; 2033789519; 2543230813; 4075889637; 85551949; 1618925557;
    2396087015; 3954630239; 1385040322; 938063226; 3645243496; 3156327632;
    3929137032; 2404803376; 1643763234; 77490842; 3181821191; 3636527551;
    913224877; 1393100821; 2588832285; 4280929957; 294026167; 1960953615;
    3453554834; 2831068202; 1175525688; 594978176; 1969669848; 268532320;
    4272869234; 2613670858; 586261591; 1201019119; 2839129597; 3428716869;
    116280694; 1669984718; 2368095452; 3896637540; 1366896633; 874419009;
    3669042771; 3218512619; 3922131379; 2359379211; 1645146137; 124341409;
    3193019196; 3677759364; 899256982; 1358835246; 2579059750; 4242466974;
    309419404; 1997988148; 3459135145; 2873723409; 1172717315; 545358779;
    1989271779; 334912603; 4250528073; 2554222065; 554074732; 1147223764;
    2865662918; 3483973502; 943816662; 1562821486; 3012130428; 3605973700;
    1876303193; 179413473; 3827176691; 2172233803; 3614034707; 2987292587;
    1554105017; 969309697; 2164173212; 3852014884; 188129334; 1850809486;
    2803263110; 3262241342; 752774956; 1236915092; 4034987017; 2514925745;
    2068385187; 506376475; 1212076611; 760835835; 3287735273; 2794547025;
    531214540; 2060323956; 2489432422; 4043703774].

Definition crc_table : list (list Z) :=
  [crc_table_0; crc_table_1; crc_table_2; crc_table_3;
   crc_table_4; crc_table_5; crc_table_6; crc_table_7].
