(* ===== verification/Crc32.v ===== *)
(** CRC-32 ([src/zlib/crc32.c]): the table generator, the byte-at-a-time
    routine, the word-at-a-time routines for little- and big-endian machines
    and the combination of two CRCs through GF(2) matrices.  [z_crc_t] is a
    32-bit unsigned integer and [W] is the width of [unsigned long]. *)

From Stdlib Require Import ZArith Lia.
From stdpp Require Import base option numbers list.
From S2P Require Import Prelude CrcTheory CrcTables.

Open Scope Z_scope.

Definition ZSWAP32 (q : Z) : Z :=
  Z.land (Z.shiftr q 24) 255 + Z.land (Z.shiftr q 8) 65280
  + Z.shiftl (Z.land q 65280) 8 + Z.shiftl (Z.land q 255) 24.

Definition GF2_DIM : Z := 32.

(** ** Table generation ([make_crc_table]) *)

(** The exponents of the polynomial, without [x^32]. *)
Definition poly_terms : list Z := [0;1;2;4;5;7;8;10;11;12;16;22;23;26].

Definition make_poly : option Z :=
  for_up (length poly_terms) 0
    (λ n poly, p ← poly_terms.[n]; Some (Z.lor poly (u32 (Z.shiftl 1 (31 - p))))) 0.

Definition crc_bits (poly c : Z) : option Z :=
  for_up 8 0
    (λ _ c, Some (if Z.land c 1 =? 0 then Z.shiftr c 1 else Z.lxor poly (Z.shiftr c 1))) c.

Definition tables_set (t : list (list Z)) (k n v : Z) : option (list (list Z)) :=
  row ← t.[k]; row' ← row.[n <- v]; t.[k <- row'].

Definition tables_get (t : list (list Z)) (k n : Z) : option Z :=
  row ← t.[k]; row.[n].

Definition make_table0 (poly : Z) (t : list (list Z)) : option (list (list Z)) :=
  for_up 256 0 (λ n t, c ← crc_bits poly n; tables_set t 0 n c) t.

(** [crc for each value followed by one, two, and three zeros, and then the
    byte reversal of those]. *)
Definition make_tables_byfour (t : list (list Z)) : option (list (list Z)) :=
  for_up 256 0
    (λ n t,
       c ← tables_get t 0 n;
       t ← tables_set t 4 n (u32 (ZSWAP32 c));
       '(_, t) ← for_up 3 1
         (λ k '(c, t),
            x ← tables_get t 0 (Z.land c 255);
            let c := Z.lxor x (Z.shiftr c 8) in
            t ← tables_set t k n c;
            t ← tables_set t (k + 4) n (u32 (ZSWAP32 c));
            Some (c, t)) (c, t);
       Some t) t.

(** [mem] is what the static array holds before the call. *)
Definition make_crc_table (mem : list (list Z)) : option (list (list Z)) :=
  poly ← make_poly; t ← make_table0 poly mem; make_tables_byfour t.

Section crc32.
Context (W : Z).

(** Registers of the loops: the CRC, the offset reached in the buffer and
    the bytes left. *)
Record crc_state := CrcState { cs_c : Z; cs_pos : Z; cs_len : Z }.

(** ** One byte at a time *)

Definition DO1_crc (buf : list Z) (st : crc_state) : option crc_state :=
  b ← buf.[cs_pos st];
  x ← tables_get crc_table 0 (Z.land (Z.lxor (cs_c st) b) 255);
  Some (CrcState (Z.lxor x (Z.shiftr (cs_c st) 8)) (cs_pos st + 1) (cs_len st)).

Definition DO8_crc (buf : list Z) (st : crc_state) : option crc_state :=
  for_up 8 0 (λ _ st, DO1_crc buf st) st.

Definition take_len (k : Z) (st : crc_state) : crc_state :=
  CrcState (cs_c st) (cs_pos st) (cs_len st - k).

(** ** Four bytes at a time *)

(** [*buf4++] on a little- and on a big-endian machine. *)
Definition load_little (buf : list Z) (p : Z) : option Z :=
  b0 ← buf.[p]; b1 ← buf.[p + 1]; b2 ← buf.[p + 2]; b3 ← buf.[p + 3];
  Some (b0 + Z.shiftl b1 8 + Z.shiftl b2 16 + Z.shiftl b3 24).

Definition load_big (buf : list Z) (p : Z) : option Z :=
  b0 ← buf.[p]; b1 ← buf.[p + 1]; b2 ← buf.[p + 2]; b3 ← buf.[p + 3];
  Some (b3 + Z.shiftl b2 8 + Z.shiftl b1 16 + Z.shiftl b0 24).

Definition DOLIT4 (buf : list Z) (st : crc_state) : option crc_state :=
  w ← load_little buf (cs_pos st);
  let c := Z.lxor (cs_c st) w in
  x3 ← tables_get crc_table 3 (Z.land c 255);
  x2 ← tables_get crc_table 2 (Z.land (Z.shiftr c 8) 255);
  x1 ← tables_get crc_table 1 (Z.land (Z.shiftr c 16) 255);
  x0 ← tables_get crc_table 0 (Z.shiftr c 24);
  Some (CrcState (Z.lxor (Z.lxor (Z.lxor x3 x2) x1) x0) (cs_pos st + 4) (cs_len st)).

Definition DOLIT32 (buf : list Z) (st : crc_state) : option crc_state :=
  for_up 8 0 (λ _ st, DOLIT4 buf st) st.

Definition DOBIG4 (buf : list Z) (st : crc_state) : option crc_state :=
  w ← load_big buf (cs_pos st);
  let c := Z.lxor (cs_c st) w in
  x4 ← tables_get crc_table 4 (Z.land c 255);
  x5 ← tables_get crc_table 5 (Z.land (Z.shiftr c 8) 255);
  x6 ← tables_get crc_table 6 (Z.land (Z.shiftr c 16) 255);
  x7 ← tables_get crc_table 7 (Z.shiftr c 24);
  Some (CrcState (Z.lxor (Z.lxor (Z.lxor x4 x5) x6) x7) (cs_pos st + 4) (cs_len st)).

Definition DOBIG32 (buf : list Z) (st : crc_state) : option crc_state :=
  for_up 8 0 (λ _ st, DOBIG4 buf st) st.

(** The byte step of [crc32_big]. *)
Definition BIG1 (buf : list Z) (st : crc_state) : option crc_state :=
  b ← buf.[cs_pos st];
  x ← tables_get crc_table 4 (Z.lxor (Z.shiftr (cs_c st) 24) b);
  Some (CrcState (Z.lxor x (u32 (Z.shiftl (cs_c st) 8))) (cs_pos st + 1) (cs_len st)).

(** [while (len >= k) { step; len -= k; }] *)
Definition len_loop (k : Z) (step : crc_state → option crc_state) (st : crc_state)
  : option crc_state :=
  while (Z.to_nat (cs_len st)) (λ st, k <=? cs_len st)
    (λ st, st ← step st; Some (take_len k st)) st.

(** [while (len && ((ptrdiff_t)buf & 3)) { step; len--; }], where [addr] is
    the address of the first byte of the buffer. *)
Definition align_loop (addr : Z) (step : crc_state → option crc_state) (st : crc_state)
  : option crc_state :=
  while (Z.to_nat (cs_len st))
    (λ st, negb (cs_len st =? 0) && negb (Z.land (addr + cs_pos st) 3 =? 0))
    (λ st, st ← step st; Some (take_len 1 st)) st.

Definition crc32_little (crc addr : Z) (buf : list Z) (len : Z) : option Z :=
  let c := u32 crc in
  let c := u32 (Z.lnot c) in
  st ← align_loop addr (DO1_crc buf) (CrcState c 0 len);
  st ← len_loop 32 (DOLIT32 buf) st;
  st ← len_loop 4 (DOLIT4 buf) st;
  st ← len_loop 1 (DO1_crc buf) st;
  Some (u32 (Z.lnot (cs_c st))).

Definition crc32_big (crc addr : Z) (buf : list Z) (len : Z) : option Z :=
  let c := u32 (ZSWAP32 (u32 crc)) in
  let c := u32 (Z.lnot c) in
  st ← align_loop addr (BIG1 buf) (CrcState c 0 len);
  st ← len_loop 32 (DOBIG32 buf) st;
  st ← len_loop 4 (DOBIG4 buf) st;
  st ← len_loop 1 (BIG1 buf) st;
  Some (u32 (ZSWAP32 (u32 (Z.lnot (cs_c st))))).

(** The machine: whether it takes the four-bytes-at-a-time path and its byte
    order, which the code finds out by looking at the first byte of [1]. *)
Inductive machine := ByteAtATime | LittleEndian | BigEndian.

Definition crc32_z (m : machine) (crc addr : Z) (buf : option (list Z)) (len : Z)
  : option Z :=
  match buf with
  | None => Some 0
  | Some buf =>
      match m with
      | LittleEndian => crc32_little crc addr buf len
      | BigEndian => crc32_big crc addr buf len
      | ByteAtATime =>
          let crc := Z.lxor crc 4294967295 in
          st ← len_loop 8 (DO8_crc buf) (CrcState crc 0 len);
          st ← len_loop 1 (DO1_crc buf) st;
          Some (Z.lxor (cs_c st) 4294967295)
      end
  end.

Definition crc32 (m : machine) (crc addr : Z) (buf : option (list Z)) (len : Z)
  : option Z := crc32_z m crc addr buf len.

(** ** Combination *)

Record times_state := TimesState { t_sum : Z; t_vec : Z; t_mat : Z }.

Definition gf2_matrix_times (mat : list Z) (vec : Z) : option Z :=
  st ← while (Z.to_nat W) (λ st, negb (t_vec st =? 0))
    (λ st,
       sum ← (if Z.land (t_vec st) 1 =? 0 then Some (t_sum st)
              else m ← mat.[t_mat st]; Some (Z.lxor (t_sum st) m));
       Some (TimesState sum (Z.shiftr (t_vec st) 1) (t_mat st + 1)))
    (TimesState 0 vec 0);
  Some (t_sum st).

Definition gf2_matrix_square (square mat : list Z) : option (list Z) :=
  for_up (Z.to_nat GF2_DIM) 0
    (λ n square, v ← mat.[n]; x ← gf2_matrix_times mat v; square.[n <- x]) square.

Record combine_state :=
  CombineState { cb_crc : Z; cb_len : Z; cb_even : list Z; cb_odd : list Z }.

(** Half an iteration of the loop: square one operator into the other array
    and apply it when the bit of [len2] is set. *)
Definition combine_half (st : combine_state) (square mat : list Z)
  : option (Z * Z * list Z) :=
  square ← gf2_matrix_square square mat;
  crc ← (if Z.land (cb_len st) 1 =? 0 then Some (cb_crc st)
         else gf2_matrix_times square (cb_crc st));
  Some (crc, Z.shiftr (cb_len st) 1, square).

(** The body of the [do ... while (len2 != 0)] loop, with its [break]. *)
Definition combine_body (st : combine_state) : option combine_state :=
  '(crc, len2, even) ← combine_half st (cb_even st) (cb_odd st);
  let st := CombineState crc len2 even (cb_odd st) in
  if len2 =? 0 then Some st
  else
    '(crc, len2, odd) ← combine_half st (cb_odd st) (cb_even st);
    Some (CombineState crc len2 (cb_even st) odd).

Definition init_odd (odd : list Z) : option (list Z) :=
  odd ← odd.[0 <- 3988292384];
  '(_, odd) ← for_up 31 1
    (λ n '(row, odd), odd ← odd.[n <- row]; Some (wrap W (Z.shiftl row 1), odd))
    (1, odd);
  Some odd.

(** [even] and [odd] are what the uninitialised local arrays hold. *)
Definition crc32_combine_ (even odd : list Z) (crc1 crc2 len2 : Z) : option Z :=
  if len2 <=? 0 then Some crc1
  else
    odd ← init_odd odd;
    even ← gf2_matrix_square even odd;
    odd ← gf2_matrix_square odd even;
    st ← combine_body (CombineState crc1 len2 even odd);
    st ← while 64 (λ st, negb (cb_len st =? 0)) combine_body st;
    Some (Z.lxor (cb_crc st) crc2).

Definition crc32_combine (even odd : list Z) (crc1 crc2 len2 : Z) : option Z :=
  crc32_combine_ even odd crc1 crc2 len2.

Definition crc32_combine64 (even odd : list Z) (crc1 crc2 len2 : Z) : option Z :=
  crc32_combine_ even odd crc1 crc2 len2.

End crc32.

(** ** Reference definition

    The shift register of the comment in [crc32.c]: one bit at a time,
    multiplying by [x] modulo the polynomial. *)

Definition POLY : Z := 3988292384.

Lemma POLY_width : in_width 32 POLY.
Proof. unfold in_width, POLY. lia. Qed.

Lemma POLY_top : 2 ^ 31 ≤ POLY.
Proof. unfold POLY. lia. Qed.

#[local] Instance crc32_poly : CrcPoly := { poly := POLY; poly_width := POLY_width; poly_top := POLY_top }.

Definition crc32_ref (crc : Z) (data : list Z) : Z := crc_ref crc data.

(** ** The tables *)

(** What entry [n] of table [k] must be: [k+1] zero bytes shifted through the
    register, byte-reversed in the second half. *)
Definition table_spec (k : nat) (n : Z) : Z :=
  if (k <? 4)%nat then Nat.iter (S k) crc8 n
  else ZSWAP32 (Nat.iter (S (k - 4)) crc8 n).

Definition table_ok (k : nat) : bool :=
  forallb (λ n, bool_decide (tables_get crc_table (Z.of_nat k) n = Some (table_spec k n)))
    (seqZ 0 256).

Lemma tables_ok : forallb table_ok (seq 0 8) = true.
Proof. vm_compute. reflexivity. Qed.

Lemma crc_table_spec k n :
  (k < 8)%nat → in_width 8 n → tables_get crc_table (Z.of_nat k) n = Some (table_spec k n).
Proof.
  intros Hk Hn. pose proof tables_ok as H. rewrite forallb_forall in H.
  specialize (H k). rewrite in_seq in H. specialize (H ltac:(lia)).
  unfold table_ok in H. rewrite forallb_forall in H.
  specialize (H n). apply bool_decide_eq_true_1 in H; [done|].
  apply list_elem_of_In, elem_of_seqZ. exact Hn.
Qed.

Lemma land_65280 x : Z.land x 65280 = Z.shiftl (Z.land (Z.shiftr x 8) 255) 8.
Proof.
  change 65280 with (Z.shiftl 255 8). apply Z.bits_inj'. intros i Hi.
  rewrite Z.land_spec. destruct (decide (i < 8)).
  - rewrite !Z.shiftl_spec_low by lia. apply andb_false_r.
  - rewrite !Z.shiftl_spec, Z.land_spec, Z.shiftr_spec by lia. do 2 f_equal. lia.
Qed.

Lemma ZSWAP32_word x :
  ZSWAP32 x = word (byte_at 3 x) (byte_at 2 x) (byte_at 1 x) (byte_at 0 x).
Proof.
  rewrite word_add by apply byte_at_width. unfold ZSWAP32, byte_at.
  rewrite !land_65280, Z.shiftr_shiftr, Z.shiftl_shiftl, Z.shiftr_0_r by lia. done.
Qed.

Lemma ZSWAP32_linear : linear ZSWAP32.
Proof. intros a b. rewrite !ZSWAP32_word, !byte_at_linear, word_lxor. done. Qed.

Lemma ZSWAP32_width x : in_width 32 (ZSWAP32 x).
Proof. rewrite ZSWAP32_word. apply word_width; apply byte_at_width. Qed.

#[local] Hint Resolve ZSWAP32_width : width.

Lemma ZSWAP32_involutive x : in_width 32 x → ZSWAP32 (ZSWAP32 x) = x.
Proof.
  intros Hx. rewrite (ZSWAP32_word x), ZSWAP32_word.
  destruct (byte_at_word (byte_at 3 x) (byte_at 2 x) (byte_at 1 x) (byte_at 0 x))
    as (-> & -> & -> & ->); [apply byte_at_width..|].
  apply word_bytes. done.
Qed.

(** ** Stepping through the buffer *)

Section steps.
Context (buf : list Z) (Hbuf : bytes buf).

(** [step] consumes [k] bytes; [view] maps the register to the reference
    register (the identity, or a byte swap on big-endian machines). *)
Definition step_ok (view : Z → Z) (k : Z) (step : crc_state → option crc_state) : Prop :=
  ∀ st, in_width 32 (cs_c st) → 0 ≤ cs_pos st →
  cs_pos st + k ≤ Z.of_nat (length buf) →
  succeeds (step st) (λ st',
    cs_pos st' = cs_pos st + k ∧ cs_len st' = cs_len st ∧ in_width 32 (cs_c st') ∧
    view (cs_c st') = foldl crc_byte (view (cs_c st)) (slice buf (cs_pos st) k)).

(** What the loops keep. *)
Definition crc_inv (view : Z → Z) (c0 total : Z) (st : crc_state) : Prop :=
  0 ≤ cs_len st ∧ 0 ≤ cs_pos st ∧ cs_pos st + cs_len st = total ∧
  in_width 32 (cs_c st) ∧ view (cs_c st) = foldl crc_byte c0 (slice buf 0 (cs_pos st)).

Lemma step_inv view c0 total k step st :
  step_ok view k step → total ≤ Z.of_nat (length buf) →
  crc_inv view c0 total st → 0 < k ≤ cs_len st →
  succeeds (st ← step st; Some (take_len k st))
    (λ st', crc_inv view c0 total st' ∧ (Z.to_nat (cs_len st') < Z.to_nat (cs_len st))%nat).
Proof.
  intros Hs Ht (? & ? & ? & Hw & Hv) Hk.
  eapply succeeds_bind; [apply Hs; [done|lia|lia]|]. intros st' (Hp & Hl & Hw' & Hv').
  simpl. unfold crc_inv, take_len. simpl. rewrite Hp, Hl. split; [|lia].
  split_and!; [lia|lia|lia|done|]. rewrite Hv', Hv, <-foldl_app, slice_app by lia. done.
Qed.

Lemma len_loop_ok view c0 total k step st :
  step_ok view k step → 0 < k → total ≤ Z.of_nat (length buf) → crc_inv view c0 total st →
  succeeds (len_loop k step st) (λ st', crc_inv view c0 total st' ∧ cs_len st' < k).
Proof.
  intros Hs Hk Ht Hst. eapply succeeds_mono.
  - apply (while_total (crc_inv view c0 total) (λ st, Z.to_nat (cs_len st))); [|done..].
    intros st' Hst' Hc%Z.leb_le. by apply step_inv.
  - intros st' [? Hc%Z.leb_gt]. done.
Qed.

Lemma align_loop_ok view c0 total addr step st :
  step_ok view 1 step → total ≤ Z.of_nat (length buf) → crc_inv view c0 total st →
  succeeds (align_loop addr step st) (crc_inv view c0 total).
Proof.
  intros Hs Ht Hst. eapply succeeds_mono.
  - apply (while_total (crc_inv view c0 total) (λ st, Z.to_nat (cs_len st))); [|done..].
    intros st' Hst' [Hc%negb_true_iff%Z.eqb_neq _]%andb_prop.
    apply step_inv; [done..|]. destruct Hst'. lia.
  - intros st' [? ?]. done.
Qed.

Lemma step_ok_8 view k step :
  step_ok view k step → 0 < k → step_ok view (8 * k) (for_up 8 0 (λ _ st, step st)).
Proof.
  intros Hs Hk st Hw Hp Hlen.
  set (I := λ (j : Z) st', cs_pos st' = cs_pos st + j * k ∧ cs_len st' = cs_len st ∧
    in_width 32 (cs_c st') ∧
    view (cs_c st') = foldl crc_byte (view (cs_c st)) (slice buf (cs_pos st) (j * k))).
  apply (for_up_total I); [|unfold I; cbn; rewrite Z.add_0_r; done].
  intros j st' Hj (Hp' & Hl' & Hw' & Hv'). change (Z.of_nat 8) with 8 in Hj.
  eapply succeeds_mono; [apply Hs; [done|nia|nia]|].
  intros st'' (Hp2 & Hl2 & Hw2 & Hv2). unfold I.
  rewrite Z.mul_add_distr_r, Z.mul_1_l, slice_app, foldl_app by nia.
  rewrite <-Hv', <-Hp'. split_and!; [lia|congruence|done|done].
Qed.

(** *** The byte steps *)

Lemma DO1_crc_ok : step_ok id 1 (DO1_crc buf).
Proof.
  intros st Hw Hp Hlen. unfold DO1_crc.
  destruct (aget_in buf (cs_pos st)) as [b Hb]; [lia|].
  pose proof (bytes_aget _ _ _ Hbuf Hb) as Hb8.
  rewrite (slice_1 _ _ _ Hb), Hb. simpl_bind.
  rewrite land_byte. rewrite (crc_table_spec 0) by (lia || apply (wrap_range 8); lia).
  simpl. change (table_spec 0 ?x) with (crc8 x).
  rewrite <-land_byte, <-(shiftr_lxor_byte _ b), <-crc8_split by done.
  split_and!; [done..| |done]. by apply (crc_byte_width _ b).
Qed.

Lemma ZSWAP32_shiftl c :
  in_width 32 c → ZSWAP32 (u32 (Z.shiftl c 8)) = Z.shiftr (ZSWAP32 c) 8.
Proof.
  intros Hc. rewrite !ZSWAP32_word. apply Z.bits_inj'. intros i Hi.
  rewrite Z.shiftr_spec, !word_testbit by (lia || apply byte_at_width).
  assert (∀ k j, 0 ≤ k < 4 → 0 ≤ j < 8 →
    Z.testbit (byte_at k (u32 (Z.shiftl c 8))) j = (0 <? k) && Z.testbit c (j + 8 * k - 8)) as Hs.
  { intros k j Hk Hj. rewrite byte_at_testbit by lia. unfold wrap.
    rewrite Z.mod_pow2_bits_low, Z.shiftl_spec by lia.
    destruct (Z.ltb_spec 0 k); [done|]. apply Z.testbit_neg_r. lia. }
  assert (∀ k j, 0 ≤ k < 4 → 0 ≤ j < 8 → Z.testbit (byte_at k c) j = Z.testbit c (j + 8 * k)) as Hc'.
  { intros. apply byte_at_testbit; lia. }
  repeat match goal with |- context [?a <? ?b] => destruct (Z.ltb_spec a b); try lia end;
    rewrite ?Hs, ?Hc' by lia; simpl; try (f_equal; lia).
  all: destruct (decide (i < 32)); [rewrite Hs by lia; simpl|].
  all: rewrite ?(testbit_above 8 (byte_at _ _)) by (lia || apply byte_at_width); done.
Qed.

Lemma swap_bytes c :
  byte_at 0 (ZSWAP32 c) = byte_at 3 c ∧ byte_at 1 (ZSWAP32 c) = byte_at 2 c ∧
  byte_at 2 (ZSWAP32 c) = byte_at 1 c ∧ byte_at 3 (ZSWAP32 c) = byte_at 0 c.
Proof. rewrite ZSWAP32_word. apply byte_at_word; apply byte_at_width. Qed.

Lemma BIG1_ok : step_ok ZSWAP32 1 (BIG1 buf).
Proof.
  intros st Hw Hp Hlen. unfold BIG1.
  destruct (aget_in buf (cs_pos st)) as [b Hb]; [lia|].
  pose proof (bytes_aget _ _ _ Hbuf Hb) as Hb8.
  rewrite (slice_1 _ _ _ Hb), Hb. simpl_bind. rewrite shiftr24_byte by done.
  assert (in_width 8 (Z.lxor (byte_at 3 (cs_c st)) b)) as Hx
    by solve_width.
  rewrite (crc_table_spec 4) by (lia || done). simpl.
  change (table_spec 4 _) with (ZSWAP32 (crc8 (Z.lxor (byte_at 3 (cs_c st)) b))).
  split_and!; [done..| |].
  - solve_width.
  - rewrite ZSWAP32_linear, ZSWAP32_involutive, ZSWAP32_shiftl by
      (done || (apply crc8_width, (in_width_mono 8); [lia|done])).
    unfold crc_byte. rewrite (crc8_split (Z.lxor (ZSWAP32 _) b)), shiftr_lxor_byte by done.
    do 2 f_equal. destruct (swap_bytes (cs_c st)) as (<- & _).
    rewrite <-(Z.mod_small b (2 ^ 8)) at 1 by done. rewrite <-land_byte.
    rewrite <-(Z.shiftr_0_r b) at 1. symmetry. apply (byte_at_linear 0).
Qed.

(** *** The word steps *)

Lemma load_4 p :
  0 ≤ p → p + 4 ≤ Z.of_nat (length buf) →
  ∃ b0 b1 b2 b3, slice buf p 4 = [b0; b1; b2; b3] ∧
    in_width 8 b0 ∧ in_width 8 b1 ∧ in_width 8 b2 ∧ in_width 8 b3 ∧
    load_little buf p = Some (word b0 b1 b2 b3) ∧ load_big buf p = Some (word b3 b2 b1 b0).
Proof.
  intros Hp Hlen.
  destruct (aget_in buf p) as [b0 H0]; [lia|].
  destruct (aget_in buf (p + 1)) as [b1 H1]; [lia|].
  destruct (aget_in buf (p + 2)) as [b2 H2]; [lia|].
  destruct (aget_in buf (p + 3)) as [b3 H3]; [lia|].
  pose proof (bytes_aget _ _ _ Hbuf H0). pose proof (bytes_aget _ _ _ Hbuf H1).
  pose proof (bytes_aget _ _ _ Hbuf H2). pose proof (bytes_aget _ _ _ Hbuf H3).
  exists b0, b1, b2, b3. split_and!; [|done..| |].
  - change 4 with (1 + (1 + (1 + 1))). rewrite !slice_app by lia.
    rewrite (slice_1 _ _ _ H0), (slice_1 _ _ _ H1).
    replace (p + 1 + 1) with (p + 2) by lia. rewrite (slice_1 _ _ _ H2).
    replace (p + 2 + 1) with (p + 3) by lia. rewrite (slice_1 _ _ _ H3). done.
  - unfold load_little. rewrite H0, H1, H2, H3. simpl. rewrite word_add by done. done.
  - unfold load_big. rewrite H0, H1, H2, H3. simpl. rewrite word_add by done. done.
Qed.

Lemma DOLIT4_ok : step_ok id 4 (DOLIT4 buf).
Proof.
  intros st Hw Hp Hlen. unfold DOLIT4.
  destruct (load_4 (cs_pos st)) as (b0 & b1 & b2 & b3 & -> & ? & ? & ? & ? & -> & _); [done..|].
  simpl_bind. set (c := Z.lxor (cs_c st) (word b0 b1 b2 b3)).
  assert (in_width 32 c) as Hc by solve_width.
  rewrite shiftr24_byte by done.
  change (Z.land (Z.shiftr c 8) 255) with (byte_at 1 c).
  change (Z.land (Z.shiftr c 16) 255) with (byte_at 2 c).
  change (Z.land c 255) with (byte_at 0 c).
  rewrite (crc_table_spec 3), (crc_table_spec 2), (crc_table_spec 1), (crc_table_spec 0)
    by (lia || apply byte_at_width). cbn [mbind option_bind succeeds cs_c cs_pos cs_len].
  split_and!; [done..| |].
  all: change (table_spec 3 _) with (Nat.iter 4 crc8 (byte_at 0 c));
    change (table_spec 2 _) with (Nat.iter 3 crc8 (byte_at 1 c));
    change (table_spec 1 _) with (Nat.iter 2 crc8 (byte_at 2 c));
    change (table_spec 0 _) with (crc8 (byte_at 3 c)).
  all: rewrite <-crc8_word, word_bytes by done.
  - apply (iter_width crc8 4); [apply crc8_width|done].
  - rewrite crc_byte_4. done.
Qed.

Lemma DOBIG4_ok : step_ok ZSWAP32 4 (DOBIG4 buf).
Proof.
  intros st Hw Hp Hlen. unfold DOBIG4.
  destruct (load_4 (cs_pos st)) as (b0 & b1 & b2 & b3 & -> & ? & ? & ? & ? & _ & ->); [done..|].
  simpl_bind. set (c := Z.lxor (cs_c st) (word b3 b2 b1 b0)).
  assert (in_width 32 c) as Hc by solve_width.
  assert (ZSWAP32 c = Z.lxor (ZSWAP32 (cs_c st)) (word b0 b1 b2 b3)) as Hsw.
  { unfold c. rewrite ZSWAP32_linear. f_equal. rewrite ZSWAP32_word.
    destruct (byte_at_word b3 b2 b1 b0) as (-> & -> & -> & ->); done. }
  rewrite shiftr24_byte by done.
  change (Z.land (Z.shiftr c 8) 255) with (byte_at 1 c).
  change (Z.land (Z.shiftr c 16) 255) with (byte_at 2 c).
  change (Z.land c 255) with (byte_at 0 c).
  rewrite (crc_table_spec 4), (crc_table_spec 5), (crc_table_spec 6), (crc_table_spec 7)
    by (lia || apply byte_at_width). cbn [mbind option_bind succeeds cs_c cs_pos cs_len].
  change (table_spec 4 _) with (ZSWAP32 (crc8 (byte_at 0 c)));
    change (table_spec 5 _) with (ZSWAP32 (Nat.iter 2 crc8 (byte_at 1 c)));
    change (table_spec 6 _) with (ZSWAP32 (Nat.iter 3 crc8 (byte_at 2 c)));
    change (table_spec 7 _) with (ZSWAP32 (Nat.iter 4 crc8 (byte_at 3 c))).
  rewrite <-!ZSWAP32_linear.
  assert (Z.lxor (Z.lxor (Z.lxor (crc8 (byte_at 0 c)) (Nat.iter 2 crc8 (byte_at 1 c)))
            (Nat.iter 3 crc8 (byte_at 2 c))) (Nat.iter 4 crc8 (byte_at 3 c))
          = Nat.iter 4 crc8 (ZSWAP32 c)) as ->.
  { rewrite ZSWAP32_word, crc8_word. rewrite Z.lxor_comm, (Z.lxor_comm (Z.lxor _ _) (Nat.iter 3 _ _)).
    rewrite (Z.lxor_comm (crc8 _)), <-!Z.lxor_assoc. done. }
  split_and!; [done..|apply ZSWAP32_width|].
  rewrite crc_byte_4, ZSWAP32_involutive, Hsw; [done|].
  apply (iter_width crc8 4); [apply crc8_width|apply ZSWAP32_width].
Qed.

End steps.

(** ** The checksum routines *)

Lemma u32_lnot c : in_width 32 c → u32 (Z.lnot c) = Z.lxor c 4294967295.
Proof.
  intros Hc. apply Z.bits_inj'. intros i Hi. unfold wrap. rewrite Z.lxor_spec.
  change 4294967295 with (Z.ones 32). destruct (decide (i < 32)).
  - rewrite Z.mod_pow2_bits_low, Z.lnot_spec, Z.ones_spec_low by lia.
    symmetry. apply xorb_true_r.
  - rewrite Z.mod_pow2_bits_high, Z.ones_spec_high, (testbit_above 32) by (done || lia). done.
Qed.

Section routines.
Context (buf : list Z) (Hbuf : bytes buf) (crc len : Z).
Context (Hcrc : in_width 32 crc) (Hlen : 0 ≤ len ≤ Z.of_nat (length buf)).

Lemma crc_start view c c0 :
  in_width 32 c → view c = c0 → crc_inv buf view c0 len (CrcState c 0 len).
Proof. intros. unfold crc_inv. cbn. split_and!; (done || lia). Qed.

Lemma crc_finish view c0 st :
  crc_inv buf view c0 len st → cs_len st < 1 →
  view (cs_c st) = foldl crc_byte c0 (slice buf 0 len) ∧ in_width 32 (cs_c st).
Proof.
  intros (? & ? & ? & ? & ->) ?. split; [|done]. do 2 f_equal. lia.
Qed.

Lemma byfour_ok view addr step1 step32 step4 c c0 (k : Z → option Z) Q :
  step_ok buf view 1 step1 → step_ok buf view 32 step32 → step_ok buf view 4 step4 →
  in_width 32 c → view c = c0 →
  (∀ x, view x = foldl crc_byte c0 (slice buf 0 len) → in_width 32 x → succeeds (k x) Q) →
  succeeds
    (st ← align_loop addr step1 (CrcState c 0 len);
     st ← len_loop 32 step32 st;
     st ← len_loop 4 step4 st;
     st ← len_loop 1 step1 st;
     k (cs_c st)) Q.
Proof.
  intros H1 H32 H4 Hc Hv Hk.
  eapply succeeds_bind; [eapply align_loop_ok; [done|apply Hlen|by apply crc_start]|].
  intros st1 I1. cbn beta.
  eapply succeeds_bind; [eapply len_loop_ok; [done|lia|apply Hlen|done]|].
  intros st2 [I2 _]. cbn beta.
  eapply succeeds_bind; [eapply len_loop_ok; [done|lia|apply Hlen|done]|].
  intros st3 [I3 _]. cbn beta.
  eapply succeeds_bind; [eapply len_loop_ok; [done|lia|apply Hlen|done]|].
  intros st4 [I4 L4]. cbn beta.
  destruct (crc_finish _ _ _ I4 L4). by apply Hk.
Qed.

Lemma crc32_little_ok addr :
  crc32_little crc addr buf len = Some (crc32_ref crc (slice buf 0 len)).
Proof.
  unfold crc32_little. cbv zeta. rewrite (wrap_small 32 crc), u32_lnot by done.
  set (c := Z.lxor crc 4294967295).
  assert (in_width 32 c) as Hc by solve_width.
  apply succeeds_eq, (byfour_ok id addr (DO1_crc buf) (DOLIT32 buf) (DOLIT4 buf) c c
    (λ x, Some (u32 (Z.lnot x)))); [by apply DO1_crc_ok| |by apply DOLIT4_ok|done..|].
  - apply (step_ok_8 buf id 4); [by apply DOLIT4_ok|lia].
  - unfold id. intros x -> Hw. simpl. rewrite u32_lnot by done. done.
Qed.

Lemma ZSWAP32_ones : ZSWAP32 4294967295 = 4294967295.
Proof. done. Qed.

Lemma crc32_big_ok addr :
  crc32_big crc addr buf len = Some (crc32_ref crc (slice buf 0 len)).
Proof.
  unfold crc32_big. cbv zeta. rewrite (wrap_small 32 crc) by done.
  rewrite (wrap_small 32 (ZSWAP32 crc)), u32_lnot by apply ZSWAP32_width.
  set (c := Z.lxor (ZSWAP32 crc) 4294967295).
  assert (in_width 32 c) as Hc by solve_width.
  assert (ZSWAP32 c = Z.lxor crc 4294967295) as Hv.
  { unfold c. rewrite ZSWAP32_linear, ZSWAP32_involutive by done. done. }
  apply succeeds_eq, (byfour_ok ZSWAP32 addr (BIG1 buf) (DOBIG32 buf) (DOBIG4 buf) c
    (Z.lxor crc 4294967295) (λ x, Some (u32 (ZSWAP32 (u32 (Z.lnot x))))));
    [by apply BIG1_ok| |by apply DOBIG4_ok|done|exact Hv|].
  - apply (step_ok_8 buf ZSWAP32 4); [by apply DOBIG4_ok|lia].
  - intros x Hx Hw. simpl. rewrite u32_lnot by done.
    rewrite wrap_small by apply ZSWAP32_width. rewrite ZSWAP32_linear, Hx. done.
Qed.

Lemma crc32_bytewise_ok addr :
  crc32_z ByteAtATime crc addr (Some buf) len = Some (crc32_ref crc (slice buf 0 len)).
Proof.
  unfold crc32_z. cbv zeta. set (c := Z.lxor crc 4294967295).
  assert (in_width 32 c) as Hc by solve_width.
  destruct (succeeds_elim _ _ (len_loop_ok buf id c len 8 (DO8_crc buf) (CrcState c 0 len)
    (step_ok_8 buf id 1 _ (DO1_crc_ok buf Hbuf) ltac:(lia)) ltac:(lia) (proj2 Hlen)
    (crc_start id c c Hc eq_refl))) as (st & -> & I & _). simpl_bind.
  destruct (succeeds_elim _ _ (len_loop_ok buf id c len 1 (DO1_crc buf) st
    (DO1_crc_ok buf Hbuf) ltac:(lia) (proj2 Hlen) I)) as (st' & -> & I' & L).
  destruct (crc_finish _ _ _ I' L) as [E _]. unfold id in E. simpl. rewrite E. done.
Qed.

End routines.

Lemma crc32_z_ref m crc addr buf len :
  bytes buf → in_width 32 crc → 0 ≤ len ≤ Z.of_nat (length buf) →
  crc32_z m crc addr (Some buf) len = Some (crc32_ref crc (take (Z.to_nat len) buf)).
Proof.
  intros. destruct m; [apply crc32_bytewise_ok|apply crc32_little_ok|apply crc32_big_ok]; done.
Qed.

(** ** Combining two CRCs *)

Lemma crc32_ref_app crc d1 d2 :
  bytes d2 →
  crc32_ref crc (d1 ++ d2) =
  Z.lxor (Nat.iter (length d2) crc8 (crc32_ref crc d1)) (crc32_ref 0 d2).
Proof. apply crc_ref_app. Qed.

Lemma crc32_ref_width crc d : bytes d → in_width 32 crc → in_width 32 (crc32_ref crc d).
Proof. apply crc_ref_width. Qed.

(** [mat] is the matrix of the linear operator [f] on 32-bit vectors. *)
Definition represents (mat : list Z) (f : Z → Z) : Prop :=
  length mat = 32%nat ∧ ∀ n, 0 ≤ n < 32 → aget mat n = Some (f (2 ^ n)).

(** The operator for [n] zero bits. *)
Definition zeros (n : nat) : Z → Z := Nat.iter n crc_bit.

Lemma zeros_linear n : linear (zeros n).
Proof. apply linear_iter, crc_bit_linear. Qed.

Lemma zeros_width n c : in_width 32 c → in_width 32 (zeros n c).
Proof. apply iter_width, crc_bit_width. Qed.

Lemma zeros_add m n c : zeros (m + n) c = zeros m (zeros n c).
Proof. unfold zeros. apply Nat.iter_add. Qed.

Section combine.
Context (W : Z) (HW : 32 ≤ W).

Lemma vec_split v k : 0 ≤ k →
  Z.shiftl v k =
  Z.lxor (if Z.land v 1 =? 0 then 0 else 2 ^ k) (Z.shiftl (Z.shiftr v 1) (k + 1)).
Proof.
  intros Hk. rewrite (lxor_split v 1) at 1 by lia.
  rewrite Z.shiftl_lxor, Z.shiftl_shiftl by lia. f_equal; [|f_equal; lia].
  rewrite (Z.land_ones v 1 ltac:(lia) : Z.land v 1 = _). change (2 ^ 1) with 2.
  destruct (Z.mod_pos_bound v 2 eq_refl).
  destruct (Z.eqb_spec (v mod 2) 0) as [->|]; [apply Z.shiftl_0_l|].
  replace (v mod 2) with 1 by lia. apply Z.shiftl_1_l.
Qed.

Lemma gf2_matrix_times_ok mat f v :
  linear f → represents mat f → in_width 32 v → gf2_matrix_times W mat v = Some (f v).
Proof.
  intros Hf [Hl Hm] Hv. unfold gf2_matrix_times.
  set (I := λ st, 0 ≤ t_mat st ≤ 32 ∧ in_width (32 - t_mat st) (t_vec st) ∧
                  Z.lxor (t_sum st) (f (Z.shiftl (t_vec st) (t_mat st))) = f v).
  assert (succeeds (while (Z.to_nat W) (λ st, negb (t_vec st =? 0))
    (λ st, sum ← (if Z.land (t_vec st) 1 =? 0 then Some (t_sum st)
              else m ← mat.[t_mat st]; Some (Z.lxor (t_sum st) m));
       Some (TimesState sum (Z.shiftr (t_vec st) 1) (t_mat st + 1)))
    (TimesState 0 v 0)) (λ st, I st ∧ negb (t_vec st =? 0) = false)) as H.
  { apply (while_total I (λ st, Z.to_nat (32 - t_mat st))).
    - intros [sum vec k] (Hk & Hvec & Hs) Hc%negb_true_iff%Z.eqb_neq. simpl in *.
      assert (k < 32) as Hk32.
      { destruct (decide (k = 32)) as [->|]; [|lia]. unfold in_width in Hvec. simpl in Hvec. lia. }
      rewrite (vec_split vec k), Hf, <-Z.lxor_assoc in Hs by lia.
      assert (in_width (32 - (k + 1)) (Z.shiftr vec 1)) as Hsh.
      { unfold in_width in *. rewrite Z.shiftr_div_pow2 by lia.
        replace (32 - k) with (32 - (k + 1) + 1) in Hvec by lia.
        rewrite Z.pow_add_r in Hvec by lia.
        split; [apply Z.div_pos|apply Z.div_lt_upper_bound]; lia. }
      destruct (Z.land vec 1 =? 0); simpl.
      + rewrite (linear_0 f Hf), Z.lxor_0_r in Hs. unfold I. simpl. split; [|lia].
        split_and!; (done || lia).
      + rewrite Hm by lia. simpl. unfold I. simpl. split; [|lia].
        split_and!; (done || lia).
    - unfold I. simpl. rewrite Z.shiftl_0_r, Z.lxor_0_l. split_and!; (done || lia).
    - simpl. lia. }
  apply succeeds_elim in H as (st & -> & (_ & _ & Hs) & Hz%negb_false_iff%Z.eqb_eq).
  simpl. rewrite Hz, Z.shiftl_0_l, (linear_0 f Hf), Z.lxor_0_r in Hs. congruence.
Qed.

Lemma gf2_matrix_square_ok square mat n :
  length square = 32%nat → represents mat (zeros n) →
  succeeds (gf2_matrix_square W square mat) (λ sq, represents sq (zeros (n + n))).
Proof.
  intros Hsq Hm. unfold gf2_matrix_square.
  set (I := λ j sq, length sq = 32%nat ∧
    ∀ i, 0 ≤ i < j → aget sq i = Some (zeros (n + n) (2 ^ i))).
  eapply succeeds_mono; [apply (for_up_total I)|].
  - intros j sq Hj [Hl Hi]. change (Z.of_nat (Z.to_nat GF2_DIM)) with 32 in Hj.
    rewrite (proj2 Hm) by lia. simpl_bind.
    assert (in_width 32 (2 ^ j)).
    { split; [apply Z.pow_nonneg; lia|apply Z.pow_lt_mono_r; lia]. }
    rewrite (gf2_matrix_times_ok mat (zeros n)) by (try done; apply zeros_linear || by apply zeros_width).
    simpl_bind. rewrite aset_in by lia. simpl. split; [by rewrite length_insert|].
    intros i Hi'. rewrite aget_insert by lia. case_decide as E.
    + rewrite zeros_add, E. done.
    + apply Hi. lia.
  - split; [done|lia].
  - intros sq [Hl Hi]. split; [done|]. exact Hi.
Qed.

Lemma init_odd_ok odd :
  length odd = 32%nat → succeeds (init_odd W odd) (λ o, represents o (zeros 1)).
Proof.
  intros Hl. unfold init_odd. rewrite aset_in by lia. simpl_bind.
  set (I := λ j st, (j ≤ 31 → st.1 = 2 ^ (j - 1)) ∧ length st.2 = 32%nat ∧
    ∀ i, 0 ≤ i < j → aget st.2 i = Some (zeros 1 (2 ^ i))).
  assert (succeeds (for_up 31 1 (λ n '(row, odd), odd ← odd.[n <- row];
      Some (wrap W (Z.shiftl row 1), odd)) (1, <[Z.to_nat 0:=3988292384]> odd)) (I 32)) as H.
  { apply (for_up_total I).
    - intros j [row o] Hj (Hr & Hlo & Hi). simpl in *. rewrite aset_in by lia. simpl.
      assert (row = 2 ^ (j - 1)) as -> by (apply Hr; lia).
      split_and!; simpl.
      + intros Hj31. rewrite Z.shiftl_mul_pow2, <-Z.pow_add_r by lia.
        replace (j - 1 + 1) with j by lia. replace (j + 1 - 1) with j by lia.
        apply wrap_small. split; [apply Z.pow_nonneg; lia|apply Z.pow_lt_mono_r; lia].
      + by rewrite length_insert.
      + intros i Hi'. rewrite aget_insert by lia. case_decide as E; [|apply Hi; lia].
        subst i. f_equal. change (zeros 1 (2 ^ j)) with (crc_bit (2 ^ j)).
        rewrite <-(Z.shiftl_1_l j), crc_bit_shiftl, Z.shiftl_1_l by lia. done.
    - unfold I. simpl. split_and!; [done|by rewrite length_insert|].
      intros i Hi. replace i with 0 by lia. rewrite (aget_insert _ 0) by lia.
      case_decide; [done|lia]. }
  apply succeeds_elim in H as ([row o] & -> & _ & Hlo & Hi). simpl. split; [done|]. exact Hi.
Qed.

(** The loop over the bits of [len2]: [odd] holds the operator for [p] zero
    bits, and applying [2 * p * len2] more zeros gives the final register. *)
Definition combine_inv (R : Z) (st : combine_state) : Prop :=
  0 ≤ cb_len st ∧ in_width 32 (cb_crc st) ∧ length (cb_even st) = 32%nat ∧
  ∃ p, represents (cb_odd st) (zeros p) ∧
       zeros (2 * p * Z.to_nat (cb_len st)) (cb_crc st) = R.

Lemma combine_half_ok st square mat p R :
  0 ≤ cb_len st → in_width 32 (cb_crc st) → length square = 32%nat →
  represents mat (zeros p) →
  zeros (2 * p * Z.to_nat (cb_len st)) (cb_crc st) = R →
  succeeds (combine_half W st square mat) (λ '(crc, len2, sq),
    len2 = cb_len st / 2 ∧ in_width 32 crc ∧ represents sq (zeros (2 * p)) ∧
    zeros (2 * (2 * p) * Z.to_nat len2) crc = R).
Proof.
  intros Hl Hc Hsq Hm HR. unfold combine_half.
  eapply succeeds_bind; [by apply (gf2_matrix_square_ok square mat p)|]. intros sq Hs. cbn beta.
  replace (p + p)%nat with (2 * p)%nat in Hs by lia.
  rewrite Z.shiftr_div_pow2 by lia. change (2 ^ 1) with 2.
  rewrite (Z.land_ones (cb_len st) 1 ltac:(lia) : Z.land (cb_len st) 1 = _).
  change (2 ^ 1) with 2. pose proof (Z.div_mod (cb_len st) 2 ltac:(lia)) as Hd.
  pose proof (Z.mod_pos_bound (cb_len st) 2 ltac:(lia)) as Hb.
  pose proof (Z.div_pos (cb_len st) 2 ltac:(lia) ltac:(lia)).
  destruct (Z.eqb_spec (cb_len st mod 2) 0) as [E|E]; simpl.
  - split_and!; [done..|]. rewrite <-HR. f_equal.
    assert (Z.to_nat (cb_len st) = 2 * Z.to_nat (cb_len st / 2))%nat as -> by lia. lia.
  - rewrite (gf2_matrix_times_ok sq (zeros (2 * p))) by (done || apply zeros_linear). simpl.
    split_and!; [done|by apply zeros_width|done|]. rewrite <-zeros_add, <-HR. f_equal.
    assert (Z.to_nat (cb_len st) = 2 * Z.to_nat (cb_len st / 2) + 1)%nat as -> by lia. lia.
Qed.

Definition len_bits (l : Z) : nat := if decide (l = 0) then 0 else Z.to_nat (Z.log2 l + 1).

Lemma len_bits_half l : 0 < l → (len_bits (l / 2) < len_bits l)%nat.
Proof.
  intros Hl. unfold len_bits. destruct (decide (l = 0)); [lia|].
  pose proof (Z.log2_nonneg l). destruct (decide (l / 2 = 0)); [lia|].
  assert (0 < l / 2) by (pose proof (Z.div_pos l 2); lia).
  assert (Z.log2 (l / 2) = Z.log2 l - 1).
  { rewrite <-Z.div2_div, Z.div2_spec. rewrite Z.log2_shiftr by lia.
    assert (1 ≤ Z.log2 l); [|lia]. apply Z.log2_le_pow2; [lia|].
    pose proof (Z.div_mod l 2). pose proof (Z.mod_pos_bound l 2). lia. }
  lia.
Qed.

Lemma combine_body_ok R st :
  combine_inv R st → 0 < cb_len st →
  succeeds (combine_body W st) (λ st',
    combine_inv R st' ∧ (len_bits (cb_len st') < len_bits (cb_len st))%nat).
Proof.
  intros (Hl & Hc & He & p & Hm & HR) Hpos. unfold combine_body.
  eapply succeeds_bind; [by eapply combine_half_ok|]. intros [[crc len2] even] (-> & Hc' & He' & HR').
  cbn beta iota zeta. cbn [cb_len cb_crc cb_even cb_odd].
  pose proof (Z.div_pos (cb_len st) 2 ltac:(lia) ltac:(lia)).
  pose proof (len_bits_half (cb_len st) Hpos) as Hlt.
  destruct (Z.eqb_spec (cb_len st / 2) 0) as [E|E]; simpl.
  - split; [|done]. unfold combine_inv. simpl. split_and!; [lia|done|apply He'|].
    exists p. split; [done|]. rewrite E in *. cbn in *. rewrite !Nat.mul_0_r in *. done.
  - set (st1 := CombineState _ _ _ _).
    eapply succeeds_bind.
    { apply (combine_half_ok st1 (cb_odd st) even (2 * p) R); [done..|apply Hm|done|done]. }
    intros [[crc2 len3] odd] (-> & Hc2 & Ho & HR2). simpl.
    pose proof (len_bits_half (cb_len st / 2) ltac:(lia)).
    pose proof (Z.div_pos (cb_len st / 2) 2 ltac:(lia) ltac:(lia)).
    split; [|simpl in *; lia]. unfold combine_inv. simpl.
    split_and!; [done|done|apply He'|]. exists (2 * (2 * p))%nat. done.
Qed.

Lemma crc32_combine_zeros even odd crc1 crc2 len2 :
  length even = 32%nat → length odd = 32%nat → in_width 32 crc1 → 0 < len2 < 2 ^ 63 →
  crc32_combine_ W even odd crc1 crc2 len2
  = Some (Z.lxor (zeros (8 * Z.to_nat len2) crc1) crc2).
Proof.
  intros Hle Hlo Hc Hlen. apply succeeds_eq. unfold crc32_combine_.
  destruct (Z.leb_spec len2 0); [lia|].
  eapply succeeds_bind; [by apply init_odd_ok|]. intros odd1 H1. cbn beta.
  eapply succeeds_bind; [apply (gf2_matrix_square_ok _ _ 1); [done|exact H1]|]. intros even1 H2. cbn beta.
  eapply succeeds_bind; [apply (gf2_matrix_square_ok _ _ 2); [apply H1|exact H2]|]. intros odd2 H4. cbn beta.
  set (R := zeros (8 * Z.to_nat len2) crc1).
  eapply succeeds_bind.
  { apply (combine_body_ok R); [|simpl; lia]. unfold combine_inv. simpl.
    split_and!; [lia|done|apply H2|]. exists 4%nat. split; [done|]. unfold R. f_equal. }
  intros st [Hst Hlt]. cbn beta. cbn [cb_len] in Hlt.
  eapply succeeds_bind.
  { apply (while_total (combine_inv R) (λ st, len_bits (cb_len st))).
    - intros st' Hst' Hb%negb_true_iff%Z.eqb_neq. apply combine_body_ok; [done|].
      destruct Hst'. lia.
    - done.
    - unfold len_bits in Hlt at 2. destruct (decide (len2 = 0)); [lia|].
      assert (Z.log2 len2 < 63) by (apply Z.log2_lt_pow2; lia). lia. }
  intros st' [(_ & _ & _ & p & _ & HR) Hz%negb_false_iff%Z.eqb_eq]. simpl. f_equal.
  rewrite Hz in HR. cbn in HR. rewrite Nat.mul_0_r in HR. done.
Qed.

End combine.

Lemma zeros_8 n c : zeros (8 * n) c = Nat.iter n crc8 c.
Proof.
  induction n as [|n IH]; [done|]. replace (8 * S n)%nat with (8 + 8 * n)%nat by lia.
  rewrite zeros_add, IH. done.
Qed.

(** ** The table generator *)

Definition shape (t : list (list Z)) : Prop :=
  length t = 8%nat ∧ Forall (λ row, length row = 256%nat) t.

Lemma tables_get_in t k n :
  shape t → 0 ≤ k < 8 → 0 ≤ n < 256 → ∃ v, tables_get t k n = Some v.
Proof.
  intros [Hl Hr] Hk Hn. unfold tables_get.
  destruct (aget_in t k) as [row Hrow]; [lia|]. rewrite Hrow. simpl.
  apply aget_some in Hrow as [_ Hrow]. apply aget_in.
  rewrite (Forall_lookup_1 _ _ _ _ Hr Hrow). lia.
Qed.

Lemma tables_set_in t k n v :
  shape t → 0 ≤ k < 8 → 0 ≤ n < 256 →
  succeeds (tables_set t k n v) (λ t', shape t' ∧
    ∀ k' n', tables_get t' k' n'
             = if decide (k' = k ∧ n' = n) then Some v else tables_get t k' n').
Proof.
  intros [Hl Hr] Hk Hn. unfold tables_set.
  destruct (aget_in t k) as [row Hrow]; [lia|]. rewrite Hrow. simpl_bind.
  apply aget_some in Hrow as Hrow'. destruct Hrow' as [_ Hrow'].
  pose proof (Forall_lookup_1 _ _ _ _ Hr Hrow') as Hlen. cbn beta in Hlen.
  rewrite aset_in by lia. simpl_bind. rewrite aset_in by lia. simpl. split.
  - split; [by rewrite length_insert|]. apply Forall_insert; [done|]. by rewrite length_insert.
  - intros k' n'. unfold tables_get. rewrite aget_insert by lia.
    destruct (decide (k = k')) as [<-|Hne].
    + simpl. rewrite aget_insert, Hrow by lia. simpl.
      repeat case_decide; (done || lia).
    + rewrite decide_False by lia. done.
Qed.

Lemma crc_bits_ok c : crc_bits POLY c = Some (crc8 c).
Proof.
  assert (∀ c, (if Z.land c 1 =? 0 then Z.shiftr c 1 else Z.lxor POLY (Z.shiftr c 1)) = crc_bit c)
    as Hb.
  { intros x. unfold crc_bit. rewrite (Z.land_ones x 1 ltac:(lia) : Z.land x 1 = _).
    change (2 ^ 1) with 2. rewrite Zmod_odd. by destruct (Z.odd x). }
  unfold crc_bits. cbn [for_up mbind option_bind]. rewrite !Hb. done.
Qed.

Lemma make_table0_ok mem :
  shape mem →
  succeeds (make_table0 POLY mem) (λ t, shape t ∧
    ∀ n, 0 ≤ n < 256 → tables_get t 0 n = Some (crc8 n)).
Proof.
  intros Hm. unfold make_table0.
  set (I := λ j t, shape t ∧ ∀ n, 0 ≤ n < j → tables_get t 0 n = Some (crc8 n)).
  apply (for_up_total I).
  - intros j t Hj [Hs Hi]. rewrite crc_bits_ok. simpl_bind.
    eapply succeeds_mono; [apply tables_set_in; [done|lia|lia]|]. intros t' [Hs' Ht'].
    split; [done|]. intros n Hn. rewrite Ht'. case_decide as E; [by destruct E as [_ ->]|].
    apply Hi. lia.
  - split; [done|lia].
Qed.

(** One row entry of the second loop. *)
Lemma byfour_entry_ok t n :
  shape t → 0 ≤ n < 256 → (∀ i, 0 ≤ i < 256 → tables_get t 0 i = Some (crc8 i)) →
  succeeds
    (for_up 3 1
       (λ k '(c, t),
          x ← tables_get t 0 (Z.land c 255);
          let c := Z.lxor x (Z.shiftr c 8) in
          t ← tables_set t k n c;
          t ← tables_set t (k + 4) n (u32 (ZSWAP32 c));
          Some (c, t)) (crc8 n, t))
    (λ '(_, t'), shape t' ∧
       (∀ k' n', n' ≠ n ∨ k' = 0 ∨ k' = 4 → tables_get t' k' n' = tables_get t k' n') ∧
       ∀ k', 1 ≤ k' < 4 → tables_get t' k' n = Some (Nat.iter (S (Z.to_nat k')) crc8 n) ∧
         tables_get t' (k' + 4) n = Some (ZSWAP32 (Nat.iter (S (Z.to_nat k')) crc8 n))).
Proof.
  intros Hs Hn H0.
  set (I := λ j '(c, t'), shape t' ∧ c = Nat.iter (Z.to_nat j) crc8 n ∧
    (∀ k' n', n' ≠ n ∨ k' = 0 ∨ k' = 4 → tables_get t' k' n' = tables_get t k' n') ∧
    ∀ k', 1 ≤ k' < j → tables_get t' k' n = Some (Nat.iter (S (Z.to_nat k')) crc8 n) ∧
      tables_get t' (k' + 4) n = Some (ZSWAP32 (Nat.iter (S (Z.to_nat k')) crc8 n))).
  eapply succeeds_mono; [apply (for_up_total I)|].
  - intros j [c t'] Hj (Hs' & Hc & Hsame & Hnew). change (Z.of_nat 3) with 3 in Hj.
    rewrite Hsame, H0 by (try tauto; rewrite land_byte; apply (wrap_range 8); lia).
    simpl_bind. cbv zeta. rewrite <-crc8_split.
    eapply succeeds_bind; [apply tables_set_in; [done|lia|lia]|]. intros t1 [Hs1 Ht1]. cbn beta.
    eapply succeeds_bind; [apply tables_set_in; [done|lia|lia]|]. intros t2 [Hs2 Ht2]. cbn [succeeds]. unfold I.
    assert (crc8 c = Nat.iter (S (Z.to_nat j)) crc8 n) as E by (rewrite Hc; done).
    rewrite wrap_small in Ht2 by apply ZSWAP32_width.
    split_and!; [done|rewrite E; f_equal; lia| |].
    + intros k' n' Hkn. rewrite Ht2, Ht1, !decide_False by lia. by apply Hsame.
    + intros k' Hk'. rewrite !Ht2, !Ht1. destruct (decide (k' = j)) as [->|].
      * rewrite decide_False, !decide_True by lia. rewrite E. done.
      * rewrite !decide_False by lia. apply Hnew. lia.
  - split_and!; [done|done|done|lia].
  - intros [c t'] (? & _ & ? & ?). split_and!; done.
Qed.

Lemma make_tables_byfour_ok t :
  shape t → (∀ n, 0 ≤ n < 256 → tables_get t 0 n = Some (crc8 n)) →
  succeeds (make_tables_byfour t) (λ t', shape t' ∧
    ∀ k n, 0 ≤ k < 8 → 0 ≤ n < 256 → tables_get t' k n = Some (table_spec (Z.to_nat k) n)).
Proof.
  intros Hs H0. unfold make_tables_byfour.
  set (I := λ j t', shape t' ∧ (∀ n, 0 ≤ n < 256 → tables_get t' 0 n = Some (crc8 n)) ∧
    ∀ k n, 0 ≤ k < 4 → 0 ≤ n < j →
      tables_get t' k n = Some (Nat.iter (S (Z.to_nat k)) crc8 n) ∧
      tables_get t' (k + 4) n = Some (ZSWAP32 (Nat.iter (S (Z.to_nat k)) crc8 n))).
  eapply succeeds_mono; [apply (for_up_total I)|].
  - intros j t1 Hj (Hs1 & H1 & Hi). rewrite H1 by lia. simpl_bind.
    eapply succeeds_bind; [apply tables_set_in; [done|lia|lia]|]. intros t2 [Hs2 Ht2]. cbn beta.
    rewrite wrap_small in Ht2 by apply ZSWAP32_width.
    assert (∀ i, 0 ≤ i < 256 → tables_get t2 0 i = Some (crc8 i)) as H2.
    { intros i Hi'. rewrite Ht2, decide_False by lia. auto. }
    eapply succeeds_bind; [apply (byfour_entry_ok t2 j); [done|lia|done]|].
    intros [c t3] (Hs3 & Hsame & Hnew). cbn [succeeds]. unfold I. split_and!; [done| |].
    + intros n Hn. rewrite Hsame by tauto. auto.
    + intros k n Hk Hn. destruct (decide (n = j)) as [->|].
      * destruct (decide (k = 0)) as [->|]; [|apply Hnew; lia].
        rewrite !Hsame, H2, Ht2, decide_True by lia. done.
      * rewrite !Hsame, !Ht2, !decide_False by lia. apply Hi; lia.
  - split_and!; [done|done|lia].
  - intros t' (? & _ & Hi). split; [done|]. intros k n Hk Hn. unfold table_spec.
    destruct (Nat.ltb_spec (Z.to_nat k) 4).
    + by apply Hi; lia.
    + destruct (Hi (k - 4) n) as [_ E]; [lia..|].
      replace (k - 4 + 4) with k in E by lia. rewrite E. do 3 f_equal. lia.
Qed.

Lemma shape_ext t t' :
  shape t → shape t' →
  (∀ k n, 0 ≤ k < 8 → 0 ≤ n < 256 → tables_get t k n = tables_get t' k n) → t = t'.
Proof.
  intros [Hl Hr] [Hl' Hr'] Hext. apply list_eq_same_length with 8%nat; [done..|].
  intros i x y Hi Hx Hy.
  pose proof (Forall_lookup_1 _ _ _ _ Hr Hx) as Hlx.
  pose proof (Forall_lookup_1 _ _ _ _ Hr' Hy) as Hly. simpl in *.
  apply list_eq_same_length with 256%nat; [done..|]. intros j a b Hj Ha Hb.
  specialize (Hext (Z.of_nat i) (Z.of_nat j) ltac:(lia) ltac:(lia)).
  unfold tables_get in Hext. rewrite !aget_lookup, Hx, Hy in Hext. simpl in Hext.
  rewrite !aget_lookup, Ha, Hb in Hext. congruence.
Qed.

(** ** The properties *)

(** C22. On every machine (byte at a time, little-endian words, big-endian
    words), at every alignment of the buffer, [crc32_z] stays inside the
    buffer and the tables and returns the CRC that the one-bit-at-a-time shift
    register gives for the [len] bytes. *)
Theorem crc32_z_correct (m : machine) (crc addr len : Z) (buf : list Z) :
  bytes buf → in_width 32 crc → 0 ≤ len ≤ Z.of_nat (length buf) →
  crc32_z m crc addr (Some buf) len = Some (crc32_ref crc (take (Z.to_nat len) buf)).
Proof. apply crc32_z_ref. Qed.

(** The check value of CRC-32: the nine digits, on a big-endian machine at an
    odd address. *)
Lemma crc32_z_correct_witness :
  crc32_z BigEndian 0 3 (Some [49;50;51;52;53;54;55;56;57]) 9 = Some 3421780262.
Proof.
  rewrite (crc32_z_correct BigEndian 0 3 9).
  - vm_compute. reflexivity.
  - repeat constructor; unfold in_width; lia.
  - unfold in_width; lia.
  - simpl; lia.
Defined.

(** Combining the CRC of a first piece of data with the CRC of a second
    piece (computed from the initial value 0) and the second piece's length
    gives the CRC of the concatenation, for every length up to the largest
    file offset and whatever the uninitialised matrices hold. *)
Theorem crc32_combine_concat
    (W addr crc c1 c2 : Z) (m : machine) (even odd d1 d2 : list Z) :
  32 ≤ W → bytes d1 → bytes d2 → in_width 32 crc →
  length even = 32%nat → length odd = 32%nat → Z.of_nat (length d2) < 2 ^ 63 →
  crc32 m crc addr (Some d1) (Z.of_nat (length d1)) = Some c1 →
  crc32 m 0 addr (Some d2) (Z.of_nat (length d2)) = Some c2 →
  ∃ c, crc32 m crc addr (Some (d1 ++ d2)) (Z.of_nat (length (d1 ++ d2))) = Some c ∧
       crc32_combine W even odd c1 c2 (Z.of_nat (length d2)) = Some c.
Proof.
  intros HW H1 H2 Hc He Ho Hlen E1 E2. unfold crc32, crc32_combine in *.
  assert (bytes (d1 ++ d2)) by by apply Forall_app.
  rewrite crc32_z_ref in E1, E2 |- * by (done || unfold in_width; lia).
  rewrite Nat2Z.id, firstn_all in E1, E2 |- *. simplify_eq.
  eexists. split; [done|]. rewrite crc32_ref_app by done.
  assert (in_width 32 (crc32_ref crc d1)) as Hw by by apply crc32_ref_width.
  destruct (decide (length d2 = 0%nat)) as [E|E].
  - apply nil_length_inv in E as ->. unfold crc32_combine_. simpl.
    change (crc32_ref 0 []) with 0. rewrite Z.lxor_0_r. done.
  - rewrite crc32_combine_zeros, Nat2Z.id, zeros_8 by (done || lia). done.
Qed.

Lemma crc32_combine_concat_witness :
  ∃ c, crc32 LittleEndian 0 1 (Some ([49;50;51] ++ [52;53;54;55;56;57])) 9 = Some c ∧
       crc32_combine 32 (replicate 32 0) (replicate 32 0) 2286445522 4212568949 6 = Some c.
Proof.
  apply (crc32_combine_concat 32 1 0 2286445522 4212568949 LittleEndian
           (replicate 32 0) (replicate 32 0) [49;50;51] [52;53;54;55;56;57]).
  - lia.
  - repeat constructor; unfold in_width; lia.
  - repeat constructor; unfold in_width; lia.
  - unfold in_width; lia.
  - done.
  - done.
  - simpl; lia.
  - vm_compute. reflexivity.
  - vm_compute. reflexivity.
Defined.

(** [make_crc_table], run on any array of eight rows of 256 words, builds
    exactly the tables of the generated header [crc32.h]. *)
Theorem make_crc_table_is_header (mem : list (list Z)) :
  length mem = 8%nat → Forall (λ row, length row = 256%nat) mem →
  make_crc_table mem = Some crc_table.
Proof.
  intros Hl Hr. unfold make_crc_table. change make_poly with (Some POLY). simpl_bind.
  apply succeeds_eq. eapply succeeds_bind; [by apply make_table0_ok|]. intros t [Hs Ht]. cbn beta.
  eapply succeeds_mono; [by apply make_tables_byfour_ok|]. intros t' [Hs' Ht'].
  apply shape_ext; [done|by split; repeat constructor|]. intros k n Hk Hn.
  rewrite <-(Z2Nat.id k), crc_table_spec, <-Ht' by (done || lia). f_equal. lia.
Qed.

Lemma make_crc_table_is_header_witness :
  make_crc_table (replicate 8 (replicate 256 0)) = Some crc_table.
Proof.
  apply make_crc_table_is_header; [done|]. repeat constructor.
Defined.
