(* ===== verification/Deflate.v ===== *)
(** The deflate format.  First canonical Huffman codes, as RFC 1951 defines
    them from the list of code lengths: the specification that the decoders'
    tables and the encoder's codes are compared with.  Nothing here depends on
    the C code. *)

From Stdlib Require Import ZArith Lia.
From stdpp Require Import base option numbers list.
From S2P Require Import Prelude.

Open Scope Z_scope.

(** How many symbols have length [l]. *)
Definition cnt (lens : list Z) (l : Z) : Z := Z.of_nat (length (filter (λ x, x = l) lens)).

(** The number of codes of length [l]; there is no code of length zero. *)
Definition ncodes (lens : list Z) (l : nat) : Z :=
  match l with O => 0 | _ => cnt lens (Z.of_nat l) end.

(** The first code of length [l], and the number of codes shorter than [l]. *)
Fixpoint first_code (lens : list Z) (l : nat) : Z :=
  match l with O => 0 | S l' => 2 * (first_code lens l' + ncodes lens l') end.

Fixpoint index_base (lens : list Z) (l : nat) : Z :=
  match l with O => 0 | S l' => index_base lens l' + ncodes lens l' end.

(** The number of codes of length [l] that the shorter codes leave free. *)
Fixpoint left_codes (lens : list Z) (l : nat) : Z :=
  match l with O => 1 | S l' => 2 * left_codes lens l' - ncodes lens l end.

(** The position of symbol [i] among the symbols of its length. *)
Definition rank (lens : list Z) (i : nat) (l : Z) : Z := cnt (take i lens) l.

Definition code_of (lens : list Z) (i l : nat) : Z := first_code lens l + rank lens i (Z.of_nat l).

(** The [n] low bits of [c], most significant first: the order in which a
    code's bits are sent. *)
Definition msb_bits (n : nat) (c : Z) : list bool := reverse (bits_of n c).

(** Not over-subscribed: no length uses more codes than are left. *)
Definition not_over (lens : list Z) : Prop := ∀ l, (l ≤ 15)%nat → 0 ≤ left_codes lens l.

Definition lengths_ok (lens : list Z) : Prop := Forall (λ x, 0 ≤ x ≤ 15) lens.

(** ** Counting *)

Lemma cnt_nonneg lens l : 0 ≤ cnt lens l.
Proof. unfold cnt. lia. Qed.

Lemma cnt_app a b l : cnt (a ++ b) l = cnt a l + cnt b l.
Proof. unfold cnt. rewrite filter_app, length_app. lia. Qed.

Lemma cnt_cons x b l : cnt (x :: b) l = (if decide (x = l) then 1 else 0) + cnt b l.
Proof. unfold cnt. rewrite filter_cons. case_decide; cbn [length]; lia. Qed.

Lemma cnt_nil l : cnt [] l = 0.
Proof. done. Qed.

Lemma cnt_le_length lens l : cnt lens l ≤ Z.of_nat (length lens).
Proof. unfold cnt. pose proof (length_filter (λ x, x = l) lens). lia. Qed.

Lemma ncodes_nonneg lens l : 0 ≤ ncodes lens l.
Proof. destruct l; simpl; [lia|apply cnt_nonneg]. Qed.

Lemma cnt_take_S lens i x l :
  lens !! i = Some x → cnt (take (S i) lens) l = cnt (take i lens) l + if decide (x = l) then 1 else 0.
Proof. intros H. rewrite (take_S_r _ _ _ H), cnt_app, cnt_cons, cnt_nil. lia. Qed.

Lemma cnt_take_mono lens i j l : (i ≤ j)%nat → cnt (take i lens) l ≤ cnt (take j lens) l.
Proof.
  intros H. replace (take i lens) with (take i (take j lens)).
  - rewrite <-(take_drop i (take j lens)) at 2. rewrite cnt_app.
    pose proof (cnt_nonneg (drop i (take j lens)) l). lia.
  - rewrite take_take. f_equal. lia.
Qed.

Lemma cnt_take_le lens i l : cnt (take i lens) l ≤ cnt lens l.
Proof.
  rewrite <-(take_drop i lens) at 2. rewrite cnt_app. pose proof (cnt_nonneg (drop i lens) l). lia.
Qed.

Lemma rank_lt lens i l : lens !! i = Some l → rank lens i l < cnt lens l.
Proof.
  intros H. unfold rank. pose proof (cnt_take_le lens (S i) l) as Hle.
  rewrite (cnt_take_S _ _ _ _ H), decide_True in Hle by done. lia.
Qed.

Lemma rank_inj lens i j l :
  lens !! i = Some l → lens !! j = Some l → rank lens i l = rank lens j l → i = j.
Proof.
  unfold rank. intros Hi Hj E.
  destruct (decide (i < j)%nat).
  { pose proof (cnt_take_mono lens (S i) j l ltac:(lia)) as Hm.
    rewrite (cnt_take_S _ _ _ _ Hi), decide_True in Hm by done. lia. }
  destruct (decide (j < i)%nat); [|lia].
  pose proof (cnt_take_mono lens (S j) i l ltac:(lia)) as Hm.
  rewrite (cnt_take_S _ _ _ _ Hj), decide_True in Hm by done. lia.
Qed.

(** Distinct lengths are counted separately. *)
Lemma cnt_sum_le lens k l : k ≠ l → cnt lens k + cnt lens l ≤ Z.of_nat (length lens).
Proof.
  intros Hne. induction lens as [|x lens IH]; [done|].
  rewrite !cnt_cons. cbn [length]. repeat case_decide; lia.
Qed.

Lemma cnt_rest_zero lens k l :
  k ≠ l → cnt lens k = Z.of_nat (length lens) → cnt lens l = 0.
Proof. intros Hne E. pose proof (cnt_sum_le lens k l Hne). pose proof (cnt_nonneg lens l). lia. Qed.

(** ** The code values *)

Lemma kraft lens l : first_code lens l + ncodes lens l + left_codes lens l = 2 ^ Z.of_nat l.
Proof.
  induction l as [|l IH]; [done|]. cbn [first_code left_codes].
  rewrite Nat2Z.inj_succ, Z.pow_succ_r by lia. lia.
Qed.

Lemma not_over_empty lens : (∀ l, ncodes lens l = 0) → not_over lens.
Proof.
  intros Hz l _. induction l as [|l IH]; cbn [left_codes]; [lia|]. rewrite Hz. lia.
Qed.

Lemma first_code_nonneg lens l : 0 ≤ first_code lens l.
Proof. induction l; cbn [first_code]; [lia|]. pose proof (ncodes_nonneg lens l). lia. Qed.

Lemma first_code_ge lens k l :
  (k < l)%nat → 2 ^ Z.of_nat (l - k) * (first_code lens k + ncodes lens k) ≤ first_code lens l.
Proof.
  induction l as [|l IH]; [lia|]. intros Hk. cbn [first_code].
  replace (S l - k)%nat with (S (l - k)) by lia. rewrite Nat2Z.inj_succ, Z.pow_succ_r by lia.
  destruct (decide (k = l)) as [->|]; [rewrite Nat.sub_diag; simpl; lia|].
  specialize (IH ltac:(lia)). pose proof (ncodes_nonneg lens l). lia.
Qed.

Lemma code_of_range lens i l :
  lens !! i = Some (Z.of_nat l) → (1 ≤ l ≤ 15)%nat → not_over lens →
  first_code lens l ≤ code_of lens i l < first_code lens l + ncodes lens l ∧
  in_width (Z.of_nat l) (code_of lens i l).
Proof.
  intros Hi Hl Hno. unfold code_of. pose proof (rank_lt _ _ _ Hi).
  pose proof (cnt_nonneg (take i lens) (Z.of_nat l)). unfold rank in *.
  pose proof (first_code_nonneg lens l). pose proof (kraft lens l). specialize (Hno l ltac:(lia)).
  assert (ncodes lens l = cnt lens (Z.of_nat l)) as E by (destruct l; [lia|done]).
  unfold in_width. lia.
Qed.

(** Different symbols of a code that is not over-subscribed have different
    codes, neither a prefix of the other. *)
Lemma codes_differ lens i j l m :
  lens !! i = Some (Z.of_nat l) → lens !! j = Some (Z.of_nat m) →
  (1 ≤ l)%nat → (l ≤ m ≤ 15)%nat → not_over lens → i ≠ j →
  Z.shiftr (code_of lens j m) (Z.of_nat (m - l)) ≠ code_of lens i l.
Proof.
  intros Hi Hj Hl Hm Hno Hne E.
  destruct (code_of_range lens i l Hi ltac:(lia) Hno) as [Ri _].
  destruct (code_of_range lens j m Hj ltac:(lia) Hno) as [Rj _].
  destruct (decide (l = m)) as [->|].
  - rewrite Nat.sub_diag in E. simpl in E. rewrite Z.shiftr_0_r in E. unfold code_of in E.
    apply Hne. apply (rank_inj lens i j (Z.of_nat m)); [done..|lia].
  - pose proof (first_code_ge lens l m ltac:(lia)) as Hge.
    rewrite Z.shiftr_div_pow2 in E by lia.
    pose proof (pow2_pos (Z.of_nat (m - l)) ltac:(lia)).
    assert (first_code lens l + ncodes lens l ≤ code_of lens j m / 2 ^ Z.of_nat (m - l)); [|lia].
    apply Z.div_le_lower_bound; lia.
Qed.

(** A bit string past the last code of length [l] shows that the code is not
    complete. *)
Lemma left_codes_pos lens l c :
  in_width (Z.of_nat l) c → first_code lens (S l) ≤ 2 * c → 0 < left_codes lens l.
Proof.
  intros [_ Hc] Hf. cbn [first_code] in Hf. pose proof (kraft lens l). lia.
Qed.

(** ** Positions in the symbol table *)

Lemma index_base_mono lens k l : (k ≤ l)%nat → index_base lens k ≤ index_base lens l.
Proof.
  induction 1 as [|l Hl IH]; [lia|]. cbn [index_base]. pose proof (ncodes_nonneg lens l). lia.
Qed.

Lemma index_base_nonneg lens l : 0 ≤ index_base lens l.
Proof. apply (index_base_mono lens 0). lia. Qed.

Lemma position_inj lens k l r q :
  0 ≤ r < ncodes lens k → 0 ≤ q < ncodes lens l →
  index_base lens k + r = index_base lens l + q → k = l ∧ r = q.
Proof.
  intros Hr Hq E. destruct (decide (k = l)) as [->|Hne]; [lia|exfalso].
  destruct (decide (k < l)%nat).
  - pose proof (index_base_mono lens (S k) l ltac:(lia)). cbn [index_base] in *. lia.
  - pose proof (index_base_mono lens (S l) k ltac:(lia)). cbn [index_base] in *. lia.
Qed.

Lemma position_bound lens k l r :
  (k < l)%nat → 0 ≤ r < ncodes lens k → 0 ≤ index_base lens k + r < index_base lens l.
Proof.
  intros Hk Hr. pose proof (index_base_mono lens (S k) l ltac:(lia)).
  pose proof (index_base_nonneg lens k). cbn [index_base] in *. lia.
Qed.

Lemma index_base_cons x lens l :
  index_base (x :: lens) l =
  index_base lens l + if decide (1 ≤ x < Z.of_nat l) then 1 else 0.
Proof.
  induction l as [|l IH]; cbn [index_base].
  { rewrite decide_False by lia. done. }
  rewrite IH. destruct l as [|l]; cbn [ncodes].
  { rewrite !decide_False by lia. lia. }
  rewrite cnt_cons. repeat case_decide; lia.
Qed.

Lemma index_base_le_length lens l : index_base lens l ≤ Z.of_nat (length lens).
Proof.
  induction lens as [|x lens IH].
  - assert (index_base [] l = 0) as ->; [|done].
    induction l as [|l IHl]; [done|]. cbn [index_base]. rewrite IHl. by destruct l.
  - rewrite index_base_cons. cbn [length]. case_decide; lia.
Qed.

(** ** Bits in sending order *)

Lemma msb_bits_S n c : msb_bits (S n) c = Z.testbit c (Z.of_nat n) :: msb_bits n c.
Proof.
  unfold msb_bits. replace (S n) with (n + 1)%nat by lia. rewrite bits_of_add, reverse_app.
  cbn [bits_of]. rewrite reverse_singleton. cbn [app]. f_equal.
  rewrite <-Z.bit0_odd, Z.shiftr_spec by lia. f_equal.
Qed.

Lemma length_msb_bits n c : length (msb_bits n c) = n.
Proof. unfold msb_bits. rewrite length_reverse. apply length_bits_of. Qed.

(** The deflate format of RFC 1951 as a grammar on bits.  [deflate bs rest out
    out'] holds when [bs] starts with a series of blocks, the last one marked
    as such, that is followed by [rest] and turns the output [out] into
    [out'].  Decoders are proved sound and complete for it, encoders to
    produce it.  Nothing here depends on the C code. *)

(** ** Symbols *)

(** [bs] is the code of symbol [i] in the canonical code with lengths [lens]. *)
Definition code_bits (lens : list Z) (i : nat) (bs : list bool) : Prop :=
  ∃ l : nat, lens !! i = Some (Z.of_nat l) ∧ (1 ≤ l ≤ 15)%nat ∧
             bs = msb_bits l (code_of lens i l).

(** Base value and number of extra bits of the length symbols 257..285 and of
    the distance symbols 0..29. *)
Definition len_base : list Z :=
  [3; 4; 5; 6; 7; 8; 9; 10; 11; 13; 15; 17; 19; 23; 27; 31;
   35; 43; 51; 59; 67; 83; 99; 115; 131; 163; 195; 227; 258].
Definition len_extra : list Z :=
  [0; 0; 0; 0; 0; 0; 0; 0; 1; 1; 1; 1; 2; 2; 2; 2;
   3; 3; 3; 3; 4; 4; 4; 4; 5; 5; 5; 5; 0].
Definition dist_base : list Z :=
  [1; 2; 3; 4; 5; 7; 9; 13; 17; 25; 33; 49; 65; 97; 129; 193;
   257; 385; 513; 769; 1025; 1537; 2049; 3073; 4097; 6145;
   8193; 12289; 16385; 24577].
Definition dist_extra : list Z :=
  [0; 0; 0; 0; 1; 1; 2; 2; 3; 3; 4; 4; 5; 5; 6; 6;
   7; 7; 8; 8; 9; 9; 10; 10; 11; 11; 12; 12; 13; 13].

(** [v] is the [i]-th base value plus [e], [e] having the [x] extra bits of
    that entry. *)
Definition extra_of (base extra : list Z) (i : nat) (v x e : Z) : Prop :=
  ∃ b, base !! i = Some b ∧ extra !! i = Some x ∧ in_width x e ∧ v = b + e.

Inductive item :=
  | Lit (b : Z)
  | Copy (len dist : Z).

Inductive enc_item (L D : list Z) : item → list bool → Prop :=
  | enc_lit (b : nat) bs :
      (b < 256)%nat → code_bits L b bs → enc_item L D (Lit (Z.of_nat b)) bs
  | enc_copy (i j : nat) len dist lx le dx de bl bd :
      code_bits L (257 + i) bl → extra_of len_base len_extra i len lx le →
      code_bits D j bd → extra_of dist_base dist_extra j dist dx de →
      enc_item L D (Copy len dist)
        (bl ++ bits_of (Z.to_nat lx) le ++ bd ++ bits_of (Z.to_nat dx) de).

(** A run of items and the end-of-block code. *)
Inductive enc_items (L D : list Z) : list item → list bool → Prop :=
  | enc_end bs : code_bits L 256 bs → enc_items L D [] bs
  | enc_cons it its bs bs' :
      enc_item L D it bs → enc_items L D its bs' → enc_items L D (it :: its) (bs ++ bs').

(** ** What the items mean *)

(** Copying one byte at a time, so that a match may overlap its own output. *)
Fixpoint copy_run (len dist : nat) (out : list Z) : list Z :=
  match len with
  | O => out
  | S len' => copy_run len' dist (out ++ [nth (length out - dist) out 0])
  end.

Definition apply_item (out : list Z) (it : item) : option (list Z) :=
  match it with
  | Lit b => Some (out ++ [b])
  | Copy len dist =>
      if dist <=? Z.of_nat (length out)
      then Some (copy_run (Z.to_nat len) (Z.to_nat dist) out) else None
  end.

Fixpoint apply_items (out : list Z) (its : list item) : option (list Z) :=
  match its with
  | [] => Some out
  | it :: its' => out' ← apply_item out it; apply_items out' its'
  end.

(** ** Code lengths of a dynamic block *)

Definition length_order : list nat :=
  [16; 17; 18; 0; 8; 7; 9; 6; 10; 5; 11; 4; 12; 3; 13; 2; 14; 1; 15]%nat.

(** The code length code lengths: 19 of them, of which the first [n] in the
    order above are sent in three bits each, the others being zero. *)
Definition enc_code_lengths (C : list Z) (n : nat) : list bool :=
  take n length_order ≫= λ i, bits_of 3 (nth i C 0).

Definition code_lengths_for (C : list Z) (n : nat) : Prop :=
  length C = 19%nat ∧ Forall (in_width 3) C ∧
  ∀ k i, length_order !! k = Some i → (n ≤ k)%nat → nth i C 0 = 0.

(** The three repeat codes: [sym] repeats [v] for [base] plus its [x] extra
    bits, [v] being the previous length for 16. *)
Definition repeat_code (acc : list Z) (sym : nat) (v base x : Z) : Prop :=
  sym = 16%nat ∧ base = 3 ∧ x = 2 ∧ last acc = Some v ∨
  sym = 17%nat ∧ base = 3 ∧ x = 3 ∧ v = 0 ∨
  sym = 18%nat ∧ base = 11 ∧ x = 7 ∧ v = 0.

(** The run-length encoded lengths: [acc] are those already known. *)
Inductive enc_lengths (C : list Z) (total : nat) : list Z → list Z → list bool → Prop :=
  | el_done acc : length acc = total → enc_lengths C total acc acc []
  | el_len acc fin (v : nat) bs bs' :
      (length acc < total)%nat → (v < 16)%nat → code_bits C v bs →
      enc_lengths C total (acc ++ [Z.of_nat v]) fin bs' →
      enc_lengths C total acc fin (bs ++ bs')
  | el_repeat acc fin sym v base x e bs bs' :
      (length acc < total)%nat → repeat_code acc sym v base x → code_bits C sym bs →
      in_width x e → (length acc + Z.to_nat (base + e) ≤ total)%nat →
      enc_lengths C total (acc ++ replicate (Z.to_nat (base + e)) v) fin bs' →
      enc_lengths C total acc fin (bs ++ bits_of (Z.to_nat x) e ++ bs').

(** No code of the longest length is left. *)
Definition complete (lens : list Z) : Prop := ∀ l, l = 15%nat → left_codes lens l = 0.

(** A code that a decoder accepts: complete, or with no code longer than a
    bit ("incomplete codes ok only for a single length 1 code"). *)
Definition usable (lens : list Z) : Prop :=
  not_over lens ∧
  (complete lens ∨ cnt lens 0 + cnt lens 1 = Z.of_nat (length lens)).

Inductive enc_header (L D : list Z) : list bool → Prop :=
  | enc_dyn C (ncode : nat) bs :
      (257 ≤ length L ≤ 286)%nat → (1 ≤ length D ≤ 30)%nat → (4 ≤ ncode ≤ 19)%nat →
      code_lengths_for C ncode → not_over C → complete C →
      enc_lengths C (length L + length D) [] (L ++ D) bs →
      L !! 256%nat ≠ Some 0 → usable L → usable D →
      enc_header L D
        (bits_of 5 (Z.of_nat (length L) - 257) ++ bits_of 5 (Z.of_nat (length D) - 1) ++
         bits_of 4 (Z.of_nat ncode - 4) ++ enc_code_lengths C ncode ++ bs).

(** ** Blocks *)

Definition fixed_L : list Z :=
  replicate 144 8 ++ replicate 112 9 ++ replicate 24 7 ++ replicate 8 8.
Definition fixed_D : list Z := replicate 30 5.

(** A stored block after its padding: LEN, NLEN and the bytes. *)
Definition stored_bits (data : list Z) : list bool :=
  bits_of 16 (Z.of_nat (length data)) ++ bits_of 16 (65535 - Z.of_nat (length data)) ++
  bytes_bits data.

(** [rest] ends on a byte boundary, so the padding of a stored block is what
    makes the remainder a whole number of bytes. *)
Inductive block : Z → list bool → list bool → list Z → list Z → Prop :=
  | block_stored (pad : list bool) (data : list Z) (rest : list bool) (out : list Z) :
      (length pad < 8)%nat → (length rest mod 8 = 0)%nat → bytes data →
      Z.of_nat (length data) ≤ 65535 →
      block 0 (pad ++ stored_bits data ++ rest) rest out (out ++ data)
  | block_fixed its bs rest out out' :
      enc_items fixed_L fixed_D its bs → apply_items out its = Some out' →
      block 1 (bs ++ rest) rest out out'
  | block_dynamic L D its hs bs rest out out' :
      enc_header L D hs → enc_items L D its bs → apply_items out its = Some out' →
      block 2 (hs ++ bs ++ rest) rest out out'.

Inductive deflate : list bool → list bool → list Z → list Z → Prop :=
  | deflate_last type bs rest out out' :
      block type bs rest out out' →
      deflate (true :: bits_of 2 type ++ bs) rest out out'
  | deflate_more type bs mid rest out out' out'' :
      block type bs mid out out' → deflate mid rest out' out'' →
      deflate (false :: bits_of 2 type ++ bs) rest out out''.

(** ** Consequences of the definitions *)

Lemma length_copy_run len dist : ∀ out, length (copy_run len dist out) = (length out + len)%nat.
Proof.
  induction len as [|len IH]; intros out; cbn [copy_run]; [lia|].
  rewrite IH, length_app. simpl. lia.
Qed.

Lemma bytes_snoc out b : bytes out → in_width 8 b → bytes (out ++ [b]).
Proof. intros. apply Forall_app. split; [done|]. by apply Forall_singleton. Qed.

Lemma bytes_nth out k : bytes out → in_width 8 (nth k out 0).
Proof.
  intros H. destruct (nth_in_or_default k out 0) as [Hin| ->]; [|done].
  by eapply Forall_forall in H; [|apply list_elem_of_In].
Qed.

Lemma copy_run_bytes len dist : ∀ out, bytes out → bytes (copy_run len dist out).
Proof.
  induction len as [|len IH]; intros out Ho; cbn [copy_run]; [done|].
  apply IH, bytes_snoc; [done|]. by apply bytes_nth.
Qed.

Lemma extra_of_len i v x e :
  extra_of len_base len_extra i v x e → (i < 29)%nat ∧ 3 ≤ v ≤ 258 ∧ 0 ≤ x ≤ 5.
Proof.
  intros (b & Hb & Hx & He & ->). unfold in_width in He.
  assert (i < 29)%nat as Hi by exact (lookup_lt_Some _ _ _ Hb). split; [done|].
  do 29 (destruct i as [|i]; [simpl in *; simplify_eq; lia|]). lia.
Qed.

Lemma extra_of_dist i v x e :
  extra_of dist_base dist_extra i v x e → (i < 30)%nat ∧ 1 ≤ v ≤ 32768 ∧ 0 ≤ x ≤ 13.
Proof.
  intros (b & Hb & Hx & He & ->). unfold in_width in He.
  assert (i < 30)%nat as Hi by exact (lookup_lt_Some _ _ _ Hb). split; [done|].
  do 30 (destruct i as [|i]; [simpl in *; simplify_eq; lia|]). lia.
Qed.

Lemma apply_item_length out it out' :
  apply_item out it = Some out' → (length out ≤ length out')%nat.
Proof.
  destruct it as [b|len dist]; cbn [apply_item].
  - intros [= <-]. rewrite length_app. lia.
  - destruct (dist <=? _); intros [= <-]. rewrite length_copy_run. lia.
Qed.

Lemma apply_items_length its : ∀ out out',
  apply_items out its = Some out' → (length out ≤ length out')%nat.
Proof.
  induction its as [|it its IH]; intros out out'; cbn [apply_items]; [by intros [= <-]|].
  destruct (apply_item out it) as [out1|] eqn:E; [|done]. intros Ho.
  pose proof (apply_item_length _ _ _ E). specialize (IH _ _ Ho). lia.
Qed.

Lemma apply_items_cons out it its out' :
  apply_items out (it :: its) = Some out' →
  ∃ out1, apply_item out it = Some out1 ∧ apply_items out1 its = Some out'.
Proof. cbn [apply_items]. destruct (apply_item out it); [eauto|done]. Qed.

Lemma block_length type bs rest out out' :
  block type bs rest out out' → (length out ≤ length out')%nat.
Proof.
  intros [pad data rest' o|its b rest' o o' _ Hap|L D its h b rest' o o' _ _ Hap];
    [rewrite length_app; lia|by eapply apply_items_length..].
Qed.

Lemma deflate_length bs rest out out' :
  deflate bs rest out out' → (length out ≤ length out')%nat.
Proof.
  induction 1 as [? ? ? ? ? Hb|? ? ? ? ? ? ? Hb _ IH]; pose proof (block_length _ _ _ _ _ Hb); lia.
Qed.
