(* ===== verification/Puff.v ===== *)
(** [puff] ([src/zlib/contrib/puff/puff.c]): the small inflate that zlib ships
    "to be an unambiguous way to specify the deflate format".

    The [struct state] is a record threaded by a monad whose outcomes are a
    normal return, a [longjmp] (the input ran out inside [bits] or [decode])
    and a fault: an access outside an array, or a loop that used up its
    fuel.  [W] is the width of [unsigned long].  The static tables of [fixed]
    are recomputed at each call instead of being cached behind [virgin]. *)

From Stdlib Require Import ZArith Lia.
From stdpp Require Import base option numbers list.
From S2P Require Import Prelude.

Open Scope Z_scope.

Definition MAXBITS : Z := 15.
Definition MAXLCODES : Z := 286.
Definition MAXDCODES : Z := 30.
Definition MAXCODES : Z := MAXLCODES + MAXDCODES.
Definition FIXLCODES : Z := 288.

(** [s_out] is [None] for [NIL], otherwise the destination memory. *)
Record state := State {
  s_out : option (list Z);
  s_outlen : Z;
  s_outcnt : Z;
  s_in : list Z;
  s_inlen : Z;
  s_incnt : Z;
  s_bitbuf : Z;
  s_bitcnt : Z }.

Record huffman := Huffman { h_count : list Z; h_symbol : list Z }.

(** ** The monad *)

Inductive outcome (A : Type) :=
  | Ret (a : A) (s : state)
  | Jmp (s : state)
  | Fault.
Arguments Ret {A}.
Arguments Jmp {A}.
Arguments Fault {A}.

Definition M (A : Type) : Type := state → outcome A.

#[export] Instance M_ret : MRet M := λ A a s, Ret a s.
#[export] Instance M_bind : MBind M := λ A B f m s,
  match m s with
  | Ret a s' => f a s'
  | Jmp s' => Jmp s'
  | Fault => Fault
  end.

Definition get : M state := λ s, Ret s s.
Definition put (s : state) : M unit := λ _, Ret tt s.
Definition longjmp {A} : M A := λ s, Jmp s.
Definition fault {A} : M A := λ _, Fault.
Definition lift {A} (o : option A) : M A := λ s,
  match o with Some a => Ret a s | None => Fault end.

Definition set_bits (bitbuf bitcnt : Z) (s : state) : state :=
  State (s_out s) (s_outlen s) (s_outcnt s) (s_in s) (s_inlen s) (s_incnt s) bitbuf bitcnt.
Definition set_incnt (incnt : Z) (s : state) : state :=
  State (s_out s) (s_outlen s) (s_outcnt s) (s_in s) (s_inlen s) incnt (s_bitbuf s) (s_bitcnt s).
Definition set_output (out : option (list Z)) (outcnt : Z) (s : state) : state :=
  State out (s_outlen s) outcnt (s_in s) (s_inlen s) (s_incnt s) (s_bitbuf s) (s_bitcnt s).

Section puff.
Context (W : Z).

(** [s->in[s->incnt++]] *)
Definition next_in : M Z :=
  s ← get;
  b ← lift (s_in s).[s_incnt s];
  put (set_incnt (wrap W (s_incnt s + 1)) s);;
  mret b.

(** ** Bits *)

(** The [while (s->bitcnt < need)] loop of [bits]. *)
Fixpoint load_bits (fuel : nat) (need val : Z) : M Z :=
  s ← get;
  if s_bitcnt s <? need then
    match fuel with
    | O => fault
    | S fuel' =>
        if s_incnt s =? s_inlen s then longjmp
        else
          b ← next_in;
          let val := Z.lor val (Z.shiftl b (s_bitcnt s)) in
          s' ← get;
          put (set_bits (s_bitbuf s') (s_bitcnt s' + 8) s');;
          load_bits fuel' need val
    end
  else mret val.

Definition bits (need : Z) : M Z :=
  s ← get;
  val ← load_bits (Z.to_nat need) need (s_bitbuf s);
  s ← get;
  put (set_bits (Z.shiftr val need) (s_bitcnt s - need) s);;
  mret (Z.land val (Z.shiftl 1 need - 1)).

(** ** Stored blocks *)

Definition write_out (b : Z) : M unit :=
  s ← get;
  match s_out s with
  | None => fault
  | Some out =>
      out' ← lift out.[s_outcnt s <- b];
      put (set_output (Some out') (wrap W (s_outcnt s + 1)) s)
  end.

(** [while (len--) s->out[s->outcnt++] = s->in[s->incnt++];] *)
Fixpoint copy_stored (len : nat) : M unit :=
  match len with
  | O => mret tt
  | S len' => b ← next_in; write_out b;; copy_stored len'
  end.

(** The end of [stored], once the length is known. *)
Definition stored_data (len : Z) : M Z :=
  s ← get;
  if s_inlen s <? wrap W (s_incnt s + len) then mret 2
  else
    match s_out s with
    | Some _ =>
        if s_outlen s <? wrap W (s_outcnt s + len) then mret 1
        else copy_stored (Z.to_nat len);; mret 0
    | None =>
        put (set_incnt (wrap W (s_incnt s + len))
               (set_output None (wrap W (s_outcnt s + len)) s));;
        mret 0
    end.

Definition stored : M Z :=
  s ← get;
  put (set_bits 0 0 s);;
  s ← get;
  if s_inlen s <? wrap W (s_incnt s + 4) then mret 2
  else
    b0 ← next_in;
    b1 ← next_in;
    let len := Z.lor b0 (Z.shiftl b1 8) in
    b2 ← next_in;
    if negb (b2 =? Z.land (Z.lnot len) 255) then mret (-2)
    else
      b3 ← next_in;
      if negb (b3 =? Z.land (Z.shiftr (u32 (Z.lnot len)) 8) 255) then mret (-2)
      else
        stored_data len.

(** ** Huffman decoding *)

(** The straightforward version ([#ifdef SLOW]). *)
Fixpoint decode_slow_loop (h : huffman) (n : nat) (len code first index : Z) : M Z :=
  match n with
  | O => mret (-10)
  | S n' =>
      b ← bits 1;
      let code := Z.lor code b in
      count ← lift (h_count h).[len];
      if code - count <? first then lift (h_symbol h).[index + (code - first)]
      else
        decode_slow_loop h n' (len + 1) (Z.shiftl code 1) (Z.shiftl (first + count) 1)
          (index + count)
  end.

Definition decode_slow (h : huffman) : M Z :=
  decode_slow_loop h (Z.to_nat MAXBITS) 1 0 0 0.

(** The faster version: local copies of the bit buffer, whole bytes. *)
Record dec := Dec { d_bitbuf : Z; d_code : Z; d_first : Z; d_index : Z; d_len : Z }.

(** [while (left--) {...}]: a symbol, or the registers after the loop. *)
Fixpoint decode_inner (h : huffman) (left : nat) (d : dec) : M (Z + dec) :=
  match left with
  | O => mret (inr d)
  | S left' =>
      let code := Z.lor (d_code d) (Z.land (d_bitbuf d) 1) in
      let bitbuf := Z.shiftr (d_bitbuf d) 1 in
      count ← lift (h_count h).[d_len d];
      if code - count <? d_first d then
        s ← get;
        put (set_bits bitbuf (Z.land (s_bitcnt s - d_len d) 7) s);;
        sym ← lift (h_symbol h).[d_index d + (code - d_first d)];
        mret (inl sym)
      else
        decode_inner h left'
          (Dec bitbuf (Z.shiftl code 1) (Z.shiftl (d_first d + count) 1) (d_index d + count)
             (d_len d + 1))
  end.

(** [while (1) {...}] *)
Fixpoint decode_outer (h : huffman) (fuel : nat) (left : Z) (d : dec) : M Z :=
  match fuel with
  | O => fault
  | S fuel' =>
      r ← decode_inner h (Z.to_nat left) d;
      match r with
      | inl sym => mret sym
      | inr d =>
          let left := MAXBITS + 1 - d_len d in
          if left =? 0 then mret (-10)
          else
            s ← get;
            if s_incnt s =? s_inlen s then longjmp
            else
              b ← next_in;
              decode_outer h fuel' (if 8 <? left then 8 else left)
                (Dec b (d_code d) (d_first d) (d_index d) (d_len d))
      end
  end.

Definition decode (h : huffman) : M Z :=
  s ← get;
  decode_outer h (Z.to_nat (MAXBITS + 1)) (s_bitcnt s) (Dec (s_bitbuf s) 0 0 0 1).

(** ** Decoding tables *)

Definition count_lengths (count length : list Z) (n : Z) : option (list Z) :=
  count ← for_up (Z.to_nat (MAXBITS + 1)) 0 (λ len count, count.[len <- 0]) count;
  for_up (Z.to_nat n) 0
    (λ symbol count, l ← length.[symbol]; c ← count.[l]; count.[l <- c + 1]) count.

(** The check for an over-subscribed set; [inr] is the [return left] inside
    the loop. *)
Definition check_left (count : list Z) : option (Z + Z) :=
  for_up (Z.to_nat MAXBITS) 1
    (λ len r,
       match r with
       | inr neg => Some (inr neg)
       | inl lft =>
           c ← count.[len];
           let lft := Z.shiftl lft 1 - c in
           Some (if lft <? 0 then inr lft else inl lft)
       end) (inl 1).

(** [offs] is what the local array holds before. *)
Definition make_offs (offs count : list Z) : option (list Z) :=
  offs ← offs.[1 <- 0];
  for_up (Z.to_nat (MAXBITS - 1)) 1
    (λ len offs, o ← offs.[len]; c ← count.[len]; offs.[len + 1 <- o + c]) offs.

Definition put_symbols (offs symbols length : list Z) (n : Z) : option (list Z * list Z) :=
  for_up (Z.to_nat n) 0
    (λ symbol '(offs, symbols),
       l ← length.[symbol];
       if l =? 0 then Some (offs, symbols)
       else
         o ← offs.[l];
         symbols ← symbols.[o <- symbol];
         offs ← offs.[l <- o + 1];
         Some (offs, symbols)) (offs, symbols).

(** The returned pair: the value of [construct] and the table [h]. *)
Definition construct (h : huffman) (length : list Z) (n : Z) : option (Z * huffman) :=
  count ← count_lengths (h_count h) length n;
  c0 ← count.[0];
  if c0 =? n then Some (0, Huffman count (h_symbol h))
  else
    r ← check_left count;
    match r with
    | inr neg => Some (neg, Huffman count (h_symbol h))
    | inl lft =>
        offs ← make_offs (replicate (Z.to_nat (MAXBITS + 1)) 0) count;
        '(_, symbols) ← put_symbols offs (h_symbol h) length n;
        Some (lft, Huffman count symbols)
    end.

(** ** Literals and length/distance pairs *)

Definition lens : list Z :=
  [3; 4; 5; 6; 7; 8; 9; 10; 11; 13; 15; 17; 19; 23; 27; 31;
   35; 43; 51; 59; 67; 83; 99; 115; 131; 163; 195; 227; 258].
Definition lext : list Z :=
  [0; 0; 0; 0; 0; 0; 0; 0; 1; 1; 1; 1; 2; 2; 2; 2;
   3; 3; 3; 3; 4; 4; 4; 4; 5; 5; 5; 5; 0].
Definition dists : list Z :=
  [1; 2; 3; 4; 5; 7; 9; 13; 17; 25; 33; 49; 65; 97; 129; 193;
   257; 385; 513; 769; 1025; 1537; 2049; 3073; 4097; 6145;
   8193; 12289; 16385; 24577].
Definition dext : list Z :=
  [0; 0; 0; 0; 1; 1; 2; 2; 3; 3; 4; 4; 5; 5; 6; 6;
   7; 7; 8; 8; 9; 9; 10; 10; 11; 11; 12; 12; 13; 13].

(** [while (len--) { s->out[s->outcnt] = s->out[s->outcnt - dist]; s->outcnt++; }] *)
Fixpoint copy_match (len : nat) (dist : Z) : M unit :=
  match len with
  | O => mret tt
  | S len' =>
      s ← get;
      match s_out s with
      | None => fault
      | Some out =>
          b ← lift out.[wrap W (s_outcnt s - dist)];
          write_out b;;
          copy_match len' dist
      end
  end.

(** The branch for a literal: [inl err] is a [return err]. *)
Definition put_literal (symbol : Z) : M (option Z) :=
  s ← get;
  match s_out s with
  | Some out =>
      if s_outcnt s =? s_outlen s then mret (Some 1)
      else write_out (u8 symbol);; mret None
  | None => put (set_output None (wrap W (s_outcnt s + 1)) s);; mret None
  end.

(** The end of the branch for a length symbol: the check of the distance and
    the copy. *)
Definition emit_match (len dist : Z) : M (option Z) :=
  s ← get;
  if s_outcnt s <? dist then mret (Some (-11))
  else
    match s_out s with
    | Some _ =>
        if s_outlen s <? wrap W (s_outcnt s + len) then mret (Some 1)
        else copy_match (Z.to_nat len) dist;; mret None
    | None =>
        put (set_output None (wrap W (s_outcnt s + len)) s);; mret None
    end.

(** The branch for a length symbol. *)
Definition put_match (distcode : huffman) (symbol : Z) : M (option Z) :=
  let symbol := symbol - 257 in
  if 29 <=? symbol then mret (Some (-10))
  else
    base ← lift lens.[symbol];
    ext ← lift lext.[symbol];
    extra ← bits ext;
    let len := base + extra in
    symbol ← decode distcode;
    if symbol <? 0 then mret (Some symbol)
    else
      dbase ← lift dists.[symbol];
      dx ← lift dext.[symbol];
      dextra ← bits dx;
      let dist := dbase + dextra in
      emit_match len dist.

Fixpoint codes (fuel : nat) (lencode distcode : huffman) : M Z :=
  match fuel with
  | O => fault
  | S fuel' =>
      symbol ← decode lencode;
      if symbol <? 0 then mret symbol
      else if symbol <? 256 then
        r ← put_literal symbol;
        match r with Some err => mret err | None => codes fuel' lencode distcode end
      else if 256 <? symbol then
        r ← put_match distcode symbol;
        match r with Some err => mret err | None => codes fuel' lencode distcode end
      else mret 0
  end.

(** ** Block types *)

Definition fixed_lengths (lengths : list Z) : option (list Z) :=
  lengths ← for_up 144 0 (λ symbol l, l.[symbol <- 8]) lengths;
  lengths ← for_up 112 144 (λ symbol l, l.[symbol <- 9]) lengths;
  lengths ← for_up 24 256 (λ symbol l, l.[symbol <- 7]) lengths;
  for_up (Z.to_nat FIXLCODES - 280) 280 (λ symbol l, l.[symbol <- 8]) lengths.

Definition fixed_tables : option (huffman * huffman) :=
  let lencnt := replicate (Z.to_nat (MAXBITS + 1)) 0 in
  let lensym := replicate (Z.to_nat FIXLCODES) 0 in
  let distcnt := replicate (Z.to_nat (MAXBITS + 1)) 0 in
  let distsym := replicate (Z.to_nat MAXDCODES) 0 in
  lengths ← fixed_lengths (replicate (Z.to_nat FIXLCODES) 0);
  '(_, lencode) ← construct (Huffman lencnt lensym) lengths FIXLCODES;
  lengths ← for_up (Z.to_nat MAXDCODES) 0 (λ symbol l, l.[symbol <- 5]) lengths;
  '(_, distcode) ← construct (Huffman distcnt distsym) lengths MAXDCODES;
  Some (lencode, distcode).

Definition fixed (fuel : nat) : M Z :=
  '(lencode, distcode) ← lift fixed_tables;
  codes fuel lencode distcode.

Definition order : list Z :=
  [16; 17; 18; 0; 8; 7; 9; 6; 10; 5; 11; 4; 12; 3; 13; 2; 14; 1; 15].

(** The code length code lengths, permuted by [order]; missing ones are zero. *)
Fixpoint read_code_lengths (n : nat) (index ncode : Z) (lengths : list Z) : M (list Z) :=
  match n with
  | O => mret lengths
  | S n' =>
      v ← (if index <? ncode then bits 3 else mret 0);
      o ← lift order.[index];
      lengths ← lift lengths.[o <- v];
      read_code_lengths n' (index + 1) ncode lengths
  end.

(** [while (symbol--) lengths[index++] = len;] *)
Definition repeat_length (lengths : list Z) (index symbol len : Z) : option (list Z) :=
  for_up (Z.to_nat symbol) index (λ i l, l.[i <- len]) lengths.

(** The loop reading the literal/length and distance code lengths: [inl err]
    is a [return err]. *)
Fixpoint read_lengths (fuel : nat) (lencode : huffman) (index total : Z) (lengths : list Z)
  : M (Z + list Z) :=
  if index <? total then
    match fuel with
    | O => fault
    | S fuel' =>
        symbol ← decode lencode;
        if symbol <? 0 then mret (inl symbol)
        else if symbol <? 16 then
          lengths ← lift lengths.[index <- symbol];
          read_lengths fuel' lencode (index + 1) total lengths
        else if (symbol =? 16) && (index =? 0) then mret (inl (-5))
        else
          len ← (if symbol =? 16 then lift lengths.[index - 1] else mret 0);
          symbol ← (if symbol =? 16 then x ← bits 2; mret (3 + x)
                    else if symbol =? 17 then x ← bits 3; mret (3 + x)
                    else x ← bits 7; mret (11 + x));
          if total <? index + symbol then mret (inl (-6))
          else
            lengths ← lift (repeat_length lengths index symbol len);
            read_lengths fuel' lencode (index + symbol) total lengths
    end
  else mret (inr lengths).

(** [err && (err < 0 || n != h.count[0] + h.count[1])] *)
Definition bad_code (err n : Z) (h : huffman) : option bool :=
  c0 ← (h_count h).[0];
  c1 ← (h_count h).[1];
  Some (negb (err =? 0) && ((err <? 0) || negb (n =? c0 + c1))).

(** [mem] is what the uninitialised local arrays hold: [lengths], and the
    counts and symbols of the two codes. *)
Record dynamic_mem := DynamicMem {
  m_lengths : list Z; m_lencode : huffman; m_distcode : huffman }.

(** The end of [dynamic]: the checks, the tables of the two codes, decoding. *)
Definition dynamic_codes (fuel : nat) (lencode distcode : huffman) (lengths : list Z)
    (nlen ndist : Z) : M Z :=
  l256 ← lift lengths.[256];
  if l256 =? 0 then mret (-9)
  else
    '(err, lencode) ← lift (construct lencode lengths nlen);
    bad ← lift (bad_code err nlen lencode);
    if bad : bool then mret (-7)
    else
      '(err, distcode) ← lift (construct distcode (drop (Z.to_nat nlen) lengths) ndist);
      bad ← lift (bad_code err ndist distcode);
      if bad : bool then mret (-8)
      else codes fuel lencode distcode.

Definition dynamic (fuel : nat) (mem : dynamic_mem) : M Z :=
  x ← bits 5; let nlen := x + 257 in
  x ← bits 5; let ndist := x + 1 in
  x ← bits 4; let ncode := x + 4 in
  if (MAXLCODES <? nlen) || (MAXDCODES <? ndist) then mret (-3)
  else
    lengths ← read_code_lengths 19 0 ncode (m_lengths mem);
    '(err, lencode) ← lift (construct (m_lencode mem) lengths 19);
    if negb (err =? 0) then mret (-4)
    else
      r ← read_lengths (Z.to_nat MAXCODES) lencode 0 (nlen + ndist) lengths;
      match r with
      | inl err => mret err
      | inr lengths =>
          dynamic_codes fuel lencode (m_distcode mem) lengths nlen ndist
      end.

(** ** The whole stream *)

(** [do {...} while (!last)] *)
Fixpoint blocks (fuel : nat) (mem : dynamic_mem) : M Z :=
  match fuel with
  | O => fault
  | S fuel' =>
      last ← bits 1;
      type ← bits 2;
      err ← (if type =? 0 then stored
             else if type =? 1 then fixed fuel
             else if type =? 2 then dynamic fuel mem
             else mret (-1));
      if negb (err =? 0) then mret err
      else if last =? 0 then blocks fuel' mem
      else mret 0
  end.

(** What [puff] returns: the error code, the updated [*destlen] and
    [*sourcelen], and the destination memory. *)
Record puff_result := PuffResult {
  r_err : Z; r_destlen : Z; r_sourcelen : Z; r_dest : option (list Z) }.

(** Every iteration of the loops that the input drives consumes a bit, so the
    number of input bits bounds them. *)
Definition puff_fuel (sourcelen : Z) : nat := S (8 * Z.to_nat sourcelen).

Definition puff (mem : dynamic_mem) (dest : option (list Z)) (destlen : Z)
    (source : list Z) (sourcelen : Z) : option puff_result :=
  let s := State dest destlen 0 source sourcelen 0 0 0 in
  let finish err s :=
    Some (if err <=? 0 then PuffResult err (s_outcnt s) (s_incnt s) (s_out s)
          else PuffResult err destlen sourcelen (s_out s)) in
  match blocks (puff_fuel sourcelen) mem s with
  | Ret err s => finish err s
  | Jmp s => finish 2 s
  | Fault => None
  end.

End puff.
