(* ===== verification/PuffBits.v ===== *)
(** The input side of [puff]: the state seen as a sequence of bits, and what
    [bits], [decode] and [decode_slow] do to that sequence. *)

From Stdlib Require Import ZArith Lia.
From stdpp Require Import base option numbers list.
From S2P Require Import Prelude Puff.

Open Scope Z_scope.

(** The bits still to be read: those in the bit buffer, then the bytes not
    yet fetched. *)
Definition stream (s : state) : list bool :=
  bits_of (Z.to_nat (s_bitcnt s)) (s_bitbuf s) ++ bytes_bits (drop (Z.to_nat (s_incnt s)) (s_in s)).

Section input.
Context (W : Z).

(** The input position is well formed: the input is far enough from the end
    of the address space for a stored block's length to be added to it. *)
Record pos_wf (s : state) : Prop := PosWf {
  wf_bytes : bytes (s_in s);
  wf_inlen : s_inlen s = Z.of_nat (length (s_in s));
  wf_room : s_inlen s + 65540 < 2 ^ W;
  wf_incnt : 0 ≤ s_incnt s ≤ s_inlen s }.

(** With the bit buffer: "always leaves less than eight bits in the buffer". *)
Record in_wf (s : state) : Prop := InWf {
  wf_pos : pos_wf s;
  wf_bitcnt : 0 ≤ s_bitcnt s < 8;
  wf_bitbuf : in_width (s_bitcnt s) (s_bitbuf s) }.

(** [s'] is [s] after reading [bs]: only the input position moves. *)
Record reads (s : state) (bs : list bool) (s' : state) : Prop := Reads {
  rd_stream : stream s = bs ++ stream s';
  rd_wf : in_wf s';
  rd_in : s_in s' = s_in s;
  rd_inlen : s_inlen s' = s_inlen s;
  rd_out : s_out s' = s_out s;
  rd_outlen : s_outlen s' = s_outlen s;
  rd_outcnt : s_outcnt s' = s_outcnt s }.

Lemma reads_refl s : in_wf s → reads s [] s.
Proof. intros. by split. Qed.

Lemma reads_trans s1 s2 s3 b1 b2 : reads s1 b1 s2 → reads s2 b2 s3 → reads s1 (b1 ++ b2) s3.
Proof.
  intros [] []. split; try congruence; try done.
  rewrite <-app_assoc. congruence.
Qed.

Lemma stream_length s :
  in_wf s → Z.of_nat (length (stream s)) = s_bitcnt s + 8 * (s_inlen s - s_incnt s).
Proof.
  intros [[] ? ?]. unfold stream.
  rewrite length_app, length_bits_of, length_bytes_bits, length_drop. lia.
Qed.

(** Two well-formed states over the same input with the same bits left are at
    the same place. *)
Lemma stream_position s s' :
  in_wf s → in_wf s' → s_in s = s_in s' → stream s = stream s' →
  s_incnt s = s_incnt s' ∧ s_bitcnt s = s_bitcnt s' ∧ s_bitbuf s = s_bitbuf s'.
Proof.
  intros H H' Hin Hst.
  pose proof (stream_length s H) as L. pose proof (stream_length s' H') as L'.
  rewrite Hst in L. destruct H as [[] ? ?], H' as [[] ? ?]. rewrite Hin in *.
  assert (s_bitcnt s = s_bitcnt s') as Hb by lia.
  assert (s_incnt s = s_incnt s') as Hi by lia.
  split_and!; [done..|]. unfold stream in Hst. rewrite Hb, Hi, Hin in Hst.
  apply app_inv_tail in Hst.
  rewrite <-(of_bits_bits_of_small (Z.to_nat (s_bitcnt s')) (s_bitbuf s)),
    <-(of_bits_bits_of_small (Z.to_nat (s_bitcnt s')) (s_bitbuf s')), Hst; [done|..];
    rewrite Z2Nat.id by lia; [done|]. by rewrite <-Hb.
Qed.

Lemma reads_unique s bs s1 s2 :
  reads s bs s1 → reads s bs s2 → s1 = s2.
Proof.
  intros [E1 W1 ? ? ? ? ?] [E2 W2 ? ? ? ? ?].
  rewrite E1 in E2. apply app_inv_head in E2.
  destruct (stream_position s1 s2) as (? & ? & ?); [done|done|congruence|done|].
  destruct s1, s2; simpl in *; congruence.
Qed.

Lemma next_in_ret s :
  pos_wf s → s_incnt s < s_inlen s →
  ∃ b, next_in W s = Ret b (set_incnt (s_incnt s + 1) s) ∧ in_width 8 b ∧
       drop (Z.to_nat (s_incnt s)) (s_in s) = b :: drop (Z.to_nat (s_incnt s + 1)) (s_in s).
Proof.
  intros [] Hlt. destruct (aget_in (s_in s) (s_incnt s)) as [b Hb]; [lia|].
  exists b. split_and!.
  - unfold next_in, get, put, lift, mret, M_ret. cbv [mbind M_bind].
    rewrite Hb, wrap_small by (unfold in_width; lia). done.
  - by eapply bytes_aget.
  - apply aget_some in Hb as [_ Hb]. rewrite (drop_S _ _ _ Hb).
    do 2 f_equal. lia.
Qed.

(** Appending a fetched byte above the [n] bits of [val]. *)
Lemma fetch_bits n val b rest :
  in_width n val → 0 ≤ n → in_width 8 b →
  bits_of (Z.to_nat n) val ++ bits_of 8 b ++ rest =
  bits_of (Z.to_nat (n + 8)) (Z.lor val (Z.shiftl b n)) ++ rest
  ∧ in_width (n + 8) (Z.lor val (Z.shiftl b n)).
Proof.
  intros Hv Hn Hb. split.
  - rewrite Z2Nat.inj_add by lia. rewrite <-(Z2Nat.id n) at 3 by lia.
    rewrite bits_of_lor by by rewrite Z2Nat.id.
    by rewrite <-app_assoc.
  - rewrite lor_shiftl_add by done. unfold in_width in *.
    rewrite Z.pow_add_r by lia. nia.
Qed.

Lemma pos_wf_next s : pos_wf s → s_incnt s < s_inlen s → pos_wf (set_incnt (s_incnt s + 1) s).
Proof. intros [] ?. split; simpl; (done || lia). Qed.

(** The bits available to a routine that holds the bit buffer in [val]. *)
Definition avail (val : Z) (s : state) : list bool :=
  bits_of (Z.to_nat (s_bitcnt s)) val ++ bytes_bits (drop (Z.to_nat (s_incnt s)) (s_in s)).

(** Only the input position moved. *)
Definition same_rest (s s' : state) : Prop :=
  s_in s' = s_in s ∧ s_inlen s' = s_inlen s ∧ s_out s' = s_out s ∧
  s_outlen s' = s_outlen s ∧ s_outcnt s' = s_outcnt s.

(** The fetching loop of [bits]. *)
Lemma load_bits_spec fuel need val s :
  pos_wf s → 0 ≤ s_bitcnt s → in_width (s_bitcnt s) val →
  0 ≤ need → need ≤ s_bitcnt s + 8 * Z.of_nat fuel → s_bitcnt s < need + 8 →
  match load_bits W fuel need val s with
  | Ret v s' =>
      avail val s = avail v s' ∧ need ≤ s_bitcnt s' < need + 8 ∧
      in_width (s_bitcnt s') v ∧ pos_wf s' ∧ same_rest s s'
  | Jmp s' => Z.of_nat (length (avail val s)) < need ∧ same_rest s s'
  | Fault => False
  end.
Proof.
  revert val s. induction fuel as [|fuel IH]; intros val s Hp Hbc Hv Hn Hf Hlt;
    cbn [load_bits]; cbv [get mbind M_bind].
  { destruct (Z.ltb_spec (s_bitcnt s) need); [lia|]. split_and!; (done || lia). }
  destruct (Z.ltb_spec (s_bitcnt s) need).
  2:{ split_and!; (done || lia). }
  destruct (Z.eqb_spec (s_incnt s) (s_inlen s)) as [E|E].
  { split; [|done]. destruct Hp. unfold avail.
    rewrite length_app, length_bits_of, length_bytes_bits, length_drop. lia. }
  destruct (next_in_ret s Hp) as (b & -> & Hb & Hd); [destruct Hp; lia|].
  cbn -[load_bits Z.shiftl]. cbv [put].
  set (s1 := set_bits _ _ _). set (v1 := Z.lor val _).
  destruct (fetch_bits (s_bitcnt s) val b (bytes_bits (drop (Z.to_nat (s_incnt s + 1)) (s_in s)))
              Hv Hbc Hb) as [Happ Hw].
  assert (pos_wf s1) as Hp1.
  { destruct (pos_wf_next s Hp) as [? ? ? ?]; [destruct Hp; lia|]. by split. }
  assert (s_bitcnt s1 = s_bitcnt s + 8) as Hc1 by done.
  specialize (IH v1 s1 Hp1). rewrite Hc1 in IH.
  specialize (IH ltac:(lia) Hw Hn ltac:(lia) ltac:(lia)).
  assert (avail val s = avail v1 s1) as ->.
  { unfold avail. rewrite Hd. exact Happ. }
  destruct (load_bits W fuel need v1 s1); naive_solver.
Qed.

(** *** [bits] *)

Lemma bits_spec need s :
  in_wf s → 0 ≤ need →
  match bits W need s with
  | Ret v s' => reads s (bits_of (Z.to_nat need) v) s' ∧ in_width need v
  | Jmp s' => Z.of_nat (length (stream s)) < need ∧ same_rest s s'
  | Fault => False
  end.
Proof.
  intros [Hp Hbc Hbb] Hn. unfold bits. cbv [get mbind M_bind].
  pose proof (load_bits_spec (Z.to_nat need) need (s_bitbuf s) s Hp ltac:(lia) Hbb Hn
                ltac:(lia) ltac:(lia)) as H.
  destruct (load_bits W _ need _ s) as [v s'|s'|]; [|done|done].
  destruct H as (Hav & Hcnt & Hw & Hp' & Hsame). cbv [put mret M_ret].
  assert (Z.shiftl 1 need - 1 = Z.ones need) as -> by (unfold Z.ones; lia).
  rewrite Z.land_ones by done. split; [|by apply (wrap_range need)].
  assert (stream s = bits_of (Z.to_nat need) (v mod 2 ^ need) ++
            stream (set_bits (Z.shiftr v need) (s_bitcnt s' - need) s')) as Hst.
  { change (stream s) with (avail (s_bitbuf s) s). rewrite Hav. unfold avail, stream.
    cbn [s_bitcnt s_bitbuf s_incnt s_in set_bits]. rewrite app_assoc. f_equal.
    replace (Z.to_nat (s_bitcnt s')) with (Z.to_nat need + Z.to_nat (s_bitcnt s' - need))%nat by lia.
    rewrite bits_of_add, Z2Nat.id by lia. f_equal. symmetry. apply (bits_of_wrap _ need). lia. }
  destruct Hsame as (? & ? & ? & ? & ?). split; try done.
  split.
  - destruct Hp'. by split.
  - simpl. lia.
  - simpl. unfold in_width in *. rewrite Z.shiftr_div_pow2 by lia.
    replace (s_bitcnt s') with (need + (s_bitcnt s' - need)) in Hw by lia.
    rewrite Z.pow_add_r in Hw by lia. pose proof (pow2_pos need Hn).
    split; [apply Z.div_pos; lia|apply Z.div_lt_upper_bound; lia].
Qed.

End input.

(** ** Decoding as a function on bits *)

Inductive dres :=
  | DSym (sym : Z) (rest : list bool)
  | DNone (rest : list bool)
  | DMore
  | DFault.

(** The loop of the straightforward [decode] over a list of bits. *)
Fixpoint decode_bits (h : huffman) (n : nat) (len code first index : Z) (bs : list bool) : dres :=
  match n with
  | O => DNone bs
  | S n' =>
      match bs with
      | [] => DMore
      | b :: bs' =>
          let code := Z.lor code (Z.b2z b) in
          match (h_count h).[len] with
          | None => DFault
          | Some count =>
              if code - count <? first then
                match (h_symbol h).[index + (code - first)] with
                | Some sym => DSym sym bs'
                | None => DFault
                end
              else
                decode_bits h n' (len + 1) (Z.shiftl code 1) (Z.shiftl (first + count) 1)
                  (index + count) bs'
          end
      end
  end.

Definition decode_stream (h : huffman) (bs : list bool) : dres := decode_bits h 15 1 0 0 0 bs.

(** How an outcome of [decode] in state [s] reflects the result on bits.  On
    the error [-10] the faster version leaves the bit buffer as it was, so
    only the number of bytes fetched is determined. *)
Definition decode_matches (W : Z) (s : state) (o : outcome Z) (d : dres) : Prop :=
  match d, o with
  | DSym sym rest, Ret v s' => v = sym ∧ stream s' = rest ∧ ∃ bs, bs ≠ [] ∧ reads W s bs s'
  | DNone rest, Ret v s' =>
      v = -10 ∧ same_rest s s' ∧ Z.of_nat (length rest) / 8 = s_inlen s' - s_incnt s'
  | DMore, Jmp s' => same_rest s s'
  | DFault, Fault => True
  | _, _ => False
  end.

Section decoding.
Context (W : Z) (h : huffman).

Lemma decode_matches_reads s b s1 o d :
  reads W s b s1 → decode_matches W s1 o d → decode_matches W s o d.
Proof.
  intros Hr. destruct d, o; simpl; try done.
  - intros (-> & -> & bs & Hne & Hr'). split_and!; [done..|]. exists (b ++ bs).
    split; [by destruct b, bs|]. by eapply reads_trans.
  - destruct Hr. unfold same_rest. intros (-> & (? & ? & ? & ? & ?) & ?).
    split_and!; (done || congruence).
  - destruct Hr. unfold same_rest. intros (? & ? & ? & ? & ?). split_and!; congruence.
Qed.

Lemma decode_slow_loop_spec n : ∀ len code first index s,
  in_wf W s →
  decode_matches W s (decode_slow_loop W h n len code first index s)
    (decode_bits h n len code first index (stream s)).
Proof.
  induction n as [|n IH]; intros len code first index s Hwf; cbn [decode_slow_loop decode_bits].
  { simpl. split_and!; [done|done|]. rewrite (stream_length W) by done. destruct Hwf.
    rewrite Z.mul_comm, Z.div_add, Z.div_small by lia. done. }
  cbv [mbind M_bind]. pose proof (bits_spec W 1 s Hwf ltac:(lia)) as Hb.
  destruct (bits W 1 s) as [v s1|s1|]; [|destruct Hb as [Hl ?]|done].
  2:{ destruct (stream s); [done|]. cbn [length] in Hl. lia. }
  destruct Hb as [Hr Hv]. change (Z.to_nat 1) with 1%nat in Hr. cbn [bits_of] in Hr.
  rewrite (rd_stream _ _ _ _ Hr). cbn [app].
  assert (v = Z.b2z (Z.odd v)) as Hvb.
  { unfold in_width in Hv. assert (v = 0 ∨ v = 1) as [-> | ->] by lia; done. }
  rewrite <-Hvb. cbv [lift]. destruct (h_count h).[len] as [count|]; [|done].
  destruct (Z.ltb_spec (Z.lor code v - count) first).
  - destruct (h_symbol h).[_]; [|done]. simpl. split_and!; [done..|]. by exists [Z.odd v].
  - eapply decode_matches_reads; [done|]. apply IH. apply (rd_wf _ _ _ _ Hr).
Qed.

Lemma decode_slow_spec s :
  in_wf W s → decode_matches W s (decode_slow W h s) (decode_stream h (stream s)).
Proof. apply decode_slow_loop_spec. Qed.

(** *** The faster version *)

(** The bits as the faster loop sees them: [have] of them left in its local
    copy of the buffer, then the bytes not fetched. *)
Definition local_bits (have : nat) (d : dec) (s : state) : list bool :=
  bits_of have (d_bitbuf d) ++ bytes_bits (drop (Z.to_nat (s_incnt s)) (s_in s)).

(** The registers agree with a state [s0] from which [d_len d - 1] bits have
    been consumed. *)
Record dec_wf (s : state) (have : nat) (d : dec) : Prop := DecWf {
  dw_pos : pos_wf W s;
  dw_have : (have ≤ 8)%nat;
  dw_buf : in_width (Z.of_nat have) (d_bitbuf d);
  dw_cnt : (s_bitcnt s - (d_len d - 1) - Z.of_nat have) mod 8 = 0 }.

Lemma land_7 x : Z.land x 7 = x mod 8.
Proof. exact (Z.land_ones x 3 ltac:(lia)). Qed.

(** One turn of the inner loop takes one bit. *)
Lemma dec_wf_step s have d code first index :
  dec_wf s (S have) d →
  let d' := Dec (Z.shiftr (d_bitbuf d) 1) code first index (d_len d + 1) in
  dec_wf s have d' ∧
  local_bits (S have) d s = Z.odd (d_bitbuf d) :: local_bits have d' s ∧
  Z.land (d_bitbuf d) 1 = Z.b2z (Z.odd (d_bitbuf d)) ∧
  (0 ≤ Z.land (s_bitcnt s - d_len d) 7 < 8 ∧
   Z.land (s_bitcnt s - d_len d) 7 = Z.of_nat have).
Proof.
  intros [Hp Hh Hb Hc]. cbv zeta. split_and!.
  - split; [done|lia| |simpl; rewrite <-Hc; f_equal; lia].
    simpl. unfold in_width in *. rewrite Z.shiftr_div_pow2 by lia.
    rewrite Nat2Z.inj_succ, Z.pow_succ_r in Hb by lia.
    split; [apply Z.div_pos; lia|apply Z.div_lt_upper_bound; lia].
  - unfold local_bits. cbn [bits_of app d_bitbuf]. by rewrite <-Z.div2_spec.
  - rewrite (Z.land_ones _ 1 ltac:(lia) : Z.land (d_bitbuf d) 1 = _).
    change (2 ^ 1) with 2. rewrite Zmod_odd. by destruct (Z.odd _).
  - rewrite land_7. apply Z.mod_pos_bound. lia.
  - rewrite land_7. apply Z.mod_pos_bound. lia.
  - rewrite land_7. rewrite <-(Z.mod_small (Z.of_nat have) 8) by lia.
    rewrite Z.mod_divide in Hc by lia. destruct Hc as [k Hk].
    replace (s_bitcnt s - d_len d) with (Z.of_nat have + k * 8) by lia.
    apply Z.mod_add. lia.
Qed.

Lemma decode_inner_spec left : ∀ have n d s,
  dec_wf s have d → (left ≤ have)%nat → (left ≤ n)%nat →
  match decode_inner h left d s with
  | Ret (inl sym) s' =>
      ∃ rest bs, bs ≠ [] ∧ local_bits have d s = bs ++ rest ∧ stream s' = rest ∧
        in_wf W s' ∧ same_rest s s' ∧
        decode_bits h n (d_len d) (d_code d) (d_first d) (d_index d) (local_bits have d s)
        = DSym sym rest
  | Ret (inr d') s' =>
      s' = s ∧ dec_wf s (have - left) d' ∧ d_len d' = d_len d + Z.of_nat left ∧
      (∃ bs, local_bits have d s = bs ++ local_bits (have - left) d' s ∧ length bs = left) ∧
      decode_bits h n (d_len d) (d_code d) (d_first d) (d_index d) (local_bits have d s)
      = decode_bits h (n - left) (d_len d') (d_code d') (d_first d') (d_index d')
          (local_bits (have - left) d' s)
  | Jmp _ => False
  | Fault =>
      decode_bits h n (d_len d) (d_code d) (d_first d) (d_index d) (local_bits have d s) = DFault
  end.
Proof.
  induction left as [|left IH]; intros have n d s Hd Hh Hn; cbn [decode_inner].
  { simpl. rewrite !Nat.sub_0_r. split_and!; [done..|lia| |done]. by exists []. }
  destruct have as [|have]; [lia|]. destruct n as [|n]; [lia|].
  cbn [decode_bits]. cbv [lift mbind M_bind]. rewrite !Nat.sub_succ.
  set (code := Z.lor _ (Z.land _ 1)).
  destruct (h_count h).[d_len d] as [count|] eqn:Ecnt.
  2:{ destruct (dec_wf_step s have d 0 0 0 Hd) as (_ & -> & _). done. }
  destruct (dec_wf_step s have d (Z.shiftl code 1) (Z.shiftl (d_first d + count) 1)
              (d_index d + count) Hd) as (Hd' & Hl & Hodd & _ & Hcnt).
  set (d' := Dec _ _ _ _ _) in *. rewrite Hl, <-Hodd. fold code.
  destruct (Z.ltb_spec (code - count) (d_first d)) as [Hlt|Hge].
  - cbv [get put]. destruct (h_symbol h).[_] as [sym|]; [|done]. cbv [mret M_ret].
    rewrite Hcnt.
    exists (local_bits have d' s), [Z.odd (d_bitbuf d)]. split_and!; try done.
    + unfold stream. cbn [s_bitcnt s_bitbuf s_incnt s_in set_bits]. by rewrite Nat2Z.id.
    + destruct Hd' as [Hp ? ? ?], Hp. split; [by split| |done]. cbn [s_bitcnt set_bits].
      destruct Hd. lia.
  - specialize (IH have n d' s Hd' ltac:(lia) ltac:(lia)).
    destruct (decode_inner h left d' s) as [[sym|d2] s'|s'|]; [| |done|done].
    + destruct IH as (rest & bs & ? & Hl' & ? & ? & ? & ?).
      exists rest, (Z.odd (d_bitbuf d) :: bs). split_and!; try done. cbn. by f_equal.
    + destruct IH as (-> & ? & Hlen & (bs & Hbs & ?) & ?). split_and!; try done.
      * rewrite Hlen. cbn [d_len d']. lia.
      * exists (Z.odd (d_bitbuf d) :: bs). cbn. split; congruence.
Qed.

Lemma same_rest_trans s1 s2 s3 : same_rest s1 s2 → same_rest s2 s3 → same_rest s1 s3.
Proof.
  unfold same_rest. intros (? & ? & ? & ? & ?) (? & ? & ? & ? & ?). split_and!; congruence.
Qed.

Lemma decode_outer_spec fuel : ∀ left have n d s0 s pre,
  dec_wf s have d → stream s0 = pre ++ local_bits have d s → same_rest s0 s →
  (left ≤ have)%nat → n = Z.to_nat (16 - d_len d) → 1 ≤ d_len d ≤ 16 → (left ≤ n)%nat →
  (left = have ∨ left = n)%nat → (n - left < fuel)%nat → (left < have → 1 ≤ left)%nat →
  decode_matches W s0 (decode_outer W h fuel (Z.of_nat left) d s)
    (decode_bits h n (d_len d) (d_code d) (d_first d) (d_index d) (local_bits have d s)).
Proof.
  induction fuel as [|fuel IH];
    intros left have n d s0 s pre Hd Hst Hsame Hlh Hn Hlen Hln Hor Hf H8; [lia|].
  cbn [decode_outer]. cbv [mbind M_bind]. rewrite Nat2Z.id.
  pose proof (decode_inner_spec left have n d s Hd Hlh Hln) as Hin.
  destruct (decode_inner h left d s) as [[sym|d1] s1|s1|]; [| |done|].
  - destruct Hin as (rest & bs & Hne & Hl & Hr & Hwf & Hs1 & ->).
    simpl. split_and!; [done|done|]. exists (pre ++ bs). split; [by destruct pre, bs|].
    destruct (same_rest_trans _ _ _ Hsame Hs1) as (? & ? & ? & ? & ?). split; try done.
    rewrite Hst, Hl, Hr, app_assoc. done.
  - destruct Hin as (-> & Hd1 & Hlen1 & (bs & Hl & Hbs) & ->). unfold MAXBITS.
    destruct (Z.eqb_spec (15 + 1 - d_len d1) 0) as [E|E].
    + assert (n - left = 0)%nat as -> by lia. simpl. split_and!; [done|done|].
      unfold local_bits. rewrite length_app, length_bits_of, length_bytes_bits, length_drop.
      destruct Hd as [[] ? ? ?]. rewrite Nat2Z.inj_add, Nat2Z.inj_mul, Z.add_comm.
      replace (Z.of_nat 8 * _) with ((s_inlen s - s_incnt s) * 8) by lia.
      rewrite Z.add_comm, Z.div_add, Z.div_small by lia. done.
    + assert (left = have) as -> by lia. rewrite Nat.sub_diag in *.
      unfold local_bits. cbn [bits_of app]. cbv [get].
      destruct (Z.eqb_spec (s_incnt s) (s_inlen s)) as [Ei|Ei].
      * destruct Hd as [[? Hil ? ?] ? ? ?]. rewrite drop_ge by lia.
        destruct (n - have)%nat eqn:En; [lia|]. simpl. done.
      * destruct Hd as [Hp ? ? ?].
        destruct (next_in_ret W s Hp) as (b & -> & Hb & Hdrop); [destruct Hp; lia|].
        rewrite Hdrop. set (s2 := set_incnt _ s). set (d2 := Dec b _ _ _ _).
        change (bytes_bits (b :: drop (Z.to_nat (s_incnt s + 1)) (s_in s)))
          with (local_bits 8 d2 s2).
        set (l2 := Z.to_nat (Z.min 8 (16 - d_len d1))).
        assert ((if 8 <? 15 + 1 - d_len d1 then 8 else 15 + 1 - d_len d1) = Z.of_nat l2) as ->
          by (unfold l2; destruct (Z.ltb_spec 8 (15 + 1 - d_len d1)); lia).
        apply (IH l2 8%nat (n - have)%nat d2 s0 s2 (pre ++ bs)); unfold l2; try (cbn; lia).
        -- split; [|lia|done|].
           { apply pos_wf_next; [done|]. destruct Hp; lia. }
           destruct Hd1 as [_ _ _ Hc].
           change ((s_bitcnt s - (d_len d1 - 1) - 8) mod 8 = 0). rewrite <-Hc.
           rewrite <-(Z.mod_add (_ - 8) 1) by lia. f_equal. lia.
        -- rewrite Hst, Hl, <-app_assoc. do 2 f_equal. unfold local_bits at 1.
           rewrite Hdrop. done.
        -- destruct Hsame as (? & ? & ? & ? & ?). done.
  - rewrite Hin. done.
Qed.

(** [decode], on any table and any well-formed state, takes from the input
    exactly the bits that the one-bit-at-a-time definition takes. *)
Lemma decode_spec s :
  in_wf W s → decode_matches W s (decode W h s) (decode_stream h (stream s)).
Proof.
  intros Hwf. unfold decode. cbv [get mbind M_bind]. unfold decode_stream.
  destruct Hwf as [Hp Hc Hb].
  rewrite <-(Z2Nat.id (s_bitcnt s)) by lia.
  change (stream s) with (local_bits (Z.to_nat (s_bitcnt s)) (Dec (s_bitbuf s) 0 0 0 1) s).
  apply (decode_outer_spec _ _ _ 15%nat (Dec (s_bitbuf s) 0 0 0 1) s s []);
    try (unfold MAXBITS; cbn; lia || done).
  split; [done|lia|by rewrite Z2Nat.id by lia|].
  rewrite Z2Nat.id by lia. cbn [d_len]. rewrite Z.sub_diag, Z.sub_0_r, Z.sub_diag. done.
Qed.

End decoding.

(** The two versions of [decode] in the file are interchangeable: on every
    table and every well-formed state the faster one returns the same symbol
    and leaves the same state as the straightforward one, runs out of input in
    the same cases, and on an invalid code both return -10 having fetched the
    same number of bytes. *)
Theorem decode_fast_slow (W : Z) (h : huffman) (s : state) :
  in_wf W s →
  match decode W h s, decode_slow W h s with
  | Ret v s1, Ret v' s2 =>
      v = v' ∧ s_incnt s1 = s_incnt s2 ∧ (0 ≤ v → s1 = s2)
  | Jmp s1, Jmp s2 => same_rest s1 s2
  | Fault, Fault => True
  | _, _ => False
  end.
Proof.
  intros Hwf. pose proof (decode_spec W h s Hwf) as Hf.
  pose proof (decode_slow_spec W h s Hwf) as Hs. revert Hf Hs.
  destruct (decode_stream h (stream s)), (decode W h s), (decode_slow W h s); simpl; try done.
  - intros (-> & E1 & bs & _ & R1) (-> & E2 & bs' & _ & R2).
    assert (bs = bs') as <-.
    { pose proof (rd_stream _ _ _ _ R1) as S1. pose proof (rd_stream _ _ _ _ R2) as S2.
      rewrite S1, E1, E2 in S2. by apply app_inv_tail in S2. }
    rewrite (reads_unique _ _ _ _ _ R1 R2). done.
  - intros (-> & (? & E1 & _) & L1) (-> & (? & E2 & _) & L2).
    split_and!; [done|lia|lia].
  - unfold same_rest. intros (? & ? & ? & ? & ?) (? & ? & ? & ? & ?). split_and!; congruence.
Qed.

Lemma decode_fast_slow_witness :
  let h := Huffman [0; 1; 2; 0; 0; 0; 0; 0; 0; 0; 0; 0; 0; 0; 0; 0] [0; 1; 2] in
  let s := State None 0 0 [3; 0] 2 0 0 0 in
  in_wf 32 s ∧
  match decode 32 h s, decode_slow 32 h s with
  | Ret v s1, Ret v' s2 => v = v' ∧ s_incnt s1 = s_incnt s2 ∧ (0 ≤ v → s1 = s2)
  | Jmp s1, Jmp s2 => same_rest s1 s2
  | Fault, Fault => True
  | _, _ => False
  end.
Proof.
  intros h s. assert (in_wf 32 s) as Hwf.
  { split; [|simpl; lia|done]. split; [|done|done|simpl; lia].
    repeat (constructor; [unfold in_width; lia|]). constructor. }
  split; [exact Hwf|]. exact (decode_fast_slow 32 h s Hwf).
Defined.
