(* ===== verification/PuffTables.v ===== *)
(** The decoding tables of [puff]: [construct] builds the tables of the
    canonical code of RFC 1951 (Deflate.v), detects over-subscribed and
    incomplete codes, and decoding with the tables inverts that code. *)

From Stdlib Require Import ZArith Lia.
From stdpp Require Import base option numbers list.
From S2P Require Import Prelude Deflate Puff PuffBits.

Open Scope Z_scope.

(** [h] is the decoding table of the code with lengths [lens]. *)
Record table_for (h : huffman) (lens : list Z) : Prop := TableFor {
  tf_size : length (h_count h) = 16%nat;
  tf_count : ∀ l, 0 ≤ l ≤ 15 → aget (h_count h) l = Some (cnt lens l);
  tf_symbol : ∀ (l : nat) r, (1 ≤ l ≤ 15)%nat → 0 ≤ r < ncodes lens l →
    ∃ i : nat, aget (h_symbol h) (index_base lens l + r) = Some (Z.of_nat i) ∧
               lens !! i = Some (Z.of_nat l) ∧ rank lens i (Z.of_nat l) = r }.

(** ** [construct] *)

Section construct.
Context (lengths : list Z) (n : nat) (Hn : (n ≤ length lengths)%nat).
Context (Hok : lengths_ok (take n lengths)).

Lemma length_entry (j : Z) :
  0 ≤ j < Z.of_nat n →
  ∃ l : nat, aget lengths j = Some (Z.of_nat l) ∧ (l ≤ 15)%nat ∧
             take n lengths !! Z.to_nat j = Some (Z.of_nat l).
Proof.
  intros Hj. destruct (aget_in lengths j) as [x Hx]; [lia|].
  pose proof Hx as [_ Hx']%aget_some.
  assert (take n lengths !! Z.to_nat j = Some x) as Ht by (rewrite lookup_take_lt by lia; done).
  pose proof (Forall_lookup_1 _ _ _ _ Hok Ht) as Hr. cbn beta in Hr.
  exists (Z.to_nat x). rewrite !Z2Nat.id by lia. split_and!; [done|lia|done].
Qed.

Lemma take_entry (j : Z) l x :
  0 ≤ j < Z.of_nat n → aget lengths j = Some x →
  cnt (take (Z.to_nat (j + 1)) lengths) l
  = cnt (take (Z.to_nat j) lengths) l + if decide (x = l) then 1 else 0.
Proof.
  intros Hj [_ Hx]%aget_some. replace (Z.to_nat (j + 1)) with (S (Z.to_nat j)) by lia.
  by apply cnt_take_S.
Qed.

Lemma count_lengths_ok count :
  length count = 16%nat →
  succeeds (count_lengths count lengths (Z.of_nat n)) (λ c,
    length c = 16%nat ∧ ∀ l, 0 ≤ l ≤ 15 → aget c l = Some (cnt (take n lengths) l)).
Proof.
  intros Hc. unfold count_lengths.
  set (I := λ j (c : list Z), length c = 16%nat ∧ ∀ l, 0 ≤ l < j → aget c l = Some 0).
  eapply succeeds_bind; [apply (for_up_total I)|].
  - intros j c Hj [Hl Hz]. change (Z.of_nat (Z.to_nat (MAXBITS + 1))) with 16 in Hj.
    rewrite aset_in by lia. simpl. split; [by rewrite length_insert|].
    intros l Hl'. rewrite aget_insert by lia. case_decide; [done|]. apply Hz. lia.
  - split; [done|lia].
  - intros c [Hl Hz]. change (0 + Z.of_nat (Z.to_nat (MAXBITS + 1))) with 16 in Hz. cbn beta.
    set (J := λ j (c : list Z), length c = 16%nat ∧
      ∀ l, 0 ≤ l ≤ 15 → aget c l = Some (cnt (take (Z.to_nat j) lengths) l)).
    eapply succeeds_mono; [apply (for_up_total J)|].
    + intros j d Hj [Hd Hv]. destruct (length_entry j) as (l & El & Hl15 & _); [lia|].
      rewrite El. simpl_bind. rewrite Hv by lia. simpl_bind.
      rewrite aset_in by lia. simpl. split; [by rewrite length_insert|].
      intros k Hk. rewrite aget_insert, (take_entry j k (Z.of_nat l)) by (done || lia).
      case_decide; [subst; done|]. rewrite Hv by lia. f_equal. lia.
    + split; [done|]. intros l Hl'. rewrite Hz by lia. done.
    + rewrite Nat2Z.id, Z.add_0_l. intros d [Hd Hv]. split; [done|]. intros.
      rewrite Hv, Nat2Z.id by done. done.
Qed.
Abbreviation L := (take n lengths).

Lemma ncodes_cnt (l : nat) : (1 ≤ l)%nat → ncodes L l = cnt L (Z.of_nat l).
Proof. destruct l; [lia|done]. Qed.

Lemma check_left_ok count :
  (∀ l, 0 ≤ l ≤ 15 → aget count l = Some (cnt L l)) →
  succeeds (check_left count) (λ r,
    match r with
    | inl v => v = left_codes L 15 ∧ not_over L
    | inr v => v < 0 ∧ ¬ not_over L
    end).
Proof.
  intros Hc. unfold check_left.
  set (I := λ j (r : Z + Z),
    match r with
    | inl v => v = left_codes L (Z.to_nat (j - 1)) ∧
               ∀ l, (l < Z.to_nat j)%nat → 0 ≤ left_codes L l
    | inr v => v < 0 ∧ ¬ not_over L
    end).
  eapply succeeds_mono; [apply (for_up_total I)|].
  - intros j r Hj HI. change (Z.of_nat (Z.to_nat MAXBITS)) with 15 in Hj.
    destruct r as [v|v]; [|done]. destruct HI as [-> Hpos].
    rewrite Hc by lia. simpl_bind.
    assert (Z.shiftl (left_codes L (Z.to_nat (j - 1))) 1 - cnt L j = left_codes L (Z.to_nat j)) as ->.
    { replace (Z.to_nat j) with (S (Z.to_nat (j - 1))) by lia. cbn [left_codes ncodes].
      rewrite Z.shiftl_mul_pow2 by lia. replace (Z.of_nat (S (Z.to_nat (j - 1)))) with j by lia. lia. }
    destruct (Z.ltb_spec (left_codes L (Z.to_nat j)) 0) as [Hlt|Hge]; simpl.
    + split; [done|]. intros Hno. specialize (Hno (Z.to_nat j) ltac:(lia)). lia.
    + split; [f_equal; lia|]. intros l Hl. destruct (decide (l = Z.to_nat j)) as [->|]; [done|].
      apply Hpos. lia.
  - simpl. split; [done|]. intros l Hl. replace l with 0%nat by lia. simpl. lia.
  - intros [v|v]; [|done]. intros [-> Hpos]. split; [done|].
    intros l Hl. apply Hpos. change (Z.to_nat (1 + Z.of_nat (Z.to_nat MAXBITS))) with 16%nat. lia.
Qed.

Lemma make_offs_ok offs count :
  length offs = 16%nat → (∀ l, 0 ≤ l ≤ 15 → aget count l = Some (cnt L l)) →
  succeeds (make_offs offs count) (λ o,
    length o = 16%nat ∧ ∀ l : nat, (1 ≤ l ≤ 15)%nat → aget o (Z.of_nat l) = Some (index_base L l)).
Proof.
  intros Ho Hc. unfold make_offs. rewrite aset_in by lia. simpl_bind.
  set (I := λ j (o : list Z), length o = 16%nat ∧
    ∀ l : nat, (1 ≤ l)%nat → Z.of_nat l ≤ j → aget o (Z.of_nat l) = Some (index_base L l)).
  eapply succeeds_mono; [apply (for_up_total I)|].
  - intros j o Hj [Hlo Hv]. change (Z.of_nat (Z.to_nat (MAXBITS - 1))) with 14 in Hj.
    pose proof (Hv (Z.to_nat j) ltac:(lia) ltac:(lia)) as Hvj. rewrite Z2Nat.id in Hvj by lia.
    rewrite Hvj, Hc by lia. simpl_bind. rewrite aset_in by lia. simpl.
    split; [by rewrite length_insert|]. intros l Hl Hlj. rewrite aget_insert by lia.
    case_decide as E; [|apply Hv; lia].
    replace l with (S (Z.to_nat j)) by lia. cbn [index_base].
    rewrite ncodes_cnt, Z2Nat.id by lia. done.
  - split; [by rewrite length_insert|]. intros l Hl Hl1. replace l with 1%nat by lia.
    rewrite (aget_insert _ 1) by lia. done.
  - intros o [Hlo Hv]. split; [done|]. intros l Hl. apply Hv; [lia|].
    change (1 + Z.of_nat (Z.to_nat (MAXBITS - 1))) with 15. lia.
Qed.

(** The symbols written so far, when the first [j] lengths have been seen. *)
Definition placed (j : Z) (syms : list Z) : Prop :=
  ∀ (l : nat) r, (1 ≤ l ≤ 15)%nat → 0 ≤ r < cnt (take (Z.to_nat j) lengths) (Z.of_nat l) →
  ∃ i : nat, aget syms (index_base L l + r) = Some (Z.of_nat i) ∧ Z.of_nat i < j ∧
    lengths !! i = Some (Z.of_nat l) ∧ rank lengths i (Z.of_nat l) = r.

Lemma prefix_cnt_le j l : 0 ≤ j ≤ Z.of_nat n → cnt (take (Z.to_nat j) lengths) l ≤ cnt L l.
Proof. intros. apply cnt_take_mono. lia. Qed.

Lemma put_symbols_ok offs syms :
  length offs = 16%nat → (n ≤ length syms)%nat →
  (∀ l : nat, (1 ≤ l ≤ 15)%nat → aget offs (Z.of_nat l) = Some (index_base L l)) →
  succeeds (put_symbols offs syms lengths (Z.of_nat n)) (λ '(_, syms'),
    length syms' = length syms ∧ placed (Z.of_nat n) syms').
Proof.
  intros Ho Hs Hv. unfold put_symbols.
  set (I := λ j '(o, s), length o = 16%nat ∧ length s = length syms ∧
    (∀ l : nat, (1 ≤ l ≤ 15)%nat → aget o (Z.of_nat l)
       = Some (index_base L l + cnt (take (Z.to_nat j) lengths) (Z.of_nat l))) ∧ placed j s).
  eapply succeeds_mono; [apply (for_up_total I)|].
  - intros j [o s] Hj (Hlo & Hls & Hoffs & Hpl).
    destruct (length_entry j) as (l & El & Hl15 & _); [lia|]. rewrite El. simpl_bind.
    destruct (Z.eqb_spec (Z.of_nat l) 0) as [E0|E0].
    { simpl. split_and!; [done..| |].
      - intros k Hk. rewrite (take_entry j _ _ ltac:(lia) El), decide_False by lia.
        rewrite Hoffs by lia. f_equal. lia.
      - intros k r Hk Hr. rewrite (take_entry j _ _ ltac:(lia) El), decide_False in Hr by lia.
        destruct (Hpl k r Hk ltac:(lia)) as (i & ? & ? & ? & ?). exists i. split_and!; (done || lia). }
    rewrite Hoffs by lia. simpl_bind.
    set (c := cnt (take (Z.to_nat j) lengths) (Z.of_nat l)).
    pose proof (cnt_nonneg (take (Z.to_nat j) lengths) (Z.of_nat l)) as Hc0. fold c in Hc0.
    pose proof (prefix_cnt_le (j + 1) (Z.of_nat l) ltac:(lia)) as Hcle.
    rewrite (take_entry j _ _ ltac:(lia) El), decide_True in Hcle by done. fold c in Hcle.
    assert (0 ≤ c < ncodes L l) as Hcn by (rewrite ncodes_cnt by lia; lia).
    pose proof (position_bound L l 16 c ltac:(lia) Hcn) as Hpos.
    pose proof (index_base_le_length L 16) as Hlen. rewrite length_take in Hlen.
    rewrite aset_in by lia. simpl_bind. rewrite aset_in by lia. simpl.
    split_and!; [by rewrite length_insert|by rewrite length_insert| |].
    + intros k Hk. rewrite aget_insert, (take_entry j _ _ ltac:(lia) El) by lia.
      repeat case_decide; try lia.
      * replace k with l by lia. f_equal. unfold c. lia.
      * rewrite Hoffs by lia. f_equal. lia.
    + intros k r Hk Hr. rewrite (take_entry j _ _ ltac:(lia) El) in Hr.
      rewrite aget_insert by lia.
      destruct (decide (index_base L l + c = index_base L k + r)) as [Epos|Epos].
      * assert (0 ≤ r < ncodes L k) as Hrk.
        { pose proof (prefix_cnt_le (j + 1) (Z.of_nat k) ltac:(lia)) as Hle.
          rewrite (take_entry j _ _ ltac:(lia) El) in Hle. rewrite ncodes_cnt by lia.
          repeat case_decide; lia. }
        destruct (position_inj L l k c r Hcn Hrk Epos) as [<- <-].
        exists (Z.to_nat j). rewrite Z2Nat.id by lia. split_and!; [done|lia| |done].
        apply aget_some in El as [_ El]. done.
      * assert (r < cnt (take (Z.to_nat j) lengths) (Z.of_nat k)) as Hr'.
        { case_decide as Ek; [|lia]. assert (k = l) as -> by lia. fold c in Hr |- *.
          destruct (decide (r = c)) as [->|]; [done|lia]. }
        assert (0 ≤ r) by lia.
        destruct (Hpl k r Hk ltac:(lia)) as (i & ? & ? & ? & ?). exists i. split_and!; (done || lia).
  - simpl. split_and!; [done..| |].
    + intros l Hl. rewrite Hv by lia. rewrite cnt_nil. f_equal. lia.
    + intros l r Hl Hr. rewrite cnt_nil in Hr. lia.
  - rewrite Nat2Z.id, Z.add_0_l. intros [o s] (_ & ? & _ & ?). done.
Qed.

End construct.

Lemma placed_table lengths n h :
  (n ≤ length lengths)%nat → length (h_count h) = 16%nat →
  (∀ l, 0 ≤ l ≤ 15 → aget (h_count h) l = Some (cnt (take n lengths) l)) →
  placed lengths n (Z.of_nat n) (h_symbol h) → table_for h (take n lengths).
Proof.
  intros Hn Hc Hv Hp. split; [done|done|]. intros l r Hl Hr.
  rewrite ncodes_cnt in Hr by lia.
  destruct (Hp l r Hl ltac:(by rewrite Nat2Z.id)) as (i & ? & ? & Hi & Hrk).
  exists i. split_and!; [done|rewrite lookup_take_lt by lia; done|].
  unfold rank in *. rewrite take_take, Nat.min_l by lia. done.
Qed.

(** What [construct] returns, in all cases. *)
Lemma construct_spec h lengths n :
  (n ≤ length lengths)%nat → lengths_ok (take n lengths) →
  length (h_count h) = 16%nat → (n ≤ length (h_symbol h))%nat →
  succeeds (construct h lengths (Z.of_nat n)) (λ '(err, h'),
    length (h_count h') = 16%nat ∧ length (h_symbol h') = length (h_symbol h) ∧
    (∀ l, 0 ≤ l ≤ 15 → aget (h_count h') l = Some (cnt (take n lengths) l)) ∧
    ((err < 0 ∧ ¬ not_over (take n lengths)) ∨
     (0 ≤ err ∧ not_over (take n lengths) ∧ table_for h' (take n lengths) ∧
      (err = left_codes (take n lengths) 15 ∧ cnt (take n lengths) 0 ≠ Z.of_nat n ∨
       err = 0 ∧ cnt (take n lengths) 0 = Z.of_nat n)))).
Proof.
  intros Hn Hok Hc Hs. unfold construct. set (L := take n lengths) in *.
  eapply succeeds_bind; [by apply count_lengths_ok|]. intros count [Hlc Hcv]. cbn beta.
  rewrite Hcv by lia. simpl_bind. fold L in Hcv |- *.
  destruct (Z.eqb_spec (cnt L 0) (Z.of_nat n)) as [E0|E0].
  { cbn [succeeds h_count h_symbol]. split_and!; [done..|]. right.
    assert (∀ l, ncodes L l = 0) as Hz.
    { intros [|l]; [done|]. cbn [ncodes]. apply (cnt_rest_zero L 0); [lia|].
      rewrite E0. unfold L. rewrite length_take. lia. }
    split_and!; [done|by apply not_over_empty| |by right].
    split; [done|done|]. intros l r Hl Hr. rewrite Hz in Hr. lia. }
  eapply succeeds_bind; [by apply (check_left_ok lengths n)|]. intros [v|v] Hr; cbn beta iota.
  2:{ cbn [succeeds h_count h_symbol]. split_and!; [done..|]. by left. }
  destruct Hr as [-> Hno].
  eapply succeeds_bind; [by apply (make_offs_ok lengths n)|].
  intros offs [Hlo Hov]. cbn beta.
  eapply succeeds_bind; [by apply (put_symbols_ok lengths n)|]. intros [o syms] [Hls Hpl].
  cbn [succeeds h_count h_symbol]. split_and!; [done..|]. right. split_and!; [apply (Hno 15%nat); lia|done| |by left].
  apply placed_table; done.
Qed.

(** ** Decoding inverts the canonical code *)

Lemma lor_bit c b : Z.lor (Z.shiftl c 1) (Z.b2z b) = 2 * c + Z.b2z b.
Proof.
  rewrite Z.lor_comm, lor_shiftl_add; [lia|lia|]. unfold in_width. destruct b; simpl; lia.
Qed.

Lemma shiftr_bit C m :
  2 * Z.shiftr C (Z.of_nat (S m)) + Z.b2z (Z.testbit C (Z.of_nat m)) = Z.shiftr C (Z.of_nat m).
Proof.
  rewrite (odd_div2 (Z.shiftr C (Z.of_nat m))).
  rewrite <-Z.bit0_odd, Z.shiftr_spec, Z.div2_spec, Z.shiftr_shiftr by lia.
  replace (Z.of_nat m + 1) with (Z.of_nat (S m)) by lia. rewrite Z.add_0_l. lia.
Qed.

Section decode_code.
Context (h : huffman) (lens : list Z) (Hh : table_for h lens).

Lemma count_ncodes (k : nat) :
  (1 ≤ k ≤ 15)%nat → aget (h_count h) (Z.of_nat k) = Some (ncodes lens k).
Proof. intros Hk. rewrite (tf_count _ _ Hh) by lia. destruct k; [lia|done]. Qed.

(** Once the bits above the [m] last ones have been read. *)
Lemma decode_bits_code (i l : nat) rest :
  lens !! i = Some (Z.of_nat l) → (1 ≤ l ≤ 15)%nat → not_over lens →
  ∀ m k n, (1 ≤ m ≤ l)%nat → k = (l - m + 1)%nat → (m ≤ n)%nat →
  decode_bits h n (Z.of_nat k) (Z.shiftl (Z.shiftr (code_of lens i l) (Z.of_nat m)) 1)
    (first_code lens k) (index_base lens k) (msb_bits m (code_of lens i l) ++ rest)
  = DSym (Z.of_nat i) rest.
Proof.
  intros Hi Hl Hno. set (C := code_of lens i l).
  destruct (code_of_range lens i l Hi Hl Hno) as [Hrange _]. fold C in Hrange.
  induction m as [|m IH]; intros k n Hm Hk Hn; [lia|].
  destruct n as [|n]; [lia|]. rewrite msb_bits_S. cbn [app decode_bits].
  rewrite lor_bit, shiftr_bit, count_ncodes by lia.
  destruct (decide (m = 0%nat)) as [->|Hm0].
  - change (Z.of_nat 0) with 0. rewrite Z.shiftr_0_r.
    assert (k = l) as -> by lia.
    destruct (Z.ltb_spec (C - ncodes lens l) (first_code lens l)); [|lia].
    destruct (tf_symbol _ _ Hh l (C - first_code lens l) Hl ltac:(lia)) as (j & -> & Hj & Hrank).
    f_equal. f_equal. apply (rank_inj lens j i (Z.of_nat l)); [done..|].
    rewrite Hrank. unfold C, code_of. lia.
  - assert (first_code lens k + ncodes lens k ≤ Z.shiftr C (Z.of_nat m)) as Hge.
    { rewrite Z.shiftr_div_pow2 by lia. apply Z.div_le_lower_bound; [apply pow2_pos; lia|].
      pose proof (first_code_ge lens k l ltac:(lia)) as Hf.
      replace (l - k)%nat with m in Hf by lia. lia. }
    destruct (Z.ltb_spec (Z.shiftr C (Z.of_nat m) - ncodes lens k) (first_code lens k)); [lia|].
    replace (Z.of_nat k + 1) with (Z.of_nat (S k)) by lia.
    rewrite (Z.shiftl_mul_pow2 (first_code lens k + _)) by lia.
    replace ((first_code lens k + ncodes lens k) * 2 ^ 1) with (first_code lens (S k))
      by (cbn [first_code]; lia).
    apply IH; lia.
Qed.

Lemma decode_stream_code (i l : nat) rest :
  lens !! i = Some (Z.of_nat l) → (1 ≤ l ≤ 15)%nat → not_over lens →
  decode_stream h (msb_bits l (code_of lens i l) ++ rest) = DSym (Z.of_nat i) rest.
Proof.
  intros Hi Hl Hno. unfold decode_stream.
  destruct (code_of_range lens i l Hi Hl Hno) as [_ [? Hlt]].
  rewrite <-(decode_bits_code i l rest Hi Hl Hno l 1 15) by lia.
  rewrite Z.shiftr_div_pow2, Z.div_small by lia. done.
Qed.

Lemma msb_bits_snoc n c (b : bool) : msb_bits (S n) (2 * c + Z.b2z b) = msb_bits n c ++ [b].
Proof.
  unfold msb_bits. cbn [bits_of]. rewrite (Z.add_comm (2 * c)).
  rewrite odd_b2z_add, div2_b2z_add, reverse_cons. done.
Qed.

(** Whatever the bits, decoding does not leave the tables, and a symbol is
    only returned for its own code. *)
Lemma decode_bits_sound n : ∀ (k : nat) c pre bs,
  (1 ≤ k)%nat → (k + n = 16)%nat → in_width (Z.of_nat (k - 1)) c →
  first_code lens k ≤ 2 * c → pre = msb_bits (k - 1) c →
  match decode_bits h n (Z.of_nat k) (Z.shiftl c 1) (first_code lens k) (index_base lens k) bs with
  | DSym sym rest =>
      ∃ i l : nat, sym = Z.of_nat i ∧ lens !! i = Some (Z.of_nat l) ∧ (1 ≤ l ≤ 15)%nat ∧
        pre ++ bs = msb_bits l (code_of lens i l) ++ rest
  | DNone rest => 0 < left_codes lens 15 ∧ length (pre ++ bs) = (15 + length rest)%nat
  | DMore => (length (pre ++ bs) < 15)%nat
  | DFault => False
  end.
Proof.
  induction n as [|n IH]; intros k c pre bs Hk Hn Hc Hf Hpre; cbn [decode_bits].
  { assert (k = 16%nat) as -> by lia. split; [exact (left_codes_pos lens 15 c Hc Hf)|].
    rewrite Hpre, length_app, length_msb_bits. done. }
  assert (length pre = k - 1)%nat as Hlp by (rewrite Hpre; apply length_msb_bits).
  destruct bs as [|b bs]; [rewrite length_app; simpl; lia|].
  rewrite lor_bit, count_ncodes by lia.
  assert (pre ++ b :: bs = (pre ++ [b]) ++ bs) as Happ by by rewrite <-app_assoc.
  assert (pre ++ [b] = msb_bits k (2 * c + Z.b2z b)) as Hpre'.
  { rewrite Hpre. destruct k; [lia|]. rewrite Nat.sub_succ, Nat.sub_0_r. symmetry. apply msb_bits_snoc. }
  destruct (Z.ltb_spec (2 * c + Z.b2z b - ncodes lens k) (first_code lens k)) as [Hlt|Hge].
  - destruct (tf_symbol _ _ Hh k (2 * c + Z.b2z b - first_code lens k)) as (i & -> & Hi & Hrank);
      [lia|destruct b; simpl in *; lia|].
    exists i, k. split_and!; [done|done|lia|lia|]. rewrite Happ, Hpre'. do 2 f_equal.
    unfold code_of. lia.
  - replace (Z.of_nat k + 1) with (Z.of_nat (S k)) by lia.
    rewrite (Z.shiftl_mul_pow2 (first_code lens k + _)) by lia.
    replace ((first_code lens k + ncodes lens k) * 2 ^ 1) with (first_code lens (S k))
      by (cbn [first_code]; lia).
    rewrite Happ. apply IH.
    + lia.
    + lia.
    + destruct k as [|k]; [lia|]. rewrite Nat.sub_succ, Nat.sub_0_r in *. unfold in_width in *.
      rewrite Nat2Z.inj_succ, Z.pow_succ_r by lia. destruct b; simpl; lia.
    + cbn [first_code]. lia.
    + rewrite Nat.sub_succ, Nat.sub_0_r. done.
Qed.

Lemma decode_stream_sound bs :
  match decode_stream h bs with
  | DSym sym rest =>
      ∃ i l : nat, sym = Z.of_nat i ∧ lens !! i = Some (Z.of_nat l) ∧ (1 ≤ l ≤ 15)%nat ∧
        bs = msb_bits l (code_of lens i l) ++ rest
  | DNone rest => 0 < left_codes lens 15 ∧ length bs = (15 + length rest)%nat
  | DMore => (length bs < 15)%nat
  | DFault => False
  end.
Proof.
  assert (first_code lens 1 = 0) as E1 by done. assert (index_base lens 1 = 0) as E2 by done.
  pose proof (decode_bits_sound 15 1 0 [] bs ltac:(lia) ltac:(lia) ltac:(done) ltac:(by rewrite E1)
                eq_refl) as H.
  rewrite E1, E2 in H. exact H.
Qed.

End decode_code.

(** ** What the tables promise *)

Lemma decode_no_fault W h lens s :
  table_for h lens → in_wf W s →
  match decode W h s with
  | Ret v s' => 0 ≤ v ∨ v = -10 ∧ 0 < left_codes lens 15
  | Jmp _ => (length (stream s) < 15)%nat
  | Fault => False
  end.
Proof.
  intros Ht Hwf. pose proof (decode_spec W h s Hwf) as H.
  pose proof (decode_stream_sound h lens Ht (stream s)) as Hs.
  destruct (decode_stream h (stream s)), (decode W h s); simpl in H; try done.
  - destruct H as [-> _], Hs as (i & _ & -> & _). left. lia.
  - destruct H as [-> _], Hs as [Hl _]. right. done.
Qed.

(** The hypotheses under which [construct] is called. *)
Record construct_pre (h : huffman) (lengths : list Z) (n : nat) : Prop := ConstructPre {
  cp_n : (n ≤ length lengths)%nat;
  cp_ok : lengths_ok (take n lengths);
  cp_count : length (h_count h) = 16%nat;
  cp_symbol : (n ≤ length (h_symbol h))%nat }.

(** The code of three symbols with lengths 1, 2, 2. *)
Definition abc_lengths : list Z := [1; 2; 2].
Definition abc_memory : huffman := Huffman (replicate 16 0) (replicate 3 0).

Lemma abc_pre : construct_pre abc_memory abc_lengths 3.
Proof.
  split; [simpl; lia| |done|simpl; lia]. apply Forall_forall.
  intros x Hx. apply list_elem_of_In in Hx. simpl in Hx. lia.
Qed.

Definition abc_table : huffman :=
  Huffman [0; 1; 2; 0; 0; 0; 0; 0; 0; 0; 0; 0; 0; 0; 0; 0] [0; 1; 2].

Lemma abc_construct : construct abc_memory abc_lengths 3 = Some (0, abc_table).
Proof. by vm_compute. Qed.

Definition abc_state (b : Z) : state := State None 0 0 [b; 0] 2 0 0 0.

Lemma abc_state_wf b : in_width 8 b → in_wf 32 (abc_state b).
Proof.
  intros Hb. split; [|simpl; lia|done]. split; [|done|done|simpl; lia].
  constructor; [done|]. constructor; [done|constructor].
Qed.

(** [construct] classifies the code lengths as documented: it returns a
    negative value exactly for an over-subscribed set, zero exactly for a
    complete one or one without any code, and a positive value exactly for an
    incomplete one. *)
Theorem construct_classifies (h : huffman) (lengths : list Z) (n : nat) :
  construct_pre h lengths n →
  ∃ err h', construct h lengths (Z.of_nat n) = Some (err, h') ∧
    let code := take n lengths in
    (err < 0 ↔ ¬ not_over code) ∧
    (err = 0 ↔ not_over code ∧ (left_codes code 15 = 0 ∨ cnt code 0 = Z.of_nat n)) ∧
    (0 < err ↔ not_over code ∧ 0 < left_codes code 15 ∧ cnt code 0 ≠ Z.of_nat n).
Proof.
  intros [Hn Hok Hc Hs]. pose proof (construct_spec h lengths n Hn Hok Hc Hs) as H.
  destruct (construct h lengths (Z.of_nat n)) as [[err h']|]; [|done].
  destruct H as (_ & _ & _ & H). exists err, h'. split; [done|]. cbv zeta.
  destruct H as [[? ?]|(He & Hno & _ & [[E Hne]|[E Hz]])]; rewrite ?E in *;
    (split_and!; (split; [|intros; first [tauto|lia]])); try tauto; try lia; try (intros; exfalso; lia).
  all: intros; split_and!; try done; try lia; tauto.
Qed.

Lemma construct_classifies_witness :
  ∃ err h', construct abc_memory abc_lengths 3 = Some (err, h') ∧
    (err < 0 ↔ ¬ not_over (take 3 abc_lengths)).
Proof.
  destruct (construct_classifies abc_memory abc_lengths 3 abc_pre) as (err & h' & E & H & _).
  exists err, h'. split; [exact E|exact H].
Defined.

(** Decoding inverts the canonical code: with the table that [construct]
    makes from a set of lengths that is not over-subscribed, [decode] started
    on the code that RFC 1951 gives to a symbol returns that symbol and
    consumes exactly its bits, whatever follows. *)
Theorem decode_inverts_code (W : Z) (h h' : huffman) (lengths : list Z) (n : nat) (err : Z)
    (s : state) (i l : nat) (rest : list bool) :
  construct_pre h lengths n → construct h lengths (Z.of_nat n) = Some (err, h') → 0 ≤ err →
  in_wf W s → take n lengths !! i = Some (Z.of_nat l) → (1 ≤ l)%nat →
  stream s = msb_bits l (code_of (take n lengths) i l) ++ rest →
  ∃ s', decode W h' s = Ret (Z.of_nat i) s' ∧ stream s' = rest ∧ same_rest s s'.
Proof.
  intros [Hn Hok Hc Hsy] E He Hwf Hi Hl Hs.
  pose proof (construct_spec h lengths n Hn Hok Hc Hsy) as H. rewrite E in H.
  destruct H as (_ & _ & _ & [[? _]|(_ & Hno & Ht & _)]); [lia|].
  assert (l ≤ 15)%nat as Hl15.
  { pose proof (Forall_lookup_1 _ _ _ _ Hok Hi) as Hr. simpl in Hr. lia. }
  pose proof (decode_spec W h' s Hwf) as Hd.
  rewrite Hs, (decode_stream_code h' _ Ht i l rest Hi ltac:(lia) Hno) in Hd.
  destruct (decode W h' s) as [v s'|s'|]; simpl in Hd; try done.
  destruct Hd as (-> & Hst & bs & _ & []). by exists s'.
Qed.

Lemma decode_inverts_code_witness :
  ∃ s', decode 32 abc_table (abc_state 3) = Ret 2 s' ∧
    stream s' = replicate 14 false ∧ same_rest (abc_state 3) s'.
Proof.
  apply (decode_inverts_code 32 abc_memory abc_table abc_lengths 3 0 (abc_state 3) 2 2);
    [exact abc_pre|vm_compute; reflexivity|lia|apply abc_state_wf; unfold in_width; lia|
     reflexivity|lia|vm_compute; reflexivity].
Defined.

(** "If the return value is zero, it is not possible for decode() using
    that table to return an error": when [construct] returns zero for lengths
    that are not all zero, [decode] with its table returns a symbol of the
    code on every input, or runs out of input with less than fifteen bits
    left. *)
Theorem complete_code_always_decodes (W : Z) (h h' : huffman) (lengths : list Z) (n : nat)
    (s : state) :
  construct_pre h lengths n → construct h lengths (Z.of_nat n) = Some (0, h') →
  cnt (take n lengths) 0 ≠ Z.of_nat n → in_wf W s →
  match decode W h' s with
  | Ret v s' => 0 ≤ v
  | Jmp _ => (length (stream s) < 15)%nat
  | Fault => False
  end.
Proof.
  intros [Hn Hok Hc Hsy] E Hz Hwf.
  pose proof (construct_spec h lengths n Hn Hok Hc Hsy) as H. rewrite E in H.
  destruct H as (_ & _ & _ & [[? _]|(_ & Hno & Ht & [[E0 _]|[_ ?]])]); [lia| |done].
  pose proof (decode_no_fault W h' _ s Ht Hwf) as Hd. rewrite <-E0 in Hd.
  destruct (decode W h' s); [lia|done..].
Qed.

Lemma complete_code_always_decodes_witness :
  match decode 32 abc_table (abc_state 3) with
  | Ret v s' => 0 ≤ v
  | Jmp _ => (length (stream (abc_state 3)) < 15)%nat
  | Fault => False
  end.
Proof.
  apply (complete_code_always_decodes 32 abc_memory abc_table abc_lengths 3);
    [exact abc_pre|vm_compute; reflexivity|vm_compute; discriminate|
     apply abc_state_wf; unfold in_width; lia].
Defined.

(** The exception to it: for lengths that are all zero [construct] also
    returns zero, and [decode] then returns the error -10 on every input of
    at least fifteen bits. *)
Theorem empty_code_never_decodes (W : Z) (h : huffman) (lengths : list Z) (n : nat) (s : state) :
  construct_pre h lengths n → cnt (take n lengths) 0 = Z.of_nat n → in_wf W s →
  (15 ≤ length (stream s))%nat →
  ∃ h' s', construct h lengths (Z.of_nat n) = Some (0, h') ∧ decode W h' s = Ret (-10) s'.
Proof.
  intros [Hn Hok Hc Hsy] Hz Hwf Hlen.
  pose proof (construct_spec h lengths n Hn Hok Hc Hsy) as H.
  destruct (construct h lengths (Z.of_nat n)) as [[err h']|]; [|done].
  assert (∀ l, (1 ≤ l)%nat → cnt (take n lengths) (Z.of_nat l) = 0) as Hc0.
  { intros l Hl. apply (cnt_rest_zero _ 0); [lia|]. rewrite Hz, length_take. lia. }
  assert (not_over (take n lengths)) as Hno.
  { apply not_over_empty. intros [|l]; [done|]. by apply (Hc0 (S l)); lia. }
  destruct H as (_ & _ & _ & [[_ ?]|(_ & _ & Ht & [[_ ?]|[-> _]])]); [done..|].
  pose proof (decode_spec W h' s Hwf) as Hd.
  pose proof (decode_stream_sound h' _ Ht (stream s)) as Hs.
  destruct (decode_stream h' (stream s)).
  - destruct Hs as (i & l & _ & Hi & Hl & _). pose proof (rank_lt _ _ _ Hi) as Hr.
    rewrite Hc0 in Hr by lia. pose proof (cnt_nonneg (take i (take n lengths)) (Z.of_nat l)).
    unfold rank in Hr. lia.
  - destruct (decode W h' s) as [v s'|s'|] eqn:Ed; simpl in Hd; try done.
    destruct Hd as [-> _]. by exists h', s'.
  - lia.
  - done.
Qed.

Lemma empty_code_never_decodes_witness :
  ∃ h' s', construct abc_memory [0; 0; 0] 3 = Some (0, h') ∧ decode 32 h' (abc_state 3) = Ret (-10) s'.
Proof.
  apply (empty_code_never_decodes 32 abc_memory [0; 0; 0] 3 (abc_state 3)).
  - split; [simpl; lia| |reflexivity|simpl; lia].
    repeat (constructor; [lia|]). constructor.
  - vm_compute. reflexivity.
  - apply abc_state_wf. unfold in_width. lia.
  - vm_compute. lia.
Defined.
