(* ===== verification/PuffSpec.v ===== *)
(** [puff] against the format ([Deflate]): it is memory safe and terminates on
    every input, accepts exactly the streams of the format, and decodes them
    to what the format says. *)

From Stdlib Require Import ZArith Lia.
From stdpp Require Import base option numbers list.
From S2P Require Import Prelude Deflate Puff PuffBits PuffTables.

Open Scope Z_scope.

(** What a run of [m] does: no fault, [Q] on return, [E] on a [longjmp]. *)
Definition wp {A} (m : M A) (s : state) (Q : A → state → Prop) (E : state → Prop) : Prop :=
  match m s with Ret a s' => Q a s' | Jmp s' => E s' | Fault => False end.

Lemma wp_bind {A B} (m : M A) (f : A → M B) s R Q E :
  wp m s R E → (∀ a s', R a s' → wp (f a) s' Q E) → wp (m ≫= f) s Q E.
Proof. unfold wp, mbind, M_bind. destruct (m s); naive_solver. Qed.

Lemma wp_mono {A} (m : M A) s (R Q : A → state → Prop) (E F : state → Prop) :
  wp m s R E → (∀ a s', R a s' → Q a s') → (∀ s', E s' → F s') → wp m s Q F.
Proof. unfold wp. destruct (m s); naive_solver. Qed.

Lemma wp_ret {A} (a : A) s (Q : A → state → Prop) E : Q a s → wp (mret a) s Q E.
Proof. done. Qed.

Lemma wp_lift {A} (o : option A) s (Q : A → state → Prop) E :
  succeeds o (λ a, Q a s) → wp (lift o) s Q E.
Proof. by destruct o. Qed.

Lemma wp_eq {A} (m : M A) s (Q : A → state → Prop) E : wp m s Q E → ∀ a s', m s = Ret a s' → Q a s'.
Proof. unfold wp. intros H a s' Hm. by rewrite Hm in H. Qed.

Lemma bind_ret {A B} (m : M A) (f : A → M B) s a s' :
  m s = Ret a s' → (m ≫= f) s = f a s'.
Proof. intros H. unfold mbind, M_bind. by rewrite H. Qed.

Lemma wp_bind_lift {A B} (o : option A) (f : A → M B) s (R : A → Prop) Q E :
  succeeds o R → (∀ a, R a → wp (f a) s Q E) → wp (lift o ≫= f) s Q E.
Proof. destruct o; unfold wp, mbind, M_bind, lift; simpl; naive_solver. Qed.

Lemma wp_bind_get {B} (f : state → M B) s Q E : wp (f s) s Q E → wp (get ≫= f) s Q E.
Proof. done. Qed.

Lemma bind_lift {A B} (a : A) (f : A → M B) s : (lift (Some a) ≫= f) s = f a s.
Proof. done. Qed.

Lemma bind_get {B} (f : state → M B) s : (get ≫= f) s = f s s.
Proof. done. Qed.

(** The errors [puff] can report. *)
Definition bad (v : Z) : Prop := -11 ≤ v ≤ 2 ∧ v ≠ 0.

Section spec.
Context (W : Z) (dest : option (list Z)) (outlen : Z).

(** The output so far is [out]; the rest of the destination is untouched. *)
Record out_ok (s : state) (out : list Z) : Prop := OutOk {
  oo_cnt : s_outcnt s = Z.of_nat (length out);
  oo_len : s_outlen s = outlen;
  oo_bytes : bytes out;
  oo_dest :
    match dest with
    | None => s_out s = None
    | Some buf =>
        s_out s = Some (out ++ drop (length out) buf) ∧
        Z.of_nat (length out) ≤ outlen ≤ Z.of_nat (length buf) ∧ outlen + 65536 < 2 ^ W
    end }.

(** In scan mode the output count must not wrap around: a bit stands for at
    most 258 bytes. *)
Definition room (n : Z) (s : state) : Prop :=
  dest = None → n + 258 * Z.of_nat (length (stream s)) < 2 ^ W.

(** An output of length [n] fits. *)
Definition fits (n : Z) : Prop := dest ≠ None → n ≤ outlen.

Definition weak (s : state) : Prop := ∃ out, out_ok s out.

(** [s'] is [s] after reading [bs], whatever was written. *)
Record takes (s : state) (bs : list bool) (s' : state) : Prop := Takes {
  tk_stream : stream s = bs ++ stream s';
  tk_wf : in_wf W s';
  tk_in : s_in s' = s_in s;
  tk_inlen : s_inlen s' = s_inlen s }.

Lemma takes_refl s : in_wf W s → takes s [] s.
Proof. by split. Qed.

Lemma takes_trans s1 s2 s3 b1 b2 : takes s1 b1 s2 → takes s2 b2 s3 → takes s1 (b1 ++ b2) s3.
Proof. intros [] []. split; try congruence. rewrite <-app_assoc. congruence. Qed.

Lemma reads_takes s bs s' : reads W s bs s' → takes s bs s'.
Proof. intros []. by split. Qed.

Lemma out_ok_same s s' out : same_rest s s' → out_ok s out → out_ok s' out.
Proof. intros (? & ? & Ho & Hl & Hc) []. split; rewrite ?Ho, ?Hl, ?Hc; done. Qed.

Lemma reads_same s bs s' : reads W s bs s' → same_rest s s'.
Proof. intros []. done. Qed.

Lemma weak_same s s' out : same_rest s s' → out_ok s out → weak s'.
Proof. intros. exists out. by eapply out_ok_same. Qed.

Lemma room_reads n m s bs s' :
  takes s bs s' → n + m ≤ n + 258 * Z.of_nat (length bs) → room n s → room (n + m) s'.
Proof.
  intros Ht Hm Hr Hd. specialize (Hr Hd). rewrite (tk_stream _ _ _ Ht), length_app in Hr. lia.
Qed.

(** ** [bits] and [decode] *)

Lemma wp_bits n s out :
  in_wf W s → out_ok s out → 0 ≤ n →
  wp (bits W n) s (λ v s', reads W s (bits_of (Z.to_nat n) v) s' ∧ out_ok s' out ∧ in_width n v)
    weak.
Proof.
  intros Hwf Ho Hn. pose proof (bits_spec W n s Hwf Hn) as H. unfold wp.
  destruct (bits W n s); [|destruct H; by eapply weak_same|done].
  destruct H. split_and!; [done| |done]. eapply out_ok_same; [|done]. by eapply reads_same.
Qed.

(** The case of a single code that a decoder meets when it decodes. *)
Lemma wp_decode h lens s out :
  table_for h lens → in_wf W s → out_ok s out →
  wp (decode W h) s (λ v s',
    (∃ i bs, v = Z.of_nat i ∧ code_bits lens i bs ∧ reads W s bs s' ∧ out_ok s' out) ∨
    (v = -10 ∧ weak s')) weak.
Proof.
  intros Ht Hwf Ho. pose proof (decode_spec W h s Hwf) as H.
  pose proof (decode_stream_sound h lens Ht (stream s)) as Hs. unfold wp.
  destruct (decode_stream h (stream s)), (decode W h s); simpl in H; try done.
  - destruct H as (-> & Hst & bs & Hne & Hr). left.
    destruct Hs as (i & l & -> & Hi & Hl & Hbs). exists i, bs.
    split_and!; [done| |done|eapply out_ok_same; [by eapply reads_same|done]].
    exists l. split_and!; [done|lia|lia|]. rewrite (rd_stream _ _ _ _ Hr), Hst in Hbs.
    by apply app_inv_tail in Hbs.
  - destruct H as (-> & Hsame & _). right. split; [done|]. by eapply weak_same.
  - by eapply weak_same.
Qed.

Lemma bits_run n v s rest :
  in_wf W s → 0 ≤ n → in_width n v → stream s = bits_of (Z.to_nat n) v ++ rest →
  ∃ s', bits W n s = Ret v s' ∧ reads W s (bits_of (Z.to_nat n) v) s'.
Proof.
  intros Hwf Hn Hv Hs. pose proof (bits_spec W n s Hwf Hn) as H.
  destruct (bits W n s) as [v' s'|s'|]; [|destruct H as [Hl _]|done].
  - destruct H as [Hr Hv']. exists s'.
    assert (v' = v) as ->; [|done].
    pose proof (rd_stream _ _ _ _ Hr) as E. rewrite Hs in E.
    apply app_inj_1 in E as [E _]; [|by rewrite !length_bits_of].
    rewrite <-(of_bits_bits_of_small (Z.to_nat n) v'), <-(of_bits_bits_of_small (Z.to_nat n) v);
      rewrite ?Z2Nat.id by done; congruence.
  - rewrite Hs, length_app, length_bits_of in Hl. lia.
Qed.

Lemma decode_run h lens i bs s rest :
  table_for h lens → not_over lens → code_bits lens i bs → in_wf W s → stream s = bs ++ rest →
  ∃ s', decode W h s = Ret (Z.of_nat i) s' ∧ reads W s bs s'.
Proof.
  intros Ht Hno (l & Hi & Hl & ->) Hwf Hs.
  pose proof (decode_spec W h s Hwf) as H.
  rewrite Hs, (decode_stream_code h lens Ht i l rest Hi Hl Hno) in H.
  destruct (decode W h s) as [v s'|s'|]; simpl in H; try done.
  destruct H as (-> & Hst & bs & _ & Hr). exists s'. split; [done|].
  assert (bs = msb_bits l (code_of lens i l)) as <-; [|done].
  pose proof (rd_stream _ _ _ _ Hr) as E. rewrite Hs, Hst in E. by apply app_inv_tail in E.
Qed.

Lemma code_bits_nonempty lens i bs : code_bits lens i bs → (1 ≤ length bs)%nat.
Proof. intros (l & _ & ? & ->). rewrite length_msb_bits. lia. Qed.

(** ** Writing *)

Lemma stream_output o c s : stream (set_output o c s) = stream s.
Proof. done. Qed.

Lemma in_wf_output o c s : in_wf W s → in_wf W (set_output o c s).
Proof. intros [[] ? ?]. by split. Qed.

Lemma takes_output o c s : in_wf W s → takes s [] (set_output o c s).
Proof. intros. split; [done|by apply in_wf_output|done..]. Qed.

Lemma insert_at_end (out buf : list Z) b :
  (length out < length buf)%nat →
  <[length out := b]> (out ++ drop (length out) buf)
  = (out ++ [b]) ++ drop (length (out ++ [b])) buf.
Proof.
  intros Hl. destruct (lookup_lt_is_Some_2 buf (length out) Hl) as [x Hx].
  rewrite (drop_S _ _ _ Hx), insert_app_r_alt, Nat.sub_diag by lia. simpl.
  rewrite <-app_assoc, length_app. simpl. do 3 f_equal. lia.
Qed.

(** Writing one byte to a destination with space. *)
Lemma write_out_run b s out buf :
  out_ok s out → dest = Some buf → Z.of_nat (length out) < outlen → in_width 8 b →
  ∃ s', write_out W b s = Ret tt s' ∧ out_ok s' (out ++ [b]) ∧
        s' = set_output (s_out s') (s_outcnt s') s.
Proof.
  intros [Hc Hl Hb Hd] Hbuf Hlt Hw. rewrite Hbuf in Hd. destruct Hd as (Ho & Hle & Hr).
  unfold write_out. rewrite bind_get, Ho. cbv [lift mbind M_bind put].
  rewrite Hc, aset_in by (rewrite length_app, length_drop; lia).
  rewrite Nat2Z.id, insert_at_end by lia. rewrite wrap_small by (unfold in_width; lia).
  eexists. split; [done|]. split; [|done]. split; cbn [s_outcnt s_outlen s_out set_output].
  - rewrite length_app. simpl. lia.
  - done.
  - by apply bytes_snoc.
  - rewrite Hbuf. split_and!; [done|rewrite length_app; simpl; lia|lia|done].
Qed.

Lemma copy_match_run dist : ∀ len s out buf,
  out_ok s out → dest = Some buf → Z.of_nat (length out + len) ≤ outlen →
  1 ≤ dist ≤ Z.of_nat (length out) →
  ∃ s', copy_match W len dist s = Ret tt s' ∧ out_ok s' (copy_run len (Z.to_nat dist) out) ∧
        s' = set_output (s_out s') (s_outcnt s') s.
Proof.
  induction len as [|len IH]; intros s out buf Ho Hbuf Hle Hd; cbn [copy_match copy_run].
  { exists s. split_and!; [done..|]. by destruct s. }
  rewrite bind_get. pose proof Ho as [Hc Hl Hb Hdst]. rewrite Hbuf in Hdst.
  destruct Hdst as (Hout & Hlen & Hr). rewrite Hout.
  set (b := nth (length out - Z.to_nat dist) out 0).
  assert (aget (out ++ drop (length out) buf) (wrap W (s_outcnt s - dist)) = Some b) as Hb0.
  { rewrite wrap_small by (unfold in_width; lia). rewrite Hc.
    replace (Z.of_nat (length out) - dist) with (Z.of_nat (length out - Z.to_nat dist)) by lia.
    rewrite aget_lookup, lookup_app_l by lia. unfold b.
    rewrite nth_lookup. destruct (lookup_lt_is_Some_2 out (length out - Z.to_nat dist)) as [x ->];
      [lia|done]. }
  rewrite (bind_ret _ _ _ b s) by (unfold lift; by rewrite Hb0).
  destruct (write_out_run b s out buf Ho Hbuf) as (s1 & Hw & Ho1 & Hs1);
    [lia|by apply bytes_nth|].
  rewrite (bind_ret _ _ _ tt s1) by done.
  destruct (IH s1 (out ++ [b]) buf Ho1 Hbuf) as (s2 & Hw2 & Ho2 & Hs2).
  { rewrite length_app. simpl. lia. }
  { rewrite length_app. simpl. lia. }
  exists s2. split_and!; [done..|]. rewrite Hs2, Hs1. done.
Qed.

(** The invariant of the decoding loops. *)
Record ok (s : state) (out : list Z) : Prop := Ok {
  ok_wf : in_wf W s;
  ok_out : out_ok s out;
  ok_room : room (Z.of_nat (length out)) s }.

Lemma put_literal_run b s out :
  in_wf W s → out_ok s out → room (Z.of_nat (length out) + 1) s → 0 ≤ b < 256 →
  (fits (Z.of_nat (length out) + 1) →
   ∃ s', put_literal W b s = Ret None s' ∧ takes s [] s' ∧ ok s' (out ++ [b])) ∧
  (¬ fits (Z.of_nat (length out) + 1) → put_literal W b s = Ret (Some 1) s).
Proof.
  intros Hwf Ho Hr Hb. unfold put_literal. rewrite bind_get.
  pose proof Ho as [Hc Hl Hby Hd]. rewrite wrap_small by done.
  destruct dest as [buf|] eqn:Ed.
  - destruct Hd as (-> & Hle & Hrm). rewrite Hc, Hl.
    destruct (Z.eqb_spec (Z.of_nat (length out)) outlen) as [E|E].
    { split; [|done]. intros Hf. exfalso. unfold fits in Hf. specialize (Hf ltac:(by rewrite Ed)). lia. }
    split; [|intros Hf; exfalso; apply Hf; intros _; lia]. intros _.
    destruct (write_out_run b s out buf Ho Ed) as (s1 & Hw & Ho1 & Hs1); [lia|done|].
    rewrite (bind_ret _ _ _ tt s1) by done. exists s1. split; [done|].
    rewrite Hs1. split; [by apply takes_output|]. rewrite <-Hs1.
    split; [rewrite Hs1; by apply in_wf_output|done|]. intros Hn. congruence.
  - rewrite Hd. split; [|intros Hf; exfalso; apply Hf; intros H; congruence]. intros _.
    specialize (Hr Ed). rewrite Hc, wrap_small by (unfold in_width; lia).
    eexists. split; [done|]. split; [by apply takes_output|].
    split; [by apply in_wf_output| |].
    + split; cbn [s_outcnt s_outlen s_out set_output]; [rewrite length_app; simpl; lia|done| |by rewrite Ed].
      by apply bytes_snoc.
    + intros _. rewrite stream_output, length_app. simpl. lia.
Qed.

Lemma emit_match_run len dist s out :
  in_wf W s → out_ok s out → room (Z.of_nat (length out) + len) s →
  3 ≤ len ≤ 258 → 1 ≤ dist →
  match apply_item out (Copy len dist) with
  | None => emit_match W len dist s = Ret (Some (-11)) s
  | Some out' =>
      (fits (Z.of_nat (length out')) →
       ∃ s', emit_match W len dist s = Ret None s' ∧ takes s [] s' ∧ ok s' out') ∧
      (¬ fits (Z.of_nat (length out')) → emit_match W len dist s = Ret (Some 1) s)
  end.
Proof.
  intros Hwf Ho Hr Hlen Hdist. unfold emit_match. rewrite bind_get. cbn [apply_item].
  pose proof Ho as [Hc Hl Hby Hd]. rewrite Hc.
  destruct (Z.leb_spec dist (Z.of_nat (length out))) as [Hle|Hgt].
  2:{ destruct (Z.ltb_spec (Z.of_nat (length out)) dist); [done|lia]. }
  destruct (Z.ltb_spec (Z.of_nat (length out)) dist); [lia|].
  rewrite length_copy_run. destruct dest as [buf|] eqn:Ed.
  - destruct Hd as (-> & Hlo & Hrm). rewrite Hl, wrap_small by (unfold in_width; lia).
    destruct (Z.ltb_spec outlen (Z.of_nat (length out) + len)).
    { split; [|done]. intros Hf. specialize (Hf ltac:(congruence)). lia. }
    split; [|intros Hf; exfalso; apply Hf; intros _; lia]. intros _.
    destruct (copy_match_run dist (Z.to_nat len) s out buf Ho Ed) as (s1 & Hw & Ho1 & Hs1); [lia..|].
    rewrite (bind_ret _ _ _ tt s1) by done. exists s1. split; [done|].
    rewrite Hs1. split; [by apply takes_output|]. rewrite <-Hs1.
    split; [rewrite Hs1; by apply in_wf_output|done|]. intros Hn. congruence.
  - rewrite Hd. split; [|intros Hf; exfalso; apply Hf; intros H'; congruence]. intros _.
    specialize (Hr Ed). rewrite wrap_small by (unfold in_width; lia).
    eexists. split; [done|]. split; [by apply takes_output|].
    split; [by apply in_wf_output| |].
    + split; cbn [s_outcnt s_outlen s_out set_output]; [rewrite length_copy_run; lia|done| |by rewrite Ed].
      by apply copy_run_bytes.
    + intros _. rewrite stream_output, length_copy_run. lia.
Qed.

Lemma len_entry (i : nat) :
  (i < 29)%nat → ∃ b x, len_base !! i = Some b ∧ len_extra !! i = Some x ∧ 0 ≤ x ∧
    lens.[Z.of_nat i] = Some b ∧ lext.[Z.of_nat i] = Some x.
Proof.
  intros Hi. destruct (lookup_lt_is_Some_2 len_base i Hi) as [b Hb].
  destruct (lookup_lt_is_Some_2 len_extra i Hi) as [x Hx].
  exists b, x. rewrite !aget_lookup. split_and!; try done.
  assert (Forall (λ x, 0 ≤ x) len_extra) as HF by (unfold len_extra; repeat constructor; lia).
  exact (Forall_lookup_1 _ _ _ _ HF Hx).
Qed.

Lemma dist_entry (j : nat) :
  (j < 30)%nat → ∃ b x, dist_base !! j = Some b ∧ dist_extra !! j = Some x ∧ 0 ≤ x ∧
    dists.[Z.of_nat j] = Some b ∧ dext.[Z.of_nat j] = Some x.
Proof.
  intros Hi. destruct (lookup_lt_is_Some_2 dist_base j Hi) as [b Hb].
  destruct (lookup_lt_is_Some_2 dist_extra j Hi) as [x Hx].
  exists b, x. rewrite !aget_lookup. split_and!; try done.
  assert (Forall (λ x, 0 ≤ x) dist_extra) as HF by (unfold dist_extra; repeat constructor; lia).
  exact (Forall_lookup_1 _ _ _ _ HF Hx).
Qed.

(** ** The loop of [codes] *)

Section codes.
Context (lencode distcode : huffman) (L D : list Z).
Context (HL : table_for lencode L) (HD : table_for distcode D).
Context (HLlen : (length L ≤ 288)%nat) (HDlen : (length D ≤ 30)%nat).

Lemma code_bits_lt lens i bs : code_bits lens i bs → (i < length lens)%nat.
Proof. intros (l & Hi & _). exact (lookup_lt_Some _ _ _ Hi). Qed.

Lemma wp_put_match (i : nat) bl s s0 out :
  code_bits L (257 + i) bl → takes s0 bl s → ok s0 out → out_ok s out →
  wp (put_match W distcode (Z.of_nat (257 + i))) s (λ r s',
    match r with
    | None => ∃ it bs out', enc_item L D it bs ∧ apply_item out it = Some out' ∧
                takes s0 bs s' ∧ ok s' out'
    | Some v => bad v ∧ weak s'
    end) weak.
Proof.
  intros Hbl Ht0 Hok0 Ho. unfold put_match. cbv zeta.
  replace (Z.of_nat (257 + i) - 257) with (Z.of_nat i) by lia.
  destruct (Z.leb_spec 29 (Z.of_nat i)) as [Hbig|Hsmall].
  { apply wp_ret. split; [unfold bad; lia|by exists out]. }
  destruct (len_entry i ltac:(lia)) as (b & x & Hb & Hx & Hx0 & -> & ->).
  apply (wp_bind_lift _ _ _ (eq b)); [done|]. intros _ <-.
  apply (wp_bind_lift _ _ _ (eq x)); [done|]. intros _ <-.
  eapply wp_bind; [apply wp_bits; [apply (tk_wf _ _ _ Ht0)|done|done]|].
  intros e s1 (Hr1 & Ho1 & He). cbn beta.
  eapply wp_bind; [apply (wp_decode _ D); [done|apply (rd_wf _ _ _ _ Hr1)|done]|].
  intros sym s2 [(j & bd & -> & Hbd & Hr2 & Ho2)|[-> Hw]]; cbn beta.
  2:{ apply wp_ret. done. }
  destruct (Z.ltb_spec (Z.of_nat j) 0); [lia|].
  pose proof (code_bits_lt _ _ _ Hbd) as Hj.
  destruct (dist_entry j ltac:(lia)) as (b2 & x2 & Hb2 & Hx2 & Hx20 & -> & ->).
  apply (wp_bind_lift _ _ _ (eq b2)); [done|]. intros _ <-.
  apply (wp_bind_lift _ _ _ (eq x2)); [done|]. intros _ <-.
  eapply wp_bind; [apply wp_bits; [apply (rd_wf _ _ _ _ Hr2)|done|done]|].
  intros e2 s3 (Hr3 & Ho3 & He2). cbn beta.
  assert (extra_of len_base len_extra i (b + e) x e) as Hlen by by exists b.
  assert (extra_of dist_base dist_extra j (b2 + e2) x2 e2) as Hdist by by exists b2.
  pose proof (extra_of_len _ _ _ _ Hlen) as (_ & Hlr & _).
  pose proof (extra_of_dist _ _ _ _ Hdist) as (_ & Hdr & _).
  pose proof (takes_trans _ _ _ _ _ (reads_takes _ _ _ Hr2) (reads_takes _ _ _ Hr3)) as Ht.
  pose proof (takes_trans _ _ _ _ _ (reads_takes _ _ _ Hr1) Ht) as Ht'.
  pose proof (takes_trans _ _ _ _ _ Ht0 Ht') as Ht3. clear Ht Ht'.
  pose proof (enc_copy L D i j _ _ _ _ _ _ _ _ Hbl Hlen Hbd Hdist) as Henc.
  pose proof (code_bits_nonempty _ _ _ Hbl) as Hne.
  assert (room (Z.of_nat (length out) + (b + e)) s3) as Hrm.
  { eapply room_reads; [exact Ht3| |apply Hok0]. rewrite length_app. lia. }
  pose proof (emit_match_run (b + e) (b2 + e2) s3 out (tk_wf _ _ _ Ht3) Ho3 Hrm Hlr ltac:(lia)) as Hem.
  unfold wp. destruct (apply_item out (Copy (b + e) (b2 + e2))) as [out'|] eqn:Eapp.
  2:{ rewrite Hem. split; [unfold bad; lia|by exists out]. }
  destruct (decide (dest ≠ None → Z.of_nat (length out') ≤ outlen)) as [Hf|Hf].
  - destruct Hem as [Hem _]. destruct (Hem Hf) as (s4 & -> & Ht4 & Hok4).
    eexists _, _, out'. split_and!; [exact Henc|done| |done].
    rewrite <-(app_nil_r (bl ++ _)). by eapply takes_trans.
  - destruct Hem as [_ Hem]. rewrite (Hem Hf). split; [unfold bad; lia|by exists out].
Qed.

Lemma wp_codes fuel : ∀ s out,
  ok s out → (length (stream s) < fuel)%nat →
  wp (codes W fuel lencode distcode) s (λ v s',
    (v = 0 ∧ ∃ its bs out', enc_items L D its bs ∧ apply_items out its = Some out' ∧
       takes s bs s' ∧ ok s' out') ∨
    (bad v ∧ weak s')) weak.
Proof.
  induction fuel as [|fuel IH]; intros s out Hok Hf; [lia|]. cbn [codes].
  eapply wp_bind; [apply (wp_decode _ L); [done|apply Hok..]|].
  intros sym s1 [(i & bs & -> & Hbs & Hr & Ho)|[-> Hw]]; cbn beta.
  2:{ right. split; [unfold bad; lia|done]. }
  destruct (Z.ltb_spec (Z.of_nat i) 0); [lia|].
  pose proof (reads_takes _ _ _ Hr) as Ht. pose proof (code_bits_nonempty _ _ _ Hbs) as Hne.
  assert (∀ it bs1 out1 s2, enc_item L D it bs1 → apply_item out it = Some out1 →
    takes s bs1 s2 → (1 ≤ length bs1)%nat → ok s2 out1 →
    wp (codes W fuel lencode distcode) s2 (λ v s',
      (v = 0 ∧ ∃ its bs out', enc_items L D its bs ∧ apply_items out its = Some out' ∧
         takes s bs s' ∧ ok s' out') ∨ (bad v ∧ weak s')) weak) as Hnext.
  { intros it bs1 out1 s2 Hit Hap Ht2 Hn2 Hok2.
    eapply wp_mono; [apply (IH s2 out1 Hok2)|..|done].
    - rewrite (tk_stream _ _ _ Ht2), length_app in Hf. lia.
    - intros v s3 [(-> & its & bs3 & out3 & Hits & Hap3 & Ht3 & Hok3)|]; [left|by right].
      split; [done|]. exists (it :: its), (bs1 ++ bs3), out3.
      split_and!; [by constructor| |by eapply takes_trans|done].
      cbn [apply_items]. rewrite Hap. done. }
  destruct (Z.ltb_spec (Z.of_nat i) 256) as [Hlit|Hnlit].
  - destruct (put_literal_run (Z.of_nat i) s1 out) as [Hy Hn].
    { apply (tk_wf _ _ _ Ht). } { done. }
    { eapply room_reads; [done| |apply Hok]. lia. } { lia. }
    destruct (decide (dest ≠ None → Z.of_nat (length out) + 1 ≤ outlen)) as [Hfit|Hfit].
    + destruct (Hy Hfit) as (s2 & Hput & Ht2 & Hok2).
      unfold wp. rewrite (bind_ret _ _ _ None s2) by done.
      apply (Hnext (Lit (Z.of_nat i)) bs (out ++ [Z.of_nat i])); try done.
      { apply enc_lit; [lia|done]. }
      rewrite <-(app_nil_r bs). by eapply takes_trans.
    + unfold wp. rewrite (bind_ret _ _ _ (Some 1) s1) by by apply Hn. right.
      split; [unfold bad; lia|by exists out].
  - destruct (Z.ltb_spec 256 (Z.of_nat i)).
    + replace i with (257 + (i - 257))%nat in Hbs |- * by lia.
      eapply wp_bind; [by eapply wp_put_match|]. cbn beta. intros [v|] s2.
      * intros [Hb Hw]. right. done.
      * intros (it & bs1 & out1 & Hit & Hap & Ht1 & Hok1). apply (Hnext it bs1 out1); try done.
        destruct Hit as [b bs' Hb Hc|? ? ? ? ? ? ? ? bl ? Hc _ _ _];
          [by eapply code_bits_nonempty|].
        pose proof (code_bits_nonempty _ _ _ Hc). rewrite length_app. lia.
    + assert (i = 256%nat) as -> by lia. apply wp_ret. left. split; [done|].
      exists [], bs, out. split_and!; [by constructor|done..|].
      split; [apply Ht|done|]. rewrite <-(Z.add_0_r (Z.of_nat (length out))).
      eapply room_reads; [done|lia|apply Hok].
Qed.

(** ** Every run of the format is accepted *)

Context (HLno : not_over L) (HDno : not_over D).

Lemma put_match_run (i j : nat) len dist lx le dx de bd s s0 bl out rest :
  extra_of len_base len_extra i len lx le → code_bits D j bd →
  extra_of dist_base dist_extra j dist dx de →
  stream s = bits_of (Z.to_nat lx) le ++ bd ++ bits_of (Z.to_nat dx) de ++ rest →
  takes s0 bl s → (1 ≤ length bl)%nat → ok s0 out → out_ok s out →
  ∃ s', reads W s (bits_of (Z.to_nat lx) le ++ bd ++ bits_of (Z.to_nat dx) de) s' ∧
    room (Z.of_nat (length out) + len) s' ∧ out_ok s' out ∧
    put_match W distcode (Z.of_nat (257 + i)) s = emit_match W len dist s'.
Proof.
  intros Hlen Hbd Hdist Hs Ht Hne Hok Ho. unfold put_match. cbv zeta.
  replace (Z.of_nat (257 + i) - 257) with (Z.of_nat i) by lia.
  pose proof (extra_of_len _ _ _ _ Hlen) as (Hi & Hlr & Hlx).
  pose proof (extra_of_dist _ _ _ _ Hdist) as (Hj & Hdr & Hdx).
  destruct (Z.leb_spec 29 (Z.of_nat i)); [lia|].
  destruct Hlen as (b & Hb & Hx & He & ->), Hdist as (b2 & Hb2 & Hx2 & He2 & ->).
  destruct (len_entry i Hi) as (b' & x' & Hb' & Hx' & _ & -> & ->). simplify_eq.
  destruct (dist_entry j Hj) as (b' & x' & Hb' & Hx' & _ & Ed & Ex). simplify_eq.
  rewrite !bind_lift.
  destruct (bits_run lx le s _ (tk_wf _ _ _ Ht) ltac:(lia) He Hs) as (s1 & Hb1 & R1).
  rewrite (bind_ret _ _ _ le s1) by done.
  pose proof (rd_stream _ _ _ _ R1) as E1. rewrite Hs in E1. apply app_inv_head in E1.
  destruct (decode_run distcode D j bd s1 _ HD HDno Hbd (rd_wf _ _ _ _ R1) (eq_sym E1)) as (s2 & Hd2 & R2).
  rewrite (bind_ret _ _ _ (Z.of_nat j) s2) by done.
  destruct (Z.ltb_spec (Z.of_nat j) 0); [lia|]. rewrite Ed, Ex, !bind_lift.
  pose proof (rd_stream _ _ _ _ R2) as E2. rewrite <-E1 in E2. apply app_inv_head in E2.
  destruct (bits_run dx de s2 _ (rd_wf _ _ _ _ R2) ltac:(lia) He2 (eq_sym E2)) as (s3 & Hb3 & R3).
  rewrite (bind_ret _ _ _ de s3) by done.
  pose proof (reads_trans _ _ _ _ _ _ R1 (reads_trans _ _ _ _ _ _ R2 R3)) as R.
  exists s3. split_and!; [done| |eapply out_ok_same; [by eapply reads_same|done]|done].
  eapply room_reads; [eapply takes_trans; [done|by apply reads_takes]| |apply Hok].
  rewrite length_app. lia.
Qed.

(** One item of the format, whatever comes next. *)
Lemma item_run it bs fuel s out out1 rest :
  enc_item L D it bs → ok s out → stream s = bs ++ rest → apply_item out it = Some out1 →
  (fits (Z.of_nat (length out1)) →
   ∃ s', codes W (S fuel) lencode distcode s = codes W fuel lencode distcode s' ∧
         takes s bs s' ∧ ok s' out1) ∧
  (¬ fits (Z.of_nat (length out1)) →
   ∃ s', codes W (S fuel) lencode distcode s = Ret 1 s' ∧ weak s').
Proof.
  intros Hit Hok Hs Hap. cbn [codes].
  destruct Hit as [b bs Hb Hbs|i j len dist lx le dx de bl bd Hbl Hlen Hbd Hdist].
  - destruct (decode_run lencode L b bs s rest HL HLno Hbs (ok_wf _ _ Hok) Hs) as (s1 & Hd & R).
    rewrite (bind_ret _ _ _ (Z.of_nat b) s1) by done.
    destruct (Z.ltb_spec (Z.of_nat b) 0); [lia|]. destruct (Z.ltb_spec (Z.of_nat b) 256); [|lia].
    pose proof (reads_takes _ _ _ R) as Ht. cbn in Hap. injection Hap as <-.
    pose proof (code_bits_nonempty _ _ _ Hbs).
    assert (out_ok s1 out) as Ho1 by (eapply out_ok_same; [by eapply reads_same|apply Hok]).
    destruct (put_literal_run (Z.of_nat b) s1 out) as [Hy Hn];
      [apply Ht|done|eapply room_reads; [done|lia|apply Hok]|lia|].
    rewrite length_app. replace (Z.of_nat (length out + length [Z.of_nat b]))
      with (Z.of_nat (length out) + 1) by (simpl; lia). split; intros Hf.
    + destruct (Hy Hf) as (s2 & Hp & Ht2 & Hok2). exists s2.
      rewrite (bind_ret _ _ _ None s2) by done. split_and!; [done| |done].
      rewrite <-(app_nil_r bs). by eapply takes_trans.
    + exists s1. rewrite (bind_ret _ _ _ (Some 1) s1) by by apply Hn. split; [done|by exists out].
  - rewrite <-!app_assoc in Hs.
    destruct (decode_run lencode L (257 + i) bl s _ HL HLno Hbl (ok_wf _ _ Hok) Hs) as (s1 & Hd & R).
    rewrite (bind_ret _ _ _ (Z.of_nat (257 + i)) s1) by done.
    destruct (Z.ltb_spec (Z.of_nat (257 + i)) 0); [lia|].
    destruct (Z.ltb_spec (Z.of_nat (257 + i)) 256); [lia|].
    destruct (Z.ltb_spec 256 (Z.of_nat (257 + i))); [|lia].
    pose proof (reads_takes _ _ _ R) as Ht. pose proof (code_bits_nonempty _ _ _ Hbl) as Hne.
    assert (out_ok s1 out) as Ho1 by (eapply out_ok_same; [by eapply reads_same|apply Hok]).
    pose proof (rd_stream _ _ _ _ R) as E1. rewrite Hs in E1. apply app_inv_head in E1.
    destruct (put_match_run i j len dist lx le dx de bd s1 s bl out rest Hlen Hbd Hdist (eq_sym E1)
                Ht Hne Hok Ho1) as (s2 & R2 & Hrm & Ho2 & Hput).
    pose proof (extra_of_len _ _ _ _ Hlen) as (_ & Hlr & _).
    pose proof (extra_of_dist _ _ _ _ Hdist) as (_ & Hdr & _).
    pose proof (emit_match_run len dist s2 out (rd_wf _ _ _ _ R2) Ho2 Hrm Hlr ltac:(lia)) as Hem.
    rewrite Hap in Hem. destruct Hem as [Hy Hn]. split; intros Hf.
    + destruct (Hy Hf) as (s3 & He & Ht3 & Hok3). exists s3.
      rewrite (bind_ret _ _ _ None s3) by by rewrite Hput. split_and!; [done| |done].
      rewrite <-(app_nil_r (bl ++ _)). eapply takes_trans; [|done].
      eapply takes_trans; [done|]. by apply reads_takes.
    + exists s2. rewrite (bind_ret _ _ _ (Some 1) s2) by (rewrite Hput; by apply Hn).
      split; [done|by exists out].
Qed.

Lemma fits_le m n : m ≤ n → fits n → fits m.
Proof. intros ? Hf Hd. specialize (Hf Hd). lia. Qed.

Lemma codes_run its bs : enc_items L D its bs → ∀ fuel s out out' rest,
  ok s out → stream s = bs ++ rest → apply_items out its = Some out' →
  (length its < fuel)%nat →
  (fits (Z.of_nat (length out')) →
   ∃ s', codes W fuel lencode distcode s = Ret 0 s' ∧ takes s bs s' ∧ ok s' out') ∧
  (¬ fits (Z.of_nat (length out')) →
   ∃ s', codes W fuel lencode distcode s = Ret 1 s' ∧ weak s').
Proof.
  induction 1 as [bs Hend|it its bs bs' Hit Hits IH]; intros fuel s out out' rest Hok Hs Hap Hf;
    (destruct fuel as [|fuel]; [simpl in Hf; lia|]).
  - injection Hap as <-.
    destruct (decode_run lencode L 256 bs s rest HL HLno Hend (ok_wf _ _ Hok) Hs) as (s1 & Hd & R).
    pose proof (reads_takes _ _ _ R) as Ht.
    assert (out_ok s1 out) as Ho1 by (eapply out_ok_same; [by eapply reads_same|apply Hok]).
    split; intros Hfit.
    + exists s1. cbn [codes]. rewrite (bind_ret _ _ _ 256 s1) by done. split_and!; [done..|].
      split; [apply Ht|done|]. rewrite <-(Z.add_0_r (Z.of_nat (length out))).
      eapply room_reads; [done|lia|apply Hok].
    + exfalso. apply Hfit. intros Hd'. destruct Ho1 as [_ _ _ Hdst].
      destruct dest; [lia|done].
  - apply apply_items_cons in Hap as (out1 & Hap1 & Hap).
    rewrite <-app_assoc in Hs.
    destruct (item_run it bs fuel s out out1 _ Hit Hok Hs Hap1) as [Hy Hn].
    pose proof (apply_items_length _ _ _ Hap).
    destruct (decide (dest ≠ None → Z.of_nat (length out1) ≤ outlen)) as [Hfit|Hfit].
    + destruct (Hy Hfit) as (s1 & -> & Ht & Hok1).
      pose proof (tk_stream _ _ _ Ht) as E1. rewrite Hs in E1. apply app_inv_head in E1.
      destruct (IH fuel s1 out1 out' rest Hok1 (eq_sym E1) Hap) as [Hy' Hn']; [simpl in Hf; lia|].
      split; [|done]. intros Hf'. destruct (Hy' Hf') as (s2 & ? & ? & ?). exists s2.
      split_and!; [done|by eapply takes_trans|done].
    + split; [|by auto]. intros Hf'. exfalso. apply Hfit. eapply fits_le; [|done]. lia.
Qed.

End codes.
End spec.
