(* ===== verification/PuffDynamic.v ===== *)
(** Stored blocks and the tables of dynamic blocks of [puff] against the
    format. *)

From Stdlib Require Import ZArith Lia.
From stdpp Require Import base option numbers list.
From S2P Require Import Prelude Deflate Puff PuffBits PuffTables PuffSpec.

Open Scope Z_scope.

(** LEN and its complement, byte by byte as [stored] checks them. *)
Lemma nlen_low len : in_width 16 len → Z.land (Z.lnot len) 255 = (65535 - len) mod 256.
Proof.
  intros Hl. rewrite (Z.land_ones _ 8 ltac:(lia) : Z.land (Z.lnot len) 255 = _).
  unfold Z.lnot. change (2 ^ 8) with 256.
  rewrite <-(Z.mod_add (Z.pred (- len)) 256) by lia. f_equal. lia.
Qed.

Lemma nlen_high len :
  in_width 16 len → Z.land (Z.shiftr (u32 (Z.lnot len)) 8) 255 = (65535 - len) / 256.
Proof.
  intros Hl. rewrite (Z.land_ones _ 8 ltac:(lia) : Z.land _ 255 = _). unfold in_width in Hl.
  rewrite Z.shiftr_div_pow2 by lia. unfold wrap, Z.lnot. change (2 ^ 8) with 256.
  change (2 ^ 32) with 4294967296. change (2 ^ 16) with 65536 in Hl.
  rewrite <-(Z.mod_add (Z.pred (- len)) 1) by lia.
  rewrite (Z.mod_small (_ + 1 * 4294967296)) by lia.
  replace (Z.pred (- len) + 1 * 4294967296) with (65535 - len + 16776960 * 256 ) by lia.
  rewrite Z.div_add by lia.
  replace 16776960 with (65535 * 256) by lia. rewrite Z.mod_add by lia.
  apply Z.mod_small. pose proof (Z.div_mod (65535 - len) 256 ltac:(lia)).
  pose proof (Z.mod_pos_bound (65535 - len) 256 ltac:(lia)). lia.
Qed.

Lemma bits_of_16 v : bits_of 16 v = bits_of 8 (v mod 256) ++ bits_of 8 (v / 256).
Proof.
  rewrite (bits_of_add 8 8). f_equal.
  - symmetry. apply (bits_of_wrap 8 8). lia.
  - by rewrite Z.shiftr_div_pow2 by lia.
Qed.

Lemma bits_of_inj n v w :
  in_width (Z.of_nat n) v → in_width (Z.of_nat n) w → bits_of n v = bits_of n w → v = w.
Proof.
  intros Hv Hw E. rewrite <-(of_bits_bits_of_small n v), <-(of_bits_bits_of_small n w) by done.
  by rewrite E.
Qed.

Lemma bytes_bits_inj a : ∀ b, bytes a → bytes b → bytes_bits a = bytes_bits b → a = b.
Proof.
  induction a as [|x a IH]; intros [|y b] Ha Hb E; try done.
  inversion Ha as [|? ? Hx Ha']. inversion Hb as [|? ? Hy Hb']. subst.
  change (bits_of 8 x ++ bytes_bits a = bits_of 8 y ++ bytes_bits b) in E.
  apply app_inj_1 in E as [E1 E2]; [|done].
  f_equal; [by apply (bits_of_inj 8)|by apply IH].
Qed.

(** Two bytes as the 16 bits of [b0 | (b1 << 8)]. *)
Lemma two_bytes b0 b1 :
  in_width 8 b0 → in_width 8 b1 →
  in_width 16 (Z.lor b0 (Z.shiftl b1 8)) ∧
  bits_of 16 (Z.lor b0 (Z.shiftl b1 8)) = bits_of 8 b0 ++ bits_of 8 b1.
Proof.
  intros H0 H1. split.
  - rewrite lor_shiftl_add by (done || lia). unfold in_width in *. lia.
  - by apply (bits_of_lor 8 8).
Qed.

(** The two checks hold exactly when the bytes are those of the complement. *)
Lemma nlen_check len b2 b3 :
  in_width 16 len → in_width 8 b2 → in_width 8 b3 →
  (b2 = Z.land (Z.lnot len) 255 ∧ b3 = Z.land (Z.shiftr (u32 (Z.lnot len)) 8) 255)
  ↔ bits_of 8 b2 ++ bits_of 8 b3 = bits_of 16 (65535 - len).
Proof.
  intros Hl H2 H3. rewrite nlen_low, nlen_high, bits_of_16 by done. split.
  - by intros [-> ->].
  - intros [E2 E3]%app_inj_1; [|done].
    assert (0 ≤ 65535 - len < 65536) by (unfold in_width in Hl; lia).
    assert (in_width 8 ((65535 - len) mod 256)) by (apply (wrap_range 8); lia).
    assert (in_width 8 ((65535 - len) / 256)).
    { split; [apply Z.div_pos; lia|apply Z.div_lt_upper_bound; lia]. }
    by split; apply (bits_of_inj 8).
Qed.

Section stored.
Context (W : Z) (dest : option (list Z)) (outlen : Z).
Abbreviation out_ok := (out_ok W dest outlen).
Abbreviation ok := (ok W dest outlen).
Abbreviation fits := (fits dest outlen).
Abbreviation weak := (weak W dest outlen).

(** The state once the bit buffer is dropped. *)
Lemma aligned_stream s :
  in_wf W s →
  let s0 := set_bits 0 0 s in
  in_wf W s0 ∧ stream s0 = bytes_bits (drop (Z.to_nat (s_incnt s)) (s_in s)) ∧
  takes W s (bits_of (Z.to_nat (s_bitcnt s)) (s_bitbuf s)) s0.
Proof.
  intros [[] ? ?]. cbv zeta.
  assert (in_wf W (set_bits 0 0 s)) by (repeat split; simpl; (done || lia)).
  split_and!; [done..|]. by split.
Qed.

Lemma next_in_aligned s :
  in_wf W s → s_bitcnt s = 0 → s_incnt s < s_inlen s →
  ∃ b, next_in W s = Ret b (set_incnt (s_incnt s + 1) s) ∧ in_width 8 b ∧
       stream s = bits_of 8 b ++ stream (set_incnt (s_incnt s + 1) s) ∧
       in_wf W (set_incnt (s_incnt s + 1) s).
Proof.
  intros [Hp Hc Hb] H0 Hlt. destruct (next_in_ret W s Hp Hlt) as (b & Hn & Hw & Hd).
  exists b. split_and!; [done|done| |].
  - unfold stream. cbn [s_bitcnt s_bitbuf s_incnt s_in set_incnt]. rewrite H0. cbn [Z.to_nat bits_of app].
    by rewrite Hd.
  - split; [by apply pos_wf_next|done|done].
Qed.

Lemma copy_stored_run n : ∀ s out buf,
  in_wf W s → s_bitcnt s = 0 → out_ok s out → dest = Some buf →
  s_incnt s + Z.of_nat n ≤ s_inlen s → Z.of_nat (length out + n) ≤ outlen →
  ∃ s' data, copy_stored W n s = Ret tt s' ∧ length data = n ∧ bytes data ∧
    takes W s (bytes_bits data) s' ∧ out_ok s' (out ++ data).
Proof.
  induction n as [|n IH]; intros s out buf Hwf H0 Ho Hbuf Hin Hout; cbn [copy_stored].
  { exists s, []. rewrite app_nil_r. split_and!; [done|done|by constructor|by apply takes_refl|done]. }
  destruct (next_in_aligned s Hwf H0) as (b & Hn & Hw & Hs & Hwf1); [lia|].
  set (s1 := set_incnt _ s) in *. rewrite (bind_ret _ _ _ b s1) by done.
  assert (out_ok s1 out) as Ho1 by (destruct Ho; by split).
  destruct (write_out_run W dest outlen b s1 out buf Ho1 Hbuf) as (s2 & Hp & Ho2 & Hs2); [lia|done|].
  rewrite (bind_ret _ _ _ tt s2) by done.
  destruct (IH s2 (out ++ [b]) buf) as (s3 & data & Hc & Hlen & Hd & Ht & Ho3).
  { rewrite Hs2. by apply in_wf_output. } { by rewrite Hs2. } { done. } { done. }
  { rewrite Hs2. cbn. lia. } { rewrite length_app. simpl. lia. }
  exists s3, (b :: data). rewrite <-app_assoc in Ho3. split_and!; [done|simpl; lia|by constructor| |done].
  destruct Ht as [T1 T2 T3 T4]. rewrite Hs2 in T1, T3, T4. split; [|done..].
  rewrite Hs, <-(stream_output (s_out s2) (s_outcnt s2) s1), T1. done.
Qed.

(** What [stored_data] does at a byte boundary. *)
Lemma stored_data_run len s out :
  ok s out → s_bitcnt s = 0 → 0 ≤ len ≤ 65535 →
  if s_inlen s <? s_incnt s + len then stored_data W len s = Ret 2 s
  else
    (fits (Z.of_nat (length out) + len) →
     ∃ s' data, stored_data W len s = Ret 0 s' ∧ Z.of_nat (length data) = len ∧ bytes data ∧
       takes W s (bytes_bits data) s' ∧ ok s' (out ++ data)) ∧
    (¬ fits (Z.of_nat (length out) + len) → stored_data W len s = Ret 1 s).
Proof.
  intros Hok H0 Hlen. pose proof Hok as [Hwf Ho Hr]. unfold stored_data. rewrite bind_get.
  pose proof Hwf as [[Hby Hil Hroom Hic] _ _]. rewrite wrap_small by (unfold in_width; lia).
  destruct (Z.ltb_spec (s_inlen s) (s_incnt s + len)) as [|Hin]; [done|].
  pose proof Ho as [Hc Hl Hob Hd]. destruct dest as [buf|] eqn:Ed.
  - destruct Hd as (Hso & Hle & Hrm). rewrite Hso, Hl, Hc, wrap_small by (unfold in_width; lia).
    destruct (Z.ltb_spec outlen (Z.of_nat (length out) + len)).
    { split; [|done]. intros Hf. specialize (Hf ltac:(congruence)). lia. }
    split; [|intros Hf; exfalso; apply Hf; intros _; lia]. intros _.
    rewrite <-Ed in *.
    destruct (copy_stored_run (Z.to_nat len) s out buf Hwf H0 Ho Ed) as
      (s1 & data & Hcp & Hdl & Hdb & Ht & Ho1); [lia..|].
    rewrite (bind_ret _ _ _ tt s1) by done. exists s1, data. split_and!; [done|lia|done|done|].
    split; [apply Ht|done|]. intros Hn. congruence.
  - rewrite Hd, Hc. split; [|intros Hf; exfalso; apply Hf; intros H'; congruence]. intros _.
    specialize (Hr eq_refl).
    set (data := slice (s_in s) (s_incnt s) len).
    assert (Z.of_nat (length data) = len) as Hdl by (unfold data; rewrite length_slice; lia).
    assert (stream s = bytes_bits data ++ bytes_bits (drop (Z.to_nat (s_incnt s + len)) (s_in s))) as Hst.
    { unfold stream. rewrite H0. cbn [Z.to_nat bits_of app]. rewrite <-bytes_bits_app. f_equal.
      unfold data, slice. rewrite Z2Nat.inj_add, <-drop_drop by lia. by rewrite take_drop. }
    rewrite Hst, length_app, length_bytes_bits in Hr.
    rewrite !wrap_small by (unfold in_width; lia).
    set (s1 := set_incnt _ _).
    assert (stream s1 = bytes_bits (drop (Z.to_nat (s_incnt s + len)) (s_in s))) as Hst1.
    { unfold stream, s1. cbn [s_bitcnt s_bitbuf s_incnt s_in set_incnt set_output]. by rewrite H0. }
    assert (in_wf W s1) as Hwf1 by (destruct Hwf as [[] ? ?]; split; [split; cbn; (done || lia)|done|done]).
    exists s1, data. split_and!; [done|done|by apply slice_bytes|by split; rewrite ?Hst1|].
    assert (bytes data) by by apply slice_bytes.
    split; [done| |].
    + split; cbn; [rewrite length_app; lia|done|by apply Forall_app|done].
    + intros _. rewrite Hst1, length_app. lia.
Qed.

(** Reading the header of a stored block. *)
Lemma stored_header s :
  in_wf W s → s_incnt s + 4 ≤ s_inlen s →
  ∃ b0 b1 b2 b3 s3 s4,
    let len := Z.lor b0 (Z.shiftl b1 8) in
    in_width 8 b0 ∧ in_width 8 b1 ∧ in_width 8 b2 ∧ in_width 8 b3 ∧
    takes W (set_bits 0 0 s) (bytes_bits [b0; b1; b2; b3]) s4 ∧ s_bitcnt s4 = 0 ∧
    same_rest s s3 ∧ same_rest s s4 ∧
    stored W s = if negb (b2 =? Z.land (Z.lnot len) 255) then Ret (-2) s3
                 else if negb (b3 =? Z.land (Z.shiftr (u32 (Z.lnot len)) 8) 255) then Ret (-2) s4
                 else stored_data W len s4.
Proof.
  intros Hwf Hin. destruct (aligned_stream s Hwf) as (Hwf0 & Hs0 & Ht0).
  set (s0 := set_bits 0 0 s) in *.
  destruct (next_in_aligned s0 Hwf0 eq_refl) as (b0 & N0 & B0 & S0 & W0); [cbn; lia|].
  set (s1 := set_incnt _ s0) in *.
  destruct (next_in_aligned s1 W0 eq_refl) as (b1 & N1 & B1 & S1 & W1); [cbn; lia|].
  set (s2 := set_incnt _ s1) in *.
  destruct (next_in_aligned s2 W1 eq_refl) as (b2 & N2 & B2 & S2 & W2); [cbn; lia|].
  set (s3 := set_incnt _ s2) in *.
  destruct (next_in_aligned s3 W2 eq_refl) as (b3 & N3 & B3 & S3 & W3); [cbn; lia|].
  set (s4 := set_incnt _ s3) in *.
  exists b0, b1, b2, b3, s3, s4. cbv zeta. split_and!; try done.
  { split; [|done..]. rewrite S0, S1, S2, S3. done. }
  unfold stored. rewrite bind_get, (bind_ret _ _ _ tt s0), bind_get by done.
  destruct Hwf as [[] ? ?]. rewrite wrap_small by (unfold in_width; cbn; lia).
  destruct (Z.ltb_spec (s_inlen s0) (s_incnt s0 + 4)) as [Hlt|_]; [cbn in Hlt; lia|].
  rewrite (bind_ret _ _ _ b0 s1), (bind_ret _ _ _ b1 s2) by done. cbv zeta.
  rewrite (bind_ret _ _ _ b2 s3) by done.
  destruct (negb _); [done|]. rewrite (bind_ret _ _ _ b3 s4) by done. by destruct (negb _).
Qed.

Lemma stored_short s :
  in_wf W s → s_inlen s < s_incnt s + 4 → stored W s = Ret 2 (set_bits 0 0 s).
Proof.
  intros [[] ? ?] Hin. unfold stored. rewrite bind_get, (bind_ret _ _ _ tt (set_bits 0 0 s)), bind_get by done.
  rewrite wrap_small by (unfold in_width; cbn; lia).
  by destruct (Z.ltb_spec (s_inlen (set_bits 0 0 s)) (s_incnt (set_bits 0 0 s) + 4)) as [_|Hge];
    [|cbn in Hge; lia].
Qed.

Lemma ok_takes s bs s' out : ok s out → takes W s bs s' → same_rest s s' → ok s' out.
Proof.
  intros [Hwf Ho Hr] Ht Hs. split; [apply Ht|by eapply out_ok_same|].
  rewrite <-(Z.add_0_r (Z.of_nat (length out))). eapply room_reads; [done|lia|done].
Qed.

Lemma whole_bytes s : in_wf W s → s_bitcnt s = 0 → (length (stream s) mod 8 = 0)%nat.
Proof.
  intros Hwf H0. unfold stream. rewrite H0, length_app, length_bytes_bits.
  simpl (length (bits_of _ _)). rewrite Nat.add_0_l, Nat.mul_comm. apply Nat.Div0.mod_mul.
Qed.

Lemma takes_bitcnt s data s' :
  in_wf W s → s_bitcnt s = 0 → takes W s (bytes_bits data) s' → s_bitcnt s' = 0.
Proof.
  intros Hwf H0 [Hst Hwf' _ _].
  pose proof (f_equal length Hst) as E. rewrite length_app, length_bytes_bits in E.
  pose proof (stream_length W s Hwf). pose proof (stream_length W s' Hwf').
  destruct Hwf' as [_ ? _]. lia.
Qed.

(** Soundness. *)
Lemma wp_stored s out :
  ok s out →
  wp (stored W) s (λ v s',
    (v = 0 ∧ ∃ bs out', block 0 (bs ++ stream s') (stream s') out out' ∧ takes W s bs s' ∧
       ok s' out') ∨ (bad v ∧ weak s')) weak.
Proof.
  intros Hok. pose proof Hok as [Hwf Ho Hr].
  destruct (decide (s_incnt s + 4 ≤ s_inlen s)) as [Hin|Hin].
  2:{ unfold wp. rewrite stored_short by (done || lia). right. split; [unfold bad; lia|].
      by apply (weak_same W dest outlen s _ out). }
  destruct (stored_header s Hwf Hin) as
    (b0 & b1 & b2 & b3 & s3 & s4 & B0 & B1 & B2 & B3 & Ht & H0 & Hs3 & Hs4 & E).
  unfold wp. rewrite E.
  destruct (two_bytes b0 b1 B0 B1) as [Hlw Hlb]. set (len := Z.lor b0 _) in *.
  destruct (Z.eqb_spec b2 (Z.land (Z.lnot len) 255)) as [E2|]; cbn [negb];
    [|right; split; [unfold bad; lia|by eapply weak_same]].
  destruct (Z.eqb_spec b3 (Z.land (Z.shiftr (u32 (Z.lnot len)) 8) 255)) as [E3|]; cbn [negb];
    [|right; split; [unfold bad; lia|by eapply weak_same]].
  pose proof (proj1 (nlen_check len b2 b3 Hlw B2 B3) (conj E2 E3)) as Hnlen.
  destruct (aligned_stream s Hwf) as (Hwf0 & Hs0 & Ht0).
  pose proof (takes_trans _ _ _ _ _ _ Ht0 Ht) as Ht4.
  pose proof (ok_takes _ _ _ _ Hok Ht4 Hs4) as Hok4.
  assert (0 ≤ len ≤ 65535) as Hlen by (unfold in_width in Hlw; lia).
  pose proof (stored_data_run len s4 out Hok4 H0 Hlen) as Hd.
  destruct (s_inlen s4 <? s_incnt s4 + len).
  { rewrite Hd. right. split; [unfold bad; lia|by eapply weak_same]. }
  destruct (decide (dest ≠ None → Z.of_nat (length out) + len ≤ outlen)) as [Hf|Hf].
  2:{ destruct Hd as [_ Hd]. rewrite (Hd Hf). right. split; [unfold bad; lia|by eapply weak_same]. }
  destruct Hd as [Hd _]. destruct (Hd Hf) as (s5 & data & -> & Hdl & Hdb & Ht5 & Hok5).
  left. split; [done|].
  assert (s_bitcnt s5 = 0) as H5 by (eapply takes_bitcnt; [apply Ht4|done..]).
  exists (bits_of (Z.to_nat (s_bitcnt s)) (s_bitbuf s) ++ stored_bits data), (out ++ data).
  split_and!; [| |done].
  - rewrite <-app_assoc. apply block_stored; [|apply whole_bytes; [apply Ht5|done]|done|lia].
    rewrite length_bits_of. destruct Hwf. lia.
  - assert (stored_bits data = bytes_bits [b0; b1; b2; b3] ++ bytes_bits data) as ->.
    { unfold stored_bits. rewrite Hdl, Hlb, <-Hnlen. cbn -[bits_of bytes_bits].
      unfold bytes_bits at 2. cbn -[bits_of bytes_bits]. by rewrite app_nil_r, <-!app_assoc. }
    rewrite app_assoc. by eapply takes_trans.
Qed.


Lemma length_stored_bits data : length (stored_bits data) = (32 + 8 * length data)%nat.
Proof. unfold stored_bits. rewrite !length_app, !length_bits_of, length_bytes_bits. lia. Qed.

(** The padding of the format is what the bit buffer holds. *)
Lemma stored_align s pad tail :
  in_wf W s → stream s = pad ++ tail → (length pad < 8)%nat → (length tail mod 8 = 0)%nat →
  stream (set_bits 0 0 s) = tail ∧ takes W s pad (set_bits 0 0 s).
Proof.
  intros Hwf Hs Hp Htl. destruct (aligned_stream s Hwf) as (Hwf0 & Hs0 & Ht0).
  pose proof (tk_stream _ _ _ _ Ht0) as E. rewrite Hs in E.
  assert (pad = bits_of (Z.to_nat (s_bitcnt s)) (s_bitbuf s) ∧ tail = stream (set_bits 0 0 s)) as [-> ->];
    [|done].
  apply app_inj_1; [|done]. rewrite length_bits_of.
  pose proof (f_equal length E) as EL. rewrite !length_app, length_bits_of in EL.
  pose proof (whole_bytes _ Hwf0 eq_refl) as Hm. destruct Hwf as [_ ? _].
  apply Nat.Div0.div_exact in Htl, Hm. lia.
Qed.

(** Completeness. *)
Lemma stored_run s out pad data rest :
  ok s out → stream s = pad ++ stored_bits data ++ rest → (length pad < 8)%nat →
  (length rest mod 8 = 0)%nat → bytes data → Z.of_nat (length data) ≤ 65535 →
  (fits (Z.of_nat (length (out ++ data))) →
   ∃ s', stored W s = Ret 0 s' ∧ takes W s (pad ++ stored_bits data) s' ∧ ok s' (out ++ data)) ∧
  (¬ fits (Z.of_nat (length (out ++ data))) → ∃ s', stored W s = Ret 1 s' ∧ weak s').
Proof.
  intros Hok Hs Hp Hr Hdb Hdl. pose proof Hok as [Hwf Ho Hroom].
  destruct (stored_align s pad (stored_bits data ++ rest) Hwf Hs Hp) as [Hs0 Ht0].
  { rewrite length_app, length_stored_bits. apply Nat.Div0.div_exact in Hr. rewrite Hr.
    replace (32 + 8 * length data + 8 * (length rest / 8))%nat
      with ((4 + length data + length rest / 8) * 8)%nat by lia. apply Nat.Div0.mod_mul. }
  pose proof (stream_length W _ (tk_wf _ _ _ _ Ht0)) as Hl0.
  rewrite Hs0, length_app, length_stored_bits in Hl0. cbn [s_bitcnt s_inlen s_incnt set_bits] in Hl0.
  destruct (stored_header s Hwf ltac:(lia)) as
    (b0 & b1 & b2 & b3 & s3 & s4 & B0 & B1 & B2 & B3 & Ht & H0 & Hs3 & Hs4 & E).
  destruct (two_bytes b0 b1 B0 B1) as [Hlw Hlb]. set (len := Z.lor b0 _) in *.
  pose proof (tk_stream _ _ _ _ Ht) as E4. rewrite Hs0 in E4. unfold stored_bits in E4.
  change (bytes_bits [b0; b1; b2; b3])
    with (bits_of 8 b0 ++ bits_of 8 b1 ++ bits_of 8 b2 ++ bits_of 8 b3 ++ []) in E4.
  rewrite app_nil_r, (app_assoc (bits_of 8 b0)), <-Hlb, <-!app_assoc in E4.
  apply app_inj_1 in E4 as [El E4]; [|by rewrite !length_bits_of].
  assert (len = Z.of_nat (length data)) as Hlen.
  { symmetry. apply (bits_of_inj 16); [unfold in_width; lia|done|done]. }
  rewrite (app_assoc (bits_of 8 b2)) in E4.
  apply app_inj_1 in E4 as [En E4]; [|by rewrite length_app, !length_bits_of].
  rewrite <-Hlen in En.
  destruct (proj2 (nlen_check len b2 b3 Hlw B2 B3) (eq_sym En)) as [E2 E3].
  rewrite <-E2, <-E3, !Z.eqb_refl in E. cbn [negb] in E.
  pose proof (takes_trans _ _ _ _ _ _ Ht0 Ht) as Ht4.
  pose proof (ok_takes _ _ _ _ Hok Ht4 Hs4) as Hok4.
  pose proof (stored_data_run len s4 out Hok4 H0 ltac:(lia)) as Hd.
  assert (s_incnt s4 + len ≤ s_inlen s4) as Hin.
  { pose proof (stream_length W _ (tk_wf _ _ _ _ Ht4)) as Hl4.
    rewrite <-E4, length_app, length_bytes_bits in Hl4. lia. }
  destruct (Z.ltb_spec (s_inlen s4) (s_incnt s4 + len)); [lia|].
  rewrite length_app, Nat2Z.inj_add, <-Hlen. destruct Hd as [Hy Hn]. split; intros Hf.
  2:{ exists s4. rewrite E, (Hn Hf). split; [done|by eapply weak_same]. }
  destruct (Hy Hf) as (s5 & data' & E5 & Hdl' & Hdb' & Ht5 & Hok5).
  pose proof (tk_stream _ _ _ _ Ht5) as E6. rewrite <-E4 in E6.
  apply app_inj_1 in E6 as [E6 _]; [|rewrite !length_bytes_bits; lia].
  apply bytes_bits_inj in E6; [|done..]. subst data'.
  exists s5. rewrite E, E5. split_and!; [done| |done].
  assert (stored_bits data = bytes_bits [b0; b1; b2; b3] ++ bytes_bits data) as ->.
  { unfold stored_bits. rewrite <-Hlen, Hlb, En. unfold bytes_bits at 2. cbn -[bits_of bytes_bits].
    by rewrite app_nil_r, <-!app_assoc. }
  rewrite app_assoc. by eapply takes_trans.
Qed.

End stored.

(** The code descriptions of [puff] (fixed and dynamic blocks) against the
    format. *)

(** ** Fixed codes *)

Lemma not_over_compute lens :
  forallb (λ l, 0 <=? left_codes lens l) (seq 0 16) = true → not_over lens.
Proof.
  intros H l Hl. rewrite forallb_forall in H. specialize (H l).
  apply Z.leb_le, H, in_seq. lia.
Qed.

Lemma lengths_ok_compute lens :
  forallb (λ x, (0 <=? x) && (x <=? 15)) lens = true → lengths_ok lens.
Proof.
  intros H. apply Forall_forall. intros x Hx. rewrite forallb_forall in H.
  apply list_elem_of_In in Hx. specialize (H x Hx). apply andb_prop in H as [? ?].
  lia.
Qed.

Lemma fixed_not_over : not_over fixed_L ∧ not_over fixed_D.
Proof. split; apply not_over_compute; by vm_compute. Qed.

(** [construct] on a code that is not over-subscribed. *)
Lemma construct_table h lengths n :
  (n ≤ length lengths)%nat → lengths_ok (take n lengths) → not_over (take n lengths) →
  length (h_count h) = 16%nat → (n ≤ length (h_symbol h))%nat →
  succeeds (construct h lengths (Z.of_nat n)) (λ '(_, h'), table_for h' (take n lengths)).
Proof.
  intros Hn Hok Hno Hc Hs. eapply succeeds_mono; [by apply construct_spec|].
  intros [err h'] (_ & _ & _ & [[_ ?]|(_ & _ & ? & _)]); [by exfalso|done].
Qed.

Lemma fixed_tables_spec :
  succeeds fixed_tables (λ '(l, d), table_for l fixed_L ∧ table_for d fixed_D).
Proof.
  unfold fixed_tables.
  assert (fixed_lengths (replicate (Z.to_nat FIXLCODES) 0) = Some fixed_L) as -> by by vm_compute.
  simpl_bind.
  assert (take 288 fixed_L = fixed_L) as E1 by by vm_compute.
  eapply succeeds_bind.
  { apply (construct_table _ fixed_L 288); rewrite ?E1; [vm_compute; lia|apply lengths_ok_compute; by vm_compute|
      apply fixed_not_over|by vm_compute|vm_compute; lia]. }
  intros [e1 lencode] Hl. rewrite E1 in Hl. cbn beta iota.
  set (l2 := replicate 30 5 ++ drop 30 fixed_L).
  assert (for_up (Z.to_nat MAXDCODES) 0 (λ symbol l, l.[symbol <- 5]) fixed_L = Some l2) as ->
    by by vm_compute.
  simpl_bind.
  assert (take 30 l2 = fixed_D) as E2 by by vm_compute.
  eapply succeeds_bind.
  { apply (construct_table _ l2 30); rewrite ?E2; [vm_compute; lia|apply lengths_ok_compute; by vm_compute|
      apply fixed_not_over|by vm_compute|vm_compute; lia]. }
  intros [e2 distcode] Hd. rewrite E2 in Hd. done.
Qed.

(** ** The code length code *)

Lemma order_spec (k : nat) :
  (k < 19)%nat → ∃ i : nat, length_order !! k = Some i ∧ order.[Z.of_nat k] = Some (Z.of_nat i) ∧
    (i < 19)%nat.
Proof.
  intros Hk. do 19 (destruct k as [|k]; [eexists; split_and!; [done|done|lia]|]). lia.
Qed.

Lemma order_inj k k' i :
  length_order !! k = Some i → length_order !! k' = Some i → k = k'.
Proof.
  intros H H'. assert (NoDup length_order) as Hnd by (apply (bool_decide_unpack _); by vm_compute).
  by eapply NoDup_lookup.
Qed.

Lemma order_onto i : (i < 19)%nat → ∃ k, length_order !! k = Some i ∧ (k < 19)%nat.
Proof.
  intros Hi. assert (Forall (λ i, ∃ k, length_order !! k = Some i ∧ (k < 19)%nat) (seq 0 19)) as H.
  { repeat constructor;
      [exists 3%nat|exists 17%nat|exists 15%nat|exists 13%nat|exists 11%nat|exists 9%nat|exists 7%nat
      |exists 5%nat|exists 4%nat|exists 6%nat|exists 8%nat|exists 10%nat|exists 12%nat|exists 14%nat
      |exists 16%nat|exists 18%nat|exists 0%nat|exists 1%nat|exists 2%nat]; (split; [done|lia]). }
  rewrite Forall_forall in H. apply H, elem_of_seq. lia.
Qed.

(** What is still to be sent at position [k]. *)
Definition code_lengths_from (C : list Z) (n k : nat) : list bool :=
  drop k (take n length_order) ≫= λ i, bits_of 3 (nth i C 0).

Lemma code_lengths_from_cons C n k i :
  length_order !! k = Some i → (k < n)%nat →
  code_lengths_from C n k = bits_of 3 (nth i C 0) ++ code_lengths_from C n (S k).
Proof.
  intros Hk Hn. unfold code_lengths_from.
  rewrite (drop_S _ i) by (rewrite lookup_take_lt by lia; done). done.
Qed.

Lemma code_lengths_from_nil C n k : (n ≤ k)%nat → code_lengths_from C n k = [].
Proof. intros. unfold code_lengths_from. rewrite drop_ge; [done|]. rewrite length_take. lia. Qed.

(** The entries of the array from position [k] of the order on. *)
Definition lengths_from (n k : nat) (lengths : list Z) : Prop :=
  ∀ k' i, length_order !! k' = Some i → (k ≤ k')%nat →
  in_width 3 (nth i lengths 0) ∧ ((n ≤ k')%nat → nth i lengths 0 = 0).

(** The entries before position [k] are unchanged. *)
Definition lengths_kept (k : nat) (lengths lengths' : list Z) : Prop :=
  length lengths' = length lengths ∧
  ∀ k' i, length_order !! k' = Some i → (k' < k)%nat → nth i lengths' 0 = nth i lengths 0.

Lemma nth_insert (l : list Z) i j v :
  (i < length l)%nat → nth j (<[i:=v]> l) 0 = if decide (i = j) then v else nth j l 0.
Proof.
  intros Hi. rewrite !nth_lookup. case_decide; subst.
  - by rewrite list_lookup_insert_eq.
  - by rewrite list_lookup_insert_ne.
Qed.

Lemma lengths_step k i v lengths lengths' :
  length_order !! k = Some i → (i < length lengths)%nat →
  lengths_kept (S k) (<[i:=v]> lengths) lengths' →
  lengths_kept k lengths lengths' ∧ nth i lengths' 0 = v.
Proof.
  intros Hk Hi [Hl Hv]. rewrite length_insert in Hl. split; [split; [done|]|].
  - intros k' j Hj Hlt. rewrite (Hv k' j Hj), nth_insert by lia.
    rewrite decide_False; [done|]. intros ->. pose proof (order_inj _ _ _ Hk Hj). lia.
  - rewrite (Hv k i Hk), nth_insert, decide_True by (lia || done). done.
Qed.

Lemma lengths_from_step n k i v lengths' :
  length_order !! k = Some i → nth i lengths' 0 = v → in_width 3 v → ((n ≤ k)%nat → v = 0) →
  lengths_from n (S k) lengths' → lengths_from n k lengths'.
Proof.
  intros Hk Hv Hw Hz Hf k' j Hj Hle. destruct (decide (k' = k)) as [->|].
  - assert (j = i) as -> by congruence. by rewrite Hv.
  - apply Hf; [done|lia].
Qed.

Section dynamic.
Context (W : Z) (dest : option (list Z)) (outlen : Z).
Abbreviation out_ok := (out_ok W dest outlen).
Abbreviation ok := (ok W dest outlen).
Abbreviation fits := (fits dest outlen).
Abbreviation weak := (weak W dest outlen).

Lemma read_step (k : nat) (lengths : list Z) v :
  (k < 19)%nat → (19 ≤ length lengths)%nat →
  ∃ i, length_order !! k = Some i ∧ (i < length lengths)%nat ∧
    order.[Z.of_nat k] = Some (Z.of_nat i) ∧
    lengths.[Z.of_nat i <- v] = Some (<[i:=v]> lengths).
Proof.
  intros Hk Hl. destruct (order_spec k Hk) as (i & Hi & Ho & Hlt). exists i.
  rewrite aset_in, Nat2Z.id by lia. split_and!; (done || lia).
Qed.

Lemma wp_read_code_lengths (ncode : nat) m : ∀ k lengths s out,
  (k + m = 19)%nat → (19 ≤ length lengths)%nat → in_wf W s → out_ok s out →
  wp (read_code_lengths W m (Z.of_nat k) (Z.of_nat ncode) lengths) s (λ lengths' s',
    lengths_kept k lengths lengths' ∧ lengths_from ncode k lengths' ∧
    reads W s (code_lengths_from lengths' ncode k) s' ∧ out_ok s' out) weak.
Proof.
  induction m as [|m IH]; intros k lengths s out Hkm Hl Hwf Ho; cbn [read_code_lengths].
  { apply wp_ret. split_and!; [done| | |done].
    - intros k' i Hk'%lookup_lt_Some Hle. change (length length_order) with 19%nat in Hk'. lia.
    - assert (code_lengths_from lengths ncode k = []) as ->; [|by apply reads_refl].
      unfold code_lengths_from. rewrite drop_ge; [done|]. rewrite length_take.
      change (length length_order) with 19%nat. lia. }
  assert (∀ v s1, (in_width 3 v ∧ ((ncode ≤ k)%nat → v = 0)) →
    (∀ lengths' i, length_order !! k = Some i → nth i lengths' 0 = v →
       ∃ b, reads W s b s1 ∧ code_lengths_from lengths' ncode k
            = b ++ code_lengths_from lengths' ncode (S k)) →
    out_ok s1 out → in_wf W s1 →
    wp (o ← lift order.[Z.of_nat k]; lengths ← lift lengths.[o <- v];
        read_code_lengths W m (Z.of_nat k + 1) (Z.of_nat ncode) lengths) s1 (λ lengths' s',
      lengths_kept k lengths lengths' ∧ lengths_from ncode k lengths' ∧
      reads W s (code_lengths_from lengths' ncode k) s' ∧ out_ok s' out) weak) as Hnext.
  { intros v s1 [Hv Hz] Hb Ho1 Hwf1.
    destruct (read_step k lengths v ltac:(lia) Hl) as (i & Hi & Hil & Eo & Es).
    apply (wp_bind_lift _ _ _ (eq (Z.of_nat i))); [by rewrite Eo|]. intros _ <-.
    apply (wp_bind_lift _ _ _ (eq (<[i:=v]> lengths))); [by rewrite Es|]. intros _ <-.
    replace (Z.of_nat k + 1) with (Z.of_nat (S k)) by lia.
    eapply wp_mono; [apply (IH (S k) _ s1 out); [lia|by rewrite length_insert|done|done]| |done].
    intros lengths' s' (Hkept & Hfrom & Hr & Ho').
    destruct (lengths_step k i v _ _ Hi Hil Hkept) as [Hkept' Hiv].
    split_and!; [done|by eapply lengths_from_step| |done].
    destruct (Hb lengths' i Hi Hiv) as (b & Rb & ->). by eapply reads_trans. }
  destruct (Z.ltb_spec (Z.of_nat k) (Z.of_nat ncode)).
  - eapply wp_bind; [by apply wp_bits|]. intros v s1 (Hr & Ho1 & Hv). cbn beta.
    apply Hnext; [split; [done|lia]| |done|apply Hr].
    intros lengths' i Hi Hiv. eexists. split; [exact Hr|].
    rewrite (code_lengths_from_cons _ _ _ i), Hiv by (done || lia). done.
  - unfold wp. rewrite (bind_ret _ _ _ 0 s) by done. apply Hnext; [split; [done|done]| |done|done].
    intros lengths' i Hi Hiv. exists []. split; [by apply reads_refl|].
    rewrite !code_lengths_from_nil by lia. done.
Qed.

Lemma read_code_lengths_run (ncode : nat) C m : ∀ k lengths s rest,
  (k + m = 19)%nat → (19 ≤ length lengths)%nat → in_wf W s → code_lengths_for C ncode →
  stream s = code_lengths_from C ncode k ++ rest →
  ∃ lengths' s', read_code_lengths W m (Z.of_nat k) (Z.of_nat ncode) lengths s = Ret lengths' s' ∧
    lengths_kept k lengths lengths' ∧
    (∀ k' i, length_order !! k' = Some i → (k ≤ k')%nat → nth i lengths' 0 = nth i C 0) ∧
    reads W s (code_lengths_from C ncode k) s'.
Proof.
  induction m as [|m IH]; intros k lengths s rest Hkm Hl Hwf HC Hs; cbn [read_code_lengths].
  { exists lengths, s. split_and!; [done|done| |].
    - intros k' i Hk'%lookup_lt_Some Hle. change (length length_order) with 19%nat in Hk'. lia.
    - assert (code_lengths_from C ncode k = []) as ->; [|by apply reads_refl].
      unfold code_lengths_from. rewrite drop_ge; [done|]. rewrite length_take.
      change (length length_order) with 19%nat. lia. }
  destruct (order_spec k ltac:(lia)) as (i & Hi & _ & Hi19).
  destruct HC as (HC19 & HCw & HCz).
  assert (in_width 3 (nth i C 0)) as Hw3.
  { destruct (lookup_lt_is_Some_2 C i ltac:(lia)) as [x Hx]. rewrite nth_lookup, Hx.
    exact (Forall_lookup_1 _ _ _ _ HCw Hx). }
  assert (∃ b s1, (if Z.of_nat k <? Z.of_nat ncode then bits W 3 else mret 0) s = Ret (nth i C 0) s1 ∧
    reads W s b s1 ∧ code_lengths_from C ncode k = b ++ code_lengths_from C ncode (S k))
    as (b & s1 & Eb & Rb & Hb).
  { destruct (Z.ltb_spec (Z.of_nat k) (Z.of_nat ncode)).
    - rewrite (code_lengths_from_cons C ncode k i) in Hs |- * by (done || lia).
      rewrite <-app_assoc in Hs.
      destruct (bits_run W 3 (nth i C 0) s _ Hwf ltac:(lia) Hw3 Hs) as (s1 & ? & ?).
      by exists (bits_of 3 (nth i C 0)), s1.
    - exists [], s. rewrite !code_lengths_from_nil by lia. rewrite (HCz k i Hi) by lia.
      split_and!; [done|by apply reads_refl|done]. }
  rewrite (bind_ret _ _ _ (nth i C 0) s1) by done.
  destruct (read_step k lengths (nth i C 0) ltac:(lia) Hl) as (i' & Hi' & Hil & Eo & Es).
  assert (i' = i) as -> by congruence. rewrite Eo, bind_lift, Es, bind_lift.
  replace (Z.of_nat k + 1) with (Z.of_nat (S k)) by lia.
  pose proof (rd_stream _ _ _ _ Rb) as E1. rewrite Hs, Hb, <-app_assoc in E1. apply app_inv_head in E1.
  destruct (IH (S k) (<[i:=nth i C 0]> lengths) s1 rest) as (l' & s' & Er & Hk & Hv & R');
    [lia|by rewrite length_insert|apply Rb|by split|done|].
  destruct (lengths_step k i _ _ _ Hi Hil Hk) as [Hk' Hiv].
  exists l', s'. split_and!; [done|done| |rewrite Hb; by eapply reads_trans].
  intros k' j Hj Hle. destruct (decide (k' = k)) as [->|]; [|apply (Hv k'); [done|lia]].
  assert (j = i) as -> by congruence. done.
Qed.


(** ** The run-length encoded lengths *)

Lemma repeat_length_ok (v : Z) n : ∀ (index : nat) lengths,
  (index + n ≤ length lengths)%nat →
  repeat_length lengths (Z.of_nat index) (Z.of_nat n) v
  = Some (take index lengths ++ replicate n v ++ drop (index + n) lengths).
Proof.
  unfold repeat_length. rewrite Nat2Z.id.
  induction n as [|n IH]; intros index lengths Hl; cbn [for_up replicate app].
  { by rewrite Nat.add_0_r, take_drop. }
  rewrite aset_in, Nat2Z.id by lia. simpl_bind.
  replace (Z.of_nat index + 1) with (Z.of_nat (S index)) by lia.
  rewrite IH by (rewrite length_insert; lia). f_equal.
  rewrite insert_take_drop by lia.
  assert (length (take index lengths) = index) as Ht by (rewrite length_take; lia).
  rewrite take_app_ge, drop_app_ge by lia. rewrite Ht.
  replace (S index - index)%nat with 1%nat by lia.
  replace (S index + n - index)%nat with (S n) by lia. cbn [take drop app].
  rewrite drop_drop, <-app_assoc. simpl. do 4 f_equal. lia.
Qed.

(** The part of the array after the first [n] entries does not matter. *)
Lemma set_length (lengths : list Z) (index : nat) v :
  (index < length lengths)%nat →
  ∃ l', lengths.[Z.of_nat index <- v] = Some l' ∧ length l' = length lengths ∧
        take (index + 1) l' = take index lengths ++ [v].
Proof.
  intros Hi. rewrite aset_in, Nat2Z.id by lia. eexists. split; [done|].
  split; [by rewrite length_insert|]. rewrite Nat.add_1_r.
  rewrite (take_S_r _ _ v) by (apply list_lookup_insert_eq; lia).
  by rewrite take_insert_ge by lia.
Qed.

Lemma repeat_lengths (lengths : list Z) (index n : nat) v :
  (index + n ≤ length lengths)%nat →
  ∃ l', repeat_length lengths (Z.of_nat index) (Z.of_nat n) v = Some l' ∧
        length l' = length lengths ∧ take (index + n) l' = take index lengths ++ replicate n v.
Proof.
  intros Hi. rewrite repeat_length_ok by done. eexists. split; [done|].
  assert (length (take index lengths ++ replicate n v) = (index + n)%nat) as El
    by (rewrite length_app, length_take, length_replicate; lia).
  split.
  - rewrite app_assoc, length_app, El, length_drop. lia.
  - rewrite app_assoc, take_app_le, take_ge by lia. done.
Qed.

Lemma last_take (lengths : list Z) (index : nat) :
  (index < length lengths)%nat → (1 ≤ index)%nat →
  ∃ v, lengths.[Z.of_nat index - 1] = Some v ∧ last (take index lengths) = Some v.
Proof.
  intros Hi H1. destruct (lookup_lt_is_Some_2 lengths (index - 1)) as [v Hv]; [lia|].
  exists v. replace (Z.of_nat index - 1) with (Z.of_nat (index - 1)) by lia.
  rewrite aget_lookup. split; [done|]. rewrite last_lookup, length_take, Nat.min_l by lia.
  replace (Nat.pred index) with (index - 1)%nat by lia. by rewrite lookup_take_lt by lia.
Qed.

(** The three repeat symbols read the same way. *)
Definition repeat_bits (symbol : Z) : M Z :=
  if symbol =? 16 then x ← bits W 2; mret (3 + x)
  else if symbol =? 17 then x ← bits W 3; mret (3 + x)
  else x ← bits W 7; mret (11 + x).

(** The symbols of a repeat code, and what [repeat_bits] reads for them. *)
Lemma repeat_symbol acc i :
  (16 ≤ i < 19)%nat → (i = 16%nat → acc ≠ []) →
  ∃ v base x, repeat_code acc i v base x ∧ 0 ≤ x ∧ 3 ≤ base ∧
    repeat_bits (Z.of_nat i) = (e ← bits W x; mret (base + e)).
Proof.
  intros Hi Hne. assert (i = 16 ∨ i = 17 ∨ i = 18)%nat as [->|[->| ->]] by lia.
  - destruct (last acc) as [v|] eqn:E; [|apply last_None in E; by destruct (Hne eq_refl)].
    exists v, 3, 2. split_and!; [by left|lia|lia|done].
  - exists 0, 3, 3. split_and!; [by right; left|lia|lia|done].
  - exists 0, 11, 7. split_and!; [by right; right|lia|lia|done].
Qed.

Lemma repeat_code_sym acc i v base x :
  repeat_code acc i v base x → (16 ≤ i < 19)%nat ∧ 3 ≤ base ∧ 0 ≤ x ∧ (i = 16%nat → acc ≠ []).
Proof.
  unfold repeat_code.
  intros [(-> & -> & -> & Hl)|[(-> & -> & -> & _)|(-> & -> & -> & _)]]; split_and!; try lia.
  intros _ ->. done.
Qed.

(** The value repeated, as the code finds it. *)
Lemma repeat_value lengths (index : nat) i v base x :
  repeat_code (take index lengths) i v base x → (index < length lengths)%nat →
  (if Z.of_nat i =? 16 then lift lengths.[Z.of_nat index - 1] else mret 0) = (mret v : M Z).
Proof.
  intros Hr Hi. destruct (Z.eqb_spec (Z.of_nat i) 16).
  - assert (i = 16%nat) as -> by lia.
    destruct Hr as [(_ & _ & _ & Hl)|[(? & _)|(? & _)]]; [|lia|lia].
    destruct (last_take lengths index) as (w & -> & Hw); [done| |].
    { destruct index; [done|lia]. }
    assert (w = v) as -> by congruence. done.
  - destruct Hr as [(? & _)|[(_ & _ & _ & ->)|(_ & _ & _ & ->)]]; [lia|done|done].
Qed.

Section lengths.
Context (lencode : huffman) (C : list Z) (HC : table_for lencode C) (HC19 : length C = 19%nat).

Lemma read_lengths_unfold fuel index total lengths :
  read_lengths W (S fuel) lencode index total lengths =
  if index <? total then
    symbol ← decode W lencode;
    if symbol <? 0 then mret (inl symbol)
    else if symbol <? 16 then
      lengths ← lift lengths.[index <- symbol];
      read_lengths W fuel lencode (index + 1) total lengths
    else if (symbol =? 16) && (index =? 0) then mret (inl (-5))
    else
      len ← (if symbol =? 16 then lift lengths.[index - 1] else mret 0);
      symbol ← repeat_bits symbol;
      if total <? index + symbol then mret (inl (-6))
      else
        lengths ← lift (repeat_length lengths index symbol len);
        read_lengths W fuel lencode (index + symbol) total lengths
  else mret (inr lengths).
Proof. done. Qed.

(** The result of the loop: an error, or the lengths of the format. *)
Definition lengths_read (total : nat) (lengths : list Z) (index : nat) (s : state) (out : list Z)
    (r : Z + list Z) (s' : state) : Prop :=
  match r with
  | inl v => bad v ∧ weak s'
  | inr lengths' => ∃ bs, length lengths' = length lengths ∧
      enc_lengths C total (take index lengths) (take total lengths') bs ∧
      reads W s bs s' ∧ out_ok s' out
  end.

Lemma wp_read_lengths (total : nat) fuel : ∀ (index : nat) lengths s out,
  (index ≤ total ≤ length lengths)%nat → (total - index ≤ fuel)%nat → in_wf W s → out_ok s out →
  wp (read_lengths W fuel lencode (Z.of_nat index) (Z.of_nat total) lengths) s
    (lengths_read total lengths index s out) weak.
Proof.
  assert (∀ index lengths s out, index = total → (index ≤ length lengths)%nat → in_wf W s →
    out_ok s out → lengths_read total lengths index s out (inr lengths) s) as Hdone.
  { intros index lengths s out -> Hl Hwf Ho. exists []. split_and!; [done| |by apply reads_refl|done].
    apply el_done. rewrite length_take. lia. }
  induction fuel as [|fuel IH]; intros index lengths s out Hi Hf Hwf Ho.
  { cbn [read_lengths]. destruct (Z.ltb_spec (Z.of_nat index) (Z.of_nat total)); [lia|].
    apply wp_ret, Hdone; (done || lia). }
  rewrite read_lengths_unfold.
  destruct (Z.ltb_spec (Z.of_nat index) (Z.of_nat total));
    [|apply wp_ret, Hdone; (done || lia)].
  eapply wp_bind; [by eapply wp_decode|].
  intros sym s1 [(i & bs & -> & Hbs & Hr & Ho1)|[-> Hw]]; cbn beta.
  2:{ apply wp_ret. split; [unfold bad; lia|done]. }
  destruct (Z.ltb_spec (Z.of_nat i) 0); [lia|].
  pose proof (code_bits_lt _ _ _ Hbs) as Hi19. rewrite HC19 in Hi19.
  assert (length (take index lengths) = index) as Hlt by (rewrite length_take; lia).
  destruct (Z.ltb_spec (Z.of_nat i) 16).
  - destruct (set_length lengths index (Z.of_nat i) ltac:(lia)) as (l1 & E1 & Hl1 & Ht1).
    apply (wp_bind_lift _ _ _ (eq l1)); [by rewrite E1|]. intros _ <-.
    replace (Z.of_nat index + 1) with (Z.of_nat (index + 1)) by lia.
    eapply wp_mono; [apply (IH (index + 1)%nat l1 s1 out); [lia|lia|apply Hr|done]| |done].
    intros [v|l2] s2; [done|]. intros (bs2 & Hl2 & He & Hr2 & Ho2).
    exists (bs ++ bs2). split_and!; [lia| |by eapply reads_trans|done].
    rewrite Ht1 in He. apply el_len with i; [lia|lia|done|done].
  - destruct ((Z.of_nat i =? 16) && (Z.of_nat index =? 0)) eqn:E16.
    { apply wp_ret. split; [unfold bad; lia|by exists out]. }
    destruct (repeat_symbol (take index lengths) i ltac:(lia)) as (v & base & x & Hrc & Hx & Hb & Erb).
    { intros -> E. rewrite E in Hlt. simpl in Hlt. subst index. done. }
    unfold wp. rewrite (repeat_value lengths index i v base x Hrc) by lia.
    rewrite (bind_ret (mret v) _ _ v s1), Erb by done.
    apply (wp_bind (e ← bits W x; mret (base + e)) _ s1 (λ a s', ∃ e,
      a = base + e ∧ reads W s1 (bits_of (Z.to_nat x) e) s' ∧ out_ok s' out ∧ in_width x e)).
    { eapply wp_bind; [apply wp_bits; [apply Hr|done|done]|].
      intros e s2 (? & ? & ?). apply wp_ret. by exists e. }
    intros a s2 (e & -> & Hr2 & Ho2 & He). assert (0 ≤ e) by apply He.
    destruct (Z.ltb_spec (Z.of_nat total) (Z.of_nat index + (base + e))).
    { apply wp_ret. split; [unfold bad; lia|by exists out]. }
    destruct (repeat_lengths lengths index (Z.to_nat (base + e)) v ltac:(lia)) as (l1 & E1 & Hl1 & Ht1).
    rewrite Z2Nat.id in E1 by lia.
    apply (wp_bind_lift _ _ _ (eq l1)); [by rewrite E1|]. intros _ <-.
    replace (Z.of_nat index + (base + e)) with (Z.of_nat (index + Z.to_nat (base + e))) by lia.
    eapply wp_mono;
      [apply (IH (index + Z.to_nat (base + e))%nat l1 s2 out); [lia|lia|apply Hr2|done]| |done].
    intros [w|l2] s3; [done|]. intros (bs2 & Hl2 & Hel & Hr3 & Ho3).
    exists (bs ++ bits_of (Z.to_nat x) e ++ bs2).
    split_and!; [lia| |by eapply reads_trans; [done|by eapply reads_trans]|done].
    rewrite Ht1 in Hel. eapply el_repeat; [lia|done|done|done|lia|done].
Qed.

Context (HCno : not_over C).

Lemma read_lengths_run (total : nat) acc fin bs : enc_lengths C total acc fin bs →
  ∀ fuel lengths s rest,
  take (length acc) lengths = acc → (total ≤ length lengths)%nat → (length acc ≤ total)%nat →
  (total - length acc ≤ fuel)%nat → in_wf W s → stream s = bs ++ rest →
  ∃ lengths' s', read_lengths W fuel lencode (Z.of_nat (length acc)) (Z.of_nat total) lengths s
                 = Ret (inr lengths') s' ∧
    length lengths' = length lengths ∧ take total lengths' = fin ∧ reads W s bs s'.
Proof.
  induction 1 as [acc Hacc|acc fin v bs bs' Hlt Hv Hbs _ IH|acc fin sym v base x e bs bs' Hlt Hrc Hbs He Hle _ IH];
    intros fuel lengths s rest Hta Htl Hal Hf Hwf Hs.
  { exists lengths, s. split_and!; [|done|by rewrite <-Hacc|by apply reads_refl].
    destruct fuel; cbn [read_lengths]; rewrite Hacc, Z.ltb_irrefl; done. }
  all: destruct fuel as [|fuel]; [lia|]; rewrite read_lengths_unfold, <-app_assoc in *.
  all: destruct (Z.ltb_spec (Z.of_nat (length acc)) (Z.of_nat total)); [|lia].
  all: destruct (decode_run W lencode C _ bs s _ HC HCno Hbs Hwf Hs) as (s1 & Ed & R1).
  all: rewrite (bind_ret _ _ _ _ s1 Ed).
  all: pose proof (rd_stream _ _ _ _ R1) as E1; rewrite Hs in E1; apply app_inv_head in E1.
  - destruct (Z.ltb_spec (Z.of_nat v) 0); [lia|]. destruct (Z.ltb_spec (Z.of_nat v) 16); [|lia].
    destruct (set_length lengths (length acc) (Z.of_nat v) ltac:(lia)) as (l1 & -> & Hl1 & Ht1).
    rewrite bind_lift. rewrite Hta in Ht1. rewrite length_app in IH. cbn [length] in IH.
    replace (Z.of_nat (length acc) + 1) with (Z.of_nat (length acc + 1)) by lia.
    destruct (IH fuel l1 s1 rest Ht1 ltac:(lia) ltac:(lia) ltac:(lia) (rd_wf _ _ _ _ R1) (eq_sym E1))
      as (l2 & s2 & Er & Hl2 & Ht2 & R2).
    exists l2, s2. split_and!; [done|lia|done|by eapply reads_trans].
  - destruct (repeat_code_sym _ _ _ _ _ Hrc) as (Hsym & Hb & Hx & Hne).
    destruct (Z.ltb_spec (Z.of_nat sym) 0); [lia|]. destruct (Z.ltb_spec (Z.of_nat sym) 16); [lia|].
    destruct ((Z.of_nat sym =? 16) && (Z.of_nat (length acc) =? 0)) eqn:E16.
    { destruct Hne; [lia|]. destruct acc; [done|simpl in E16; lia]. }
    rewrite <-Hta in Hrc.
    rewrite (repeat_value lengths (length acc) sym v base x Hrc) by lia.
    rewrite (bind_ret (mret v) _ _ v s1) by done.
    assert (repeat_bits (Z.of_nat sym) = (e ← bits W x; mret (base + e))) as ->.
    { destruct Hrc as [(-> & -> & -> & _)|[(-> & -> & -> & _)|(-> & -> & -> & _)]]; done. }
    rewrite <-app_assoc in E1.
    destruct (bits_run W x e s1 _ (rd_wf _ _ _ _ R1) Hx He (eq_sym E1)) as (s2 & Eb & R2).
    pose proof (rd_stream _ _ _ _ R2) as E2. rewrite <-E1 in E2. apply app_inv_head in E2.
    assert (0 ≤ e) by apply He.
    rewrite (bind_ret _ _ _ (base + e) s2) by by rewrite (bind_ret _ _ _ e s2 Eb).
    destruct (Z.ltb_spec (Z.of_nat total) (Z.of_nat (length acc) + (base + e))); [lia|].
    destruct (repeat_lengths lengths (length acc) (Z.to_nat (base + e)) v ltac:(lia)) as (l1 & El & Hl1 & Ht1).
    rewrite Z2Nat.id in El by lia. rewrite El, bind_lift. rewrite Hta in Ht1.
    rewrite length_app, length_replicate in IH.
    replace (Z.of_nat (length acc) + (base + e)) with (Z.of_nat (length acc + Z.to_nat (base + e))) by lia.
    destruct (IH fuel l1 s2 rest Ht1 ltac:(lia) ltac:(lia) ltac:(lia) (rd_wf _ _ _ _ R2) (eq_sym E2))
      as (l2 & s3 & Er & Hl2 & Ht2 & R3).
    exists l2, s3. split_and!; [done|lia|done|].
    eapply reads_trans; [done|by eapply reads_trans].
Qed.
End lengths.
End dynamic.
