(* ===== verification/PuffTop.v ===== *)
(** Dynamic blocks and the whole stream: [puff] terminates without a fault on
    every input, returns zero exactly for the streams of the format, and then
    has written what the format says. *)

From Stdlib Require Import ZArith Lia.
From stdpp Require Import base option numbers list.
From S2P Require Import Prelude Deflate Puff PuffBits PuffTables PuffSpec PuffDynamic.

Open Scope Z_scope.

(** The sizes of the local arrays of [dynamic]. *)
Record mem_ok (mem : dynamic_mem) : Prop := MemOk {
  mo_lengths : length (m_lengths mem) = 316%nat;
  mo_lencnt : length (h_count (m_lencode mem)) = 16%nat;
  mo_lensym : length (h_symbol (m_lencode mem)) = 286%nat;
  mo_distcnt : length (h_count (m_distcode mem)) = 16%nat;
  mo_distsym : length (h_symbol (m_distcode mem)) = 30%nat }.

(** ** Facts about the lengths of a dynamic block *)

Lemma lengths_ok_app a b : lengths_ok (a ++ b) ↔ lengths_ok a ∧ lengths_ok b.
Proof. apply Forall_app. Qed.

Lemma enc_lengths_ok C total acc fin bs :
  enc_lengths C total acc fin bs → lengths_ok acc → lengths_ok fin.
Proof.
  induction 1 as [|acc fin v bs bs' _ Hv _ _ IH|acc fin sym v base x e bs bs' _ Hrc _ _ _ _ IH];
    intros Hok; [done| |].
  - apply IH, lengths_ok_app. split; [done|]. apply Forall_singleton. lia.
  - apply IH, lengths_ok_app. split; [done|]. apply Forall_replicate.
    destruct Hrc as [(_ & _ & _ & Hl)|[(_ & _ & _ & ->)|(_ & _ & _ & ->)]]; [|lia|lia].
    rewrite last_lookup in Hl. exact (Forall_lookup_1 _ _ _ _ Hok Hl).
Qed.

Lemma enc_lengths_code C total fin bs :
  (0 < total)%nat → enc_lengths C total [] fin bs → cnt C 0 < Z.of_nat (length C).
Proof.
  intros Ht He. assert (∃ i b, code_bits C i b) as (i & b & l & Hi & Hl & _).
  { inversion He; subst; [simpl in *; lia|eauto|eauto]. }
  destruct (decide (cnt C 0 = Z.of_nat (length C))) as [E|].
  - pose proof (rank_lt C i (Z.of_nat l) Hi) as Hr. pose proof (cnt_rest_zero C 0 (Z.of_nat l) ltac:(lia) E).
    pose proof (cnt_nonneg (take i C) (Z.of_nat l)). unfold rank in Hr. lia.
  - pose proof (cnt_le_length C 0). lia.
Qed.

Lemma nth_list_eq (a b : list Z) :
  length a = length b → (∀ i, (i < length a)%nat → nth i a 0 = nth i b 0) → a = b.
Proof. intros. apply (nth_ext a b 0 0); done. Qed.

Lemma nth_take (l : list Z) n i : (i < n)%nat → nth i (take n l) 0 = nth i l 0.
Proof. intros. rewrite !nth_lookup, lookup_take_lt by lia. done. Qed.

Lemma code_lengths_from_0 C n : code_lengths_from C n 0 = enc_code_lengths C n.
Proof. unfold code_lengths_from. by rewrite drop_0. Qed.

Lemma enc_code_lengths_ext C C' n :
  (∀ i, (i < 19)%nat → nth i C 0 = nth i C' 0) → enc_code_lengths C n = enc_code_lengths C' n.
Proof.
  intros H. unfold enc_code_lengths.
  assert (Forall (λ i, i < 19)%nat (take n length_order)) as HF.
  { apply Forall_take. unfold length_order. repeat constructor; lia. }
  induction HF as [|i l Hi _ IH]; [done|].
  change (bits_of 3 (nth i C 0) ++ (l ≫= λ i, bits_of 3 (nth i C 0))
          = bits_of 3 (nth i C' 0) ++ (l ≫= λ i, bits_of 3 (nth i C' 0))).
  rewrite IH, (H i Hi). done.
Qed.

(** The code length code that [read_code_lengths] leaves in the array. *)
Lemma code_lengths_array n lengths :
  (19 ≤ length lengths)%nat → lengths_from n 0 lengths →
  code_lengths_for (take 19 lengths) n ∧ lengths_ok (take 19 lengths) ∧
  code_lengths_from lengths n 0 = enc_code_lengths (take 19 lengths) n.
Proof.
  intros Hl Hf.
  assert (Forall (in_width 3) (take 19 lengths)) as Hw.
  { apply Forall_lookup. intros i x Hx. pose proof (lookup_lt_Some _ _ _ Hx) as Hi.
    rewrite length_take in Hi. destruct (order_onto i ltac:(lia)) as (k & Hk & _).
    destruct (Hf k i Hk ltac:(lia)) as [Hw _]. rewrite <-(nth_take lengths 19 i), nth_lookup, Hx in Hw by lia.
    done. }
  split_and!.
  - split_and!; [rewrite length_take; lia|done|]. intros k i Hk Hn.
    destruct (order_spec k) as (i' & Hi' & _ & Hi19).
    { apply lookup_lt_Some in Hk. done. }
    rewrite nth_take by (simplify_eq; lia). by apply (Hf k i Hk ltac:(lia)).
  - eapply Forall_impl; [exact Hw|]. unfold in_width. lia.
  - rewrite code_lengths_from_0. apply enc_code_lengths_ext. intros i Hi. by rewrite nth_take.
Qed.

(** ** Accepting a code *)

Lemma bad_code_spec h lengths n err h' :
  (n ≤ length lengths)%nat →
  construct h lengths (Z.of_nat n) = Some (err, h') →
  lengths_ok (take n lengths) → length (h_count h) = 16%nat → (n ≤ length (h_symbol h))%nat →
  ∃ b, bad_code err (Z.of_nat n) h' = Some b ∧ (b = false ↔ usable (take n lengths)) ∧
       (b = false → table_for h' (take n lengths) ∧ not_over (take n lengths)) ∧
       length (h_count h') = 16%nat ∧ length (h_symbol h') = length (h_symbol h).
Proof.
  intros Hn Hc Hok Hcnt Hsym. pose proof (construct_spec h lengths n Hn Hok Hcnt Hsym) as H.
  rewrite Hc in H. cbn [succeeds] in H. set (L := take n lengths) in *.
  destruct H as (Hc16 & Hs & Hcv & Hcase). unfold bad_code. rewrite !Hcv by lia.
  simpl_bind. eexists. split; [done|].
  assert (length L = n) as HLn by (unfold L; rewrite length_take; lia).
  assert (complete L ↔ left_codes L 15 = 0) as Hcompl.
  { split; [intros Hcm; by apply (Hcm 15%nat)|by intros ? l ->]. }
  unfold usable. rewrite Hcompl, HLn.
  destruct Hcase as [[Herr Hno]|(Herr & Hno & Htab & Hcase)].
  - assert (negb (err =? 0) && ((err <? 0) || negb (Z.of_nat n =? cnt L 0 + cnt L 1)) = true) as -> by lia.
    split_and!; [|done..]. split; [done|]. by intros [? _].
  - split_and!; [|done..].
    assert (err = 0 ∨ cnt L 0 + cnt L 1 = Z.of_nat n ↔ left_codes L 15 = 0 ∨ cnt L 0 + cnt L 1 = Z.of_nat n) as Hiff.
    { destruct Hcase as [[-> _] | [-> E0]]; [done|].
      pose proof (cnt_rest_zero L 0 1 ltac:(lia) ltac:(lia)). split; [|tauto]. lia. }
    split.
    + intros Hb. split; [done|]. apply Hiff. lia.
    + intros [_ Hu%Hiff]. lia.
Qed.

Lemma construct_some h lengths n :
  (n ≤ length lengths)%nat → lengths_ok (take n lengths) →
  length (h_count h) = 16%nat → (n ≤ length (h_symbol h))%nat →
  ∃ err h', construct h lengths (Z.of_nat n) = Some (err, h').
Proof.
  intros. pose proof (construct_spec h lengths n) as Hs. destruct (construct h lengths _) as [[err h']|].
  - eauto.
  - destruct Hs; done.
Qed.

Section top.
Context (W : Z) (dest : option (list Z)) (outlen : Z).
Abbreviation out_ok := (out_ok W dest outlen).
Abbreviation ok := (ok W dest outlen).
Abbreviation fits := (fits dest outlen).
Abbreviation weak := (weak W dest outlen).

(** The arrays once the lengths [L] and [D] have been read. *)
Record arrays_ok (lencode distcode : huffman) (lengths L D : list Z) : Prop := ArraysOk {
  ao_lengths : take (length L + length D) lengths = L ++ D;
  ao_size : (length L + length D ≤ length lengths)%nat;
  ao_ok : lengths_ok (L ++ D);
  ao_nlen : (257 ≤ length L ≤ 286)%nat;
  ao_ndist : (1 ≤ length D ≤ 30)%nat;
  ao_lencnt : length (h_count lencode) = 16%nat;
  ao_lensym : length (h_symbol lencode) = 286%nat;
  ao_distcnt : length (h_count distcode) = 16%nat;
  ao_distsym : length (h_symbol distcode) = 30%nat }.

Lemma arrays_split lencode distcode lengths L D :
  arrays_ok lencode distcode lengths L D →
  take (length L) lengths = L ∧ take (length D) (drop (length L) lengths) = D ∧
  aget lengths 256 = L !! 256%nat.
Proof.
  intros []. assert (take (length L) lengths = L) as EL.
  { trans (take (length L) (L ++ D)); [|apply take_app_length].
    rewrite <-ao_lengths0, take_take. f_equal. lia. }
  split_and!; [done| |].
  - rewrite take_drop_commute, ao_lengths0. by rewrite drop_app_length.
  - rewrite <-EL, lookup_take_lt by lia. done.
Qed.

(** What [dynamic_codes] computes: an error, or the decoding with two tables. *)
Lemma dynamic_codes_cases fuel lencode distcode lengths L D s :
  arrays_ok lencode distcode lengths L D →
  (∃ lc dc, table_for lc L ∧ table_for dc D ∧ not_over L ∧ not_over D ∧
     L !! 256%nat ≠ Some 0 ∧ usable L ∧ usable D ∧
     dynamic_codes W fuel lencode distcode lengths (Z.of_nat (length L)) (Z.of_nat (length D)) s
     = codes W fuel lc dc s) ∨
  (¬ (L !! 256%nat ≠ Some 0 ∧ usable L ∧ usable D) ∧ ∃ v, bad v ∧
     dynamic_codes W fuel lencode distcode lengths (Z.of_nat (length L)) (Z.of_nat (length D)) s
     = Ret v s).
Proof.
  intros Ha. destruct (arrays_split _ _ _ _ _ Ha) as (EL & ED & E256). destruct Ha.
  apply lengths_ok_app in ao_ok0 as [HokL HokD].
  unfold dynamic_codes. rewrite E256.
  destruct (lookup_lt_is_Some_2 L 256) as [l256 Hl]; [lia|]. rewrite Hl, bind_lift.
  destruct (Z.eqb_spec l256 0) as [->|Hne].
  { right. split; [by intros [? _]|]. exists (-9). split; [unfold bad; lia|done]. }
  destruct (construct_some lencode lengths (length L)) as (e1 & lc & Ec1); rewrite ?EL; [lia|done..|lia|].
  destruct (bad_code_spec lencode lengths (length L) e1 lc ltac:(lia) Ec1) as (b1 & Eb1 & Hb1 & Ht1 & _); rewrite ?EL; [done..|lia|].
  rewrite EL in Hb1, Ht1. rewrite Ec1, bind_lift. cbn beta iota. rewrite Eb1, bind_lift.
  destruct b1.
  { right. split; [intros (_ & Hu%Hb1 & _); done|]. exists (-7). split; [unfold bad; lia|done]. }
  rewrite Nat2Z.id.
  assert (length D ≤ length (drop (length L) lengths))%nat as HDl by (rewrite length_drop; lia).
  destruct (construct_some distcode (drop (length L) lengths) (length D)) as (e2 & dc & Ec2);
    rewrite ?ED; [done..|lia|].
  destruct (bad_code_spec _ _ _ _ _ HDl Ec2) as (b2 & Eb2 & Hb2 & Ht2 & _); rewrite ?ED; [done..|lia|].
  rewrite ED in Hb2, Ht2. rewrite Ec2, bind_lift. cbn beta iota. rewrite Eb2, bind_lift.
  destruct b2.
  { right. split; [intros (_ & _ & Hu%Hb2); done|]. exists (-8). split; [unfold bad; lia|done]. }
  left. destruct (Ht1 eq_refl), (Ht2 eq_refl). exists lc, dc.
  split_and!; try done; [congruence|by apply Hb1|by apply Hb2].
Qed.

(** ** Dynamic blocks *)

Definition block_result (type : Z) (s : state) (out : list Z) (v : Z) (s' : state) : Prop :=
  (v = 0 ∧ ∃ bs out', block type (bs ++ stream s') (stream s') out out' ∧ takes W s bs s' ∧
     ok s' out') ∨ (bad v ∧ weak s').

Lemma ok_reads s bs s' out : ok s out → reads W s bs s' → ok s' out.
Proof.
  intros Hok Hr. eapply ok_takes; [done|by eapply reads_takes|by eapply reads_same].
Qed.

(** The part of [dynamic] that follows the three counts. *)
Lemma wp_dynamic_tail fuel mem (nlen ndist ncode : nat) s0 pre s out :
  mem_ok mem → ok s out → takes W s0 pre s → (length (stream s) < fuel)%nat →
  (257 ≤ nlen ≤ 286)%nat → (1 ≤ ndist ≤ 30)%nat → (4 ≤ ncode ≤ 19)%nat →
  pre = bits_of 5 (Z.of_nat nlen - 257) ++ bits_of 5 (Z.of_nat ndist - 1) ++
        bits_of 4 (Z.of_nat ncode - 4) →
  wp (lengths ← read_code_lengths W 19 0 (Z.of_nat ncode) (m_lengths mem);
      '(err, lencode) ← lift (construct (m_lencode mem) lengths 19);
      if negb (err =? 0) then mret (-4)
      else
        r ← read_lengths W (Z.to_nat MAXCODES) lencode 0 (Z.of_nat nlen + Z.of_nat ndist) lengths;
        match r with
        | inl err => mret err
        | inr lengths =>
            dynamic_codes W fuel lencode (m_distcode mem) lengths (Z.of_nat nlen) (Z.of_nat ndist)
        end) s (block_result 2 s0 out) weak.
Proof.
  intros [] Hok Ht0 Hf Hnl Hnd Hnc Hpre.
  eapply wp_bind; [apply (wp_read_code_lengths W dest outlen ncode 19 0%nat); [done|lia|apply Hok..]|].
  intros lengths s1 ([Hlen _] & Hfrom & Hr1 & Ho1). cbn beta.
  destruct (code_lengths_array ncode lengths ltac:(lia) Hfrom) as (HC & HCok & Eclf). rewrite Eclf in Hr1.
  set (C := take 19 lengths) in *.
  assert (length C = 19%nat) as HC19 by apply HC.
  change 19 with (Z.of_nat 19).
  apply (wp_bind_lift _ _ _ _ _ _ (construct_spec (m_lencode mem) lengths 19 ltac:(lia) HCok
    ltac:(lia) ltac:(lia))).
  intros [err lencode] (Hlc & Hls & _ & Hcase). fold C in Hcase.
  destruct (Z.eqb_spec err 0) as [->|]; cbn [negb].
  2:{ apply wp_ret. right. split; [unfold bad; lia|by exists out]. }
  destruct Hcase as [[? _]|(_ & HCno & HCt & Hcase)]; [lia|].
  rewrite <-Nat2Z.inj_add.
  eapply wp_bind; [apply (wp_read_lengths W dest outlen lencode C HCt HC19 (nlen + ndist) _ 0%nat);
    [lia|change (Z.to_nat MAXCODES) with 316%nat; lia|apply Hr1|done]|].
  intros [v|lengths'] s2; cbn beta iota.
  { intros ?. apply wp_ret. by right. }
  intros (bs & Hlen' & Henc & Hr2 & Ho2). rewrite take_0 in Henc.
  assert (complete C) as HCc.
  { destruct Hcase as [[E _]|[_ E]]; [by intros l ->|].
    pose proof (enc_lengths_code C (nlen + ndist) _ bs ltac:(lia) Henc). lia. }
  set (L := take nlen lengths'). set (D := take ndist (drop nlen lengths')).
  assert (length L = nlen) as HL by (unfold L; rewrite length_take; lia).
  assert (length D = ndist) as HD by (unfold D; rewrite length_take, length_drop; lia).
  assert (take (nlen + ndist) lengths' = L ++ D) as ELD by (unfold L, D; by rewrite take_take_drop).
  rewrite ELD in Henc.
  assert (arrays_ok lencode (m_distcode mem) lengths' L D) as Ha.
  { split; rewrite ?HL, ?HD; try (done || lia). eapply enc_lengths_ok; [done|]. by constructor. }
  pose proof (reads_trans _ _ _ _ _ _ Hr1 Hr2) as Hr12.
  pose proof (ok_reads _ _ _ _ Hok Hr12) as Hok2.
  pose proof (dynamic_codes_cases fuel _ _ _ _ _ s2 Ha) as Hcases. rewrite HL, HD in Hcases.
  destruct Hcases as [(lc & dc & Tl & Td & Nl & Nd & H256 & Ul & Ud & E)|(_ & v & Hv & E)];
    unfold wp; rewrite E; [|right; split; [done|by exists out]].
  eapply wp_mono; [apply (wp_codes W dest outlen lc dc L D Tl Td); [lia|lia|exact Hok2|]| |done].
  { rewrite (rd_stream _ _ _ _ Hr12), length_app in Hf. lia. }
  intros v s3 [(-> & its & bs3 & out3 & Hits & Hap & Ht3 & Hok3)|]; [left|by right].
  split; [done|]. eexists (_ ++ bs3), out3. split_and!; [| |done].
  - rewrite <-app_assoc. eapply block_dynamic; [|done|done].
    eapply enc_dyn with (C := C) (ncode := ncode); rewrite ?HL, ?HD; try done.
  - rewrite HL, HD. eapply takes_trans; [|done].
    assert (pre ++ enc_code_lengths C ncode ++ bs =
      bits_of 5 (Z.of_nat nlen - 257) ++ bits_of 5 (Z.of_nat ndist - 1) ++
      bits_of 4 (Z.of_nat ncode - 4) ++ enc_code_lengths C ncode ++ bs) as <-.
    { by rewrite Hpre, <-!app_assoc. }
    eapply takes_trans; [done|]. by apply reads_takes.
Qed.

Lemma wp_dynamic fuel mem s out :
  mem_ok mem → ok s out → (length (stream s) < fuel)%nat →
  wp (dynamic W fuel mem) s (block_result 2 s out) weak.
Proof.
  intros Hm Hok Hf. unfold dynamic.
  eapply wp_bind; [apply wp_bits; [apply Hok..|lia]|]. intros x1 s1 (R1 & O1 & W1). cbn beta zeta.
  eapply wp_bind; [apply wp_bits; [apply R1|done|lia]|]. intros x2 s2 (R2 & O2 & W2). cbn beta.
  eapply wp_bind; [apply wp_bits; [apply R2|done|lia]|]. intros x3 s3 (R3 & O3 & W3). cbn beta.
  unfold in_width in W1, W2, W3. unfold MAXLCODES, MAXDCODES.
  destruct ((286 <? x1 + 257) || (30 <? x2 + 1)) eqn:Elim.
  { apply wp_ret. right. split; [unfold bad; lia|by exists out]. }
  pose proof (reads_trans _ _ _ _ _ _ R1 (reads_trans _ _ _ _ _ _ R2 R3)) as R.
  pose proof (wp_dynamic_tail fuel mem (Z.to_nat (x1 + 257)) (Z.to_nat (x2 + 1)) (Z.to_nat (x3 + 4))
    s _ s3 out Hm (ok_reads _ _ _ _ Hok R) (reads_takes _ _ _ _ R)) as Hwp.
  rewrite !Z2Nat.id in Hwp by lia. apply Hwp; try lia.
  - rewrite (rd_stream _ _ _ _ R), length_app in Hf. lia.
  - replace (x1 + 257 - 257) with x1 by lia. replace (x2 + 1 - 1) with x2 by lia.
    replace (x3 + 4 - 4) with x3 by lia. done.
Qed.

Lemma enc_items_length L D its bs : enc_items L D its bs → (length its < length bs)%nat.
Proof.
  assert (∀ it b, enc_item L D it b → (1 ≤ length b)%nat) as Hit.
  { intros it b []; rewrite ?length_app;
      (match goal with H : code_bits L _ _ |- _ => pose proof (code_bits_nonempty _ _ _ H) end); lia. }
  induction 1 as [bs Hb|it its bs bs' H1 _ IH]; cbn [length].
  - by eapply code_bits_nonempty.
  - rewrite length_app. specialize (Hit _ _ H1). lia.
Qed.

(** The outcome of a block of the format. *)
Definition block_runs (o : outcome Z) (s : state) (bs : list bool) (out' : list Z) : Prop :=
  (fits (Z.of_nat (length out')) → ∃ s', o = Ret 0 s' ∧ takes W s bs s' ∧ ok s' out') ∧
  (¬ fits (Z.of_nat (length out')) → ∃ s', o = Ret 1 s' ∧ weak s').

Lemma block_runs_takes o s0 s pre bs out' :
  takes W s0 pre s → block_runs o s bs out' → block_runs o s0 (pre ++ bs) out'.
Proof.
  intros Ht [Hy Hn]. split; [|done]. intros Hf. destruct (Hy Hf) as (s' & ? & ? & ?).
  exists s'. split_and!; [done|by eapply takes_trans|done].
Qed.

Lemma code_lengths_take C lengths lengths' n :
  (19 ≤ length lengths)%nat → lengths_kept 0 lengths lengths' → code_lengths_for C n →
  (∀ k' i, length_order !! k' = Some i → (0 ≤ k')%nat → nth i lengths' 0 = nth i C 0) →
  take 19 lengths' = C.
Proof.
  intros Hl [Hl' _] (HC & _) Hv. apply nth_list_eq; rewrite length_take; [lia|].
  intros i Hi. rewrite nth_take by lia. destruct (order_onto i ltac:(lia)) as (k & Hk & _).
  apply (Hv k); [done|lia].
Qed.

Lemma dynamic_run fuel mem L D its hs bs rest s out out' :
  mem_ok mem → enc_header L D hs → enc_items L D its bs → apply_items out its = Some out' →
  ok s out → stream s = hs ++ bs ++ rest → (length (stream s) < fuel)%nat →
  block_runs (dynamic W fuel mem s) s (hs ++ bs) out'.
Proof.
  intros [] Hh Hits Hap Hok Hs Hf.
  destruct Hh as [C ncode hs HL HD Hn HC HCno HCc Henc H256 UL UD].
  rewrite <-!app_assoc in Hs. unfold dynamic.
  destruct (bits_run W 5 (Z.of_nat (length L) - 257) s _ (ok_wf _ _ _ _ _ Hok) ltac:(lia)
    ltac:(unfold in_width; lia) Hs) as (s1 & E1 & R1).
  rewrite (bind_ret _ _ _ _ s1 E1). cbv zeta.
  pose proof (rd_stream _ _ _ _ R1) as S1. rewrite Hs in S1. apply app_inv_head in S1.
  destruct (bits_run W 5 (Z.of_nat (length D) - 1) s1 _ (rd_wf _ _ _ _ R1) ltac:(lia)
    ltac:(unfold in_width; lia) (eq_sym S1)) as (s2 & E2 & R2).
  rewrite (bind_ret _ _ _ _ s2 E2).
  pose proof (rd_stream _ _ _ _ R2) as S2. rewrite <-S1 in S2. apply app_inv_head in S2.
  destruct (bits_run W 4 (Z.of_nat ncode - 4) s2 _ (rd_wf _ _ _ _ R2) ltac:(lia)
    ltac:(unfold in_width; lia) (eq_sym S2)) as (s3 & E3 & R3).
  rewrite (bind_ret _ _ _ _ s3 E3).
  pose proof (rd_stream _ _ _ _ R3) as S3. rewrite <-S2 in S3. apply app_inv_head in S3.
  replace (Z.of_nat (length L) - 257 + 257) with (Z.of_nat (length L)) by lia.
  replace (Z.of_nat (length D) - 1 + 1) with (Z.of_nat (length D)) by lia.
  replace (Z.of_nat ncode - 4 + 4) with (Z.of_nat ncode) by lia.
  unfold MAXLCODES, MAXDCODES.
  destruct (Z.ltb_spec 286 (Z.of_nat (length L))); [lia|].
  destruct (Z.ltb_spec 30 (Z.of_nat (length D))); [lia|]. cbn [orb].
  rewrite <-code_lengths_from_0 in S3.
  destruct (read_code_lengths_run W ncode C 19 0%nat (m_lengths mem) s3 _ eq_refl ltac:(lia)
    (rd_wf _ _ _ _ R3) HC (eq_sym S3)) as (l4 & s4 & E4 & Hk4 & Hv4 & R4).
  rewrite (bind_ret _ _ _ _ s4 E4).
  pose proof (code_lengths_take C (m_lengths mem) l4 ncode ltac:(lia) Hk4 HC Hv4) as EC.
  pose proof (rd_stream _ _ _ _ R4) as S4. rewrite <-S3 in S4. apply app_inv_head in S4.
  assert (length l4 = 316%nat) as Hl4 by (destruct Hk4 as [-> _]; done).
  assert (lengths_ok C) as HCok.
  { destruct HC as (_ & HCw & _). eapply Forall_impl; [exact HCw|]. unfold in_width. lia. }
  change 19 with (Z.of_nat 19).
  pose proof (construct_spec (m_lencode mem) l4 19 ltac:(lia) ltac:(by rewrite EC) ltac:(lia) ltac:(lia)) as Hc.
  destruct (construct (m_lencode mem) l4 (Z.of_nat 19)) as [[err lencode]|]; [|done].
  cbn [succeeds] in Hc. rewrite EC in Hc. destruct Hc as (Hlc & Hls & _ & Hcase).
  destruct Hcase as [[_ ?]|(_ & _ & HCt & Hcase)]; [by exfalso|].
  assert (err = 0) as -> by (destruct Hcase as [[-> _] | [-> _]]; [by apply (HCc 15%nat)|done]).
  rewrite bind_lift. cbn [negb Z.eqb]. rewrite <-Nat2Z.inj_add.
  destruct (read_lengths_run W lencode C HCt (proj1 HC) HCno (length L + length D) [] (L ++ D) hs Henc
    (Z.to_nat MAXCODES) l4 s4 _ eq_refl ltac:(lia) ltac:(simpl; lia)
    ltac:(change (Z.to_nat MAXCODES) with 316%nat; simpl; lia) (rd_wf _ _ _ _ R4) (eq_sym S4))
    as (l5 & s5 & E5 & Hl5 & Ht5 & R5).
  change (Z.of_nat (length (@nil Z))) with 0 in E5. rewrite (bind_ret _ _ _ _ s5 E5).
  pose proof (rd_stream _ _ _ _ R5) as S5. rewrite <-S4 in S5. apply app_inv_head in S5.
  assert (arrays_ok lencode (m_distcode mem) l5 L D) as Ha.
  { split; try (done || lia). eapply enc_lengths_ok; [done|]. by constructor. }
  destruct (dynamic_codes_cases fuel _ _ _ _ _ s5 Ha)
    as [(lc & dc & Tl & Td & Nl & Nd & _ & _ & _ & ->)|(Hno & _)]; [|by exfalso; apply Hno].
  pose proof (reads_trans _ _ _ _ _ _ R1 (reads_trans _ _ _ _ _ _ R2 (reads_trans _ _ _ _ _ _ R3
    (reads_trans _ _ _ _ _ _ R4 R5)))) as R.
  pose proof (enc_items_length _ _ _ _ Hits).
  rewrite <-code_lengths_from_0.
  eapply block_runs_takes; [by apply reads_takes|].
  apply (codes_run W dest outlen lc dc L D Tl Td ltac:(lia) ltac:(lia) Nl Nd its bs Hits fuel s5 out out' rest);
    [by eapply ok_reads|done|done|].
  rewrite Hs, !length_app in Hf. lia.
Qed.

(** ** Fixed blocks and the loop over the blocks *)

Lemma wp_fixed fuel s out :
  ok s out → (length (stream s) < fuel)%nat → wp (fixed W fuel) s (block_result 1 s out) weak.
Proof.
  intros Hok Hf. unfold fixed. eapply wp_bind_lift; [apply fixed_tables_spec|].
  intros [lc dc] [Tl Td].
  eapply wp_mono; [apply (wp_codes W dest outlen lc dc _ _ Tl Td); [vm_compute; lia|vm_compute; lia|done..]| |done].
  intros v s3 [(-> & its & bs3 & out3 & Hits & Hap & Ht3 & Hok3)|]; [left|by right].
  split; [done|]. exists bs3, out3. split_and!; [|done..]. by eapply block_fixed.
Qed.

Lemma fixed_run fuel its bs rest s out out' :
  enc_items fixed_L fixed_D its bs → apply_items out its = Some out' →
  ok s out → stream s = bs ++ rest → (length (stream s) < fuel)%nat →
  block_runs (fixed W fuel s) s bs out'.
Proof.
  intros Hits Hap Hok Hs Hf. unfold fixed. pose proof fixed_tables_spec as Hft.
  destruct fixed_tables as [[lc dc]|]; [|done]. destruct Hft as [Tl Td]. rewrite bind_lift.
  pose proof (enc_items_length _ _ _ _ Hits).
  apply (codes_run W dest outlen lc dc _ _ Tl Td ltac:(vm_compute; lia) ltac:(vm_compute; lia)
    (proj1 fixed_not_over) (proj2 fixed_not_over) its bs Hits fuel s out out' rest); try done.
  rewrite Hs, length_app in Hf. lia.
Qed.

(** Decoding one block of type [type]. *)
Definition one_block (fuel : nat) (mem : dynamic_mem) (type : Z) : M Z :=
  if type =? 0 then stored W
  else if type =? 1 then fixed W fuel
  else if type =? 2 then dynamic W fuel mem
  else mret (-1).

Lemma wp_one_block fuel mem type s out :
  mem_ok mem → ok s out → (length (stream s) < fuel)%nat → in_width 2 type →
  wp (one_block fuel mem type) s (block_result type s out) weak.
Proof.
  intros Hm Hok Hf Hty. unfold one_block, in_width in *.
  destruct (Z.eqb_spec type 0) as [->|]; [by apply wp_stored|].
  destruct (Z.eqb_spec type 1) as [->|]; [by apply wp_fixed|].
  destruct (Z.eqb_spec type 2) as [->|]; [by apply wp_dynamic|].
  right. split; [unfold bad; lia|]. exists out. apply Hok.
Qed.

Lemma one_block_run fuel mem type bs rest s out out' :
  mem_ok mem → block type bs rest out out' → ok s out → stream s = bs →
  (length (stream s) < fuel)%nat →
  ∃ b, bs = b ++ rest ∧ block_runs (one_block fuel mem type s) s b out'.
Proof.
  intros Hm Hb Hok Hs Hf. destruct Hb as
    [pad data rest out Hp Hr Hd Hl|its bs rest out out' Hits Hap|L D its hs bs rest out out' Hh Hits Hap].
  - exists (pad ++ stored_bits data). rewrite <-app_assoc. split; [done|].
    destruct (stored_run W dest outlen s out pad data rest Hok Hs Hp Hr Hd Hl) as [Hy Hn].
    by split.
  - exists bs. split; [done|]. by eapply fixed_run.
  - exists (hs ++ bs). rewrite <-app_assoc. split; [done|]. by eapply dynamic_run.
Qed.

Lemma blocks_unfold fuel mem :
  blocks W (S fuel) mem =
  (last ← bits W 1; type ← bits W 2; err ← one_block (S fuel) mem type;
   if negb (err =? 0) then mret err else if last =? 0 then blocks W fuel mem else mret 0).
Proof. done. Qed.

Lemma bits_of_1 v : in_width 1 v → bits_of 1 v = [negb (v =? 0)] ∧ (v = 0 ∨ v = 1).
Proof. intros Hv. unfold in_width in Hv. assert (v = 0 ∨ v = 1) as [-> | ->] by lia; auto. Qed.

Definition stream_result (s : state) (out : list Z) (v : Z) (s' : state) : Prop :=
  (v = 0 ∧ ∃ out', deflate (stream s) (stream s') out out' ∧ ok s' out' ∧
     s_in s' = s_in s ∧ s_inlen s' = s_inlen s) ∨ (bad v ∧ weak s').

(** Soundness of the loop, with its termination. *)
Lemma wp_blocks mem fuel : ∀ s out,
  mem_ok mem → ok s out → (length (stream s) < fuel)%nat →
  wp (blocks W fuel mem) s (stream_result s out) weak.
Proof.
  induction fuel as [|fuel IH]; intros s out Hm Hok Hf; [lia|]. rewrite blocks_unfold.
  eapply wp_bind; [apply wp_bits; [apply Hok..|lia]|]. intros last s1 (R1 & O1 & W1). cbn beta.
  eapply wp_bind; [apply wp_bits; [apply R1|done|lia]|]. intros type s2 (R2 & O2 & W2). cbn beta.
  pose proof (reads_trans _ _ _ _ _ _ R1 R2) as R. pose proof (ok_reads _ _ _ _ Hok R) as Hok2.
  pose proof (rd_stream _ _ _ _ R) as S. destruct (bits_of_1 last W1) as [El Hl].
  change (Z.to_nat 1) with 1%nat in S. change (Z.to_nat 2) with 2%nat in S. rewrite El in S.
  rewrite S in Hf. cbn [length app] in Hf. rewrite length_app, length_bits_of in Hf.
  eapply wp_bind; [apply (wp_one_block (Datatypes.S fuel) mem type s2 out Hm Hok2); [lia|done]|].
  intros err s3 [(-> & bs & out3 & Hblk & Ht3 & Hok3)|[Hb Hw]]; cbn beta.
  2:{ destruct (Z.eqb_spec err 0); [unfold bad in Hb; lia|]. apply wp_ret. by right. }
  cbn [negb Z.eqb]. rewrite (tk_stream _ _ _ _ Ht3) in S, Hf.
  destruct Ht3 as [_ _ I3 L3], R as [_ _ IR LR _ _ _].
  destruct Hl as [-> | ->]; cbn [Z.eqb negb app] in S |- *.
  - eapply wp_mono; [apply (IH s3 out3 Hm Hok3)| |done].
    { rewrite length_app in Hf. lia. }
    intros v s4 [(-> & out4 & Hd & Hok4 & I4 & L4)|]; [left|by right].
    split; [done|]. exists out4. split_and!; [|done|congruence|congruence].
    rewrite S. by eapply deflate_more.
  - apply wp_ret. left. split; [done|]. exists out3. split_and!; [|done|congruence|congruence].
    rewrite S. by apply deflate_last.
Qed.

(** Completeness of the loop. *)
Lemma blocks_run mem bs rest out out' : mem_ok mem → deflate bs rest out out' →
  ∀ fuel s, ok s out → stream s = bs → (length (stream s) < fuel)%nat →
  (fits (Z.of_nat (length out')) →
   ∃ s', blocks W fuel mem s = Ret 0 s' ∧ stream s' = rest ∧ ok s' out' ∧
     s_in s' = s_in s ∧ s_inlen s' = s_inlen s) ∧
  (¬ fits (Z.of_nat (length out')) → ∃ s', blocks W fuel mem s = Ret 1 s' ∧ weak s').
Proof.
  intros Hm Hd.
  assert (∀ fuel s last type b out, ok s out → in_width 1 last → in_width 2 type →
    stream s = bits_of 1 last ++ bits_of 2 type ++ b →
    ∃ s2, blocks W (S fuel) mem s =
      (err ← one_block (S fuel) mem type;
       if negb (err =? 0) then mret err else if last =? 0 then blocks W fuel mem else mret 0) s2 ∧
      stream s2 = b ∧ ok s2 out ∧ s_in s2 = s_in s ∧ s_inlen s2 = s_inlen s) as Hhead.
  { intros fuel s last type b o Hok W1 W2 S. rewrite blocks_unfold.
    destruct (bits_run W 1 last s _ (ok_wf _ _ _ _ _ Hok) ltac:(lia) W1 S) as (s1 & E1 & R1).
    rewrite (bind_ret _ _ _ _ s1 E1).
    pose proof (rd_stream _ _ _ _ R1) as S1. rewrite S in S1. apply app_inv_head in S1.
    destruct (bits_run W 2 type s1 _ (rd_wf _ _ _ _ R1) ltac:(lia) W2 (eq_sym S1)) as (s2 & E2 & R2).
    rewrite (bind_ret _ _ _ _ s2 E2).
    pose proof (rd_stream _ _ _ _ R2) as S2. rewrite <-S1 in S2. apply app_inv_head in S2.
    pose proof (reads_trans _ _ _ _ _ _ R1 R2) as R.
    exists s2. split_and!; [done|done|by eapply ok_reads|apply R|apply R]. }
  assert (∀ type b r o o', block type b r o o' → in_width 2 type) as Hty.
  { intros ? ? ? ? ? []; unfold in_width; lia. }
  induction Hd as [type b rest out out' Hblk|type b mid rest out out' out'' Hblk Hd IH];
    intros fuel s Hok Hs Hf; (destruct fuel as [|fuel]; [lia|]).
  - destruct (Hhead fuel s 1 type b out Hok ltac:(done) ltac:(by eapply Hty) Hs) as (s2 & -> & S2 & Hok2 & I2 & L2).
    destruct (one_block_run (S fuel) mem type b rest s2 out out' Hm Hblk Hok2 S2)
      as (b' & Eb & [Hy Hn]).
    { rewrite Hs in Hf. cbn [length] in Hf. rewrite length_app, length_bits_of in Hf. rewrite S2. lia. }
    split.
    + intros Hfit. destruct (Hy Hfit) as (s3 & E3 & Ht3 & Hok3). exists s3.
      rewrite (bind_ret _ _ _ _ s3 E3). destruct Ht3 as [T1 _ T3 T4].
      split_and!; [done| |done|congruence|congruence].
      rewrite S2, Eb in T1. by apply app_inv_head in T1.
    + intros Hfit. destruct (Hn Hfit) as (s3 & E3 & Hw3). exists s3.
      by rewrite (bind_ret _ _ _ _ s3 E3).
  - destruct (Hhead fuel s 0 type b out Hok ltac:(done) ltac:(by eapply Hty) Hs) as (s2 & -> & S2 & Hok2 & I2 & L2).
    assert (length b < fuel)%nat as Hbf.
    { rewrite Hs in Hf. cbn [length] in Hf. rewrite length_app, length_bits_of in Hf. lia. }
    destruct (one_block_run (S fuel) mem type b mid s2 out out' Hm Hblk Hok2 S2)
      as (b' & Eb & [Hy Hn]); [rewrite S2; lia|].
    destruct (decide (dest ≠ None → Z.of_nat (length out') ≤ outlen)) as [Hfit|Hfit].
    + destruct (Hy Hfit) as (s3 & E3 & Ht3 & Hok3). rewrite (bind_ret _ _ _ _ s3 E3).
      destruct Ht3 as [T1 _ T3 T4]. rewrite S2, Eb in T1. apply app_inv_head in T1.
      destruct (IH fuel s3 Hok3 (eq_sym T1)) as (Hy' & Hn').
      { rewrite Eb, length_app in Hbf. rewrite <-T1. lia. }
      split; [|done]. intros Hf'. destruct (Hy' Hf') as (s4 & ? & ? & ? & ? & ?).
      exists s4. split_and!; (done || congruence).
    + destruct (Hn Hfit) as (s3 & E3 & Hw3).
      pose proof (deflate_length _ _ _ _ Hd).
      split.
      * intros Hf'. exfalso. apply Hfit. intros Hdn. specialize (Hf' Hdn). lia.
      * intros _. exists s3. by rewrite (bind_ret _ _ _ _ s3 E3).
Qed.
End top.

(** ** The entry point *)

(** What a caller of [puff] must provide: the source is bytes, the
    destination is [NIL] or has room for [destlen] bytes, the local arrays
    have their declared sizes, and no count can wrap around in the [W] bits
    of an [unsigned long]. *)
Record puff_pre (W : Z) (mem : dynamic_mem) (dest : option (list Z)) (destlen : Z)
    (source : list Z) : Prop := PuffPre {
  pp_mem : mem_ok mem;
  pp_source : bytes source;
  pp_room : Z.of_nat (length source) + 65540 < 2 ^ W;
  pp_dest :
    match dest with
    | Some buf => 0 ≤ destlen ≤ Z.of_nat (length buf) ∧ destlen + 65536 < 2 ^ W
    | None => 2064 * Z.of_nat (length source) < 2 ^ W
    end }.

(** The destination after [out] has been written to it. *)
Definition dest_after (dest : option (list Z)) (out : list Z) : option (list Z) :=
  (λ buf, out ++ drop (length out) buf) <$> dest.

Definition start (dest : option (list Z)) (destlen : Z) (source : list Z) : state :=
  State dest destlen 0 source (Z.of_nat (length source)) 0 0 0.

Section entry.
Context (W : Z) (mem : dynamic_mem) (dest : option (list Z)) (destlen : Z) (source : list Z).
Context (Hpre : puff_pre W mem dest destlen source).
Abbreviation sourcelen := (Z.of_nat (length source)).

Lemma start_stream : stream (start dest destlen source) = bytes_bits source.
Proof. done. Qed.

Lemma start_ok : ok W dest destlen (start dest destlen source) [].
Proof.
  destruct Hpre as [_ Hs Hr Hd]. split.
  - split; [split; simpl; (done || lia)|simpl; lia|done].
  - split; [done|done|by constructor|]. destruct dest; simpl; [|done]. split_and!; [done|lia..].
  - intros Hn. rewrite start_stream, length_bytes_bits. rewrite Hn in Hd. simpl. lia.
Qed.

Lemma start_fuel : (length (stream (start dest destlen source)) < puff_fuel sourcelen)%nat.
Proof. rewrite start_stream, length_bytes_bits. unfold puff_fuel. lia. Qed.

Lemma out_ok_dest s out : out_ok W dest destlen s out → s_out s = dest_after dest out.
Proof. intros [_ _ _ Hd]. unfold dest_after. destruct dest; simpl; [apply Hd|done]. Qed.

Lemma out_ok_fits s out : out_ok W dest destlen s out → fits dest destlen (Z.of_nat (length out)).
Proof. intros [_ _ _ Hd] Hn. destruct dest; [lia|done]. Qed.

Lemma consumed s : in_wf W s → s_inlen s = sourcelen →
  s_incnt s = sourcelen - Z.of_nat (length (stream s)) / 8.
Proof.
  intros Hwf Hl. rewrite (stream_length W s Hwf). destruct Hwf as [_ Hb _].
  replace (s_bitcnt s + 8 * (s_inlen s - s_incnt s)) with (s_bitcnt s + (s_inlen s - s_incnt s) * 8) by lia.
  rewrite Z.div_add, Z.div_small by lia. lia.
Qed.

(** The three ways the run of the blocks can end. *)
Lemma puff_cases :
  (∃ out rest, puff W mem dest destlen source sourcelen =
     Some (PuffResult 0 (Z.of_nat (length out)) (sourcelen - Z.of_nat (length rest) / 8)
             (dest_after dest out)) ∧
     deflate (bytes_bits source) rest [] out ∧ bytes out ∧
     fits dest destlen (Z.of_nat (length out))) ∨
  (∃ v out n k, puff W mem dest destlen source sourcelen =
     Some (PuffResult v n k (dest_after dest out)) ∧ bad v ∧ bytes out ∧
     fits dest destlen (Z.of_nat (length out)) ∧
     (0 < v → n = destlen ∧ k = sourcelen)).
Proof.
  pose proof (wp_blocks W dest destlen mem _ _ _ (pp_mem _ _ _ _ _ Hpre) start_ok start_fuel) as H.
  unfold wp in H. unfold puff. fold (start dest destlen source).
  destruct (blocks W _ mem (start dest destlen source)) as [v s|s|]; [|right|done].
  - destruct H as [(-> & out & Hd & [Hwf Ho Hr] & Hin & Hil)|[Hb [out Ho]]]; [left|right].
    + exists out, (stream s). rewrite <-consumed by done. rewrite <-(out_ok_dest s out Ho).
      pose proof Ho as [<- _ ? _]. split_and!; [done..|]. rewrite (oo_cnt _ _ _ _ _ Ho). by eapply out_ok_fits.
    + exists v, out. rewrite <-(out_ok_dest s out Ho). pose proof (oo_bytes _ _ _ _ _ Ho).
      pose proof (out_ok_fits _ _ Ho).
      destruct (Z.leb_spec v 0); do 2 eexists; (split_and!; [done..|]); [lia|done].
  - destruct H as [out Ho]. exists 2, out. rewrite <-(out_ok_dest s out Ho).
    pose proof (oo_bytes _ _ _ _ _ Ho). pose proof (out_ok_fits _ _ Ho).
    do 2 eexists. split_and!; [done|unfold bad; lia|done..].
Qed.

Lemma puff_run out rest :
  deflate (bytes_bits source) rest [] out →
  (fits dest destlen (Z.of_nat (length out)) →
   puff W mem dest destlen source sourcelen =
   Some (PuffResult 0 (Z.of_nat (length out)) (sourcelen - Z.of_nat (length rest) / 8)
           (dest_after dest out))) ∧
  (¬ fits dest destlen (Z.of_nat (length out)) →
   ∃ dest', puff W mem dest destlen source sourcelen =
            Some (PuffResult 1 destlen sourcelen dest')).
Proof.
  intros Hd. destruct (blocks_run W dest destlen mem _ _ _ _ (pp_mem _ _ _ _ _ Hpre) Hd _ _
    start_ok start_stream start_fuel) as [Hy Hn].
  unfold puff. fold (start dest destlen source). split; intros Hf.
  - destruct (Hy Hf) as (s & -> & Hst & [Hwf Ho _] & Hin & Hil). simpl.
    rewrite <-Hst, <-consumed by done. rewrite <-(out_ok_dest s out Ho), (oo_cnt _ _ _ _ _ Ho). done.
  - destruct (Hn Hf) as (s & -> & _). by eexists.
Qed.
End entry.

(** ** A concrete stream: the byte 97 in a fixed block *)

Definition zero_mem : dynamic_mem :=
  DynamicMem (replicate 316 0) (Huffman (replicate 16 0) (replicate 286 0))
    (Huffman (replicate 16 0) (replicate 30 0)).

Lemma zero_mem_ok : mem_ok zero_mem.
Proof. by split. Qed.

Definition small_source : list Z := [75; 4; 0].

Lemma small_pre dest destlen :
  match dest with
  | Some buf => 0 ≤ destlen ≤ Z.of_nat (length buf) ∧ destlen ≤ 100
  | None => True
  end → puff_pre 64 zero_mem dest destlen small_source.
Proof.
  intros Hd. split; [apply zero_mem_ok| |done|].
  { repeat (constructor; [unfold in_width; lia|]). constructor. }
  change (2 ^ 64) with 18446744073709551616. destruct dest; simpl; lia.
Qed.

Lemma small_deflate : ∃ rest, deflate (bytes_bits small_source) rest [] [97].
Proof.
  destruct (puff_cases 64 zero_mem (Some [0]) 1 small_source) as
    [(out & rest & E & Hd & _)|(v & out & n & k & E & Hb & _)]; [by apply small_pre| |].
  - exists rest. vm_compute in E. injection E as _ _ E. destruct out as [|a [|]]; [done| |done].
    injection E as <-. done.
  - vm_compute in E. injection E as <- _ _ _. unfold bad in Hb. lia.
Qed.

(** C21. [puff] is memory safe and terminates on every input: whatever the bytes
    of the source, with a destination of at least [destlen] bytes or [NIL] and
    any content of its uninitialised local arrays, it returns (no access
    outside an array, no loop left running) with a code from -11 to 2; it only
    changes the first [destlen] bytes of the destination, and with a positive
    code it leaves [*destlen] and [*sourcelen] as they were. *)
Theorem puff_safe (W : Z) (mem : dynamic_mem) (dest : option (list Z)) (destlen : Z)
    (source : list Z) :
  puff_pre W mem dest destlen source →
  ∃ r, puff W mem dest destlen source (Z.of_nat (length source)) = Some r ∧
    -11 ≤ r_err r ≤ 2 ∧
    (∃ out, bytes out ∧ fits dest destlen (Z.of_nat (length out)) ∧ r_dest r = dest_after dest out) ∧
    (0 < r_err r → r_destlen r = destlen ∧ r_sourcelen r = Z.of_nat (length source)).
Proof.
  intros Hpre. destruct (puff_cases W mem dest destlen source Hpre) as
    [(out & rest & E & _ & Hb & Hf)|(v & out & n & k & E & [Hv _] & Hb & Hf & Hk)];
    rewrite E; eexists; (split; [done|]); cbn [r_err r_dest r_destlen r_sourcelen].
  - split_and!; [lia|lia|by exists out|lia].
  - split_and!; [lia|lia|by exists out|done].
Qed.

Lemma puff_safe_witness :
  puff_pre 64 zero_mem (Some [0; 0]) 2 small_source ∧
  ∃ r, puff 64 zero_mem (Some [0; 0]) 2 small_source 3 = Some r ∧ -11 ≤ r_err r ≤ 2.
Proof.
  assert (puff_pre 64 zero_mem (Some [0; 0]) 2 small_source) as H by (apply small_pre; simpl; lia).
  split; [exact H|]. destruct (puff_safe 64 zero_mem (Some [0; 0]) 2 small_source H) as (r & E & Hr & _).
  exists r. split; [exact E|exact Hr].
Defined.

(** C1. [puff] decodes exactly the deflate format: it returns zero if and only
    if the source starts with a series of blocks of RFC 1951 whose output fits
    the destination, and then [*destlen] is the length of that output,
    [*sourcelen] the number of source bytes used, and the destination holds
    the output followed by its old contents. *)
Theorem puff_decodes_format (W : Z) (mem : dynamic_mem) (dest : option (list Z)) (destlen : Z)
    (source : list Z) (n k : Z) (dest' : option (list Z)) :
  puff_pre W mem dest destlen source →
  puff W mem dest destlen source (Z.of_nat (length source)) = Some (PuffResult 0 n k dest') ↔
  ∃ out rest,
    deflate (bytes_bits source) rest [] out ∧ fits dest destlen (Z.of_nat (length out)) ∧
    n = Z.of_nat (length out) ∧ k = Z.of_nat (length source) - Z.of_nat (length rest) / 8 ∧
    dest' = dest_after dest out.
Proof.
  intros Hpre. split.
  - intros E. destruct (puff_cases W mem dest destlen source Hpre) as
      [(out & rest & E' & Hd & _ & Hf)|(v & out & n' & k' & E' & Hb & _)]; rewrite E in E';
      injection E'; intros; subst.
    + by exists out, rest.
    + by destruct Hb.
  - intros (out & rest & Hd & Hf & -> & -> & ->).
    by apply (puff_run W mem dest destlen source Hpre out rest Hd).
Qed.

Lemma puff_decodes_format_witness :
  puff 64 zero_mem (Some [0; 7]) 2 small_source 3 = Some (PuffResult 0 1 3 (Some [97; 7])) ∧
  ∃ out rest, deflate (bytes_bits small_source) rest [] out ∧ 1 = Z.of_nat (length out) ∧
              Some [97; 7] = dest_after (Some [0; 7]) out.
Proof.
  assert (puff 64 zero_mem (Some [0; 7]) 2 small_source 3 = Some (PuffResult 0 1 3 (Some [97; 7])))
    as E by (vm_compute; reflexivity).
  split; [exact E|].
  assert (puff_pre 64 zero_mem (Some [0; 7]) 2 small_source) as H by (apply small_pre; simpl; lia).
  destruct (proj1 (puff_decodes_format 64 zero_mem (Some [0; 7]) 2 small_source 1 3 _ H) E)
    as (out & rest & Hd & _ & Hn & _ & Ho).
  exists out, rest. split; [exact Hd|split; [exact Hn|exact Ho]].
Defined.

(** When the source is a stream of the format but the output does not fit
    the destination, [puff] returns 1 and leaves both lengths unchanged. *)
Theorem puff_output_too_big (W : Z) (mem : dynamic_mem) (buf : list Z) (destlen : Z)
    (source out : list Z) (rest : list bool) :
  puff_pre W mem (Some buf) destlen source →
  deflate (bytes_bits source) rest [] out → destlen < Z.of_nat (length out) →
  ∃ dest', puff W mem (Some buf) destlen source (Z.of_nat (length source))
           = Some (PuffResult 1 destlen (Z.of_nat (length source)) dest').
Proof.
  intros Hpre Hd Hlt. apply (puff_run W mem (Some buf) destlen source Hpre out rest Hd).
  intros Hf. specialize (Hf ltac:(done)). lia.
Qed.

Lemma puff_output_too_big_witness :
  ∃ dest', puff 64 zero_mem (Some [5]) 0 small_source 3 = Some (PuffResult 1 0 3 dest').
Proof.
  destruct small_deflate as [rest Hd].
  apply (puff_output_too_big 64 zero_mem [5] 0 small_source [97] rest);
    [apply small_pre; simpl; lia|exact Hd|simpl; lia].
Defined.

(** Scanning with a [NIL] destination finds the size: if it returns zero and
    the length [n], then a second call with any destination of at least [n]
    bytes returns zero with the same lengths. *)
Theorem puff_scan_then_decode (W : Z) (mem : dynamic_mem) (destlen : Z) (buf source : list Z)
    (n k destlen' : Z) :
  puff_pre W mem None destlen source → puff_pre W mem (Some buf) destlen' source →
  puff W mem None destlen source (Z.of_nat (length source)) = Some (PuffResult 0 n k None) →
  n ≤ destlen' →
  ∃ out, n = Z.of_nat (length out) ∧
    puff W mem (Some buf) destlen' source (Z.of_nat (length source))
    = Some (PuffResult 0 n k (Some (out ++ drop (length out) buf))).
Proof.
  intros Hpre Hpre' E Hle. destruct (puff_cases W mem None destlen source Hpre) as
    [(out & rest & E' & Hd & _)|(v & out & n' & k' & E' & Hb & _)]; rewrite E in E';
    injection E'; intros; subst; [|by destruct Hb].
  exists out. split; [done|].
  apply (puff_run W mem (Some buf) destlen' source Hpre' out rest Hd). by intros _.
Qed.

Lemma puff_scan_then_decode_witness :
  ∃ out, 1 = Z.of_nat (length out) ∧
    puff 64 zero_mem (Some [0; 0]) 2 small_source 3
    = Some (PuffResult 0 1 3 (Some (out ++ drop (length out) [0; 0]))).
Proof.
  apply (puff_scan_then_decode 64 zero_mem 0 [0; 0] small_source 1 3 2);
    [apply small_pre; exact I|apply small_pre; simpl; lia|vm_compute; reflexivity|lia].
Defined.
