(* ===== verification/Trees.v ===== *)
(** The data of the deflate trees: constants and records of
    [src/zlib/deflate.h] and [src/zlib/zutil.h], and the static tables of
    [src/zlib/trees.h]. *)

From Stdlib Require Import ZArith Lia.
From stdpp Require Import base option numbers list.
From S2P Require Import Prelude.

Open Scope Z_scope.

Definition LENGTH_CODES : Z := 29.
Definition LITERALS : Z := 256.
Definition L_CODES : Z := LITERALS + 1 + LENGTH_CODES.
Definition D_CODES : Z := 30.
Definition BL_CODES : Z := 19.
Definition HEAP_SIZE : Z := 2 * L_CODES + 1.
Definition MAX_BITS : Z := 15.
Definition Buf_size : Z := 16.

Definition STORED_BLOCK : Z := 0.
Definition STATIC_TREES : Z := 1.
Definition DYN_TREES : Z := 2.
Definition MIN_MATCH : Z := 3.
Definition MAX_MATCH : Z := 258.

(** A tree node: [fc] is the union of [Freq] and [Code], [dl] the union of
    [Dad] and [Len]. *)
Record ct_data := Ct { fc : Z; dl : Z }.
Abbreviation Freq := fc (only parsing).
Abbreviation Code := fc (only parsing).
Abbreviation Dad := dl (only parsing).
Abbreviation Len := dl (only parsing).

#[export] Instance ct_data_eq_dec : EqDecision ct_data.
Proof. solve_decision. Defined.

Definition static_ltree : list ct_data :=
  [Ct 12 8; Ct 140 8; Ct 76 8; Ct 204 8; Ct 44 8; Ct 172 8; Ct 108 8; Ct 236 8;
   Ct 28 8; Ct 156 8; Ct 92 8; Ct 220 8; Ct 60 8; Ct 188 8; Ct 124 8; Ct 252 8;
   Ct 2 8; Ct 130 8; Ct 66 8; Ct 194 8; Ct 34 8; Ct 162 8; Ct 98 8; Ct 226 8;
   Ct 18 8; Ct 146 8; Ct 82 8; Ct 210 8; Ct 50 8; Ct 178 8; Ct 114 8; Ct 242 8;
   Ct 10 8; Ct 138 8; Ct 74 8; Ct 202 8; Ct 42 8; Ct 170 8; Ct 106 8; Ct 234 8;
   Ct 26 8; Ct 154 8; Ct 90 8; Ct 218 8; Ct 58 8; Ct 186 8; Ct 122 8; Ct 250 8;
   Ct 6 8; Ct 134 8; Ct 70 8; Ct 198 8; Ct 38 8; Ct 166 8; Ct 102 8; Ct 230 8;
   Ct 22 8; Ct 150 8; Ct 86 8; Ct 214 8; Ct 54 8; Ct 182 8; Ct 118 8; Ct 246 8;
   Ct 14 8; Ct 142 8; Ct 78 8; Ct 206 8; Ct 46 8; Ct 174 8; Ct 110 8; Ct 238 8;
   Ct 30 8; Ct 158 8; Ct 94 8; Ct 222 8; Ct 62 8; Ct 190 8; Ct 126 8; Ct 254 8;
   Ct 1 8; Ct 129 8; Ct 65 8; Ct 193 8; Ct 33 8; Ct 161 8; Ct 97 8; Ct 225 8;
   Ct 17 8; Ct 145 8; Ct 81 8; Ct 209 8; Ct 49 8; Ct 177 8; Ct 113 8; Ct 241 8;
   Ct 9 8; Ct 137 8; Ct 73 8; Ct 201 8; Ct 41 8; Ct 169 8; Ct 105 8; Ct 233 8;
   Ct 25 8; Ct 153 8; Ct 89 8; Ct 217 8; Ct 57 8; Ct 185 8; Ct 121 8; Ct 249 8;
   Ct 5 8; Ct 133 8; Ct 69 8; Ct 197 8; Ct 37 8; Ct 165 8; Ct 101 8; Ct 229 8;
   Ct 21 8; Ct 149 8; Ct 85 8; Ct 213 8; Ct 53 8; Ct 181 8; Ct 117 8; Ct 245 8;
   Ct 13 8; Ct 141 8; Ct 77 8; Ct 205 8; Ct 45 8; Ct 173 8; Ct 109 8; Ct 237 8;
   Ct 29 8; Ct 157 8; Ct 93 8; Ct 221 8; Ct 61 8; Ct 189 8; Ct 125 8; Ct 253 8;
   Ct 19 9; Ct 275 9; Ct 147 9; Ct 403 9; Ct 83 9; Ct 339 9; Ct 211 9; Ct 467 9;
   Ct 51 9; Ct 307 9; Ct 179 9; Ct 435 9; Ct 115 9; Ct 371 9; Ct 243 9; Ct 499 9;
   Ct 11 9; Ct 267 9; Ct 139 9; Ct 395 9; Ct 75 9; Ct 331 9; Ct 203 9; Ct 459 9;
   Ct 43 9; Ct 299 9; Ct 171 9; Ct 427 9; Ct 107 9; Ct 363 9; Ct 235 9; Ct 491 9;
   Ct 27 9; Ct 283 9; Ct 155 9; Ct 411 9; Ct 91 9; Ct 347 9; Ct 219 9; Ct 475 9;
   Ct 59 9; Ct 315 9; Ct 187 9; Ct 443 9; Ct 123 9; Ct 379 9; Ct 251 9; Ct 507 9;
   Ct 7 9; Ct 263 9; Ct 135 9; Ct 391 9; Ct 71 9; Ct 327 9; Ct 199 9; Ct 455 9;
   Ct 39 9; Ct 295 9; Ct 167 9; Ct 423 9; Ct 103 9; Ct 359 9; Ct 231 9; Ct 487 9;
   Ct 23 9; Ct 279 9; Ct 151 9; Ct 407 9; Ct 87 9; Ct 343 9; Ct 215 9; Ct 471 9;
   Ct 55 9; Ct 311 9; Ct 183 9; Ct 439 9; Ct 119 9; Ct 375 9; Ct 247 9; Ct 503 9;
   Ct 15 9; Ct 271 9; Ct 143 9; Ct 399 9; Ct 79 9; Ct 335 9; Ct 207 9; Ct 463 9;
   Ct 47 9; Ct 303 9; Ct 175 9; Ct 431 9; Ct 111 9; Ct 367 9; Ct 239 9; Ct 495 9;
   Ct 31 9; Ct 287 9; Ct 159 9; Ct 415 9; Ct 95 9; Ct 351 9; Ct 223 9; Ct 479 9;
   Ct 63 9; Ct 319 9; Ct 191 9; Ct 447 9; Ct 127 9; Ct 383 9; Ct 255 9; Ct 511 9;
   Ct 0 7; Ct 64 7; Ct 32 7; Ct 96 7; Ct 16 7; Ct 80 7; Ct 48 7; Ct 112 7;
   Ct 8 7; Ct 72 7; Ct 40 7; Ct 104 7; Ct 24 7; Ct 88 7; Ct 56 7; Ct 120 7;
   Ct 4 7; Ct 68 7; Ct 36 7; Ct 100 7; Ct 20 7; Ct 84 7; Ct 52 7; Ct 116 7;
   Ct 3 8; Ct 131 8; Ct 67 8; Ct 195 8; Ct 35 8; Ct 163 8; Ct 99 8; Ct 227 8].

Definition static_dtree : list ct_data :=
  [Ct 0 5; Ct 16 5; Ct 8 5; Ct 24 5; Ct 4 5; Ct 20 5; Ct 12 5; Ct 28 5;
   Ct 2 5; Ct 18 5; Ct 10 5; Ct 26 5; Ct 6 5; Ct 22 5; Ct 14 5; Ct 30 5;
   Ct 1 5; Ct 17 5; Ct 9 5; Ct 25 5; Ct 5 5; Ct 21 5; Ct 13 5; Ct 29 5;
   Ct 3 5; Ct 19 5; Ct 11 5; Ct 27 5; Ct 7 5; Ct 23 5].

Definition _dist_code : list Z :=
  [0; 1; 2; 3; 4; 4; 5; 5; 6; 6; 6; 6; 7; 7; 7; 7; 8; 8; 8; 8; 8; 8; 8; 8;
   9; 9; 9; 9; 9; 9; 9; 9; 10; 10; 10; 10; 10; 10; 10; 10; 10; 10; 10; 10; 10; 10; 10; 10;
   11; 11; 11; 11; 11; 11; 11; 11; 11; 11; 11; 11; 11; 11; 11; 11; 12; 12; 12; 12; 12; 12; 12; 12;
   12; 12; 12; 12; 12; 12; 12; 12; 12; 12; 12; 12; 12; 12; 12; 12; 12; 12; 12; 12; 12; 12; 12; 12;
   13; 13; 13; 13; 13; 13; 13; 13; 13; 13; 13; 13; 13; 13; 13; 13; 13; 13; 13; 13; 13; 13; 13; 13;
   13; 13; 13; 13; 13; 13; 13; 13; 14; 14; 14; 14; 14; 14; 14; 14; 14; 14; 14; 14; 14; 14; 14; 14;
   14; 14; 14; 14; 14; 14; 14; 14; 14; 14; 14; 14; 14; 14; 14; 14; 14; 14; 14; 14; 14; 14; 14; 14;
   14; 14; 14; 14; 14; 14; 14; 14; 14; 14; 14; 14; 14; 14; 14; 14; 14; 14; 14; 14; 14; 14; 14; 14;
   15; 15; 15; 15; 15; 15; 15; 15; 15; 15; 15; 15; 15; 15; 15; 15; 15; 15; 15; 15; 15; 15; 15; 15;
   15; 15; 15; 15; 15; 15; 15; 15; 15; 15; 15; 15; 15; 15; 15; 15; 15; 15; 15; 15; 15; 15; 15; 15;
   15; 15; 15; 15; 15; 15; 15; 15; 15; 15; 15; 15; 15; 15; 15; 15; 0; 0; 16; 17; 18; 18; 19; 19;
   20; 20; 20; 20; 21; 21; 21; 21; 22; 22; 22; 22; 22; 22; 22; 22; 23; 23; 23; 23; 23; 23; 23; 23;
   24; 24; 24; 24; 24; 24; 24; 24; 24; 24; 24; 24; 24; 24; 24; 24; 25; 25; 25; 25; 25; 25; 25; 25;
   25; 25; 25; 25; 25; 25; 25; 25; 26; 26; 26; 26; 26; 26; 26; 26; 26; 26; 26; 26; 26; 26; 26; 26;
   26; 26; 26; 26; 26; 26; 26; 26; 26; 26; 26; 26; 26; 26; 26; 26; 27; 27; 27; 27; 27; 27; 27; 27;
   27; 27; 27; 27; 27; 27; 27; 27; 27; 27; 27; 27; 27; 27; 27; 27; 27; 27; 27; 27; 27; 27; 27; 27;
   28; 28; 28; 28; 28; 28; 28; 28; 28; 28; 28; 28; 28; 28; 28; 28; 28; 28; 28; 28; 28; 28; 28; 28;
   28; 28; 28; 28; 28; 28; 28; 28; 28; 28; 28; 28; 28; 28; 28; 28; 28; 28; 28; 28; 28; 28; 28; 28;
   28; 28; 28; 28; 28; 28; 28; 28; 28; 28; 28; 28; 28; 28; 28; 28; 29; 29; 29; 29; 29; 29; 29; 29;
   29; 29; 29; 29; 29; 29; 29; 29; 29; 29; 29; 29; 29; 29; 29; 29; 29; 29; 29; 29; 29; 29; 29; 29;
   29; 29; 29; 29; 29; 29; 29; 29; 29; 29; 29; 29; 29; 29; 29; 29; 29; 29; 29; 29; 29; 29; 29; 29;
   29; 29; 29; 29; 29; 29; 29; 29].

Definition _length_code : list Z :=
  [0; 1; 2; 3; 4; 5; 6; 7; 8; 8; 9; 9; 10; 10; 11; 11; 12; 12; 12; 12; 13; 13; 13; 13;
   14; 14; 14; 14; 15; 15; 15; 15; 16; 16; 16; 16; 16; 16; 16; 16; 17; 17; 17; 17; 17; 17; 17; 17;
   18; 18; 18; 18; 18; 18; 18; 18; 19; 19; 19; 19; 19; 19; 19; 19; 20; 20; 20; 20; 20; 20; 20; 20;
   20; 20; 20; 20; 20; 20; 20; 20; 21; 21; 21; 21; 21; 21; 21; 21; 21; 21; 21; 21; 21; 21; 21; 21;
   22; 22; 22; 22; 22; 22; 22; 22; 22; 22; 22; 22; 22; 22; 22; 22; 23; 23; 23; 23; 23; 23; 23; 23;
   23; 23; 23; 23; 23; 23; 23; 23; 24; 24; 24; 24; 24; 24; 24; 24; 24; 24; 24; 24; 24; 24; 24; 24;
   24; 24; 24; 24; 24; 24; 24; 24; 24; 24; 24; 24; 24; 24; 24; 24; 25; 25; 25; 25; 25; 25; 25; 25;
   25; 25; 25; 25; 25; 25; 25; 25; 25; 25; 25; 25; 25; 25; 25; 25; 25; 25; 25; 25; 25; 25; 25; 25;
   26; 26; 26; 26; 26; 26; 26; 26; 26; 26; 26; 26; 26; 26; 26; 26; 26; 26; 26; 26; 26; 26; 26; 26;
   26; 26; 26; 26; 26; 26; 26; 26; 27; 27; 27; 27; 27; 27; 27; 27; 27; 27; 27; 27; 27; 27; 27; 27;
   27; 27; 27; 27; 27; 27; 27; 27; 27; 27; 27; 27; 27; 27; 27; 28].

Definition base_length : list Z :=
  [0; 1; 2; 3; 4; 5; 6; 7; 8; 10; 12; 14; 16; 20; 24; 28; 32; 40; 48; 56; 64; 80; 96; 112;
   128; 160; 192; 224; 0].

Definition base_dist : list Z :=
  [0; 1; 2; 3; 4; 6; 8; 12; 16; 24; 32; 48; 64; 96; 128; 192; 256; 384; 512; 768; 1024; 1536; 2048; 3072;
   4096; 6144; 8192; 12288; 16384; 24576].


(** Bit output and block output of deflate ([src/zlib/trees.c]).

    The fields of [deflate_state] that the file uses are grouped by role: the
    pending output and the bit buffer ([outbuf]), the work arrays of the tree
    construction ([heapst]), and the rest ([deflate_state]).  An access
    outside an array, or a loop that does not end, is [None].  [W] is the width
    of [ulg].

    [d_buf] and [l_buf] are not separate arrays: they lie in the same
    allocation as [pending_buf] (the "overlay" made by [deflateInit2_]), which
    is the list [pending_buf] here: the distances are 16-bit little-endian
    words from byte [lit_bufsize] on, the lengths are bytes from
    [3 * lit_bufsize] on. *)

Definition MAX_BL_BITS : Z := 7.
Definition END_BLOCK : Z := 256.
Definition REP_3_6 : Z := 16.
Definition REPZ_3_10 : Z := 17.
Definition REPZ_11_138 : Z := 18.

Definition extra_lbits : list Z :=
  [0;0;0;0;0;0;0;0;1;1;1;1;2;2;2;2;3;3;3;3;4;4;4;4;5;5;5;5;0].
Definition extra_dbits : list Z :=
  [0;0;0;0;1;1;2;2;3;3;4;4;5;5;6;6;7;7;8;8;9;9;10;10;11;11;12;12;13;13].
Definition extra_blbits : list Z :=
  [0;0;0;0;0;0;0;0;0;0;0;0;0;0;0;0;2;3;7].
Definition bl_order : list Z :=
  [16;17;18;0;8;7;9;6;10;5;11;4;12;3;13;2;14;1;15].

Record static_tree_desc := StaticDesc {
  sd_tree : option (list ct_data);
  sd_extra : list Z;
  sd_base : Z;
  sd_elems : Z;
  sd_max_length : Z }.

Definition static_l_desc : static_tree_desc :=
  StaticDesc (Some static_ltree) extra_lbits (LITERALS + 1) L_CODES MAX_BITS.
Definition static_d_desc : static_tree_desc :=
  StaticDesc (Some static_dtree) extra_dbits 0 D_CODES MAX_BITS.
Definition static_bl_desc : static_tree_desc :=
  StaticDesc None extra_blbits 0 BL_CODES MAX_BL_BITS.

(** ** Bit output *)

Record outbuf := Outbuf {
  pending_buf : list Z; pending : Z; bi_buf : Z; bi_valid : Z }.

Section output.
Context (W : Z).

Definition put_byte (o : outbuf) (c : Z) : option outbuf :=
  buf ← (pending_buf o).[pending o <- u8 c];
  Some (Outbuf buf (wrap W (pending o + 1)) (bi_buf o) (bi_valid o)).

Definition put_short (o : outbuf) (w : Z) : option outbuf :=
  o ← put_byte o (Z.land w 255);
  put_byte o (Z.shiftr (u16 w) 8).

Definition set_bi (o : outbuf) (buf valid : Z) : outbuf :=
  Outbuf (pending_buf o) (pending o) buf valid.

Definition send_bits (o : outbuf) (value length : Z) : option outbuf :=
  let buf := u16 (Z.lor (bi_buf o) (Z.shiftl (u16 value) (bi_valid o))) in
  if Buf_size - length <? bi_valid o then
    o' ← put_short (set_bi o buf (bi_valid o)) buf;
    Some (set_bi o' (u16 (Z.shiftr (u16 value) (Buf_size - bi_valid o)))
            (bi_valid o + (length - Buf_size)))
  else Some (set_bi o buf (bi_valid o + length)).

Definition send_code (o : outbuf) (c : Z) (tree : list ct_data) : option outbuf :=
  x ← tree.[c];
  send_bits o (Code x) (Len x).

Definition bi_flush (o : outbuf) : option outbuf :=
  if bi_valid o =? 16 then
    o ← put_short o (bi_buf o);
    Some (set_bi o 0 0)
  else if 8 <=? bi_valid o then
    o ← put_byte o (bi_buf o);
    Some (set_bi o (Z.shiftr (bi_buf o) 8) (bi_valid o - 8))
  else Some o.

Definition bi_windup (o : outbuf) : option outbuf :=
  o ← (if 8 <? bi_valid o then put_short o (bi_buf o)
       else if 0 <? bi_valid o then put_byte o (bi_buf o)
       else Some o);
  Some (set_bi o 0 0).

(** [zmemcpy(s->pending_buf + s->pending, buf, len)] *)
Fixpoint copy_pending (o : outbuf) (p : Z) (buf : list Z) : option outbuf :=
  match buf with
  | [] => Some o
  | b :: buf' =>
      pb ← (pending_buf o).[p <- b];
      copy_pending (Outbuf pb (pending o) (bi_buf o) (bi_valid o)) (p + 1) buf'
  end.

Definition _tr_stored_block (o : outbuf) (buf : list Z) (stored_len last : Z) : option outbuf :=
  o ← send_bits o (Z.shiftl STORED_BLOCK 1 + last) 3;
  o ← bi_windup o;
  o ← put_short o (u16 stored_len);
  o ← put_short o (u16 (Z.lnot stored_len));
  if Z.of_nat (length buf) <? stored_len then None
  else
    o ← copy_pending o (pending o) (take (Z.to_nat stored_len) buf);
    Some (Outbuf (pending_buf o) (wrap W (pending o + stored_len)) (bi_buf o) (bi_valid o)).

Definition _tr_flush_bits (o : outbuf) : option outbuf := bi_flush o.

Definition _tr_align (o : outbuf) : option outbuf :=
  o ← send_bits o (Z.shiftl STATIC_TREES 1) 3;
  o ← send_code o END_BLOCK static_ltree;
  bi_flush o.

(** ** The block data *)

Definition d_buf_get (buf : list Z) (lit_bufsize i : Z) : option Z :=
  lo ← buf.[lit_bufsize + 2 * i];
  hi ← buf.[lit_bufsize + 2 * i + 1];
  Some (lo + 256 * hi).
Definition d_buf_set (buf : list Z) (lit_bufsize i d : Z) : option (list Z) :=
  buf ← buf.[lit_bufsize + 2 * i <- Z.land d 255];
  buf.[lit_bufsize + 2 * i + 1 <- Z.shiftr d 8].
Definition l_buf_get (buf : list Z) (lit_bufsize i : Z) : option Z :=
  buf.[3 * lit_bufsize + i].
Definition l_buf_set (buf : list Z) (lit_bufsize i c : Z) : option (list Z) :=
  buf.[3 * lit_bufsize + i <- c].

Definition d_code (dist : Z) : option Z :=
  if dist <? 256 then _dist_code.[dist] else _dist_code.[256 + Z.shiftr dist 7].

(** [send_bits(s, v - base, extra)] when there are extra bits. *)
Definition send_extra (o : outbuf) (v base extra : Z) : option outbuf :=
  if extra =? 0 then Some o else send_bits o (v - base) extra.

(** The branch for a match. *)
Definition send_match (o : outbuf) (dist lc : Z) (ltree dtree : list ct_data) : option outbuf :=
  code ← _length_code.[lc];
  o ← send_code o (code + LITERALS + 1) ltree;
  extra ← extra_lbits.[code];
  base ← base_length.[code];
  o ← send_extra o lc base extra;
  let dist := u32 (dist - 1) in
  code ← d_code dist;
  o ← send_code o code dtree;
  extra ← extra_dbits.[code];
  base ← base_dist.[code];
  send_extra o dist base extra.

Definition compress_step (lit_bufsize : Z) (ltree dtree : list ct_data) (lx : Z) (o : outbuf)
  : option outbuf :=
  dist ← d_buf_get (pending_buf o) lit_bufsize lx;
  lc ← l_buf_get (pending_buf o) lit_bufsize lx;
  if dist =? 0 then send_code o lc ltree
  else send_match o dist lc ltree dtree.

(** [if (last_lit != 0) do {...} while (lx < last_lit)], then the end code. *)
Definition compress_block (o : outbuf) (lit_bufsize last_lit : Z) (ltree dtree : list ct_data)
  : option outbuf :=
  o ← for_up (Z.to_nat last_lit) 0 (compress_step lit_bufsize ltree dtree) o;
  send_code o END_BLOCK ltree.

End output.

(** ** Codes *)

(** [do { res |= code & 1; code >>= 1, res <<= 1; } while (--len > 0);] *)
Fixpoint bi_reverse_loop (n : nat) (code res : Z) : Z :=
  match n with
  | O => res
  | S n' =>
      let res := Z.lor res (Z.land code 1) in
      bi_reverse_loop n' (Z.shiftr code 1) (u32 (Z.shiftl res 1))
  end.

Definition bi_reverse (code len : Z) : Z :=
  Z.shiftr (bi_reverse_loop (Nat.max 1 (Z.to_nat len)) code 0) 1.

Definition next_codes (bl_count : list Z) : option (list Z) :=
  '(_, next_code) ← for_up (Z.to_nat MAX_BITS) 1
    (λ bits '(code, next_code),
       c ← bl_count.[bits - 1];
       let code := u32 (Z.shiftl (u32 (code + c)) 1) in
       next_code ← next_code.[bits <- u16 code];
       Some (code, next_code)) (0, replicate (Z.to_nat (MAX_BITS + 1)) 0);
  Some next_code.

Definition gen_code_step (n : Z) (st : list ct_data * list Z) : option (list ct_data * list Z) :=
  let '(tree, next_code) := st in
  x ← tree.[n];
  let len := Len x in
  if len =? 0 then Some (tree, next_code)
  else
    c ← next_code.[len];
    next_code ← next_code.[len <- u16 (c + 1)];
    tree ← tree.[n <- Ct (u16 (bi_reverse c len)) len];
    Some (tree, next_code).

Definition gen_codes (tree : list ct_data) (max_code : Z) (bl_count : list Z)
  : option (list ct_data) :=
  next_code ← next_codes bl_count;
  '(tree, _) ← for_up (Z.to_nat (max_code + 1)) 0 gen_code_step (tree, next_code);
  Some tree.

(** ** The static tables *)

(** The tables [tr_static_init] fills, before and after. *)
Record static_tables := StaticTables {
  st_ltree : list ct_data; st_dtree : list ct_data; st_dist_code : list Z;
  st_length_code : list Z; st_base_length : list Z; st_base_dist : list Z }.

(** [for (n = 0; n < num; n++) a[pos++] = code;] *)
Definition fill_codes (a : list Z) (pos num code : Z) : option (list Z) :=
  for_up (Z.to_nat num) pos (λ i a, a.[i <- u8 code]) a.

Definition init_lengths (base_length length_code : list Z) : option (list Z * list Z) :=
  '(base_length, length_code, length) ← for_up (Z.to_nat (LENGTH_CODES - 1)) 0
    (λ code '(base_length, length_code, length),
       base_length ← base_length.[code <- length];
       x ← extra_lbits.[code];
       length_code ← fill_codes length_code length (Z.shiftl 1 x) code;
       Some (base_length, length_code, length + Z.shiftl 1 x)) (base_length, length_code, 0);
  length_code ← length_code.[length - 1 <- u8 (LENGTH_CODES - 1)];
  Some (base_length, length_code).

Definition init_dists (base_dist dist_code : list Z) : option (list Z * list Z) :=
  '(base_dist, dist_code, dist) ← for_up 16 0
    (λ code '(base_dist, dist_code, dist),
       base_dist ← base_dist.[code <- dist];
       x ← extra_dbits.[code];
       dist_code ← fill_codes dist_code dist (Z.shiftl 1 x) code;
       Some (base_dist, dist_code, dist + Z.shiftl 1 x)) (base_dist, dist_code, 0);
  let dist := Z.shiftr dist 7 in
  '(base_dist, dist_code, _) ← for_up (Z.to_nat (D_CODES - 16)) 16
    (λ code '(base_dist, dist_code, dist),
       base_dist ← base_dist.[code <- Z.shiftl dist 7];
       x ← extra_dbits.[code];
       dist_code ← fill_codes dist_code (256 + dist) (Z.shiftl 1 (x - 7)) code;
       Some (base_dist, dist_code, dist + Z.shiftl 1 (x - 7))) (base_dist, dist_code, dist);
  Some (base_dist, dist_code).

(** [while (n <= last) static_ltree[n++].Len = len, bl_count[len]++;] *)
Definition set_static_lens (first last len : Z) (st : list ct_data * list Z)
  : option (list ct_data * list Z) :=
  for_up (Z.to_nat (last + 1 - first)) first
    (λ n '(ltree, bl_count),
       x ← ltree.[n];
       ltree ← ltree.[n <- Ct (fc x) len];
       c ← bl_count.[len];
       bl_count ← bl_count.[len <- u16 (c + 1)];
       Some (ltree, bl_count)) st.

Definition tr_static_init (t : static_tables) : option static_tables :=
  '(base_length, length_code) ← init_lengths (st_base_length t) (st_length_code t);
  '(base_dist, dist_code) ← init_dists (st_base_dist t) (st_dist_code t);
  st ← set_static_lens 0 143 8 (st_ltree t, replicate (Z.to_nat (MAX_BITS + 1)) 0);
  st ← set_static_lens 144 255 9 st;
  st ← set_static_lens 256 279 7 st;
  '(ltree, bl_count) ← set_static_lens 280 287 8 st;
  ltree ← gen_codes ltree (L_CODES + 1) bl_count;
  dtree ← for_up (Z.to_nat D_CODES) 0
    (λ n dtree, dtree.[n <- Ct (u16 (bi_reverse n 5)) 5]) (st_dtree t);
  Some (StaticTables ltree dtree dist_code length_code base_length base_dist).
