(* ===== verification/TreeFlush.v ===== *)
(** The functions of [src/zlib/trees.c]: the construction of the Huffman trees
    (the heap, the bit lengths with their limit, [build_tree]), the run-length
    coding of the lengths, and the entry points, with [flush_pending]. *)

From Stdlib Require Import ZArith Lia.
From stdpp Require Import base option numbers list.
From S2P Require Import Prelude Trees.

Open Scope Z_scope.

(** ** The heap *)

Record heapst := Heapst {
  heap : list Z; heap_len : Z; heap_max : Z; depth : list Z; bl_count : list Z }.

Definition SMALLEST : Z := 1.

Definition smaller (tree : list ct_data) (n m : Z) (depth : list Z) : option bool :=
  x ← tree.[n];
  y ← tree.[m];
  if Freq x <? Freq y then Some true
  else if Freq x =? Freq y then
    dn ← depth.[n];
    dm ← depth.[m];
    Some (dn <=? dm)
  else Some false.

(** The [while] loop of [pqdownheap]: the heap and the final [k]. *)
Fixpoint pq_loop (fuel : nat) (tree : list ct_data) (depth : list Z) (len v : Z)
    (heap : list Z) (k j : Z) : option (list Z * Z) :=
  if j <=? len then
    match fuel with
    | O => None
    | S fuel' =>
        j ← (if j <? len then
               a ← heap.[j + 1];
               b ← heap.[j];
               sm ← smaller tree a b depth;
               Some (if sm : bool then j + 1 else j)
             else Some j);
        hj ← heap.[j];
        sm ← smaller tree v hj depth;
        if sm : bool then Some (heap, k)
        else
          heap ← heap.[k <- hj];
          pq_loop fuel' tree depth len v heap j (Z.shiftl j 1)
    end
  else Some (heap, k).

Definition pqdownheap (s : heapst) (tree : list ct_data) (k : Z) : option heapst :=
  v ← (heap s).[k];
  '(h, k) ← pq_loop (Z.to_nat (heap_len s)) tree (depth s) (heap_len s) v (heap s) k (Z.shiftl k 1);
  h ← h.[k <- v];
  Some (Heapst h (heap_len s) (heap_max s) (depth s) (bl_count s)).

Definition set_heap (s : heapst) (h : list Z) (len max : Z) : heapst :=
  Heapst h len max (depth s) (bl_count s).

(** [pqremove(s, tree, top)]: the state and [top]. *)
Definition pqremove (s : heapst) (tree : list ct_data) : option (heapst * Z) :=
  top ← (heap s).[SMALLEST];
  x ← (heap s).[heap_len s];
  h ← (heap s).[SMALLEST <- x];
  s ← pqdownheap (set_heap s h (heap_len s - 1) (heap_max s)) tree SMALLEST;
  Some (s, top).

Section build.
Context (W : Z).

(** ** Bit lengths *)

(** What [gen_bitlen] changes besides the heap: the tree, the counts and the
    two lengths of the block. *)
Record bitlen := Bitlen {
  bl_tree_ : list ct_data; bl_cnt : list Z; bl_overflow : Z; bl_opt : Z; bl_static : Z }.

(** The body of the first pass, for one heap index. *)
Definition bitlen_step (sd : static_tree_desc) (max_code : Z) (heap : list Z) (h : Z) (b : bitlen)
  : option bitlen :=
  n ← heap.[h];
  x ← (bl_tree_ b).[n];
  d ← (bl_tree_ b).[Dad x];
  let over := sd_max_length sd <? Len d + 1 in
  let bits := if over then sd_max_length sd else Len d + 1 in
  let overflow := bl_overflow b + if over then 1 else 0 in
  tree ← (bl_tree_ b).[n <- Ct (fc x) (u16 bits)];
  if max_code <? n then Some (Bitlen tree (bl_cnt b) overflow (bl_opt b) (bl_static b))
  else
    c ← (bl_cnt b).[bits];
    cnt ← (bl_cnt b).[bits <- u16 (c + 1)];
    xbits ← (if sd_base sd <=? n then (sd_extra sd).[n - sd_base sd] else Some 0);
    let f := Freq x in
    let opt := wrap W (bl_opt b + f * (bits + xbits)) in
    stat ← match sd_tree sd with
           | None => Some (bl_static b)
           | Some stree => y ← stree.[n]; Some (wrap W (bl_static b + f * (Len y + xbits)))
           end;
    Some (Bitlen tree cnt overflow opt stat).

(** [while (s->bl_count[bits] == 0) bits--;] *)
Fixpoint find_bits (fuel : nat) (cnt : list Z) (bits : Z) : option Z :=
  c ← cnt.[bits];
  if c =? 0 then
    match fuel with O => None | S fuel' => find_bits fuel' cnt (bits - 1) end
  else Some bits.

(** One turn of the [do] loop on the overflowed lengths. *)
Definition move_leaf (max_length : Z) (cnt : list Z) : option (list Z) :=
  bits ← find_bits (Z.to_nat max_length) cnt (max_length - 1);
  c ← cnt.[bits];
  cnt ← cnt.[bits <- u16 (c - 1)];
  c ← cnt.[bits + 1];
  cnt ← cnt.[bits + 1 <- u16 (c + 2)];
  c ← cnt.[max_length];
  cnt.[max_length <- u16 (c - 1)].

Fixpoint fix_overflow (fuel : nat) (max_length overflow : Z) (cnt : list Z) : option (list Z) :=
  match fuel with
  | O => None
  | S fuel' =>
      cnt ← move_leaf max_length cnt;
      if 0 <? overflow - 2 then fix_overflow fuel' max_length (overflow - 2) cnt else Some cnt
  end.

(** [while (n != 0) {...}] of the second pass, for the length [bits]: the heap
    index, the tree and [opt_len]. *)
Fixpoint relength (fuel : nat) (max_code : Z) (heap : list Z) (bits n h : Z)
    (tree : list ct_data) (opt : Z) : option (Z * list ct_data * Z) :=
  if n =? 0 then Some (h, tree, opt)
  else
    match fuel with
    | O => None
    | S fuel' =>
        let h := h - 1 in
        m ← heap.[h];
        if max_code <? m then relength fuel' max_code heap bits n h tree opt
        else
          x ← tree.[m];
          if negb (Len x =? bits) then
            let opt := wrap W (opt + wrap W (bits - Len x) * Freq x) in
            tree ← tree.[m <- Ct (fc x) (u16 bits)];
            relength fuel' max_code heap bits (n - 1) h tree opt
          else relength fuel' max_code heap bits (n - 1) h tree opt
    end.

(** [for (bits = max_length; bits != 0; bits--)] *)
Fixpoint relength_all (bits : nat) (max_code : Z) (heap cnt : list Z) (h : Z)
    (tree : list ct_data) (opt : Z) : option (list ct_data * Z) :=
  match bits with
  | O => Some (tree, opt)
  | S bits' =>
      n ← cnt.[Z.of_nat bits];
      '(h, tree, opt) ← relength (Z.to_nat HEAP_SIZE) max_code heap (Z.of_nat bits) n h tree opt;
      relength_all bits' max_code heap cnt h tree opt
  end.

Definition gen_bitlen (s : heapst) (sd : static_tree_desc) (max_code : Z) (tree : list ct_data)
    (opt stat : Z) : option (heapst * list ct_data * Z * Z) :=
  cnt ← for_up (Z.to_nat (MAX_BITS + 1)) 0 (λ bits cnt, cnt.[bits <- 0]) (bl_count s);
  root ← (heap s).[heap_max s];
  x ← tree.[root];
  tree ← tree.[root <- Ct (fc x) 0];
  b ← for_up (Z.to_nat (HEAP_SIZE - (heap_max s + 1))) (heap_max s + 1)
        (bitlen_step sd max_code (heap s)) (Bitlen tree cnt 0 opt stat);
  if bl_overflow b =? 0 then
    Some (Heapst (heap s) (heap_len s) (heap_max s) (depth s) (bl_cnt b),
          bl_tree_ b, bl_opt b, bl_static b)
  else
    cnt ← fix_overflow (Z.to_nat (bl_overflow b)) (sd_max_length sd) (bl_overflow b) (bl_cnt b);
    '(tree, opt) ← relength_all (Z.to_nat (sd_max_length sd)) max_code (heap s) cnt HEAP_SIZE
                     (bl_tree_ b) (bl_opt b);
    Some (Heapst (heap s) (heap_len s) (heap_max s) (depth s) cnt, tree, opt, bl_static b).

(** ** [build_tree] *)

(** The tree and the largest code so far, with the heap. *)
Record building := Building { b_heap : heapst; b_tree : list ct_data; b_max_code : Z }.

Definition init_heap_step (n : Z) (b : building) : option building :=
  x ← (b_tree b).[n];
  if negb (Freq x =? 0) then
    let len := heap_len (b_heap b) + 1 in
    h ← (heap (b_heap b)).[len <- n];
    d ← (depth (b_heap b)).[n <- 0];
    Some (Building (Heapst h len (heap_max (b_heap b)) d (bl_count (b_heap b))) (b_tree b) n)
  else
    tree ← (b_tree b).[n <- Ct (fc x) 0];
    Some (Building (b_heap b) tree (b_max_code b)).

(** [while (s->heap_len < 2) {...}], with the two lengths. *)
Fixpoint force_codes (fuel : nat) (stree : option (list ct_data)) (b : building) (opt stat : Z)
  : option (building * Z * Z) :=
  if heap_len (b_heap b) <? 2 then
    match fuel with
    | O => None
    | S fuel' =>
        let max_code := if b_max_code b <? 2 then b_max_code b + 1 else b_max_code b in
        let node := if b_max_code b <? 2 then max_code else 0 in
        let len := heap_len (b_heap b) + 1 in
        h ← (heap (b_heap b)).[len <- node];
        x ← (b_tree b).[node];
        tree ← (b_tree b).[node <- Ct 1 (dl x)];
        d ← (depth (b_heap b)).[node <- 0];
        stat ← match stree with
               | None => Some stat
               | Some st => y ← st.[node]; Some (wrap W (stat - Len y))
               end;
        force_codes fuel' stree
          (Building (Heapst h len (heap_max (b_heap b)) d (bl_count (b_heap b))) tree max_code)
          (wrap W (opt - 1)) stat
    end
  else Some (b, opt, stat).

(** [for (n = s->heap_len/2; n >= 1; n--) pqdownheap(s, tree, n);] *)
Fixpoint heapify (n : nat) (s : heapst) (tree : list ct_data) : option heapst :=
  match n with
  | O => Some s
  | S n' => s ← pqdownheap s tree (Z.of_nat n); heapify n' s tree
  end.

(** The body of the [do] loop that combines the two least frequent nodes. *)
Definition combine_step (s : heapst) (tree : list ct_data) (node : Z)
  : option (heapst * list ct_data) :=
  '(s, n) ← pqremove s tree;
  m ← (heap s).[SMALLEST];
  h ← (heap s).[heap_max s - 1 <- n];
  h ← h.[heap_max s - 2 <- m];
  x ← tree.[n];
  y ← tree.[m];
  z ← tree.[node];
  tree ← tree.[node <- Ct (u16 (Freq x + Freq y)) (dl z)];
  dn ← (depth s).[n];
  dm ← (depth s).[m];
  d ← (depth s).[node <- u8 ((if dm <=? dn then dn else dm) + 1)];
  x ← tree.[n];
  tree ← tree.[n <- Ct (fc x) (u16 node)];
  y ← tree.[m];
  tree ← tree.[m <- Ct (fc y) (u16 node)];
  h ← h.[SMALLEST <- node];
  s ← pqdownheap (Heapst h (heap_len s) (heap_max s - 2) d (bl_count s)) tree SMALLEST;
  Some (s, tree).

Fixpoint combine_all (fuel : nat) (s : heapst) (tree : list ct_data) (node : Z)
  : option (heapst * list ct_data) :=
  match fuel with
  | O => None
  | S fuel' =>
      '(s, tree) ← combine_step s tree node;
      if 2 <=? heap_len s then combine_all fuel' s tree (node + 1) else Some (s, tree)
  end.

(** What [build_tree] returns: the work arrays, the tree, [max_code],
    [opt_len] and [static_len]. *)
Record built := Built {
  bt_heap : heapst; bt_tree : list ct_data; bt_max_code : Z; bt_opt : Z; bt_static : Z }.

Definition build_tree (s : heapst) (sd : static_tree_desc) (tree : list ct_data) (opt stat : Z)
  : option built :=
  b ← for_up (Z.to_nat (sd_elems sd)) 0 init_heap_step
        (Building (set_heap s (heap s) 0 HEAP_SIZE) tree (-1));
  '(b, opt, stat) ← force_codes 2 (sd_tree sd) b opt stat;
  s ← heapify (Z.to_nat (heap_len (b_heap b) / 2)) (b_heap b) (b_tree b);
  '(s, tree) ← combine_all (Z.to_nat (heap_len s)) s (b_tree b) (sd_elems sd);
  root ← (heap s).[SMALLEST];
  h ← (heap s).[heap_max s - 1 <- root];
  '(s, tree, opt, stat) ←
    gen_bitlen (set_heap s h (heap_len s) (heap_max s - 1)) sd (b_max_code b) tree opt stat;
  tree ← gen_codes tree (b_max_code b) (bl_count s);
  Some (Built s tree (b_max_code b) opt stat).

(** ** Run-length coding of the lengths *)

(** The local variables of [scan_tree] and [send_tree]. *)
Record rle := Rle {
  prevlen : Z; nextlen : Z; count : Z; max_count : Z; min_count : Z }.

Definition rle_init (tree : list ct_data) : option rle :=
  x ← tree.[0];
  Some (if Len x =? 0 then Rle (-1) (Len x) 0 138 3 else Rle (-1) (Len x) 0 7 4).

(** [count = 0; prevlen = curlen;] and the new limits. *)
Definition rle_reset (curlen nextlen : Z) : rle :=
  if nextlen =? 0 then Rle curlen nextlen 0 138 3
  else if curlen =? nextlen then Rle curlen nextlen 0 6 3
  else Rle curlen nextlen 0 7 4.

(** [bl_tree[c].Freq += k] *)
Definition add_freq (bl : list ct_data) (c k : Z) : option (list ct_data) :=
  x ← bl.[c];
  bl.[c <- Ct (u16 (Freq x + k)) (dl x)].

Definition scan_count (bl : list ct_data) (r : rle) (curlen count : Z) : option (list ct_data) :=
  if count <? min_count r then add_freq bl curlen count
  else if negb (curlen =? 0) then
    bl ← (if negb (curlen =? prevlen r) then add_freq bl curlen 1 else Some bl);
    add_freq bl REP_3_6 1
  else if count <=? 10 then add_freq bl REPZ_3_10 1
  else add_freq bl REPZ_11_138 1.

Definition scan_step (tree : list ct_data) (n : Z) (st : rle * list ct_data)
  : option (rle * list ct_data) :=
  let '(r, bl) := st in
  let curlen := nextlen r in
  x ← tree.[n + 1];
  let next := Len x in
  let count := count r + 1 in
  if (count <? max_count r) && (curlen =? next)
  then Some (Rle (prevlen r) next count (max_count r) (min_count r), bl)
  else
    bl ← scan_count bl r curlen count;
    Some (rle_reset curlen next, bl).

(** The tree with its guard, and [bl_tree]. *)
Definition scan_tree (tree bl : list ct_data) (max_code : Z)
  : option (list ct_data * list ct_data) :=
  r ← rle_init tree;
  x ← tree.[max_code + 1];
  tree ← tree.[max_code + 1 <- Ct (fc x) 65535];
  '(_, bl) ← for_up (Z.to_nat (max_code + 1)) 0 (scan_step tree) (r, bl);
  Some (tree, bl).

(** [do { send_code(s, curlen, s->bl_tree); } while (--count != 0);] *)
Fixpoint send_repeat (n : nat) (o : outbuf) (curlen : Z) (bl : list ct_data) : option outbuf :=
  match n with
  | O => Some o
  | S n' => o ← send_code W o curlen bl; send_repeat n' o curlen bl
  end.

Definition send_count (o : outbuf) (bl : list ct_data) (r : rle) (curlen count : Z)
  : option outbuf :=
  if count <? min_count r then send_repeat (Z.to_nat count) o curlen bl
  else if negb (curlen =? 0) then
    '(o, count) ← (if negb (curlen =? prevlen r)
                   then o ← send_code W o curlen bl; Some (o, count - 1)
                   else Some (o, count));
    o ← send_code W o REP_3_6 bl;
    send_bits W o (count - 3) 2
  else if count <=? 10 then
    o ← send_code W o REPZ_3_10 bl;
    send_bits W o (count - 3) 3
  else
    o ← send_code W o REPZ_11_138 bl;
    send_bits W o (count - 11) 7.

Definition send_step (tree bl : list ct_data) (n : Z) (st : rle * outbuf)
  : option (rle * outbuf) :=
  let '(r, o) := st in
  let curlen := nextlen r in
  x ← tree.[n + 1];
  let next := Len x in
  let count := count r + 1 in
  if (count <? max_count r) && (curlen =? next)
  then Some (Rle (prevlen r) next count (max_count r) (min_count r), o)
  else
    o ← send_count o bl r curlen count;
    Some (rle_reset curlen next, o).

Definition send_tree (o : outbuf) (tree bl : list ct_data) (max_code : Z) : option outbuf :=
  r ← rle_init tree;
  '(_, o) ← for_up (Z.to_nat (max_code + 1)) 0 (send_step tree bl) (r, o);
  Some o.

(** [for (max_blindex = BL_CODES-1; max_blindex >= 3; max_blindex--)
    if (s->bl_tree[bl_order[max_blindex]].Len != 0) break;] *)
Fixpoint find_blindex (fuel : nat) (bl : list ct_data) (i : Z) : option Z :=
  if 3 <=? i then
    c ← bl_order.[i];
    x ← bl.[c];
    if negb (Len x =? 0) then Some i
    else match fuel with O => None | S fuel' => find_blindex fuel' bl (i - 1) end
  else Some i.

Definition send_all_trees (o : outbuf) (ltree dtree bl : list ct_data) (lcodes dcodes blcodes : Z)
  : option outbuf :=
  o ← send_bits W o (lcodes - 257) 5;
  o ← send_bits W o (dcodes - 1) 5;
  o ← send_bits W o (blcodes - 4) 4;
  o ← for_up (Z.to_nat blcodes) 0
        (λ rank o, c ← bl_order.[rank]; x ← bl.[c]; send_bits W o (Len x) 3) o;
  o ← send_tree o ltree bl (lcodes - 1);
  send_tree o dtree bl (dcodes - 1).

End build.

(** Tallying symbols and flushing blocks ([src/zlib/trees.c]): the entry points
    that [deflate.c] calls. *)

Definition Z_BINARY : Z := 0.
Definition Z_TEXT : Z := 1.
Definition Z_UNKNOWN : Z := 2.
Definition Z_FIXED : Z := 4.

(** The part of [deflate_state] used by [trees.c]; [ds_data_type] is
    [strm->data_type], and the [max_code] of the three descriptors is kept
    here, their [stat_desc] being fixed by [_tr_init]. *)
Record deflate_state := DeflateState {
  ds_data_type : Z; ds_level : Z; ds_strategy : Z;
  ds_out : outbuf; ds_lit_bufsize : Z;
  ds_dyn_ltree : list ct_data; ds_dyn_dtree : list ct_data; ds_bl_tree : list ct_data;
  ds_l_max : Z; ds_d_max : Z; ds_bl_max : Z;
  ds_work : heapst;
  ds_last_lit : Z; ds_opt_len : Z; ds_static_len : Z; ds_matches : Z }.

Definition set_out (s : deflate_state) (o : outbuf) : deflate_state :=
  DeflateState (ds_data_type s) (ds_level s) (ds_strategy s) o (ds_lit_bufsize s)
    (ds_dyn_ltree s) (ds_dyn_dtree s) (ds_bl_tree s) (ds_l_max s) (ds_d_max s) (ds_bl_max s)
    (ds_work s) (ds_last_lit s) (ds_opt_len s) (ds_static_len s) (ds_matches s).

Definition set_data_type (s : deflate_state) (t : Z) : deflate_state :=
  DeflateState t (ds_level s) (ds_strategy s) (ds_out s) (ds_lit_bufsize s)
    (ds_dyn_ltree s) (ds_dyn_dtree s) (ds_bl_tree s) (ds_l_max s) (ds_d_max s) (ds_bl_max s)
    (ds_work s) (ds_last_lit s) (ds_opt_len s) (ds_static_len s) (ds_matches s).

Definition set_trees (s : deflate_state) (lt dt bl : list ct_data) : deflate_state :=
  DeflateState (ds_data_type s) (ds_level s) (ds_strategy s) (ds_out s) (ds_lit_bufsize s)
    lt dt bl (ds_l_max s) (ds_d_max s) (ds_bl_max s)
    (ds_work s) (ds_last_lit s) (ds_opt_len s) (ds_static_len s) (ds_matches s).

Definition set_lengths (s : deflate_state) (opt stat : Z) : deflate_state :=
  DeflateState (ds_data_type s) (ds_level s) (ds_strategy s) (ds_out s) (ds_lit_bufsize s)
    (ds_dyn_ltree s) (ds_dyn_dtree s) (ds_bl_tree s) (ds_l_max s) (ds_d_max s) (ds_bl_max s)
    (ds_work s) (ds_last_lit s) opt stat (ds_matches s).

Definition set_tally (s : deflate_state) (last_lit matches : Z) : deflate_state :=
  DeflateState (ds_data_type s) (ds_level s) (ds_strategy s) (ds_out s) (ds_lit_bufsize s)
    (ds_dyn_ltree s) (ds_dyn_dtree s) (ds_bl_tree s) (ds_l_max s) (ds_d_max s) (ds_bl_max s)
    (ds_work s) last_lit (ds_opt_len s) (ds_static_len s) matches.

Section flush.
Context (W : Z).

(** [build_tree] on each of the three descriptors. *)
Definition build_l (s : deflate_state) : option deflate_state :=
  b ← build_tree W (ds_work s) static_l_desc (ds_dyn_ltree s) (ds_opt_len s) (ds_static_len s);
  Some (DeflateState (ds_data_type s) (ds_level s) (ds_strategy s) (ds_out s) (ds_lit_bufsize s)
    (bt_tree b) (ds_dyn_dtree s) (ds_bl_tree s) (bt_max_code b) (ds_d_max s) (ds_bl_max s)
    (bt_heap b) (ds_last_lit s) (bt_opt b) (bt_static b) (ds_matches s)).

Definition build_d (s : deflate_state) : option deflate_state :=
  b ← build_tree W (ds_work s) static_d_desc (ds_dyn_dtree s) (ds_opt_len s) (ds_static_len s);
  Some (DeflateState (ds_data_type s) (ds_level s) (ds_strategy s) (ds_out s) (ds_lit_bufsize s)
    (ds_dyn_ltree s) (bt_tree b) (ds_bl_tree s) (ds_l_max s) (bt_max_code b) (ds_bl_max s)
    (bt_heap b) (ds_last_lit s) (bt_opt b) (bt_static b) (ds_matches s)).

Definition build_bl (s : deflate_state) : option deflate_state :=
  b ← build_tree W (ds_work s) static_bl_desc (ds_bl_tree s) (ds_opt_len s) (ds_static_len s);
  Some (DeflateState (ds_data_type s) (ds_level s) (ds_strategy s) (ds_out s) (ds_lit_bufsize s)
    (ds_dyn_ltree s) (ds_dyn_dtree s) (bt_tree b) (ds_l_max s) (ds_d_max s) (bt_max_code b)
    (bt_heap b) (ds_last_lit s) (bt_opt b) (bt_static b) (ds_matches s)).

(** The state and the index in [bl_order] of the last length to send. *)
Definition build_bl_tree (s : deflate_state) : option (deflate_state * Z) :=
  '(lt, bl) ← scan_tree (ds_dyn_ltree s) (ds_bl_tree s) (ds_l_max s);
  '(dt, bl) ← scan_tree (ds_dyn_dtree s) bl (ds_d_max s);
  s ← build_bl (set_trees s lt dt bl);
  max_blindex ← find_blindex 16 (ds_bl_tree s) (BL_CODES - 1);
  Some (set_lengths s (wrap W (ds_opt_len s + (3 * (max_blindex + 1) + 5 + 5 + 4)))
          (ds_static_len s), max_blindex).

(** [for (n = 0; n < num; n++) tree[n].Freq = 0;] *)
Definition clear_freq (num : Z) (tree : list ct_data) : option (list ct_data) :=
  for_up (Z.to_nat num) 0 (λ n tree, x ← tree.[n]; tree.[n <- Ct 0 (dl x)]) tree.

Definition init_block (s : deflate_state) : option deflate_state :=
  lt ← clear_freq L_CODES (ds_dyn_ltree s);
  dt ← clear_freq D_CODES (ds_dyn_dtree s);
  bl ← clear_freq BL_CODES (ds_bl_tree s);
  x ← lt.[END_BLOCK];
  lt ← lt.[END_BLOCK <- Ct 1 (dl x)];
  Some (set_tally (set_lengths (set_trees s lt dt bl) 0 0) 0 0).

Definition _tr_init (s : deflate_state) : option deflate_state :=
  init_block (set_out s (set_bi (ds_out s) 0 0)).

(** The first loop of [detect_data_type]: is a black-listed byte present? *)
Fixpoint black_listed (k : nat) (n black_mask : Z) (ltree : list ct_data) : option bool :=
  match k with
  | O => Some false
  | S k' =>
      x ← ltree.[n];
      if negb (Z.land black_mask 1 =? 0) && negb (Freq x =? 0) then Some true
      else black_listed k' (n + 1) (Z.shiftr black_mask 1) ltree
  end.

(** The last loop: is one of the next [k] bytes present? *)
Fixpoint white_listed (k : nat) (n : Z) (ltree : list ct_data) : option bool :=
  match k with
  | O => Some false
  | S k' =>
      x ← ltree.[n];
      if negb (Freq x =? 0) then Some true else white_listed k' (n + 1) ltree
  end.

Definition detect_data_type (ltree : list ct_data) : option Z :=
  black ← black_listed 32 0 4093624447 ltree;
  if black : bool then Some Z_BINARY
  else
    x9 ← ltree.[9];
    x10 ← ltree.[10];
    x13 ← ltree.[13];
    if negb (Freq x9 =? 0) || negb (Freq x10 =? 0) || negb (Freq x13 =? 0) then Some Z_TEXT
    else
      white ← white_listed (Z.to_nat (LITERALS - 32)) 32 ltree;
      Some (if white : bool then Z_TEXT else Z_BINARY).

(** The trees of the block: the state, [max_blindex], [opt_lenb] and
    [static_lenb]. *)
Definition choose_trees (s : deflate_state) (stored_len : Z)
  : option (deflate_state * Z * Z * Z) :=
  if 0 <? ds_level s then
    s ← (if ds_data_type s =? Z_UNKNOWN
         then t ← detect_data_type (ds_dyn_ltree s); Some (set_data_type s t)
         else Some s);
    s ← build_l s;
    s ← build_d s;
    '(s, max_blindex) ← build_bl_tree s;
    let opt_lenb := Z.shiftr (wrap W (ds_opt_len s + 3 + 7)) 3 in
    let static_lenb := Z.shiftr (wrap W (ds_static_len s + 3 + 7)) 3 in
    Some (s, max_blindex, if static_lenb <=? opt_lenb then static_lenb else opt_lenb, static_lenb)
  else
    let len := wrap W (stored_len + 5) in
    Some (s, 0, len, len).

Definition _tr_flush_block (s : deflate_state) (buf : option (list Z)) (stored_len last : Z)
  : option deflate_state :=
  '(s, max_blindex, opt_lenb, static_lenb) ← choose_trees s stored_len;
  o ←
    match (if wrap W (stored_len + 4) <=? opt_lenb then buf else None) with
    | Some b => _tr_stored_block W (ds_out s) b stored_len last
    | None =>
        if (ds_strategy s =? Z_FIXED) || (static_lenb =? opt_lenb) then
          o ← send_bits W (ds_out s) (Z.shiftl STATIC_TREES 1 + last) 3;
          compress_block W o (ds_lit_bufsize s) (ds_last_lit s) static_ltree static_dtree
        else
          o ← send_bits W (ds_out s) (Z.shiftl DYN_TREES 1 + last) 3;
          o ← send_all_trees W o (ds_dyn_ltree s) (ds_dyn_dtree s) (ds_bl_tree s)
                (ds_l_max s + 1) (ds_d_max s + 1) (max_blindex + 1);
          compress_block W o (ds_lit_bufsize s) (ds_last_lit s) (ds_dyn_ltree s) (ds_dyn_dtree s)
    end;
  s ← init_block (set_out s o);
  if negb (last =? 0) then
    o ← bi_windup W (ds_out s);
    Some (set_out s o)
  else Some s.

(** [tree[c].Freq++] *)
Definition incr_freq (tree : list ct_data) (c : Z) : option (list ct_data) :=
  x ← tree.[c];
  tree.[c <- Ct (u16 (Freq x + 1)) (dl x)].

(** [_tr_tally], and the value it returns. *)
Definition _tr_tally (s : deflate_state) (dist lc : Z) : option (deflate_state * bool) :=
  buf ← d_buf_set (pending_buf (ds_out s)) (ds_lit_bufsize s) (ds_last_lit s) (u16 dist);
  buf ← l_buf_set buf (ds_lit_bufsize s) (ds_last_lit s) (u8 lc);
  let o := ds_out s in
  let s := set_tally (set_out s (Outbuf buf (pending o) (bi_buf o) (bi_valid o)))
             (u32 (ds_last_lit s + 1)) (ds_matches s) in
  s ← (if dist =? 0 then
         lt ← incr_freq (ds_dyn_ltree s) lc;
         Some (set_trees s lt (ds_dyn_dtree s) (ds_bl_tree s))
       else
         let dist := u32 (dist - 1) in
         c ← _length_code.[lc];
         lt ← incr_freq (ds_dyn_ltree s) (c + LITERALS + 1);
         d ← d_code dist;
         dt ← incr_freq (ds_dyn_dtree s) d;
         Some (set_tally (set_trees s lt dt (ds_bl_tree s)) (ds_last_lit s)
                 (u32 (ds_matches s + 1))));
  Some (s, ds_last_lit s =? ds_lit_bufsize s - 1).

End flush.
