(* ===== verification/TreeBits.v ===== *)
(** The bit output of [trees.c] as a sequence of bits, and the codes that
    [gen_codes] and the static tables give to the symbols. *)

From Stdlib Require Import ZArith Lia.
From stdpp Require Import base option numbers list.
From S2P Require Import Prelude Deflate Trees.

Open Scope Z_scope.

(** ** The output as bits *)

Section output.
Context (W : Z).

(** The bits sent so far: the pending bytes, then the bit buffer. *)
Definition out_bits (o : outbuf) : list bool :=
  bytes_bits (take (Z.to_nat (pending o)) (pending_buf o)) ++
  bits_of (Z.to_nat (bi_valid o)) (bi_buf o).

Record out_wf (o : outbuf) : Prop := OutWf {
  ow_pending : 0 ≤ pending o ≤ Z.of_nat (length (pending_buf o));
  ow_size : Z.of_nat (length (pending_buf o)) < 2 ^ W;
  ow_bytes : bytes (take (Z.to_nat (pending o)) (pending_buf o));
  ow_valid : 0 ≤ bi_valid o ≤ 16;
  ow_buf : in_width (bi_valid o) (bi_buf o) }.

(** There is room for [n] more bits. *)
Definition room (o : outbuf) (n : Z) : Prop :=
  Z.of_nat (length (out_bits o)) + n ≤ 8 * Z.of_nat (length (pending_buf o)).

(** [o'] is [o] after sending [bs]; the buffer past the pending bytes is
    untouched. *)
Record emits (o : outbuf) (bs : list bool) (o' : outbuf) : Prop := Emits {
  em_wf : out_wf o';
  em_bits : out_bits o' = out_bits o ++ bs;
  em_length : length (pending_buf o') = length (pending_buf o);
  em_pending : pending o ≤ pending o';
  em_rest : drop (Z.to_nat (pending o')) (pending_buf o')
            = drop (Z.to_nat (pending o')) (pending_buf o) }.

Lemma length_out_bits o :
  out_wf o → Z.of_nat (length (out_bits o)) = 8 * pending o + bi_valid o.
Proof.
  intros []. unfold out_bits. rewrite length_app, length_bits_of, length_bytes_bits, length_take. lia.
Qed.

Lemma emits_refl o : out_wf o → emits o [] o.
Proof. intros. split; [done|by rewrite app_nil_r|done|done|done]. Qed.

Lemma emits_trans o1 o2 o3 b1 b2 : emits o1 b1 o2 → emits o2 b2 o3 → emits o1 (b1 ++ b2) o3.
Proof.
  intros [W1 B1 L1 P1 R1] [W2 B2 L2 P2 R2]. split; [done| |congruence|lia|].
  - rewrite B2, B1, app_assoc. done.
  - rewrite R2. destruct W1.
    replace (Z.to_nat (pending o3)) with (Z.to_nat (pending o2) + (Z.to_nat (pending o3) - Z.to_nat (pending o2)))%nat by lia.
    rewrite <-!drop_drop, R1. done.
Qed.

Lemma room_mono o m n : n ≤ m → room o m → room o n.
Proof. unfold room. lia. Qed.

Lemma room_emits o bs o' n : emits o bs o' → room o (Z.of_nat (length bs) + n) → room o' n.
Proof. intros [_ B L _ _] H. unfold room in *. rewrite B, L, length_app. lia. Qed.

(** Appending bytes to the pending ones. *)
Record appends (o : outbuf) (l : list Z) (o' : outbuf) : Prop := Appends {
  ap_pending : pending o' = pending o + Z.of_nat (length l);
  ap_take : take (Z.to_nat (pending o')) (pending_buf o')
            = take (Z.to_nat (pending o)) (pending_buf o) ++ l;
  ap_drop : drop (Z.to_nat (pending o')) (pending_buf o')
            = drop (Z.to_nat (pending o')) (pending_buf o);
  ap_length : length (pending_buf o') = length (pending_buf o) }.

(** The bit buffer did not change. *)
Definition same_bi (o o' : outbuf) : Prop := bi_buf o' = bi_buf o ∧ bi_valid o' = bi_valid o.

Lemma appends_trans o1 o2 o3 l1 l2 :
  0 ≤ pending o1 → appends o1 l1 o2 → appends o2 l2 o3 → appends o1 (l1 ++ l2) o3.
Proof.
  intros H0 [P1 T1 D1 L1] [P2 T2 D2 L2].
  split; [rewrite length_app; lia| | |congruence].
  - rewrite T2, T1, app_assoc. done.
  - rewrite D2.
    replace (Z.to_nat (pending o3)) with (Z.to_nat (pending o2) + (Z.to_nat (pending o3) - Z.to_nat (pending o2)))%nat by lia.
    rewrite <-!drop_drop, D1. done.
Qed.

Lemma put_byte_run o c :
  0 ≤ pending o < Z.of_nat (length (pending_buf o)) → Z.of_nat (length (pending_buf o)) < 2 ^ W →
  ∃ o', put_byte W o c = Some o' ∧ appends o [u8 c] o' ∧ same_bi o o'.
Proof.
  intros Hp Hw. unfold put_byte. rewrite aset_in by done. simpl_bind.
  eexists. split; [done|]. split; [|done]. rewrite (wrap_small W) by (unfold in_width; lia).
  assert (Z.to_nat (pending o + 1) = S (Z.to_nat (pending o))) as E by lia.
  split; cbn [pending pending_buf bi_buf bi_valid]; rewrite ?E, ?length_insert; try done.
  - rewrite (take_S_r _ _ (u8 c)) by (apply list_lookup_insert_eq; lia).
    by rewrite take_insert_ge by lia.
  - by rewrite drop_insert_lt by lia.
Qed.

Lemma land_255_u8 w : u8 (Z.land w 255) = w mod 256.
Proof.
  rewrite (Z.land_ones w 8 ltac:(lia) : Z.land w 255 = _). unfold wrap. apply Z.mod_mod. lia.
Qed.

Lemma put_short_run o w :
  0 ≤ pending o → pending o + 2 ≤ Z.of_nat (length (pending_buf o)) →
  Z.of_nat (length (pending_buf o)) < 2 ^ W → in_width 16 w →
  ∃ o', put_short W o w = Some o' ∧ appends o [w mod 256; w / 256] o' ∧ same_bi o o'.
Proof.
  intros Hp Hr Hw H16. unfold put_short.
  destruct (put_byte_run o (Z.land w 255)) as (o1 & -> & A1 & S1); [lia|done|]. simpl_bind.
  pose proof A1 as [P1 T1 D1 L1].
  destruct (put_byte_run o1 (Z.shiftr (u16 w) 8)) as (o2 & -> & A2 & S2).
  { rewrite P1, L1. simpl. lia. } { by rewrite L1. }
  exists o2. split; [done|]. split; [|destruct S1, S2; split; congruence].
  rewrite land_255_u8 in A1. rewrite (wrap_small 16), Z.shiftr_div_pow2, wrap_small in A2; [|..|done];
    [|unfold in_width in *; change (2 ^ 8) with 256; split; [apply Z.div_pos; lia|apply Z.div_lt_upper_bound; lia]|lia].
  by apply (appends_trans o o1 o2 [_] [_]).
Qed.

Lemma two_byte_bits w : bytes_bits [w mod 256; w / 256] = bits_of 16 w.
Proof.
  change (bytes_bits [w mod 256; w / 256]) with (bits_of 8 (w mod 256) ++ bits_of 8 (w / 256) ++ []).
  rewrite app_nil_r, (bits_of_add 8 8), Z.shiftr_div_pow2 by lia. f_equal.
  apply (bits_of_wrap 8 8). lia.
Qed.

Lemma bytes_pair w : in_width 16 w → bytes [w mod 256; w / 256].
Proof.
  intros Hw. unfold in_width in Hw.
  repeat constructor; [apply Z.mod_pos_bound; lia..|apply Z.div_pos; lia|apply Z.div_lt_upper_bound; lia].
Qed.

(** The output after bytes have been appended and the bit buffer replaced. *)
Lemma appends_emits o l o' buf valid bs :
  out_wf o → appends o l o' → bytes l → 0 ≤ valid ≤ 16 → in_width valid buf →
  pending o + Z.of_nat (length l) ≤ Z.of_nat (length (pending_buf o)) →
  bits_of (Z.to_nat (bi_valid o)) (bi_buf o) ++ bs = bytes_bits l ++ bits_of (Z.to_nat valid) buf →
  emits o bs (set_bi o' buf valid).
Proof.
  intros [] [] Hl Hv Hb Hr E. split; cbn [set_bi pending pending_buf bi_buf bi_valid]; [|..|lia|done].
  - split; cbn [set_bi pending pending_buf bi_buf bi_valid]; [lia|lia| |done|done].
    rewrite ap_take0. apply Forall_app. done.
  - unfold out_bits. cbn [set_bi pending pending_buf bi_buf bi_valid].
    rewrite ap_take0, bytes_bits_app, <-!app_assoc. f_equal. done.
  - done.
Qed.

Lemma appends_nil o : 0 ≤ pending o → appends o [] o.
Proof. intros. split; [simpl; lia|by rewrite app_nil_r|done..]. Qed.

(** ** [send_bits] *)

Lemma send_buffer a b v :
  0 ≤ v ≤ 16 → in_width v a → in_width 16 b →
  u16 (Z.lor a (Z.shiftl (u16 b) v)) = Z.lor a (Z.shiftl (b mod 2 ^ (16 - v)) v).
Proof.
  intros Hv Ha Hb. rewrite (wrap_small 16 b) by done. unfold wrap.
  apply Z.bits_inj'. intros i Hi.
  destruct (decide (i < 16)) as [Hlt|Hge].
  - rewrite Z.mod_pow2_bits_low, !Z.lor_spec, !Z.shiftl_spec by lia. f_equal.
    destruct (decide (i < v)); [rewrite !Z.testbit_neg_r by lia; done|].
    rewrite Z.mod_pow2_bits_low by lia. done.
  - rewrite Z.mod_pow2_bits_high, Z.lor_spec, Z.shiftl_spec by lia.
    rewrite (testbit_above v a), Z.mod_pow2_bits_high by (done || lia). done.
Qed.

Lemma bits_of_split n m v :
  (m ≤ n)%nat → bits_of n v = bits_of m (v mod 2 ^ Z.of_nat m) ++ bits_of (n - m) (Z.shiftr v (Z.of_nat m)).
Proof.
  intros Hm. replace n with (m + (n - m))%nat at 1 by lia. rewrite bits_of_add. f_equal.
  symmetry. by apply (bits_of_wrap m (Z.of_nat m)).
Qed.

Lemma bits_of_or_nat v k a b :
  0 ≤ v → 0 ≤ k → in_width v a →
  bits_of (Z.to_nat v) a ++ bits_of (Z.to_nat k) b
  = bits_of (Z.to_nat (v + k)) (Z.lor a (Z.shiftl b v)).
Proof.
  intros Hv Hk Ha. rewrite Z2Nat.inj_add by lia.
  replace (Z.shiftl b v) with (Z.shiftl b (Z.of_nat (Z.to_nat v))) by (by rewrite Z2Nat.id).
  rewrite bits_of_lor by by rewrite Z2Nat.id. done.
Qed.

Lemma lor_shiftl_width a b v k :
  0 ≤ v → 0 ≤ k → in_width v a → in_width k b → in_width (v + k) (Z.lor a (Z.shiftl b v)).
Proof.
  intros Hv Hk Ha Hb. rewrite lor_shiftl_add by done. unfold in_width in *.
  rewrite Z.pow_add_r by lia. nia.
Qed.

Lemma send_bits_run o value len :
  out_wf o → 0 ≤ len ≤ 16 → in_width len value → room o len →
  ∃ o', send_bits W o value len = Some o' ∧ emits o (bits_of (Z.to_nat len) value) o'.
Proof.
  intros Hwf Hlen Hval Hroom. pose proof Hwf as [Hp Hsz Hby Hv Hb].
  unfold room in Hroom. rewrite (length_out_bits o Hwf) in Hroom.
  assert (in_width 16 value) as Hv16 by by apply (in_width_mono len).
  unfold send_bits. rewrite send_buffer by done. unfold Buf_size.
  destruct (Z.ltb_spec (16 - len) (bi_valid o)) as [Hover|Hfit].
  - set (k := 16 - bi_valid o). set (lo := value mod 2 ^ k).
    assert (in_width k lo) as Hlo by (apply (wrap_range k); lia).
    assert (in_width 16 (Z.lor (bi_buf o) (Z.shiftl lo (bi_valid o)))) as H16.
    { replace 16 with (bi_valid o + k) by lia. apply lor_shiftl_width; [lia|lia|done|done]. }
    set (w := Z.lor (bi_buf o) _) in *.
    destruct (put_short_run (set_bi o w (bi_valid o)) w) as (o1 & -> & A1 & _); [cbn; lia..|done|].
    simpl_bind. eexists. split; [done|].
    rewrite (wrap_small 16 value) by done.
    assert (in_width (len - k) (Z.shiftr value k)) as Hhi.
    { unfold in_width in *. rewrite Z.shiftr_div_pow2 by lia.
      replace len with (k + (len - k)) in Hval by lia. rewrite Z.pow_add_r in Hval by lia.
      pose proof (pow2_pos k ltac:(lia)).
      split; [apply Z.div_pos; lia|apply Z.div_lt_upper_bound; lia]. }
    rewrite (wrap_small 16) by (apply (in_width_mono (len - k)); [lia|done]).
    replace (bi_valid o + (len - 16)) with (len - k) by lia.
    apply (appends_emits o [w mod 256; w / 256] o1); try done; [|by apply bytes_pair|lia|simpl; lia|].
    { by destruct A1. }
    rewrite two_byte_bits. unfold w.
    replace 16%nat with (Z.to_nat (bi_valid o + k)) by lia.
    rewrite <-bits_of_or_nat by (done || lia). rewrite <-app_assoc. f_equal.
    rewrite (bits_of_split (Z.to_nat len) (Z.to_nat k)), Z2Nat.id by lia. f_equal. f_equal. lia.
  - eexists. split; [done|].
    apply (appends_emits o [] o); try done; [apply appends_nil; lia|by constructor|lia| |simpl; lia|].
    + apply (in_width_mono (bi_valid o + len)); [lia|]. apply lor_shiftl_width; [lia|lia|done|].
      rewrite Z.mod_small; [done|]. unfold in_width in Hval. split; [lia|].
      eapply Z.lt_le_trans; [apply Hval|]. apply Z.pow_le_mono_r; lia.
    + rewrite Z.mod_small.
      * cbn [app bytes_bits]. unfold bytes_bits. cbn [mbind list_bind app]. apply bits_of_or_nat; [lia|lia|done].
      * split; [apply Hval|]. eapply Z.lt_le_trans; [apply Hval|]. apply Z.pow_le_mono_r; lia.
Qed.
End output.

(** ** Codes *)

Lemma bi_reverse_loop_spec n : ∀ k code r,
  0 ≤ k → k + Z.of_nat n ≤ 30 → in_width k r →
  ∃ r', bi_reverse_loop n code (2 * r) = 2 * r' ∧ in_width (k + Z.of_nat n) r' ∧
    bits_of (n + Z.to_nat k) r' = reverse (bits_of n code) ++ bits_of (Z.to_nat k) r.
Proof.
  induction n as [|n IH]; intros k code r Hk Hn Hr; cbn [bi_reverse_loop].
  { exists r. rewrite Z.add_0_r. done. }
  set (b := Z.odd code).
  assert (Z.lor (2 * r) (Z.land code 1) = 2 * r + Z.b2z b) as ->.
  { rewrite (Z.land_ones code 1 ltac:(lia) : Z.land code 1 = _). change (2 ^ 1) with 2.
    rewrite Zmod_odd. replace (2 * r) with (Z.shiftl r 1) by (rewrite Z.shiftl_mul_pow2; lia).
    change (if Z.odd code then 1 else 0) with (Z.b2z b).
    rewrite Z.lor_comm, lor_shiftl_add; [rewrite Z.shiftl_mul_pow2; lia|lia|]. unfold in_width. destruct b; simpl; lia. }
  assert (in_width (k + 1) (2 * r + Z.b2z b)) as Hr'.
  { unfold in_width in *. rewrite Z.pow_add_r by lia. destruct b; simpl; lia. }
  assert (u32 (Z.shiftl (2 * r + Z.b2z b) 1) = 2 * (2 * r + Z.b2z b)) as ->.
  { rewrite Z.shiftl_mul_pow2 by lia. rewrite wrap_small; [lia|].
    apply (in_width_mono (k + 2)); [lia|]. unfold in_width in *.
    replace (k + 2) with (k + 1 + 1) by lia. rewrite (Z.pow_add_r 2 (k + 1) 1) by lia. lia. }
  destruct (IH (k + 1) (Z.shiftr code 1) (2 * r + Z.b2z b)) as (r' & E & Hw & Hb); [lia|lia|done|].
  exists r'. split_and!; [done| |].
  - replace (k + Z.of_nat (S n)) with (k + 1 + Z.of_nat n) by lia. done.
  - replace (S n + Z.to_nat k)%nat with (n + Z.to_nat (k + 1))%nat by lia. rewrite Hb.
    cbn [bits_of]. rewrite reverse_cons, <-app_assoc. rewrite <-Z.div2_spec. f_equal.
    replace (Z.to_nat (k + 1)) with (S (Z.to_nat k)) by lia. cbn [bits_of app].
    rewrite (Z.add_comm (2 * r)), odd_b2z_add, div2_b2z_add. done.
Qed.

Lemma bi_reverse_spec code (len : nat) :
  (1 ≤ len ≤ 15)%nat →
  in_width (Z.of_nat len) (bi_reverse code (Z.of_nat len)) ∧
  bits_of len (bi_reverse code (Z.of_nat len)) = msb_bits len code.
Proof.
  intros Hl. unfold bi_reverse. rewrite Nat2Z.id, Nat.max_r by lia.
  destruct (bi_reverse_loop_spec len 0 code 0) as (r & E & Hw & Hb); [lia|lia|done|].
  change (2 * 0) with 0 in E. rewrite E.
  rewrite Z.shiftr_div_pow2, Z.mul_comm by lia. change (2 ^ 1) with 2. rewrite Z.div_mul by lia.
  split; [done|]. cbn [Z.to_nat bits_of] in Hb. rewrite Nat.add_0_r, app_nil_r in Hb. exact Hb.
Qed.

(** [tree] gives the canonical codes of the lengths [lens], in sending order. *)
Definition tree_codes (tree : list ct_data) (lens : list Z) : Prop :=
  ∀ (i l : nat), lens !! i = Some (Z.of_nat l) → (1 ≤ l ≤ 15)%nat →
  ∃ c, tree !! i = Some (Ct c (Z.of_nat l)) ∧ in_width (Z.of_nat l) c ∧
       bits_of l c = msb_bits l (code_of lens i l).

Lemma send_code_run W tree lens (c : nat) (l : nat) o :
  tree_codes tree lens → lens !! c = Some (Z.of_nat l) → (1 ≤ l ≤ 15)%nat →
  out_wf W o → room o (Z.of_nat l) →
  ∃ o', send_code W o (Z.of_nat c) tree = Some o' ∧ emits W o (msb_bits l (code_of lens c l)) o'.
Proof.
  intros Ht Hc Hl Hwf Hr. destruct (Ht c l Hc Hl) as (x & Hx & Hw & Hb).
  unfold send_code. rewrite aget_lookup, Hx. cbn [mbind option_bind fc dl].
  destruct (send_bits_run W o x (Z.of_nat l) Hwf) as (o' & -> & He); [lia|done|done|].
  exists o'. split; [done|]. by rewrite Nat2Z.id, Hb in He.
Qed.

(** ** [gen_codes] *)

Section gen_codes.
Context (lens : list Z) (Hok : lengths_ok lens) (Hno : not_over lens).

Lemma first_code_le (l : nat) : (l ≤ 15)%nat → first_code lens l + ncodes lens l ≤ 2 ^ Z.of_nat l.
Proof. intros Hl. pose proof (kraft lens l). specialize (Hno l Hl). lia. Qed.

Lemma pow2_le_15 (l : nat) : (l ≤ 15)%nat → 2 ^ Z.of_nat l ≤ 32768.
Proof. intros. change 32768 with (2 ^ 15). apply Z.pow_le_mono_r; lia. Qed.

Lemma next_codes_run bl :
  (∀ l : nat, (l ≤ 15)%nat → aget bl (Z.of_nat l) = Some (ncodes lens l)) →
  succeeds (next_codes bl) (λ nc,
    length nc = 16%nat ∧ ∀ l : nat, (1 ≤ l ≤ 15)%nat → aget nc (Z.of_nat l) = Some (first_code lens l)).
Proof.
  intros Hbl. unfold next_codes.
  set (I := λ j '(code, nc), code = first_code lens (Z.to_nat (j - 1)) ∧ length nc = 16%nat ∧
    ∀ l : nat, (1 ≤ l)%nat → Z.of_nat l < j → aget nc (Z.of_nat l) = Some (first_code lens l)).
  eapply succeeds_bind; [apply (for_up_total I)|].
  - intros j [code nc] Hj (-> & Hl & Hv). change (Z.of_nat (Z.to_nat MAX_BITS)) with 15 in Hj.
    pose proof (Hbl (Z.to_nat (j - 1)) ltac:(lia)) as Hc. rewrite Z2Nat.id in Hc by lia.
    rewrite Hc. simpl_bind.
    pose proof (first_code_le (Z.to_nat (j - 1)) ltac:(lia)) as Hle.
    pose proof (pow2_le_15 (Z.to_nat (j - 1)) ltac:(lia)).
    pose proof (first_code_nonneg lens (Z.to_nat (j - 1))). pose proof (ncodes_nonneg lens (Z.to_nat (j - 1))).
    assert (first_code lens (Z.to_nat j) =
      2 * (first_code lens (Z.to_nat (j - 1)) + ncodes lens (Z.to_nat (j - 1)))) as E.
    { replace (Z.to_nat j) with (S (Z.to_nat (j - 1))) by lia. done. }
    rewrite Z.shiftl_mul_pow2 by lia.
    rewrite (wrap_small 32 (first_code lens _ + _)) by (unfold in_width; lia).
    rewrite (Z.mul_comm _ (2 ^ 1)). change (2 ^ 1) with 2. rewrite <-E.
    pose proof (first_code_le (Z.to_nat j) ltac:(lia)). pose proof (pow2_le_15 (Z.to_nat j) ltac:(lia)).
    pose proof (first_code_nonneg lens (Z.to_nat j)). pose proof (ncodes_nonneg lens (Z.to_nat j)).
    rewrite (wrap_small 32), wrap_small by (unfold in_width; lia).
    rewrite aset_in by lia. cbn [succeeds mbind option_bind]. unfold I.
    split_and!; [f_equal; lia|by rewrite length_insert|]. intros l Hl1 Hlj.
    rewrite aget_insert by lia. case_decide as Ej; [|apply Hv; lia].
    do 2 f_equal. lia.
  - unfold I. split_and!; [done|done|lia].
  - intros [code nc] (_ & Hl & Hv). cbn [succeeds]. split; [done|]. intros l Hl'. apply Hv; [lia|].
    change (1 + Z.of_nat (Z.to_nat MAX_BITS)) with 16. lia.
Qed.

(** The state of the second loop after [n] symbols. *)
Record coded (tree0 : list ct_data) (n : Z) (tree : list ct_data) (nc : list Z) : Prop := Coded {
  cd_size : length nc = 16%nat;
  cd_next : ∀ l : nat, (1 ≤ l ≤ 15)%nat →
    aget nc (Z.of_nat l) = Some (first_code lens l + cnt (take (Z.to_nat n) lens) (Z.of_nat l));
  cd_lens : dl <$> tree = dl <$> tree0;
  cd_codes : ∀ i l : nat, Z.of_nat i < n → lens !! i = Some (Z.of_nat l) → (1 ≤ l ≤ 15)%nat →
    tree !! i = Some (Ct (bi_reverse (code_of lens i l) (Z.of_nat l)) (Z.of_nat l)) }.

Lemma fmap_insert_same (f : ct_data → Z) (l : list ct_data) i x y :
  l !! i = Some x → f y = f x → f <$> <[i:=y]> l = f <$> l.
Proof.
  intros Hx E. rewrite list_fmap_insert, E. apply list_insert_id. by rewrite list_lookup_fmap, Hx.
Qed.

Lemma coded_step tree0 n tree nc :
  lens = dl <$> take (length lens) tree0 → 0 ≤ n < Z.of_nat (length lens) →
  coded tree0 n tree nc →
  succeeds (gen_code_step n (tree, nc)) (λ '(tree', nc'), coded tree0 (n + 1) tree' nc').
Proof.
  intros Hlens Hn [Hs Hnx Hdl Hcd]. unfold gen_code_step.
  destruct (lookup_lt_is_Some_2 lens (Z.to_nat n)) as [lz Hlz]; [lia|].
  pose proof (Forall_lookup_1 _ _ _ _ Hok Hlz) as Hlr. cbn beta in Hlr.
  assert (∃ x, tree !! Z.to_nat n = Some x ∧ dl x = lz) as (x & Hx & Hxl).
  { rewrite Hlens in Hlz. rewrite list_lookup_fmap, lookup_take_lt in Hlz by lia.
    rewrite <-list_lookup_fmap, <-Hdl, list_lookup_fmap in Hlz.
    destruct (tree !! Z.to_nat n) as [x|]; [|done]. exists x. simpl in Hlz. naive_solver. }
  assert (aget tree n = Some x) as -> by (apply aget_some; split; [lia|done]).
  simpl_bind. rewrite Hxl.
  assert (∀ k, cnt (take (Z.to_nat (n + 1)) lens) k = cnt (take (Z.to_nat n) lens) k + if decide (lz = k) then 1 else 0) as Htake.
  { intros k. replace (Z.to_nat (n + 1)) with (S (Z.to_nat n)) by lia. by apply cnt_take_S. }
  destruct (Z.eqb_spec lz 0) as [E0|E0].
  { cbn [succeeds]. split; [done| |done|].
    - intros l Hl. rewrite Htake, decide_False by lia. rewrite Hnx by done. f_equal. lia.
    - intros i l Hi Hl Hl1. destruct (decide (Z.of_nat i = n)) as [E|]; [|apply Hcd; (done || lia)].
      replace i with (Z.to_nat n) in Hl by lia. simplify_eq. lia. }
  set (l := Z.to_nat lz). assert (lz = Z.of_nat l) as El by (unfold l; lia).
  assert (1 ≤ l ≤ 15)%nat as Hl by lia. rewrite El, Hnx by done. simpl_bind.
  rewrite (aset_in nc) by lia. simpl_bind. rewrite (aset_in tree) by (apply lookup_lt_Some in Hx; lia).
  cbn [succeeds].
  rewrite El in Hlz. pose proof (rank_lt lens (Z.to_nat n) (Z.of_nat l) Hlz) as Hrk. unfold rank in Hrk.
  assert (ncodes lens l = cnt lens (Z.of_nat l)) as Enc by (destruct l; [lia|done]).
  pose proof (first_code_le l ltac:(lia)). pose proof (pow2_le_15 l ltac:(lia)).
  pose proof (first_code_nonneg lens l). pose proof (cnt_nonneg (take (Z.to_nat n) lens) (Z.of_nat l)).
  rewrite (wrap_small 16 (_ + 1)) by (unfold in_width; lia).
  destruct (bi_reverse_spec (first_code lens l + cnt (take (Z.to_nat n) lens) (Z.of_nat l)) l Hl) as [Hbw _].
  rewrite wrap_small by (apply (in_width_mono (Z.of_nat l)); [lia|done]).
  split.
  - by rewrite length_insert.
  - intros k Hk. rewrite aget_insert, Htake by lia. repeat case_decide; try lia.
    + assert (k = l) as -> by lia. f_equal. lia.
    + rewrite Hnx by done. f_equal. lia.
  - rewrite (fmap_insert_same _ _ _ x) by (done || (simpl; lia)). done.
  - intros i k Hi Hk Hk1. destruct (decide (i = Z.to_nat n)) as [->|].
    + rewrite list_lookup_insert_eq by by apply lookup_lt_Some in Hx.
      rewrite Hlz in Hk. injection Hk as Hk. assert (k = l) as -> by lia. done.
    + rewrite list_lookup_insert_ne by done. apply Hcd; (done || lia).
Qed.

Lemma gen_codes_run tree bl :
  lens = dl <$> take (length lens) tree → length bl = 16%nat →
  (∀ l : nat, (l ≤ 15)%nat → aget bl (Z.of_nat l) = Some (ncodes lens l)) →
  succeeds (gen_codes tree (Z.of_nat (length lens) - 1) bl) (λ tree',
    tree_codes tree' lens ∧ dl <$> tree' = dl <$> tree).
Proof.
  intros Hlens Hbl Hv. unfold gen_codes.
  eapply succeeds_bind; [by apply next_codes_run|]. intros nc [Hnl Hnv]. cbn beta.
  replace (Z.of_nat (length lens) - 1 + 1) with (Z.of_nat (length lens)) by lia. rewrite Nat2Z.id.
  eapply succeeds_bind; [apply (for_up_total (λ n '(t, c), coded tree n t c))|].
  - intros j [t c] Hj Hc. apply coded_step; [done|lia|done].
  - split; [done| |done|lia]. intros l Hl. rewrite Hnv by done. rewrite cnt_nil. f_equal. lia.
  - intros [t c] [_ _ Hdl Hcd]. cbn [succeeds]. split; [|done]. intros i l Hi Hl.
    pose proof (lookup_lt_Some _ _ _ Hi). rewrite Z.add_0_l in Hcd.
    destruct (bi_reverse_spec (code_of lens i l) l Hl) as [? ?].
    eexists. split; [by apply Hcd; [lia|..]|]. done.
Qed.
End gen_codes.
