(* ===== verification/TreeSend.v ===== *)
(** What the output routines of [trees.c] send: padding, stored blocks, and
    the data of a block coded with given trees. *)

From Stdlib Require Import ZArith Lia.
From stdpp Require Import base option numbers list.
From S2P Require Import Prelude Deflate Trees TreeBits.

Open Scope Z_scope.

Section send.
Context (W : Z).
Abbreviation out_wf := (out_wf W).
Abbreviation emits := (emits W).

(** ** Padding and flushing *)

(** The number of zero bits up to the next byte boundary. *)
Definition pad_of (n : Z) : nat := Z.to_nat ((- n) mod 8).

Lemma pad_of_spec n : 0 ≤ n → (n + Z.of_nat (pad_of n)) mod 8 = 0 ∧ Z.of_nat (pad_of n) < 8.
Proof.
  intros Hn. unfold pad_of. pose proof (Z.mod_pos_bound (- n) 8 ltac:(lia)) as Hm.
  rewrite Z2Nat.id by lia. split; [|lia]. rewrite Z.add_mod_idemp_r by lia.
  by replace (n + - n) with 0 by lia.
Qed.

Lemma pad_of_unique n k : 0 ≤ k < 8 → (n + k) mod 8 = 0 → pad_of n = Z.to_nat k.
Proof.
  intros Hk H. unfold pad_of. f_equal.
  apply Z.mod_divide in H as [q Hq]; [|lia]. replace (- n) with (k + (- q) * 8) by lia.
  rewrite Z.mod_add, Z.mod_small by lia. done.
Qed.

Lemma pad_of_add m n : pad_of (8 * m + n) = pad_of n.
Proof.
  unfold pad_of. f_equal. replace (- (8 * m + n)) with (- n + (- m) * 8) by lia.
  by rewrite Z.mod_add by lia.
Qed.

Lemma bits_of_pad n k v : in_width (Z.of_nat n) v → bits_of (n + k) v = bits_of n v ++ replicate k false.
Proof.
  intros Hv. rewrite bits_of_add. f_equal. rewrite Z.shiftr_div_pow2 by lia.
  rewrite Z.div_small by done. apply bits_of_zero.
Qed.

Lemma byte_small v : in_width 8 v → u8 v = v.
Proof. apply wrap_small. Qed.

Lemma bi_windup_run o :
  out_wf o → room o (Z.of_nat (pad_of (bi_valid o))) →
  ∃ o', bi_windup W o = Some o' ∧ bi_valid o' = 0 ∧
        emits o (replicate (pad_of (bi_valid o)) false) o'.
Proof.
  intros Hwf Hroom. pose proof Hwf as [Hp Hsz Hby Hv Hb].
  unfold room in Hroom. rewrite (length_out_bits W o Hwf) in Hroom. unfold bi_windup.
  destruct (Z.ltb_spec 8 (bi_valid o)) as [H8|H8].
  { assert (pad_of (bi_valid o) = Z.to_nat (16 - bi_valid o)) as Epad
      by (apply pad_of_unique; [lia|by replace (_ + _) with (2 * 8) by lia]).
    assert (in_width 16 (bi_buf o)) as H16 by (by apply (in_width_mono (bi_valid o))).
    destruct (put_short_run W o (bi_buf o)) as (o1 & -> & A1 & _); [lia|lia|done|done|].
    simpl_bind. eexists. split; [done|]. split; [done|].
    apply (appends_emits W o [bi_buf o mod 256; bi_buf o / 256] o1); try done;
      [by apply bytes_pair|simpl; lia|].
    rewrite two_byte_bits, app_nil_r, Epad, <-bits_of_pad by by rewrite Z2Nat.id by lia. f_equal. lia. }
  destruct (Z.ltb_spec 0 (bi_valid o)) as [H0|H0].
  { assert (pad_of (bi_valid o) = Z.to_nat (8 - bi_valid o)) as Epad
      by (apply pad_of_unique; [lia|by replace (_ + _) with 8 by lia]).
    assert (in_width 8 (bi_buf o)) as Hw8 by (apply (in_width_mono (bi_valid o)); [lia|done]).
    destruct (put_byte_run W o (bi_buf o)) as (o1 & -> & A1 & _); [lia|done|].
    rewrite byte_small in A1 by done.
    simpl_bind. eexists. split; [done|]. split; [done|].
    apply (appends_emits W o [bi_buf o] o1); try done; [by repeat constructor; apply Hw8|simpl; lia|].
    change (bytes_bits [bi_buf o]) with (bits_of 8 (bi_buf o) ++ []).
    rewrite !app_nil_r, Epad, <-bits_of_pad by by rewrite Z2Nat.id by lia. f_equal. lia. }
  simpl_bind. eexists. split; [done|]. split; [done|].
  assert (bi_valid o = 0) as E0 by lia.
  apply (appends_emits W o [] o); try done; [apply appends_nil; lia|by constructor|simpl; lia|].
  by rewrite E0.
Qed.

Lemma bi_flush_run o :
  out_wf o → room o 0 → ∃ o', bi_flush W o = Some o' ∧ bi_valid o' < 8 ∧ emits o [] o'.
Proof.
  intros Hwf Hroom. pose proof Hwf as [Hp Hsz Hby Hv Hb].
  unfold room in Hroom. rewrite (length_out_bits W o Hwf) in Hroom. unfold bi_flush.
  destruct (Z.eqb_spec (bi_valid o) 16) as [E16|E16].
  { rewrite E16 in Hb. destruct (put_short_run W o (bi_buf o)) as (o1 & -> & A1 & _); [lia|lia|done|done|].
    simpl_bind. eexists. split; [done|]. split; [cbn; lia|].
    apply (appends_emits W o [bi_buf o mod 256; bi_buf o / 256] o1); try done;
      [by apply bytes_pair|simpl; lia|].
    rewrite two_byte_bits, E16. done. }
  destruct (Z.leb_spec 8 (bi_valid o)) as [H8|H8].
  2:{ exists o. split; [done|]. split; [done|by apply emits_refl]. }
  destruct (put_byte_run W o (bi_buf o)) as (o1 & -> & A1 & B1 & V1); [lia|done|].
  simpl_bind. rewrite B1, V1. eexists. split; [done|]. split; [cbn; lia|].
  apply (appends_emits W o [u8 (bi_buf o)] o1); try done.
  - constructor; [by apply wrap_range|constructor].
  - lia.
  - unfold in_width in *. rewrite Z.shiftr_div_pow2 by lia.
    replace (bi_valid o) with (8 + (bi_valid o - 8)) in Hb by lia. rewrite Z.pow_add_r in Hb by lia.
    split; [apply Z.div_pos; lia|apply Z.div_lt_upper_bound; lia].
  - simpl. lia.
  - change (bytes_bits [u8 (bi_buf o)]) with (bits_of 8 (u8 (bi_buf o)) ++ []).
    rewrite !app_nil_r, bits_of_wrap by lia.
    replace (Z.to_nat (bi_valid o)) with (8 + Z.to_nat (bi_valid o - 8))%nat by lia.
    by rewrite bits_of_add.
Qed.

(** ** Stored blocks *)

Lemma copy_pending_run l : ∀ o p,
  0 ≤ p → p + Z.of_nat (length l) ≤ Z.of_nat (length (pending_buf o)) →
  ∃ buf', copy_pending o p l = Some (Outbuf buf' (pending o) (bi_buf o) (bi_valid o)) ∧
    buf' = take (Z.to_nat p) (pending_buf o) ++ l ++ drop (Z.to_nat p + length l) (pending_buf o).
Proof.
  induction l as [|b l IH]; intros o p Hp Hl; cbn [copy_pending].
  { exists (pending_buf o). split; [by destruct o|]. cbn [app length]. by rewrite Nat.add_0_r, take_drop. }
  cbn [length] in Hl. rewrite aset_in by lia. simpl_bind.
  destruct (IH (Outbuf (<[Z.to_nat p:=b]> (pending_buf o)) (pending o) (bi_buf o) (bi_valid o)) (p + 1))
    as (buf' & -> & E); [lia|cbn [pending_buf]; rewrite length_insert; lia|].
  exists buf'. split; [done|]. rewrite E. cbn [pending_buf].
  replace (Z.to_nat (p + 1)) with (S (Z.to_nat p)) by lia.
  rewrite (take_S_r _ _ b) by (apply list_lookup_insert_eq; lia).
  rewrite take_insert_ge, drop_insert_lt by lia. rewrite <-app_assoc. cbn [app length].
  do 3 f_equal. f_equal. lia.
Qed.

Lemma lnot_16 n : 0 ≤ n ≤ 65535 → u16 (Z.lnot n) = 65535 - n.
Proof.
  intros Hn. unfold wrap, Z.lnot. change (2 ^ 16) with 65536.
  rewrite <-(Z.mod_add _ 1) by lia. rewrite Z.mod_small by lia. lia.
Qed.

(** The header of a block: the last-block bit and the two bits of its type. *)
Lemma header_bits type last :
  0 ≤ type < 3 → (last = 0 ∨ last = 1) →
  in_width 3 (Z.shiftl type 1 + last) ∧
  bits_of 3 (Z.shiftl type 1 + last) = negb (last =? 0) :: bits_of 2 type.
Proof.
  intros Ht Hl. assert (type = 0 ∨ type = 1 ∨ type = 2) as [->|[->| ->]] by lia;
    destruct Hl as [-> | ->]; by split.
Qed.

(** The bits of a stored block sent with [n] bits before it. *)
Definition stored_block_bits (n : Z) (data : list Z) : list bool :=
  replicate (pad_of (n + 3)) false ++ stored_bits data.

Lemma appends_emits_bytes o l o' :
  out_wf o → bi_valid o = 0 → appends o l o' → bytes l → same_bi o o' →
  pending o + Z.of_nat (length l) ≤ Z.of_nat (length (pending_buf o)) →
  emits o (bytes_bits l) o'.
Proof.
  intros Hwf H0 A Hb [B V] Hr.
  assert (o' = set_bi o' (bi_buf o) 0) as ->.
  { destruct o'; unfold set_bi; simpl in *. congruence. }
  apply (appends_emits W o l); try done.
  - destruct Hwf as [_ _ _ _ Hbuf]. by rewrite H0 in Hbuf.
  - rewrite H0. cbn [Z.to_nat bits_of app]. by rewrite app_nil_r.
Qed.

Lemma room_bytes o n :
  out_wf o → bi_valid o = 0 → room o (8 * n) → pending o + n ≤ Z.of_nat (length (pending_buf o)).
Proof. intros Hwf H0 Hr. unfold room in Hr. rewrite (length_out_bits W o Hwf) in Hr. lia. Qed.

Lemma put_short_emits o w :
  out_wf o → bi_valid o = 0 → in_width 16 w → room o 16 →
  ∃ o', put_short W o w = Some o' ∧ emits o (bits_of 16 w) o' ∧ bi_valid o' = 0.
Proof.
  intros Hwf H0 Hw Hr. pose proof (room_bytes o 2 Hwf H0 Hr) as Hr2. pose proof Hwf as [? ? _ _ _].
  destruct (put_short_run W o w) as (o' & -> & A & S); [lia|lia|done|done|].
  exists o'. split; [done|]. split; [|destruct S; congruence].
  rewrite <-two_byte_bits. apply appends_emits_bytes; try done. by apply bytes_pair.
Qed.

Lemma tr_stored_block_run o data last :
  out_wf o → bytes data → Z.of_nat (length data) ≤ 65535 → (last = 0 ∨ last = 1) →
  let n := Z.of_nat (length (out_bits o)) in
  room o (3 + Z.of_nat (length (stored_block_bits n data))) →
  ∃ o', _tr_stored_block W o data (Z.of_nat (length data)) last = Some o' ∧ bi_valid o' = 0 ∧
    emits o (negb (last =? 0) :: bits_of 2 0 ++ stored_block_bits n data) o'.
Proof.
  intros Hwf Hd Hl Hlast n Hroom. unfold _tr_stored_block, STORED_BLOCK.
  destruct (header_bits 0 last ltac:(lia) Hlast) as [Hw3 Hb3].
  assert (Z.of_nat (length (stored_block_bits n data))
    = Z.of_nat (pad_of (n + 3)) + (32 + 8 * Z.of_nat (length data))) as Elen.
  { unfold stored_block_bits, stored_bits.
    rewrite !length_app, length_replicate, !length_bits_of, length_bytes_bits. lia. }
  rewrite Elen in Hroom.
  destruct (send_bits_run W o _ 3 Hwf ltac:(lia) Hw3 ltac:(eapply room_mono; [|done]; lia)) as (o1 & -> & E1).
  simpl_bind.
  assert (pad_of (bi_valid o1) = pad_of (n + 3)) as Epad.
  { pose proof (length_out_bits W o1 (em_wf _ _ _ _ E1)) as L1.
    rewrite (em_bits _ _ _ _ E1), length_app, length_bits_of in L1.
    rewrite <-(pad_of_add (pending o1)). f_equal. unfold n. lia. }
  assert (room o1 (Z.of_nat (pad_of (n + 3)) + (32 + 8 * Z.of_nat (length data)))) as R1.
  { eapply room_emits; [exact E1|]. rewrite length_bits_of. done. }
  destruct (bi_windup_run o1 (em_wf _ _ _ _ E1)) as (o2 & -> & V2 & E2).
  { rewrite Epad. eapply room_mono; [|done]. lia. }
  simpl_bind. rewrite Epad in E2.
  assert (room o2 (32 + 8 * Z.of_nat (length data))) as R2.
  { eapply room_emits; [exact E2|]. by rewrite length_replicate. }
  set (len := Z.of_nat (length data)) in *.
  rewrite (wrap_small 16 len) by (unfold in_width; lia).
  destruct (put_short_emits o2 len (em_wf _ _ _ _ E2) V2) as (o3 & -> & E3 & V3);
    [unfold in_width; lia|eapply room_mono; [|done]; lia|].
  simpl_bind. rewrite lnot_16 by lia.
  assert (room o3 (16 + 8 * len)) as R3.
  { eapply room_emits; [exact E3|]. rewrite length_bits_of. eapply room_mono; [|done]. lia. }
  destruct (put_short_emits o3 (65535 - len) (em_wf _ _ _ _ E3) V3) as (o4 & -> & E4 & V4);
    [unfold in_width; lia|eapply room_mono; [|done]; lia|].
  simpl_bind.
  assert (room o4 (8 * len)) as R4.
  { eapply room_emits; [exact E4|]. rewrite length_bits_of. eapply room_mono; [|done]. lia. }
  pose proof (room_bytes o4 len (em_wf _ _ _ _ E4) V4 R4) as Hr4.
  destruct (Z.ltb_spec len len); [lia|].
  pose proof (em_wf _ _ _ _ E4) as [Hp4 Hs4 _ _ _].
  assert (take (Z.to_nat len) data = data) as -> by (unfold len; by rewrite Nat2Z.id, firstn_all).
  destruct (copy_pending_run data o4 (pending o4)) as (buf & -> & Ebuf); [lia|done|].
  cbn [mbind option_bind pending_buf pending bi_buf bi_valid].
  eexists. split; [done|]. split; [done|].
  rewrite (wrap_small W) by (unfold in_width; lia).
  assert (length (take (Z.to_nat (pending o4)) (pending_buf o4)) = Z.to_nat (pending o4)) as Lt
    by (rewrite length_take; lia).
  assert (emits o4 (bytes_bits data) (Outbuf buf (pending o4 + len) (bi_buf o4) (bi_valid o4))) as E5.
  { apply appends_emits_bytes; try done; [apply E4|]. unfold len.
    split; cbn [pending pending_buf]; rewrite ?Ebuf.
    - done.
    - rewrite app_assoc, take_app_le, take_ge by (rewrite length_app, Lt; lia). done.
    - rewrite app_assoc, drop_app_ge, length_app, Lt by (rewrite length_app, Lt; lia).
      rewrite drop_drop. f_equal. lia.
    - rewrite !length_app, Lt, length_drop. lia. }
  pose proof (emits_trans _ _ _ _ _ _ E1 (emits_trans _ _ _ _ _ _ E2 (emits_trans _ _ _ _ _ _ E3
    (emits_trans _ _ _ _ _ _ E4 E5)))) as E. change (Z.to_nat 3) with 3%nat in E. rewrite Hb3 in E.
  exact E.
Qed.
End send.

(** The output side of [src/zlib/deflate.c]: [flush_pending] moves the pending
    bytes to the output of the stream. *)

(** The output part of [z_stream]: the bytes written before [next_out],
    [avail_out], [total_out]; and [s->pending_out] as an offset in
    [s->pending_buf]. *)
Record out_stream := OutStream {
  written : list Z; avail_out : Z; total_out : Z; pending_out : Z }.

(** [W] is the width of [unsigned long]. *)
Definition flush_pending (W : Z) (o : outbuf) (st : out_stream) : option (outbuf * out_stream) :=
  o ← _tr_flush_bits W o;
  let len := u32 (pending o) in
  let len := if avail_out st <? len then avail_out st else len in
  if len =? 0 then Some (o, st)
  else
    if Z.of_nat (length (pending_buf o)) <? pending_out st + len then None
    else
      let p := pending o - len in
      Some (Outbuf (pending_buf o) p (bi_buf o) (bi_valid o),
            OutStream (written st ++ slice (pending_buf o) (pending_out st) len)
              (avail_out st - len) (wrap W (total_out st + len))
              (if p =? 0 then 0 else pending_out st + len)).

(** The bits of the whole stream so far. *)
Definition stream_bits (o : outbuf) (st : out_stream) : list bool :=
  bytes_bits (written st) ++ out_bits o.

(** With enough output space everything but the last bits is written. *)
Lemma flush_pending_run W o st :
  out_wf W o → room o 0 → Z.of_nat (length (pending_buf o)) < 2 ^ 32 →
  pending_out st = 0 → pending o + 2 ≤ avail_out st → bytes (written st) →
  ∃ o' st', flush_pending W o st = Some (o', st') ∧ out_wf W o' ∧ pending o' = 0 ∧ bi_valid o' < 8 ∧
    length (pending_buf o') = length (pending_buf o) ∧ pending_out st' = 0 ∧ bytes (written st') ∧
    stream_bits o' st' = stream_bits o st ∧ avail_out st - pending o - 2 ≤ avail_out st' ∧
    (bi_valid o = 0 → bi_valid o' = 0).
Proof.
  intros Hwf Hr H32 Hpo Hav Hby. unfold flush_pending, _tr_flush_bits.
  destruct (bi_flush_run W o Hwf Hr) as (o1 & -> & Hv1 & Em). simpl_bind.
  pose proof (em_wf _ _ _ _ Em) as Hwf1. pose proof Hwf1 as [Hp Hsz Hb Hv Hbb]. pose proof (em_bits _ _ _ _ Em) as Eb.
  rewrite app_nil_r in Eb. pose proof (em_length _ _ _ _ Em) as El.
  assert (pending o1 ≤ pending o + 2) as Hp2.
  { pose proof (length_out_bits W o1 Hwf1). pose proof (length_out_bits W o Hwf). rewrite Eb in *. destruct Hwf. lia. }
  assert (bi_valid o = 0 → bi_valid o1 = 0) as Hv0.
  { pose proof (length_out_bits W o1 Hwf1). pose proof (length_out_bits W o Hwf). rewrite Eb in *. lia. }
  rewrite (wrap_small 32) by (unfold in_width; lia).
  destruct (Z.ltb_spec (avail_out st) (pending o1)); [lia|].
  destruct (Z.eqb_spec (pending o1) 0) as [E0|E0].
  { exists o1, st. unfold stream_bits. rewrite Eb. split_and!; (done || lia). }
  rewrite Hpo. destruct (Z.ltb_spec (Z.of_nat (length (pending_buf o1))) (0 + pending o1)); [lia|].
  rewrite Z.sub_diag. cbn [Z.eqb]. do 2 eexists. split; [done|].
  cbn [pending bi_valid pending_buf pending_out written avail_out].
  assert (slice (pending_buf o1) 0 (pending o1) = take (Z.to_nat (pending o1)) (pending_buf o1)) as Es by done.
  split_and!; try done; try lia.
  - split; cbn [pending pending_buf bi_buf bi_valid]; try done; [lia|]. by constructor.
  - rewrite Es. by apply Forall_app.
  - unfold stream_bits. cbn [written]. rewrite <-Eb, Es, bytes_bits_app, <-app_assoc. done.
Qed.
