(* ===== verification/TreeCompress.v ===== *)
(** [compress_block]: the symbols tallied in the overlay are sent as the items
    of a block of the format. *)

From Stdlib Require Import ZArith Lia.
From stdpp Require Import base option numbers list.
From S2P Require Import Prelude Deflate Trees TreeBits TreeSend.

Open Scope Z_scope.

(** ** Tallied symbols *)

(** A distance, or zero for a literal, with the literal or the length minus
    three. *)
Definition token : Type := Z * Z.

Definition tok_item (t : token) : item :=
  if t.1 =? 0 then Lit t.2 else Copy (t.2 + 3) t.1.

Definition tok_ok (t : token) : Prop := 0 ≤ t.1 ≤ 32768 ∧ in_width 8 t.2.

(** The code and extra bits chosen by the tables of [trees.h] for a value. *)
Definition table_code (v : Z) (code : option Z) (base extra : list Z) (fbase fextra : list Z)
    (off : Z) : bool :=
  match code with
  | None => false
  | Some i =>
      match base.[i], extra.[i], fbase.[i], fextra.[i] with
      | Some b, Some x, Some fb, Some fx =>
          let e := if x =? 0 then 0 else v - b in
          (0 <=? i) && (x =? fx) && (0 <=? e) && (e <? 2 ^ x) && (v + off =? fb + e)
      | _, _, _, _ => false
      end
  end.

Lemma length_tables :
  forallb (λ v, table_code v (_length_code.[v]) base_length extra_lbits len_base len_extra 3)
    (seqZ 0 256) = true.
Proof. by vm_compute. Qed.

Lemma dist_tables_small :
  forallb (λ v, table_code v (d_code v) base_dist extra_dbits dist_base dist_extra 1)
    (seqZ 0 256) = true.
Proof. by vm_compute. Qed.

(** The larger distances, by the 128 that share an entry: the first and the
    last of them. *)
Lemma dist_tables_large :
  forallb (λ k, let t v := table_code v (_dist_code.[256 + k]) base_dist extra_dbits
                             dist_base dist_extra 1 in t (128 * k) && t (128 * k + 127))
    (seqZ 2 254) = true.
Proof. by vm_compute. Qed.

(** The values with the same code form an interval. *)
Lemma table_code_between v lo hi code base extra fbase fextra off :
  lo ≤ v ≤ hi → lo < hi →
  table_code lo code base extra fbase fextra off = true →
  table_code hi code base extra fbase fextra off = true →
  table_code v code base extra fbase fextra off = true.
Proof.
  unfold table_code. intros Hv Hlt. destruct code as [i|]; [|done].
  destruct (base.[i]), (extra.[i]) as [x|], (fbase.[i]), (fextra.[i]); try done. cbv zeta.
  destruct (Z.eqb_spec x 0) as [->|].
  - rewrite !andb_true_iff, !Z.eqb_eq. lia.
  - rewrite !andb_true_iff, !Z.eqb_eq, !Z.leb_le, !Z.ltb_lt. lia.
Qed.

Lemma table_code_spec v code base extra fbase fextra off :
  table_code v code base extra fbase fextra off = true →
  ∃ (i : nat) b x e, code = Some (Z.of_nat i) ∧ base.[Z.of_nat i] = Some b ∧
    extra.[Z.of_nat i] = Some x ∧ e = (if x =? 0 then 0 else v - b) ∧
    extra_of fbase fextra i (v + off) x e.
Proof.
  unfold table_code. destruct code as [i|]; [|done].
  destruct (base.[i]) as [b|] eqn:Eb; [|done]. destruct (extra.[i]) as [x|] eqn:Ex; [|done].
  destruct (fbase.[i]) as [fb|] eqn:Ef; [|done]. destruct (fextra.[i]) as [fx|] eqn:Efx; [|done].
  intros H. rewrite !andb_true_iff in H. destruct H as [[[[H1 H2] H3] H4] H5].
  exists (Z.to_nat i), b, x, (if x =? 0 then 0 else v - b). rewrite Z2Nat.id by lia.
  split_and!; [done..|]. exists fb.
  apply aget_some in Ef as [_ Ef], Efx as [_ Efx].
  split_and!; [done|rewrite Efx; f_equal; lia|unfold in_width; lia|lia].
Qed.

Lemma length_code_spec lc :
  in_width 8 lc →
  ∃ (i : nat) b x e, _length_code.[lc] = Some (Z.of_nat i) ∧ base_length.[Z.of_nat i] = Some b ∧
    extra_lbits.[Z.of_nat i] = Some x ∧ e = (if x =? 0 then 0 else lc - b) ∧
    extra_of len_base len_extra i (lc + 3) x e.
Proof.
  intros H. apply (table_code_spec lc). pose proof length_tables as Ht.
  rewrite forallb_forall in Ht. apply Ht. apply list_elem_of_In, elem_of_seqZ. unfold in_width in H. lia.
Qed.

Lemma d_code_spec v :
  0 ≤ v < 32768 →
  ∃ (i : nat) b x e, d_code v = Some (Z.of_nat i) ∧ base_dist.[Z.of_nat i] = Some b ∧
    extra_dbits.[Z.of_nat i] = Some x ∧ e = (if x =? 0 then 0 else v - b) ∧
    extra_of dist_base dist_extra i (v + 1) x e.
Proof.
  intros H. apply (table_code_spec v). destruct (decide (v < 256)) as [Hs|Hs].
  - pose proof dist_tables_small as Ht. rewrite forallb_forall in Ht.
    apply Ht, list_elem_of_In, elem_of_seqZ. lia.
  - pose proof dist_tables_large as Ht. rewrite forallb_forall in Ht.
    unfold d_code. destruct (Z.ltb_spec v 256); [lia|]. rewrite Z.shiftr_div_pow2 by lia.
    change (2 ^ 7) with 128. set (k := v / 128).
    assert (128 * k ≤ v ≤ 128 * k + 127) as Hk.
    { unfold k. pose proof (Z.div_mod v 128). pose proof (Z.mod_pos_bound v 128). lia. }
    specialize (Ht k). cbv zeta in Ht. rewrite andb_true_iff in Ht.
    destruct Ht as [H1 H2]; [apply list_elem_of_In, elem_of_seqZ; lia|].
    apply (table_code_between v (128 * k) (128 * k + 127)); (done || lia).
Qed.

(** ** The bits of a token *)

Definition sym_bits (lens : list Z) (i : nat) : list bool :=
  match lens !! i with
  | Some l => msb_bits (Z.to_nat l) (code_of lens i (Z.to_nat l))
  | None => []
  end.

(** The symbol has a code. *)
Definition has_code (lens : list Z) (i : nat) : Prop :=
  ∃ l : nat, lens !! i = Some (Z.of_nat l) ∧ (1 ≤ l ≤ 15)%nat.

Lemma sym_bits_code lens i : has_code lens i → code_bits lens i (sym_bits lens i).
Proof.
  intros (l & Hl & Hr). exists l. unfold sym_bits. rewrite Hl, Nat2Z.id. done.
Qed.

(** A value with its extra bits: symbol code, then the extra bits. *)
Definition value_bits (lens : list Z) (sym : nat) (x e : Z) : list bool :=
  sym_bits lens sym ++ bits_of (Z.to_nat x) e.

Definition tok_bits (L D : list Z) (t : token) : list bool :=
  if t.1 =? 0 then sym_bits L (Z.to_nat t.2)
  else
    let i := nth (Z.to_nat t.2) _length_code 0 in
    let x := anth extra_lbits i in
    let j := default 0 (d_code (t.1 - 1)) in
    let y := anth extra_dbits j in
    value_bits L (Z.to_nat (257 + i)) x (if x =? 0 then 0 else t.2 - anth base_length i) ++
    value_bits D (Z.to_nat j) y (if y =? 0 then 0 else t.1 - 1 - anth base_dist j).

(** The symbols a token needs have codes. *)
Definition tok_coded (L D : list Z) (t : token) : Prop :=
  if t.1 =? 0 then has_code L (Z.to_nat t.2)
  else has_code L (Z.to_nat (257 + nth (Z.to_nat t.2) _length_code 0)) ∧
       has_code D (Z.to_nat (default 0 (d_code (t.1 - 1)))).

(** The tokens and the end-of-block code. *)
Definition toks_bits (L D : list Z) (toks : list token) : list bool :=
  toks ≫= tok_bits L D.

Definition block_bits (L D : list Z) (toks : list token) : list bool :=
  toks_bits L D toks ++ sym_bits L 256.

Section compress.
Context (W : Z) (ltree dtree : list ct_data) (L D : list Z).
Context (HL : tree_codes ltree L) (HD : tree_codes dtree D).
Abbreviation out_wf := (out_wf W).
Abbreviation emits := (emits W).

Lemma send_sym tree lens (c : nat) o :
  tree_codes tree lens → has_code lens c → out_wf o → room o (Z.of_nat (length (sym_bits lens c))) →
  ∃ o', send_code W o (Z.of_nat c) tree = Some o' ∧ emits o (sym_bits lens c) o'.
Proof.
  intros Ht (l & Hl & Hr) Hwf Hroom.
  assert (sym_bits lens c = msb_bits l (code_of lens c l)) as E by (unfold sym_bits; by rewrite Hl, Nat2Z.id).
  rewrite E in *. rewrite length_msb_bits in Hroom. by apply send_code_run.
Qed.

Lemma send_extra_run o v base x e :
  out_wf o → 0 ≤ x ≤ 16 → e = (if x =? 0 then 0 else v - base) → in_width x e → room o x →
  ∃ o', send_extra W o v base x = Some o' ∧ emits o (bits_of (Z.to_nat x) e) o'.
Proof.
  intros Hwf Hx He Hw Hr. unfold send_extra. destruct (Z.eqb_spec x 0) as [->|]; subst e.
  - exists o. split; [done|]. by apply emits_refl.
  - by apply send_bits_run.
Qed.

(** The table entries used for a match. *)
Record match_parts (dist lc : Z) (i j : nat) (b x e b2 y e2 : Z) : Prop := MatchParts {
  mp_code : _length_code.[lc] = Some (Z.of_nat i);
  mp_base : base_length.[Z.of_nat i] = Some b;
  mp_extra : extra_lbits.[Z.of_nat i] = Some x;
  mp_value : e = if x =? 0 then 0 else lc - b;
  mp_len : extra_of len_base len_extra i (lc + 3) x e;
  mp_dcode : d_code (dist - 1) = Some (Z.of_nat j);
  mp_dbase : base_dist.[Z.of_nat j] = Some b2;
  mp_dextra : extra_dbits.[Z.of_nat j] = Some y;
  mp_dvalue : e2 = if y =? 0 then 0 else dist - 1 - b2;
  mp_dist : extra_of dist_base dist_extra j dist y e2;
  mp_bits : tok_bits L D (dist, lc) = value_bits L (257 + i) x e ++ value_bits D j y e2;
  mp_lcode : has_code L (257 + i);
  mp_dcoded : has_code D j }.

Lemma match_parts_exist dist lc :
  1 ≤ dist ≤ 32768 → in_width 8 lc → tok_coded L D (dist, lc) →
  ∃ i j b x e b2 y e2, match_parts dist lc i j b x e b2 y e2.
Proof.
  intros Hdist Hlc Hc.
  destruct (length_code_spec lc Hlc) as (i & b & x & e & Ei & Eb & Ex & Ee & Hx).
  destruct (d_code_spec (dist - 1) ltac:(lia)) as (j & b2 & y & e2 & Ej & Eb2 & Ey & Ee2 & Hy).
  replace (dist - 1 + 1) with dist in Hy by lia.
  exists i, j, b, x, e, b2, y, e2.
  assert (tok_bits L D (dist, lc) = value_bits L (257 + i) x e ++ value_bits D j y e2 ∧
          has_code L (257 + i) ∧ has_code D j) as (Ebits & HLc & HDc); [|by split].
  unfold tok_coded in Hc. unfold tok_bits. cbn [fst snd] in *.
  destruct (Z.eqb_spec dist 0); [lia|]. cbv zeta.
  apply aget_some in Ei as [Hlc0 Ei].
  assert (nth (Z.to_nat lc) _length_code 0 = Z.of_nat i) as En by by rewrite nth_lookup, Ei.
  rewrite En, Ej in *. change (default 0 (Some (Z.of_nat j))) with (Z.of_nat j) in *.
  unfold anth. rewrite Eb, Ex, Eb2, Ey. cbn [from_option id]. unfold id. rewrite <-Ee, <-Ee2.
  replace (Z.to_nat (257 + Z.of_nat i)) with (257 + i)%nat in * by lia.
  rewrite Nat2Z.id in *. tauto.
Qed.

Lemma tok_enc t : tok_ok t → tok_coded L D t → enc_item L D (tok_item t) (tok_bits L D t).
Proof.
  destruct t as [dist lc]. intros [Hd Hl] Hc. cbn [fst snd] in *.
  destruct (decide (dist = 0)) as [->|].
  - unfold tok_item, tok_bits, tok_coded, in_width in *. cbn [fst snd Z.eqb] in *.
    rewrite <-(Z2Nat.id lc) at 1 by lia. apply enc_lit; [lia|]. by apply sym_bits_code.
  - destruct (match_parts_exist dist lc ltac:(lia) Hl Hc) as (i & j & b & x & e & b2 & y & e2 & []).
    rewrite mp_bits0. unfold tok_item, value_bits. cbn [fst snd].
    destruct (Z.eqb_spec dist 0); [lia|]. rewrite <-app_assoc.
    apply enc_copy with i j; [by apply sym_bits_code|done|by apply sym_bits_code|done].
Qed.

Lemma send_match_run o dist lc :
  out_wf o → 1 ≤ dist ≤ 32768 → in_width 8 lc → tok_coded L D (dist, lc) →
  room o (Z.of_nat (length (tok_bits L D (dist, lc)))) →
  ∃ o', send_match W o dist lc ltree dtree = Some o' ∧ emits o (tok_bits L D (dist, lc)) o'.
Proof.
  intros Hwf Hdist Hlc Hc Hroom.
  destruct (match_parts_exist dist lc Hdist Hlc Hc) as
    (i & j & b & x & e & b2 & y & e2 & [Ei Eb Ex Ee Hx Ej Eb2 Ey Ee2 Hy Ebits HLc HDc]).
  pose proof (extra_of_len _ _ _ _ Hx) as (_ & _ & Hxr).
  pose proof (extra_of_dist _ _ _ _ Hy) as (_ & _ & Hyr).
  assert (in_width x e) as Hwe by (destruct Hx as (? & _ & _ & ? & _); done).
  assert (in_width y e2) as Hwe2 by (destruct Hy as (? & _ & _ & ? & _); done).
  rewrite Ebits in *. unfold value_bits in *. rewrite !length_app, !length_bits_of in Hroom.
  unfold send_match. rewrite Ei. simpl_bind.
  replace (Z.of_nat i + LITERALS + 1) with (Z.of_nat (257 + i)) by (unfold LITERALS; lia).
  destruct (send_sym ltree L (257 + i) o HL HLc Hwf) as (o1 & -> & E1); [eapply room_mono; [|done]; lia|].
  simpl_bind. rewrite Ex, Eb. simpl_bind.
  assert (room o1 (x + (Z.of_nat (length (sym_bits D j)) + y))) as R1
    by (eapply room_emits; [exact E1|]; eapply room_mono; [|done]; lia).
  destruct (send_extra_run o1 lc b x e (em_wf _ _ _ _ E1) ltac:(lia) Ee Hwe) as (o2 & -> & E2);
    [eapply room_mono; [|done]; lia|].
  simpl_bind. rewrite (wrap_small 32) by (unfold in_width; lia). rewrite Ej. simpl_bind.
  assert (room o2 (Z.of_nat (length (sym_bits D j)) + y)) as R2
    by (eapply room_emits; [exact E2|]; rewrite length_bits_of; eapply room_mono; [|done]; lia).
  destruct (send_sym dtree D j o2 HD HDc (em_wf _ _ _ _ E2)) as (o3 & -> & E3); [eapply room_mono; [|done]; lia|].
  simpl_bind. rewrite Ey, Eb2. simpl_bind.
  assert (room o3 y) as R3 by (eapply room_emits; [exact E3|]; eapply room_mono; [|done]; lia).
  destruct (send_extra_run o3 (dist - 1) b2 y e2 (em_wf _ _ _ _ E3) ltac:(lia) Ee2 Hwe2 R3) as (o4 & -> & E4).
  exists o4. split; [done|]. rewrite <-app_assoc. repeat (eapply emits_trans; [done|]). done.
Qed.

(** ** The overlay *)

(** The tokens are in the overlay. *)
Definition tallied (buf : list Z) (lit : Z) (toks : list token) : Prop :=
  ∀ (i : nat) t, toks !! i = Some t →
  d_buf_get buf lit (Z.of_nat i) = Some t.1 ∧ l_buf_get buf lit (Z.of_nat i) = Some t.2.

(** The output does not overtake the distances still to be read: after [k]
    tokens it has not gone past byte [lit + 2 * k] of the overlay. *)
Definition overlay_ok (o : outbuf) (lit : Z) (toks : list token) : Prop :=
  ∀ k : nat, (k < length toks)%nat →
  Z.of_nat (length (out_bits o)) + Z.of_nat (length (toks_bits L D (take k toks)))
  ≤ 8 * (lit + 2 * Z.of_nat k).

Lemma aget_drop (a b : list Z) (p : nat) k :
  drop p a = drop p b → Z.of_nat p ≤ k → aget a k = aget b k.
Proof.
  intros E Hk. unfold aget. destruct (Z.leb_spec 0 k); [|done].
  replace (Z.to_nat k) with (p + (Z.to_nat k - p))%nat by lia.
  by rewrite <-!lookup_drop, E.
Qed.

Lemma tallied_emits o bs o' lit toks (i : nat) t :
  emits o bs o' → tallied (pending_buf o) lit toks → toks !! i = Some t →
  pending o' ≤ lit + 2 * Z.of_nat i → Z.of_nat i ≤ 2 * lit →
  d_buf_get (pending_buf o') lit (Z.of_nat i) = Some t.1 ∧
  l_buf_get (pending_buf o') lit (Z.of_nat i) = Some t.2.
Proof.
  intros [Hwf _ _ _ Hrest] Ht Hi Hp Hl. destruct (Ht i t Hi) as [H1 H2].
  destruct Hwf as [Hp0 _ _ _ _]. unfold d_buf_get, l_buf_get in *.
  rewrite !(aget_drop (pending_buf o') (pending_buf o) (Z.to_nat (pending o'))) by (done || lia).
  done.
Qed.

Lemma toks_bits_take_S toks i t :
  toks !! i = Some t → toks_bits L D (take (S i) toks) = toks_bits L D (take i toks) ++ tok_bits L D t.
Proof.
  intros Hi. unfold toks_bits. rewrite (take_S_r _ _ _ Hi), bind_app. f_equal.
  cbn. apply app_nil_r.
Qed.

Lemma toks_bits_app a b : toks_bits L D (a ++ b) = toks_bits L D a ++ toks_bits L D b.
Proof. apply bind_app. Qed.

Lemma compress_step_run o lit (i : nat) t :
  out_wf o → tok_ok t → tok_coded L D t → room o (Z.of_nat (length (tok_bits L D t))) →
  d_buf_get (pending_buf o) lit (Z.of_nat i) = Some t.1 →
  l_buf_get (pending_buf o) lit (Z.of_nat i) = Some t.2 →
  ∃ o', compress_step W lit ltree dtree (Z.of_nat i) o = Some o' ∧ emits o (tok_bits L D t) o'.
Proof.
  intros Hwf [Hd Hl] Hc Hr E1 E2. unfold compress_step. rewrite E1, E2. simpl_bind.
  destruct t as [dist lc]. cbn [fst snd] in *. destruct (Z.eqb_spec dist 0) as [->|].
  - unfold tok_coded, tok_bits, in_width in *. cbn [fst snd Z.eqb] in *.
    destruct (send_sym ltree L (Z.to_nat lc) o HL Hc Hwf Hr) as (o' & E & Em).
    rewrite Z2Nat.id in E by lia. by exists o'.
  - apply send_match_run; (done || lia).
Qed.

Lemma compress_loop o lit toks :
  out_wf o → tallied (pending_buf o) lit toks → Forall tok_ok toks → Forall (tok_coded L D) toks →
  Z.of_nat (length toks) ≤ lit → overlay_ok o lit toks →
  room o (Z.of_nat (length (toks_bits L D toks))) →
  succeeds (for_up (length toks) 0 (compress_step W lit ltree dtree) o)
    (emits o (toks_bits L D toks)).
Proof.
  intros Hwf Htal Hok Hco Hlen Hov Hroom.
  eapply succeeds_mono.
  - apply (for_up_total (λ j o', emits o (toks_bits L D (take (Z.to_nat j) toks)) o')).
    + intros j o1 Hj Em. set (i := Z.to_nat j).
      destruct (lookup_lt_is_Some_2 toks i) as [t Ht]; [lia|].
      pose proof (Forall_lookup_1 _ _ _ _ Hok Ht). pose proof (Forall_lookup_1 _ _ _ _ Hco Ht).
      pose proof (length_out_bits W o1 (em_wf _ _ _ _ Em)) as L1.
      rewrite (em_bits _ _ _ _ Em), length_app in L1. specialize (Hov i ltac:(lia)).
      pose proof (em_wf _ _ _ _ Em) as [_ _ _ ? _].
      destruct (tallied_emits o _ o1 lit toks i t Em Htal Ht) as [E1 E2]; [unfold i in *; lia..|].
      destruct (compress_step_run o1 lit i t) as (o2 & E & Em2); try done; [apply Em| |].
      { eapply room_emits; [exact Em|]. eapply room_mono; [|done]. fold i.
        assert (toks_bits L D toks = toks_bits L D (take (S i) toks) ++ toks_bits L D (drop (S i) toks))
          as -> by (rewrite <-toks_bits_app; by rewrite take_drop).
        rewrite (toks_bits_take_S _ _ t Ht), !length_app. lia. }
      unfold i in E at 1. rewrite Z2Nat.id in E by lia. rewrite E. cbn [succeeds].
      replace (Z.to_nat (j + 1)) with (S i) by lia. rewrite (toks_bits_take_S _ _ t Ht).
      by eapply emits_trans.
    + by apply emits_refl.
  - intros o1 Em. cbn beta in Em. rewrite Z.add_0_l, Nat2Z.id, firstn_all in Em. exact Em.
Qed.

Lemma toks_enc toks :
  Forall tok_ok toks → Forall (tok_coded L D) toks → has_code L 256 →
  enc_items L D (tok_item <$> toks) (block_bits L D toks).
Proof.
  intros Hok Hco Hend. unfold block_bits.
  induction toks as [|t toks IH].
  - apply enc_end. by apply sym_bits_code.
  - inversion Hok. inversion Hco. subst.
    change (toks_bits L D (t :: toks)) with (tok_bits L D t ++ toks_bits L D toks).
    rewrite <-app_assoc. cbn [fmap list_fmap]. constructor; [by apply tok_enc|by apply IH].
Qed.

(** The data of a block, sent with the trees. *)
Lemma compress_block_run o lit toks :
  out_wf o → tallied (pending_buf o) lit toks → Forall tok_ok toks → Forall (tok_coded L D) toks →
  has_code L 256 → Z.of_nat (length toks) ≤ lit → overlay_ok o lit toks →
  room o (Z.of_nat (length (block_bits L D toks))) →
  ∃ o', compress_block W o lit (Z.of_nat (length toks)) ltree dtree = Some o' ∧
        emits o (block_bits L D toks) o'.
Proof.
  intros Hwf Htal Hok Hco Hend Hlen Hov Hroom. unfold compress_block. rewrite Nat2Z.id.
  unfold block_bits in *. rewrite length_app in Hroom.
  destruct (succeeds_elim _ _ (compress_loop o lit toks Hwf Htal Hok Hco Hlen Hov
    ltac:(eapply room_mono; [|done]; lia))) as (o1 & -> & E1).
  simpl_bind.
  destruct (send_sym ltree L 256 o1 HL Hend (em_wf _ _ _ _ E1)) as (o2 & E & E2).
  { eapply room_emits; [exact E1|]. eapply room_mono; [|done]. lia. }
  exists o2. split; [exact E|]. by eapply emits_trans.
Qed.
End compress.

(** ** The static trees *)

Lemma tree_codes_compute tree lens :
  forallb (λ i, match lens !! i, tree !! i with
                | Some l, Some x =>
                    (l =? 0) || ((0 <=? l) && (dl x =? l) && (0 <=? fc x) && (fc x <? 2 ^ l) &&
                      bool_decide (bits_of (Z.to_nat l) (fc x)
                                   = msb_bits (Z.to_nat l) (code_of lens i (Z.to_nat l))))
                | _, _ => false
                end) (seq 0 (length lens)) = true →
  tree_codes tree lens.
Proof.
  intros H i l Hi Hl. rewrite forallb_forall in H. specialize (H i).
  rewrite Hi in H. pose proof (lookup_lt_Some _ _ _ Hi).
  specialize (H ltac:(apply in_seq; lia)). destruct (tree !! i) as [[c d]|]; [|done].
  cbn [fc dl] in H. apply orb_true_iff in H as [H|H]; [lia|].
  rewrite !andb_true_iff, bool_decide_eq_true, Nat2Z.id in H.
  destruct H as [[[[H1 H2] H3] H4] H5].
  exists c. split_and!; [|unfold in_width; lia..|done]. do 2 f_equal. lia.
Qed.

Lemma static_ltree_codes : tree_codes static_ltree fixed_L.
Proof. apply tree_codes_compute. by vm_compute. Qed.

Lemma static_dtree_codes : tree_codes static_dtree fixed_D.
Proof. apply tree_codes_compute. by vm_compute. Qed.
