(* ===== verification/TreeHeap.v ===== *)
(** The heap of [trees.c] as a multiset: [pqdownheap] and [pqremove] only
    rearrange it. *)

From Stdlib Require Import ZArith Lia.
From stdpp Require Import base option numbers list sets.
From S2P Require Import Prelude Trees TreeFlush.

Open Scope Z_scope.

(** ** Moving entries of a list *)

Lemma insert_perm (l : list Z) i y : (i < length l)%nat → <[i:=y]> l ≡ₚ y :: delete i l.
Proof.
  revert i. induction l as [|x l IH]; intros [|i] Hi; simpl in *; try lia; [done|].
  rewrite (IH i) by lia. constructor.
Qed.

(** Filling the hole at [k] from [j] moves the hole to [j]. *)
Lemma hole_perm (l : list Z) k j v hj :
  l !! j = Some hj → (k < length l)%nat → k ≠ j →
  <[j:=v]> (<[k:=hj]> l) ≡ₚ <[k:=v]> l.
Proof.
  intros Hj Hk Hne. pose proof (lookup_lt_Some _ _ _ Hj) as Hjl.
  rewrite (insert_perm (<[k:=hj]> l) j v) by (rewrite length_insert; done).
  rewrite (insert_perm l k v) by done. apply Permutation_skip.
  apply (Permutation_cons_inv (a := hj)).
  rewrite <-(insert_perm l k hj) by done. symmetry.
  apply delete_Permutation. rewrite list_lookup_insert_ne by done. done.
Qed.

(** The entries [1 .. len] of the heap array. *)
Definition heap_part (len : nat) (h : list Z) : list Z := take len (drop 1 h).

Lemma heap_split (len : nat) (h : list Z) x :
  h !! 0%nat = Some x → h = x :: heap_part len h ++ drop (S len) h.
Proof.
  intros Hx. destruct h as [|y h]; [done|]. cbn in Hx. injection Hx as ->.
  unfold heap_part. change (drop 1 (x :: h)) with (drop 0 h). rewrite drop_0.
  change (drop (S len) (x :: h)) with (drop len h). by rewrite take_drop.
Qed.

Lemma heap_part_perm (len : nat) (h h' : list Z) :
  h ≡ₚ h' → h' !! 0%nat = h !! 0%nat → drop (S len) h' = drop (S len) h →
  heap_part len h' ≡ₚ heap_part len h.
Proof.
  intros Hp H0 Hd. destruct (h !! 0%nat) as [x|] eqn:Hx.
  - rewrite (heap_split len h x Hx), (heap_split len h' x H0), Hd in Hp.
    apply Permutation_cons_inv, Permutation_app_inv_r in Hp. done.
  - destruct h; [|done]. destruct h'; [done|]. done.
Qed.

Lemma heap_part_lookup (len i : nat) (h : list Z) :
  (1 ≤ i ≤ len)%nat → heap_part len h !! (i - 1)%nat = h !! i.
Proof.
  intros Hi. unfold heap_part. rewrite lookup_take_lt, lookup_drop by lia. f_equal. lia.
Qed.

Lemma length_heap_part (len : nat) (h : list Z) : (len < length h)%nat → length (heap_part len h) = len.
Proof. intros. unfold heap_part. rewrite length_take, length_drop. lia. Qed.

(** Entries of the heap are nodes of the tree. *)
Definition heap_nodes (h : list Z) (len : Z) (tree : list ct_data) (depth : list Z) : Prop :=
  ∀ i x, 1 ≤ i ≤ len → aget h i = Some x →
  0 ≤ x < Z.of_nat (length tree) ∧ x < Z.of_nat (length depth).

Lemma smaller_run tree depth n m :
  0 ≤ n < Z.of_nat (length tree) → n < Z.of_nat (length depth) →
  0 ≤ m < Z.of_nat (length tree) → m < Z.of_nat (length depth) →
  ∃ b, smaller tree n m depth = Some b.
Proof.
  intros Hn Hn' Hm Hm'. unfold smaller.
  destruct (aget_in tree n Hn) as [x ->], (aget_in tree m Hm) as [y ->]. simpl_bind.
  destruct (Freq x <? Freq y); [by eexists|]. destruct (Freq x =? Freq y); [|by eexists].
  destruct (aget_in depth n ltac:(lia)) as [dn ->], (aget_in depth m ltac:(lia)) as [dm ->].
  by eexists.
Qed.

Lemma aget_Some_in {A} (l : list A) i : 0 ≤ i < Z.of_nat (length l) → is_Some (aget l i).
Proof. intros H. destruct (aget_in l i H) as [x ->]. by eexists. Qed.

(** The loop of [pqdownheap] with the hole at [k]. *)
Lemma pq_loop_run tree depth len v fuel : ∀ h k j,
  heap_nodes h len tree depth → 0 ≤ v < Z.of_nat (length tree) → v < Z.of_nat (length depth) →
  len < Z.of_nat (length h) → 1 ≤ k ≤ len → j = 2 * k → len < j + Z.of_nat fuel →
  ∃ h' k', pq_loop fuel tree depth len v h k j = Some (h', k') ∧ 1 ≤ k' ≤ len ∧
    length h' = length h ∧ <[Z.to_nat k' := v]> h' ≡ₚ <[Z.to_nat k := v]> h ∧
    h' !! 0%nat = h !! 0%nat ∧ drop (S (Z.to_nat len)) h' = drop (S (Z.to_nat len)) h.
Proof.
  induction fuel as [|fuel IH]; intros h k j Hn Hv Hvd Hlen Hk Hj Hf; cbn [pq_loop];
    destruct (Z.leb_spec j len) as [Hle|Hgt]; try lia; try (by exists h, k).
  assert (∃ j', (if j <? len then a ← h.[j + 1]; b ← h.[j]; sm ← smaller tree a b depth;
      Some (if sm : bool then j + 1 else j) else Some j) = Some j' ∧ j ≤ j' ≤ len) as (j' & Ej & Hj').
  { destruct (Z.ltb_spec j len); [|exists j; split; [done|lia]].
    destruct (aget_in h (j + 1) ltac:(lia)) as [a Ha], (aget_in h j ltac:(lia)) as [b Hb].
    rewrite Ha, Hb. simpl_bind.
    destruct (Hn (j + 1) a ltac:(lia) Ha), (Hn j b ltac:(lia) Hb).
    destruct (smaller_run tree depth a b) as [sm ->]; [lia..|]. simpl_bind.
    exists (if sm then j + 1 else j). split; [done|]. destruct sm; lia. }
  rewrite Ej. simpl_bind.
  destruct (aget_in h j' ltac:(lia)) as [hj Hhj]. rewrite Hhj. simpl_bind.
  destruct (Hn j' hj ltac:(lia) Hhj) as [Hhn Hhd].
  destruct (smaller_run tree depth v hj) as [sm ->]; [lia..|]. simpl_bind.
  destruct sm; [by exists h, k|].
  rewrite aset_in by lia. simpl_bind.
  assert (Z.shiftl j' 1 = 2 * j') as -> by (rewrite Z.shiftl_mul_pow2; lia).
  destruct (IH (<[Z.to_nat k := hj]> h) j' (2 * j')) as (h' & k' & E & Hk' & Hl & Hp & H0 & Hd);
    [|done|done|by rewrite length_insert|lia|done|lia|].
  { intros i x Hi. rewrite aget_insert by lia. case_decide; [|by apply Hn].
    intros [= <-]. done. }
  exists h', k'. split_and!; [done|lia|lia|by rewrite Hl, length_insert| | |].
  - rewrite Hp. apply aget_some in Hhj as [_ Hhj]. apply hole_perm; [done|lia|lia].
  - rewrite H0. rewrite list_lookup_insert_ne by lia. done.
  - rewrite Hd. rewrite drop_insert_lt by lia. done.
Qed.

(** What rearranging the heap keeps. *)
Record same_heap (s s' : heapst) : Prop := SameHeap {
  sh_len : heap_len s' = heap_len s;
  sh_max : heap_max s' = heap_max s;
  sh_depth : depth s' = depth s;
  sh_count : bl_count s' = bl_count s;
  sh_size : length (heap s') = length (heap s);
  sh_perm : heap_part (Z.to_nat (heap_len s)) (heap s') ≡ₚ heap_part (Z.to_nat (heap_len s)) (heap s);
  sh_rest : drop (S (Z.to_nat (heap_len s))) (heap s') = drop (S (Z.to_nat (heap_len s))) (heap s) }.

Lemma same_heap_trans s1 s2 s3 : same_heap s1 s2 → same_heap s2 s3 → same_heap s1 s3.
Proof.
  intros [] []. split; try congruence. etrans; [|exact sh_perm0]. rewrite <-sh_len0. done.
Qed.

Lemma pqdownheap_run s tree k :
  heap_nodes (heap s) (heap_len s) tree (depth s) → heap_len s < Z.of_nat (length (heap s)) →
  1 ≤ k ≤ heap_len s → ∃ s', pqdownheap s tree k = Some s' ∧ same_heap s s'.
Proof.
  intros Hn Hlen Hk. unfold pqdownheap.
  destruct (aget_in (heap s) k ltac:(lia)) as [v Hv]. rewrite Hv. simpl_bind.
  destruct (Hn k v Hk Hv) as [Hvt Hvd].
  assert (Z.shiftl k 1 = 2 * k) as -> by (rewrite Z.shiftl_mul_pow2; lia).
  destruct (pq_loop_run tree (depth s) (heap_len s) v (Z.to_nat (heap_len s)) (heap s) k (2 * k))
    as (h' & k' & -> & Hk' & Hl & Hp & H0 & Hd); [done|done|done|done|done|done|lia|].
  simpl_bind. rewrite aset_in by lia. simpl_bind.
  eexists. split; [done|]. split; try done; cbn [heap].
  - by rewrite length_insert.
  - apply heap_part_perm.
    + rewrite Hp. apply aget_some in Hv as [_ Hv]. by rewrite list_insert_id.
    + rewrite list_lookup_insert_ne by lia. done.
    + by rewrite drop_insert_lt by lia.
  - by rewrite drop_insert_lt by lia.
Qed.

(** [build_tree] up to the bit lengths: the leaves collected in the heap, and
    the merging of the two least frequent nodes.  The frequencies only decide
    which nodes are merged; what the later phases need is recorded by
    [merges]. *)

(** The [dl] field (father or length) of a node. *)
Definition dlz (tree : list ct_data) (x : Z) : Z := default 0 (dl <$> aget tree x).

Lemma dlz_some tree x c : aget tree x = Some c → dlz tree x = dl c.
Proof. intros H. unfold dlz. by rewrite H. Qed.

Lemma dlz_insert tree x y c :
  0 ≤ x < Z.of_nat (length tree) →
  dlz (<[Z.to_nat x := c]> tree) y = if decide (x = y) then dl c else dlz tree y.
Proof. intros Hx. unfold dlz. rewrite aget_insert by done. by case_decide. Qed.

(** [merges E lv t H log]: starting from the leaves [lv], [t] merges have left
    the nodes [H] in the heap; [log] are the nodes taken out, latest first; the
    nodes made are [E], [E + 1], ... *)
Inductive merges (E : Z) (lv : list Z) : nat → list Z → list Z → Prop :=
  | merges_leaves H : H ≡ₚ lv → merges E lv 0 H []
  | merges_pair t H R n m log H' :
      merges E lv t H log → H ≡ₚ n :: m :: R → H' ≡ₚ (E + Z.of_nat t) :: R →
      merges E lv (S t) H' (m :: n :: log).

(** The fathers of the nodes taken out. *)
Fixpoint dads (tree : list ct_data) (E : Z) (t : nat) (log : list Z) : Prop :=
  match t, log with
  | O, [] => True
  | S t', m :: n :: log' =>
      dlz tree m = E + Z.of_nat t' ∧ dlz tree n = E + Z.of_nat t' ∧ dads tree E t' log'
  | _, _ => False
  end.

Lemma merges_perm_heap E lv t H H' log : merges E lv t H log → H ≡ₚ H' → merges E lv t H' log.
Proof.
  intros Hm Hp. destruct Hm as [H0 E0|t H0 R n m log H1 Hm E0 E1].
  - constructor. by rewrite <-Hp.
  - econstructor; [done|done|]. by rewrite <-Hp.
Qed.

Lemma merges_all E lv t H log :
  merges E lv t H log → H ++ log ≡ₚ lv ++ seqZ E (Z.of_nat t).
Proof.
  induction 1 as [H Hp|t H R n m log H' Hm IH Hp Hp'].
  - rewrite app_nil_r, Hp. change (seqZ E (Z.of_nat 0)) with (@nil Z). by rewrite app_nil_r.
  - rewrite Hp'. replace (Z.of_nat (S t)) with (Z.of_nat t + 1) by lia.
    rewrite seqZ_app, app_assoc, <-IH, Hp by lia. change (seqZ (E + Z.of_nat t) 1) with [E + Z.of_nat t].
    cbn [app]. solve_Permutation.
Qed.

Lemma merges_length E lv t H log :
  merges E lv t H log → (length H + t = length lv)%nat ∧ length log = (2 * t)%nat.
Proof.
  induction 1 as [H Hp|t H R n m log H' Hm [IH1 IH2] Hp Hp'].
  - rewrite Hp. simpl. lia.
  - rewrite Hp in IH1. rewrite Hp'. cbn [length] in *. lia.
Qed.

Lemma dads_frame tree tree' E t : ∀ log,
  dads tree E t log → (∀ x, x ∈ log → dlz tree' x = dlz tree x) → dads tree' E t log.
Proof.
  induction t as [|t IH]; intros [|m [|n log]] Hd Hf; cbn [dads] in *; try done.
  destruct Hd as (H1 & H2 & H3). rewrite !Hf by set_solver.
  split_and!; [done..|]. apply IH; [done|]. intros x Hx. apply Hf. set_solver.
Qed.

(** ** Merging *)

(** The arrays are large enough for a tree over [E] symbols. *)
Record sizes (E : Z) (s : heapst) (tree : list ct_data) : Prop := Sizes {
  sz_E : 3 ≤ E ≤ 286;
  sz_tree : Z.of_nat (length tree) = 2 * E + 1;
  sz_heap : length (heap s) = 573%nat;
  sz_depth : length (depth s) = 573%nat;
  sz_count : length (bl_count s) = 16%nat }.

(** The state after [t] merges.  [zero] are the symbols without a code. *)
Record merged (E : Z) (lv : list Z) (t : nat) (H log : list Z) (s : heapst) (tree : list ct_data)
  : Prop := Merged {
  mg_sizes : sizes E s tree;
  mg_leaves : NoDup lv ∧ Forall (λ x, 0 ≤ x < E) lv;
  mg_len : heap_len s = Z.of_nat (length H);
  mg_heap : heap_part (length H) (heap s) ≡ₚ H;
  mg_max : heap_max s = 573 - 2 * Z.of_nat t;
  mg_log : drop (573 - 2 * t) (heap s) = log;
  mg_merges : merges E lv t H log;
  mg_dads : dads tree E t log;
  mg_zero : ∀ x, 0 ≤ x < E → x ∉ lv → dlz tree x = 0 }.

Lemma leaves_bound E lv : NoDup lv → Forall (λ x, 0 ≤ x < E) lv → Z.of_nat (length lv) ≤ Z.max 0 E.
Proof.
  intros Hnd Hf. assert (lv ⊆+ seqZ 0 E) as Hs.
  { apply NoDup_submseteq; [done|]. intros x Hx. apply elem_of_seqZ.
    eapply Forall_forall in Hf; [|done]. lia. }
  apply submseteq_length in Hs. rewrite length_seqZ in Hs. lia.
Qed.

(** All the nodes so far are distinct and in range. *)
Lemma merges_nodes E lv t H log :
  NoDup lv → Forall (λ x, 0 ≤ x < E) lv → 0 ≤ E → merges E lv t H log →
  NoDup (H ++ log) ∧ (∀ x, x ∈ H ++ log → 0 ≤ x < E + Z.of_nat t) ∧
  (∀ x, x ∈ H ++ log → x < E → x ∈ lv).
Proof.
  intros Hnd Hf HE Hm. pose proof (merges_all _ _ _ _ _ Hm) as Hp. rewrite Forall_forall in Hf.
  split_and!.
  - rewrite Hp. apply NoDup_app. split_and!; [done| |apply NoDup_seqZ].
    intros x Hx Hs. apply Hf in Hx. apply elem_of_seqZ in Hs. lia.
  - intros x Hx. rewrite Hp in Hx. apply elem_of_app in Hx as [Hx|Hx].
    + apply Hf in Hx. lia.
    + apply elem_of_seqZ in Hx. lia.
  - intros x Hx Hlt. rewrite Hp in Hx. apply elem_of_app in Hx as [Hx|Hx]; [done|].
    apply elem_of_seqZ in Hx. lia.
Qed.

Lemma merged_nodes E lv t H log s tree :
  merged E lv t H log s tree →
  NoDup (H ++ log) ∧ (∀ x, x ∈ H ++ log → 0 ≤ x < E + Z.of_nat t) ∧
  (length H + t = length lv)%nat ∧ Z.of_nat (length lv) ≤ E.
Proof.
  intros [[HE _ _ _ _] [Hnd Hf] _ _ _ _ Hm _ _].
  pose proof (merges_length _ _ _ _ _ Hm) as [Hl _]. pose proof (leaves_bound E lv Hnd Hf).
  destruct (merges_nodes E lv t H log Hnd Hf ltac:(lia) Hm) as (H1 & H2 & _).
  split_and!; [done|done|done|lia].
Qed.

Lemma heap_nodes_of (P : Z → Prop) s tree (H : list Z) :
  heap_part (length H) (heap s) ≡ₚ H → heap_len s = Z.of_nat (length H) →
  (∀ x, x ∈ H → 0 ≤ x < Z.of_nat (length tree) ∧ x < Z.of_nat (length (depth s))) →
  heap_nodes (heap s) (heap_len s) tree (depth s).
Proof.
  intros Hp Hl Hb i x Hi [_ Hx]%aget_some. apply Hb. rewrite <-Hp.
  apply (list_elem_of_lookup_2 _ (Z.to_nat i - 1)). rewrite heap_part_lookup by lia. done.
Qed.

(** The last entry takes the place of the first. *)
Lemma heap_part_replace (len : nat) (h : list Z) top x :
  (2 ≤ len < length h)%nat → h !! 1%nat = Some top → h !! len = Some x →
  top :: heap_part (len - 1) (<[1%nat := x]> h) ≡ₚ heap_part len h ∧
  heap_part (len - 1) (<[1%nat := x]> h) !! 0%nat = Some x.
Proof.
  intros Hl Ht Hx. destruct h as [|h0 [|h1 h]]; [done..|]. cbn in Ht. injection Ht as ->.
  destruct len as [|[|len]]; [lia..|]. rewrite Nat.sub_succ, Nat.sub_0_r. cbn in Hx.
  unfold heap_part.
  change (drop 1 (<[1%nat:=x]> (h0 :: top :: h))) with (x :: h).
  change (drop 1 (h0 :: top :: h)) with (top :: h). cbn [take]. split; [|done].
  rewrite (take_S_r h len x) by done. solve_Permutation.
Qed.

Lemma heap_part_insert (len i : nat) (h : list Z) v :
  (len < i)%nat → heap_part len (<[i:=v]> h) = heap_part len h.
Proof.
  intros Hi. unfold heap_part. destruct i as [|i]; [lia|]. destruct h as [|x h]; [done|].
  change (drop 1 (<[S i:=v]> (x :: h))) with (drop 0 (<[i:=v]> h)).
  change (drop 1 (x :: h)) with (drop 0 h). rewrite !drop_0. apply take_insert_ge. lia.
Qed.

Lemma drop_push (p : nat) (h : list Z) n m :
  (2 ≤ p ≤ length h)%nat →
  drop (p - 2) (<[(p - 2)%nat := m]> (<[(p - 1)%nat := n]> h)) = m :: n :: drop p h.
Proof.
  intros Hp.
  rewrite (drop_S _ m) by (apply list_lookup_insert_eq; rewrite length_insert; lia).
  rewrite drop_insert_lt by lia. replace (S (p - 2)) with (p - 1)%nat by lia.
  rewrite (drop_S _ n) by (apply list_lookup_insert_eq; lia).
  rewrite drop_insert_lt by lia. replace (S (p - 1)) with p by lia. done.
Qed.

Lemma heap_part_first (len : nat) (h : list Z) v :
  (1 ≤ len)%nat → (1 < length h)%nat →
  ∃ a R, h !! 1%nat = Some a ∧ heap_part len h = a :: R ∧ heap_part len (<[1%nat:=v]> h) = v :: R.
Proof.
  intros Hl Hh. destruct h as [|h0 [|h1 h]]; [simpl in Hh; lia..|]. destruct len as [|len]; [lia|].
  exists h1, (take len h). done.
Qed.

Lemma drop_eq_ge (a b : list Z) p q : (p ≤ q)%nat → drop p a = drop p b → drop q a = drop q b.
Proof.
  intros Hq E. replace q with (p + (q - p))%nat by lia. by rewrite <-!drop_drop, E.
Qed.

Lemma pqremove_run E lv t H log s tree :
  merged E lv t H log s tree → (2 ≤ length H)%nat →
  ∃ s' n m R, pqremove s tree = Some (s', n) ∧ H ≡ₚ n :: m :: R ∧
    heap s' !! 1%nat = Some m ∧ heap_part (length H - 1) (heap s') = m :: R ∧
    length (heap s') = 573%nat ∧ heap_len s' = Z.of_nat (length H) - 1 ∧
    heap_max s' = heap_max s ∧ depth s' = depth s ∧ bl_count s' = bl_count s ∧
    drop (573 - 2 * t) (heap s') = log.
Proof.
  intros Hmg Hlen. destruct (merged_nodes _ _ _ _ _ _ _ Hmg) as (Hnd & Hrange & Hsum & HlE).
  destruct Hmg as [[HE Htree Hheap Hdepth Hcount] _ Hl Hp Hmax Hlog Hm _ _].
  unfold pqremove, SMALLEST. rewrite Hl.
  destruct (lookup_lt_is_Some_2 (heap s) 1) as [top Htop]; [lia|].
  destruct (lookup_lt_is_Some_2 (heap s) (length H)) as [x Hx]; [lia|].
  assert (aget (heap s) 1 = Some top) as -> by done. rewrite aget_lookup, Hx. simpl_bind.
  rewrite aset_in by lia. simpl_bind. change (Z.to_nat 1) with 1%nat.
  destruct (heap_part_replace (length H) (heap s) top x ltac:(lia) Htop Hx) as [Hrep _].
  set (h1 := <[1%nat:=x]> (heap s)) in *.
  assert (length h1 = 573%nat) as Hh1 by (unfold h1; by rewrite length_insert).
  set (s1 := set_heap s h1 (Z.of_nat (length H) - 1) (heap_max s)).
  assert (∀ y, y ∈ heap_part (length H - 1) h1 → y ∈ H) as Hin.
  { intros y Hy. rewrite <-Hp, <-Hrep. by right. }
  destruct (pqdownheap_run s1 tree 1) as (s2 & -> & [S1 S2 S3 S4 S5 S6 S7]).
  { intros i y Hi [_ Hy]%aget_some. cbn [heap heap_len depth s1 set_heap] in *.
    assert (y ∈ heap_part (length H - 1) h1) as Hyin.
    { apply (list_elem_of_lookup_2 _ (Z.to_nat i - 1)). rewrite heap_part_lookup by lia. done. }
    specialize (Hrange y ltac:(apply elem_of_app; left; by apply Hin)). lia. }
  { cbn. lia. } { cbn. lia. }
  simpl_bind. cbn [heap heap_len heap_max depth bl_count s1 set_heap] in *.
  replace (Z.to_nat (Z.of_nat (length H) - 1)) with (length H - 1)%nat in * by lia.
  destruct (heap_part_first (length H - 1) (heap s2) 0) as (m & R & Hm1 & HR & _); [lia|lia|].
  exists s2, top, m, R. split_and!; try done; try congruence.
  - rewrite <-Hp, <-Hrep. constructor. rewrite <-HR, S6. done.
  - rewrite <-Hlog. apply (drop_eq_ge _ _ (S (length H - 1))); [lia|]. rewrite S7. unfold h1.
    apply drop_insert_lt. lia.
Qed.

(** One merge. *)
Lemma combine_step_run E lv t H log s tree :
  merged E lv t H log s tree → (2 ≤ length H)%nat →
  ∃ s' tree' H' log', combine_step s tree (E + Z.of_nat t) = Some (s', tree') ∧
    merged E lv (S t) H' log' s' tree'.
Proof.
  intros Hmg Hlen. destruct (merged_nodes _ _ _ _ _ _ _ Hmg) as (Hnd & Hrange & Hsum & HlE).
  destruct (pqremove_run _ _ _ _ _ _ _ Hmg Hlen) as
    (s1 & n & m & R & Erm & HpH & Hm1 & HR & Hh1 & Hl1 & Hx1 & Hd1 & Hc1 & Hlog1).
  destruct Hmg as [[HE Htree Hheap Hdepth Hcount] [Hndl Hfl] Hl Hp Hmax Hlog Hm Hdads Hzero].
  unfold combine_step. rewrite Erm. simpl_bind. unfold SMALLEST.
  assert (aget (heap s1) 1 = Some m) as -> by done. simpl_bind.
  assert (length H = S (S (length R))) as HlR by (rewrite HpH; done).
  assert (t < 286)%nat as Ht by lia.
  rewrite Hx1, Hmax. rewrite (aset_in (heap s1)) by lia. simpl_bind.
  rewrite (aset_in (<[_:=n]> (heap s1))) by (rewrite length_insert; lia). simpl_bind.
  replace (Z.to_nat (573 - 2 * Z.of_nat t - 1)) with (573 - 2 * t - 1)%nat by lia.
  replace (Z.to_nat (573 - 2 * Z.of_nat t - 2)) with (573 - 2 * t - 2)%nat by lia.
  set (h2 := <[(573 - 2 * t - 2)%nat := m]> (<[(573 - 2 * t - 1)%nat := n]> (heap s1))).
  assert (length h2 = 573%nat) as Hh2 by (unfold h2; by rewrite !length_insert).
  assert (0 ≤ n < E + Z.of_nat t) as Hn
    by (apply Hrange, elem_of_app; left; rewrite HpH; set_solver).
  assert (0 ≤ m < E + Z.of_nat t) as Hmr
    by (apply Hrange, elem_of_app; left; rewrite HpH; set_solver).
  assert (n ≠ m) as Hnm.
  { intros ->. rewrite HpH in Hnd. apply NoDup_app in Hnd as (Hnd & _). apply NoDup_cons in Hnd. set_solver. }
  destruct (aget_in tree n ltac:(lia)) as [cx Ex], (aget_in tree m ltac:(lia)) as [cy Ey].
  destruct (aget_in tree (E + Z.of_nat t) ltac:(lia)) as [cz Ez].
  rewrite Ex, Ey, Ez. simpl_bind. rewrite (aset_in tree) by lia. simpl_bind.
  rewrite Hd1.
  destruct (aget_in (depth s) n ltac:(lia)) as [dn ->], (aget_in (depth s) m ltac:(lia)) as [dm ->].
  simpl_bind. rewrite (aset_in (depth s)) by lia. simpl_bind.
  set (tree1 := <[Z.to_nat (E + Z.of_nat t) := Ct (u16 (fc cx + fc cy)) (dl cz)]> tree).
  assert (length tree1 = length tree) as Ht1 by (unfold tree1; by rewrite length_insert).
  assert (aget tree1 n = Some cx) as ->
    by (unfold tree1; rewrite aget_insert by lia; by rewrite decide_False by lia).
  simpl_bind. rewrite (aset_in tree1) by lia. simpl_bind.
  set (tree2 := <[Z.to_nat n := Ct (fc cx) (u16 (E + Z.of_nat t))]> tree1).
  assert (length tree2 = length tree) as Ht2 by (unfold tree2; by rewrite length_insert).
  assert (aget tree2 m = Some cy) as ->.
  { unfold tree2, tree1. rewrite !aget_insert by (rewrite ?length_insert; lia).
    by rewrite !decide_False by lia. }
  simpl_bind. rewrite (aset_in tree2) by lia. simpl_bind.
  set (tree3 := <[Z.to_nat m := Ct (fc cy) (u16 (E + Z.of_nat t))]> tree2).
  assert (length tree3 = length tree) as Ht3 by (unfold tree3; by rewrite length_insert).
  rewrite (aset_in h2) by lia. simpl_bind. change (Z.to_nat 1) with 1%nat.
  set (h3 := <[1%nat := E + Z.of_nat t]> h2).
  set (d3 := <[Z.to_nat (E + Z.of_nat t) := u8 ((if dm <=? dn then dn else dm) + 1)]> (depth s)).
  set (s2 := Heapst h3 (heap_len s1) (573 - 2 * Z.of_nat t - 2) d3 (bl_count s1)).
  assert (heap_part (length H - 1) h3 = E + Z.of_nat t :: R) as Hpart.
  { unfold h3. destruct (heap_part_first (length H - 1) h2 (E + Z.of_nat t)) as (a & R' & Ha & HR' & ->);
      [lia|lia|]. f_equal. unfold h2 in HR'. rewrite !heap_part_insert in HR' by lia.
    rewrite HR in HR'. congruence. }
  destruct (pqdownheap_run s2 tree3 1) as (s3 & -> & [S1 S2 S3 S4 S5 S6 S7]).
  { apply (heap_nodes_of (λ _, True) _ _ (E + Z.of_nat t :: R)); cbn [s2 heap heap_len depth].
    - cbn [length]. rewrite <-Hpart. replace (S (length R)) with (length H - 1)%nat by lia. done.
    - cbn [length]. lia.
    - intros y Hy. unfold d3. rewrite length_insert, Hdepth, Ht3.
      assert (0 ≤ y < E + Z.of_nat t + 1) as Hy'.
      { apply elem_of_cons in Hy as [->|Hy]; [lia|].
        specialize (Hrange y ltac:(apply elem_of_app; left; rewrite HpH; set_solver)). lia. }
      lia. }
  { cbn. unfold h3. rewrite length_insert. lia. } { cbn. lia. }
  simpl_bind. cbn [s2 heap heap_len heap_max depth bl_count] in *.
  replace (Z.to_nat (heap_len s1)) with (length H - 1)%nat in * by lia.
  exists s3, tree3, (E + Z.of_nat t :: R), (m :: n :: log). split; [done|].
  assert (dlz tree3 n = E + Z.of_nat t ∧ dlz tree3 m = E + Z.of_nat t) as [Dn Dm].
  { unfold tree3, tree2. rewrite !dlz_insert by (rewrite ?length_insert; lia).
    cbn [dl]. rewrite wrap_small by (unfold in_width; lia). repeat case_decide; done. }
  assert (∀ y, y ≠ n → y ≠ m → dlz tree3 y = dlz tree y) as Dother.
  { intros y Hyn Hym. unfold tree3, tree2, tree1. rewrite !dlz_insert by (rewrite ?length_insert; lia).
    rewrite !decide_False by done. case_decide; [|done]. cbn [dl]. subst y.
    symmetry. by apply dlz_some. }
  assert (n ∉ log ∧ m ∉ log) as [Hnl Hml].
  { rewrite HpH in Hnd. apply NoDup_app in Hnd as (_ & Hdis & _). split; apply Hdis; set_solver. }
  split.
  - split; [lia|lia|rewrite S5; unfold h3; by rewrite length_insert|rewrite S3; unfold d3; by rewrite length_insert|congruence].
  - done.
  - cbn [length]. lia.
  - cbn [length]. replace (S (length R)) with (length H - 1)%nat by lia. rewrite S6, Hpart. done.
  - lia.
  - replace (573 - 2 * S t)%nat with (573 - 2 * t - 2)%nat by lia.
    rewrite <-Hlog1, <-(drop_push (573 - 2 * t) (heap s1) n m) by lia. fold h2.
    apply (drop_eq_ge _ _ (S (length H - 1))); [lia|]. rewrite S7. unfold h3.
    apply drop_insert_lt. lia.
  - by eapply merges_pair.
  - cbn [dads]. split_and!; [done..|]. eapply dads_frame; [done|].
    intros y Hy. apply Dother; intros ->; done.
  - assert (∀ y, y ∈ H → 0 ≤ y < E → y ∈ lv) as Hsym.
    { intros y Hy Hr. pose proof (merges_all _ _ _ _ _ Hm) as Hall.
      assert (y ∈ lv ++ seqZ E (Z.of_nat t)) as Hin by (rewrite <-Hall; apply elem_of_app; by left).
      apply elem_of_app in Hin as [?|Hin]; [done|]. apply elem_of_seqZ in Hin. lia. }
    intros y Hy Hylv. rewrite Dother; [by apply Hzero|..];
      (intros ->; apply Hylv, Hsym; [rewrite HpH; set_solver|done]).
Qed.

Lemma combine_all_run E lv fuel : ∀ t H log s tree,
  merged E lv t H log s tree → (2 ≤ length H)%nat → (length H ≤ S fuel)%nat →
  ∃ s' tree' r log', combine_all fuel s tree (E + Z.of_nat t) = Some (s', tree') ∧
    merged E lv (length lv - 1) [r] log' s' tree'.
Proof.
  induction fuel as [|fuel IH]; intros t H log s tree Hmg Hl Hf; [lia|]. cbn [combine_all].
  destruct (merged_nodes _ _ _ _ _ _ _ Hmg) as (_ & _ & Hsum & _).
  destruct (combine_step_run _ _ _ _ _ _ _ Hmg Hl) as (s1 & tree1 & H1 & log1 & -> & Hmg1).
  simpl_bind.
  destruct (merged_nodes _ _ _ _ _ _ _ Hmg1) as (_ & _ & Hsum1 & _).
  rewrite (mg_len _ _ _ _ _ _ _ Hmg1). destruct (Z.leb_spec 2 (Z.of_nat (length H1))).
  - replace (E + Z.of_nat t + 1) with (E + Z.of_nat (S t)) by lia. eapply IH; [done|lia|lia].
  - destruct H1 as [|r [|]]; cbn [length] in *; [lia| |lia].
    exists s1, tree1, r, log1. split; [done|]. by replace (length lv - 1)%nat with (S t) by lia.
Qed.

(** The start of [build_tree]: the symbols in use are collected, at least two
    codes are forced, and the heap is set up. *)

Definition fcz (tree : list ct_data) (x : Z) : Z := default 0 (fc <$> aget tree x).

(** After the symbols below [n] have been looked at: [lv] are those in use. *)
Record started (E : Z) (tree0 : list ct_data) (n : Z) (b : building) (lv : list Z) : Prop := Started {
  sd_sizes : sizes E (b_heap b) (b_tree b);
  sd_nodup : NoDup lv;
  sd_range : Forall (λ x, 0 ≤ x ≤ b_max_code b) lv;
  sd_bound : b_max_code b < E;
  sd_last : (lv = [] ∧ b_max_code b = -1) ∨ b_max_code b ∈ lv;
  sd_len : heap_len (b_heap b) = Z.of_nat (length lv);
  sd_heap : heap_part (length lv) (heap (b_heap b)) = lv;
  sd_max : heap_max (b_heap b) = 573;
  sd_zero : ∀ x, 0 ≤ x < n → x ∉ lv → dlz (b_tree b) x = 0;
  sd_used : ∀ x, 0 ≤ x < n → fcz tree0 x ≠ 0 → x ∈ lv;
  sd_below : n ≤ E ∧ (n < E → b_max_code b < n);
  sd_same : ∀ x, n ≤ x → aget (b_tree b) x = aget tree0 x }.

Lemma heap_part_snoc (len : nat) (h : list Z) v :
  (S len < length h)%nat → heap_part (S len) (<[S len := v]> h) = heap_part len h ++ [v].
Proof.
  intros Hl. unfold heap_part. destruct h as [|x h]; [simpl in Hl; lia|]. simpl in Hl.
  change (drop 1 (<[S len:=v]> (x :: h))) with (<[len:=v]> h).
  change (drop 1 (x :: h)) with h.
  rewrite (take_S_r _ _ v) by (apply list_lookup_insert_eq; lia). by rewrite take_insert_ge by lia.
Qed.

Lemma started_bound E tree0 n b lv : started E tree0 n b lv → Z.of_nat (length lv) ≤ b_max_code b + 1.
Proof.
  intros [_ Hnd Hf _ Hlast _ _ _ _ _ _ _].
  pose proof (leaves_bound (b_max_code b + 1) lv Hnd) as H.
  destruct Hlast as [[-> ->]|Hin]; [simpl; lia|].
  rewrite Forall_forall in Hf. pose proof (Hf _ Hin).
  assert (Forall (λ x, 0 ≤ x < b_max_code b + 1) lv) as Hf'.
  { apply Forall_forall. intros x Hx. specialize (Hf x Hx). lia. }
  specialize (H Hf'). lia.
Qed.

(** A new leaf [x] is appended to the heap. *)
Lemma started_add E tree0 n b lv x tree1 n' max' d1 :
  started E tree0 n b lv → x ∉ lv → 0 ≤ x ≤ max' → b_max_code b ≤ max' < E →
  (max' = x ∨ max' = b_max_code b ∧ lv ≠ []) →
  length tree1 = length (b_tree b) → length d1 = 573%nat →
  (∀ y, y ≠ x → dlz tree1 y = dlz (b_tree b) y) →
  (∀ y, n' ≤ y → aget tree1 y = aget tree0 y) →
  (n' = n ∨ n' = n + 1 ∧ x = n) → n' ≤ E → (n' < E → max' < n') →
  started E tree0 n'
    (Building (Heapst (<[S (length lv) := x]> (heap (b_heap b))) (Z.of_nat (length lv) + 1)
                 (heap_max (b_heap b)) d1 (bl_count (b_heap b))) tree1 max') (lv ++ [x]).
Proof.
  intros Hst Hx Hxr Hmax Hm Htree Hd Hdl Hsame Hn' Hn'E Hlt. pose proof (started_bound _ _ _ _ _ Hst).
  destruct Hst as [[HE HT HH HD HC] Hnd Hf Hb Hlast Hl Hheap Hmx Hz Hu Hbl Hs].
  split; cbn [b_heap b_tree b_max_code heap heap_len heap_max depth bl_count].
  - split; cbn [heap depth bl_count]; [done|by rewrite Htree|by rewrite length_insert|done|done].
  - apply NoDup_app. split_and!; [done| |apply NoDup_singleton].
    intros y Hy ->%list_elem_of_singleton. done.
  - apply Forall_app. split; [|apply Forall_singleton; lia].
    eapply Forall_impl; [exact Hf|]. simpl. lia.
  - lia.
  - right. destruct Hm as [->|[-> Hne]]; [set_solver|].
    destruct Hlast as [[-> _]|?]; [done|set_solver].
  - rewrite length_app. simpl. lia.
  - rewrite length_app, Nat.add_1_r, heap_part_snoc by lia. by rewrite Hheap.
  - done.
  - intros y Hy Hyl. apply not_elem_of_app in Hyl as [Hyl Hyx].
    assert (y ≠ x) by set_solver. rewrite Hdl by done. apply Hz; [|done].
    destruct Hn' as [->|[-> ->]]; lia.
  - intros y Hy Hfy. apply elem_of_app. destruct (decide (y = x)) as [->|]; [right; set_solver|left].
    apply Hu; [|done]. destruct Hn' as [->|[-> ->]]; lia.
  - done.
  - done.
Qed.

Lemma init_heap_step_run E tree0 n b lv :
  started E tree0 n b lv → 0 ≤ n < E →
  succeeds (init_heap_step n b) (λ b', ∃ lv', started E tree0 (n + 1) b' lv').
Proof.
  intros Hst Hn. pose proof (started_bound _ _ _ _ _ Hst).
  pose proof Hst as [[HE HT HH HD HC] Hnd Hf Hb Hlast Hl Hheap Hmx Hz Hu [_ Hbl] Hs].
  specialize (Hbl ltac:(lia)). unfold init_heap_step.
  destruct (aget_in (b_tree b) n ltac:(lia)) as [x Hx]. rewrite Hx. simpl_bind.
  assert (fcz tree0 n = fc x) as Hfc by (unfold fcz; rewrite <-Hs, Hx by lia; done).
  destruct (Z.eqb_spec (fc x) 0) as [E0|E0]; cbn [negb].
  - rewrite aset_in by lia. cbn [mbind option_bind succeeds]. exists lv.
    split; cbn [b_heap b_tree b_max_code]; try done.
    + split; try done. by rewrite length_insert.
    + intros y Hy Hyl. rewrite dlz_insert by lia. case_decide; [done|]. apply Hz; [lia|done].
    + intros y Hy Hfy. apply Hu; [|done]. destruct (decide (y = n)) as [->|]; [congruence|lia].
    + lia.
    + intros y Hy. rewrite aget_insert by lia. rewrite decide_False by lia. apply Hs. lia.
  - rewrite aset_in by lia. simpl_bind. rewrite aset_in by lia. cbn [mbind option_bind succeeds].
    exists (lv ++ [n]). rewrite Hl. replace (Z.to_nat (Z.of_nat (length lv) + 1)) with (S (length lv)) by lia.
    apply (started_add E tree0 n b lv n (b_tree b) (n + 1) n); try done; try lia.
    + intros Hin. rewrite Forall_forall in Hf. specialize (Hf n Hin). lia.
    + by rewrite length_insert.
    + intros y Hy. apply Hs. lia.
Qed.

(** The static tree, when there is one, covers the symbols. *)
Definition stree_ok (E : Z) (stree : option (list ct_data)) : Prop :=
  match stree with Some st => E ≤ Z.of_nat (length st) | None => True end.

Lemma force_codes_run W E tree0 stree fuel : ∀ b lv opt stat,
  started E tree0 E b lv → stree_ok E stree → (2 ≤ length lv + fuel)%nat →
  ∃ b' lv' opt' stat', force_codes W fuel stree b opt stat = Some (b', opt', stat') ∧
    started E tree0 E b' lv' ∧ (2 ≤ length lv')%nat.
Proof.
  induction fuel as [|fuel IH]; intros b lv opt stat Hst Hse Hf; cbn [force_codes];
    rewrite (sd_len _ _ _ _ _ Hst); destruct (Z.ltb_spec (Z.of_nat (length lv)) 2) as [Hlt|Hge].
  { lia. }
  { exists b, lv, opt, stat. split_and!; [done|done|lia]. }
  2:{ exists b, lv, opt, stat. split_and!; [done|done|lia]. }
  pose proof Hst as [[HE HT HH HD HC] Hnd Hfr Hb Hlast Hl Hheap Hmx Hz Hu Hbl Hs].
  set (max' := if b_max_code b <? 2 then b_max_code b + 1 else b_max_code b).
  set (node := if b_max_code b <? 2 then max' else 0).
  assert (node ∉ lv ∧ 0 ≤ node ≤ max' ∧ b_max_code b ≤ max' < E ∧
          (max' = node ∨ max' = b_max_code b ∧ lv ≠ []) ∧ 0 ≤ node < E) as (Hno & Hn1 & Hn2 & Hn3 & Hn4).
  { unfold node, max'. rewrite Forall_forall in Hfr.
    assert (-1 ≤ b_max_code b) by (destruct Hlast as [[_ ->]|Hin]; [lia|]; specialize (Hfr _ Hin); lia).
    destruct (Z.ltb_spec (b_max_code b) 2).
    - split_and!; try lia. intros Hin. specialize (Hfr _ Hin). lia.
    - destruct Hlast as [[_ ?]|Hin]; [lia|].
      destruct lv as [|y [|]]; [set_solver| |simpl in Hlt; lia].
      apply list_elem_of_singleton in Hin. split_and!; try lia; [|by right].
      intros Hin0%list_elem_of_singleton. lia. }
  rewrite (aset_in (heap (b_heap b))) by lia. simpl_bind.
  destruct (aget_in (b_tree b) node ltac:(lia)) as [x Hx]. rewrite Hx. simpl_bind.
  rewrite (aset_in (b_tree b)) by lia. simpl_bind.
  rewrite (aset_in (depth (b_heap b))) by lia. simpl_bind.
  assert (∃ stat', match stree with
    | Some st => y ← st.[node]; Some (wrap W (stat - Len y))
    | None => Some stat end = Some stat') as [stat' ->].
  { destruct stree as [st|]; [|by eexists]. cbn in Hse.
    destruct (aget_in st node ltac:(lia)) as [y ->]. by eexists. }
  simpl_bind. apply (IH _ (lv ++ [node])); [|done|rewrite length_app; simpl; lia].
  replace (Z.to_nat (Z.of_nat (length lv) + 1)) with (S (length lv)) by lia.
  apply (started_add E tree0 E b lv node); try done; try lia.
  - by rewrite length_insert.
  - by rewrite length_insert.
  - intros y Hy. rewrite dlz_insert by lia. rewrite decide_False by done. done.
  - intros y Hy. rewrite aget_insert by lia. rewrite decide_False by lia. by apply Hs.
Qed.

Lemma heapify_run tree n : ∀ s,
  heap_nodes (heap s) (heap_len s) tree (depth s) → heap_len s < Z.of_nat (length (heap s)) →
  Z.of_nat n ≤ heap_len s → ∃ s', heapify n s tree = Some s' ∧ same_heap s s'.
Proof.
  induction n as [|n IH]; intros s Hn Hl Hle; cbn [heapify].
  { exists s. split; [done|]. by split. }
  destruct (pqdownheap_run s tree (Z.of_nat (S n)) Hn Hl ltac:(lia)) as (s1 & -> & H1).
  simpl_bind. pose proof H1 as [L1 _ D1 _ S1 P1 _].
  destruct (IH s1) as (s2 & -> & H2).
  - intros i x Hi Hx. rewrite D1. rewrite L1 in Hi.
    apply aget_some in Hx as [_ Hx].
    assert (x ∈ heap_part (Z.to_nat (heap_len s)) (heap s)) as Hin.
    { rewrite <-P1. apply (list_elem_of_lookup_2 _ (Z.to_nat i - 1)). rewrite heap_part_lookup by lia. done. }
    apply list_elem_of_lookup in Hin as [k Hk]. pose proof (lookup_lt_Some _ _ _ Hk) as Hk'.
    rewrite length_heap_part in Hk' by lia.
    apply (Hn (Z.of_nat (S k))); [lia|]. rewrite aget_lookup.
    rewrite <-(heap_part_lookup (Z.to_nat (heap_len s))) by lia. by replace (S k - 1)%nat with k by lia.
  - lia.
  - lia.
  - exists s2. split; [done|]. by eapply same_heap_trans.
Qed.

(** The start of [build_tree] as a whole. *)
Definition start_tree (W : Z) (s : heapst) (sd : static_tree_desc) (tree : list ct_data)
    (opt stat : Z) : option (heapst * building * Z * Z) :=
  b ← for_up (Z.to_nat (sd_elems sd)) 0 init_heap_step
        (Building (set_heap s (heap s) 0 HEAP_SIZE) tree (-1));
  '(b, opt, stat) ← force_codes W 2 (sd_tree sd) b opt stat;
  s ← heapify (Z.to_nat (heap_len (b_heap b) / 2)) (b_heap b) (b_tree b);
  Some (s, b, opt, stat).

Lemma start_tree_run W s sd tree opt stat :
  sizes (sd_elems sd) s tree → stree_ok (sd_elems sd) (sd_tree sd) →
  ∃ s' b opt' stat' lv, start_tree W s sd tree opt stat = Some (s', b, opt', stat') ∧
    merged (sd_elems sd) lv 0 lv [] s' (b_tree b) ∧ (2 ≤ length lv)%nat ∧
    Forall (λ x, 0 ≤ x ≤ b_max_code b) lv ∧ b_max_code b < sd_elems sd ∧
    (∀ x, 0 ≤ x < sd_elems sd → fcz tree x ≠ 0 → x ∈ lv) ∧ 1 ≤ b_max_code b ∧
    b_max_code b ∈ lv.
Proof.
  intros Hsz Hse. set (E := sd_elems sd) in *. pose proof Hsz as [HE HT HH HD HC].
  unfold start_tree. fold E.
  destruct (succeeds_elim _ _ (for_up_total (λ n b, ∃ lv, started E tree n b lv) init_heap_step
    (Z.to_nat E) 0 (Building (set_heap s (heap s) 0 HEAP_SIZE) tree (-1))
    ltac:(intros j b Hj [lv Hlv]; apply (init_heap_step_run _ _ _ _ lv); [done|lia])
    ltac:(exists []; split; cbn; try done; try (by constructor); try lia; by left)))
    as (b & -> & lv & Hst).
  simpl_bind. rewrite Z2Nat.id, Z.add_0_l in Hst by lia.
  destruct (force_codes_run W E tree (sd_tree sd) 2 b lv opt stat Hst Hse ltac:(lia))
    as (b1 & lv1 & opt1 & stat1 & -> & Hst1 & Hl2).
  simpl_bind. pose proof (started_bound _ _ _ _ _ Hst1) as Hbd.
  destruct Hst1 as [Hsz1 Hnd Hf Hb Hlast Hl Hheap Hmx Hz Hu _ Hs].
  assert (heap_nodes (heap (b_heap b1)) (heap_len (b_heap b1)) (b_tree b1) (depth (b_heap b1))) as Hhn.
  { apply (heap_nodes_of (λ _, True) _ _ lv1); [by rewrite Hheap|done|].
    intros x Hx. rewrite Forall_forall in Hf. specialize (Hf x Hx).
    destruct Hsz1 as [_ HT1 _ HD1 _]. lia. }
  destruct (heapify_run (b_tree b1) (Z.to_nat (heap_len (b_heap b1) / 2)) (b_heap b1) Hhn)
    as (s2 & -> & [L2 M2 D2 C2 S2 P2 R2]).
  { rewrite Hl. destruct Hsz1 as [_ _ HH1 _ _]. lia. }
  { rewrite Z2Nat.id by (apply Z.div_pos; lia). apply Z.div_le_upper_bound; lia. }
  simpl_bind. exists s2, b1, opt1, stat1, lv1. split; [done|].
  split_and!; try done; [|lia|destruct Hlast as [[-> _]|?]; [simpl in Hl2; lia|done]].
  destruct Hsz1 as [HE1 HT1 HH1 HD1 HC1]. rewrite Hl, Nat2Z.id in P2.
  split; [split; [done|done|lia|congruence|congruence]| |lia| |lia| |by constructor|done|done].
  - split; [done|]. eapply Forall_impl; [exact Hf|]. simpl. lia.
  - rewrite P2, Hheap. done.
  - apply drop_ge. lia.
Qed.
