(* ===== verification/TreeLens.v ===== *)
(** The first pass of [gen_bitlen]: the lengths go from the root to the leaves,
    cut at [max_length], and [overflow] counts the nodes that were cut. *)

From Stdlib Require Import ZArith Lia.
From stdpp Require Import base option numbers list sets.
From S2P Require Import Prelude Sums Trees TreeFlush TreeHeap.

Open Scope Z_scope.

(** The length a son gets from the length [L] of its father. *)
Definition son_len (M L : Z) : Z := if M <? L + 1 then M else L + 1.

Section spread.
Context (W E M mc : Z) (sd : static_tree_desc) (lv heap : list Z).
Hypotheses
  (HE : 3 ≤ E ≤ 286) (HM : 1 ≤ M ≤ 15) (Hnd : NoDup lv)
  (Hlv : Forall (λ x, 0 ≤ x ≤ mc) lv) (Hmc : mc < E)
  (HsdM : sd_max_length sd = M)
  (Hextra : ∀ n, sd_base sd ≤ n ≤ mc → 0 ≤ n - sd_base sd < Z.of_nat (length (sd_extra sd)))
  (Hstree : stree_ok E (sd_tree sd)).

(** After the pairs above the [t]-th merge: the nodes [F] have their lengths,
    the nodes of [log] still have their fathers. *)
Record spread (t : nat) (F log : list Z) (b : bitlen) : Prop := Spread {
  sp_merges : merges E lv t F log;
  sp_dads : dads (bl_tree_ b) E t log;
  sp_size : Z.of_nat (length (bl_tree_ b)) = 2 * E + 1;
  sp_cnt_size : length (bl_cnt b) = 16%nat;
  sp_len : ∀ x, x ∈ F → 0 ≤ dlz (bl_tree_ b) x ≤ M;
  sp_leaf : ∀ x, x ∈ F → x < E → 1 ≤ dlz (bl_tree_ b) x;
  sp_kraft : 2 * zsum (λ x, 2 ^ (M - dlz (bl_tree_ b) x)) F = 2 * 2 ^ M + bl_overflow b;
  sp_over : ∃ k, 0 ≤ k ∧ bl_overflow b = 2 * k ∧
    (k = 0 ∨ k + 1 ≤ zsum (λ x, ind (dlz (bl_tree_ b) x = M)) F);
  sp_cnt : ∀ l, 0 ≤ l ≤ 15 → anth (bl_cnt b) l = zsum (λ x, ind (x < E ∧ dlz (bl_tree_ b) x = l)) F;
  sp_zero : ∀ x, 0 ≤ x < E → x ∉ lv → dlz (bl_tree_ b) x = 0 }.

Lemma leaves_in_range : Forall (λ x, 0 ≤ x < E) lv.
Proof. eapply Forall_impl; [exact Hlv|]. simpl. lia. Qed.

(** One node: [n], whose father has the length [L]. *)
Lemma bitlen_step_run h n b L :
  aget heap h = Some n → (mc < n ∨ 0 ≤ n ≤ mc) → 0 ≤ n < Z.of_nat (length (bl_tree_ b)) →
  0 ≤ dlz (bl_tree_ b) n < Z.of_nat (length (bl_tree_ b)) →
  dlz (bl_tree_ b) (dlz (bl_tree_ b) n) = L → 0 ≤ L ≤ M → length (bl_cnt b) = 16%nat →
  (n ≤ mc → 0 ≤ anth (bl_cnt b) (son_len M L) < 65535) →
  ∃ b' f, bitlen_step W sd mc heap h b = Some b' ∧
    bl_tree_ b' = <[Z.to_nat n := Ct f (son_len M L)]> (bl_tree_ b) ∧
    bl_overflow b' = bl_overflow b + ind (L = M) ∧ length (bl_cnt b') = 16%nat ∧
    ∀ l, anth (bl_cnt b') l = anth (bl_cnt b) l + ind (n ≤ mc ∧ son_len M L = l).
Proof.
  intros Hh Hn Hnr Hdr HL HLr Hc Hcn. unfold bitlen_step. rewrite Hh. simpl_bind.
  destruct (aget_in (bl_tree_ b) n Hnr) as [x Hx]. rewrite Hx. simpl_bind.
  pose proof (dlz_some _ _ _ Hx) as Ed. rewrite Ed in *.
  destruct (aget_in (bl_tree_ b) (dl x) Hdr) as [y Hy]. rewrite Hy. simpl_bind.
  rewrite (dlz_some _ _ _ Hy) in HL. rewrite HsdM, HL.
  change (if M <? L + 1 then M else L + 1) with (son_len M L).
  assert (1 ≤ son_len M L ≤ M) as Hs by (unfold son_len; destruct (Z.ltb_spec M (L + 1)); lia).
  rewrite (wrap_small 16 (son_len M L)) by (unfold in_width; lia).
  assert ((if M <? L + 1 then 1 else 0) = ind (L = M)) as ->.
  { unfold ind. destruct (Z.ltb_spec M (L + 1)); case_decide; lia. }
  rewrite (aset_in (bl_tree_ b)) by done. simpl_bind.
  destruct (Z.ltb_spec mc n) as [Hlt|Hle].
  { do 2 eexists. split_and!; [done|cbn [bl_tree_]; done|done|done|].
    intros l. cbn [bl_cnt]. rewrite ind_false by lia. lia. }
  specialize (Hcn Hle). rewrite (aget_anth (bl_cnt b)) by lia. simpl_bind.
  rewrite (aset_in (bl_cnt b)) by lia. simpl_bind.
  assert (∃ xb, (if sd_base sd <=? n then (sd_extra sd).[n - sd_base sd] else Some 0) = Some xb) as [xb ->].
  { destruct (Z.leb_spec (sd_base sd) n); [|by eexists]. apply aget_in, Hextra. lia. }
  simpl_bind.
  assert (∃ st, match sd_tree sd with
    | None => Some (bl_static b)
    | Some stree => y ← stree.[n]; Some (wrap W (bl_static b + Freq x * (Len y + xb)))
    end = Some st) as [st ->].
  { destruct (sd_tree sd) as [stree|]; [|by eexists]. cbn in Hstree.
    destruct (aget_in stree n ltac:(lia)) as [z ->]. by eexists. }
  simpl_bind. do 2 eexists. split_and!; [done|cbn [bl_tree_]; done|done|cbn; by rewrite length_insert|].
  intros l. cbn [bl_cnt]. rewrite anth_insert by lia.
  rewrite wrap_small by (unfold in_width; lia). unfold ind.
  repeat case_decide; subst; lia.
Qed.

(** The fathers and sons of one merge, and the others. *)
Lemma merge_nodes t F m n log :
  merges E lv (S t) F (m :: n :: log) →
  ∃ H R, merges E lv t H log ∧ H ≡ₚ n :: m :: R ∧ F ≡ₚ E + Z.of_nat t :: R ∧
    m ≠ n ∧ (∀ x, x ∈ F → x ≠ m ∧ x ≠ n) ∧
    m ∉ log ∧ n ∉ log ∧
    (∀ x, x = m ∨ x = n → 0 ≤ x < E + Z.of_nat t ∧ (x < E → x ∈ lv)) ∧
    (length F + S t = length lv)%nat ∧ Z.of_nat (length lv) ≤ E.
Proof.
  intros Hm. pose proof leaves_in_range as Hr.
  destruct (merges_nodes _ _ _ _ _ Hnd Hr ltac:(lia) Hm) as (Hd & _ & Hl).
  pose proof (merges_length _ _ _ _ _ Hm) as [Hlen _].
  pose proof (leaves_bound E lv Hnd Hr) as Hb.
  inversion Hm as [|t0 H R n0 m0 log0 H' Hmt Hp Hp']; subst.
  destruct (merges_nodes _ _ _ _ _ Hnd Hr ltac:(lia) Hmt) as (_ & Hrange & _).
  apply NoDup_app in Hd as (_ & Hdis & [Hm1 [Hn1 _]%NoDup_cons]%NoDup_cons).
  exists H, R. split_and!; try done; try lia.
  - set_solver.
  - intros x Hx. specialize (Hdis x Hx). set_solver.
  - set_solver.
  - intros x Hx. split; [apply Hrange|]; rewrite ?Hp.
    + destruct Hx as [->| ->]; set_solver.
    + apply Hl. destruct Hx as [->| ->]; set_solver.
Qed.

(** What a sum over the nodes becomes when a father is replaced by its sons. *)
Lemma zsum_split (v : Z → Z → Z) tree tree' d m n s R F H :
  F ≡ₚ d :: R → H ≡ₚ n :: m :: R → (∀ x, x ∈ R → dlz tree' x = dlz tree x) →
  dlz tree' m = s → dlz tree' n = s →
  zsum (λ x, v x (dlz tree' x)) H = v n s + v m s + zsum (λ x, v x (dlz tree x)) F - v d (dlz tree d).
Proof.
  intros HF HH HR Hm Hn. rewrite HF, HH, !zsum_cons, Hm, Hn.
  rewrite (zsum_ext _ (λ x, v x (dlz tree x)) R); [lia|]. intros x Hx. by rewrite HR.
Qed.

Lemma son_len_range L : 0 ≤ L ≤ M → 1 ≤ son_len M L ≤ M.
Proof. intros HL. unfold son_len. destruct (Z.ltb_spec M (L + 1)); lia. Qed.

(** The weight of the sons: that of the father, or one half too much each. *)
Lemma son_weight L : 0 ≤ L ≤ M → 2 * 2 ^ (M - son_len M L) = 2 ^ (M - L) + ind (L = M).
Proof.
  intros HL. unfold son_len, ind. destruct (Z.ltb_spec M (L + 1)); case_decide; try lia.
  - subst. rewrite Z.sub_diag. done.
  - rewrite <-Z.pow_succ_r by lia. rewrite Z.add_0_r. f_equal. lia.
Qed.

Lemma spread_pair t F m n log b h :
  spread (S t) F (m :: n :: log) b → aget heap h = Some m → aget heap (h + 1) = Some n →
  ∃ b1 b2 F', bitlen_step W sd mc heap h b = Some b1 ∧
    bitlen_step W sd mc heap (h + 1) b1 = Some b2 ∧ spread t F' log b2.
Proof.
  intros [Hm (Dm & Dn & Hd) Hsz Hcs Hlen Hleaf Hk (k & Hk0 & Hov & Hkm) Hc Hz] Hhm Hhn.
  destruct (merge_nodes _ _ _ _ _ Hm) as (H & R & Hmt & HpH & HpF & Hmn & Hne & Hml & Hnl & Hnr & Hl & HlE).
  set (d := E + Z.of_nat t) in *. set (L := dlz (bl_tree_ b) d).
  assert (d ∈ F) as HdF by (rewrite HpF; by left).
  assert (0 ≤ L ≤ M) as HL by (apply Hlen; done).
  pose proof (son_len_range L HL) as Hs. rewrite Forall_forall in Hlv.
  assert (∀ x, x = m ∨ x = n → (mc < x ∨ 0 ≤ x ≤ mc) ∧ 0 ≤ x < 2 * E + 1 ∧ (x < E ↔ x ≤ mc)) as Hrx.
  { intros x Hx. destruct (Hnr x Hx) as [? Hxl]. unfold d in *. split; [lia|]. split; [lia|].
    split; [|lia]. intros Hlt. apply (Hlv x). auto. }
  destruct (Hrx m ltac:(auto)) as (Hm1 & Hm2 & Hm3), (Hrx n ltac:(auto)) as (Hn1 & Hn2 & Hn3).
  assert (0 ≤ anth (bl_cnt b) (son_len M L) ≤ 286) as Hcb.
  { rewrite Hc by lia. pose proof (zsum_ind_le (λ x, x < E ∧ dlz (bl_tree_ b) x = son_len M L) F). lia. }
  destruct (bitlen_step_run h m b L) as (b1 & f1 & Er1 & Et1 & Eo1 & Es1 & Ec1); try done; try lia.
  { by rewrite Dm. }
  assert (n ≠ m) as Hnm by done.
  assert (d ≠ m ∧ d ≠ n) as [Hdm Hdn] by (by apply Hne).
  destruct (bitlen_step_run (h + 1) n b1 L) as (b2 & f2 & Er2 & Et2 & Eo2 & Es2 & Ec2);
    rewrite ?Et1, ?length_insert; try done; try lia.
  { rewrite dlz_insert by lia. rewrite decide_False by done. rewrite Dn. unfold d. lia. }
  { rewrite !dlz_insert by lia. rewrite (decide_False (P := m = n)) by done. rewrite Dn.
    rewrite decide_False by done. done. }
  { intros _. rewrite Ec1. pose proof (ind_range (m ≤ mc ∧ son_len M L = son_len M L)). lia. }
  exists b1, b2, H. split_and!; [done..|].
  assert (∀ x, dlz (bl_tree_ b2) x = if decide (x = m ∨ x = n) then son_len M L else dlz (bl_tree_ b) x) as Hdl.
  { intros x. rewrite Et2, Et1, !dlz_insert by (rewrite ?length_insert; lia). cbn [dl].
    destruct (decide (n = x)), (decide (m = x)); [rewrite decide_True by auto; done..|].
    rewrite decide_False by (intros [?|?]; congruence). done. }
  assert (∀ x, x ∈ R → x ∈ F) as HRF by (intros x ?; rewrite HpF; by right).
  assert (∀ x, x ∈ R → dlz (bl_tree_ b2) x = dlz (bl_tree_ b) x) as HR.
  { intros x Hx. rewrite Hdl, decide_False; [done|]. destruct (Hne x); [auto|tauto]. }
  assert (dlz (bl_tree_ b2) m = son_len M L) as Em by (rewrite Hdl, decide_True; tauto).
  assert (dlz (bl_tree_ b2) n = son_len M L) as En by (rewrite Hdl, decide_True; tauto).
  pose proof (λ v, zsum_split v _ _ d m n (son_len M L) R F H HpF HpH HR Em En) as Hsum. fold L in Hsum.
  assert (∀ x, x ∈ H → x = m ∨ x = n ∨ x ∈ R) as HH by (intros x; rewrite HpH, !elem_of_cons; tauto).
  split; rewrite ?Et2, ?Et1, ?length_insert; try done; rewrite <-?Et1, <-?Et2.
  - eapply dads_frame; [exact Hd|]. intros x Hx. rewrite Hdl, decide_False; [done|].
    intros [->| ->]; done.
  - intros x Hx. destruct (HH x Hx) as [->|[->|Hx']]; rewrite ?Em, ?En; try lia.
    rewrite HR by done. auto.
  - intros x Hx Hlt. destruct (HH x Hx) as [->|[->|Hx']]; rewrite ?Em, ?En; try lia.
    rewrite HR by done. auto.
  - rewrite (Hsum (λ _ l, 2 ^ (M - l))), Eo2, Eo1. pose proof (son_weight L HL). lia.
  - exists (k + ind (L = M)). pose proof (ind_range (L = M)). split_and!; [lia|lia|].
    pose proof (Hsum (λ _ l, ind (l = M))) as Hs2. cbn beta in Hs2. rewrite Hs2.
    pose proof (zsum_elem (λ x, ind (dlz (bl_tree_ b) x = M)) F d
      ltac:(intros; apply ind_range) HdF) as Hd1. cbn beta in Hd1. fold L in Hd1.
    destruct (decide (L = M)) as [El|El].
    + rewrite (ind_true (L = M)), (ind_true (son_len M L = M)) in * by (done || unfold son_len; destruct (Z.ltb_spec M (L + 1)); lia).
      lia.
    + pose proof (ind_range (son_len M L = M)). rewrite (ind_false (L = M)) in * by done. lia.
  - intros l Hl'. pose proof (Hsum (λ x l', ind (x < E ∧ l' = l))) as Hs2. cbn beta in Hs2. rewrite Hs2, Ec2, Ec1, Hc by done.
    rewrite (ind_false (d < E ∧ _)) by (unfold d; lia).
    rewrite (ind_iff (m ≤ mc ∧ _) (m < E ∧ son_len M L = l)) by (by rewrite Hm3).
    rewrite (ind_iff (n ≤ mc ∧ _) (n < E ∧ son_len M L = l)) by (by rewrite Hn3). lia.
  - intros x Hx Hxl. rewrite Hdl, decide_False; [auto|].
    intros Hmn'. destruct (Hnr x Hmn') as [_ Hin]. apply Hxl, Hin. lia.
Qed.

Lemma aget_drop_cons (l : list Z) p x r : drop p l = x :: r → aget l (Z.of_nat p) = Some x ∧ drop (S p) l = r.
Proof.
  intros Hd. rewrite aget_lookup. pose proof (lookup_drop l p 0) as Hl. rewrite Hd, Nat.add_0_r in Hl. cbn in Hl.
  split; [done|]. rewrite <-Nat.add_1_r, <-drop_drop, Hd. done.
Qed.

(** The whole pass. *)
Lemma spread_all t : ∀ F log b,
  spread t F log b → drop (573 - 2 * t) heap = log → (2 * t ≤ 573)%nat →
  ∃ b' F', for_up (2 * t) (573 - 2 * Z.of_nat t) (bitlen_step W sd mc heap) b = Some b' ∧
    spread 0 F' [] b'.
Proof.
  induction t as [|t IH]; intros F log b Hsp Hd Ht.
  { exists b, F. split; [done|]. pose proof (sp_merges _ _ _ _ Hsp) as Hm.
    assert (log = []) as -> by (by inversion Hm). done. }
  pose proof (sp_merges _ _ _ _ Hsp) as Hm.
  assert (∃ m n log', log = m :: n :: log') as (m & n & log' & ->) by (inversion Hm; eauto).
  replace (2 * S t)%nat with (S (S (2 * t))) by lia. cbn [for_up].
  destruct (aget_drop_cons _ _ _ _ Hd) as [Hh1 Hd1]. destruct (aget_drop_cons _ _ _ _ Hd1) as [Hh2 Hd2].
  destruct (spread_pair t F m n log' b (573 - 2 * Z.of_nat (S t)) Hsp) as (b1 & b2 & F' & -> & E2 & Hsp').
  { rewrite <-Hh1. f_equal. lia. } { rewrite <-Hh2. f_equal. lia. }
  simpl_bind. rewrite E2. simpl_bind.
  destruct (IH F' log' b2 Hsp') as (b' & F'' & E' & Hsp''); [rewrite <-Hd2; f_equal; lia|lia|].
  exists b', F''. split; [|done]. rewrite <-E'. f_equal. lia.
Qed.
End spread.

(** The repair of [gen_bitlen]: the lengths that were cut make the code
    over-subscribed by [overflow / 2] codes of the greatest length; each turn of
    the loop takes one away by moving a leaf down the tree. *)

(** [N] codes, over-subscribed by [k] codes of length [M]. *)
Record counts (M N k : Z) (cnt : list Z) : Prop := Counts {
  ct_size : length cnt = 16%nat;
  ct_nonneg : ∀ b, 0 ≤ b ≤ 15 → 0 ≤ anth cnt b;
  ct_range : ∀ b, 0 ≤ b ≤ 15 → b = 0 ∨ M < b → anth cnt b = 0;
  ct_total : zsum (anth cnt) (seqZ 1 M) = N;
  ct_kraft : zsum (λ b, anth cnt b * 2 ^ (M - b)) (seqZ 1 M) = 2 ^ M + k;
  ct_last : k = 0 ∨ k + 1 ≤ anth cnt M }.

Lemma find_bits_run fuel cnt : ∀ bits b,
  length cnt = 16%nat → 1 ≤ b ≤ bits → bits ≤ 15 → anth cnt b ≠ 0 → bits - b ≤ Z.of_nat fuel →
  ∃ r, find_bits fuel cnt bits = Some r ∧ b ≤ r ≤ bits ∧ anth cnt r ≠ 0.
Proof.
  induction fuel as [|fuel IH]; intros bits b Hl Hb Hbits Hne Hf; cbn [find_bits];
    rewrite aget_anth by lia; simpl_bind;
    (destruct (Z.eqb_spec (anth cnt bits) 0) as [E0|E0]; [|exists bits; split_and!; (done || lia)]).
  - exfalso. apply Hne. by replace b with bits by lia.
  - destruct (decide (b = bits)) as [->|]; [done|].
    destruct (IH (bits - 1) b) as (r & -> & Hr & Hn); try done; try lia. exists r. split_and!; (done || lia).
Qed.

Section counts.
Context (M N : Z).
Hypotheses (HM : 2 ≤ M ≤ 15) (HN : N < 2 ^ M) (HN' : N ≤ 286).

Lemma counts_le k cnt b : counts M N k cnt → 0 ≤ b ≤ 15 → 0 ≤ anth cnt b ≤ 286.
Proof.
  intros [Hs Hn Hr Ht Hk Hl] Hb. split; [by apply Hn|].
  destruct (decide (b = 0 ∨ M < b)) as [Hz|Hz]; [rewrite Hr by done; lia|].
  pose proof (zsum_elem (anth cnt) (seqZ 1 M) b) as He. rewrite Ht in He.
  etrans; [apply He|done].
  - intros y Hy%elem_of_seqZ. apply Hn. lia.
  - apply elem_of_seqZ. lia.
Qed.

(** Some code is shorter than [M]: [N] codes of length [M] are not enough. *)
Lemma shorter_code k cnt : counts M N k cnt → 0 ≤ k → ∃ b, 1 ≤ b ≤ M - 1 ∧ anth cnt b ≠ 0.
Proof.
  intros [Hs Hn Hr Ht Hk Hl] Hk0.
  destruct (zsum_pos_elem (λ b, anth cnt b * (2 ^ (M - b) - 1)) (seqZ 1 M)) as (b & Hb & Hpos).
  { assert (zsum (λ b, anth cnt b * 2 ^ (M - b)) (seqZ 1 M) =
      zsum (λ b, anth cnt b * (2 ^ (M - b) - 1)) (seqZ 1 M) + zsum (anth cnt) (seqZ 1 M)) as E.
    { rewrite <-zsum_add. apply zsum_ext. intros. lia. }
    lia. }
  apply elem_of_seqZ in Hb. destruct (decide (b = M)) as [->|]; [rewrite Z.sub_diag in Hpos; simpl in Hpos; lia|].
  exists b. split; [lia|]. intros E0. rewrite E0 in Hpos. lia.
Qed.

(** The counts after a leaf of length [b] has become a node with two leaves,
    one of which comes from the greatest length. *)
Lemma move_leaf_run k cnt :
  counts M N k cnt → 0 < k → ∃ cnt', move_leaf M cnt = Some cnt' ∧ counts M N (k - 1) cnt'.
Proof.
  intros Hct Hk. pose proof (λ b, counts_le k cnt b Hct) as Hle. unfold move_leaf.
  destruct (shorter_code k cnt Hct ltac:(lia)) as (b & Hb & Hne).
  pose proof Hct as [Hs Hn Hr Ht Hkr Hlast]. destruct Hlast as [?|Hlast]; [lia|].
  destruct (find_bits_run (Z.to_nat M) cnt (M - 1) b) as (r & -> & Hr1 & Hr2); try done; try lia.
  simpl_bind. pose proof (Hle r ltac:(lia)). pose proof (Hle (r + 1) ltac:(lia)). pose proof (Hle M ltac:(lia)).
  rewrite (aget_anth cnt r) by lia. simpl_bind. rewrite (wrap_small 16 (_ - 1)) by (unfold in_width; lia).
  rewrite (aset_in cnt) by lia. simpl_bind. set (c1 := <[Z.to_nat r := anth cnt r - 1]> cnt).
  assert (length c1 = 16%nat) as Hs1 by (unfold c1; by rewrite length_insert).
  assert (anth c1 (r + 1) = anth cnt (r + 1)) as E1.
  { unfold c1. rewrite anth_insert by lia. by rewrite decide_False by lia. }
  rewrite (aget_anth c1 (r + 1)), E1 by lia. simpl_bind. rewrite (wrap_small 16 (_ + 2)) by (unfold in_width; lia).
  rewrite (aset_in c1) by lia. simpl_bind. set (c2 := <[Z.to_nat (r + 1) := anth cnt (r + 1) + 2]> c1).
  assert (length c2 = 16%nat) as Hs2 by (unfold c2; by rewrite length_insert).
  assert (anth c2 M = anth cnt M + if decide (r + 1 = M) then 2 else 0) as E2.
  { unfold c2, c1. rewrite !anth_insert by (rewrite ?length_insert; lia).
    destruct (decide (r + 1 = M)) as [<-|]; [done|]. rewrite decide_False by lia. lia. }
  rewrite (aget_anth c2 M), E2 by lia. simpl_bind.
  rewrite (wrap_small 16) by (unfold in_width; case_decide; lia).
  rewrite (aset_in c2) by lia. eexists. split; [done|].
  set (v := anth cnt M + (if decide (r + 1 = M) then 2 else 0) - 1).
  assert (∀ x, anth (<[Z.to_nat M := v]> c2) x =
    anth cnt x - ind (x = r) + 2 * ind (x = r + 1) - ind (x = M)) as Ea.
  { intros x. unfold v, c2, c1. rewrite !anth_insert by (rewrite ?length_insert; lia).
    unfold ind. repeat case_decide; subst; try lia. }
  assert (∀ g y, y ∈ seqZ 1 M → zsum (λ x, ind (x = y) * g x) (seqZ 1 M) = g y) as Hpick.
  { intros g y Hy. rewrite (zsum_update (λ _, 0) _ _ y); [rewrite zsum_const, ind_true by done; lia| |done|].
    - apply NoDup_seqZ.
    - intros z _ Hz. rewrite ind_false by done. lia. }
  assert (∀ g, zsum (λ x, anth (<[Z.to_nat M := v]> c2) x * g x) (seqZ 1 M) =
    zsum (λ x, anth cnt x * g x) (seqZ 1 M) - g r + 2 * g (r + 1) - g M) as Hsu.
  { intros g.
    pose proof (Hpick g r ltac:(apply elem_of_seqZ; lia)) as P1.
    pose proof (Hpick (λ x, 2 * g x) (r + 1) ltac:(apply elem_of_seqZ; lia)) as P2. cbn beta in P2.
    pose proof (Hpick g M ltac:(apply elem_of_seqZ; lia)) as P3.
    assert (zsum (λ x, anth (<[Z.to_nat M := v]> c2) x * g x) (seqZ 1 M) +
      zsum (λ x, ind (x = r) * g x) (seqZ 1 M) + zsum (λ x, ind (x = M) * g x) (seqZ 1 M) =
      zsum (λ x, anth cnt x * g x) (seqZ 1 M) + zsum (λ x, ind (x = r + 1) * (2 * g x)) (seqZ 1 M)) as E.
    { rewrite <-!zsum_add. apply zsum_ext. intros x _. rewrite Ea. lia. }
    lia. }
  split.
  - by rewrite length_insert.
  - intros x Hx. rewrite Ea. pose proof (Hn x Hx). unfold ind. repeat case_decide; subst; lia.
  - intros x Hx Hxz. rewrite Ea, Hr by done. rewrite !ind_false by lia. lia.
  - rewrite (zsum_ext _ (λ x, anth (<[Z.to_nat M:=v]> c2) x * 1)) by (intros; lia). rewrite Hsu.
    rewrite (zsum_ext _ (anth cnt)) by (intros; lia). lia.
  - rewrite Hsu, Hkr. rewrite Z.sub_diag. replace (M - r) with (Z.succ (M - (r + 1))) by lia.
    rewrite Z.pow_succ_r by lia. change (2 ^ 0) with 1. lia.
  - destruct (decide (k = 1)); [left; lia|right]. rewrite Ea, (ind_true (M = M)), (ind_false (M = r)) by lia.
    pose proof (ind_range (M = r + 1)). lia.
Qed.

Lemma fix_overflow_run fuel : ∀ k cnt,
  counts M N k cnt → 0 < k → k ≤ Z.of_nat fuel →
  ∃ cnt', fix_overflow fuel M (2 * k) cnt = Some cnt' ∧ counts M N 0 cnt'.
Proof.
  induction fuel as [|fuel IH]; intros k cnt Hct Hk Hf; [lia|]. cbn [fix_overflow].
  destruct (move_leaf_run k cnt Hct Hk) as (c1 & -> & Hc1). simpl_bind.
  destruct (Z.ltb_spec 0 (2 * k - 2)).
  - replace (2 * k - 2) with (2 * (k - 1)) by lia. apply IH; [done|lia|lia].
  - exists c1. split; [done|]. by replace 0 with (k - 1) by lia.
Qed.
End counts.

(** The second pass of [gen_bitlen]: after the repair of the counts the leaves
    get their lengths again, in the order of the heap from the end. *)

Section relength.
Context (W mc : Z) (heap : list Z) (lo : nat).

(** The leaves in the first [j] entries of the part of the heap from [lo]. *)
Definition todo (j : nat) : list Z := filter (λ x, x ≤ mc) (take j (drop lo heap)).

Hypotheses (Hheap : length heap = 573%nat) (Hlo : (lo ≤ 573)%nat).

Lemma todo_S j x : heap !! (lo + j)%nat = Some x → todo (S j) = todo j ++ filter (λ x, x ≤ mc) [x].
Proof.
  intros Hx. unfold todo. rewrite (take_S_r _ _ x) by (by rewrite lookup_drop). by rewrite filter_app.
Qed.

Lemma relength_run bits fuel j : ∀ n tree opt,
  0 ≤ bits ≤ 15 → (lo + j ≤ 573)%nat → (j ≤ fuel)%nat → (n ≤ length (todo j))%nat →
  NoDup (todo j) → (∀ x, x ∈ todo j → 0 ≤ x < Z.of_nat (length tree)) →
  ∃ j' tree' opt' dn, relength W fuel mc heap bits (Z.of_nat n) (Z.of_nat (lo + j)) tree opt =
      Some (Z.of_nat (lo + j'), tree', opt') ∧ (j' ≤ j)%nat ∧
    todo j = todo j' ++ dn ∧ length dn = n ∧ length tree' = length tree ∧
    ∀ x, dlz tree' x = if decide (x ∈ dn) then bits else dlz tree x.
Proof.
  revert j. induction fuel as [|fuel IH]; intros j n tree opt Hb Hj Hf Hn Hnd Hr; cbn [relength];
    (destruct (Z.eqb_spec (Z.of_nat n) 0) as [E0|E0];
      [exists j, tree, opt, []; rewrite app_nil_r; cbn [length]; split_and!; (done || lia)|]).
  { destruct j; [|lia]. unfold todo in Hn. rewrite take_0 in Hn. simpl in Hn. lia. }
  destruct j as [|j]; [unfold todo in Hn; rewrite take_0 in Hn; simpl in Hn; lia|].
  destruct (lookup_lt_is_Some_2 heap (lo + j)) as [m Hm]; [lia|].
  replace (Z.of_nat (lo + S j) - 1) with (Z.of_nat (lo + j)) by lia. rewrite aget_lookup, Hm. simpl_bind.
  rewrite (todo_S j m Hm) in *. rewrite filter_cons, filter_nil in *.
  destruct (Z.ltb_spec mc m) as [Hlt|Hle].
  { rewrite decide_False in * by lia. rewrite app_nil_r in *.
    destruct (IH j n tree opt) as (j' & tree' & opt' & dn & -> & Hj' & H1 & H2 & H3 & H4); try done; try lia.
    exists j', tree', opt', dn. split_and!; (done || lia). }
  rewrite decide_True in * by lia. rewrite length_app in Hn. cbn [length] in Hn.
  apply NoDup_app in Hnd as (Hnd & Hdis & _). assert (m ∉ todo j) as Hmt by (intros Hin; apply (Hdis m Hin); set_solver).
  assert (0 ≤ m < Z.of_nat (length tree)) as Hmr by (apply Hr; set_solver).
  destruct (aget_in tree m Hmr) as [x Hx]. rewrite Hx. simpl_bind.
  assert (∃ tree1 opt1, length tree1 = length tree ∧ (∀ y, dlz tree1 y = if decide (y = m) then bits else dlz tree y) ∧
    (if negb (dl x =? bits)
     then tree ← tree.[m <- Ct (fc x) (u16 bits)];
       relength W fuel mc heap bits (Z.of_nat n - 1) (Z.of_nat (lo + j)) tree (wrap W (opt + wrap W (bits - dl x) * fc x))
     else relength W fuel mc heap bits (Z.of_nat n - 1) (Z.of_nat (lo + j)) tree opt) =
    relength W fuel mc heap bits (Z.of_nat (n - 1)) (Z.of_nat (lo + j)) tree1 opt1) as (tree1 & opt1 & Hl1 & Hd1 & ->).
  { replace (Z.of_nat n - 1) with (Z.of_nat (n - 1)) by lia. destruct (Z.eqb_spec (dl x) bits) as [Eb|Eb]; cbn [negb].
    - exists tree, opt. split_and!; [done| |done]. intros y. case_decide; [|done]. subst y. by rewrite (dlz_some _ _ _ Hx).
    - rewrite aset_in by done. simpl_bind. do 2 eexists. split_and!; [| |done]; [by rewrite length_insert|].
      intros y. rewrite dlz_insert by done. cbn [dl]. rewrite wrap_small by (unfold in_width; lia).
      repeat case_decide; (done || congruence). }
  destruct (IH j (n - 1)%nat tree1 opt1) as (j' & tree' & opt' & dn & -> & Hj' & H1 & H2 & H3 & H4); try done; try lia.
  { intros y Hy. rewrite Hl1. apply Hr. set_solver. }
  exists j', tree', opt', (dn ++ [m]). split_and!; [done|lia|by rewrite H1, app_assoc|rewrite length_app; simpl; lia|congruence|].
  intros y. rewrite H4, Hd1.
  destruct (decide (y ∈ dn)) as [Hy|Hy].
  - rewrite decide_True; [done|]. apply elem_of_app. by left.
  - destruct (decide (y = m)) as [->|Hne].
    + rewrite decide_True; [done|]. apply elem_of_app. right. by apply list_elem_of_singleton.
    + rewrite decide_False; [done|]. intros [?|?%list_elem_of_singleton]%elem_of_app; done.
Qed.

Lemma relength_all_run cnt b : ∀ j tree opt,
  (b ≤ 15)%nat → length cnt = 16%nat → (∀ c, 0 ≤ c ≤ 15 → 0 ≤ anth cnt c) →
  (lo + j ≤ 573)%nat → zsum (anth cnt) (seqZ 1 (Z.of_nat b)) = Z.of_nat (length (todo j)) →
  NoDup (todo j) → (∀ x, x ∈ todo j → 0 ≤ x < Z.of_nat (length tree)) →
  ∃ tree' opt', relength_all W b mc heap cnt (Z.of_nat (lo + j)) tree opt = Some (tree', opt') ∧
    length tree' = length tree ∧ (∀ x, x ∉ todo j → dlz tree' x = dlz tree x) ∧
    (∀ x, x ∈ todo j → 1 ≤ dlz tree' x ≤ Z.of_nat b) ∧
    ∀ c, 1 ≤ c ≤ Z.of_nat b → zsum (λ x, ind (dlz tree' x = c)) (todo j) = anth cnt c.
Proof.
  induction b as [|b IH]; intros j tree opt Hb Hc Hn Hj Ht Hnd Hr; cbn [relength_all].
  { exists tree, opt. change (zsum _ _) with 0 in Ht. destruct (todo j); [|simpl in Ht; lia].
    split_and!; try done; [|lia]. intros x Hx. set_solver. }
  rewrite (aget_anth cnt) by lia. simpl_bind.
  replace (Z.of_nat (S b)) with (Z.of_nat b + 1) in Ht by lia.
  rewrite seqZ_app, zsum_app in Ht by lia. change (seqZ (1 + Z.of_nat b) 1) with [1 + Z.of_nat b] in Ht.
  rewrite zsum_cons, zsum_nil in Ht. replace (1 + Z.of_nat b) with (Z.of_nat (S b)) in Ht by lia.
  pose proof (Hn (Z.of_nat (S b)) ltac:(lia)) as Hn1.
  pose proof (zsum_nonneg (anth cnt) (seqZ 1 (Z.of_nat b))
    ltac:(intros y Hy%elem_of_seqZ; apply Hn; lia)) as Hn2.
  destruct (relength_run (Z.of_nat (S b)) (Z.to_nat HEAP_SIZE) j (Z.to_nat (anth cnt (Z.of_nat (S b)))) tree opt)
    as (j1 & tree1 & opt1 & dn & E1 & Hj1 & Htd & Hdn & Hl1 & Hd1); try done; try lia.
  { change (Z.to_nat HEAP_SIZE) with 573%nat. lia. }
  rewrite Z2Nat.id in E1 by done. rewrite E1. simpl_bind.
  rewrite Htd in Ht, Hnd, Hr |- *. rewrite length_app in Ht.
  apply NoDup_app in Hnd as (Hnd1 & Hdis & Hnd2).
  destruct (IH j1 tree1 opt1) as (tree2 & opt2 & -> & Hl2 & Hf2 & Hr2 & Hc2); try done; try lia.
  { intros x Hx. rewrite Hl1. apply Hr, elem_of_app. by left. }
  exists tree2, opt2.
  assert (∀ x, x ∈ dn → dlz tree2 x = Z.of_nat (S b)) as Hdone.
  { intros x Hx. rewrite Hf2 by (intros Hin; by apply (Hdis x)). by rewrite Hd1, decide_True. }
  split_and!; [done|congruence| | |].
  - intros x Hx. apply not_elem_of_app in Hx as [Hx1 Hx2]. rewrite Hf2 by done. by rewrite Hd1, decide_False.
  - intros x [Hx|Hx]%elem_of_app; [specialize (Hr2 x Hx); lia|rewrite Hdone by done; lia].
  - intros c Hcr. rewrite zsum_app. destruct (decide (c = Z.of_nat (S b))) as [->|].
    + rewrite (zsum_zero _ (todo j1)) by (intros x Hx; specialize (Hr2 x Hx); apply ind_false; lia).
      rewrite (zsum_ext _ (λ _, 1) dn) by (intros x Hx; apply ind_true; auto). rewrite zsum_const. lia.
    + rewrite Hc2 by lia. rewrite (zsum_zero _ dn); [lia|].
      intros x Hx. apply ind_false. rewrite Hdone by done. lia.
Qed.
End relength.
