(* ===== verification/TreeSpec.v ===== *)
(** [gen_bitlen] and [build_tree] as a whole: the lengths are those of a
    complete prefix code within [max_length], every symbol in use has one, and
    [gen_codes] assigns the canonical codes. *)

From Stdlib Require Import ZArith Lia.
From stdpp Require Import base option numbers list sets.
From S2P Require Import Prelude Sums Deflate Trees TreeFlush TreeBits TreeHeap TreeLens.

Open Scope Z_scope.

(** ** Lengths of leaves, and code lengths *)

Lemma cnt_zsum l c : cnt l c = zsum (λ y, ind (y = c)) l.
Proof.
  induction l as [|x l IH]; [done|]. rewrite cnt_cons, zsum_cons, IH. done.
Qed.

Lemma zsum_fmap {A B} (f : B → Z) (g : A → B) l : zsum f (g <$> l) = zsum (λ x, f (g x)) l.
Proof. induction l as [|x l IH]; [done|]. cbn [fmap list_fmap]. by rewrite !zsum_cons, <-IH. Qed.

Lemma dlz_lens tree (n : nat) : (n ≤ length tree)%nat → dl <$> take n tree = dlz tree <$> seqZ 0 (Z.of_nat n).
Proof.
  intros Hn. apply list_eq. intros i. rewrite !list_lookup_fmap.
  destruct (decide (i < n)%nat).
  - rewrite lookup_take_lt by done. rewrite lookup_seqZ_lt by lia. simpl. unfold dlz.
    rewrite Z.add_0_l, aget_lookup. destruct (lookup_lt_is_Some_2 tree i) as [x ->]; [lia|]. done.
  - rewrite lookup_take_ge by lia. rewrite lookup_seqZ_ge by lia. done.
Qed.

(** What is left of the codes of length [l], as a sum over the symbols. *)
Lemma left_codes_sum lens l :
  left_codes lens l = 2 ^ Z.of_nat l - zsum (λ x, if decide (1 ≤ x ≤ Z.of_nat l) then 2 ^ (Z.of_nat l - x) else 0) lens.
Proof.
  induction l as [|l IH].
  { cbn [left_codes]. rewrite zsum_zero; [done|]. intros x _. rewrite decide_False by lia. done. }
  cbn [left_codes ncodes]. rewrite IH, cnt_zsum, Nat2Z.inj_succ, Z.pow_succ_r by lia.
  assert (zsum (λ x, if decide (1 ≤ x ≤ Z.succ (Z.of_nat l)) then 2 ^ (Z.succ (Z.of_nat l) - x) else 0) lens =
    zsum (λ x, if decide (1 ≤ x ≤ Z.of_nat l) then 2 ^ (Z.of_nat l - x) else 0) lens +
    zsum (λ x, if decide (1 ≤ x ≤ Z.of_nat l) then 2 ^ (Z.of_nat l - x) else 0) lens +
    zsum (λ y, ind (y = Z.succ (Z.of_nat l))) lens) as E; [|lia].
  rewrite <-!zsum_add. apply zsum_ext. intros x _. unfold ind. repeat case_decide; try lia.
  - replace (Z.succ (Z.of_nat l) - x) with (Z.succ (Z.of_nat l - x)) by lia. rewrite Z.pow_succ_r by lia. lia.
  - subst x. rewrite Z.sub_diag. done.
Qed.

(** A code that is complete at some length is not over-subscribed before. *)
Lemma left_codes_below lens d : ∀ l, 0 ≤ left_codes lens (l + d) → 0 ≤ left_codes lens l.
Proof.
  induction d as [|d IH]; intros l; [by rewrite Nat.add_0_r|].
  rewrite Nat.add_succ_r. cbn [left_codes]. pose proof (ncodes_nonneg lens (S (l + d))).
  intros. apply IH. lia.
Qed.

(** The lengths of the leaves [lv], and how many of them there are. *)
Record leaf_lens (E : Z) (M : nat) (lv : list Z) (tree : list ct_data) (cnts : list Z) : Prop := LeafLens {
  ll_size : length cnts = 16%nat;
  ll_leaf : ∀ x, x ∈ lv → 1 ≤ dlz tree x ≤ Z.of_nat M;
  ll_zero : ∀ x, 0 ≤ x < E → x ∉ lv → dlz tree x = 0;
  ll_cnt : ∀ c, 1 ≤ c ≤ Z.of_nat M → anth cnts c = zsum (λ x, ind (dlz tree x = c)) lv;
  ll_other : ∀ c, 0 ≤ c ≤ 15 → c = 0 ∨ Z.of_nat M < c → anth cnts c = 0;
  ll_kraft : zsum (λ x, 2 ^ (Z.of_nat M - dlz tree x)) lv = 2 ^ Z.of_nat M }.

(** A complete code, within the length limit. *)
Record code_ok (M : nat) (lens : list Z) : Prop := CodeOk {
  co_range : Forall (λ x, 0 ≤ x ≤ Z.of_nat M) lens;
  co_over : not_over lens;
  co_left : left_codes lens 15 = 0 }.

Section leaves.
Context (E mc : Z) (M : nat) (lv : list Z) (tree : list ct_data) (cnts : list Z).
Hypotheses (HM : (1 ≤ M ≤ 15)%nat) (Hnd : NoDup lv) (Hlv : Forall (λ x, 0 ≤ x ≤ mc) lv)
  (Hmc : 0 ≤ mc < E) (Ht : E ≤ Z.of_nat (length tree)) (Hll : leaf_lens E M lv tree cnts).

Let lens := dl <$> take (Z.to_nat (mc + 1)) tree.

Lemma lens_sum (f : Z → Z) : f 0 = 0 → zsum f lens = zsum (λ x, f (dlz tree x)) lv.
Proof using All.
  intros Hf. unfold lens. rewrite dlz_lens by lia. rewrite zsum_fmap, Z2Nat.id by lia.
  rewrite Forall_forall in Hlv.
  assert (lv ⊆+ seqZ 0 (mc + 1)) as [rest Hp]%submseteq_Permutation.
  { apply NoDup_submseteq; [done|]. intros x Hx. apply elem_of_seqZ. specialize (Hlv x Hx). lia. }
  pose proof (NoDup_seqZ 0 (mc + 1)) as Hn. rewrite Hp in Hn |- *. rewrite zsum_app.
  rewrite (zsum_zero _ rest); [lia|]. intros x Hx.
  apply NoDup_app in Hn as (_ & Hdis & _).
  assert (x ∈ seqZ 0 (mc + 1)) as Hxs%elem_of_seqZ by (rewrite Hp; apply elem_of_app; by right).
  rewrite (ll_zero _ _ _ _ _ Hll x); [done|lia|]. intros Hin. by apply (Hdis x).
Qed.

Lemma lens_ncodes l : (l ≤ 15)%nat → aget cnts (Z.of_nat l) = Some (ncodes lens l).
Proof using All.
  intros Hl. pose proof Hll as [Hs Hleaf Hz Hc Ho Hk]. rewrite aget_anth by lia. f_equal.
  destruct l as [|l]; [cbn [ncodes]; apply Ho; lia|]. cbn [ncodes].
  rewrite cnt_zsum, lens_sum by (apply ind_false; lia).
  destruct (decide (Z.of_nat (S l) ≤ Z.of_nat M)); [apply Hc; lia|].
  rewrite Ho by lia. symmetry. apply zsum_zero. intros x Hx. apply ind_false. specialize (Hleaf x Hx). lia.
Qed.

Lemma lens_range : Forall (λ x, 0 ≤ x ≤ Z.of_nat M) lens.
Proof using All.
  unfold lens. rewrite dlz_lens by lia. apply Forall_fmap, Forall_forall. intros x Hx%elem_of_seqZ. simpl.
  destruct (decide (x ∈ lv)) as [Hin|Hin].
  - pose proof (ll_leaf _ _ _ _ _ Hll x Hin). lia.
  - rewrite (ll_zero _ _ _ _ _ Hll x); [lia|lia|done].
Qed.

Lemma lens_left_max : left_codes lens M = 0.
Proof using All.
  rewrite left_codes_sum, lens_sum by (rewrite decide_False by lia; done).
  rewrite (zsum_ext _ (λ x, 2 ^ (Z.of_nat M - dlz tree x))).
  - rewrite (ll_kraft _ _ _ _ _ Hll). lia.
  - intros x Hx. rewrite decide_True; [done|]. exact (ll_leaf _ _ _ _ _ Hll x Hx).
Qed.

Lemma left_codes_above d : (M + d ≤ 15)%nat → left_codes lens (M + d) = 0.
Proof using All.
  induction d as [|d IH]; intros Hd; [rewrite Nat.add_0_r; apply lens_left_max|].
  rewrite Nat.add_succ_r. cbn [left_codes]. rewrite IH by lia.
  pose proof (lens_ncodes (S (M + d)) ltac:(lia)) as Hn. rewrite aget_anth in Hn by (pose proof (ll_size _ _ _ _ _ Hll); lia).
  rewrite (ll_other _ _ _ _ _ Hll) in Hn by lia. apply (inj Some) in Hn. lia.
Qed.

Lemma leaf_lens_code : code_ok M lens.
Proof using All.
  pose proof (left_codes_above (15 - M) ltac:(lia)) as Hl. replace (M + (15 - M))%nat with 15%nat in Hl by lia.
  split; [apply lens_range| |done].
  intros l Hl15. apply (left_codes_below lens (15 - l) l). replace (l + (15 - l))%nat with 15%nat by lia. lia.
Qed.
End leaves.

(** ** [gen_bitlen] *)

(** The descriptor of a tree fits the tree: as in [static_l_desc] and the
    others. *)
Record desc_ok (E : Z) (M : nat) (sd : static_tree_desc) : Prop := DescOk {
  do_elems : sd_elems sd = E;
  do_range : 3 ≤ E ≤ 286;
  do_max : sd_max_length sd = Z.of_nat M ∧ (2 ≤ M ≤ 15)%nat ∧ E < 2 ^ Z.of_nat M;
  do_extra : 0 ≤ sd_base sd ∧ E - sd_base sd ≤ Z.of_nat (length (sd_extra sd));
  do_stree : stree_ok E (sd_tree sd) }.

Lemma zero_counts (l : list Z) : length l = 16%nat →
  ∃ c, for_up (Z.to_nat (MAX_BITS + 1)) 0 (λ bits cnt, cnt.[bits <- 0]) l = Some c ∧
    length c = 16%nat ∧ ∀ b, 0 ≤ b ≤ 15 → anth c b = 0.
Proof.
  intros Hl. apply succeeds_elim. eapply succeeds_mono.
  - apply (for_up_total (λ n c, length c = 16%nat ∧ ∀ b, 0 ≤ b < n → anth c b = 0)).
    + intros j c Hj [Hc Hz]. change (Z.of_nat (Z.to_nat (MAX_BITS + 1))) with 16 in Hj.
      rewrite aset_in by lia. cbn [succeeds]. split; [by rewrite length_insert|].
      intros b Hb. rewrite anth_insert by lia. case_decide; [done|]. apply Hz. lia.
    + split; [done|lia].
  - intros c [Hc Hz]. split; [done|]. intros b Hb. apply Hz. change (0 + _) with 16. lia.
Qed.

(** The root is the last node made. *)
Lemma merges_root E lv t r log : merges E lv (S t) [r] log → r = E + Z.of_nat t.
Proof.
  intros Hm. inversion Hm as [|t0 H R n m log0 H' Hmt Hp Hp']; subst.
  symmetry in Hp'. apply Permutation_singleton_r in Hp'. congruence.
Qed.

Section gen_bitlen.
Context (W E mc : Z) (M : nat) (sd : static_tree_desc) (lv : list Z).
Hypotheses (Hsd : desc_ok E M sd) (Hnd : NoDup lv) (Hlv : Forall (λ x, 0 ≤ x ≤ mc) lv)
  (Hmc : 0 ≤ mc < E).

Lemma lv_length :
  Z.of_nat (length lv) ≤ E ∧ Z.of_nat (length lv) ≤ 286 ∧ Z.of_nat (length lv) < 2 ^ Z.of_nat M.
Proof using All.
  destruct Hsd as [_ Hr [_ [_ Hp]] _ _].
  assert (Forall (λ x, 0 ≤ x < E) lv) as Hf by (eapply Forall_impl; [exact Hlv|simpl; lia]).
  pose proof (leaves_bound E lv Hnd Hf). lia.
Qed.

Lemma spread_cnt F b c :
  spread E (Z.of_nat M) lv 0 F [] b → 0 ≤ c ≤ 15 →
  anth (bl_cnt b) c = zsum (λ x, ind (dlz (bl_tree_ b) x = c)) lv ∧
  ∀ x, x ∈ lv → 1 ≤ dlz (bl_tree_ b) x ≤ Z.of_nat M.
Proof using All.
  intros [Hm _ _ _ Hlen Hleaf _ _ Hc _] Hcr. assert (F ≡ₚ lv) as HF by (by inversion Hm).
  rewrite Forall_forall in Hlv. split.
  - rewrite Hc by done. rewrite HF. apply zsum_ext. intros x Hx. apply ind_iff.
    specialize (Hlv x Hx). split; [tauto|]. intros ->. split; [lia|done].
  - intros x Hx. assert (x ∈ F) as HxF by (by rewrite HF). specialize (Hlv x Hx).
    split; [apply Hleaf; [done|lia]|apply Hlen; done].
Qed.

(** The counts after the first pass. *)
Lemma spread_counts F b :
  spread E (Z.of_nat M) lv 0 F [] b →
  ∃ k, bl_overflow b = 2 * k ∧ 0 ≤ k ∧ counts (Z.of_nat M) (Z.of_nat (length lv)) k (bl_cnt b).
Proof using All.
  intros Hsp. pose proof (spread_cnt F b 0 Hsp ltac:(lia)) as [_ Hleaf].
  assert (∀ c, 0 ≤ c ≤ 15 → anth (bl_cnt b) c = zsum (λ x, ind (dlz (bl_tree_ b) x = c)) lv) as Hc
    by (intros c Hcr; apply (spread_cnt F b c Hsp Hcr)).
  destruct Hsd as [_ _ [_ [HM _]] _ _].
  destruct Hsp as [Hm _ _ Hs _ _ Hk (k & Hk0 & Hov & Hlast) _ _]. assert (F ≡ₚ lv) as HF by (by inversion Hm).
  rewrite HF in Hk, Hlast. exists k. split_and!; [done..|].
  assert (∀ x, x ∈ lv → dlz (bl_tree_ b) x ∈ seqZ 1 (Z.of_nat M)) as Hv.
  { intros x Hx. apply elem_of_seqZ. specialize (Hleaf x Hx). lia. }
  assert (∀ g, zsum (λ x, g (dlz (bl_tree_ b) x)) lv = zsum (λ c, anth (bl_cnt b) c * g c) (seqZ 1 (Z.of_nat M))) as Hby.
  { intros g. rewrite (zsum_by_value _ g lv (seqZ 1 (Z.of_nat M))) by (done || apply NoDup_seqZ).
    apply zsum_ext. intros c Hc'%elem_of_seqZ. rewrite Hc by lia. lia. }
  split; [done| | | | |].
  - intros c Hcr. rewrite Hc by done. apply zsum_nonneg. intros. apply ind_range.
  - intros c Hcr Hz. rewrite Hc by done. apply zsum_zero. intros x Hx. apply ind_false. specialize (Hleaf x Hx). lia.
  - pose proof (Hby (λ _, 1)) as H1. cbn beta in H1. rewrite zsum_const in H1.
    rewrite (zsum_ext _ (anth (bl_cnt b))) in H1 by (intros; lia). lia.
  - pose proof (Hby (λ l, 2 ^ (Z.of_nat M - l))) as H1. cbn beta in H1. lia.
  - rewrite Hc by lia. tauto.
Qed.

(** The leaves among the nodes taken out of the heap. *)
Lemma log_leaves T r log :
  merges E lv (S T) [r] log → filter (λ x, x ≤ mc) log ≡ₚ lv.
Proof using All.
  intros Hm. pose proof (merges_all _ _ _ _ _ Hm) as Hp. rewrite (merges_root _ _ _ _ _ Hm) in Hp.
  apply (filter_Permutation (λ x, x ≤ mc)) in Hp.
  rewrite !filter_app in Hp. rewrite filter_cons, filter_nil, decide_False in Hp by lia. cbn [app] in Hp.
  rewrite Hp. rewrite (filter_keep (λ x, x ≤ mc) lv).
  - assert (filter (λ x, x ≤ mc) (seqZ E (Z.of_nat (S T))) = []) as ->; [|by rewrite app_nil_r].
    apply filter_drop, Forall_forall. intros x Hx%elem_of_seqZ. lia.
  - eapply Forall_impl; [exact Hlv|]. simpl. lia.
Qed.

(** The state in which [gen_bitlen] starts: the merges are done, the root is in
    front of the log. *)
Record merged_root (T : nat) (r : Z) (log : list Z) (s : heapst) (tree : list ct_data) : Prop := MergedRoot {
  mr_sizes : sizes E s tree;
  mr_max : heap_max s = 573 - 2 * Z.of_nat (S T) - 1 ∧ (S T < length lv)%nat;
  mr_log : drop (573 - 2 * S T - 1) (heap s) = r :: log;
  mr_merges : merges E lv (S T) [r] log;
  mr_dads : dads tree E (S T) log;
  mr_zero : ∀ x, 0 ≤ x < E → x ∉ lv → dlz tree x = 0 }.

(** The first pass starts at the root. *)
Lemma spread_root T r log s tree c x opt stat :
  merged_root T r log s tree → aget tree r = Some x →
  length c = 16%nat → (∀ b, 0 ≤ b ≤ 15 → anth c b = 0) →
  spread E (Z.of_nat M) lv (S T) [r] log
    (Bitlen (<[Z.to_nat r := Ct (fc x) 0]> tree) c 0 opt stat).
Proof using All.
  intros [Hsz _ _ Hm Hd Hz] Hx Hc Hcz. pose proof (aget_range _ _ _ Hx) as Hr.
  pose proof (merges_root _ _ _ _ _ Hm) as Er. destruct Hsz as [HE HT _ _ _].
  assert (Forall (λ x, 0 ≤ x < E) lv) as Hf by (eapply Forall_impl; [exact Hlv|simpl; lia]).
  destruct (merges_nodes _ _ _ _ _ Hnd Hf ltac:(lia) Hm) as (Hndl & _ & _).
  assert (r ∉ log) as Hrl by (apply NoDup_app in Hndl as (_ & Hdis & _); apply Hdis; by apply list_elem_of_singleton).
  assert (dlz (<[Z.to_nat r := Ct (fc x) 0]> tree) r = 0) as E0 by (rewrite dlz_insert, decide_True by done; done).
  split; cbn [bl_tree_ bl_cnt bl_overflow].
  - done.
  - eapply dads_frame; [exact Hd|]. intros y Hy. rewrite dlz_insert by done. rewrite decide_False; [done|]. by intros ->.
  - rewrite length_insert. lia.
  - done.
  - intros y ->%list_elem_of_singleton. rewrite E0. lia.
  - intros y ->%list_elem_of_singleton Hlt. lia.
  - rewrite zsum_cons, zsum_nil, E0. rewrite Z.sub_0_r. lia.
  - exists 0. split_and!; [lia|lia|by left].
  - intros l Hl. rewrite Hcz, zsum_cons, zsum_nil by done. rewrite ind_false by lia. done.
  - intros y Hy Hyl. rewrite dlz_insert, decide_False by (done || lia). by apply Hz.
Qed.

Lemma gen_bitlen_run T r log s tree opt stat :
  merged_root T r log s tree →
  ∃ s' tree' opt' stat', gen_bitlen W s sd mc tree opt stat = Some (s', tree', opt', stat') ∧
    sizes E s' tree' ∧ leaf_lens E M lv tree' (bl_count s').
Proof using All.
  intros Hmr. pose proof Hmr as [Hsz [Hmax HT] Hlog Hm _ _]. destruct Hsz as [HE HTr HH HD HC].
  pose proof lv_length as (HlE & HlN & HlM). destruct Hsd as [Eel _ [EM [HM Hp]] [Hb1 Hb2] Hst].
  unfold gen_bitlen. destruct (zero_counts (bl_count s) HC) as (c & -> & Hc & Hcz). simpl_bind.
  destruct (aget_drop_cons _ _ _ _ Hlog) as [Hroot Hlog'].
  rewrite Hmax. replace (573 - 2 * Z.of_nat (S T) - 1) with (Z.of_nat (573 - 2 * S T - 1)) by lia.
  rewrite Hroot. simpl_bind. pose proof (merges_root _ _ _ _ _ Hm) as Er.
  destruct (aget_in tree r ltac:(lia)) as [x Hx]. rewrite Hx. simpl_bind.
  rewrite (aset_in tree) by lia. simpl_bind.
  pose proof (spread_root T r log s tree c x opt stat Hmr Hx Hc Hcz) as Hsp.
  destruct (spread_all W E (Z.of_nat M) mc sd lv (heap s) HE ltac:(lia) Hnd Hlv ltac:(lia) EM
    ltac:(intros; lia) Hst (S T) [r] log _ Hsp) as (b & F & Eb & Hb).
  { rewrite <-Hlog'. f_equal. lia. } { lia. }
  replace (Z.to_nat (HEAP_SIZE - (Z.of_nat (573 - 2 * S T - 1) + 1))) with (2 * S T)%nat by (change HEAP_SIZE with 573; lia).
  replace (Z.of_nat (573 - 2 * S T - 1) + 1) with (573 - 2 * Z.of_nat (S T)) by lia.
  rewrite Eb. simpl_bind. clear Eb Hsp.
  destruct (spread_counts F b Hb) as (k & Ek & Hk & Hct).
  destruct (spread_cnt F b 0 Hb ltac:(lia)) as [_ Hleaf].
  destruct (Z.eqb_spec (bl_overflow b) 0) as [E0|E0].
  { do 4 eexists. split; [done|]. assert (F ≡ₚ lv) as HF by (pose proof (sp_merges _ _ _ _ _ _ _ Hb) as HmF; by inversion HmF).
    split; [split; cbn [heap depth bl_count]; try done; [exact (sp_size _ _ _ _ _ _ _ Hb)|exact (ct_size _ _ _ _ Hct)]|].
    split; cbn [bl_count]; [exact (ct_size _ _ _ _ Hct)|done|exact (sp_zero _ _ _ _ _ _ _ Hb)| |exact (ct_range _ _ _ _ Hct)|].
    - intros l Hl. apply (spread_cnt F b l Hb). lia.
    - pose proof (sp_kraft _ _ _ _ _ _ _ Hb) as Hkr. rewrite HF in Hkr. lia. }
  rewrite EM, Ek. destruct (fix_overflow_run (Z.of_nat M) (Z.of_nat (length lv)) ltac:(lia) HlM HlN
    (Z.to_nat (2 * k)) k (bl_cnt b) Hct ltac:(lia) ltac:(lia)) as (c1 & -> & Hct1). simpl_bind.
  pose proof (log_leaves T r log Hm) as Hll. pose proof Hct1 as [C1 C2 C3 C4 C5 _].
  pose proof (merges_length _ _ _ _ _ Hm) as [_ Hlen].
  assert (todo mc (heap s) (573 - 2 * S T) (2 * S T) ≡ₚ lv) as Htodo.
  { unfold todo. replace (573 - 2 * S T)%nat with (S (573 - 2 * S T - 1)) by lia. rewrite Hlog', take_ge by lia. done. }
  assert (∀ y, y ∈ lv → 0 ≤ y < Z.of_nat (length (bl_tree_ b))) as Hlt.
  { intros y Hy. rewrite Forall_forall in Hlv. specialize (Hlv y Hy).
    pose proof (sp_size _ _ _ _ _ _ _ Hb). lia. }
  destruct (relength_all_run W mc (heap s) (573 - 2 * S T) HH ltac:(lia) c1 M (2 * S T) (bl_tree_ b) (bl_opt b))
    as (tree' & opt' & Er' & Hl' & Hf' & Hr' & Hc'); try done.
  { lia. } { lia. } { rewrite C4. by rewrite Htodo. } { by rewrite Htodo. }
  { intros y. rewrite Htodo. apply Hlt. }
  replace (Z.of_nat (573 - 2 * S T + 2 * S T)) with HEAP_SIZE in Er' by (change HEAP_SIZE with 573; lia).
  rewrite Nat2Z.id. rewrite Er'. simpl_bind.
  do 4 eexists. split; [done|].
  split; [split; cbn [heap depth bl_count]; try done; rewrite Hl'; exact (sp_size _ _ _ _ _ _ _ Hb)|].
  assert (∀ y, y ∈ lv → 1 ≤ dlz tree' y ≤ Z.of_nat M) as Hleaf' by (intros y Hy; apply Hr'; by rewrite Htodo).
  assert (∀ l, 1 ≤ l ≤ Z.of_nat M → anth c1 l = zsum (λ x, ind (dlz tree' x = l)) lv) as Hc2
    by (intros l Hl; rewrite <-Hc' by done; by rewrite Htodo).
  split; cbn [bl_count]; [done|done| |done|done|].
  - intros y Hy Hyl. rewrite Hf' by (by rewrite Htodo). by apply (sp_zero _ _ _ _ _ _ _ Hb).
  - rewrite (zsum_by_value (dlz tree') (λ l, 2 ^ (Z.of_nat M - l)) lv (seqZ 1 (Z.of_nat M)) (NoDup_seqZ _ _)).
    + rewrite <-(Z.add_0_r (2 ^ Z.of_nat M)), <-C5. apply zsum_ext. intros l Hl%elem_of_seqZ. rewrite Hc2 by lia. lia.
    + intros y Hy. apply elem_of_seqZ. specialize (Hleaf' y Hy). lia.
Qed.
End gen_bitlen.

(** ** [build_tree] *)

(** What the later phases of [_tr_flush_block] rely on. *)
Record tree_ok (E : Z) (M : nat) (tree0 tree : list ct_data) (mc : Z) : Prop := TreeOk {
  tk_max : 1 ≤ mc < E;
  tk_size : length tree = length tree0;
  tk_lens : code_ok M (dl <$> take (Z.to_nat (mc + 1)) tree);
  tk_codes : tree_codes tree (dl <$> take (Z.to_nat (mc + 1)) tree);
  tk_used : ∀ x, 0 ≤ x < E → fcz tree0 x ≠ 0 → x ≤ mc ∧ dlz tree x ≠ 0;
  tk_last : dlz tree mc ≠ 0;
  tk_beyond : ∀ x, mc < x < E → dlz tree x = 0 }.

Definition finish_tree (W : Z) (s : heapst) (sd : static_tree_desc) (b : building) (opt stat : Z)
  : option built :=
  '(s, tree) ← combine_all (Z.to_nat (heap_len s)) s (b_tree b) (sd_elems sd);
  root ← (heap s).[SMALLEST];
  h ← (heap s).[heap_max s - 1 <- root];
  '(s, tree, opt, stat) ←
    gen_bitlen W (set_heap s h (heap_len s) (heap_max s - 1)) sd (b_max_code b) tree opt stat;
  tree ← gen_codes tree (b_max_code b) (bl_count s);
  Some (Built s tree (b_max_code b) opt stat).

Lemma build_tree_phases W s sd tree opt stat :
  build_tree W s sd tree opt stat =
  ('(s, b, opt, stat) ← start_tree W s sd tree opt stat; finish_tree W s sd b opt stat).
Proof.
  unfold build_tree, start_tree, finish_tree.
  destruct (for_up _ _ _ _) as [b|]; [|done]. simpl_bind.
  destruct (force_codes _ _ _ _ _ _) as [[[b1 o1] s1]|]; [|done]. simpl_bind.
  by destruct (heapify _ _ _).
Qed.

(** The root goes in front of the log. *)
Lemma root_in_front E lv T r log s tree :
  merged E lv (S T) [r] log s tree → (S T < length lv)%nat →
  ∃ h, aget (heap s) SMALLEST = Some r ∧ aset (heap s) (heap_max s - 1) r = Some h ∧
    merged_root E lv T r log (set_heap s h (heap_len s) (heap_max s - 1)) tree.
Proof.
  intros Hmg HT. destruct (merged_nodes _ _ _ _ _ _ _ Hmg) as (_ & _ & _ & HlE).
  destruct Hmg as [[HE HTr HH HD HC] _ Hl Hp Hmax Hlog Hm Hd Hz].
  assert (aget (heap s) SMALLEST = Some r) as Hr.
  { destruct (heap_part_first 1 (heap s) 0) as (a & R & Ha & HR & _); [lia|lia|].
    cbn [length] in Hp. rewrite HR in Hp. symmetry in Hp. apply Permutation_singleton_l in Hp.
    injection Hp as -> _. done. }
  rewrite (aset_in (heap s)) by lia. eexists. split_and!; [done..|].
  split; cbn [heap heap_max heap_len set_heap depth bl_count].
  - split; unfold set_heap; cbn [heap depth bl_count]; rewrite ?length_insert; done.
  - lia.
  - rewrite Hmax. replace (Z.to_nat (573 - 2 * Z.of_nat (S T) - 1)) with (573 - 2 * S T - 1)%nat by lia.
    rewrite (drop_S _ r) by (apply list_lookup_insert_eq; lia). f_equal. rewrite drop_insert_lt by lia.
    rewrite <-Hlog. f_equal. lia.
  - done.
  - done.
  - done.
Qed.

Lemma length_lens tree mc : 0 ≤ mc < Z.of_nat (length tree) →
  Z.of_nat (length (dl <$> take (Z.to_nat (mc + 1)) tree)) = mc + 1.
Proof. intros H. rewrite length_fmap, length_take. lia. Qed.

Lemma code_ok_lengths M lens : (M ≤ 15)%nat → code_ok M lens → lengths_ok lens.
Proof. intros HM [Hr _ _]. eapply Forall_impl; [exact Hr|]. simpl. lia. Qed.

Lemma dlz_fmap tree tree' : dl <$> tree' = dl <$> tree → ∀ x, dlz tree' x = dlz tree x.
Proof.
  intros H x. unfold dlz, aget. destruct (Z.leb_spec 0 x); [|done].
  rewrite <-!list_lookup_fmap. by rewrite H.
Qed.

Lemma build_tree_run W E M s sd tree opt stat :
  desc_ok E M sd → sizes E s tree →
  ∃ b, build_tree W s sd tree opt stat = Some b ∧
    sizes E (bt_heap b) (bt_tree b) ∧ tree_ok E M tree (bt_tree b) (bt_max_code b).
Proof.
  intros Hdo Hsz. pose proof Hdo as [Eel HE [EM [HM Hp]] _ Hst]. rewrite build_tree_phases.
  destruct (start_tree_run W s sd tree opt stat) as
    (s1 & b & opt1 & stat1 & lv & -> & Hmg & Hl2 & Hf & Hmc & Hu & Hmc1 & Hlast); [by rewrite Eel..|].
  rewrite Eel in *. simpl_bind. unfold finish_tree. rewrite Eel.
  assert (0 ≤ b_max_code b < E) as Hmcr by lia. pose proof (mg_leaves _ _ _ _ _ _ _ Hmg) as [Hnd _].
  pose proof (sz_tree _ _ _ (mg_sizes _ _ _ _ _ _ _ Hmg)) as Hts.
  destruct (combine_all_run E lv (Z.to_nat (heap_len s1)) 0 lv [] s1 (b_tree b) Hmg Hl2) as
    (s2 & tree2 & r & log & Ec & Hmg2); [rewrite (mg_len _ _ _ _ _ _ _ Hmg); lia|].
  rewrite Z.add_0_r in Ec. rewrite Ec. simpl_bind.
  replace (length lv - 1)%nat with (S (length lv - 2)) in Hmg2 by lia.
  destruct (root_in_front _ _ _ _ _ _ _ Hmg2 ltac:(lia)) as (h & -> & Eh & Hmr).
  simpl_bind. rewrite Eh. simpl_bind.
  destruct (gen_bitlen_run W E (b_max_code b) M sd lv Hdo Hnd Hf Hmcr _ r log _ tree2 opt1 stat1 Hmr)
    as (s3 & tree3 & opt3 & stat3 & -> & Hsz3 & Hll). simpl_bind.
  destruct Hsz3 as [HE3 HT3 HH3 HD3 HC3].
  set (lens := dl <$> take (Z.to_nat (b_max_code b + 1)) tree3).
  pose proof (leaf_lens_code E (b_max_code b) M lv tree3 (bl_count s3) ltac:(lia) Hnd Hf Hmcr ltac:(lia) Hll) as Hco.
  fold lens in Hco. pose proof (length_lens tree3 (b_max_code b) ltac:(lia)) as Hlen. fold lens in Hlen.
  assert (lens = dl <$> take (length lens) tree3) as Hlens.
  { unfold lens at 1. f_equal. f_equal. lia. }
  destruct (succeeds_elim _ _ (gen_codes_run lens (code_ok_lengths M lens ltac:(lia) Hco) (co_over _ _ Hco)
    tree3 (bl_count s3) Hlens HC3 (lens_ncodes E (b_max_code b) M lv tree3 (bl_count s3) ltac:(lia) Hnd Hf Hmcr ltac:(lia) Hll)))
    as (tree4 & Eg & Htc & Hdl).
  replace (Z.of_nat (length lens) - 1) with (b_max_code b) in Eg by lia. rewrite Eg. simpl_bind.
  eexists. split; [done|]. cbn [bt_heap bt_tree bt_max_code].
  assert (length tree4 = length tree3) as Hl4 by (rewrite <-(length_fmap dl tree4), Hdl, length_fmap; done).
  split; [split; (done || lia)|].
  assert (dl <$> take (Z.to_nat (b_max_code b + 1)) tree4 = lens) as Elens
    by (unfold lens; by rewrite !fmap_take, Hdl).
  pose proof (dlz_fmap _ _ Hdl) as Hdlz. destruct Hll as [_ Hleaf Hzero _ _ _]. rewrite Forall_forall in Hf.
  split; rewrite ?Elens; try done.
  - destruct Hsz. lia.
  - intros x Hx Hfx. specialize (Hu x Hx Hfx). split; [apply Hf; done|]. rewrite Hdlz. specialize (Hleaf x Hu). lia.
  - rewrite Hdlz. specialize (Hleaf _ Hlast). lia.
  - intros x Hx. rewrite Hdlz. apply Hzero; [lia|]. intros Hin. specialize (Hf x Hin). lia.
Qed.
