(* ===== verification/TreeRle.v ===== *)
(** The run-length coding of the code lengths: [scan_tree] counts the symbols
    that [send_tree] sends, and what [send_tree] sends is the encoding of the
    lengths of RFC 1951, 3.2.7. *)

From Stdlib Require Import ZArith Lia.
From stdpp Require Import base option numbers list sets.
From S2P Require Import Prelude Deflate Trees TreeFlush TreeBits TreeSend TreeCompress TreeHeap.
From S2P Require Import Sums TreeSpec.

Open Scope Z_scope.

(** ** Senders *)

(** [f] sends the bits [bs] whenever they fit. *)
Definition sends (W : Z) (f : outbuf → option outbuf) (bs : list bool) : Prop :=
  ∀ o, out_wf W o → room o (Z.of_nat (length bs)) → ∃ o', f o = Some o' ∧ emits W o bs o'.

Section sends.
Context (W : Z).

Lemma sends_nil : sends W Some [].
Proof. intros o Hwf _. exists o. split; [done|]. by apply emits_refl. Qed.

Lemma sends_bind f g b1 b2 : sends W f b1 → sends W g b2 → sends W (λ o, o ← f o; g o) (b1 ++ b2).
Proof.
  intros Hf Hg o Hwf Hr. rewrite length_app, Nat2Z.inj_add in Hr.
  destruct (Hf o Hwf) as (o1 & -> & E1); [eapply room_mono; [|done]; lia|]. simpl_bind.
  destruct (Hg o1 (em_wf _ _ _ _ E1)) as (o2 & E & E2); [by eapply room_emits|].
  exists o2. split; [done|]. by eapply emits_trans.
Qed.

Lemma sends_bits value len :
  0 ≤ len ≤ 16 → in_width len value → sends W (λ o, send_bits W o value len) (bits_of (Z.to_nat len) value).
Proof.
  intros Hl Hv o Hwf Hr. rewrite length_bits_of, Z2Nat.id in Hr by lia. by apply send_bits_run.
Qed.

Lemma sends_sym tree lens c :
  0 ≤ c → tree_codes tree lens → has_code lens (Z.to_nat c) →
  sends W (λ o, send_code W o c tree) (sym_bits lens (Z.to_nat c)).
Proof.
  intros Hc Ht Hh o Hwf Hr. pose proof (send_sym W tree lens (Z.to_nat c) o Ht Hh Hwf Hr) as H.
  by rewrite Z2Nat.id in H by done.
Qed.

Lemma sends_value tree lens c x e :
  0 ≤ c → tree_codes tree lens → has_code lens (Z.to_nat c) → 0 ≤ x ≤ 16 → in_width x e →
  sends W (λ o, o ← send_code W o c tree; send_bits W o e x) (value_bits lens (Z.to_nat c) x e).
Proof. intros. unfold value_bits. apply sends_bind; [by apply sends_sym|by apply sends_bits]. Qed.

Lemma sends_for_up body (f : nat → list bool) n : ∀ i : nat,
  (∀ j, (i ≤ j < i + n)%nat → sends W (body (Z.of_nat j)) (f j)) →
  sends W (λ o, for_up n (Z.of_nat i) body o) (seq i n ≫= f).
Proof.
  induction n as [|n IH]; intros i Hb; [apply sends_nil|]. cbn [for_up seq].
  change ((i :: seq (S i) n) ≫= f) with (f i ++ (seq (S i) n ≫= f)).
  replace (Z.of_nat i + 1) with (Z.of_nat (S i)) by lia.
  apply (sends_bind (body (Z.of_nat i)) (λ o, for_up n (Z.of_nat (S i)) body o)); [apply Hb; lia|].
  apply IH. intros j Hj. apply Hb. lia.
Qed.
End sends.

(** ** The symbols of a run *)

(** A symbol, and the number and value of its extra bits. *)
Definition op : Type := Z * Z * Z.

Definition run_ops (r : rle) (curlen count : Z) : list op :=
  if count <? min_count r then replicate (Z.to_nat count) (curlen, 0, 0)
  else if negb (curlen =? 0) then
    if negb (curlen =? prevlen r) then [(curlen, 0, 0); (REP_3_6, 2, count - 1 - 3)]
    else [(REP_3_6, 2, count - 3)]
  else if count <=? 10 then [(REPZ_3_10, 3, count - 3)]
  else [(REPZ_11_138, 7, count - 11)].

(** The symbols of the lengths from [n] on, [k] of them. *)
Fixpoint rle_ops (k : nat) (n : Z) (r : rle) (tree : list ct_data) : list op :=
  match k with
  | O => []
  | S k' =>
      let next := dlz tree (n + 1) in
      if (count r + 1 <? max_count r) && (nextlen r =? next)
      then rle_ops k' (n + 1) (Rle (prevlen r) next (count r + 1) (max_count r) (min_count r)) tree
      else run_ops r (nextlen r) (count r + 1) ++ rle_ops k' (n + 1) (rle_reset (nextlen r) next) tree
  end.

Definition op_bits (C : list Z) (p : op) : list bool := value_bits C (Z.to_nat p.1.1) p.1.2 p.2.

Definition ops_bits (C : list Z) (ops : list op) : list bool := ops ≫= op_bits C.

Lemma ops_bits_app C a b : ops_bits C (a ++ b) = ops_bits C a ++ ops_bits C b.
Proof. apply bind_app. Qed.

Lemma ops_bits_cons C p b : ops_bits C (p :: b) = op_bits C p ++ ops_bits C b.
Proof. done. Qed.

(** The limits of the next run are determined by the lengths. *)
Record rle_ok (r : rle) : Prop := RleOk {
  ro_next : 0 ≤ nextlen r ≤ 15;
  ro_count : 0 ≤ count r < max_count r;
  ro_limits : nextlen r = 0 ∧ max_count r = 138 ∧ min_count r = 3 ∨
              nextlen r ≠ 0 ∧ nextlen r = prevlen r ∧ max_count r = 6 ∧ min_count r = 3 ∨
              nextlen r ≠ 0 ∧ nextlen r ≠ prevlen r ∧ max_count r = 7 ∧ min_count r = 4 }.

Lemma rle_reset_ok curlen next : 0 ≤ next ≤ 15 → rle_ok (rle_reset curlen next).
Proof.
  intros Hn. unfold rle_reset. destruct (Z.eqb_spec next 0); [split; cbn; lia|].
  destruct (Z.eqb_spec curlen next); split; cbn; lia.
Qed.

Lemma rle_reset_fields curlen next :
  prevlen (rle_reset curlen next) = curlen ∧ nextlen (rle_reset curlen next) = next ∧
  count (rle_reset curlen next) = 0.
Proof. unfold rle_reset. repeat case_match; done. Qed.

(** ** Sending a run *)

Section send.
Context (W : Z) (bl : list ct_data) (C : list Z).
Hypothesis (HC : tree_codes bl C).

Definition coded_ops (ops : list op) : Prop := Forall (λ p : op, has_code C (Z.to_nat p.1.1)) ops.

Lemma send_repeat_run n curlen :
  0 ≤ curlen → (n ≠ O → has_code C (Z.to_nat curlen)) →
  sends W (λ o, send_repeat W n o curlen bl) (ops_bits C (replicate n (curlen, 0, 0))).
Proof using HC.
  intros Hc Hh. induction n as [|n IH]; cbn [send_repeat replicate]; [apply sends_nil|].
  rewrite ops_bits_cons. apply sends_bind; [|apply IH; auto].
  unfold op_bits, value_bits. cbn. rewrite app_nil_r. apply sends_sym; auto.
Qed.

Lemma send_count_run r curlen count :
  rle_ok r → curlen = nextlen r → 1 ≤ count ≤ max_count r → coded_ops (run_ops r curlen count) →
  sends W (λ o, send_count W o bl r curlen count) (ops_bits C (run_ops r curlen count)).
Proof using HC.
  intros [Hn Hct Hlim] -> Hcount Hco. unfold send_count, run_ops, coded_ops in *.
  destruct (Z.ltb_spec count (min_count r)) as [Hmin|Hmin].
  { apply send_repeat_run; [lia|]. intros Hz.
    eapply Forall_lookup_1 in Hco; [|apply (lookup_replicate_2 _ _ 0); lia]. done. }
  destruct (Z.eqb_spec (nextlen r) 0) as [E0|E0]; cbn [negb] in *.
  { destruct (Z.leb_spec count 10); rewrite Forall_singleton in Hco; rewrite ops_bits_cons, app_nil_r;
      (apply sends_value; [by vm_compute|exact HC|done|cbn; lia|]); cbn; unfold in_width; lia. }
  destruct (Z.eqb_spec (nextlen r) (prevlen r)) as [Ep|Ep]; cbn [negb] in *.
  { rewrite Forall_singleton in Hco. rewrite ops_bits_cons, app_nil_r. simpl_bind.
    apply sends_value; [by vm_compute|exact HC|done|cbn; lia|]. cbn. unfold in_width. lia. }
  rewrite Forall_cons, Forall_singleton in Hco. destruct Hco as [H1 H2]. rewrite !ops_bits_cons, app_nil_r.
  intros o Hwf Hr.
  destruct (sends_bind W (λ o, send_code W o (nextlen r) bl) (λ o, o ← send_code W o REP_3_6 bl; send_bits W o (count - 1 - 3) 2)
    (op_bits C (nextlen r, 0, 0)) (op_bits C (REP_3_6, 2, count - 1 - 3))) with (o := o) as (o' & E & Em); try done.
  - unfold op_bits, value_bits. cbn. rewrite app_nil_r. apply sends_sym; (done || lia).
  - apply sends_value; [by vm_compute|exact HC|done|cbn; lia|]. cbn. unfold in_width. lia.
  - exists o'. split; [|done]. rewrite <-E. by destruct (send_code W o (nextlen r) bl).
Qed.
(** The state of the loops with [k] lengths to go, the next one being at [n]. *)
Record rle_at (tree : list ct_data) (k : nat) (n : Z) (r : rle) : Prop := RleAt {
  ra_range : ∀ j, n ≤ j < n + Z.of_nat k → 0 ≤ dlz tree j ≤ 15;
  ra_guard : dlz tree (n + Z.of_nat k) = 65535;
  ra_tree : 0 ≤ n ∧ n + Z.of_nat k < Z.of_nat (length tree);
  ra_end : k = O → count r = 0;
  ra_ok : k ≠ O → rle_ok r ∧ nextlen r = dlz tree n }.

(** One step: either the run goes on, or it is complete. *)
Lemma rle_at_step tree k n r :
  rle_at tree (S k) n r →
  let next := dlz tree (n + 1) in
  if (count r + 1 <? max_count r) && (nextlen r =? next)
  then k ≠ O ∧ rle_at tree k (n + 1) (Rle (prevlen r) next (count r + 1) (max_count r) (min_count r))
  else rle_at tree k (n + 1) (rle_reset (nextlen r) next).
Proof using.
  intros [Hr Hg Ht _ Hok]. destruct (Hok ltac:(done)) as [[Hn Hc Hl] Hnx]. cbv zeta.
  replace (n + Z.of_nat (S k)) with (n + 1 + Z.of_nat k) in * by lia.
  assert (k ≠ O → 0 ≤ dlz tree (n + 1) ≤ 15) as Hnext by (intros; apply Hr; lia).
  destruct (Z.ltb_spec (count r + 1) (max_count r)) as [Hlt|Hlt]; cbn [andb];
    [destruct (Z.eqb_spec (nextlen r) (dlz tree (n + 1))) as [En|En]|].
  - assert (k ≠ O) as Hk by (intros ->; rewrite Z.add_0_r in Hg; lia).
    split; [done|]. split; try done; try lia.
    + intros j Hj. apply Hr. lia.
    + intros _. split; [|done]. split; cbn; rewrite <-?En; lia.
  - split; try done; try lia.
    + intros j Hj. apply Hr. lia.
    + intros _. by destruct (rle_reset_fields (nextlen r) (dlz tree (n + 1))) as (_ & _ & ->).
    + intros Hk. split; [apply rle_reset_ok; auto|]. apply rle_reset_fields.
  - split; try done; try lia.
    + intros j Hj. apply Hr. lia.
    + intros _. by destruct (rle_reset_fields (nextlen r) (dlz tree (n + 1))) as (_ & _ & ->).
    + intros Hk. split; [apply rle_reset_ok; auto|]. apply rle_reset_fields.
Qed.

Lemma aget_dlz tree n : 0 ≤ n < Z.of_nat (length tree) → ∃ x, aget tree n = Some x ∧ dl x = dlz tree n.
Proof using. intros H. destruct (aget_in tree n H) as [x Hx]. exists x. by rewrite (dlz_some _ _ _ Hx). Qed.

Lemma send_loop_run tree k : ∀ n r,
  rle_at tree k n r → coded_ops (rle_ops k n r tree) →
  sends W (λ o, '(_, o) ← for_up k n (send_step W tree bl) (r, o); Some o)
    (ops_bits C (rle_ops k n r tree)).
Proof using HC.
  induction k as [|k IH]; intros n r Hat Hco; [apply sends_nil|].
  pose proof (rle_at_step _ _ _ _ Hat) as Hstep. cbv zeta in Hstep. cbn [rle_ops] in *. cbv zeta in *.
  destruct (ra_ok _ _ _ _ Hat ltac:(done)) as [Hok _]. pose proof (ra_tree _ _ _ _ Hat) as Ht.
  destruct (aget_dlz tree (n + 1) ltac:(lia)) as (x & Ex & Edl).
  intros o Hwf Hroom. cbn [for_up]. unfold send_step at 2. rewrite Ex. simpl_bind. rewrite Edl.
  destruct (_ && _).
  { destruct Hstep as [_ Hat']. exact (IH _ _ Hat' Hco o Hwf Hroom). }
  unfold coded_ops in Hco. rewrite Forall_app in Hco. destruct Hco as [Hco1 Hco2].
  rewrite ops_bits_app in *. rewrite length_app, Nat2Z.inj_add in Hroom.
  destruct (send_count_run r (nextlen r) (count r + 1) Hok eq_refl) with (o := o) as (o1 & E1 & Em1); try done.
  { pose proof (ro_count _ Hok). lia. } { eapply room_mono; [|done]. lia. }
  rewrite E1. simpl_bind.
  destruct (IH _ _ Hstep Hco2 o1 (em_wf _ _ _ _ Em1)) as (o2 & E2 & Em2); [by eapply room_emits|].
  exists o2. split; [exact E2|]. by eapply emits_trans.
Qed.

(** ** What the bits mean *)

(** [bs] takes the known lengths from [acc] to [acc']. *)
Definition extends (total : nat) (acc acc' : list Z) (bs : list bool) : Prop :=
  ∀ fin rest, enc_lengths C total acc' fin rest → enc_lengths C total acc fin (bs ++ rest).

Lemma extends_nil total acc : extends total acc acc [].
Proof using. by intros fin rest. Qed.

Lemma extends_trans total a b c bs cs :
  extends total a b bs → extends total b c cs → extends total a c (bs ++ cs).
Proof using. intros H1 H2 fin rest H. rewrite <-app_assoc. auto. Qed.

Lemma extends_length total acc v :
  (length acc < total)%nat → 0 ≤ v < 16 → has_code C (Z.to_nat v) →
  extends total acc (acc ++ [v]) (op_bits C (v, 0, 0)).
Proof using.
  intros Hl Hv Hc fin rest H. unfold op_bits, value_bits. cbn. rewrite app_nil_r.
  apply (el_len C total acc fin (Z.to_nat v)); [done|lia|by apply sym_bits_code|].
  by rewrite Z2Nat.id by lia.
Qed.

Lemma extends_lengths total v n : ∀ acc,
  (length acc + n ≤ total)%nat → 0 ≤ v < 16 → (n ≠ O → has_code C (Z.to_nat v)) →
  extends total acc (acc ++ replicate n v) (ops_bits C (replicate n (v, 0, 0))).
Proof using.
  induction n as [|n IH]; intros acc Hl Hv Hc; [rewrite app_nil_r; apply extends_nil|].
  cbn [replicate]. rewrite ops_bits_cons. eapply extends_trans.
  - apply extends_length; [lia|done|auto].
  - change (v :: replicate n v) with ([v] ++ replicate n v). rewrite app_assoc.
    apply IH; [rewrite length_app; simpl; lia|done|auto].
Qed.

Lemma extends_repeat total acc sym v base x e n :
  repeat_code acc (Z.to_nat sym) v base x → has_code C (Z.to_nat sym) → in_width x e →
  n = Z.to_nat (base + e) → 1 ≤ base + e → (length acc + n ≤ total)%nat →
  extends total acc (acc ++ replicate n v) (op_bits C (sym, x, e)).
Proof using.
  intros Hr Hc Hw -> Hn Hl fin rest H. unfold op_bits, value_bits. cbn [fst snd]. rewrite <-app_assoc.
  eapply el_repeat; [lia|exact Hr|by apply sym_bits_code|done|done|done].
Qed.

Lemma run_extends r count acc total :
  rle_ok r → 1 ≤ count ≤ max_count r → coded_ops (run_ops r (nextlen r) count) →
  (length acc + Z.to_nat count ≤ total)%nat →
  (nextlen r = prevlen r → last acc = Some (nextlen r)) →
  extends total acc (acc ++ replicate (Z.to_nat count) (nextlen r)) (ops_bits C (run_ops r (nextlen r) count)).
Proof using.
  intros [Hn Hct Hlim] Hcount Hco Hl Hlast. unfold run_ops, coded_ops in *.
  destruct (Z.ltb_spec count (min_count r)) as [Hmin|Hmin].
  { apply extends_lengths; [done|lia|]. intros Hz.
    eapply Forall_lookup_1 in Hco; [|apply (lookup_replicate_2 _ _ 0); lia]. done. }
  destruct (Z.eqb_spec (nextlen r) 0) as [E0|E0]; cbn [negb] in *.
  { rewrite E0. destruct (Z.leb_spec count 10); rewrite Forall_singleton in Hco; rewrite ops_bits_cons, app_nil_r.
    - apply (extends_repeat total acc REPZ_3_10 0 3); try done; [right; left; done|unfold in_width; lia|lia|lia].
    - apply (extends_repeat total acc REPZ_11_138 0 11); try done; [right; right; done|unfold in_width; lia|lia|lia]. }
  destruct (Z.eqb_spec (nextlen r) (prevlen r)) as [Ep|Ep]; cbn [negb] in *.
  { rewrite Forall_singleton in Hco; rewrite ops_bits_cons, app_nil_r.
    apply (extends_repeat total acc REP_3_6 (nextlen r) 3); try done; [left; auto|unfold in_width; lia|lia|lia]. }
  rewrite Forall_cons, Forall_singleton in Hco. destruct Hco as [H1 H2]. rewrite !ops_bits_cons, app_nil_r.
  eapply extends_trans; [apply extends_length; [lia|lia|done]|].
  replace (Z.to_nat count) with (S (Z.to_nat (count - 1))) in * by lia.
  change (replicate (S ?k) ?v) with ([v] ++ replicate k v). rewrite app_assoc.
  apply (extends_repeat total (acc ++ [nextlen r]) REP_3_6 (nextlen r) 3); try done.
  - left. rewrite last_snoc. auto.
  - unfold in_width. lia.
  - lia.
  - lia.
  - rewrite length_app. simpl. lia.
Qed.

Lemma rle_extends tree total k : ∀ n r acc,
  rle_at tree k n r → coded_ops (rle_ops k n r tree) →
  (nextlen r = prevlen r → k ≠ O → last acc = Some (nextlen r)) →
  (length acc + Z.to_nat (count r) + k ≤ total)%nat →
  extends total acc (acc ++ replicate (Z.to_nat (count r)) (nextlen r) ++ (dlz tree <$> seqZ n (Z.of_nat k)))
    (ops_bits C (rle_ops k n r tree)).
Proof using.
  induction k as [|k IH]; intros n r acc Hat Hco Hlast Hl.
  { rewrite (ra_end _ _ _ _ Hat eq_refl). change (Z.to_nat 0) with O. cbn [replicate app].
    change (seqZ n (Z.of_nat 0)) with (@nil Z). rewrite app_nil_r. apply extends_nil. }
  pose proof (rle_at_step _ _ _ _ Hat) as Hstep. cbv zeta in Hstep. cbn [rle_ops] in *. cbv zeta in *.
  destruct (ra_ok _ _ _ _ Hat ltac:(done)) as [Hok Hnx]. pose proof (ro_count _ Hok) as Hc.
  replace (Z.of_nat (S k)) with (Z.succ (Z.of_nat k)) by lia. rewrite seqZ_cons by lia. cbn [fmap list_fmap].
  rewrite Z.pred_succ, <-Hnx. replace (Z.succ n) with (n + 1) by lia.
  assert (∀ l, replicate (Z.to_nat (count r)) (nextlen r) ++ nextlen r :: l =
    replicate (Z.to_nat (count r + 1)) (nextlen r) ++ l) as Hrep.
  { intros l. replace (Z.to_nat (count r + 1)) with (Z.to_nat (count r) + 1)%nat by lia.
    rewrite replicate_add, <-app_assoc. done. }
  rewrite Hrep. destruct (_ && _) eqn:Eb.
  { destruct Hstep as [Hk Hat']. apply andb_true_iff in Eb as [_ En%Z.eqb_eq].
    pose proof (IH (n + 1) _ acc Hat' Hco) as IH'. cbn [count prevlen nextlen] in IH'. rewrite <-En in *.
    apply IH'; [auto|lia]. }
  unfold coded_ops in Hco. rewrite Forall_app in Hco. destruct Hco as [Hco1 Hco2].
  rewrite ops_bits_app, app_assoc. eapply extends_trans.
  - apply run_extends; [done|lia|done|lia|auto].
  - destruct (rle_reset_fields (nextlen r) (dlz tree (n + 1))) as (F1 & F2 & F3).
    pose proof (IH (n + 1) _ (acc ++ replicate (Z.to_nat (count r + 1)) (nextlen r)) Hstep Hco2) as IH'.
    rewrite F1, F2, F3 in IH'. cbn [Z.to_nat replicate app] in IH'. apply IH'.
    + intros -> _. replace (Z.to_nat (count r + 1)) with (Z.to_nat (count r) + 1)%nat by lia.
      rewrite replicate_add, app_assoc. apply last_snoc.
    + rewrite length_app, length_replicate. lia.
Qed.
End send.

(** ** Counting the symbols *)

(** The frequencies of the 19 symbols; the nodes above them keep old values. *)
Definition freq_bound (bl : list ct_data) (b : Z) : Prop := ∀ x, 0 ≤ x < 19 → 0 ≤ fcz bl x ≤ b.

(** [bl'] has the frequencies of [bl], increased by at most [k] in all places
    and by at least one for the symbols [syms]. *)
Record counted (bl bl' : list ct_data) (k : Z) (syms : list Z) : Prop := Counted {
  cn_size : length bl' = length bl;
  cn_bound : ∀ x, fcz bl x ≤ fcz bl' x ≤ fcz bl x + k;
  cn_syms : ∀ x, x ∈ syms → 0 ≤ x < 19 ∧ fcz bl x < fcz bl' x }.

Lemma counted_trans bl1 bl2 bl3 k l s t :
  counted bl1 bl2 k s → counted bl2 bl3 l t → counted bl1 bl3 (k + l) (s ++ t).
Proof.
  intros [A1 A2 A3] [B1 B2 B3]. split; [congruence| |].
  - intros x. specialize (A2 x). specialize (B2 x). lia.
  - intros x [Hx|Hx]%elem_of_app.
    + specialize (A3 x Hx). specialize (B2 x). lia.
    + specialize (B3 x Hx). specialize (A2 x). lia.
Qed.

Lemma counted_bound bl bl' k s b : counted bl bl' k s → freq_bound bl b → freq_bound bl' (b + k).
Proof. intros [_ H _] Hb x Hx. specialize (H x). specialize (Hb x Hx). lia. Qed.

Lemma counted_weaken bl bl' k l s t : counted bl bl' k s → k ≤ l → t ⊆ s → counted bl bl' l t.
Proof.
  intros [A1 A2 A3] Hk Ht. split; [done| |auto]. intros x. specialize (A2 x). lia.
Qed.

Lemma fcz_insert tree x y c :
  0 ≤ x < Z.of_nat (length tree) →
  fcz (<[Z.to_nat x := c]> tree) y = if decide (x = y) then fc c else fcz tree y.
Proof. intros Hx. unfold fcz. rewrite aget_insert by done. by case_decide. Qed.

Lemma add_freq_run bl c k b :
  (19 ≤ length bl)%nat → 0 ≤ c < 19 → freq_bound bl b → 1 ≤ k → b + k < 65536 →
  ∃ bl', add_freq bl c k = Some bl' ∧ counted bl bl' k [c].
Proof.
  intros Hs Hc19 Hb Hk Hw. unfold add_freq. assert (0 ≤ c < Z.of_nat (length bl)) as Hc by lia.
  destruct (aget_in bl c Hc) as [x Hx]. rewrite Hx. simpl_bind.
  assert (fcz bl c = fc x) as Ef by (unfold fcz; by rewrite Hx). pose proof (Hb c Hc19) as Hbc.
  rewrite (wrap_small 16) by (unfold in_width; lia). rewrite aset_in by done. eexists. split; [done|].
  split; [by rewrite length_insert| |].
  - intros y. rewrite fcz_insert by done. case_decide; [subst; cbn [fc]; lia|lia].
  - intros y ->%list_elem_of_singleton. rewrite fcz_insert, decide_True by done. cbn [fc]. lia.
Qed.

Lemma scan_count_run bl r count b :
  rle_ok r → 1 ≤ count ≤ max_count r → (19 ≤ length bl)%nat → freq_bound bl b → b + count < 65536 →
  ∃ bl', scan_count bl r (nextlen r) count = Some bl' ∧
    counted bl bl' count ((λ p : op, p.1.1) <$> run_ops r (nextlen r) count).
Proof.
  intros [Hn Hct Hlim] Hcount Hs Hb Hw. unfold scan_count, run_ops.
  destruct (Z.ltb_spec count (min_count r)) as [Hmin|Hmin].
  { destruct (add_freq_run bl (nextlen r) count b) as (bl' & -> & Hc); [done|lia|done|lia|done|].
    exists bl'. split; [done|]. eapply counted_weaken; [exact Hc|lia|].
    intros x Hx. rewrite fmap_replicate in Hx. apply elem_of_replicate in Hx as [-> _]. by left. }
  assert (∀ s x e, 0 ≤ s < 19 → ∃ bl', add_freq bl s 1 = Some bl' ∧
    counted bl bl' count ((λ p : op, p.1.1) <$> [(s, x, e)])) as Hone.
  { intros s x e Hsr. destruct (add_freq_run bl s 1 b) as (bl' & -> & Hc); [done|lia|done|lia|lia|].
    exists bl'. split; [done|]. eapply counted_weaken; [exact Hc|lia|done]. }
  destruct (Z.eqb_spec (nextlen r) 0) as [E0|E0]; cbn [negb].
  { destruct (Z.leb_spec count 10); apply Hone; by vm_compute. }
  destruct (Z.eqb_spec (nextlen r) (prevlen r)) as [Ep|Ep]; cbn [negb mbind option_bind].
  { apply Hone. by vm_compute. }
  destruct (add_freq_run bl (nextlen r) 1 b) as (bl1 & -> & Hc1); [done|lia|done|lia|lia|]. simpl_bind.
  destruct (add_freq_run bl1 REP_3_6 1 (b + 1)) as (bl2 & -> & Hc2);
    [by rewrite (cn_size _ _ _ _ Hc1)|by vm_compute|by eapply counted_bound|lia|lia|].
  exists bl2. split; [done|]. eapply counted_weaken; [by eapply counted_trans|lia|done].
Qed.

Lemma scan_loop_run tree k : ∀ n r bl b,
  rle_at tree k n r → (19 ≤ length bl)%nat → freq_bound bl b → b + count r + Z.of_nat k < 65536 →
  ∃ r' bl', for_up k n (scan_step tree) (r, bl) = Some (r', bl') ∧
    counted bl bl' (count r + Z.of_nat k) ((λ p : op, p.1.1) <$> rle_ops k n r tree).
Proof.
  induction k as [|k IH]; intros n r bl b Hat Hs Hb Hw.
  { exists r, bl. split; [done|]. rewrite (ra_end _ _ _ _ Hat eq_refl).
    split; [done|intros; lia|]. intros x Hx. cbn in Hx. by apply not_elem_of_nil in Hx. }
  pose proof (rle_at_step _ _ _ _ Hat) as Hstep. cbv zeta in Hstep. cbn [rle_ops]. cbv zeta.
  destruct (ra_ok _ _ _ _ Hat ltac:(done)) as [Hok _]. pose proof (ra_tree _ _ _ _ Hat) as Ht.
  pose proof (ro_count _ Hok) as Hcr.
  destruct (aget_dlz tree (n + 1) ltac:(lia)) as (x & Ex & Edl).
  cbn [for_up]. unfold scan_step at 2. rewrite Ex. simpl_bind. rewrite Edl.
  destruct (_ && _).
  { destruct Hstep as [_ Hat']. destruct (IH _ _ bl b Hat' Hs Hb) as (r' & bl' & E & Hc); [cbn; lia|].
    exists r', bl'. split; [exact E|]. eapply counted_weaken; [exact Hc|cbn; lia|done]. }
  destruct (scan_count_run bl r (count r + 1) b Hok) as (bl1 & -> & Hc1); [lia|done|done|lia|].
  simpl_bind. destruct (rle_reset_fields (nextlen r) (dlz tree (n + 1))) as (_ & _ & F3).
  destruct (IH _ _ bl1 (b + (count r + 1)) Hstep) as (r' & bl' & E & Hc);
    [rewrite (cn_size _ _ _ _ Hc1); done|by eapply counted_bound|rewrite F3; lia|].
  exists r', bl'. split; [exact E|]. rewrite F3 in Hc. rewrite fmap_app.
  eapply counted_weaken; [by eapply counted_trans|lia|done].
Qed.

(** ** [scan_tree] and [send_tree] *)

Definition rle_start (tree : list ct_data) : rle :=
  if dlz tree 0 =? 0 then Rle (-1) (dlz tree 0) 0 138 3 else Rle (-1) (dlz tree 0) 0 7 4.

Definition tree_ops (tree : list ct_data) (max_code : Z) : list op :=
  rle_ops (Z.to_nat (max_code + 1)) 0 (rle_start tree) tree.

(** A tree whose lengths up to [max_code] are in range and followed by the
    guard. *)
Definition guarded (tree : list ct_data) (max_code : Z) : Prop :=
  rle_at tree (Z.to_nat (max_code + 1)) 0 (rle_start tree).

Lemma rle_init_run tree : 0 < Z.of_nat (length tree) → rle_init tree = Some (rle_start tree).
Proof.
  intros Hl. unfold rle_init. destruct (aget_dlz tree 0 ltac:(lia)) as (x & -> & E).
  simpl_bind. unfold rle_start. by rewrite E.
Qed.

Lemma guarded_insert tree mc x :
  0 ≤ mc → mc + 1 < Z.of_nat (length tree) → (∀ j, 0 ≤ j ≤ mc → 0 ≤ dlz tree j ≤ 15) →
  guarded (<[Z.to_nat (mc + 1) := Ct x 65535]> tree) mc.
Proof.
  intros Hm Hl Hr. set (tree' := <[_:=_]> tree).
  assert (∀ j, j ≤ mc → dlz tree' j = dlz tree j) as Hd.
  { intros j Hj. unfold tree'. rewrite dlz_insert, decide_False by lia. done. }
  pose proof (Hr 0 ltac:(lia)) as H0. rewrite <-Hd in H0 by lia.
  split; rewrite ?Z2Nat.id, ?Z.add_0_l by lia.
  - intros j Hj. rewrite Hd by lia. apply Hr. lia.
  - unfold tree'. rewrite dlz_insert, decide_True by lia. done.
  - unfold tree'. rewrite length_insert. lia.
  - lia.
  - intros _. unfold rle_start. destruct (Z.eqb_spec (dlz tree' 0) 0); (split; [|done]); split; cbn [nextlen prevlen count max_count min_count]; lia.
Qed.

Lemma scan_tree_run tree bl mc b :
  0 ≤ mc → mc + 1 < Z.of_nat (length tree) → (∀ j, 0 ≤ j ≤ mc → 0 ≤ dlz tree j ≤ 15) →
  (19 ≤ length bl)%nat → freq_bound bl b → b + mc + 1 < 65536 →
  ∃ x bl', let tree' := <[Z.to_nat (mc + 1) := Ct x 65535]> tree in
    scan_tree tree bl mc = Some (tree', bl') ∧ guarded tree' mc ∧
    counted bl bl' (mc + 1) ((λ p : op, p.1.1) <$> tree_ops tree' mc).
Proof.
  intros Hm Hl Hr Hs Hb Hw. unfold scan_tree. rewrite rle_init_run by lia. simpl_bind.
  destruct (aget_in tree (mc + 1) ltac:(lia)) as [x Hx]. rewrite Hx. simpl_bind.
  rewrite aset_in by lia. simpl_bind.
  pose proof (guarded_insert tree mc (fc x) Hm Hl Hr) as Hg. set (tree' := <[_:=_]> tree) in *.
  assert (rle_start tree = rle_start tree') as ->.
  { unfold rle_start, tree'. rewrite dlz_insert, decide_False by lia. done. }
  destruct (scan_loop_run tree' _ 0 _ bl b Hg Hs Hb) as (r' & bl' & E & Hc).
  { unfold rle_start. destruct (_ =? 0); cbn; lia. }
  exists (fc x), bl'. cbv zeta. rewrite E. simpl_bind. split_and!; [done|done|].
  eapply counted_weaken; [exact Hc| |done]. unfold rle_start. destruct (_ =? 0); cbn; lia.
Qed.

Lemma send_tree_run W bl C tree mc :
  0 ≤ mc → tree_codes bl C → guarded tree mc → coded_ops C (tree_ops tree mc) →
  sends W (λ o, send_tree W o tree bl mc) (ops_bits C (tree_ops tree mc)).
Proof.
  intros Hm HC Hg Hco o Hwf Hroom. unfold send_tree.
  rewrite rle_init_run by (pose proof (ra_tree _ _ _ _ Hg); lia). simpl_bind.
  exact (send_loop_run W bl C HC tree _ 0 _ Hg Hco o Hwf Hroom).
Qed.

Lemma tree_extends C tree mc total acc :
  0 ≤ mc → guarded tree mc → coded_ops C (tree_ops tree mc) → (length acc + Z.to_nat (mc + 1) ≤ total)%nat →
  extends C total acc (acc ++ (dlz tree <$> seqZ 0 (mc + 1))) (ops_bits C (tree_ops tree mc)).
Proof.
  intros Hm Hg Hco Hl.
  assert (count (rle_start tree) = 0 ∧ prevlen (rle_start tree) = -1) as [E1 E2]
    by (unfold rle_start; destruct (_ =? 0); done).
  pose proof (rle_extends C tree total (Z.to_nat (mc + 1)) 0 (rle_start tree) acc Hg Hco) as H.
  rewrite E1, E2, Z2Nat.id in H by lia. cbn [Z.to_nat replicate app] in H. apply H; [|lia].
  intros En. destruct (ra_ok _ _ _ _ Hg ltac:(lia)) as [Hok _]. pose proof (ro_next _ Hok). lia.
Qed.

(** A length that is not zero is sent as such at least once. *)
Lemma rle_ops_length tree k : ∀ n r,
  rle_at tree k n r → (nextlen r = 0 ∨ nextlen r ≠ prevlen r) →
  (∃ j, n ≤ j < n + Z.of_nat k ∧ dlz tree j ≠ 0) →
  ∃ p, p ∈ rle_ops k n r tree ∧ 1 ≤ p.1.1 ≤ 15.
Proof.
  induction k as [|k IH]; intros n r Hat Hnx (j & Hj & Hne); [lia|].
  pose proof (rle_at_step _ _ _ _ Hat) as Hstep. cbv zeta in Hstep. cbn [rle_ops]. cbv zeta.
  destruct (ra_ok _ _ _ _ Hat ltac:(done)) as [[Hn Hcr Hlim] Hnext].
  destruct (_ && _) eqn:Eb.
  { destruct Hstep as [Hk Hat']. apply andb_true_iff in Eb as [_ En%Z.eqb_eq].
    apply (IH _ _ Hat'); [cbn; rewrite <-En; exact Hnx|].
    destruct (decide (j = n)) as [->|]; [|exists j; split; [lia|done]].
    exists (n + 1). split; [lia|]. rewrite <-En, Hnext. done. }
  destruct (decide (nextlen r = 0)) as [E0|E0].
  - destruct (IH _ _ Hstep) as (p & Hp & Hr).
    + destruct (rle_reset_fields (nextlen r) (dlz tree (n + 1))) as (-> & -> & _). lia.
    + exists j. split; [|done]. destruct (decide (j = n)) as [->|]; [congruence|lia].
    + exists p. split; [|done]. apply elem_of_app. by right.
  - exists (nextlen r, 0, 0). split; [|cbn; lia]. apply elem_of_app. left. unfold run_ops.
    destruct (Z.ltb_spec (count r + 1) (min_count r)).
    + apply elem_of_replicate. split; [done|lia].
    + destruct (Z.eqb_spec (nextlen r) 0); [done|]. destruct (Z.eqb_spec (nextlen r) (prevlen r)); [lia|].
      cbn [negb]. by left.
Qed.

Lemma tree_ops_length tree mc :
  0 ≤ mc → guarded tree mc → dlz tree mc ≠ 0 → ∃ p, p ∈ tree_ops tree mc ∧ 1 ≤ p.1.1 ≤ 15.
Proof.
  intros Hm Hg Hne. apply rle_ops_length; [exact Hg| |exists mc; split; [lia|done]].
  right. destruct (ra_ok _ _ _ _ Hg ltac:(lia)) as [Hok _]. pose proof (ro_next _ Hok).
  unfold rle_start in *. destruct (_ =? 0); cbn [nextlen prevlen] in *; lia.
Qed.

(** The header of a dynamic block: [build_bl_tree] makes the code for the code
    lengths, [send_all_trees] sends the three codes. *)

(** ** Lengths followed by zeros *)

Section pad_zeros.
Context (lens : list Z) (k : nat).
Let lens' := lens ++ replicate k 0.

Lemma pad_cnt l : l ≠ 0 → cnt lens' l = cnt lens l.
Proof using.
  intros Hl. unfold lens'. rewrite cnt_app. assert (cnt (replicate k 0) l = 0) as ->; [|lia].
  rewrite cnt_zsum. apply zsum_zero. intros x [-> _]%elem_of_replicate. apply ind_false. lia.
Qed.

Lemma pad_ncodes l : ncodes lens' l = ncodes lens l.
Proof using. destruct l; [done|]. apply pad_cnt. lia. Qed.

Lemma pad_left_codes l : left_codes lens' l = left_codes lens l.
Proof using. induction l as [|l IH]; [done|]. cbn [left_codes]. by rewrite IH, pad_ncodes. Qed.

Lemma pad_first_code l : first_code lens' l = first_code lens l.
Proof using. induction l as [|l IH]; [done|]. cbn [first_code]. by rewrite IH, pad_ncodes. Qed.

Lemma pad_lookup i l : lens' !! i = Some (Z.of_nat l) → (1 ≤ l)%nat → lens !! i = Some (Z.of_nat l).
Proof using.
  intros Hi Hl. unfold lens' in Hi. apply lookup_app_Some in Hi as [Hi|[_ Hi]]; [done|].
  apply lookup_replicate in Hi as [Hi _]. lia.
Qed.

Lemma pad_tree_codes tree : tree_codes tree lens → tree_codes tree lens'.
Proof using.
  intros Ht i l Hi Hl. pose proof (pad_lookup i l Hi ltac:(lia)) as Hi'.
  destruct (Ht i l Hi' Hl) as (c & Hc & Hw & Hb). exists c. split_and!; [done..|]. rewrite Hb. f_equal.
  unfold code_of, rank. rewrite pad_first_code. f_equal. f_equal. unfold lens'.
  apply lookup_lt_Some in Hi'. by rewrite take_app_le by lia.
Qed.

Lemma pad_code_ok M : code_ok M lens → code_ok M lens'.
Proof using.
  intros [Hr Ho Hl]. split.
  - unfold lens'. apply Forall_app. split; [done|]. apply Forall_replicate. lia.
  - intros l Hl'. rewrite pad_left_codes. by apply Ho.
  - by rewrite pad_left_codes.
Qed.
End pad_zeros.

(** The lengths of the first [n] symbols. *)
Definition lens_of (tree : list ct_data) (n : Z) : list Z := dlz tree <$> seqZ 0 n.

Lemma lens_of_take tree n : 0 ≤ n ≤ Z.of_nat (length tree) → dl <$> take (Z.to_nat n) tree = lens_of tree n.
Proof. intros Hn. rewrite dlz_lens by lia. unfold lens_of. by rewrite Z2Nat.id by lia. Qed.

Lemma length_lens_of tree n : length (lens_of tree n) = Z.to_nat n.
Proof. unfold lens_of. by rewrite length_fmap, length_seqZ. Qed.

Lemma lens_of_lookup tree n i : 0 ≤ i < n → lens_of tree n !! Z.to_nat i = Some (dlz tree i).
Proof.
  intros Hi. unfold lens_of. rewrite list_lookup_fmap, lookup_seqZ_lt by lia. simpl. do 2 f_equal. lia.
Qed.

(** All the symbols: those above [mc] have length zero. *)
Lemma lens_of_all tree mc E :
  0 ≤ mc < E → (∀ x, mc < x < E → dlz tree x = 0) →
  lens_of tree E = lens_of tree (mc + 1) ++ replicate (Z.to_nat (E - mc - 1)) 0.
Proof.
  intros Hm Hz. unfold lens_of. replace E with (mc + 1 + (E - mc - 1)) at 1 by lia.
  rewrite seqZ_app, fmap_app by lia. f_equal. apply list_eq. intros i. rewrite list_lookup_fmap.
  destruct (decide (i < Z.to_nat (E - mc - 1))%nat).
  - rewrite lookup_seqZ_lt, lookup_replicate_2 by lia. simpl. f_equal. apply Hz. lia.
  - rewrite lookup_seqZ_ge by lia. symmetry. apply lookup_ge_None_2. rewrite length_replicate. lia.
Qed.

Lemma has_code_lens lens M i : code_ok M lens → (M ≤ 15)%nat → (∃ l, lens !! i = Some l ∧ l ≠ 0) → has_code lens i.
Proof.
  intros Hc HM (l & Hl & Hne). pose proof (Forall_lookup_1 _ _ _ _ (co_range _ _ Hc) Hl) as Hr. simpl in Hr.
  exists (Z.to_nat l). rewrite Z2Nat.id by lia. split; [done|lia].
Qed.

Lemma has_code_lens_of tree n M c :
  code_ok M (lens_of tree n) → (M ≤ 15)%nat → 0 ≤ c < n → dlz tree c ≠ 0 → has_code (lens_of tree n) (Z.to_nat c).
Proof.
  intros Hc HM Hr Hne. apply (has_code_lens _ M); [done|done|]. exists (dlz tree c). by rewrite lens_of_lookup.
Qed.

(** ** The order of the code lengths *)

Lemma bl_order_lookup k i : length_order !! k = Some i ↔ aget bl_order (Z.of_nat k) = Some (Z.of_nat i).
Proof.
  assert (bl_order = Z.of_nat <$> length_order) as -> by done.
  rewrite aget_lookup, list_lookup_fmap. destruct (length_order !! k) as [j|]; simpl; [|done].
  split; [by intros [= ->]|intros [= ?%Nat2Z.inj]; by subst].
Qed.

Lemma length_order_bound k i : length_order !! k = Some i → (k < 19)%nat ∧ (i < 19)%nat.
Proof.
  intros H. assert (k < 19)%nat by (exact (lookup_lt_Some _ _ _ H)). split; [done|].
  do 19 (destruct k as [|k]; [cbn in H; injection H as <-; lia|]). lia.
Qed.

Lemma find_blindex_run bl fuel : ∀ i,
  (19 ≤ length bl)%nat → 2 ≤ i ≤ 18 → i - 2 ≤ Z.of_nat fuel →
  (∀ k j, length_order !! k = Some j → i < Z.of_nat k → dlz bl (Z.of_nat j) = 0) →
  ∃ r, find_blindex fuel bl i = Some r ∧ 2 ≤ r ≤ 18 ∧
    ∀ k j, length_order !! k = Some j → r < Z.of_nat k → dlz bl (Z.of_nat j) = 0.
Proof.
  induction fuel as [|fuel IH]; intros i Hs Hi Hf Hz; cbn [find_blindex];
    (destruct (Z.leb_spec 3 i) as [H3|H3]; [|exists i; split_and!; (done || lia)]); [lia|].
  destruct (lookup_lt_is_Some_2 length_order (Z.to_nat i)) as [j Hj]; [change (length length_order) with 19%nat; lia|].
  pose proof (length_order_bound _ _ Hj) as [_ Hj19].
  pose proof Hj as Hj'. apply bl_order_lookup in Hj'. rewrite Z2Nat.id in Hj' by lia. rewrite Hj'. simpl_bind.
  destruct (aget_dlz bl (Z.of_nat j) ltac:(lia)) as (x & -> & Ex). simpl_bind.
  destruct (Z.eqb_spec (dl x) 0) as [E0|E0]; cbn [negb]; [|exists i; split_and!; (done || lia)].
  apply IH; [done|lia|lia|]. intros k j' Hk Hlt.
  destruct (decide (k = Z.to_nat i)) as [->|]; [|apply (Hz k); [done|lia]].
  rewrite Hj in Hk. injection Hk as <-. by rewrite <-Ex.
Qed.

(** Only the three repeat codes come before index three. *)
Lemma length_order_late v : (1 ≤ v ≤ 15)%nat → ∃ k, length_order !! k = Some v ∧ (3 ≤ k)%nat.
Proof.
  intros Hv. assert (forallb (λ v, existsb (λ k, bool_decide (length_order !! k = Some v)) (seq 3 16)) (seq 1 15) = true) as H
    by (by vm_compute).
  rewrite forallb_forall in H. specialize (H v ltac:(apply in_seq; lia)).
  apply existsb_exists in H as (k & Hk%in_seq & Hb%bool_decide_eq_true). exists k. split; [done|lia].
Qed.

(** ** The header *)

(** The codes are built, and every symbol that [send_tree] sends has one. *)
Record header_ok (lt dt bl : list ct_data) (lmax dmax mi : Z) : Prop := HeaderOk {
  hd_lmax : 256 ≤ lmax < 286;
  hd_dmax : 0 ≤ dmax < 30;
  hd_mi : 3 ≤ mi ≤ 18;
  hd_l : guarded lt lmax;
  hd_d : guarded dt dmax;
  hd_lcode : code_ok 15 (lens_of lt (lmax + 1));
  hd_dcode : code_ok 15 (lens_of dt (dmax + 1));
  hd_end : dlz lt 256 ≠ 0;
  hd_bl_size : (19 ≤ length bl)%nat;
  hd_blcode : code_ok 7 (lens_of bl 19);
  hd_blcodes : tree_codes bl (lens_of bl 19);
  hd_ops : coded_ops (lens_of bl 19) (tree_ops lt lmax ++ tree_ops dt dmax);
  hd_order : ∀ k j, length_order !! k = Some j → mi < Z.of_nat k → dlz bl (Z.of_nat j) = 0 }.

Definition dyn_header (lt dt bl : list ct_data) (lmax dmax mi : Z) : list bool :=
  bits_of 5 (lmax + 1 - 257) ++ bits_of 5 (dmax + 1 - 1) ++ bits_of 4 (mi + 1 - 4) ++
  enc_code_lengths (lens_of bl 19) (Z.to_nat (mi + 1)) ++
  ops_bits (lens_of bl 19) (tree_ops lt lmax) ++ ops_bits (lens_of bl 19) (tree_ops dt dmax).

Lemma code_ok_usable M lens : (M ≤ 15)%nat → code_ok M lens → not_over lens ∧ complete lens.
Proof. intros HM [_ Ho Hl]. split; [done|]. by intros l ->. Qed.

Lemma nth_lens_of bl j : (j < 19)%nat → nth j (lens_of bl 19) 0 = dlz bl (Z.of_nat j).
Proof.
  intros Hj. pose proof (lens_of_lookup bl 19 (Z.of_nat j) ltac:(lia)) as H. rewrite Nat2Z.id in H.
  by apply nth_lookup_Some with (d := 0) in H.
Qed.

Lemma dyn_header_enc lt dt bl lmax dmax mi :
  header_ok lt dt bl lmax dmax mi →
  enc_header (lens_of lt (lmax + 1)) (lens_of dt (dmax + 1)) (dyn_header lt dt bl lmax dmax mi).
Proof.
  intros [Hlm Hdm Hmi Hgl Hgd Hlc Hdc Hend Hbs Hbc Hbt Hops Hord]. unfold dyn_header.
  unfold coded_ops in Hops. rewrite Forall_app in Hops. destruct Hops as [Hol Hod].
  pose proof (length_lens_of lt (lmax + 1)) as Ll. pose proof (length_lens_of dt (dmax + 1)) as Ld.
  destruct (code_ok_usable 15 _ ltac:(lia) Hlc) as [Ul Cl]. destruct (code_ok_usable 15 _ ltac:(lia) Hdc) as [Ud Cd].
  destruct (code_ok_usable 7 _ ltac:(lia) Hbc) as [Ub Cb].
  pose proof (enc_dyn (lens_of lt (lmax + 1)) (lens_of dt (dmax + 1)) (lens_of bl 19) (Z.to_nat (mi + 1))
    (ops_bits (lens_of bl 19) (tree_ops lt lmax) ++ ops_bits (lens_of bl 19) (tree_ops dt dmax))) as H.
  replace (Z.of_nat (length (lens_of lt (lmax + 1)))) with (lmax + 1) in H by lia.
  replace (Z.of_nat (length (lens_of dt (dmax + 1)))) with (dmax + 1) in H by lia.
  rewrite Z2Nat.id in H by lia. apply H; try done; try lia.
  - split_and!; [by rewrite length_lens_of| |].
    + eapply Forall_impl; [exact (co_range _ _ Hbc)|]. simpl. unfold in_width. lia.
    + intros k i Hk Hle. destruct (length_order_bound _ _ Hk). rewrite nth_lens_of by done. apply (Hord k); [done|lia].
  - pose proof (tree_extends (lens_of bl 19) lt lmax (length (lens_of lt (lmax + 1)) + length (lens_of dt (dmax + 1)))
      [] ltac:(lia) Hgl Hol ltac:(simpl; lia)) as E1. cbn [app] in E1.
    pose proof (tree_extends (lens_of bl 19) dt dmax (length (lens_of lt (lmax + 1)) + length (lens_of dt (dmax + 1)))
      (lens_of lt (lmax + 1)) ltac:(lia) Hgd Hod ltac:(lia)) as E2.
    pose proof (extends_trans _ _ _ _ _ _ _ E1 E2 (lens_of lt (lmax + 1) ++ lens_of dt (dmax + 1)) []) as E3.
    rewrite app_nil_r in E3. apply E3, el_done. rewrite length_app. done.
  - pose proof (lens_of_lookup lt (lmax + 1) 256 ltac:(lia)) as E. change (Z.to_nat 256) with 256%nat in E. rewrite E.
    intros [= ?]. done.
  - split; [done|by left].
  - split; [done|by left].
Qed.

Lemma take_nth {A} (d : A) (l : list A) n : (n ≤ length l)%nat → take n l = (λ k, nth k l d) <$> seq 0 n.
Proof.
  intros Hn. apply list_eq. intros i. rewrite list_lookup_fmap. destruct (decide (i < n)%nat).
  - rewrite lookup_take_lt, lookup_seq_lt by lia. simpl.
    destruct (lookup_lt_is_Some_2 l i) as [x Hx]; [lia|]. rewrite Hx. f_equal. symmetry.
    by apply nth_lookup_Some.
  - rewrite lookup_take_ge, lookup_seq_ge by lia. done.
Qed.

Lemma send_code_lengths_run W bl n :
  (n ≤ 19)%nat → (19 ≤ length bl)%nat → code_ok 7 (lens_of bl 19) →
  sends W (λ o, for_up n 0 (λ rank o, c ← bl_order.[rank]; x ← bl.[c]; send_bits W o (Len x) 3) o)
    (enc_code_lengths (lens_of bl 19) n).
Proof.
  intros Hn Hs Hc. unfold enc_code_lengths. rewrite (take_nth O) by (change (length length_order) with 19%nat; lia).
  rewrite list_fmap_bind. apply (sends_for_up W _ _ n 0). intros j Hj o Hwf Hroom.
  destruct (lookup_lt_is_Some_2 length_order j) as [i Hi]; [change (length length_order) with 19%nat; lia|].
  destruct (length_order_bound _ _ Hi) as [_ Hi19]. pose proof Hi as Hi'. apply bl_order_lookup in Hi'.
  rewrite Hi'. cbn [mbind option_bind compose].
  destruct (aget_dlz bl (Z.of_nat i) ltac:(lia)) as (x & -> & Ex). simpl_bind.
  assert (nth (nth j length_order 0%nat) (lens_of bl 19) 0 = dl x) as E.
  { apply nth_lookup_Some with (d := 0%nat) in Hi. by rewrite Hi, nth_lens_of. }
  unfold compose in *. rewrite E in *.
  assert (0 ≤ dl x ≤ 7) as Hx.
  { pose proof (lens_of_lookup bl 19 (Z.of_nat i) ltac:(lia)) as Hl.
    pose proof (Forall_lookup_1 _ _ _ _ (co_range _ _ Hc) Hl). simpl in *. lia. }
  apply (sends_bits W (dl x) 3); [lia|unfold in_width; lia|done|done].
Qed.

Lemma send_all_trees_run W lt dt bl lmax dmax mi :
  header_ok lt dt bl lmax dmax mi →
  sends W (λ o, send_all_trees W o lt dt bl (lmax + 1) (dmax + 1) (mi + 1)) (dyn_header lt dt bl lmax dmax mi).
Proof.
  intros [Hlm Hdm Hmi Hgl Hgd Hlc Hdc Hend Hbs Hbc Hbt Hops Hord]. unfold dyn_header, send_all_trees.
  unfold coded_ops in Hops. rewrite Forall_app in Hops. destruct Hops as [Hol Hod].
  apply (sends_bind W (λ o, send_bits W o (lmax + 1 - 257) 5)); [apply sends_bits; unfold in_width; lia|].
  apply (sends_bind W (λ o, send_bits W o (dmax + 1 - 1) 5)); [apply sends_bits; unfold in_width; lia|].
  apply (sends_bind W (λ o, send_bits W o (mi + 1 - 4) 4)); [apply sends_bits; unfold in_width; lia|].
  apply sends_bind; [apply send_code_lengths_run; (done || lia)|].
  replace (lmax + 1 - 1) with lmax by lia. replace (dmax + 1 - 1) with dmax by lia.
  apply (sends_bind W (λ o, send_tree W o lt bl lmax)); apply send_tree_run; (done || lia).
Qed.
