(* ===== verification/TreeBlock.v ===== *)
(** The entry points of [trees.c]: what [_tr_init], [_tr_tally] and
    [_tr_flush_block] do to the state, and the bits of a block. *)

From Stdlib Require Import ZArith Lia.
From stdpp Require Import base option numbers list sets.
From S2P Require Import Prelude Sums Deflate Trees TreeFlush TreeBits TreeSend TreeCompress.
From S2P Require Import TreeHeap TreeSpec TreeRle.

Open Scope Z_scope.

(** The symbols of a token. *)
Definition tok_lsym (t : token) : Z :=
  if t.1 =? 0 then t.2 else 257 + nth (Z.to_nat t.2) _length_code 0.
Definition tok_dsym (t : token) : Z := default 0 (d_code (t.1 - 1)).

(** How often the symbols occur, the end of block included. *)
Definition lit_count (toks : list token) (x : Z) : Z := ind (x = 256) + zsum (λ t, ind (tok_lsym t = x)) toks.
Definition dist_count (toks : list token) (x : Z) : Z := zsum (λ t, ind (t.1 ≠ 0 ∧ tok_dsym t = x)) toks.

Section blocks.
Context (W : Z).

(** The parts of the state that a block does not change. *)
Record ds_wf (s : deflate_state) : Prop := DsWf {
  dw_out : out_wf W (ds_out s);
  dw_lit : 0 < ds_lit_bufsize s ≤ 32768;
  dw_buf : Z.of_nat (length (pending_buf (ds_out s))) = 4 * ds_lit_bufsize s;
  dw_l : sizes 286 (ds_work s) (ds_dyn_ltree s);
  dw_d : sizes 30 (ds_work s) (ds_dyn_dtree s);
  dw_bl : sizes 19 (ds_work s) (ds_bl_tree s) }.

(** The tokens of the current block are in the overlay, and counted. *)
Record ds_ok (s : deflate_state) (toks : list token) : Prop := DsOk {
  dk_wf : ds_wf s;
  dk_last : ds_last_lit s = Z.of_nat (length toks) ∧ Z.of_nat (length toks) < ds_lit_bufsize s;
  dk_tallied : tallied (pending_buf (ds_out s)) (ds_lit_bufsize s) toks;
  dk_toks : Forall tok_ok toks;
  dk_lfreq : ∀ x, 0 ≤ x < 286 → fcz (ds_dyn_ltree s) x = lit_count toks x;
  dk_dfreq : ∀ x, 0 ≤ x < 30 → fcz (ds_dyn_dtree s) x = dist_count toks x;
  dk_blfreq : freq_bound (ds_bl_tree s) 0 }.

Lemma lit_count_le toks x : 0 ≤ lit_count toks x ≤ 1 + Z.of_nat (length toks).
Proof using.
  unfold lit_count. pose proof (ind_range (x = 256)). pose proof (zsum_ind_le (λ t, tok_lsym t = x) toks). lia.
Qed.

Lemma dist_count_le toks x : 0 ≤ dist_count toks x ≤ Z.of_nat (length toks).
Proof using. apply (zsum_ind_le (λ t, t.1 ≠ 0 ∧ tok_dsym t = x)). Qed.

(** The symbols of a token are in range. *)
Lemma tok_syms t : tok_ok t → 0 ≤ tok_lsym t < 286 ∧ (t.1 ≠ 0 → 0 ≤ tok_dsym t < 30).
Proof using.
  destruct t as [dist lc]. intros [Hd Hl]. unfold tok_lsym, tok_dsym. cbn [fst snd] in *.
  split.
  - destruct (Z.eqb_spec dist 0); [unfold in_width in Hl; lia|].
    destruct (length_code_spec lc Hl) as (i & b & x & e & Ei & _ & _ & _ & Hx).
    apply extra_of_len in Hx as [Hi _]. apply aget_some in Ei as [_ Ei].
    apply nth_lookup_Some with (d := 0) in Ei. rewrite Ei. lia.
  - intros Hne. destruct (d_code_spec (dist - 1) ltac:(lia)) as (j & b & x & e & Ej & _ & _ & _ & Hx).
    apply extra_of_dist in Hx as [Hj _]. rewrite Ej. cbn. lia.
Qed.

Lemma tok_used toks t : t ∈ toks →
  1 ≤ lit_count toks (tok_lsym t) ∧ (t.1 ≠ 0 → 1 ≤ dist_count toks (tok_dsym t)).
Proof using.
  intros Ht. split.
  - unfold lit_count. pose proof (ind_range (tok_lsym t = 256)).
    pose proof (zsum_elem (λ t', ind (tok_lsym t' = tok_lsym t)) toks t ltac:(intros; apply ind_range) Ht) as He.
    cbn beta in He. rewrite ind_true in He by done. lia.
  - intros Hne. unfold dist_count.
    pose proof (zsum_elem (λ t', ind (t'.1 ≠ 0 ∧ tok_dsym t' = tok_dsym t)) toks t ltac:(intros; apply ind_range) Ht) as He.
    cbn beta in He. rewrite ind_true in He by done. lia.
Qed.

(** ** Building the codes *)

Lemma l_desc_ok : desc_ok 286 15 static_l_desc.
Proof using. split; [done|lia|split; [done|split; [lia|by vm_compute]]|split; by vm_compute|by vm_compute]. Qed.

Lemma d_desc_ok : desc_ok 30 15 static_d_desc.
Proof using. split; [done|lia|split; [done|split; [lia|by vm_compute]]|split; by vm_compute|by vm_compute]. Qed.

Lemma bl_desc_ok : desc_ok 19 7 static_bl_desc.
Proof using. split; [done|lia|split; [done|split; [lia|by vm_compute]]|split; by vm_compute|by vm_compute]. Qed.

(** What does not change while the codes are built. *)
Record same_io (s s' : deflate_state) : Prop := SameIo {
  si_out : ds_out s' = ds_out s;
  si_lit : ds_lit_bufsize s' = ds_lit_bufsize s;
  si_last : ds_last_lit s' = ds_last_lit s;
  si_strategy : ds_strategy s' = ds_strategy s;
  si_level : ds_level s' = ds_level s }.

Lemma same_io_trans s1 s2 s3 : same_io s1 s2 → same_io s2 s3 → same_io s1 s3.
Proof using. intros [] []. split; congruence. Qed.

Lemma sizes_work E E' s s' tree tree' : sizes E s tree → sizes E' s' tree' → sizes E s' tree.
Proof using. intros [] []. by split. Qed.

Lemma build_l_run s :
  ds_wf s → ∃ s', build_l W s = Some s' ∧ ds_wf s' ∧ same_io s s' ∧
    ds_dyn_dtree s' = ds_dyn_dtree s ∧ ds_bl_tree s' = ds_bl_tree s ∧
    tree_ok 286 15 (ds_dyn_ltree s) (ds_dyn_ltree s') (ds_l_max s').
Proof using.
  intros [Ho Hl Hb H1 H2 H3]. unfold build_l.
  destruct (build_tree_run W 286 15 (ds_work s) static_l_desc (ds_dyn_ltree s) (ds_opt_len s) (ds_static_len s) l_desc_ok H1)
    as (b & -> & Hs & Ht). simpl_bind. eexists. split; [done|]. cbn.
  split_and!; try done. split; cbn; try done; by eapply sizes_work.
Qed.

Lemma build_d_run s :
  ds_wf s → ∃ s', build_d W s = Some s' ∧ ds_wf s' ∧ same_io s s' ∧
    ds_dyn_ltree s' = ds_dyn_ltree s ∧ ds_l_max s' = ds_l_max s ∧ ds_bl_tree s' = ds_bl_tree s ∧
    tree_ok 30 15 (ds_dyn_dtree s) (ds_dyn_dtree s') (ds_d_max s').
Proof using.
  intros [Ho Hl Hb H1 H2 H3]. unfold build_d.
  destruct (build_tree_run W 30 15 (ds_work s) static_d_desc (ds_dyn_dtree s) (ds_opt_len s) (ds_static_len s) d_desc_ok H2)
    as (b & -> & Hs & Ht). simpl_bind. eexists. split; [done|]. cbn.
  split_and!; try done. split; cbn; try done; by eapply sizes_work.
Qed.

Lemma build_bl_run s :
  ds_wf s → ∃ s', build_bl W s = Some s' ∧ ds_wf s' ∧ same_io s s' ∧
    ds_dyn_ltree s' = ds_dyn_ltree s ∧ ds_l_max s' = ds_l_max s ∧
    ds_dyn_dtree s' = ds_dyn_dtree s ∧ ds_d_max s' = ds_d_max s ∧
    tree_ok 19 7 (ds_bl_tree s) (ds_bl_tree s') (ds_bl_max s').
Proof using.
  intros [Ho Hl Hb H1 H2 H3]. unfold build_bl.
  destruct (build_tree_run W 19 7 (ds_work s) static_bl_desc (ds_bl_tree s) (ds_opt_len s) (ds_static_len s) bl_desc_ok H3)
    as (b & -> & Hs & Ht). simpl_bind. eexists. split; [done|]. cbn.
  split_and!; try done. split; cbn; try done; by eapply sizes_work.
Qed.

(** The guard behind the last length does not concern the code. *)
Lemma guard_tree E M tree0 tree mc x :
  tree_ok E M tree0 tree mc → (M ≤ 15)%nat → mc + 1 < Z.of_nat (length tree) →
  let tree' := <[Z.to_nat (mc + 1) := Ct x 65535]> tree in
  lens_of tree' (mc + 1) = lens_of tree (mc + 1) ∧ tree_codes tree' (lens_of tree' (mc + 1)) ∧
  code_ok M (lens_of tree' (mc + 1)) ∧ (∀ j, j ≤ mc → dlz tree' j = dlz tree j).
Proof using.
  intros [Hm _ Hl Hc _ _ _] HM Hs tree'.
  assert (∀ j, j ≤ mc → dlz tree' j = dlz tree j) as Hd.
  { intros j Hj. unfold tree'. rewrite dlz_insert, decide_False by lia. done. }
  rewrite lens_of_take in Hl, Hc by lia.
  assert (lens_of tree' (mc + 1) = lens_of tree (mc + 1)) as El.
  { unfold lens_of. apply list_fmap_ext. intros i j Hj. apply Hd.
    apply list_elem_of_lookup_2, elem_of_seqZ in Hj. lia. }
  rewrite El. split_and!; [done| |done|done].
  intros i l Hi Hl'. destruct (Hc i l Hi Hl') as (c & Hci & Hw & Hb). exists c. split_and!; [|done|done].
  unfold tree'. rewrite list_lookup_insert_ne; [done|]. apply lookup_lt_Some in Hi.
  rewrite length_lens_of in Hi. lia.
Qed.

Lemma tree_ok_range E M tree0 tree mc j :
  tree_ok E M tree0 tree mc → (M ≤ 15)%nat → mc + 1 < Z.of_nat (length tree) → 0 ≤ j ≤ mc →
  0 ≤ dlz tree j ≤ 15.
Proof using.
  intros [Hm _ Hl _ _ _ _] HM Hs Hj. rewrite lens_of_take in Hl by lia.
  pose proof (lens_of_lookup tree (mc + 1) j ltac:(lia)) as Hk.
  pose proof (Forall_lookup_1 _ _ _ _ (co_range _ _ Hl) Hk) as Hr. simpl in Hr. lia.
Qed.

(** Every symbol that was counted has a code. *)
Lemma counted_ops_coded bl1 bl2 bl mc ops :
  tree_ok 19 7 bl1 bl2 mc → (∀ x, x ∈ (λ p : op, p.1.1) <$> ops → 0 ≤ x < 19 ∧ 0 < fcz bl1 x) →
  bl = lens_of bl2 19 → code_ok 7 bl → coded_ops bl ops.
Proof using.
  intros [_ _ _ _ Hu _ _] Hx -> Hc. apply Forall_forall. intros p Hp.
  destruct (Hx p.1.1) as [Hr Hf]; [by apply (list_elem_of_fmap_2 (λ p : op, p.1.1))|].
  apply (has_code_lens_of _ _ 7); [done|lia|done|]. apply Hu; [done|lia].
Qed.
(** The three codes are ready: what the dynamic block needs. *)
Record codes_ok (s : deflate_state) (mi : Z) (toks : list token) : Prop := CodesOk {
  cs_wf : ds_wf s;
  cs_header : header_ok (ds_dyn_ltree s) (ds_dyn_dtree s) (ds_bl_tree s) (ds_l_max s) (ds_d_max s) mi;
  cs_l : tree_codes (ds_dyn_ltree s) (lens_of (ds_dyn_ltree s) (ds_l_max s + 1));
  cs_d : tree_codes (ds_dyn_dtree s) (lens_of (ds_dyn_dtree s) (ds_d_max s + 1));
  cs_toks : Forall (tok_coded (lens_of (ds_dyn_ltree s) (ds_l_max s + 1))
                      (lens_of (ds_dyn_dtree s) (ds_d_max s + 1))) toks }.

Lemma tok_coded_used L D t :
  has_code L (Z.to_nat (tok_lsym t)) → (t.1 ≠ 0 → has_code D (Z.to_nat (tok_dsym t))) → tok_coded L D t.
Proof using.
  unfold tok_coded, tok_lsym, tok_dsym. destruct (Z.eqb_spec t.1 0); auto.
Qed.

Lemma build_bl_tree_run s toks lt0 dt0 :
  ds_wf s → freq_bound (ds_bl_tree s) 0 → Forall tok_ok toks →
  tree_ok 286 15 lt0 (ds_dyn_ltree s) (ds_l_max s) → tree_ok 30 15 dt0 (ds_dyn_dtree s) (ds_d_max s) →
  (∀ x, 0 ≤ x < 286 → fcz lt0 x = lit_count toks x) → (∀ x, 0 ≤ x < 30 → fcz dt0 x = dist_count toks x) →
  ∃ s' mi, build_bl_tree W s = Some (s', mi) ∧ same_io s s' ∧ codes_ok s' mi toks.
Proof using.
  intros [Ho Hl Hb H1 H2 H3] Hbl Htk Tl Td Fl Fd. unfold build_bl_tree.
  pose proof (sz_tree _ _ _ H1) as S1. pose proof (sz_tree _ _ _ H2) as S2. pose proof (sz_tree _ _ _ H3) as S3.
  pose proof (tk_max _ _ _ _ _ Tl) as Ml. pose proof (tk_max _ _ _ _ _ Td) as Md.
  destruct (scan_tree_run (ds_dyn_ltree s) (ds_bl_tree s) (ds_l_max s) 0) as (x1 & bl1 & -> & G1 & C1); [lia|lia| |lia|done|lia|].
  { intros j Hj. apply (tree_ok_range 286 15 lt0 _ (ds_l_max s)); (done || lia). }
  simpl_bind.
  destruct (scan_tree_run (ds_dyn_dtree s) bl1 (ds_d_max s) (0 + (ds_l_max s + 1))) as (x2 & bl2 & -> & G2 & C2);
    [lia|lia| |rewrite (cn_size _ _ _ _ C1); lia|by eapply counted_bound|lia|].
  { intros j Hj. apply (tree_ok_range 30 15 dt0 _ (ds_d_max s)); (done || lia). }
  simpl_bind.
  destruct (guard_tree _ _ _ _ _ x1 Tl ltac:(lia) ltac:(lia)) as (El & TCl & COl & Dl).
  destruct (guard_tree _ _ _ _ _ x2 Td ltac:(lia) ltac:(lia)) as (Ed & TCd & COd & Dd).
  set (lt := <[Z.to_nat (ds_l_max s + 1):=_]> (ds_dyn_ltree s)) in *.
  set (dt := <[Z.to_nat (ds_d_max s + 1):=_]> (ds_dyn_dtree s)) in *.
  pose proof (counted_trans _ _ _ _ _ _ _ C1 C2) as C12.
  destruct (build_bl_run (set_trees s lt dt bl2)) as (s3 & -> & Hwf3 & Hio & E1 & E2 & E3 & E4 & Tb).
  { destruct H1, H2, H3. split; cbn; [done|done|done|split; try done; unfold lt; by rewrite length_insert
      |split; try done; unfold dt; by rewrite length_insert|split; try done; by rewrite (cn_size _ _ _ _ C12)]. }
  simpl_bind. cbn in E1, E2, E3, E4, Tb.
  pose proof (tk_max _ _ _ _ _ Tb) as Mb. pose proof (sz_tree _ _ _ (dw_bl _ Hwf3)) as S3'.
  assert (lens_of (ds_bl_tree s3) 19 = lens_of (ds_bl_tree s3) (ds_bl_max s3 + 1) ++ replicate (Z.to_nat (19 - ds_bl_max s3 - 1)) 0) as Epad.
  { apply lens_of_all; [lia|]. exact (tk_beyond _ _ _ _ _ Tb). }
  assert (code_ok 7 (lens_of (ds_bl_tree s3) 19)) as COb.
  { rewrite Epad. apply pad_code_ok. rewrite <-lens_of_take by lia. exact (tk_lens _ _ _ _ _ Tb). }
  assert (tree_codes (ds_bl_tree s3) (lens_of (ds_bl_tree s3) 19)) as TCb.
  { rewrite Epad. apply pad_tree_codes. rewrite <-lens_of_take by lia. exact (tk_codes _ _ _ _ _ Tb). }
  destruct (find_blindex_run (ds_bl_tree s3) 16 (BL_CODES - 1)) as (mi & -> & Hmi & Hord);
    [lia|by vm_compute|by vm_compute| |].
  { intros k j Hk%length_order_bound Hlt. change (BL_CODES - 1) with 18 in Hlt. lia. }
  simpl_bind. do 2 eexists. split; [done|].
  assert (coded_ops (lens_of (ds_bl_tree s3) 19) (tree_ops lt (ds_l_max s) ++ tree_ops dt (ds_d_max s))) as Hops.
  { eapply counted_ops_coded; [exact Tb| |done|done]. intros x Hx. rewrite fmap_app in Hx.
    destruct (cn_syms _ _ _ _ C12 x Hx) as [Hr Hlt]. specialize (Hbl x Hr). lia. }
  assert (ds_l_max s = ds_l_max s3) as El3 by done. assert (ds_d_max s = ds_d_max s3) as Ed3 by done.
  split; [destruct Hio; by split|].
  assert (dlz lt 256 ≠ 0 ∧ 256 ≤ ds_l_max s) as [H256 M256].
  { destruct (tk_used _ _ _ _ _ Tl 256 ltac:(lia)) as [Hle Hne].
    - rewrite Fl by lia. unfold lit_count. rewrite ind_true by done.
      pose proof (zsum_ind_le (λ t, tok_lsym t = 256) toks). lia.
    - rewrite Dl by done. done. }
  assert (3 ≤ mi) as Hmi3.
  { destruct (tree_ops_length lt (ds_l_max s) ltac:(lia) G1) as (p & Hp & Hpr).
    { rewrite Dl by lia. exact (tk_last _ _ _ _ _ Tl). }
    unfold coded_ops in Hops. rewrite Forall_forall in Hops.
    destruct (Hops p) as (l & Hl1 & Hl2); [apply elem_of_app; by left|].
    destruct (decide (3 ≤ mi)) as [|Hlt]; [done|]. exfalso.
    destruct (length_order_late (Z.to_nat p.1.1) ltac:(lia)) as (k & Hk & Hk3).
    specialize (Hord k _ Hk ltac:(lia)). rewrite Z2Nat.id in Hord by lia.
    rewrite lens_of_lookup in Hl1 by lia. injection Hl1 as Hl1. lia. }
  split.
  - destruct Hwf3. by split.
  - split; cbn; rewrite ?E1, ?E2, ?E3, ?E4; try done; lia.
  - cbn. rewrite E1, E2. done.
  - cbn. rewrite E3, E4. done.
  - cbn. rewrite E1, E2, E3, E4. rewrite Forall_forall in Htk |- *. intros t Ht. specialize (Htk t Ht).
    destruct (tok_syms t Htk) as [R1 R2]. destruct (tok_used toks t Ht) as [U1 U2].
    destruct (tk_used _ _ _ _ _ Tl (tok_lsym t) R1) as [L1 L2]; [rewrite Fl by done; lia|].
    apply tok_coded_used.
    + apply (has_code_lens_of _ _ 15); [done|lia|lia|]. by rewrite Dl.
    + intros Hne. destruct (tk_used _ _ _ _ _ Td (tok_dsym t) (R2 Hne)) as [L3 L4]; [rewrite Fd by auto; specialize (U2 Hne); lia|].
      apply (has_code_lens_of _ _ 15); [done|lia|specialize (R2 Hne); lia|]. by rewrite Dd.
Qed.
Lemma black_listed_total k : ∀ n mask ltree,
  0 ≤ n → n + Z.of_nat k ≤ Z.of_nat (length ltree) → is_Some (black_listed k n mask ltree).
Proof using.
  induction k as [|k IH]; intros n mask ltree Hn Hl; cbn [black_listed]; [by eexists|].
  destruct (aget_in ltree n ltac:(lia)) as [x ->]. simpl_bind.
  destruct (_ && _); [by eexists|]. apply IH; lia.
Qed.

Lemma white_listed_total k : ∀ n ltree,
  0 ≤ n → n + Z.of_nat k ≤ Z.of_nat (length ltree) → is_Some (white_listed k n ltree).
Proof using.
  induction k as [|k IH]; intros n ltree Hn Hl; cbn [white_listed]; [by eexists|].
  destruct (aget_in ltree n ltac:(lia)) as [x ->]. simpl_bind.
  destruct (negb _); [by eexists|]. apply IH; lia.
Qed.

Lemma detect_data_type_total ltree : 256 ≤ Z.of_nat (length ltree) → is_Some (detect_data_type ltree).
Proof using.
  intros Hl. unfold detect_data_type.
  destruct (black_listed_total 32 0 4093624447 ltree) as [bk ->]; [lia|lia|]. simpl_bind.
  destruct bk; [by eexists|].
  destruct (aget_in ltree 9 ltac:(lia)) as [x9 ->], (aget_in ltree 10 ltac:(lia)) as [x10 ->],
    (aget_in ltree 13 ltac:(lia)) as [x13 ->]. simpl_bind.
  destruct (_ || _); [by eexists|].
  destruct (white_listed_total (Z.to_nat (LITERALS - 32)) 32 ltree) as [w ->];
    [lia|change (Z.to_nat (LITERALS - 32)) with 224%nat; lia|]. by eexists.
Qed.

Lemma choose_trees_run s toks stored_len :
  ds_ok s toks →
  ∃ s' mi ol sl, choose_trees W s stored_len = Some (s', mi, ol, sl) ∧ same_io s s' ∧ ds_wf s' ∧
    (ol = sl ∨ codes_ok s' mi toks).
Proof using.
  intros [Hwf _ _ Htk Fl Fd Fb]. unfold choose_trees. destruct (Z.ltb_spec 0 (ds_level s)) as [Hlev|Hlev].
  2:{ do 4 eexists. split; [done|]. split_and!; [done|done|by left]. }
  assert (∃ dt, (if ds_data_type s =? Z_UNKNOWN
    then t ← detect_data_type (ds_dyn_ltree s); Some (set_data_type s t) else Some s) =
    Some (set_data_type s dt)) as [dt ->].
  { destruct (_ =? _); [|exists (ds_data_type s); by destruct s].
    destruct (detect_data_type_total (ds_dyn_ltree s)) as [t ->]; [rewrite (sz_tree _ _ _ (dw_l _ Hwf)); lia|].
    by exists t. }
  simpl_bind. set (s0 := set_data_type s dt).
  assert (ds_wf s0) as Hwf0 by (destruct Hwf; by split). assert (same_io s s0) as Hio0 by by split.
  destruct (build_l_run s0 Hwf0) as (s1 & -> & Hwf1 & Hio1 & D1 & B1 & T1). simpl_bind.
  destruct (build_d_run s1 Hwf1) as (s2 & -> & Hwf2 & Hio2 & L2 & LM2 & B2 & T2). simpl_bind.
  destruct (build_bl_tree_run s2 toks (ds_dyn_ltree s0) (ds_dyn_dtree s1)) as (s3 & mi & -> & Hio3 & Hc); try done.
  - by rewrite B2, B1.
  - by rewrite L2, LM2.
  - by rewrite D1.
  - simpl_bind. do 4 eexists. split; [done|].
    split_and!; [|exact (cs_wf _ _ _ Hc)|by right].
    eapply same_io_trans; [exact Hio0|]. eapply same_io_trans; [exact Hio1|]. by eapply same_io_trans.
Qed.

(** ** Starting a block *)

Lemma clear_freq_run num tree :
  0 ≤ num ≤ Z.of_nat (length tree) →
  ∃ tree', clear_freq num tree = Some tree' ∧ length tree' = length tree ∧
    ∀ x, 0 ≤ x < num → fcz tree' x = 0.
Proof using.
  intros Hn. apply succeeds_elim. unfold clear_freq. eapply succeeds_mono.
  - apply (for_up_total (λ n t, length t = length tree ∧ ∀ x, 0 ≤ x < n → fcz t x = 0)).
    + intros j t Hj [Hl Hz]. destruct (aget_in t j ltac:(lia)) as [x ->]. simpl_bind.
      rewrite aset_in by lia. cbn [succeeds]. split; [by rewrite length_insert|].
      intros y Hy. rewrite fcz_insert by lia. case_decide; [done|]. apply Hz. lia.
    + split; [done|lia].
  - intros t [Hl Hz]. split; [done|]. intros x Hx. apply Hz. lia.
Qed.

Lemma init_block_run s :
  ds_wf s → ∃ s', init_block s = Some s' ∧ ds_ok s' [] ∧
    ds_out s' = ds_out s ∧ ds_lit_bufsize s' = ds_lit_bufsize s ∧ ds_level s' = ds_level s ∧
    ds_strategy s' = ds_strategy s.
Proof using.
  intros [Ho Hl Hb H1 H2 H3]. unfold init_block.
  pose proof (sz_tree _ _ _ H1) as S1. pose proof (sz_tree _ _ _ H2) as S2. pose proof (sz_tree _ _ _ H3) as S3.
  destruct (clear_freq_run L_CODES (ds_dyn_ltree s)) as (lt & -> & Ll & Zl); [change L_CODES with 286; lia|].
  destruct (clear_freq_run D_CODES (ds_dyn_dtree s)) as (dt & -> & Ld & Zd); [change D_CODES with 30; lia|].
  destruct (clear_freq_run BL_CODES (ds_bl_tree s)) as (bl & -> & Lb & Zb); [change BL_CODES with 19; lia|].
  simpl_bind. change END_BLOCK with 256. change L_CODES with 286 in Zl. change D_CODES with 30 in Zd.
  change BL_CODES with 19 in Zb.
  destruct (aget_in lt 256 ltac:(lia)) as [x ->]. simpl_bind.
  rewrite (aset_in lt) by lia. simpl_bind. eexists. split; [done|]. split; [|done].
  split; cbn [ds_out ds_last_lit ds_lit_bufsize ds_dyn_ltree ds_dyn_dtree ds_bl_tree set_tally set_lengths set_trees length].
  - destruct H1, H2, H3. split; cbn; try done; split; try done; rewrite ?length_insert; lia.
  - lia.
  - intros i t Ht. done.
  - by constructor.
  - intros y Hy. rewrite fcz_insert by lia. unfold lit_count. rewrite zsum_nil.
    destruct (decide (256 = y)) as [<-|]; [done|]. rewrite ind_false by lia. by rewrite Zl.
  - intros y Hy. by rewrite Zd.
  - intros y Hy. by rewrite Zb.
Qed.
(** ** Recording a token *)

Lemma incr_freq_run tree c n :
  0 ≤ c < Z.of_nat (length tree) → fcz tree c = n → 0 ≤ n < 65535 →
  ∃ tree', incr_freq tree c = Some tree' ∧ length tree' = length tree ∧
    ∀ x, fcz tree' x = fcz tree x + ind (c = x).
Proof using.
  intros Hc Hn Hr. unfold incr_freq. destruct (aget_in tree c Hc) as [x Hx]. rewrite Hx. simpl_bind.
  assert (fcz tree c = fc x) as Ef by (unfold fcz; by rewrite Hx).
  rewrite aset_in by done. eexists. split; [done|]. split; [by rewrite length_insert|].
  intros y. rewrite fcz_insert by done. rewrite (wrap_small 16) by (unfold in_width; lia).
  unfold ind. case_decide; [subst; cbn [fc]; lia|lia].
Qed.

(** The token goes into the overlay, past the pending output. *)
Lemma overlay_write buf lit toks dist lc :
  0 < lit → Z.of_nat (length buf) = 4 * lit → Z.of_nat (length toks) < lit →
  tallied buf lit toks → 0 ≤ dist < 65536 → in_width 8 lc →
  ∃ buf1 buf', d_buf_set buf lit (Z.of_nat (length toks)) dist = Some buf1 ∧
    l_buf_set buf1 lit (Z.of_nat (length toks)) lc = Some buf' ∧ length buf' = length buf ∧
    tallied buf' lit (toks ++ [(dist, lc)]) ∧
    (∀ p : nat, Z.of_nat p ≤ lit + 2 * Z.of_nat (length toks) → take p buf' = take p buf).
Proof using.
  intros Hlit Hlen Hn Htal Hd Hlc. unfold d_buf_set, l_buf_set. set (n := Z.of_nat (length toks)) in *.
  rewrite (aset_in buf) by lia. simpl_bind. rewrite aset_in by (rewrite length_insert; lia).
  set (buf1 := <[Z.to_nat (lit + 2 * n + 1):=_]> _). assert (length buf1 = length buf) as L1 by (unfold buf1; by rewrite !length_insert).
  exists buf1. rewrite (aset_in buf1) by lia. eexists. split_and!; [done|done|by rewrite length_insert| |].
  - assert (∀ k, aget (<[Z.to_nat (3 * lit + n) := lc]> buf1) k =
      if decide (3 * lit + n = k) then Some lc
      else if decide (lit + 2 * n + 1 = k) then Some (Z.shiftr dist 8)
      else if decide (lit + 2 * n = k) then Some (Z.land dist 255) else aget buf k) as Hg.
    { intros k. rewrite aget_insert by lia. case_decide; [done|]. unfold buf1.
      rewrite aget_insert by (rewrite length_insert; lia). case_decide; [done|]. by rewrite aget_insert by lia. }
    intros i t Hi. unfold d_buf_get, l_buf_get. rewrite !Hg.
    destruct (decide (i = length toks)) as [->|Hne].
    + rewrite list_lookup_middle in Hi by done. injection Hi as <-. cbn [fst snd].
      fold n. rewrite (decide_False (P := 3 * lit + n = lit + 2 * n)), (decide_False (P := lit + 2 * n + 1 = lit + 2 * n)),
        (decide_True (P := lit + 2 * n = lit + 2 * n)), (decide_False (P := 3 * lit + n = lit + 2 * n + 1)),
        (decide_True (P := lit + 2 * n + 1 = lit + 2 * n + 1)), (decide_True (P := 3 * lit + n = 3 * lit + n)) by lia.
      simpl_bind. split; [|done]. f_equal. change 255 with (Z.ones 8). rewrite Z.land_ones by lia.
      rewrite Z.shiftr_div_pow2 by lia. pose proof (Z.div_mod dist (2 ^ 8) ltac:(lia)). change (2 ^ 8) with 256 in *. lia.
    + assert (i < length toks)%nat as Hlt by (apply lookup_lt_Some in Hi; rewrite length_app in Hi; simpl in Hi; lia).
      rewrite lookup_app_l in Hi by done. specialize (Htal i t Hi). unfold d_buf_get, l_buf_get in Htal.
      rewrite !decide_False by lia. done.
  - intros p Hp. rewrite take_insert_ge by lia. unfold buf1. rewrite !take_insert_ge by lia. done.
Qed.

Lemma zsum_snoc {A} (f : A → Z) l x : zsum f (l ++ [x]) = zsum f l + f x.
Proof using. rewrite zsum_app, zsum_cons, zsum_nil. lia. Qed.

Lemma tally_run s toks dist lc :
  ds_ok s toks → tok_ok (dist, lc) → Z.of_nat (length toks) + 1 < ds_lit_bufsize s →
  pending (ds_out s) ≤ ds_lit_bufsize s + 2 * Z.of_nat (length toks) →
  ∃ s', _tr_tally s dist lc = Some (s', Z.of_nat (length toks) + 1 =? ds_lit_bufsize s - 1) ∧
    ds_ok s' (toks ++ [(dist, lc)]) ∧ out_bits (ds_out s') = out_bits (ds_out s) ∧
    pending (ds_out s') = pending (ds_out s) ∧ ds_lit_bufsize s' = ds_lit_bufsize s ∧
    ds_level s' = ds_level s ∧ ds_strategy s' = ds_strategy s.
Proof using.
  intros [[Ho Hl Hb H1 H2 H3] [El Hlt] Htal Htk Fl Fd Fb] Hok Hnext Hpend. unfold _tr_tally.
  pose proof (sz_tree _ _ _ H1) as S1. pose proof (sz_tree _ _ _ H2) as S2.
  destruct Hok as [Hd Hlc]. cbn [fst snd] in Hd, Hlc. rewrite El.
  rewrite (wrap_small 16 dist), (wrap_small 8 lc) by (done || unfold in_width; lia).
  destruct (overlay_write (pending_buf (ds_out s)) (ds_lit_bufsize s) toks dist lc ltac:(lia) Hb ltac:(lia) Htal ltac:(lia) Hlc) as
    (buf1 & buf' & -> & E2 & Lb & Htal' & Htake). simpl_bind. rewrite E2. simpl_bind.
  rewrite (wrap_small 32) by (unfold in_width; lia).
  pose proof Ho as [Hp Hsz Hby Hv Hbb].
  assert (out_wf W (Outbuf buf' (pending (ds_out s)) (bi_buf (ds_out s)) (bi_valid (ds_out s)))) as Ho'.
  { split; cbn [pending pending_buf bi_buf bi_valid]; rewrite ?Lb; try done. rewrite Htake by lia. done. }
  assert (out_bits (Outbuf buf' (pending (ds_out s)) (bi_buf (ds_out s)) (bi_valid (ds_out s))) = out_bits (ds_out s)) as Eb.
  { unfold out_bits. cbn [pending pending_buf bi_buf bi_valid]. by rewrite Htake by lia. }
  assert (Forall tok_ok (toks ++ [(dist, lc)])) as Htk' by (apply Forall_app; split; [done|by apply Forall_singleton]).
  destruct (tok_syms (dist, lc) (conj Hd Hlc)) as [R1 R2].
  pose proof (lit_count_le toks (tok_lsym (dist, lc))) as B1.
  assert (Z.of_nat (length (toks ++ [(dist, lc)])) = Z.of_nat (length toks) + 1) as Ln by (rewrite length_app; simpl; lia).
  cbn [ds_last_lit ds_lit_bufsize ds_dyn_ltree ds_dyn_dtree ds_bl_tree set_tally set_out].
  destruct (Z.eqb_spec dist 0) as [E0|E0].
  - assert (tok_lsym (dist, lc) = lc) as Els by (unfold tok_lsym; rewrite E0; done). rewrite Els in *.
    destruct (incr_freq_run (ds_dyn_ltree s) lc (lit_count toks lc)) as (lt & -> & Ll & Fl'); [lia|by apply Fl|lia|].
    simpl_bind. eexists. split; [done|]. split; [|done].
    split; cbn [ds_out ds_last_lit ds_lit_bufsize ds_dyn_ltree ds_dyn_dtree ds_bl_tree set_tally set_trees set_out pending_buf]; try done.
    + destruct H1. split; cbn; try done; [by rewrite Lb|split; try done; lia].
    + lia.
    + intros x Hx. rewrite Fl', Fl by done. unfold lit_count. rewrite zsum_snoc, Els. lia.
    + intros x Hx. rewrite Fd by done. unfold dist_count. rewrite zsum_snoc. cbn [fst]. rewrite ind_false by tauto. lia.
  - assert (tok_lsym (dist, lc) = 257 + nth (Z.to_nat lc) _length_code 0) as Els
      by (unfold tok_lsym; cbn [fst snd]; destruct (Z.eqb_spec dist 0); done).
    destruct (length_code_spec lc Hlc) as (i & b0 & x0 & e0 & Ei & _).
    assert (nth (Z.to_nat lc) _length_code 0 = Z.of_nat i) as Eni
      by (apply aget_some in Ei as [_ Ei]; by apply nth_lookup_Some).
    rewrite Ei. simpl_bind. replace (Z.of_nat i + LITERALS + 1) with (tok_lsym (dist, lc)) by (change LITERALS with 256; lia).
    destruct (incr_freq_run (ds_dyn_ltree s) (tok_lsym (dist, lc)) (lit_count toks (tok_lsym (dist, lc)))) as (lt & -> & Ll & Fl'); [lia|by apply Fl|lia|].
    simpl_bind. rewrite (wrap_small 32 (dist - 1)) by (unfold in_width; lia).
    assert (d_code (dist - 1) = Some (tok_dsym (dist, lc))) as ->.
    { unfold tok_dsym. cbn [fst]. destruct (d_code_spec (dist - 1) ltac:(lia)) as (j & ? & ? & ? & -> & _). done. }
    simpl_bind. specialize (R2 E0). pose proof (dist_count_le toks (tok_dsym (dist, lc))) as B2.
    destruct (incr_freq_run (ds_dyn_dtree s) (tok_dsym (dist, lc)) (dist_count toks (tok_dsym (dist, lc)))) as (dt & -> & Ld & Fd'); [lia|by apply Fd|lia|].
    simpl_bind. eexists. split; [done|]. split; [|done].
    split; cbn [ds_out ds_last_lit ds_lit_bufsize ds_dyn_ltree ds_dyn_dtree ds_bl_tree set_tally set_trees set_out pending_buf]; try done.
    + destruct H1, H2. split; cbn; try done; [by rewrite Lb|split; try done; lia|split; try done; lia].
    + lia.
    + intros x Hx. rewrite Fl', Fl by done. unfold lit_count. rewrite zsum_snoc. lia.
    + intros x Hx. rewrite Fd', Fd by done. unfold dist_count. rewrite zsum_snoc. cbn [fst].
      rewrite (ind_iff (dist ≠ 0 ∧ _) (tok_dsym (dist, lc) = x)) by tauto. lia.
Qed.
End blocks.
