(* ===== verification/TreeSession.v ===== *)
(** A block as a whole: [_tr_flush_block] sends a block of the deflate format,
    stored, with the fixed codes or with its own codes. *)

From Stdlib Require Import ZArith Lia.
From stdpp Require Import base option numbers list sets.
From S2P Require Import Prelude Sums Deflate Trees TreeFlush TreeBits TreeSend TreeCompress.
From S2P Require Import TreeHeap TreeSpec TreeRle TreeBlock.

Open Scope Z_scope.

(** How a block is sent. *)
Inductive shape :=
  | Stored (data : list Z)
  | Static
  | Dynamic (L D : list Z) (hs : list bool).

Definition shape_type (sh : shape) : Z :=
  match sh with Stored _ => STORED_BLOCK | Static => STATIC_TREES | Dynamic _ _ _ => DYN_TREES end.

(** The bits after the three bits of the block header, [n] bits into the
    stream. *)
Definition shape_bits (n : Z) (toks : list token) (sh : shape) : list bool :=
  match sh with
  | Stored data => stored_block_bits n data
  | Static => block_bits fixed_L fixed_D toks
  | Dynamic L D hs => hs ++ block_bits L D toks
  end.

Definition flush_bits (n last : Z) (toks : list token) (sh : shape) : list bool :=
  negb (last =? 0) :: bits_of 2 (shape_type sh) ++ shape_bits n toks sh.

(** The shape describes a block of the format for the tokens; [buf] is the data
    that they stand for, when it is still available. *)
Definition shape_ok (buf : option (list Z)) (toks : list token) (sh : shape) : Prop :=
  match sh with
  | Stored data => buf = Some data
  | Static => True
  | Dynamic L D hs => enc_header L D hs ∧ Forall (tok_coded L D) toks ∧ has_code L 256
  end.

(** The output does not reach the distances that are still to be read, when the
    tokens are sent from bit [n] on. *)
Definition overlay_at (L D : list Z) (n lit : Z) (toks : list token) : Prop :=
  ∀ k : nat, (k < length toks)%nat →
  n + Z.of_nat (length (toks_bits L D (take k toks))) ≤ 8 * (lit + 2 * Z.of_nat k).

Definition shape_overlay (n lit : Z) (toks : list token) (sh : shape) : Prop :=
  match sh with
  | Stored _ => True
  | Static => overlay_at fixed_L fixed_D (n + 3) lit toks
  | Dynamic L D hs => overlay_at L D (n + 3 + Z.of_nat (length hs)) lit toks
  end.

(** ** The format *)

Lemma fixed_has_code (i : nat) : (i < 288)%nat → has_code fixed_L i.
Proof.
  intros Hi. assert (forallb (λ i, match fixed_L !! i with Some l => (1 <=? l) && (l <=? 15) | None => false end) (seq 0 288) = true) as H
    by (by vm_compute).
  rewrite forallb_forall in H. specialize (H i ltac:(apply in_seq; lia)).
  destruct (fixed_L !! i) as [l|] eqn:E; [|done]. apply andb_true_iff in H as [H1%Z.leb_le H2%Z.leb_le].
  exists (Z.to_nat l). rewrite Z2Nat.id by lia. split; [done|lia].
Qed.

Lemma fixed_has_dcode (i : nat) : (i < 30)%nat → has_code fixed_D i.
Proof.
  intros Hi. exists 5%nat. split; [|lia]. unfold fixed_D. by rewrite lookup_replicate_2.
Qed.

Lemma fixed_coded toks : Forall tok_ok toks → Forall (tok_coded fixed_L fixed_D) toks.
Proof.
  intros Ht. eapply Forall_impl; [exact Ht|]. intros t Hok. destruct (tok_syms t Hok) as [H1 H2].
  apply tok_coded_used; [apply fixed_has_code; lia|]. intros Hne. specialize (H2 Hne). apply fixed_has_dcode. lia.
Qed.

(** What the bits mean: a block that produces the data. *)
Lemma shape_block n toks data buf sh rest out :
  0 ≤ n → Forall tok_ok toks → apply_items out (tok_item <$> toks) = Some (out ++ data) →
  (buf = None ∨ buf = Some data) → bytes data → Z.of_nat (length data) ≤ 65535 ∨ buf = None →
  (∀ d, sh = Stored d → (length rest mod 8 = 0)%nat) → shape_ok buf toks sh →
  block (shape_type sh) (shape_bits n toks sh ++ rest) rest out (out ++ data).
Proof.
  intros Hn Htk Hap Hbuf Hby Hlen Hrest Hsh. destruct sh as [d| |L D hs]; cbn [shape_type shape_bits shape_ok] in *.
  - destruct Hbuf as [->|Hb]; [done|]. rewrite Hsh in Hb. injection Hb as ->. destruct Hlen as [Hlen|?]; [|congruence].
    unfold stored_block_bits. rewrite <-app_assoc. apply block_stored; [|by apply (Hrest data)|done|done].
    rewrite length_replicate. pose proof (pad_of_spec (n + 3) ltac:(lia)). lia.
  - apply (block_fixed (tok_item <$> toks)); [|done].
    apply toks_enc; [done|by apply fixed_coded|apply fixed_has_code; lia].
  - destruct Hsh as (Hh & Hc & He). rewrite <-app_assoc.
    apply (block_dynamic L D (tok_item <$> toks)); [done| |done]. by apply toks_enc.
Qed.

(** ** Sending a block *)

Section flush.
Context (W : Z).

Lemma overlay_emits L D o bs o1 lit toks :
  emits W o bs o1 → overlay_at L D (Z.of_nat (length (out_bits o)) + Z.of_nat (length bs)) lit toks →
  overlay_ok L D o1 lit toks.
Proof.
  intros Em Hov k Hk. specialize (Hov k Hk). rewrite (em_bits _ _ _ _ Em), length_app. lia.
Qed.

(** The tokens are still there after the header has been sent. *)
Lemma tallied_after o bs o1 lit toks :
  emits W o bs o1 → tallied (pending_buf o) lit toks → pending o1 ≤ lit → Z.of_nat (length toks) ≤ lit →
  tallied (pending_buf o1) lit toks.
Proof.
  intros Em Ht Hp Hl i t Hi. assert (i < length toks)%nat by (exact (lookup_lt_Some _ _ _ Hi)).
  apply (tallied_emits W o bs o1 lit toks i t Em Ht Hi); lia.
Qed.

Lemma compress_after_header ltree dtree L D o bs o1 lit toks :
  tree_codes ltree L → tree_codes dtree D →
  emits W o bs o1 → tallied (pending_buf o) lit toks → Forall tok_ok toks → Forall (tok_coded L D) toks →
  has_code L 256 → 0 ≤ lit → Z.of_nat (length toks) ≤ lit →
  overlay_at L D (Z.of_nat (length (out_bits o)) + Z.of_nat (length bs)) lit toks →
  room o (Z.of_nat (length (bs ++ block_bits L D toks))) →
  ∃ o', compress_block W o1 lit (Z.of_nat (length toks)) ltree dtree = Some o' ∧
        emits W o (bs ++ block_bits L D toks) o'.
Proof.
  intros HL HD Em Htal Htk Hco Hend Hlit Hlen Hov Hroom.
  rewrite length_app, Nat2Z.inj_add in Hroom.
  assert (tallied (pending_buf o1) lit toks) as Htal1.
  { destruct toks as [|t0 toks]; [by intros i t Hi|].
    apply (tallied_after o bs o1 lit _ Em Htal); [|done].
    specialize (Hov 0%nat ltac:(simpl; lia)). cbn [take] in Hov. cbn in Hov.
    pose proof (length_out_bits W o1 (em_wf _ _ _ _ Em)) as L1.
    rewrite (em_bits _ _ _ _ Em), length_app in L1. pose proof (em_wf _ _ _ _ Em) as [_ _ _ Hv _]. lia. }
  destruct (compress_block_run W ltree dtree L D HL HD o1 lit toks) as (o' & E & Em'); try done.
  - exact (em_wf _ _ _ _ Em).
  - by eapply overlay_emits.
  - by eapply room_emits.
  - exists o'. split; [done|]. by eapply emits_trans.
Qed.

(** The end of [_tr_flush_block]: the next block is started, and the last byte
    is completed after the last block. *)
Lemma end_block_run s o0 bs o last :
  ds_wf W s → emits W o0 bs o → length (pending_buf o0) = length (pending_buf (ds_out s)) →
  (last = 0 ∨ last = 1) → room o0 (Z.of_nat (length bs) + 7) →
  ∃ s', (s ← init_block (set_out s o);
         if negb (last =? 0) then o ← bi_windup W (ds_out s); Some (set_out s o) else Some s) = Some s' ∧
    ds_ok W s' [] ∧ ds_lit_bufsize s' = ds_lit_bufsize s ∧ ds_level s' = ds_level s ∧
    ds_strategy s' = ds_strategy s ∧
    (last = 0 → emits W o0 bs (ds_out s')) ∧
    (last = 1 → bi_valid (ds_out s') = 0 ∧ ∃ k, (k < 8)%nat ∧ emits W o0 (bs ++ replicate k false) (ds_out s')).
Proof.
  intros [Ho Hl Hb H1 H2 H3] Em Hlen Hlast Hroom.
  destruct (init_block_run W (set_out s o)) as (s1 & -> & Hok & E1 & E2 & E3 & E4).
  { split; cbn; try done; [exact (em_wf _ _ _ _ Em)|]. rewrite (em_length _ _ _ _ Em), Hlen. done. }
  simpl_bind. cbn in E1, E2, E3, E4. destruct Hlast as [->| ->]; cbn [Z.eqb negb].
  - exists s1. rewrite E1. split_and!; try done.
  - rewrite E1. pose proof (em_wf _ _ _ _ Em) as Hwfo. pose proof Hwfo as [_ _ _ Hv _].
    pose proof (pad_of_spec (bi_valid o) ltac:(lia)) as [_ Hp].
    destruct (bi_windup_run W o Hwfo) as (o' & -> & Hv' & Em').
    { eapply room_emits; [exact Em|]. eapply room_mono; [|done]. lia. }
    simpl_bind. eexists. split; [done|]. cbn. split_and!; try done.
    + destruct Hok as [[? ? ? ? ? ?] ? ? ? ? ? ?]. split; cbn; try done.
      * split; cbn; try done; [exact (em_wf _ _ _ _ Em')|]. rewrite (em_length _ _ _ _ Em'). congruence.
    + intros _. split; [done|]. exists (pad_of (bi_valid o)). split; [lia|]. by eapply emits_trans.
Qed.

(** The shape that [_tr_flush_block] chooses. *)
Definition chosen_shape (s : deflate_state) (buf : option (list Z)) (stored_len : Z) : option shape :=
  '(s, mi, opt_lenb, static_lenb) ← choose_trees W s stored_len;
  Some match (if wrap W (stored_len + 4) <=? opt_lenb then buf else None) with
       | Some d => Stored d
       | None =>
           if (ds_strategy s =? Z_FIXED) || (static_lenb =? opt_lenb) then Static
           else Dynamic (lens_of (ds_dyn_ltree s) (ds_l_max s + 1)) (lens_of (ds_dyn_dtree s) (ds_d_max s + 1))
                  (dyn_header (ds_dyn_ltree s) (ds_dyn_dtree s) (ds_bl_tree s) (ds_l_max s) (ds_d_max s) mi)
       end.

Lemma flush_block_run s toks buf stored_len last :
  ds_ok W s toks → (last = 0 ∨ last = 1) →
  (∀ d, buf = Some d → bytes d ∧ stored_len = Z.of_nat (length d) ∧ stored_len ≤ 65535) →
  ∃ sh, chosen_shape s buf stored_len = Some sh ∧ shape_ok buf toks sh ∧
    let n := Z.of_nat (length (out_bits (ds_out s))) in
    let bs := flush_bits n last toks sh in
    (room (ds_out s) (Z.of_nat (length bs) + 7) → shape_overlay n (ds_lit_bufsize s) toks sh →
     ∃ s', _tr_flush_block W s buf stored_len last = Some s' ∧ ds_ok W s' [] ∧
       ds_lit_bufsize s' = ds_lit_bufsize s ∧ ds_level s' = ds_level s ∧ ds_strategy s' = ds_strategy s ∧
       (last = 0 → emits W (ds_out s) bs (ds_out s')) ∧
       (last = 1 → bi_valid (ds_out s') = 0 ∧
          ∃ k, (k < 8)%nat ∧ emits W (ds_out s) (bs ++ replicate k false) (ds_out s'))).
Proof.
  intros Hok Hlast Hbuf. destruct (choose_trees_run W s toks stored_len Hok) as (s1 & mi & ol & sl & Ech & Hio & Hwf1 & Hco).
  destruct Hok as [Hwf [El Hlt] Htal Htk _ _ _]. destruct Hio as [Io Il Ila Ist Ile].
  unfold _tr_flush_block, chosen_shape. rewrite Ech. simpl_bind.
  assert (∀ bs o', emits W (ds_out s) bs o' → room (ds_out s) (Z.of_nat (length bs) + 7) → _) as Hend
    by (intros bs o' Em Hr; exact (end_block_run s1 (ds_out s) bs o' last Hwf1 Em ltac:(by rewrite Io) Hlast Hr)).
  rewrite Il, Ile, Ist in Hend.
  pose proof (dw_out _ _ Hwf) as Hwfo. pose proof (dw_lit _ _ Hwf) as Hlit.
  destruct (if wrap W (stored_len + 4) <=? ol then buf else None) as [d|] eqn:Ebuf.
  { assert (buf = Some d) as Eb by (destruct (_ <=? _); done). destruct (Hbuf d Eb) as (Hby & Esl & Hsl).
    exists (Stored d). split; [done|]. split; [done|]. cbv zeta. intros Hroom _. rewrite Io, Esl.
    destruct (tr_stored_block_run W (ds_out s) d last Hwfo Hby ltac:(lia) Hlast) as (o' & -> & _ & Em).
    { eapply room_mono; [|exact Hroom]. cbn [flush_bits shape_bits shape_type length]. rewrite length_app, length_bits_of. lia. }
    simpl_bind. exact (Hend _ _ Em Hroom). }
  assert (∀ type, 0 ≤ type < 3 → sends W (λ o, send_bits W o (Z.shiftl type 1 + last) 3) (negb (last =? 0) :: bits_of 2 type)) as Hhead.
  { intros type Ht. destruct (header_bits type last Ht Hlast) as [Hw <-]. by apply (sends_bits W _ 3); [lia|]. }
  destruct ((ds_strategy s1 =? Z_FIXED) || (sl =? ol)) eqn:Est.
  { exists Static. split; [done|]. split; [done|]. cbv zeta. intros Hroom Hov. cbn [shape_overlay] in Hov.
    unfold flush_bits in *. cbn [shape_bits shape_type] in *. rewrite app_comm_cons in *. rewrite Io.
    assert (length (negb (last =? 0) :: bits_of 2 STATIC_TREES) = 3%nat) as L3 by (by destruct (negb _)).
    destruct (Hhead STATIC_TREES ltac:(by vm_compute) (ds_out s) Hwfo) as (o1 & -> & Em1).
    { eapply room_mono; [|exact Hroom]. rewrite length_app. lia. }
    simpl_bind. rewrite Il, Ila, El.
    destruct (compress_after_header static_ltree static_dtree fixed_L fixed_D (ds_out s) _ o1 (ds_lit_bufsize s) toks
      static_ltree_codes static_dtree_codes Em1 Htal Htk (fixed_coded toks Htk) (fixed_has_code 256 ltac:(lia))) as (o2 & -> & Em2).
    - lia.
    - lia.
    - rewrite L3. exact Hov.
    - eapply room_mono; [|exact Hroom]. lia.
    - simpl_bind. exact (Hend _ _ Em2 Hroom). }
  apply orb_false_iff in Est as [_ Hne%Z.eqb_neq]. destruct Hco as [?|Hco]; [congruence|].
  destruct Hco as [_ Hhd HcL HcD Hct].
  set (L := lens_of (ds_dyn_ltree s1) (ds_l_max s1 + 1)) in *. set (D := lens_of (ds_dyn_dtree s1) (ds_d_max s1 + 1)) in *.
  set (hs := dyn_header (ds_dyn_ltree s1) (ds_dyn_dtree s1) (ds_bl_tree s1) (ds_l_max s1) (ds_d_max s1) mi) in *.
  assert (has_code L 256) as H256.
  { apply (has_code_lens_of _ _ 15 256); [exact (hd_lcode _ _ _ _ _ _ Hhd)|lia| |exact (hd_end _ _ _ _ _ _ Hhd)].
    pose proof (hd_lmax _ _ _ _ _ _ Hhd). lia. }
  exists (Dynamic L D hs). split; [done|]. split; [split_and!; [by apply dyn_header_enc|done|done]|].
  cbv zeta. intros Hroom Hov. cbn [shape_overlay] in Hov. unfold flush_bits in *. cbn [shape_bits shape_type] in *.
  rewrite app_comm_cons, app_assoc in *. rewrite Io.
  assert (length (negb (last =? 0) :: bits_of 2 DYN_TREES) = 3%nat) as L3 by (by destruct (negb _)).
  pose proof Hroom as Hroom'. rewrite length_app in Hroom'.
  destruct (sends_bind W _ _ _ _ (Hhead DYN_TREES ltac:(by vm_compute)) (send_all_trees_run W _ _ _ _ _ _ Hhd)
    (ds_out s) Hwfo) as (o1 & Eo1 & Em1).
  { eapply room_mono; [|exact Hroom']. fold hs. lia. }
  destruct (send_bits W (ds_out s) (Z.shiftl DYN_TREES 1 + last) 3) as [o0|]; [|done]. simpl_bind in Eo1. simpl_bind.
  rewrite Eo1. simpl_bind. rewrite Il, Ila, El. fold hs in Em1.
  destruct (compress_after_header (ds_dyn_ltree s1) (ds_dyn_dtree s1) L D (ds_out s) _ o1 (ds_lit_bufsize s) toks
    HcL HcD Em1 Htal Htk Hct H256) as (o2 & -> & Em2).
  - lia.
  - lia.
  - rewrite length_app, L3. replace (Z.of_nat (3 + length hs)) with (3 + Z.of_nat (length hs)) by lia.
    rewrite Z.add_assoc. exact Hov.
  - eapply room_mono; [|exact Hroom]. lia.
  - simpl_bind. exact (Hend _ _ Em2 Hroom).
Qed.
End flush.

(** Whole streams: the tokens of a series of blocks are recorded with
    [_tr_tally] and flushed with [_tr_flush_block] and [flush_pending]; the
    bytes written are a deflate stream for the data. *)

(** ** The size of a block *)

Lemma length_msb_code lens i : has_code lens i → (length (sym_bits lens i) ≤ 15)%nat.
Proof.
  intros (l & Hl & Hr). unfold sym_bits. rewrite Hl, Nat2Z.id, length_msb_bits. lia.
Qed.

Lemma tok_bits_le L D t : tok_ok t → tok_coded L D t → (length (tok_bits L D t) ≤ 48)%nat.
Proof.
  destruct t as [dist lc]. intros [Hd Hl] Hc. cbn [fst snd] in *. destruct (decide (dist = 0)) as [->|].
  - unfold tok_bits, tok_coded in *. cbn [fst snd Z.eqb] in *. pose proof (length_msb_code _ _ Hc). lia.
  - destruct (match_parts_exist L D dist lc ltac:(lia) Hl Hc) as (i & j & b & x & e & b2 & y & e2 & [? ? ? ? Hx ? ? ? ? Hy -> HL HD]).
    apply extra_of_len in Hx as (_ & _ & Hx). apply extra_of_dist in Hy as (_ & _ & Hy).
    pose proof (length_msb_code _ _ HL). pose proof (length_msb_code _ _ HD).
    unfold value_bits. rewrite !length_app, !length_bits_of. lia.
Qed.

Lemma toks_bits_le L D toks :
  Forall tok_ok toks → Forall (tok_coded L D) toks → (length (toks_bits L D toks) ≤ 48 * length toks)%nat.
Proof.
  intros Hok Hc. induction toks as [|t toks IH]; [done|]. apply Forall_cons in Hok as [H1 H2]. apply Forall_cons in Hc as [C1 C2].
  change (toks_bits L D (t :: toks)) with (tok_bits L D t ++ toks_bits L D toks). rewrite length_app.
  pose proof (tok_bits_le L D t H1 C1). specialize (IH H2 C2). cbn [length]. lia.
Qed.

Lemma code_bits_le C i bs : Forall (in_width 3) C → code_bits C i bs → (length bs ≤ 7)%nat.
Proof.
  intros HC (l & Hl & _ & ->). rewrite length_msb_bits. pose proof (Forall_lookup_1 _ _ _ _ HC Hl) as H.
  unfold in_width in H. lia.
Qed.

Lemma enc_lengths_le C total acc fin bs :
  Forall (in_width 3) C → enc_lengths C total acc fin bs → (length bs ≤ 7 * (total - length acc))%nat.
Proof.
  intros HC. induction 1 as [acc Hl|acc fin v bs bs' Hl Hv Hb _ IH|acc fin sym v base x e bs bs' Hl Hr Hb He Ht _ IH].
  - simpl. lia.
  - rewrite length_app in *. pose proof (code_bits_le _ _ _ HC Hb). cbn [length] in IH. lia.
  - rewrite !length_app, length_replicate, length_bits_of in *. pose proof (code_bits_le _ _ _ HC Hb).
    unfold in_width in He. destruct Hr as [(_ & -> & -> & _)|[(_ & -> & -> & _)|(_ & -> & -> & _)]]; lia.
Qed.

Lemma enc_header_le L D hs : enc_header L D hs → (length hs ≤ 2283)%nat.
Proof.
  intros [C ncode bs HL HD Hn (HC & Hw & _) _ _ He _ _ _]. apply (enc_lengths_le _ _ _ _ _ Hw) in He. cbn [length] in He.
  rewrite !length_app, !length_bits_of. unfold enc_code_lengths.
  assert (length (take ncode length_order ≫= λ i, bits_of 3 (nth i C 0%Z)) ≤ 3 * ncode)%nat as Hb; [|lia].
  assert (∀ l : list nat, length (l ≫= λ i, bits_of 3 (nth i C 0%Z)) = (3 * length l)%nat) as Hl.
  { induction l as [|i l IH]; [done|]. change ((i :: l) ≫= ?f) with (f i ++ (l ≫= f)).
    rewrite length_app, IH, length_bits_of. cbn [length]. lia. }
  rewrite Hl, length_take. lia.
Qed.

(** A block of few tokens fits in a buffer for [lit] of them, whatever its codes
    are, and the output stays behind the tokens. *)
Definition fits_in (lit : Z) (buf : option (list Z)) (toks : list token) : Prop :=
  4 * Z.of_nat (length toks) + 300 ≤ lit ∧
  match buf with Some d => Z.of_nat (length d) + 16 ≤ 4 * lit | None => True end.

Lemma toks_bits_overlay L D n lit toks :
  Forall tok_ok toks → Forall (tok_coded L D) toks → n ≤ 2300 → 4 * Z.of_nat (length toks) + 300 ≤ lit →
  overlay_at L D n lit toks.
Proof.
  intros Hok Hc Hn Hl k Hk.
  pose proof (toks_bits_le L D (take k toks) (Forall_take _ _ _ Hok) (Forall_take _ _ _ Hc)) as H.
  rewrite length_take in H. lia.
Qed.

Lemma shape_fits n last lit buf toks sh :
  0 ≤ n < 8 → Forall tok_ok toks → fits_in lit buf toks → shape_ok buf toks sh →
  n + Z.of_nat (length (flush_bits n last toks sh)) + 7 ≤ 32 * lit ∧ shape_overlay n lit toks sh.
Proof.
  intros Hn Hok [Hl Hd] Hsh. unfold flush_bits. cbn [length]. rewrite length_app, length_bits_of.
  destruct sh as [d| |L D hs]; cbn [shape_bits shape_overlay shape_ok] in *.
  - rewrite Hsh in Hd. split; [|done]. unfold stored_block_bits, stored_bits.
    rewrite !length_app, length_replicate, !length_bits_of, length_bytes_bits.
    pose proof (pad_of_spec (n + 3) ltac:(lia)). lia.
  - pose proof (fixed_coded toks Hok) as Hc. pose proof (toks_bits_le _ _ _ Hok Hc).
    pose proof (length_msb_code _ _ (fixed_has_code 256 ltac:(lia))).
    split; [unfold block_bits; rewrite length_app; lia|]. apply toks_bits_overlay; (done || lia).
  - destruct Hsh as (Hh & Hc & He). pose proof (enc_header_le _ _ _ Hh). pose proof (toks_bits_le _ _ _ Hok Hc).
    pose proof (length_msb_code _ _ He).
    split; [unfold block_bits; rewrite !length_app; lia|]. apply toks_bits_overlay; (done || lia).
Qed.

(** ** Blocks in a row *)

(** A block: its tokens, the data they stand for, and whether that data is
    still in the window when the block is flushed. *)
Record blk := Blk { bk_toks : list token; bk_data : list Z; bk_avail : bool }.

Definition bk_buf (b : blk) : option (list Z) := if bk_avail b then Some (bk_data b) else None.

Section session.
Context (W : Z).

Fixpoint tally_all (s : deflate_state) (toks : list token) : option deflate_state :=
  match toks with
  | [] => Some s
  | t :: toks' => '(s, _) ← _tr_tally s t.1 t.2; tally_all s toks'
  end.

Definition put_block (s : deflate_state) (st : out_stream) (b : blk) (last : Z)
  : option (deflate_state * out_stream) :=
  s ← tally_all s (bk_toks b);
  s ← _tr_flush_block W s (bk_buf b) (Z.of_nat (length (bk_data b))) last;
  '(o, st) ← flush_pending W (ds_out s) st;
  Some (set_out s o, st).

(** The blocks [bs], then the last one. *)
Fixpoint put_blocks (s : deflate_state) (st : out_stream) (bs : list blk) (lastb : blk)
  : option (deflate_state * out_stream) :=
  match bs with
  | [] => put_block s st lastb 1
  | b :: bs' => '(s, st) ← put_block s st b 0; put_blocks s st bs' lastb
  end.

(** *** Room for the blocks *)

(** [overlay_at] and [shape_overlay], evaluated: [n] bits have been sent before
    token [k]. *)
Fixpoint overlay_check (L D : list Z) (n lit k : Z) (toks : list token) : bool :=
  match toks with
  | [] => true
  | t :: toks =>
      (n <=? 8 * (lit + 2 * k)) && overlay_check L D (n + Z.of_nat (length (tok_bits L D t))) lit (k + 1) toks
  end.

Definition shape_check (n lit : Z) (toks : list token) (sh : shape) : bool :=
  match sh with
  | Stored _ => true
  | Static => overlay_check fixed_L fixed_D (n + 3) lit 0 toks
  | Dynamic L D hs => overlay_check L D (n + 3 + Z.of_nat (length hs)) lit 0 toks
  end.

(** A block can be sent from the state in which its tokens are recorded: in the
    shape that the code chooses it fits in the pending buffer, and while it is
    sent the output does not pass the distance that is read next (the
    assertion on the overlay in [compress_block]). *)
Definition sendable (s : deflate_state) (b : blk) (last : Z) : bool :=
  match chosen_shape W s (bk_buf b) (Z.of_nat (length (bk_data b))) with
  | Some sh =>
      let n := Z.of_nat (length (out_bits (ds_out s))) in
      (n + Z.of_nat (length (flush_bits n last (bk_toks b) sh)) + 7 <=? 8 * Z.of_nat (length (pending_buf (ds_out s))))
      && shape_check n (ds_lit_bufsize s) (bk_toks b) sh
  | None => false
  end.

(** Every block of the run can be sent when its turn comes. *)
Fixpoint blocks_sendable (s : deflate_state) (st : out_stream) (bs : list blk) (lastb : blk) : bool :=
  match bs with
  | [] => match tally_all s (bk_toks lastb) with Some s1 => sendable s1 lastb 1 | None => false end
  | b :: bs' =>
      match tally_all s (bk_toks b), put_block s st b 0 with
      | Some s1, Some (s', st') => sendable s1 b 0 && blocks_sendable s' st' bs' lastb
      | _, _ => false
      end
  end.

Definition stream_sendable (s : deflate_state) (avail : Z) (bs : list blk) (lastb : blk) : bool :=
  match _tr_init s with Some s => blocks_sendable s (OutStream [] avail 0 0) bs lastb | None => false end.

Lemma overlay_check_spec L D lit toks : ∀ n k,
  overlay_check L D n lit k toks = true ↔
  ∀ j : nat, (j < length toks)%nat →
    n + Z.of_nat (length (toks_bits L D (take j toks))) ≤ 8 * (lit + 2 * (k + Z.of_nat j)).
Proof using.
  induction toks as [|t toks IH]; intros n k; cbn [overlay_check length]; [split; [intros _ j Hj; lia|done]|].
  rewrite andb_true_iff, Z.leb_le, IH. split.
  - intros [H0 Hr] [|j] Hj; [cbn; lia|]. specialize (Hr j ltac:(lia)). cbn [take].
    change (toks_bits L D (t :: take j toks)) with (tok_bits L D t ++ toks_bits L D (take j toks)). rewrite length_app. lia.
  - intros Hall. split; [specialize (Hall 0%nat ltac:(lia)); cbn in Hall; lia|]. intros j Hj. specialize (Hall (S j) ltac:(lia)).
    cbn [take] in Hall. change (toks_bits L D (t :: take j toks)) with (tok_bits L D t ++ toks_bits L D (take j toks)) in Hall.
    rewrite length_app in Hall. lia.
Qed.

Lemma shape_check_spec n lit toks sh : shape_check n lit toks sh = true ↔ shape_overlay n lit toks sh.
Proof using.
  destruct sh as [d| |L D hs]; cbn [shape_check shape_overlay]; [done|..]; unfold overlay_at; by rewrite overlay_check_spec.
Qed.

Lemma sendable_shape s b last :
  sendable s b last = true → ∃ sh, chosen_shape W s (bk_buf b) (Z.of_nat (length (bk_data b))) = Some sh ∧
    let n := Z.of_nat (length (out_bits (ds_out s))) in
    room (ds_out s) (Z.of_nat (length (flush_bits n last (bk_toks b) sh)) + 7) ∧
    shape_overlay n (ds_lit_bufsize s) (bk_toks b) sh.
Proof using.
  unfold sendable. destruct (chosen_shape _ _ _ _) as [sh|]; [|done]. cbv zeta.
  intros [Hr%Z.leb_le Ho%shape_check_spec]%andb_true_iff. exists sh. split; [done|]. split; [unfold room; lia|done].
Qed.

(** Between two blocks. *)
Record ready (s : deflate_state) (st : out_stream) : Prop := Ready {
  rd_ok : ds_ok W s [];
  rd_pending : pending (ds_out s) = 0;
  rd_valid : bi_valid (ds_out s) < 8;
  rd_pending_out : pending_out st = 0;
  rd_bytes : bytes (written st) }.

(** A block can be recorded, and its data follows from its tokens and what is
    before. *)
Definition blk_ok (lit : Z) (out : list Z) (b : blk) : Prop :=
  Forall tok_ok (bk_toks b) ∧ bytes (bk_data b) ∧ Z.of_nat (length (bk_toks b)) < lit ∧
  (bk_avail b = true → Z.of_nat (length (bk_data b)) ≤ 65535) ∧
  apply_items out (tok_item <$> bk_toks b) = Some (out ++ bk_data b).

Fixpoint blks_ok (lit : Z) (out : list Z) (bs : list blk) (lastb : blk) : Prop :=
  match bs with
  | [] => blk_ok lit out lastb
  | b :: bs' => blk_ok lit out b ∧ blks_ok lit (out ++ bk_data b) bs' lastb
  end.

Definition blks_data (bs : list blk) (lastb : blk) : list Z := (bs ≫= bk_data) ++ bk_data lastb.

Lemma tally_all_run s toks : ∀ done,
  ds_ok W s done → Forall tok_ok toks →
  Z.of_nat (length (done ++ toks)) < ds_lit_bufsize s → pending (ds_out s) ≤ ds_lit_bufsize s →
  ∃ s', tally_all s toks = Some s' ∧ ds_ok W s' (done ++ toks) ∧ out_bits (ds_out s') = out_bits (ds_out s) ∧
    pending (ds_out s') = pending (ds_out s) ∧ ds_lit_bufsize s' = ds_lit_bufsize s.
Proof using.
  revert s. induction toks as [|t toks IH]; intros s dn Hok Htk Hlen Hp; cbn [tally_all].
  { exists s. rewrite app_nil_r. done. }
  apply Forall_cons in Htk as [Ht Htk]. rewrite length_app in Hlen. cbn [length] in Hlen.
  destruct (tally_run W s dn t.1 t.2 Hok ltac:(by destruct t) ltac:(lia) ltac:(lia)) as
    (s1 & -> & Hok1 & Eb1 & Ep1 & El1 & _ & _). simpl_bind.
  assert ((t.1, t.2) = t) as Et by (by destruct t). rewrite Et in Hok1.
  destruct (IH s1 (dn ++ [t]) Hok1 Htk) as (s2 & -> & Hok2 & Eb2 & Ep2 & El2).
  { rewrite El1, !length_app. cbn [length]. lia. } { rewrite Ep1, El1. done. }
  exists s2. rewrite <-app_assoc in Hok2. cbn [app] in Hok2. split_and!; [done|done|congruence|congruence|congruence].
Qed.

(** One block: the stream goes on with the bits of a block, which follows the
    format whenever the rest ends on a byte boundary. *)
Lemma put_block_run s st b last out :
  ready s st → (last = 0 ∨ last = 1) → blk_ok (ds_lit_bufsize s) out b →
  (∀ s1, tally_all s (bk_toks b) = Some s1 → sendable s1 b last = true) →
  4 * ds_lit_bufsize s + 2 ≤ avail_out st →
  ∃ s' st' bs pad type, put_block s st b last = Some (s', st') ∧ ready s' st' ∧
    ds_lit_bufsize s' = ds_lit_bufsize s ∧
    avail_out st - (4 * ds_lit_bufsize s + 2) ≤ avail_out st' ∧
    stream_bits (ds_out s') st' = stream_bits (ds_out s) st ++ (negb (last =? 0) :: bits_of 2 type ++ bs) ++ pad ∧
    (last = 0 → pad = []) ∧ (last = 1 → (length pad < 8)%nat ∧ stream_bits (ds_out s') st' = bytes_bits (written st')) ∧
    ∀ rest, ((length (stream_bits (ds_out s) st) + 3 + length bs + length rest) mod 8 = 0)%nat →
      block type (bs ++ rest) rest out (out ++ bk_data b).
Proof using.
  intros [Hok Hp Hv Hpo Hby] Hlast (Htk & Hbd & Hlt & Hdl & Hap) Hsend Hav. unfold put_block.
  pose proof (dk_wf _ _ _ Hok) as Hwf. pose proof (dw_lit _ _ Hwf) as Hlit.
  destruct (tally_all_run s (bk_toks b) [] Hok Htk) as (s1 & Et1 & Hok1 & Eb1 & Ep1 & El1); [cbn [app]; lia|lia|].
  specialize (Hsend s1 Et1). rewrite Et1.
  cbn [mbind option_bind app] in *.
  destruct (flush_block_run W s1 (bk_toks b) (bk_buf b) (Z.of_nat (length (bk_data b))) last Hok1 Hlast) as (sh & Ech & Hsh & Hfl).
  { unfold bk_buf in *. destruct (bk_avail b); [|done]. intros d [= <-]. split_and!; [done|done|auto]. }
  destruct (sendable_shape s1 b last Hsend) as (sh' & Ech' & Hroom & Hov). rewrite Ech in Ech'. injection Ech' as <-.
  cbv zeta in Hfl, Hroom, Hov. rewrite Eb1 in Hfl, Hroom, Hov. pose proof (dw_out _ _ Hwf) as Hwfo. pose proof Hwfo as [_ _ _ Hv0 _].
  pose proof (length_out_bits W _ Hwfo) as Ln. set (n := Z.of_nat (length (out_bits (ds_out s)))) in *.
  assert (0 ≤ n < 8) as Hn by lia.
  pose proof (dw_buf _ _ (dk_wf _ _ _ Hok1)) as Hbuf1.
  destruct Hfl as (s2 & -> & Hok2 & El2 & _ & _ & H0 & H1).
  { exact Hroom. } { exact Hov. }
  simpl_bind.
  assert (∃ pad, emits W (ds_out s1) (flush_bits n last (bk_toks b) sh ++ pad) (ds_out s2) ∧ (last = 0 → pad = []) ∧
    (last = 1 → (length pad < 8)%nat ∧ bi_valid (ds_out s2) = 0)) as (pad & Em & Hpad0 & Hpad1).
  { destruct Hlast as [->| ->].
    - exists []. rewrite app_nil_r. split_and!; [by apply H0|done|done].
    - destruct (H1 eq_refl) as (Hv2 & k & Hk & Em). exists (replicate k false). split_and!; [done|done|].
      intros _. rewrite length_replicate. done. }
  pose proof (dk_wf _ _ _ Hok2) as Hwf2. pose proof (dw_out _ _ Hwf2) as Hwfo2. pose proof (dw_buf _ _ Hwf2) as Hbuf2.
  pose proof Hwfo2 as [Hp2 _ _ _ _].
  destruct (flush_pending_run W (ds_out s2) st) as (o' & st' & -> & Hwfo' & Hp' & Hv' & Hl' & Hpo' & Hby' & Est & Hav' & Hv0'); try done; try lia.
  { unfold room in *. rewrite (em_length _ _ _ _ Em). rewrite (em_bits _ _ _ _ Em), Eb1, !length_app in *. fold n in Hroom |- *.
    destruct Hlast as [El|El]; [rewrite (Hpad0 El); cbn [length]; lia|destruct (Hpad1 El); lia]. }
  simpl_bind. exists (set_out s2 o'), st', (shape_bits n (bk_toks b) sh), pad, (shape_type sh).
  split; [done|]. cbn [ds_out set_out ds_lit_bufsize].
  split_and!; try done; try congruence; try lia.
  - split; cbn [ds_out set_out]; [|done|done|done|done].
    destruct Hok2 as [[? ? ? ? ? ?] ? ? ? ? ? ?]. split; cbn; try done. split; cbn; try done. congruence.
  - rewrite Est. unfold stream_bits. rewrite (em_bits _ _ _ _ Em), Eb1, <-app_assoc. done.
  - intros El. destruct (Hpad1 El) as [Hlp Hv2]. split; [done|]. unfold stream_bits, out_bits.
    rewrite Hp', (Hv0' Hv2). cbn. by rewrite app_nil_r.
  - intros rest Hrest. apply (shape_block n (bk_toks b) (bk_data b) (bk_buf b)); try done; [lia| | |].
    + unfold bk_buf. destruct (bk_avail b); auto.
    + unfold bk_buf in *. destruct (bk_avail b); [left; auto|by right].
    + intros d ->. cbn [shape_bits] in Hrest. unfold stored_block_bits, stored_bits, stream_bits in Hrest.
      rewrite !length_app, length_replicate, !length_bits_of, !length_bytes_bits in Hrest.
      pose proof (pad_of_spec (n + 3) ltac:(lia)) as [Hm _].
      apply (f_equal Z.of_nat) in Hrest. apply Nat2Z.inj. rewrite Nat2Z.inj_mod in Hrest |- *.
      change (Z.of_nat 8) with 8 in *. change (Z.of_nat 0) with 0 in *.
      Z.to_euclidean_division_equations. lia.
Qed.

(** *** Blocks of few symbols *)

Lemma few_sendable s b last :
  ds_ok W s (bk_toks b) → (last = 0 ∨ last = 1) → bytes (bk_data b) →
  (bk_avail b = true → Z.of_nat (length (bk_data b)) ≤ 65535) → Z.of_nat (length (out_bits (ds_out s))) < 8 →
  fits_in (ds_lit_bufsize s) (bk_buf b) (bk_toks b) → sendable s b last = true.
Proof using.
  intros Hok Hlast Hby Hdl Hn Hfit. unfold sendable.
  destruct (flush_block_run W s (bk_toks b) (bk_buf b) (Z.of_nat (length (bk_data b))) last Hok Hlast) as (sh & -> & Hsh & _).
  { unfold bk_buf. destruct (bk_avail b); [|done]. intros d [= <-]. split_and!; [done|done|auto]. }
  cbv zeta. destruct (shape_fits _ last _ _ _ sh ltac:(split; [apply Nat2Z.is_nonneg|exact Hn]) (dk_toks _ _ _ Hok) Hfit Hsh) as [Hr Ho].
  apply andb_true_iff. split; [|by apply shape_check_spec]. apply Z.leb_le. rewrite (dw_buf _ _ (dk_wf _ _ _ Hok)). lia.
Qed.

(** If every block has few symbols, they can all be sent. *)
Definition few (lit : Z) (b : blk) : Prop := fits_in lit (bk_buf b) (bk_toks b).

Lemma few_block s st b last out :
  ready s st → (last = 0 ∨ last = 1) → blk_ok (ds_lit_bufsize s) out b → few (ds_lit_bufsize s) b →
  ∀ s1, tally_all s (bk_toks b) = Some s1 → sendable s1 b last = true.
Proof using.
  intros [Hok Hp Hv _ _] Hlast (Htk & Hby & Hlt & Hdl & _) Hfew s1 E.
  destruct (tally_all_run s (bk_toks b) [] Hok Htk) as (s1' & E' & Hok1 & Eb & Ep & El); [cbn [app]; lia| |].
  { pose proof (dw_lit _ _ (dk_wf _ _ _ Hok)). lia. }
  rewrite E in E'. injection E' as <-. apply few_sendable; try done; [|by rewrite El].
  rewrite Eb, (length_out_bits W _ (dw_out _ _ (dk_wf _ _ _ Hok))). lia.
Qed.

Lemma few_blocks_sendable lastb bs : ∀ s st out,
  ready s st → blks_ok (ds_lit_bufsize s) out bs lastb → Forall (few (ds_lit_bufsize s)) (bs ++ [lastb]) →
  Z.of_nat (S (length bs)) * (4 * ds_lit_bufsize s + 2) ≤ avail_out st →
  blocks_sendable s st bs lastb = true.
Proof using.
  induction bs as [|b bs IH]; intros s st out Hrd Hbs Hfew Hav; cbn [blks_ok blocks_sendable app length] in *;
    pose proof (dw_lit _ _ (dk_wf _ _ _ (rd_ok _ _ Hrd))) as Hlit; apply Forall_cons in Hfew as [Hf Hfew].
  - pose proof (few_block s st lastb 1 out Hrd ltac:(by right) Hbs Hf) as Hs.
    destruct (put_block_run s st lastb 1 out Hrd ltac:(by right) Hbs Hs) as (s' & st' & _ & _ & _ & E & _); [lia|].
    unfold put_block in E. destruct (tally_all s (bk_toks lastb)); [by apply Hs|done].
  - destruct Hbs as [Hb Hbs]. pose proof (few_block s st b 0 out Hrd ltac:(by left) Hb Hf) as Hs.
    destruct (put_block_run s st b 0 out Hrd ltac:(by left) Hb Hs) as (s1 & st1 & _ & _ & _ & E & Hrd1 & El & Hav1 & _); [lia|].
    rewrite E. unfold put_block in E. destruct (tally_all s (bk_toks b)) as [s0|]; [|done].
    rewrite (Hs s0 eq_refl). apply (IH s1 st1 (out ++ bk_data b) Hrd1); rewrite ?El; [done|done|lia].
Qed.

Lemma bytes_bits_mod (l : list Z) : (length (bytes_bits l) mod 8 = 0)%nat.
Proof using. rewrite length_bytes_bits, Nat.mul_comm. apply Nat.Div0.mod_mul. Qed.

Lemma put_blocks_run lastb bs : ∀ s st out,
  ready s st → blks_ok (ds_lit_bufsize s) out bs lastb → blocks_sendable s st bs lastb = true →
  Z.of_nat (S (length bs)) * (4 * ds_lit_bufsize s + 2) ≤ avail_out st →
  ∃ s' st' bits rest, put_blocks s st bs lastb = Some (s', st') ∧ bytes (written st') ∧
    bytes_bits (written st') = stream_bits (ds_out s) st ++ bits ∧ (length rest < 8)%nat ∧
    deflate bits rest out (out ++ blks_data bs lastb).
Proof using.
  induction bs as [|b bs IH]; intros s st out Hrd Hbs Hsend Hav; cbn [put_blocks blks_ok blocks_sendable] in *;
    pose proof (dw_lit _ _ (dk_wf _ _ _ (rd_ok _ _ Hrd))) as Hlit.
  - destruct (put_block_run s st lastb 1 out Hrd ltac:(by right) Hbs) as
      (s' & st' & bits & pad & type & -> & Hrd' & _ & _ & Est & _ & H1 & Hblk);
      [by destruct (tally_all s (bk_toks lastb)); [intros s1 [= <-]|]|cbn [length] in Hav; lia|].
    destruct (H1 eq_refl) as [Hpad Eall]. exists s', st', ((true :: bits_of 2 type ++ bits) ++ pad), pad.
    split; [done|]. split; [exact (rd_bytes _ _ Hrd')|]. rewrite <-Eall, Est. split; [done|]. split; [exact Hpad|].
    cbn [app]. rewrite <-app_assoc. apply deflate_last. unfold blks_data. cbn [mbind list_bind app]. apply Hblk.
    pose proof (bytes_bits_mod (written st')) as Hm. rewrite <-Eall, Est in Hm. cbn [app] in Hm.
    rewrite !length_app in Hm. cbn [length] in Hm. rewrite !length_app, length_bits_of in Hm. rewrite <-Hm. f_equal; lia.
  - destruct Hbs as [Hb Hbs]. destruct (tally_all s (bk_toks b)) as [s0|] eqn:E0; [|done].
    destruct (put_block_run s st b 0 out Hrd ltac:(by left) Hb) as
      (s1 & st1 & bits & pad & type & E1 & Hrd1 & El1 & Hav1 & Est & H0 & _ & Hblk);
      [rewrite E0; intros s2 [= <-]; destruct (put_block s st b 0) as [[? ?]|]; [by apply andb_true_iff in Hsend as [? _]|done]
      |cbn [length] in Hav; lia|].
    rewrite E1 in Hsend |- *. apply andb_true_iff in Hsend as [_ Hsend].
    rewrite (H0 eq_refl), app_nil_r in Est. simpl_bind.
    destruct (IH s1 st1 (out ++ bk_data b) Hrd1) as (s' & st' & bits' & rest & E & Hby & Eall & Hrest & Hd).
    { by rewrite El1. } { done. } { rewrite El1. cbn [length] in Hav |- *. lia. }
    exists s', st', (false :: bits_of 2 type ++ bits ++ bits'), rest. split; [done|]. split; [done|].
    split; [|split; [done|]].
    + rewrite Eall, Est. cbn [Z.eqb negb]. rewrite <-app_assoc. cbn [app]. by rewrite <-app_assoc.
    + eapply deflate_more; [apply Hblk|].
      * pose proof (bytes_bits_mod (written st')) as Hm. rewrite Eall, Est in Hm.
        rewrite !length_app in Hm. cbn [length] in Hm. rewrite !length_app, length_bits_of in Hm. rewrite <-Hm. f_equal; lia.
      * unfold blks_data. cbn [mbind list_bind]. rewrite <-app_assoc in Hd. rewrite <-app_assoc. exact Hd.
Qed.

(** ** From the start *)

(** The state that [deflateInit2_] sets up before it calls [_tr_init]: the
    arrays have their sizes, nothing is pending. *)
Record fresh (s : deflate_state) : Prop := Fresh {
  fr_lit : 0 < ds_lit_bufsize s ≤ 32768;
  fr_buf : Z.of_nat (length (pending_buf (ds_out s))) = 4 * ds_lit_bufsize s;
  fr_width : 131072 < 2 ^ W;
  fr_pending : pending (ds_out s) = 0;
  fr_l : sizes 286 (ds_work s) (ds_dyn_ltree s);
  fr_d : sizes 30 (ds_work s) (ds_dyn_dtree s);
  fr_bl : sizes 19 (ds_work s) (ds_bl_tree s) }.

Lemma tr_init_run s avail :
  fresh s → ∃ s', _tr_init s = Some s' ∧ ready s' (OutStream [] avail 0 0) ∧
    ds_lit_bufsize s' = ds_lit_bufsize s ∧ stream_bits (ds_out s') (OutStream [] avail 0 0) = [].
Proof using.
  intros [Hl Hb Hw Hp H1 H2 H3]. unfold _tr_init.
  destruct (init_block_run W (set_out s (set_bi (ds_out s) 0 0))) as (s' & -> & Hok & Eo & El & _ & _).
  { split; cbn; try done. split; cbn; rewrite ?Hp; [lia|lia|by constructor|lia|done]. }
  exists s'. cbn in Eo, El. split; [done|]. split; [split; rewrite ?Eo; cbn; try done; by constructor|].
  split; [done|]. unfold stream_bits, out_bits. rewrite Eo. cbn. rewrite Hp. done.
Qed.

Definition tr_stream (s : deflate_state) (avail : Z) (bs : list blk) (lastb : blk) : option (list Z) :=
  s ← _tr_init s;
  '(_, st) ← put_blocks s (OutStream [] avail 0 0) bs lastb;
  Some (written st).

Lemma tr_stream_run s avail bs lastb :
  fresh s → blks_ok (ds_lit_bufsize s) [] bs lastb → stream_sendable s avail bs lastb = true →
  Z.of_nat (S (length bs)) * (4 * ds_lit_bufsize s + 2) ≤ avail →
  ∃ src rest, tr_stream s avail bs lastb = Some src ∧ bytes src ∧ (length rest < 8)%nat ∧
    deflate (bytes_bits src) rest [] (blks_data bs lastb).
Proof using.
  intros Hfr Hbs Hsend Hav. unfold tr_stream, stream_sendable in *.
  destruct (tr_init_run s avail Hfr) as (s1 & E1 & Hrd & El & E0). rewrite E1 in Hsend |- *. simpl_bind.
  destruct (put_blocks_run lastb bs s1 (OutStream [] avail 0 0) [] Hrd) as (s2 & st2 & bits & rest & -> & Hby & Eb & Hr & Hd).
  { by rewrite El. } { done. } { by rewrite El. }
  simpl_bind. exists (written st2), rest. rewrite Eb, E0. done.
Qed.
End session.
