(* ===== verification/TreeTheorems.v ===== *)
(** The theorems on the compressor's back end ([trees.c] and [flush_pending]):
    what it writes is the deflate format, and [puff] decodes it to the data. *)

From Stdlib Require Import ZArith Lia.
From stdpp Require Import base option numbers list sets.
From S2P Require Import Prelude Sums Deflate Puff PuffSpec PuffTop Trees TreeFlush TreeBits.
From S2P Require Import TreeSend TreeCompress TreeHeap TreeLens TreeSpec TreeRle TreeBlock.
From S2P Require Import TreeSession.

Open Scope Z_scope.

(** ** A state to start from *)

(** The arrays as [deflateInit2_] allocates them, for [lit] symbols. *)
Definition alloc_state (lit level strategy : Z) : deflate_state :=
  DeflateState Z_UNKNOWN level strategy (Outbuf (replicate (Z.to_nat (4 * lit)) 0) 0 0 0) lit
    (replicate 573 (Ct 0 0)) (replicate 61 (Ct 0 0)) (replicate 39 (Ct 0 0)) 0 0 0
    (Heapst (replicate 573 0) 0 0 (replicate 573 0) (replicate 16 0)) 0 0 0 0.

Lemma alloc_fresh lit level strategy : 0 < lit ≤ 32768 → fresh 64 (alloc_state lit level strategy).
Proof.
  intros Hl. split; cbn [alloc_state ds_lit_bufsize ds_out pending_buf pending ds_work ds_dyn_ltree ds_dyn_dtree ds_bl_tree].
  - done.
  - rewrite length_replicate. lia.
  - done.
  - done.
  - split; done.
  - split; done.
  - split; done.
Qed.

(** ** Whole streams *)

(** C2. Compressor back end against decompressor: whatever the blocks are that
    [_tr_tally] records and [_tr_flush_block] closes (stored, fixed or dynamic,
    as the code chooses), the bytes that [flush_pending] writes are decoded by
    [puff] to the data that the recorded symbols stand for, all of the stream
    being used.  The tokens are valid; a block has fewer of them than
    [lit_bufsize], and data that can still be stored has at most 65535 bytes;
    in the shape that the code chooses every block fits in the pending buffer,
    and while it is sent the output does not pass the distances that are still
    to be read ([stream_sendable], the assertion of [compress_block], which
    can fail: see [flush_overwrites_overlay]); and the stream has room for a
    full buffer per block. *)
Theorem tr_stream_puff_roundtrip (W : Z) (s : deflate_state) (avail : Z) (bs : list blk) (lastb : blk) :
  fresh W s → blks_ok (ds_lit_bufsize s) [] bs lastb → stream_sendable W s avail bs lastb = true →
  Z.of_nat (S (length bs)) * (4 * ds_lit_bufsize s + 2) ≤ avail →
  ∃ src, tr_stream W s avail bs lastb = Some src ∧
    let data := blks_data bs lastb in
    ∀ mem buf destlen, puff_pre W mem (Some buf) destlen src → Z.of_nat (length data) ≤ destlen →
    puff W mem (Some buf) destlen src (Z.of_nat (length src)) =
    Some (PuffResult 0 (Z.of_nat (length data)) (Z.of_nat (length src))
            (Some (data ++ drop (length data) buf))).
Proof.
  intros Hfr Hbs Hsend Hav. destruct (tr_stream_run W s avail bs lastb Hfr Hbs Hsend Hav) as (src & rest & E & _ & Hr & Hd).
  exists src. split; [done|]. cbv zeta. intros mem buf destlen Hpre Hlen.
  destruct (puff_run W mem (Some buf) destlen src Hpre _ _ Hd) as [Hy _]. rewrite Hy by (by intros _).
  rewrite Z.div_small by lia. by rewrite Z.sub_0_r.
Qed.

(** With a buffer for 128 symbols (memLevel 1): a full block of 127 literals,
    as deflate makes it, whose data has left the window; then "xy", which is
    stored; then "abcabcabc" as three literals and a match. *)
Definition full_block : blk :=
  let d := (λ i, Z.of_nat (i mod 11) + 97) <$> seq 0 127 in Blk ((λ c, (0, c)) <$> d) d false.
Definition stored_block : blk := Blk [(0, 120); (0, 121)] [120; 121] true.
Definition end_block : blk :=
  Blk [(0, 97); (0, 98); (0, 99); (3, 3)] [97; 98; 99; 97; 98; 99; 97; 98; 99] false.

Lemma three_blocks_ok : blks_ok 128 [] [full_block; stored_block] end_block.
Proof.
  split; [|split]; (split; [|split; [|split; [by vm_compute|split; [done|by vm_compute]]]]);
    cbn; repeat constructor; cbn; (lia || done).
Qed.

Lemma tr_stream_puff_roundtrip_witness :
  ∃ src, tr_stream 64 (alloc_state 128 6 0) 5000 [full_block; stored_block] end_block = Some src ∧
    ∀ buf, length buf = 138%nat → puff_pre 64 zero_mem (Some buf) 138 src →
    puff 64 zero_mem (Some buf) 138 src (Z.of_nat (length src)) =
    Some (PuffResult 0 138 (Z.of_nat (length src))
      (Some (bk_data full_block ++ [120; 121; 97; 98; 99; 97; 98; 99; 97; 98; 99] ++ drop 138 buf))).
Proof.
  destruct (tr_stream_puff_roundtrip 64 (alloc_state 128 6 0) 5000 [full_block; stored_block] end_block) as (src & E & H).
  - apply alloc_fresh. lia.
  - exact three_blocks_ok.
  - vm_compute. reflexivity.
  - cbn. lia.
  - exists src. split; [exact E|]. intros buf _ Hpre. apply (H zero_mem buf 138 Hpre). cbn. lia.
Defined.

(** C12. [_tr_flush_block] implements the format: on a state in which [toks] have
    been recorded it chooses one of the three block types; if the block fits in
    the pending buffer and does not reach the symbols still to be read, the call
    succeeds, exactly the bits of that block (and, after the last block, up to
    seven zero bits) are appended to the output, and the state is ready for the
    next block; and those bits are a block of the format for [data]. *)
Theorem flush_block_refines_format (W : Z) (s : deflate_state) (toks : list token)
    (buf : option (list Z)) (data out : list Z) (last : Z) :
  ds_ok W s toks → (last = 0 ∨ last = 1) → (buf = None ∨ buf = Some data) → bytes data →
  Z.of_nat (length data) ≤ 65535 → apply_items out (tok_item <$> toks) = Some (out ++ data) →
  let n := Z.of_nat (length (out_bits (ds_out s))) in
  ∃ sh, let bs := flush_bits n last toks sh in
    (∀ rest, (length rest mod 8 = 0)%nat →
       block (shape_type sh) (shape_bits n toks sh ++ rest) rest out (out ++ data)) ∧
    (room (ds_out s) (Z.of_nat (length bs) + 7) → shape_overlay n (ds_lit_bufsize s) toks sh →
     ∃ s' pad, _tr_flush_block W s buf (Z.of_nat (length data)) last = Some s' ∧ ds_ok W s' [] ∧
       emits W (ds_out s) (bs ++ pad) (ds_out s') ∧ (length pad < 8)%nat ∧ (last = 0 → pad = []) ∧
       (last = 1 → bi_valid (ds_out s') = 0)).
Proof.
  intros Hok Hlast Hbuf Hby Hlen Hap n.
  destruct (flush_block_run W s toks buf (Z.of_nat (length data)) last Hok Hlast) as (sh & _ & Hsh & Hrun).
  { intros d ->. destruct Hbuf as [|[= ->]]; [done|]. split_and!; (done || lia). }
  exists sh. cbv zeta in *. split.
  - intros rest Hr. apply (shape_block n toks data buf); try done; [lia|exact (dk_toks _ _ _ Hok)|by left].
  - intros Hroom Hov. destruct (Hrun Hroom Hov) as (s' & E & Hok' & _ & _ & _ & H0 & H1).
    destruct Hlast as [->| ->].
    + exists s', []. rewrite app_nil_r. split_and!; try done; [by apply H0|simpl; lia].
    + destruct (H1 eq_refl) as (Hv & k & Hk & Em). exists s', (replicate k false). rewrite length_replicate.
      split_and!; try done.
Qed.

(** The state after recording tokens in a new stream. *)
Definition tallied_state (lit level strategy : Z) (toks : list token) : deflate_state :=
  default (alloc_state lit level strategy)
    (s ← _tr_init (alloc_state lit level strategy); tally_all s toks).

Lemma tallied_state_ok lit level strategy toks :
  0 < lit ≤ 32768 → Forall tok_ok toks → Z.of_nat (length toks) < lit →
  ds_ok 64 (tallied_state lit level strategy toks) toks ∧
  out_bits (ds_out (tallied_state lit level strategy toks)) = [] ∧
  ds_lit_bufsize (tallied_state lit level strategy toks) = lit ∧
  pending (ds_out (tallied_state lit level strategy toks)) = 0.
Proof.
  intros Hl Htk Hn. unfold tallied_state.
  destruct (tr_init_run 64 (alloc_state lit level strategy) 0 (alloc_fresh lit level strategy Hl)) as (s1 & -> & Hrd & El & E0).
  simpl_bind. cbn in El. pose proof (rd_ok _ _ _ Hrd) as Hok. pose proof (rd_pending _ _ _ Hrd).
  destruct (tally_all_run 64 s1 toks [] Hok Htk) as (s2 & -> & Hok2 & Eb & Ep & El2).
  { rewrite El. cbn [app]. lia. } { lia. }
  cbn. rewrite Eb, El2, Ep. cbn [app] in Hok2. unfold stream_bits in E0. cbn in E0. done.
Qed.

Definition one_token : list token := [(0, 97)].

Lemma flush_block_refines_format_witness :
  let s := tallied_state 512 6 0 one_token in
  ds_ok 64 s one_token ∧
  ∃ sh, (∀ rest, (length rest mod 8 = 0)%nat →
           block (shape_type sh) (shape_bits 0 one_token sh ++ rest) rest [] [97]) ∧
        (room (ds_out s) (Z.of_nat (length (flush_bits 0 1 one_token sh)) + 7) →
         shape_overlay 0 512 one_token sh →
         ∃ s', _tr_flush_block 64 s None 1 1 = Some s' ∧ ds_ok 64 s' []).
Proof.
  destruct (tallied_state_ok 512 6 0 one_token ltac:(lia)) as (Hok & Eb & El & _); [by repeat constructor|done|].
  cbv zeta. generalize dependent (tallied_state 512 6 0 one_token). intros s Hok Eb El. split; [exact Hok|].
  destruct (flush_block_refines_format 64 s one_token None [97] [] 1 Hok) as (sh & H1 & H2);
    [by right|by left|by repeat constructor|cbn; lia|done|].
  rewrite Eb in H1, H2. rewrite El in H2. exists sh. split; [exact H1|]. intros Hr Ho.
  destruct (H2 Hr Ho) as (s' & pad & E & Hok' & _). by exists s'.
Defined.

(** [_tr_tally] keeps the record of the block exact: the token goes into the
    overlay behind the earlier ones, which stay readable; the frequencies are
    the numbers of occurrences of the symbols; the output already pending is
    untouched; and the result says whether the buffer is now full. *)
Theorem tally_records (W : Z) (s : deflate_state) (toks : list token) (dist lc : Z) :
  ds_ok W s toks → 0 ≤ dist ≤ 32768 → in_width 8 lc →
  Z.of_nat (length toks) + 1 < ds_lit_bufsize s →
  pending (ds_out s) ≤ ds_lit_bufsize s + 2 * Z.of_nat (length toks) →
  ∃ s', _tr_tally s dist lc = Some (s', Z.of_nat (length toks) + 1 =? ds_lit_bufsize s - 1) ∧
    ds_ok W s' (toks ++ [(dist, lc)]) ∧ out_bits (ds_out s') = out_bits (ds_out s).
Proof.
  intros Hok Hd Hl Hn Hp. destruct (tally_run W s toks dist lc Hok (conj Hd Hl) Hn Hp) as (s' & E & Hok' & Eb & _).
  by exists s'.
Qed.

Lemma tally_records_witness :
  ∃ s', _tr_tally (tallied_state 512 6 0 one_token) 1 255 = Some (s', false) ∧
    ds_ok 64 s' [(0, 97); (1, 255)].
Proof.
  destruct (tallied_state_ok 512 6 0 one_token ltac:(lia)) as (Hok & Eb & El & Ep); [by repeat constructor|done|].
  generalize dependent (tallied_state 512 6 0 one_token). intros s Hok Eb El Ep.
  destruct (tally_records 64 s one_token 1 255 Hok) as (s' & E & H & _).
  - lia.
  - done.
  - rewrite El. cbn. lia.
  - rewrite El, Ep. cbn. lia.
  - rewrite El in E. exists s'. split; [exact E|exact H].
Defined.

(** ** The Huffman codes *)

(** C13. [build_tree] on any frequencies: it terminates without leaving the
    arrays, and the lengths up to [max_code] form a complete prefix code in which
    no code is longer than [max_length] (the Kraft sum is exactly one, however
    many lengths had to be cut); every symbol with a frequency has a code; and
    the codes are the canonical ones, stored bit-reversed. *)
Theorem build_tree_complete_code (W E : Z) (M : nat) (s : heapst) (sd : static_tree_desc)
    (tree : list ct_data) (opt stat : Z) :
  desc_ok E M sd → sizes E s tree →
  ∃ b, build_tree W s sd tree opt stat = Some b ∧
    let lens := dl <$> take (Z.to_nat (bt_max_code b + 1)) (bt_tree b) in
    1 ≤ bt_max_code b < E ∧ Forall (λ l, 0 ≤ l ≤ Z.of_nat M) lens ∧ not_over lens ∧ complete lens ∧
    tree_codes (bt_tree b) lens ∧
    ∀ x, 0 ≤ x < E → fcz tree x ≠ 0 → x ≤ bt_max_code b ∧ dlz (bt_tree b) x ≠ 0.
Proof.
  intros Hd Hs. destruct (build_tree_run W E M s sd tree opt stat Hd Hs) as (b & E1 & _ & [Hm _ [Hr Ho Hl] Hc Hu _ _]).
  exists b. split; [done|]. cbv zeta. split_and!; try done; lia || idtac. by intros l ->.
Qed.

(** Fibonacci frequencies: the code length code would need more than seven
    bits, so that the lengths are repaired. *)
Definition fib_tree : list ct_data :=
  ((λ f, Ct f 0) <$> [1; 1; 2; 3; 5; 8; 13; 21; 34; 55; 89; 144; 233; 377; 610; 987; 1597; 2584; 4181])
  ++ replicate 20 (Ct 0 0).

Lemma build_tree_complete_code_witness :
  ∃ b, build_tree 64 (Heapst (replicate 573 0) 0 0 (replicate 573 0) (replicate 16 0)) static_bl_desc
         fib_tree 0 0 = Some b ∧
    complete (dl <$> take (Z.to_nat (bt_max_code b + 1)) (bt_tree b)).
Proof.
  destruct (build_tree_complete_code 64 19 7 (Heapst (replicate 573 0) 0 0 (replicate 573 0) (replicate 16 0))
    static_bl_desc fib_tree 0 0 bl_desc_ok) as (b & E & _ & _ & _ & Hc & _).
  - split; done.
  - exists b. split; [exact E|exact Hc].
Defined.

(** The repair of [gen_bitlen]: when cutting the lengths has made the code
    over-subscribed by [k] codes of the greatest length, the loop on [overflow]
    ends with the same number of codes and a Kraft sum of exactly one, provided
    there are fewer codes than [2 ^ max_length]. *)
Theorem fix_overflow_repairs (M N k : Z) (cnt : list Z) :
  2 ≤ M ≤ 15 → N < 2 ^ M → N ≤ 286 → 0 < k → counts M N k cnt →
  ∃ cnt', fix_overflow (Z.to_nat (2 * k)) M (2 * k) cnt = Some cnt' ∧
    zsum (anth cnt') (seqZ 1 M) = N ∧
    zsum (λ b, anth cnt' b * 2 ^ (M - b)) (seqZ 1 M) = 2 ^ M ∧
    ∀ b, 0 ≤ b ≤ 15 → 0 ≤ anth cnt' b.
Proof.
  intros HM HN HN' Hk Hc. destruct (fix_overflow_run M N HM HN HN' (Z.to_nat (2 * k)) k cnt Hc Hk ltac:(lia))
    as (cnt' & E & [_ Hn _ Ht Hkr _]).
  exists cnt'. split_and!; try done. lia.
Qed.

(** Lengths 1, 2, 3, 3, 3, 3 with at most three bits: one leaf moves. *)
Lemma fix_overflow_repairs_witness :
  ∃ cnt', fix_overflow 2 3 2 ([0; 1; 1; 3] ++ replicate 12 0) = Some cnt' ∧
    zsum (λ b, anth cnt' b * 2 ^ (3 - b)) (seqZ 1 3) = 8.
Proof.
  destruct (fix_overflow_repairs 3 5 1 ([0; 1; 1; 3] ++ replicate 12 0)) as (cnt' & E & _ & Hk & _).
  - lia.
  - lia.
  - lia.
  - lia.
  - split; [done| | |done|done|by right].
    + intros b Hb. assert (Forall (λ b, 0 ≤ anth ([0; 1; 1; 3] ++ replicate 12 0) b) (seqZ 0 16)) as HF
        by (apply (bool_decide_eq_true_1 _); by vm_compute).
      rewrite Forall_forall in HF. apply HF, elem_of_seqZ. lia.
    + intros b Hb Hz.
      assert (Forall (λ b, (b = 0 ∨ 3 < b) → anth ([0; 1; 1; 3] ++ replicate 12 0) b = 0) (seqZ 0 16)) as HF
        by (apply (bool_decide_eq_true_1 _); by vm_compute).
      rewrite Forall_forall in HF. apply HF; [apply elem_of_seqZ; lia|done].
  - exists cnt'. split; [exact E|exact Hk].
Defined.

(** [gen_codes] assigns the canonical prefix code of RFC 1951, 3.2.2: for
    lengths that are not over-subscribed, with [bl_count] counting them, each
    symbol of length [l > 0] gets the [l] bits of its canonical code, in the
    order in which they are sent, and the lengths stay as they are. *)
Theorem gen_codes_canonical (lens : list Z) (tree : list ct_data) (bl_count : list Z) :
  lengths_ok lens → not_over lens → lens = dl <$> take (length lens) tree → length bl_count = 16%nat →
  (∀ l : nat, (l ≤ 15)%nat → aget bl_count (Z.of_nat l) = Some (ncodes lens l)) →
  ∃ tree', gen_codes tree (Z.of_nat (length lens) - 1) bl_count = Some tree' ∧
    dl <$> tree' = dl <$> tree ∧
    ∀ (i l : nat), lens !! i = Some (Z.of_nat l) → (1 ≤ l ≤ 15)%nat →
    ∃ c, tree' !! i = Some (Ct c (Z.of_nat l)) ∧ in_width (Z.of_nat l) c ∧
         bits_of l c = msb_bits l (code_of lens i l).
Proof.
  intros Hok Ho Hl Hb Hn. destruct (succeeds_elim _ _ (gen_codes_run lens Hok Ho tree bl_count Hl Hb Hn)) as (t & E & Hc & Hd).
  by exists t.
Qed.

(** The example of RFC 1951: lengths (3, 3, 3, 3, 3, 2, 4, 4). *)
Lemma gen_codes_canonical_witness :
  ∃ tree', gen_codes (Ct 0 <$> [3; 3; 3; 3; 3; 2; 4; 4]) 7 [0; 0; 1; 5; 2; 0; 0; 0; 0; 0; 0; 0; 0; 0; 0; 0]
           = Some tree' ∧ (dl <$> tree') = [3; 3; 3; 3; 3; 2; 4; 4].
Proof.
  destruct (gen_codes_canonical [3; 3; 3; 3; 3; 2; 4; 4] (Ct 0 <$> [3; 3; 3; 3; 3; 2; 4; 4])
    [0; 0; 1; 5; 2; 0; 0; 0; 0; 0; 0; 0; 0; 0; 0; 0]) as (t & E & Hd & _).
  - repeat constructor; lia.
  - intros l Hl. do 16 (destruct l as [|l]; [by vm_compute|]). lia.
  - reflexivity.
  - reflexivity.
  - intros l Hl. do 16 (destruct l as [|l]; [by vm_compute|]). lia.
  - exists t. split; [exact E|exact Hd].
Defined.

(** The run-length coding of the code lengths loses nothing: [scan_tree]
    gives a non-zero frequency to every symbol that [send_tree] will send (and to
    the lengths it leaves a guard behind); and when these symbols have codes,
    the bits that [send_tree] sends are an encoding, by RFC 1951, 3.2.7, of the
    lengths up to [max_code]. *)
Theorem scan_send_tree (W : Z) (tree bl : list ct_data) (max_code b : Z) :
  0 ≤ max_code → max_code + 1 < Z.of_nat (length tree) →
  (∀ j, 0 ≤ j ≤ max_code → 0 ≤ dlz tree j ≤ 15) →
  (19 ≤ length bl)%nat → (∀ x, 0 ≤ x < 19 → 0 ≤ fcz bl x ≤ b) → b + max_code + 1 < 65536 →
  ∃ tree' bl' (syms : list Z), scan_tree tree bl max_code = Some (tree', bl') ∧
    (∀ x, x ∈ syms → 0 ≤ x < 19 ∧ 0 < fcz bl' x) ∧
    ∀ bl2 C, tree_codes bl2 C → (∀ x, x ∈ syms → has_code C (Z.to_nat x)) →
    ∃ bs, sends W (λ o, send_tree W o tree' bl2 max_code) bs ∧
      ∀ total acc fin rest, (length acc + Z.to_nat (max_code + 1) ≤ total)%nat →
      enc_lengths C total (acc ++ (dlz tree <$> seqZ 0 (max_code + 1))) fin rest →
      enc_lengths C total acc fin (bs ++ rest).
Proof.
  intros Hm Hl Hr Hs Hb Hw. destruct (scan_tree_run tree bl max_code b Hm Hl Hr Hs Hb Hw) as (x & bl' & E & Hg & Hc).
  do 2 eexists. exists ((λ p : op, p.1.1) <$> tree_ops (<[Z.to_nat (max_code + 1):=Ct x 65535]> tree) max_code).
  split; [exact E|]. split.
  { intros y Hy. destruct (cn_syms _ _ _ _ Hc y Hy) as [Hyr Hlt]. specialize (Hb y Hyr). lia. }
  intros bl2 C HC Hco. assert (coded_ops C (tree_ops (<[Z.to_nat (max_code + 1):=Ct x 65535]> tree) max_code)) as Hops.
  { apply Forall_forall. intros p Hp. apply Hco. by apply (list_elem_of_fmap_2 (λ p : op, p.1.1)). }
  eexists. split; [by apply send_tree_run|]. intros total acc fin rest Hlen Henc.
  apply (tree_extends C _ max_code total acc Hm Hg Hops Hlen fin rest).
  replace (dlz (<[Z.to_nat (max_code + 1):=Ct x 65535]> tree) <$> seqZ 0 (max_code + 1))
    with (dlz tree <$> seqZ 0 (max_code + 1)); [done|].
  apply list_fmap_ext. intros i j Hj. apply list_elem_of_lookup_2, elem_of_seqZ in Hj.
  rewrite dlz_insert, decide_False by lia. done.
Qed.

Lemma scan_send_tree_witness :
  ∃ tree' bl' (syms : list Z),
    scan_tree (Ct 0 <$> ([3; 3; 3; 3; 3; 2; 4; 4] ++ [0; 0])) (replicate 39 (Ct 0 0)) 7 = Some (tree', bl') ∧
    (∀ x, x ∈ syms → 0 ≤ x < 19 ∧ 0 < fcz bl' x).
Proof.
  destruct (scan_send_tree 64 (Ct 0 <$> ([3; 3; 3; 3; 3; 2; 4; 4] ++ [0; 0])) (replicate 39 (Ct 0 0)) 7 0)
    as (tree' & bl' & syms & E & H & _).
  - lia.
  - cbn. lia.
  - intros j Hj. assert (Forall (λ j, 0 ≤ dlz (Ct 0 <$> ([3; 3; 3; 3; 3; 2; 4; 4] ++ [0; 0])) j ≤ 15) (seqZ 0 8)) as HF
      by (apply (bool_decide_eq_true_1 _); by vm_compute).
    rewrite Forall_forall in HF. apply HF, elem_of_seqZ. lia.
  - cbn. lia.
  - intros x Hx. assert (Forall (λ j, 0 ≤ fcz (replicate 39 (Ct 0 0)) j ≤ 0) (seqZ 0 19)) as HF
      by (apply (bool_decide_eq_true_1 _); by vm_compute).
    rewrite Forall_forall in HF. apply HF, elem_of_seqZ. lia.
  - lia.
  - exists tree', bl', syms. split; [exact E|exact H].
Defined.

(** The tables of [trees.h] are those that [tr_static_init] computes: the
    static trees, the code of each length and distance, and the base values. *)
Theorem static_tables_generated :
  tr_static_init (StaticTables (replicate 288 (Ct 0 0)) (replicate 30 (Ct 0 0)) (replicate 512 0)
                    (replicate 256 0) (replicate 29 0) (replicate 30 0)) =
  Some (StaticTables static_ltree static_dtree _dist_code _length_code base_length base_dist).
Proof. vm_compute. reflexivity. Qed.

(** The tables choose the symbols of the format: for every length less three
    ([lc]) and every distance, the symbol that [compress_block] and [_tr_tally]
    look up has a base value and extra bits (RFC 1951, 3.2.5) that give exactly
    that length or distance. *)
Theorem tables_choose_symbols (dist lc : Z) :
  1 ≤ dist ≤ 32768 → in_width 8 lc →
  (∃ (i : nat) b x, _length_code.[lc] = Some (Z.of_nat i) ∧ base_length.[Z.of_nat i] = Some b ∧
     extra_lbits.[Z.of_nat i] = Some x ∧
     extra_of len_base len_extra i (lc + 3) x (if x =? 0 then 0 else lc - b)) ∧
  (∃ (j : nat) b x, d_code (dist - 1) = Some (Z.of_nat j) ∧ base_dist.[Z.of_nat j] = Some b ∧
     extra_dbits.[Z.of_nat j] = Some x ∧
     extra_of dist_base dist_extra j dist x (if x =? 0 then 0 else dist - 1 - b)).
Proof.
  intros Hd Hl. destruct (length_code_spec lc Hl) as (i & b & x & e & E1 & E2 & E3 & -> & Hx).
  destruct (d_code_spec (dist - 1) ltac:(lia)) as (j & b2 & y & e2 & F1 & F2 & F3 & -> & Hy).
  rewrite Z.sub_add in Hy. split; [by exists i, b, x|by exists j, b2, y].
Qed.

Lemma tables_choose_symbols_witness :
  ∃ (i : nat) b x, _length_code.[255] = Some (Z.of_nat i) ∧ base_length.[Z.of_nat i] = Some b ∧
    extra_lbits.[Z.of_nat i] = Some x ∧ extra_of len_base len_extra i 258 x (if x =? 0 then 0 else 255 - b).
Proof. apply (tables_choose_symbols 32768 255); [lia|unfold in_width; lia]. Defined.

(** ** Other blocks *)

(** [_tr_stored_block] sends a stored block of the format: the header, zero
    bits up to the byte boundary of the stream, the length and its complement,
    and the bytes; the output ends on a byte boundary. *)
Theorem stored_block_format (W : Z) (o : outbuf) (data out : list Z) (last : Z) :
  out_wf W o → bytes data → Z.of_nat (length data) ≤ 65535 → (last = 0 ∨ last = 1) →
  room o (8 * Z.of_nat (length data) + 42) →
  ∃ o' bs, _tr_stored_block W o data (Z.of_nat (length data)) last = Some o' ∧ bi_valid o' = 0 ∧
    emits W o (negb (last =? 0) :: bits_of 2 0 ++ bs) o' ∧
    ∀ rest, (length rest mod 8 = 0)%nat → block 0 (bs ++ rest) rest out (out ++ data).
Proof.
  intros Hwf Hby Hlen Hlast Hroom. set (n := Z.of_nat (length (out_bits o))).
  pose proof (pad_of_spec (n + 3) ltac:(lia)) as [_ Hp].
  destruct (tr_stored_block_run W o data last Hwf Hby Hlen Hlast) as (o' & E & Hv & Em).
  { eapply room_mono; [|exact Hroom]. fold n. unfold stored_block_bits, stored_bits.
    rewrite !length_app, length_replicate, !length_bits_of, length_bytes_bits. lia. }
  exists o', (stored_block_bits n data). split_and!; try done. intros rest Hr.
  unfold stored_block_bits. rewrite <-app_assoc. apply block_stored; try done. rewrite length_replicate. lia.
Qed.

(** An empty pending buffer of [n] bytes. *)
Definition empty_out (n : nat) : outbuf := Outbuf (replicate n 0) 0 0 0.

Lemma empty_out_wf n : Z.of_nat n < 2 ^ 64 → out_wf 64 (empty_out n).
Proof.
  intros Hn. split; cbn [empty_out pending pending_buf bi_buf bi_valid]; rewrite ?length_replicate; try lia; try done.
  by constructor.
Qed.

Lemma stored_block_format_witness :
  ∃ o' bs, _tr_stored_block 64 (empty_out 20) [104; 105] 2 1 = Some o' ∧
    out_bits o' = true :: bits_of 2 0 ++ bs ∧ block 0 (bs ++ []) [] [] [104; 105].
Proof.
  destruct (stored_block_format 64 (empty_out 20) [104; 105] [] 1) as (o' & bs & E & _ & Em & Hb).
  - by apply empty_out_wf.
  - by repeat constructor.
  - cbn. lia.
  - by right.
  - by vm_compute.
  - exists o', bs. split; [exact E|]. split; [exact (em_bits _ _ _ _ Em)|by apply Hb].
Defined.

(** [_tr_align] sends an empty block with the fixed codes (ten bits), after
    which fewer than eight bits are left in the bit buffer. *)
Theorem align_empty_block (W : Z) (o : outbuf) (out : list Z) :
  out_wf W o → room o 10 →
  ∃ o' bs, _tr_align W o = Some o' ∧ bi_valid o' < 8 ∧ length bs = 7%nat ∧
    emits W o (false :: bits_of 2 1 ++ bs) o' ∧ ∀ rest, block 1 (bs ++ rest) rest out out.
Proof.
  intros Hwf Hroom. unfold _tr_align.
  destruct (sends_bind W (λ o, send_bits W o (Z.shiftl STATIC_TREES 1) 3) (λ o, send_code W o END_BLOCK static_ltree)
    (bits_of 3 2) (sym_bits fixed_L 256) (sends_bits W 2 3 ltac:(lia) ltac:(unfold in_width; lia))
    (sends_sym W static_ltree fixed_L 256 ltac:(lia) static_ltree_codes (fixed_has_code 256 ltac:(lia))) o Hwf)
    as (o1 & E1 & Em1); [exact Hroom|].
  destruct (send_bits W o (Z.shiftl STATIC_TREES 1) 3) as [o0|]; [|done]. simpl_bind in *.
  rewrite E1. simpl_bind.
  destruct (bi_flush_run W o1 (em_wf _ _ _ _ Em1)) as (o2 & -> & Hv & Em2).
  { eapply room_emits; [exact Em1|]. exact Hroom. }
  exists o2, (sym_bits fixed_L 256). split_and!; try done.
  - pose proof (emits_trans W _ _ _ _ _ Em1 Em2) as Em. rewrite app_nil_r in Em. exact Em.
  - intros rest. apply (block_fixed []); [|done]. apply enc_end, sym_bits_code, fixed_has_code. lia.
Qed.

Lemma align_empty_block_witness :
  ∃ o' bs, _tr_align 64 (empty_out 4) = Some o' ∧ out_bits o' = false :: bits_of 2 1 ++ bs ∧ length bs = 7%nat.
Proof.
  destruct (align_empty_block 64 (empty_out 4) []) as (o' & bs & E & _ & Hl & Em & _).
  - by apply empty_out_wf.
  - by vm_compute.
  - exists o', bs. split; [exact E|]. split; [exact (em_bits _ _ _ _ Em)|exact Hl].
Defined.

(** [flush_pending] moves output without changing the stream: with enough
    room at [next_out], the bytes written followed by the bits still pending are
    the same as before, all whole bytes are written, and [pending_out] is back at
    the start of the buffer. *)
Theorem flush_pending_keeps_stream (W : Z) (o : outbuf) (st : out_stream) :
  out_wf W o → room o 0 → Z.of_nat (length (pending_buf o)) < 2 ^ 32 →
  pending_out st = 0 → pending o + 2 ≤ avail_out st → bytes (written st) →
  ∃ o' st', flush_pending W o st = Some (o', st') ∧ out_wf W o' ∧ pending o' = 0 ∧ bi_valid o' < 8 ∧
    pending_out st' = 0 ∧ bytes (written st') ∧ stream_bits o' st' = stream_bits o st.
Proof.
  intros Hwf Hr H32 Hp Ha Hb.
  destruct (flush_pending_run W o st Hwf Hr H32 Hp Ha Hb) as (o' & st' & E & H1 & H2 & H3 & _ & H4 & H5 & H6 & _).
  exists o', st'. done.
Qed.

Lemma flush_pending_keeps_stream_witness :
  ∃ o' st', flush_pending 64 (Outbuf [1; 2; 0; 0] 2 5 9) (OutStream [7] 10 1 0) = Some (o', st') ∧
    stream_bits o' st' = stream_bits (Outbuf [1; 2; 0; 0] 2 5 9) (OutStream [7] 10 1 0).
Proof.
  destruct (flush_pending_keeps_stream 64 (Outbuf [1; 2; 0; 0] 2 5 9) (OutStream [7] 10 1 0))
    as (o' & st' & E & _ & _ & _ & _ & _ & H).
  - split; cbn; try lia; [by repeat constructor|unfold in_width; lia].
  - by vm_compute.
  - done.
  - reflexivity.
  - cbn. lia.
  - by repeat constructor.
  - exists o', st'. split; [exact E|exact H].
Defined.

(** ** The overlay *)

(** 76 matches of the longest distances. *)
Definition far_matches : list token := replicate 76 (16385, 112).

(** The result exists and its output is not [bs]. *)
Lemma sends_other (r : option deflate_state) (bs : list bool) :
  match r with
  | Some s' => bool_decide (out_bits (ds_out s') = bs) = false
  | None => False
  end → ∃ s', r = Some s' ∧ out_bits (ds_out s') ≠ bs.
Proof. destruct r as [s'|]; [|done]. intros H%bool_decide_eq_false. by exists s'. Qed.

(** C40. The condition on the overlay is needed.  With a buffer for 128 symbols
    (memLevel 1) and [Z_FIXED], 76 recorded matches with a distance of 16385 are
    a legal state, their fixed block would fit in the pending buffer, and
    [_tr_flush_block] returns; but it does not send that block: the bits sent
    overwrite distances in the overlay that have not been read yet, and what is
    read back is sent instead. *)
Theorem flush_overwrites_overlay :
  let s := tallied_state 128 6 Z_FIXED far_matches in
  ds_ok 64 s far_matches ∧ out_bits (ds_out s) = [] ∧
  room (ds_out s) (Z.of_nat (length (flush_bits 0 0 far_matches Static)) + 7) ∧
  ∃ s', _tr_flush_block 64 s None 0 0 = Some s' ∧
    out_bits (ds_out s') ≠ flush_bits 0 0 far_matches Static.
Proof.
  cbv zeta. destruct (tallied_state_ok 128 6 Z_FIXED far_matches ltac:(lia)) as (Hok & Eb & El & _).
  { apply Forall_replicate. split; cbn; [lia|unfold in_width; lia]. } { by vm_compute. }
  split_and!; [done|done| |].
  - unfold room. rewrite Eb, (dw_buf _ _ (dk_wf _ _ _ Hok)), El. by vm_compute.
  - apply sends_other. by vm_compute.
Qed.
