(* ===== verification/Coding.v ===== *)
(** leveldb's integer and string encodings: leveldb/util/coding.h and
    leveldb/util/coding.cc.

    A [std::string] or [Slice] is the list of its bytes (0..255).  A pair of
    pointers [p], [limit] is the list of the bytes of [p..limit); a returned
    pointer is the list of the bytes that are left, [NULL] is [None].  The
    [Encode...] functions give the bytes they write at their destination. *)

From Stdlib Require Import ZArith Lia Bool.
From stdpp Require Import base option numbers list.
From S2P Require Import Prelude.

Abbreviation u64 := (wrap 64).

(** The bytes of an [n]-byte integer, least significant first: the object
    representation of an integer on a little-endian machine. *)
Fixpoint le_bytes (n : nat) (v : Z) : list Z :=
  match n with
  | O => []
  | S n' => v mod 256 :: le_bytes n' (v / 256)
  end.

Fixpoint of_le_bytes (l : list Z) : Z :=
  match l with
  | [] => 0
  | b :: l' => b + 256 * of_le_bytes l'
  end.

(** The byte order of the machine, [port::kLittleEndian]. *)
Class Port := { kLittleEndian : bool }.

Definition posix_x86 : Port := {| kLittleEndian := true |}.

Section coding.
Context `{P : Port}.

(** ** Fixed-width integers *)

Definition EncodeFixed32 (value : Z) : list Z :=
  if kLittleEndian then le_bytes 4 value
  else [ Z.land value 255;
         Z.land (Z.shiftr value 8) 255;
         Z.land (Z.shiftr value 16) 255;
         Z.land (Z.shiftr value 24) 255 ].

Definition EncodeFixed64 (value : Z) : list Z :=
  if kLittleEndian then le_bytes 8 value
  else [ Z.land value 255;
         Z.land (Z.shiftr value 8) 255;
         Z.land (Z.shiftr value 16) 255;
         Z.land (Z.shiftr value 24) 255;
         Z.land (Z.shiftr value 32) 255;
         Z.land (Z.shiftr value 40) 255;
         Z.land (Z.shiftr value 48) 255;
         Z.land (Z.shiftr value 56) 255 ].

Definition PutFixed32 (dst : list Z) (value : Z) : list Z := dst ++ EncodeFixed32 value.

Definition PutFixed64 (dst : list Z) (value : Z) : list Z := dst ++ EncodeFixed64 value.

(** The reads are not bounds-checked by the code: [None] is a read past the
    end of the bytes that are there. *)
Definition DecodeFixed32 (ptr : list Z) : option Z :=
  if kLittleEndian then
    if bool_decide (4 ≤ length ptr)%nat then Some (of_le_bytes (take 4 ptr)) else None
  else
    b0 ← ptr.[0]; b1 ← ptr.[1]; b2 ← ptr.[2]; b3 ← ptr.[3];
    Some (Z.lor (Z.lor (Z.lor b0 (u32 (Z.shiftl b1 8))) (u32 (Z.shiftl b2 16)))
                (u32 (Z.shiftl b3 24))).

Definition DecodeFixed64 (ptr : list Z) : option Z :=
  if kLittleEndian then
    if bool_decide (8 ≤ length ptr)%nat then Some (of_le_bytes (take 8 ptr)) else None
  else
    lo ← DecodeFixed32 ptr;
    hi ← DecodeFixed32 (drop 4 ptr);
    Some (Z.lor (u64 (Z.shiftl hi 32)) lo).

End coding.

(** ** Variable-length integers: writing *)

Definition B : Z := 128.

(** Each store into the [unsigned char] buffer truncates to eight bits. *)
Definition EncodeVarint32 (v : Z) : list Z :=
  if v <? Z.shiftl 1 7 then [u8 v]
  else if v <? Z.shiftl 1 14 then [u8 (Z.lor v B); u8 (Z.shiftr v 7)]
  else if v <? Z.shiftl 1 21 then
    [u8 (Z.lor v B); u8 (Z.lor (Z.shiftr v 7) B); u8 (Z.shiftr v 14)]
  else if v <? Z.shiftl 1 28 then
    [u8 (Z.lor v B); u8 (Z.lor (Z.shiftr v 7) B); u8 (Z.lor (Z.shiftr v 14) B);
     u8 (Z.shiftr v 21)]
  else
    [u8 (Z.lor v B); u8 (Z.lor (Z.shiftr v 7) B); u8 (Z.lor (Z.shiftr v 14) B);
     u8 (Z.lor (Z.shiftr v 21) B); u8 (Z.shiftr v 28)].

Definition PutVarint32 (dst : list Z) (v : Z) : list Z := dst ++ EncodeVarint32 v.

(** The loop of [EncodeVarint64] on a 64-bit [v]: at most nine iterations;
    [None] is a loop that has not ended by then. *)
Definition EncodeVarint64_step (s : list Z * Z) : option (list Z * Z) :=
  let '(out, v) := s in Some (out ++ [u8 (Z.lor (Z.land v (B - 1)) B)], Z.shiftr v 7).

Definition EncodeVarint64 (v : Z) : option (list Z) :=
  '(out, v) ← while 9 (λ s, B <=? s.2) EncodeVarint64_step ([], v);
  Some (out ++ [u8 v]).

(** [char buf[10]] holds the encoding, or the call overruns it. *)
Definition PutVarint64 (dst : list Z) (v : Z) : option (list Z) :=
  enc ← EncodeVarint64 v;
  if bool_decide (length enc ≤ 10)%nat then Some (dst ++ enc) else None.

Definition PutLengthPrefixedSlice (dst value : list Z) : list Z :=
  PutVarint32 dst (u32 (Z.of_nat (length value))) ++ value.

Definition VarintLength (v : Z) : option Z :=
  s ← while 9 (λ s : Z * Z, 128 <=? s.2) (λ s, Some (s.1 + 1, Z.shiftr s.2 7)) (1, v);
  Some s.1.

(** ** Variable-length integers: reading *)

(** [for (shift; shift <= 28 && p < limit; shift += 7)]. *)
Fixpoint varint32_loop (shift result : Z) (p : list Z) : option (Z * list Z) :=
  match p with
  | [] => None
  | byte :: p' =>
      if shift <=? 28 then
        if negb (Z.land byte 128 =? 0)
        then varint32_loop (shift + 7)
               (Z.lor result (u32 (Z.shiftl (Z.land byte 127) shift))) p'
        else Some (Z.lor result (u32 (Z.shiftl byte shift)), p')
      else None
  end.

Definition GetVarint32PtrFallback (p : list Z) : option (Z * list Z) := varint32_loop 0 0 p.

Definition GetVarint32Ptr (p : list Z) : option (Z * list Z) :=
  match p with
  | result :: p' =>
      if Z.land result 128 =? 0 then Some (result, p') else GetVarint32PtrFallback p
  | [] => GetVarint32PtrFallback p
  end.

Fixpoint varint64_loop (shift result : Z) (p : list Z) : option (Z * list Z) :=
  match p with
  | [] => None
  | byte :: p' =>
      if shift <=? 63 then
        if negb (Z.land byte 128 =? 0)
        then varint64_loop (shift + 7)
               (Z.lor result (u64 (Z.shiftl (Z.land byte 127) shift))) p'
        else Some (Z.lor result (u64 (Z.shiftl byte shift)), p')
      else None
  end.

Definition GetVarint64Ptr (p : list Z) : option (Z * list Z) := varint64_loop 0 0 p.

(** The functions on [Slice* input] return [bool], assign the value read and
    advance [*input] only when they succeed: [None] is [false], with the
    input as it was. *)
Definition GetVarint32 (input : list Z) : option (Z * list Z) :=
  match GetVarint32Ptr input with
  | None => None
  | Some (value, q) => Some (value, q)
  end.

Definition GetVarint64 (input : list Z) : option (Z * list Z) :=
  match GetVarint64Ptr input with
  | None => None
  | Some (value, q) => Some (value, q)
  end.

(** The pointer form; [p + len > limit] is a comparison of lengths. *)
Definition GetLengthPrefixedSlicePtr (p : list Z) : option (list Z * list Z) :=
  '(len, p) ← GetVarint32Ptr p;
  if Z.of_nat (length p) <? len then None
  else Some (take (Z.to_nat len) p, drop (Z.to_nat len) p).

(** The [Slice*] form gives [(ok, result, input)]: when the length was read
    but the bytes are not there, it fails with [*input] already advanced
    past the length. *)
Definition GetLengthPrefixedSlice (input : list Z) : option (list Z) * list Z :=
  match GetVarint32 input with
  | Some (len, input') =>
      if len <=? Z.of_nat (length input')
      then (Some (take (Z.to_nat len) input'), drop (Z.to_nat len) input')
      else (None, input')
  | None => (None, input)
  end.

(** What the encodings of Coding.v are: the fixed-width forms are the
    little-endian bytes on every machine, the variable-length forms are
    LEB128, and each reader inverts its writer whatever bytes follow. *)

(** LEB128 with at most [n] continuation bytes. *)
Fixpoint leb128 (n : nat) (v : Z) : list Z :=
  match n with
  | O => [v]
  | S n' => if v <? 128 then [v] else (128 + v mod 128) :: leb128 n' (v / 128)
  end.

(** Reading at most [n] bytes of LEB128, as an unbounded integer. *)
Fixpoint leb_decode (n : nat) (p : list Z) : option (Z * list Z) :=
  match n, p with
  | S n', b :: p' =>
      if b <? 128 then Some (b, p')
      else '(v, r) ← leb_decode n' p'; Some (b - 128 + 128 * v, r)
  | _, _ => None
  end.

(** ** Fixed width *)

Lemma length_le_bytes n v : length (le_bytes n v) = n.
Proof. revert v. induction n; intros; simpl; f_equal; done. Qed.

Lemma le_bytes_bytes n v : bytes (le_bytes n v).
Proof.
  revert v. induction n as [|n IH]; intros v; [constructor|]. cbn [le_bytes].
  constructor; [|apply IH]. unfold in_width. apply Z.mod_pos_bound. lia.
Qed.

#[export] Hint Resolve le_bytes_bytes : width.

Lemma of_le_bytes_le_bytes n v : of_le_bytes (le_bytes n v) = v mod 2 ^ (8 * Z.of_nat n).
Proof.
  revert v. induction n as [|n IH]; intros v; [by rewrite Z.mod_1_r|].
  cbn [le_bytes of_le_bytes]. rewrite IH.
  replace (8 * Z.of_nat (S n)) with (8 + 8 * Z.of_nat n) by lia.
  rewrite Z.pow_add_r by lia. change (2 ^ 8) with 256.
  rewrite Z.rem_mul_r by lia. done.
Qed.

Lemma of_le_bytes_width l : bytes l → in_width (8 * Z.of_nat (length l)) (of_le_bytes l).
Proof.
  unfold in_width. induction 1 as [|b l Hb Hl IH]; [cbn; lia|].
  cbn [length of_le_bytes].
  replace (8 * Z.of_nat (S (length l))) with (8 + 8 * Z.of_nat (length l)) by lia.
  rewrite Z.pow_add_r by lia. unfold in_width in Hb. change (2 ^ 8) with 256 in *. nia.
Qed.

Lemma le_bytes_of_le_bytes l : bytes l → le_bytes (length l) (of_le_bytes l) = l.
Proof.
  induction 1 as [|b l Hb Hl IH]; [done|]. cbn [length of_le_bytes le_bytes].
  unfold in_width in Hb. change (2 ^ 8) with 256 in Hb.
  rewrite (Z.mul_comm 256), Z_mod_plus_full, Z.mod_small, Z.div_add, Z.div_small by lia.
  by rewrite Z.add_0_l, IH.
Qed.

Lemma land_255 v : Z.land v 255 = v mod 256.
Proof. change 255 with (Z.ones 8). rewrite Z.land_ones by lia. done. Qed.

Lemma shiftr_div k v : 0 ≤ k → Z.shiftr v k = v / 2 ^ k.
Proof. intros. by rewrite Z.shiftr_div_pow2. Qed.

Lemma land_byte_127 v : Z.land v 127 = v mod 128.
Proof. change 127 with (Z.ones 7). rewrite Z.land_ones by lia. done. Qed.

Lemma EncodeFixed32_le `{Port} v : EncodeFixed32 v = le_bytes 4 v.
Proof.
  unfold EncodeFixed32. destruct kLittleEndian; [done|].
  rewrite !land_255, !shiftr_div by lia. cbn [le_bytes].
  rewrite !Z.div_div by lia. done.
Qed.

Lemma EncodeFixed64_le `{Port} v : EncodeFixed64 v = le_bytes 8 v.
Proof.
  unfold EncodeFixed64. destruct kLittleEndian; [done|].
  rewrite !land_255, !shiftr_div by lia. cbn [le_bytes].
  rewrite !Z.div_div by lia. done.
Qed.

Lemma u32_shiftl_byte b k :
  in_width 8 b → 0 ≤ k ≤ 24 → u32 (Z.shiftl b k) = Z.shiftl b k.
Proof.
  intros Hb Hk. apply wrap_small. rewrite Z.shiftl_mul_pow2 by lia.
  unfold in_width in *.
  assert (0 < 2 ^ k) by (apply pow2_pos; lia).
  assert (2 ^ k ≤ 2 ^ 24) by (apply Z.pow_le_mono_r; lia).
  change (2 ^ 8) with 256 in Hb. change (2 ^ 24) with 16777216 in *.
  change (2 ^ 32) with 4294967296. nia.
Qed.

Lemma DecodeFixed32_le `{Port} p :
  bytes p → (4 ≤ length p)%nat → DecodeFixed32 p = Some (of_le_bytes (take 4 p)).
Proof.
  intros Hp Hl. unfold DecodeFixed32. destruct kLittleEndian.
  { by rewrite bool_decide_true by done. }
  destruct p as [|b0 [|b1 [|b2 [|b3 p]]]]; cbn [length] in Hl; try lia.
  unfold bytes in Hp. rewrite !Forall_cons in Hp. destruct Hp as (Hb0 & Hb1 & Hb2 & Hb3 & _).
  change ((b0 :: b1 :: b2 :: b3 :: p).[0]) with (Some b0).
  change ((b0 :: b1 :: b2 :: b3 :: p).[1]) with (Some b1).
  change ((b0 :: b1 :: b2 :: b3 :: p).[2]) with (Some b2).
  change ((b0 :: b1 :: b2 :: b3 :: p).[3]) with (Some b3).
  simpl_bind. f_equal.
  rewrite !u32_shiftl_byte by (done || lia).
  assert (H16 : in_width 16 (b0 + b1 * 2 ^ 8)).
  { unfold in_width in *. change (2 ^ 8) with 256 in *. change (2 ^ 16) with 65536. lia. }
  assert (H24 : in_width 24 (b0 + b1 * 2 ^ 8 + b2 * 2 ^ 16)).
  { unfold in_width in *. change (2 ^ 8) with 256 in *. change (2 ^ 16) with 65536 in *.
    change (2 ^ 24) with 16777216. lia. }
  rewrite (lor_shiftl_add b0), (lor_shiftl_add (b0 + _)), (lor_shiftl_add (_ + b2 * _))
    by (done || lia).
  change (take 4 (b0 :: b1 :: b2 :: b3 :: p)) with [b0; b1; b2; b3]. cbn [of_le_bytes].
  change (2 ^ 8) with 256. change (2 ^ 16) with 65536. change (2 ^ 24) with 16777216. lia.
Qed.

Lemma of_le_bytes_app l1 l2 :
  of_le_bytes (l1 ++ l2) = of_le_bytes l1 + 2 ^ (8 * Z.of_nat (length l1)) * of_le_bytes l2.
Proof.
  induction l1 as [|b l1 IH]; [cbn; lia|]. cbn [app of_le_bytes length].
  rewrite IH. replace (8 * Z.of_nat (S (length l1))) with (8 + 8 * Z.of_nat (length l1)) by lia.
  rewrite Z.pow_add_r by lia. lia.
Qed.

Lemma DecodeFixed64_le `{Port} p :
  bytes p → (8 ≤ length p)%nat → DecodeFixed64 p = Some (of_le_bytes (take 8 p)).
Proof.
  intros Hp Hl. unfold DecodeFixed64. destruct kLittleEndian.
  { by rewrite bool_decide_true by done. }
  rewrite !DecodeFixed32_le; simpl_bind;
    [|done|lia|by apply Forall_drop|rewrite length_drop; lia].
  f_equal. pose proof (of_le_bytes_width (take 4 p) ltac:(by apply Forall_take)) as Hlo.
  pose proof (of_le_bytes_width (take 4 (drop 4 p))
    ltac:(by apply Forall_take, Forall_drop)) as Hhi.
  rewrite length_take in Hlo. rewrite length_take, length_drop in Hhi.
  rewrite Nat.min_l in Hlo, Hhi by lia. change (8 * Z.of_nat 4) with 32 in *.
  rewrite Z.lor_comm, wrap_small.
  - rewrite lor_shiftl_add by (done || lia).
    change 8%nat with (4 + 4)%nat. rewrite <-(take_take_drop p 4 4), of_le_bytes_app, length_take, Nat.min_l by lia.
    change (8 * Z.of_nat 4) with 32. lia.
  - rewrite Z.shiftl_mul_pow2 by lia. unfold in_width in *.
    change (2 ^ 64) with (2 ^ 32 * 2 ^ 32). nia.
Qed.

Lemma DecodeFixed32_encode `{Port} v r :
  in_width 32 v → bytes r → DecodeFixed32 (EncodeFixed32 v ++ r) = Some v.
Proof.
  intros Hv Hr. rewrite EncodeFixed32_le.
  rewrite DecodeFixed32_le, take_app_length'; try done.
  - rewrite of_le_bytes_le_bytes. f_equal. by apply (Z.mod_small v (2 ^ 32)).
  - solve_width.
  - rewrite length_app, length_le_bytes. lia.
Qed.

Lemma DecodeFixed64_encode `{Port} v r :
  in_width 64 v → bytes r → DecodeFixed64 (EncodeFixed64 v ++ r) = Some v.
Proof.
  intros Hv Hr. rewrite EncodeFixed64_le.
  rewrite DecodeFixed64_le, take_app_length'; try done.
  - rewrite of_le_bytes_le_bytes. f_equal. by apply (Z.mod_small v (2 ^ 64)).
  - solve_width.
  - rewrite length_app, length_le_bytes. lia.
Qed.

(** ** LEB128 *)

Lemma leb128_bytes n v : 0 ≤ v < 2 ^ (7 * Z.of_nat n + 8) → bytes (leb128 n v).
Proof.
  revert v. induction n as [|n IH]; intros v Hv; cbn [leb128].
  { constructor; [exact Hv|constructor]. }
  destruct (Z.ltb_spec v 128).
  { constructor; [|constructor]. unfold in_width. change (2 ^ 8) with 256. lia. }
  constructor.
  - unfold in_width. change (2 ^ 8) with 256. pose proof (Z.mod_pos_bound v 128). lia.
  - apply IH. split; [apply Z.div_pos; lia|]. apply Z.div_lt_upper_bound; [lia|].
    replace (7 * Z.of_nat (S n) + 8) with (7 + (7 * Z.of_nat n + 8)) in Hv by lia.
    rewrite Z.pow_add_r in Hv by lia. lia.
Qed.

Lemma length_leb128 n v : (1 ≤ length (leb128 n v) ≤ S n)%nat.
Proof.
  revert v. induction n as [|n IH]; intros v; cbn [leb128]; [cbn; lia|].
  destruct (v <? 128); cbn [length]; [lia|]. specialize (IH (v / 128)). lia.
Qed.

Lemma leb_decode_leb128 n v r :
  0 ≤ v < 2 ^ (7 * Z.of_nat n + 7) → leb_decode (S n) (leb128 n v ++ r) = Some (v, r).
Proof.
  revert v. induction n as [|n IH]; intros v Hv; cbn [leb128].
  { change (2 ^ _) with 128 in Hv. cbn. by rewrite (proj2 (Z.ltb_lt v 128)) by lia. }
  destruct (Z.ltb_spec v 128).
  { cbn. by rewrite (proj2 (Z.ltb_lt v 128)) by lia. }
  pose proof (Z.mod_pos_bound v 128 ltac:(lia)).
  change (((128 + v mod 128) :: leb128 n (v / 128)) ++ r)
    with ((128 + v mod 128) :: (leb128 n (v / 128) ++ r)).
  remember (S n) as m. cbn [leb_decode]. rewrite (proj2 (Z.ltb_ge _ 128)) by lia.
  subst m. rewrite IH.
  - simpl_bind. pose proof (Z.div_mod v 128). do 2 f_equal. lia.
  - split; [apply Z.div_pos; lia|]. apply Z.div_lt_upper_bound; [lia|].
    replace (7 * Z.of_nat (S n) + 7) with (7 + (7 * Z.of_nat n + 7)) in Hv by lia.
    rewrite Z.pow_add_r in Hv by lia. lia.
Qed.

(** Fuel that is enough gives the encoding of every larger fuel. *)
Lemma leb128_fuel n m v :
  0 ≤ v < 2 ^ (7 * Z.of_nat n + 7) → (n ≤ m)%nat → leb128 m v = leb128 n v.
Proof.
  revert m v. induction n as [|n IH]; intros m v Hv Hm.
  { change (2 ^ _) with 128 in Hv. destruct m; [done|]. cbn [leb128].
    by rewrite (proj2 (Z.ltb_lt v 128)) by lia. }
  destruct m as [|m]; [lia|]. cbn [leb128]. destruct (Z.ltb_spec v 128); [done|].
  f_equal. apply IH; [|lia]. split; [apply Z.div_pos; lia|].
  apply Z.div_lt_upper_bound; [lia|].
  replace (7 * Z.of_nat (S n) + 7) with (7 + (7 * Z.of_nat n + 7)) in Hv by lia.
  rewrite Z.pow_add_r in Hv by lia. lia.
Qed.

Lemma u8_lor_B x : 0 ≤ x → u8 (Z.lor x B) = 128 + x mod 128.
Proof.
  intros Hx. unfold wrap. rewrite <-Z.land_ones by lia.
  rewrite Z.land_lor_distr_l. change (Z.land B (Z.ones 8)) with (Z.shiftl 1 7).
  rewrite Z.land_ones by lia.
  replace (Z.lor (x mod 2 ^ 8) (Z.shiftl 1 7)) with (Z.lor (x mod 128) (Z.shiftl 1 7)).
  - rewrite lor_shiftl_add; [change (2 ^ 7) with 128; lia|lia|].
    unfold in_width. change (2 ^ 7) with 128. apply Z.mod_pos_bound. lia.
  - apply Z.bits_inj'. intros i Hi. rewrite !Z.lor_spec. change 128 with (2 ^ 7).
    destruct (decide (i = 7)) as [->|]; [by rewrite !orb_true_r|].
    destruct (decide (i < 7)).
    + by rewrite !Z.mod_pow2_bits_low by lia.
    + by rewrite !Z.mod_pow2_bits_high by lia.
Qed.

Lemma u8_small x : 0 ≤ x < 256 → u8 x = x.
Proof. intros. apply wrap_small. exact H. Qed.

Lemma EncodeVarint32_leb128 v : in_width 32 v → EncodeVarint32 v = leb128 4 v.
Proof.
  unfold in_width, EncodeVarint32. change (2 ^ 32) with 4294967296. intros Hv.
  rewrite !shiftr_div by lia. cbn [leb128]. rewrite !Z.div_div by lia.
  change (Z.shiftl 1 7) with 128. change (Z.shiftl 1 14) with 16384.
  change (Z.shiftl 1 21) with 2097152. change (Z.shiftl 1 28) with 268435456.
  change (2 ^ 7) with 128. change (2 ^ 14) with 16384. change (2 ^ 21) with 2097152.
  change (2 ^ 28) with 268435456. change (128 * 128) with 16384.
  change (16384 * 128) with 2097152. change (2097152 * 128) with 268435456.
  assert (H7 : 0 ≤ v / 128) by (apply Z.div_pos; lia).
  assert (H14 : 0 ≤ v / 16384) by (apply Z.div_pos; lia).
  assert (H21 : 0 ≤ v / 2097152) by (apply Z.div_pos; lia).
  assert (H28 : 0 ≤ v / 268435456 < 256)
    by (split; [apply Z.div_pos; lia|apply Z.div_lt_upper_bound; lia]).
  rewrite !u8_lor_B by lia.
  destruct (Z.ltb_spec v 128); [rewrite u8_small by lia; done|].
  destruct (Z.ltb_spec v 16384).
  { assert (v / 128 < 128) by (apply Z.div_lt_upper_bound; lia).
    rewrite (proj2 (Z.ltb_lt (v / 128) 128)), u8_small by lia. done. }
  assert (128 ≤ v / 128) by (apply Z.div_le_lower_bound; lia).
  rewrite (proj2 (Z.ltb_ge (v / 128) 128)) by lia.
  destruct (Z.ltb_spec v 2097152).
  { assert (v / 16384 < 128) by (apply Z.div_lt_upper_bound; lia).
    rewrite (proj2 (Z.ltb_lt (v / 16384) 128)), u8_small by lia. done. }
  assert (128 ≤ v / 16384) by (apply Z.div_le_lower_bound; lia).
  rewrite (proj2 (Z.ltb_ge (v / 16384) 128)) by lia.
  destruct (Z.ltb_spec v 268435456).
  { assert (v / 2097152 < 128) by (apply Z.div_lt_upper_bound; lia).
    rewrite (proj2 (Z.ltb_lt (v / 2097152) 128)), u8_small by lia. done. }
  assert (128 ≤ v / 2097152) by (apply Z.div_le_lower_bound; lia).
  rewrite (proj2 (Z.ltb_ge (v / 2097152) 128)), u8_small by lia. done.
Qed.

(** The loops over a 64-bit value: [n] iterations are enough below
    [2^(7n+7)]. *)
Lemma varint64_while n out v :
  0 ≤ v < 2 ^ (7 * Z.of_nat n + 7) →
  ('(out, v) ← while n (λ s, B <=? s.2) EncodeVarint64_step (out, v); Some (out ++ [u8 v]))
  = Some (out ++ leb128 n v).
Proof.
  unfold B. revert out v. induction n as [|n IH]; intros out v Hv.
  { change (2 ^ _) with 128 in Hv. cbn [while leb128 snd].
    rewrite (proj2 (Z.leb_gt 128 v)) by lia. cbn. by rewrite u8_small by lia. }
  cbn [while leb128 snd]. destruct (Z.leb_spec 128 v).
  - rewrite (proj2 (Z.ltb_ge v 128)) by lia.
    cbn [EncodeVarint64_step mbind option_bind].
    change (B - 1) with 127. rewrite land_byte_127, u8_lor_B, Z.mod_mod, shiftr_div;
      [|lia..|apply Z.mod_pos_bound; lia].
    rewrite IH; [by rewrite <-app_assoc|].
    split; [apply Z.div_pos; lia|]. apply Z.div_lt_upper_bound; [lia|].
    replace (7 * Z.of_nat (S n) + 7) with (7 + (7 * Z.of_nat n + 7)) in Hv by lia.
    rewrite Z.pow_add_r in Hv by lia. lia.
  - rewrite (proj2 (Z.ltb_lt v 128)) by lia. cbn. by rewrite u8_small by lia.
Qed.

Lemma width64_bound v : in_width 64 v → 0 ≤ v < 2 ^ (7 * Z.of_nat 9 + 7).
Proof.
  unfold in_width. intros [? Hv]. split; [done|]. eapply Z.lt_trans; [exact Hv|].
  apply Z.pow_lt_mono_r; lia.
Qed.

Lemma width32_bound v : in_width 32 v → 0 ≤ v < 2 ^ (7 * Z.of_nat 4 + 7).
Proof.
  unfold in_width. intros [? Hv]. split; [done|]. eapply Z.lt_trans; [exact Hv|].
  apply Z.pow_lt_mono_r; lia.
Qed.

Lemma EncodeVarint64_leb128 v : in_width 64 v → EncodeVarint64 v = Some (leb128 9 v).
Proof. intros Hv. apply (varint64_while 9 []), width64_bound, Hv. Qed.

Lemma VarintLength_while n len v :
  0 ≤ v < 2 ^ (7 * Z.of_nat n + 7) →
  (s ← while n (λ s : Z * Z, 128 <=? s.2) (λ s, Some (s.1 + 1, Z.shiftr s.2 7)) (len, v);
   Some s.1)
  = Some (len - 1 + Z.of_nat (length (leb128 n v))).
Proof.
  revert len v. induction n as [|n IH]; intros len v Hv.
  { change (2 ^ _) with 128 in Hv. cbn [while leb128 snd].
    rewrite (proj2 (Z.leb_gt 128 v)) by lia. cbn. f_equal. lia. }
  cbn [while leb128 snd]. destruct (Z.leb_spec 128 v).
  - rewrite (proj2 (Z.ltb_ge v 128)) by lia. cbn [mbind option_bind fst snd].
    rewrite shiftr_div by lia. change (2 ^ 7) with 128. rewrite IH.
    + cbn [length]. f_equal. lia.
    + split; [apply Z.div_pos; lia|]. apply Z.div_lt_upper_bound; [lia|].
      replace (7 * Z.of_nat (S n) + 7) with (7 + (7 * Z.of_nat n + 7)) in Hv by lia.
      rewrite Z.pow_add_r in Hv by lia. lia.
  - rewrite (proj2 (Z.ltb_lt v 128)) by lia. cbn. f_equal. lia.
Qed.

Lemma VarintLength_leb128 v :
  in_width 64 v → VarintLength v = Some (Z.of_nat (length (leb128 9 v))).
Proof.
  intros Hv%width64_bound. unfold VarintLength. rewrite VarintLength_while by done. done.
Qed.

Lemma EncodeVarint_agree v : in_width 32 v → EncodeVarint64 v = Some (EncodeVarint32 v).
Proof.
  intros Hv. rewrite EncodeVarint32_leb128 by done.
  rewrite EncodeVarint64_leb128 by (eapply (in_width_mono 32); [lia|done]).
  rewrite (leb128_fuel 4 9); [done|by apply width32_bound|lia].
Qed.

(** ** The readers *)

(** A property of all byte values, by evaluation. *)
Lemma byte_check (f : Z → bool) b :
  forallb (λ n, f (Z.of_nat n)) (seq 0 256) = true → in_width 8 b → f b = true.
Proof.
  unfold in_width. change (2 ^ 8) with 256. intros Hf Hb. rewrite forallb_forall in Hf.
  specialize (Hf (Z.to_nat b)). rewrite Z2Nat.id in Hf by lia.
  apply Hf, in_seq. lia.
Qed.

Lemma land_128_zero b : in_width 8 b → (Z.land b 128 =? 0) = (b <? 128).
Proof.
  intros Hb. apply eqb_prop.
  by apply (byte_check (λ b, Bool.eqb (Z.land b 128 =? 0) (b <? 128))); [vm_compute|].
Qed.

Lemma wrap_lor w a b : 0 ≤ w → wrap w (Z.lor a b) = Z.lor (wrap w a) (wrap w b).
Proof.
  intros. unfold wrap. rewrite <-!Z.land_ones by done. apply Z.land_lor_distr_l.
Qed.

Lemma wrap_add_wrap w a b : 0 ≤ w → wrap w (wrap w a + b) = wrap w (a + b).
Proof. intros. unfold wrap. apply Zplus_mod_idemp_l. Qed.

Lemma lor_wrap_shiftl w k a x :
  0 ≤ k → 0 ≤ w → in_width w a → in_width k a →
  Z.lor a (wrap w (Z.shiftl x k)) = wrap w (a + x * 2 ^ k).
Proof.
  intros. rewrite <-(wrap_small w a) at 1 by done.
  by rewrite <-wrap_lor, lor_shiftl_add by done.
Qed.

(** Both loops, for a [w]-bit result and [N] bytes at most. *)
Section loop.
Context (w : Z) (N : nat) (Hw : 0 ≤ w).

Fixpoint varint_loop (shift result : Z) (p : list Z) : option (Z * list Z) :=
  match p with
  | [] => None
  | byte :: p' =>
      if shift <=? 7 * Z.of_nat N - 7 then
        if negb (Z.land byte 128 =? 0)
        then varint_loop (shift + 7)
               (Z.lor result (wrap w (Z.shiftl (Z.land byte 127) shift))) p'
        else Some (Z.lor result (wrap w (Z.shiftl byte shift)), p')
      else None
  end.

Lemma varint_loop_leb n k result p :
  (k + n = N)%nat → bytes p → in_width w result → in_width (7 * Z.of_nat k) result →
  varint_loop (7 * Z.of_nat k) result p
  = '(v, r) ← leb_decode n p; Some (wrap w (result + v * 2 ^ (7 * Z.of_nat k)), r).
Proof.
  revert k result p. induction n as [|n IH]; intros k result p HN Hp Hr Hrk.
  { destruct p as [|b p]; [done|]. cbn [varint_loop leb_decode].
    by rewrite (proj2 (Z.leb_gt _ _)) by lia. }
  destruct Hp as [|b p Hb Hp]; [done|]. cbn [varint_loop leb_decode].
  rewrite (proj2 (Z.leb_le _ _)) by lia. rewrite land_128_zero by done.
  rewrite !lor_wrap_shiftl by (done || lia). destruct (Z.ltb_spec b 128); cbn [negb].
  { done. }
  assert (Hb' : Z.land b 127 = b - 128).
  { rewrite land_byte_127. unfold in_width in Hb. change (2 ^ 8) with 256 in Hb.
    rewrite <-(Z.mod_small (b - 128) 128) by lia.
    replace b with (b - 128 + 1 * 128) at 1 by lia. apply Z_mod_plus_full. }
  rewrite Hb'. replace (7 * Z.of_nat k + 7) with (7 * Z.of_nat (S k)) by lia.
  rewrite IH; [|lia|done|by apply wrap_range|].
  - destruct (leb_decode n p) as [[v r]|]; [|done]. simpl_bind.
    rewrite wrap_add_wrap by done. do 3 f_equal.
    replace (7 * Z.of_nat (S k)) with (7 * Z.of_nat k + 7) by lia.
    rewrite Z.pow_add_r by lia. change (2 ^ 7) with 128. lia.
  - pose proof (wrap_range w (result + (b - 128) * 2 ^ (7 * Z.of_nat k)) Hw) as [? _].
    split; [done|]. unfold wrap in *. eapply Z.le_lt_trans; [apply Z.mod_le|].
    + destruct Hr. pose proof (pow2_pos (7 * Z.of_nat k) ltac:(lia)). nia.
    + apply pow2_pos. lia.
    + destruct Hrk. destruct Hb. change (2 ^ 8) with 256 in *.
      replace (7 * Z.of_nat (S k)) with (7 * Z.of_nat k + 7) by lia.
      rewrite Z.pow_add_r by lia. change (2 ^ 7) with 128. nia.
Qed.
End loop.

Lemma varint32_loop_eq shift result p :
  varint32_loop shift result p = varint_loop 32 5 shift result p.
Proof.
  revert shift result. induction p as [|b p IH]; intros; [done|].
  cbn [varint32_loop varint_loop]. change (7 * Z.of_nat 5 - 7) with 28. by rewrite IH.
Qed.

Lemma varint64_loop_eq shift result p :
  varint64_loop shift result p = varint_loop 64 10 shift result p.
Proof.
  revert shift result. induction p as [|b p IH]; intros; [done|].
  cbn [varint64_loop varint_loop]. change (7 * Z.of_nat 10 - 7) with 63. by rewrite IH.
Qed.

Lemma GetVarint32_leb p :
  bytes p → GetVarint32 p = '(v, r) ← leb_decode 5 p; Some (u32 v, r).
Proof.
  intros Hp. transitivity (GetVarint32Ptr p).
  { unfold GetVarint32. by destruct (GetVarint32Ptr p) as [[]|]. }
  assert (Hf : GetVarint32PtrFallback p = '(v, r) ← leb_decode 5 p; Some (u32 v, r)).
  { unfold GetVarint32PtrFallback. rewrite varint32_loop_eq.
    pose proof (varint_loop_leb 32 5 ltac:(lia) 5 0 0 p) as H.
    change (7 * Z.of_nat 0) with 0 in H. rewrite H; [|done|done|done|done].
    destruct (leb_decode 5 p) as [[v r]|]; [|done]. simpl_bind.
    by rewrite Z.mul_1_r. }
  unfold GetVarint32Ptr. destruct Hp as [|b p Hb Hp]; [done|]. rewrite Hf.
  rewrite land_128_zero by done. cbn [leb_decode]. destruct (Z.ltb_spec b 128); [|done].
  simpl_bind. rewrite wrap_small; [done|].
  apply (in_width_mono 8); [lia|done].
Qed.

Lemma GetVarint64_leb p :
  bytes p → GetVarint64 p = '(v, r) ← leb_decode 10 p; Some (u64 v, r).
Proof.
  intros Hp. transitivity (GetVarint64Ptr p).
  { unfold GetVarint64. by destruct (GetVarint64Ptr p) as [[]|]. }
  unfold GetVarint64Ptr. rewrite varint64_loop_eq.
  pose proof (varint_loop_leb 64 10 ltac:(lia) 10 0 0 p) as H.
  change (7 * Z.of_nat 0) with 0 in H. rewrite H; [|done|done|done|done].
  destruct (leb_decode 10 p) as [[v r]|]; [|done]. simpl_bind.
  by rewrite Z.mul_1_r.
Qed.

Lemma GetVarint32Ptr_eq p : GetVarint32Ptr p = GetVarint32 p.
Proof. unfold GetVarint32. by destruct (GetVarint32Ptr p) as [[]|]. Qed.

Lemma EncodeVarint32_bytes v : in_width 32 v → bytes (EncodeVarint32 v).
Proof.
  intros Hv. rewrite EncodeVarint32_leb128 by done. apply leb128_bytes.
  destruct (width32_bound v Hv) as [? Hlt]. split; [done|].
  eapply Z.lt_trans; [exact Hlt|]. apply Z.pow_lt_mono_r; lia.
Qed.

Lemma leb128_9_bytes v : in_width 64 v → bytes (leb128 9 v).
Proof.
  intros Hv. apply leb128_bytes. destruct (width64_bound v Hv) as [? Hlt].
  split; [done|]. eapply Z.lt_trans; [exact Hlt|]. apply Z.pow_lt_mono_r; lia.
Qed.

#[export] Hint Resolve EncodeVarint32_bytes leb128_9_bytes : width.

Lemma GetVarint32_encode v r :
  in_width 32 v → bytes r → GetVarint32 (EncodeVarint32 v ++ r) = Some (v, r).
Proof.
  intros Hv Hr. rewrite GetVarint32_leb.
  - rewrite EncodeVarint32_leb128, leb_decode_leb128 by (done || by apply width32_bound).
    simpl_bind. by rewrite wrap_small.
  - solve_width.
Qed.

Lemma GetVarint64_encode v r :
  in_width 64 v → bytes r →
  ∃ enc, EncodeVarint64 v = Some enc ∧ (length enc ≤ 10)%nat ∧ GetVarint64 (enc ++ r) = Some (v, r).
Proof.
  intros Hv Hr. exists (leb128 9 v). split; [by apply EncodeVarint64_leb128|].
  split; [pose proof (length_leb128 9 v); lia|]. rewrite GetVarint64_leb.
  - rewrite leb_decode_leb128 by (by apply width64_bound).
    simpl_bind. by rewrite wrap_small.
  - solve_width.
Qed.

Lemma GetVarint64_leb128 n r : in_width 64 n → bytes r → GetVarint64 (leb128 9 n ++ r) = Some (n, r).
Proof.
  intros Hn Hr. destruct (GetVarint64_encode n r Hn Hr) as (enc & E & _ & <-).
  rewrite EncodeVarint64_leb128 in E by done. by injection E as <-.
Qed.

(** Cutting an encoding short leaves nothing to read. *)
Lemma leb_decode_cut n m v k :
  (k < length (leb128 n v))%nat → 0 ≤ v → leb_decode m (take k (leb128 n v)) = None.
Proof.
  revert m v k. induction n as [|n IH]; intros m v k Hk Hv; cbn [leb128] in *.
  { cbn in Hk. destruct k; [|lia]. by destruct m. }
  destruct (v <? 128) eqn:E.
  { cbn in Hk. destruct k; [|lia]. by destruct m. }
  destruct k as [|k]; [by destruct m|]. cbn [take]. destruct m as [|m]; [done|].
  cbn [leb_decode]. pose proof (Z.mod_pos_bound v 128).
  rewrite (proj2 (Z.ltb_ge _ 128)) by lia.
  rewrite IH; [done|cbn [length] in Hk; lia|apply Z.div_pos; lia].
Qed.

Lemma GetLengthPrefixedSlice_put value r :
  in_width 32 (Z.of_nat (length value)) → bytes value → bytes r →
  GetLengthPrefixedSlice (PutLengthPrefixedSlice [] value ++ r) = (Some value, r).
Proof.
  intros Hl Hv Hr. unfold GetLengthPrefixedSlice, PutLengthPrefixedSlice, PutVarint32.
  cbn [app]. rewrite wrap_small by done. rewrite <-app_assoc.
  rewrite GetVarint32_encode; [|done|by apply Forall_app].
  rewrite length_app, (proj2 (Z.leb_le _ _)) by lia.
  rewrite Nat2Z.id, take_app_length, drop_app_length. done.
Qed.

Lemma GetLengthPrefixedSlicePtr_put value r :
  in_width 32 (Z.of_nat (length value)) → bytes value → bytes r →
  GetLengthPrefixedSlicePtr (PutLengthPrefixedSlice [] value ++ r) = Some (value, r).
Proof.
  intros Hl Hv Hr. unfold GetLengthPrefixedSlicePtr, PutLengthPrefixedSlice, PutVarint32.
  cbn [app]. rewrite wrap_small by done. rewrite <-app_assoc, GetVarint32Ptr_eq.
  rewrite GetVarint32_encode; [|done|by apply Forall_app]. simpl_bind.
  rewrite length_app, (proj2 (Z.ltb_ge _ _)) by lia.
  rewrite Nat2Z.id, take_app_length, drop_app_length. done.
Qed.

Lemma PutLengthPrefixedSlice_app dst value :
  PutLengthPrefixedSlice dst value = dst ++ PutLengthPrefixedSlice [] value.
Proof. unfold PutLengthPrefixedSlice, PutVarint32. by rewrite <-app_assoc. Qed.

Lemma PutLengthPrefixedSlice_bytes value :
  bytes value → bytes (PutLengthPrefixedSlice [] value).
Proof.
  intros. unfold PutLengthPrefixedSlice, PutVarint32. apply Forall_app. split; [|done].
  apply EncodeVarint32_bytes, wrap_range. lia.
Qed.

(** What a length-prefixed read gives on arbitrary bytes. *)
Lemma leb_decode_suffix n p v r : leb_decode n p = Some (v, r) → ∃ q, p = q ++ r ∧ (0 < length q)%nat.
Proof.
  revert p v r. induction n as [|n IH]; intros p v r; [done|].
  destruct p as [|b p]; [done|]. cbn [leb_decode]. destruct (b <? 128).
  - intros [= <- <-]. exists [b]. split; [done|cbn; lia].
  - destruct (leb_decode n p) as [[v' r']|] eqn:E; [|done]. cbn. intros [= <- <-].
    apply IH in E as (q & -> & ?). exists (b :: q). split; [done|cbn; lia].
Qed.

Lemma GetLengthPrefixedSlice_shrinks p result r :
  bytes p → GetLengthPrefixedSlice p = (Some result, r) →
  bytes result ∧ bytes r ∧ (length result + length r < length p)%nat.
Proof.
  intros Hp. unfold GetLengthPrefixedSlice. rewrite GetVarint32_leb by done.
  destruct (leb_decode 5 p) as [[v q]|] eqn:E; [|done]. simpl_bind.
  apply leb_decode_suffix in E as (pre & -> & ?). apply Forall_app in Hp as [_ Hq].
  destruct (Z.leb_spec (u32 v) (Z.of_nat (length q))); [|done]. intros [= <- <-].
  split; [by apply Forall_take|]. split; [by apply Forall_drop|].
  rewrite length_app, length_take, length_drop. lia.
Qed.

(** Pieces laid out one after the other, and arrays of their offsets: what
    leveldb's filter blocks (FilterBlock.v) and data blocks (Block.v) end
    with. *)

(** The offset of each piece of a concatenation, and of its end. *)
Definition offsets_of {A} (l : list (list A)) (n : nat) : list Z :=
  (λ i, Z.of_nat (length (concat (take i l)))) <$> seq 0 n.

Lemma offsets_of_snoc {A} (l : list (list A)) n :
  offsets_of l (S n) = offsets_of l n ++ [Z.of_nat (length (concat (take n l)))].
Proof. unfold offsets_of. by rewrite seq_S, fmap_app. Qed.

Lemma offsets_of_app {A} (l k : list (list A)) n :
  (n ≤ length l)%nat → offsets_of (l ++ k) n = offsets_of l n.
Proof.
  intros Hn. apply list_fmap_ext. intros i x Hx. apply lookup_seq in Hx as [-> Hi].
  by rewrite take_app_le by lia.
Qed.

Lemma offsets_of_lookup {A} (l : list (list A)) n i :
  (i < n)%nat → offsets_of l n !! i = Some (Z.of_nat (length (concat (take i l)))).
Proof. intros Hi. unfold offsets_of. rewrite list_lookup_fmap, lookup_seq_lt by done. done. Qed.

Lemma length_offsets_of {A} (l : list (list A)) n : length (offsets_of l n) = n.
Proof. unfold offsets_of. by rewrite length_fmap, length_seq. Qed.

Lemma concat_piece {A} (l : list (list A)) i x :
  l !! i = Some x →
  take (Z.to_nat (Z.of_nat (length (concat (take (S i) l))) - Z.of_nat (length (concat (take i l)))))
    (drop (Z.to_nat (Z.of_nat (length (concat (take i l))))) (concat l)) = x ∧
  Z.of_nat (length (concat (take i l))) ≤ Z.of_nat (length (concat (take (S i) l)))
    ≤ Z.of_nat (length (concat l)).
Proof.
  intros Hx. rewrite Nat2Z.id, (take_S_r _ _ _ Hx), concat_app, length_app.
  cbn [concat]. rewrite app_nil_r.
  replace (Z.to_nat _) with (length x) by lia.
  assert (E : concat l = concat (take i l) ++ x ++ concat (drop (S i) l)).
  { rewrite <-(take_drop_middle l i x Hx) at 1. by rewrite concat_app. }
  rewrite E at 1. rewrite drop_app_length, take_app_length. split; [done|].
  rewrite E, !length_app. lia.
Qed.

Lemma offset_width {A} (l : list (list A)) i :
  Z.of_nat (length (concat l)) < 2 ^ 32 →
  in_width 32 (Z.of_nat (length (concat (take i l)))).
Proof.
  intros H. split; [lia|]. rewrite <-(take_drop i l), concat_app, length_app in H. lia.
Qed.

(** ** Arrays of 32-bit words *)

Section words.
Context `{P : Port}.

Definition words (l : list Z) : list Z := l ≫= EncodeFixed32.

Lemma foldl_PutFixed32 l dst : foldl PutFixed32 dst l = dst ++ words l.
Proof.
  revert dst. induction l as [|x l IH]; intros dst; cbn [foldl]; [by rewrite app_nil_r|].
  rewrite IH. unfold PutFixed32, words. cbn [mbind list_bind]. by rewrite <-app_assoc.
Qed.

Lemma length_words l : length (words l) = (4 * length l)%nat.
Proof.
  induction l as [|x l IH]; [done|]. change (words (x :: l)) with (EncodeFixed32 x ++ words l).
  rewrite length_app, IH, EncodeFixed32_le, length_le_bytes. cbn [length]. lia.
Qed.

Lemma words_bytes l : bytes (words l).
Proof.
  induction l as [|x l IH]; [constructor|]. change (words (x :: l)) with (EncodeFixed32 x ++ words l).
  apply Forall_app. split; [|done]. rewrite EncodeFixed32_le. apply le_bytes_bytes.
Qed.

Lemma words_lookup l i x r :
  l !! i = Some x → in_width 32 x → bytes r →
  DecodeFixed32 (drop (4 * i) (words l ++ r)) = Some x.
Proof.
  intros Hx Hw Hr. rewrite <-(take_drop_middle l i x Hx). unfold words. rewrite bind_app.
  fold (words (take i l)). cbn [mbind list_bind].
  rewrite <-!app_assoc. rewrite drop_app_length'.
  - apply DecodeFixed32_encode; [done|]. apply Forall_app. split; [apply words_bytes|done].
  - rewrite length_words, length_take. apply lookup_lt_Some in Hx. lia.
Qed.
End words.
