(* ===== verification/Crc32c.v ===== *)
(** CRC-32C ([src/leveldb/util/crc32c.cc] and port/port_posix_sse.cc): the
    tables, transcribed in decimal, the portable routine, the one that uses
    the SSE 4.2 instructions, and the masking of stored checksums. *)

From Stdlib Require Import ZArith Lia.
From stdpp Require Import base option numbers list.
From S2P Require Import Prelude CrcTheory Coding.

Open Scope Z_scope.

Definition table0_ : list Z := [
    0; 4067132163; 3778769143; 324072436; 3348797215; 904991772;
    648144872; 3570033899; 2329499855; 2024987596; 1809983544; 2575936315;
    1296289744; 3207089363; 2893594407; 1578318884; 274646895; 3795141740;
    4049975192; 51262619; 3619967088; 632279923; 922689671; 3298075524;
    2592579488; 1760304291; 2075979607; 2312596564; 1562183871; 2943781820;
    3156637768; 1313733451; 549293790; 3537243613; 3246849577; 871202090;
    3878099393; 357341890; 102525238; 4101499445; 2858735121; 1477399826;
    1264559846; 3107202533; 1845379342; 2677391885; 2361733625; 2125378298;
    820201905; 3263744690; 3520608582; 598981189; 4151959214; 85089709;
    373468761; 3827903834; 3124367742; 1213305469; 1526817161; 2842354314;
    2107672161; 2412447074; 2627466902; 1861252501; 1098587580; 3004210879;
    2688576843; 1378610760; 2262928035; 1955203488; 1742404180; 2511436119;
    3416409459; 969524848; 714683780; 3639785095; 205050476; 4266873199;
    3976438427; 526918040; 1361435347; 2739821008; 2954799652; 1114974503;
    2529119692; 1691668175; 2005155131; 2247081528; 3690758684; 697762079;
    986182379; 3366744552; 476452099; 3993867776; 4250756596; 255256311;
    1640403810; 2477592673; 2164122517; 1922457750; 2791048317; 1412925310;
    1197962378; 3037525897; 3944729517; 427051182; 170179418; 4165941337;
    746937522; 3740196785; 3451792453; 1070968646; 1905808397; 2213795598;
    2426610938; 1657317369; 3053634322; 1147748369; 1463399397; 2773627110;
    4215344322; 153784257; 444234805; 3893493558; 1021025245; 3467647198;
    3722505002; 797665321; 2197175160; 1889384571; 1674398607; 2443626636;
    1164749927; 3070701412; 2757221520; 1446797203; 137323447; 4198817972;
    3910406976; 461344835; 3484808360; 1037989803; 781091935; 3705997148;
    2460548119; 1623424788; 1939049696; 2180517859; 1429367560; 2807687179;
    3020495871; 1180866812; 410100952; 3927582683; 4182430767; 186734380;
    3756733383; 763408580; 1053836080; 3434856499; 2722870694; 1344288421;
    1131464017; 2971354706; 1708204729; 2545590714; 2229949006; 1988219213;
    680717673; 3673779818; 3383336350; 1002577565; 4010310262; 493091189;
    238226049; 4233660802; 2987750089; 1082061258; 1395524158; 2705686845;
    1972364758; 2279892693; 2494862625; 1725896226; 952904198; 3399985413;
    3656866545; 731699698; 4283874585; 222117402; 510512622; 3959836397;
    3280807620; 837199303; 582374963; 3504198960; 68661723; 4135334616;
    3844915500; 390545967; 1230274059; 3141532936; 2825850620; 1510247935;
    2395924756; 2091215383; 1878366691; 2644384480; 3553878443; 565732008;
    854102364; 3229815391; 340358836; 3861050807; 4117890627; 119113024;
    1493875044; 2875275879; 3090270611; 1247431312; 2660249211; 1828433272;
    2141937292; 2378227087; 3811616794; 291187481; 34330861; 4032846830;
    615137029; 3603020806; 3314634738; 939183345; 1776939221; 2609017814;
    2295496738; 2058945313; 2926798794; 1545135305; 1330124605; 3173225534;
    4084100981; 17165430; 307568514; 3762199681; 888469610; 3332340585;
    3587147933; 665062302; 2042050490; 2346497209; 2559330125; 1793573966;
    3190661285; 1279665062; 1595330642; 2910671697].

Definition table1_ : list Z := [
    0; 329422967; 658845934; 887597209; 1317691868; 1562966443;
    1775194418; 2054015301; 2635383736; 2394315727; 3125932886; 2851302177;
    3550388836; 3225172499; 4108030602; 3883469565; 1069937025; 744974838;
    411091311; 186800408; 1901039709; 1659701290; 1443537075; 1168652484;
    2731618873; 2977147470; 2241069783; 2520160928; 3965408229; 4294560658;
    3407766283; 3636263804; 2139874050; 1814657909; 1489949676; 1265388443;
    822182622; 581114537; 373600816; 98970183; 3802079418; 4047354061;
    3319402580; 3598223395; 2887074150; 3216496913; 2337304968; 2566056447;
    1078858371; 1408010996; 1728782957; 1957280282; 247755615; 493284136;
    696337329; 975428550; 3713716539; 3472378188; 4196393429; 3921508770;
    2479927527; 2154965136; 3029696521; 2805405822; 4279748100; 3971309171;
    3629315818; 3421531805; 2979899352; 2722054063; 2530776886; 2239369025;
    1644365244; 1906417099; 1162229074; 1457827109; 747201632; 1059847191;
    197940366; 409914617; 3235002245; 3547377650; 3885434731; 4097154844;
    2388153945; 2650459694; 2837276343; 3133144768; 1573319741; 1315204170;
    2055455955; 1763794084; 323786209; 15601046; 873047311; 665533816;
    2157716742; 2470362481; 2816021992; 3027996063; 3457565914; 3719617709;
    3914560564; 4210158659; 495511230; 237665993; 986568272; 695160359;
    1392674658; 1084235541; 1950857100; 1743073275; 3210335367; 2902150384;
    2552030313; 2344516638; 4057183579; 3799067948; 3600188853; 3308527042;
    575477567; 837783368; 84420561; 380288934; 1825011427; 2137386644;
    1266828813; 1478549114; 4223924985; 3898696334; 3699821079; 3475264096;
    3041499941; 2800419666; 2450303947; 2175677372; 1725380929; 1970643254;
    1100089775; 1378914776; 677206173; 1006616810; 253257843; 482013188;
    3288730488; 3617886991; 3812834198; 4041319393; 2324458148; 2569990867;
    2915654218; 3194733117; 1494403264; 1253068983; 2119694382; 1844797529;
    395880732; 70922603; 819829234; 595526021; 2219317755; 2548728204;
    2735548693; 2964304226; 3401742375; 3647004752; 3985066185; 4263891134;
    425515587; 184435252; 1041885869; 767259354; 1473690527; 1148462056;
    1888717681; 1664160518; 3146639482; 2821681165; 2630408340; 2406105315;
    4110911910; 3869577681; 3527588168; 3252691263; 647572418; 893105077;
    31202092; 310281051; 1746094622; 2075251305; 1331067632; 1559552647;
    81018109; 393651338; 596708371; 808686692; 1247698209; 1509737814;
    1830514127; 2126116280; 2579562309; 2321704754; 3196440491; 2905036764;
    3611991705; 3303540462; 4027559543; 3819779584; 991022460; 682841355;
    475331986; 267806181; 1973136544; 1715025111; 1390320718; 1098646585;
    2785349316; 3047659187; 2168471082; 2464327261; 3901714200; 4214093679;
    3486146550; 3697854337; 2069880831; 1761429384; 1545269009; 1337489254;
    903200291; 645342804; 311463629; 20059834; 3863682119; 4125721648;
    3238931625; 3534533854; 2831252891; 3143886316; 2407812469; 2619790594;
    1150955134; 1463334409; 1675566736; 1887274727; 168841122; 431151061;
    760577868; 1056433979; 3650022854; 3391911345; 4274773288; 3983099231;
    2533657626; 2225476717; 2957098228; 2749572227].

Definition table2_ : list Z := [
    0; 2772537982; 1332695565; 3928932467; 2665391130; 1000289892;
    3518101015; 1961911401; 944848581; 2635115707; 2000579784; 3531603638;
    2794429151; 63834273; 3923822802; 1285642924; 1889697162; 3588485108;
    1070411655; 2592914937; 4001159568; 1262308334; 2702412701; 72489443;
    1223902031; 3987919153; 127668546; 2732426044; 3593332565; 1936487723;
    2571285848; 1006839590; 3779394324; 1141205354; 2922096921; 191511399;
    2140823310; 3671838064; 821366019; 2511642493; 3642082769; 2085902255;
    2524616668; 859506082; 1204511179; 3800757173; 144978886; 2917507512;
    2447804062; 883365088; 3733574803; 2076722925; 255337092; 2860101882;
    1079472265; 3843482359; 2847389787; 217459237; 3872975446; 1134131240;
    929635393; 2452131391; 2013679180; 3712474162; 3345318105; 1646531239;
    2282410708; 759906474; 1505436867; 4244289213; 383022798; 3012945072;
    4281646620; 1517628514; 2958814225; 354057839; 1642732038; 3299575928;
    780486667; 2344934005; 3083337043; 310800173; 4171804510; 1575566624;
    689527113; 2354629431; 1719012164; 3275200826; 2409022358; 718754280;
    3237581211; 1706558437; 289957772; 3020551666; 1579627905; 4217808895;
    639728589; 2204166579; 1766730176; 3423583166; 3103776727; 499010985;
    4153445850; 1389436836; 510674184; 3140605814; 1360992005; 4099835259;
    2158944530; 636449644; 3485578015; 1786782049; 1451427399; 4089615417;
    434918474; 3165505076; 3361579613; 1830563875; 2268262480; 577987118;
    1859270786; 3415452412; 566061711; 2231171313; 4027358360; 1431113446;
    3210989205; 438459627; 2334619459; 778495293; 3293062478; 1628026672;
    368694105; 2964865319; 1519812948; 4292285226; 3010873734; 372759544;
    4229503883; 1498974709; 766045596; 2297004002; 1657257873; 3347459567;
    4219800265; 1589942455; 3035257028; 296471226; 1700507347; 3222944941;
    708115678; 2406837920; 3285464076; 1721083506; 2361091585; 704312447;
    1560973334; 4165665384; 308658715; 3072610405; 1784908887; 3475119657;
    621600346; 2152549412; 4106037325; 1375517235; 3151133248; 513009726;
    1379054226; 4151517420; 492691615; 3088872161; 3438024328; 1772979446;
    2206418053; 650303227; 448917981; 3212862371; 1437508560; 4042207662;
    2216646087; 559859641; 3413116874; 1848743348; 579915544; 2278645094;
    1845468437; 3367898987; 3159255810; 420477308; 4079040783; 1449175921;
    1279457178; 3909314020; 53323159; 2792110057; 3533460352; 2011021822;
    2649948557; 951227379; 1947453791; 3511835425; 998021970; 2654800172;
    3939331397; 1334640443; 2778873672; 14921014; 1021348368; 2577471598;
    1938806813; 3603843683; 2721984010; 125811828; 3981540359; 1209069177;
    78755029; 2716870315; 1272899288; 4003427494; 2590970063; 1060012721;
    3573564098; 1883361468; 2902854798; 138911472; 3798556291; 1193856253;
    869836948; 2526624490; 2092432025; 3656804583; 2505519691; 806789173;
    3661127750; 2138698296; 193566289; 2932343855; 1155974236; 3785840162;
    3718541572; 2028331898; 2462786313; 931836279; 1132123422; 3862644576;
    202737427; 2840860013; 3858059201; 1085595071; 2862226892; 266047410;
    2066475995; 3731519909; 876919254; 2433035176].

Definition table3_ : list Z := [
    0; 3712330424; 3211207553; 1646430521; 2065838579; 2791807819;
    3292861042; 419477706; 4131677158; 721537374; 1227047015; 2489772767;
    2372293141; 1344534701; 838955412; 4014267180; 3915690301; 874584965;
    1443074748; 2336634884; 2454094030; 1325607542; 757179215; 4033087991;
    522244827; 3261429859; 2689069402; 2097306594; 1677910824; 3108456848;
    3680878761; 102787601; 3609531531; 174112307; 1749169930; 3037175218;
    2886149496; 1900187584; 325060345; 3458575425; 560035693; 4230274517;
    2651215084; 1128529492; 1514358430; 2265377830; 3844367647; 945934247;
    1044489654; 3808694030; 2166785591; 1550003343; 1164153925; 2552643325;
    4194613188; 658578812; 3355821648; 356543720; 2002970065; 2854702953;
    3005740963; 1851940123; 205575202; 3506798234; 2879807463; 1994650975;
    348224614; 3380926174; 3498339860; 230802604; 1877167509; 2997282605;
    1575107585; 2158466745; 3800375168; 1069593912; 650120690; 4219840330;
    2577870451; 1155695819; 1120071386; 2676442210; 4255501659; 551577571;
    971038505; 3836048785; 2257058984; 1539462672; 3028716860; 1774397316;
    199339709; 3601073157; 3483679951; 316741239; 1891868494; 2911254006;
    2088979308; 2714165716; 3286526189; 513917525; 128023199; 3672428583;
    3100006686; 1703146406; 2328307850; 1468170802; 899681035; 3907363251;
    4058323321; 748729281; 1317157624; 2479329344; 2515008081; 1218597097;
    713087440; 4156912488; 4005940130; 864051482; 1369630755; 2363966107;
    1671666103; 3202757391; 3703880246; 25235598; 411150404; 3317957372;
    2816904133; 2057511293; 1386268991; 2414175111; 3989301950; 813842438;
    696449228; 4106703476; 2531646285; 1268806133; 2766449369; 2040594529;
    461605208; 3334874080; 3754335018; 42152338; 1621211307; 3185840659;
    3150215170; 1719784122; 77814659; 3655790907; 3236317681; 497279817;
    2139187824; 2730803400; 1300241380; 2428875100; 4075239525; 799183581;
    916597271; 3957817519; 2311391638; 1417716526; 2240142772; 1489008396;
    987954741; 3886503053; 4272417863; 602031871; 1103155142; 2625987966;
    1942077010; 2927891690; 3433471443; 300103531; 149131169; 3584435481;
    3078925344; 1791035032; 1826712713; 2980365873; 3548794632; 247719344;
    398679418; 3397842882; 2829352699; 1977734211; 2594508655; 1205904855;
    633482478; 4169631318; 3783736988; 1019384868; 1591745821; 2208675749;
    4177958616; 608386144; 1180808537; 2602835937; 2183440171; 1600195987;
    1027835050; 3758501394; 256046398; 3523698566; 2955269823; 1835039751;
    1952498893; 2837802613; 3406292812; 373444084; 274868197; 3441921373;
    2936341604; 1916841692; 1799362070; 3053829294; 3559339415; 157458223;
    3861267459; 996404923; 1497458562; 2214907194; 2634315248; 1078058824;
    576935537; 4280745161; 774079059; 4083558635; 2437194194; 1275136874;
    1426174880; 2286164248; 3932590113; 925055641; 3630686645; 86133517;
    1728102964; 3125110924; 2739261510; 2113960702; 472052679; 3244775807;
    3343332206; 436378070; 2015367407; 2774907479; 3160736413; 1629530149;
    50471196; 3729230756; 822300808; 3964074544; 2388947721; 1394727345;
    1243701627; 2539965379; 4115022586; 671344706].

(** CRC-32C, the checksum of leveldb's files: leveldb/util/crc32c.cc,
    leveldb/util/crc32c.h and the accelerated routine of
    leveldb/port/port_posix_sse.cc.

    A buffer is the list of its bytes with the address of the first one; a
    pointer into it is an offset.  The SSE 4.2 instructions are parameters
    ([Sse42]) whose documented effect is [Sse42Laws]: they advance the
    register of the Castagnoli polynomial by one, four or eight bytes. *)

Local Open Scope Z_scope.
Local Open Scope c_scope.

(** The Castagnoli polynomial, bit-reversed. *)
Definition POLY_C : Z := 2197175160.

Lemma POLY_C_width : in_width 32 POLY_C.
Proof. unfold in_width, POLY_C. lia. Qed.

Lemma POLY_C_top : 2 ^ 31 ≤ POLY_C.
Proof. unfold POLY_C. lia. Qed.

#[local] Instance crc32c_poly : CrcPoly := { poly := POLY_C; poly_width := POLY_C_width; poly_top := POLY_C_top }.

(** What the checksum of a message is. *)
Definition crc32c_ref (crc : Z) (data : list Z) : Z := crc_ref crc data.

(** The intrinsics of [nmmintrin.h] and the processor's answer to CPUID. *)
Class Sse42 := {
  _mm_crc32_u8 : Z → Z → Z;
  _mm_crc32_u32 : Z → Z → Z;
  _mm_crc32_u64 : Z → Z → Z;
  cpuid_1_ecx : Z }.

Class Sse42Laws `(Sse42) := {
  crc32_u8_spec l b : in_width 32 l → in_width 8 b → _mm_crc32_u8 l b = crc_byte l b;
  crc32_u32_spec l w :
    in_width 32 l → in_width 32 w → _mm_crc32_u32 l w = foldl crc_byte l (le_bytes 4 w);
  crc32_u64_spec l q :
    in_width 32 l → in_width 64 q → _mm_crc32_u64 l q = foldl crc_byte l (le_bytes 8 q) }.

(** The configurations of the build: [LEVELDB_PLATFORM_POSIX_SSE], and on it
    whether the machine is 64-bit. *)
Inductive sse_build := NoSse | Sse32 | Sse64.

(** The register and the read pointer of the routines. *)
Record ext_state := ExtState { es_l : Z; es_p : Z }.

(** [while ((e - p) >= k) step] *)
Definition room_loop (k e : Z) (step : ext_state → option ext_state) (st : ext_state)
  : option ext_state :=
  while (Z.to_nat (e - es_p st)) (λ st, k <=? e - es_p st) step st.

(** [while (p != x) step] *)
Definition until_loop (x : Z) (step : ext_state → option ext_state) (st : ext_state)
  : option ext_state :=
  while (Z.to_nat (x - es_p st)) (λ st, negb (es_p st =? x)) step st.

(** ** The accelerated routine *)

Section accelerated.
Context `{Sse42}.

(** [memcpy] into an integer of a little-endian machine. *)
Definition LE_LOAD32_sse (p : list Z) : option Z :=
  if bool_decide (4 ≤ length p)%nat then Some (of_le_bytes (take 4 p)) else None.

Definition LE_LOAD64 (p : list Z) : option Z :=
  if bool_decide (8 ≤ length p)%nat then Some (of_le_bytes (take 8 p)) else None.

(** [(ecx & (1 << 20)) != 0] *)
Definition HaveSSE42 : bool := negb (Z.land cpuid_1_ecx (Z.shiftl 1 20) =? 0).

Definition STEP1_sse (buf : list Z) (st : ext_state) : option ext_state :=
  b ← buf.[es_p st];
  Some (ExtState (u32 (_mm_crc32_u8 (es_l st) b)) (es_p st + 1)).

Definition STEP4_sse (buf : list Z) (st : ext_state) : option ext_state :=
  w ← LE_LOAD32_sse (drop (Z.to_nat (es_p st)) buf);
  Some (ExtState (u32 (_mm_crc32_u32 (es_l st) w)) (es_p st + 4)).

(** [_mm_crc32_u64] gives 64 bits; the assignment to [l] keeps 32. *)
Definition STEP8 (buf : list Z) (st : ext_state) : option ext_state :=
  q ← LE_LOAD64 (drop (Z.to_nat (es_p st)) buf);
  Some (ExtState (u32 (_mm_crc32_u64 (es_l st) q)) (es_p st + 8)).

Definition AcceleratedCRC32C (build : sse_build) (crc addr : Z) (buf : list Z) (size : Z)
  : option Z :=
  match build with
  | NoSse => Some 0
  | _ =>
    if negb HaveSSE42 then Some 0
    else
      let e := size in
      let st := ExtState (Z.lxor crc 4294967295) 0 in
      st ← (if 16 <? size then
              st ← for_up (Z.to_nat (addr mod 8)) 0 (λ _, STEP1_sse buf) st;
              match build with
              | Sse64 =>
                  st ← room_loop 8 e (STEP8 buf) st;
                  if 4 <=? e - es_p st then STEP4_sse buf st else Some st
              | _ => room_loop 4 e (STEP4_sse buf) st
              end
            else Some st);
      st ← until_loop e (STEP1_sse buf) st;
      Some (Z.lxor (es_l st) 4294967295)
  end.

End accelerated.

(** ** The portable routine *)

Section crc32c.
Context `{Sse42} `{Port} (build : sse_build).

Definition LE_LOAD32 (p : list Z) : option Z := DecodeFixed32 p.

(** ["TestCRCBuffer"], without its terminator. *)
Definition kTestCRCBuffer : list Z := [84; 101; 115; 116; 67; 82; 67; 66; 117; 102; 102; 101; 114].

Definition kTestCRCValue : Z := 3703331322.

(** [addr0] is where the linker put [kTestCRCBuffer]. *)
Definition CanAccelerateCRC32C (addr0 : Z) : option bool :=
  v ← AcceleratedCRC32C build 0 addr0 kTestCRCBuffer 13;
  Some (v =? kTestCRCValue).

Definition STEP1 (buf : list Z) (st : ext_state) : option ext_state :=
  b ← buf.[es_p st];
  let c := Z.lxor (Z.land (es_l st) 255) b in
  x ← table0_.[c];
  Some (ExtState (Z.lxor x (Z.shiftr (es_l st) 8)) (es_p st + 1)).

Definition STEP4 (buf : list Z) (st : ext_state) : option ext_state :=
  w ← LE_LOAD32 (drop (Z.to_nat (es_p st)) buf);
  let c := Z.lxor (es_l st) w in
  x3 ← table3_.[Z.land c 255];
  x2 ← table2_.[Z.land (Z.shiftr c 8) 255];
  x1 ← table1_.[Z.land (Z.shiftr c 16) 255];
  x0 ← table0_.[Z.shiftr c 24];
  Some (ExtState (Z.lxor (Z.lxor (Z.lxor x3 x2) x1) x0) (es_p st + 4)).

Definition STEP16 (buf : list Z) (st : ext_state) : option ext_state :=
  for_up 4 0 (λ _, STEP4 buf) st.

Definition Extend (addr0 crc addr : Z) (buf : list Z) (size : Z) : option Z :=
  accelerate ← CanAccelerateCRC32C addr0;
  if (accelerate : bool) then AcceleratedCRC32C build crc addr buf size
  else
    let e := size in
    let st := ExtState (Z.lxor crc 4294967295) 0 in
    let x := Z.shiftl (Z.shiftr (u64 (addr + 3)) 2) 2 - addr in
    st ← (if x <=? e then until_loop x (STEP1 buf) st else Some st);
    st ← room_loop 16 e (STEP16 buf) st;
    st ← room_loop 4 e (STEP4 buf) st;
    st ← until_loop e (STEP1 buf) st;
    Some (Z.lxor (es_l st) 4294967295).

Definition Value (addr0 addr : Z) (data : list Z) (n : Z) : option Z :=
  Extend addr0 0 addr data n.

End crc32c.

(** ** Stored checksums *)

Definition kMaskDelta : Z := 2726488792.

Definition Mask (crc : Z) : Z :=
  u32 (Z.lor (Z.shiftr crc 15) (u32 (Z.shiftl crc 17)) + kMaskDelta).

Definition Unmask (masked_crc : Z) : Z :=
  let rot := u32 (masked_crc - kMaskDelta) in
  Z.lor (Z.shiftr rot 17) (u32 (Z.shiftl rot 15)).

(** ** The tables *)

Definition table_ok (k : nat) (t : list Z) : bool :=
  forallb (λ n, bool_decide (t.[n] = Some (Nat.iter (S k) crc8 n))) (seqZ 0 256).

Lemma c_tables_ok :
  table_ok 0 table0_ && table_ok 1 table1_ && table_ok 2 table2_ && table_ok 3 table3_ = true.
Proof. vm_compute. reflexivity. Qed.

Lemma table_ok_get k t n :
  table_ok k t = true → in_width 8 n → t.[n] = Some (Nat.iter (S k) crc8 n).
Proof.
  intros H Hn. unfold table_ok in H. rewrite forallb_forall in H.
  specialize (H n). apply bool_decide_eq_true_1 in H; [done|].
  apply list_elem_of_In, elem_of_seqZ. exact Hn.
Qed.

Lemma tables_get n :
  in_width 8 n →
  table0_.[n] = Some (crc8 n) ∧ table1_.[n] = Some (Nat.iter 2 crc8 n) ∧
  table2_.[n] = Some (Nat.iter 3 crc8 n) ∧ table3_.[n] = Some (Nat.iter 4 crc8 n).
Proof.
  intros Hn. pose proof c_tables_ok as [[[? ?]%andb_prop ?]%andb_prop ?]%andb_prop.
  split_and!; [by apply (table_ok_get 0)|by apply table_ok_get..].
Qed.

(** ** Steps and loops *)

Section steps.
Context (buf : list Z) (Hbuf : bytes buf).

(** [step] consumes the next [k] bytes. *)
Definition step_ok (k : Z) (step : ext_state → option ext_state) : Prop :=
  ∀ st, in_width 32 (es_l st) → 0 ≤ es_p st → es_p st + k ≤ Z.of_nat (length buf) →
  step st = Some (ExtState (foldl crc_byte (es_l st) (slice buf (es_p st) k)) (es_p st + k)).

(** The register has consumed the bytes before the pointer. *)
Definition ext_inv (c0 e : Z) (st : ext_state) : Prop :=
  0 ≤ es_p st ≤ e ∧ es_l st = foldl crc_byte c0 (slice buf 0 (es_p st)).

Lemma ext_inv_width c0 e st : in_width 32 c0 → ext_inv c0 e st → in_width 32 (es_l st).
Proof. intros Hc [_ ->]. apply crc_fold_width; [solve_width|done]. Qed.

Section loops.
Context (c0 e : Z) (Hc : in_width 32 c0) (He : e ≤ Z.of_nat (length buf)).

Lemma ext_step_inv k step st :
  step_ok k step → 0 ≤ k → ext_inv c0 e st → k ≤ e - es_p st →
  succeeds (step st) (λ st', ext_inv c0 e st' ∧ es_p st' = es_p st + k).
Proof.
  intros Hs Hk I Hr. pose proof (ext_inv_width _ _ _ Hc I) as Hw. destruct I as [Hp Hl].
  rewrite Hs by (done || lia). cbn [succeeds es_p]. split; [|done].
  split; cbn [es_p es_l]; [lia|]. rewrite Hl, <-foldl_app, slice_app by lia. done.
Qed.

Lemma room_loop_ok k step st :
  step_ok k step → 0 < k → ext_inv c0 e st →
  succeeds (room_loop k e step st) (ext_inv c0 e).
Proof.
  intros Hs Hk I. eapply succeeds_mono.
  - apply (while_total (ext_inv c0 e) (λ st, Z.to_nat (e - es_p st))); [|done..].
    intros st' I' Hc'%Z.leb_le. eapply succeeds_mono; [apply (ext_step_inv k); done || lia|].
    intros st'' [? ->]. split; [done|lia].
  - intros st' [? _]. done.
Qed.

Lemma until_loop_ok x step st :
  step_ok 1 step → x ≤ e → es_p st ≤ x → ext_inv c0 e st →
  succeeds (until_loop x step st) (λ st', ext_inv c0 e st' ∧ es_p st' = x).
Proof.
  intros Hs Hx Hp I. eapply succeeds_mono.
  - apply (while_total (λ st, ext_inv c0 e st ∧ es_p st ≤ x) (λ st, Z.to_nat (x - es_p st)));
      [|done..].
    intros st' [I' Hp'] Hc'%negb_true_iff%Z.eqb_neq.
    eapply succeeds_mono; [apply (ext_step_inv 1); done || lia|].
    intros st'' [? ->]. split; [split; [done|]|]; lia.
  - intros st' [[? _] Hc'%negb_false_iff%Z.eqb_eq]. done.
Qed.

Lemma count_loop_ok (n : nat) k step st :
  step_ok k step → 0 ≤ k → Z.of_nat n * k ≤ e - es_p st → ext_inv c0 e st →
  succeeds (for_up n 0 (λ _, step) st)
    (λ st', ext_inv c0 e st' ∧ es_p st' = es_p st + Z.of_nat n * k).
Proof.
  intros Hs Hk Hr I.
  apply (for_up_total (λ j st', ext_inv c0 e st' ∧ es_p st' = es_p st + j * k)); [|split; [done|lia]].
  intros j st' Hj [I' Hp']. eapply succeeds_mono; [apply (ext_step_inv k); done || nia|].
  intros st'' [? ->]. split; [done|lia].
Qed.

Lemma ext_finish st (Q : Z → Prop) step :
  step_ok 1 step → ext_inv c0 e st →
  Q (Z.lxor (foldl crc_byte c0 (slice buf 0 e)) 4294967295) →
  succeeds (st ← until_loop e step st; Some (Z.lxor (es_l st) 4294967295)) Q.
Proof.
  intros Hs I HQ. eapply succeeds_bind.
  - apply until_loop_ok; [done|done|destruct I; lia|done].
  - intros st' [[_ ->] ->]. done.
Qed.

End loops.

Lemma ext_start c0 e : 0 ≤ e → ext_inv c0 e (ExtState c0 0).
Proof. intros. split; [cbn; lia|]. done. Qed.

(** *** The steps *)

Lemma step_ok_16 step : step_ok 4 step → step_ok 16 (for_up 4 0 (λ _, step)).
Proof.
  intros Hs st Hw Hp Hl. cbn [for_up]. rewrite Hs by (done || lia). simpl_bind.
  do 3 (rewrite Hs; simpl_bind; cbn [es_l es_p];
    [rewrite <-foldl_app, <-?Z.add_assoc, <-slice_app by lia
    |repeat (apply crc_fold_width; [solve_width|]); done|lia..]).
  repeat f_equal; lia.
Qed.

Lemma STEP1_ok : step_ok 1 (STEP1 buf).
Proof.
  intros st Hw Hp Hl. unfold STEP1. destruct (aget_in buf (es_p st)) as [b Hb]; [lia|].
  pose proof (bytes_aget _ _ _ Hbuf Hb) as Hb8. rewrite (slice_1 _ _ _ Hb), Hb. simpl_bind.
  cbv zeta. rewrite land_byte.
  destruct (tables_get (Z.lxor (es_l st mod 2 ^ 8) b)) as (-> & _).
  { apply lxor_width; [lia|apply (wrap_range 8); lia|done]. }
  simpl_bind. cbn [foldl]. by rewrite crc_byte_step, land_byte by done.
Qed.

Lemma take_slice (n : nat) p : 0 ≤ p → take n (drop (Z.to_nat p) buf) = slice buf p (Z.of_nat n).
Proof. intros. unfold slice. by rewrite Nat2Z.id. Qed.

Lemma slice_4 p :
  0 ≤ p → p + 4 ≤ Z.of_nat (length buf) →
  ∃ b0 b1 b2 b3, slice buf p 4 = [b0; b1; b2; b3] ∧
    of_le_bytes [b0; b1; b2; b3] = word b0 b1 b2 b3 ∧ in_width 32 (word b0 b1 b2 b3).
Proof.
  intros Hp Hl. pose proof (length_slice buf p 4 Hp ltac:(lia) Hl) as HL.
  pose proof (slice_bytes _ p 4 Hbuf) as Hb.
  destruct (slice buf p 4) as [|b0 [|b1 [|b2 [|b3 [|]]]]]; try discriminate.
  unfold bytes in Hb. rewrite !Forall_cons in Hb. destruct Hb as (? & ? & ? & ? & _).
  exists b0, b1, b2, b3. split_and!; [done| |by apply word_width].
  rewrite word_add by done. cbn [of_le_bytes]. rewrite !Z.shiftl_mul_pow2 by lia.
  change (2 ^ 8) with 256. change (2 ^ 16) with 65536. change (2 ^ 24) with 16777216. lia.
Qed.

Lemma STEP4_ok `{Port} : step_ok 4 (STEP4 buf).
Proof.
  intros st Hw Hp Hl. unfold STEP4, LE_LOAD32.
  rewrite DecodeFixed32_le by (solve_width || (rewrite length_drop; lia)). simpl_bind.
  rewrite take_slice by done. change (Z.of_nat 4) with 4.
  destruct (slice_4 (es_p st)) as (b0 & b1 & b2 & b3 & -> & -> & Hwd); [done..|].
  cbv zeta. set (c := Z.lxor (es_l st) _).
  assert (in_width 32 c) as Hc by solve_width.
  rewrite shiftr24_byte by done.
  change (Z.land (Z.shiftr c 8) 255) with (byte_at 1 c).
  change (Z.land (Z.shiftr c 16) 255) with (byte_at 2 c).
  change (Z.land c 255) with (byte_at 0 c).
  destruct (tables_get (byte_at 0 c)) as (_ & _ & _ & ->); [apply byte_at_width|].
  destruct (tables_get (byte_at 1 c)) as (_ & _ & -> & _); [apply byte_at_width|].
  destruct (tables_get (byte_at 2 c)) as (_ & -> & _ & _); [apply byte_at_width|].
  destruct (tables_get (byte_at 3 c)) as (-> & _); [apply byte_at_width|].
  simpl_bind. by rewrite <-crc8_word, word_bytes, crc_byte_4 by done.
Qed.

Section sse.
Context `{Sse42Laws}.

Lemma STEP1_sse_ok : step_ok 1 (STEP1_sse buf).
Proof.
  intros st Hw Hp Hl. unfold STEP1_sse. destruct (aget_in buf (es_p st)) as [b Hb]; [lia|].
  pose proof (bytes_aget _ _ _ Hbuf Hb) as Hb8. rewrite (slice_1 _ _ _ Hb), Hb. simpl_bind.
  rewrite crc32_u8_spec by done. rewrite wrap_small by solve_width. done.
Qed.

(** A load of [n] bytes, read back from the integer. *)
Lemma load_slice (n : nat) p :
  0 ≤ p → p + Z.of_nat n ≤ Z.of_nat (length buf) →
  le_bytes n (of_le_bytes (take n (drop (Z.to_nat p) buf))) = slice buf p (Z.of_nat n) ∧
  in_width (8 * Z.of_nat n) (of_le_bytes (take n (drop (Z.to_nat p) buf))).
Proof.
  intros Hp Hl. rewrite take_slice by done.
  assert (length (slice buf p (Z.of_nat n)) = n) as HL by (rewrite length_slice; lia).
  pose proof (slice_bytes _ p (Z.of_nat n) Hbuf) as Hb. split.
  - rewrite <-HL at 1. by apply le_bytes_of_le_bytes.
  - rewrite <-HL at 1. by apply of_le_bytes_width.
Qed.

Lemma STEP4_sse_ok : step_ok 4 (STEP4_sse buf).
Proof.
  intros st Hw Hp Hl. unfold STEP4_sse, LE_LOAD32_sse.
  rewrite bool_decide_true by (rewrite length_drop; lia). simpl_bind.
  destruct (load_slice 4 (es_p st)) as [E Hq]; [done..|].
  rewrite crc32_u32_spec, E by done. rewrite wrap_small by (apply crc_fold_width; [solve_width|done]).
  done.
Qed.

Lemma STEP8_ok : step_ok 8 (STEP8 buf).
Proof.
  intros st Hw Hp Hl. unfold STEP8, LE_LOAD64.
  rewrite bool_decide_true by (rewrite length_drop; lia). simpl_bind.
  destruct (load_slice 8 (es_p st)) as [E Hq]; [done..|].
  rewrite crc32_u64_spec, E by done. rewrite wrap_small by (apply crc_fold_width; [solve_width|done]).
  done.
Qed.

End sse.
End steps.

(** ** The routines *)

Section accelerated_ok.
Context `{Laws : Sse42Laws} (build : sse_build).
Context (buf : list Z) (Hbuf : bytes buf) (crc addr size : Z).
Context (Hcrc : in_width 32 crc).
Context (Hsize : 0 ≤ size ≤ Z.of_nat (length buf)).

Abbreviation c0 := (Z.lxor crc 4294967295).

Lemma AcceleratedCRC32C_ok :
  build ≠ NoSse → HaveSSE42 = true →
  AcceleratedCRC32C build crc addr buf size = Some (crc32c_ref crc (slice buf 0 size)).
Proof.
  intros Hb Hh. assert (in_width 32 c0) as Hc by solve_width. pose proof (ext_start buf c0 size ltac:(lia)) as I0.
  apply succeeds_eq. unfold AcceleratedCRC32C. rewrite Hh. cbn [negb]. cbv zeta.
  assert (succeeds (if 16 <? size then
      st ← for_up (Z.to_nat (addr mod 8)) 0 (λ _, STEP1_sse buf) (ExtState c0 0);
      match build with
      | Sse64 => st ← room_loop 8 size (STEP8 buf) st;
                 if 4 <=? size - es_p st then STEP4_sse buf st else Some st
      | _ => room_loop 4 size (STEP4_sse buf) st
      end else Some (ExtState c0 0)) (ext_inv buf c0 size)) as Hmid.
  { destruct (Z.ltb_spec 16 size); [|done].
    pose proof (Z.mod_pos_bound addr 8 ltac:(lia)) as Hm. eapply succeeds_bind.
    - apply (count_loop_ok buf Hbuf c0 size Hc ltac:(lia) _ 1);
        [by apply STEP1_sse_ok|lia|cbn [es_p]; lia|done].
    - intros st [I _]. destruct build; [done| |].
      + apply room_loop_ok; [done|done| |by apply STEP4_sse_ok| |done]; lia.
      + eapply succeeds_bind.
        * apply room_loop_ok; [done|done| |by apply STEP8_ok| |exact I]; lia.
        * intros st' I'. cbn beta. destruct (Z.leb_spec 4 (size - es_p st')); [|done].
          eapply succeeds_mono; [apply (ext_step_inv buf Hbuf c0 size Hc ltac:(lia) 4)|];
            [by apply STEP4_sse_ok|lia|done|lia|]. by intros ? [? _]. }
  destruct build; [done| |]; (eapply succeeds_bind; [exact Hmid|]; intros st I; cbn beta;
    apply (ext_finish buf Hbuf c0 size Hc ltac:(lia)); [by apply STEP1_sse_ok|done|done]).
Qed.

End accelerated_ok.

(** The test run of [CanAccelerateCRC32C] finds out whether the routine is
    there: in a build without it, or on a processor without the instructions,
    it returns 0, which is not the checksum of the test string. *)
Definition accelerated `{Sse42} (build : sse_build) : bool :=
  match build with NoSse => false | _ => HaveSSE42 end.

Lemma CanAccelerate_spec `{Laws : Sse42Laws} build addr0 :
  CanAccelerateCRC32C build addr0 = Some (accelerated build).
Proof.
  unfold CanAccelerateCRC32C, accelerated.
  destruct HaveSSE42 eqn:Hh; cycle 1.
  { unfold AcceleratedCRC32C. rewrite Hh. by destruct build. }
  assert (bytes kTestCRCBuffer) by (repeat constructor; unfold in_width; lia).
  destruct build; [done|..]; (rewrite AcceleratedCRC32C_ok by done; simpl_bind; f_equal;
    vm_compute; reflexivity).
Qed.

Lemma Extend_ref `{Laws : Sse42Laws} `{Port} build addr0 crc addr buf size :
  bytes buf → in_width 32 crc → 0 ≤ addr < 2 ^ 64 - 3 → 0 ≤ size ≤ Z.of_nat (length buf) →
  Extend build addr0 crc addr buf size = Some (crc32c_ref crc (slice buf 0 size)).
Proof.
  intros Hbuf Hcrc Haddr Hsize. unfold Extend. rewrite CanAccelerate_spec. simpl_bind.
  destruct (accelerated build) eqn:Ha.
  { apply AcceleratedCRC32C_ok; [done..|intros ->; done|]. by destruct build. }
  assert (in_width 32 (Z.lxor crc 4294967295)) as Hc by solve_width.
  pose proof (ext_start buf (Z.lxor crc 4294967295) size ltac:(lia)) as I0.
  apply succeeds_eq. cbv zeta.
  rewrite (wrap_small 64 (addr + 3)) by (unfold in_width; lia).
  rewrite Z.shiftr_div_pow2, Z.shiftl_mul_pow2 by lia. change (2 ^ 2) with 4.
  set (x := (addr + 3) / 4 * 4 - addr).
  assert (0 ≤ x) as Hx by (pose proof (Z.div_mod (addr + 3) 4); pose proof (Z.mod_pos_bound (addr + 3) 4); unfold x; lia).
  eapply (succeeds_bind _ _ (ext_inv buf (Z.lxor crc 4294967295) size)).
  { destruct (Z.leb_spec x size); [|done]. eapply succeeds_mono.
    - apply (until_loop_ok buf Hbuf _ size Hc ltac:(lia)); [by apply STEP1_ok|done..].
    - by intros ? [? _]. }
  intros st1 I1. eapply succeeds_bind.
  { apply (room_loop_ok buf Hbuf _ size Hc ltac:(lia)); [|lia|exact I1].
    by apply step_ok_16, STEP4_ok. }
  intros st2 I2. cbn beta. eapply succeeds_bind.
  { apply (room_loop_ok buf Hbuf _ size Hc ltac:(lia)); [|lia|exact I2]. by apply STEP4_ok. }
  intros st3 I3. cbn beta.
  apply (ext_finish buf Hbuf _ size Hc ltac:(lia)); [by apply STEP1_ok|done|done].
Qed.

(** ** Error detection *)

Lemma fold_of_le_bytes c m :
  bytes m → foldl crc_byte c m = Nat.iter (length m) crc8 (Z.lxor c (of_le_bytes m)).
Proof.
  intros Hm. revert c. induction Hm as [|b m Hb Hm IH]; intros c; [cbn; by rewrite Z.lxor_0_r|].
  cbn [foldl length of_le_bytes]. rewrite IH, Nat.iter_succ_r. f_equal.
  replace (b + 256 * of_le_bytes m) with (Z.lxor b (Z.shiftl (of_le_bytes m) 8)).
  - by rewrite <-Z.lxor_assoc, crc8_xor_shiftl8.
  - rewrite lxor_shiftl_add by (done || lia). rewrite Z.shiftl_mul_pow2 by lia. lia.
Qed.

(** Changing up to four consecutive bytes of a message changes its checksum. *)
Lemma crc32c_burst crc a m m' b :
  in_width 32 crc → bytes a → bytes m → bytes m' → bytes b → length m = length m' →
  (length m ≤ 4)%nat → crc32c_ref crc (a ++ m ++ b) = crc32c_ref crc (a ++ m' ++ b) → m = m'.
Proof.
  intros Hc Ha Hm Hm' Hb Hl H4 E. unfold crc32c_ref, crc_ref in E.
  apply (f_equal (λ x, Z.lxor x 4294967295)) in E.
  rewrite !Z.lxor_assoc, !Z.lxor_nilpotent, !Z.lxor_0_r, !foldl_app in E.
  set (c := foldl crc_byte _ a) in E.
  assert (in_width 32 c) as Hcw by (apply crc_fold_width; [done|solve_width]).
  apply crc_fold_inj in E; [|done|by apply crc_fold_width..].
  rewrite !fold_of_le_bytes, <-Hl in E by done.
  assert (∀ l, bytes l → (length l ≤ 4)%nat → in_width 32 (of_le_bytes l)) as Hw.
  { intros l Hbl Hll. eapply in_width_mono; [|by apply of_le_bytes_width]. lia. }
  apply crc8_iter_inj in E; [|apply lxor_width; auto with lia..].
  assert (of_le_bytes m = of_le_bytes m') as E'.
  { apply (f_equal (Z.lxor c)) in E. by rewrite <-!Z.lxor_assoc, Z.lxor_nilpotent, !Z.lxor_0_l in E. }
  rewrite <-(le_bytes_of_le_bytes m Hm), <-(le_bytes_of_le_bytes m' Hm'). by rewrite E', Hl.
Qed.

(** ** Masking *)

(** A word rotated left by [k] bits. *)
Definition rotl (k x : Z) : Z := Z.lor (Z.shiftr x (32 - k)) (u32 (Z.shiftl x k)).

Lemma rotl_split k x :
  0 ≤ k ≤ 32 → in_width 32 x →
  rotl k x = x / 2 ^ (32 - k) + x mod 2 ^ (32 - k) * 2 ^ k.
Proof.
  intros Hk Hx. unfold rotl, wrap. rewrite (Z.shiftr_div_pow2 x), (Z.shiftl_mul_pow2 x) by lia.
  replace (2 ^ 32) with (2 ^ (32 - k) * 2 ^ k) by (rewrite <-Z.pow_add_r by lia; f_equal; lia).
  pose proof (pow2_pos k ltac:(lia)) as Hpk. pose proof (pow2_pos (32 - k) ltac:(lia)).
  rewrite Z.mul_mod_distr_r by lia. rewrite <-Z.shiftl_mul_pow2 by lia.
  rewrite lor_shiftl_add; [by rewrite Z.shiftl_mul_pow2 by lia|lia|].
  unfold in_width in *. split; [apply Z.div_pos; lia|]. apply Z.div_lt_upper_bound; [lia|].
  rewrite <-Z.pow_add_r by lia. replace (32 - k + k) with 32 by lia. lia.
Qed.

Lemma rotl_width k x : 0 ≤ k ≤ 32 → in_width 32 x → in_width 32 (rotl k x).
Proof.
  intros. apply lor_width; [lia|apply shiftr_width; (lia || done)|apply wrap_range; lia].
Qed.

Lemma rotl_rotl k x : 0 ≤ k ≤ 32 → in_width 32 x → rotl (32 - k) (rotl k x) = x.
Proof.
  intros Hk Hx. rewrite (rotl_split (32 - k)) by (lia || by apply rotl_width).
  rewrite rotl_split by done. replace (32 - (32 - k)) with k by lia.
  pose proof (pow2_pos k ltac:(lia)). pose proof (pow2_pos (32 - k) ltac:(lia)).
  assert (0 ≤ x / 2 ^ (32 - k) < 2 ^ k) as Hd.
  { unfold in_width in Hx. split; [apply Z.div_pos; lia|]. apply Z.div_lt_upper_bound; [lia|].
    rewrite <-Z.pow_add_r by lia. replace (32 - k + k) with 32 by lia. lia. }
  pose proof (Z.div_mod x (2 ^ (32 - k)) ltac:(lia)) as E.
  rewrite Z.div_add by lia. rewrite (Z.div_small (x / 2 ^ (32 - k)) (2 ^ k)) by lia.
  rewrite Z_mod_plus_full, (Z.mod_small (x / 2 ^ (32 - k)) (2 ^ k)) by lia. lia.
Qed.

Lemma u32_add_sub a d : in_width 32 a → u32 (u32 (a + d) - d) = a.
Proof.
  intros Ha. unfold wrap. rewrite Zminus_mod_idemp_l. replace (a + d - d) with a by lia.
  by apply wrap_small.
Qed.

Lemma u32_sub_add a d : in_width 32 a → u32 (u32 (a - d) + d) = a.
Proof.
  intros Ha. unfold wrap. rewrite Zplus_mod_idemp_l. replace (a - d + d) with a by lia.
  by apply wrap_small.
Qed.

Lemma Mask_rotl crc : Mask crc = u32 (rotl 17 crc + kMaskDelta).
Proof. done. Qed.

Lemma Unmask_rotl m : Unmask m = rotl 15 (u32 (m - kMaskDelta)).
Proof. done. Qed.

Lemma Mask_width crc : in_width 32 (Mask crc).
Proof. rewrite Mask_rotl. apply wrap_range. lia. Qed.

#[export] Hint Resolve Mask_width : width.

Lemma Unmask_Mask crc : in_width 32 crc → Unmask (Mask crc) = crc.
Proof.
  intros Hc. rewrite Mask_rotl, Unmask_rotl, u32_add_sub by (apply rotl_width; done || lia).
  apply (rotl_rotl 17); done || lia.
Qed.

Lemma Mask_Unmask m : in_width 32 m → Mask (Unmask m) = m.
Proof.
  intros Hm. rewrite Mask_rotl, Unmask_rotl.
  pose proof (rotl_rotl 15 (u32 (m - kMaskDelta)) ltac:(lia) ltac:(apply wrap_range; lia)) as E.
  change (32 - 15) with 17 in E. rewrite E. by apply u32_sub_add.
Qed.

(** ** Results *)

(** C23. [Extend] computes CRC-32C on every build: with or without the SSE
    routine, on 32- and 64-bit machines, whether or not the processor has the
    instructions, whatever the byte order and the alignment of the buffers.
    Continuing the checksum of [A] over [data] gives the checksum of their
    concatenation, as crc32c.h promises, and the result fits 32 bits. *)
Theorem Extend_correct `{Sse42Laws} `{Port} build addr0 addrA addr (A data : list Z) :
  bytes A → bytes data → 0 ≤ addrA < 2 ^ 64 - 3 → 0 ≤ addr < 2 ^ 64 - 3 →
  ∃ crc, Value build addr0 addrA A (Z.of_nat (length A)) = Some crc ∧ in_width 32 crc ∧
    crc = crc32c_ref 0 A ∧
    Extend build addr0 crc addr data (Z.of_nat (length data)) = Some (crc32c_ref 0 (A ++ data)).
Proof.
  intros HA Hd HaA Ha. exists (crc32c_ref 0 A).
  assert (in_width 32 (crc32c_ref 0 A)) as Hw
    by (apply crc_ref_width; [done|unfold in_width; lia]).
  split_and!; [|done|done|].
  - unfold Value. rewrite Extend_ref by (done || unfold in_width; lia). by rewrite slice_all.
  - rewrite Extend_ref by (done || lia). rewrite slice_all. f_equal. symmetry.
    apply crc_ref_continue.
Qed.

(** The instructions, executed: a processor that has them. *)
Definition sse_cpu : Sse42 := {|
  _mm_crc32_u8 := crc_byte;
  _mm_crc32_u32 l w := foldl crc_byte l (le_bytes 4 w);
  _mm_crc32_u64 l q := foldl crc_byte l (le_bytes 8 q);
  cpuid_1_ecx := 1048576 |}.

Lemma sse_cpu_laws : Sse42Laws sse_cpu.
Proof. split; done. Qed.

Lemma Extend_correct_witness :
  ∃ crc, Value (H := sse_cpu) (H0 := posix_x86) Sse64 0 5 [49; 50; 51; 52] 4 = Some crc ∧
    in_width 32 crc ∧ crc = crc32c_ref 0 [49; 50; 51; 52] ∧
    Extend (H := sse_cpu) (H0 := posix_x86) Sse64 0 crc 3 [53; 54; 55; 56; 57] 5 =
      Some (crc32c_ref 0 ([49; 50; 51; 52] ++ [53; 54; 55; 56; 57])).
Proof.
  apply (Extend_correct (H := sse_cpu) (H0 := sse_cpu_laws) (H1 := posix_x86) Sse64 0 5 3
    [49; 50; 51; 52] [53; 54; 55; 56; 57]);
    first [repeat constructor; unfold in_width; lia|lia].
Defined.

(** The check value of CRC-32C, computed by both routines. *)
Example crc32c_check_value :
  Extend (H := sse_cpu) (H0 := posix_x86) NoSse 0 0 3 [49; 50; 51; 52; 53; 54; 55; 56; 57] 9
    = Some 3808858755 ∧
  Extend (H := sse_cpu) (H0 := posix_x86) Sse64 0 0 3 [49; 50; 51; 52; 53; 54; 55; 56; 57] 9
    = Some 3808858755.
Proof. split; vm_compute; reflexivity. Qed.

(** Masking a checksum is a bijection on 32-bit words: [Unmask] undoes
    [Mask], so no information is lost in a stored checksum, and [Mask] undoes
    [Unmask], so every stored word is the mask of exactly one checksum. *)
Theorem Mask_bijective (crc : Z) :
  in_width 32 crc →
  in_width 32 (Mask crc) ∧ Unmask (Mask crc) = crc ∧ Mask (Unmask crc) = crc.
Proof. intros Hc. split_and!; [apply Mask_width|by apply Unmask_Mask|by apply Mask_Unmask]. Qed.

Lemma Mask_bijective_witness :
  in_width 32 (Mask 3808858755) ∧ Unmask (Mask 3808858755) = 3808858755 ∧
  Mask (Unmask 3808858755) = 3808858755.
Proof. apply (Mask_bijective 3808858755). unfold in_width. lia. Defined.
