(* ===== verification/Slice.v ===== *)
(** leveldb's byte slices, statuses and comparators:
    leveldb/include/leveldb/slice.h, status.h and comparator.h, and
    leveldb/util/comparator.cc.

    A [Slice] is the list of its bytes.  [Comparator] is the interface the
    rest of leveldb is written against: a record of the virtual functions,
    with the order laws its header asks for as a separate class. *)

From Stdlib Require Import ZArith Lia.
From stdpp Require Import base option numbers list strings.
From S2P Require Import Prelude.

(** ** Status *)

Inductive Status :=
  | OK
  | NotFound (msg : string)
  | Corruption (msg : string)
  | NotSupported (msg : string)
  | InvalidArgument (msg : string)
  | IOError (msg : string).

#[export] Instance Status_eq_dec : EqDecision Status.
Proof. solve_decision. Defined.

(** [Status::ok]: [state_ == NULL]. *)
Definition ok (s : Status) : bool :=
  match s with OK => true | _ => false end.

Lemma ok_true s : ok s = true ↔ s = OK.
Proof. by destruct s. Qed.

(** [Status(code, msg, msg2)] joins the messages. *)
Definition status_message (msg msg2 : string) : string :=
  match msg2 with EmptyString => msg | _ => msg +:+ ": " +:+ msg2 end.

(** ** Slices *)

(** The sign of the first difference of the two buffers of length [n]. *)
Fixpoint memcmp (n : nat) (a b : list Z) : Z :=
  match n, a, b with
  | S n', x :: a', y :: b' =>
      if x <? y then -1 else if y <? x then 1 else memcmp n' a' b'
  | _, _, _ => 0
  end.

Definition slice_compare (a b : list Z) : Z :=
  let min_len := if (length a <? length b)%nat then length a else length b in
  let r := memcmp min_len a b in
  if r =? 0 then
    if (length a <? length b)%nat then -1
    else if (length b <? length a)%nat then 1 else r
  else r.

Definition starts_with (a x : list Z) : bool :=
  (length x <=? length a)%nat && (memcmp (length x) a x =? 0).

Definition slice_eqb (x y : list Z) : bool :=
  (length x =? length y)%nat && (memcmp (length x) x y =? 0).

(** The bytes of a string literal. *)
Definition bytes_of (s : string) : list Z := (λ a, Z.of_nat (Ascii.nat_of_ascii a)) <$> String.list_ascii_of_string s.

Lemma bytes_of_bytes s : bytes (bytes_of s).
Proof.
  apply Forall_fmap, Forall_true. intros a. cbn. unfold in_width.
  pose proof (Ascii.nat_ascii_bounded a). change (2 ^ 8) with 256. lia.
Qed.

(** ** Comparators *)

Class Comparator := {
  Compare : list Z → list Z → Z;
  FindShortestSeparator : list Z → list Z → list Z;
  FindShortSuccessor : list Z → list Z
}.

(** What comparator.h asks of an implementation. *)
Class ComparatorLaws (C : Comparator) : Prop := {
  Compare_anti a b : Z.sgn (Compare b a) = - Z.sgn (Compare a b);
  Compare_trans a b c : Compare a b ≤ 0 → Compare b c ≤ 0 → Compare a c ≤ 0;
  FindShortestSeparator_spec start limit :
    bytes start → bytes limit → Compare start limit < 0 →
    Compare start (FindShortestSeparator start limit) ≤ 0 ∧
    Compare (FindShortestSeparator start limit) limit < 0;
  FindShortestSeparator_unchanged start limit :
    bytes start → bytes limit → 0 ≤ Compare start limit → FindShortestSeparator start limit = start;
  FindShortSuccessor_spec key :
    bytes key → Compare key (FindShortSuccessor key) ≤ 0;
  FindShortestSeparator_bytes start limit :
    bytes start → bytes limit → bytes (FindShortestSeparator start limit);
  FindShortSuccessor_bytes key : bytes key → bytes (FindShortSuccessor key);
  FindShortestSeparator_length start limit :
    bytes start → bytes limit → (length (FindShortestSeparator start limit) ≤ length start)%nat;
  FindShortSuccessor_length key : bytes key → (length (FindShortSuccessor key) ≤ length key)%nat
}.

(** *** The bytewise comparator *)

Definition diff_index (start limit : list Z) (min_length : nat) : option nat :=
  while min_length
    (λ i, (i <? min_length)%nat && bool_decide (start !! i = limit !! i))
    (λ i, Some (S i)) 0%nat.

(** The [assert] at the end holds by [FindShortestSeparator_spec]. *)
Definition bytewise_FindShortestSeparator (start limit : list Z) : list Z :=
  let min_length := (length start `min` length limit)%nat in
  match diff_index start limit min_length with
  | None => start
  | Some diff_index =>
      if (min_length <=? diff_index)%nat then start
      else
        match start !! diff_index, limit !! diff_index with
        | Some diff_byte, Some limit_byte =>
            if (diff_byte <? 255) && (diff_byte + 1 <? limit_byte)
            then take (diff_index + 1) (<[diff_index := u8 (diff_byte + 1)]> start)
            else start
        | _, _ => start
        end
  end.

(** [for (i = 0; i < n; i++)] over the bytes of the key, [i] of which are
    behind. *)
Fixpoint short_successor_loop (key : list Z) (i : nat) (rest : list Z) : list Z :=
  match rest with
  | [] => key
  | byte :: rest' =>
      if negb (byte =? 255) then take (i + 1) (<[i := u8 (byte + 1)]> key)
      else short_successor_loop key (S i) rest'
  end.

Definition bytewise_FindShortSuccessor (key : list Z) : list Z := short_successor_loop key 0 key.

Definition BytewiseComparator : Comparator := {|
  Compare := slice_compare;
  FindShortestSeparator := bytewise_FindShortestSeparator;
  FindShortSuccessor := bytewise_FindShortSuccessor
|}.

(** ** Lexicographic order *)

(** [slice_compare] without the two lengths. *)
Fixpoint lex (a b : list Z) : Z :=
  match a, b with
  | [], [] => 0
  | [], _ :: _ => -1
  | _ :: _, [] => 1
  | x :: a', y :: b' => if x <? y then -1 else if y <? x then 1 else lex a' b'
  end.

Lemma slice_compare_lex a b : slice_compare a b = lex a b.
Proof.
  revert b. induction a as [|x a IH]; intros [|y b]; try done.
  specialize (IH b). unfold slice_compare in *. cbn [lex length].
  change (S (length a) <? S (length b))%nat with (length a <? length b)%nat.
  change (S (length b) <? S (length a))%nat with (length b <? length a)%nat.
  replace (if (length a <? length b)%nat then S (length a) else S (length b))
    with (S (if (length a <? length b)%nat then length a else length b))
    by (by destruct (length a <? length b)%nat).
  cbn [memcmp]. destruct (x <? y); [done|]. destruct (y <? x); [done|]. exact IH.
Qed.

Lemma lex_refl a : lex a a = 0.
Proof. induction a as [|x a IH]; [done|]. cbn. by rewrite Z.ltb_irrefl. Qed.

Lemma lex_anti a b : lex b a = - lex a b.
Proof.
  revert b. induction a as [|x a IH]; intros [|y b]; try done. cbn.
  destruct (Z.ltb_spec x y), (Z.ltb_spec y x); (lia || done).
Qed.

Lemma lex_range a b : -1 ≤ lex a b ≤ 1.
Proof.
  revert b. induction a as [|x a IH]; intros [|y b]; cbn; try lia.
  destruct (x <? y), (y <? x); (lia || done).
Qed.

Lemma lex_eq a b : lex a b = 0 ↔ a = b.
Proof.
  split; [|intros ->; apply lex_refl].
  revert b. induction a as [|x a IH]; intros [|y b]; cbn; try done.
  destruct (Z.ltb_spec x y), (Z.ltb_spec y x); try done.
  intros ->%IH. f_equal. lia.
Qed.

Lemma lex_trans a b c : lex a b ≤ 0 → lex b c ≤ 0 → lex a c ≤ 0.
Proof.
  revert b c. induction a as [|x a IH]; intros [|y b] [|z c]; cbn; try lia.
  destruct (Z.ltb_spec x y), (Z.ltb_spec y z), (Z.ltb_spec x z), (Z.ltb_spec y x),
    (Z.ltb_spec z y), (Z.ltb_spec z x); try lia.
  apply IH.
Qed.

Lemma lex_common p a b : lex (p ++ a) (p ++ b) = lex a b.
Proof. induction p as [|x p IH]; [done|]. cbn. by rewrite Z.ltb_irrefl. Qed.

Lemma slice_eqb_spec a b : slice_eqb a b = bool_decide (a = b).
Proof.
  unfold slice_eqb. destruct (Nat.eqb_spec (length a) (length b)) as [Hl|Hl]; cbn [andb].
  - pose proof (slice_compare_lex a b) as H. unfold slice_compare in H.
    rewrite Hl, Nat.ltb_irrefl in H. rewrite Hl.
    destruct (Z.eqb_spec (memcmp (length b) a b) 0) as [E|E].
    + rewrite E in H. cbn in H. symmetry. apply bool_decide_eq_true_2. by apply lex_eq.
    + symmetry. apply bool_decide_eq_false_2. intros ->. rewrite lex_refl in H. by apply E.
  - symmetry. apply bool_decide_eq_false_2. by intros ->.
Qed.

(** ** The bytewise comparator is a lawful comparator *)

Lemma diff_index_spec start limit m :
  (m ≤ length start)%nat → (m ≤ length limit)%nat →
  ∃ d, diff_index start limit m = Some d ∧ (d ≤ m)%nat ∧
    take d start = take d limit ∧ ((d < m)%nat → start !! d ≠ limit !! d).
Proof.
  intros Hs Hl. pose (I (i : nat) := (i ≤ m)%nat ∧ take i start = take i limit).
  assert (H : succeeds (diff_index start limit m) (λ d, I d ∧
    ((d <? m)%nat && bool_decide (start !! d = limit !! d)) = false)).
  { apply (while_total I (λ i, m - i)%nat).
    - intros i [Hi Ht] [Him%Nat.ltb_lt He%bool_decide_eq_true]%andb_true_iff. cbn.
      split; [|lia]. split; [lia|].
      destruct (lookup_lt_is_Some_2 start i ltac:(lia)) as [x Hx].
      rewrite (take_S_r _ _ x) by done. rewrite (take_S_r _ _ x) by congruence. by f_equal.
    - by split; [lia|].
    - lia. }
  apply succeeds_elim in H as (d & Hd & [Hm Ht] & Hc).
  exists d. split; [exact Hd|]. split; [done|]. split; [done|]. intros Hlt He.
  rewrite (proj2 (Nat.ltb_lt d m) Hlt), bool_decide_true in Hc by done. done.
Qed.

Lemma lex_step_up p x y a b :
  x < y → lex (p ++ x :: a) (p ++ [y]) ≤ 0 ∧
  ∀ z, y < z → lex (p ++ [y]) (p ++ z :: b) < 0.
Proof.
  intros. split.
  - rewrite lex_common. cbn. by rewrite (proj2 (Z.ltb_lt x y)).
  - intros z Hz. rewrite lex_common. cbn. rewrite (proj2 (Z.ltb_lt y z)); done.
Qed.

Lemma u8_succ x : in_width 8 x → x ≠ 255 → u8 (x + 1) = x + 1.
Proof. unfold in_width. change (2 ^ 8) with 256. intros. apply wrap_small. split; cbn; lia. Qed.

(** The two forms a separator takes. *)
Lemma bytewise_separator_cases start limit :
  bytes start → bytes limit →
  bytewise_FindShortestSeparator start limit = start ∨
  ∃ p x a z b, start = p ++ x :: a ∧ limit = p ++ z :: b ∧ x + 1 < z ∧ in_width 8 (x + 1) ∧
    bytewise_FindShortestSeparator start limit = p ++ [x + 1].
Proof.
  intros Hs Hl. unfold bytewise_FindShortestSeparator.
  set (m := (length start `min` length limit)%nat).
  destruct (diff_index_spec start limit m) as (d & -> & Hd & Ht & Hne); [lia..|].
  destruct (Nat.leb_spec m d); [by left|].
  destruct (start !! d) as [x|] eqn:Hx; [|by left].
  destruct (limit !! d) as [z|] eqn:Hz; [|by left].
  destruct (Z.ltb_spec x 255); [|by left]. destruct (Z.ltb_spec (x + 1) z); [|by left].
  right. exists (take d start), x, (drop (S d) start), z, (drop (S d) limit).
  pose proof (Forall_lookup_1 _ _ _ _ Hs Hx) as Hxb. cbn [andb].
  rewrite u8_succ by (done || lia).
  split; [by rewrite take_drop_middle|]. split; [by rewrite Ht, take_drop_middle|].
  split; [lia|]. split; [unfold in_width in *; change (2 ^ 8) with 256 in *; lia|].
  rewrite Nat.add_1_r, (take_S_r _ _ (x + 1)).
  - by rewrite take_insert_ge by lia.
  - apply list_lookup_insert_eq. by apply lookup_lt_Some in Hx.
Qed.

Lemma short_successor_cases p rest :
  bytes rest →
  short_successor_loop (p ++ rest) (length p) rest = p ++ rest ∨
  ∃ q x a, rest = q ++ x :: a ∧ in_width 8 (x + 1) ∧
    short_successor_loop (p ++ rest) (length p) rest = p ++ q ++ [x + 1].
Proof.
  intros Hr. revert p. induction Hr as [|b rest Hb Hr IH]; intros p; [by left|].
  cbn [short_successor_loop]. destruct (Z.eqb_spec b 255) as [->|Hne]; cbn [negb].
  - specialize (IH (p ++ [255])). rewrite length_app, Nat.add_1_r in IH. rewrite <-app_assoc in IH.
    destruct IH as [IH|(q & x & a & -> & Hx & IH)]; [by left|right].
    exists (255 :: q), x, a. split; [done|]. split; [done|]. cbn [app] in *.
    rewrite IH. by rewrite <-app_assoc.
  - right. exists [], b, rest. split; [done|].
    rewrite u8_succ by done. split.
    { unfold in_width in *. change (2 ^ 8) with 256 in *. lia. }
    rewrite Nat.add_1_r, (take_S_r _ _ (b + 1)).
    + by rewrite take_insert_ge, take_app_length by lia.
    + apply list_lookup_insert_eq. rewrite length_app. cbn. lia.
Qed.

#[export] Instance bytewise_laws : ComparatorLaws BytewiseComparator.
Proof.
  split; cbn [Compare FindShortestSeparator FindShortSuccessor BytewiseComparator].
  - intros a b. rewrite !slice_compare_lex, (lex_anti a b). apply Z.sgn_opp.
  - intros a b c. rewrite !slice_compare_lex. apply lex_trans.
  - intros start limit Hs Hl. rewrite !slice_compare_lex. intros Hlt.
    destruct (bytewise_separator_cases start limit Hs Hl)
      as [->|(p & x & a & z & b & -> & -> & Hz & _ & ->)].
    + rewrite lex_refl. split; [lia|done].
    + destruct (lex_step_up p x (x + 1) a b ltac:(lia)) as [? H]. split; [done|].
      apply H. lia.
  - intros start limit Hs Hl. rewrite slice_compare_lex. intros Hge.
    destruct (bytewise_separator_cases start limit Hs Hl)
      as [->|(p & x & a & z & b & -> & -> & Hz & _ & _)]; [done|].
    rewrite lex_common in Hge. cbn in Hge. by rewrite (proj2 (Z.ltb_lt x z)) in Hge by lia.
  - intros key Hk. rewrite slice_compare_lex.
    destruct (short_successor_cases [] key Hk) as [E|(q & x & a & Hq & _ & E)];
      cbn [app length] in E; unfold bytewise_FindShortSuccessor; rewrite E.
    + by rewrite lex_refl.
    + subst key. apply lex_step_up with (b := []). lia.
  - intros start limit Hs Hl.
    destruct (bytewise_separator_cases start limit Hs Hl)
      as [->|(p & x & a & z & b & -> & -> & Hz & Hw & ->)]; [done|].
    apply Forall_app in Hs as [Hp _]. apply Forall_app. split; [done|by apply Forall_singleton].
  - intros key Hk.
    destruct (short_successor_cases [] key Hk) as [E|(q & x & a & -> & Hw & E)];
      cbn [app length] in E; unfold bytewise_FindShortSuccessor; rewrite E; [done|].
    apply Forall_app in Hk as [Hp _]. apply Forall_app. split; [done|by apply Forall_singleton].
  - intros start limit Hs Hl.
    destruct (bytewise_separator_cases start limit Hs Hl)
      as [->|(p & x & a & z & b & -> & -> & Hz & Hw & ->)]; [done|]. rewrite !length_app. cbn. lia.
  - intros key Hk.
    destruct (short_successor_cases [] key Hk) as [E|(q & x & a & -> & Hw & E)];
      cbn [app length] in E; unfold bytewise_FindShortSuccessor; rewrite E; [done|].
    rewrite !length_app. cbn. lia.
Qed.

(** ** Working with a lawful comparator *)

Section laws.
Context {C : Comparator} {Claws : ComparatorLaws C}.

Lemma Compare_refl a : Compare a a = 0.
Proof. pose proof (Compare_anti a a). lia. Qed.

Lemma Compare_lt_anti a b : Compare a b < 0 ↔ Compare b a > 0.
Proof. pose proof (Compare_anti a b). lia. Qed.

Lemma Compare_eq_sym a b : Compare a b = 0 ↔ Compare b a = 0.
Proof. pose proof (Compare_anti a b). lia. Qed.

Lemma Compare_le_lt_trans a b c : Compare a b ≤ 0 → Compare b c < 0 → Compare a c < 0.
Proof.
  intros Hab Hbc. destruct (decide (Compare a c < 0)) as [|H]; [done|exfalso].
  pose proof (Compare_anti a c). pose proof (Compare_anti b c).
  assert (Compare c b ≤ 0) by (apply (Compare_trans c a b); lia). lia.
Qed.

Lemma Compare_lt_le_trans a b c : Compare a b < 0 → Compare b c ≤ 0 → Compare a c < 0.
Proof.
  intros Hab Hbc. destruct (decide (Compare a c < 0)) as [|H]; [done|exfalso].
  pose proof (Compare_anti a c). pose proof (Compare_anti a b).
  assert (Compare b a ≤ 0) by (apply (Compare_trans b c a); lia). lia.
Qed.

Lemma Compare_eq_l a b c : Compare a b = 0 → Z.sgn (Compare a c) = Z.sgn (Compare b c).
Proof.
  intros Hab. pose proof (Compare_anti a b). pose proof (Compare_anti a c).
  pose proof (Compare_anti b c).
  pose proof (Compare_trans a b c). pose proof (Compare_trans b a c).
  pose proof (Compare_trans c a b). pose proof (Compare_trans c b a). lia.
Qed.
End laws.
