(* ===== verification/FileName.v ===== *)
(** The names of the files of a database: leveldb/db/filename.cc, and the
    decimal numbers of leveldb/util/logging.cc.

    A name is the list of its characters.  [None] is a failed [assert]. *)

From Stdlib Require Import ZArith Lia String.
From stdpp Require Import base option numbers sets list strings.
From S2P Require Import Prelude Coding Slice.

Local Open Scope Z_scope.

(** ** Numbers *)

(** The decimal digits of a number, most significant first, before [acc]. *)
Fixpoint decimal (fuel : nat) (n : Z) (acc : list Z) : list Z :=
  match fuel with
  | O => acc
  | S fuel =>
      let acc := (48 + n mod 10) :: acc in
      if n <? 10 then acc else decimal fuel (n / 10) acc
  end.

(** ["%llu"] and ["%06llu"] of a number of 64 bits, which has up to 20 digits. *)
Definition format_llu (n : Z) : list Z := decimal 20 n [].
Definition format_06llu (n : Z) : list Z :=
  let digits := format_llu n in replicate (6 - length digits) 48 ++ digits.

Definition AppendNumberTo (str : list Z) (num : Z) : list Z := str ++ format_llu num.
Definition NumberToString (num : Z) : list Z := AppendNumberTo [] num.

(** ["%02x"]. *)
Definition hex_digit (d : Z) : Z := if d <? 10 then 48 + d else 97 + (d - 10).
Definition format_02x (c : Z) : list Z := [hex_digit (c / 16); hex_digit (c mod 16)].

Definition AppendEscapedStringTo (str value : list Z) : list Z :=
  str ++ (value ≫= λ c, if (32 <=? c) && (c <=? 126) then [c] else 92 :: 120 :: format_02x c).

Definition EscapeString (value : list Z) : list Z := AppendEscapedStringTo [] value.

Definition kMaxUint64 : Z := 2 ^ 64 - 1.

Definition is_digit (c : Z) : bool := (48 <=? c) && (c <=? 57).

(** The loop, with the value and the number of digits so far: [None] for the
    value is an overflow. *)
Fixpoint consume_digits (v digits : Z) (in_ : list Z) : option Z * Z * list Z :=
  match in_ with
  | [] => (Some v, digits, [])
  | c :: rest =>
      if is_digit c then
        let delta := c - 48 in
        if (kMaxUint64 / 10 <? v) || ((v =? kMaxUint64 / 10) && (kMaxUint64 mod 10 <? delta))
        then (None, digits + 1, in_)
        else consume_digits (u64 (u64 (v * 10) + delta)) (digits + 1) rest
      else (Some v, digits, in_)
  end.

(** The result, the rest of the input and the value, [val] if there is none. *)
Definition ConsumeDecimalNumber (in_ : list Z) (val : Z) : bool * list Z * Z :=
  match consume_digits 0 0 in_ with
  | (None, _, rest) => (false, rest, val)
  | (Some v, digits, rest) => (0 <? digits, rest, v)
  end.

(** ** Names *)

Inductive FileType :=
  | kLogFile | kDBLockFile | kTableFile | kDescriptorFile | kCurrentFile | kTempFile | kInfoLogFile.

#[export] Instance FileType_eq_dec : EqDecision FileType.
Proof. solve_decision. Defined.

Definition MakeFileName (name : list Z) (number : Z) (suffix : string) : list Z :=
  name ++ bytes_of "/" ++ format_06llu number ++ bytes_of "." ++ bytes_of suffix.

Definition LogFileName (name : list Z) (number : Z) : option (list Z) :=
  if 0 <? number then Some (MakeFileName name number "log") else None.

Definition TableFileName (name : list Z) (number : Z) : option (list Z) :=
  if 0 <? number then Some (MakeFileName name number "ldb") else None.

Definition SSTTableFileName (name : list Z) (number : Z) : option (list Z) :=
  if 0 <? number then Some (MakeFileName name number "sst") else None.

Definition DescriptorFileName (dbname : list Z) (number : Z) : option (list Z) :=
  if 0 <? number then Some (dbname ++ bytes_of "/MANIFEST-" ++ format_06llu number) else None.

Definition CurrentFileName (dbname : list Z) : list Z := dbname ++ bytes_of "/CURRENT".
Definition LockFileName (dbname : list Z) : list Z := dbname ++ bytes_of "/LOCK".

Definition TempFileName (dbname : list Z) (number : Z) : option (list Z) :=
  if 0 <? number then Some (MakeFileName dbname number "dbtmp") else None.

Definition InfoLogFileName (dbname : list Z) : list Z := dbname ++ bytes_of "/LOG".
Definition OldInfoLogFileName (dbname : list Z) : list Z := dbname ++ bytes_of "/LOG.old".

(** The number and the type of the file. *)
Definition ParseFileName (fname : list Z) : option (Z * FileType) :=
  if slice_eqb fname (bytes_of "CURRENT") then Some (0, kCurrentFile)
  else if slice_eqb fname (bytes_of "LOCK") then Some (0, kDBLockFile)
  else if slice_eqb fname (bytes_of "LOG") || slice_eqb fname (bytes_of "LOG.old") then Some (0, kInfoLogFile)
  else if starts_with fname (bytes_of "MANIFEST-") then
    let '(r, rest, num) := ConsumeDecimalNumber (drop (length (bytes_of "MANIFEST-")) fname) 0 in
    if negb r then None else if negb (bool_decide (rest = [])) then None else Some (num, kDescriptorFile)
  else
    let '(r, suffix, num) := ConsumeDecimalNumber fname 0 in
    if negb r then None
    else if slice_eqb suffix (bytes_of ".log") then Some (num, kLogFile)
    else if slice_eqb suffix (bytes_of ".sst") || slice_eqb suffix (bytes_of ".ldb") then Some (num, kTableFile)
    else if slice_eqb suffix (bytes_of ".dbtmp") then Some (num, kTempFile)
    else None.

(** ** Numbers are read back *)

Definition digits (l : list Z) : Prop := Forall (λ c, is_digit c = true) l.

Definition value_from (v : Z) (l : list Z) : Z := foldl (λ v c, v * 10 + (c - 48)) v l.

Lemma is_digit_spec c : is_digit c = true ↔ 48 ≤ c ≤ 57.
Proof. unfold is_digit. lia. Qed.

Lemma value_from_mono v l : 0 ≤ v → digits l → v ≤ value_from v l.
Proof.
  intros Hv Hl. revert v Hv. induction Hl as [|c l Hc%is_digit_spec _ IH]; intros v Hv; cbn [value_from foldl]; [lia|].
  pose proof (IH (v * 10 + (c - 48)) ltac:(lia)). unfold value_from in *. lia.
Qed.

(** The digits at the front of the input are read; the value is theirs unless
    it is too large for 64 bits, which is noticed. *)
Lemma consume_digits_ok l rest v n :
  digits l → (∀ c, head rest = Some c → is_digit c = false) → in_width 64 v →
  if value_from v l <? 2 ^ 64
  then consume_digits v n (l ++ rest) = (Some (value_from v l), n + Z.of_nat (length l), rest)
  else ∃ m r, consume_digits v n (l ++ rest) = (None, m, r).
Proof.
  intros Hl Hr. revert v n. induction Hl as [|c l Hc Hl IH]; intros v n Hv.
  - cbn [value_from foldl app length]. rewrite (proj2 (Z.ltb_lt _ _)) by (unfold in_width in Hv; lia). rewrite Z.add_0_r.
    destruct rest as [|c r]; [done|]. cbn [consume_digits]. by rewrite (Hr c eq_refl).
  - change (value_from v (c :: l)) with (value_from (v * 10 + (c - 48)) l). cbn [app consume_digits length]. rewrite Hc.
    apply is_digit_spec in Hc. unfold in_width in Hv. unfold kMaxUint64. change ((2 ^ 64 - 1) / 10) with 1844674407370955161.
    change ((2 ^ 64 - 1) mod 10) with 5.
    pose proof (value_from_mono (v * 10 + (c - 48)) l ltac:(lia) Hl) as Hm. change (2 ^ 64) with 18446744073709551616 in *.
    assert (Hb : (1844674407370955161 <? v) || ((v =? 1844674407370955161) && (5 <? c - 48)) = negb (v * 10 + (c - 48) <? 18446744073709551616)).
    { destruct (Z.ltb_spec 1844674407370955161 v), (Z.eqb_spec v 1844674407370955161), (Z.ltb_spec 5 (c - 48)),
        (Z.ltb_spec (v * 10 + (c - 48)) 18446744073709551616); cbn; lia. }
    rewrite Hb. destruct (Z.ltb_spec (v * 10 + (c - 48)) 18446744073709551616) as [Hlt|Hge]; cbn [negb].
    + rewrite (wrap_small 64 (v * 10)) by (unfold in_width; change (2 ^ 64) with 18446744073709551616; lia).
      rewrite wrap_small by (unfold in_width; change (2 ^ 64) with 18446744073709551616; lia).
      specialize (IH (v * 10 + (c - 48)) (n + 1)). unfold in_width in IH. change (2 ^ 64) with 18446744073709551616 in IH.
      replace (n + Z.of_nat (S (length l))) with (n + 1 + Z.of_nat (length l)) by lia. apply IH. lia.
    + rewrite (proj2 (Z.ltb_ge _ _)) by lia. by eexists _, _.
Qed.

Lemma decimal_ok fuel : ∀ n acc, 0 ≤ n < 10 ^ Z.of_nat fuel → (0 < fuel)%nat →
  ∃ l, decimal fuel n acc = l ++ acc ∧ digits l ∧ l ≠ [] ∧ ∀ v, value_from v l = v * 10 ^ Z.of_nat (length l) + n.
Proof.
  induction fuel as [|fuel IH]; intros n acc Hn Hf; [lia|]. cbn [decimal].
  assert (Hd : is_digit (48 + n mod 10) = true) by (apply is_digit_spec; pose proof (Z.mod_pos_bound n 10); lia).
  destruct (Z.ltb_spec n 10) as [Hlt|Hge].
  - exists [48 + n mod 10]. split; [done|]. split; [by constructor|]. split; [done|]. intros v.
    cbn [value_from foldl length]. rewrite Z.mod_small by lia. lia.
  - destruct (IH (n / 10) ((48 + n mod 10) :: acc)) as (l & -> & Hl & Hne & Hv).
    { split; [by apply Z.div_pos; lia|]. apply Z.div_lt_upper_bound; [lia|].
      rewrite Nat2Z.inj_succ, Z.pow_succ_r in Hn by lia. lia. }
    { destruct fuel; [|lia]. cbn in Hn. lia. }
    exists (l ++ [48 + n mod 10]). split; [by rewrite <-app_assoc|]. split; [by apply Forall_app_2; [|constructor]|].
    split; [by destruct l|]. intros v. unfold value_from in *. rewrite foldl_app, Hv, length_app. cbn [foldl length].
    rewrite Nat2Z.inj_add, Z.pow_add_r by lia. change (10 ^ Z.of_nat 1) with 10. pose proof (Z.div_mod n 10). nia.
Qed.

Lemma value_zeros n v l : value_from v (replicate n 48 ++ l) = value_from (v * 10 ^ Z.of_nat n) l.
Proof.
  revert v. induction n as [|n IH]; intros v; cbn [replicate app]; [f_equal; lia|].
  change (value_from v (48 :: ?x)) with (value_from (v * 10 + (48 - 48)) x). rewrite IH. f_equal.
  rewrite Nat2Z.inj_succ, Z.pow_succ_r by lia. lia.
Qed.

Lemma format_06llu_ok n :
  in_width 64 n → digits (format_06llu n) ∧ format_06llu n ≠ [] ∧ value_from 0 (format_06llu n) = n.
Proof.
  intros [H0 H1]. unfold format_06llu, format_llu.
  destruct (decimal_ok 20 n []) as (l & -> & Hl & Hne & Hv); [change (2 ^ 64) with 18446744073709551616 in H1; cbn; lia|lia|].
  rewrite app_nil_r. split; [apply Forall_app_2; [by apply Forall_replicate|done]|]. split.
  - intros E%app_eq_nil. by destruct E.
  - rewrite value_zeros, Hv. lia.
Qed.

(** A formatted number, with or without zeros before it, is read back. *)
Lemma ConsumeDecimalNumber_ok l rest val :
  digits l → l ≠ [] → (∀ c, head rest = Some c → is_digit c = false) → value_from 0 l < 2 ^ 64 →
  ConsumeDecimalNumber (l ++ rest) val = (true, rest, value_from 0 l).
Proof.
  intros Hl Hne Hr Hv. unfold ConsumeDecimalNumber.
  pose proof (consume_digits_ok l rest 0 0 Hl Hr ltac:(done)) as H. rewrite (proj2 (Z.ltb_lt _ _) Hv) in H. rewrite H.
  rewrite (proj2 (Z.ltb_lt _ _)); [done|]. destruct l; [done|]. cbn [length]. lia.
Qed.

(** ** Names are parsed *)

Lemma memcmp_take x a : memcmp (length x) a x = 0 → (length x ≤ length a)%nat → take (length x) a = x.
Proof.
  revert a. induction x as [|b x IH]; intros [|c a] Hm Hl; cbn in *; try done; try lia.
  destruct (Z.ltb_spec c b); [done|]. destruct (Z.ltb_spec b c); [done|]. f_equal; [lia|]. apply IH; [done|lia].
Qed.

Lemma memcmp_self x y : memcmp (length x) (x ++ y) x = 0.
Proof. induction x as [|b x IH]; cbn; [done|]. by rewrite !Z.ltb_irrefl. Qed.

Lemma starts_with_true a x : starts_with a x = true ↔ ∃ y, a = x ++ y.
Proof.
  unfold starts_with. rewrite andb_true_iff, Nat.leb_le, Z.eqb_eq. split.
  - intros [Hl Hm]. exists (drop (length x) a). rewrite <-(take_drop (length x) a) at 1. by rewrite memcmp_take.
  - intros [y ->]. rewrite length_app, memcmp_self. split; [lia|done].
Qed.

(** The names of the files of a database, without its directory, with their
    numbers. *)
Inductive owned : list Z → Z → FileType → Prop :=
  | owned_current : owned (bytes_of "CURRENT") 0 kCurrentFile
  | owned_lock : owned (bytes_of "LOCK") 0 kDBLockFile
  | owned_info : owned (bytes_of "LOG") 0 kInfoLogFile
  | owned_old_info : owned (bytes_of "LOG.old") 0 kInfoLogFile
  | owned_descriptor l : digits l → l ≠ [] → value_from 0 l < 2 ^ 64 →
      owned (bytes_of "MANIFEST-" ++ l) (value_from 0 l) kDescriptorFile
  | owned_numbered l suffix type : digits l → l ≠ [] → value_from 0 l < 2 ^ 64 →
      (suffix, type) ∈ [(".log", kLogFile); (".sst", kTableFile); (".ldb", kTableFile); (".dbtmp", kTempFile)]%string →
      owned (l ++ bytes_of suffix) (value_from 0 l) type.

(** Every input is digits and the rest. *)
Lemma digits_split in_ : ∃ l rest, in_ = l ++ rest ∧ digits l ∧ ∀ c, head rest = Some c → is_digit c = false.
Proof.
  induction in_ as [|c in_ (l & rest & -> & Hl & Hr)]; [exists [], []; split; [done|]; split; [constructor|done]|].
  destruct (is_digit c) eqn:Ec.
  - exists (c :: l), rest. split; [done|]. split; [by constructor|done].
  - exists [], (c :: l ++ rest). split; [done|]. split; [constructor|]. by intros c' [= <-].
Qed.

Lemma ConsumeDecimalNumber_inv in_ val rest num :
  ConsumeDecimalNumber in_ val = (true, rest, num) →
  ∃ l, in_ = l ++ rest ∧ digits l ∧ l ≠ [] ∧ value_from 0 l < 2 ^ 64 ∧ num = value_from 0 l.
Proof.
  destruct (digits_split in_) as (l & r & -> & Hl & Hr). unfold ConsumeDecimalNumber.
  pose proof (consume_digits_ok l r 0 0 Hl Hr ltac:(done)) as H.
  destruct (Z.ltb_spec (value_from 0 l) (2 ^ 64)) as [Hv|Hv].
  - rewrite H. intros E. injection E as Hd <- <-. exists l. split; [done|]. split; [done|]. split; [|done].
    intros ->. done.
  - destruct H as (m & r' & ->). done.
Qed.

(** A name that starts with a digit is none of the fixed ones. *)
Lemma numbered_not_fixed l suffix (s : string) :
  digits l → l ≠ [] → match bytes_of s with c :: _ => is_digit c = false | [] => False end →
  slice_eqb (l ++ suffix) (bytes_of s) = false.
Proof.
  intros Hl Hne Hs. rewrite slice_eqb_spec. apply bool_decide_eq_false. destruct Hl as [|d l Hd Hl]; [done|].
  intros E. rewrite <-E in Hs. cbn in Hs. congruence.
Qed.

Lemma ParseFileName_owned f n t : owned f n t → ParseFileName f = Some (n, t).
Proof.
  destruct 1 as [| | | |l Hl Hne Hv|l suffix t Hl Hne Hv Hin]; [reflexivity..| |].
  - unfold ParseFileName. rewrite !slice_eqb_spec, !bool_decide_eq_false_2 by (destruct l; done). cbn [orb].
    rewrite (proj2 (starts_with_true _ _)) by (by eexists). rewrite drop_app_length.
    rewrite <-(app_nil_r l). rewrite ConsumeDecimalNumber_ok by done. cbn [negb]. by rewrite bool_decide_true, app_nil_r.
  - unfold ParseFileName. rewrite !numbered_not_fixed by done. cbn [orb].
    destruct (starts_with (l ++ bytes_of suffix) (bytes_of "MANIFEST-")) eqn:E.
    { apply starts_with_true in E as [y E]. destruct Hl as [|d l Hd Hl]; [done|]. injection E as -> _. done. }
    rewrite ConsumeDecimalNumber_ok; try done.
    + cbn [negb]. rewrite !elem_of_cons, elem_of_nil in Hin. rewrite !slice_eqb_spec.
      destruct_or!; try done; injection Hin as -> ->; done.
    + rewrite !elem_of_cons, elem_of_nil in Hin. intros c Hc.
      destruct_or!; try done; injection Hin as -> ->; by injection Hc as <-.
Qed.

Lemma ParseFileName_inv f n t : ParseFileName f = Some (n, t) → owned f n t.
Proof.
  unfold ParseFileName. rewrite !slice_eqb_spec.
  case_bool_decide as E1; [subst; intros [= <- <-]; constructor|].
  case_bool_decide as E2; [subst; intros [= <- <-]; constructor|].
  case_bool_decide as E3; [subst; intros [= <- <-]; constructor|].
  case_bool_decide as E4; [subst; intros [= <- <-]; constructor|]. cbn [orb].
  destruct (starts_with f (bytes_of "MANIFEST-")) eqn:Es.
  - apply starts_with_true in Es as [y ->]. rewrite drop_app_length.
    destruct (ConsumeDecimalNumber y 0) as [[[] rest] num] eqn:Ec; cbn [negb]; [|done].
    case_bool_decide as Er; cbn [negb]; [|done]. intros [= <- <-].
    apply ConsumeDecimalNumber_inv in Ec as (l & -> & Hl & Hne & Hv & ->). rewrite Er, app_nil_r. by constructor.
  - destruct (ConsumeDecimalNumber f 0) as [[[] rest] num] eqn:Ec; cbn [negb]; [|done].
    apply ConsumeDecimalNumber_inv in Ec as (l & -> & Hl & Hne & Hv & ->). rewrite !slice_eqb_spec.
    case_bool_decide as S1; [subst; intros [= <- <-]; constructor; set_solver|].
    case_bool_decide as S2; [subst; intros [= <- <-]; constructor; set_solver|].
    case_bool_decide as S3; [subst; intros [= <- <-]; constructor; set_solver|]. cbn [orb].
    case_bool_decide as S4; [subst; intros [= <- <-]; constructor; set_solver|done].
Qed.

(** The name within the directory. *)
Definition base (dbname fname : list Z) : list Z := drop (length dbname + 1) fname.

(** C32. The names of files are told apart.  [ParseFileName] accepts exactly
    CURRENT, LOCK, LOG, LOG.old, MANIFEST- and a number, and a number with one
    of the suffixes log, sst, ldb and dbtmp, where a number is one or more
    digits whose value is less than 2^64, and gives this value (0 for the names
    without a number) and the type.  In particular it gives back the number
    and the type of every name that the functions of filename.cc make, so that
    no two of these, of different types or different numbers, are the same. *)
Theorem file_names_parse (dbname : list Z) (number : Z) :
  0 < number < 2 ^ 64 →
  (∀ f n t, ParseFileName f = Some (n, t) ↔ owned f n t) ∧
  (∃ log ldb sst desc tmp, LogFileName dbname number = Some log ∧ TableFileName dbname number = Some ldb ∧
     SSTTableFileName dbname number = Some sst ∧ DescriptorFileName dbname number = Some desc ∧
     TempFileName dbname number = Some tmp ∧
     ParseFileName (base dbname log) = Some (number, kLogFile) ∧
     ParseFileName (base dbname ldb) = Some (number, kTableFile) ∧
     ParseFileName (base dbname sst) = Some (number, kTableFile) ∧
     ParseFileName (base dbname desc) = Some (number, kDescriptorFile) ∧
     ParseFileName (base dbname tmp) = Some (number, kTempFile)) ∧
  ParseFileName (base dbname (CurrentFileName dbname)) = Some (0, kCurrentFile) ∧
  ParseFileName (base dbname (LockFileName dbname)) = Some (0, kDBLockFile) ∧
  ParseFileName (base dbname (InfoLogFileName dbname)) = Some (0, kInfoLogFile) ∧
  ParseFileName (base dbname (OldInfoLogFileName dbname)) = Some (0, kInfoLogFile).
Proof.
  intros Hn. split; [intros f n t; split; [apply ParseFileName_inv|apply ParseFileName_owned]|].
  assert (Hdrop : ∀ y, base dbname (dbname ++ bytes_of "/" ++ y) = y).
  { intros y. unfold base. rewrite <-drop_drop, drop_app_length. done. }
  destruct (format_06llu_ok number) as (Hl & Hne & Hv); [unfold in_width; lia|].
  split; [|split; [|split; [|split]]; apply ParseFileName_owned].
  2: { change (CurrentFileName dbname) with (dbname ++ bytes_of "/" ++ bytes_of "CURRENT"). rewrite Hdrop. constructor. }
  2: { change (LockFileName dbname) with (dbname ++ bytes_of "/" ++ bytes_of "LOCK"). rewrite Hdrop. constructor. }
  2: { change (InfoLogFileName dbname) with (dbname ++ bytes_of "/" ++ bytes_of "LOG"). rewrite Hdrop. constructor. }
  2: { change (OldInfoLogFileName dbname) with (dbname ++ bytes_of "/" ++ bytes_of "LOG.old"). rewrite Hdrop. constructor. }
  unfold LogFileName, TableFileName, SSTTableFileName, DescriptorFileName, TempFileName.
  rewrite (proj2 (Z.ltb_lt 0 number)) by lia. do 5 eexists.
  split; [done|]. split; [done|]. split; [done|]. split; [done|]. split; [done|].
  change (bytes_of "/MANIFEST-" ++ format_06llu number) with (bytes_of "/" ++ bytes_of "MANIFEST-" ++ format_06llu number).
  unfold MakeFileName. rewrite !Hdrop.
  assert (Hnum : ∀ suffix t, (suffix, t) ∈ [(".log", kLogFile); (".sst", kTableFile); (".ldb", kTableFile); (".dbtmp", kTempFile)]%string →
    ParseFileName (format_06llu number ++ bytes_of suffix) = Some (number, t)).
  { intros suffix t Ht. rewrite <-Hv at 2. apply ParseFileName_owned. constructor; [done|done|lia|done]. }
  split; [apply (Hnum ".log"); set_solver|]. split; [apply (Hnum ".ldb"); set_solver|]. split; [apply (Hnum ".sst"); set_solver|].
  split; [|apply (Hnum ".dbtmp"); set_solver].
  rewrite <-Hv at 2. apply ParseFileName_owned. apply (owned_descriptor (format_06llu number)); [done|done|lia].
Qed.

Lemma file_names_parse_witness :
  LogFileName (bytes_of "/db") 7 = Some (bytes_of "/db/000007.log") ∧
  ParseFileName (base (bytes_of "/db") (bytes_of "/db/000007.log")) = Some (7, kLogFile).
Proof.
  destruct (file_names_parse (bytes_of "/db") 7 ltac:(lia)) as (_ & (log & _ & _ & _ & _ & E & _ & _ & _ & _ & Hp & _) & _).
  assert (El : LogFileName (bytes_of "/db") 7 = Some (bytes_of "/db/000007.log")) by reflexivity.
  split; [exact El|]. rewrite El in E. injection E as <-. exact Hp.
Defined.

(** Overflow, no digits, and a suffix that is not known. *)
Example bad_names :
  ParseFileName (bytes_of "18446744073709551616.log") = None ∧
  ParseFileName (bytes_of "18446744073709551615.log") = Some (18446744073709551615, kLogFile) ∧
  ParseFileName (bytes_of ".log") = None ∧ ParseFileName (bytes_of "100.txt") = None ∧
  ParseFileName (bytes_of "MANIFEST-3x") = None.
Proof. by vm_compute. Qed.
