(* ===== verification/Env.v ===== *)
(** The file interfaces of leveldb/include/leveldb/env.h that the log and the
    recovery use, as classes over the type of the file object, and what their
    comments promise, as laws.

    [contents] is what a writable file has accepted, [rest] what a sequential
    file has still to give. *)

From Stdlib Require Import ZArith Lia String.
From stdpp Require Import base option numbers list.
From S2P Require Import Prelude Slice CrcTheory Coding Crc32c.

Local Open Scope Z_scope.

Class WritableFile (W : Type) := {
  file_Append : W → list Z → option (W * Status);
  file_Close : W → option (W * Status);
  file_Flush : W → option (W * Status);
  file_Sync : W → option (W * Status) }.

(** A call that fails may have appended a part of the data.  [writable] is
    the invariant of the file object. *)
Class WritableFileLaws (W : Type) `{WritableFile W} := {
  writable : W → Prop;
  contents : W → list Z;
  Append_contents f d : writable f → ∃ f' s (k : nat),
    file_Append f d = Some (f', s) ∧ writable f' ∧
    contents f' = contents f ++ take k d ∧ (s = OK → (length d ≤ k)%nat);
  Flush_contents f : writable f → ∃ f' s,
    file_Flush f = Some (f', s) ∧ writable f' ∧ contents f' = contents f;
  Sync_contents f : writable f → ∃ f' s,
    file_Sync f = Some (f', s) ∧ writable f' ∧ contents f' = contents f }.

(** A file whose [Append] and [Flush] do not fail; a file none of whose calls
    fails. *)
Class ReliableAppend (W : Type) `{WritableFile W} := {
  Append_ok f d f' s : file_Append f d = Some (f', s) → s = OK;
  Flush_ok f f' s : file_Flush f = Some (f', s) → s = OK }.

Class Reliable (W : Type) `{WritableFile W} := {
  #[global] reliable_append :: ReliableAppend W;
  Sync_ok f f' s : file_Sync f = Some (f', s) → s = OK }.

Lemma Append_reliable `{WritableFileLaws W} `{!ReliableAppend W} f d :
  writable f →
  ∃ f', file_Append f d = Some (f', OK) ∧ writable f' ∧ contents f' = contents f ++ d.
Proof.
  intros Hf. destruct (Append_contents f d Hf) as (f' & s & k & E & Hf' & Hc & Hk).
  pose proof (Append_ok _ _ _ _ E). subst s.
  exists f'. split_and!; [done|done|]. rewrite Hc, take_ge by auto. done.
Qed.

Lemma Flush_reliable `{WritableFileLaws W} `{!ReliableAppend W} f :
  writable f → ∃ f', file_Flush f = Some (f', OK) ∧ writable f' ∧ contents f' = contents f.
Proof.
  intros Hf. destruct (Flush_contents f Hf) as (f' & s & E & Hf' & Hc).
  pose proof (Flush_ok _ _ _ E). subst s. by exists f'.
Qed.

Lemma Sync_reliable `{WritableFileLaws W} `{!Reliable W} f :
  writable f → ∃ f', file_Sync f = Some (f', OK) ∧ writable f' ∧ contents f' = contents f.
Proof.
  intros Hf. destruct (Sync_contents f Hf) as (f' & s & E & Hf' & Hc).
  pose proof (Sync_ok _ _ _ E). subst s. by exists f'.
Qed.

(** [Read] gives the bytes and the status. *)
Class SequentialFile (R : Type) := {
  file_Read : R → Z → option (R * (list Z * Status));
  file_Skip : R → Z → option (R * Status) }.

(** A file whose reads do not fail: [Read] gives the next bytes, fewer than
    asked for only at the end of the file. *)
Class SequentialFileLaws (R : Type) `{SequentialFile R} := {
  readable : R → Prop;
  rest : R → list Z;
  Read_rest f n : readable f → 0 ≤ n →
    ∃ f', file_Read f n = Some (f', (take (Z.to_nat n) (rest f), OK)) ∧
      readable f' ∧ rest f' = drop (Z.to_nat n) (rest f);
  Skip_rest f n : readable f → 0 ≤ n →
    ∃ f', file_Skip f n = Some (f', OK) ∧ readable f' ∧ rest f' = drop (Z.to_nat n) (rest f) }.

(** [Read] gives the bytes, the status, and whether the bytes are in the
    buffer of the caller. *)
Class RandomAccessFile (R : Type) := {
  file_ReadAt : R → Z → Z → option (list Z * Status * bool) }.

(** A file whose reads do not fail: [Read] gives the bytes from the offset on,
    fewer than asked for only at the end of the file. *)
Class RandomAccessFileLaws (R : Type) `{RandomAccessFile R} := {
  random : R → Prop;
  random_contents : R → list Z;
  ReadAt_contents f off n : random f → 0 ≤ off ≤ Z.of_nat (length (random_contents f)) → 0 ≤ n →
    ∃ scratch, file_ReadAt f off n = Some (slice (random_contents f) off n, OK, scratch) }.

(** What the log uses of crc32c: [Extend] on the bytes of a slice. *)
Class Crc32c := { crc_Extend : Z → list Z → option Z }.

Class Crc32cLaws `(Crc32c) := {
  crc_Extend_ref crc data :
    in_width 32 crc → bytes data → crc_Extend crc data = Some (crc32c_ref crc data) }.

Definition crc_Value `{Crc32c} (data : list Z) : option Z := crc_Extend 0 data.

(** The routines of Crc32c.v, on a buffer at address [addr]. *)
Definition crc32c_impl `{Sse42} `{Port} (build : sse_build) (addr0 addr : Z) : Crc32c :=
  {| crc_Extend crc data := Extend build addr0 crc addr data (Z.of_nat (length data)) |}.

Lemma crc32c_impl_laws `{Sse42Laws} `{Port} build addr0 addr :
  0 ≤ addr < 2 ^ 64 - 3 → Crc32cLaws (crc32c_impl build addr0 addr).
Proof.
  intros Ha. split. intros crc data Hc Hd. cbn. rewrite Extend_ref by (done || lia).
  by rewrite slice_all.
Qed.

Lemma crc_Value_ref `{Crc32cLaws} data :
  bytes data → crc_Value data = Some (crc32c_ref 0 data).
Proof. intros. apply crc_Extend_ref; [unfold in_width; lia|done]. Qed.

Lemma crc32c_ref_width crc data :
  in_width 32 crc → bytes data → in_width 32 (crc32c_ref crc data).
Proof. intros. by apply crc_ref_width. Qed.

Lemma crc32c_ref_app crc d1 d2 :
  crc32c_ref crc (d1 ++ d2) = crc32c_ref (crc32c_ref crc d1) d2.
Proof. apply crc_ref_continue. Qed.

#[export] Hint Resolve crc32c_ref_width : width.
