(* ===== verification/Log.v ===== *)
(** The write-ahead log: leveldb/db/log_format.h, leveldb/db/log_writer.cc
    and leveldb/db/log_reader.cc.

    A log is a sequence of blocks of 32 KB, a record one or more fragments,
    each with a header of checksum, length and type.  The files and the
    checksum are the interfaces of Env.v.  [None] is a failed [assert], a
    read outside an array, or a loop that has used up its fuel. *)

From Stdlib Require Import ZArith Lia String.
From stdpp Require Import base option numbers list strings pretty.
From S2P Require Import Prelude Slice Coding Crc32c Env.

Local Open Scope Z_scope.
Local Open Scope c_scope.

(** ** Format *)

Inductive RecordType := kZeroType | kFullType | kFirstType | kMiddleType | kLastType.

#[export] Instance RecordType_eq_dec : EqDecision RecordType.
Proof. solve_decision. Defined.

Definition type_code (t : RecordType) : Z :=
  match t with
  | kZeroType => 0 | kFullType => 1 | kFirstType => 2 | kMiddleType => 3 | kLastType => 4
  end.

Definition kMaxRecordType : Z := type_code kLastType.
Definition kBlockSize : Z := 32768.
Definition kHeaderSize : Z := 4 + 2 + 1.

(** ** Writer *)

Record Writer (W : Type) := MkWriter {
  dest_ : W;
  block_offset_ : Z;
  type_crc_ : list Z }.
Arguments MkWriter {W} _ _ _.
Arguments dest_ {W} _.
Arguments block_offset_ {W} _.
Arguments type_crc_ {W} _.

Section writer.
Context `{WritableFile W} `{Crc32c} `{Port}.

(** [type_crc] is the array on entry. *)
Definition InitTypeCrc (type_crc : list Z) : option (list Z) :=
  for_up (Z.to_nat (kMaxRecordType + 1)) 0
    (λ i tc, v ← crc_Value [u8 i]; tc.[i <- v]) type_crc.

(** The two constructors; [mem] is the memory of the array [type_crc_]. *)
Definition new_Writer (mem : list Z) (dest : W) : option (Writer W) :=
  tc ← InitTypeCrc mem; Some (MkWriter dest 0 tc).

Definition new_Writer_at (mem : list Z) (dest : W) (dest_length : Z) : option (Writer W) :=
  tc ← InitTypeCrc mem; Some (MkWriter dest (dest_length mod kBlockSize) tc).

Definition EmitPhysicalRecord (w : Writer W) (t : RecordType) (ptr : list Z)
  : option (Writer W * Status) :=
  let n := Z.of_nat (length ptr) in
  if negb (n <=? 65535) then None
  else if negb (block_offset_ w + kHeaderSize + n <=? kBlockSize) then None
  else
    tc ← (type_crc_ w).[type_code t];
    crc ← crc_Extend tc ptr;
    let buf := EncodeFixed32 (Mask crc) ++
               [u8 (Z.land n 255); u8 (Z.shiftr n 8); u8 (type_code t)] in
    '(dest, s) ← file_Append (dest_ w) buf;
    '(dest, s) ←
      (if ok s then
         '(dest, s) ← file_Append dest ptr;
         if ok s then file_Flush dest else Some (dest, s)
       else Some (dest, s));
    Some (MkWriter dest (block_offset_ w + (kHeaderSize + n)) (type_crc_ w), s).

(** The start of an iteration: leave a block with no room for a header.  The
    status of this [Append] is not looked at. *)
Definition switch_block (w : Writer W) : option (Writer W) :=
  let leftover := kBlockSize - block_offset_ w in
  if leftover <? kHeaderSize then
    dest ← (if 0 <? leftover then
              '(dest, _) ← file_Append (dest_ w) (take (Z.to_nat leftover) [0; 0; 0; 0; 0; 0]);
              Some dest
            else Some (dest_ w));
    Some (MkWriter dest 0 (type_crc_ w))
  else Some w.

Definition fragment_type (begin end_ : bool) : RecordType :=
  if begin && end_ then kFullType
  else if begin then kFirstType
  else if end_ then kLastType
  else kMiddleType.

(** The [do ... while (s.ok() && left > 0)] loop; [ptr] is what is left. *)
Fixpoint add_loop (fuel : nat) (w : Writer W) (ptr : list Z) (begin : bool)
  : option (Writer W * Status) :=
  match fuel with
  | O => None
  | S fuel =>
      if kBlockSize - block_offset_ w <? 0 then None
      else
        w ← switch_block w;
        if kBlockSize - block_offset_ w - kHeaderSize <? 0 then None
        else
          let left := Z.of_nat (length ptr) in
          let avail := kBlockSize - block_offset_ w - kHeaderSize in
          let fragment_length := if left <? avail then left else avail in
          let end_ := left =? fragment_length in
          '(w, s) ← EmitPhysicalRecord w (fragment_type begin end_)
                      (take (Z.to_nat fragment_length) ptr);
          let ptr := drop (Z.to_nat fragment_length) ptr in
          if ok s && (0 <? left - fragment_length) then add_loop fuel w ptr false
          else Some (w, s)
  end.

(** An iteration takes a byte of the record or ends a block, and two
    iterations in a row cannot both only end a block. *)
Definition AddRecord (w : Writer W) (slice : list Z) : option (Writer W * Status) :=
  add_loop (2 * length slice + 2) w slice true.

End writer.

(** ** Reader *)

(** [reports] are the calls of [reporter_->Corruption]; [reporter_] is
    whether there is a reporter. *)
Record Reader (R : Type) := MkReader {
  file_ : R;
  reporter_ : bool;
  checksum_ : bool;
  buffer_ : list Z;
  eof_ : bool;
  last_record_offset_ : Z;
  end_of_buffer_offset_ : Z;
  initial_offset_ : Z;
  resyncing_ : bool;
  reports : list (Z * Status) }.
Arguments MkReader {R}.
Arguments file_ {R} _.
Arguments reporter_ {R} _.
Arguments checksum_ {R} _.
Arguments buffer_ {R} _.
Arguments eof_ {R} _.
Arguments last_record_offset_ {R} _.
Arguments end_of_buffer_offset_ {R} _.
Arguments initial_offset_ {R} _.
Arguments resyncing_ {R} _.
Arguments reports {R} _.

Definition kEof : Z := kMaxRecordType + 1.
Definition kBadRecord : Z := kMaxRecordType + 2.

Section reader.
Context `{SequentialFile R} `{Crc32c} `{Port}.

Definition new_Reader (file : R) (reporter checksum : bool) (initial_offset : Z) : Reader R :=
  MkReader file reporter checksum [] false 0 0 initial_offset (0 <? initial_offset) [].

(** Assignments to the fields. *)
Definition set_buffer (b : list Z) (r : Reader R) : Reader R :=
  MkReader (file_ r) (reporter_ r) (checksum_ r) b (eof_ r) (last_record_offset_ r)
    (end_of_buffer_offset_ r) (initial_offset_ r) (resyncing_ r) (reports r).

Definition set_eof (b : bool) (r : Reader R) : Reader R :=
  MkReader (file_ r) (reporter_ r) (checksum_ r) (buffer_ r) b (last_record_offset_ r)
    (end_of_buffer_offset_ r) (initial_offset_ r) (resyncing_ r) (reports r).

Definition set_last (o : Z) (r : Reader R) : Reader R :=
  MkReader (file_ r) (reporter_ r) (checksum_ r) (buffer_ r) (eof_ r) o
    (end_of_buffer_offset_ r) (initial_offset_ r) (resyncing_ r) (reports r).

Definition set_resyncing (b : bool) (r : Reader R) : Reader R :=
  MkReader (file_ r) (reporter_ r) (checksum_ r) (buffer_ r) (eof_ r) (last_record_offset_ r)
    (end_of_buffer_offset_ r) (initial_offset_ r) b (reports r).

Definition set_file (f : R) (o : Z) (r : Reader R) : Reader R :=
  MkReader f (reporter_ r) (checksum_ r) (buffer_ r) (eof_ r) (last_record_offset_ r)
    o (initial_offset_ r) (resyncing_ r) (reports r).

Definition buffer_size (r : Reader R) : Z := Z.of_nat (length (buffer_ r)).

Definition ReportDrop (r : Reader R) (bytes : Z) (reason : Status) : Reader R :=
  if reporter_ r &&
     (initial_offset_ r <=? u64 (end_of_buffer_offset_ r - buffer_size r - bytes)) then
    MkReader (file_ r) (reporter_ r) (checksum_ r) (buffer_ r) (eof_ r) (last_record_offset_ r)
      (end_of_buffer_offset_ r) (initial_offset_ r) (resyncing_ r)
      (reports r ++ [(bytes, reason)])
  else r.

Definition ReportCorruption (r : Reader R) (bytes : Z) (reason : string) : Reader R :=
  ReportDrop r bytes (Corruption reason).

Definition LastRecordOffset (r : Reader R) : Z := last_record_offset_ r.

Definition SkipToInitialBlock (r : Reader R) : option (Reader R * bool) :=
  let offset_in_block := initial_offset_ r mod kBlockSize in
  let block_start_location := initial_offset_ r - offset_in_block in
  let block_start_location :=
    if kBlockSize - 6 <? offset_in_block then u64 (block_start_location + kBlockSize)
    else block_start_location in
  let r := set_file (file_ r) block_start_location r in
  if 0 <? block_start_location then
    '(f, skip_status) ← file_Skip (file_ r) block_start_location;
    let r := set_file f block_start_location r in
    if negb (ok skip_status) then Some (ReportDrop r block_start_location skip_status, false)
    else Some (r, true)
  else Some (r, true).

(** [static_cast<unsigned int>] of a [char], which is signed. *)
Definition char_unsigned (c : Z) : Z := u32 (if c <? 128 then c else c - 256).

(** The part of an iteration of [ReadPhysicalRecord] after the buffer has
    been filled: parse and check the header at its front. *)
Definition parse_physical (r : Reader R) (result : list Z)
  : option (Reader R * list Z * Z) :=
  let header := buffer_ r in
  h4 ← header.[4]; h5 ← header.[5]; h6 ← header.[6];
  let a := Z.land h4 255 in
  let b := Z.land h5 255 in
  let type := char_unsigned h6 in
  let length_ := Z.lor a (u32 (Z.shiftl b 8)) in
  if buffer_size r <? kHeaderSize + length_ then
    let drop_size := buffer_size r in
    let r := set_buffer [] r in
    if negb (eof_ r) then Some (ReportCorruption r drop_size "bad record length", result, kBadRecord)
    else Some (r, result, kEof)
  else if (type =? type_code kZeroType) && (length_ =? 0) then
    Some (set_buffer [] r, result, kBadRecord)
  else
    good ← (if checksum_ r then
              w ← DecodeFixed32 header;
              let expected_crc := Unmask w in
              actual_crc ← crc_Value (slice header 6 (1 + length_));
              Some (actual_crc =? expected_crc)
            else Some true);
    if negb good then
      let drop_size := buffer_size r in
      let r := set_buffer [] r in
      Some (ReportCorruption r drop_size "checksum mismatch", result, kBadRecord)
    else
      let r := set_buffer (drop (Z.to_nat (kHeaderSize + length_)) header) r in
      if u64 (end_of_buffer_offset_ r - buffer_size r - kHeaderSize - length_) <? initial_offset_ r
      then Some (r, [], kBadRecord)
      else Some (r, slice header kHeaderSize length_, type).

(** The [while (true)] loop.  A read gives a whole block or sets [eof_], so
    the second iteration returns. *)
Fixpoint read_physical (fuel : nat) (r : Reader R) (result : list Z)
  : option (Reader R * list Z * Z) :=
  match fuel with
  | O => None
  | S fuel =>
      if buffer_size r <? kHeaderSize then
        if negb (eof_ r) then
          '(f, (data, status)) ← file_Read (file_ r) kBlockSize;
          let r := set_buffer data
                     (set_file f (u64 (end_of_buffer_offset_ r + Z.of_nat (length data))) r) in
          if negb (ok status) then
            let r := ReportDrop (set_buffer [] r) kBlockSize status in
            Some (set_eof true r, result, kEof)
          else
            let r := if buffer_size r <? kBlockSize then set_eof true r else r in
            read_physical fuel r result
        else Some (set_buffer [] r, result, kEof)
      else parse_physical r result
  end.

(** [*result] keeps its value where the code does not assign it. *)
Definition ReadPhysicalRecord (r : Reader R) (result : list Z)
  : option (Reader R * list Z * Z) := read_physical 2 r result.

(** The local variables of [ReadRecord]. *)
Record locals := Locals {
  scratch : list Z;
  in_fragmented_record : bool;
  prospective_record_offset : Z;
  fragment : list Z }.

(** What an iteration does: go round again, or return [true] with the record,
    or return [false]. *)
Inductive outcome := Continue | Return (record : option (list Z)).

(** [if (in_fragmented_record) ...] of the cases [kFullType] and
    [kFirstType]. *)
Definition end_fragmented (r : Reader R) (l : locals) (reason : string) : Reader R * bool :=
  if in_fragmented_record l then
    match scratch l with
    | [] => (r, false)
    | _ => (ReportCorruption r (Z.of_nat (length (scratch l))) reason, true)
    end
  else (r, in_fragmented_record l).

Definition record_switch (r : Reader R) (l : locals) (record_type physical_record_offset : Z)
  : Reader R * locals * outcome :=
  if record_type =? type_code kFullType then
    let '(r, in_frag) := end_fragmented r l "partial record without end(1)" in
    (set_last physical_record_offset r,
     Locals [] in_frag physical_record_offset (fragment l), Return (Some (fragment l)))
  else if record_type =? type_code kFirstType then
    let '(r, _) := end_fragmented r l "partial record without end(2)" in
    (r, Locals (fragment l) true physical_record_offset (fragment l), Continue)
  else if record_type =? type_code kMiddleType then
    if negb (in_fragmented_record l) then
      (ReportCorruption r (Z.of_nat (length (fragment l)))
         "missing start of fragmented record(1)", l, Continue)
    else
      (r, Locals (scratch l ++ fragment l) (in_fragmented_record l)
            (prospective_record_offset l) (fragment l), Continue)
  else if record_type =? type_code kLastType then
    if negb (in_fragmented_record l) then
      (ReportCorruption r (Z.of_nat (length (fragment l)))
         "missing start of fragmented record(2)", l, Continue)
    else
      (set_last (prospective_record_offset l) r,
       Locals (scratch l ++ fragment l) (in_fragmented_record l)
         (prospective_record_offset l) (fragment l),
       Return (Some (scratch l ++ fragment l)))
  else if record_type =? kEof then
    (r, if in_fragmented_record l
        then Locals [] (in_fragmented_record l) (prospective_record_offset l) (fragment l)
        else l, Return None)
  else if record_type =? kBadRecord then
    if in_fragmented_record l then
      (ReportCorruption r (Z.of_nat (length (scratch l))) "error in middle of record",
       Locals [] false (prospective_record_offset l) (fragment l), Continue)
    else (r, l, Continue)
  else
    (ReportCorruption r
       (Z.of_nat (length (fragment l)) +
        (if in_fragmented_record l then Z.of_nat (length (scratch l)) else 0))
       ("unknown record type " +:+ pretty record_type),
     Locals [] false (prospective_record_offset l) (fragment l), Continue).

(** [if (resyncing_) ...]: [true] when the iteration ends there. *)
Definition resync (r : Reader R) (record_type : Z) : Reader R * bool :=
  if resyncing_ r then
    if record_type =? type_code kMiddleType then (r, true)
    else if record_type =? type_code kLastType then (set_resyncing false r, true)
    else (set_resyncing false r, false)
  else (r, false).

Fixpoint read_loop (fuel : nat) (r : Reader R) (l : locals)
  : option (Reader R * option (list Z)) :=
  match fuel with
  | O => None
  | S fuel =>
      '(r, frag, record_type) ← ReadPhysicalRecord r (fragment l);
      let l := Locals (scratch l) (in_fragmented_record l) (prospective_record_offset l) frag in
      let physical_record_offset :=
        u64 (end_of_buffer_offset_ r - buffer_size r - kHeaderSize - Z.of_nat (length frag)) in
      let '(r, skipped) := resync r record_type in
      if (skipped : bool) then read_loop fuel r l
      else
        let '(r, l, o) := record_switch r l record_type physical_record_offset in
        match o with
        | Continue => read_loop fuel r l
        | Return record => Some (r, record)
        end
  end.

(** [Some record] is [true] with [*record], [None] is [false]. *)
Definition ReadRecord (fuel : nat) (r : Reader R) : option (Reader R * option (list Z)) :=
  if last_record_offset_ r <? initial_offset_ r then
    '(r, skipped) ← SkipToInitialBlock r;
    if negb skipped then Some (r, None)
    else read_loop fuel r (Locals [] false 0 [])
  else read_loop fuel r (Locals [] false 0 []).

End reader.
