(* ===== verification/LogSpec.v ===== *)
(** The log of Log.v against its format.

    The first part describes the bytes of a log without the code: physical
    records, how they are placed in blocks, how the fragments of a record make
    up its data.  The second part proves that [AddRecord] writes such bytes,
    the third that [ReadRecord] reads them back, and what it makes of a log
    that was cut off at an arbitrary byte. *)

From Stdlib Require Import ZArith Lia String.
From stdpp Require Import base option numbers list strings.
From S2P Require Import Prelude Slice Coding Crc32c Env Log.

Local Open Scope Z_scope.
Local Open Scope c_scope.

(** ** The format *)

(** A physical record: a fragment with its type. *)
Definition phys : Type := RecordType * list Z.

Definition phys_bytes (f : phys) : list Z :=
  le_bytes 4 (Mask (crc32c_ref 0 (type_code f.1 :: f.2))) ++
  le_bytes 2 (Z.of_nat (length f.2)) ++ [type_code f.1] ++ f.2.

(** At offset [off] of a block, a header goes to the next block if it does not
    fit; the rest of the block is zeros. *)
Definition pad (off : Z) : Z := if kBlockSize - off <? kHeaderSize then kBlockSize - off else 0.
Definition start (off : Z) : Z := if kBlockSize - off <? kHeaderSize then 0 else off.

Definition place (off : Z) (f : phys) : list Z :=
  replicate (Z.to_nat (pad off)) 0 ++ phys_bytes f.

Definition after (off : Z) (f : phys) : Z := start off + kHeaderSize + Z.of_nat (length f.2).

(** A fragment that can stand at [off]: it stays within the block. *)
Definition fits (off : Z) (f : phys) : Prop :=
  bytes f.2 ∧ f.1 ≠ kZeroType ∧ after off f ≤ kBlockSize.

Fixpoint layout (off : Z) (fs : list phys) : list Z :=
  match fs with
  | [] => []
  | f :: fs => place off f ++ layout (after off f) fs
  end.

Fixpoint off_after (off : Z) (fs : list phys) : Z :=
  match fs with
  | [] => off
  | f :: fs => off_after (after off f) fs
  end.

Fixpoint fits_all (off : Z) (fs : list phys) : Prop :=
  match fs with
  | [] => True
  | f :: fs => fits off f ∧ fits_all (after off f) fs
  end.

(** The fragments of a record, from its beginning or from its middle. *)
Inductive frags : bool → list Z → list phys → Prop :=
  | frags_full data : frags true data [(kFullType, data)]
  | frags_last data : frags false data [(kLastType, data)]
  | frags_first p data fs : frags false data fs → frags true (p ++ data) ((kFirstType, p) :: fs)
  | frags_middle p data fs : frags false data fs → frags false (p ++ data) ((kMiddleType, p) :: fs).

(** A log that starts at offset [off] of a block, holds the records [ds] and
    ends at [off']; [out] are its bytes. *)
Inductive log_of : Z → list (list Z) → list Z → Z → Prop :=
  | log_nil off : log_of off [] [] off
  | log_cons off d fs ds out off' :
      frags true d fs → fits_all off fs → log_of (off_after off fs) ds out off' →
      log_of off (d :: ds) (layout off fs ++ out) off'.

(** ** Facts about the format *)

Lemma type_code_width t : in_width 8 (type_code t).
Proof. destruct t; cbv; split; congruence. Qed.

#[export] Hint Resolve type_code_width : width.

Lemma length_phys_bytes f : Z.of_nat (length (phys_bytes f)) = kHeaderSize + Z.of_nat (length f.2).
Proof.
  unfold phys_bytes, kHeaderSize. rewrite !length_app, !length_le_bytes. cbn [length]. lia.
Qed.

Lemma pad_range off : 0 ≤ off ≤ kBlockSize → 0 ≤ pad off < kHeaderSize.
Proof. unfold pad, kBlockSize, kHeaderSize. intros. destruct (Z.ltb_spec (32768 - off) (4 + 2 + 1)); lia. Qed.

Lemma start_range off : 0 ≤ off ≤ kBlockSize → 0 ≤ start off ≤ kBlockSize - kHeaderSize.
Proof. unfold start, kBlockSize, kHeaderSize. intros. destruct (Z.ltb_spec (32768 - off) (4 + 2 + 1)); lia. Qed.

Lemma after_range off f : 0 ≤ off ≤ kBlockSize → fits off f → 0 ≤ after off f ≤ kBlockSize.
Proof.
  intros Ho (_ & _ & Hf). pose proof (start_range off Ho). unfold after, kHeaderSize in *. lia.
Qed.

Lemma off_after_range off fs :
  0 ≤ off ≤ kBlockSize → fits_all off fs → 0 ≤ off_after off fs ≤ kBlockSize.
Proof.
  revert off. induction fs as [|f fs IH]; intros off Ho Hf; [done|]. destruct Hf as [Hf Hfs].
  apply IH; [by apply after_range|done].
Qed.

Lemma phys_bytes_bytes f : bytes f.2 → bytes (phys_bytes f).
Proof.
  intros. unfold phys_bytes. repeat apply bytes_app; solve_width.
Qed.

Lemma zeros_bytes n : bytes (replicate n 0).
Proof. apply Forall_replicate. by split. Qed.

#[export] Hint Resolve phys_bytes_bytes zeros_bytes : width.

Lemma place_bytes off f : bytes f.2 → bytes (place off f).
Proof. intros. apply bytes_app; solve_width. Qed.

Lemma layout_bytes off fs : fits_all off fs → bytes (layout off fs).
Proof.
  revert off. induction fs as [|f fs IH]; intros off; [constructor|]. intros [(? & _) ?].
  apply bytes_app; [by apply place_bytes|by apply IH].
Qed.

Lemma log_of_bytes off ds out off' : log_of off ds out off' → bytes out.
Proof.
  induction 1; [constructor|]. apply bytes_app; [by apply layout_bytes|done].
Qed.

Lemma log_of_range off ds out off' :
  0 ≤ off ≤ kBlockSize → log_of off ds out off' → 0 ≤ off' ≤ kBlockSize.
Proof. intros Ho Hl. induction Hl; [done|]. apply IHHl. by apply off_after_range. Qed.

Lemma log_of_app off ds1 out1 off1 ds2 out2 off2 :
  log_of off ds1 out1 off1 → log_of off1 ds2 out2 off2 →
  log_of off (ds1 ++ ds2) (out1 ++ out2) off2.
Proof.
  induction 1; intros; [done|]. cbn [app]. rewrite <-app_assoc. econstructor; eauto.
Qed.

(** A block that is used up is as good as the start of the next one. *)
Lemma place_full f : place kBlockSize f = place 0 f.
Proof. done. Qed.

Lemma frags_nonempty b d fs : frags b d fs → fs ≠ [].
Proof. by destruct 1. Qed.

Lemma log_of_full ds out off' :
  log_of 0 ds out off' → ∃ off'', log_of kBlockSize ds out off''.
Proof.
  inversion 1; subst; [eexists; constructor|].
  destruct fs as [|f fs]; [by apply frags_nonempty in H0|].
  change (layout 0 (f :: fs)) with (layout kBlockSize (f :: fs)).
  eexists. econstructor; done.
Qed.

Lemma length_layout off fs : (length fs ≤ length (layout off fs))%nat.
Proof.
  revert off. induction fs as [|f fs IH]; intros off; [done|]. cbn [layout length].
  unfold place. rewrite !length_app. specialize (IH (after off f)).
  pose proof (length_phys_bytes f). unfold kHeaderSize in *. lia.
Qed.

(** A record takes a byte of the log at least. *)
Lemma log_of_length off ds out off' : log_of off ds out off' → (length ds ≤ length out)%nat.
Proof.
  induction 1 as [|off d fs ds out off' Hfr Hfit Hlog IH]; [done|]. rewrite length_app. cbn [length].
  pose proof (length_layout off fs). destruct fs; [by apply frags_nonempty in Hfr|]. cbn in *. lia.
Qed.

(** ** The writer *)

Section writer.
Context `{WritableFileLaws W} `{Crc : Crc32cLaws} `{Port}.

(** The checksums of the types are in place, and the offset is within the
    block. *)
Definition writer_ok (w : Writer W) : Prop :=
  (∀ t, (type_crc_ w).[type_code t] = Some (crc32c_ref 0 [type_code t])) ∧
  0 ≤ block_offset_ w ≤ kBlockSize ∧ writable (dest_ w).

Lemma InitTypeCrc_ok mem :
  length mem = 5%nat →
  succeeds (InitTypeCrc mem) (λ tc, ∀ t, tc.[type_code t] = Some (crc32c_ref 0 [type_code t])).
Proof.
  intros Hm. eapply succeeds_mono.
  - apply (for_up_total (λ i tc, length tc = 5%nat ∧
      ∀ j, 0 ≤ j < i → tc.[j] = Some (crc32c_ref 0 [j]))); [|split; [done|lia]].
    intros i tc Hi [Hl Htc]. change (0 + Z.of_nat _) with 5 in Hi.
    assert (in_width 8 i) as Hi8 by (unfold in_width; lia).
    rewrite (wrap_small 8), crc_Value_ref by (done || solve_width). simpl_bind.
    rewrite (aset_in tc) by lia. split; [by rewrite length_insert|].
    intros j Hj. rewrite aget_insert by lia. destruct (decide (i = j)) as [->|]; [done|].
    apply Htc. lia.
  - cbn beta. intros tc [_ Htc] t. apply Htc. by destruct t.
Qed.

Lemma header_eq n t c :
  0 ≤ n ≤ 65535 →
  EncodeFixed32 c ++ [u8 (Z.land n 255); u8 (Z.shiftr n 8); u8 (type_code t)] =
  le_bytes 4 c ++ le_bytes 2 n ++ [type_code t].
Proof.
  intros Hn. rewrite EncodeFixed32_le. f_equal. cbn [le_bytes app].
  rewrite land_255, shiftr_div by lia. change (2 ^ 8) with 256. unfold wrap.
  change (2 ^ 8) with 256. rewrite Z.mod_mod by lia.
  repeat f_equal. destruct t; done.
Qed.

(** *** Files whose calls may fail *)

Lemma Emit_total w t data :
  writer_ok w → bytes data → block_offset_ w + kHeaderSize + Z.of_nat (length data) ≤ kBlockSize →
  ∃ w' s, EmitPhysicalRecord w t data = Some (w', s) ∧ writer_ok w' ∧
    block_offset_ w' = block_offset_ w + kHeaderSize + Z.of_nat (length data).
Proof.
  intros (Htc & Hoff & Hw) Hd Hfit. unfold EmitPhysicalRecord. cbv zeta.
  assert (Z.of_nat (length data) ≤ 65535) as Hn
    by (unfold kHeaderSize, kBlockSize in *; lia).
  rewrite (proj2 (Z.leb_le _ _) Hn), (proj2 (Z.leb_le _ _) Hfit). cbn [negb].
  rewrite Htc. simpl_bind.
  rewrite crc_Extend_ref by
    (done || (apply crc32c_ref_width; [unfold in_width; lia|solve_width])).
  simpl_bind.
  assert (Hoff' : 0 ≤ block_offset_ w + (kHeaderSize + Z.of_nat (length data)) ≤ kBlockSize)
    by (unfold kHeaderSize in *; lia).
  match goal with |- context [file_Append (dest_ w) ?b] =>
    destruct (Append_contents (dest_ w) b Hw) as (f1 & s1 & k1 & -> & W1 & _) end. simpl_bind.
  destruct (ok s1); cycle 1.
  { simpl_bind. eexists _, _. split; [reflexivity|]. split; [exact (conj Htc (conj Hoff' W1))|]. cbn. lia. }
  destruct (Append_contents f1 data W1) as (f2 & s2 & k2 & -> & W2 & _). simpl_bind.
  destruct (ok s2); cycle 1.
  { simpl_bind. eexists _, _. split; [reflexivity|]. split; [exact (conj Htc (conj Hoff' W2))|]. cbn. lia. }
  destruct (Flush_contents f2 W2) as (f3 & s3 & -> & W3 & _). simpl_bind.
  eexists _, _. split; [reflexivity|]. split; [exact (conj Htc (conj Hoff' W3))|]. cbn. lia.
Qed.

Lemma switch_block_total w :
  writer_ok w → ∃ w', switch_block w = Some w' ∧ writer_ok w' ∧ block_offset_ w' = start (block_offset_ w).
Proof.
  intros (Htc & Hoff & Hw). unfold switch_block, start, pad. cbv zeta.
  destruct (Z.ltb_spec (kBlockSize - block_offset_ w) kHeaderSize) as [Hlt|Hge]; [|by exists w].
  assert (H0B : 0 ≤ 0 ≤ kBlockSize) by (unfold kBlockSize; lia).
  destruct (0 <? kBlockSize - block_offset_ w).
  - destruct (Append_contents (dest_ w) (take (Z.to_nat (kBlockSize - block_offset_ w)) [0; 0; 0; 0; 0; 0]) Hw)
      as (f' & s & k & -> & W' & _). simpl_bind. eexists. split; [reflexivity|]. split; [exact (conj Htc (conj H0B W'))|done].
  - simpl_bind. eexists. split; [reflexivity|]. split; [exact (conj Htc (conj H0B Hw))|done].
Qed.

(** Iterations that may be needed: two for each byte, and one more if the
    block has only room for a header. *)
Definition add_fuel (off : Z) (data : list Z) : nat :=
  2 * length data + (if start off =? kBlockSize - kHeaderSize then 2 else 1).

(** [AddRecord] returns, whatever the file answers. *)
Lemma add_loop_total fuel w data begin :
  writer_ok w → bytes data → (add_fuel (block_offset_ w) data ≤ fuel)%nat →
  ∃ w' s, add_loop fuel w data begin = Some (w', s) ∧ writer_ok w'.
Proof.
  revert w data begin. induction fuel as [|fuel IH]; intros w data begin Hw Hd Hfuel;
    [unfold add_fuel in Hfuel; destruct (_ =? _) in Hfuel; lia|].
  pose proof (proj1 (proj2 Hw)) as Hoff. cbn [add_loop].
  rewrite (proj2 (Z.ltb_ge _ _)) by lia. cbv zeta.
  destruct (switch_block_total w Hw) as (w1 & -> & Hw1 & Eoff). simpl_bind. rewrite Eoff.
  pose proof (start_range _ Hoff) as Hst.
  rewrite (proj2 (Z.ltb_ge (_ - _ - _) 0)) by lia.
  set (off := block_offset_ w) in *. set (avail := kBlockSize - start off - kHeaderSize) in *.
  match goal with |- context [take (Z.to_nat ?L) data] => set (len := L) end.
  assert (Hlen : 0 ≤ len ≤ avail ∧ len ≤ Z.of_nat (length data) ∧ (len < Z.of_nat (length data) → len = avail)).
  { unfold len. destruct (Z.ltb_spec (Z.of_nat (length data)) avail); unfold avail in *; lia. }
  destruct (Emit_total w1 (fragment_type begin (Z.of_nat (length data) =? len)) (take (Z.to_nat len) data))
    as (w' & s & -> & Hw' & O2); [done|solve_width|rewrite Eoff, length_take; unfold avail in *; lia|].
  simpl_bind. destruct (ok s); cbn [andb]; [|by exists w', s].
  destruct (Z.ltb_spec 0 (Z.of_nat (length data) - len)) as [Hmore|_]; [|by exists w', s].
  apply IH; [done|solve_width|].
  assert (block_offset_ w' = kBlockSize) as -> by (rewrite O2, Eoff, length_take; unfold avail in *; lia).
  unfold add_fuel in *. change (start kBlockSize =? _) with false. cbv iota. rewrite length_drop.
  destruct (Z.eqb_spec (start off) (kBlockSize - kHeaderSize)); unfold avail in *; lia.
Qed.

Lemma AddRecord_total w data :
  writer_ok w → bytes data → ∃ w' s, AddRecord w data = Some (w', s) ∧ writer_ok w'.
Proof. intros Hw Hd. apply add_loop_total; [done..|]. unfold add_fuel. destruct (_ =? _); lia. Qed.

(** *** Files whose calls do not fail *)

Context `{!ReliableAppend W}.

(** One physical record goes to the file, byte for byte. *)
Lemma Emit_ok w t data :
  writer_ok w → bytes data → block_offset_ w + kHeaderSize + Z.of_nat (length data) ≤ kBlockSize →
  ∃ w', EmitPhysicalRecord w t data = Some (w', OK) ∧ writer_ok w' ∧
    contents (dest_ w') = contents (dest_ w) ++ phys_bytes (t, data) ∧
    block_offset_ w' = block_offset_ w + kHeaderSize + Z.of_nat (length data).
Proof.
  intros (Htc & Hoff & Hw) Hd Hfit. unfold EmitPhysicalRecord. cbv zeta.
  assert (Z.of_nat (length data) ≤ 65535) as Hn
    by (unfold kHeaderSize, kBlockSize in *; lia).
  rewrite (proj2 (Z.leb_le _ _) Hn), (proj2 (Z.leb_le _ _) Hfit). cbn [negb].
  rewrite Htc. simpl_bind.
  rewrite crc_Extend_ref by
    (done || (apply crc32c_ref_width; [unfold in_width; lia|solve_width])).
  simpl_bind. rewrite header_eq by lia.
  destruct (Append_reliable (dest_ w) (le_bytes 4 (Mask (crc32c_ref (crc32c_ref 0 [type_code t]) data)) ++
    le_bytes 2 (Z.of_nat (length data)) ++ [type_code t])) as (f1 & -> & W1 & C1); [done|]. simpl_bind. cbn [ok].
  destruct (Append_reliable f1 data W1) as (f2 & -> & W2 & C2). simpl_bind. cbn [ok].
  destruct (Flush_reliable f2 W2) as (f3 & -> & W3 & C3). simpl_bind.
  eexists. split; [reflexivity|]. cbn [dest_ block_offset_ type_crc_]. split_and!.
  - split_and!; [done|..|done]; cbn [block_offset_]; unfold kHeaderSize in *; lia.
  - rewrite C3, C2, C1, <-crc32c_ref_app. unfold phys_bytes. cbn [fst snd app].
    by rewrite <-!app_assoc.
  - lia.
Qed.

Lemma switch_block_ok w :
  writer_ok w →
  ∃ w', switch_block w = Some w' ∧ writer_ok w' ∧ block_offset_ w' = start (block_offset_ w) ∧
  contents (dest_ w') = contents (dest_ w) ++ replicate (Z.to_nat (pad (block_offset_ w))) 0.
Proof.
  intros (Htc & Hoff & Hw). unfold switch_block, start, pad. cbv zeta.
  destruct (Z.ltb_spec (kBlockSize - block_offset_ w) kHeaderSize) as [Hlt|Hge]; cycle 1.
  { exists w. split_and!; [done|done|done|]. by rewrite app_nil_r. }
  assert (H0B : 0 ≤ 0 ≤ kBlockSize) by (unfold kBlockSize; lia).
  destruct (Z.ltb_spec 0 (kBlockSize - block_offset_ w)) as [Hp|Hz].
  - destruct (Append_reliable (dest_ w) (take (Z.to_nat (kBlockSize - block_offset_ w)) [0; 0; 0; 0; 0; 0]))
      as (f' & -> & W' & C); [done|]. simpl_bind. eexists. split; [reflexivity|].
    cbn [block_offset_ dest_]. split; [by split|]. split; [done|]. rewrite C. f_equal.
    change [0; 0; 0; 0; 0; 0] with (replicate 6 0). rewrite take_replicate. f_equal.
    unfold kHeaderSize in *. lia.
  - simpl_bind. eexists. split; [reflexivity|]. cbn [block_offset_ dest_].
    split; [by split|]. split; [done|].
    replace (Z.to_nat (kBlockSize - block_offset_ w)) with 0%nat by lia. by rewrite app_nil_r.
Qed.

Lemma add_loop_ok fuel w data begin :
  writer_ok w → bytes data → (add_fuel (block_offset_ w) data ≤ fuel)%nat →
  ∃ w' fs, add_loop fuel w data begin = Some (w', OK) ∧ frags begin data fs ∧
    fits_all (block_offset_ w) fs ∧ writer_ok w' ∧
    contents (dest_ w') = contents (dest_ w) ++ layout (block_offset_ w) fs ∧
    block_offset_ w' = off_after (block_offset_ w) fs.
Proof.
  revert w data begin. induction fuel as [|fuel IH]; intros w data begin Hw Hd Hfuel;
    [unfold add_fuel in Hfuel; destruct (_ =? _) in Hfuel; lia|].
  pose proof (proj1 (proj2 Hw)) as Hoff. cbn [add_loop].
  rewrite (proj2 (Z.ltb_ge _ _)) by lia. cbv zeta.
  destruct (switch_block_ok w Hw) as (w1 & -> & Hw1 & Eoff & C1). simpl_bind. rewrite Eoff.
  pose proof (start_range _ Hoff) as Hst.
  rewrite (proj2 (Z.ltb_ge (_ - _ - _) 0)) by lia.
  set (off := block_offset_ w) in *. set (avail := kBlockSize - start off - kHeaderSize).
  assert (fragment_ok : ∀ k, (k ≤ length data)%nat → Z.of_nat k ≤ avail →
    block_offset_ w1 + kHeaderSize + Z.of_nat (length (take k data)) ≤ kBlockSize).
  { intros k Hk Ha. rewrite Eoff, length_take, Nat.min_l by done. unfold avail in Ha. lia. }
  destruct (decide (Z.of_nat (length data) ≤ avail)) as [Hle|Hgt].
  - (* the last fragment *)
    assert (HL : (if Z.of_nat (length data) <? avail then Z.of_nat (length data) else avail)
                 = Z.of_nat (length data)) by (destruct (Z.ltb_spec (Z.of_nat (length data)) avail); lia).
    rewrite HL, Z.eqb_refl, Nat2Z.id, firstn_all, Z.sub_diag.
    destruct (Emit_ok w1 (fragment_type begin true) data) as (w' & -> & Hw' & C2 & O2);
      [done|done|by rewrite <-(firstn_all data) at 1; apply fragment_ok|].
    simpl_bind. cbn [ok andb]. rewrite Z.ltb_irrefl.
    exists w', [(fragment_type begin true, data)]. split_and!; [done|by destruct begin; constructor| |done| |].
    + split; [|done]. split_and!; [done|by destruct begin|].
      unfold after. cbn [snd]. unfold avail in Hle. lia.
    + rewrite C2, C1. cbn [layout]. by rewrite app_nil_r, <-app_assoc.
    + rewrite O2, Eoff. done.
  - (* a fragment that ends the block *)
    assert (HL : (if Z.of_nat (length data) <? avail then Z.of_nat (length data) else avail) = avail)
      by (destruct (Z.ltb_spec (Z.of_nat (length data)) avail); lia).
    rewrite HL. rewrite (proj2 (Z.eqb_neq _ _)) by lia.
    set (k := Z.to_nat avail). assert (0 ≤ avail) as Hav by (unfold avail; lia).
    set (p := take k data). set (data' := drop k data).
    assert (length p = k) as Lp by (unfold p; rewrite length_take; lia).
    destruct (Emit_ok w1 (fragment_type begin false) p) as (w' & -> & Hw' & C2 & O2);
      [done|unfold p; solve_width|apply fragment_ok; lia|].
    simpl_bind. cbn [ok andb]. rewrite (proj2 (Z.ltb_lt 0 _)) by lia.
    assert (block_offset_ w' = kBlockSize) as O3 by (rewrite O2, Eoff, Lp; unfold k, avail; lia).
    destruct (IH w' data' false) as (w2 & fs & E & Hfr & Hfit & Hw2 & C3 & O4);
      [done|unfold data'; solve_width| |].
    { rewrite O3. unfold add_fuel in *. change (start kBlockSize =? _) with false. cbv iota.
      unfold data'. rewrite length_drop.
      destruct (Z.eqb_spec (start off) (kBlockSize - kHeaderSize)); unfold k, avail in *; lia. }
    exists w2, ((fragment_type begin false, p) :: fs).
    assert (Hafter : after off (fragment_type begin false, p) = kBlockSize).
    { unfold after. cbn [snd]. rewrite Lp. unfold k, avail. lia. }
    cbn [fits_all layout off_after]. rewrite Hafter, <-O3. split_and!; [done| | |done|done| |done].
    + rewrite <-(take_drop k data). fold p data'. destruct begin; by constructor.
    + split_and!; [unfold p; solve_width|by destruct begin|]. rewrite Hafter. lia.
    + rewrite C3, C2, C1. unfold place. by rewrite <-!app_assoc.
Qed.

Lemma AddRecord_ok w data :
  writer_ok w → bytes data →
  ∃ w' fs, AddRecord w data = Some (w', OK) ∧ frags true data fs ∧
    fits_all (block_offset_ w) fs ∧ writer_ok w' ∧
    contents (dest_ w') = contents (dest_ w) ++ layout (block_offset_ w) fs ∧
    block_offset_ w' = off_after (block_offset_ w) fs.
Proof.
  intros Hw Hd. apply add_loop_ok; [done..|]. unfold add_fuel. destruct (_ =? _); lia.
Qed.

(** A run of the writer: the records one after the other. *)
Fixpoint add_records (w : Writer W) (ds : list (list Z)) : option (Writer W) :=
  match ds with
  | [] => Some w
  | d :: ds => '(w, s) ← AddRecord w d; if ok s then add_records w ds else None
  end.

Lemma add_records_ok w ds :
  writer_ok w → Forall bytes ds →
  ∃ w' out, add_records w ds = Some w' ∧ writer_ok w' ∧
    log_of (block_offset_ w) ds out (block_offset_ w') ∧
    contents (dest_ w') = contents (dest_ w) ++ out.
Proof.
  intros Hw Hds. revert w Hw. induction Hds as [|d ds Hd Hds IH]; intros w Hw.
  { exists w, []. rewrite app_nil_r. split_and!; [done|done|constructor|done]. }
  cbn [add_records]. destruct (AddRecord_ok w d) as (w1 & fs & -> & Hfr & Hfit & Hw1 & C1 & O1); [done..|].
  simpl_bind. cbn [ok]. destruct (IH w1 Hw1) as (w2 & out & -> & Hw2 & Hlog & C2).
  exists w2, (layout (block_offset_ w) fs ++ out). split_and!; [done|done| |].
  - econstructor; [done|done|by rewrite <-O1].
  - rewrite C2, C1. by rewrite <-app_assoc.
Qed.

End writer.

(** ** The reader *)

Section reader.
Context `{SequentialFileLaws R} `{Crc : Crc32cLaws} `{Port}.

(** The reader stands at offset [off] of a block, [D] is what follows in the
    file: the buffer has the rest of the block.  [eof_] is set when the file
    ends within the block.  Reading starts at the beginning of the file. *)
Definition at_off (off : Z) (D : list Z) (r : Reader R) : Prop :=
  0 ≤ off ≤ kBlockSize ∧ bytes D ∧
  buffer_ r = take (Z.to_nat (kBlockSize - off)) D ∧
  rest (file_ r) = drop (Z.to_nat (kBlockSize - off)) D ∧
  readable (file_ r) ∧ eof_ r = (Z.of_nat (length D) <? kBlockSize - off) ∧
  initial_offset_ r = 0 ∧ 0 ≤ last_record_offset_ r ∧ resyncing_ r = false.

Lemma at_off_start file reporter checksum :
  readable file → bytes (rest file) → at_off kBlockSize (rest file) (new_Reader file reporter checksum 0).
Proof.
  intros. unfold at_off, new_Reader.
  cbn [buffer_ file_ eof_ initial_offset_ last_record_offset_ resyncing_].
  replace (kBlockSize - kBlockSize) with 0 by lia. rewrite take_0, drop_0.
  split_and!; try done; try (unfold kBlockSize; lia).
  symmetry. apply Z.ltb_ge. lia.
Qed.

Lemma char_unsigned_type t : char_unsigned (type_code t) = type_code t.
Proof. by destruct t. Qed.

(** A header with checksum [c], read back. *)
Lemma record_fields c t p r :
  in_width 32 c → bytes p → bytes r → Z.of_nat (length p) ≤ 65535 →
  let h := le_bytes 4 c ++ le_bytes 2 (Z.of_nat (length p)) ++ [type_code t] ++ p ++ r in
  h.[4] = Some (Z.of_nat (length p) mod 256) ∧ h.[5] = Some (Z.of_nat (length p) / 256) ∧
  h.[6] = Some (type_code t) ∧ DecodeFixed32 h = Some c ∧
  slice h 6 (1 + Z.of_nat (length p)) = type_code t :: p ∧
  slice h kHeaderSize (Z.of_nat (length p)) = p ∧
  drop (Z.to_nat (kHeaderSize + Z.of_nat (length p))) h = r.
Proof.
  intros Hcw Hp Hr Hn h.
  assert (Hh : h = le_bytes 4 c ++ le_bytes 2 (Z.of_nat (length p)) ++ [type_code t] ++ p ++ r) by done.
  assert (Hd : ∀ k : nat, drop (6 + k) h = drop k (type_code t :: p ++ r)).
  { intros k. rewrite Hh, app_assoc. rewrite <-drop_drop. by f_equal. }
  split_and!.
  - rewrite Hh. change 4 with (Z.of_nat 4) at 1. rewrite aget_lookup.
    rewrite lookup_app_r by (by rewrite length_le_bytes). rewrite length_le_bytes. done.
  - rewrite Hh. change 5 with (Z.of_nat 5) at 1. rewrite aget_lookup.
    rewrite lookup_app_r by (rewrite length_le_bytes; lia). rewrite length_le_bytes. cbn.
    f_equal. rewrite Z.mod_small; [done|]. split; [apply Z.div_pos; lia|].
    apply Z.div_lt_upper_bound; lia.
  - change 6 with (Z.of_nat 6) at 1. rewrite aget_lookup.
    transitivity (drop (6 + 0) h !! 0%nat); [by rewrite lookup_drop|]. by rewrite Hd.
  - rewrite Hh, <-EncodeFixed32_le. apply DecodeFixed32_encode; [done|]. solve_width.
  - unfold slice. change (Z.to_nat 6) with (6 + 0)%nat. rewrite Hd, drop_0.
    rewrite Z2Nat.inj_add, Nat2Z.id by lia. change (Z.to_nat 1 + length p)%nat with (S (length p)).
    change (take (S (length p)) (type_code t :: p ++ r)) with (type_code t :: take (length p) (p ++ r)).
    by rewrite take_app_length.
  - unfold slice, kHeaderSize. change (Z.to_nat (4 + 2 + 1)) with (6 + 1)%nat. rewrite Hd.
    change (drop 1 (type_code t :: p ++ r)) with (p ++ r). by rewrite Nat2Z.id, take_app_length.
  - rewrite Z2Nat.inj_add, Nat2Z.id by (unfold kHeaderSize; lia). unfold kHeaderSize.
    change (Z.to_nat (4 + 2 + 1) + length p)%nat with (6 + S (length p))%nat. rewrite Hd.
    change (drop (S (length p)) (type_code t :: p ++ r)) with (drop (length p) (p ++ r)).
    by rewrite drop_app_length.
Qed.

Lemma phys_header t p r :
  bytes p → bytes r → Z.of_nat (length p) ≤ 65535 →
  let h := phys_bytes (t, p) ++ r in
  h.[4] = Some (Z.of_nat (length p) mod 256) ∧ h.[5] = Some (Z.of_nat (length p) / 256) ∧
  h.[6] = Some (type_code t) ∧
  DecodeFixed32 h = Some (Mask (crc32c_ref 0 (type_code t :: p))) ∧
  slice h 6 (1 + Z.of_nat (length p)) = type_code t :: p ∧
  slice h kHeaderSize (Z.of_nat (length p)) = p ∧
  drop (Z.to_nat (kHeaderSize + Z.of_nat (length p))) h = r.
Proof.
  intros Hp Hr Hn. pose proof (record_fields (Mask (crc32c_ref 0 (type_code t :: p))) t p r
    ltac:(apply Mask_width) Hp Hr Hn) as HF.
  unfold phys_bytes. cbn [fst snd]. rewrite <-!app_assoc. exact HF.
Qed.

Lemma record_length n :
  0 ≤ n ≤ 65535 →
  Z.lor (Z.land (n mod 256) 255) (u32 (Z.shiftl (Z.land (n / 256) 255) 8)) = n.
Proof.
  intros Hn. rewrite !land_255, Z.mod_mod by lia.
  assert (0 ≤ n / 256 < 256) by (split; [apply Z.div_pos; lia|apply Z.div_lt_upper_bound; lia]).
  rewrite (Z.mod_small (n / 256)), wrap_small by
    (unfold in_width; rewrite ?Z.shiftl_mul_pow2 by lia; change (2 ^ 8) with 256; change (2 ^ 32) with 4294967296; lia).
  rewrite lor_shiftl_add; [change (2 ^ 8) with 256|lia|unfold in_width; change (2 ^ 8) with 256;
    apply Z.mod_pos_bound; lia].
  pose proof (Z.div_mod n 256). lia.
Qed.

(** What a step keeps of the reader besides its position. *)
Definition quiet (r r' : Reader R) : Prop :=
  reports r' = reports r ∧ resyncing_ r' = resyncing_ r.

Lemma quiet_trans r1 r2 r3 : quiet r1 r2 → quiet r2 r3 → quiet r1 r3.
Proof. intros [? ?] [? ?]. split; congruence. Qed.

(** A complete physical record at the front of the buffer. *)
Lemma parse_complete off t p D r result :
  at_off off (phys_bytes (t, p) ++ D) r → bytes p → t ≠ kZeroType →
  off + kHeaderSize + Z.of_nat (length p) ≤ kBlockSize →
  ∃ r', parse_physical r result = Some (r', p, type_code t) ∧
    at_off (off + kHeaderSize + Z.of_nat (length p)) D r' ∧ quiet r r'.
Proof.
  intros (Ho & HD & Hb & Hf & Hrd & He & Hi & Hl & Hr) Hp Ht Hfit.
  pose proof (length_phys_bytes (t, p)) as HL. cbn [snd] in HL.
  set (n := Z.of_nat (length p)) in *.
  set (k := Z.to_nat (kBlockSize - (off + kHeaderSize + n))).
  assert (Hk : Z.to_nat (kBlockSize - off) = (length (phys_bytes (t, p)) + k)%nat)
    by (unfold k; lia).
  assert (Hbuf : buffer_ r = phys_bytes (t, p) ++ take k D).
  { by rewrite Hb, Hk, take_app_add. }
  assert (bytes D) as HD' by (by apply Forall_app in HD as [_ ?]).
  assert (n ≤ 65535) as Hn by (unfold kBlockSize, kHeaderSize in *; lia).
  destruct (phys_header t p (take k D)) as (E4 & E5 & E6 & EC & ES & EP & ED); [done|solve_width|done|].
  fold n in E4, E5, ES, EP, ED. unfold parse_physical. cbv zeta. unfold buffer_size. rewrite Hbuf.
  rewrite E4, E5, E6. simpl_bind. rewrite record_length by lia.
  rewrite (proj2 (Z.ltb_ge _ _)) by (rewrite length_app; lia).
  rewrite char_unsigned_type. rewrite (proj2 (Z.eqb_neq (type_code t) _)) by (by destruct t).
  cbn [andb]. rewrite EC. simpl_bind. rewrite ES.
  rewrite crc_Value_ref by (apply bytes_cons; solve_width). simpl_bind.
  rewrite Unmask_Mask, Z.eqb_refl by
    (apply crc32c_ref_width; [unfold in_width; lia|apply bytes_cons; solve_width]).
  assert (Hg : (if checksum_ r then Some true else Some true) = Some true) by (by destruct (checksum_ r)).
  rewrite Hg. simpl_bind. cbn [negb]. rewrite ED, EP.
  change (initial_offset_ (set_buffer _ _)) with (initial_offset_ r). rewrite Hi.
  rewrite (proj2 (Z.ltb_ge _ 0)) by (apply wrap_range; lia).
  eexists. split; [reflexivity|]. split; [|done].
  unfold at_off, set_buffer. cbn [buffer_ file_ eof_ initial_offset_ last_record_offset_ resyncing_].
  split_and!; try done; try (unfold kHeaderSize in *; lia).
  - rewrite Hf, Hk. by rewrite drop_app_add.
  - rewrite He. rewrite length_app. unfold kHeaderSize in *.
    destruct (Z.ltb_spec (Z.of_nat (length (phys_bytes (t, p)) + length D)) (kBlockSize - off)),
      (Z.ltb_spec (Z.of_nat (length D)) (kBlockSize - (off + (4 + 2 + 1) + n))); lia.
Qed.

(** At the end of a block the next one is read. *)
Lemma read_physical_load fuel off D r result :
  at_off off D r → kBlockSize - off < kHeaderSize → kBlockSize - off ≤ Z.of_nat (length D) →
  ∃ r', read_physical (S fuel) r result = read_physical fuel r' result ∧
    at_off 0 (drop (Z.to_nat (kBlockSize - off)) D) r' ∧ quiet r r'.
Proof.
  intros (Ho & HD & Hb & Hf & Hrd & He & Hi & Hl & Hr) Hlt Hle. cbn [read_physical].
  rewrite (proj2 (Z.ltb_lt _ _)) by (unfold buffer_size; rewrite Hb, length_take; lia).
  rewrite He, (proj2 (Z.ltb_ge _ _)) by lia. cbn [negb].
  destruct (Read_rest (file_ r) kBlockSize) as (f' & -> & Hrd' & Hf');
    [done|unfold kBlockSize; lia|]. simpl_bind.
  cbn [ok negb]. cbv zeta. eexists. split; [reflexivity|].
  set (D' := drop _ D) in *. unfold buffer_size, set_buffer, set_file, set_eof. cbn [buffer_].
  rewrite Hf. unfold at_off, quiet. rewrite Z.sub_0_r.
  assert (HB : 0 ≤ 0 ≤ kBlockSize) by (unfold kBlockSize; lia).
  assert (HD' : bytes D') by (unfold D'; solve_width). rewrite Hf in Hf'.
  destruct (Z.ltb_spec (Z.of_nat (length (take (Z.to_nat kBlockSize) D'))) kBlockSize) as [Hs|Hs];
    rewrite length_take in Hs;
    cbn [buffer_ file_ eof_ initial_offset_ last_record_offset_ resyncing_ reports];
    (split; [|split; reflexivity]);
    (split_and!; [apply HB|apply HB|exact HD'|reflexivity|exact Hf'|exact Hrd'| |exact Hi|exact Hl|exact Hr]).
  - symmetry. apply Z.ltb_lt. lia.
  - rewrite He. transitivity false; [apply Z.ltb_ge|symmetry; apply Z.ltb_ge]; lia.
Qed.

(** Where there is room for a header, the buffer is looked at. *)
Lemma read_physical_parse fuel off D r result :
  at_off off D r → kHeaderSize ≤ kBlockSize - off → kHeaderSize ≤ Z.of_nat (length D) →
  read_physical (S fuel) r result = parse_physical r result.
Proof.
  intros (Ho & HD & Hb & _) Hlt Hle. cbn [read_physical].
  rewrite (proj2 (Z.ltb_ge _ _)); [done|]. unfold buffer_size. rewrite Hb, length_take. lia.
Qed.

Lemma read_complete off f D r result :
  at_off off (place off f ++ D) r → fits off f →
  ∃ r', ReadPhysicalRecord r result = Some (r', f.2, type_code f.1) ∧
    at_off (after off f) D r' ∧ quiet r r'.
Proof.
  destruct f as [t p]. intros Hat (Hp & Ht & Hfit). cbn [fst snd] in *.
  pose proof (length_phys_bytes (t, p)) as HL. unfold ReadPhysicalRecord.
  unfold after, place, start, pad in *. cbn [snd] in *.
  destruct (Z.ltb_spec (kBlockSize - off) kHeaderSize) as [Hlt|Hge].
  - pose proof (proj1 Hat) as Ho. rewrite <-app_assoc in Hat.
    destruct (read_physical_load 1 _ _ _ result Hat Hlt) as (r1 & -> & Hat1 & Q1).
    { rewrite length_app, length_replicate. lia. }
    rewrite drop_app_length' in Hat1 by (by rewrite length_replicate).
    rewrite (read_physical_parse _ _ _ _ _ Hat1) by
      (rewrite ?length_app; unfold kBlockSize, kHeaderSize in *; lia).
    destruct (parse_complete 0 t p D r1 result) as (r2 & E & Hat2 & Q2); [done..|].
    exists r2. split_and!; [done|done|]. by eapply quiet_trans.
  - change (replicate (Z.to_nat 0) 0 ++ phys_bytes (t, p)) with (phys_bytes (t, p)) in Hat.
    rewrite (read_physical_parse _ _ _ _ _ Hat) by (rewrite ?length_app; unfold kHeaderSize in *; lia).
    by apply parse_complete.
Qed.

(** A physical record whose end is missing. *)
Lemma parse_cut (k : nat) t p (r : Reader R) result :
  bytes p → Z.of_nat (length p) ≤ 65535 →
  kHeaderSize ≤ Z.of_nat k < kHeaderSize + Z.of_nat (length p) →
  buffer_ r = take k (phys_bytes (t, p)) → eof_ r = true →
  parse_physical r result = Some (set_buffer [] r, result, kEof).
Proof.
  intros Hp Hn Hk Hb He. pose proof (length_phys_bytes (t, p)) as HL. cbn [snd] in HL.
  destruct (phys_header t p []) as (E4 & E5 & E6 & _); [done|constructor|done|].
  rewrite app_nil_r in E4, E5, E6. unfold kHeaderSize in *.
  assert (Hg : ∀ i x, 0 ≤ i < 7 → (phys_bytes (t, p)).[i] = Some x → (buffer_ r).[i] = Some x).
  { intros i x Hi [_ Hx]%aget_some. rewrite Hb. unfold aget.
    rewrite (proj2 (Z.leb_le 0 i)) by lia. rewrite lookup_take_lt by lia. done. }
  unfold parse_physical. cbv zeta.
  rewrite (Hg 4 _ ltac:(lia) E4), (Hg 5 _ ltac:(lia) E5), (Hg 6 _ ltac:(lia) E6). simpl_bind.
  rewrite record_length by lia. unfold buffer_size. rewrite Hb, length_take.
  rewrite (proj2 (Z.ltb_lt _ _)) by (unfold kHeaderSize; lia).
  change (eof_ (set_buffer [] r)) with (eof_ r). by rewrite He.
Qed.

Lemma read_cut_ready fuel (k : nat) off t p r result :
  at_off off (take k (phys_bytes (t, p))) r → bytes p →
  (k < length (phys_bytes (t, p)))%nat →
  off + kHeaderSize + Z.of_nat (length p) ≤ kBlockSize →
  ∃ r', read_physical (S fuel) r result = Some (r', result, kEof) ∧ quiet r r'.
Proof.
  intros Hat Hp Hk Hfit. pose proof (length_phys_bytes (t, p)) as HL. cbn [snd] in HL.
  pose proof (length_take (phys_bytes (t, p)) k) as Hlen. rewrite Nat.min_l in Hlen by lia.
  destruct (decide (kHeaderSize ≤ Z.of_nat k)) as [Hle|Hgt].
  - rewrite (read_physical_parse _ _ _ _ _ Hat) by (unfold kHeaderSize in *; lia).
    destruct Hat as (Ho & _ & Hb & _ & _ & He & _).
    rewrite (parse_cut k t p); [eexists; split; [reflexivity|done]|done| |lia| |].
    + unfold kBlockSize, kHeaderSize in *. lia.
    + rewrite Hb. apply take_ge. lia.
    + rewrite He. apply Z.ltb_lt. lia.
  - destruct Hat as (Ho & _ & Hb & _ & _ & He & _). cbn [read_physical].
    rewrite (proj2 (Z.ltb_lt _ _)) by (unfold buffer_size; rewrite Hb, length_take; lia).
    rewrite He, (proj2 (Z.ltb_lt _ _)) by lia. cbn [negb]. eexists. split; [reflexivity|done].
Qed.

Lemma read_cut (k : nat) off f r result :
  at_off off (take k (place off f)) r → fits off f → (k < length (place off f))%nat →
  ∃ r', ReadPhysicalRecord r result = Some (r', result, kEof) ∧ quiet r r'.
Proof.
  destruct f as [t p]. intros Hat (Hp & Ht & Hfit) Hk. cbn [fst snd] in *.
  unfold ReadPhysicalRecord. unfold after, place, start, pad in *. cbn [snd] in *.
  destruct (Z.ltb_spec (kBlockSize - off) kHeaderSize) as [Hlt|Hge].
  - set (z := Z.to_nat (kBlockSize - off)) in *. pose proof (proj1 Hat) as Ho.
    pose proof (length_take (replicate z 0 ++ phys_bytes (t, p)) k) as Hlen.
    rewrite Nat.min_l in Hlen by lia. rewrite length_app, length_replicate in Hk.
    destruct (decide (k < z)%nat) as [Hkz|Hkz].
    + destruct Hat as (_ & _ & Hb & _ & _ & He & _). cbn [read_physical].
      rewrite (proj2 (Z.ltb_lt _ _)) by (unfold buffer_size; rewrite Hb, length_take; lia).
      rewrite He, (proj2 (Z.ltb_lt _ _)) by lia. cbn [negb]. eexists. split; [reflexivity|done].
    + destruct (read_physical_load 1 _ _ _ result Hat Hlt) as (r1 & -> & Hat1 & Q1); [lia|].
      fold z in Hat1. rewrite take_app, take_ge in Hat1 by (rewrite length_replicate; lia).
      rewrite drop_app_length', length_replicate in Hat1 by (by rewrite length_replicate).
      destruct (read_cut_ready 0 (k - z) 0 t p r1 result) as (r2 & E & Q2); [done|done|lia|lia|].
      exists r2. split; [done|]. by eapply quiet_trans.
  - change (replicate (Z.to_nat 0) 0 ++ phys_bytes (t, p)) with (phys_bytes (t, p)) in *.
    by apply (read_cut_ready 1 k off t p).
Qed.

(** *** Records *)

Lemma at_off_set_last off D r o : at_off off D r → 0 ≤ o → at_off off D (set_last o r).
Proof.
  intros (H1' & H2' & H3' & H4' & H5' & H6' & H7' & _ & H8') Ho.
  exact (conj H1' (conj H2' (conj H3' (conj H4' (conj H5' (conj H6' (conj H7' (conj Ho H8')))))))).
Qed.

Lemma resync_off off D r t : at_off off D r → resync r t = (r, false).
Proof. intros (_ & _ & _ & _ & _ & _ & _ & _ & Hr). unfold resync. by rewrite Hr. Qed.

(** What the local variables are before the first and before a later fragment. *)
Definition locals_ok (b : bool) (l : locals) : Prop :=
  in_fragmented_record l = negb b ∧ (b = true → scratch l = []) ∧
  0 ≤ prospective_record_offset l.

(** One more fragment: [read_loop] goes round with the fragment added, or
    returns the record. *)
Lemma read_loop_step fuel off f D r l :
  at_off off (place off f ++ D) r → fits off f →
  ∃ r' o, at_off (after off f) D r' ∧ quiet r r' ∧ 0 ≤ o ∧
    read_loop (S fuel) r l =
      (let '(r, l, oc) := record_switch r'
         (Locals (scratch l) (in_fragmented_record l) (prospective_record_offset l) f.2)
         (type_code f.1) o in
       match oc with
       | Continue => read_loop fuel r l
       | Return record => Some (r, record)
       end).
Proof.
  intros Hat Hf. destruct (read_complete off f D r (fragment l) Hat Hf) as (r' & E & Hat' & Q).
  eexists r', _. split; [done|]. split; [done|]. split; cycle 1.
  - cbn [read_loop]. rewrite E. simpl_bind. rewrite (resync_off _ _ _ _ Hat'). reflexivity.
  - apply (wrap_range 64). lia.
Qed.

Lemma read_loop_complete fuel off b data fs D r l :
  frags b data fs → fits_all off fs → at_off off (layout off fs ++ D) r →
  locals_ok b l → (length fs ≤ fuel)%nat →
  ∃ r', read_loop fuel r l = Some (r', Some (scratch l ++ data)) ∧
    at_off (off_after off fs) D r' ∧ quiet r r'.
Proof.
  intros Hfr. revert fuel off r l.
  induction Hfr as [data|data|p data fs Hfr IH|p data fs Hfr IH];
    intros fuel off r l [Hf Hfs] Hat (Hin & Hs & Hpo) Hfuel; cbn [negb] in Hin;
    cbn [layout off_after] in *; rewrite <-app_assoc in Hat;
    (destruct fuel as [|fuel]; [cbn [length] in Hfuel; lia|]);
    destruct (read_loop_step fuel _ _ _ _ l Hat Hf) as (r1 & o & Hat1 & Q1 & Ho & ->);
    unfold record_switch, end_fragmented;
    cbn [fst snd type_code in_fragmented_record scratch prospective_record_offset fragment];
    rewrite Hin; cbn [negb].
  - rewrite (Hs eq_refl). eexists. split; [reflexivity|]. split; [by apply at_off_set_last|done].
  - eexists. split; [reflexivity|]. split; [by apply at_off_set_last|done].
  - destruct (IH fuel _ r1 (Locals p true o p) Hfs Hat1) as (r2 & E & Hat2 & Q2);
      [done|cbn [length] in Hfuel; lia|].
    rewrite (Hs eq_refl). exists r2. split_and!; [done|done|]. by eapply quiet_trans.
  - destruct (IH fuel _ r1 (Locals (scratch l ++ p) true (prospective_record_offset l) p) Hfs Hat1)
      as (r2 & E & Hat2 & Q2); [done|cbn [length] in Hfuel; lia|].
    exists r2. rewrite app_assoc. split_and!; [done|done|]. by eapply quiet_trans.
Qed.

(** The file ends within the fragments of a record: end of file, silently. *)
Lemma read_loop_eof fuel off D r l r' :
  at_off off D r → ReadPhysicalRecord r (fragment l) = Some (r', fragment l, kEof) → quiet r r' →
  ∃ r'', read_loop (S fuel) r l = Some (r'', None) ∧ quiet r r''.
Proof.
  intros (_ & _ & _ & _ & _ & _ & _ & _ & Hr) E Q. cbn [read_loop]. rewrite E. simpl_bind.
  unfold resync. rewrite (proj2 Q), Hr. exists r'. by split.
Qed.

Lemma read_loop_cut fuel off b data fs (k : nat) r l :
  frags b data fs → fits_all off fs → at_off off (take k (layout off fs)) r →
  locals_ok b l → (length fs ≤ fuel)%nat → (k < length (layout off fs))%nat →
  ∃ r', read_loop fuel r l = Some (r', None) ∧ quiet r r'.
Proof.
  intros Hfr. revert fuel off k r l.
  induction Hfr as [data|data|p data fs Hfr IH|p data fs Hfr IH];
    intros fuel off k r l [Hf Hfs] Hat (Hin & Hs & Hpo) Hfuel Hk; cbn [negb] in Hin;
    cbn [layout] in *; rewrite length_app in Hk;
    (destruct fuel as [|fuel]; [cbn [length] in Hfuel; lia|]);
    match type of Hf with fits _ ?f => destruct (decide (k < length (place off f))%nat) as [Hc|Hc] end;
    try (rewrite take_app_le in Hat by lia;
      destruct (read_cut k off _ r (fragment l) Hat Hf Hc) as (r1 & E & Q1);
      by eapply read_loop_eof);
    try (cbn [length] in Hk; lia);
    rewrite take_app_ge in Hat by lia;
    destruct (read_loop_step fuel _ _ _ _ l Hat Hf) as (r1 & o & Hat1 & Q1 & Ho & ->);
    unfold record_switch, end_fragmented;
    cbn [fst snd type_code in_fragmented_record scratch prospective_record_offset fragment];
    rewrite Hin; cbn [negb].
  - destruct (IH fuel _ _ r1 (Locals p true o p) Hfs Hat1) as (r2 & E & Q2);
      [done|cbn [length] in Hfuel; lia|lia|].
    exists r2. split; [done|]. by eapply quiet_trans.
  - destruct (IH fuel _ _ r1 (Locals (scratch l ++ p) true (prospective_record_offset l) p) Hfs Hat1)
      as (r2 & E & Q2); [done|cbn [length] in Hfuel; lia|lia|].
    exists r2. split; [done|]. by eapply quiet_trans.
Qed.

(** *** Logs *)

(** A client that reads until [ReadRecord] returns [false]. *)
Fixpoint read_all (n fuel : nat) (r : Reader R) : option (Reader R * list (list Z)) :=
  match n with
  | O => None
  | S n =>
      '(r, o) ← ReadRecord fuel r;
      match o with
      | None => Some (r, [])
      | Some record => '(r, l) ← read_all n fuel r; Some (r, record :: l)
      end
  end.

Lemma ReadRecord_loop fuel off D r :
  at_off off D r → ReadRecord fuel r = read_loop fuel r (Locals [] false 0 []).
Proof.
  intros (_ & _ & _ & _ & _ & _ & Hi & Hl & _). unfold ReadRecord.
  by rewrite Hi, (proj2 (Z.ltb_ge _ _)) by lia.
Qed.

Lemma locals_start : locals_ok true (Locals [] false 0 []).
Proof. done. Qed.

(** A run of [ReadRecord] that gives the records [l], then the end of the
    file, and reports nothing. *)
Inductive reads (fuel : nat) : Reader R → list (list Z) → Reader R → Prop :=
  | reads_end r r' : ReadRecord fuel r = Some (r', None) → quiet r r' → reads fuel r [] r'
  | reads_cons r r1 d l r' :
      ReadRecord fuel r = Some (r1, Some d) → quiet r r1 → reads fuel r1 l r' →
      reads fuel r (d :: l) r'.

Lemma reads_quiet fuel r l r' : reads fuel r l r' → quiet r r'.
Proof. induction 1; [done|]. by eapply quiet_trans. Qed.

Lemma reads_read_all n fuel r l r' :
  reads fuel r l r' → (length l < n)%nat → read_all n fuel r = Some (r', l).
Proof.
  intros Hr. revert n. induction Hr as [r r' E|r r1 d l r' E _ _ IH]; intros n Hn;
    (destruct n as [|n]; [cbn in Hn; lia|]); cbn [read_all]; rewrite E; simpl_bind; [done|].
  rewrite IH by (cbn in Hn; lia). done.
Qed.

Lemma reads_eof fuel off r :
  at_off off [] r → (0 < fuel)%nat → ∃ r', reads fuel r [] r'.
Proof.
  intros Hat Hfuel. destruct fuel as [|fuel]; [lia|].
  pose proof (proj1 Hat) as Ho. pose proof (start_range _ Ho).
  destruct (read_cut 0 off (kFullType, []) r [] Hat) as (r1 & E & Q).
  - split_and!; [constructor|done|]. unfold after. cbn. lia.
  - unfold place. rewrite length_app. pose proof (length_phys_bytes (kFullType, [])).
    unfold kHeaderSize in *. lia.
  - destruct (read_loop_eof fuel off [] r (Locals [] false 0 []) r1 Hat E Q) as (r2 & E2 & Q2).
    exists r2. apply reads_end; [|done]. by rewrite (ReadRecord_loop _ _ _ _ Hat).
Qed.

(** A log cut after [k] bytes: a prefix of the records. *)
Lemma reads_cut fuel off ds out off' (k : nat) r :
  log_of off ds out off' → at_off off (take k out) r → (length out < fuel)%nat →
  ∃ r' j, reads fuel r (take j ds) r' ∧ ((length out ≤ k)%nat → (length ds ≤ j)%nat).
Proof.
  intros Hlog. revert k r. induction Hlog as [off|off d fs ds out off' Hfr Hfit Hlog IH];
    intros k r Hat Hfuel.
  { rewrite take_nil in Hat. destruct (reads_eof fuel off r Hat) as [r' Hr]; [lia|].
    exists r', 0%nat. split; [done|]. cbn. lia. }
  rewrite length_app in Hfuel. pose proof (length_layout off fs).
  destruct (decide (k < length (layout off fs))%nat) as [Hc|Hc].
  - rewrite take_app_le in Hat by lia.
    destruct (read_loop_cut fuel off true d fs k r _ Hfr Hfit Hat locals_start) as (r' & E & Q); [lia..|].
    exists r', 0%nat. split; [|rewrite length_app; lia]. apply reads_end; [|done].
    by rewrite (ReadRecord_loop _ _ _ _ Hat).
  - rewrite take_app_ge in Hat by lia.
    destruct (read_loop_complete fuel off true d fs _ r _ Hfr Hfit Hat locals_start)
      as (r1 & E & Hat1 & Q1); [lia..|].
    destruct (IH _ r1 Hat1) as (r2 & j & Hr & Hj); [lia|].
    exists r2, (S j). split; [|rewrite length_app; cbn; lia].
    eapply reads_cons; [|done|done]. by rewrite (ReadRecord_loop _ _ _ _ Hat).
Qed.

(** The log of [ds1 ++ ds2], cut anywhere after [ds1]: all of [ds1] and a
    prefix of [ds2] come back, and nothing is reported. *)
Lemma reads_app fuel off ds1 out1 off1 ds2 out2 off2 (k : nat) r :
  log_of off ds1 out1 off1 → log_of off1 ds2 out2 off2 →
  at_off off (out1 ++ take k out2) r → (length (out1 ++ out2) < fuel)%nat →
  ∃ r' j, reads fuel r (ds1 ++ take j ds2) r' ∧ ((length out2 ≤ k)%nat → (length ds2 ≤ j)%nat).
Proof.
  intros H1'. revert r. induction H1' as [off|off d fs ds1 out1 off1 Hfr Hfit Hlog IH];
    intros r H2' Hat Hfuel; [by eapply reads_cut|].
  rewrite <-!app_assoc, ?length_app in *. pose proof (length_layout off fs).
  destruct (read_loop_complete fuel off true d fs _ r _ Hfr Hfit Hat locals_start)
    as (r1 & E & Hat1 & Q1); [lia..|].
  destruct (IH r1 H2' Hat1) as (r2 & j & Hr & Hj); [rewrite ?length_app; lia..|].
  exists r2, j. split; [|done]. cbn [app]. eapply reads_cons; [|done|done].
  by rewrite (ReadRecord_loop _ _ _ _ Hat).
Qed.

(** The same from the beginning of a file, where the writer is at offset 0 and
    the reader has not read a block yet. *)
Lemma reads_from_start fuel ds1 out1 off1 ds2 out2 off2 (k : nat) r :
  log_of 0 ds1 out1 off1 → log_of off1 ds2 out2 off2 →
  at_off kBlockSize (out1 ++ take k out2) r → (length (out1 ++ out2) < fuel)%nat →
  ∃ r' j, reads fuel r (ds1 ++ take j ds2) r' ∧ ((length out2 ≤ k)%nat → (length ds2 ≤ j)%nat).
Proof.
  intros H1' H2' Hat Hfuel. inversion H1'; subst.
  - destruct (log_of_full _ _ _ H2') as [off'' H2''].
    eapply (reads_app _ kBlockSize []); [constructor|done..].
  - destruct fs as [|f fs]; [by match goal with F : frags _ _ [] |- _ => apply frags_nonempty in F end|].
    eapply (reads_app _ kBlockSize (d :: ds)); [|done..].
    change (layout 0 (f :: fs)) with (layout kBlockSize (f :: fs)). by econstructor.
Qed.

End reader.
