(* ===== verification/MemEnv.v ===== *)
(** The in-memory environment: leveldb/helpers/memenv/memenv.cc.

    [FileState] keeps a file as blocks of 8 KB; the file classes are handles
    on it.  [InMemoryEnv] maps names to reference-counted file states.  This
    file has the definitions and the proof that a file state behaves as the
    list of its bytes, which makes it an instance of the interfaces of Env.v.

    A [size_t] or [uint64_t] that counts bytes held in memory does not wrap,
    so sizes are integers. *)
From Stdlib Require Import ZArith Lia String.
From stdpp Require Import base option numbers list strings gmap.
From S2P Require Import Prelude Slice Env.
Local Open Scope Z_scope.
Local Open Scope c_scope.

(** ** FileState *)

Module FileState.

Definition kBlockSize : Z := 8 * 1024.

Record t := Mk { refs_ : Z; blocks_ : list (list Z); size_ : Z }.

Definition new : t := Mk 0 [] 0.

Definition Ref (f : t) : t := Mk (refs_ f + 1) (blocks_ f) (size_ f).

(** [None] is the failed [assert(refs_ >= 0)]; the result says whether the
    object deletes itself. *)
Definition Unref (f : t) : option (t * bool) :=
  let refs := refs_ f - 1 in
  if refs <? 0 then None
  else Some (Mk refs (blocks_ f) (size_ f), refs <=? 0).

Definition Size (f : t) : Z := size_ f.

(** [memcpy] of [n] bytes out of a block. *)
Definition block_bytes (b : list Z) (off n : Z) : option (list Z) :=
  if off + n <=? Z.of_nat (length b) then Some (slice b off n) else None.

(** The [while (bytes_to_copy > 0)] loop of [Read]; every iteration copies a
    byte at least. *)
Fixpoint copy_loop (fuel : nat) (f : t) (block block_offset bytes_to_copy : Z) (dst : list Z)
  : option (list Z) :=
  if 0 <? bytes_to_copy then
    match fuel with
    | O => None
    | S fuel =>
        let avail := kBlockSize - block_offset in
        let avail := if bytes_to_copy <? avail then bytes_to_copy else avail in
        b ← (blocks_ f).[block];
        piece ← block_bytes b block_offset avail;
        copy_loop fuel f (block + 1) 0 (bytes_to_copy - avail) (dst ++ piece)
    end
  else Some dst.

(** An error leaves [*result] alone: the bytes are then those it had. *)
Definition Read (f : t) (offset n : Z) (result : list Z) : option (list Z * Status) :=
  if size_ f <? offset then Some (result, IOError "Offset greater than file size.")
  else
    let available := size_ f - offset in
    let n := if available <? n then available else n in
    if n =? 0 then Some ([], OK)
    else
      let block := offset / kBlockSize in
      let block_offset := offset mod kBlockSize in
      if n <=? kBlockSize - block_offset then
        b ← (blocks_ f).[block];
        piece ← block_bytes b block_offset n;
        Some (piece, OK)
      else
        dst ← copy_loop (Z.to_nat n) f block block_offset n [];
        Some (dst, OK).

Section append.
(** What the memory of the [n]-th new block holds. *)
Context (garbage : nat → list Z).

(** [memcpy(blocks_.back() + offset, src, avail)] *)
Definition store_back (blocks : list (list Z)) (offset : Z) (src : list Z)
  : option (list (list Z)) :=
  let i := Z.of_nat (length blocks) - 1 in
  b ← blocks.[i];
  b ← store_bytes b (Z.to_nat offset) src;
  blocks.[i <- b].

Fixpoint append_loop (fuel : nat) (f : t) (src : list Z) : option t :=
  let src_len := Z.of_nat (length src) in
  if 0 <? src_len then
    match fuel with
    | O => None
    | S fuel =>
        let offset := size_ f mod kBlockSize in
        let '(blocks, avail) :=
          if negb (offset =? 0) then (blocks_ f, kBlockSize - offset)
          else (blocks_ f ++ [garbage (length (blocks_ f))], kBlockSize) in
        let avail := if src_len <? avail then src_len else avail in
        blocks ← store_back blocks offset (take (Z.to_nat avail) src);
        append_loop fuel (Mk (refs_ f) blocks (size_ f + avail)) (drop (Z.to_nat avail) src)
    end
  else Some f.

Definition Append (f : t) (data : list Z) : option (t * Status) :=
  f ← append_loop (length data) f data;
  Some (f, OK).

End append.

(** *** A file state is the list of its bytes *)

(** Whole blocks, as many as the size needs. *)
Definition wf (f : t) : Prop :=
  Forall (λ b, length b = Z.to_nat kBlockSize) (blocks_ f) ∧ 0 ≤ size_ f ∧
  Z.of_nat (length (blocks_ f)) = (size_ f + kBlockSize - 1) / kBlockSize.

Definition data (f : t) : list Z := take (Z.to_nat (size_ f)) (concat (blocks_ f)).

Lemma length_concat_blocks f :
  wf f → Z.of_nat (length (concat (blocks_ f))) = Z.of_nat (length (blocks_ f)) * kBlockSize.
Proof.
  intros [Hb _]. induction Hb as [|b bs Hb Hbs IH]; [done|]. cbn [concat].
  rewrite length_app, Hb. cbn [length]. unfold kBlockSize in *. lia.
Qed.

(** The number of blocks, without the rounding division. *)
Lemma blocks_count f :
  wf f → kBlockSize * (Z.of_nat (length (blocks_ f)) - 1) < size_ f ≤
         kBlockSize * Z.of_nat (length (blocks_ f)) ∨ size_ f = 0 ∧ blocks_ f = [].
Proof.
  intros (_ & Hs & Hc). destruct (decide (size_ f = 0)) as [E|E].
  - right. rewrite E in Hc. split; [done|]. apply length_zero_iff_nil. unfold kBlockSize in Hc.
    change ((0 + 8 * 1024 - 1) / (8 * 1024)) with 0 in Hc. lia.
  - left. rewrite Hc. unfold kBlockSize. pose proof (Z.div_mod (size_ f + 8 * 1024 - 1) (8 * 1024)).
    pose proof (Z.mod_pos_bound (size_ f + 8 * 1024 - 1) (8 * 1024)). lia.
Qed.

Lemma length_data f : wf f → Z.of_nat (length (data f)) = size_ f.
Proof.
  intros Hw. pose proof (length_concat_blocks f Hw). pose proof (proj1 (proj2 Hw)).
  unfold data. rewrite length_take.
  destruct (blocks_count f Hw) as [Hc|[E1 E2]]; [lia|]. rewrite E1, E2. done.
Qed.

Lemma data_new : wf new ∧ data new = [].
Proof. split; [|done]. split; [constructor|]. split; [done|]. done. Qed.

Lemma take_concat_last (init : list (list Z)) (b : list Z) (q off : nat) :
  length (concat init) = q → take (q + off) (concat (init ++ [b])) = concat init ++ take off b.
Proof.
  intros <-. rewrite concat_app. cbn [concat]. rewrite app_nil_r. apply take_app_add.
Qed.

(** A file of full blocks [init] and [off] bytes of one more block. *)
Definition ends_with (f : t) (blocks init : list (list Z)) (b : list Z) (off : Z) : Prop :=
  blocks = init ++ [b] ∧ Forall (λ b, length b = Z.to_nat kBlockSize) blocks ∧
  0 ≤ off < kBlockSize ∧ size_ f = kBlockSize * Z.of_nat (length init) + off ∧
  data f = concat init ++ take (Z.to_nat off) b.

Lemma length_concat_full (init : list (list Z)) :
  Forall (λ b, length b = Z.to_nat kBlockSize) init →
  length (concat init) = Z.to_nat (kBlockSize * Z.of_nat (length init)).
Proof.
  induction 1 as [|b bs Hb Hbs IH]; [done|]. cbn [concat length]. rewrite length_app, Hb, IH.
  unfold kBlockSize. lia.
Qed.

Lemma ends_with_take (init : list (list Z)) (b : list Z) off :
  Forall (λ b, length b = Z.to_nat kBlockSize) init → 0 ≤ off →
  take (Z.to_nat (kBlockSize * Z.of_nat (length init) + off)) (concat (init ++ [b])) =
  concat init ++ take (Z.to_nat off) b.
Proof.
  intros Hi Ho. rewrite Z2Nat.inj_add by (unfold kBlockSize; lia).
  apply take_concat_last. by apply length_concat_full.
Qed.

(** Where the next byte goes: in the last block, or in a new one. *)
Lemma append_room garbage f :
  (∀ n, length (garbage n) = Z.to_nat kBlockSize) → wf f →
  ∃ init b, ends_with f
    (if negb (size_ f mod kBlockSize =? 0) then blocks_ f
     else blocks_ f ++ [garbage (length (blocks_ f))]) init b (size_ f mod kBlockSize).
Proof.
  intros Hg Hw. pose proof Hw as (Hb & Hs & _). pose proof (blocks_count f Hw) as Hc.
  pose proof (Z.mod_pos_bound (size_ f) kBlockSize ltac:(done)) as Hm.
  pose proof (Z.div_mod (size_ f) kBlockSize ltac:(done)) as Hd.
  destruct (Z.eqb_spec (size_ f mod kBlockSize) 0) as [E|E]; cbn [negb].
  - assert (size_ f = kBlockSize * Z.of_nat (length (blocks_ f))) as Es.
    { destruct Hc as [Hc|[-> ->]]; [|done]. unfold kBlockSize in *. lia. }
    exists (blocks_ f), (garbage (length (blocks_ f))). split_and!; [done| |lia..|lia|].
    + apply Forall_app. split; [done|]. by constructor.
    + rewrite E. change (take (Z.to_nat 0) _) with (@nil Z). rewrite app_nil_r. unfold data.
      rewrite Es. apply take_ge. by rewrite length_concat_full.
  - destruct Hc as [Hc|[E1 _]]; [|rewrite E1 in E; done].
    destruct (exists_last (l := blocks_ f)) as (init & b & Eb).
    { intros Eb. rewrite Eb in Hc. cbn in Hc. unfold kBlockSize in *. lia. }
    exists init, b. rewrite Eb, length_app in Hc. cbn [length] in Hc.
    assert (size_ f = kBlockSize * Z.of_nat (length init) + size_ f mod kBlockSize) as Es.
    { unfold kBlockSize in *. lia. }
    split_and!; [done|done|lia..|]. unfold data. rewrite Eb, Es at 1.
    apply ends_with_take; [|lia]. rewrite Eb in Hb. by apply Forall_app in Hb as [? _].
Qed.

Lemma store_back_ok init b off src :
  0 ≤ off → off + Z.of_nat (length src) ≤ Z.of_nat (length b) →
  store_back (init ++ [b]) off src =
  Some (init ++ [take (Z.to_nat off) b ++ src ++ drop (Z.to_nat off + length src) b]).
Proof.
  intros Ho Hl. unfold store_back. cbv zeta. rewrite length_app. cbn [length].
  replace (Z.of_nat (length init + 1) - 1) with (Z.of_nat (length init)) by lia.
  rewrite aget_lookup, lookup_app_r, Nat.sub_diag by lia. cbn. unfold store_bytes.
  rewrite bool_decide_true by lia. simpl_bind.
  rewrite aset_in by (rewrite length_app; cbn; lia). by rewrite Nat2Z.id, insert_app_r_alt, Nat.sub_diag by lia.
Qed.

Lemma append_loop_ok garbage fuel f src :
  (∀ n, length (garbage n) = Z.to_nat kBlockSize) → wf f → (length src ≤ fuel)%nat →
  ∃ f', append_loop garbage fuel f src = Some f' ∧ wf f' ∧ data f' = data f ++ src ∧
    refs_ f' = refs_ f.
Proof.
  intros Hg. revert f src. induction fuel as [|fuel IH]; intros f src Hw Hf.
  { destruct src; [|cbn in Hf; lia]. exists f. by rewrite app_nil_r. }
  destruct src as [|x src']; [exists f; by rewrite app_nil_r|]. set (src := x :: src') in *.
  cbn [append_loop]. rewrite (proj2 (Z.ltb_lt _ _)) by (cbn; lia).
  destruct (append_room garbage f Hg Hw) as (init & b & Eb & Hb & Ho & Es & Ed).
  set (off := size_ f mod kBlockSize) in *.
  assert (avail : (if negb (off =? 0) then (blocks_ f, kBlockSize - off)
     else (blocks_ f ++ [garbage (length (blocks_ f))], kBlockSize)) = (init ++ [b], kBlockSize - off)).
  { rewrite <-Eb. destruct (Z.eqb_spec off 0) as [E|]; cbn [negb]; [|done]. by rewrite E, Z.sub_0_r. }
  rewrite avail. rewrite Eb in Hb. clear avail Eb. rewrite Forall_app, Forall_singleton in Hb. destruct Hb as [Hi Hlb].
  set (n := if Z.of_nat (length src) <? kBlockSize - off then Z.of_nat (length src) else kBlockSize - off).
  assert (0 < n ≤ Z.of_nat (length src) ∧ off + n ≤ kBlockSize) as [Hn1 Hn2].
  { unfold n. destruct (Z.ltb_spec (Z.of_nat (length src)) (kBlockSize - off)); cbn [length src] in *; lia. }
  assert (length (take (Z.to_nat n) src) = Z.to_nat n) as Ln by (rewrite length_take; lia).
  rewrite store_back_ok by lia. simpl_bind. rewrite Ln.
  set (b' := take (Z.to_nat off) b ++ take (Z.to_nat n) src ++ drop (Z.to_nat off + Z.to_nat n) b).
  assert (length b' = Z.to_nat kBlockSize) as Lb'.
  { unfold b'. rewrite !length_app, Ln, length_take, length_drop. lia. }
  assert (wf (Mk (refs_ f) (init ++ [b']) (size_ f + n))) as Hw'.
  { split; cbn [blocks_ size_]; [apply Forall_app; split; [done|by constructor]|]. split; [unfold kBlockSize in *; lia|].
    rewrite Es, length_app. cbn [length]. apply (Z.div_unique _ _ _ (off + n - 1)); unfold kBlockSize in *; lia. }
  assert (data (Mk (refs_ f) (init ++ [b']) (size_ f + n)) = data f ++ take (Z.to_nat n) src) as Ed'.
  { unfold data at 1. cbn [blocks_ size_]. rewrite Es, <-Z.add_assoc, ends_with_take, Ed by (done || lia).
    rewrite <-app_assoc. f_equal. unfold b'. rewrite app_assoc. apply take_app_length'.
    rewrite length_app, Ln, length_take. lia. }
  destruct (IH _ (drop (Z.to_nat n) src) Hw') as (f' & E & Hw2 & D2 & R2).
  { rewrite length_drop. cbn [length src] in *. lia. }
  exists f'. split_and!; [done|done| |done]. rewrite D2, Ed', <-app_assoc, take_drop. done.
Qed.

(** Appending extends the bytes. *)
Lemma Append_data garbage f d :
  (∀ n, length (garbage n) = Z.to_nat kBlockSize) → wf f →
  ∃ f', Append garbage f d = Some (f', OK) ∧ wf f' ∧ data f' = data f ++ d ∧ refs_ f' = refs_ f.
Proof.
  intros Hg Hw. unfold Append.
  destruct (append_loop_ok garbage (length d) f d Hg Hw ltac:(lia)) as (f' & -> & ? & ? & ?).
  simpl_bind. by exists f'.
Qed.

Lemma block_bytes_ok (bs : list (list Z)) b k off n :
  Forall (λ b, length b = Z.to_nat kBlockSize) bs → bs.[k] = Some b →
  0 ≤ off → 0 ≤ n → off + n ≤ kBlockSize →
  block_bytes b off n = Some (slice (concat bs) (kBlockSize * k + off) n).
Proof.
  intros Hbs Hk Ho Hn Hl. apply aget_some in Hk as [Hk0 Hk].
  assert (length b = Z.to_nat kBlockSize) as Lb by (exact (Forall_lookup_1 _ _ _ _ Hbs Hk)).
  unfold block_bytes. rewrite (proj2 (Z.leb_le _ _)) by (rewrite Lb; unfold kBlockSize in *; lia).
  f_equal. rewrite <-(take_drop_middle bs _ b Hk), concat_app. cbn [concat].
  assert (length (concat (take (Z.to_nat k) bs)) = Z.to_nat (kBlockSize * k)) as Lq.
  { rewrite length_concat_full by (by apply Forall_take). f_equal. f_equal.
    apply lookup_lt_Some in Hk. rewrite length_take. lia. }
  unfold slice. rewrite Z2Nat.inj_add by (unfold kBlockSize; lia).
  rewrite <-Lq, <-drop_drop, drop_app_length.
  rewrite drop_app_le by (unfold kBlockSize in *; lia). symmetry. apply take_app_le.
  rewrite length_drop, Lb. unfold kBlockSize in *. lia.
Qed.

Lemma copy_loop_ok fuel f k off n dst :
  Forall (λ b, length b = Z.to_nat kBlockSize) (blocks_ f) →
  0 ≤ k → 0 ≤ off < kBlockSize → 0 ≤ n → (Z.to_nat n ≤ fuel)%nat →
  kBlockSize * k + off + n ≤ kBlockSize * Z.of_nat (length (blocks_ f)) →
  copy_loop fuel f k off n dst = Some (dst ++ slice (concat (blocks_ f)) (kBlockSize * k + off) n).
Proof.
  intros Hbs. revert k off n dst.
  induction fuel as [|fuel IH]; intros k off n dst Hk Ho Hn Hf Hl; cbn [copy_loop].
  { replace n with 0 by lia. change (0 <? 0) with false. cbv iota. by rewrite slice_0, app_nil_r. }
  destruct (Z.ltb_spec 0 n) as [Hn0|Hn0]; cycle 1.
  { replace n with 0 by lia. by rewrite slice_0, app_nil_r. }
  set (a := if n <? kBlockSize - off then n else kBlockSize - off).
  assert (0 < a ≤ n ∧ off + a ≤ kBlockSize ∧ (a = n ∨ off + a = kBlockSize)) as (Ha & Hoa & Hor).
  { unfold a. destruct (Z.ltb_spec n (kBlockSize - off)); lia. }
  destruct (aget_in (blocks_ f) k) as [b Hb]; [unfold kBlockSize in *; lia|]. rewrite Hb. simpl_bind.
  rewrite (block_bytes_ok (blocks_ f) b k off a) by (done || lia). simpl_bind.
  rewrite IH by (unfold kBlockSize in *; lia). f_equal. rewrite <-app_assoc. f_equal.
  replace n with (a + (n - a)) at 2 by lia. rewrite slice_app by (unfold kBlockSize in *; lia). f_equal.
  destruct Hor as [->|Hor]; [by rewrite Z.sub_diag, !slice_0|]. f_equal. lia.
Qed.

Lemma data_slice f off n :
  0 ≤ off → 0 ≤ n → off + n ≤ size_ f → slice (data f) off n = slice (concat (blocks_ f)) off n.
Proof.
  intros. unfold slice, data. rewrite skipn_firstn_comm, take_take. f_equal. lia.
Qed.

(** Reading gives the bytes from the offset on, fewer than asked for only at
    the end of the file; past the end it is an error. *)
Lemma Read_data f off n result :
  wf f → 0 ≤ off → 0 ≤ n →
  Read f off n result =
  if size_ f <? off then Some (result, IOError "Offset greater than file size.")
  else Some (slice (data f) off n, OK).
Proof.
  intros Hw Ho Hn. unfold Read. destruct (Z.ltb_spec (size_ f) off) as [|Hle]; [done|]. cbv zeta.
  set (m := if size_ f - off <? n then size_ f - off else n).
  assert (0 ≤ m ∧ off + m ≤ size_ f ∧ slice (data f) off n = slice (data f) off m) as (Hm & Hom & ->).
  { unfold m. destruct (Z.ltb_spec (size_ f - off) n); [|split_and!; lia || done].
    split_and!; [lia..|]. unfold slice. pose proof (length_data f Hw).
    rewrite !take_ge by (rewrite length_drop; lia). done. }
  destruct (Z.eqb_spec m 0) as [->|Hm0]; [by rewrite slice_0|].
  pose proof (Z.div_mod off kBlockSize ltac:(done)) as Hd.
  pose proof (Z.mod_pos_bound off kBlockSize ltac:(done)) as Hmo.
  assert (0 ≤ off / kBlockSize) as Hq by (apply Z.div_pos; unfold kBlockSize; lia).
  assert (size_ f ≤ kBlockSize * Z.of_nat (length (blocks_ f))) as Hsz.
  { destruct (blocks_count f Hw) as [?|[-> ->]]; [lia|done]. }
  pose proof (proj1 Hw) as Hbs. rewrite data_slice by done.
  destruct (Z.leb_spec m (kBlockSize - off mod kBlockSize)) as [Hfit|Hno].
  - destruct (aget_in (blocks_ f) (off / kBlockSize)) as [b Hb]; [unfold kBlockSize in *; lia|].
    rewrite Hb. simpl_bind.
    rewrite (block_bytes_ok (blocks_ f) b (off / kBlockSize) (off mod kBlockSize) m) by (done || lia).
    simpl_bind. by rewrite <-Hd.
  - rewrite copy_loop_ok by (done || lia). simpl_bind. by rewrite <-Hd.
Qed.

End FileState.

(** ** The file classes *)

Module Files.
Import FileState.

Section files.
Context (garbage : nat → list Z).

(** [SequentialFileImpl]: the file state and the position. *)
Record SequentialFileImpl := Seq { seq_file_ : FileState.t; pos_ : Z }.

Definition SequentialFileImpl_Read (s : SequentialFileImpl) (n : Z)
  : option (SequentialFileImpl * (list Z * Status)) :=
  '(result, st) ← FileState.Read (seq_file_ s) (pos_ s) n [];
  let s := if ok st then Seq (seq_file_ s) (pos_ s + Z.of_nat (length result)) else s in
  Some (s, (result, st)).

Definition SequentialFileImpl_Skip (s : SequentialFileImpl) (n : Z)
  : option (SequentialFileImpl * Status) :=
  if Size (seq_file_ s) <? pos_ s then Some (s, IOError "pos_ > file_->Size()")
  else
    let available := Size (seq_file_ s) - pos_ s in
    let n := if available <? n then available else n in
    Some (Seq (seq_file_ s) (pos_ s + n), OK).

(** [RandomAccessFileImpl] and [WritableFileImpl] are their file states. *)
Definition RandomAccessFileImpl_Read (f : FileState.t) (offset n : Z) : option (list Z * Status) :=
  FileState.Read f offset n [].

Definition WritableFileImpl_Append (f : FileState.t) (d : list Z) : option (FileState.t * Status) :=
  FileState.Append garbage f d.

Definition WritableFileImpl_Close (f : FileState.t) : option (FileState.t * Status) := Some (f, OK).
Definition WritableFileImpl_Flush (f : FileState.t) : option (FileState.t * Status) := Some (f, OK).
Definition WritableFileImpl_Sync (f : FileState.t) : option (FileState.t * Status) := Some (f, OK).

End files.

(** They implement the interfaces the log is proved against. *)

#[export] Instance memenv_sequential : SequentialFile SequentialFileImpl :=
  { file_Read := SequentialFileImpl_Read; file_Skip := SequentialFileImpl_Skip }.

#[export] Instance memenv_sequential_laws : SequentialFileLaws SequentialFileImpl.
Proof.
  refine {| readable s := wf (seq_file_ s) ∧ 0 ≤ pos_ s ≤ size_ (seq_file_ s);
            rest s := drop (Z.to_nat (pos_ s)) (data (seq_file_ s)) |}.
  - intros [f p] n [Hw Hp] Hn. cbn [seq_file_ pos_] in *.
    unfold file_Read, memenv_sequential, SequentialFileImpl_Read.
    cbn [seq_file_ pos_]. rewrite Read_data, (proj2 (Z.ltb_ge _ _)) by (done || lia).
    simpl_bind. cbn [ok]. eexists. split; [reflexivity|].
    pose proof (length_data f Hw) as HL. cbn [seq_file_ pos_].
    assert (length (slice (data f) p n) = Nat.min (Z.to_nat n) (length (data f) - Z.to_nat p)) as L
      by (unfold slice; by rewrite length_take, length_drop).
    split; [split; [done|]; lia|]. rewrite drop_drop.
    destruct (decide (p + n ≤ size_ f)); [f_equal; lia|].
    by rewrite !drop_ge by lia.
  - intros [f p] n [Hw Hp] Hn. cbn [seq_file_ pos_] in *.
    unfold file_Skip, memenv_sequential, SequentialFileImpl_Skip, Size.
    cbn [seq_file_ pos_]. rewrite (proj2 (Z.ltb_ge _ _)) by lia. eexists. split; [reflexivity|].
    pose proof (length_data f Hw) as HL. cbn [seq_file_ pos_].
    destruct (Z.ltb_spec (size_ f - p) n); (split; [split; [done|lia]|]); rewrite drop_drop.
    + by rewrite !drop_ge by lia.
    + f_equal. lia.
Defined.

(** [Read] copies to the scratch space only what is in more than one block. *)
Definition copied (f : FileState.t) (offset n : Z) : bool :=
  let available := size_ f - offset in
  let n := if available <? n then available else n in
  negb (n <=? kBlockSize - offset mod kBlockSize).

#[export] Instance memenv_random : RandomAccessFile FileState.t :=
  { file_ReadAt f offset n :=
      '(result, s) ← RandomAccessFileImpl_Read f offset n; Some (result, s, copied f offset n) }.

#[export] Instance memenv_random_laws : RandomAccessFileLaws FileState.t.
Proof.
  refine {| random := wf : FileState.t → Prop; random_contents := data : FileState.t → list Z |}.
  intros f off n Hw Ho Hn. pose proof (length_data f Hw). unfold file_ReadAt, memenv_random, RandomAccessFileImpl_Read.
  rewrite Read_data, (proj2 (Z.ltb_ge _ _)) by (done || lia). simpl_bind. by eexists.
Defined.

Section writable_instance.
Context (garbage : nat → list Z) (Hg : ∀ n, length (garbage n) = Z.to_nat FileState.kBlockSize).

Definition memenv_writable : WritableFile FileState.t :=
  {| file_Append := WritableFileImpl_Append garbage; file_Close := WritableFileImpl_Close;
     file_Flush := WritableFileImpl_Flush; file_Sync := WritableFileImpl_Sync |}.

Definition memenv_writable_laws : WritableFileLaws FileState.t (H := memenv_writable).
Proof using Hg.
  refine {| writable := wf : FileState.t → Prop; contents := data : FileState.t → list Z |}.
  - intros f d Hw. destruct (Append_data garbage f d Hg Hw) as (f' & E & Hw' & D & _).
    exists f', OK, (length d). rewrite firstn_all. by split_and!.
  - intros f Hw. by exists f, OK.
  - intros f Hw. by exists f, OK.
Defined.

Lemma memenv_reliable : Reliable FileState.t (H := memenv_writable).
Proof.
  split; [split|]; cbn.
  - intros f d f' s. unfold WritableFileImpl_Append, Append.
    destruct (append_loop _ _ _ _); cbn; congruence.
  - intros f f' s [= <- <-]. done.
  - intros f f' s [= <- <-]. done.
Qed.

End writable_instance.
End Files.

(** Memory that happens to hold zeros. *)
Definition zero_block (n : nat) : list Z := replicate 8192 0.

Lemma zero_block_length n : length (zero_block n) = Z.to_nat FileState.kBlockSize.
Proof. unfold zero_block. by rewrite length_replicate. Qed.
