(* ===== verification/MemFs.v ===== *)
(** The file system of the in-memory environment: class [InMemoryEnv] of
    leveldb/helpers/memenv/memenv.cc, with the reference counts of its file
    states.

    [heap] has the [FileState] objects by address, [file_map_] the addresses
    by name, [None] being [NULL].  An open file is the address of its file
    state (a sequential file also has its position).  [None] as the result of
    an operation is the use of a null or freed pointer, or a failed [assert]. *)
From Stdlib Require Import ZArith Lia String.
From stdpp Require Import base option numbers list strings gmap fin_maps fin_map_dom sorting.
From S2P Require Import Prelude Slice Env MemEnv.
Local Open Scope Z_scope.

Record InMemoryEnv := MkEnv {
  heap : gmap nat FileState.t;
  file_map_ : gmap string (option nat) }.

Section env.
Context (garbage : nat → list Z).

Definition not_found (fname : string) : Status :=
  IOError (status_message fname "File not found").

(** *** Objects *)

Definition deref (e : InMemoryEnv) (loc : nat) : option FileState.t := heap e !! loc.

Definition set_obj (e : InMemoryEnv) (loc : nat) (f : FileState.t) : InMemoryEnv :=
  MkEnv (<[loc := f]> (heap e)) (file_map_ e).

(** [new FileState()]: some address that is not in use. *)
Definition new_file (e : InMemoryEnv) : nat * InMemoryEnv :=
  let loc := fresh (dom (heap e)) in (loc, set_obj e loc FileState.new).

Definition env_Ref (e : InMemoryEnv) (loc : nat) : option InMemoryEnv :=
  f ← deref e loc; Some (set_obj e loc (FileState.Ref f)).

Definition env_Unref (e : InMemoryEnv) (loc : nat) : option InMemoryEnv :=
  f ← deref e loc;
  '(f, do_delete) ← FileState.Unref f;
  Some (if (do_delete : bool) then MkEnv (delete loc (heap e)) (file_map_ e) else set_obj e loc f).

Definition set_map (e : InMemoryEnv) (m : gmap string (option nat)) : InMemoryEnv :=
  MkEnv (heap e) m.

(** *** Opening and closing *)

(** The constructors of the file classes take a reference, their
    destructors drop it. *)
Definition open_file (e : InMemoryEnv) (ptr : option nat) : option (InMemoryEnv * nat) :=
  loc ← ptr; e ← env_Ref e loc; Some (e, loc).

Definition close_file (e : InMemoryEnv) (loc : nat) : option InMemoryEnv := env_Unref e loc.

Definition NewSequentialFile (e : InMemoryEnv) (fname : string)
  : option (InMemoryEnv * (Status + nat)) :=
  match file_map_ e !! fname with
  | None => Some (e, inl (not_found fname))
  | Some ptr => '(e, loc) ← open_file e ptr; Some (e, inr loc)
  end.

Definition NewRandomAccessFile (e : InMemoryEnv) (fname : string)
  : option (InMemoryEnv * (Status + nat)) :=
  match file_map_ e !! fname with
  | None => Some (e, inl (not_found fname))
  | Some ptr => '(e, loc) ← open_file e ptr; Some (e, inr loc)
  end.

Definition DeleteFileInternal (e : InMemoryEnv) (fname : string) : option InMemoryEnv :=
  match file_map_ e !! fname with
  | None => Some e
  | Some ptr =>
      loc ← ptr;
      e ← env_Unref e loc;
      Some (set_map e (delete fname (file_map_ e)))
  end.

Definition NewWritableFile (e : InMemoryEnv) (fname : string) : option (InMemoryEnv * nat) :=
  e ← (match file_map_ e !! fname with
       | Some _ => DeleteFileInternal e fname
       | None => Some e
       end);
  let '(file, e) := new_file e in
  e ← env_Ref e file;
  let e := set_map e (<[fname := Some file]> (file_map_ e)) in
  open_file e (Some file).

(** [&file_map_[fname]] makes an entry with [NULL] if there is none; the new
    file state is not stored in it. *)
Definition NewAppendableFile (e : InMemoryEnv) (fname : string) : option (InMemoryEnv * nat) :=
  let e := match file_map_ e !! fname with
           | Some _ => e
           | None => set_map e (<[fname := None]> (file_map_ e))
           end in
  ptr ← file_map_ e !! fname;
  '(e, file) ← (match ptr with
                | Some file => Some (e, file)
                | None => let '(file, e) := new_file e in e ← env_Ref e file; Some (e, file)
                end);
  open_file e (Some file).

(** *** Names *)

Definition FileExists (e : InMemoryEnv) (fname : string) : bool :=
  bool_decide (is_Some (file_map_ e !! fname)).

(** [filename.size() >= dir.size() + 1 && filename[dir.size()] == '/' &&
    starts_with(dir)], and [substr] from there. *)
Definition child_of (dir filename : string) : option string :=
  if (String.prefix (dir +:+ "/") filename) then
    Some (String.substring (String.length dir + 1)
            (String.length filename - (String.length dir + 1)) filename)
  else None.

(** The names in the order of the map. *)
Definition GetChildren (e : InMemoryEnv) (dir : string) : list string :=
  omap (child_of dir) (merge_sort (λ a b, String.leb a b) (map_to_list (file_map_ e)).*1).

Definition DeleteFile (e : InMemoryEnv) (fname : string) : option (InMemoryEnv * Status) :=
  match file_map_ e !! fname with
  | None => Some (e, not_found fname)
  | Some _ => e ← DeleteFileInternal e fname; Some (e, OK)
  end.

Definition GetFileSize (e : InMemoryEnv) (fname : string) : option (Status + Z) :=
  match file_map_ e !! fname with
  | None => Some (inl (not_found fname))
  | Some ptr => loc ← ptr; f ← deref e loc; Some (inr (FileState.Size f))
  end.

(** [file_map_[target] = file_map_[src]]: reading [file_map_[src]] makes an
    entry with [NULL] when [DeleteFileInternal] has removed it. *)
Definition RenameFile (e : InMemoryEnv) (src target : string) : option (InMemoryEnv * Status) :=
  match file_map_ e !! src with
  | None => Some (e, not_found src)
  | Some _ =>
      e ← DeleteFileInternal e target;
      let ptr := default None (file_map_ e !! src) in
      let m := <[target := ptr]> (file_map_ e) in
      Some (set_map e (delete src m), OK)
  end.

Definition CreateDir (e : InMemoryEnv) (dirname : string) : InMemoryEnv * Status := (e, OK).
Definition DeleteDir (e : InMemoryEnv) (dirname : string) : InMemoryEnv * Status := (e, OK).
Definition GetTestDirectory : string * Status := ("/test", OK).

(** The destructor drops the reference of every name. *)
Definition destroy_env (e : InMemoryEnv) : option InMemoryEnv :=
  foldr (λ ptr acc, e ← acc; loc ← ptr; env_Unref e loc) (Some e) (map_to_list (file_map_ e)).*2.

(** *** Reading and writing through open files *)

Definition env_Append (e : InMemoryEnv) (loc : nat) (d : list Z) : option (InMemoryEnv * Status) :=
  f ← deref e loc;
  '(f, s) ← Files.WritableFileImpl_Append garbage f d;
  Some (set_obj e loc f, s).

Definition env_Read (e : InMemoryEnv) (loc : nat) (offset n : Z) : option (list Z * Status) :=
  f ← deref e loc;
  Files.RandomAccessFileImpl_Read f offset n.

End env.

(** ** Reference counts *)

(** How often a pointer occurs. *)
Definition ptr_count (L : list (option nat)) (loc : nat) : Z :=
  Z.of_nat (count_occ (λ x y : option nat, decide (x = y)) L (Some loc)).

(** The objects of heap [h] are those the pointers [L] refer to, and each
    knows how many there are; a pointer is null or refers to an object. *)
Definition counted (h : gmap nat FileState.t) (L : list (option nat)) : Prop :=
  (∀ loc, Some loc ∈ L → is_Some (h !! loc)) ∧
  (∀ loc f, h !! loc = Some f →
     FileState.wf f ∧ FileState.refs_ f = ptr_count L loc ∧ 0 < FileState.refs_ f).

(** The bytes of an object. *)
Definition bytes_at (h : gmap nat FileState.t) (loc : nat) : option (list Z) :=
  FileState.data <$> h !! loc.

Lemma ptr_count_cons p L loc :
  ptr_count (p :: L) loc = (if decide (p = Some loc) then 1 else 0) + ptr_count L loc.
Proof. unfold ptr_count. cbn [count_occ]. destruct (decide (p = Some loc)); lia. Qed.

Lemma ptr_count_perm L L' loc : L ≡ₚ L' → ptr_count L loc = ptr_count L' loc.
Proof.
  intros HP. unfold ptr_count. f_equal. revert loc. induction HP as [|x L L' HP IH|x y L|]; intros loc.
  - done.
  - cbn [count_occ]. rewrite IH. done.
  - cbn [count_occ]. destruct (decide (x = _)), (decide (y = _)); done.
  - congruence.
Qed.

#[export] Instance counted_proper h : Proper ((≡ₚ) ==> (↔)) (counted h).
Proof.
  intros L L' HP. unfold counted. split; intros [H1 H2]; split.
  - intros p Hp. apply H1. by rewrite HP.
  - intros loc f Hf. rewrite <-(ptr_count_perm _ _ _ HP). by apply H2.
  - intros p Hp. apply H1. by rewrite <-HP.
  - intros loc f Hf. rewrite (ptr_count_perm _ _ _ HP). by apply H2.
Qed.

Lemma ptr_count_nonneg L loc : 0 ≤ ptr_count L loc.
Proof. unfold ptr_count. lia. Qed.

Lemma ptr_count_pos L loc : 0 < ptr_count L loc ↔ Some loc ∈ L.
Proof.
  unfold ptr_count. rewrite list_elem_of_In.
  rewrite (count_occ_In (λ x y : option nat, decide (x = y))). lia.
Qed.

Lemma counted_live h L loc : counted h L → Some loc ∈ L → ∃ f, h !! loc = Some f.
Proof. intros [Hp _] Hin. exact (Hp _ Hin). Qed.

(** A null pointer is not a reference. *)
Lemma counted_null h L : counted h (None :: L) ↔ counted h L.
Proof.
  unfold counted. setoid_rewrite ptr_count_cons. setoid_rewrite elem_of_cons.
  split; intros [Hp Hh]; (split; [naive_solver|intros loc f Hf; exact (Hh loc f Hf)]).
Qed.

(** Another reference to a live object. *)
Lemma counted_Ref h L loc f :
  counted h L → h !! loc = Some f → counted (<[loc := FileState.Ref f]> h) (Some loc :: L).
Proof.
  intros [Hp Hh] Hf. split.
  - intros l Hin. destruct (decide (loc = l)) as [->|Hne]; [by rewrite lookup_insert_eq|].
    rewrite lookup_insert_ne by done. apply Hp. set_solver.
  - intros l g Hg. rewrite ptr_count_cons. destruct (decide (loc = l)) as [->|Hne].
    + rewrite lookup_insert_eq in Hg. injection Hg as <-. destruct (Hh l f Hf) as (Hw & Hr & H0).
      rewrite decide_True by done. unfold FileState.Ref. cbn. split_and!; [exact Hw|lia|lia].
    + rewrite lookup_insert_ne in Hg by done. rewrite decide_False by congruence. by apply Hh.
Qed.

(** A new object with its first reference. *)
Lemma counted_new h L loc :
  counted h L → h !! loc = None →
  counted (<[loc := FileState.Ref FileState.new]> h) (Some loc :: L).
Proof.
  intros [Hp Hh] Hf. split.
  - intros l Hin. destruct (decide (loc = l)) as [->|Hne]; [by rewrite lookup_insert_eq|].
    rewrite lookup_insert_ne by done. apply Hp. set_solver.
  - intros l g Hg. rewrite ptr_count_cons. destruct (decide (loc = l)) as [->|Hne].
    + rewrite lookup_insert_eq in Hg. injection Hg as <-. rewrite decide_True by done.
      assert (ptr_count L l = 0) as ->.
      { pose proof (ptr_count_nonneg L l). destruct (decide (0 < ptr_count L l)) as [H0|]; [|lia].
        apply ptr_count_pos in H0. destruct (Hp _ H0) as [? ?]. congruence. }
      split_and!; [apply FileState.data_new|done|done].
    + rewrite lookup_insert_ne in Hg by done. rewrite decide_False by congruence. by apply Hh.
Qed.

(** Dropping a reference deletes the object with the last one. *)
Lemma counted_Unref e L loc :
  counted (heap e) (Some loc :: L) →
  ∃ h, env_Unref e loc = Some (MkEnv h (file_map_ e)) ∧ counted h L ∧
    (∀ l, Some l ∈ L → bytes_at h l = bytes_at (heap e) l).
Proof.
  intros [Hp Hh]. destruct (Hp loc) as [f Hf]; [set_solver|].
  destruct (Hh loc f Hf) as (Hw & Hr & H0). rewrite ptr_count_cons, decide_True in Hr by done.
  unfold env_Unref, deref. rewrite Hf. simpl_bind. unfold FileState.Unref. cbv zeta.
  rewrite (proj2 (Z.ltb_ge _ _)) by lia. simpl_bind.
  destruct (Z.leb_spec (FileState.refs_ f - 1) 0) as [Hz|Hz].
  - eexists. split; [reflexivity|].
    assert (Hnin : Some loc ∉ L) by (rewrite <-ptr_count_pos; lia).
    assert (Hdel : ∀ l, Some l ∈ L → delete loc (heap e) !! l = heap e !! l)
      by (intros l Hl; apply lookup_delete_ne; congruence).
    split; [split|].
    + intros l Hin. rewrite Hdel by done. apply Hp. set_solver.
    + intros l g [Hne Hg]%lookup_delete_Some. destruct (Hh l g Hg) as (? & Hr' & ?).
      rewrite ptr_count_cons, decide_False in Hr' by congruence. done.
    + intros l Hl. unfold bytes_at. by rewrite Hdel.
  - eexists. split; [reflexivity|]. unfold set_obj. split; [split|].
    + intros l Hin. destruct (decide (loc = l)) as [->|Hne]; [by rewrite lookup_insert_eq|].
      rewrite lookup_insert_ne by done. apply Hp. set_solver.
    + intros l g Hg. destruct (decide (loc = l)) as [->|Hne].
      * rewrite lookup_insert_eq in Hg. injection Hg as <-. cbn. split_and!; [exact Hw|lia|lia].
      * rewrite lookup_insert_ne in Hg by done. destruct (Hh l g Hg) as (? & Hr' & ?).
        rewrite ptr_count_cons, decide_False in Hr' by congruence. done.
    + intros l _. unfold bytes_at. destruct (decide (loc = l)) as [->|Hne].
      * rewrite lookup_insert_eq, Hf. done.
      * by rewrite lookup_insert_ne.
Qed.

(** ** The invariant of the environment *)

(** The pointers of the names, and those of the open files and of the
    references that [NewAppendableFile] takes and nobody drops, [hs]. *)
Definition refs_to (m : gmap string (option nat)) (hs : list nat) : list (option nat) :=
  (map_to_list m).*2 ++ (Some <$> hs).

Definition env_ok (e : InMemoryEnv) (hs : list nat) : Prop :=
  counted (heap e) (refs_to (file_map_ e) hs) ∧
  (∀ n1 n2 loc, file_map_ e !! n1 = Some (Some loc) → file_map_ e !! n2 = Some (Some loc) → n1 = n2).

(** The bytes of a named file. *)
Definition file_data (e : InMemoryEnv) (n : string) : option (list Z) :=
  ptr ← file_map_ e !! n; loc ← ptr; bytes_at (heap e) loc.

(** The objects that are referred to keep their bytes. *)
Definition same_bytes (e e' : InMemoryEnv) (hs : list nat) : Prop :=
  ∀ l, Some l ∈ refs_to (file_map_ e') hs → bytes_at (heap e') l = bytes_at (heap e) l.

Lemma refs_to_name m hs n ptr : m !! n = Some ptr → ptr ∈ refs_to m hs.
Proof.
  intros Hn. apply elem_of_app. left. apply list_elem_of_fmap. exists (n, ptr).
  split; [done|]. by apply elem_of_map_to_list.
Qed.

Lemma refs_to_handle m hs loc : loc ∈ hs → Some loc ∈ refs_to m hs.
Proof. intros. apply elem_of_app. right. by apply list_elem_of_fmap_2. Qed.

Lemma refs_to_insert m hs n ptr : m !! n = None → refs_to (<[n := ptr]> m) hs ≡ₚ ptr :: refs_to m hs.
Proof. intros. unfold refs_to. by rewrite map_to_list_insert by done. Qed.

Lemma refs_to_delete m hs n ptr : m !! n = Some ptr → refs_to m hs ≡ₚ ptr :: refs_to (delete n m) hs.
Proof. intros. unfold refs_to. by rewrite <-(map_to_list_delete m n ptr) at 1. Qed.

Lemma refs_to_cons m hs loc : refs_to m (loc :: hs) ≡ₚ Some loc :: refs_to m hs.
Proof. unfold refs_to. cbn [fmap list_fmap]. by rewrite Permutation_middle. Qed.

Lemma refs_to_perm m hs hs' : hs ≡ₚ hs' → refs_to m hs ≡ₚ refs_to m hs'.
Proof. intros HP. unfold refs_to. by rewrite HP. Qed.

(** A name bound to a null pointer, as [NewAppendableFile] of a file that
    does not exist leaves it. *)
Definition null_name (e : InMemoryEnv) (n : string) : Prop := file_map_ e !! n = Some None.

#[export] Instance null_name_dec e n : Decision (null_name e n).
Proof. unfold null_name. apply _. Defined.

(** Another name refers to an object. *)
Lemma env_ok_ptr e hs n ptr :
  env_ok e hs → ¬ null_name e n → file_map_ e !! n = Some ptr →
  ∃ loc f, ptr = Some loc ∧ heap e !! loc = Some f.
Proof.
  intros [[Hp _] _] Hnn Hn. destruct ptr as [loc|]; [|done].
  destruct (Hp loc) as [f Hf]; [by eapply refs_to_name|]. by exists loc, f.
Qed.

Lemma env_ok_empty : env_ok (MkEnv ∅ ∅) [].
Proof.
  split; [split|].
  - intros l Hp. unfold refs_to in Hp. cbn in Hp. rewrite map_to_list_empty in Hp. by apply elem_of_nil in Hp.
  - cbn [heap]. by intros loc f ?%lookup_empty_Some.
  - cbn [file_map_]. by intros n1 n2 loc ?%lookup_empty_Some.
Qed.

Lemma bytes_at_Ref h loc f l :
  h !! loc = Some f → bytes_at (<[loc := FileState.Ref f]> h) l = bytes_at h l.
Proof.
  intros Hf. unfold bytes_at. destruct (decide (loc = l)) as [->|Hne].
  - by rewrite lookup_insert_eq, Hf.
  - by rewrite lookup_insert_ne.
Qed.

Lemma open_file_ok e hs n ptr :
  env_ok e hs → ¬ null_name e n → file_map_ e !! n = Some ptr →
  ∃ e' loc, ptr = Some loc ∧ open_file e ptr = Some (e', loc) ∧ env_ok e' (loc :: hs) ∧
    file_map_ e' = file_map_ e ∧ (∀ l, bytes_at (heap e') l = bytes_at (heap e) l).
Proof.
  intros He Hnn Hn. destruct (env_ok_ptr _ _ _ _ He Hnn Hn) as (loc & f & -> & Hf).
  unfold open_file. simpl_bind. unfold env_Ref, deref. rewrite Hf. simpl_bind.
  eexists _, loc. split_and!; [done|reflexivity| |done|].
  - destruct He as [Hc Hi]. split; [|exact Hi]. cbn. rewrite refs_to_cons. by apply counted_Ref.
  - intros l. by apply bytes_at_Ref.
Qed.

Lemma close_file_ok e hs loc :
  env_ok e (loc :: hs) →
  ∃ e', close_file e loc = Some e' ∧ env_ok e' hs ∧ file_map_ e' = file_map_ e ∧
    same_bytes e e' hs.
Proof.
  intros [Hc Hi]. rewrite refs_to_cons in Hc. unfold close_file.
  destruct (counted_Unref e _ loc Hc) as (h & -> & Hc' & Hb).
  eexists. split; [reflexivity|]. split_and!; [by split|done|exact Hb].
Qed.

Lemma DeleteFileInternal_ok e hs n :
  env_ok e hs → ¬ null_name e n →
  ∃ e', DeleteFileInternal e n = Some e' ∧ env_ok e' hs ∧
    file_map_ e' = delete n (file_map_ e) ∧ same_bytes e e' hs.
Proof.
  intros He Hnn. unfold DeleteFileInternal. destruct (file_map_ e !! n) as [ptr|] eqn:Hn; cycle 1.
  { exists e. split_and!; [done|done|by rewrite delete_id|by intros ??]. }
  destruct (env_ok_ptr _ _ _ _ He Hnn Hn) as (loc & f & -> & Hf). simpl_bind. destruct He as [Hc Hi].
  rewrite (refs_to_delete _ _ _ _ Hn) in Hc.
  destruct (counted_Unref e _ loc Hc) as (h & -> & Hc' & Hb). simpl_bind.
  eexists. split; [reflexivity|]. split_and!; [|done|exact Hb].
  split; [exact Hc'|]. cbn. intros n1 n2 l H1 H2.
  apply lookup_delete_Some in H1 as [_ H1]. apply lookup_delete_Some in H2 as [_ H2]. by eapply Hi.
Qed.

Lemma file_data_same e e' hs n :
  same_bytes e e' hs → file_map_ e' !! n = file_map_ e !! n → file_data e' n = file_data e n.
Proof.
  intros Hs Hn. unfold file_data. rewrite <-Hn.
  destruct (file_map_ e' !! n) as [[l|]|] eqn:E; [|done|done]. simpl_bind.
  apply Hs. by eapply refs_to_name.
Qed.

(** *** Creating, renaming, appending *)

Section operations.
Context (garbage : nat → list Z) (Hg : ∀ n, length (garbage n) = Z.to_nat FileState.kBlockSize).

Lemma new_file_ok e hs :
  env_ok e hs →
  ∃ loc e', heap e !! loc = None ∧ new_file e = (loc, e') ∧
    env_Ref e' loc = Some (MkEnv (<[loc := FileState.Ref FileState.new]> (heap e)) (file_map_ e)).
Proof.
  intros He. unfold new_file. eexists _, _. split; [|split; [reflexivity|]].
  - apply not_elem_of_dom, is_fresh.
  - unfold env_Ref, deref, set_obj. cbn [heap file_map_]. rewrite lookup_insert_eq. simpl_bind.
    by rewrite insert_insert_eq.
Qed.

Lemma NewWritableFile_ok e hs n :
  env_ok e hs → ¬ null_name e n →
  ∃ e' loc, NewWritableFile e n = Some (e', loc) ∧ env_ok e' (loc :: hs) ∧
    file_map_ e' = <[n := Some loc]> (file_map_ e) ∧ file_data e' n = Some [] ∧
    (∀ n', n' ≠ n → file_data e' n' = file_data e n') ∧
    (∀ l, l ∈ hs → l ≠ loc ∧ bytes_at (heap e') l = bytes_at (heap e) l).
Proof.
  intros He Hnn. unfold NewWritableFile.
  destruct (DeleteFileInternal_ok e hs n He Hnn) as (e1 & E1 & He1 & M1 & S1).
  assert ((match file_map_ e !! n with Some _ => DeleteFileInternal e n | None => Some e end) = Some e1)
    as ->.
  { destruct (file_map_ e !! n) eqn:Hn; [done|]. unfold DeleteFileInternal in E1. by rewrite Hn in E1. }
  simpl_bind. destruct (new_file_ok e1 hs He1) as (loc & e2 & Hfr & -> & ->). simpl_bind. cbn [file_map_ heap].
  assert (file_map_ e1 !! n = None) as Hn1 by (rewrite M1; apply lookup_delete_eq).
  destruct He1 as [Hc1 Hi1].
  assert (Hlive : ∀ l, Some l ∈ refs_to (file_map_ e1) hs → l ≠ loc).
  { intros l Hl ->. destruct (counted_live _ _ _ Hc1 Hl) as [f Hf]. congruence. }
  set (e3 := set_map _ _).
  assert (He3 : env_ok e3 hs).
  { split; cbn [heap file_map_ e3 set_map].
    - rewrite refs_to_insert by done. by apply counted_new.
    - intros n1 n2 l [[? ?]|[? H1]]%lookup_insert_Some [[? ?]|[? H2]]%lookup_insert_Some;
        subst; simplify_eq; [done|..|by eapply Hi1];
        exfalso; (eapply Hlive; [|reflexivity]); by eapply refs_to_name. }
  destruct (open_file_ok e3 hs n (Some loc) He3) as (e' & ? & [= <-] & -> & He' & M' & B').
  1-2: unfold null_name; cbn; by rewrite lookup_insert_eq.
  assert (Hother : ∀ l, l ≠ loc → bytes_at (heap e') l = bytes_at (heap e1) l).
  { intros l Hl. rewrite B'. cbn. unfold bytes_at. by rewrite lookup_insert_ne by congruence. }
  exists e', loc. split_and!; [done|done| | | |].
  - rewrite M'. cbn. by rewrite M1, insert_delete_eq.
  - unfold file_data. rewrite M'. cbn. rewrite lookup_insert_eq. simpl_bind. rewrite B'. cbn.
    unfold bytes_at. by rewrite lookup_insert_eq.
  - intros n' Hn'. rewrite <-(file_data_same _ _ _ n' S1) by (by rewrite M1, lookup_delete_ne).
    unfold file_data. rewrite M'. cbn. rewrite lookup_insert_ne by done.
    destruct (file_map_ e1 !! n') as [[l|]|] eqn:E; [|done|done]. simpl_bind.
    apply Hother, Hlive. by eapply refs_to_name.
  - intros l Hl. pose proof (refs_to_handle (file_map_ e1) _ _ Hl) as Hl'. split; [by apply Hlive|].
    rewrite Hother by (by apply Hlive). by apply S1.
Qed.

Lemma RenameFile_ok e hs src target :
  env_ok e hs → src ≠ target → is_Some (file_map_ e !! src) → ¬ null_name e target →
  ∃ e', RenameFile e src target = Some (e', OK) ∧ env_ok e' hs ∧
    (∀ n, null_name e' n ↔ (if decide (n = target) then null_name e src
                            else n ≠ src ∧ null_name e n)) ∧
    FileExists e' target = true ∧ FileExists e' src = false ∧
    file_data e' target = file_data e src ∧ file_data e' src = None ∧
    (∀ n, n ≠ src → n ≠ target → file_data e' n = file_data e n).
Proof.
  intros He Hne [ptr Hs] Hnn. unfold RenameFile. rewrite Hs.
  destruct (DeleteFileInternal_ok e hs target He Hnn) as (e1 & -> & He1 & M1 & S1). simpl_bind.
  assert (file_map_ e1 !! src = Some ptr) as Hs1 by (by rewrite M1, lookup_delete_ne).
  rewrite Hs1. change (default None (Some ptr)) with ptr. eexists. split; [reflexivity|].
  assert (Ht1 : file_map_ e1 !! target = None) by (rewrite M1; apply lookup_delete_eq).
  rewrite delete_insert_ne by done.
  assert (Hold : ∀ n, n ≠ target → file_data e1 n = file_data e n).
  { intros n Hn. eapply file_data_same; [done|]. by rewrite M1, lookup_delete_ne. }
  split_and!.
  - destruct He1 as [Hc Hi]. split; cbn [heap file_map_ set_map].
    + rewrite refs_to_insert by (by rewrite lookup_delete_ne). by rewrite <-(refs_to_delete _ _ _ _ Hs1).
    + assert (Hun : ∀ n l, ptr = Some l → delete src (file_map_ e1) !! n = Some (Some l) → False).
      { intros n l -> [Hn H1]%lookup_delete_Some. apply Hn. by eapply Hi. }
      intros n1 n2 l [[? ?]|[? H1]]%lookup_insert_Some [[? ?]|[? H2]]%lookup_insert_Some;
        simplify_eq; [done|exfalso; by eapply Hun|exfalso; by eapply Hun|].
      match goal with A : delete _ _ !! n1 = _, B : delete _ _ !! n2 = _ |- _ =>
        apply lookup_delete_Some in A as [_ A], B as [_ B]; by eapply Hi end.
  - intros n. unfold null_name. cbn [file_map_ set_map]. destruct (decide (n = target)) as [->|Hn].
    + rewrite lookup_insert_eq, Hs. done.
    + rewrite lookup_insert_ne by done. rewrite lookup_delete_Some, M1, lookup_delete_ne by done.
      naive_solver.
  - unfold FileExists. cbn. by rewrite lookup_insert_eq.
  - unfold FileExists. cbn. by rewrite lookup_insert_ne, lookup_delete_eq by done.
  - rewrite <-Hold by done. unfold file_data. cbn [file_map_ set_map heap].
    by rewrite lookup_insert_eq, Hs1.
  - unfold file_data. cbn [file_map_ set_map].
    by rewrite lookup_insert_ne, lookup_delete_eq by done.
  - intros n Hn1 Hn2. rewrite <-Hold by done. unfold file_data. cbn [file_map_ set_map heap].
    by rewrite lookup_insert_ne, lookup_delete_ne by done.
Qed.

(** Renaming a file to its own name deletes it. *)
Lemma RenameFile_self e hs n :
  env_ok e hs → is_Some (file_map_ e !! n) → ¬ null_name e n →
  ∃ e', RenameFile e n n = Some (e', OK) ∧ env_ok e' hs ∧
    file_map_ e' = delete n (file_map_ e) ∧ same_bytes e e' hs.
Proof.
  intros He [ptr Hn] Hnn. unfold RenameFile. rewrite Hn.
  destruct (DeleteFileInternal_ok e hs n He Hnn) as (e1 & -> & He1 & M1 & S1). simpl_bind.
  rewrite M1, lookup_delete_eq, delete_insert_eq, delete_delete_eq. cbn [default].
  assert (set_map e1 (delete n (file_map_ e)) = e1) as -> by (rewrite <-M1; by destruct e1).
  by exists e1.
Qed.

Lemma env_Append_ok e hs loc d :
  env_ok e hs → loc ∈ hs →
  ∃ e', env_Append garbage e loc d = Some (e', OK) ∧ env_ok e' hs ∧ file_map_ e' = file_map_ e ∧
    (∃ b, bytes_at (heap e) loc = Some b ∧ bytes_at (heap e') loc = Some (b ++ d)) ∧
    (∀ l, l ≠ loc → bytes_at (heap e') l = bytes_at (heap e) l).
Proof.
  intros [Hc Hi] Hl. destruct (counted_live _ _ loc Hc) as [f Hf]; [by apply refs_to_handle|].
  unfold env_Append, deref. rewrite Hf. simpl_bind. destruct Hc as [Hp Hh].
  destruct (Hh loc f Hf) as (Hw & Hr & H0). unfold Files.WritableFileImpl_Append.
  destruct (FileState.Append_data garbage f d Hg Hw) as (f' & -> & Hw' & D' & R'). simpl_bind.
  eexists. split; [reflexivity|]. unfold set_obj, bytes_at. cbn [heap file_map_]. split_and!.
  - split; [|exact Hi]. split.
    + intros l Hin. cbn. destruct (decide (loc = l)) as [->|Hne]; [by rewrite lookup_insert_eq|].
      rewrite lookup_insert_ne by done. by apply Hp.
    + intros l g Hg'. cbn in Hg'. destruct (decide (loc = l)) as [->|Hne].
      * rewrite lookup_insert_eq in Hg'. injection Hg' as <-. rewrite R'. done.
      * rewrite lookup_insert_ne in Hg' by done. by apply Hh.
  - done.
  - exists (FileState.data f). by rewrite Hf, lookup_insert_eq; cbn; rewrite D'.
  - intros l Hne. by rewrite lookup_insert_ne by congruence.
Qed.

End operations.

(** ** Runs of the environment *)

(** The operations a client makes, with the open files: opening adds one,
    closing takes one away. *)
Inductive env_step (garbage : nat → list Z) : InMemoryEnv * list nat → InMemoryEnv * list nat → Prop :=
  | step_sequential e hs n e' loc :
      NewSequentialFile e n = Some (e', inr loc) → env_step garbage (e, hs) (e', loc :: hs)
  | step_random e hs n e' loc :
      NewRandomAccessFile e n = Some (e', inr loc) → env_step garbage (e, hs) (e', loc :: hs)
  | step_writable e hs n e' loc :
      NewWritableFile e n = Some (e', loc) → env_step garbage (e, hs) (e', loc :: hs)
  | step_appendable e hs n e' loc :
      NewAppendableFile e n = Some (e', loc) → env_step garbage (e, hs) (e', loc :: hs)
  | step_close e hs loc e' :
      close_file e loc = Some e' → env_step garbage (e, loc :: hs) (e', hs)
  | step_reorder e hs hs' : hs ≡ₚ hs' → env_step garbage (e, hs) (e, hs')
  | step_delete e hs n e' s :
      DeleteFile e n = Some (e', s) → env_step garbage (e, hs) (e', hs)
  | step_rename e hs src target e' s :
      RenameFile e src target = Some (e', s) → env_step garbage (e, hs) (e', hs)
  | step_append e hs loc d e' s :
      loc ∈ hs → env_Append garbage e loc d = Some (e', s) → env_step garbage (e, hs) (e', hs).

Section runs.
Context (garbage : nat → list Z) (Hg : ∀ n, length (garbage n) = Z.to_nat FileState.kBlockSize).

Lemma NewSequentialFile_ok e hs n :
  env_ok e hs → ¬ null_name e n →
  match file_map_ e !! n with
  | None => NewSequentialFile e n = Some (e, inl (not_found n))
  | Some ptr => ∃ e' loc, ptr = Some loc ∧ NewSequentialFile e n = Some (e', inr loc) ∧
      env_ok e' (loc :: hs) ∧ file_map_ e' = file_map_ e ∧
      (∀ l, bytes_at (heap e') l = bytes_at (heap e) l)
  end.
Proof.
  intros He Hnn. unfold NewSequentialFile. destruct (file_map_ e !! n) as [ptr|] eqn:Hn; [|done].
  destruct (open_file_ok e hs n ptr He Hnn Hn) as (e' & loc & -> & -> & ? & ? & ?).
  exists e', loc. by split_and!.
Qed.

Lemma GetFileSize_ok e hs n :
  env_ok e hs → ¬ null_name e n →
  GetFileSize e n = Some (match file_data e n with
                          | Some b => inr (Z.of_nat (length b)) | None => inl (not_found n) end).
Proof.
  intros He Hnn. unfold GetFileSize, file_data. destruct (file_map_ e !! n) as [ptr|] eqn:Hn; [|done].
  destruct (env_ok_ptr _ _ _ _ He Hnn Hn) as (loc & f & -> & Hf). simpl_bind. unfold deref, bytes_at.
  rewrite Hf. simpl_bind. destruct He as [[_ Hh] _]. destruct (Hh loc f Hf) as [Hw _].
  cbn [fmap option_fmap option_map]. by rewrite (FileState.length_data f Hw).
Qed.

(** The new file state of a name that has none is not stored: the name is
    bound to null, and the first reference of the file state is leaked. *)
Lemma NewAppendableFile_ok e hs n :
  env_ok e hs →
  ∃ e' loc, NewAppendableFile e n = Some (e', loc) ∧
    match file_map_ e !! n with
    | Some (Some l) => loc = l ∧ env_ok e' (loc :: hs) ∧ file_map_ e' = file_map_ e ∧
        (∀ l, bytes_at (heap e') l = bytes_at (heap e) l)
    | _ => heap e !! loc = None ∧ env_ok e' (loc :: loc :: hs) ∧
        file_map_ e' = <[n := None]> (file_map_ e) ∧ bytes_at (heap e') loc = Some [] ∧
        (∀ l, l ≠ loc → bytes_at (heap e') l = bytes_at (heap e) l)
    end.
Proof.
  intros He. destruct (file_map_ e !! n) as [[l|]|] eqn:Hn.
  { unfold NewAppendableFile. rewrite Hn, Hn. simpl_bind.
    destruct (open_file_ok e hs n (Some l) He) as (e' & ? & [= <-] & -> & ? & ? & ?);
      [unfold null_name; congruence|done|]. by exists e', l. }
  all: set (e0 := set_map e (<[n := None]> (file_map_ e))).
  all: assert (E0 : NewAppendableFile e n =
    let '(file, e1) := new_file e0 in e2 ← env_Ref e1 file; open_file e2 (Some file)).
  1: assert (e0 = e) as -> by (unfold e0, set_map; rewrite insert_id by done; by destruct e);
    unfold NewAppendableFile; rewrite !Hn.
  3: unfold NewAppendableFile; rewrite Hn; cbv zeta; fold e0;
    assert (file_map_ e0 !! n = Some None) as -> by (apply lookup_insert_eq).
  1,3: simpl_bind; unfold new_file; by destruct (env_Ref _ _).
  all: assert (He0 : env_ok e0 hs).
  1,3: destruct He as [Hc Hi]; split; cbn [heap file_map_ e0 set_map];
    [|intros n1 n2 l [[? ?]|[? H1]]%lookup_insert_Some [[? ?]|[? H2]]%lookup_insert_Some;
      simplify_eq; by eapply Hi].
  1: by rewrite insert_id.
  1: rewrite refs_to_insert by done; by rewrite counted_null.
  all: rewrite E0; destruct (new_file_ok e0 hs He0) as (loc & e1 & Hfr & -> & ->); simpl_bind.
  all: cbn [heap file_map_ e0 set_map] in Hfr |- *.
  all: unfold open_file; simpl_bind; unfold env_Ref, deref; cbn [heap file_map_];
    rewrite lookup_insert_eq; simpl_bind; eexists _, loc; split; [reflexivity|].
  all: unfold set_obj; cbn [heap file_map_]; split_and!; [done| |done| |].
  1,4: destruct He0 as [Hc Hi]; split; [|exact Hi]; cbn [heap file_map_ e0 set_map] in Hc |- *;
    rewrite !refs_to_cons; apply counted_Ref; [by apply counted_new|apply lookup_insert_eq].
  1,3: unfold bytes_at; by rewrite lookup_insert_eq.
  all: intros l Hl; unfold bytes_at; by rewrite !lookup_insert_ne by congruence.
Qed.

Lemma DeleteFile_ok e hs n :
  env_ok e hs → ¬ null_name e n →
  ∃ e', DeleteFile e n = Some (e', if FileExists e n then OK else not_found n) ∧ env_ok e' hs ∧
    file_map_ e' = delete n (file_map_ e) ∧ same_bytes e e' hs.
Proof.
  intros He Hnn. unfold DeleteFile, FileExists. destruct (file_map_ e !! n) as [ptr|] eqn:Hn.
  - destruct (DeleteFileInternal_ok e hs n He Hnn) as (e' & -> & ? & ? & ?). simpl_bind. by exists e'.
  - exists e. split_and!; [done|done|by rewrite delete_id|by intros ??].
Qed.

(** What uses a name bound to null dereferences the null pointer. *)
Lemma null_name_fails e n :
  null_name e n →
  NewSequentialFile e n = None ∧ NewRandomAccessFile e n = None ∧ NewWritableFile e n = None ∧
  DeleteFile e n = None ∧ GetFileSize e n = None ∧
  (∀ src, FileExists e src = true → RenameFile e src n = None).
Proof.
  intros Hn. unfold NewSequentialFile, NewRandomAccessFile, NewWritableFile, DeleteFile, GetFileSize,
    RenameFile, DeleteFileInternal, FileExists. unfold null_name in Hn. rewrite !Hn. split_and!; try done.
  intros src [ptr ->]%bool_decide_eq_true_1. done.
Qed.

(** The destructor of the environment. *)
Lemma destroy_names h m ps L :
  counted h (ps ++ L) → None ∉ ps →
  ∃ h', foldr (λ ptr acc, e ← acc; loc ← ptr; env_Unref e loc) (Some (MkEnv h m)) ps
        = Some (MkEnv h' m) ∧ counted h' L.
Proof.
  revert L. induction ps as [|p ps IH]; intros L Hc Hn; [by exists h|].
  apply not_elem_of_cons in Hn as [Hp Hn]. destruct p as [loc|]; [|done].
  destruct (IH (Some loc :: L)) as (h1 & E1 & Hc1); [|done|].
  { by rewrite <-Permutation_middle. }
  cbn [foldr]. rewrite E1. simpl_bind.
  destruct (counted_Unref (MkEnv h1 m) L loc Hc1) as (h' & -> & Hc' & _). by exists h'.
Qed.

Lemma destroy_env_ok e hs :
  env_ok e hs → (∀ n, ¬ null_name e n) →
  ∃ e', destroy_env e = Some e' ∧ counted (heap e') (Some <$> hs).
Proof.
  intros [Hc _] Hnn. destruct e as [h m]. cbn [heap file_map_] in *. unfold destroy_env. cbn [file_map_].
  destruct (destroy_names h m _ _ Hc) as (h' & -> & Hc').
  - intros ([n ptr] & Hp & Hin)%list_elem_of_fmap. apply elem_of_map_to_list in Hin.
    apply (Hnn n). unfold null_name. cbn in *. by subst.
  - by eexists.
Qed.

Lemma env_ok_perm e hs hs' : hs ≡ₚ hs' → env_ok e hs → env_ok e hs'.
Proof. intros HP [Hc Hi]. split; [|done]. by rewrite <-(refs_to_perm _ _ _ HP). Qed.

(** The invariant of a client's open files: [leaked] are the references that
    [NewAppendableFile] took for the names it left bound to null. *)
Definition env_inv (s : InMemoryEnv * list nat) : Prop := ∃ leaked, env_ok s.1 (s.2 ++ leaked).

Lemma env_step_inv s s' : env_step garbage s s' → env_inv s → env_inv s'.
Proof using Hg.
  destruct 1 as [e hs n e' loc E|e hs n e' loc E|e hs n e' loc E|e hs n e' loc E|e hs loc e' E
    |e hs hs' HP|e hs n e' s E|e hs src target e' s E|e hs loc d e' s Hl E];
    intros [lk He]; cbn [fst snd] in He |- *; unfold env_inv; cbn [fst snd].
  1,2,3,7: pose proof (null_name_fails e n) as Hf;
    destruct (decide (null_name e n)) as [Hn|Hn];
    [destruct (Hf Hn) as (?&?&?&?&?&?); congruence|clear Hf].
  - exists lk. pose proof (NewSequentialFile_ok e _ n He Hn) as H. destruct (file_map_ e !! n); [|congruence].
    destruct H as (? & ? & _ & ? & ? & _). by simplify_eq.
  - exists lk. pose proof (NewSequentialFile_ok e _ n He Hn) as H. change (NewRandomAccessFile e n) with
      (NewSequentialFile e n) in E. destruct (file_map_ e !! n); [|congruence].
    destruct H as (? & ? & _ & ? & ? & _). by simplify_eq.
  - exists lk. destruct (NewWritableFile_ok e _ n He Hn) as (? & ? & ? & ? & _). by simplify_eq.
  - exists lk. destruct (DeleteFile_ok e _ n He Hn) as (? & ? & ? & _). by simplify_eq.
  - destruct (NewAppendableFile_ok e _ n He) as (? & ? & E' & H). rewrite E in E'. injection E' as <- <-.
    destruct (file_map_ e !! n) as [[l|]|].
    + exists lk. apply H.
    + destruct H as (_ & H & _). exists (loc :: lk). eapply env_ok_perm; [|exact H].
      cbn. by rewrite Permutation_middle.
    + destruct H as (_ & H & _). exists (loc :: lk). eapply env_ok_perm; [|exact H].
      cbn. by rewrite Permutation_middle.
  - exists lk. destruct (close_file_ok e (hs ++ lk) loc He) as (? & ? & ? & _). by simplify_eq.
  - exists lk. eapply env_ok_perm; [|exact He]. by rewrite HP.
  - exists lk. destruct (file_map_ e !! src) eqn:Hs; cycle 1.
    { unfold RenameFile in E. rewrite Hs in E. by simplify_eq. }
    destruct (decide (null_name e target)) as [Hn|Hn].
    { destruct (null_name_fails e target Hn) as (_&_&_&_&_&H). rewrite H in E; [done|].
      unfold FileExists. by rewrite Hs. }
    destruct (decide (src = target)) as [->|Hne].
    + destruct (RenameFile_self e _ target He) as (? & ? & ? & _); [by rewrite Hs|done|]. by simplify_eq.
    + destruct (RenameFile_ok e _ src target He Hne) as (? & ? & ? & _); [by rewrite Hs|done|]. by simplify_eq.
  - exists lk. destruct (env_Append_ok garbage Hg e (hs ++ lk) loc d He) as (? & ? & ? & _).
    { apply elem_of_app. by left. } by simplify_eq.
Qed.

Lemma reachable_inv e hs : rtc (env_step garbage) (MkEnv ∅ ∅, []) (e, hs) → env_inv (e, hs).
Proof using Hg.
  intros Hr. remember (MkEnv ∅ ∅, []) as s0 eqn:E0.
  assert (env_inv s0) as H0 by (subst; exists []; apply env_ok_empty).
  clear E0. induction Hr; eauto using env_step_inv.
Qed.

(** Only [NewAppendableFile] of a file that does not exist binds a name to
    null. *)
Lemma env_step_null s s' :
  env_step garbage s s' → env_inv s → (∀ n, ¬ null_name s.1 n) →
  (∀ n, ¬ null_name s'.1 n) ∨
  ∃ n loc, FileExists s.1 n = false ∧ NewAppendableFile s.1 n = Some (s'.1, loc).
Proof using Hg.
  destruct 1 as [e hs n e' loc E|e hs n e' loc E|e hs n e' loc E|e hs n e' loc E|e hs loc e' E
    |e hs hs' HP|e hs n e' s E|e hs src target e' s E|e hs loc d e' s Hl E];
    intros [lk He] Hnn; cbn [fst snd] in *.
  - left. intros n'. pose proof (NewSequentialFile_ok e _ n He (Hnn n)) as H.
    destruct (file_map_ e !! n); [|congruence]. destruct H as (? & ? & _ & ? & _ & M & _). simplify_eq.
    unfold null_name. rewrite M. apply Hnn.
  - left. intros n'. pose proof (NewSequentialFile_ok e _ n He (Hnn n)) as H.
    change (NewRandomAccessFile e n) with (NewSequentialFile e n) in E.
    destruct (file_map_ e !! n); [|congruence]. destruct H as (? & ? & _ & ? & _ & M & _). simplify_eq.
    unfold null_name. rewrite M. apply Hnn.
  - left. intros n'. destruct (NewWritableFile_ok e _ n He (Hnn n)) as (? & ? & ? & _ & M & _). simplify_eq.
    unfold null_name. rewrite M. intros [[? ?]|[_ ?]]%lookup_insert_Some; [done|by eapply Hnn].
  - destruct (NewAppendableFile_ok e _ n He) as (? & ? & E' & H). rewrite E in E'. injection E' as <- <-.
    destruct (file_map_ e !! n) as [[l|]|] eqn:Hn.
    + left. destruct H as (_ & _ & M & _). unfold null_name. by rewrite M.
    + by destruct (Hnn n).
    + right. exists n, loc. split; [|done]. unfold FileExists. by rewrite Hn.
  - left. destruct (close_file_ok e (hs ++ lk) loc He) as (? & ? & _ & M & _). simplify_eq.
    unfold null_name. by rewrite M.
  - by left.
  - left. intros n'. destruct (DeleteFile_ok e _ n He (Hnn n)) as (? & ? & _ & M & _). simplify_eq.
    unfold null_name. rewrite M. intros [_ ?]%lookup_delete_Some. by eapply Hnn.
  - left. intros n. destruct (file_map_ e !! src) eqn:Hs; cycle 1.
    { unfold RenameFile in E. rewrite Hs in E. by simplify_eq. }
    destruct (decide (src = target)) as [->|Hne].
    + destruct (RenameFile_self e _ target He) as (? & ? & _ & M & _); [by rewrite Hs|done|]. simplify_eq.
      unfold null_name. rewrite M. intros [_ ?]%lookup_delete_Some. by eapply Hnn.
    + destruct (RenameFile_ok e _ src target He Hne) as (? & ? & _ & M & _); [by rewrite Hs|done|].
      simplify_eq. rewrite M. destruct (decide (n = target)); [by apply Hnn|intros [_ ?]; by eapply Hnn].
  - left. destruct (env_Append_ok garbage Hg e (hs ++ lk) loc d He) as (? & ? & _ & M & _).
    { apply elem_of_app. by left. } simplify_eq. unfold null_name. by rewrite M.
Qed.

Lemma env_Append_map e loc d e' s :
  env_Append garbage e loc d = Some (e', s) → file_map_ e' = file_map_ e.
Proof.
  unfold env_Append. destruct (deref e loc); simpl_bind; [|done].
  destruct (Files.WritableFileImpl_Append _ _ _) as [[??]|]; simpl_bind; [|done]. by intros [= <- <-].
Qed.

End runs.



(** C27. The environment is a file system.  [NewWritableFile] makes an empty
    file under its name; [NewSequentialFile] opens the bytes of a file, and
    [NewAppendableFile] those of a file that exists; [Append] extends the bytes
    of the open file, whether it still has a name or not; [RenameFile] moves a
    file to another name, replacing what had it; [DeleteFile] removes a name;
    none of them changes another file, and an open file keeps its bytes when
    its name is deleted or taken by a new file; reading gives the bytes at the
    offset.  The names these operations open, replace or delete are not bound
    to null.  The two cases that are not a file system's are stated as well:
    [NewAppendableFile] of a file that does not exist leaves the name bound to
    null, apart from the empty file it opens (memenv.cc:285), and [RenameFile]
    of a file to its own name reports OK and removes the file (memenv.cc:361). *)
Theorem memfs_files (garbage : nat → list Z) (e : InMemoryEnv) (hs : list nat) :
  (∀ n, length (garbage n) = Z.to_nat FileState.kBlockSize) → env_ok e hs →
  (∀ n, ¬ null_name e n →
     ∃ e' loc, NewWritableFile e n = Some (e', loc) ∧ env_ok e' (loc :: hs) ∧
       file_map_ e' = <[n := Some loc]> (file_map_ e) ∧ file_data e' n = Some [] ∧
       (∀ n', n' ≠ n → file_data e' n' = file_data e n') ∧
       (∀ l, l ∈ hs → l ≠ loc ∧ bytes_at (heap e') l = bytes_at (heap e) l)) ∧
  (∀ n b, file_data e n = Some b →
     (∃ e' loc, NewSequentialFile e n = Some (e', inr loc) ∧ env_ok e' (loc :: hs) ∧
        file_map_ e' = file_map_ e ∧ bytes_at (heap e') loc = Some b ∧
        (∀ l, bytes_at (heap e') l = bytes_at (heap e) l)) ∧
     (∃ e' loc, NewAppendableFile e n = Some (e', loc) ∧ env_ok e' (loc :: hs) ∧
        file_map_ e' = file_map_ e ∧ bytes_at (heap e') loc = Some b ∧
        (∀ l, bytes_at (heap e') l = bytes_at (heap e) l))) ∧
  (∀ loc d, loc ∈ hs →
     ∃ e' b, env_Append garbage e loc d = Some (e', OK) ∧ env_ok e' hs ∧
       bytes_at (heap e) loc = Some b ∧ bytes_at (heap e') loc = Some (b ++ d) ∧
       (∀ l, l ≠ loc → bytes_at (heap e') l = bytes_at (heap e) l) ∧
       (∀ n, file_data e' n = if decide (file_map_ e !! n = Some (Some loc)) then Some (b ++ d)
                              else file_data e n)) ∧
  (∀ src target, src ≠ target → FileExists e src = true → ¬ null_name e target →
     ∃ e', RenameFile e src target = Some (e', OK) ∧ env_ok e' hs ∧
       FileExists e' target = true ∧ FileExists e' src = false ∧
       file_data e' target = file_data e src ∧ file_data e' src = None ∧
       (∀ n, n ≠ src → n ≠ target → file_data e' n = file_data e n)) ∧
  (∀ n, ¬ null_name e n →
     ∃ e', DeleteFile e n = Some (e', if FileExists e n then OK else not_found n) ∧
       env_ok e' hs ∧ file_data e' n = None ∧ (∀ n', n' ≠ n → file_data e' n' = file_data e n') ∧
       (∀ l, l ∈ hs → bytes_at (heap e') l = bytes_at (heap e) l)) ∧
  (∀ loc b off n, bytes_at (heap e) loc = Some b → 0 ≤ off ≤ Z.of_nat (length b) → 0 ≤ n →
     env_Read e loc off n = Some (slice b off n, OK)) ∧
  (∀ n, FileExists e n = false →
     ∃ e' loc, NewAppendableFile e n = Some (e', loc) ∧ env_ok e' (loc :: loc :: hs) ∧
       null_name e' n ∧ bytes_at (heap e') loc = Some []) ∧
  (∀ n, FileExists e n = true → ¬ null_name e n →
     ∃ e', RenameFile e n n = Some (e', OK) ∧ env_ok e' hs ∧ FileExists e' n = false).
Proof.
  intros Hg He. split_and!.
  - intros n Hn. destruct (NewWritableFile_ok e hs n He Hn) as (e' & loc & ? & He' & M & D & ? & Hb).
    exists e', loc. split_and!; done.
  - intros n b Hb. unfold file_data in Hb. destruct (file_map_ e !! n) as [[l|]|] eqn:Hn; [|done..].
    cbn in Hb. assert (¬ null_name e n) as Hnn by (unfold null_name; congruence). split.
    + pose proof (NewSequentialFile_ok e hs n He Hnn) as H. rewrite Hn in H.
      destruct H as (e' & loc & [= <-] & ? & ? & ? & B). exists e', l. split_and!; try done. by rewrite B.
    + destruct (NewAppendableFile_ok e hs n He) as (e' & loc & ? & H). rewrite Hn in H.
      destruct H as (-> & ? & ? & B). exists e', l. split_and!; try done. by rewrite B.
  - intros loc d Hl.
    destruct (env_Append_ok garbage Hg e hs loc d He Hl) as (e' & ? & He' & M & (b & B1 & B2) & Bo).
    exists e', b. split_and!; try done. intros n. unfold file_data. rewrite M.
    destruct (file_map_ e !! n) as [[l|]|] eqn:E; simpl_bind; [|done..].
    destruct (decide _) as [[= ->]|Hne]; [done|]. apply Bo. congruence.
  - intros src target Hne Hx%bool_decide_eq_true_1 Hn.
    destruct (RenameFile_ok e hs src target He Hne Hx Hn) as (e' & ? & ? & _ & ?). by exists e'.
  - intros n Hn. destruct (DeleteFile_ok e hs n He Hn) as (e' & ? & He' & M & S).
    exists e'. split_and!; [done|done| | |].
    + unfold file_data. by rewrite M, lookup_delete_eq.
    + intros n' Hne. eapply file_data_same; [done|]. by rewrite M, lookup_delete_ne.
    + intros l Hl. apply S. by apply refs_to_handle.
  - intros loc b off n Hb Ho Hn. unfold bytes_at in Hb. unfold env_Read, deref.
    destruct (heap e !! loc) as [f|] eqn:Hf; [|done]. injection Hb as <-. simpl_bind.
    destruct He as [[_ Hh] _]. destruct (Hh loc f Hf) as (Hw & _).
    pose proof (FileState.length_data f Hw). unfold Files.RandomAccessFileImpl_Read.
    rewrite FileState.Read_data, (proj2 (Z.ltb_ge _ _)) by (done || lia). done.
  - intros n Hx. apply bool_decide_eq_false_1 in Hx. rewrite <-eq_None_not_Some in Hx.
    destruct (NewAppendableFile_ok e hs n He) as (e' & loc & ? & H). rewrite Hx in H.
    destruct H as (_ & ? & M & ? & _). exists e', loc. split_and!; try done.
    unfold null_name. by rewrite M, lookup_insert_eq.
  - intros n Hx%bool_decide_eq_true_1 Hn.
    destruct (RenameFile_self e hs n He Hx Hn) as (e' & ? & ? & M & _). exists e'. split_and!; try done.
    unfold FileExists. by rewrite M, lookup_delete_eq.
Qed.

(** In an environment with a file "a" of three bytes that is open: the file
    moves to "b" with its bytes, is appended to after it is deleted, and goes
    away when it is renamed to "a". *)
Lemma memfs_files_witness :
  ∃ e loc, file_data e "a" = Some [1; 2; 3] ∧
    (∃ e', RenameFile e "a" "b" = Some (e', OK) ∧ file_data e' "b" = Some [1; 2; 3] ∧
       file_data e' "a" = None) ∧
    (∃ e' e'', DeleteFile e "a" = Some (e', OK) ∧ env_Append zero_block e' loc [4] = Some (e'', OK) ∧
       bytes_at (heap e'') loc = Some [1; 2; 3; 4]) ∧
    (∃ e', RenameFile e "a" "a" = Some (e', OK) ∧ FileExists e' "a" = false).
Proof.
  destruct (memfs_files zero_block (MkEnv ∅ ∅) [] zero_block_length env_ok_empty) as [Hw _].
  destruct (Hw "a"%string) as (e1 & loc & _ & He1 & M1 & D1 & _); [by vm_compute|].
  destruct (memfs_files zero_block e1 [loc] zero_block_length He1) as (_ & _ & Ha & _).
  destruct (Ha loc [1; 2; 3]) as (e & b & EA & He & Hb & Hb' & _ & D); [set_solver|].
  assert (file_map_ e1 !! "a"%string = Some (Some loc)) as Hm1 by (rewrite M1; reflexivity).
  assert (b = []) as ->.
  { unfold file_data in D1. rewrite Hm1 in D1. change (bytes_at (heap e1) loc = Some []) in D1. congruence. }
  assert (file_data e "a" = Some [1; 2; 3]) as Da by (rewrite D; by rewrite decide_True).
  assert (file_map_ e = file_map_ e1) as Hm by (by eapply env_Append_map).
  assert (Hx : FileExists e "a" = true) by (unfold FileExists; rewrite Hm, Hm1; reflexivity).
  assert (Hn : ∀ n, ¬ null_name e n).
  { intros n. unfold null_name. rewrite Hm, M1. by intros [[_ ?]|[_ ?]]%lookup_insert_Some. }
  destruct (memfs_files zero_block e [loc] zero_block_length He) as (_ & _ & _ & Hr & Hd & _ & _ & Hs).
  exists e, loc. split; [exact Da|]. split; [|split].
  - destruct (Hr "a"%string "b"%string) as (e' & E & _ & _ & _ & R1 & R2 & _); [done|exact Hx|apply Hn|].
    exists e'. split; [exact E|]. by rewrite R1.
  - destruct (Hd "a"%string (Hn _)) as (e' & E & He' & _ & _ & Hk). rewrite Hx in E.
    destruct (memfs_files zero_block e' [loc] zero_block_length He') as (_ & _ & Ha' & _).
    destruct (Ha' loc [4]) as (e'' & b & E2 & _ & Hb1 & Hb2 & _); [set_solver|].
    exists e', e''. split; [exact E|]. split; [exact E2|].
    rewrite (Hk loc) in Hb1 by set_solver. rewrite Hb2. rewrite Hb' in Hb1. by injection Hb1 as <-.
  - destruct (Hs "a"%string Hx (Hn _)) as (e' & E & _ & E2). by exists e'.
Defined.
