(* ===== verification/LogTheorems.v ===== *)
(** What the log promises: records come back, also after a crash that cut the
    file; damaged records do not. *)

From Stdlib Require Import ZArith Lia String.
From stdpp Require Import base option numbers list strings.
From S2P Require Import Prelude Slice CrcTheory Coding Crc32c Env Log LogSpec MemEnv.

Local Open Scope Z_scope.
Local Open Scope c_scope.

Lemma new_Writer_ok `{WritableFileLaws W} `{Crc32cLaws} mem f :
  length mem = 5%nat → writable f →
  ∃ w, new_Writer mem f = Some w ∧ writer_ok w ∧ dest_ w = f ∧ block_offset_ w = 0.
Proof.
  intros Hm Hf. unfold new_Writer.
  destruct (succeeds_elim _ _ (InitTypeCrc_ok mem Hm)) as (tc & -> & Htc). simpl_bind.
  exists (MkWriter f 0 tc). by split_and!.
Qed.

(** A log reopened for appending goes on where the file ends. *)
Lemma new_Writer_at_ok `{WritableFileLaws W} `{Crc32cLaws} mem f len :
  length mem = 5%nat → writable f →
  ∃ w, new_Writer_at mem f len = Some w ∧ writer_ok w ∧ dest_ w = f ∧
    block_offset_ w = len mod kBlockSize.
Proof.
  intros Hm Hf. unfold new_Writer_at.
  destruct (succeeds_elim _ _ (InitTypeCrc_ok mem Hm)) as (tc & -> & Htc). simpl_bind.
  pose proof (Z.mod_pos_bound len kBlockSize ltac:(done)) as Hm'.
  exists (MkWriter f (len mod kBlockSize) tc). split_and!; [done| |done|done].
  split_and!; [done|..|done]; cbn [block_offset_]; lia.
Qed.

(** C9. A log survives a crash.  The records [ds1] and then [ds2] are
    written to an empty file.  Whatever prefix of the file is left, if it has
    all that was in it after [ds1], reading it from the beginning returns all
    of [ds1] followed by a prefix of [ds2], all of [ds2] if nothing was lost,
    then the end of the file; no corruption is reported.  Every call returns, with the fuel the file's length gives. *)
Theorem log_durable `{WritableFileLaws W} `{!Reliable W} `{SequentialFileLaws R}
    `{Crc32cLaws} `{Port} (f : W) (mem : list Z) (ds1 ds2 : list (list Z)) :
  writable f → contents f = [] → length mem = 5%nat → Forall bytes (ds1 ++ ds2) →
  ∃ w0 w1 w2,
    new_Writer mem f = Some w0 ∧ add_records w0 ds1 = Some w1 ∧ add_records w1 ds2 = Some w2 ∧
    writable (dest_ w2) ∧
    ∀ (g : R) (reporter checksum : bool) (k n fuel : nat),
      readable g → rest g = take k (contents (dest_ w2)) →
      (length (contents (dest_ w1)) ≤ k)%nat →
      (length (contents (dest_ w2)) < fuel)%nat → (length (ds1 ++ ds2) < n)%nat →
      ∃ r j, read_all n fuel (new_Reader g reporter checksum 0) = Some (r, ds1 ++ take j ds2) ∧
        reports r = [] ∧ ((length (contents (dest_ w2)) ≤ k)%nat → take j ds2 = ds2).
Proof.
  intros Hf Hc Hm Hds. apply Forall_app in Hds as [Hds1 Hds2].
  destruct (new_Writer_ok mem f Hm Hf) as (w0 & E0 & Hw0 & D0 & O0).
  destruct (add_records_ok w0 ds1 Hw0 Hds1) as (w1 & out1 & E1 & Hw1 & L1 & C1).
  destruct (add_records_ok w1 ds2 Hw1 Hds2) as (w2 & out2 & E2 & Hw2 & L2 & C2).
  exists w0, w1, w2. split_and!; [done..|apply Hw2|]. intros g reporter checksum k n fuel Hg Hr Hk Hfuel Hn.
  rewrite D0, Hc in C1. cbn [app] in C1. rewrite C1 in C2, Hk. rewrite C2 in Hr, Hfuel.
  rewrite O0 in L1. pose proof (log_of_app _ _ _ _ _ _ _ L1 L2) as L12.
  rewrite take_app_ge in Hr by done.
  assert (bytes (out1 ++ out2)) as Hb by (by eapply log_of_bytes).
  apply Forall_app in Hb as [Hb1 Hb2].
  pose proof (at_off_start g reporter checksum Hg ltac:(rewrite Hr; solve_width)) as Hat.
  rewrite Hr in Hat.
  destruct (reads_from_start fuel ds1 out1 _ ds2 out2 _ (k - length out1) _ L1 L2 Hat)
    as (r' & j & E & Hj); [done|].
  exists r', j. split_and!.
  - apply reads_read_all; [done|]. rewrite length_app, length_take in *. lia.
  - by destruct (reads_quiet _ _ _ _ E) as [-> _].
  - intros Hk2. apply take_ge. apply Hj. rewrite C2, length_app in Hk2. lia.
Qed.

Section witness.
(** The in-memory files, the accelerated checksum and an x86 machine. *)
#[local] Existing Instances posix_x86 sse_cpu sse_cpu_laws.
#[local] Existing Instances Files.memenv_sequential Files.memenv_sequential_laws.
#[local] Instance witness_file : WritableFile FileState.t := Files.memenv_writable zero_block.
#[local] Instance witness_laws : WritableFileLaws FileState.t :=
  Files.memenv_writable_laws zero_block zero_block_length.
#[local] Instance witness_reliable : Reliable FileState.t := Files.memenv_reliable zero_block.
#[local] Instance witness_crc : Crc32c := crc32c_impl Sse64 0 0.
#[local] Instance witness_crc_laws : Crc32cLaws witness_crc :=
  crc32c_impl_laws Sse64 0 0 ltac:(lia).

Lemma log_durable_witness :
  ∃ w0 w1 w2,
    new_Writer [0; 0; 0; 0; 0] FileState.new = Some w0 ∧
    add_records w0 [[1; 2; 3]] = Some w1 ∧ add_records w1 [[4]] = Some w2 ∧
    ∃ fuel r j, read_all 3 fuel (new_Reader (Files.Seq (dest_ w2) 0) true true 0)
             = Some (r, [[1; 2; 3]] ++ take j [[4]]) ∧ reports r = [] ∧ take j [[4]] = [[4]].
Proof.
  destruct (log_durable (R := Files.SequentialFileImpl) FileState.new [0; 0; 0; 0; 0] [[1; 2; 3]] [[4]])
    as (w0 & w1 & w2 & E0 & E1 & E2 & Hw & HR).
  - apply FileState.data_new.
  - reflexivity.
  - reflexivity.
  - repeat constructor; unfold in_width; lia.
  - exists w0, w1, w2. split; [exact E0|]. split; [exact E1|]. split; [exact E2|].
    set (k := (length (contents (dest_ w1)) + length (contents (dest_ w2)))%nat).
    exists (S k).
    destruct (HR (Files.Seq (dest_ w2) 0) true true k 3%nat (S k)) as (r & j & E & Hr & Hj).
    + split; [exact Hw|]. cbn [Files.pos_ Files.seq_file_]. pose proof (FileState.length_data _ Hw). lia.
    + change (rest (Files.Seq (dest_ w2) 0)) with (contents (dest_ w2)).
      symmetry. apply take_ge. unfold k. lia.
    + unfold k. lia.
    + unfold k. lia.
    + cbn; lia.
    + exists r, j. split; [exact E|]. split; [exact Hr|]. apply Hj. unfold k. lia.
Defined.
End witness.

(** ** Damage *)

(** What [ReportCorruption] adds to the reports. *)
Lemma ReportCorruption_reports {R} (r : Reader R) n reason :
  reports (ReportCorruption r n reason) =
  reports r ++
    (if reporter_ r && (initial_offset_ r <=? u64 (end_of_buffer_offset_ r - buffer_size r - n))
     then [(n, Corruption reason)] else []) ∧
  buffer_ (ReportCorruption r n reason) = buffer_ r.
Proof.
  unfold ReportCorruption, ReportDrop. destruct (_ && _); [done|]. by rewrite app_nil_r.
Qed.

(** C34. A damaged record is not returned.  The physical record at the front of
    the buffer was written with the data [a ++ m ++ b]; up to four consecutive
    bytes of it, [m], now read [m'].  A reader that checks checksums returns
    [kBadRecord], drops the rest of the block and reports it. *)
Theorem log_detects_damage `{SequentialFile R} `{Crc32cLaws} `{Port} (r : Reader R) (t : RecordType)
    (a m m' b tail result : list Z) :
  bytes (a ++ m ++ b) → bytes (m' ++ tail) → length m = length m' → (length m ≤ 4)%nat → m ≠ m' →
  t ≠ kZeroType → Z.of_nat (length (a ++ m ++ b)) ≤ 65535 → checksum_ r = true →
  buffer_ r = take 7 (phys_bytes (t, a ++ m ++ b)) ++ (a ++ m' ++ b) ++ tail →
  ∃ r', ReadPhysicalRecord r result = Some (r', result, kBadRecord) ∧ buffer_ r' = [] ∧
    reports r' = reports r ++
      (if reporter_ r && (initial_offset_ r <=? u64 (end_of_buffer_offset_ r - 0 - buffer_size r))
       then [(buffer_size r, Corruption "checksum mismatch")] else []).
Proof.
  intros Hbyt Hbyt' Hl H4 Hne Ht Hn Hck Hbuf.
  apply Forall_app in Hbyt as [Ha [Hm Hb]%Forall_app]. apply Forall_app in Hbyt' as [Hm' Htl].
  set (p := a ++ m ++ b) in *. set (p' := a ++ m' ++ b) in *.
  assert (length p' = length p) as Hlp by (unfold p, p'; rewrite !length_app; lia).
  set (c := Mask (crc32c_ref 0 (type_code t :: p))).
  assert (bytes p ∧ bytes p') as [Hbp Hbp'] by (split; apply bytes_app; solve_width).
  assert (Hh : buffer_ r = le_bytes 4 c ++ le_bytes 2 (Z.of_nat (length p')) ++ [type_code t] ++ p' ++ tail).
  { rewrite Hbuf. unfold phys_bytes. cbn [fst snd]. fold c. rewrite Hlp, !app_assoc. by f_equal. }
  destruct (record_fields c t p' tail) as (E4 & E5 & E6 & EC & ES & _); [apply Mask_width|done..|lia|].
  rewrite <-Hh in E4, E5, E6, EC, ES. unfold ReadPhysicalRecord. cbn [read_physical].
  assert (Hsz : buffer_size r = 7 + Z.of_nat (length p') + Z.of_nat (length tail)).
  { unfold buffer_size. rewrite Hh, !length_app, !length_le_bytes. cbn [length]. lia. }
  rewrite (proj2 (Z.ltb_ge _ _)) by (unfold kHeaderSize; lia).
  unfold parse_physical. cbv zeta. rewrite E4, E5, E6. simpl_bind.
  rewrite record_length by lia. rewrite (proj2 (Z.ltb_ge _ _)) by (unfold kHeaderSize; lia).
  rewrite char_unsigned_type, (proj2 (Z.eqb_neq (type_code t) _)) by (by destruct t). cbn [andb].
  rewrite Hck, EC. simpl_bind. rewrite ES.
  rewrite crc_Value_ref by (apply bytes_cons; solve_width). simpl_bind.
  unfold c. rewrite Unmask_Mask by
    (apply crc32c_ref_width; [unfold in_width; lia|apply bytes_cons; solve_width]).
  rewrite (proj2 (Z.eqb_neq _ _)); cycle 1.
  { intros E. apply Hne. symmetry.
    apply (crc32c_burst 0 (type_code t :: a) m' m b);
      [unfold in_width; lia|apply bytes_cons; solve_width|done..|lia|exact E]. }
  simpl_bind. cbn [negb]. eexists. split; [reflexivity|].
  destruct (ReportCorruption_reports (set_buffer [] r) (buffer_size r) "checksum mismatch") as [E1 E2].
  rewrite E1, E2. done.
Qed.

Section damage_witness.
#[local] Existing Instances posix_x86 sse_cpu sse_cpu_laws.
#[local] Existing Instances Files.memenv_sequential.

(** A block with one record, one byte of which has changed. *)
Definition damaged : Reader Files.SequentialFileImpl :=
  MkReader (Files.Seq FileState.new 0) true true
    (take 7 (phys_bytes (kFullType, [1; 2; 3])) ++ [1; 9; 3]) true 0 10 0 false [].

Lemma log_detects_damage_witness :
  ∃ r', ReadPhysicalRecord (H0 := crc32c_impl Sse64 0 0) damaged [] = Some (r', [], kBadRecord) ∧
    buffer_ r' = [] ∧ reports r' = [] ++ [(10, Corruption "checksum mismatch")].
Proof.
  apply (log_detects_damage (H1 := crc32c_impl_laws Sse64 0 0 ltac:(lia))
    damaged kFullType [1] [2] [9] [3] [] []);
    try reflexivity; try discriminate; try (cbn; lia);
    repeat constructor; unfold in_width; lia.
Defined.

End damage_witness.

(** ** A failure that is not noticed

    [AddRecord] does not look at the status of the [Append] that fills up a
    block.  A file that fails once, there, leaves the record it then writes
    at an offset where a reader does not look for one: the file is 32773 bytes
    long and the record starts 3 bytes before the end of the first block, but
    the writer takes it to be the first of the second block and says [OK]. *)
Section flaky.
#[local] Existing Instances posix_x86 sse_cpu.

(** The bytes written, and how many calls from now on the failure is. *)
#[local] Instance flaky_file : WritableFile (list Z * nat) := {
  file_Append f d :=
    match f.2 with
    | O => Some ((f.1, 1000%nat), IOError "full")
    | S n => Some ((f.1 ++ d, n), OK)
    end;
  file_Close f := Some (f, OK);
  file_Flush f := Some (f, OK);
  file_Sync f := Some (f, OK) }.

Lemma AddRecord_ignores_trailer_failure (old : list Z) :
  length old = 32765%nat →
  ∃ w w', new_Writer_at (H0 := crc32c_impl Sse64 0 0) [0; 0; 0; 0; 0] (old, O) 32765 = Some w ∧
    AddRecord (H0 := crc32c_impl Sse64 0 0) w [7] = Some (w', OK) ∧
    (dest_ w').1 = old ++ phys_bytes (kFullType, [7]) ∧ block_offset_ w' = 8.
Proof.
  intros _. eexists _, _. split; [vm_compute; reflexivity|]. split; [vm_compute; reflexivity|].
  split; [|vm_compute; reflexivity].
  transitivity ((old ++ take 7 (phys_bytes (kFullType, [7]))) ++ [7]).
  - vm_compute. reflexivity.
  - rewrite <-app_assoc. f_equal.
Qed.

End flaky.
