(* ===== verification/WriteBatch.v ===== *)
(** leveldb's atomic batches of updates: leveldb/db/write_batch.cc, with the
    value types of leveldb/db/dbformat.h.

    A [WriteBatch] is its [rep_] string: a 12-byte header (sequence number
    and count) and the records.  An operation is [None] when it would read
    or write outside the string, or when [int] arithmetic on the count
    overflows. *)

From Stdlib Require Import ZArith Lia.
From stdpp Require Import base option numbers list strings.
From S2P Require Import Prelude Coding Slice.

Definition kTypeDeletion : Z := 0.
Definition kTypeValue : Z := 1.

Definition kHeader : nat := 12.

(** [int] from the bits of a [uint32_t]. *)
Definition s32 (x : Z) : Z := if x <? 2 ^ 31 then x else x - 2 ^ 32.

(** [int] addition; overflow is undefined. *)
Definition int_add (a b : Z) : option Z :=
  if (- 2 ^ 31 <=? a + b) && (a + b <? 2 ^ 31) then Some (a + b) else None.

(** A [WriteBatch::Handler] over its own state. *)
Record Handler (S : Type) := {
  handler_Put : S → list Z → list Z → S;
  handler_Delete : S → list Z → S
}.
Arguments handler_Put {S}.
Arguments handler_Delete {S}.

Section batch.
Context `{P : Port}.

Definition Clear : list Z := replicate kHeader 0.

Definition NewWriteBatch : list Z := Clear.

Definition ApproximateSize (rep_ : list Z) : Z := Z.of_nat (length rep_).

Definition Count (rep_ : list Z) : option Z :=
  n ← DecodeFixed32 (drop 8 rep_); Some (s32 n).

Definition SetCount (rep_ : list Z) (n : Z) : option (list Z) :=
  store_bytes rep_ 8 (EncodeFixed32 (u32 n)).

Definition Sequence (rep_ : list Z) : option Z := DecodeFixed64 rep_.

Definition SetSequence (rep_ : list Z) (seq : Z) : option (list Z) :=
  store_bytes rep_ 0 (EncodeFixed64 seq).

Definition Put (rep_ key value : list Z) : option (list Z) :=
  c ← Count rep_; c1 ← int_add c 1;
  rep_ ← SetCount rep_ c1;
  Some (PutLengthPrefixedSlice
          (PutLengthPrefixedSlice (rep_ ++ [u8 kTypeValue]) key) value).

Definition Delete (rep_ key : list Z) : option (list Z) :=
  c ← Count rep_; c1 ← int_add c 1;
  rep_ ← SetCount rep_ c1;
  Some (PutLengthPrefixedSlice (rep_ ++ [u8 kTypeDeletion]) key).

(** The [while (!input.empty())] loop: every iteration consumes the tag
    byte, so [length input] iterations are enough; [None] past them.  The
    result is the handler's state and either the number of records found or
    the status of the early return. *)
Fixpoint iterate_loop {S} (fuel : nat) (h : Handler S) (st : S) (found : Z)
    (input : list Z) : option (S * (Z + Status)) :=
  match input with
  | [] => Some (st, inl found)
  | tag :: input =>
      match fuel with
      | O => None
      | Datatypes.S fuel =>
          let found := found + 1 in
          if tag =? kTypeValue then
            match GetLengthPrefixedSlice input with
            | (Some key, input) =>
                match GetLengthPrefixedSlice input with
                | (Some value, input) =>
                    iterate_loop fuel h (handler_Put h st key value) found input
                | (None, _) => Some (st, inr (Corruption "bad WriteBatch Put"))
                end
            | (None, _) => Some (st, inr (Corruption "bad WriteBatch Put"))
            end
          else if tag =? kTypeDeletion then
            match GetLengthPrefixedSlice input with
            | (Some key, input) => iterate_loop fuel h (handler_Delete h st key) found input
            | (None, _) => Some (st, inr (Corruption "bad WriteBatch Delete"))
            end
          else Some (st, inr (Corruption "unknown WriteBatch tag"))
      end
  end.

Definition Iterate {S} (rep_ : list Z) (h : Handler S) (st : S) : option (S * Status) :=
  if (length rep_ <? kHeader)%nat
  then Some (st, Corruption "malformed WriteBatch (too small)")
  else
    '(st, r) ← iterate_loop (length rep_) h st 0 (drop kHeader rep_);
    match r with
    | inr status => Some (st, status)
    | inl found =>
        c ← Count rep_;
        if negb (found =? c) then Some (st, Corruption "WriteBatch has wrong count")
        else Some (st, OK)
    end.

(** [assert(contents.size() >= kHeader)]. *)
Definition SetContents (contents : list Z) : option (list Z) :=
  if (kHeader <=? length contents)%nat then Some contents else None.

Definition Append (dst src : list Z) : option (list Z) :=
  c1 ← Count dst; c2 ← Count src; c ← int_add c1 c2;
  dst ← SetCount dst c;
  if (kHeader <=? length src)%nat then Some (dst ++ drop kHeader src) else None.

End batch.

(** ** What a batch means *)

Inductive batch_op :=
  | BPut (key value : list Z)
  | BDelete (key : list Z).

Definition apply_op {S} (h : Handler S) (st : S) (o : batch_op) : S :=
  match o with
  | BPut key value => handler_Put h st key value
  | BDelete key => handler_Delete h st key
  end.

(** The strings of an operation fit their 32-bit lengths. *)
Definition str_ok (s : list Z) : Prop := bytes s ∧ in_width 32 (Z.of_nat (length s)).

Definition op_ok (o : batch_op) : Prop :=
  match o with
  | BPut key value => str_ok key ∧ str_ok value
  | BDelete key => str_ok key
  end.

Definition record_bytes (o : batch_op) : list Z :=
  match o with
  | BPut key value =>
      kTypeValue :: PutLengthPrefixedSlice [] key ++ PutLengthPrefixedSlice [] value
  | BDelete key => kTypeDeletion :: PutLengthPrefixedSlice [] key
  end.

(** The documented layout of [rep_]. *)
Definition rep_of (seq : Z) (ops : list batch_op) : list Z :=
  le_bytes 8 seq ++ le_bytes 4 (Z.of_nat (length ops)) ++ (ops ≫= record_bytes).

(** Writing the operations of a list into a batch. *)
Definition write_op `{P : Port} (rep_ : list Z) (o : batch_op) : option (list Z) :=
  match o with
  | BPut key value => Put rep_ key value
  | BDelete key => Delete rep_ key
  end.

Fixpoint write_ops `{P : Port} (rep_ : list Z) (ops : list batch_op) : option (list Z) :=
  match ops with
  | [] => Some rep_
  | o :: ops => rep_ ← write_op rep_ o; write_ops rep_ ops
  end.

(** ** The header *)

Lemma record_bytes_bytes o : op_ok o → bytes (record_bytes o).
Proof.
  assert (H01 : in_width 8 0 ∧ in_width 8 1) by (split; by split).
  destruct o as [k v|k]; cbn [op_ok record_bytes].
  - intros [[Hk _] [Hv _]]. constructor; [apply H01|]. apply Forall_app.
    split; by apply PutLengthPrefixedSlice_bytes.
  - intros [Hk _]. constructor; [apply H01|]. by apply PutLengthPrefixedSlice_bytes.
Qed.

Lemma records_bytes ops : Forall op_ok ops → bytes (ops ≫= record_bytes).
Proof.
  induction 1 as [|o ops Ho Hops IH]; [constructor|]. cbn [mbind list_bind].
  apply Forall_app. split; [by apply record_bytes_bytes|exact IH].
Qed.

Lemma rep_of_drop8 seq ops :
  drop 8 (rep_of seq ops) = le_bytes 4 (Z.of_nat (length ops)) ++ (ops ≫= record_bytes).
Proof. unfold rep_of. by rewrite drop_app_length' by (by rewrite length_le_bytes). Qed.

Lemma rep_of_drop12 seq ops : drop kHeader (rep_of seq ops) = ops ≫= record_bytes.
Proof.
  change kHeader with (8 + 4)%nat. rewrite <-drop_drop, rep_of_drop8.
  by rewrite drop_app_length' by (by rewrite length_le_bytes).
Qed.

Lemma length_rep_of seq ops : (kHeader ≤ length (rep_of seq ops))%nat.
Proof. unfold rep_of. rewrite !length_app, !length_le_bytes. unfold kHeader. lia. Qed.

Definition count_ok (ops : list batch_op) : Prop := Z.of_nat (length ops) < 2 ^ 31.

Section header.
Context `{P : Port}.

Lemma Count_rep_of seq ops :
  Forall op_ok ops → count_ok ops → Count (rep_of seq ops) = Some (Z.of_nat (length ops)).
Proof.
  intros Hops Hc. unfold Count. rewrite rep_of_drop8, <-EncodeFixed32_le.
  unfold count_ok in Hc. rewrite DecodeFixed32_encode; [|split; lia|by apply records_bytes].
  simpl_bind. unfold s32. by rewrite (proj2 (Z.ltb_lt _ _)) by lia.
Qed.

Lemma Sequence_rep_of seq ops :
  in_width 64 seq → Forall op_ok ops → Sequence (rep_of seq ops) = Some seq.
Proof.
  intros Hs Hops. unfold Sequence, rep_of. rewrite <-EncodeFixed64_le.
  apply DecodeFixed64_encode; [done|]. apply Forall_app.
  split; [apply le_bytes_bytes|by apply records_bytes].
Qed.

Lemma SetSequence_rep_of seq seq' ops : SetSequence (rep_of seq ops) seq' = Some (rep_of seq' ops).
Proof.
  unfold SetSequence, rep_of. rewrite EncodeFixed64_le.
  apply (store_bytes_app []). by rewrite !length_le_bytes.
Qed.

Lemma SetCount_header seq n m rest :
  0 ≤ n < 2 ^ 32 →
  SetCount (le_bytes 8 seq ++ le_bytes 4 m ++ rest) n
  = Some (le_bytes 8 seq ++ le_bytes 4 n ++ rest).
Proof.
  intros Hn. unfold SetCount. rewrite EncodeFixed32_le, wrap_small by done.
  rewrite <-(length_le_bytes 8 seq) at 1. apply store_bytes_app.
  by rewrite !length_le_bytes.
Qed.

Lemma NewWriteBatch_rep_of : NewWriteBatch = rep_of 0 [].
Proof. done. Qed.

Lemma write_op_rep_of seq ops o :
  Forall op_ok ops → count_ok (ops ++ [o]) →
  write_op (rep_of seq ops) o = Some (rep_of seq (ops ++ [o])).
Proof.
  intros Hops Hc. unfold count_ok in Hc. rewrite length_app in Hc. cbn [length] in Hc.
  assert (HC : Count (rep_of seq ops) = Some (Z.of_nat (length ops)))
    by (apply Count_rep_of; [done|unfold count_ok; lia]).
  assert (Hadd : int_add (Z.of_nat (length ops)) 1 = Some (Z.of_nat (length ops) + 1)).
  { unfold int_add. rewrite (proj2 (Z.leb_le _ _)), (proj2 (Z.ltb_lt _ _)) by lia. done. }
  assert (Hset : SetCount (rep_of seq ops) (Z.of_nat (length ops) + 1)
    = Some (le_bytes 8 seq ++ le_bytes 4 (Z.of_nat (length ops) + 1) ++ (ops ≫= record_bytes)))
    by (apply SetCount_header; lia).
  assert (Hrep : rep_of seq (ops ++ [o])
    = (le_bytes 8 seq ++ le_bytes 4 (Z.of_nat (length ops) + 1) ++ (ops ≫= record_bytes))
        ++ record_bytes o).
  { unfold rep_of. rewrite bind_app, length_app, Nat2Z.inj_add. cbn [length mbind list_bind].
    by rewrite app_nil_r, <-!app_assoc. }
  rewrite Hrep. destruct o as [k v|k]; cbn [write_op record_bytes].
  - unfold Put. rewrite HC. simpl_bind. rewrite Hadd. simpl_bind.
    rewrite Hset. simpl_bind.
    rewrite PutLengthPrefixedSlice_app, (PutLengthPrefixedSlice_app (_ ++ [_]) k).
    by rewrite <-!app_assoc.
  - unfold Delete. rewrite HC. simpl_bind. rewrite Hadd. simpl_bind.
    rewrite Hset. simpl_bind.
    rewrite PutLengthPrefixedSlice_app. by rewrite <-!app_assoc.
Qed.

Lemma write_ops_rep_of seq ops ops' :
  Forall op_ok (ops ++ ops') → count_ok (ops ++ ops') →
  write_ops (rep_of seq ops) ops' = Some (rep_of seq (ops ++ ops')).
Proof.
  revert ops. induction ops' as [|o ops' IH]; intros ops Hok Hc; cbn [write_ops].
  { by rewrite app_nil_r. }
  pose proof Hok as [Hops Ho]%Forall_app. unfold count_ok in *. rewrite length_app in Hc.
  cbn [length] in Hc. rewrite write_op_rep_of; [|done|unfold count_ok; rewrite length_app; cbn; lia].
  simpl_bind. rewrite IH.
  - by rewrite <-app_assoc.
  - by rewrite <-app_assoc.
  - rewrite !length_app. cbn. lia.
Qed.

Lemma Append_rep_of seq ops seq' ops' :
  Forall op_ok (ops ++ ops') → count_ok (ops ++ ops') →
  Append (rep_of seq ops) (rep_of seq' ops') = Some (rep_of seq (ops ++ ops')).
Proof.
  intros [Hops Hops']%Forall_app Hc. unfold count_ok in Hc. rewrite length_app in Hc.
  unfold Append. rewrite !Count_rep_of by (done || unfold count_ok; lia).
  simpl_bind. unfold int_add.
  rewrite (proj2 (Z.leb_le _ _)), (proj2 (Z.ltb_lt _ _)) by lia. cbn [andb mbind option_bind].
  change (rep_of seq ops) with (le_bytes 8 seq ++ le_bytes 4 (Z.of_nat (length ops))
    ++ (ops ≫= record_bytes)).
  rewrite SetCount_header by lia. simpl_bind.
  rewrite (proj2 (Nat.leb_le _ _) (length_rep_of _ _)), rep_of_drop12.
  unfold rep_of. by rewrite bind_app, length_app, Nat2Z.inj_add, <-!app_assoc.
Qed.
End header.

(** ** Iterating *)

Lemma str_ok_get s r :
  str_ok s → bytes r → GetLengthPrefixedSlice (PutLengthPrefixedSlice [] s ++ r) = (Some s, r).
Proof. intros [? ?] ?. by apply GetLengthPrefixedSlice_put. Qed.

Lemma iterate_loop_records {S} (h : Handler S) fuel st found ops :
  Forall op_ok ops → (length (ops ≫= record_bytes) ≤ fuel)%nat →
  iterate_loop fuel h st found (ops ≫= record_bytes)
  = Some (foldl (apply_op h) st ops, inl (found + Z.of_nat (length ops))).
Proof.
  intros Hok. revert fuel st found.
  induction Hok as [|o ops Ho Hops IH]; intros fuel st found Hf.
  { destruct fuel; cbn; do 3 f_equal; lia. }
  cbn [mbind list_bind] in Hf. rewrite length_app in Hf. pose proof (records_bytes ops Hops).
  destruct o as [k v|k]; cbn [mbind list_bind record_bytes] in *; cbn [length app] in Hf |- *;
    (destruct fuel as [|fuel]; [lia|]); cbn [iterate_loop op_ok] in *.
  - destruct Ho as [Hk Hv]. rewrite length_app in Hf. rewrite <-app_assoc.
    change (kTypeValue =? kTypeValue) with true. cbv iota.
    rewrite str_ok_get; [|done|apply Forall_app; split; [apply PutLengthPrefixedSlice_bytes, Hv|done]].
    rewrite str_ok_get by done.
    change (ops ≫= record_bytes) with (mbind record_bytes ops) in *.
    rewrite IH by lia. cbn [foldl apply_op length]. do 3 f_equal. lia.
  - change (kTypeDeletion =? kTypeValue) with false. change (kTypeDeletion =? kTypeDeletion) with true.
    cbv iota. rewrite str_ok_get by done.
    change (ops ≫= record_bytes) with (mbind record_bytes ops) in *.
    rewrite IH by lia. cbn [foldl apply_op length]. do 3 f_equal. lia.
Qed.

Lemma Iterate_rep_of `{Port} {S} (h : Handler S) st seq ops :
  Forall op_ok ops → count_ok ops →
  Iterate (rep_of seq ops) h st = Some (foldl (apply_op h) st ops, OK).
Proof.
  intros Hops Hc. unfold Iterate. rewrite (proj2 (Nat.ltb_ge _ _) (length_rep_of _ _)).
  rewrite rep_of_drop12, iterate_loop_records; [|done|].
  - simpl_bind. rewrite Count_rep_of by done. simpl_bind.
    by rewrite Z.add_0_l, Z.eqb_refl.
  - rewrite <-(rep_of_drop12 seq ops), length_drop. lia.
Qed.

(** On arbitrary bytes the loop ends, having passed some operations on. *)
Lemma iterate_loop_total {S} (h : Handler S) fuel st found input :
  bytes input → (length input ≤ fuel)%nat →
  ∃ ops r, iterate_loop fuel h st found input = Some (foldl (apply_op h) st ops, r) ∧
    match r with
    | inl n => n = found + Z.of_nat (length ops)
    | inr s => s ≠ OK
    end.
Proof.
  revert st found input. induction fuel as [|fuel IH]; intros st found input Hi Hf.
  { destruct input; [|cbn in Hf; lia]. exists [], (inl found). split; [done|]. cbn. lia. }
  destruct Hi as [|tag input Htag Hi]; cbn [iterate_loop].
  { exists [], (inl found). split; [done|]. cbn. lia. }
  cbn [length] in Hf. destruct (tag =? kTypeValue); [|destruct (tag =? kTypeDeletion)].
  - destruct (GetLengthPrefixedSlice input) as [[key|] input1] eqn:E1; [|by eexists [], _].
    apply GetLengthPrefixedSlice_shrinks in E1 as (_ & Hi1 & Hl1); [|done].
    destruct (GetLengthPrefixedSlice input1) as [[value|] input2] eqn:E2; [|by eexists [], _].
    apply GetLengthPrefixedSlice_shrinks in E2 as (_ & Hi2 & Hl2); [|done].
    destruct (IH (handler_Put h st key value) (found + 1) input2) as (ops & r & -> & Hr);
      [done|lia|].
    exists (BPut key value :: ops), r. split; [done|]. destruct r; [cbn [length]; lia|done].
  - destruct (GetLengthPrefixedSlice input) as [[key|] input1] eqn:E1; [|by eexists [], _].
    apply GetLengthPrefixedSlice_shrinks in E1 as (_ & Hi1 & Hl1); [|done].
    destruct (IH (handler_Delete h st key) (found + 1) input1) as (ops & r & -> & Hr);
      [done|lia|].
    exists (BDelete key :: ops), r. split; [done|]. destruct r; [cbn [length]; lia|done].
  - by eexists [], _.
Qed.

Lemma Count_total `{Port} rep_ :
  bytes rep_ → (kHeader ≤ length rep_)%nat → ∃ c, Count rep_ = Some c.
Proof.
  intros Hb Hl. unfold Count, kHeader in *. rewrite DecodeFixed32_le.
  - eexists. done.
  - by apply Forall_drop.
  - rewrite length_drop. lia.
Qed.

(** A handler that records what it is given. *)
Definition recorder : Handler (list batch_op) := {|
  handler_Put st key value := st ++ [BPut key value];
  handler_Delete st key := st ++ [BDelete key]
|}.

Lemma recorder_ops ops l : foldl (apply_op recorder) l ops = l ++ ops.
Proof.
  revert l. induction ops as [|o ops IH]; intros l; [by rewrite app_nil_r|]. cbn [foldl].
  rewrite IH. destruct o; cbn; by rewrite <-app_assoc.
Qed.

(** The updates of a batch, as [Iterate] finds them. *)
Definition batch_ops `{Port} (b : list Z) : list batch_op :=
  match Iterate b recorder [] with Some (ops, OK) => ops | _ => [] end.

Lemma batch_ops_rep_of `{Port} seq ops :
  Forall op_ok ops → count_ok ops → batch_ops (rep_of seq ops) = ops.
Proof. intros. unfold batch_ops. rewrite Iterate_rep_of by done. by rewrite recorder_ops. Qed.
