(* ===== verification/SkipList.v ===== *)
(** leveldb's skip list: leveldb/db/skiplist.h and the random number
    generator of leveldb/util/random.h it draws its node heights from.

    The arena is the list of the nodes allocated so far and a [Node*] is an
    index into it, [NULL] being [None]; the head is the first node.  A node's
    [next_] has one link per level.  An operation is [None] when it follows
    an invalid link, fails an [assert], compares keys the comparator cannot
    read, or does not end within its fuel. *)

From Stdlib Require Import ZArith Lia.
From stdpp Require Import base option numbers list.
From S2P Require Import Prelude Coding.

(** ** Random *)

Definition Random_new (s : Z) : Z :=
  let seed_ := Z.land s 2147483647 in
  if (seed_ =? 0) || (seed_ =? 2147483647) then 1 else seed_.

Definition Random_Next (seed_ : Z) : Z :=
  let M := 2147483647 in
  let A := 16807 in
  let product := u64 (seed_ * A) in
  let seed_ := u32 (Z.shiftr product 31 + Z.land product M) in
  if M <? seed_ then u32 (seed_ - M) else seed_.

Definition Random_Uniform (seed_ n : Z) : Z * Z :=
  let r := Random_Next seed_ in (r mod n, r).

Definition Random_OneIn (seed_ n : Z) : bool * Z :=
  let r := Random_Next seed_ in (r mod n =? 0, r).

(** [Uniform] is called twice. *)
Definition Random_Skewed (seed_ max_log : Z) : Z * Z :=
  let '(base, seed_) := Random_Uniform seed_ (max_log + 1) in
  Random_Uniform seed_ (Z.shiftl 1 base).

(** ** The list *)

Definition kMaxHeight : nat := 12.

Section skiplist.
Context {K : Type} (any_key : K) (compare_ : K → K → option Z).

Record Node := mkNode { node_key : K; next_ : list (option nat) }.

Record SkipList := mkSkipList {
  nodes : list Node;
  max_height_ : nat;
  rnd_ : Z
}.

Definition head_ : nat := 0.

Definition set_nodes (s : SkipList) (ns : list Node) : SkipList :=
  mkSkipList ns (max_height_ s) (rnd_ s).

Definition node_Next (s : SkipList) (x n : nat) : option (option nat) :=
  node ← nodes s !! x; next_ node !! n.

Definition node_SetNext (s : SkipList) (x n : nat) (v : option nat) : option SkipList :=
  node ← nodes s !! x;
  if bool_decide (n < length (next_ node))%nat
  then Some (set_nodes s (<[x := mkNode (node_key node) (<[n := v]> (next_ node))]> (nodes s)))
  else None.

(** The links of a new node are not initialised; here they are [NULL]. *)
Definition NewNode (s : SkipList) (key : K) (height : nat) : nat * SkipList :=
  (length (nodes s), set_nodes s (nodes s ++ [mkNode key (replicate height None)])).

Definition GetMaxHeight (s : SkipList) : nat := max_height_ s.

Definition node_compare (s : SkipList) (x : nat) (key : K) : option Z :=
  node ← nodes s !! x; compare_ (node_key node) key.

Definition Equal (a b : K) : option bool := c ← compare_ a b; Some (c =? 0).

Definition KeyIsAfterNode (s : SkipList) (key : K) (n : option nat) : option bool :=
  match n with
  | None => Some false
  | Some n => c ← node_compare s n key; Some (c <? 0)
  end.

(** The loops run at most once per node on each level, and once to leave the
    level. *)
Definition search_fuel (s : SkipList) : nat := max_height_ s * length (nodes s).

(** [prev] is the array of the caller, or [[]] for [NULL]. *)
Fixpoint fge_loop (fuel : nat) (s : SkipList) (key : K) (x level : nat)
    (prev : list (option nat)) : option (option nat * list (option nat)) :=
  match fuel with
  | O => None
  | S fuel =>
      next ← node_Next s x level;
      after ← KeyIsAfterNode s key next;
      if (after : bool) then next ≫= λ x, fge_loop fuel s key x level prev
      else
        let prev := <[level := Some x]> prev in
        match level with
        | O => Some (next, prev)
        | S level => fge_loop fuel s key x level prev
        end
  end.

Definition FindGreaterOrEqual (s : SkipList) (key : K) (prev : list (option nat))
  : option (option nat * list (option nat)) :=
  fge_loop (search_fuel s) s key head_ (GetMaxHeight s - 1) prev.

Fixpoint flt_loop (fuel : nat) (s : SkipList) (key : K) (x level : nat) : option nat :=
  match fuel with
  | O => None
  | S fuel =>
      before ← (if (x =? head_)%nat then Some true
                else c ← node_compare s x key; Some (c <? 0));
      if negb before then None (* assert *)
      else
        next ← node_Next s x level;
        stop ← (match next with
                | None => Some true
                | Some n => c ← node_compare s n key; Some (0 <=? c)
                end);
        if (stop : bool) then
          match level with
          | O => Some x
          | S level => flt_loop fuel s key x level
          end
        else next ≫= λ x, flt_loop fuel s key x level
  end.

Definition FindLessThan (s : SkipList) (key : K) : option nat :=
  flt_loop (search_fuel s) s key head_ (GetMaxHeight s - 1).

Fixpoint flast_loop (fuel : nat) (s : SkipList) (x level : nat) : option nat :=
  match fuel with
  | O => None
  | S fuel =>
      next ← node_Next s x level;
      match next with
      | None =>
          match level with
          | O => Some x
          | S level => flast_loop fuel s x level
          end
      | Some x => flast_loop fuel s x level
      end
  end.

Definition FindLast (s : SkipList) : option nat :=
  flast_loop (search_fuel s) s head_ (GetMaxHeight s - 1).

Definition NewSkipList : SkipList :=
  mkSkipList [mkNode any_key (replicate kMaxHeight None)] 1 (Random_new 3735928559).

(** [while (height < kMaxHeight && (rnd_.Next() % kBranching) == 0) height++]. *)
Fixpoint random_height_loop (fuel : nat) (height : nat) (rnd : Z) : nat * Z :=
  match fuel with
  | O => (height, rnd)
  | S fuel =>
      if (height <? kMaxHeight)%nat then
        let rnd := Random_Next rnd in
        if rnd mod 4 =? 0 then random_height_loop fuel (S height) rnd else (height, rnd)
      else (height, rnd)
  end.

Definition RandomHeight (rnd : Z) : nat * Z := random_height_loop kMaxHeight 1 rnd.

(** [for (i = GetMaxHeight(); i < height; i++) prev[i] = head_]. *)
Definition fill_prev (prev : list (option nat)) (from height : nat) : list (option nat) :=
  foldl (λ prev i, <[i := Some head_]> prev) prev (seq from (height - from)).

(** One iteration of the linking loop is two stores. *)
Definition link_node (x : nat) (prev : list (option nat)) (i : nat) (s : SkipList)
  : option SkipList :=
  p ← mjoin (prev !! i);
  nx ← node_Next s p i;
  node_SetNext s x i nx.

Definition link_prev (x : nat) (prev : list (option nat)) (i : nat) (s : SkipList)
  : option SkipList :=
  p ← mjoin (prev !! i);
  node_SetNext s p i (Some x).

Fixpoint link_loop (n i : nat) (x : nat) (prev : list (option nat)) (s : SkipList)
  : option SkipList :=
  match n with
  | O => Some s
  | S n =>
      s ← link_node x prev i s;
      s ← link_prev x prev i s;
      link_loop n (S i) x prev s
  end.

Definition raise_height (s : SkipList) (height : nat) (rnd : Z) : SkipList :=
  mkSkipList (nodes s)
    (if (GetMaxHeight s <? height)%nat then height else max_height_ s) rnd.

(** [Insert] up to its linking loop: the new node, its height, the nodes
    before it on each level, and the list with the node allocated. *)
Definition insert_prepare (s : SkipList) (key : K)
  : option (nat * nat * list (option nat) * SkipList) :=
  '(x, prev) ← FindGreaterOrEqual s key (replicate kMaxHeight None);
  dup ← (match x with
         | None => Some false
         | Some x => node ← nodes s !! x; Equal key (node_key node)
         end);
  if (dup : bool) then None (* assert *)
  else
    let '(height, rnd) := RandomHeight (rnd_ s) in
    let prev := if (GetMaxHeight s <? height)%nat
                then fill_prev prev (GetMaxHeight s) height else prev in
    let s := raise_height s height rnd in
    let '(x, s) := NewNode s key height in
    Some (x, height, prev, s).

Definition Insert (s : SkipList) (key : K) : option SkipList :=
  '(x, height, prev, s) ← insert_prepare s key;
  link_loop height 0 x prev s.

Definition Contains (s : SkipList) (key : K) : option bool :=
  '(x, _) ← FindGreaterOrEqual s key [];
  match x with
  | None => Some false
  | Some x => node ← nodes s !! x; Equal key (node_key node)
  end.

(** ** Iterators: the node they are at *)

Definition it_Valid (node_ : option nat) : bool := bool_decide (node_ ≠ None).

Definition it_key (s : SkipList) (node_ : option nat) : option K :=
  x ← node_; node ← nodes s !! x; Some (node_key node).

Definition it_Next (s : SkipList) (node_ : option nat) : option (option nat) :=
  x ← node_; node_Next s x 0.

(** Back to [NULL] from the head. *)
Definition not_head (x : nat) : option nat := if (x =? head_)%nat then None else Some x.

Definition it_Prev (s : SkipList) (node_ : option nat) : option (option nat) :=
  key ← it_key s node_; x ← FindLessThan s key; Some (not_head x).

Definition it_Seek (s : SkipList) (target : K) : option (option nat) :=
  '(x, _) ← FindGreaterOrEqual s target []; Some x.

Definition it_SeekToFirst (s : SkipList) : option (option nat) := node_Next s head_ 0.

Definition it_SeekToLast (s : SkipList) : option (option nat) :=
  x ← FindLast s; Some (not_head x).

End skiplist.

Arguments mkNode {K}.
Arguments node_key {K}.
Arguments next_ {K}.
Arguments mkSkipList {K}.
Arguments nodes {K}.
Arguments max_height_ {K}.
Arguments rnd_ {K}.
