(* ===== verification/SkipListSpec.v ===== *)
(** The skip list of SkipList.v is a sorted list of keys.

    [skip_inv s C] says that the links of level [i] form the chain [C !! i],
    that each chain is a part of the one below, and that the lowest chain is
    strictly sorted.  A search only moves forward on a chain and down to the
    next one, so it ends, at the boundary between the smaller keys and the
    others. *)

From Stdlib Require Import ZArith Lia.
From stdpp Require Import base option numbers list sorting.
From S2P Require Import Prelude Coding SkipList.

(** What the list needs of its comparator, on the keys it is used with. *)
Class KeyOrder {K} (wf : K → Prop) (compare_ : K → K → option Z) (cmp : K → K → Z) : Prop := {
  compare_wf a b : wf a → wf b → compare_ a b = Some (cmp a b);
  cmp_anti a b : wf a → wf b → Z.sgn (cmp b a) = - Z.sgn (cmp a b);
  cmp_trans a b c : wf a → wf b → wf c → cmp a b ≤ 0 → cmp b c ≤ 0 → cmp a c ≤ 0
}.

(** ** Lists split by a predicate that only goes from true to false *)

Section split.
Context {A : Type} (P : A → bool).

Definition keep (l : list A) : list A := filter P l.
Definition rest (l : list A) : list A := filter (λ x, P x = false) l.

Definition antitone (l : list A) : Prop := StronglySorted (λ x y, P y → P x) l.

Lemma keep_all l : Forall P l → keep l = l.
Proof.
  unfold keep. induction 1 as [|x l Hx Hl IH]; [done|]. rewrite filter_cons_True by done. by f_equal.
Qed.

Lemma keep_none l : Forall (λ x, P x = false) l → keep l = [].
Proof.
  unfold keep. induction 1 as [|x l Hx Hl IH]; [done|].
  rewrite filter_cons_False; [done|]. rewrite Hx. by intros [].
Qed.

Lemma rest_all l : Forall (λ x, P x = false) l → rest l = l.
Proof.
  unfold rest. induction 1 as [|x l Hx Hl IH]; [done|]. rewrite filter_cons_True by done. by f_equal.
Qed.

Lemma rest_none l : Forall P l → rest l = [].
Proof.
  unfold rest. induction 1 as [|x l Hx Hl IH]; [done|].
  rewrite filter_cons_False; [done|]. destruct (P x); [done|by destruct Hx].
Qed.

Lemma split_unique l r :
  Forall P l → Forall (λ x, P x = false) r → keep (l ++ r) = l ∧ rest (l ++ r) = r.
Proof.
  intros Hl Hr. unfold keep, rest. rewrite !filter_app.
  fold (keep l) (keep r) (rest l) (rest r).
  by rewrite (keep_all l), (keep_none r), (rest_none l), (rest_all r), app_nil_r.
Qed.

Lemma antitone_stop x l : antitone (x :: l) → P x = false → Forall (λ x, P x = false) (x :: l).
Proof.
  intros [_ Hx]%StronglySorted_inv Hp. constructor; [done|].
  eapply Forall_impl; [exact Hx|]. cbn. intros y Hy. destruct (P y); [|done].
  rewrite Hp in Hy. by exfalso; apply Hy.
Qed.

Lemma antitone_split l : antitone l → l = keep l ++ rest l.
Proof.
  induction l as [|x l IH]; intros Hl; [done|]. destruct (P x) eqn:E.
  - apply StronglySorted_inv in Hl as [Hl _]. unfold keep, rest in *.
    rewrite filter_cons_True by (by rewrite E). rewrite filter_cons_False by (by rewrite E).
    cbn. by f_equal; apply IH.
  - pose proof (antitone_stop x l Hl E). by rewrite keep_none, rest_all.
Qed.

Lemma antitone_before l x r : antitone (l ++ x :: r) → P x → Forall P l.
Proof.
  induction l as [|y l IH]; intros Hl Hx; [done|]. cbn in Hl.
  apply StronglySorted_inv in Hl as [Hl Hy]. constructor; [|by apply IH].
  rewrite Forall_forall in Hy. apply (Hy x); [|done]. apply elem_of_app. right. by left.
Qed.
End split.

Lemma StronglySorted_lookup {A} (R : A → A → Prop) (l : list A) :
  StronglySorted R l ↔ ∀ i j x y, (i < j)%nat → l !! i = Some x → l !! j = Some y → R x y.
Proof.
  split.
  - intros Hs i j x y Hij Hi Hj. rewrite <-(take_drop_middle l i x Hi) in Hs. apply StronglySorted_app_1_r in Hs.
    apply StronglySorted_cons in Hs as [Hx _]. rewrite Forall_forall in Hx. apply Hx, list_elem_of_lookup.
    exists (j - S i)%nat. rewrite lookup_drop. by replace (S i + (j - S i))%nat with j by lia.
  - induction l as [|x l IH]; intros Hl; [constructor|]. constructor.
    + apply IH. intros i j y z Hij Hi Hj. apply (Hl (S i) (S j)); [lia|done|done].
    + apply Forall_lookup. intros j y Hj. apply (Hl 0%nat (S j)); [lia|done|done].
Qed.

Lemma StronglySorted_sublist {A} (R : A → A → Prop) l k :
  sublist l k → StronglySorted R k → StronglySorted R l.
Proof.
  induction 1 as [|x l k H IH|x l k H IH]; intros Hk; [done|..];
    apply StronglySorted_inv in Hk as [Hk Hx]; [|by apply IH].
  constructor; [by apply IH|]. rewrite Forall_forall in *. intros y Hy.
  apply Hx. by eapply elem_of_sublist.
Qed.

Lemma sublist_filter_mono {A} (Q : A → Prop) `{!∀ x, Decision (Q x)} l k :
  sublist l k → sublist (filter Q l) (filter Q k).
Proof.
  induction 1 as [|x l k Hlk IH|x l k Hlk IH]; [done|..].
  - rewrite !filter_cons. case_decide; [by constructor|done].
  - rewrite (filter_cons _ x k). case_decide; [by constructor|done].
Qed.

(** The node a chain's prefix ends in; the head for the empty one. *)
Definition tail_of (l : list nat) : nat := default head_ (last l).

Lemma tail_of_snoc l x : tail_of (l ++ [x]) = x.
Proof. unfold tail_of. by rewrite last_snoc. Qed.

Section spec.
Context {K : Type} (any_key : K) (compare_ : K → K → option Z).
Context (wf : K → Prop) (cmp : K → K → Z) `{HK : !KeyOrder wf compare_ cmp}.

Definition key_at (s : SkipList) (x : nat) : K := default any_key (node_key <$> nodes s !! x).

(** ** Chains *)

Fixpoint links (s : @SkipList K) (i x : nat) (c : list nat) : Prop :=
  match c with
  | [] => node_Next s x i = Some None
  | y :: c' => node_Next s x i = Some (Some y) ∧ links s i y c'
  end.

Lemma links_tail s i x l r : links s i x (l ++ r) → links s i (default x (last l)) r.
Proof.
  revert x. induction l as [|y l IH]; intros x; [done|]. cbn [app links]. intros [_ H].
  apply IH in H. destruct l as [|z l]; [done|]. rewrite last_cons_cons.
  destruct (last (z :: l)) eqn:E; [done|]. by apply last_None in E.
Qed.

Lemma links_next s i l r : links s i head_ (l ++ r) → node_Next s (tail_of l) i = Some (head r).
Proof.
  intros H%links_tail. fold (tail_of l) in H. destruct r; [done|]. by destruct H as [-> _].
Qed.

Lemma links_valid s i x c : links s i x c → Forall (λ y, (y < length (nodes s))%nat) (x :: c).
Proof.
  revert x. induction c as [|y c IH]; intros x; cbn [links]; unfold node_Next.
  - intros H. constructor; [|constructor]. destruct (nodes s !! x) eqn:E; [|done].
    by apply lookup_lt_Some in E.
  - intros [H Hc]. constructor; [|by apply IH]. destruct (nodes s !! x) eqn:E; [|done].
    by apply lookup_lt_Some in E.
Qed.

Definition before (s : SkipList) (x y : nat) : Prop := cmp (key_at s x) (key_at s y) < 0.

Record skip_inv (s : SkipList) (C : nat → list nat) : Prop := {
  inv_links i : (i < kMaxHeight)%nat → links s i head_ (C i);
  inv_sub i : sublist (C (S i)) (C i);
  inv_top i : (max_height_ s ≤ i)%nat → C i = [];
  inv_height : (1 ≤ max_height_ s ≤ kMaxHeight)%nat;
  inv_sorted : StronglySorted (before s) (C 0%nat);
  inv_wf : Forall (λ x, wf (key_at s x)) (C 0%nat);
  inv_head : head_ ∉ C 0%nat
}.

Lemma inv_sub0 s C i : skip_inv s C → sublist (C i) (C 0%nat).
Proof.
  intros HI. induction i as [|i IH]; [done|]. etrans; [apply (inv_sub s C HI)|done].
Qed.

Lemma before_irrefl s x : wf (key_at s x) → ¬ before s x x.
Proof. unfold before. intros Hw. pose proof (cmp_anti _ _ Hw Hw). lia. Qed.

Lemma inv_nodup s C : skip_inv s C → NoDup (C 0%nat).
Proof.
  intros HI. pose proof (inv_wf s C HI) as Hw. pose proof (inv_sorted s C HI) as Hs.
  induction Hs as [|x l Hs IH Hx]; constructor.
  - intros Hin. rewrite Forall_forall in Hx. apply Hx in Hin.
    apply before_irrefl in Hin; [done|]. by inversion Hw.
  - apply IH. by inversion Hw.
Qed.

Lemma inv_length s C : skip_inv s C → (S (length (C 0%nat)) ≤ length (nodes s))%nat.
Proof.
  intros HI. change (S (length (C 0%nat))) with (length (head_ :: C 0%nat)).
  rewrite <-(length_seq (length (nodes s)) 0). apply submseteq_length, NoDup_submseteq.
  - constructor; [apply (inv_head s C HI)|by eapply inv_nodup].
  - intros x Hx. pose proof (links_valid s 0 head_ (C 0%nat)) as Hv.
    specialize (Hv (inv_links s C HI 0 ltac:(unfold kMaxHeight; lia))).
    rewrite Forall_forall in Hv. apply Hv in Hx. apply elem_of_seq. lia.
Qed.

Lemma inv_length_i s C i : skip_inv s C → (S (length (C i)) ≤ length (nodes s))%nat.
Proof.
  intros HI. pose proof (inv_length s C HI).
  pose proof (sublist_length _ _ (inv_sub0 s C i HI)). lia.
Qed.

(** ** Searching

    The three searches of the code are one walk: forward while the next node
    satisfies [P], else down. *)

Fixpoint walk (Pm : nat → option bool) (fuel : nat) (s : @SkipList K) (x level : nat)
    (prev : list (option nat)) : option (nat * option nat * list (option nat)) :=
  match fuel with
  | O => None
  | S fuel =>
      next ← node_Next s x level;
      forward ← (match next with Some n => Pm n | None => Some false end);
      if (forward : bool) then next ≫= λ x, walk Pm fuel s x level prev
      else
        let prev := <[level := Some x]> prev in
        match level with
        | O => Some (x, next, prev)
        | S level => walk Pm fuel s x level prev
        end
  end.

(** [prev] after a walk from [level] down. *)
Fixpoint walked (P : nat → bool) (C : nat → list nat) (level : nat) (prev : list (option nat))
  : list (option nat) :=
  let prev := <[level := Some (tail_of (keep P (C level)))]> prev in
  match level with
  | O => prev
  | S level => walked P C level prev
  end.

(** Down from the end of the prefix [l] of a chain to the chain below. *)
Lemma descend P c d l r :
  sublist d c → antitone P c → d = l ++ r → Forall P l →
  ∃ l' r', c = l' ++ r' ∧ Forall P l' ∧ tail_of l' = tail_of l.
Proof.
  intros Hs Ha -> Hl. destruct (last l) as [x|] eqn:E.
  - apply last_Some in E as [l0 ->]. apply Forall_app in Hl as [_ Hx].
    rewrite Forall_singleton in Hx.
    assert (Hin : x ∈ c).
    { eapply elem_of_sublist; [|exact Hs]. apply elem_of_app. left. apply elem_of_app. right. by left. }
    apply list_elem_of_split in Hin as (m1 & m2 & ->). exists (m1 ++ [x]), m2.
    split; [by rewrite <-app_assoc|]. split; [|by rewrite !tail_of_snoc].
    apply Forall_app. split; [|by apply Forall_singleton]. by eapply antitone_before.
  - apply last_None in E as ->. by exists [], c.
Qed.

Lemma walk_spec Pm P s C :
  skip_inv s C → antitone P (C 0%nat) → (∀ x, x ∈ C 0%nat → Pm x = Some (P x)) →
  ∀ fuel level l r prev,
  (level < kMaxHeight)%nat → C level = l ++ r → Forall P l →
  (length r + 1 + level * length (nodes s) ≤ fuel)%nat →
  walk Pm fuel s (tail_of l) level prev
  = Some (tail_of (keep P (C 0%nat)), head (rest P (C 0%nat)), walked P C level prev).
Proof.
  intros HI Ha HP. assert (Hai : ∀ i, antitone P (C i)).
  { intros i. eapply StronglySorted_sublist; [by eapply inv_sub0|done]. }
  induction fuel as [|fuel IH]; intros level l r prev Hlv HC Hl Hf; [lia|]. cbn [walk].
  pose proof (inv_links s C HI level Hlv) as Hlinks. rewrite HC in Hlinks.
  rewrite (links_next _ _ _ _ Hlinks). simpl_bind.
  assert (Hdone : Forall (λ x, P x = false) r →
    (let prev := <[level := Some (tail_of l)]> prev in
     match level with
     | O => Some (tail_of l, head r, prev)
     | S level => walk Pm fuel s (tail_of l) level prev
     end) = Some (tail_of (keep P (C 0%nat)), head (rest P (C 0%nat)), walked P C level prev)).
  { intros Hr. destruct (split_unique P l r Hl Hr) as [Hk Hre]. rewrite <-HC in Hk, Hre.
    cbn zeta. destruct level as [|level].
    - cbn [walked]. by rewrite Hk, Hre.
    - cbn [walked]. rewrite Hk.
      destruct (descend P (C level) (C (S level)) l r) as (l' & r' & HC' & Hl' & Ht);
        [apply (inv_sub s C HI)|done..|].
      rewrite <-Ht. apply (IH level l' r'); [lia|done|done|].
      pose proof (inv_length_i s C level HI) as Hlen. rewrite HC', length_app in Hlen. lia. }
  destruct r as [|y r]; cbn [head]; [apply Hdone; constructor|].
  rewrite (HP y); [|eapply elem_of_sublist; [|eapply (inv_sub0 s C level HI)]; rewrite HC;
    apply elem_of_app; right; by left]. simpl_bind.
  destruct (P y) eqn:E.
  - simpl_bind. replace y with (tail_of (l ++ [y])) by apply tail_of_snoc.
    apply (IH level (l ++ [y]) r); [done|by rewrite <-app_assoc| |cbn [length] in Hf; lia].
    apply Forall_app. split; [done|]. apply Forall_singleton. by rewrite E.
  - apply Hdone. eapply antitone_stop; [|done].
    specialize (Hai level). rewrite HC in Hai.
    eapply StronglySorted_sublist; [|exact Hai]. by apply sublist_inserts_l.
Qed.

Lemma walk_top Pm P s C prev :
  skip_inv s C → antitone P (C 0%nat) → (∀ x, x ∈ C 0%nat → Pm x = Some (P x)) →
  walk Pm (search_fuel s) s head_ (GetMaxHeight s - 1) prev
  = Some (tail_of (keep P (C 0%nat)), head (rest P (C 0%nat)),
          walked P C (GetMaxHeight s - 1) prev).
Proof.
  intros HI Ha HP. change head_ with (tail_of []) at 1.
  pose proof (inv_height s C HI) as Hh. unfold GetMaxHeight, search_fuel.
  eapply (walk_spec Pm P s C HI Ha HP) with (r := C (max_height_ s - 1)%nat); [lia|done|constructor|].
  pose proof (inv_length_i s C (max_height_ s - 1) HI) as Hlen.
  replace (max_height_ s) with (S (max_height_ s - 1)) at 3 by lia. cbn [Nat.mul]. lia.
Qed.

Lemma walked_lookup P C level prev i :
  (level < length prev)%nat → (i ≤ level)%nat →
  walked P C level prev !! i = Some (Some (tail_of (keep P (C i)))).
Proof.
  assert (Hsame : ∀ level prev j, (level < j)%nat → walked P C level prev !! j = prev !! j).
  { clear. induction level as [|level IH]; intros prev j Hj; cbn [walked].
    - by rewrite list_lookup_insert_ne by lia.
    - rewrite IH by lia. by rewrite list_lookup_insert_ne by lia. }
  revert prev. induction level as [|level IH]; intros prev Hl Hi; cbn [walked].
  - replace i with 0%nat by lia. by apply list_lookup_insert_eq.
  - destruct (decide (i = S level)) as [->|].
    + rewrite Hsame by lia. by apply list_lookup_insert_eq.
    + apply IH; [rewrite length_insert; lia|lia].
Qed.

Lemma length_walked P C level prev : length (walked P C level prev) = length prev.
Proof.
  revert prev. induction level as [|level IH]; intros prev; cbn [walked];
    rewrite ?IH; apply length_insert.
Qed.

(** The predicate of a search for [key]. *)
Definition key_before (s : SkipList) (key : K) (n : nat) : option bool :=
  c ← node_compare compare_ s n key; Some (c <? 0).

Definition is_before (s : SkipList) (key : K) (n : nat) : bool := cmp (key_at s n) key <? 0.

Lemma fge_loop_walk fuel s key x level prev :
  fge_loop compare_ fuel s key x level prev
  = '(_, n, prev) ← walk (key_before s key) fuel s x level prev; Some (n, prev).
Proof.
  revert x level prev. induction fuel as [|fuel IH]; intros x level prev; [done|].
  cbn [fge_loop walk]. destruct (node_Next s x level) as [next|]; [|done].
  simpl_bind. unfold KeyIsAfterNode, key_before. destruct next as [n|].
  - destruct (node_compare compare_ s n key) as [c|]; [|done]. simpl_bind.
    destruct (c <? 0); [apply IH|]. destruct level; [done|apply IH].
  - simpl_bind. destruct level; [done|apply IH].
Qed.

Lemma flt_loop_walk fuel s key x level prev :
  (x = head_ ∨ key_before s key x = Some true) →
  flt_loop compare_ fuel s key x level
  = '(x, _, _) ← walk (key_before s key) fuel s x level prev; Some x.
Proof.
  revert x level prev. induction fuel as [|fuel IH]; intros x level prev Hx; [done|].
  cbn [flt_loop walk].
  replace (if (x =? head_)%nat then _ else _) with (Some true).
  2:{ destruct (Nat.eqb_spec x head_); [done|]. destruct Hx as [|Hx]; [done|]. done. }
  cbn [mbind option_bind negb]. destruct (node_Next s x level) as [next|]; [|done].
  simpl_bind. destruct next as [n|].
  - assert (Hkb : key_before s key n = (c ← node_compare compare_ s n key; Some (c <? 0))) by done.
    rewrite Hkb. destruct (node_compare compare_ s n key) as [c|] eqn:E; [|done].
    simpl_bind in *. rewrite Z.leb_antisym. destruct (c <? 0) eqn:Ec; cbn [negb].
    + apply IH. by right.
    + destruct level; [done|by apply IH].
  - simpl_bind. destruct level; [done|by apply IH].
Qed.

Lemma flast_loop_walk fuel s x level prev :
  flast_loop fuel s x level
  = '(x, _, _) ← walk (λ _, Some true) fuel s x level prev; Some x.
Proof.
  revert x level prev. induction fuel as [|fuel IH]; intros x level prev; [done|].
  cbn [flast_loop walk]. destruct (node_Next s x level) as [[n|]|]; [|..|done];
    simpl_bind; [apply IH|]. destruct level; [done|apply IH].
Qed.

Lemma key_at_lookup s x : (x < length (nodes s))%nat →
  ∃ node, nodes s !! x = Some node ∧ node_key node = key_at s x.
Proof.
  intros Hx. destruct (lookup_lt_is_Some_2 _ _ Hx) as [node Hn]. exists node.
  split; [done|]. unfold key_at. by rewrite Hn.
Qed.

Lemma inv_valid s C x : skip_inv s C → x ∈ C 0%nat → (x < length (nodes s))%nat ∧ wf (key_at s x).
Proof.
  intros HI Hx. split.
  - pose proof (links_valid s 0 head_ (C 0%nat)) as Hv.
    specialize (Hv (inv_links s C HI 0 ltac:(unfold kMaxHeight; lia))).
    rewrite Forall_forall in Hv. apply Hv. by right.
  - pose proof (inv_wf s C HI) as Hw. rewrite Forall_forall in Hw. by apply Hw.
Qed.

Lemma key_before_spec s C key x :
  skip_inv s C → wf key → x ∈ C 0%nat → key_before s key x = Some (is_before s key x).
Proof.
  intros HI Hk Hx. destruct (inv_valid s C x HI Hx) as [Hlt Hw].
  destruct (key_at_lookup s x Hlt) as (node & Hn & Hkey).
  unfold key_before, node_compare. rewrite Hn. simpl_bind.
  rewrite Hkey, (compare_wf _ _ Hw Hk). done.
Qed.

Lemma cmp_lt_trans a b c : wf a → wf b → wf c → cmp a b < 0 → cmp b c < 0 → cmp a c < 0.
Proof.
  intros Ha Hb Hc Hab Hbc. pose proof (cmp_anti a c Ha Hc). pose proof (cmp_anti a b Ha Hb).
  pose proof (cmp_trans b c a Hb Hc Ha).
  destruct (decide (cmp a c < 0)) as [|]; [done|]. lia.
Qed.

Lemma is_before_antitone s C key : skip_inv s C → wf key → antitone (is_before s key) (C 0%nat).
Proof.
  intros HI Hk. pose proof (inv_sorted s C HI) as Hs. pose proof (inv_wf s C HI) as Hw.
  unfold antitone. induction Hs as [|x l Hs IH Hx]; [constructor|].
  apply Forall_cons in Hw as [Hwx Hwl]. constructor; [by apply IH|].
  rewrite Forall_forall in *. intros y Hy Hby. specialize (Hx y Hy). specialize (Hwl y Hy).
  unfold is_before, before in *. apply Is_true_true, Z.ltb_lt.
  apply Is_true_true, Z.ltb_lt in Hby. by apply (cmp_lt_trans _ (key_at s y)).
Qed.

Lemma FindGreaterOrEqual_spec s C key prev :
  skip_inv s C → wf key →
  FindGreaterOrEqual compare_ s key prev
  = Some (head (rest (is_before s key) (C 0%nat)),
          walked (is_before s key) C (GetMaxHeight s - 1) prev).
Proof.
  intros HI Hk. unfold FindGreaterOrEqual. rewrite fge_loop_walk.
  rewrite (walk_top _ (is_before s key) s C); [done|done|by apply is_before_antitone|].
  intros x Hx. by eapply key_before_spec.
Qed.

Lemma FindLessThan_spec s C key :
  skip_inv s C → wf key →
  FindLessThan compare_ s key = Some (tail_of (keep (is_before s key) (C 0%nat))).
Proof.
  intros HI Hk. unfold FindLessThan. rewrite (flt_loop_walk _ _ _ _ _ []) by (by left).
  rewrite (walk_top _ (is_before s key) s C); [done|done|by apply is_before_antitone|].
  intros x Hx. by eapply key_before_spec.
Qed.

Lemma FindLast_spec s C : skip_inv s C → FindLast s = Some (tail_of (C 0%nat)).
Proof.
  intros HI. unfold FindLast. rewrite (flast_loop_walk _ _ _ _ []).
  assert (Ht : antitone (λ _ : nat, true) (C 0%nat)).
  { unfold antitone. induction (C 0%nat); constructor; [done|]. by apply Forall_true. }
  rewrite (walk_top _ (λ _, true) s C); [|done..]. simpl_bind.
  rewrite keep_all; [done|]. by apply Forall_true.
Qed.
End spec.

(** Inserting into the skip list of SkipList.v: every store of [Insert] keeps
    [skip_inv], the key becomes part of the lowest chain with the first
    publishing store, and of the upper chains with the later ones. *)

Lemma StronglySorted_insert {A} (R : A → A → Prop) l x r :
  StronglySorted R (l ++ r) → Forall (λ y, R y x) l → Forall (R x) r →
  (∀ a b, a ∈ l → b ∈ r → R a b) →
  StronglySorted R (l ++ x :: r).
Proof.
  induction l as [|y l IH]; cbn [app]; intros Hs Hl Hr Hlr; [by constructor|].
  apply StronglySorted_inv in Hs as [Hs Hy]. apply Forall_cons in Hl as [Hyx Hl].
  constructor.
  - apply IH; [done..|]. intros a b Ha Hb. apply Hlr; [by right|done].
  - apply Forall_app in Hy as [Hy1 Hy2]. apply Forall_app. split; [done|]. by constructor.
Qed.

Lemma StronglySorted_impl {A} (R R' : A → A → Prop) l :
  (∀ x y, x ∈ l → y ∈ l → R x y → R' x y) → StronglySorted R l → StronglySorted R' l.
Proof.
  intros HR Hs. induction Hs as [|x l Hs IH Hx]; constructor.
  - apply IH. intros. apply HR; [by right..|done].
  - rewrite Forall_forall in *. intros y Hy. apply HR; [by left|by right|by apply Hx].
Qed.

Section insert.
Context {K : Type} (any_key : K) (compare_ : K → K → option Z).
Context (wf : K → Prop) (cmp : K → K → Z) `{HK : !KeyOrder wf compare_ cmp}.

Abbreviation key_at := (key_at any_key).
Abbreviation before := (before any_key cmp).
Abbreviation skip_inv := (skip_inv any_key wf cmp).
Abbreviation is_before := (is_before any_key cmp).

(** ** One store *)

Record link_upd (s s' : @SkipList K) (x n : nat) (v : option nat) : Prop := {
  upd_next y j : node_Next s' y j = if decide (y = x ∧ j = n) then Some v else node_Next s y j;
  upd_key y : key_at s' y = key_at s y;
  upd_length : length (nodes s') = length (nodes s);
  upd_height : max_height_ s' = max_height_ s
}.

Lemma node_SetNext_upd s x n v w :
  node_Next s x n = Some w → ∃ s', node_SetNext s x n v = Some s' ∧ link_upd s s' x n v.
Proof.
  unfold node_Next, node_SetNext. intros H. destruct (nodes s !! x) as [node|] eqn:E; [|done].
  simpl_bind in *. pose proof (lookup_lt_Some _ _ _ H) as Hn.
  pose proof (lookup_lt_Some _ _ _ E) as Hx.
  rewrite bool_decide_true by done. eexists. split; [done|]. split; cbn [nodes set_nodes].
  - intros y j. unfold node_Next. cbn [nodes set_nodes].
    destruct (decide (y = x)) as [->|Hy].
    + rewrite list_lookup_insert_eq, E by done. cbn [mbind option_bind next_].
      destruct (decide (j = n)) as [->|].
      * rewrite decide_True by done. by apply list_lookup_insert_eq.
      * rewrite decide_False by naive_solver. by apply list_lookup_insert_ne.
    + rewrite list_lookup_insert_ne, decide_False by naive_solver. done.
  - intros y. unfold SkipListSpec.key_at. cbn [nodes set_nodes].
    destruct (decide (y = x)) as [->|Hy].
    + rewrite list_lookup_insert_eq, E by done. done.
    + by rewrite list_lookup_insert_ne by done.
  - apply length_insert.
  - done.
Qed.

Lemma links_ext (s s' : @SkipList K) i x c :
  (∀ y, y ∈ x :: c → node_Next s' y i = node_Next s y i) → links s i x c → links s' i x c.
Proof.
  revert x. induction c as [|y c IH]; intros x Hs; cbn [links].
  - rewrite Hs by (by left). done.
  - intros [H Hc]. rewrite Hs by (by left). split; [done|]. apply IH; [|done].
    intros z Hz. apply Hs. by right.
Qed.

(** A store at a level changes no other chain, and not the chains that do
    not go through the node. *)
Lemma links_upd s s' x n v i h c :
  link_upd s s' x n v → i ≠ n ∨ x ∉ h :: c → links s i h c → links s' i h c.
Proof.
  intros Hu Hd. apply links_ext. intros y Hy. rewrite (upd_next _ _ _ _ _ Hu).
  rewrite decide_False; [done|]. intros [-> ->]. by destruct Hd.
Qed.

Lemma skip_inv_upd s s' x n v C :
  link_upd s s' x n v → skip_inv s C → (∀ i, (i < kMaxHeight)%nat → links s' i head_ (C i)) →
  skip_inv s' C.
Proof.
  intros Hu HI Hl. split; [done|apply (inv_sub _ _ _ s C HI)|..].
  - rewrite (upd_height _ _ _ _ _ Hu). apply (inv_top _ _ _ s C HI).
  - rewrite (upd_height _ _ _ _ _ Hu). apply (inv_height _ _ _ s C HI).
  - eapply StronglySorted_impl; [|apply (inv_sorted _ _ _ s C HI)].
    intros a b _ _. unfold SkipListSpec.before. by rewrite !(upd_key _ _ _ _ _ Hu).
  - eapply Forall_impl; [apply (inv_wf _ _ _ s C HI)|]. cbn. intros a.
    by rewrite (upd_key _ _ _ _ _ Hu).
  - apply (inv_head _ _ _ s C HI).
Qed.

(** Publishing a node whose link is set. *)
Lemma links_insert s s' x i h l r :
  link_upd s s' (default h (last l)) i (Some x) →
  NoDup (h :: l ++ r) → x ∉ h :: l ++ r →
  node_Next s x i = Some (head r) → links s i h (l ++ r) → links s' i h (l ++ x :: r).
Proof.
  revert h. induction l as [|z l IH]; intros h Hu Hnd Hx Hnx Hl; cbn [app links] in *.
  - change (default h (last [])) with h in Hu. split.
    { rewrite (upd_next _ _ _ _ _ Hu), decide_True by done. done. }
    assert (Hxh : x ≠ h) by (intros ->; apply Hx; by left).
    assert (Hnx' : node_Next s' x i = Some (head r)).
    { rewrite (upd_next _ _ _ _ _ Hu), decide_False by (by intros [-> _]). done. }
    destruct r as [|y r]; [done|]. cbn [head links] in *. destruct Hl as [_ Hl].
    split; [done|]. eapply links_upd; [exact Hu| |exact Hl]. right.
    by apply NoDup_cons in Hnd as [? _].
  - destruct Hl as [Hh Hl]. apply NoDup_cons in Hnd as [Hhn Hnd].
    assert (Hlast : default h (last (z :: l)) = default z (last l)).
    { destruct l as [|w l]; [done|]. rewrite last_cons_cons.
      destruct (last (w :: l)) eqn:E; [done|]. by apply last_None in E. }
    rewrite Hlast in Hu. split.
    + rewrite (upd_next _ _ _ _ _ Hu), decide_False; [done|]. intros [He _].
      apply Hhn. rewrite He. destruct (last l) as [w|] eqn:E; cbn [default].
      * apply last_Some in E as [l' ->]. right. apply elem_of_app. left.
        apply elem_of_app. right. by left.
      * by left.
    + apply IH; [done|done| |done|done]. intros Hin. apply Hx. by right.
Qed.

(** ** The linking loop *)

Section linking.
Context (s0 : @SkipList K) (C : nat → list nat) (key : K) (x h : nat).
Context (HI0 : skip_inv s0 C) (Hkey : wf key).
Context (Hfresh : Forall (λ y, cmp key (key_at s0 y) ≠ 0) (C 0%nat)).
Context (Hx : x ∉ head_ :: C 0%nat).

Abbreviation P := (is_before s0 key).

(** The chains when the node is published below level [j]. *)
Definition linked (j i : nat) : list nat :=
  if (i <? j)%nat then keep P (C i) ++ x :: rest P (C i) else C i.

Record linking (s : SkipList) (j : nat) : Prop := {
  lk_inv : skip_inv s (linked j);
  lk_x i : (i < h)%nat → ∃ w, node_Next s x i = Some w;
  lk_key : key_at s x = key;
  lk_old y : y ∈ C 0%nat → key_at s y = key_at s0 y;
  lk_height : (h ≤ max_height_ s)%nat
}.

Lemma C_split i : C i = keep P (C i) ++ rest P (C i).
Proof.
  apply antitone_split. eapply StronglySorted_sublist.
  - exact (inv_sub0 _ _ _ s0 C i HI0).
  - by apply (is_before_antitone any_key compare_ wf cmp).
Qed.

Lemma C_sub i y : y ∈ C i → y ∈ C 0%nat.
Proof. intros. eapply elem_of_sublist; [done|]. exact (inv_sub0 _ _ _ s0 C i HI0). Qed.

Lemma C_nodup i : NoDup (head_ :: C i).
Proof.
  constructor.
  - intros Hin%C_sub. by apply (inv_head _ _ _ s0 C HI0).
  - eapply sublist_NoDup; [|exact (inv_sub0 _ _ _ s0 C i HI0)].
    by apply (inv_nodup any_key compare_ wf cmp s0).
Qed.

Lemma x_fresh i : x ∉ head_ :: C i.
Proof.
  intros [->|Hin]%elem_of_cons; apply Hx; [by left|]. right. by eapply C_sub.
Qed.

Lemma linked_sub j i : sublist (linked j (S i)) (linked j i).
Proof.
  pose proof (inv_sub _ _ _ s0 C HI0 i) as Hs. unfold linked.
  destruct (Nat.ltb_spec (S i) j), (Nat.ltb_spec i j); [|lia| |done].
  - apply sublist_app; [by apply sublist_filter_mono|]. constructor.
    by apply sublist_filter_mono.
  - etrans; [exact Hs|]. rewrite (C_split i) at 1. apply sublist_app; [done|].
    by constructor.
Qed.

Lemma linked_in j y : y ∈ linked j 0%nat → y = x ∨ y ∈ C 0%nat.
Proof.
  unfold linked. destruct (0 <? j)%nat; [|by right]. rewrite (C_split 0) at 3.
  rewrite !elem_of_app, elem_of_cons. tauto.
Qed.

Lemma rest_after y : y ∈ rest P (C 0%nat) → cmp key (key_at s0 y) < 0.
Proof.
  unfold rest. rewrite list_elem_of_filter. intros [Hp Hy]. unfold SkipListSpec.is_before in Hp.
  apply Z.ltb_ge in Hp. rewrite Forall_forall in Hfresh. specialize (Hfresh y Hy).
  pose proof (inv_valid any_key wf cmp s0 C y HI0 Hy) as [_ Hw].
  pose proof (cmp_anti _ _ Hkey Hw). lia.
Qed.

Lemma keep_before y : y ∈ keep P (C 0%nat) → cmp (key_at s0 y) key < 0.
Proof.
  unfold keep. rewrite list_elem_of_filter. intros [Hp _].
  by apply Is_true_true, Z.ltb_lt in Hp.
Qed.

Lemma linked_sorted s j :
  key_at s x = key → (∀ y, y ∈ C 0%nat → key_at s y = key_at s0 y) →
  StronglySorted (before s) (linked (S j) 0%nat).
Proof.
  intros Hkx Hold. unfold linked. cbn [Nat.ltb Nat.leb].
  assert (Hk : ∀ y, y ∈ keep P (C 0%nat) → y ∈ C 0%nat)
    by (intros y Hy; by apply list_elem_of_filter in Hy as [_ ?]).
  assert (Hr : ∀ y, y ∈ rest P (C 0%nat) → y ∈ C 0%nat)
    by (intros y Hy; by apply list_elem_of_filter in Hy as [_ ?]).
  apply StronglySorted_insert.
  - rewrite <-C_split. eapply StronglySorted_impl; [|exact (inv_sorted _ _ _ s0 C HI0)].
    intros a b Ha Hb. unfold SkipListSpec.before. by rewrite !Hold.
  - apply Forall_forall. intros y Hy. unfold SkipListSpec.before.
    rewrite Hkx, Hold by (by apply Hk). by apply keep_before.
  - apply Forall_forall. intros y Hy. unfold SkipListSpec.before.
    rewrite Hkx, Hold by (by apply Hr). by apply rest_after.
  - intros a b Ha Hb. unfold SkipListSpec.before. rewrite !Hold by auto.
    eapply (cmp_lt_trans compare_ wf cmp _ key).
    + by eapply (inv_valid any_key wf cmp s0 C); [|apply Hk].
    + done.
    + by eapply (inv_valid any_key wf cmp s0 C); [|apply Hr].
    + by apply keep_before.
    + by apply rest_after.
Qed.

Lemma link_node_step s j prev :
  linking s j → (j < h)%nat → prev !! j = Some (Some (tail_of (keep P (C j)))) →
  ∃ s', link_node x prev j s = Some s' ∧ linking s' j ∧
    node_Next s' x j = Some (head (rest P (C j))).
Proof.
  intros HL Hj Hp. unfold link_node. rewrite Hp. cbn [mjoin option_join mbind option_bind].
  assert (Hjm : (j < kMaxHeight)%nat).
  { pose proof (inv_height _ _ _ s _ (lk_inv _ _ HL)). pose proof (lk_height _ _ HL). lia. }
  pose proof (inv_links _ _ _ s _ (lk_inv _ _ HL) j Hjm) as Hl.
  unfold linked in Hl. rewrite Nat.ltb_irrefl in Hl. rewrite (C_split j) in Hl.
  rewrite (links_next _ _ _ _ Hl). simpl_bind.
  destruct (lk_x _ _ HL j Hj) as [w Hw].
  destruct (node_SetNext_upd s x j (head (rest P (C j))) w Hw) as (s' & -> & Hu).
  exists s'. split; [done|]. split; [split|].
  - eapply skip_inv_upd; [exact Hu|exact (lk_inv _ _ HL)|]. intros i Hi.
    eapply links_upd; [exact Hu| |exact (inv_links _ _ _ s _ (lk_inv _ _ HL) i Hi)].
    destruct (decide (i = j)) as [->|]; [right|by left].
    unfold linked. rewrite Nat.ltb_irrefl. apply x_fresh.
  - intros i Hi. rewrite (upd_next _ _ _ _ _ Hu). case_decide; [by eexists|].
    by apply (lk_x _ _ HL).
  - rewrite (upd_key _ _ _ _ _ Hu). apply (lk_key _ _ HL).
  - intros y Hy. rewrite (upd_key _ _ _ _ _ Hu). by apply (lk_old _ _ HL).
  - rewrite (upd_height _ _ _ _ _ Hu). apply (lk_height _ _ HL).
  - by rewrite (upd_next _ _ _ _ _ Hu), decide_True by done.
Qed.

Lemma link_prev_step s j prev :
  linking s j → (j < h)%nat → prev !! j = Some (Some (tail_of (keep P (C j)))) →
  node_Next s x j = Some (head (rest P (C j))) →
  ∃ s', link_prev x prev j s = Some s' ∧ linking s' (S j).
Proof.
  intros HL Hj Hp Hnx. unfold link_prev. rewrite Hp. cbn [mjoin option_join mbind option_bind].
  assert (Hjm : (j < kMaxHeight)%nat).
  { pose proof (inv_height _ _ _ s _ (lk_inv _ _ HL)). pose proof (lk_height _ _ HL). lia. }
  pose proof (inv_links _ _ _ s _ (lk_inv _ _ HL) j Hjm) as Hl.
  unfold linked in Hl. rewrite Nat.ltb_irrefl in Hl. rewrite (C_split j) in Hl.
  destruct (node_SetNext_upd s (tail_of (keep P (C j))) j (Some x) _ (links_next _ _ _ _ Hl))
    as (s' & -> & Hu).
  exists s'. split; [done|]. split.
  - split.
    + intros i Hi. destruct (decide (i = j)) as [->|Hij].
      * unfold linked. rewrite (proj2 (Nat.ltb_lt j (S j))) by lia.
        eapply links_insert; [exact Hu|..|exact Hnx|exact Hl].
        -- rewrite <-C_split. apply C_nodup.
        -- rewrite <-C_split. apply x_fresh.
      * eapply links_upd; [exact Hu|by left|].
        replace (linked (S j) i) with (linked j i).
        { exact (inv_links _ _ _ s _ (lk_inv _ _ HL) i Hi). }
        unfold linked. destruct (Nat.ltb_spec i j), (Nat.ltb_spec i (S j)); (done || lia).
    + apply linked_sub.
    + intros i Hi. rewrite (upd_height _ _ _ _ _ Hu) in Hi. pose proof (lk_height _ _ HL).
      pose proof (inv_top _ _ _ s _ (lk_inv _ _ HL) i Hi) as Ht. unfold linked in *.
      rewrite (proj2 (Nat.ltb_ge i j)) in Ht by lia. by rewrite (proj2 (Nat.ltb_ge i (S j))) by lia.
    + rewrite (upd_height _ _ _ _ _ Hu). exact (inv_height _ _ _ s _ (lk_inv _ _ HL)).
    + apply linked_sorted.
      * rewrite (upd_key _ _ _ _ _ Hu). apply (lk_key _ _ HL).
      * intros y Hy. rewrite (upd_key _ _ _ _ _ Hu). by apply (lk_old _ _ HL).
    + apply Forall_forall. intros y [->|Hy]%linked_in; rewrite (upd_key _ _ _ _ _ Hu).
      * by rewrite (lk_key _ _ HL).
      * rewrite (lk_old _ _ HL) by done. by eapply (inv_valid any_key wf cmp s0 C).
    + intros [Hh|Hh]%linked_in.
      * apply Hx. rewrite Hh. by left.
      * by apply (inv_head _ _ _ s0 C HI0).
  - intros i Hi. rewrite (upd_next _ _ _ _ _ Hu). case_decide; [by eexists|].
    by apply (lk_x _ _ HL).
  - rewrite (upd_key _ _ _ _ _ Hu). apply (lk_key _ _ HL).
  - intros y Hy. rewrite (upd_key _ _ _ _ _ Hu). by apply (lk_old _ _ HL).
  - rewrite (upd_height _ _ _ _ _ Hu). apply (lk_height _ _ HL).
Qed.

Lemma link_loop_run n j s prev :
  linking s j → (j + n = h)%nat →
  (∀ i, (i < h)%nat → prev !! i = Some (Some (tail_of (keep P (C i))))) →
  ∃ s', link_loop n j x prev s = Some s' ∧ linking s' h.
Proof.
  revert j s. induction n as [|n IH]; intros j s HL Hj Hp; cbn [link_loop].
  { exists s. split; [done|]. by replace h with j by lia. }
  destruct (link_node_step s j prev HL ltac:(lia) (Hp j ltac:(lia))) as (s1 & -> & HL1 & Hn).
  simpl_bind.
  destruct (link_prev_step s1 j prev HL1 ltac:(lia) (Hp j ltac:(lia)) Hn) as (s2 & -> & HL2).
  simpl_bind. apply IH; [done|lia|done].
Qed.
End linking.
End insert.
