(* ===== verification/SkipListRefine.v ===== *)
(** The skip list implements an ordered table of keys.

    [OrderedTable] is what the memtable uses of its table, [OrderedTableLaws]
    what it relies on, with a table represented by the sorted list of its
    keys; the skip list of SkipList.v is an instance. *)

From Stdlib Require Import ZArith Lia.
From stdpp Require Import base option numbers list sorting.
From S2P Require Import Prelude Coding SkipList SkipListSpec.

(** ** The interface *)

Class OrderedTable (K : Type) := {
  table : Type;
  table_new : table;
  table_Insert : table → K → option table;
  table_Contains : table → K → option bool;
  (** iterators *)
  table_iter : Type;
  table_Valid : table_iter → bool;
  table_key : table → table_iter → option K;
  table_Next : table → table_iter → option table_iter;
  table_Prev : table → table_iter → option table_iter;
  table_Seek : table → K → option table_iter;
  table_SeekToFirst : table → option table_iter;
  table_SeekToLast : table → option table_iter
}.

(** Inserting into a sorted list. *)
Definition sorted_insert {K} (cmp : K → K → Z) (key : K) (ks : list K) : list K :=
  filter (λ k, cmp k key < 0) ks ++ key :: filter (λ k, ¬ cmp k key < 0) ks.

(** [table_rep t ks]: the table [t] holds the keys [ks], in order;
    [table_at t ks it i]: the iterator [it] over [t] is at position [i] of
    [ks], the end of the list being the invalid iterator. *)
Class OrderedTableLaws {K} (T : OrderedTable K) (wf : K → Prop) (cmp : K → K → Z) := {
  table_rep : table → list K → Prop;
  table_at : table → list K → table_iter → nat → Prop;
  rep_sorted t ks :
    table_rep t ks → StronglySorted (λ a b, cmp a b < 0) ks ∧ Forall wf ks;
  rep_new : table_rep table_new [];
  rep_Insert t ks key :
    table_rep t ks → wf key → Forall (λ k, cmp key k ≠ 0) ks →
    ∃ t', table_Insert t key = Some t' ∧ table_rep t' (sorted_insert cmp key ks);
  rep_Contains t ks key :
    table_rep t ks → wf key →
    table_Contains t key = Some (bool_decide (Exists (λ k, cmp key k = 0) ks));
  at_Valid t ks it i :
    table_at t ks it i → table_Valid it = bool_decide (i < length ks)%nat;
  at_key t ks it i : table_at t ks it i → table_key t it = ks !! i;
  at_Next t ks it i :
    table_at t ks it i → (i < length ks)%nat →
    ∃ it', table_Next t it = Some it' ∧ table_at t ks it' (S i);
  at_Prev t ks it i :
    table_at t ks it i → (i < length ks)%nat →
    ∃ it', table_Prev t it = Some it' ∧
      table_at t ks it' (if (i =? 0)%nat then length ks else i - 1)%nat;
  rep_Seek t ks key :
    table_rep t ks → wf key →
    ∃ it, table_Seek t key = Some it ∧
      table_at t ks it (length (filter (λ k, cmp k key < 0) ks));
  rep_SeekToFirst t ks :
    table_rep t ks → ∃ it, table_SeekToFirst t = Some it ∧ table_at t ks it 0%nat;
  rep_SeekToLast t ks :
    table_rep t ks → ∃ it, table_SeekToLast t = Some it ∧ table_at t ks it (length ks - 1)%nat
}.

Definition skiplist_table {K} (any_key : K) (compare_ : K → K → option Z) : OrderedTable K := {|
  table := @SkipList K;
  table_new := NewSkipList any_key;
  table_Insert := Insert compare_;
  table_Contains := Contains compare_;
  table_iter := option nat;
  table_Valid := it_Valid;
  table_key := it_key;
  table_Next := it_Next;
  table_Prev := it_Prev compare_;
  table_Seek := it_Seek compare_;
  table_SeekToFirst := it_SeekToFirst;
  table_SeekToLast := it_SeekToLast
|}.

(** ** Heights and the [prev] array *)

Lemma random_height_loop_range fuel h rnd :
  (1 ≤ h ≤ kMaxHeight)%nat → (1 ≤ (random_height_loop fuel h rnd).1 ≤ kMaxHeight)%nat.
Proof.
  revert h rnd. induction fuel as [|fuel IH]; intros h rnd Hh; cbn [random_height_loop]; [done|].
  destruct (Nat.ltb_spec h kMaxHeight); [|done].
  destruct (Random_Next rnd mod 4 =? 0); [|done]. apply IH. lia.
Qed.

Lemma RandomHeight_range rnd : (1 ≤ (RandomHeight rnd).1 ≤ kMaxHeight)%nat.
Proof. apply random_height_loop_range. unfold kMaxHeight. lia. Qed.

Lemma fill_prev_lookup prev from height i :
  (height ≤ length prev)%nat →
  fill_prev prev from height !! i
  = if decide (from ≤ i < height)%nat then Some (Some head_) else prev !! i.
Proof.
  unfold fill_prev. intros Hh. remember (height - from)%nat as n eqn:En.
  revert prev from Hh En. induction n as [|n IH]; intros prev from Hh En; cbn [seq foldl].
  { by rewrite decide_False by lia. }
  rewrite IH by (rewrite ?length_insert; lia). destruct (decide (i = from)) as [->|Hi].
  - rewrite decide_False, decide_True by lia. apply list_lookup_insert_eq. lia.
  - rewrite list_lookup_insert_ne by done.
    by destruct (decide (S from ≤ i < height)%nat), (decide (from ≤ i < height)%nat); try lia.
Qed.

Section refine.
Context {K : Type} (any_key : K) (compare_ : K → K → option Z).
Context (wf : K → Prop) (cmp : K → K → Z) {HK : KeyOrder wf compare_ cmp}.

Abbreviation key_at := (key_at any_key).
Abbreviation skip_inv := (skip_inv any_key wf cmp).
Abbreviation is_before := (is_before any_key cmp).

Definition keys_of (s : SkipList) (C : nat → list nat) : list K := key_at s <$> C 0%nat.

Definition sl_rep (s : SkipList) (ks : list K) : Prop :=
  ∃ C, skip_inv s C ∧ ks = keys_of s C.

Definition sl_at (s : SkipList) (ks : list K) (it : option nat) (i : nat) : Prop :=
  ∃ C, skip_inv s C ∧ ks = keys_of s C ∧ it = C 0%nat !! i ∧ (i ≤ length ks)%nat.

(** ** Allocating a node *)

Lemma alloc_inv s C key h rnd :
  skip_inv s C → (1 ≤ h ≤ kMaxHeight)%nat →
  skip_inv (NewNode (raise_height s h rnd) key h).2 C.
Proof.
  intros HI Hh. set (s' := (NewNode (raise_height s h rnd) key h).2).
  assert (Hnodes : nodes s' = nodes s ++ [mkNode key (replicate h None)]) by done.
  assert (Hnext : ∀ y i, (y < length (nodes s))%nat → node_Next s' y i = node_Next s y i).
  { intros y i Hy. unfold node_Next. by rewrite Hnodes, lookup_app_l by done. }
  assert (Hkey : ∀ y, (y < length (nodes s))%nat → key_at s' y = key_at s y).
  { intros y Hy. unfold SkipListSpec.key_at. by rewrite Hnodes, lookup_app_l by done. }
  assert (Hval : ∀ y, y ∈ C 0%nat → (y < length (nodes s))%nat).
  { intros y Hy. by eapply (inv_valid any_key wf cmp s C). }
  pose proof (inv_height _ _ _ s C HI) as Hmh.
  assert (Hmax : max_height_ s' = if (max_height_ s <? h)%nat then h else max_height_ s) by done.
  split.
  - intros i Hi. pose proof (inv_links _ _ _ s C HI i Hi) as Hl.
    eapply links_ext; [|exact Hl]. intros y Hy. apply Hnext.
    pose proof (links_valid _ _ _ _ Hl) as Hv. rewrite Forall_forall in Hv. by apply Hv.
  - apply (inv_sub _ _ _ s C HI).
  - intros i Hi. apply (inv_top _ _ _ s C HI). rewrite Hmax in Hi.
    destruct (Nat.ltb_spec (max_height_ s) h); lia.
  - rewrite Hmax. destruct (Nat.ltb_spec (max_height_ s) h); lia.
  - eapply StronglySorted_impl; [|apply (inv_sorted _ _ _ s C HI)].
    intros a b Ha Hb. unfold before. by rewrite !Hkey by (by apply Hval).
  - pose proof (inv_wf _ _ _ s C HI) as Hw. rewrite Forall_forall in *. intros y Hy.
    rewrite Hkey by (by apply Hval). by apply Hw.
  - apply (inv_head _ _ _ s C HI).
Qed.

Lemma alloc_linking s C key h rnd :
  skip_inv s C → (1 ≤ h ≤ kMaxHeight)%nat →
  linking any_key wf cmp s C key (length (nodes s)) h
    (NewNode (raise_height s h rnd) key h).2 0.
Proof.
  intros HI Hh. split.
  - by apply alloc_inv.
  - intros i Hi. exists None. unfold node_Next. cbn.
    rewrite lookup_app_r, Nat.sub_diag by lia. cbn. by apply lookup_replicate_2.
  - unfold SkipListSpec.key_at. cbn. by rewrite lookup_app_r, Nat.sub_diag by lia.
  - intros y Hy. unfold SkipListSpec.key_at. cbn. rewrite lookup_app_l; [done|].
    by eapply (inv_valid any_key wf cmp s C).
  - change (max_height_ (NewNode (raise_height s h rnd) key h).2)
      with (if (max_height_ s <? h)%nat then h else max_height_ s).
    destruct (Nat.ltb_spec (max_height_ s) h); lia.
Qed.

Lemma insert_prev s C key h :
  skip_inv s C → (1 ≤ h ≤ kMaxHeight)%nat →
  ∀ i, (i < h)%nat →
  (let prev := walked (is_before s key) C (GetMaxHeight s - 1) (replicate kMaxHeight None) in
   if (GetMaxHeight s <? h)%nat then fill_prev prev (GetMaxHeight s) h else prev) !! i
  = Some (Some (tail_of (keep (is_before s key) (C i)))).
Proof.
  intros HI Hh i Hi. cbv zeta. pose proof (inv_height _ _ _ s C HI) as Hmh. unfold GetMaxHeight.
  set (prev := walked _ _ _ _).
  assert (Hlen : length prev = kMaxHeight) by (unfold prev; by rewrite length_walked, length_replicate).
  assert (Hlow : (i < max_height_ s)%nat →
    prev !! i = Some (Some (tail_of (keep (is_before s key) (C i))))).
  { intros Hlt. apply walked_lookup; [rewrite length_replicate; lia|lia]. }
  destruct (Nat.ltb_spec (max_height_ s) h).
  - rewrite fill_prev_lookup by lia. case_decide; [|apply Hlow; lia].
    by rewrite (inv_top _ _ _ s C HI i) by lia.
  - apply Hlow. lia.
Qed.

Lemma filter_fmap_keys s (l : list nat) key :
  filter (λ k, cmp k key < 0) (key_at s <$> l) = key_at s <$> keep (is_before s key) l.
Proof.
  unfold keep. induction l as [|y l IH]; [done|]. rewrite fmap_cons, !filter_cons, IH.
  pose proof (eq_refl : is_before s key y = (cmp (key_at s y) key <? 0)) as E.
  destruct (Z.ltb_spec (cmp (key_at s y) key) 0).
  - rewrite decide_True by done. by rewrite decide_True by (by rewrite E).
  - rewrite decide_False by lia. by rewrite decide_False by (rewrite E; by intros []).
Qed.

Lemma filter_fmap_keys_not s (l : list nat) key :
  filter (λ k, ¬ cmp k key < 0) (key_at s <$> l) = key_at s <$> rest (is_before s key) l.
Proof.
  unfold rest. induction l as [|y l IH]; [done|]. rewrite fmap_cons, !filter_cons, IH.
  pose proof (eq_refl : is_before s key y = (cmp (key_at s y) key <? 0)) as E.
  destruct (Z.ltb_spec (cmp (key_at s y) key) 0).
  - rewrite decide_False by lia. by rewrite decide_False by (by rewrite E).
  - rewrite decide_True by lia. by rewrite decide_True by done.
Qed.

Lemma fresh_node s C : skip_inv s C → length (nodes s) ∉ head_ :: C 0%nat.
Proof.
  intros HI. pose proof (inv_links _ _ _ s C HI 0 ltac:(unfold kMaxHeight; lia)) as Hl.
  apply links_valid in Hl. rewrite Forall_forall in Hl. intros Hin%Hl. lia.
Qed.

Lemma insert_prepare_run s C key :
  skip_inv s C → wf key → Forall (λ k, cmp key k ≠ 0) (keys_of s C) →
  ∃ h prev s1, insert_prepare compare_ s key = Some (length (nodes s), h, prev, s1) ∧
    (1 ≤ h ≤ kMaxHeight)%nat ∧ linking any_key wf cmp s C key (length (nodes s)) h s1 0 ∧
    (∀ i, (i < h)%nat → prev !! i = Some (Some (tail_of (keep (is_before s key) (C i))))).
Proof.
  intros HI Hk Hfresh. unfold insert_prepare.
  rewrite (FindGreaterOrEqual_spec any_key compare_ wf cmp s C) by done. simpl_bind.
  unfold keys_of in Hfresh. rewrite Forall_fmap in Hfresh.
  assert (Hdup : (match head (rest (is_before s key) (C 0%nat)) with
     | None => Some false
     | Some x => node ← nodes s !! x; Equal compare_ key (node_key node)
     end) = Some false).
  { destruct (head _) as [y|] eqn:E; [|done].
    assert (Hy : y ∈ C 0%nat).
    { destruct (rest (is_before s key) (C 0%nat)) as [|z l] eqn:Er; [done|].
      injection E as ->. assert (Hin : y ∈ rest (is_before s key) (C 0%nat)) by (rewrite Er; by left).
      by apply list_elem_of_filter in Hin as [_ ?]. }
    destruct (inv_valid any_key wf cmp s C y HI Hy) as [Hlt Hw].
    destruct (key_at_lookup any_key s y Hlt) as (node & -> & Hnk). simpl_bind.
    unfold Equal. rewrite Hnk, (compare_wf _ _ Hk Hw). simpl_bind. f_equal.
    apply Z.eqb_neq. rewrite Forall_forall in Hfresh. by apply Hfresh. }
  rewrite Hdup. simpl_bind.
  pose proof (RandomHeight_range (rnd_ s)) as Hh.
  destruct (RandomHeight (rnd_ s)) as [h rnd]. cbn [fst] in Hh.
  change (NewNode (raise_height s h rnd) key h)
    with (length (nodes s), (NewNode (raise_height s h rnd) key h).2). cbn beta iota zeta.
  eexists h, _, _. split; [done|]. split; [done|]. split; [by apply alloc_linking|].
  by apply insert_prev.
Qed.

Lemma linked_keys s C key h s' :
  linking any_key wf cmp s C key (length (nodes s)) h s' h → (1 ≤ h)%nat →
  keys_of s' (linked any_key cmp s C key (length (nodes s)) h)
  = sorted_insert cmp key (keys_of s C).
Proof.
  intros HL Hh. unfold keys_of, linked. rewrite (proj2 (Nat.ltb_lt 0 h)) by lia.
  rewrite fmap_app, fmap_cons, (lk_key _ _ _ _ _ _ _ _ _ _ HL).
  unfold sorted_insert. rewrite filter_fmap_keys, filter_fmap_keys_not.
  f_equal; [|f_equal]; apply list_fmap_ext; intros i y Hy;
    apply (lk_old _ _ _ _ _ _ _ _ _ _ HL); apply list_elem_of_lookup_2 in Hy;
    by apply list_elem_of_filter in Hy as [_ ?].
Qed.

Lemma Insert_inv s C key :
  skip_inv s C → wf key → Forall (λ k, cmp key k ≠ 0) (keys_of s C) →
  ∃ s' C', Insert compare_ s key = Some s' ∧ skip_inv s' C' ∧
    keys_of s' C' = sorted_insert cmp key (keys_of s C).
Proof.
  intros HI Hk Hfresh. unfold Insert.
  destruct (insert_prepare_run s C key HI Hk Hfresh) as (h & prev & s1 & -> & Hh & HL & Hp).
  simpl_bind. unfold keys_of in Hfresh. rewrite Forall_fmap in Hfresh.
  destruct (link_loop_run any_key compare_ wf cmp s C key (length (nodes s)) h HI Hk Hfresh
    (fresh_node s C HI) h 0 _ _ HL ltac:(lia) Hp) as (s' & Hrun & HL').
  exists s', (linked any_key cmp s C key (length (nodes s)) h). split; [exact Hrun|].
  split; [apply (lk_inv _ _ _ _ _ _ _ _ _ _ HL')|]. apply linked_keys; [done|lia].
Qed.

Lemma NewSkipList_inv : skip_inv (NewSkipList any_key) (λ _, []).
Proof.
  split; try done.
  - intros i Hi. cbn [links]. unfold node_Next. cbn [NewSkipList nodes].
    unfold head_. cbn [lookup list_lookup mbind option_bind next_]. by apply lookup_replicate_2.
  - cbn. unfold kMaxHeight. lia.
  - constructor.
  - by apply not_elem_of_nil.
Qed.

(** ** Iterators *)

Lemma not_head_tail l : head_ ∉ l → not_head (tail_of l) = last l.
Proof.
  intros Hh. unfold tail_of, not_head. destruct (last l) as [x|] eqn:E; [|done].
  change (default head_ (Some x)) with x.
  destruct (Nat.eqb_spec x head_) as [->|]; [|done].
  apply last_Some in E as [l' ->]. exfalso. apply Hh, elem_of_app. right. by left.
Qed.

Lemma keep_take s C i x :
  skip_inv s C → C 0%nat !! i = Some x → keep (is_before s (key_at s x)) (C 0%nat) = take i (C 0%nat).
Proof.
  intros HI Hx. pose proof (inv_sorted _ _ _ s C HI) as Hs.
  assert (Hw : wf (key_at s x)).
  { eapply (inv_valid any_key wf cmp s C); [done|]. by eapply list_elem_of_lookup_2. }
  rewrite <-(take_drop_middle _ _ _ Hx) in Hs |- * at 1.
  destruct (split_unique (is_before s (key_at s x)) (take i (C 0%nat)) (x :: drop (S i) (C 0%nat)))
    as [Hk _]; [..|exact Hk].
  - apply Forall_forall. intros y Hy. apply Is_true_true, Z.ltb_lt.
    revert Hs Hy. generalize (take i (C 0%nat)). intros l. induction l as [|z l IH]; intros Hs Hy.
    { by apply not_elem_of_nil in Hy. }
    cbn in Hs. apply StronglySorted_inv in Hs as [Hs Hz]. apply elem_of_cons in Hy as [->|Hy]; [|by apply IH].
    rewrite Forall_forall in Hz. apply Hz, elem_of_app. right. by left.
  - constructor.
    + apply Z.ltb_ge. pose proof (cmp_anti _ _ Hw Hw). lia.
    + apply StronglySorted_app_1_r in Hs. apply StronglySorted_inv in Hs as [_ Hs].
      pose proof (inv_wf _ _ _ s C HI) as Hwf.
      rewrite Forall_forall in *. intros y Hy. apply Z.ltb_ge. specialize (Hs y Hy).
      assert (Hwy : wf (key_at s y)).
      { apply Hwf. eapply elem_of_sublist; [exact Hy|apply sublist_drop]. }
      unfold before in Hs. pose proof (cmp_anti _ _ Hw Hwy). lia.
Qed.

Lemma it_Prev_at s C i x :
  skip_inv s C → C 0%nat !! i = Some x →
  it_Prev compare_ s (Some x)
  = Some (C 0%nat !! (if (i =? 0)%nat then length (C 0%nat) else i - 1)%nat).
Proof.
  intros HI Hx. assert (Hin : x ∈ C 0%nat) by (by eapply list_elem_of_lookup_2).
  destruct (inv_valid any_key wf cmp s C x HI Hin) as [Hlt Hw].
  destruct (key_at_lookup any_key s x Hlt) as (node & Hn & Hk).
  unfold it_Prev, it_key. simpl_bind. rewrite Hn. simpl_bind. rewrite Hk.
  rewrite (FindLessThan_spec any_key compare_ wf cmp s C) by done. simpl_bind.
  rewrite (keep_take s C i) by done. f_equal. rewrite not_head_tail.
  - rewrite last_lookup, length_take. apply lookup_lt_Some in Hx.
    rewrite Nat.min_l by lia. destruct (Nat.eqb_spec i 0) as [->|].
    + cbn. symmetry. apply lookup_ge_None. lia.
    + rewrite lookup_take_lt by lia. f_equal. lia.
  - intros Hh. apply (inv_head _ _ _ s C HI). eapply elem_of_sublist; [exact Hh|apply sublist_take].
Qed.

Lemma keys_length s C : length (keys_of s C) = length (C 0%nat).
Proof. apply length_fmap. Qed.

Lemma Contains_spec s C key :
  skip_inv s C → wf key →
  Contains compare_ s key = Some (bool_decide (Exists (λ k, cmp key k = 0) (keys_of s C))).
Proof.
  intros HI Hk. unfold Contains.
  rewrite (FindGreaterOrEqual_spec any_key compare_ wf cmp s C) by done. simpl_bind.
  unfold keys_of. rewrite (bool_decide_ext _ (Exists (λ x, cmp key (key_at s x) = 0) (C 0%nat)))
    by apply Exists_fmap.
  pose proof (antitone_split _ _ (is_before_antitone any_key compare_ wf cmp s C key HI Hk)) as Hsp.
  set (P := is_before s key) in *. pose proof (inv_sorted _ _ _ s C HI) as Hs.
  pose proof (inv_wf _ _ _ s C HI) as Hwf.
  assert (Hnk : ¬ Exists (λ x, cmp key (key_at s x) = 0) (keep P (C 0%nat))).
  { intros (y & Hy & He)%Exists_exists. apply list_elem_of_filter in Hy as [Hy Hin].
    unfold P, SkipListSpec.is_before in Hy. apply Is_true_true, Z.ltb_lt in Hy.
    rewrite Forall_forall in Hwf. pose proof (cmp_anti _ _ Hk (Hwf y Hin)). lia. }
  assert (Hsr : StronglySorted (before any_key cmp s) (rest P (C 0%nat)))
    by (rewrite Hsp in Hs; by apply StronglySorted_app_1_r in Hs).
  assert (Hwr : Forall (λ x, wf (key_at s x)) (rest P (C 0%nat)))
    by (rewrite Hsp in Hwf; by apply Forall_app in Hwf as [_ ?]).
  rewrite (bool_decide_ext _ (Exists (λ x, cmp key (key_at s x) = 0) (rest P (C 0%nat)))).
  2:{ rewrite Hsp at 1. rewrite Exists_app. tauto. }
  assert (Hin : ∀ y, y ∈ rest P (C 0%nat) → y ∈ C 0%nat ∧ P y = false)
    by (intros y Hy; apply list_elem_of_filter in Hy; tauto).
  destruct (rest P (C 0%nat)) as [|y l]; cbn [head]; [done|].
  destruct (Hin y ltac:(by left)) as [Hy Hyb].
  destruct (inv_valid any_key wf cmp s C y HI Hy) as [Hlt Hw].
  destruct (key_at_lookup any_key s y Hlt) as (node & -> & Hnode). simpl_bind.
  unfold Equal. rewrite Hnode. rewrite (compare_wf _ _ Hk Hw). simpl_bind. f_equal.
  destruct (Z.eqb_spec (cmp key (key_at s y)) 0) as [He|He].
  - rewrite bool_decide_eq_true_2; [done|]. by left.
  - rewrite bool_decide_eq_false_2; [done|].
    intros [?|(z & Hz & Hez)%Exists_exists]%Exists_cons; [done|].
    unfold P, SkipListSpec.is_before in Hyb. apply Z.ltb_ge in Hyb.
    apply StronglySorted_inv in Hsr as [_ Hsr]. apply Forall_cons in Hwr as [_ Hwr].
    rewrite Forall_forall in Hsr, Hwr. specialize (Hsr z Hz). specialize (Hwr z Hz).
    unfold before in Hsr. pose proof (cmp_anti _ _ Hk Hwr). pose proof (cmp_anti _ _ Hk Hw).
    pose proof (cmp_anti _ _ Hw Hwr). pose proof (cmp_trans _ _ _ Hwr Hk Hw). lia.
Qed.

#[export] Instance skiplist_laws : OrderedTableLaws (skiplist_table any_key compare_) wf cmp.
Proof.
  unshelve eapply (Build_OrderedTableLaws K (skiplist_table any_key compare_) wf cmp sl_rep sl_at);
    cbn [table_rep table_at table table_new table_Insert table_Contains table_iter table_Valid
      table_key table_Next table_Prev table_Seek table_SeekToFirst table_SeekToLast skiplist_table].
  - intros s ks (C & HI & ->). unfold keys_of. split.
    + pose proof (inv_sorted _ _ _ s C HI) as Hs.
      induction Hs as [|x l Hs IH Hx]; cbn; constructor; [done|]. by apply Forall_fmap.
    + apply Forall_fmap. exact (inv_wf _ _ _ s C HI).
  - exists (λ _, []). split; [apply NewSkipList_inv|done].
  - intros s ks key (C & HI & ->) Hk Hf.
    destruct (Insert_inv s C key HI Hk Hf) as (s' & C' & Hs' & HI' & Hkeys).
    exists s'. split; [done|]. by exists C'.
  - intros s ks key (C & HI & ->) Hk. by apply Contains_spec.
  - intros s ks it i (C & HI & -> & -> & Hi). rewrite keys_length. unfold it_Valid.
    apply bool_decide_ext. rewrite <-lookup_lt_is_Some, <-not_eq_None_Some. done.
  - intros s ks it i (C & HI & -> & -> & Hi). unfold keys_of. rewrite list_lookup_fmap.
    destruct (C 0%nat !! i) as [x|] eqn:E; [|done]. cbn.
    assert (Hx : x ∈ C 0%nat) by (by eapply list_elem_of_lookup_2).
    destruct (inv_valid any_key wf cmp s C x HI Hx) as [Hlt _].
    destruct (key_at_lookup any_key s x Hlt) as (node & -> & <-). done.
  - intros s ks it i (C & HI & -> & -> & Hi) Hlt. rewrite keys_length in Hlt.
    destruct (lookup_lt_is_Some_2 _ _ Hlt) as [x Hx]. rewrite Hx. unfold it_Next.
    simpl_bind.
    pose proof (inv_links _ _ _ s C HI 0 ltac:(unfold kMaxHeight; lia)) as Hl.
    rewrite <-(take_drop_middle _ _ _ Hx) in Hl.
    rewrite (cons_middle x) in Hl. rewrite app_assoc in Hl. apply links_next in Hl.
    rewrite tail_of_snoc in Hl. rewrite Hl. exists (C 0%nat !! S i).
    split; [by rewrite head_lookup, lookup_drop, Nat.add_0_r|].
    exists C. rewrite keys_length. split; [done|]. split; [done|]. split; [done|]. lia.
  - intros s ks it i (C & HI & -> & -> & Hi) Hlt. rewrite keys_length in Hlt |- *.
    destruct (lookup_lt_is_Some_2 _ _ Hlt) as [x Hx]. rewrite Hx.
    rewrite (it_Prev_at s C i x) by done. eexists. split; [done|]. exists C.
    rewrite keys_length. split; [done|]. split; [done|]. split; [done|].
    destruct (i =? 0)%nat; lia.
  - intros s ks key (C & HI & ->) Hk. unfold it_Seek.
    rewrite (FindGreaterOrEqual_spec any_key compare_ wf cmp s C) by done. simpl_bind.
    eexists. split; [done|]. exists C. split; [done|]. split; [done|].
    unfold keys_of. rewrite filter_fmap_keys, !length_fmap.
    pose proof (antitone_split _ _ (is_before_antitone any_key compare_ wf cmp s C key HI Hk)) as Hsp.
    split; [|by apply length_filter].
    transitivity ((keep (is_before s key) (C 0%nat) ++ rest (is_before s key) (C 0%nat))
      !! length (keep (is_before s key) (C 0%nat))); [|by rewrite <-Hsp].
    rewrite lookup_app_r, Nat.sub_diag by done. by rewrite head_lookup.
  - intros s ks (C & HI & ->). unfold it_SeekToFirst.
    pose proof (inv_links _ _ _ s C HI 0 ltac:(unfold kMaxHeight; lia)) as Hl.
    apply (links_next _ _ []) in Hl. change (tail_of []) with head_ in Hl. rewrite Hl.
    eexists. split; [done|]. exists C. rewrite head_lookup. split; [done|].
    split; [done|]. split; [done|lia].
  - intros s ks (C & HI & ->). unfold it_SeekToLast.
    rewrite (FindLast_spec any_key compare_ wf cmp s C) by done. simpl_bind.
    eexists. split; [done|]. exists C. rewrite keys_length. split; [done|]. split; [done|].
    split; [|lia]. rewrite not_head_tail by (apply (inv_head _ _ _ s C HI)).
    rewrite last_lookup. f_equal. lia.
Defined.
End refine.
