(* ===== verification/SkipListReaders.v ===== *)
(** Readers of the skip list beside a writer: leveldb/db/skiplist.h lets one
    thread insert while others search without a lock.

    A state of the system is the list, where the writer is in [Insert], and
    where a reader is in [FindGreaterOrEqual].  Each store of the writer to a
    link and each load of the reader is one step; the stores and loads are
    the release stores and acquire loads of the code, taken in one order. *)

From Stdlib Require Import ZArith Lia.
From stdpp Require Import base option numbers list sorting relations.
From S2P Require Import Prelude Coding SkipList SkipListSpec SkipListRefine.

(** About to load the old link of the level and store it in the node, or to
    publish the node on the level. *)
Inductive writer :=
  | WIdle
  | WLink (x h : nat) (prev : list (option nat)) (i : nat)
  | WPublish (x h : nat) (prev : list (option nat)) (i : nat).

Inductive reader :=
  | RStart
  | RSearch (x level : nat)
  | RDone (next : option nat).

Section readers.
Context {K : Type} (any_key : K) (compare_ : K → K → option Z).
Context (wf : K → Prop) (cmp : K → K → Z) {HK : KeyOrder wf compare_ cmp}.

Abbreviation key_at := (key_at any_key).
Abbreviation skip_inv := (skip_inv any_key wf cmp).
Abbreviation is_before := (is_before any_key cmp).

(** ** Steps *)

(** One iteration of the loop of [FindGreaterOrEqual]. *)
Definition reader_step (s : SkipList) (key : K) (x level : nat) : option reader :=
  next ← node_Next s x level;
  after ← KeyIsAfterNode compare_ s key next;
  if (after : bool) then x ← next; Some (RSearch x level)
  else match level with
       | O => Some (RDone next)
       | S level => Some (RSearch x level)
       end.

(** The writer inserts keys that are not in the list yet. *)
Inductive wstep : SkipList * writer → SkipList * writer → Prop :=
  | ws_begin s key x h prev s' :
      wf key → Contains compare_ s key = Some false →
      insert_prepare compare_ s key = Some (x, h, prev, s') →
      wstep (s, WIdle) (s', WLink x h prev 0)
  | ws_link s s' x h prev i :
      link_node x prev i s = Some s' →
      wstep (s, WLink x h prev i) (s', WPublish x h prev i)
  | ws_publish s s' x h prev i :
      link_prev x prev i s = Some s' →
      wstep (s, WPublish x h prev i)
            (s', if (S i =? h)%nat then WIdle else WLink x h prev (S i)).

Inductive sys_step (key : K) : SkipList * writer * reader → SkipList * writer * reader → Prop :=
  | sys_write s w s' w' r : wstep (s, w) (s', w') → sys_step key (s, w, r) (s', w', r)
  | sys_start s w : sys_step key (s, w, RStart) (s, w, RSearch head_ (GetMaxHeight s - 1))
  | sys_read s w x level r :
      reader_step s key x level = Some r → sys_step key (s, w, RSearch x level) (s, w, r).

(** The writer's steps, one after the other, are [Insert]. *)
Lemma link_loop_steps n x h prev i s s' :
  (i + S n = h)%nat → link_loop (S n) i x prev s = Some s' →
  rtc wstep (s, WLink x h prev i) (s', WIdle).
Proof.
  revert i s. induction n as [|n IH]; intros i s Hi; cbn [link_loop].
  all: destruct (link_node x prev i s) as [s1|] eqn:E1; [|done]; simpl_bind.
  all: destruct (link_prev x prev i s1) as [s2|] eqn:E2; [|done]; simpl_bind.
  all: intros Hs; eapply rtc_l; [by apply ws_link|]; eapply rtc_l; [by apply ws_publish|].
  - injection Hs as ->. by rewrite (proj2 (Nat.eqb_eq (S i) h)) by lia.
  - rewrite (proj2 (Nat.eqb_neq (S i) h)) by lia. apply IH; [lia|done].
Qed.

Lemma Insert_steps s key s' C :
  skip_inv s C → wf key → Contains compare_ s key = Some false →
  Insert compare_ s key = Some s' → rtc wstep (s, WIdle) (s', WIdle).
Proof.
  intros HI Hk Hc. unfold Insert.
  assert (Hfresh : Forall (λ k, cmp key k ≠ 0) (keys_of any_key s C)).
  { rewrite (Contains_spec any_key compare_ wf cmp s C) in Hc by done. injection Hc as Hc.
    apply bool_decide_eq_false in Hc. by apply Forall_Exists_neg. }
  destruct (insert_prepare_run any_key compare_ wf cmp s C key HI Hk Hfresh)
    as (h & prev & s1 & E & Hh & _ & _). rewrite E. simpl_bind. intros Hl.
  eapply rtc_l; [by eapply ws_begin|]. destruct h as [|h]; [lia|]. by apply (link_loop_steps h).
Qed.

(** ** The invariant *)

(** What the writer has done: [C] are the chains at this moment. *)
Record writing (s : SkipList) (x h : nat) (prev : list (option nat)) (i : nat)
    (C : nat → list nat) (s0 : SkipList) (C0 : nat → list nat) (k : K) : Prop := {
  wr_inv0 : skip_inv s0 C0;
  wr_key : wf k;
  wr_fresh : Forall (λ y, cmp k (key_at s0 y) ≠ 0) (C0 0%nat);
  wr_x : x ∉ head_ :: C0 0%nat;
  wr_i : (i < h)%nat;
  wr_linking : linking any_key wf cmp s0 C0 k x h s i;
  wr_prev j : (j < h)%nat → prev !! j = Some (Some (tail_of (keep (is_before s0 k) (C0 j))));
  wr_chains : C = linked any_key cmp s0 C0 k x i
}.

Definition w_inv (s : SkipList) (w : writer) (C : nat → list nat) : Prop :=
  match w with
  | WIdle => skip_inv s C
  | WLink x h prev i => ∃ s0 C0 k, writing s x h prev i C s0 C0 k
  | WPublish x h prev i => ∃ s0 C0 k, writing s x h prev i C s0 C0 k ∧
      node_Next s x i = Some (head (rest (is_before s0 k) (C0 i)))
  end.

Lemma w_inv_skip s w C : w_inv s w C → skip_inv s C.
Proof.
  destruct w as [|x h prev i|x h prev i]; cbn; [done|..].
  - intros (s0 & C0 & k & Hw). rewrite (wr_chains _ _ _ _ _ _ _ _ _ Hw).
    exact (lk_inv _ _ _ _ _ _ _ _ _ _ (wr_linking _ _ _ _ _ _ _ _ _ Hw)).
  - intros (s0 & C0 & k & Hw & _). rewrite (wr_chains _ _ _ _ _ _ _ _ _ Hw).
    exact (lk_inv _ _ _ _ _ _ _ _ _ _ (wr_linking _ _ _ _ _ _ _ _ _ Hw)).
Qed.

(** A step of the writer keeps the invariant, the nodes of every chain and
    their keys. *)
Definition grows (s : SkipList) (C : nat → list nat) (s' : SkipList) (C' : nat → list nat) : Prop :=
  (∀ i y, y ∈ C i → y ∈ C' i) ∧ (∀ y, y ∈ C 0%nat → key_at s' y = key_at s y) ∧
  (max_height_ s ≤ max_height_ s')%nat.

Lemma link_node_frame s x prev i s' :
  link_node x prev i s = Some s' →
  (∀ y, key_at s' y = key_at s y) ∧ max_height_ s' = max_height_ s.
Proof.
  unfold link_node. destruct (mjoin (prev !! i)) as [p|]; [|done]. simpl_bind.
  destruct (node_Next s p i) as [nx|]; [|done]. simpl_bind. intros H.
  assert (Hn : ∃ w, node_Next s x i = Some w).
  { unfold node_SetNext, node_Next in *. destruct (nodes s !! x); [|done]. cbn in *.
    case_bool_decide as Hb; [|done]. apply lookup_lt_is_Some_2 in Hb as [w Hw]. by exists w. }
  destruct Hn as [w Hw]. destruct (node_SetNext_upd any_key s x i nx w Hw) as (s1 & Hs1 & Hu).
  rewrite Hs1 in H. injection H as <-.
  split; [apply (upd_key _ _ _ _ _ _ Hu)|apply (upd_height _ _ _ _ _ _ Hu)].
Qed.

Lemma link_prev_frame s x prev i s' :
  link_prev x prev i s = Some s' →
  (∀ y, key_at s' y = key_at s y) ∧ max_height_ s' = max_height_ s.
Proof.
  unfold link_prev. destruct (mjoin (prev !! i)) as [p|]; [|done]. simpl_bind. intros H.
  assert (Hn : ∃ w, node_Next s p i = Some w).
  { unfold node_SetNext, node_Next in *. destruct (nodes s !! p); [|done]. cbn in *.
    case_bool_decide as Hb; [|done]. apply lookup_lt_is_Some_2 in Hb as [w Hw]. by exists w. }
  destruct Hn as [w Hw]. destruct (node_SetNext_upd any_key s p i (Some x) w Hw) as (s1 & Hs1 & Hu).
  rewrite Hs1 in H. injection H as <-.
  split; [apply (upd_key _ _ _ _ _ _ Hu)|apply (upd_height _ _ _ _ _ _ Hu)].
Qed.

Lemma linked_grows s0 C0 k x i j y :
  skip_inv s0 C0 → wf k →
  y ∈ linked any_key cmp s0 C0 k x i j → y ∈ linked any_key cmp s0 C0 k x (S i) j.
Proof.
  intros HI Hk. unfold linked. destruct (Nat.ltb_spec j i), (Nat.ltb_spec j (S i)); try lia; [done| |done].
  rewrite (C_split any_key compare_ wf cmp s0 C0 k HI Hk j) at 1.
  rewrite !elem_of_app, elem_of_cons. tauto.
Qed.

Lemma wstep_begin_inv s key x h prev s' C :
  skip_inv s C → wf key → Contains compare_ s key = Some false →
  insert_prepare compare_ s key = Some (x, h, prev, s') →
  ∃ C', w_inv s' (WLink x h prev 0) C' ∧ grows s C s' C'.
Proof.
  intros HI Hk Hc Hp.
  assert (Hfresh : Forall (λ k, cmp key k ≠ 0) (keys_of any_key s C)).
  { rewrite (Contains_spec any_key compare_ wf cmp s C) in Hc by done. injection Hc as Hc.
    apply bool_decide_eq_false in Hc. by apply Forall_Exists_neg. }
  destruct (insert_prepare_run any_key compare_ wf cmp s C key HI Hk Hfresh)
    as (h1 & prev1 & s1 & E & Hh & HL & Hprev). rewrite Hp in E. injection E as -> <- <- <-.
  exists (linked any_key cmp s C key (length (nodes s)) 0). split.
  - exists s, C, key. split; try done; [|by apply (fresh_node any_key wf cmp)|lia].
    unfold keys_of in Hfresh. by rewrite Forall_fmap in Hfresh.
  - split; [done|]. split; [intros y Hy; by apply (lk_old _ _ _ _ _ _ _ _ _ _ HL)|].
    revert Hp. clear -HK. unfold insert_prepare.
    destruct (FindGreaterOrEqual _ _ _ _) as [[y pv]|]; [|done]. simpl_bind.
    destruct (match y with Some _ => _ | None => _ end) as [[]|]; [done| |done]. simpl_bind.
    destruct (RandomHeight (rnd_ s)) as [h' rnd]. intros [= <- <- <-].
    change (max_height_ (set_nodes _ _))
      with (if (max_height_ s <? h')%nat then h' else max_height_ s). destruct (Nat.ltb_spec (max_height_ s) h'); lia.
Qed.

Lemma wstep_inv s w s' w' C :
  w_inv s w C → wstep (s, w) (s', w') → ∃ C', w_inv s' w' C' ∧ grows s C s' C'.
Proof.
  intros HI Hs. inversion Hs as [? ? ? ? ? ? Hk Hc Hp|? ? x h prev i Hl|? ? x h prev i Hl]; subst.
  - by eapply wstep_begin_inv.
  - destruct HI as (s0 & C0 & k & Hw).
    pose proof (link_node_frame _ _ _ _ _ Hl) as [Hkey Hmax].
    destruct (link_node_step any_key compare_ wf cmp s0 C0 k x h (wr_inv0 _ _ _ _ _ _ _ _ _ Hw)
      (wr_key _ _ _ _ _ _ _ _ _ Hw) (wr_x _ _ _ _ _ _ _ _ _ Hw) s i prev
      (wr_linking _ _ _ _ _ _ _ _ _ Hw) (wr_i _ _ _ _ _ _ _ _ _ Hw)
      (wr_prev _ _ _ _ _ _ _ _ _ Hw i (wr_i _ _ _ _ _ _ _ _ _ Hw))) as (s1 & E & HL & Hn).
    rewrite Hl in E. injection E as <-. exists C. split.
    + exists s0, C0, k. split; [|done]. destruct Hw. by split.
    + split; [done|]. split; [done|]. by rewrite Hmax.
  - destruct HI as (s0 & C0 & k & Hw & Hn).
    pose proof (link_prev_frame _ _ _ _ _ Hl) as [Hkey Hmax].
    destruct (link_prev_step any_key compare_ wf cmp s0 C0 k x h (wr_inv0 _ _ _ _ _ _ _ _ _ Hw)
      (wr_key _ _ _ _ _ _ _ _ _ Hw) (wr_fresh _ _ _ _ _ _ _ _ _ Hw)
      (wr_x _ _ _ _ _ _ _ _ _ Hw) s i prev (wr_linking _ _ _ _ _ _ _ _ _ Hw)
      (wr_i _ _ _ _ _ _ _ _ _ Hw) (wr_prev _ _ _ _ _ _ _ _ _ Hw i (wr_i _ _ _ _ _ _ _ _ _ Hw)) Hn)
      as (s1 & E & HL). rewrite Hl in E. injection E as <-.
    exists (linked any_key cmp s0 C0 k x (S i)). split.
    + change (match h with O => false | S m' => (i =? m')%nat end) with (S i =? h)%nat.
      destruct (Nat.eqb_spec (S i) h) as [Hh|Hh]; cbn [w_inv].
      * exact (lk_inv _ _ _ _ _ _ _ _ _ _ HL).
      * exists s0, C0, k. destruct Hw. split; try done. lia.
    + split; [|split; [done|by rewrite Hmax]]. intros j y. rewrite (wr_chains _ _ _ _ _ _ _ _ _ Hw).
      apply linked_grows; [apply (wr_inv0 _ _ _ _ _ _ _ _ _ Hw)|apply (wr_key _ _ _ _ _ _ _ _ _ Hw)].
Qed.

(** ** The reader *)

Section reading.
Context (key : K) (Hkey : wf key).

Definition r_inv (s : SkipList) (C : nat → list nat) (r : reader) : Prop :=
  match r with
  | RSearch x level => (level < max_height_ s)%nat ∧
      (x = head_ ∨ (x ∈ C level ∧ is_before s key x))
  | _ => True
  end.

Lemma r_inv_grows s C s' C' r :
  skip_inv s C → grows s C s' C' → r_inv s C r → r_inv s' C' r.
Proof.
  intros HI (Hin & Hk & Hm). destruct r as [|x level|]; [done| |done]. cbn.
  intros [Hl [->|[Hx Hb]]]; (split; [lia|]); [by left|right]. split; [by apply Hin|].
  unfold SkipListSpec.is_before in *. rewrite Hk; [done|].
  eapply elem_of_sublist; [exact Hx|]. exact (inv_sub0 any_key wf cmp s C level HI).
Qed.

(** Where a searching reader stands on its chain. *)
Lemma r_inv_split s C x level :
  skip_inv s C → r_inv s C (RSearch x level) →
  ∃ l r, C level = l ++ r ∧ tail_of l = x ∧ Forall (is_before s key) l.
Proof.
  intros HI [Hl [->|[Hx Hb]]]; [by exists [], (C level)|].
  assert (Ha : antitone (is_before s key) (C level)).
  { eapply StronglySorted_sublist; [exact (inv_sub0 any_key wf cmp s C level HI)|].
    by apply (is_before_antitone any_key compare_ wf cmp). }
  apply list_elem_of_split in Hx as (m1 & m2 & Hc). exists (m1 ++ [x]), m2.
  rewrite Hc in Ha |- *. split; [by rewrite <-app_assoc|]. split; [apply tail_of_snoc|].
  apply Forall_app. split; [by eapply antitone_before|]. by apply Forall_singleton.
Qed.

Lemma reader_step_fge fuel s x level :
  fge_loop compare_ (S fuel) s key x level []
  = reader_step s key x level ≫= λ r,
      match r with
      | RSearch x level => fge_loop compare_ fuel s key x level []
      | RDone next => Some (next, [])
      | RStart => None
      end.
Proof.
  cbn [fge_loop]. unfold reader_step. destruct (node_Next s x level) as [next|]; [|done].
  simpl_bind. destruct (KeyIsAfterNode compare_ s key next) as [[]|]; [..|done];
    simpl_bind.
  - destruct next; done.
  - destruct level; done.
Qed.

(** Run to its end in the state it is in, the reader's loop gives what a
    whole search in that state gives. *)
Lemma reader_finishes s C x level :
  skip_inv s C → r_inv s C (RSearch x level) →
  ∃ next, it_Seek compare_ s key = Some next ∧
    fge_loop compare_ (search_fuel s) s key x level [] = Some (next, []).
Proof.
  intros HI Hr. exists (head (rest (is_before s key) (C 0%nat))).
  pose proof (FindGreaterOrEqual_spec any_key compare_ wf cmp s C key [] HI Hkey) as Hf.
  assert (Hw : ∀ level, walked (is_before s key) C level [] = []).
  { intros lv. apply nil_length_inv. apply length_walked. }
  rewrite Hw in Hf. split; [unfold it_Seek; by rewrite Hf|].
  destruct (r_inv_split s C x level HI Hr) as (l & r & Hc & <- & Hl).
  rewrite fge_loop_walk.
  pose proof (inv_height any_key wf cmp s C HI) as Hh. destruct Hr as [Hlv _].
  rewrite (walk_spec any_key compare_ wf cmp _ (is_before s key) s C HI) with (r := r).
  - simpl_bind. by rewrite Hw.
  - by apply (is_before_antitone any_key compare_ wf cmp).
  - intros y Hy. by eapply (key_before_spec any_key compare_ wf cmp).
  - lia.
  - done.
  - done.
  - pose proof (inv_length_i any_key compare_ wf cmp s C level HI) as Hlen.
    rewrite Hc, length_app in Hlen. unfold search_fuel.
    transitivity ((S level) * length (nodes s))%nat; [cbn; lia|]. apply Nat.mul_le_mono_r. lia.
Qed.

Lemma search_fuel_pos s C : skip_inv s C → ∃ f, search_fuel s = S f.
Proof.
  intros HI. pose proof (inv_height any_key wf cmp s C HI).
  pose proof (inv_length any_key compare_ wf cmp s C HI). unfold search_fuel.
  exists (Nat.pred (max_height_ s * length (nodes s))). nia.
Qed.

Lemma reader_step_inv s C x level r :
  skip_inv s C → r_inv s C (RSearch x level) → reader_step s key x level = Some r → r_inv s C r.
Proof.
  intros HI Hr. pose proof Hr as Hr0. destruct Hr as [Hl _].
  destruct (r_inv_split s C x level HI Hr0) as (l & rr & Hc & <- & Hlb).
  pose proof (inv_height any_key wf cmp s C HI) as Hh.
  pose proof (inv_links any_key wf cmp s C HI level ltac:(lia)) as Hlk. rewrite Hc in Hlk.
  unfold reader_step. rewrite (links_next _ _ _ _ Hlk). simpl_bind.
  destruct rr as [|y rr]; cbn [head].
  - cbn. destruct level as [|level]; intros [= <-]; [done|]. destruct Hr0 as [_ Hx].
    split; [lia|]. destruct Hx as [|[Hx Hb]]; [by left|right]. split; [|done].
    eapply elem_of_sublist; [exact Hx|]. apply (inv_sub any_key wf cmp s C HI).
  - assert (Hy : y ∈ C level) by (rewrite Hc; apply elem_of_app; right; by left).
    assert (Hy0 : y ∈ C 0%nat).
    { eapply elem_of_sublist; [exact Hy|]. exact (inv_sub0 any_key wf cmp s C level HI). }
    pose proof (key_before_spec any_key compare_ wf cmp s C key y HI Hkey Hy0) as Hkb.
    unfold key_before in Hkb. cbn [KeyIsAfterNode]. rewrite Hkb. simpl_bind.
    destruct (is_before s key y) eqn:E; simpl_bind.
    + intros [= <-]. split; [done|]. right. split; [done|]. by rewrite E.
    + destruct level as [|level]; intros [= <-]; [done|]. destruct Hr0 as [_ Hx].
      split; [lia|]. destruct Hx as [|[Hx Hb]]; [by left|right]. split; [|done].
      eapply elem_of_sublist; [exact Hx|]. apply (inv_sub any_key wf cmp s C HI).
Qed.

Definition sys_inv (c : SkipList * writer * reader) : Prop :=
  ∃ C, w_inv c.1.1 c.1.2 C ∧ r_inv c.1.1 C c.2.

Lemma sys_step_inv c c' : sys_inv c → sys_step key c c' → sys_inv c'.
Proof.
  intros (C & Hw & Hr) Hs. destruct Hs as [s w s' w' r Hws|s w|s w x level r Hrs]; unfold sys_inv; cbn [fst snd] in *.
  - destruct (wstep_inv s w s' w' C Hw Hws) as (C' & Hw' & Hg). exists C'. split; [done|].
    exact (r_inv_grows s C s' C' r (w_inv_skip s w C Hw) Hg Hr).
  - exists C. split; [done|]. pose proof (inv_height any_key wf cmp s C (w_inv_skip s w C Hw)).
    split; [unfold GetMaxHeight; lia|by left].
  - exists C. split; [done|]. eapply reader_step_inv; [by eapply w_inv_skip|done|done].
Qed.

Lemma sys_reach_inv c c' : sys_inv c → rtc (sys_step key) c c' → sys_inv c'.
Proof. intros Hi Hr. induction Hr; [done|]. eauto using sys_step_inv. Qed.
End reading.
End readers.
