(* ===== verification/DbFormat.v ===== *)
(** leveldb's internal keys: leveldb/db/dbformat.h and dbformat.cc.

    An internal key is a user key followed by eight bytes holding its
    sequence number and type; the order on them is by user key, then newest
    first.  [None] is a failed [assert]. *)

From Stdlib Require Import ZArith Lia.
From stdpp Require Import base option numbers list strings.
From S2P Require Import Prelude Coding Slice WriteBatch.

Definition kValueTypeForSeek : Z := kTypeValue.

Definition kMaxSequenceNumber : Z := Z.shiftl 1 56 - 1.

Record ParsedInternalKey := mkParsed { user_key : list Z; sequence : Z; type : Z }.

Definition InternalKeyEncodingLength (key : ParsedInternalKey) : Z :=
  Z.of_nat (length (user_key key)) + 8.

Definition PackSequenceAndType (seq t : Z) : option Z :=
  if (seq <=? kMaxSequenceNumber) && (t <=? kValueTypeForSeek)
  then Some (Z.lor (u64 (Z.shiftl seq 8)) t) else None.

(** [internal_key.data() + n - 8]. *)
Definition tag_bytes (internal_key : list Z) : list Z :=
  drop (length internal_key - 8) internal_key.

Definition ExtractUserKey (internal_key : list Z) : option (list Z) :=
  if (8 <=? length internal_key)%nat
  then Some (take (length internal_key - 8) internal_key) else None.

(** The [FilterPolicy] of the user, from include/leveldb/filter_policy.h. *)
Class FilterPolicy := {
  policy_Name : list Z;
  CreateFilter : list (list Z) → list Z → list Z;
  KeyMayMatch : list Z → list Z → bool
}.

Section format.
Context `{P : Port} {C : Comparator}.

Definition AppendInternalKey (result : list Z) (key : ParsedInternalKey) : option (list Z) :=
  num ← PackSequenceAndType (sequence key) (type key);
  Some (PutFixed64 (result ++ user_key key) num).

Definition ExtractValueType (internal_key : list Z) : option Z :=
  if (8 <=? length internal_key)%nat then
    num ← DecodeFixed64 (tag_bytes internal_key);
    Some (Z.land num 255)
  else None.

(** The result and whether the key parsed. *)
Definition ParseInternalKey (internal_key : list Z) : option (option ParsedInternalKey) :=
  let n := length internal_key in
  if (n <? 8)%nat then Some None
  else
    num ← DecodeFixed64 (tag_bytes internal_key);
    let c := Z.land num 255 in
    if c <=? kTypeValue
    then Some (Some (mkParsed (take (n - 8) internal_key) (Z.shiftr num 8) c))
    else Some None.

(** ** [InternalKeyComparator] *)

Definition ikey_Compare (akey bkey : list Z) : option Z :=
  ua ← ExtractUserKey akey; ub ← ExtractUserKey bkey;
  let r := Compare ua ub in
  if r =? 0 then
    anum ← DecodeFixed64 (tag_bytes akey);
    bnum ← DecodeFixed64 (tag_bytes bkey);
    Some (if bnum <? anum then -1 else if anum <? bnum then 1 else r)
  else Some r.

Definition ikey_FindShortestSeparator (start limit : list Z) : option (list Z) :=
  user_start ← ExtractUserKey start;
  user_limit ← ExtractUserKey limit;
  let tmp := FindShortestSeparator user_start user_limit in
  if (length tmp <? length user_start)%nat && (Compare user_start tmp <? 0) then
    num ← PackSequenceAndType kMaxSequenceNumber kValueTypeForSeek;
    let tmp := PutFixed64 tmp num in
    c1 ← ikey_Compare start tmp;
    c2 ← ikey_Compare tmp limit;
    if (c1 <? 0) && (c2 <? 0) then Some tmp else None (* asserts *)
  else Some start.

Definition ikey_FindShortSuccessor (key : list Z) : option (list Z) :=
  user_key ← ExtractUserKey key;
  let tmp := FindShortSuccessor user_key in
  if (length tmp <? length user_key)%nat && (Compare user_key tmp <? 0) then
    num ← PackSequenceAndType kMaxSequenceNumber kValueTypeForSeek;
    let tmp := PutFixed64 tmp num in
    c ← ikey_Compare key tmp;
    if c <? 0 then Some tmp else None (* assert *)
  else Some key.

(** ** [InternalFilterPolicy] *)

Context {F : FilterPolicy}.

Definition ifilter_CreateFilter (keys : list (list Z)) (dst : list Z) : option (list Z) :=
  mkey ← mapM ExtractUserKey keys;
  Some (CreateFilter mkey dst).

Definition ifilter_KeyMayMatch (key f : list Z) : option bool :=
  user_key ← ExtractUserKey key;
  Some (KeyMayMatch user_key f).

(** ** [InternalKey] *)

Definition NewInternalKey (user_key : list Z) (s t : Z) : option (list Z) :=
  AppendInternalKey [] (mkParsed user_key s t).

Definition ikey_DecodeFrom (s : list Z) : list Z := s.

Definition ikey_Clear : list Z := [].

Definition ikey_Encode (rep_ : list Z) : option (list Z) :=
  if bool_decide (rep_ = []) then None else Some rep_.

(** The overload of [Compare] on [InternalKey]s. *)
Definition ikey_Compare_keys (a b : list Z) : option Z :=
  a ← ikey_Encode a; b ← ikey_Encode b; ikey_Compare a b.

Definition ikey_user_key (rep_ : list Z) : option (list Z) := ExtractUserKey rep_.

Definition ikey_SetFrom (p : ParsedInternalKey) : option (list Z) := AppendInternalKey [] p.

(** ** [LookupKey]: the bytes from [start_] to [end_], and [kstart_ - start_].
    The buffer has [usize + 13] bytes at least. *)

Record LookupKey := mkLookupKey { start_ : list Z; kstart_ : nat }.

Definition NewLookupKey (user_key : list Z) (s : Z) : option LookupKey :=
  let usize := length user_key in
  let needed := (usize + 13)%nat in
  let klength := EncodeVarint32 (u32 (u32 (Z.of_nat usize) + 8)) in
  num ← PackSequenceAndType s kValueTypeForSeek;
  let buf := klength ++ user_key ++ EncodeFixed64 num in
  if (length buf <=? needed)%nat then Some (mkLookupKey buf (length klength)) else None.

Definition memtable_key (k : LookupKey) : list Z := start_ k.

Definition internal_key (k : LookupKey) : list Z := drop (kstart_ k) (start_ k).

Definition lookup_user_key (k : LookupKey) : list Z :=
  take (length (start_ k) - kstart_ k - 8) (drop (kstart_ k) (start_ k)).

End format.

(** ** Tags *)

Definition tag_of (seq t : Z) : Z := seq * 256 + t.

Definition seq_ok (seq : Z) : Prop := 0 ≤ seq ≤ kMaxSequenceNumber.
Definition type_ok (t : Z) : Prop := 0 ≤ t ≤ 1.

Lemma tag_of_lor seq t : seq_ok seq → type_ok t → Z.lor (u64 (Z.shiftl seq 8)) t = tag_of seq t.
Proof.
  unfold seq_ok, type_ok, kMaxSequenceNumber. change (Z.shiftl 1 56 - 1) with (2 ^ 56 - 1).
  intros Hs Ht. rewrite Z.lor_comm, wrap_small.
  - rewrite lor_shiftl_add; [unfold tag_of; change (2 ^ 8) with 256; lia|lia|].
    unfold in_width. change (2 ^ 8) with 256. lia.
  - rewrite Z.shiftl_mul_pow2 by lia. unfold in_width. lia.
Qed.

Lemma tag_of_width seq t : seq_ok seq → type_ok t → in_width 64 (tag_of seq t).
Proof.
  unfold seq_ok, type_ok, kMaxSequenceNumber, in_width, tag_of.
  change (Z.shiftl 1 56 - 1) with (2 ^ 56 - 1). lia.
Qed.

Lemma tag_of_seq seq t : type_ok t → Z.shiftr (tag_of seq t) 8 = seq.
Proof.
  intros [? ?]. rewrite shiftr_div by lia. unfold tag_of. change (2 ^ 8) with 256.
  rewrite Z.add_comm, Z.div_add, Z.div_small by lia. lia.
Qed.

Lemma tag_of_type seq t : type_ok t → Z.land (tag_of seq t) 255 = t.
Proof.
  intros [? ?]. rewrite land_255. unfold tag_of.
  rewrite Z.add_comm, Z_mod_plus_full, Z.mod_small by lia. done.
Qed.

Lemma PackSequenceAndType_tag seq t :
  seq_ok seq → type_ok t → PackSequenceAndType seq t = Some (tag_of seq t).
Proof.
  intros Hs Ht. unfold PackSequenceAndType. rewrite tag_of_lor by done.
  unfold seq_ok, type_ok in *. rewrite (proj2 (Z.leb_le seq _)) by lia.
  rewrite (proj2 (Z.leb_le t _)); [done|]. unfold kValueTypeForSeek, kTypeValue. lia.
Qed.

(** ** Internal keys as pairs of a user key and a tag *)

Definition ikey_bytes (u : list Z) (tag : Z) : list Z := u ++ le_bytes 8 tag.

Lemma length_ikey_bytes u tag : length (ikey_bytes u tag) = (length u + 8)%nat.
Proof. unfold ikey_bytes. by rewrite length_app, length_le_bytes. Qed.

Lemma ikey_bytes_bytes u tag : bytes u → bytes (ikey_bytes u tag).
Proof. intros. unfold ikey_bytes. solve_width. Qed.

Lemma ExtractUserKey_ikey u tag : ExtractUserKey (ikey_bytes u tag) = Some u.
Proof.
  unfold ExtractUserKey. rewrite length_ikey_bytes. rewrite (proj2 (Nat.leb_le _ _)) by lia.
  rewrite Nat.add_sub. unfold ikey_bytes. by rewrite take_app_length.
Qed.

Lemma tag_bytes_ikey u tag : tag_bytes (ikey_bytes u tag) = le_bytes 8 tag.
Proof.
  unfold tag_bytes. rewrite length_ikey_bytes, Nat.add_sub. unfold ikey_bytes.
  by rewrite drop_app_length.
Qed.

Lemma DecodeFixed64_tag `{Port} u tag :
  in_width 64 tag → DecodeFixed64 (tag_bytes (ikey_bytes u tag)) = Some tag.
Proof.
  intros Ht. rewrite tag_bytes_ikey, <-(app_nil_r (le_bytes 8 tag)), <-EncodeFixed64_le.
  by apply DecodeFixed64_encode; [|constructor].
Qed.

(** The order of internal keys. *)
Definition ikey_cmp {C : Comparator} (ua : list Z) (ta : Z) (ub : list Z) (tb : Z) : Z :=
  if Compare ua ub =? 0 then (if tb <? ta then -1 else if ta <? tb then 1 else 0)
  else Compare ua ub.

Section ikeys.
Context `{P : Port} {C : Comparator}.

Lemma ikey_Compare_bytes ua ta ub tb :
  in_width 64 ta → in_width 64 tb →
  ikey_Compare (ikey_bytes ua ta) (ikey_bytes ub tb) = Some (ikey_cmp ua ta ub tb).
Proof.
  intros Ha Hb. unfold ikey_Compare, ikey_cmp. rewrite !ExtractUserKey_ikey.
  simpl_bind. destruct (Z.eqb_spec (Compare ua ub) 0) as [E|]; [|done].
  rewrite !DecodeFixed64_tag by done. simpl_bind. by rewrite E.
Qed.

Lemma AppendInternalKey_bytes result key :
  seq_ok (sequence key) → type_ok (type key) →
  AppendInternalKey result key
  = Some (result ++ ikey_bytes (user_key key) (tag_of (sequence key) (type key))).
Proof.
  intros Hs Ht. unfold AppendInternalKey. rewrite PackSequenceAndType_tag by done.
  simpl_bind. unfold PutFixed64, ikey_bytes.
  by rewrite EncodeFixed64_le, <-app_assoc.
Qed.

Lemma ParseInternalKey_bytes u seq t :
  seq_ok seq → type_ok t →
  ParseInternalKey (ikey_bytes u (tag_of seq t)) = Some (Some (mkParsed u seq t)).
Proof.
  intros Hs Ht. unfold ParseInternalKey. rewrite length_ikey_bytes.
  rewrite (proj2 (Nat.ltb_ge _ _)) by lia.
  rewrite DecodeFixed64_tag by (by apply tag_of_width). simpl_bind.
  rewrite tag_of_type, tag_of_seq by done. unfold type_ok, kTypeValue in *.
  rewrite (proj2 (Z.leb_le t 1)) by lia.
  rewrite Nat.add_sub. unfold ikey_bytes. by rewrite take_app_length.
Qed.

Context {HC : ComparatorLaws C}.

Lemma ikey_cmp_anti ua ta ub tb :
  Z.sgn (ikey_cmp ub tb ua ta) = - Z.sgn (ikey_cmp ua ta ub tb).
Proof.
  unfold ikey_cmp. pose proof (Compare_anti ua ub) as Ha.
  destruct (Z.eqb_spec (Compare ua ub) 0) as [E|E], (Z.eqb_spec (Compare ub ua) 0) as [E'|E'];
    try lia.
  destruct (Z.ltb_spec ta tb), (Z.ltb_spec tb ta); lia.
Qed.

Lemma ikey_cmp_trans ua ta ub tb uc tc :
  ikey_cmp ua ta ub tb ≤ 0 → ikey_cmp ub tb uc tc ≤ 0 → ikey_cmp ua ta uc tc ≤ 0.
Proof.
  unfold ikey_cmp. intros H1 H2.
  assert (Hab : Compare ua ub ≤ 0) by (destruct (Z.eqb_spec (Compare ua ub) 0); lia).
  assert (Hbc : Compare ub uc ≤ 0) by (destruct (Z.eqb_spec (Compare ub uc) 0); lia).
  pose proof (Compare_trans ua ub uc Hab Hbc) as Hac.
  destruct (Z.eqb_spec (Compare ua uc) 0) as [E|E]; [|done].
  assert (E1 : Compare ua ub = 0).
  { destruct (decide (Compare ua ub < 0)) as [Hlt|]; [|lia].
    pose proof (Compare_lt_le_trans ua ub uc Hlt Hbc). lia. }
  assert (E2 : Compare ub uc = 0).
  { destruct (decide (Compare ub uc < 0)) as [Hlt|]; [|lia].
    pose proof (Compare_le_lt_trans ua ub uc Hab Hlt). lia. }
  rewrite E1, Z.eqb_refl in H1. rewrite E2, Z.eqb_refl in H2.
  destruct (Z.ltb_spec tb ta), (Z.ltb_spec ta tb), (Z.ltb_spec tc tb), (Z.ltb_spec tb tc),
    (Z.ltb_spec tc ta), (Z.ltb_spec ta tc); lia.
Qed.

(** ** Separators *)

Definition max_tag : Z := tag_of kMaxSequenceNumber kValueTypeForSeek.

Lemma max_tag_pack : PackSequenceAndType kMaxSequenceNumber kValueTypeForSeek = Some max_tag.
Proof. apply PackSequenceAndType_tag; by split. Qed.

Lemma max_tag_width : in_width 64 max_tag.
Proof. apply tag_of_width; by split. Qed.

Lemma ikey_cmp_user ua ta ub tb : Compare ua ub < 0 → ikey_cmp ua ta ub tb < 0.
Proof. intros H. unfold ikey_cmp. destruct (Z.eqb_spec (Compare ua ub) 0); lia. Qed.

Lemma ikey_cmp_refl u t : ikey_cmp u t u t = 0.
Proof. unfold ikey_cmp. by rewrite Compare_refl, Z.eqb_refl, Z.ltb_irrefl. Qed.

Lemma PutFixed64_ikey u tag : PutFixed64 u tag = ikey_bytes u tag.
Proof. unfold PutFixed64, ikey_bytes. by rewrite EncodeFixed64_le. Qed.

Lemma ikey_separator_run us ts ul tl :
  bytes us → bytes ul → in_width 64 ts → in_width 64 tl → ikey_cmp us ts ul tl < 0 →
  ∃ ur tr, ikey_FindShortestSeparator (ikey_bytes us ts) (ikey_bytes ul tl)
    = Some (ikey_bytes ur tr) ∧ in_width 64 tr ∧ (length ur ≤ length us)%nat ∧
    ikey_cmp us ts ur tr ≤ 0 ∧ ikey_cmp ur tr ul tl < 0 ∧ bytes ur.
Proof.
  intros Hus Hul Hts Htl Hlt. unfold ikey_FindShortestSeparator. rewrite !ExtractUserKey_ikey.
  simpl_bind. set (tmp := FindShortestSeparator us ul).
  destruct (Nat.ltb_spec (length tmp) (length us)) as [Hlen|Hlen];
    [destruct (Z.ltb_spec (Compare us tmp) 0) as [Hcmp|Hcmp]|]; cbn [andb];
    try (exists us, ts; rewrite ikey_cmp_refl; done).
  assert (Huser : Compare us ul < 0).
  { destruct (decide (Compare us ul < 0)) as [|Hge]; [done|exfalso].
    unfold tmp in Hcmp. rewrite FindShortestSeparator_unchanged in Hcmp by (done || lia).
    rewrite Compare_refl in Hcmp. lia. }
  destruct (FindShortestSeparator_spec us ul Hus Hul Huser) as [_ Hlim]. fold tmp in Hlim.
  pose proof max_tag_width. rewrite max_tag_pack. simpl_bind.
  rewrite PutFixed64_ikey, !ikey_Compare_bytes by done. simpl_bind.
  pose proof (ikey_cmp_user us ts tmp max_tag Hcmp). pose proof (ikey_cmp_user tmp max_tag ul tl Hlim).
  rewrite !(proj2 (Z.ltb_lt _ 0)) by done. exists tmp, max_tag. cbn [andb].
  split; [done|]. split; [done|]. split; [lia|]. split; [lia|]. split; [done|].
  by apply FindShortestSeparator_bytes.
Qed.

(** A separator that is not the first key ends before the user key of the
    second. *)
Lemma ikey_separator_user us ts ul tl :
  bytes us → bytes ul → in_width 64 ts → in_width 64 tl → ikey_cmp us ts ul tl < 0 →
  ikey_FindShortestSeparator (ikey_bytes us ts) (ikey_bytes ul tl) = Some (ikey_bytes us ts) ∨
  ∃ ur tr, ikey_FindShortestSeparator (ikey_bytes us ts) (ikey_bytes ul tl) = Some (ikey_bytes ur tr) ∧
    Compare ur ul < 0.
Proof.
  intros Hus Hul Hts Htl Hlt. destruct (ikey_separator_run us ts ul tl Hus Hul Hts Htl Hlt) as (ur & tr & E & _).
  revert E. unfold ikey_FindShortestSeparator. rewrite !ExtractUserKey_ikey. simpl_bind.
  set (tmp := FindShortestSeparator us ul).
  destruct (Nat.ltb_spec (length tmp) (length us)); [|by left].
  destruct (Z.ltb_spec (Compare us tmp) 0) as [Hcmp|]; [|by left]. cbn [andb].
  assert (Huser : Compare us ul < 0).
  { destruct (decide (Compare us ul < 0)) as [|Hge]; [done|exfalso].
    unfold tmp in Hcmp. rewrite FindShortestSeparator_unchanged in Hcmp by (done || lia).
    rewrite Compare_refl in Hcmp. lia. }
  rewrite max_tag_pack. simpl_bind. 
  destruct (ikey_Compare (ikey_bytes us ts) _); simpl_bind; [|intros [=]].
  destruct (ikey_Compare _ _); simpl_bind; [|intros [=]]. destruct (_ && _); [|intros [=]]. intros _.
  right. exists tmp, max_tag. split; [by rewrite PutFixed64_ikey|].
  exact (proj2 (FindShortestSeparator_spec us ul Hus Hul Huser)).
Qed.

Lemma ikey_successor_run u t :
  bytes u → in_width 64 t →
  ∃ ur tr, ikey_FindShortSuccessor (ikey_bytes u t) = Some (ikey_bytes ur tr) ∧
    in_width 64 tr ∧ (length ur ≤ length u)%nat ∧ ikey_cmp u t ur tr ≤ 0 ∧ bytes ur.
Proof.
  intros Hu Ht. unfold ikey_FindShortSuccessor. rewrite !ExtractUserKey_ikey.
  simpl_bind. set (tmp := FindShortSuccessor u).
  destruct (Nat.ltb_spec (length tmp) (length u)) as [Hlen|Hlen];
    [destruct (Z.ltb_spec (Compare u tmp) 0) as [Hcmp|Hcmp]|]; cbn [andb];
    try (exists u, t; rewrite ikey_cmp_refl; done).
  pose proof max_tag_width. rewrite max_tag_pack. simpl_bind.
  rewrite PutFixed64_ikey, !ikey_Compare_bytes by done. simpl_bind.
  pose proof (ikey_cmp_user u t tmp max_tag Hcmp).
  rewrite !(proj2 (Z.ltb_lt _ 0)) by done. exists tmp, max_tag.
  split; [done|]. split; [done|]. split; [lia|]. split; [lia|]. by apply FindShortSuccessor_bytes.
Qed.
End ikeys.
