(* ===== verification/MemTable.v ===== *)
(** leveldb's in-memory table: leveldb/db/memtable.cc, and the part of
    leveldb/db/write_batch.cc that applies a batch to it.

    The table of entries is any [OrderedTable] of byte strings (the skip list
    of SkipList.v is the one of the code); an entry is its encoded bytes.
    [None] is a failed [assert], or a read outside an entry. *)

From Stdlib Require Import ZArith Lia.
From stdpp Require Import base option numbers list strings sorting.
From S2P Require Import Prelude Coding Slice WriteBatch DbFormat SkipList SkipListSpec.
From S2P Require Import SkipListRefine.

(** [GetVarint32Ptr(p, p + 5, &len)]: the length and what follows it. *)
Definition entry_length (data : list Z) : option (Z * list Z) :=
  '(len, r) ← GetVarint32Ptr (take 5 data);
  Some (len, drop (length (take 5 data) - length r) data).

(** [GetLengthPrefixedSlice] of memtable.cc: the slice and what follows it. *)
Definition entry_slice (data : list Z) : option (list Z * list Z) :=
  '(len, p) ← entry_length data;
  if Z.of_nat (length p) <? len then None
  else Some (take (Z.to_nat len) p, drop (Z.to_nat len) p).

Inductive get_result :=
  | GotNothing
  | GotValue (value : list Z)
  | GotDeletion (s : Status).

Section keycmp.
Context `{P : Port} {C : Comparator}.

(** [MemTable::KeyComparator::operator()]. *)
Definition KeyComparator (aptr bptr : list Z) : option Z :=
  '(a, _) ← entry_slice aptr; '(b, _) ← entry_slice bptr;
  ikey_Compare a b.
End keycmp.

Section memtable.
Context `{P : Port} {C : Comparator} {T : OrderedTable (list Z)}.

Record MemTable := mkMemTable { table_ : table }.

Definition NewMemTable : MemTable := mkMemTable table_new.

Definition EncodeKey (target : list Z) : list Z :=
  PutVarint32 [] (u32 (Z.of_nat (length target))) ++ target.

Definition Add (m : MemTable) (s type : Z) (key value : list Z) : option MemTable :=
  let key_size := Z.of_nat (length key) in
  let val_size := Z.of_nat (length value) in
  let internal_key_size := key_size + 8 in
  l1 ← VarintLength internal_key_size;
  l2 ← VarintLength val_size;
  let encoded_len := l1 + internal_key_size + l2 + val_size in
  let buf := EncodeVarint32 (u32 internal_key_size) ++ key
               ++ EncodeFixed64 (Z.lor (u64 (Z.shiftl s 8)) type)
               ++ EncodeVarint32 (u32 val_size) ++ value in
  if Z.of_nat (length buf) =? encoded_len then
    t ← table_Insert (table_ m) buf;
    Some (mkMemTable t)
  else None (* assert *).

(** The value and the status are the out-parameters of the code; the caller
    gives a non-null [value]. *)
Definition Get (m : MemTable) (key : LookupKey) : option get_result :=
  let memkey := memtable_key key in
  iter ← table_Seek (table_ m) memkey;
  if table_Valid iter then
    entry ← table_key (table_ m) iter;
    '(key_length, key_ptr) ← entry_length entry;
    if (key_length <? 8) || (Z.of_nat (length key_ptr) <? key_length) then None
    else
      if Compare (take (Z.to_nat (key_length - 8)) key_ptr) (lookup_user_key key) =? 0 then
        tag ← DecodeFixed64 (drop (Z.to_nat (key_length - 8)) key_ptr);
        let type := Z.land tag 255 in
        if type =? kTypeValue then
          '(v, _) ← entry_slice (drop (Z.to_nat key_length) key_ptr);
          Some (GotValue v)
        else if type =? kTypeDeletion then Some (GotDeletion (NotFound ""))
        else Some GotNothing
      else Some GotNothing
  else Some GotNothing.

(** *** [MemTableIterator] *)

Definition mit_Seek (m : MemTable) (k : list Z) : option table_iter :=
  table_Seek (table_ m) (EncodeKey k).

Definition mit_key (m : MemTable) (it : table_iter) : option (list Z) :=
  entry ← table_key (table_ m) it; '(k, _) ← entry_slice entry; Some k.

Definition mit_value (m : MemTable) (it : table_iter) : option (list Z) :=
  entry ← table_key (table_ m) it;
  '(_, r) ← entry_slice entry; '(v, _) ← entry_slice r; Some v.

(** ** Applying a batch *)

(** [MemTableInserter]: the sequence number and the table, [None] once an
    [Add] has failed. *)
Definition inserter : Handler (option (Z * MemTable)) := {|
  handler_Put st key value :=
    '(sequence_, mem_) ← st;
    mem_ ← Add mem_ sequence_ kTypeValue key value;
    Some (u64 (sequence_ + 1), mem_);
  handler_Delete st key :=
    '(sequence_, mem_) ← st;
    mem_ ← Add mem_ sequence_ kTypeDeletion key [];
    Some (u64 (sequence_ + 1), mem_)
|}.

Definition InsertInto (b : list Z) (memtable : MemTable) : option (MemTable * Status) :=
  seq ← Sequence b;
  '(st, status) ← Iterate b inserter (Some (seq, memtable));
  '(_, mem_) ← st;
  Some (mem_, status).

End memtable.

(** ** Entries *)

Record entry := mkEntry { e_key : list Z; e_seq : Z; e_type : Z; e_value : list Z }.

Definition e_tag (e : entry) : Z := tag_of (e_seq e) (e_type e).

Definition entry_bytes (e : entry) : list Z :=
  PutLengthPrefixedSlice [] (ikey_bytes (e_key e) (e_tag e)) ++ PutLengthPrefixedSlice [] (e_value e).

(** A user key short enough for the length of its internal key. *)
Definition key_ok (k : list Z) : Prop := bytes k ∧ in_width 32 (Z.of_nat (length k) + 8).

Definition entry_ok (e : entry) : Prop :=
  key_ok (e_key e) ∧ seq_ok (e_seq e) ∧ type_ok (e_type e) ∧ str_ok (e_value e).

Lemma ikey_str_ok k tag : key_ok k → str_ok (ikey_bytes k tag).
Proof.
  intros [Hk Hl]. split; [by apply ikey_bytes_bytes|]. rewrite length_ikey_bytes.
  by rewrite Nat2Z.inj_add.
Qed.

Lemma entry_length_put s r :
  str_ok s → bytes r →
  entry_length (PutLengthPrefixedSlice [] s ++ r) = Some (Z.of_nat (length s), s ++ r).
Proof.
  intros [Hs Hl] Hr. unfold entry_length, PutLengthPrefixedSlice, PutVarint32. cbn [app].
  rewrite wrap_small by done. set (enc := EncodeVarint32 _).
  assert (Henc : (length enc ≤ 5)%nat).
  { unfold enc. rewrite EncodeVarint32_leb128 by done.
    pose proof (length_leb128 4 (Z.of_nat (length s))). lia. }
  rewrite <-app_assoc, take_app_ge by lia. rewrite GetVarint32Ptr_eq. subst enc.
  rewrite GetVarint32_encode; [|done|by apply Forall_take, Forall_app]. simpl_bind.
  rewrite length_app, Nat.add_sub, drop_app_length. done.
Qed.

Lemma entry_slice_put s r :
  str_ok s → bytes r → entry_slice (PutLengthPrefixedSlice [] s ++ r) = Some (s, r).
Proof.
  intros Hs Hr. unfold entry_slice. rewrite entry_length_put by done. simpl_bind.
  rewrite length_app, (proj2 (Z.ltb_ge _ _)) by lia.
  by rewrite Nat2Z.id, take_app_length, drop_app_length.
Qed.

Lemma value_bytes e : entry_ok e → bytes (PutLengthPrefixedSlice [] (e_value e)).
Proof. intros (_ & _ & _ & [Hv _]). by apply PutLengthPrefixedSlice_bytes. Qed.

Lemma e_tag_width e : entry_ok e → in_width 64 (e_tag e).
Proof. intros (_ & Hs & Ht & _). by apply tag_of_width. Qed.

(** A search key: an internal key with no value. *)
Definition probe_bytes (k : list Z) (tag : Z) : list Z := PutLengthPrefixedSlice [] (ikey_bytes k tag).

(** What the comparator reads of a table key. *)
Definition table_wf (b : list Z) : Prop :=
  ∃ k tag r, b = probe_bytes k tag ++ r ∧ key_ok k ∧ in_width 64 tag ∧ bytes r.

Lemma probe_wf k tag r : key_ok k → in_width 64 tag → bytes r → table_wf (probe_bytes k tag ++ r).
Proof. intros. by exists k, tag, r. Qed.

Lemma entry_wf e : entry_ok e → table_wf (entry_bytes e).
Proof.
  intros He. apply probe_wf; [apply He|by apply e_tag_width|by apply value_bytes].
Qed.

Section order.
Context `{P : Port} {C : Comparator}.

Definition table_cmp (a b : list Z) : Z := default 0 (KeyComparator a b).

Lemma KeyComparator_bytes k tag r k' tag' r' :
  key_ok k → in_width 64 tag → bytes r → key_ok k' → in_width 64 tag' → bytes r' →
  KeyComparator (probe_bytes k tag ++ r) (probe_bytes k' tag' ++ r')
  = Some (ikey_cmp k tag k' tag').
Proof.
  intros. unfold KeyComparator, probe_bytes.
  rewrite !entry_slice_put by (done || by apply ikey_str_ok). simpl_bind.
  by apply ikey_Compare_bytes.
Qed.

Lemma table_cmp_bytes k tag r k' tag' r' :
  key_ok k → in_width 64 tag → bytes r → key_ok k' → in_width 64 tag' → bytes r' →
  table_cmp (probe_bytes k tag ++ r) (probe_bytes k' tag' ++ r') = ikey_cmp k tag k' tag'.
Proof. intros. unfold table_cmp. by rewrite KeyComparator_bytes. Qed.

Lemma table_cmp_entry e e' :
  entry_ok e → entry_ok e' →
  table_cmp (entry_bytes e) (entry_bytes e') = ikey_cmp (e_key e) (e_tag e) (e_key e') (e_tag e').
Proof.
  intros He He'. apply table_cmp_bytes;
    first [apply He|apply He'|by apply e_tag_width|by apply value_bytes].
Qed.

Context {HC : ComparatorLaws C}.

#[export] Instance memtable_order : KeyOrder table_wf KeyComparator table_cmp.
Proof.
  split.
  - intros a b (k & tag & r & -> & ? & ? & ?) (k' & tag' & r' & -> & ? & ? & ?).
    unfold table_cmp. by rewrite KeyComparator_bytes.
  - intros a b (k & tag & r & -> & ? & ? & ?) (k' & tag' & r' & -> & ? & ? & ?).
    rewrite !table_cmp_bytes by done. apply ikey_cmp_anti.
  - intros a b c (k & tag & r & -> & ? & ? & ?) (k' & tag' & r' & -> & ? & ? & ?)
      (k2 & tag2 & r2 & -> & ? & ? & ?).
    rewrite !table_cmp_bytes by done. apply ikey_cmp_trans.
Qed.
End order.

(** The memtable answers a lookup with the newest entry of the key that the
    snapshot can see.  The proofs use the table only through
    [OrderedTableLaws]. *)

(** ** Encoding an entry *)

Lemma VarintLength_encode32 n :
  in_width 32 n → VarintLength n = Some (Z.of_nat (length (EncodeVarint32 n))).
Proof.
  intros Hn. rewrite VarintLength_leb128 by (eapply (in_width_mono 32); [lia|done]).
  rewrite EncodeVarint32_leb128 by done.
  rewrite (leb128_fuel 4 9); [done|by apply width32_bound|lia].
Qed.

Lemma entry_bytes_layout `{Port} e :
  entry_ok e →
  EncodeVarint32 (u32 (Z.of_nat (length (e_key e)) + 8)) ++ e_key e
    ++ EncodeFixed64 (Z.lor (u64 (Z.shiftl (e_seq e) 8)) (e_type e))
    ++ EncodeVarint32 (u32 (Z.of_nat (length (e_value e)))) ++ e_value e
  = entry_bytes e.
Proof.
  intros (Hk & Hs & Ht & Hv). rewrite tag_of_lor, EncodeFixed64_le by done.
  unfold entry_bytes, PutLengthPrefixedSlice, PutVarint32, ikey_bytes, e_tag. cbn [app].
  rewrite length_app, length_le_bytes, Nat2Z.inj_add. by rewrite <-!app_assoc.
Qed.

Lemma length_entry_bytes e :
  entry_ok e →
  length (entry_bytes e) = (length (EncodeVarint32 (Z.of_nat (length (e_key e)) + 8))
    + (length (e_key e) + 8) + length (EncodeVarint32 (Z.of_nat (length (e_value e))))
    + length (e_value e))%nat.
Proof.
  intros (Hk & Hs & Ht & Hv). unfold entry_bytes, PutLengthPrefixedSlice, PutVarint32. cbn [app].
  rewrite !length_app, length_ikey_bytes, Nat2Z.inj_add. destruct Hk as [_ Hk], Hv as [_ Hv].
  change (Z.of_nat 8) with 8. rewrite !wrap_small by done. lia.
Qed.

(** ** Lookup keys *)

Lemma NewLookupKey_bytes `{Port} k s :
  key_ok k → seq_ok s →
  ∃ lk, NewLookupKey k s = Some lk ∧ memtable_key lk = probe_bytes k (tag_of s 1) ∧
    internal_key lk = ikey_bytes k (tag_of s 1) ∧ lookup_user_key lk = k.
Proof.
  intros [Hk Hw] Hs. unfold NewLookupKey.
  rewrite PackSequenceAndType_tag by (done || by split). simpl_bind.
  change (wrap 32 (wrap 32 (Z.of_nat (length k)) + 8)) with (u32 (u32 (Z.of_nat (length k)) + 8)).
  rewrite wrap_add_wrap, wrap_small by (done || lia). rewrite EncodeFixed64_le.
  change kValueTypeForSeek with 1.
  set (enc := EncodeVarint32 (Z.of_nat (length k) + 8)).
  assert (Henc : (length enc ≤ 5)%nat).
  { unfold enc. rewrite EncodeVarint32_leb128 by done.
    pose proof (length_leb128 4 (Z.of_nat (length k) + 8)). lia. }
  rewrite !length_app, length_le_bytes, (proj2 (Nat.leb_le _ _)) by lia.
  eexists. split; [done|]. unfold memtable_key, internal_key, lookup_user_key. cbn [start_ kstart_].
  split; [|split].
  - unfold probe_bytes, PutLengthPrefixedSlice, PutVarint32. cbn [app].
    rewrite length_ikey_bytes, Nat2Z.inj_add, wrap_small by done. done.
  - by rewrite drop_app_length.
  - rewrite drop_app_length, !length_app, length_le_bytes.
    replace (length enc + (length k + 8) - length enc - 8)%nat with (length k) by lia.
    by rewrite take_app_length.
Qed.

(** ** The contents of a memtable *)

Section spec.
Context `{P : Port} {C : Comparator} {HC : ComparatorLaws C}.
Context {T : OrderedTable (list Z)} {TL : OrderedTableLaws T table_wf table_cmp}.

Definition mem_rep (m : MemTable) (es : list entry) : Prop :=
  ∃ es', es' ≡ₚ es ∧ Forall entry_ok es' ∧ table_rep (table_ m) (entry_bytes <$> es').

Lemma NewMemTable_rep : mem_rep NewMemTable [].
Proof. exists []. split; [done|]. split; [done|]. apply rep_new. Qed.

(** The same user key at the same sequence number and type. *)
Definition same_ikey (e e' : entry) : Prop :=
  Compare (e_key e) (e_key e') = 0 ∧ e_tag e = e_tag e'.

Lemma ikey_cmp_zero ua ta ub tb : ikey_cmp ua ta ub tb = 0 → Compare ua ub = 0 ∧ ta = tb.
Proof.
  unfold ikey_cmp. destruct (Z.eqb_spec (Compare ua ub) 0); [|done].
  destruct (Z.ltb_spec tb ta), (Z.ltb_spec ta tb); try done. lia.
Qed.

Lemma filter_fmap_entries (Q : list Z → Prop) `{!∀ b, Decision (Q b)} (es : list entry) :
  filter Q (entry_bytes <$> es) = entry_bytes <$> filter (λ e, Q (entry_bytes e)) es.
Proof.
  induction es as [|e es IH]; [done|]. rewrite fmap_cons, !filter_cons, IH. by case_decide.
Qed.

Lemma sorted_insert_entries e (es : list entry) :
  ∃ es', sorted_insert table_cmp (entry_bytes e) (entry_bytes <$> es) = entry_bytes <$> es' ∧
    es' ≡ₚ e :: es.
Proof.
  unfold sorted_insert. rewrite !filter_fmap_entries. rewrite <-fmap_cons, <-fmap_app.
  eexists. split; [done|]. rewrite <-Permutation_middle. f_equiv. apply filter_app_complement.
Qed.

Lemma Add_rep m es e :
  mem_rep m es → entry_ok e → Forall (λ e', ¬ same_ikey e e') es →
  ∃ m', Add m (e_seq e) (e_type e) (e_key e) (e_value e) = Some m' ∧ mem_rep m' (e :: es).
Proof.
  intros (es' & Hp & Hok & Hrep) He Hf. unfold Add.
  pose proof He as ([_ Hk] & _ & _ & [_ Hv]).
  rewrite !VarintLength_encode32 by done. simpl_bind.
  rewrite entry_bytes_layout, length_entry_bytes by done.
  rewrite (proj2 (Z.eqb_eq _ _)) by lia.
  destruct (rep_Insert (table_ m) (entry_bytes <$> es') (entry_bytes e) Hrep (entry_wf e He))
    as (t & -> & Ht).
  { apply Forall_fmap, Forall_forall. intros e' He' Hcmp.
    change (table_cmp (entry_bytes e) (entry_bytes e') = 0) in Hcmp.
    rewrite Forall_forall in Hok. rewrite table_cmp_entry in Hcmp by auto.
    apply ikey_cmp_zero in Hcmp. rewrite Hp in He'. rewrite Forall_forall in Hf. by apply (Hf e'). }
  simpl_bind. eexists. split; [done|].
  destruct (sorted_insert_entries e es') as (es2 & E & Hp2). rewrite E in Ht.
  exists es2. split; [by rewrite Hp2, Hp|]. split; [|done]. rewrite Hp2. by constructor.
Qed.

(** ** Lookup *)

Definition visible (k : list Z) (s : Z) (e : entry) : Prop :=
  Compare (e_key e) k = 0 ∧ e_seq e ≤ s.

Definition newest (es : list entry) (k : list Z) (s : Z) (e : entry) : Prop :=
  e ∈ es ∧ visible k s e ∧ ∀ e', e' ∈ es → visible k s e' → e_tag e' ≤ e_tag e.

Definition get_ok (es : list entry) (k : list Z) (s : Z) (r : get_result) : Prop :=
  match r with
  | GotNothing => ∀ e, e ∈ es → ¬ visible k s e
  | GotValue v => ∃ e, newest es k s e ∧ e_type e = kTypeValue ∧ e_value e = v
  | GotDeletion st => st = NotFound "" ∧ ∃ e, newest es k s e ∧ e_type e = kTypeDeletion
  end.

(** An entry is at or after the search key iff its user key is larger, or is
    the key and the snapshot sees it. *)
Lemma probe_entry k s e :
  entry_ok e → key_ok k → seq_ok s →
  table_cmp (entry_bytes e) (probe_bytes k (tag_of s 1)) < 0
  ↔ Compare (e_key e) k < 0 ∨ (Compare (e_key e) k = 0 ∧ s < e_seq e).
Proof.
  intros He Hk Hs. rewrite <-(app_nil_r (probe_bytes k (tag_of s 1))).
  change (entry_bytes e)
    with (probe_bytes (e_key e) (e_tag e) ++ PutLengthPrefixedSlice [] (e_value e)).
  rewrite table_cmp_bytes;
    [|apply He|by apply e_tag_width|by apply value_bytes|done|by apply tag_of_width; [|split]|constructor].
  destruct He as (_ & Hse & Ht & _). unfold ikey_cmp, e_tag, tag_of, type_ok in *.
  destruct (Z.eqb_spec (Compare (e_key e) k) 0) as [E|E]; [|lia].
  destruct (Z.ltb_spec (s * 256 + 1) (e_seq e * 256 + e_type e)),
    (Z.ltb_spec (e_seq e * 256 + e_type e) (s * 256 + 1)); lia.
Qed.

Lemma get_entry m e k lk :
  entry_ok e → lookup_user_key lk = k →
  (it ← table_Seek (table_ m) (memtable_key lk);
   if table_Valid it then table_key (table_ m) it else None) = Some (entry_bytes e) →
  Get m lk = Some (if Compare (e_key e) k =? 0
                   then (if e_type e =? kTypeValue then GotValue (e_value e)
                         else GotDeletion (NotFound ""))
                   else GotNothing).
Proof.
  intros He Hk Hseek. unfold Get.
  destruct (table_Seek (table_ m) (memtable_key lk)) as [it|]; [|done].
  simpl_bind in *. destruct (table_Valid it); [|done]. rewrite Hseek.
  simpl_bind. pose proof He as (Hkey & Hs & Ht & Hv).
  unfold entry_bytes. rewrite entry_length_put by (by apply ikey_str_ok || by apply value_bytes).
  simpl_bind. rewrite length_app, length_ikey_bytes.
  rewrite (proj2 (Z.ltb_ge _ 8)), (proj2 (Z.ltb_ge _ _)) by lia. cbn [orb].
  replace (Z.to_nat (Z.of_nat (length (e_key e) + 8) - 8)) with (length (e_key e)) by lia.
  unfold ikey_bytes. rewrite <-!app_assoc, take_app_length, drop_app_length, Hk.
  destruct (Compare (e_key e) k =? 0); [|done].
  rewrite <-EncodeFixed64_le, DecodeFixed64_encode by (by apply e_tag_width || by apply value_bytes).
  simpl_bind. unfold e_tag. rewrite tag_of_type by done.
  destruct (Z.eqb_spec (e_type e) kTypeValue) as [E|E].
  - rewrite Nat2Z.id. rewrite EncodeFixed64_le, app_assoc.
    rewrite drop_app_length' by (by rewrite length_app, length_le_bytes).
    rewrite <-(app_nil_r (PutLengthPrefixedSlice [] (e_value e))).
    by rewrite entry_slice_put by (done || constructor).
  - destruct (Z.eqb_spec (e_type e) kTypeDeletion) as [|E']; [done|].
    unfold type_ok, kTypeValue, kTypeDeletion in *. lia.
Qed.

Definition before_probe (k : list Z) (s : Z) (e : entry) : bool :=
  bool_decide (table_cmp (entry_bytes e) (probe_bytes k (tag_of s 1)) < 0).

Lemma probe_table_wf k s : key_ok k → seq_ok s → table_wf (probe_bytes k (tag_of s 1)).
Proof.
  intros Hk Hs. rewrite <-(app_nil_r (probe_bytes _ _)).
  apply probe_wf; [done|by apply tag_of_width; [|split]|constructor].
Qed.

Definition entries_sorted (es : list entry) : Prop :=
  StronglySorted (λ e e', ikey_cmp (e_key e) (e_tag e) (e_key e') (e_tag e') < 0) es.

Lemma rep_entries_sorted t es :
  Forall entry_ok es → table_rep t (entry_bytes <$> es) → entries_sorted es.
Proof.
  intros Hok [Hs _]%rep_sorted. unfold entries_sorted. induction Hok as [|e es He Hes IH]; [constructor|].
  rewrite fmap_cons in Hs. apply StronglySorted_inv in Hs as [Hs Hx].
  constructor; [by apply IH|]. rewrite Forall_fmap in Hx. rewrite Forall_forall in *.
  intros e' He'. specialize (Hx e' He').
  change (table_cmp (entry_bytes e) (entry_bytes e') < 0) in Hx.
  by rewrite table_cmp_entry in Hx by auto.
Qed.

Lemma before_probe_antitone es k s :
  Forall entry_ok es → key_ok k → seq_ok s → entries_sorted es →
  antitone (before_probe k s) es.
Proof.
  intros Hok Hk Hs Hsort. unfold antitone. induction Hsort as [|e es Hsort IH Hx]; [constructor|].
  apply Forall_cons in Hok as [He Hok]. constructor; [by apply IH|].
  rewrite Forall_forall in *. intros e' He'. specialize (Hx e' He').
  unfold before_probe. rewrite !bool_decide_spec. intros Hlt.
  apply (cmp_lt_trans KeyComparator table_wf table_cmp _ (entry_bytes e')); [..|done].
  - by apply entry_wf.
  - apply entry_wf. by apply Hok.
  - by apply probe_table_wf.
  - by rewrite table_cmp_entry by auto.
Qed.

(** What the first entry at or after the search key says about the others. *)
Lemma first_at_probe es k s e r :
  Forall entry_ok es → key_ok k → seq_ok s → entries_sorted es →
  rest (before_probe k s) es = e :: r →
  (Compare (e_key e) k = 0 → newest es k s e) ∧
  (Compare (e_key e) k ≠ 0 → ∀ e', e' ∈ es → ¬ visible k s e').
Proof.
  intros Hok Hk Hs Hsort Hrest.
  assert (Hin : ∀ e', e' ∈ rest (before_probe k s) es ↔ before_probe k s e' = false ∧ e' ∈ es)
    by (intros e'; unfold rest; by rewrite list_elem_of_filter).
  assert (Hcase : ∀ e', e' ∈ es → (before_probe k s e' = false ↔
    ¬ (Compare (e_key e') k < 0 ∨ (Compare (e_key e') k = 0 ∧ s < e_seq e')))).
  { intros e' He'. unfold before_probe. rewrite bool_decide_eq_false.
    rewrite probe_entry; [done| |done|done]. rewrite Forall_forall in Hok. by apply Hok. }
  assert (He : before_probe k s e = false ∧ e ∈ es) by (apply Hin; rewrite Hrest; by left).
  destruct He as [Heb He]. apply Hcase in Heb; [|done].
  assert (Hfirst : ∀ e', e' ∈ es → visible k s e' → e' = e ∨
    ikey_cmp (e_key e) (e_tag e) (e_key e') (e_tag e') < 0).
  { intros e' He' [Hv1 Hv2].
    assert (Hr : e' ∈ rest (before_probe k s) es) by (apply Hin; split; [apply Hcase; [done|lia]|done]).
    assert (Hsr : entries_sorted (rest (before_probe k s) es)).
    { eapply StronglySorted_sublist; [|exact Hsort]. apply sublist_filter. }
    rewrite Hrest in Hr, Hsr. apply elem_of_cons in Hr as [->|Hr]; [by left|right].
    apply StronglySorted_inv in Hsr as [_ Hx]. rewrite Forall_forall in Hx. by apply Hx. }
  split.
  - intros E. split; [done|]. split; [split; [done|lia]|]. intros e' He' Hv.
    destruct (Hfirst e' He' Hv) as [->|Hlt]; [lia|]. destruct Hv as [Hv _].
    unfold ikey_cmp in Hlt. pose proof (Compare_eq_l (e_key e) k (e_key e') E) as H1.
    pose proof (Compare_anti k (e_key e')) as H2. rewrite (proj2 (Z.eqb_eq _ 0)) in Hlt by lia.
    destruct (Z.ltb_spec (e_tag e') (e_tag e)), (Z.ltb_spec (e_tag e) (e_tag e')); lia.
  - intros E e' He' Hv. destruct (Hfirst e' He' Hv) as [->|Hlt]; [by destruct Hv|].
    destruct Hv as [Hv _].
    assert (Hle : Compare (e_key e) (e_key e') ≤ 0).
    { unfold ikey_cmp in Hlt. destruct (Z.eqb_spec (Compare (e_key e) (e_key e')) 0); lia. }
    pose proof (Compare_trans _ _ k Hle ltac:(lia)). lia.
Qed.

Lemma Get_rep m es k s :
  mem_rep m es → key_ok k → seq_ok s →
  ∃ lk r, NewLookupKey k s = Some lk ∧ Get m lk = Some r ∧ get_ok es k s r.
Proof.
  intros (es' & Hp & Hok & Hrep) Hk Hs.
  destruct (NewLookupKey_bytes k s Hk Hs) as (lk & Hlk & Hmk & _ & Huk).
  exists lk. pose proof (rep_entries_sorted _ _ Hok Hrep) as Hsort.
  destruct (rep_Seek (table_ m) _ (probe_bytes k (tag_of s 1)) Hrep (probe_table_wf k s Hk Hs))
    as (it & Hseek & Hat).
  pose proof (antitone_split _ _ (before_probe_antitone es' k s Hok Hk Hs Hsort)) as Hsp.
  assert (Hlen : length (filter (λ b, table_cmp b (probe_bytes k (tag_of s 1)) < 0)
    (entry_bytes <$> es')) = length (keep (before_probe k s) es')).
  { rewrite filter_fmap_entries, length_fmap. f_equal. unfold keep, before_probe.
    apply list_filter_iff. intros e. by rewrite bool_decide_spec. }
  rewrite Hlen in Hat. clear Hlen.
  pose proof (at_Valid _ _ _ _ Hat) as Hvalid. pose proof (at_key _ _ _ _ Hat) as Hkey.
  rewrite length_fmap in Hvalid. rewrite list_lookup_fmap in Hkey.
  assert (Hnth : es' !! length (keep (before_probe k s) es') = head (rest (before_probe k s) es')).
  { rewrite head_lookup. transitivity ((keep (before_probe k s) es' ++ rest (before_probe k s) es')
      !! length (keep (before_probe k s) es')); [by rewrite <-Hsp|].
    by rewrite lookup_app_r, Nat.sub_diag. }
  rewrite Hnth in Hkey. destruct (rest (before_probe k s) es') as [|e r] eqn:E; cbn [head] in *.
  - exists GotNothing. split; [done|].
    rewrite bool_decide_eq_false_2 in Hvalid by (apply lookup_ge_None in Hnth; lia).
    unfold Get. rewrite Hmk, Hseek. simpl_bind. rewrite Hvalid. split; [done|].
    intros e He [Hv1 Hv2]. rewrite <-Hp in He. rewrite app_nil_r in Hsp. rewrite Hsp in He.
    apply list_elem_of_filter in He as [He1 He2]. unfold before_probe in He1.
    rewrite bool_decide_spec in He1. rewrite Forall_forall in Hok.
    apply probe_entry in He1; [lia|by apply Hok|done|done].
  - destruct (first_at_probe es' k s e r Hok Hk Hs Hsort E) as [Hyes Hno].
    assert (He : e ∈ es') by (rewrite Hsp; apply elem_of_app; right; by left).
    assert (Heok : entry_ok e) by (rewrite Forall_forall in Hok; by apply Hok).
    rewrite bool_decide_eq_true_2 in Hvalid by (by apply lookup_lt_Some in Hnth).
    eexists. split; [done|]. split.
    { apply (get_entry m e k lk Heok Huk). rewrite Hmk, Hseek. simpl_bind.
      by rewrite Hvalid. }
    destruct (Z.eqb_spec (Compare (e_key e) k) 0) as [E0|E0].
    + assert (Hnew : newest es k s e).
      { destruct (Hyes E0) as (H1 & H2 & H3). split; [by rewrite <-Hp|]. split; [done|].
        intros e'. rewrite <-Hp. apply H3. }
      destruct (Z.eqb_spec (e_type e) kTypeValue) as [Et|Et]; [by exists e|].
      split; [done|]. exists e. split; [done|]. destruct Heok as (_ & _ & Ht & _).
      unfold type_ok, kTypeValue, kTypeDeletion in *. lia.
    + intros e'. rewrite <-Hp. by apply Hno.
Qed.

(** *** Entries in two places *)

(** The first entries are newer, key by key. *)
Definition newer (es1 es2 : list entry) : Prop :=
  ∀ a b, a ∈ es1 → b ∈ es2 → Compare (e_key a) (e_key b) = 0 → e_tag b < e_tag a.

Definition or_else (r1 r2 : get_result) : get_result :=
  match r1 with GotNothing => r2 | _ => r1 end.

Lemma get_ok_app es1 es2 k s r1 r2 :
  newer es1 es2 → get_ok es1 k s r1 → get_ok es2 k s r2 →
  get_ok (es1 ++ es2) k s (or_else r1 r2).
Proof.
  intros Hn H1 H2.
  assert (Hfirst : ∀ e, newest es1 k s e → newest (es1 ++ es2) k s e).
  { intros e (He & Hv & Hmax). split; [by apply elem_of_app; left|]. split; [done|].
    intros e' [He'|He']%elem_of_app Hv'; [by apply Hmax|].
    apply Z.lt_le_incl, (Hn e e' He He'). destruct Hv as [Hv _], Hv' as [Hv' _].
    pose proof (Compare_eq_l _ _ (e_key e') Hv). pose proof (proj1 (Compare_eq_sym _ _) Hv'). lia. }
  destruct r1 as [|v|st]; cbn [get_ok or_else] in *.
  - assert (Hsecond : ∀ e, newest es2 k s e → newest (es1 ++ es2) k s e).
    { intros e (He & Hv & Hmax). split; [by apply elem_of_app; right|]. split; [done|].
      intros e' [He'|He']%elem_of_app Hv'; [by destruct (H1 e')|by apply Hmax]. }
    destruct r2 as [|v|st]; cbn [get_ok] in *.
    + intros e [He|He]%elem_of_app; auto.
    + destruct H2 as (e & ? & ?). eauto.
    + destruct H2 as (? & e & ? & ?). eauto 10.
  - destruct H1 as (e & ? & ?). eauto.
  - destruct H1 as (? & e & ? & ?). eauto 10.
Qed.

Lemma get_ok_ext es es' k s r :
  (∀ e, visible k s e → e ∈ es ↔ e ∈ es') → get_ok es k s r → get_ok es' k s r.
Proof.
  intros He. assert (Hn : ∀ e, newest es k s e → newest es' k s e).
  { intros e (H1 & H2 & H3). split; [by apply He|]. split; [done|]. intros e' He' Hv. apply H3; [|done]. by apply He. }
  destruct r as [|v|st]; cbn [get_ok].
  - intros H e He' Hv. apply (H e); [|done]. by apply He.
  - intros (e & ? & ?). eauto.
  - intros (? & e & ? & ?). eauto.
Qed.
End spec.
