(* ===== verification/VersionEdit.v ===== *)
(** What a new version of the database changes, and its representation in the
    manifest: leveldb/db/version_edit.h and leveldb/db/version_edit.cc.

    An [InternalKey] is its [rep_] (DbFormat.v).  The set of deleted files
    ([std::set] of pairs) is the list of its elements in increasing order,
    the order in which it is iterated. *)

From Stdlib Require Import ZArith Lia String.
From stdpp Require Import base option numbers list strings sorting sets.
From S2P Require Import Prelude Coding Slice WriteBatch DbFormat.

(** ** Files *)

(** The constructor leaves [number] alone: it is set before it is read. *)
Record FileMetaData := mkFile {
  f_refs : Z;
  f_allowed_seeks : Z;
  f_number : Z;
  f_file_size : Z;
  f_smallest : list Z;
  f_largest : list Z
}.

#[export] Instance FileMetaData_eq_dec : EqDecision FileMetaData.
Proof. solve_decision. Defined.

Definition NewFile (number file_size : Z) (smallest largest : list Z) : FileMetaData :=
  mkFile 0 (Z.shiftl 1 30) number file_size smallest largest.

Definition kNumLevels : Z := 7.

(** ** Sets of pairs *)

Definition pair_lt (x y : Z * Z) : bool := (x.1 <? y.1) || ((x.1 =? y.1) && (x.2 <? y.2)).

Fixpoint set_insert (x : Z * Z) (l : list (Z * Z)) : list (Z * Z) :=
  match l with
  | [] => [x]
  | y :: l' => if pair_lt x y then x :: l else if pair_lt y x then y :: set_insert x l' else l
  end.

(** ** [VersionEdit] *)

Record VersionEdit := mkEdit {
  comparator_ : list Z;
  log_number_ : Z;
  prev_log_number_ : Z;
  next_file_number_ : Z;
  last_sequence_ : Z;
  has_comparator_ : bool;
  has_log_number_ : bool;
  has_prev_log_number_ : bool;
  has_next_file_number_ : bool;
  has_last_sequence_ : bool;
  compact_pointers_ : list (Z * list Z);
  deleted_files_ : list (Z * Z);
  new_files_ : list (Z * FileMetaData)
}.

(** [compact_pointers_] is not cleared. *)
Definition edit_Clear (e : VersionEdit) : VersionEdit :=
  mkEdit [] 0 0 0 0 false false false false false (compact_pointers_ e) [] [].

Definition NewVersionEdit : VersionEdit := mkEdit [] 0 0 0 0 false false false false false [] [] [].

Definition SetComparatorName (e : VersionEdit) (name : list Z) : VersionEdit :=
  mkEdit name (log_number_ e) (prev_log_number_ e) (next_file_number_ e) (last_sequence_ e)
    true (has_log_number_ e) (has_prev_log_number_ e) (has_next_file_number_ e) (has_last_sequence_ e)
    (compact_pointers_ e) (deleted_files_ e) (new_files_ e).

Definition SetLogNumber (e : VersionEdit) (num : Z) : VersionEdit :=
  mkEdit (comparator_ e) num (prev_log_number_ e) (next_file_number_ e) (last_sequence_ e)
    (has_comparator_ e) true (has_prev_log_number_ e) (has_next_file_number_ e) (has_last_sequence_ e)
    (compact_pointers_ e) (deleted_files_ e) (new_files_ e).

Definition SetPrevLogNumber (e : VersionEdit) (num : Z) : VersionEdit :=
  mkEdit (comparator_ e) (log_number_ e) num (next_file_number_ e) (last_sequence_ e)
    (has_comparator_ e) (has_log_number_ e) true (has_next_file_number_ e) (has_last_sequence_ e)
    (compact_pointers_ e) (deleted_files_ e) (new_files_ e).

Definition SetNextFile (e : VersionEdit) (num : Z) : VersionEdit :=
  mkEdit (comparator_ e) (log_number_ e) (prev_log_number_ e) num (last_sequence_ e)
    (has_comparator_ e) (has_log_number_ e) (has_prev_log_number_ e) true (has_last_sequence_ e)
    (compact_pointers_ e) (deleted_files_ e) (new_files_ e).

Definition SetLastSequence (e : VersionEdit) (seq : Z) : VersionEdit :=
  mkEdit (comparator_ e) (log_number_ e) (prev_log_number_ e) (next_file_number_ e) seq
    (has_comparator_ e) (has_log_number_ e) (has_prev_log_number_ e) (has_next_file_number_ e) true
    (compact_pointers_ e) (deleted_files_ e) (new_files_ e).

Definition set_files (e : VersionEdit) (cp : list (Z * list Z)) (df : list (Z * Z))
    (nf : list (Z * FileMetaData)) : VersionEdit :=
  mkEdit (comparator_ e) (log_number_ e) (prev_log_number_ e) (next_file_number_ e) (last_sequence_ e)
    (has_comparator_ e) (has_log_number_ e) (has_prev_log_number_ e) (has_next_file_number_ e)
    (has_last_sequence_ e) cp df nf.

Definition SetCompactPointer (e : VersionEdit) (level : Z) (key : list Z) : VersionEdit :=
  set_files e (compact_pointers_ e ++ [(level, key)]) (deleted_files_ e) (new_files_ e).

Definition AddFile (e : VersionEdit) (level file file_size : Z) (smallest largest : list Z) : VersionEdit :=
  set_files e (compact_pointers_ e) (deleted_files_ e)
    (new_files_ e ++ [(level, NewFile file file_size smallest largest)]).

Definition edit_DeleteFile (e : VersionEdit) (level file : Z) : VersionEdit :=
  set_files e (compact_pointers_ e) (set_insert (level, file) (deleted_files_ e)) (new_files_ e).

(** ** Encoding *)

Definition kComparator : Z := 1.
Definition kLogNumber : Z := 2.
Definition kNextFileNumber : Z := 3.
Definition kLastSequence : Z := 4.
Definition kCompactPointer : Z := 5.
Definition kDeletedFile : Z := 6.
Definition kNewFile : Z := 7.
Definition kPrevLogNumber : Z := 9.

(** [if (has) { PutVarint32(dst, tag); PutVarint64(dst, number); }]. *)
Definition put_number (dst : list Z) (has : bool) (tag number : Z) : option (list Z) :=
  if has then PutVarint64 (PutVarint32 dst tag) number else Some dst.

Definition put_pointer (dst : list Z) (p : Z * list Z) : option (list Z) :=
  let dst := PutVarint32 (PutVarint32 dst kCompactPointer) (u32 p.1) in
  key ← ikey_Encode p.2;
  Some (PutLengthPrefixedSlice dst key).

Definition put_deleted (dst : list Z) (p : Z * Z) : option (list Z) :=
  PutVarint64 (PutVarint32 (PutVarint32 dst kDeletedFile) (u32 p.1)) p.2.

Definition put_new_file (dst : list Z) (p : Z * FileMetaData) : option (list Z) :=
  let f := p.2 in
  let dst := PutVarint32 (PutVarint32 dst kNewFile) (u32 p.1) in
  dst ← PutVarint64 dst (f_number f);
  dst ← PutVarint64 dst (f_file_size f);
  smallest ← ikey_Encode (f_smallest f);
  let dst := PutLengthPrefixedSlice dst smallest in
  largest ← ikey_Encode (f_largest f);
  Some (PutLengthPrefixedSlice dst largest).

Fixpoint put_all {A} (put : list Z → A → option (list Z)) (dst : list Z) (l : list A) : option (list Z) :=
  match l with
  | [] => Some dst
  | x :: l => dst ← put dst x; put_all put dst l
  end.

Definition edit_EncodeTo (e : VersionEdit) (dst : list Z) : option (list Z) :=
  let dst := if has_comparator_ e
             then PutLengthPrefixedSlice (PutVarint32 dst kComparator) (comparator_ e) else dst in
  dst ← put_number dst (has_log_number_ e) kLogNumber (log_number_ e);
  dst ← put_number dst (has_prev_log_number_ e) kPrevLogNumber (prev_log_number_ e);
  dst ← put_number dst (has_next_file_number_ e) kNextFileNumber (next_file_number_ e);
  dst ← put_number dst (has_last_sequence_ e) kLastSequence (last_sequence_ e);
  dst ← put_all put_pointer dst (compact_pointers_ e);
  dst ← put_all put_deleted dst (deleted_files_ e);
  put_all put_new_file dst (new_files_ e).

(** ** Decoding

    The readers give [None] for [false]; what they leave in [input] is then
    not looked at again. *)

Definition GetSlice (input : list Z) : option (list Z * list Z) :=
  let '(r, rest) := GetLengthPrefixedSlice input in
  str ← r; Some (str, rest).

Definition GetInternalKey (input : list Z) : option (list Z * list Z) :=
  '(str, rest) ← GetSlice input; Some (ikey_DecodeFrom str, rest).

Definition GetLevel (input : list Z) : option (Z * list Z) :=
  '(v, rest) ← GetVarint32 input;
  if v <? kNumLevels then Some (v, rest) else None.

(** One turn of the loop after the tag has been read: the edit and the
    remaining input, or the message. *)
Definition decode_field (e : VersionEdit) (tag : Z) (input : list Z) : (VersionEdit * list Z) + string :=
  let field {A} (r : option (A * list Z)) (set : A → VersionEdit) (msg : string) :=
    match r with Some (x, rest) => inl (set x, rest) | None => inr msg end in
  if tag =? kComparator then field (GetSlice input) (SetComparatorName e) "comparator name"%string
  else if tag =? kLogNumber then field (GetVarint64 input) (SetLogNumber e) "log number"%string
  else if tag =? kPrevLogNumber then field (GetVarint64 input) (SetPrevLogNumber e) "previous log number"%string
  else if tag =? kNextFileNumber then field (GetVarint64 input) (SetNextFile e) "next file number"%string
  else if tag =? kLastSequence then field (GetVarint64 input) (SetLastSequence e) "last sequence number"%string
  else if tag =? kCompactPointer then
    field ('(level, input) ← GetLevel input;
           '(key, input) ← GetInternalKey input;
           Some ((level, key), input))
      (λ p, SetCompactPointer e p.1 p.2) "compaction pointer"%string
  else if tag =? kDeletedFile then
    field ('(level, input) ← GetLevel input;
           '(number, input) ← GetVarint64 input;
           Some ((level, number), input))
      (λ p, edit_DeleteFile e p.1 p.2) "deleted file"%string
  else if tag =? kNewFile then
    field ('(level, input) ← GetLevel input;
           '(number, input) ← GetVarint64 input;
           '(file_size, input) ← GetVarint64 input;
           '(smallest, input) ← GetInternalKey input;
           '(largest, input) ← GetInternalKey input;
           Some ((level, number, file_size, smallest, largest), input))
      (λ '(level, number, file_size, smallest, largest), AddFile e level number file_size smallest largest)
      "new-file entry"%string
  else inr "unknown tag"%string.

(** [while (msg == NULL && GetVarint32(&input, &tag))]; every turn reads at
    least the tag. *)
Fixpoint decode_loop (fuel : nat) (e : VersionEdit) (input : list Z) : option (VersionEdit * list Z * option string) :=
  match GetVarint32 input with
  | None => Some (e, input, None)
  | Some (tag, rest) =>
      match fuel with
      | O => None
      | S fuel =>
          match decode_field e tag rest with
          | inl (e, rest) => decode_loop fuel e rest
          | inr msg => Some (e, rest, Some msg)
          end
      end
  end.

Definition edit_DecodeFrom (e : VersionEdit) (src : list Z) : option (VersionEdit * Status) :=
  '(e, input, msg) ← decode_loop (length src) (edit_Clear e) src;
  let msg := match msg with
             | None => if bool_decide (input = []) then None else Some "invalid tag"%string
             | _ => msg
             end in
  Some (e, match msg with None => OK | Some m => Corruption (status_message "VersionEdit" m) end).

(** ** Specification

    An edit as the sequence of calls that make it; a field of the encoding is
    one call. *)

Inductive edit_op :=
  | OpComparator (name : list Z)
  | OpLogNumber (num : Z)
  | OpPrevLogNumber (num : Z)
  | OpNextFile (num : Z)
  | OpLastSequence (seq : Z)
  | OpCompactPointer (level : Z) (key : list Z)
  | OpDeleteFile (level file : Z)
  | OpAddFile (level file file_size : Z) (smallest largest : list Z).

Definition apply_op (e : VersionEdit) (o : edit_op) : VersionEdit :=
  match o with
  | OpComparator name => SetComparatorName e name
  | OpLogNumber num => SetLogNumber e num
  | OpPrevLogNumber num => SetPrevLogNumber e num
  | OpNextFile num => SetNextFile e num
  | OpLastSequence seq => SetLastSequence e seq
  | OpCompactPointer level key => SetCompactPointer e level key
  | OpDeleteFile level file => edit_DeleteFile e level file
  | OpAddFile level file file_size smallest largest => AddFile e level file file_size smallest largest
  end.

Definition build_edit (ops : list edit_op) : VersionEdit := foldl apply_op NewVersionEdit ops.

Definition level_ok (level : Z) : Prop := 0 ≤ level < kNumLevels.

(** A key that is in use: it holds bytes, and the length fits its prefix. *)
Definition ikey_ok (k : list Z) : Prop := str_ok k ∧ k ≠ [].

(** [key_ok] is what is asked of internal keys. *)
Definition op_fields (key_ok : list Z → Prop) (o : edit_op) : Prop :=
  match o with
  | OpComparator name => str_ok name
  | OpLogNumber num | OpPrevLogNumber num | OpNextFile num | OpLastSequence num => in_width 64 num
  | OpCompactPointer level key => level_ok level ∧ key_ok key
  | OpDeleteFile level file => level_ok level ∧ in_width 64 file
  | OpAddFile level file file_size smallest largest =>
      level_ok level ∧ in_width 64 file ∧ in_width 64 file_size ∧ key_ok smallest ∧ key_ok largest
  end.

Abbreviation op_ok := (op_fields ikey_ok).

(** The bytes of a field. *)
Definition op_bytes (o : edit_op) : list Z :=
  let tag t := EncodeVarint32 t in
  let num n := leb128 9 n in
  let str s := PutLengthPrefixedSlice [] s in
  match o with
  | OpComparator name => tag kComparator ++ str name
  | OpLogNumber n => tag kLogNumber ++ num n
  | OpPrevLogNumber n => tag kPrevLogNumber ++ num n
  | OpNextFile n => tag kNextFileNumber ++ num n
  | OpLastSequence n => tag kLastSequence ++ num n
  | OpCompactPointer level key => tag kCompactPointer ++ tag level ++ str key
  | OpDeleteFile level file => tag kDeletedFile ++ tag level ++ num file
  | OpAddFile level file file_size smallest largest =>
      tag kNewFile ++ tag level ++ num file ++ num file_size ++ str smallest ++ str largest
  end.

(** The calls in the order of [EncodeTo]. *)
Definition ops_of (e : VersionEdit) : list edit_op :=
  (if has_comparator_ e then [OpComparator (comparator_ e)] else []) ++
  (if has_log_number_ e then [OpLogNumber (log_number_ e)] else []) ++
  (if has_prev_log_number_ e then [OpPrevLogNumber (prev_log_number_ e)] else []) ++
  (if has_next_file_number_ e then [OpNextFile (next_file_number_ e)] else []) ++
  (if has_last_sequence_ e then [OpLastSequence (last_sequence_ e)] else []) ++
  ((λ p, OpCompactPointer p.1 p.2) <$> compact_pointers_ e) ++
  ((λ p, OpDeleteFile p.1 p.2) <$> deleted_files_ e) ++
  ((λ p, OpAddFile p.1 (f_number p.2) (f_file_size p.2) (f_smallest p.2) (f_largest p.2)) <$> new_files_ e).

(** What holds of an edit made by calls: what was not set has its initial
    value, and the deleted files are a set. *)
Record edit_wf (e : VersionEdit) : Prop := {
  wf_comparator : has_comparator_ e = false → comparator_ e = [];
  wf_log : has_log_number_ e = false → log_number_ e = 0;
  wf_prev : has_prev_log_number_ e = false → prev_log_number_ e = 0;
  wf_next : has_next_file_number_ e = false → next_file_number_ e = 0;
  wf_last : has_last_sequence_ e = false → last_sequence_ e = 0;
  wf_deleted : StronglySorted (λ x y, pair_lt x y = true) (deleted_files_ e);
  wf_new : Forall (λ p, p.2 = NewFile (f_number p.2) (f_file_size p.2) (f_smallest p.2) (f_largest p.2))
             (new_files_ e);
  wf_ops : Forall op_ok (ops_of e)
}.

(** *** Sets of pairs *)

Lemma pair_lt_trans x y z : pair_lt x y = true → pair_lt y z = true → pair_lt x z = true.
Proof. unfold pair_lt. lia. Qed.

Lemma pair_lt_total x y : pair_lt x y = false → pair_lt y x = false → x = y.
Proof. destruct x, y. unfold pair_lt. cbn. intros. f_equal; lia. Qed.

Lemma elem_of_set_insert x y l : y ∈ set_insert x l → y = x ∨ y ∈ l.
Proof.
  induction l as [|z l IH]; cbn [set_insert]; [set_solver|].
  destruct (pair_lt x z), (pair_lt z x); set_solver.
Qed.

Lemma set_insert_sorted x l :
  StronglySorted (λ x y, pair_lt x y = true) l → StronglySorted (λ x y, pair_lt x y = true) (set_insert x l).
Proof.
  induction 1 as [|y l Hl IH Hy]; cbn [set_insert]; [repeat constructor|].
  destruct (pair_lt x y) eqn:E1; [|destruct (pair_lt y x) eqn:E2; [|by constructor]].
  - constructor; [by constructor|]. constructor; [done|].
    eapply Forall_impl; [done|]. intros z ?. by eapply pair_lt_trans.
  - constructor; [done|]. apply Forall_forall. intros z [->|Hz]%elem_of_set_insert; [done|].
    by apply (proj1 (Forall_forall _ _) Hy).
Qed.

(** Inserting in increasing order appends. *)
Lemma set_insert_last l x :
  Forall (λ y, pair_lt y x = true) l → set_insert x l = l ++ [x].
Proof.
  induction 1 as [|y l Hy Hl IH]; [done|]. cbn [set_insert]. rewrite Hy, IH.
  destruct (pair_lt x y) eqn:E; [|done]. unfold pair_lt in *. lia.
Qed.

(** *** Encoding *)

Lemma op_bytes_bytes o : op_ok o → bytes (op_bytes o).
Proof.
  assert (Hs : ∀ s, str_ok s → bytes (PutLengthPrefixedSlice [] s))
    by (intros s [? _]; by apply PutLengthPrefixedSlice_bytes).
  assert (Ht : ∀ t, 0 ≤ t < 2 ^ 32 → bytes (EncodeVarint32 t)) by (intros; by apply EncodeVarint32_bytes).
  unfold bytes in *. destruct o; cbn [op_fields op_bytes]; unfold level_ok, kNumLevels, ikey_ok; intros; destruct_and?;
    rewrite ?Forall_app; split_and?; 
    first [by apply Hs | apply Ht; unfold kComparator, kLogNumber, kNextFileNumber, kLastSequence, kCompactPointer,
      kDeletedFile, kNewFile, kPrevLogNumber; lia | by apply leb128_9_bytes].
Qed.

Lemma PutVarint64_leb dst n : in_width 64 n → PutVarint64 dst n = Some (dst ++ leb128 9 n).
Proof.
  intros Hn. unfold PutVarint64. rewrite (EncodeVarint64_leb128 _ Hn). simpl_bind.
  rewrite bool_decide_eq_true_2; [done|]. pose proof (length_leb128 9 n). lia.
Qed.

Lemma ikey_Encode_ok k : ikey_ok k → ikey_Encode k = Some k.
Proof. intros [_ Hk]. unfold ikey_Encode. by rewrite bool_decide_eq_false_2. Qed.

Lemma u32_level level : level_ok level → u32 level = level.
Proof. unfold level_ok, kNumLevels. intros. apply wrap_small. unfold in_width. lia. Qed.

Lemma put_number_bytes dst (has : bool) tag n (o : edit_op) :
  op_bytes o = EncodeVarint32 tag ++ leb128 9 n → (has = true → in_width 64 n) →
  put_number dst has tag n = Some (dst ++ concat (op_bytes <$> if has then [o] else [])).
Proof.
  intros Ho Hn. unfold put_number. destruct has; cbn [fmap list_fmap concat]; [|by rewrite app_nil_r].
  rewrite PutVarint64_leb by auto. unfold PutVarint32. by rewrite app_nil_r, Ho, <-app_assoc.
Qed.

Lemma put_all_bytes {A} (put : list Z → A → option (list Z)) (op : A → edit_op) l dst :
  (∀ dst x, op_ok (op x) → put dst x = Some (dst ++ op_bytes (op x))) →
  Forall op_ok (op <$> l) →
  put_all put dst l = Some (dst ++ concat (op_bytes <$> (op <$> l))).
Proof.
  intros Hput. revert dst. induction l as [|x l IH]; intros dst Hl; cbn; [by rewrite app_nil_r|].
  apply Forall_cons in Hl as [Hx Hl]. rewrite Hput by done. simpl_bind. rewrite IH by done.
  by rewrite <-app_assoc.
Qed.

Lemma put_pointer_bytes dst p :
  op_ok (OpCompactPointer p.1 p.2) → put_pointer dst p = Some (dst ++ op_bytes (OpCompactPointer p.1 p.2)).
Proof.
  intros [Hl Hk]. unfold put_pointer. rewrite ikey_Encode_ok, u32_level by done. simpl_bind.
  rewrite PutLengthPrefixedSlice_app. unfold PutVarint32. cbn [op_bytes]. by rewrite <-!app_assoc.
Qed.

Lemma put_deleted_bytes dst p :
  op_ok (OpDeleteFile p.1 p.2) → put_deleted dst p = Some (dst ++ op_bytes (OpDeleteFile p.1 p.2)).
Proof.
  intros [Hl Hk]. unfold put_deleted. rewrite PutVarint64_leb, u32_level by done.
  unfold PutVarint32. cbn [op_bytes]. by rewrite <-!app_assoc.
Qed.

Abbreviation op_of_new p :=
  (OpAddFile p.1 (f_number p.2) (f_file_size p.2) (f_smallest p.2) (f_largest p.2)).

Lemma put_new_file_bytes dst p :
  op_ok (op_of_new p) → put_new_file dst p = Some (dst ++ op_bytes (op_of_new p)).
Proof.
  intros (Hl & Hn & Hf & Hs & Hg). unfold put_new_file.
  repeat (rewrite PutVarint64_leb by done; simpl_bind). rewrite !ikey_Encode_ok, u32_level by done. simpl_bind.
  rewrite !(PutLengthPrefixedSlice_app (_ ++ _)).
  unfold PutVarint32. cbn [op_bytes]. by rewrite <-!app_assoc.
Qed.

Lemma edit_EncodeTo_bytes e dst :
  Forall op_ok (ops_of e) → edit_EncodeTo e dst = Some (dst ++ concat (op_bytes <$> ops_of e)).
Proof.
  unfold ops_of. rewrite !Forall_app. intros (Hc & Hl & Hp & Hn & Hs & Hcp & Hd & Hf).
  assert (Hnum : ∀ (b : bool) o n, Forall op_ok (if b then [o] else []) → (op_ok o → in_width 64 n) →
    b = true → in_width 64 n) by (intros b o n HF Ho ->; by apply Ho, (proj1 (Forall_singleton _ _) HF)).
  unfold edit_EncodeTo.
  rewrite (put_number_bytes _ _ _ _ (OpLogNumber (log_number_ e))) by (done || by (eapply Hnum; [done|])).
  simpl_bind. rewrite (put_number_bytes _ _ _ _ (OpPrevLogNumber (prev_log_number_ e))) by (done || by (eapply Hnum; [done|])).
  simpl_bind. rewrite (put_number_bytes _ _ _ _ (OpNextFile (next_file_number_ e))) by (done || by (eapply Hnum; [done|])).
  simpl_bind. rewrite (put_number_bytes _ _ _ _ (OpLastSequence (last_sequence_ e))) by (done || by (eapply Hnum; [done|])).
  simpl_bind. rewrite (put_all_bytes _ (λ p, OpCompactPointer p.1 p.2)) by (done || apply put_pointer_bytes).
  simpl_bind. rewrite (put_all_bytes _ (λ p, OpDeleteFile p.1 p.2)) by (done || apply put_deleted_bytes).
  simpl_bind. rewrite (put_all_bytes _ (λ p, op_of_new p)) by (done || apply put_new_file_bytes).
  f_equal. rewrite !fmap_app, !concat_app, !app_assoc. do 7 f_equal.
  destruct (has_comparator_ e); cbn [fmap list_fmap concat]; [|by rewrite app_nil_r].
  rewrite PutLengthPrefixedSlice_app. unfold PutVarint32. cbn [op_bytes]. by rewrite app_nil_r, <-app_assoc.
Qed.

(** *** Decoding *)

Lemma GetSlice_put s r : str_ok s → bytes r → GetSlice (PutLengthPrefixedSlice [] s ++ r) = Some (s, r).
Proof. intros [Hs Hl] Hr. unfold GetSlice. by rewrite GetLengthPrefixedSlice_put. Qed.

Lemma GetLevel_put level r : level_ok level → bytes r → GetLevel (EncodeVarint32 level ++ r) = Some (level, r).
Proof.
  unfold level_ok, kNumLevels. intros Hl Hr. unfold GetLevel.
  rewrite GetVarint32_encode by (done || unfold in_width; lia). simpl_bind.
  by rewrite (proj2 (Z.ltb_lt _ _)) by (unfold kNumLevels; lia).
Qed.

Lemma PutLengthPrefixedSlice_str_ok s : str_ok s → bytes (PutLengthPrefixedSlice [] s).
Proof. intros [? _]. by apply PutLengthPrefixedSlice_bytes. Qed.

Lemma level_bytes level : level_ok level → bytes (EncodeVarint32 level).
Proof. unfold level_ok, kNumLevels. intros. apply EncodeVarint32_bytes. unfold in_width. lia. Qed.

#[local] Hint Resolve PutLengthPrefixedSlice_str_ok level_bytes bytes_app leb128_9_bytes : edit.

Lemma decode_field_op e o r :
  op_ok o → bytes r →
  ∃ tag rest, GetVarint32 (op_bytes o ++ r) = Some (tag, rest) ∧ decode_field e tag rest = inl (apply_op e o, r).
Proof.
  intros Ho Hr.
  assert (Htag : ∀ t l, 0 ≤ t < 2 ^ 32 → bytes l → GetVarint32 (EncodeVarint32 t ++ l) = Some (t, l))
    by (intros; by apply GetVarint32_encode).
  destruct o; cbn [op_bytes op_fields] in *; unfold ikey_ok in Ho; destruct_and?; rewrite <-!app_assoc;
    (rewrite Htag; [|unfold kComparator, kLogNumber, kNextFileNumber, kLastSequence, kCompactPointer,
      kDeletedFile, kNewFile, kPrevLogNumber; lia|eauto 20 with edit]);
    eexists _, _; (split; [reflexivity|]); unfold decode_field, GetInternalKey;
    cbn [Z.eqb Pos.eqb kComparator kLogNumber kNextFileNumber kLastSequence kCompactPointer kDeletedFile
      kNewFile kPrevLogNumber];
    repeat (first [ rewrite GetLevel_put by eauto 20 with edit
                  | rewrite GetVarint64_leb128 by eauto 20 with edit
                  | rewrite GetSlice_put by eauto 20 with edit ]; simpl_bind); done.
Qed.

Lemma op_bytes_nonempty o : (0 < length (op_bytes o))%nat.
Proof.
  assert (H : ∀ t l, (0 < length (EncodeVarint32 t ++ l))%nat).
  { intros t l. rewrite length_app. unfold EncodeVarint32. repeat case_match; cbn; lia. }
  destruct o; apply H.
Qed.

Lemma length_op_bytes ops : (length ops ≤ length (concat (op_bytes <$> ops)))%nat.
Proof.
  induction ops as [|o ops IH]; [done|]. rewrite fmap_cons. cbn [concat length].
  rewrite length_app. pose proof (op_bytes_nonempty o). lia.
Qed.

Lemma ops_bytes ops : Forall op_ok ops → bytes (concat (op_bytes <$> ops)).
Proof.
  induction 1 as [|o ops Ho _ IH]; [by constructor|]. cbn. apply bytes_app; [by apply op_bytes_bytes|done].
Qed.

Lemma decode_loop_ops ops fuel e :
  Forall op_ok ops → (length ops ≤ fuel)%nat →
  decode_loop fuel e (concat (op_bytes <$> ops)) = Some (foldl apply_op e ops, [], None).
Proof.
  revert fuel e. induction ops as [|o ops IH]; intros fuel e Hops Hf; [by destruct fuel|].
  apply Forall_cons in Hops as [Ho Hops]. destruct fuel as [|fuel]; [cbn in Hf; lia|].
  destruct (decode_field_op e o (concat (op_bytes <$> ops)) Ho (ops_bytes _ Hops)) as (tag & rest & Hg & Hd).
  rewrite fmap_cons. cbn [concat decode_loop]. rewrite Hg, Hd. apply IH; [done|cbn in Hf; lia].
Qed.

(** *** Edits made by calls *)

Lemma replay_pointers l e :
  foldl apply_op e ((λ p, OpCompactPointer p.1 p.2) <$> l) =
  set_files e (compact_pointers_ e ++ l) (deleted_files_ e) (new_files_ e).
Proof.
  revert e. induction l as [|[level key] l IH]; intros e; cbn; [by destruct e; rewrite app_nil_r|].
  rewrite IH. cbn. by rewrite <-app_assoc.
Qed.

Lemma replay_deleted l e :
  StronglySorted (λ x y, pair_lt x y = true) (deleted_files_ e ++ l) →
  foldl apply_op e ((λ p, OpDeleteFile p.1 p.2) <$> l) =
  set_files e (compact_pointers_ e) (deleted_files_ e ++ l) (new_files_ e).
Proof.
  revert e. induction l as [|[level file] l IH]; intros e Hs; cbn; [by destruct e; rewrite app_nil_r|].
  assert (Hi : set_insert (level, file) (deleted_files_ e) = deleted_files_ e ++ [(level, file)]).
  { apply set_insert_last, Forall_forall. intros y Hy.
    apply (StronglySorted_app_1_elem_of _ _ _ y (level, file) Hs); [done|by left]. }
  rewrite IH; unfold edit_DeleteFile; cbn [deleted_files_ compact_pointers_ new_files_ set_files]; rewrite Hi.
  - by rewrite <-app_assoc.
  - by rewrite <-app_assoc.
Qed.

Lemma replay_new l e :
  Forall (λ p, p.2 = NewFile (f_number p.2) (f_file_size p.2) (f_smallest p.2) (f_largest p.2)) l →
  foldl apply_op e ((λ p, op_of_new p) <$> l) =
  set_files e (compact_pointers_ e) (deleted_files_ e) (new_files_ e ++ l).
Proof.
  revert e. induction l as [|[level f] l IH]; intros e Hl; cbn; [by destruct e; rewrite app_nil_r|].
  apply Forall_cons in Hl as [Hf Hl]. rewrite IH by done. cbn in *. rewrite <-Hf. by rewrite <-app_assoc.
Qed.

Lemma replay_ops e : edit_wf e → build_edit (ops_of e) = e.
Proof.
  intros [Hc Hl Hp Hn Hs Hd Hf _]. unfold build_edit, ops_of. rewrite !foldl_app, replay_new, replay_pointers by done.
  rewrite replay_deleted; cbn [compact_pointers_ deleted_files_ new_files_ set_files];
    destruct e as [c l p n s [] [] [] [] [] cp df nf]; cbn in *; try done; unfold set_files; cbn; f_equal; symmetry; by auto.
Qed.

Lemma ops_of_new_op e o :
  op_ok o → Forall op_ok (ops_of e) → Forall op_ok (ops_of (apply_op e o)).
Proof.
  unfold ops_of. intros Ho. destruct o; cbn [apply_op SetComparatorName SetLogNumber SetPrevLogNumber SetNextFile
    SetLastSequence SetCompactPointer AddFile edit_DeleteFile set_files comparator_ log_number_ prev_log_number_
    next_file_number_ last_sequence_ has_comparator_ has_log_number_ has_prev_log_number_ has_next_file_number_
    has_last_sequence_ compact_pointers_ deleted_files_ new_files_];
    rewrite ?fmap_app, !Forall_app; intros; destruct_and!; split_and!; try done; try by apply Forall_singleton.
  apply Forall_fmap, Forall_forall. intros p [->|Hin]%elem_of_set_insert; [done|].
  match goal with H : Forall op_ok (_ <$> deleted_files_ e) |- _ =>
    rewrite Forall_fmap, Forall_forall in H; by apply H end.
Qed.

Lemma apply_op_wf e o : op_ok o → edit_wf e → edit_wf (apply_op e o).
Proof.
  intros Ho He. pose proof (ops_of_new_op e o Ho (wf_ops _ He)) as Hops. destruct He.
  split; [..|done]; destruct o; cbn in *; try done; auto.
  - by apply set_insert_sorted.
  - apply Forall_app. split; [done|]. by apply Forall_singleton.
Qed.

Lemma NewVersionEdit_wf : edit_wf NewVersionEdit.
Proof. split; cbn; try done; constructor. Qed.

Lemma build_edit_wf ops : Forall op_ok ops → edit_wf (build_edit ops).
Proof.
  intros Hops. unfold build_edit. generalize NewVersionEdit, NewVersionEdit_wf.
  induction Hops as [|o ops Ho _ IH]; intros e He; [done|]. cbn. by apply IH, apply_op_wf.
Qed.

(** C10. The manifest keeps edits: for every sequence of calls (with numbers of
    64 bits, levels below [kNumLevels] and keys that are not empty), encoding
    the edit they make appends bytes to the destination from which
    [DecodeFrom], on a new edit, gives back exactly that edit: the numbers
    that were set and those that were not, the compaction pointers, the set
    of deleted files and the new files, in their order. *)
Theorem version_edit_roundtrip (ops : list edit_op) (dst : list Z) :
  Forall op_ok ops →
  ∃ bs, edit_EncodeTo (build_edit ops) dst = Some (dst ++ bs) ∧ bytes bs ∧
    edit_DecodeFrom NewVersionEdit bs = Some (build_edit ops, OK).
Proof.
  intros Hops. pose proof (build_edit_wf ops Hops) as Hwf. set (e := build_edit ops) in *.
  exists (concat (op_bytes <$> ops_of e)).
  split; [apply edit_EncodeTo_bytes, Hwf|]. split; [apply ops_bytes, Hwf|].
  unfold edit_DecodeFrom. rewrite decode_loop_ops by (apply Hwf || apply length_op_bytes). simpl_bind.
  rewrite bool_decide_eq_true_2 by done. f_equal. f_equal. change (edit_Clear NewVersionEdit) with NewVersionEdit.
  by apply replay_ops.
Qed.

Example version_edit_ops : list edit_op :=
  [OpComparator (bytes_of "leveldb.BytewiseComparator"); OpLogNumber 300; OpNextFile 12; OpLastSequence (2 ^ 56 - 1);
   OpDeleteFile 2 9; OpDeleteFile 1 (2 ^ 64 - 1); OpDeleteFile 2 9; OpCompactPointer 3 (bytes_of "middle");
   OpAddFile 6 11 4096 (bytes_of "first") (bytes_of "last")].

Lemma version_edit_roundtrip_witness :
  ∃ bs, edit_EncodeTo (build_edit version_edit_ops) [] = Some bs ∧ bytes bs ∧
    edit_DecodeFrom NewVersionEdit bs = Some (build_edit version_edit_ops, OK) ∧
    deleted_files_ (build_edit version_edit_ops) = [(1, 2 ^ 64 - 1); (2, 9)].
Proof.
  destruct (version_edit_roundtrip version_edit_ops []) as (bs & He & Hb & Hd).
  { repeat constructor; try (cbn; lia); try done. }
  exists bs. split_and!; [done|done|done|reflexivity].
Defined.

(** *** Any bytes *)

Lemma leb_decode_bytes n p v r : bytes p → leb_decode n p = Some (v, r) → bytes r ∧ (length r < length p)%nat.
Proof.
  intros Hp (q & -> & Hq)%leb_decode_suffix. apply Forall_app in Hp as [_ Hr]. split; [done|].
  rewrite length_app. lia.
Qed.

Lemma GetVarint32_reads p v r :
  bytes p → GetVarint32 p = Some (v, r) → in_width 32 v ∧ bytes r ∧ (length r < length p)%nat.
Proof.
  intros Hp. rewrite GetVarint32_leb by done. destruct (leb_decode 5 p) as [[x q]|] eqn:E; [|done].
  simpl_bind. intros [= <- <-]. split; [by apply wrap_range|by eapply leb_decode_bytes].
Qed.

Lemma GetVarint64_reads p v r :
  bytes p → GetVarint64 p = Some (v, r) → in_width 64 v ∧ bytes r ∧ (length r < length p)%nat.
Proof.
  intros Hp. rewrite GetVarint64_leb by done. destruct (leb_decode 10 p) as [[x q]|] eqn:E; [|done].
  simpl_bind. intros [= <- <-]. split; [by apply wrap_range|by eapply leb_decode_bytes].
Qed.

Lemma GetLevel_reads p v r :
  bytes p → GetLevel p = Some (v, r) → level_ok v ∧ bytes r ∧ (length r < length p)%nat.
Proof.
  intros Hp. unfold GetLevel. destruct (GetVarint32 p) as [[x q]|] eqn:E; [|done]. simpl_bind.
  apply GetVarint32_reads in E as (Hx & ? & ?); [|done]. destruct (Z.ltb_spec x kNumLevels); [|done].
  intros [= <- <-]. split; [|done]. unfold level_ok, in_width in *. lia.
Qed.

Lemma GetSlice_reads p s r :
  bytes p → GetSlice p = Some (s, r) → str_ok s ∧ bytes r ∧ (length r < length p)%nat.
Proof.
  intros Hp. unfold GetSlice. destruct (GetLengthPrefixedSlice p) as [[x|] q] eqn:E; [|done]. simpl_bind.
  intros [= <- <-]. destruct (GetLengthPrefixedSlice_shrinks p x q Hp E) as (Hx & Hq & ?).
  split; [|split; [done|lia]]. split; [done|]. unfold GetLengthPrefixedSlice in E.
  destruct (GetVarint32 p) as [[v q']|] eqn:Ev; [|done]. apply GetVarint32_reads in Ev as (Hv & _); [|done].
  destruct (Z.leb_spec v (Z.of_nat (length q'))); [|done]. injection E as <- _.
  rewrite length_take. unfold in_width in *. lia.
Qed.

Lemma GetInternalKey_reads p k r :
  bytes p → GetInternalKey p = Some (k, r) → str_ok k ∧ bytes r ∧ (length r < length p)%nat.
Proof.
  intros Hp. unfold GetInternalKey. destruct (GetSlice p) as [[x q]|] eqn:E; [|done]. simpl_bind.
  intros [= <- <-]. by eapply GetSlice_reads.
Qed.

(** One reader after the other. *)
Lemma bind_reads {A B} (r : option (A * list Z)) (f : A → list Z → option (B * list Z)) y :
  ('(x, input) ← r; f x input) = Some y → ∃ x q, r = Some (x, q) ∧ f x q = Some y.
Proof. destruct r as [[x q]|]; [|done]. simpl_bind. eauto. Qed.

Ltac read_next H :=
  let x := fresh "x" in let q := fresh "q" in let E := fresh "E" in
  apply bind_reads in H as (x & q & E & H);
  first [ apply GetLevel_reads in E as (? & ? & ?) | apply GetVarint64_reads in E as (? & ? & ?)
        | apply GetInternalKey_reads in E as (? & ? & ?) ]; [|assumption].

Lemma decode_field_sound e tag input e' rest :
  bytes input → decode_field e tag input = inl (e', rest) →
  bytes rest ∧ (length rest < length input)%nat ∧ ∃ o, op_fields str_ok o ∧ e' = apply_op e o.
Proof.
  intros Hi. unfold decode_field.
  assert (Hfield : ∀ {A} (r : option (A * list Z)) (set : A → VersionEdit) (msg : string),
    match r with Some (x, rest) => inl (set x, rest) | None => inr msg end = inl (e', rest) →
    ∃ x, r = Some (x, rest) ∧ e' = set x) by (intros A [[x q]|] set msg; [intros [= <- <-]; eauto|done]).
  repeat match goal with |- (if ?t =? ?k then _ else _) = _ → _ =>
    destruct (t =? k); [intros (x & E & ->)%Hfield|] end.
  9: done.
  1: { apply GetSlice_reads in E as (? & ? & ?); [|done]. split_and!; [done..|by exists (OpComparator x)]. }
  1-4: apply GetVarint64_reads in E as (? & ? & ?); [|done]; split_and!; [done..|].
  - by exists (OpLogNumber x).
  - by exists (OpPrevLogNumber x).
  - by exists (OpNextFile x).
  - by exists (OpLastSequence x).
  - do 2 read_next E. injection E as <- <-. split_and!; [done|lia|]. by exists (OpCompactPointer x0 x1).
  - do 2 read_next E. injection E as <- <-. split_and!; [done|lia|]. by exists (OpDeleteFile x0 x1).
  - do 5 read_next E. injection E as <- <-. split_and!; [done|lia|]. by exists (OpAddFile x0 x1 x2 x3 x4).
Qed.

Lemma decode_loop_sound fuel e input :
  bytes input → (length input ≤ fuel)%nat →
  ∃ ops rest msg, Forall (op_fields str_ok) ops ∧
    decode_loop fuel e input = Some (foldl apply_op e ops, rest, msg) ∧
    (msg = None → GetVarint32 rest = None).
Proof.
  revert e input. induction fuel as [|fuel IH]; intros e input Hb Hf; cbn [decode_loop].
  { destruct input; [|cbn in Hf; lia]. exists [], [], None. by split_and!. }
  destruct (GetVarint32 input) as [[tag rest]|] eqn:E; [|by exists [], input, None].
  apply GetVarint32_reads in E as (_ & Hr & Hl); [|done].
  destruct (decode_field e tag rest) as [[e' rest']|msg] eqn:Ed; [|by exists [], rest, (Some msg)].
  apply decode_field_sound in Ed as (Hb' & Hl' & o & Ho & ->); [|done].
  destruct (IH (apply_op e o) rest' Hb' ltac:(lia)) as (ops & r & m & Hops & -> & Hm).
  exists (o :: ops), r, m. split_and!; [by constructor|done|done].
Qed.

(** A manifest record of any bytes, valid or not, is decoded in as many
    turns as it has bytes or fewer: the result is an edit made by calls
    (with levels below [kNumLevels] and numbers of 64 bits, whatever the
    bytes were) and a status which is OK or a corruption. *)
Theorem version_edit_decode_total (e : VersionEdit) (src : list Z) :
  bytes src →
  ∃ ops s, Forall (op_fields str_ok) ops ∧
    edit_DecodeFrom e src = Some (foldl apply_op (edit_Clear e) ops, s) ∧
    (s = OK ∨ ∃ msg, s = Corruption (status_message "VersionEdit" msg)).
Proof.
  intros Hb. destruct (decode_loop_sound (length src) (edit_Clear e) src Hb ltac:(lia)) as (ops & rest & msg & Ho & E & _).
  unfold edit_DecodeFrom. rewrite E. simpl_bind. eexists ops, _. split; [done|]. split; [reflexivity|].
  destruct msg as [m|]; [by eauto|]. case_bool_decide; eauto.
Qed.

Lemma version_edit_decode_total_witness :
  ∃ ops s, Forall (op_fields str_ok) ops ∧
    edit_DecodeFrom NewVersionEdit [6; 7; 1] = Some (foldl apply_op NewVersionEdit ops, s) ∧
    s = Corruption "VersionEdit: deleted file"%string.
Proof.
  destruct (version_edit_decode_total NewVersionEdit [6; 7; 1]) as (ops & s & Ho & Hd & _).
  { by repeat constructor. }
  exists ops, s. split; [done|]. split; [done|]. by injection Hd as _ <-.
Defined.

(** [Clear] keeps the compaction pointers: decoding into an edit that has
    some adds to them. *)
Lemma decode_keeps_pointers :
  edit_DecodeFrom (SetCompactPointer NewVersionEdit 1 [7]) [] = Some (SetCompactPointer NewVersionEdit 1 [7], OK).
Proof. reflexivity. Qed.
