(* ===== verification/KvStore.v ===== *)
(** Batches of updates applied to a memtable, seen as a map: WriteBatch.v,
    MemTable.v and SkipList.v together, with the bytewise comparator.

    The updates of a memtable are numbered; a lookup at a snapshot answers
    from the map obtained by replaying the updates up to that number. *)

From Stdlib Require Import ZArith Lia.
From stdpp Require Import base option numbers list strings sorting gmap.
From S2P Require Import Prelude Coding Slice WriteBatch DbFormat SkipList SkipListSpec.
From S2P Require Import SkipListRefine MemTable.

#[local] Existing Instance BytewiseComparator.

(** The memtable of the code: entries in a skip list. *)
#[export] Instance memtable_table `{Port} : OrderedTable (list Z) :=
  skiplist_table [] KeyComparator.

#[export] Instance memtable_table_laws `{Port} :
  OrderedTableLaws memtable_table table_wf table_cmp :=
  skiplist_laws [] KeyComparator table_wf table_cmp (HK := memtable_order).

(** ** Updates as a map *)

Definition op_key (o : batch_op) : list Z :=
  match o with BPut key _ => key | BDelete key => key end.

Definition op_value (o : batch_op) : option (list Z) :=
  match o with BPut _ value => Some value | BDelete _ => None end.

(** A key that was deleted maps to [None]. *)
Definition replay (ops : list batch_op) : gmap (list Z) (option (list Z)) :=
  foldl (λ M o, <[op_key o := op_value o]> M) ∅ ops.

Definition answer (v : option (option (list Z))) : get_result :=
  match v with
  | None => GotNothing
  | Some None => GotDeletion (NotFound "")
  | Some (Some value) => GotValue value
  end.

Lemma replay_snoc ops o : replay (ops ++ [o]) = <[op_key o := op_value o]> (replay ops).
Proof. unfold replay. by rewrite foldl_app. Qed.

(** The last update of a key, with its position. *)
Lemma replay_lookup ops k :
  match replay ops !! k with
  | None => ∀ i o, ops !! i = Some o → op_key o ≠ k
  | Some v => ∃ i o, ops !! i = Some o ∧ op_key o = k ∧ op_value o = v ∧
      ∀ j o', ops !! j = Some o' → op_key o' = k → (j ≤ i)%nat
  end.
Proof.
  induction ops as [|o ops IH] using rev_ind.
  { change (replay []) with (∅ : gmap (list Z) (option (list Z))). by rewrite lookup_empty. }
  rewrite replay_snoc.
  destruct (decide (op_key o = k)) as [E|E].
  - rewrite E, lookup_insert_eq. exists (length ops), o.
    split; [by rewrite lookup_app_r, Nat.sub_diag by lia|]. split; [done|]. split; [done|].
    intros j o' Hj%lookup_lt_Some _. rewrite length_app in Hj. cbn in Hj. lia.
  - rewrite lookup_insert_ne by done.
    assert (Hlast : ∀ j o', (ops ++ [o]) !! j = Some o' → op_key o' = k → ops !! j = Some o').
    { intros j o' Hj Hk. apply lookup_app_Some in Hj as [Hj|[Hlt Hj]]; [done|].
      apply list_lookup_singleton_Some in Hj as [_ <-]. done. }
    destruct (replay ops !! k) as [v|].
    + destruct IH as (i & o0 & Hi & Hk & Hv & Hmax). exists i, o0.
      split; [by apply lookup_app_l_Some|]. split; [done|]. split; [done|].
      intros j o' Hj Hk'. eapply Hmax; [by apply Hlast|done].
    + intros i o' Hi Hk. by eapply IH; [apply Hlast|].
Qed.

(** ** Numbered entries *)

Definition entry_of (seq : Z) (o : batch_op) : entry :=
  match o with
  | BPut key value => mkEntry key seq kTypeValue value
  | BDelete key => mkEntry key seq kTypeDeletion []
  end.

Definition entries (base : Z) (ops : list batch_op) : list entry :=
  imap (λ i o, entry_of (base + Z.of_nat i) o) ops.

Definition update_ok (o : batch_op) : Prop :=
  match o with
  | BPut key value => key_ok key ∧ str_ok value
  | BDelete key => key_ok key
  end.

Lemma update_op_ok o : update_ok o → op_ok o.
Proof.
  assert (Hk : ∀ k, key_ok k → str_ok k) by (intros k [? [? ?]]; split; [done|split; lia]).
  destruct o as [k v|k]; cbn; [|apply Hk]. intros [Hkey Hv]. split; [by apply Hk|done].
Qed.

Lemma entry_of_fields seq o :
  e_key (entry_of seq o) = op_key o ∧ e_seq (entry_of seq o) = seq.
Proof. by destruct o. Qed.

Lemma entry_of_ok seq o : update_ok o → seq_ok seq → entry_ok (entry_of seq o).
Proof.
  assert (H0 : str_ok []) by (split; [constructor|by split]).
  destruct o as [k v|k]; cbn.
  - intros [? ?] ?. by split; [|split; [|split; [split|]]].
  - intros ? ?. by split; [|split; [|split; [split|]]].
Qed.

Lemma elem_of_entries base ops e :
  e ∈ entries base ops ↔ ∃ i o, ops !! i = Some o ∧ e = entry_of (base + Z.of_nat i) o.
Proof.
  unfold entries. rewrite list_elem_of_lookup. setoid_rewrite list_lookup_imap_Some. naive_solver.
Qed.

Lemma entries_cons base o ops : entries base (o :: ops) = entry_of base o :: entries (base + 1) ops.
Proof.
  unfold entries. rewrite imap_cons. f_equal; [f_equal; lia|]. apply imap_ext. intros i x _.
  cbn. f_equal. lia.
Qed.

Lemma entries_app base ops ops' :
  entries base (ops ++ ops') = entries base ops ++ entries (base + Z.of_nat (length ops)) ops'.
Proof.
  revert base. induction ops as [|o ops IH]; intros base.
  { cbn [app length]. change (entries base []) with (@nil entry). cbn [app]. f_equal. lia. }
  cbn [app]. rewrite !entries_cons, IH. cbn [app length]. do 3 f_equal. lia.
Qed.

Section store.
Context `{P : Port}.

(** The entries given so far are numbered below [n]. *)
Definition below (n : Z) (es : list entry) : Prop :=
  Forall (λ e, e_seq e < n ∧ type_ok (e_type e)) es.

Lemma below_fresh n es o : below n es → Forall (λ e', ¬ same_ikey (entry_of n o) e') es.
Proof.
  intros Hb. eapply Forall_impl; [exact Hb|]. cbn. intros e [He Hte] [_ Ht].
  unfold type_ok in Hte. unfold e_tag, tag_of in Ht.
  destruct o; cbn in Ht; unfold kTypeValue, kTypeDeletion in *; lia.
Qed.

Lemma below_cons n es o :
  update_ok o → seq_ok n → below n es → below (n + 1) (entry_of n o :: es).
Proof.
  intros Ho Hn Hb. constructor.
  - destruct (entry_of_fields n o) as [_ ->]. split; [lia|]. by apply entry_of_ok.
  - eapply Forall_impl; [exact Hb|]. cbn. intros e [? ?]. split; [lia|done].
Qed.

Lemma inserter_op n m es o :
  mem_rep m es → below n es → update_ok o → seq_ok n →
  ∃ m', apply_op inserter (Some (n, m)) o = Some (n + 1, m') ∧ mem_rep m' (entry_of n o :: es).
Proof.
  intros Hm Hb Ho Hn.
  destruct (Add_rep m es (entry_of n o) Hm (entry_of_ok n o Ho Hn) (below_fresh n es o Hb))
    as (m' & HA & Hm'). exists m'. split; [|done].
  assert (Hw : u64 (n + 1) = n + 1).
  { apply wrap_small. unfold seq_ok, kMaxSequenceNumber in Hn.
    change (Z.shiftl 1 56 - 1) with (2 ^ 56 - 1) in Hn. unfold in_width. lia. }
  destruct o as [k v|k]; cbn [apply_op inserter handler_Put handler_Delete entry_of
    e_seq e_type e_key e_value] in *; simpl_bind; rewrite HA;
    simpl_bind; by rewrite Hw.
Qed.

Lemma inserter_ops ops : ∀ n m es,
  mem_rep m es → below n es → Forall update_ok ops →
  0 ≤ n → n + Z.of_nat (length ops) ≤ kMaxSequenceNumber + 1 →
  ∃ m' es', foldl (apply_op inserter) (Some (n, m)) ops = Some (n + Z.of_nat (length ops), m') ∧
    mem_rep m' es' ∧ es' ≡ₚ es ++ entries n ops ∧ below (n + Z.of_nat (length ops)) es'.
Proof.
  induction ops as [|o ops IH]; intros n m es Hm Hb Hok Hn Hmax.
  { exists m, es. cbn [foldl length]. rewrite Z.add_0_r. change (entries n []) with (@nil entry).
    by rewrite app_nil_r. }
  apply Forall_cons in Hok as [Ho Hok]. cbn [length] in Hmax.
  assert (Hs : seq_ok n) by (split; lia).
  destruct (inserter_op n m es o Hm Hb Ho Hs) as (m1 & E & Hm1). cbn [foldl]. rewrite E.
  destruct (IH (n + 1) m1 _ Hm1 (below_cons n es o Ho Hs Hb) Hok) as (m' & es' & E' & Hm' & Hp & Hb');
    [lia|lia|].
  exists m', es'. rewrite E'. cbn [length].
  replace (n + 1 + Z.of_nat (length ops)) with (n + Z.of_nat (S (length ops))) in * by lia.
  split; [done|]. split; [done|]. split; [|done].
  rewrite Hp, entries_cons. cbn [app]. by rewrite Permutation_middle.
Qed.

Lemma InsertInto_rep n ops m es :
  mem_rep m es → below n es → Forall update_ok ops → count_ok ops →
  0 ≤ n → n + Z.of_nat (length ops) ≤ kMaxSequenceNumber + 1 →
  ∃ m' es', InsertInto (rep_of n ops) m = Some (m', OK) ∧
    mem_rep m' es' ∧ es' ≡ₚ es ++ entries n ops ∧ below (n + Z.of_nat (length ops)) es'.
Proof.
  intros Hm Hb Hok Hc Hn Hmax.
  assert (Hops : Forall op_ok ops) by (eapply Forall_impl; [exact Hok|apply update_op_ok]).
  destruct (inserter_ops ops n m es Hm Hb Hok Hn Hmax) as (m' & es' & E & H).
  exists m', es'. split; [|done]. unfold InsertInto. rewrite Sequence_rep_of.
  - simpl_bind. rewrite Iterate_rep_of by done. simpl_bind.
    rewrite E. done.
  - unfold kMaxSequenceNumber in Hmax. change (Z.shiftl 1 56 - 1) with (2 ^ 56 - 1) in Hmax.
    unfold in_width. lia.
  - done.
Qed.

(** ** A memtable written batch by batch

    Each batch is filled through [Put] and [Delete], stamped with the next
    sequence number and inserted, as [DBImpl::Write] does. *)

Fixpoint write_batches (seq : Z) (batches : list (list batch_op)) (m : MemTable) : option MemTable :=
  match batches with
  | [] => Some m
  | ops :: batches =>
      b ← write_ops NewWriteBatch ops;
      b ← SetSequence b seq;
      '(m, _) ← InsertInto b m;
      write_batches (seq + Z.of_nat (length ops)) batches m
  end.

Definition batches_ok (seq : Z) (batches : list (list batch_op)) : Prop :=
  Forall (λ ops, Forall update_ok ops ∧ count_ok ops) batches ∧ 0 ≤ seq ∧
  seq + Z.of_nat (length (concat batches)) ≤ kMaxSequenceNumber + 1.

Lemma write_batches_run batches : ∀ seq m es,
  mem_rep m es → below seq es → batches_ok seq batches →
  ∃ m' es', write_batches seq batches m = Some m' ∧ mem_rep m' es' ∧
    es' ≡ₚ es ++ entries seq (concat batches).
Proof.
  induction batches as [|ops batches IH]; intros seq m es Hm Hb (Hok & Hseq & Hmax).
  { exists m, es. cbn [write_batches concat]. change (entries seq []) with (@nil entry).
    by rewrite app_nil_r. }
  apply Forall_cons in Hok as [[Hops Hc] Hok]. cbn [concat] in Hmax. rewrite length_app in Hmax.
  cbn [write_batches]. rewrite NewWriteBatch_rep_of, (write_ops_rep_of 0 []);
    [|eapply Forall_impl; [exact Hops|apply update_op_ok]|done].
  cbn [app mbind option_bind]. rewrite SetSequence_rep_of. simpl_bind.
  destruct (InsertInto_rep seq ops m es Hm Hb Hops Hc Hseq ltac:(lia))
    as (m1 & es1 & -> & Hm1 & Hp1 & Hb1). simpl_bind.
  destruct (IH _ m1 es1 Hm1 Hb1) as (m' & es' & -> & Hm' & Hp').
  { split; [done|]. split; lia. }
  exists m', es'. split; [done|]. split; [done|]. cbn [concat].
  by rewrite Hp', Hp1, entries_app, <-app_assoc.
Qed.

(** ** Lookups answer from the replayed map *)

Lemma bytewise_eq (a b : list Z) : Compare a b = 0 ↔ a = b.
Proof. cbn. rewrite slice_compare_lex. apply lex_eq. Qed.

Lemma get_ok_answer seq ops k s r es :
  es ≡ₚ entries seq ops → get_ok es k s r →
  r = answer (replay (take (Z.to_nat (s + 1 - seq)) ops) !! k).
Proof.
  intros Hp Hr. set (n := Z.to_nat (s + 1 - seq)).
  assert (Hvis : ∀ i o, ops !! i = Some o →
    (visible k s (entry_of (seq + Z.of_nat i) o) ↔ op_key o = k ∧ take n ops !! i = Some o)).
  { intros i o Hi. unfold visible. destruct (entry_of_fields (seq + Z.of_nat i) o) as [-> ->].
    rewrite bytewise_eq. destruct (decide (i < n)%nat) as [Hlt|Hge].
    - rewrite lookup_take_lt by done. unfold n in Hlt. split; intros [? ?]; (split; [done|]); [done|lia].
    - rewrite lookup_take_ge by lia. unfold n in Hge. split; [|naive_solver]. intros [? ?]. lia. }
  assert (Hin : ∀ i o, ops !! i = Some o → entry_of (seq + Z.of_nat i) o ∈ es).
  { intros i o Hi. rewrite Hp. apply elem_of_entries. by exists i, o. }
  assert (Hnew : ∀ e, newest es k s e → ∃ v, replay (take n ops) !! k = Some v ∧
    ∃ o, e = entry_of (e_seq e) o ∧ op_value o = v).
  { intros e (He & Hv & Hmax). rewrite Hp in He. apply elem_of_entries in He as (i & o & Hi & ->).
    apply Hvis in Hv as [Hk Ht]; [|done]. pose proof (replay_lookup (take n ops) k) as Hrep.
    destruct (replay (take n ops) !! k) as [v|]; [|by eapply Hrep in Ht].
    destruct Hrep as (j & o' & Hj & Hk' & Hval & Hlast). exists v. split; [done|].
    pose proof (Hlast i o Ht Hk) as Hle.
    assert (Hj0 : ops !! j = Some o') by (apply lookup_take_Some in Hj; tauto).
    assert (Htag : e_tag (entry_of (seq + Z.of_nat j) o') ≤ e_tag (entry_of (seq + Z.of_nat i) o)).
    { apply Hmax; [by apply Hin|]. by apply Hvis. }
    assert (i = j).
    { unfold e_tag, tag_of in Htag. destruct (entry_of_fields (seq + Z.of_nat j) o') as [_ E1].
      destruct (entry_of_fields (seq + Z.of_nat i) o) as [_ E2]. rewrite E1, E2 in Htag.
      destruct o, o'; cbn in Htag; unfold kTypeValue, kTypeDeletion in Htag; lia. }
    subst j. exists o. rewrite Hi in Hj0. injection Hj0 as <-.
    by destruct (entry_of_fields (seq + Z.of_nat i) o) as [_ ->]. }
  destruct r as [|v|st]; cbn in Hr.
  - pose proof (replay_lookup (take n ops) k) as Hrep.
    destruct (replay (take n ops) !! k) as [v|]; [|done]. exfalso.
    destruct Hrep as (j & o & Hj & Hk & _ & _).
    assert (Hj0 : ops !! j = Some o) by (apply lookup_take_Some in Hj; tauto).
    eapply Hr; [by apply Hin|]. by apply Hvis.
  - destruct Hr as (e & He & Ht & Hv). destruct (Hnew e He) as (v' & -> & o & Ee & <-).
    rewrite Ee in Ht, Hv. destruct o; cbn in *; [by subst|done].
  - destruct Hr as (-> & e & He & Ht). destruct (Hnew e He) as (v' & -> & o & Ee & <-).
    rewrite Ee in Ht. by destruct o.
Qed.

(** The same for entries whose numbers have gaps: the updates [no] with their
    numbers, which grow. *)
Lemma get_ok_replay (no : list (Z * batch_op)) k s r es :
  es ≡ₚ (λ p, entry_of p.1 p.2) <$> no → StronglySorted (λ a b, a.1 < b.1) no → get_ok es k s r →
  r = answer (replay ((filter (λ p, p.1 ≤ s) no).*2) !! k).
Proof.
  intros Hp Hsort Hr. set (vis := filter _ no).
  assert (Hvs : StronglySorted (λ a b : Z * batch_op, a.1 < b.1) vis)
    by (eapply StronglySorted_sublist; [apply sublist_filter|done]).
  rewrite StronglySorted_lookup in Hvs.
  assert (Hin : ∀ p, p ∈ no → entry_of p.1 p.2 ∈ es).
  { intros p Hpn. rewrite Hp. apply list_elem_of_fmap. by exists p. }
  assert (Hvis : ∀ p, p ∈ no → (visible k s (entry_of p.1 p.2) ↔ op_key p.2 = k ∧ p ∈ vis)).
  { intros p Hpn. unfold visible. destruct (entry_of_fields p.1 p.2) as [-> ->]. rewrite bytewise_eq.
    unfold vis. rewrite list_elem_of_filter. tauto. }
  assert (Hnew : ∀ e, newest es k s e → ∃ v, replay vis.*2 !! k = Some v ∧
    ∃ o, e = entry_of (e_seq e) o ∧ op_value o = v).
  { intros e (He & Hv & Hmax). rewrite Hp in He. apply list_elem_of_fmap in He as (p & -> & Hpn).
    apply Hvis in Hv as [Hk Hpv]; [|done]. pose proof (replay_lookup vis.*2 k) as Hrep.
    apply list_elem_of_lookup in Hpv as [i Hi].
    assert (Hi2 : vis.*2 !! i = Some p.2) by (by rewrite list_lookup_fmap, Hi).
    destruct (replay vis.*2 !! k) as [v|]; [|by eapply Hrep in Hi2].
    destruct Hrep as (j & o' & Hj & Hk' & Hval & Hlast). exists v. split; [done|].
    pose proof (Hlast i p.2 Hi2 Hk) as Hle. rewrite list_lookup_fmap in Hj.
    destruct (vis !! j) as [q|] eqn:Hq; [|done]. injection Hj as <-.
    assert (Hqn : q ∈ no).
    { apply list_elem_of_lookup_2 in Hq. unfold vis in Hq. by apply list_elem_of_filter in Hq as [_ ?]. }
    assert (Htag : e_tag (entry_of q.1 q.2) ≤ e_tag (entry_of p.1 p.2)).
    { apply Hmax; [by apply Hin|]. apply Hvis; [done|]. split; [done|]. by eapply list_elem_of_lookup_2. }
    assert (i = j).
    { destruct (decide (i = j)) as [|Hne]; [done|]. pose proof (Hvs i j p q ltac:(lia) Hi Hq) as Hlt. cbn in Hlt.
      unfold e_tag, tag_of in Htag. destruct (entry_of_fields q.1 q.2) as [_ E1].
      destruct (entry_of_fields p.1 p.2) as [_ E2]. rewrite E1, E2 in Htag.
      destruct (p.2), (q.2); cbn in Htag; unfold kTypeValue, kTypeDeletion in Htag; lia. }
    subst j. rewrite Hi in Hq. injection Hq as <-. exists p.2. split; [|done].
    by destruct (entry_of_fields p.1 p.2) as [_ ->]. }
  destruct r as [|v|st]; cbn in Hr.
  - pose proof (replay_lookup vis.*2 k) as Hrep. destruct (replay vis.*2 !! k) as [v|]; [|done]. exfalso.
    destruct Hrep as (j & o & Hj & Hk & _ & _). rewrite list_lookup_fmap in Hj.
    destruct (vis !! j) as [q|] eqn:Hq; [|done]. injection Hj as <-. apply list_elem_of_lookup_2 in Hq.
    assert (Hqn : q ∈ no) by (unfold vis in Hq; by apply list_elem_of_filter in Hq as [_ ?]).
    eapply Hr; [by apply Hin|]. by apply Hvis.
  - destruct Hr as (e & He & Ht & Hv). destruct (Hnew e He) as (v' & -> & o & Ee & <-).
    rewrite Ee in Ht, Hv. destruct o; cbn in *; [by subst|done].
  - destruct Hr as (-> & e & He & Ht). destruct (Hnew e He) as (v' & -> & o & Ee & <-).
    rewrite Ee in Ht. by destruct o.
Qed.
End store.

(** The key-value store the game keeps its tiles in.

    [KvStore] is what core/Level.cpp uses of leveldb ([DB::Put] and
    [DB::Get] of leveldb/include/leveldb/db.h) and [KvLaws] what it relies
    on.  [memtable_store] is leveldb with everything still in the memtable:
    a [Put] is a batch of one update, stamped with the next sequence number
    and applied to the memtable (leveldb/db/db_impl.cc, [DB::Put] and
    [DBImpl::Write]), a [Get] looks the key up at the last sequence number
    ([DBImpl::Get]). *)

(** [None] is a failure of the store itself; a [Get] gives the status and,
    when it is [OK], the value. *)
Class KvStore := {
  db : Type;
  db_Put : db → list Z → list Z → option (db * Status);
  db_Get : db → list Z → option (Status * list Z)
}.

(** [db_rep d M]: the store [d] holds the map [M]; [db_room d]: it can take
    another update. *)
Class KvLaws (S : KvStore) := {
  db_rep : db → gmap (list Z) (list Z) → Prop;
  db_room : db → Prop;
  rep_Put d M key value :
    db_rep d M → db_room d → key_ok key → str_ok value →
    ∃ d', db_Put d key value = Some (d', OK) ∧ db_rep d' (<[key := value]> M);
  rep_Get d M key :
    db_rep d M → key_ok key →
    match M !! key with
    | Some value => db_Get d key = Some (OK, value)
    | None => ∃ s, db_Get d key = Some (s, []) ∧ s ≠ OK
    end
}.

(** ** leveldb before its first flush *)

Record mem_db `{Port} := mkMemDb {
  mem : MemTable (T := memtable_table);
  last_sequence : Z
}.

#[local] Existing Instance BytewiseComparator.

Section memdb.
Context `{P : Port}.

Definition mem_Put (d : mem_db) (key value : list Z) : option (mem_db * Status) :=
  b ← Put NewWriteBatch key value;
  b ← SetSequence b (last_sequence d + 1);
  '(m, status) ← InsertInto b (mem d);
  n ← Count b;
  Some (mkMemDb _ m (last_sequence d + n), status).

Definition mem_Get (d : mem_db) (key : list Z) : option (Status * list Z) :=
  lkey ← NewLookupKey key (last_sequence d);
  r ← Get (mem d) lkey;
  Some (match r with
        | GotValue v => (OK, v)
        | GotDeletion s => (s, [])
        | GotNothing => (NotFound "", [])
        end).

#[export] Instance memtable_store : KvStore := {|
  db := mem_db;
  db_Put := mem_Put;
  db_Get := mem_Get
|}.

Definition NewMemDb : mem_db := mkMemDb _ NewMemTable 0.

(** The live keys of the replayed updates. *)
Definition live (ops : list batch_op) : gmap (list Z) (list Z) := omap id (replay ops).

Definition mem_db_rep (d : mem_db) (M : gmap (list Z) (list Z)) : Prop :=
  ∃ ops es, mem_rep (mem d) es ∧ es ≡ₚ entries 1 ops ∧ below (last_sequence d + 1) es ∧
    last_sequence d = Z.of_nat (length ops) ∧ last_sequence d ≤ kMaxSequenceNumber ∧ M = live ops.

Lemma NewMemDb_rep : mem_db_rep NewMemDb ∅.
Proof.
  exists [], []. split; [apply NewMemTable_rep|]. split; [done|]. split; [constructor|].
  split; [done|]. split; [done|]. unfold live. symmetry. apply omap_empty.
Qed.

Lemma live_put ops key value : live (ops ++ [BPut key value]) = <[key := value]> (live ops).
Proof. unfold live. rewrite replay_snoc. cbn [op_key op_value]. by apply omap_insert_Some. Qed.

Lemma mem_Put_rep d M key value :
  mem_db_rep d M → last_sequence d < kMaxSequenceNumber → key_ok key → str_ok value →
  ∃ d', mem_Put d key value = Some (d', OK) ∧ mem_db_rep d' (<[key := value]> M).
Proof.
  intros (ops & es & Hm & Hp & Hb & Hl & Hmax & ->) Hroom Hk Hv. unfold mem_Put.
  assert (Hu : Forall update_ok [BPut key value]) by (apply Forall_singleton; by split).
  assert (Hop : Forall op_ok [BPut key value]) by (eapply Forall_impl; [exact Hu|apply update_op_ok]).
  pose proof (write_op_rep_of 0 [] (BPut key value) ltac:(constructor) ltac:(done)) as Hw.
  cbn [write_op] in Hw. rewrite NewWriteBatch_rep_of, Hw. cbn [app mbind option_bind].
  rewrite SetSequence_rep_of. simpl_bind.
  destruct (InsertInto_rep (last_sequence d + 1) [BPut key value] (mem d) es Hm Hb Hu ltac:(done)
    ltac:(lia) ltac:(cbn [length]; lia)) as (m' & es' & -> & Hm' & Hp' & Hb').
  simpl_bind. rewrite Count_rep_of by done. cbn [mbind option_bind length].
  eexists. split; [done|]. cbn [length] in Hb'. exists (ops ++ [BPut key value]), es'.
  cbn [mem last_sequence]. split; [done|]. split.
  - rewrite Hp', Hp, entries_app. by rewrite Hl, Z.add_comm.
  - split; [by replace (last_sequence d + Z.of_nat 1 + 1)
      with (last_sequence d + 1 + Z.of_nat 1) by lia|].
    split; [rewrite length_app; cbn; lia|]. split; [cbn; lia|]. by rewrite live_put.
Qed.

Lemma mem_Get_rep d M key :
  mem_db_rep d M → key_ok key →
  match M !! key with
  | Some value => mem_Get d key = Some (OK, value)
  | None => ∃ s, mem_Get d key = Some (s, []) ∧ s ≠ OK
  end.
Proof.
  intros (ops & es & Hm & Hp & Hb & Hl & Hmax & ->) Hk. unfold mem_Get.
  destruct (Get_rep (mem d) es key (last_sequence d) Hm Hk ltac:(split; lia))
    as (lk & r & -> & Hg & Hok).
  simpl_bind. rewrite Hg. simpl_bind.
  apply (get_ok_answer 1 ops key (last_sequence d) r es Hp) in Hok.
  replace (Z.to_nat (last_sequence d + 1 - 1)) with (length ops) in Hok by lia.
  rewrite firstn_all in Hok. unfold live. rewrite lookup_omap, Hok.
  destruct (replay ops !! key) as [[v|]|]; cbn; [done|by eexists|by eexists].
Qed.

#[export] Instance memtable_store_laws : KvLaws memtable_store := {|
  db_rep := mem_db_rep;
  db_room d := last_sequence d < kMaxSequenceNumber;
  rep_Put := mem_Put_rep;
  rep_Get := mem_Get_rep
|}.
End memdb.
