(* ===== verification/DbWrite.v ===== *)
(** Writing to the database: the writers' queue, group commit, throttling, the
    switch to a new memtable and log, the memtable's way to a table, and
    recovery of the logs, in leveldb/db/db_impl.cc ([DBImpl::Write],
    [BuildBatchGroup], [MakeRoomForWrite], [CompactMemTable], [Recover],
    [RecoverLogFile]).

    The log is Log.v over any file of Env.v, whose calls may fail, and the
    memtable that of MemTable.v.  What [ApproximateMemoryUsage] and the version
    set contribute to a decision is read from an observation that the
    definitions take as an argument; what [NewWritableFile] and the background
    thread give, from arguments of the steps. *)

From Stdlib Require Import ZArith Lia String.
From stdpp Require Import base option numbers list strings sorting gmap.
From S2P Require Import Prelude Coding Slice WriteBatch DbFormat SkipList SkipListSpec.
From S2P Require Import SkipListRefine MemTable KvStore Crc32c Env Log LogSpec LogTheorems.

Local Open Scope Z_scope.

#[local] Existing Instance BytewiseComparator.

(** ** Throttling *)

Definition kL0_SlowdownWritesTrigger : Z := 16.
Definition kL0_StopWritesTrigger : Z := 64.

(** What an iteration of [MakeRoomForWrite] sees. *)
Record room := Room {
  room_bg_error : Status;
  num_level0_files : Z;
  memory_usage : Z;
  write_buffer_size : Z;
  suspending_compaction : bool;
  imm_present : bool }.

(** What it does: leave with a status, sleep once, wait for the background
    thread, or go on to a new memtable and log. *)
Inductive room_action := RoomBreak (s : Status) | RoomDelay | RoomWait | RoomSwitch.

Definition room_decide (o : room) (allow_delay force : bool) : room_action :=
  if negb (ok (room_bg_error o)) then RoomBreak (room_bg_error o)
  else if allow_delay && (kL0_SlowdownWritesTrigger <=? num_level0_files o) then RoomDelay
  else if negb force && (memory_usage o <=? write_buffer_size o) then RoomBreak OK
  else if suspending_compaction o then RoomBreak OK
  else if imm_present o then RoomWait
  else if kL0_StopWritesTrigger <=? num_level0_files o then RoomWait
  else RoomSwitch.

(** ** The queue *)

(** [DBImpl::Writer]; [w_id] is its address. *)
Record QWriter := MkQWriter { w_id : nat; w_batch : option (list Z); w_sync : bool }.

Section write.
Context `{WritableFile W} `{Crc32c} `{Port}.

Definition ByteSize (batch : list Z) : Z := Z.of_nat (length batch).

(** The [for] loop of [BuildBatchGroup] over the writers after the first:
    [result] is [tmp_batch_] once [tmp] holds; [n] writers are in the group. *)
Fixpoint group_loop (first : QWriter) (first_batch : list Z) (max_size : Z) (ws : list QWriter)
    (size : Z) (result : list Z) (tmp : bool) (n : nat) (tmp_batch_ : list Z)
  : option (list Z * bool * nat) :=
  match ws with
  | [] => Some (result, tmp, n)
  | w :: ws =>
      if w_sync w && negb (w_sync first) then Some (result, tmp, n)
      else
        match w_batch w with
        | None => group_loop first first_batch max_size ws size result tmp (S n) tmp_batch_
        | Some b =>
            let size := size + ByteSize b in
            if max_size <? size then Some (result, tmp, n)
            else
              result ← (if tmp then Some result
                        else
                          c ← Count tmp_batch_;
                          if c =? 0 then Append tmp_batch_ first_batch else None);
              result ← Append result b;
              group_loop first first_batch max_size ws size result true (S n) tmp_batch_
        end
  end.

(** The batch to write, whether it is [tmp_batch_], and how many writers it
    is for: [last_writer] is the last of them. *)
Definition BuildBatchGroup (writers_ : list QWriter) (tmp_batch_ : list Z)
  : option (list Z * bool * nat) :=
  match writers_ with
  | [] => None
  | first :: ws =>
      first_batch ← w_batch first;
      let size := ByteSize first_batch in
      let max_size := if size <=? Z.shiftl 128 10 then size + Z.shiftl 128 10 else Z.shiftl 1 20 in
      group_loop first first_batch max_size ws size first_batch false 1 tmp_batch_
  end.

(** ** The database *)

(** [imm_] is the full memtable that is being written to a table, [prev_log_]
    the number and the file of its log.  [flushed_] are the memtables that have
    been written to tables, the oldest first; [saved_sequence_] is the last
    sequence number in the descriptor, [edit_sequence_] that of the edit that is
    being written to it. *)
Record Db := MkDb {
  writers_ : list QWriter;
  logfile_number_ : Z;
  log_ : Log.Writer W;
  mem_ : MemTable (T := memtable_table);
  imm_ : option (MemTable (T := memtable_table));
  prev_log_ : option (Z * W);
  last_sequence_ : Z;
  bg_error_ : Status;
  tmp_batch_ : list Z;
  flushed_ : list (MemTable (T := memtable_table));
  saved_sequence_ : Z;
  edit_sequence_ : option Z }.

Definition set_writers (d : Db) (ws : list QWriter) : Db :=
  MkDb ws (logfile_number_ d) (log_ d) (mem_ d) (imm_ d) (prev_log_ d) (last_sequence_ d) (bg_error_ d)
    (tmp_batch_ d) (flushed_ d) (saved_sequence_ d) (edit_sequence_ d).

Definition set_error (d : Db) (s : Status) : Db :=
  MkDb (writers_ d) (logfile_number_ d) (log_ d) (mem_ d) (imm_ d) (prev_log_ d) (last_sequence_ d) s
    (tmp_batch_ d) (flushed_ d) (saved_sequence_ d) (edit_sequence_ d).

(** Where the writer at the front of the queue is: in [MakeRoomForWrite], with
    its local variables; it has built its group; or it has written it; [last]
    is the local variable [last_sequence]. *)
Inductive phase :=
  | Idle
  | MakingRoom (allow_delay force : bool)
  | Grouped (updates : list Z) (tmp : bool) (n : nat) (last : Z)
  | Written (status : Status) (sync_error : bool) (tmp : bool) (n : nat) (last : Z).

Definition RecordBackgroundError (d : Db) (s : Status) : Db :=
  if ok (bg_error_ d) then set_error d s else d.

(** With the lock: from the front of the queue to the group, [status] being
    what [MakeRoomForWrite] returned. *)
Definition write_begin (d : Db) (status : Status) : option phase :=
  match writers_ d with
  | [] => None
  | w :: _ =>
      match w_batch w with
      | Some _ =>
          if ok status then
            '(updates, tmp, n) ← BuildBatchGroup (writers_ d) (tmp_batch_ d);
            updates ← SetSequence updates (last_sequence_ d + 1);
            c ← Count updates;
            Some (Grouped updates tmp n (u64 (last_sequence_ d + c)))
          else Some (Written status false false 1 (last_sequence_ d))
      | None => Some (Written status false false 1 (last_sequence_ d))
      end
  end.

(** The new log: [file] is what [NewWritableFile] gave, [type_crc] the memory
    of its writer's array.  The full memtable waits for the background thread,
    with its log. *)
Definition switch_memtable (d : Db) (number : Z) (file : W) (type_crc : list Z) : option Db :=
  lw ← new_Writer type_crc file;
  Some (MkDb (writers_ d) number lw NewMemTable (Some (mem_ d)) (Some (logfile_number_ d, dest_ (log_ d)))
          (last_sequence_ d) (bg_error_ d) (tmp_batch_ d) (flushed_ d) (saved_sequence_ d) (edit_sequence_ d)).

(** An iteration of [MakeRoomForWrite], and when it leaves the loop what
    [Write] does next, still with the lock.  [new_log] is what
    [NewWritableFile] gives if it is called: a status that is not OK, or the
    number of the log and the file. *)
Definition room_turn (d : Db) (o : room) (new_log : Status + Z * W * list Z) (allow_delay force : bool)
  : option (Db * phase) :=
  match room_decide o allow_delay force with
  | RoomBreak s => ph ← write_begin d s; Some (d, ph)
  | RoomDelay => Some (d, MakingRoom false force)
  | RoomWait => Some (d, MakingRoom allow_delay force)
  | RoomSwitch =>
      match new_log with
      | inl s => ph ← write_begin d s; Some (d, ph)
      | inr (number, file, type_crc) =>
          d ← switch_memtable d number file type_crc; Some (d, MakingRoom allow_delay false)
      end
  end.

(** What the loop sees of the database itself. *)
Definition room_sees (d : Db) (o : room) : Prop :=
  room_bg_error o = bg_error_ d ∧ imm_present o = bool_decide (is_Some (imm_ d)).

(** Without the lock: log, sync, memtable. *)
Definition write_log (d : Db) (sync : bool) (updates : list Z) : option (Db * Status * bool) :=
  '(lw, status) ← AddRecord (log_ d) updates;
  '(lw, status, sync_error) ←
    (if ok status && sync then
       '(f, status) ← file_Sync (dest_ lw);
       Some (MkWriter f (block_offset_ lw) (type_crc_ lw), status, negb (ok status))
     else Some (lw, status, false));
  '(m, status) ← (if ok status then InsertInto updates (mem_ d) else Some (mem_ d, status));
  Some (MkDb (writers_ d) (logfile_number_ d) lw m (imm_ d) (prev_log_ d) (last_sequence_ d) (bg_error_ d)
          (tmp_batch_ d) (flushed_ d) (saved_sequence_ d) (edit_sequence_ d), status, sync_error).

(** With the lock again: the group leaves the queue. *)
Definition write_finish (d : Db) (status : Status) (sync_error tmp : bool) (n : nat) (last : Z) : Db :=
  let d := if sync_error then RecordBackgroundError d status else d in
  MkDb (drop n (writers_ d)) (logfile_number_ d) (log_ d) (mem_ d) (imm_ d) (prev_log_ d) last (bg_error_ d)
    (if tmp then Clear else tmp_batch_ d) (flushed_ d) (saved_sequence_ d) (edit_sequence_ d).

(** The background thread.  The table of the full memtable is written, and
    [LogAndApply] starts with the last sequence number in the edit; [status] is
    then what [WriteLevel0Table] or [LogAndApply] give.  With the edit in the
    descriptor the earlier logs are no longer needed. *)
Definition apply_edit (d : Db) : option Db :=
  _ ← imm_ d;
  Some (MkDb (writers_ d) (logfile_number_ d) (log_ d) (mem_ d) (imm_ d) (prev_log_ d) (last_sequence_ d) (bg_error_ d)
          (tmp_batch_ d) (flushed_ d) (saved_sequence_ d) (Some (last_sequence_ d))).

Definition CompactMemTable (d : Db) (status : Status) : option Db :=
  m ← imm_ d;
  if ok status then
    sq ← edit_sequence_ d;
    Some (MkDb (writers_ d) (logfile_number_ d) (log_ d) (mem_ d) None None (last_sequence_ d) (bg_error_ d)
            (tmp_batch_ d) (flushed_ d ++ [m]) sq None)
  else Some (RecordBackgroundError d status).

(** The threads of the clients and the background thread.  [arrived] are the
    writers that have joined the queue, in the order in which they did;
    [answers] those that have left it, with the status their call returns.
    While the front writer is without the lock or waits, others join and the
    background thread works. *)
Record Sys := MkSys { sys_db : Db; sys_phase : phase; arrived : list QWriter; answers : list (QWriter * Status) }.

Inductive db_step `{!WritableFileLaws W} : Sys → Sys → Prop :=
  | step_join d ph ws ans w :
      db_step (MkSys d ph ws ans) (MkSys (set_writers d (writers_ d ++ [w])) ph (ws ++ [w]) ans)
  | step_enter d ws ans w q force :
      writers_ d = w :: q → force = bool_decide (w_batch w = None) →
      db_step (MkSys d Idle ws ans) (MkSys d (MakingRoom (negb force) force) ws ans)
  | step_room d ws ans o new_log allow_delay force d' ph :
      room_sees d o →
      match new_log with
      | inl s => s ≠ OK
      | inr (number, file, type_crc) =>
          logfile_number_ d < number ∧ writable file ∧ contents file = [] ∧ length type_crc = 5%nat
      end →
      room_turn d o new_log allow_delay force = Some (d', ph) →
      db_step (MkSys d (MakingRoom allow_delay force) ws ans) (MkSys d' ph ws ans)
  | step_log d ws ans w q updates tmp n last d' status sync_error :
      writers_ d = w :: q →
      write_log d (w_sync w) updates = Some (d', status, sync_error) →
      db_step (MkSys d (Grouped updates tmp n last) ws ans)
              (MkSys d' (Written status sync_error tmp n last) ws ans)
  | step_finish d ws ans status sync_error tmp n last :
      db_step (MkSys d (Written status sync_error tmp n last) ws ans)
        (MkSys (write_finish d status sync_error tmp n last) Idle ws
           (ans ++ ((λ w, (w, status)) <$> take n (writers_ d))))
  | step_apply d ph ws ans d' :
      apply_edit d = Some d' → db_step (MkSys d ph ws ans) (MkSys d' ph ws ans)
  | step_flush d ph ws ans status d' :
      CompactMemTable d status = Some d' → db_step (MkSys d ph ws ans) (MkSys d' ph ws ans)
  | step_error d ph ws ans s :
      s ≠ OK → db_step (MkSys d ph ws ans) (MkSys (RecordBackgroundError d s) ph ws ans).

End write.
Arguments Db W {_}.
Arguments Sys W {_}.

(** ** Recovery of a log *)

Section recover.
Context `{SequentialFile R} `{Crc32c} `{Port}.
(** [options_.paranoid_checks], [options_.write_buffer_size],
    [options_.reuse_logs]; what [ApproximateMemoryUsage] and
    [WriteLevel0Table] return. *)
Context (paranoid_checks : bool) (buffer_size : Z) (reuse_logs : bool).
Context (usage : MemTable (T := memtable_table) → Z).
Context (WriteLevel0Table : MemTable (T := memtable_table) → Status).

Definition MaybeIgnoreError (s : Status) : Status := if ok s || paranoid_checks then s else OK.

(** [LogReporter::Corruption]: with paranoid checks the first error is kept. *)
Definition reporter_Corruption (status s : Status) : Status :=
  if paranoid_checks && ok status then s else status.

(** The local variables; [flushed] are the memtables given to
    [WriteLevel0Table]. *)
Record recovery := Recovery {
  rec_status : Status;
  rec_mem : option (MemTable (T := memtable_table));
  max_sequence : Z;
  compactions : Z;
  save_manifest : bool;
  flushed : list (MemTable (T := memtable_table)) }.

(** The body of the loop for one record: [true] to go on. *)
Definition recover_record (v : recovery) (record : list Z) : option (recovery * bool) :=
  if Z.of_nat (length record) <? 12 then
    Some (Recovery (reporter_Corruption (rec_status v) (Corruption "log record too small"))
            (rec_mem v) (max_sequence v) (compactions v) (save_manifest v) (flushed v), true)
  else
    batch ← SetContents record;
    '(mem, status) ← InsertInto batch (default NewMemTable (rec_mem v));
    let status := MaybeIgnoreError status in
    if negb (ok status) then
      Some (Recovery status (Some mem) (max_sequence v) (compactions v) (save_manifest v) (flushed v), false)
    else
      sq ← Sequence batch; c ← Count batch;
      let last_seq := u64 (sq + c - 1) in
      let max := if max_sequence v <? last_seq then last_seq else max_sequence v in
      if buffer_size <? usage mem then
        let status := WriteLevel0Table mem in
        Some (Recovery status None max (compactions v + 1) true (flushed v ++ [mem]), ok status)
      else Some (Recovery status (Some mem) max (compactions v) (save_manifest v) (flushed v), true).

(** [while (reader.ReadRecord(...) && status.ok())]; the reports of the reader
    go through [LogReporter]. *)
Fixpoint recover_loop (n fuel : nat) (r : Reader R) (v : recovery) : option (Reader R * recovery) :=
  match n with
  | O => None
  | S n =>
      '(r', o) ← ReadRecord fuel r;
      let new := drop (length (reports r)) (reports r') in
      let v := Recovery (foldl reporter_Corruption (rec_status v) (new.*2))
                 (rec_mem v) (max_sequence v) (compactions v) (save_manifest v) (flushed v) in
      match o with
      | None => Some (r', v)
      | Some record =>
          if negb (ok (rec_status v)) then Some (r', v)
          else
            '(v, more) ← recover_record v record;
            if (more : bool) then recover_loop n fuel r' v else Some (r', v)
      end
  end.

(** [file] is the result of [NewSequentialFile]; [reusable] is whether the
    size and the appendable file could be had.  The result is the status, the
    variables and the memtable the database goes on with. *)
Definition RecoverLogFile (n fuel : nat) (file : Status + R) (last_log reusable : bool) (max_seq : Z)
  : option (Status * recovery * option (MemTable (T := memtable_table))) :=
  match file with
  | inl status => Some (MaybeIgnoreError status, Recovery OK None max_seq 0 false [], None)
  | inr file =>
      '(_, v) ← recover_loop n fuel (new_Reader file true true 0) (Recovery OK None max_seq 0 false []);
      if ok (rec_status v) && reuse_logs && last_log && (compactions v =? 0) && reusable then
        Some (rec_status v, v, Some (default NewMemTable (rec_mem v)))
      else
        match rec_mem v with
        | None => Some (rec_status v, v, None)
        | Some mem =>
            if ok (rec_status v) then
              let status := WriteLevel0Table mem in
              Some (status, Recovery status None (max_sequence v) (compactions v) true
                              (flushed v ++ [mem]), None)
            else Some (rec_status v, v, None)
        end
  end.

(** The loop of [Recover] over the logs, in the order of their numbers.  The
    result is the status, the largest sequence number, the memtables given to
    [WriteLevel0Table] and the memtable the database goes on with. *)
Fixpoint recover_logs (n fuel : nat) (logs : list (Status + R)) (reusable : bool) (max_seq : Z)
    (tables : list (MemTable (T := memtable_table)))
  : option (Status * Z * list (MemTable (T := memtable_table)) * option (MemTable (T := memtable_table))) :=
  match logs with
  | [] => Some (OK, max_seq, tables, None)
  | file :: logs =>
      let last_log := match logs with [] => true | _ => false end in
      '(s, v, mem) ← RecoverLogFile n fuel file last_log reusable max_seq;
      let tables := tables ++ flushed v in
      if negb (ok s) then Some (s, max_sequence v, tables, mem)
      else if last_log then Some (s, max_sequence v, tables, mem)
      else recover_logs n fuel logs reusable (max_sequence v) tables
  end.

(** [if (versions_->LastSequence() < max_sequence) SetLastSequence]. *)
Definition recovered_sequence (saved max_seq : Z) : Z := if saved <? max_seq then max_seq else saved.

End recover.

(** The write path of DbWrite.v: grouping writers, and the invariant that the
    log and the memtable hold the batches of the writers answered so far. *)

Local Open Scope Z_scope.

#[local] Existing Instance BytewiseComparator.

(** ** Writers and their updates *)

Section writers.
Context `{Port}.

(** The updates of a writer; a writer without a batch only waits for room. *)
Definition qops (w : QWriter) : list batch_op :=
  match w_batch w with Some b => batch_ops b | None => [] end.

(** The batch was filled by [Put] and [Delete]. *)
Definition qw_ok (w : QWriter) : Prop :=
  match w_batch w with
  | None => True
  | Some b => ∃ seq ops, b = rep_of seq ops ∧ Forall update_ok ops ∧ count_ok ops
  end.

Lemma updates_ok ops : Forall update_ok ops → Forall op_ok ops.
Proof. intros Hok. eapply Forall_impl; [exact Hok|apply update_op_ok]. Qed.

Lemma qw_ok_batch w b :
  qw_ok w → w_batch w = Some b →
  (∃ seq, b = rep_of seq (qops w)) ∧ Forall update_ok (qops w) ∧ count_ok (qops w).
Proof.
  unfold qw_ok, qops. intros Hw E. rewrite E in *. destruct Hw as (seq & ops & -> & Hu & Hc).
  rewrite batch_ops_rep_of by (done || by apply updates_ok). split_and!; [by exists seq|done..].
Qed.

Lemma qw_ok_updates w : qw_ok w → Forall update_ok (qops w).
Proof.
  intros Hw. destruct (w_batch w) as [b|] eqn:E.
  - by destruct (qw_ok_batch w b Hw E) as (_ & ? & _).
  - unfold qops. rewrite E. constructor.
Qed.

(** The updates of several writers, in order. *)
Definition gops (ws : list QWriter) : list batch_op := concat (qops <$> ws).

Lemma gops_app ws ws' : gops (ws ++ ws') = gops ws ++ gops ws'.
Proof. unfold gops. by rewrite fmap_app, concat_app. Qed.

Lemma gops_cons w ws : gops (w :: ws) = qops w ++ gops ws.
Proof. done. Qed.

Lemma gops_updates ws : Forall qw_ok ws → Forall update_ok (gops ws).
Proof.
  induction 1 as [|w ws Hw Hws IH]; [constructor|]. rewrite gops_cons.
  apply Forall_app. split; [by apply qw_ok_updates|done].
Qed.

(** A record takes a byte at least. *)
Lemma length_record o : (0 < length (record_bytes o))%nat.
Proof. destruct o; cbn; lia. Qed.

Lemma length_ops_rep seq ops : (length ops ≤ length (rep_of seq ops))%nat.
Proof.
  unfold rep_of. rewrite !length_app. enough (length ops ≤ length (ops ≫= record_bytes))%nat by lia.
  induction ops as [|o ops IH]; [done|]. cbn [mbind list_bind length]. rewrite length_app.
  pose proof (length_record o). lia.
Qed.

(** ** Groups *)

(** What the loop of [BuildBatchGroup] has when [n] writers are in: their
    updates in one batch. *)
Definition group_inv (first : QWriter) (first_batch : list Z) (size : Z) (result : list Z) (tmp : bool)
    (ops : list batch_op) : Prop :=
  (∃ seq, result = rep_of seq ops) ∧ Forall update_ok ops ∧ count_ok ops ∧
  Z.of_nat (length ops) ≤ size ∧ (tmp = false → result = first_batch ∧ ops = qops first).

Lemma group_loop_ok first first_batch max_size ws size result tmp n ops :
  qw_ok first → w_batch first = Some first_batch → Forall qw_ok ws → max_size < 2 ^ 31 →
  group_inv first first_batch size result tmp ops →
  ∃ seq tmp' k, group_loop first first_batch max_size ws size result tmp n Clear
      = Some (rep_of seq (ops ++ gops (take k ws)), tmp', (n + k)%nat) ∧
    (k ≤ length ws)%nat ∧ count_ok (ops ++ gops (take k ws)) ∧
    Forall (λ w, w_sync w = true → w_sync first = true) (take k ws).
Proof.
  intros Hf Ef Hws Hmax. revert size result tmp n ops.
  induction Hws as [|w ws Hw Hws IH]; intros size result tmp n ops ((seq & Er) & Hu & Hc & Hs & Ht);
    cbn [group_loop].
  { exists seq, tmp, 0%nat. cbn. rewrite app_nil_r, Nat.add_0_r. subst. by split_and!. }
  assert (Hstop : ∃ seq tmp' k, Some (result, tmp, n) = Some (rep_of seq (ops ++ gops (take k (w :: ws))), tmp', (n + k)%nat) ∧
    (k ≤ length (w :: ws))%nat ∧ count_ok (ops ++ gops (take k (w :: ws))) ∧
    Forall (λ w, w_sync w = true → w_sync first = true) (take k (w :: ws))).
  { exists seq, tmp, 0%nat. cbn. rewrite app_nil_r, Nat.add_0_r. subst. split_and!; try done. lia. }
  destruct (w_sync w && negb (w_sync first)) eqn:Esync; [exact Hstop|].
  assert (Hsync : w_sync w = true → w_sync first = true) by (intros E; rewrite E in Esync; by destruct (w_sync first)).
  assert (Hgo : ∀ size' result' tmp', group_inv first first_batch size' result' tmp' (ops ++ qops w) →
    ∃ seq tmp'' k, group_loop first first_batch max_size ws size' result' tmp' (S n) Clear
      = Some (rep_of seq (ops ++ gops (take k (w :: ws))), tmp'', (n + k)%nat) ∧
    (k ≤ length (w :: ws))%nat ∧ count_ok (ops ++ gops (take k (w :: ws))) ∧
    Forall (λ w, w_sync w = true → w_sync first = true) (take k (w :: ws))).
  { intros size' result' tmp' HI. destruct (IH size' result' tmp' (S n) _ HI) as (s & t & k & E & Hk & Hck & Hsy).
    exists s, t, (S k). cbn [take length]. rewrite gops_cons, app_assoc.
    split_and!; [by rewrite E, Nat.add_succ_r|lia|done|by constructor]. }
  destruct (w_batch w) as [b|] eqn:Eb; cycle 1.
  { apply Hgo. assert (qops w = []) as -> by (unfold qops; by rewrite Eb). rewrite app_nil_r.
    split_and!; [by exists seq|done..]. }
  destruct (Z.ltb_spec max_size (size + ByteSize b)) as [_|Hle]; [exact Hstop|].
  destruct (qw_ok_batch w b Hw Eb) as ((seqb & Hb) & Hub & Hcb).
  destruct (qw_ok_batch first first_batch Hf Ef) as ((seqf & Hfb) & Huf & Hcf).
  assert (Hlen : Z.of_nat (length (ops ++ qops w)) ≤ size + ByteSize b).
  { rewrite length_app. unfold ByteSize. rewrite Hb. pose proof (length_ops_rep seqb (qops w)). lia. }
  assert (Hcw : count_ok (ops ++ qops w)) by (unfold count_ok; lia).
  assert (Huw : Forall update_ok (ops ++ qops w)) by (by apply Forall_app).
  assert (∃ seq', (if tmp then Some result
     else c ← Count Clear; if c =? 0 then Append Clear first_batch else None) = Some (rep_of seq' ops))
    as (seq' & ->).
  { destruct tmp; [exists seq; by rewrite Er|]. exists 0. destruct (Ht eq_refl) as [_ ->].
    change Clear with NewWriteBatch. rewrite NewWriteBatch_rep_of.
    rewrite (Count_rep_of 0 []) by (done || constructor). simpl_bind. cbn [length]. rewrite Hfb.
    apply (Append_rep_of 0 []); [by apply updates_ok|done]. }
  simpl_bind. rewrite Hb, Append_rep_of by (done || by apply updates_ok). simpl_bind.
  rewrite <-Hb. apply Hgo. split_and!; [by exists seq'|done|done|done|done].
Qed.

(** The group: the first writers of the queue, their updates in their order;
    a group that has a synchronous writer is written by one. *)
Lemma BuildBatchGroup_ok first ws first_batch :
  w_batch first = Some first_batch → Forall qw_ok (first :: ws) →
  ∃ seq tmp n, BuildBatchGroup (first :: ws) Clear
      = Some (rep_of seq (gops (take n (first :: ws))), tmp, n) ∧
    (1 ≤ n ≤ length (first :: ws))%nat ∧ Forall update_ok (gops (take n (first :: ws))) ∧
    count_ok (gops (take n (first :: ws))) ∧
    Forall (λ w, w_sync w = true → w_sync first = true) (take n (first :: ws)).
Proof.
  intros Ef [Hf Hws]%Forall_cons. unfold BuildBatchGroup. rewrite Ef. simpl_bind. cbv zeta.
  destruct (qw_ok_batch first first_batch Hf Ef) as ((seqf & Hfb) & Huf & Hcf).
  pose proof (length_ops_rep seqf (qops first)) as Hl.
  match goal with |- context [group_loop _ _ ?m] => set (max_size := m) end.
  assert (max_size < 2 ^ 31) as Hmax.
  { unfold max_size. change (Z.shiftl 128 10) with 131072. change (Z.shiftl 1 20) with 1048576.
    destruct (Z.leb_spec (ByteSize first_batch) 131072); lia. }
  destruct (group_loop_ok first first_batch max_size ws (ByteSize first_batch) first_batch false 1 (qops first))
    as (seq & tmp & k & E & Hk & Hc & Hs); [done..| |].
  { split_and!; [by exists seqf|done|done| |done]. unfold ByteSize. rewrite Hfb. lia. }
  exists seq, tmp, (S k). cbn [take length]. rewrite gops_cons.
  split_and!; [done|lia|lia| |done|by constructor].
  apply Forall_app. split; [done|]. apply gops_updates. by apply Forall_take.
Qed.

End writers.

(** ** The invariant *)

(** ** Groups of writers and their numbers *)

Section groups.
Context `{Port}.

(** Groups of writers, each with the number of its first update. *)
Implicit Types (l : list (Z * list QWriter)).

Definition numbered_ops l : list (Z * batch_op) :=
  l ≫= λ p, imap (λ i o, (p.1 + Z.of_nat i, o)) (gops p.2).
Definition group_entries l : list entry := l ≫= λ p, entries p.1 (gops p.2).
Definition group_records l : list (list Z) := (λ p, rep_of p.1 (gops p.2)) <$> l.
Definition group_writers l : list QWriter := concat l.*2.

(** The numbers grow, from [lo] on and below [hi]. *)
Fixpoint numbered (lo hi : Z) l : Prop :=
  match l with
  | [] => lo ≤ hi
  | p :: l => lo ≤ p.1 ∧ numbered (p.1 + Z.of_nat (length (gops p.2))) hi l
  end.

Definition groups_ok l : Prop := Forall (λ p, Forall update_ok (gops p.2) ∧ count_ok (gops p.2)) l.

Lemma group_entries_ops l : group_entries l = (λ p, entry_of p.1 p.2) <$> numbered_ops l.
Proof.
  unfold group_entries, numbered_ops. induction l as [|p l IH]; [done|]. cbn [mbind list_bind].
  rewrite fmap_app, <-IH. f_equal. unfold entries. by rewrite fmap_imap.
Qed.

Lemma numbered_ops_snd l : (numbered_ops l).*2 = gops (group_writers l).
Proof.
  unfold numbered_ops, group_writers. induction l as [|p l IH]; [done|]. cbn [mbind list_bind fmap list_fmap concat].
  rewrite fmap_app, IH, gops_app. f_equal.
  apply list_eq. intros i. rewrite list_lookup_fmap, list_lookup_imap. by destruct (gops p.2 !! i).
Qed.

Lemma group_entries_app l1 l2 : group_entries (l1 ++ l2) = group_entries l1 ++ group_entries l2.
Proof. apply bind_app. Qed.

Lemma group_records_app l1 l2 : group_records (l1 ++ l2) = group_records l1 ++ group_records l2.
Proof. apply fmap_app. Qed.

Lemma group_writers_app l1 l2 : group_writers (l1 ++ l2) = group_writers l1 ++ group_writers l2.
Proof. unfold group_writers. by rewrite fmap_app, concat_app. Qed.

Lemma numbered_le lo hi l : numbered lo hi l → lo ≤ hi.
Proof. revert lo. induction l as [|p l IH]; intros lo; [done|]. cbn. intros [? ?%IH]. lia. Qed.

Lemma numbered_mono lo lo' hi hi' l : lo' ≤ lo → hi ≤ hi' → numbered lo hi l → numbered lo' hi' l.
Proof.
  intros Hlo Hhi. revert lo lo' Hlo. induction l as [|p l IH]; intros lo lo' Hlo; cbn [numbered]; [lia|].
  intros [Hp Hl]. split; [lia|]. by eapply IH.
Qed.

Lemma numbered_app lo hi l1 l2 :
  numbered lo hi (l1 ++ l2) ↔ ∃ mid, numbered lo mid l1 ∧ numbered mid hi l2.
Proof.
  revert lo. induction l1 as [|p l1 IH]; intros lo; cbn [app numbered].
  - split; [intros Hl; exists lo; split; [lia|done]|]. intros (mid & Hm & Hl). by eapply numbered_mono.
  - rewrite IH. naive_solver.
Qed.

Lemma numbered_sublist lo hi l l' : l' `sublist_of` l → numbered lo hi l → numbered lo hi l'.
Proof.
  intros Hs. revert lo. induction Hs as [|p l' l Hs IH|p l' l Hs IH]; intros lo; cbn [numbered]; [done|..].
  - intros [? ?]. split; [done|by apply IH].
  - intros [Hp Hl]. eapply numbered_mono; [| |by apply IH]; lia.
Qed.

Lemma numbered_top lo hi hi' l :
  numbered lo hi l → lo ≤ hi' → Forall (λ p, p.1 + Z.of_nat (length (gops p.2)) ≤ hi') l → numbered lo hi' l.
Proof.
  intros Hl Hlo Hf. revert lo Hl Hlo. induction Hf as [|p l Hp Hf IH]; intros lo; cbn [numbered]; [done|].
  intros [? ?] _. split; [done|]. by apply IH.
Qed.

Lemma numbered_bound lo hi l p : numbered lo hi l → p ∈ l → lo ≤ p.1 ∧ p.1 + Z.of_nat (length (gops p.2)) ≤ hi.
Proof.
  intros Hl (l1 & l2 & ->)%list_elem_of_split. apply numbered_app in Hl as (mid & H1 & Hp & H2).
  apply numbered_le in H1, H2. lia.
Qed.

Lemma numbered_ops_in l x :
  x ∈ numbered_ops l ↔ ∃ p (i : nat), p ∈ l ∧ x.1 = p.1 + Z.of_nat i ∧ gops p.2 !! i = Some x.2.
Proof.
  unfold numbered_ops. rewrite list_elem_of_bind. split.
  - intros (p & Hx & Hp). apply list_elem_of_lookup in Hx as [i Hx].
    apply list_lookup_imap_Some in Hx as (o & Ho & ->). by exists p, i.
  - intros (p & i & Hp & E & Ho). exists p. split; [|done]. apply list_elem_of_lookup. exists i.
    apply list_lookup_imap_Some. exists x.2. split; [done|]. destruct x. cbn in *. by subst.
Qed.

Lemma numbered_ops_range lo hi l x : numbered lo hi l → x ∈ numbered_ops l → lo ≤ x.1 < hi.
Proof.
  intros Hl (p & i & Hp & -> & Hi)%numbered_ops_in. apply (numbered_bound _ _ _ _ Hl) in Hp.
  apply lookup_lt_Some in Hi. lia.
Qed.

Lemma numbered_sorted lo hi l : numbered lo hi l → StronglySorted (λ a b, a.1 < b.1) (numbered_ops l).
Proof.
  revert lo. induction l as [|p l IH]; intros lo; [constructor|]. cbn [numbered]. intros [Hp Hl].
  unfold numbered_ops. cbn [mbind list_bind]. apply StronglySorted_app_2; [| |by eapply IH].
  - intros a b Ha Hb. apply (numbered_ops_range _ _ _ _ Hl) in Hb.
    apply list_elem_of_lookup in Ha as [i Ha]. apply list_lookup_imap_Some in Ha as (o & Ho%lookup_lt_Some & ->). cbn. lia.
  - apply StronglySorted_lookup. intros i j a b Hij. rewrite !list_lookup_imap.
    destruct (gops p.2 !! i), (gops p.2 !! j); [|done..]. intros [= <-] [= <-]. cbn. lia.
Qed.

Lemma group_entries_range lo hi l e :
  numbered lo hi l → e ∈ group_entries l → lo ≤ e_seq e < hi ∧ type_ok (e_type e).
Proof.
  rewrite group_entries_ops. intros Hl (x & -> & Hx)%list_elem_of_fmap.
  destruct (entry_of_fields x.1 x.2) as [_ ->]. split; [by eapply numbered_ops_range|].
  destruct (x.2); cbn; unfold type_ok, kTypeValue, kTypeDeletion; lia.
Qed.

Lemma group_entries_below lo hi l : numbered lo hi l → below hi (group_entries l).
Proof.
  intros Hl. apply Forall_forall. intros e He. apply (group_entries_range _ _ _ _ Hl) in He. split; [lia|apply He].
Qed.

(** *** Memtables that hold groups *)

Definition holds (m : MemTable (T := memtable_table)) l : Prop :=
  ∃ es, mem_rep m es ∧ es ≡ₚ group_entries l.

(** Memtables, the oldest first. *)
Definition tables_hold (ms : list (MemTable (T := memtable_table))) l : Prop :=
  ∃ ls, l = concat ls ∧ Forall2 holds ms ls.

Lemma tables_hold_app ms ms' l l' : tables_hold ms l → tables_hold ms' l' → tables_hold (ms ++ ms') (l ++ l').
Proof.
  intros (ls & -> & H1) (ls' & -> & H2). exists (ls ++ ls'). split; [by rewrite concat_app|]. by apply Forall2_app.
Qed.

Lemma tables_hold_one m l : holds m l → tables_hold [m] l.
Proof. intros Hm. exists [l]. split; [by cbn; rewrite app_nil_r|]. by constructor. Qed.

Lemma tables_hold_nil : tables_hold [] [].
Proof. by exists []. Qed.

Lemma holds_new : holds NewMemTable [].
Proof. exists []. split; [apply NewMemTable_rep|done]. Qed.

Lemma holds_below m l lo hi :
  holds m l → numbered lo hi l → ∃ es, mem_rep m es ∧ es ≡ₚ group_entries l ∧ below hi es.
Proof.
  intros (es & Hm & Hp) Hl. exists es. split; [done|]. split; [done|]. unfold below. rewrite Hp.
  by eapply group_entries_below.
Qed.

(** [DBImpl::Get] asks the memtables in turn, the newest first, until one has
    an entry of the key. *)
Fixpoint get_first (ms : list (MemTable (T := memtable_table))) (lk : LookupKey) : option get_result :=
  match ms with
  | [] => Some GotNothing
  | m :: ms => r ← Get m lk; match r with GotNothing => get_first ms lk | _ => Some r end
  end.

Lemma get_first_ok ms l lo hi k s :
  tables_hold ms l → numbered lo hi l → key_ok k → seq_ok s →
  ∃ lk r, NewLookupKey k s = Some lk ∧ get_first (reverse ms) lk = Some r ∧ get_ok (group_entries l) k s r.
Proof.
  intros (ls & -> & Hls) Hl Hk Hs.
  destruct (NewLookupKey_bytes k s Hk Hs) as (lk & Hlk & _). exists lk.
  enough (∃ r, get_first (reverse ms) lk = Some r ∧ get_ok (group_entries (concat ls)) k s r) as (r & ? & ?) by (by exists r).
  revert ms Hls hi Hl. induction ls as [|l ls IH] using rev_ind; intros ms Hls hi Hl.
  { apply Forall2_nil_inv_r in Hls as ->. exists GotNothing. split; [done|]. by intros e ?%not_elem_of_nil. }
  apply Forall2_app_inv_r in Hls as (ms' & ms1 & Hls & Hm & ->). apply Forall2_cons_inv_r in Hm as (m & ? & Hm & Hnil & ->).
  apply Forall2_nil_inv_r in Hnil as ->. rewrite concat_app in Hl |- *. cbn [concat] in Hl |- *. rewrite app_nil_r in Hl |- *.
  apply numbered_app in Hl as (mid & Hold & Hnew). destruct Hm as (es & Hm & Hp).
  destruct (IH ms' Hls mid Hold) as (r2 & E2 & Hok2).
  destruct (Get_rep m es k s Hm Hk Hs) as (lk' & r1 & Hlk' & E1 & Hok1). rewrite Hlk in Hlk'. injection Hlk' as <-.
  exists (or_else r1 r2). split.
  { rewrite reverse_app. cbn [reverse rev_append app get_first]. rewrite E1. simpl_bind. by destruct r1. }
  eapply get_ok_ext; [|apply (get_ok_app es (group_entries (concat ls)) k s r1 r2); [|done|done]].
  - intros e _. rewrite group_entries_app, !elem_of_app, Hp. tauto.
  - intros a b Ha Hb _. rewrite Hp in Ha. apply (group_entries_range _ _ _ _ Hnew) in Ha as [? Ha].
    apply (group_entries_range _ _ _ _ Hold) in Hb as [? Hb]. unfold e_tag, tag_of, type_ok in *. lia.
Qed.

End groups.
(** ** The invariant *)

Section answers.
Context `{Port}.

(** The writers with a batch. *)
Definition batch_writers (ws : list QWriter) : list QWriter :=
  filter (λ w, w_batch w ≠ None) ws.

(** The writers whose batch was told [OK]. *)
Definition ok_writers (ans : list (QWriter * Status)) : list QWriter :=
  batch_writers (filter (λ p, p.2 = OK) ans).*1.

Lemma gops_batch_writers ws : gops (batch_writers ws) = gops ws.
Proof.
  induction ws as [|w ws IH]; [done|]. unfold batch_writers in *. rewrite filter_cons.
  destruct (decide (w_batch w ≠ None)) as [Hb|Hb]; rewrite ?gops_cons, IH; [done|].
  destruct (w_batch w) eqn:E; [by destruct Hb|]. unfold qops. by rewrite E.
Qed.

Lemma ok_writers_app a b : ok_writers (a ++ b) = ok_writers a ++ ok_writers b.
Proof. unfold ok_writers, batch_writers. by rewrite filter_app, fmap_app, filter_app. Qed.

Lemma filter_status s ws :
  (filter (λ p : QWriter * Status, p.2 = OK) ((λ w, (w, s)) <$> ws)).*1 = if ok s then ws else [].
Proof.
  induction ws as [|w ws IH]; [by destruct (ok s)|]. rewrite fmap_cons, filter_cons. cbn [snd].
  destruct (decide (s = OK)) as [->|Hne].
  - cbn [ok] in *. rewrite fmap_cons, IH. done.
  - destruct (ok s) eqn:E; [by apply ok_true in E|]. exact IH.
Qed.

Lemma ok_writers_all s ws :
  ok_writers ((λ w, (w, s)) <$> ws) = if ok s then batch_writers ws else [].
Proof. unfold ok_writers. rewrite filter_status. by destruct (ok s). Qed.

(** Those that were told [OK] are among those that arrived, in that order. *)
Lemma filter_fst_sublist (ans : list (QWriter * Status)) :
  (filter (λ p, p.2 = OK) ans).*1 `sublist_of` ans.*1.
Proof.
  induction ans as [|[w s] ans IH]; [constructor|]. rewrite filter_cons.
  case_decide; rewrite ?fmap_cons; by constructor.
Qed.

Lemma ok_writers_sublist ans : ok_writers ans `sublist_of` ans.*1.
Proof.
  unfold ok_writers, batch_writers. etrans; [apply sublist_filter|apply filter_fst_sublist].
Qed.

Lemma gops_sublist ws ws' : ws `sublist_of` ws' → (length (gops ws) ≤ length (gops ws'))%nat.
Proof.
  induction 1; [done|..]; rewrite ?gops_cons, ?length_app; lia.
Qed.

Lemma fst_answers (s : Status) (ws : list QWriter) : ((λ w, (w, s)) <$> ws).*1 = ws.
Proof. rewrite <-list_fmap_compose. apply list_fmap_id. Qed.

End answers.

Section db.
Context `{WritableFileLaws W} `{Crc : Crc32cLaws} `{Port}.
Implicit Types (d : Db W) (s : Sys W) (lf li lm l : list (Z * list QWriter)).

(** There is room for the sequence numbers of everything that arrived. *)
Definition arrivals_ok (ws : list QWriter) : Prop :=
  Forall qw_ok ws ∧ Z.of_nat (length (gops ws)) < kMaxSequenceNumber.

(** The tables hold the groups [lf], the memtable that waits [li], and the
    memtable [lm]. *)
Record db_ok d lf li lm : Prop := {
  do_log : writer_ok (log_ d);
  do_mem : holds (mem_ d) lm;
  do_imm : tables_hold (option_list (imm_ d)) li;
  do_tables : tables_hold (flushed_ d) lf;
  do_groups : groups_ok (lf ++ li ++ lm);
  do_saved : numbered 1 (saved_sequence_ d + 1) lf;
  do_old : numbered 1 (last_sequence_ d + 1) (lf ++ li);
  do_last : saved_sequence_ d ≤ last_sequence_ d;
  do_edit sq : edit_sequence_ d = Some sq →
    is_Some (imm_ d) ∧ numbered 1 (sq + 1) (lf ++ li) ∧ sq ≤ last_sequence_ d;
  do_tmp : tmp_batch_ d = Clear
}.

(** The front writer's group with the status it will be told, and the last
    sequence number it gives out. *)
Definition written s : list (QWriter * Status) :=
  match sys_phase s with
  | Written status _ _ n _ => (λ w, (w, status)) <$> take n (writers_ (sys_db s))
  | _ => []
  end.

Definition last_number s : Z :=
  match sys_phase s with Written _ _ _ _ last => last | _ => last_sequence_ (sys_db s) end.

Definition phase_ok d (ph : phase) : Prop :=
  match ph with
  | Idle => True
  | MakingRoom _ _ => writers_ d ≠ []
  | Grouped updates _ n last =>
      (1 ≤ n ≤ length (writers_ d))%nat ∧ updates = rep_of (last_sequence_ d + 1) (gops (take n (writers_ d))) ∧
      Forall update_ok (gops (take n (writers_ d))) ∧ count_ok (gops (take n (writers_ d))) ∧
      Forall (λ w, w_sync w = true → ∀ w0, head (writers_ d) = Some w0 → w_sync w0 = true)
        (take n (writers_ d)) ∧
      last = last_sequence_ d + Z.of_nat (length (gops (take n (writers_ d))))
  | Written status sync_error _ n last =>
      (1 ≤ n ≤ length (writers_ d))%nat ∧ (sync_error = true → status ≠ OK) ∧ last_sequence_ d ≤ last
  end.

(** The memtables and tables hold the updates of the writers told [OK]. *)
Record sys_ok s lf li lm : Prop := {
  so_db : db_ok (sys_db s) lf li lm;
  so_arrived : arrived s = (answers s).*1 ++ writers_ (sys_db s);
  so_phase : phase_ok (sys_db s) (sys_phase s);
  so_writers : group_writers (lf ++ li ++ lm) = ok_writers (answers s ++ written s);
  so_numbers : numbered 1 (last_number s + 1) (lf ++ li ++ lm);
  so_last : 0 ≤ last_sequence_ (sys_db s) ∧
    last_number s ≤ Z.of_nat (length (gops (answers s ++ written s).*1))
}.

(** *** The parts of a write *)

Lemma db_room s lf li lm :
  sys_ok s lf li lm → arrivals_ok (arrived s) → written s = [] →
  0 ≤ last_sequence_ (sys_db s) ∧ Forall qw_ok (writers_ (sys_db s)) ∧
  last_sequence_ (sys_db s) + Z.of_nat (length (gops (writers_ (sys_db s)))) < kMaxSequenceNumber.
Proof.
  intros Hs [Hq Hm] Hw. rewrite (so_arrived _ _ _ _ Hs) in Hq, Hm. apply Forall_app in Hq as [_ Hq].
  rewrite gops_app, length_app in Hm. pose proof (so_last _ _ _ _ Hs) as [Hseq0 Hl]. rewrite Hw, app_nil_r in Hl.
  split; [done|]. split; [done|].
  assert (last_sequence_ (sys_db s) ≤ last_number s); [|lia].
  pose proof (so_phase _ _ _ _ Hs) as Hp. unfold last_number. destruct (sys_phase s); [lia..|]. apply Hp.
Qed.

Lemma write_begin_ok d status :
  tmp_batch_ d = Clear → writers_ d ≠ [] → Forall qw_ok (writers_ d) → 0 ≤ last_sequence_ d →
  last_sequence_ d + Z.of_nat (length (gops (writers_ d))) < kMaxSequenceNumber →
  ∃ ph, write_begin d status = Some ph ∧ phase_ok d ph ∧
    match ph with
    | Grouped _ _ _ _ => status = OK
    | Written st se _ n last =>
        se = false ∧ st = status ∧ last = last_sequence_ d ∧
        ok_writers ((λ w, (w, st)) <$> take n (writers_ d)) = []
    | _ => False
    end.
Proof.
  intros Htmp Hne Hqs Hseq0 Hmax. unfold write_begin. destruct (writers_ d) as [|w q] eqn:Hq; [done|].
  assert (Hskip : w_batch w = None ∨ ok status = false →
    phase_ok d (Written status false false 1 (last_sequence_ d)) ∧
    ok_writers ((λ w, (w, status)) <$> take 1 (w :: q)) = []).
  { intros Hor. cbn [phase_ok]. rewrite Hq. cbn [length]. split; [split_and!; [lia|lia|done|lia]|].
    rewrite ok_writers_all. destruct (ok status); [|done]. destruct Hor as [Hn|]; [|done]. cbn [take].
    unfold batch_writers. rewrite filter_cons_False; [done|]. by intros ?. }
  destruct (w_batch w) as [b|] eqn:Eb; cycle 1.
  { destruct (Hskip (or_introl eq_refl)) as [Hp Ho]. by eexists. }
  destruct (ok status) eqn:Es; cycle 1.
  { destruct (Hskip (or_intror eq_refl)) as [Hp Ho]. by eexists. }
  rewrite Htmp. destruct (BuildBatchGroup_ok w q b Eb Hqs) as (seq & tmp & n & -> & Hn & Hu & Hc & Hsy).
  simpl_bind. rewrite SetSequence_rep_of. simpl_bind.
  rewrite Count_rep_of by (done || by apply updates_ok). simpl_bind.
  eexists. split; [reflexivity|]. split; [|by apply ok_true in Es]. cbn [phase_ok]. rewrite Hq. split_and!; try done; try lia.
  - eapply Forall_impl; [exact Hsy|]. cbn. intros w1 Hw1 E w0 [= <-]. by apply Hw1.
  - apply wrap_small. unfold in_width. pose proof (gops_sublist _ _ (sublist_take (w :: q) n)).
    unfold kMaxSequenceNumber in Hmax. change (Z.shiftl 1 56 - 1) with 72057594037927935 in Hmax.
    change (2 ^ 64) with 18446744073709551616. lia.
Qed.

(** Appending a group to the log and the memtable.  Whatever the file answers
    the writer goes on; the memtable has the group when the status is [OK]. *)
Lemma write_log_ok d lf li lm sync g :
  db_ok d lf li lm → numbered 1 (last_sequence_ d + 1) (lf ++ li ++ lm) → 0 ≤ last_sequence_ d →
  Forall update_ok (gops g) → count_ok (gops g) →
  last_sequence_ d + Z.of_nat (length (gops g)) < kMaxSequenceNumber →
  let p := (last_sequence_ d + 1, batch_writers g) in
  ∃ lw m status sync_error,
    write_log d sync (rep_of (last_sequence_ d + 1) (gops g)) =
      Some (MkDb (writers_ d) (logfile_number_ d) lw m (imm_ d) (prev_log_ d) (last_sequence_ d) (bg_error_ d)
              (tmp_batch_ d) (flushed_ d) (saved_sequence_ d) (edit_sequence_ d), status, sync_error) ∧
    writer_ok lw ∧ holds m (if ok status then lm ++ [p] else lm) ∧
    (sync_error = true → status ≠ OK) ∧
    (ReliableAppend W → (status ≠ OK → sync_error = true) ∧
       ∃ out, contents (dest_ lw) = contents (dest_ (log_ d)) ++ out ∧
         log_of (block_offset_ (log_ d)) (group_records [p]) out (block_offset_ lw)).
Proof.
  intros Hd Hnum Hseq0 Hu Hc Hmax p. set (ops := gops g) in *. unfold write_log.
  assert (bytes (rep_of (last_sequence_ d + 1) ops)) as Hbytes.
  { unfold rep_of. repeat apply bytes_app; try solve_width. by apply records_bytes, updates_ok. }
  destruct (AddRecord_total (log_ d) _ (do_log _ _ _ _ Hd) Hbytes) as (lw & s0 & EA & Hlw).
  assert (Hrel : ReliableAppend W → s0 = OK ∧ ∃ out, contents (dest_ lw) = contents (dest_ (log_ d)) ++ out ∧
    log_of (block_offset_ (log_ d)) (group_records [p]) out (block_offset_ lw)).
  { intros HR. destruct (AddRecord_ok (log_ d) _ (do_log _ _ _ _ Hd) Hbytes) as (lw' & fs & EA' & Hfr & Hfit & _ & C & O).
    rewrite EA in EA'. injection EA' as <- ->. split; [done|]. exists (layout (block_offset_ (log_ d)) fs ++ []).
    split; [by rewrite app_nil_r|]. unfold group_records, p. cbn [fmap list_fmap fst snd]. rewrite gops_batch_writers.
    rewrite O. by econstructor; [..|constructor]. }
  rewrite EA. simpl_bind.
  destruct (holds_below (mem_ d) lm 1 (last_sequence_ d + 1) (do_mem _ _ _ _ Hd)) as (es & Hm & Hp & Hb).
  { rewrite app_assoc in Hnum. apply numbered_app in Hnum as (mid & Hold & Hnew).
    apply numbered_le in Hold. eapply numbered_mono; [exact Hold| |exact Hnew]. lia. }
  destruct (InsertInto_rep (last_sequence_ d + 1) ops (mem_ d) es) as (m' & es' & EI & Hm' & Hp' & _); try done; try lia.
  assert (Hm1 : holds m' (lm ++ [p])).
  { exists es'. split; [done|]. rewrite Hp', Hp, group_entries_app. unfold p, group_entries at 3. cbn [mbind list_bind fst snd].
    by rewrite app_nil_r, gops_batch_writers. }
  destruct (ok s0) eqn:Es0; cbn [andb]; cycle 1.
  { simpl_bind. rewrite Es0. simpl_bind. eexists lw, (mem_ d), s0, false. rewrite Es0. split_and!; [reflexivity|done|apply Hd|done|].
    intros HR. destruct (Hrel HR) as [-> _]. done. }
  apply ok_true in Es0 as ->. destruct sync; cycle 1.
  { simpl_bind. cbn [ok]. rewrite EI. simpl_bind. eexists lw, m', OK, false. split_and!; [reflexivity|done|done|done|].
    intros HR. by destruct (Hrel HR) as [_ ?]. }
  destruct (Sync_contents (dest_ lw)) as (f & s1 & -> & Hf & Cf); [apply Hlw|]. simpl_bind.
  set (lw1 := MkWriter f (block_offset_ lw) (type_crc_ lw)).
  assert (Hlw1 : writer_ok lw1) by (destruct Hlw as (A1 & A2 & _); exact (conj A1 (conj A2 Hf))).
  destruct (ok s1) eqn:Es1; cbn [negb].
  - apply ok_true in Es1 as ->. rewrite EI. simpl_bind. eexists lw1, m', OK, false. split_and!; [reflexivity|done|done|done|].
    intros HR. destruct (Hrel HR) as [_ (out & C & L)]. split; [done|]. exists out. split; [|done]. cbn. by rewrite Cf.
  - simpl_bind. eexists lw1, (mem_ d), s1, true. rewrite Es1. split_and!; [reflexivity|done|apply Hd|by intros _ ->|].
    intros HR. destruct (Hrel HR) as [_ (out & C & L)]. split; [done|]. exists out. split; [|done]. cbn. by rewrite Cf.
Qed.

(** *** What is in the logs *)

(** A log file whose first [mark] bytes are the records of [c], and whose rest
    are those of [m]. *)
Definition marked (mark : nat) (f : W) (c m : list (Z * list QWriter)) (off : Z) : Prop :=
  ∃ out1 off1 out, contents f = out1 ++ out ∧ length out1 = mark ∧
    log_of 0 (group_records c) out1 off1 ∧ log_of off1 (group_records m) out off.

(** The logs of a run since a state in which they had the lengths [mark] and
    the tables and logs had the groups [base].  [x] is a group that is in the
    log and not in the memtable, because [Sync] failed after it. *)
Record logs_ok (mark : Z → nat) (base : list (Z * list QWriter)) s lf li lm x ci mi cc mc : Prop := {
  lo_imm : li = ci ++ mi;
  lo_mem : lm ++ x = cc ++ mc;
  lo_groups : groups_ok x;
  lo_extra : x = [] ∨
    match sys_phase s with
    | Grouped _ _ _ _ => False
    | Written status sync_error _ _ _ => status ≠ OK ∧ (sync_error = true ∨ bg_error_ (sys_db s) ≠ OK)
    | _ => bg_error_ (sys_db s) ≠ OK
    end;
  lo_arrived : group_writers (lf ++ li ++ lm ++ x) `sublist_of` (answers s ++ written s).*1;
  lo_numbers : numbered 1 (last_number s + 1) (lf ++ li ++ lm ++ x);
  lo_prev : match prev_log_ (sys_db s) with
    | Some (n, f) => is_Some (imm_ (sys_db s)) ∧ n < logfile_number_ (sys_db s) ∧ ∃ off, marked (mark n) f ci mi off
    | None => imm_ (sys_db s) = None ∧ ci = [] ∧ mi = []
    end;
  lo_log : marked (mark (logfile_number_ (sys_db s))) (dest_ (log_ (sys_db s))) cc mc (block_offset_ (log_ (sys_db s)));
  lo_mark n : logfile_number_ (sys_db s) < n → mark n = 0%nat;
  lo_base j j' : base `prefix_of` lf ++ ci ++ take j mi ++ cc ++ take j' mc
}.

Definition logs mark base s lf li lm : Prop := ∃ x ci mi cc mc, logs_ok mark base s lf li lm x ci mi cc mc.

(** A step keeps the invariants. *)
Definition keeps_ok s lf li lm s' lf' li' lm' : Prop :=
  sys_ok s' lf' li' lm' ∧
  (ReliableAppend W → ∀ mark base, logs mark base s lf li lm → logs mark base s' lf' li' lm').

Lemma join_ok d ph ws ans w lf li lm :
  sys_ok (MkSys d ph ws ans) lf li lm →
  keeps_ok (MkSys d ph ws ans) lf li lm (MkSys (set_writers d (writers_ d ++ [w])) ph (ws ++ [w]) ans) lf li lm.
Proof.
  intros [Hd Ha Hp Hw Hn Hl].
  assert (Hwr : written (MkSys (set_writers d (writers_ d ++ [w])) ph (ws ++ [w]) ans) = written (MkSys d ph ws ans)).
  { unfold written. cbn [sys_phase sys_db]. destruct ph as [| | |st se tmp n last]; try done.
    cbn [phase_ok sys_db sys_phase] in Hp. cbn [set_writers writers_]. rewrite take_app_le by lia. done. }
  split.
  - split; [by destruct Hd; split| | |rewrite Hwr; exact Hw|exact Hn|rewrite Hwr; exact Hl].
    + cbn in *. by rewrite Ha, app_assoc.
    + cbn [sys_db sys_phase] in *. destruct ph as [|ad fo|u tmp n last|st se tmp n last]; cbn [phase_ok set_writers writers_ last_sequence_] in *.
      * done.
      * by destruct (writers_ d).
      * destruct Hp as (Hn1 & ? & ? & ? & Hsy & ?). rewrite length_app, take_app_le by lia.
        split_and!; try done; try lia. eapply Forall_impl; [exact Hsy|]. cbn. intros w1 Hw1 E w0 Hw0.
        apply Hw1; [done|]. by destruct (writers_ d); [cbn in Hn1; lia|].
      * destruct Hp as (Hn1 & ? & ?). rewrite length_app. split_and!; try done; lia.
  - intros _ mark base (x & ci & mi & cc & mc & [L1 L2 L3 L4 L5 L6 L7 L8 L9 L10]).
    exists x, ci, mi, cc, mc. split; try done. by rewrite Hwr.
Qed.

(** Nothing changes but the phase, which has no group written. *)
Lemma phase_keeps d ph ph' ws ans lf li lm :
  sys_ok (MkSys d ph ws ans) lf li lm →
  match ph with Idle | MakingRoom _ _ => True | _ => False end →
  match ph' with
  | Idle | MakingRoom _ _ => True
  | Grouped _ _ _ _ => bg_error_ d = OK
  | Written st se _ n last =>
      last = last_sequence_ d ∧ (bg_error_ d ≠ OK → st ≠ OK) ∧
      ok_writers ((λ w, (w, st)) <$> take n (writers_ d)) = []
  end →
  phase_ok d ph' →
  keeps_ok (MkSys d ph ws ans) lf li lm (MkSys d ph' ws ans) lf li lm.
Proof.
  intros [Hd Ha Hp Hw Hn Hl] Hph Hph' Hok. unfold written, last_number in *. cbn [sys_db sys_phase arrived answers] in *.
  assert (Hold : (match ph with Written st _ _ n _ => (λ w, (w, st)) <$> take n (writers_ d) | _ => [] end) = [])
    by (by destruct ph).
  assert (Holdn : (match ph with Written _ _ _ _ last => last | _ => last_sequence_ d end) = last_sequence_ d)
    by (by destruct ph).
  rewrite Hold, app_nil_r in Hw, Hl. rewrite Holdn in Hn, Hl.
  split.
  - split; try done; unfold written, last_number; cbn [sys_db sys_phase answers].
    + destruct ph' as [| | |st se tmp n last]; rewrite ?app_nil_r; try done.
      destruct Hph' as (_ & _ & E). by rewrite ok_writers_app, E, app_nil_r.
    + destruct ph' as [| | |st se tmp n last]; try done. by destruct Hph' as (-> & _).
    + destruct ph' as [| | |st se tmp n last]; rewrite ?app_nil_r; try done.
      destruct Hph' as (-> & _). split; [apply Hl|]. rewrite fmap_app, gops_app, length_app. lia.
  - intros _ mark base (x & ci & mi & cc & mc & [L1 L2 L3 L4 L5 L6 L7 L8 L9 L10]).
    exists x, ci, mi, cc, mc. unfold written, last_number in *. cbn [sys_db sys_phase arrived answers] in *.
    rewrite Hold, app_nil_r in L5. rewrite Holdn in L6.
    split; try done; unfold written, last_number; cbn [sys_db sys_phase answers].
    + destruct L4 as [L4|L4]; [by left|]. assert (bg_error_ d ≠ OK) as Hbg by (by destruct ph).
      destruct ph' as [| | |st se tmp n last]; [by right..|done|]. right. split; [by apply Hph'|by right].
    + etrans; [exact L5|]. rewrite fmap_app. by apply sublist_inserts_r.
    + destruct ph' as [| | |st se tmp n last]; try done. by destruct Hph' as (-> & _).
Qed.

Lemma room_break d o allow_delay force st :
  room_decide o allow_delay force = RoomBreak st → room_sees d o → bg_error_ d ≠ OK → st ≠ OK.
Proof.
  intros E [Hbg _] Hne. unfold room_decide in E. rewrite Hbg in E.
  destruct (ok (bg_error_ d)) eqn:Eo; [by apply ok_true in Eo|]. cbn in E. congruence.
Qed.

Lemma room_switch d o allow_delay force :
  room_decide o allow_delay force = RoomSwitch → room_sees d o → bg_error_ d = OK ∧ imm_ d = None.
Proof.
  intros E [Hbg Hi]. unfold room_decide in E. rewrite Hbg, Hi in E.
  destruct (ok (bg_error_ d)) eqn:Eo; [apply ok_true in Eo|done]. cbn in E. split; [done|].
  destruct (imm_ d); [exfalso|done]. repeat case_match; done.
Qed.

(** The switch to a new memtable and log. *)
Lemma switch_ok d ws ans ad ad' fo fo' number file type_crc lf li lm :
  sys_ok (MkSys d (MakingRoom ad fo) ws ans) lf li lm → bg_error_ d = OK → imm_ d = None →
  logfile_number_ d < number → writable file → contents file = [] → length type_crc = 5%nat →
  ∃ d', switch_memtable d number file type_crc = Some d' ∧
    keeps_ok (MkSys d (MakingRoom ad fo) ws ans) lf li lm (MkSys d' (MakingRoom ad' fo') ws ans) lf lm [].
Proof.
  intros [[D1 D2 D3 D4 D5 D6 D7 Dl D8 D9] Ha Hp Hw Hn Hl] Hbg Himm Hnum Hf Hc Hlen. unfold switch_memtable.
  destruct (new_Writer_ok type_crc file Hlen Hf) as (lw & -> & Hlw & Dw & Ow). simpl_bind. eexists. split; [reflexivity|].
  cbn [sys_db sys_phase arrived answers phase_ok] in *. unfold written, last_number in *. cbn [sys_phase sys_db] in *.
  rewrite Himm in D3. cbn [option_list] in D3.
  assert (li = []) as ->. { destruct D3 as (ls & -> & Hls). apply Forall2_nil_inv_l in Hls as ->. done. }
  cbn [app] in *. rewrite app_nil_r in D7.
  split.
  - split; try done; unfold written, last_number; cbn [sys_db sys_phase answers arrived]; rewrite ?(app_nil_r lm); try done.
    split; cbn; rewrite ?(app_nil_r lm); try done.
    + exact holds_new.
    + by apply tables_hold_one.
    + intros sq Hsq. destruct (D8 sq Hsq) as [HS _]. rewrite Himm in HS. by destruct HS.
  - intros _ mark base (x & ci & mi & cc & mc & [L1 L2 L3 L4 L5 L6 L7 L8 L9 L10]).
    unfold written, last_number in *. cbn [sys_db sys_phase arrived answers] in *.
    destruct L4 as [->|L4]; [|done]. cbn [app] in L5, L6. rewrite !app_nil_r in L2, L5, L6.
    assert (ci = [] ∧ mi = []) as [-> ->].
    { destruct (prev_log_ d) as [[??]|]; [|naive_solver]. destruct L7 as [HS _]. rewrite Himm in HS. by destruct HS. }
    exists [], cc, mc, [], []. split; unfold written, last_number; cbn [sys_db sys_phase answers arrived app];
      rewrite ?(app_nil_r lm); try done.
    + by left.
    + cbn. split; [done|]. split; [done|]. by eexists.
    + cbn. exists [], 0, []. rewrite Dw, Ow, Hc, (L9 _ Hnum). split_and!; [done|done|constructor|constructor].
    + cbn. intros n' Hn'. apply L9. lia.
    + intros j j'. specialize (L10 0%nat j). cbn [app take] in L10 |- *. rewrite take_nil, app_nil_r. exact L10.
Qed.

(** The front writer without the lock. *)
Lemma log_ok d ws ans sync updates tmp n last d' status se lf li lm :
  sys_ok (MkSys d (Grouped updates tmp n last) ws ans) lf li lm → arrivals_ok ws →
  write_log d sync updates = Some (d', status, se) →
  ∃ lm', keeps_ok (MkSys d (Grouped updates tmp n last) ws ans) lf li lm
                  (MkSys d' (Written status se tmp n last) ws ans) lf li lm'.
Proof.
  intros Hs Harr E. destruct (db_room _ _ _ _ Hs Harr eq_refl) as (Hseq0 & _ & Hmax).
  pose proof Hs as [Hd Ha (Hn & Hupd & Hu & Hc & _ & Hlast) Hw Hnum Hl].
  cbn [sys_db sys_phase] in Hupd, Hlast. subst updates last. unfold written, last_number in *.
  cbn [sys_db sys_phase arrived answers] in *. rewrite app_nil_r in Hw, Hl.
  set (g := take n (writers_ d)) in *.
  pose proof (gops_sublist _ _ (sublist_take (writers_ d) n)) as Hg. fold g in Hg.
  destruct (write_log_ok d lf li lm sync g Hd Hnum Hseq0 Hu Hc) as (lw & m & st & se' & E' & Hlw & Hm & Hse & Hrel); [lia|].
  rewrite E in E'. injection E' as -> -> ->. set (p := (last_sequence_ d + 1, batch_writers g)) in *.
  set (top := last_sequence_ d + Z.of_nat (length (gops g)) + 1).
  assert (Hnum' : ∀ l, numbered 1 (last_sequence_ d + 1) l → numbered 1 top (l ++ [p])).
  { intros l Hl1. apply numbered_app. exists (last_sequence_ d + 1). split; [done|].
    unfold p. cbn [numbered fst snd]. rewrite gops_batch_writers. unfold top. lia. }
  assert (Hnum0 : ∀ l, numbered 1 (last_sequence_ d + 1) l → numbered 1 top l).
  { intros l Hl1. eapply numbered_mono; [| |exact Hl1]; unfold top; lia. }
  assert (Hgs : groups_ok (lf ++ li ++ lm ++ [p]) ∧ groups_ok [p]).
  { assert (groups_ok [p]) by (apply Forall_singleton; unfold p; cbn [fst snd]; by rewrite gops_batch_writers). split; [|done].
    rewrite !app_assoc. apply Forall_app. split; [|done]. rewrite <-!app_assoc. apply Hd. }
  exists (if ok st then lm ++ [p] else lm). split.
  - split; unfold written, last_number; cbn [sys_db sys_phase arrived answers]; [|done| | | |].
    + destruct Hd as [D1 D2 D3 D4 D5 D6 D7 Dl D8 D9]. split; try done. destruct (ok st); [apply Hgs|done].
    + cbn [phase_ok writers_ last_sequence_]. split; [done|]. split; [done|lia].
    + cbn [writers_]. rewrite ok_writers_app, ok_writers_all. destruct (ok st); [|by rewrite app_nil_r].
      rewrite !app_assoc, group_writers_app, <-!app_assoc, Hw. unfold group_writers. cbn. by rewrite app_nil_r.
    + destruct (ok st); [rewrite !app_assoc; apply Hnum'; by rewrite <-!app_assoc|by apply Hnum0].
    + cbn [writers_]. rewrite fmap_app, fst_answers, gops_app, length_app. fold g. cbn [last_sequence_]. lia.
  - intros HR mark base (x & ci & mi & cc & mc & [L1 L2 L3 L4 L5 L6 L7 L8 L9 L10]).
    destruct (Hrel HR) as [Hst (out & Cout & Lout)]. unfold written, last_number in *.
    cbn [sys_db sys_phase arrived answers] in *. destruct L4 as [->|[]]. rewrite app_nil_r in L2, L5, L6.
    exists (if ok st then [] else [p]), ci, mi, cc, (mc ++ [p]).
    assert (Hall : (if ok st then lm ++ [p] else lm) ++ (if ok st then [] else [p]) = lm ++ [p])
      by (destruct (ok st); by rewrite ?app_nil_r).
    split; unfold written, last_number; cbn [sys_db sys_phase arrived answers]; rewrite ?Hall; try done.
    + by rewrite L2, app_assoc.
    + destruct (ok st); [constructor|apply Hgs].
    + destruct (ok st) eqn:Eo; [by left|]. right. assert (st ≠ OK) by (intros ->; done). split; [done|left; by apply Hst].
    + rewrite !app_assoc, group_writers_app, <-!app_assoc, fmap_app. cbn [writers_]. rewrite fst_answers.
      apply sublist_app; [by rewrite app_nil_r in L5|]. unfold group_writers. cbn. rewrite app_nil_r.
      apply sublist_filter.
    + rewrite !app_assoc. apply Hnum'. by rewrite <-!app_assoc.
    + destruct L8 as (out1 & off1 & out0 & C & Hk & Lg1 & Lg2). exists out1, off1, (out0 ++ out). cbn.
      rewrite Cout, C, <-app_assoc, group_records_app. split_and!; try done. by eapply log_of_app.
    + intros j j'. etrans; [exact (L10 j j')|]. rewrite take_app, !app_assoc. by eexists.
Qed.

(** With the lock again. *)
Lemma finish_ok d ws ans status se tmp n last lf li lm :
  sys_ok (MkSys d (Written status se tmp n last) ws ans) lf li lm →
  keeps_ok (MkSys d (Written status se tmp n last) ws ans) lf li lm
    (MkSys (write_finish d status se tmp n last) Idle ws
       (ans ++ ((λ w, (w, status)) <$> take n (writers_ d)))) lf li lm.
Proof.
  intros [Hd Ha (Hn & Hse & Hle) Hw Hnum Hl]. unfold written, last_number in *. cbn [sys_db sys_phase arrived answers] in *.
  set (d1 := if se then RecordBackgroundError d status else d).
  assert (Hd1 : d1 = set_error d (bg_error_ d1)).
  { unfold d1, RecordBackgroundError. destruct se; [destruct (ok (bg_error_ d)); [done|]|]; by destruct d. }
  assert (Hfin : write_finish d status se tmp n last =
    MkDb (drop n (writers_ d)) (logfile_number_ d) (log_ d) (mem_ d) (imm_ d) (prev_log_ d) last (bg_error_ d1)
      (if tmp then Clear else tmp_batch_ d) (flushed_ d) (saved_sequence_ d) (edit_sequence_ d)).
  { unfold write_finish. fold d1. by rewrite Hd1. }
  rewrite Hfin. split.
  - split; unfold written, last_number; cbn [sys_db sys_phase arrived answers]; rewrite ?app_nil_r; try done.
    + destruct Hd as [D1 D2 D3 D4 D5 D6 D7 Dl D8 D9]. split; cbn; try done.
      * eapply numbered_mono; [| |exact D7]; lia.
      * lia.
      * intros sq Hsq. destruct (D8 sq Hsq) as (? & ? & ?). split; [done|]. split; [done|lia].
      * by destruct tmp.
    + cbn [writers_]. rewrite fmap_app, fst_answers, <-app_assoc, take_drop. done.
    + cbn [last_sequence_]. lia.
  - intros _ mark base (x & ci & mi & cc & mc & [L1 L2 L3 L4 L5 L6 L7 L8 L9 L10]).
    unfold written, last_number in *. cbn [sys_db sys_phase arrived answers] in *.
    exists x, ci, mi, cc, mc. split; unfold written, last_number; cbn [sys_db sys_phase arrived answers]; rewrite ?app_nil_r; try done.
    destruct L4 as [L4|[Hst Hor]]; [by left|right]. cbn. unfold d1, RecordBackgroundError.
    destruct se; [|by destruct Hor]. destruct (ok (bg_error_ d)) eqn:Eo; [done|]. by intros Hbg; rewrite Hbg in Eo.
Qed.

(** An error is recorded. *)
Lemma error_ok d ph ws ans e lf li lm :
  sys_ok (MkSys d ph ws ans) lf li lm → e ≠ OK →
  keeps_ok (MkSys d ph ws ans) lf li lm (MkSys (RecordBackgroundError d e) ph ws ans) lf li lm.
Proof.
  intros Hs He. unfold RecordBackgroundError. destruct (ok (bg_error_ d)) eqn:Eo; cycle 1.
  { split; [done|]. by intros _ mark base. }
  apply ok_true in Eo. destruct Hs as [Hd Ha Hp Hw Hnum Hl]. split.
  - split; try done. by destruct Hd; split.
  - intros _ mark base (x & ci & mi & cc & mc & [L1 L2 L3 L4 L5 L6 L7 L8 L9 L10]).
    exists x, ci, mi, cc, mc. split; try done. cbn [sys_db sys_phase set_error bg_error_] in *.
    destruct L4 as [L4|L4]; [by left|right]. destruct ph; try done. split; [apply L4|by right].
Qed.

(** The waiting memtable becomes a table, and its log is no longer needed. *)
Lemma flush_ok d ph ws ans status d' lf li lm :
  sys_ok (MkSys d ph ws ans) lf li lm → CompactMemTable d status = Some d' →
  ∃ lf' li', keeps_ok (MkSys d ph ws ans) lf li lm (MkSys d' ph ws ans) lf' li' lm.
Proof.
  intros Hs E. unfold CompactMemTable in E. destruct (imm_ d) as [m|] eqn:Hi; [|done]. simpl_bind in E.
  destruct (ok status) eqn:Eo; cycle 1.
  { injection E as <-. exists lf, li. apply error_ok; [done|]. by intros ->. }
  destruct (edit_sequence_ d) as [sq|] eqn:Hsq; [|done]. simpl_bind in E.
  injection E as <-. destruct Hs as [[D1 D2 D3 D4 D5 D6 D7 Dl D8 D9] Ha Hp Hw Hnum Hl].
  cbn [sys_db sys_phase arrived answers] in *. exists (lf ++ li), []. split.
  - split; try done; rewrite <-?app_assoc; try done. split; cbn; rewrite <-?app_assoc; try done.
    + exact tables_hold_nil.
    + rewrite Hi in D3. by apply tables_hold_app.
    + by apply D8.
    + by rewrite app_nil_r.
    + by apply D8.
  - intros _ mark base (x & ci & mi & cc & mc & [L1 L2 L3 L4 L5 L6 L7 L8 L9 L10]).
    exists x, [], [], cc, mc. split; rewrite <-?app_assoc; try done. cbn [sys_db sys_phase] in *.
    intros j j'. specialize (L10 (length mi) j'). rewrite firstn_all in L10. cbn [app]. rewrite take_nil.
    rewrite L1, <-!app_assoc. exact L10.
Qed.

(** The edit takes the last sequence number. *)
Lemma apply_ok d ph ws ans d' lf li lm :
  sys_ok (MkSys d ph ws ans) lf li lm → apply_edit d = Some d' →
  keeps_ok (MkSys d ph ws ans) lf li lm (MkSys d' ph ws ans) lf li lm.
Proof.
  intros Hs E. unfold apply_edit in E. destruct (imm_ d) as [m|] eqn:Hi; [|done]. simpl_bind in E. injection E as <-.
  destruct Hs as [Hd Ha Hp Hw Hnum Hl]. split.
  - split; try done. destruct Hd as [D1 D2 D3 D4 D5 D6 D7 Dl D8 D9]. cbn [sys_db] in *. rewrite Hi in D3. split; try done.
    intros sq [= <-]. split; [done|]. by split.
  - intros _ mark base (x & ci & mi & cc & mc & [L1 L2 L3 L4 L5 L6 L7 L8 L9 L10]).
    exists x, ci, mi, cc, mc. split; try done. cbn [sys_db prev_log_ imm_ logfile_number_] in *. by rewrite Hi in L7.
Qed.

(** *** Steps *)

Lemma room_ok d ws ans o new_log ad fo d' ph lf li lm :
  sys_ok (MkSys d (MakingRoom ad fo) ws ans) lf li lm → arrivals_ok ws → room_sees d o →
  match new_log with
  | inl s => s ≠ OK
  | inr (number, file, type_crc) =>
      logfile_number_ d < number ∧ writable file ∧ contents file = [] ∧ length type_crc = 5%nat
  end →
  room_turn d o new_log ad fo = Some (d', ph) →
  ∃ lf' li' lm', keeps_ok (MkSys d (MakingRoom ad fo) ws ans) lf li lm (MkSys d' ph ws ans) lf' li' lm'.
Proof.
  intros Hs Harr Hsees Hnew E. unfold room_turn in E.
  destruct (db_room _ _ _ _ Hs Harr eq_refl) as (Hseq0 & Hqs & Hmax). pose proof (so_phase _ _ _ _ Hs) as Hne.
  cbn [sys_db sys_phase phase_ok] in *.
  assert (Hbegin : ∀ st ph', (bg_error_ d ≠ OK → st ≠ OK) → write_begin d st = Some ph' →
    keeps_ok (MkSys d (MakingRoom ad fo) ws ans) lf li lm (MkSys d ph' ws ans) lf li lm).
  { intros st ph' Hst Eb.
    destruct (write_begin_ok d st (do_tmp _ _ _ _ (so_db _ _ _ _ Hs)) Hne Hqs Hseq0 Hmax) as (ph1 & E1 & Hok & Hph).
    rewrite Eb in E1. injection E1 as <-. apply phase_keeps; [done|done| |done].
    destruct ph' as [| |u tmp n last|st' se tmp n last]; try done.
    - subst st. destruct (decide (bg_error_ d = OK)); [done|]. by destruct (Hst n0).
    - destruct Hph as (_ & -> & -> & ?). by split_and!. }
  destruct (room_decide o ad fo) as [st| | |] eqn:Er.
  - destruct (write_begin d st) as [ph1|] eqn:Eb; [|done]. simpl_bind in E. injection E as <- <-.
    exists lf, li, lm. apply (Hbegin st); [|done]. by eapply room_break.
  - injection E as <- <-. exists lf, li, lm. by apply phase_keeps.
  - injection E as <- <-. exists lf, li, lm. by apply phase_keeps.
  - destruct (room_switch d o ad fo Er Hsees) as [Hbg Himm]. destruct new_log as [st|[[number file] tc]].
    + destruct (write_begin d st) as [ph1|] eqn:Eb; [|done]. simpl_bind in E. injection E as <- <-.
      exists lf, li, lm. by apply (Hbegin st).
    + destruct Hnew as (Hnum & Hf & Hc & Hl).
      destruct (switch_ok d ws ans ad ad fo false number file tc lf li lm Hs Hbg Himm Hnum Hf Hc Hl) as (d1 & Esw & Hk).
      rewrite Esw in E. simpl_bind in E. injection E as <- <-. by exists lf, lm, [].
Qed.

Lemma db_step_ok s s' lf li lm :
  db_step s s' → sys_ok s lf li lm → arrivals_ok (arrived s) →
  ∃ lf' li' lm', keeps_ok s lf li lm s' lf' li' lm'.
Proof.
  destruct 1 as [d ph ws ans w|d ws ans w q force Hq Hf|d ws ans o new_log ad fo d' ph Hsees Hnew E
    |d ws ans w q updates tmp n last d' status se Hq E|d ws ans status se tmp n last
    |d ph ws ans d' E|d ph ws ans status d' E|d ph ws ans e He]; intros Hs Harr; cbn [arrived] in Harr.
  - exists lf, li, lm. by apply join_ok.
  - exists lf, li, lm. apply phase_keeps; [done|done|done|]. cbn. by rewrite Hq.
  - by eapply room_ok.
  - destruct (log_ok _ _ _ _ _ _ _ _ _ _ _ _ _ _ Hs Harr E) as [lm' Hk]. by exists lf, li, lm'.
  - exists lf, li, lm. by apply finish_ok.
  - exists lf, li, lm. by eapply apply_ok.
  - destruct (flush_ok _ _ _ _ _ _ _ _ _ Hs E) as (lf' & li' & Hk). by exists lf', li', lm.
  - exists lf, li, lm. by apply error_ok.
Qed.

Lemma arrived_step s s' : db_step s s' → arrived s `prefix_of` arrived s'.
Proof. destruct 1; cbn; [by apply prefix_app_r|done..]. Qed.

Lemma arrivals_ok_prefix ws ws' : ws `prefix_of` ws' → arrivals_ok ws' → arrivals_ok ws.
Proof.
  intros [k ->] [Hq Hm]. apply Forall_app in Hq as [Hq _]. split; [done|].
  rewrite gops_app, length_app in Hm. lia.
Qed.

Lemma arrived_steps s s' : rtc db_step s s' → arrived s `prefix_of` arrived s'.
Proof. induction 1; [done|]. etrans; [by apply arrived_step|done]. Qed.

Lemma db_steps_ok s s' lf li lm :
  rtc db_step s s' → sys_ok s lf li lm → arrivals_ok (arrived s') →
  ∃ lf' li' lm', keeps_ok s lf li lm s' lf' li' lm'.
Proof.
  intros Hr. revert lf li lm. induction Hr as [s|s s1 s' Hs Hr IH]; intros lf li lm Hok Ha.
  { exists lf, li, lm. split; [done|]. by intros _ mark base. }
  destruct (db_step_ok s s1 lf li lm Hs Hok) as (lf1 & li1 & lm1 & Hok1 & Hl1).
  { eapply arrivals_ok_prefix; [|done]. etrans; [by apply arrived_step|by apply arrived_steps]. }
  destruct (IH lf1 li1 lm1 Hok1 Ha) as (lf2 & li2 & lm2 & Hok2 & Hl2). exists lf2, li2, lm2. split; [done|].
  intros HR mark base Hlogs. by apply Hl2, Hl1.
Qed.

(** A database with an empty log and nothing in its queue. *)
Definition new_sys (number : Z) (w0 : Log.Writer W) : Sys W :=
  MkSys (MkDb [] number w0 NewMemTable None None 0 OK Clear [] 0 None) Idle [] [].

Lemma new_sys_ok number mem f w0 :
  writable f → contents f = [] → length mem = 5%nat → new_Writer mem f = Some w0 →
  sys_ok (new_sys number w0) [] [] [] ∧ logs (λ _, 0%nat) [] (new_sys number w0) [] [] [].
Proof.
  intros Hf Hc Hm E. destruct (new_Writer_ok mem f Hm Hf) as (w & E' & Hw & D & O).
  rewrite E in E'. injection E' as ->. split.
  - split; try done. split; try done; cbn.
    + exact holds_new.
    + exact tables_hold_nil.
    + exact tables_hold_nil.
    + constructor.
  - exists [], [], [], [], []. split; try done; cbn.
    + constructor.
    + by left.
    + exists [], 0, []. rewrite D, Hc, O. split_and!; [done|done|constructor|constructor].
    + intros j j'. by rewrite !take_nil.
Qed.

End db.
