(* ===== verification/DbTheorems.v ===== *)
(** What the write path and recovery promise: writes take effect in the order
    in which they arrive, and survive a crash. *)

From Stdlib Require Import ZArith Lia String.
From stdpp Require Import base option numbers list strings sorting gmap.
From S2P Require Import Prelude Coding Slice WriteBatch DbFormat SkipList SkipListSpec.
From S2P Require Import SkipListRefine MemTable KvStore Crc32c Env Log LogSpec MemEnv LogTheorems.
From S2P Require Import DbWrite.

Local Open Scope Z_scope.

#[local] Existing Instance BytewiseComparator.

(** The lists of a state of a database, the newest first. *)
Definition memtables `{WritableFile W} `{Crc32c} `{Port} (d : Db W) : list (MemTable (T := memtable_table)) :=
  mem_ d :: option_list (imm_ d) ++ reverse (flushed_ d).

(** What [NewWritableFile] may give: an error, or an empty file with a number
    that has not been used. *)
Definition new_log_ok `{WritableFileLaws W} `{Crc32c} `{Port} (d : Db W) (new_log : Status + Z * W * list Z) : Prop :=
  match new_log with
  | inl s => s ≠ OK
  | inr (number, file, type_crc) =>
      logfile_number_ d < number ∧ writable file ∧ contents file = [] ∧ length type_crc = 5%nat
  end.

Section lookups.
Context `{WritableFileLaws W} `{Crc : Crc32cLaws} `{Port}.

(** The memtables and tables of a reachable state answer from the updates of
    the writers told [OK]. *)
Lemma sys_lookups (s : Sys W) lf li lm k sq :
  sys_ok s lf li lm → key_ok k → seq_ok sq →
  ∃ lk, NewLookupKey k sq = Some lk ∧ get_first (memtables (sys_db s)) lk =
    Some (answer (replay ((filter (λ p, p.1 ≤ sq) (numbered_ops (lf ++ li ++ lm))).*2) !! k)).
Proof.
  intros Hs Hk Hsq. pose proof (so_db _ _ _ _ Hs) as Hd. pose proof (so_numbers _ _ _ _ Hs) as Hn.
  assert (Ht : tables_hold (flushed_ (sys_db s) ++ option_list (imm_ (sys_db s)) ++ [mem_ (sys_db s)]) (lf ++ li ++ lm)).
  { apply tables_hold_app; [apply Hd|]. apply tables_hold_app; [apply Hd|]. apply tables_hold_one, Hd. }
  destruct (get_first_ok _ _ _ _ k sq Ht Hn Hk Hsq) as (lk & r & Hlk & Hget & Hok). exists lk. split; [done|].
  assert (memtables (sys_db s) = reverse (flushed_ (sys_db s) ++ option_list (imm_ (sys_db s)) ++ [mem_ (sys_db s)])) as ->.
  { unfold memtables. rewrite !reverse_app, <-app_assoc. cbn [reverse rev_append app]. by destruct (imm_ (sys_db s)). }
  rewrite Hget. f_equal. eapply get_ok_replay; [|by eapply numbered_sorted|exact Hok]. by rewrite group_entries_ops.
Qed.

(** An iteration of [MakeRoomForWrite] returns. *)
Lemma room_turn_total (s : Sys W) lf li lm o new_log allow_delay force :
  sys_ok s lf li lm → arrivals_ok (arrived s) → sys_phase s = MakingRoom allow_delay force →
  new_log_ok (sys_db s) new_log → is_Some (room_turn (sys_db s) o new_log allow_delay force).
Proof.
  intros Hs Ha Eph Hnew. assert (Hwr : written s = []) by (unfold written; by rewrite Eph).
  destruct (db_room _ _ _ _ Hs Ha Hwr) as (H0' & Hqs & Hmax). pose proof (so_phase _ _ _ _ Hs) as Hne.
  rewrite Eph in Hne. cbn [phase_ok] in Hne.
  assert (Hb : ∀ st, is_Some (write_begin (sys_db s) st)).
  { intros st. destruct (write_begin_ok (sys_db s) st (do_tmp _ _ _ _ (so_db _ _ _ _ Hs)) Hne Hqs H0' Hmax) as (ph & -> & _).
    done. }
  unfold room_turn. destruct (room_decide o allow_delay force) as [st| | |]; [|done..|].
  - by destruct (Hb st) as [ph ->].
  - destruct new_log as [st|[[number file] tc]]; [by destruct (Hb st) as [ph ->]|].
    destruct Hnew as (_ & Hf & Hc & Hl). unfold switch_memtable.
    destruct (new_Writer_ok tc file Hl Hf) as (lw & -> & _). done.
Qed.
End lookups.

(** C14. Group commit keeps the order of the writers.  Clients join the queue at
    any time, also while the writer at its front waits for room or is without
    the lock; the front writer makes room, switching to a new memtable and log
    when the memtable is full, builds a group, logs it, inserts it and answers
    for it; the background thread writes the full memtable to a table, or
    records an error.  The calls of the log files and of [NewWritableFile] may
    fail.  In every reachable state the calls that have returned are the first
    that arrived, in their order, and what the front writer does next returns;
    a synchronous write is not left to a writer that does not sync.  The
    updates of the writers told OK, and of the group about to be told, have
    growing sequence numbers, in their order, up to the last one given out; and
    a lookup at any sequence number, in the memtable, then in the full one,
    then in those written to tables (what reading a table gives is C15),
    answers from the map obtained by replaying those of them that are not
    newer.  Room for 2^56 - 1 sequence numbers is assumed. *)
Theorem db_writes_in_order `{WritableFileLaws W} `{Crc32cLaws} `{Port}
    (number : Z) (f : W) (mem : list Z) (w0 : Log.Writer W) (s : Sys W) :
  writable f → contents f = [] → length mem = 5%nat → new_Writer mem f = Some w0 →
  rtc db_step (new_sys number w0) s → arrivals_ok (arrived s) →
  arrived s = (answers s).*1 ++ writers_ (sys_db s) ∧
  (∃ no : list (Z * batch_op),
     no.*2 = gops (ok_writers (answers s ++ written s)) ∧
     StronglySorted (λ a b, a.1 < b.1) no ∧ Forall (λ p, 1 ≤ p.1 ≤ last_number s) no ∧
     ∀ k sq, key_ok k → seq_ok sq → ∃ lk, NewLookupKey k sq = Some lk ∧
       get_first (memtables (sys_db s)) lk = Some (answer (replay ((filter (λ p, p.1 ≤ sq) no).*2) !! k))) ∧
  match sys_phase s with
  | Idle => True
  | MakingRoom allow_delay force =>
      ∀ o new_log, new_log_ok (sys_db s) new_log → is_Some (room_turn (sys_db s) o new_log allow_delay force)
  | Grouped updates _ n _ =>
      (∀ sync, is_Some (write_log (sys_db s) sync updates)) ∧
      (∀ w w1, head (writers_ (sys_db s)) = Some w → w1 ∈ take n (writers_ (sys_db s)) →
         w_sync w1 = true → w_sync w = true)
  | Written _ _ _ n _ => (1 ≤ n ≤ length (writers_ (sys_db s)))%nat
  end.
Proof.
  intros Hf Hc Hm Ew Hr Ha. destruct (new_sys_ok number mem f w0 Hf Hc Hm Ew) as [H0' _].
  destruct (db_steps_ok _ s _ _ _ Hr H0' Ha) as (lf & li & lm & Hs & _).
  split; [apply Hs|]. split.
  - exists (numbered_ops (lf ++ li ++ lm)). pose proof (so_numbers _ _ _ _ Hs) as Hn. split_and!.
    + by rewrite numbered_ops_snd, (so_writers _ _ _ _ Hs).
    + by eapply numbered_sorted.
    + apply Forall_forall. intros p Hp. pose proof (numbered_ops_range _ _ _ _ Hn Hp). lia.
    + intros k sq Hk Hsq. by apply sys_lookups.
  - destruct (sys_phase s) as [|ad fo|u tmp n last|st se tmp n last] eqn:Eph; [done|..].
    + intros o new_log Hnew. by eapply room_turn_total.
    + pose proof (so_phase _ _ _ _ Hs) as Hph. rewrite Eph in Hph. destruct Hph as (Hn & -> & Hu & Hcnt & Hsy & _).
      assert (Hwr : written s = []) by (unfold written; by rewrite Eph).
      destruct (db_room _ _ _ _ Hs Ha Hwr) as (Hseq & _ & Hmax).
      pose proof (gops_sublist _ _ (sublist_take (writers_ (sys_db s)) n)) as Hg.
      pose proof (so_numbers _ _ _ _ Hs) as Hnum. unfold last_number in Hnum. rewrite Eph in Hnum. split.
      * intros sync.
        destruct (write_log_ok (sys_db s) lf li lm sync _ (so_db _ _ _ _ Hs) Hnum Hseq Hu Hcnt) as (lw & m & st & se & -> & _);
          [lia|done].
      * intros w w1 Hw Hin Hs1. rewrite Forall_forall in Hsy. by eapply Hsy.
    + pose proof (so_phase _ _ _ _ Hs) as Hph. rewrite Eph in Hph. apply Hph.
Qed.


(** ** Recovery *)

Section recovery.
Context `{SequentialFileLaws R} `{Crc : Crc32cLaws} `{Port}.
Context (paranoid : bool) (buffer : Z) (reuse : bool).
Context (usage : MemTable (T := memtable_table) → Z).
Context (WriteLevel0Table : MemTable (T := memtable_table) → Status).
Implicit Types (l : list (Z * list QWriter)) (v : recovery).

Abbreviation recover_record := (recover_record paranoid buffer usage WriteLevel0Table).
Abbreviation recover_loop := (recover_loop paranoid buffer usage WriteLevel0Table).
Abbreviation RecoverLogFile := (RecoverLogFile paranoid buffer reuse usage WriteLevel0Table).
Abbreviation recover_logs := (recover_logs paranoid buffer reuse usage WriteLevel0Table).

(** The numbers of the groups are not above [max]. *)
Definition within (max : Z) l : Prop := Forall (λ p, p.1 + Z.of_nat (length (gops p.2)) ≤ max + 1) l.

Lemma within_mono max max' l : max ≤ max' → within max l → within max' l.
Proof. intros Hle Hl. eapply Forall_impl; [exact Hl|]. cbn. lia. Qed.

(** The groups [l] have been read; their numbers are below [hi]. *)
Definition recovered (max0 hi : Z) v l : Prop :=
  rec_status v = OK ∧ max0 ≤ max_sequence v < hi ∧ within (max_sequence v) l ∧
  ∃ lt lm, l = lt ++ lm ∧ tables_hold (flushed v) lt ∧ holds (default NewMemTable (rec_mem v)) lm ∧
    (rec_mem v = None → lm = []).

(** A memtable could not be written to a table. *)
Definition table_failed (s : Status) (tables : list (MemTable (T := memtable_table))) : Prop :=
  s ≠ OK ∧ ∃ t, t ∈ tables ∧ WriteLevel0Table t = s.

Lemma table_status (s : Status) t tables : WriteLevel0Table t = s → t ∈ tables → s = OK ∨ table_failed s tables.
Proof. intros E Ht. destruct (decide (s = OK)); [by left|]. right. split; [done|]. by exists t. Qed.

Lemma recover_record_ok max0 hi v l p :
  recovered max0 hi v l → groups_ok [p] → numbered 1 hi (l ++ [p]) → hi ≤ kMaxSequenceNumber + 1 →
  ∃ v' more, recover_record v (rep_of p.1 (gops p.2)) = Some (v', more) ∧
    if (more : bool) then recovered max0 hi v' (l ++ [p]) else table_failed (rec_status v') (flushed v').
Proof.
  intros (Hst & Hmax & Hin & lt & lm & -> & Ht & Hm & _) [Hu Hc]%Forall_singleton Hnum Hhi.
  rewrite <-app_assoc in Hnum. apply numbered_app in Hnum as (mid & Hold & Hnum).
  apply numbered_app in Hnum as (top & Hnew & Hp). cbn [numbered] in Hp.
  pose proof (numbered_le _ _ _ Hold). pose proof (numbered_le _ _ _ Hnew).
  unfold DbWrite.recover_record. pose proof (length_rep_of p.1 (gops p.2)) as Hlen. unfold kHeader in Hlen.
  rewrite (proj2 (Z.ltb_ge _ _)) by lia. unfold SetContents.
  rewrite (proj2 (Nat.leb_le _ _)) by (unfold kHeader; lia). simpl_bind.
  destruct (holds_below _ lm mid p.1 Hm) as (es & Hes & Hperm & Hb); [by eapply numbered_mono; [| |exact Hnew]; lia|].
  destruct (InsertInto_rep p.1 (gops p.2) _ es Hes Hb Hu Hc) as (m' & es' & -> & Hm' & Hp' & _); [lia..|].
  simpl_bind. unfold MaybeIgnoreError. cbn [ok orb negb].
  unfold kMaxSequenceNumber in Hhi. change (Z.shiftl 1 56 - 1) with 72057594037927935 in Hhi.
  rewrite Sequence_rep_of by (unfold in_width; change (2 ^ 64) with 18446744073709551616; lia || by apply updates_ok).
  simpl_bind. rewrite Count_rep_of by (done || by apply updates_ok). simpl_bind. cbv zeta.
  assert (Hlast : u64 (p.1 + Z.of_nat (length (gops p.2)) - 1) = p.1 + Z.of_nat (length (gops p.2)) - 1).
  { apply wrap_small. unfold in_width. change (2 ^ 64) with 18446744073709551616. lia. }
  rewrite Hlast. set (mx := if max_sequence v <? _ then _ else _).
  assert (Hmx : max_sequence v ≤ mx < hi ∧ p.1 + Z.of_nat (length (gops p.2)) ≤ mx + 1).
  { unfold mx. destruct (Z.ltb_spec (max_sequence v) (p.1 + Z.of_nat (length (gops p.2)) - 1)); lia. }
  assert (Hw : within mx ((lt ++ lm) ++ [p])).
  { apply Forall_app. split; [eapply within_mono; [|exact Hin]; lia|]. apply Forall_singleton. lia. }
  assert (Hh : holds m' (lm ++ [p])).
  { exists es'. split; [done|]. rewrite Hp', Hperm, group_entries_app. unfold group_entries at 3.
    cbn [mbind list_bind]. by rewrite app_nil_r. }
  destruct (buffer <? usage m').
  - eexists _, _. split; [reflexivity|]. cbn [rec_status flushed].
    destruct (table_status (WriteLevel0Table m') m' (flushed v ++ [m']) eq_refl) as [E|E]; [set_solver| |].
    + rewrite E. cbn [ok]. split; [done|]. split; [cbn; lia|]. split; [exact Hw|].
      exists (lt ++ lm ++ [p]), []. cbn [flushed rec_mem default]. split_and!.
      * by rewrite app_nil_r, app_assoc.
      * apply tables_hold_app; [done|]. by apply tables_hold_one.
      * exact holds_new.
      * done.
    + destruct (ok (WriteLevel0Table m')) eqn:Eo; [|done]. apply ok_true in Eo. by destruct E.
  - eexists _, _. split; [reflexivity|]. split; [done|]. split; [cbn; lia|]. split; [exact Hw|].
    exists lt, (lm ++ [p]). by rewrite app_assoc.
Qed.

Lemma recover_loop_ok n fuel max0 hi r v l l' r' :
  recovered max0 hi v l → reads fuel r (group_records l') r' → groups_ok l' → numbered 1 hi (l ++ l') →
  hi ≤ kMaxSequenceNumber + 1 → (length l' < n)%nat →
  ∃ r' v', recover_loop n fuel r v = Some (r', v') ∧
    (recovered max0 hi v' (l ++ l') ∨ table_failed (rec_status v') (flushed v')).
Proof.
  intros Hv Hr Hg. revert n r v l Hv Hr.
  induction Hg as [|p l' Hp Hg IH]; intros n r v l Hv Hr Hnum Hhi Hn;
    (destruct n as [|n]; [cbn in Hn; lia|]); cbn [group_records fmap list_fmap] in Hr.
  - inversion Hr as [? ? E [Hq _]|]; subst. exists r', v. cbn [DbWrite.recover_loop]. rewrite E. simpl_bind.
    rewrite Hq, drop_all. cbn. rewrite app_nil_r. split; [|by left]. by destruct v.
  - inversion Hr as [|? r1 ? ? ? E [Hq _] Hr']; subst. cbn [DbWrite.recover_loop]. rewrite E. simpl_bind.
    rewrite Hq, drop_all. cbn [fmap list_fmap foldl]. destruct v as [st m mx cp sv fl].
    cbn [rec_status rec_mem max_sequence compactions save_manifest flushed].
    pose proof Hv as (Hst & _). cbn [rec_status] in Hst. subst st. cbn [ok negb].
    rewrite (app_assoc l [p] l' : l ++ p :: l' = _) in Hnum |- *.
    destruct (recover_record_ok max0 hi _ l p Hv) as (v1 & more & -> & Hv1); [by constructor| |done|].
    { eapply numbered_sublist; [|exact Hnum]. by apply sublist_inserts_r. }
    simpl_bind.
    destruct more; [|by eexists _, _; split; [|by right]].
    destruct (IH n r1 v1 (l ++ [p]) Hv1 Hr' Hnum Hhi) as (r2 & v2 & -> & Hv2); [cbn in Hn; lia|]. by exists r2, v2.
Qed.

(** Recovery of a log whose records are the batches of the groups [l]. *)
Lemma RecoverLogFile_ok n fuel g last_log reusable max0 hi l r' :
  reads fuel (new_Reader g true true 0) (group_records l) r' → groups_ok l → numbered 1 hi l → max0 < hi →
  hi ≤ kMaxSequenceNumber + 1 → (length l < n)%nat →
  ∃ s v m, RecoverLogFile n fuel (inr g) last_log reusable max0 = Some (s, v, m) ∧
    (s = OK ∧ max0 ≤ max_sequence v < hi ∧ within (max_sequence v) l ∧ tables_hold (flushed v ++ option_list m) l ∧
       (last_log = false → m = None)
     ∨ table_failed s (flushed v)).
Proof.
  intros Hreads Hg Hnum H0' Hhi Hn.
  destruct (recover_loop_ok n fuel max0 hi (new_Reader g true true 0) (Recovery OK None max0 0 false []) [] l r')
    as (r1 & v & E & Hor); [|done|done|done|done|done|].
  { split; [done|]. split; [cbn; lia|]. split; [constructor|]. exists [], [].
    split_and!; [done|exact tables_hold_nil|exact holds_new|done]. }
  unfold DbWrite.RecoverLogFile. rewrite E. simpl_bind. destruct Hor as [(Hst & [Hmx Hmx'] & Hw & lt & lm & El & Ht & Hm & Hnone)|Hf]; cycle 1.
  { destruct (ok (rec_status v)) eqn:Eo; [by apply ok_true in Eo; destruct Hf|]. cbn [andb].
    destruct (rec_mem v) as [m|]; (eexists _, _, _; split; [reflexivity|by right]). }
  cbn [app] in El. subst l. rewrite Hst. cbn [ok andb].
  assert (Hboth : ∀ m, rec_mem v = Some m ∨ m = default NewMemTable (rec_mem v) →
    tables_hold (flushed v ++ [m]) (lt ++ lm)).
  { intros m Hor. apply tables_hold_app; [done|]. apply tables_hold_one. by destruct Hor as [Em| ->]; [rewrite Em in Hm|]. }
  destruct (reuse && last_log && (compactions v =? 0) && reusable) eqn:Er.
  - eexists _, _, _. split; [reflexivity|]. left. split_and!; [done..| |]; [by apply Hboth; right|].
    intros ->. by rewrite andb_false_r in Er.
  - destruct (rec_mem v) as [m|] eqn:Em.
    + eexists _, _, _. split; [reflexivity|].
      destruct (table_status (WriteLevel0Table m) m (flushed v ++ [m]) eq_refl) as [Es|Es]; [set_solver|left|by right].
      split_and!; [done..| |done]. cbn [flushed option_list]. rewrite app_nil_r. by apply Hboth; left.
    + eexists _, _, _. split; [reflexivity|]. left. split_and!; [done..| |done].
      cbn [option_list]. by rewrite (Hnone eq_refl), !app_nil_r.
Qed.

(** Recovery of several logs. *)
Lemma recover_logs_ok n fuel reusable hi max0 tables gs ls :
  Forall2 (λ g l, (∃ r', reads fuel (new_Reader g true true 0) (group_records l) r') ∧ (length l < n)%nat) gs ls →
  groups_ok (concat ls) → numbered 1 hi (concat ls) → max0 < hi → hi ≤ kMaxSequenceNumber + 1 →
  ∃ s mx new m, recover_logs n fuel (inr <$> gs) reusable max0 tables = Some (s, mx, tables ++ new, m) ∧
    (s = OK ∧ max0 ≤ mx < hi ∧ within mx (concat ls) ∧ tables_hold (new ++ option_list m) (concat ls)
     ∨ table_failed s new).
Proof.
  intros Hall Hg Hnum H0' Hhi. revert max0 tables Hg Hnum H0'.
  induction Hall as [|g l gs ls [(r' & Hreads) Hn] Hall IH]; intros max0 tables Hg Hnum H0'.
  { exists OK, max0, [], None. rewrite app_nil_r. split; [done|]. left. split_and!; [done|lia|lia|constructor|exact tables_hold_nil]. }
  cbn [concat] in Hg, Hnum |- *. apply Forall_app in Hg as [Hg1 Hg2].
  destruct (RecoverLogFile_ok n fuel g (match inr (A := Status) <$> gs with [] => true | _ => false end) reusable max0 hi l r')
    as (s & v & m & E & Hor); [done|done| |done|done|done|].
  { eapply numbered_sublist; [|exact Hnum]. by apply sublist_inserts_r. }
  cbn [fmap list_fmap DbWrite.recover_logs]. rewrite E. simpl_bind. cbv zeta.
  destruct Hor as [(-> & [Hmx Hmxh] & Hw & Ht & Hlast)|Hf]; cycle 1.
  { destruct (ok s) eqn:Eo; [by apply ok_true in Eo; destruct Hf|]. cbn [negb].
    eexists _, _, _, _. split; [reflexivity|by right]. }
  cbn [ok negb]. destruct Hall as [|g1 l1 gs ls Hg1' Hall].
  - cbn [fmap list_fmap concat] in *. eexists _, _, _, _. split; [reflexivity|]. left. rewrite app_nil_r. by split_and!.
  - cbn [fmap list_fmap] in *. rewrite (Hlast eq_refl) in Ht. cbn [option_list] in Ht. rewrite app_nil_r in Ht.
    destruct (IH (max_sequence v) (tables ++ flushed v) Hg2) as (s & mx & new & m' & -> & Hor).
    { eapply numbered_sublist; [|exact Hnum]. by apply sublist_inserts_l. }
    { lia. }
    exists s, mx, (flushed v ++ new), m'. rewrite app_assoc. split; [done|].
    destruct Hor as [(-> & [Hmx' Hmxh'] & Hw' & Ht')|(Hs & t & Hin & Et)].
    + left. split_and!; [done|lia|lia| |].
      * apply Forall_app. split; [|done]. by eapply within_mono.
      * rewrite <-app_assoc. by apply tables_hold_app.
    + right. split; [done|]. exists t. set_solver.
Qed.
End recovery.

(** ** Crashes *)

Section crash.
Context `{WritableFileLaws W} `{SequentialFileLaws R} `{Crc : Crc32cLaws} `{Port}.
Implicit Types (d : Db W) (s : Sys W) (lf li lm l : list (Z * list QWriter)).

(** The logs that recovery reads, in the order of their numbers: that of the
    memtable that waits, and the current one. *)
Definition db_logs d : list (Z * W) := option_list (prev_log_ d) ++ [(logfile_number_ d, dest_ (log_ d))].

(** What a crash leaves of a log: at least as much as it had in [d]. *)
Definition survives d (log : Z * W) (g : R) : Prop :=
  readable g ∧ ∃ k, rest g = take k (contents log.2) ∧
    ∀ f, (log.1, f) ∈ db_logs d → (length (contents f) ≤ k)%nat.

Definition mark_of d (n : Z) : nat :=
  if n =? logfile_number_ d then length (contents (dest_ (log_ d)))
  else match prev_log_ d with Some (n', f) => if n =? n' then length (contents f) else 0%nat | None => 0%nat end.

Lemma survives_mark d log g :
  survives d log g → readable g ∧ ∃ k, rest g = take k (contents log.2) ∧ (mark_of d log.1 ≤ k)%nat.
Proof.
  intros (Hg & k & Hk & Hd). split; [done|]. exists k. split; [done|]. unfold mark_of, db_logs in *.
  destruct (Z.eqb_spec log.1 (logfile_number_ d)) as [E|_].
  - apply Hd. rewrite E. set_solver.
  - destruct (prev_log_ d) as [[n' f]|]; [|lia]. destruct (Z.eqb_spec log.1 n') as [<-|]; [|lia].
    apply Hd. cbn [option_list]. set_solver.
Qed.

(** The logs of a state hold its groups, from its own lengths on. *)
Lemma logs_now mark base s lf li lm : logs mark base s lf li lm → logs (mark_of (sys_db s)) (lf ++ li ++ lm) s lf li lm.
Proof.
  intros (x & ci & mi & cc & mc & [L1 L2 L3 L4 L5 L6 L7 L8 L9 L10]). exists x, li, [], (lm ++ x), [].
  assert (Hmark : ∀ m f c c' off, marked m f c c' off → marked (length (contents f)) f (c ++ c') [] off).
  { intros m f c c' off (out1 & off1 & out & C & _ & Lg1 & Lg2). exists (contents f), off, [].
    rewrite app_nil_r, C, group_records_app. split_and!; [done|done| |constructor]. by eapply log_of_app. }
  split; rewrite ?app_nil_r; try done.
  - destruct (prev_log_ (sys_db s)) as [[n f]|] eqn:Ep.
    + destruct L7 as (Hi & Hn & off & Hm). split; [done|]. split; [done|]. exists off.
      unfold mark_of. rewrite Ep, (proj2 (Z.eqb_neq _ _)), Z.eqb_refl by lia. rewrite L1. by eapply Hmark.
    + destruct L7 as (Hi & -> & ->). by subst.
  - unfold mark_of. rewrite Z.eqb_refl, L2. by eapply Hmark.
  - intros n Hn. unfold mark_of. rewrite (proj2 (Z.eqb_neq _ _)) by lia.
    destruct (prev_log_ (sys_db s)) as [[n' f]|] eqn:Ep; [|done]. destruct L7 as (_ & Hn' & _).
    by rewrite (proj2 (Z.eqb_neq _ _)) by lia.
  - intros j j'. rewrite !take_nil, app_nil_r. cbn [app]. rewrite !app_assoc. by eexists.
Qed.

(** What is read back of a log. *)
Lemma marked_reads mark f c m off k g fuel :
  marked mark f c m off → readable g → rest g = take k (contents f) → (mark ≤ k)%nat →
  (length (contents f) < fuel)%nat →
  ∃ r' j, reads fuel (new_Reader g true true 0) (group_records (c ++ take j m)) r' ∧
    (length (c ++ take j m) ≤ length (contents f))%nat.
Proof.
  intros (out1 & off1 & out & C & <- & Lg1 & Lg2) Hg Hk Hmk Hfuel.
  assert (bytes (contents f)) as Hb by (rewrite C; apply bytes_app; by eapply log_of_bytes).
  assert (Hat : at_off kBlockSize (rest g) (new_Reader g true true 0)).
  { apply at_off_start; [done|]. rewrite Hk. unfold bytes in *. by apply Forall_take. }
  rewrite Hk, C in Hat. rewrite take_app_ge in Hat by done.
  destruct (reads_from_start fuel _ _ _ _ _ _ _ _ Lg1 Lg2 Hat) as (r' & j & Hr & _); [by rewrite <-C|].
  exists r', j. unfold group_records. rewrite fmap_app, fmap_take. split; [exact Hr|].
  pose proof (log_of_length _ _ _ _ Lg1) as N1. pose proof (log_of_length _ _ _ _ Lg2) as N2.
  unfold group_records in N1, N2. rewrite length_fmap in N1, N2. rewrite C, !length_app, length_take. lia.
Qed.

Lemma group_writers_prefix (l l' : list (Z * list QWriter)) : l `prefix_of` l' → group_writers l `prefix_of` group_writers l'.
Proof. intros [k ->]. rewrite group_writers_app. by eexists. Qed.

Lemma group_writers_sublist (l l' : list (Z * list QWriter)) :
  l `sublist_of` l' → group_writers l `sublist_of` group_writers l'.
Proof.
  induction 1 as [|p l l' _ IH|p l l' _ IH]; [done|..]; unfold group_writers in *; cbn [fmap list_fmap concat].
  - by apply sublist_app.
  - by apply sublist_inserts_l.
Qed.

Lemma last_number_max s lf li lm :
  sys_ok s lf li lm → arrivals_ok (arrived s) → last_number s < kMaxSequenceNumber.
Proof.
  intros Hs [_ Ha]. pose proof (so_last _ _ _ _ Hs) as [_ Hl]. rewrite (so_arrived _ _ _ _ Hs) in Ha.
  enough (length (gops (answers s ++ written s).*1) ≤ length (gops ((answers s).*1 ++ writers_ (sys_db s))))%nat by lia.
  apply gops_sublist. rewrite fmap_app. apply sublist_app; [done|].
  unfold written. destruct (sys_phase s); try apply sublist_nil_l. rewrite fst_answers. apply sublist_take.
Qed.

Lemma saved_last s lf li lm : sys_ok s lf li lm → saved_sequence_ (sys_db s) ≤ last_number s.
Proof.
  intros Hs. pose proof (do_last _ _ _ _ (so_db _ _ _ _ Hs)) as Hl. pose proof (so_phase _ _ _ _ Hs) as Hp.
  unfold last_number. destruct (sys_phase s); [done..|]. destruct Hp as (_ & _ & ?). lia.
Qed.

(** What the logs of [s2] have after a crash that leaves what [s1] had: groups
    of the run, in order, from those of [s1] on. *)
Lemma crash_logs s1 s2 gs n fuel base lf li lm :
  sys_ok s2 lf li lm → logs (mark_of (sys_db s1)) base s2 lf li lm →
  Forall2 (survives (sys_db s1)) (db_logs (sys_db s2)) gs →
  Forall (λ log, (length (contents log.2) < n `min` fuel)%nat) (db_logs (sys_db s2)) →
  ∃ ls, Forall2 (λ g l, (∃ r', reads fuel (new_Reader g true true 0) (group_records l) r') ∧ (length l < n)%nat) gs ls ∧
    base `prefix_of` lf ++ concat ls ∧
    group_writers (lf ++ concat ls) `sublist_of` (answers s2 ++ written s2).*1 ∧
    groups_ok (lf ++ concat ls) ∧ numbered 1 (last_number s2 + 1) (lf ++ concat ls).
Proof.
  intros Hs (x & ci & mi & cc & mc & [L1 L2 L3 L4 L5 L6 L7 L8 L9 L10]) Hgs Hlen.
  assert (Hread : ∀ m c c' off log g, (m = mark_of (sys_db s1) log.1) → marked m log.2 c c' off →
    survives (sys_db s1) log g → (length (contents log.2) < n `min` fuel)%nat →
    ∃ j, (∃ r', reads fuel (new_Reader g true true 0) (group_records (c ++ take j c')) r') ∧
      (length (c ++ take j c') < n)%nat).
  { intros m c c' off log g -> Hm (Hg & k & Hk & Hle)%survives_mark Hl.
    destruct (marked_reads _ _ _ _ _ k g fuel Hm Hg Hk Hle) as (r' & j & Hr & Hj); [lia|].
    exists j. split; [by exists r'|lia]. }
  enough (∃ ls j j', Forall2 (λ g l, (∃ r', reads fuel (new_Reader g true true 0) (group_records l) r') ∧ (length l < n)%nat) gs ls ∧
    concat ls = ci ++ take j mi ++ cc ++ take j' mc) as (ls & j & j' & Hls & El).
  { exists ls. rewrite El.
    assert (Hsl : lf ++ ci ++ take j mi ++ cc ++ take j' mc `sublist_of` lf ++ li ++ lm ++ x).
    { rewrite L1, L2, <-!app_assoc. repeat apply sublist_app; done || apply sublist_take. }
    split_and!; [done|exact (L10 j j')| | |].
    - etrans; [by apply group_writers_sublist|done].
    - assert (groups_ok (lf ++ li ++ lm ++ x)) as Hall.
      { rewrite !app_assoc. apply Forall_app. split; [|done]. rewrite <-!app_assoc. apply Hs. }
      unfold groups_ok in *. rewrite Forall_forall in Hall |- *. intros p Hp. apply Hall. by eapply elem_of_sublist.
    - by eapply numbered_sublist. }
  unfold db_logs in *. destruct (prev_log_ (sys_db s2)) as [[n' f]|]; cbn [option_list app] in *.
  - destruct L7 as (_ & _ & off & Hm).
    inversion Hgs as [|? g1 ? gs1 Hg1 Hgs1]; subst. inversion Hgs1 as [|? g2 ? gs2 Hg2 Hgs2]; subst. inversion Hgs2; subst.
    apply Forall_cons in Hlen as [Hlen1 [Hlen2 _]%Forall_cons].
    destruct (Hread _ ci mi off (n', f) g1 eq_refl Hm Hg1 Hlen1) as (j & Hj).
    destruct (Hread _ cc mc _ (_, _) g2 eq_refl L8 Hg2 Hlen2) as (j' & Hj').
    exists [ci ++ take j mi; cc ++ take j' mc], j, j'. split; [constructor; [exact Hj|constructor; [exact Hj'|constructor]]|].
    cbn. by rewrite app_nil_r, <-app_assoc.
  - destruct L7 as (_ & -> & ->).
    inversion Hgs as [|? g2 ? gs2 Hg2 Hgs2]; subst. inversion Hgs2; subst. apply Forall_cons in Hlen as [Hlen2 _].
    destruct (Hread _ cc mc _ (_, _) g2 eq_refl L8 Hg2 Hlen2) as (j' & Hj').
    exists [cc ++ take j' mc], 0%nat, j'. split; [constructor; [exact Hj'|constructor]|]. cbn. by rewrite app_nil_r.
Qed.
End crash.

(** C3. Nothing acknowledged is lost in a crash and no batch is torn.  Clients
    write to a database with a fresh log up to [s1], and the run goes on to
    [s2], in whatever phase; on the way the memtable and the log may be switched
    and the full memtable written to a table, or fail to be.  [Append] and
    [Flush] of a log file are assumed not to fail ([ReliableAppend]: after a
    record that was cut short the writer goes on, and what it acknowledges then
    can be lost); [Sync], [NewWritableFile] and the background thread may.  Of
    the logs of [s2], the current one and that of a memtable not yet in a table,
    a crash leaves any prefixes that have at least what the logs of [s1] had,
    and the loop of [Recover] is run on them.  It fails only with a status with
    which [WriteLevel0Table] failed; otherwise the tables of [s2], the memtables
    written during recovery and the memtable it goes on with hold, with their
    sequence numbers, which are different, growing and not above the recovered
    last sequence number (itself one that was given out), exactly the updates of whole groups of a sequence of
    writers among those that arrived, in their order, which begins with all
    those told OK by [s1].  Later groups may be missing at the end of each log:
    when both logs are cut, a group lost from the first may have successors in
    the second.  That compactions keep what the tables hold is C7 and C8. *)
Theorem db_crash_recovery `{WritableFileLaws W} `{!ReliableAppend W} `{SequentialFileLaws R} `{Crc32cLaws} `{Port}
    (number : Z) (f : W) (mem : list Z) (w0 : Log.Writer W) (s1 s2 : Sys W) (gs : list R) (n fuel : nat)
    (paranoid reuse reusable : bool) (buffer : Z)
    (usage : MemTable (T := memtable_table) → Z) (WriteLevel0Table : MemTable (T := memtable_table) → Status) :
  writable f → contents f = [] → length mem = 5%nat → new_Writer mem f = Some w0 →
  rtc db_step (new_sys number w0) s1 → rtc db_step s1 s2 → arrivals_ok (arrived s2) →
  Forall2 (survives (sys_db s1)) (db_logs (sys_db s2)) gs →
  Forall (λ log, (length (contents log.2) < n `min` fuel)%nat) (db_logs (sys_db s2)) →
  ∃ s max tables m,
    recover_logs paranoid buffer reuse usage WriteLevel0Table n fuel (inr <$> gs) reusable 0 []
      = Some (s, max, tables, m) ∧
    (s = OK ∨ ∃ t, t ∈ tables ∧ WriteLevel0Table t = s) ∧
    (s = OK → ∃ l,
       tables_hold (flushed_ (sys_db s2) ++ tables ++ option_list m) l ∧
       numbered 1 (recovered_sequence (saved_sequence_ (sys_db s2)) max + 1) l ∧
       recovered_sequence (saved_sequence_ (sys_db s2)) max ≤ last_number s2 ∧
       ok_writers (answers s1) `prefix_of` group_writers l ∧ group_writers l `sublist_of` arrived s2).
Proof.
  intros Hf Hc Hm Ew Hr1 Hr2 Ha Hgs Hlen. destruct (new_sys_ok number mem f w0 Hf Hc Hm Ew) as [Hs0 Hl0].
  destruct (db_steps_ok _ s1 _ _ _ Hr1 Hs0) as (lf1 & li1 & lm1 & Hs1 & Hl1).
  { eapply arrivals_ok_prefix; [by apply arrived_steps|done]. }
  destruct (db_steps_ok s1 s2 _ _ _ Hr2 Hs1 Ha) as (lf & li & lm & Hs2 & Hl2).
  specialize (Hl2 _ _ _ (logs_now _ _ _ _ _ _ (Hl1 _ _ _ Hl0))).
  destruct (crash_logs s1 s2 gs n fuel (lf1 ++ li1 ++ lm1) lf li lm Hs2 Hl2 Hgs Hlen)
    as (ls & Hreads & Hpre & Hsub & Hgroups & Hnum).
  destruct (recover_logs_ok paranoid buffer reuse usage WriteLevel0Table n fuel reusable
    (last_number s2 + 1) 0 [] gs ls Hreads) as (s & mx & tables & m & E & Hor).
  { by apply Forall_app in Hgroups as [_ ?]. }
  { eapply numbered_sublist; [|exact Hnum]. by apply sublist_inserts_l. }
  { apply numbered_le in Hnum. lia. }
  { pose proof (last_number_max s2 _ _ _ Hs2 Ha). lia. }
  exists s, mx, tables, m. split; [exact E|]. destruct Hor as [(-> & Hmx & Hw' & Ht)|(Hne & Hf')]; cycle 1.
  { split; [by right|]. by intros ->. }
  split; [by left|]. intros _. exists (lf ++ concat ls).
  pose proof (do_saved _ _ _ _ (so_db _ _ _ _ Hs2)) as Hsaved. pose proof (numbered_le _ _ _ Hsaved).
  assert (saved_sequence_ (sys_db s2) ≤ recovered_sequence (saved_sequence_ (sys_db s2)) mx ∧
    mx ≤ recovered_sequence (saved_sequence_ (sys_db s2)) mx) as [Hle1 Hle2].
  { unfold recovered_sequence. destruct (Z.ltb_spec (saved_sequence_ (sys_db s2)) mx); lia. }
  split_and!.
  - apply tables_hold_app; [apply Hs2|done].
  - eapply numbered_top; [exact Hnum|lia|]. apply Forall_app. split; [|by eapply within_mono].
    apply Forall_forall. intros p Hp. apply (numbered_bound _ _ _ _ Hsaved) in Hp. lia.
  - pose proof (saved_last _ _ _ _ Hs2). unfold recovered_sequence. destruct (Z.ltb_spec (saved_sequence_ (sys_db s2)) mx); lia.
  - etrans; [|by apply group_writers_prefix]. rewrite (so_writers _ _ _ _ Hs1), ok_writers_app. by eexists.
  - etrans; [exact Hsub|]. rewrite (so_arrived _ _ _ _ Hs2), fmap_app. apply sublist_app; [done|].
    unfold written. destruct (sys_phase s2); try apply sublist_nil_l. rewrite fst_answers. apply sublist_take.
Qed.

(** ** A run *)

(** When no call of the file fails the status is [OK]. *)
Lemma write_log_reliable `{WritableFileLaws W} `{!Reliable W} `{Crc32cLaws} `{Port} (d d' : Db W) sync updates st se :
  write_log d sync updates = Some (d', st, se) → se = false.
Proof.
  unfold write_log. destruct (AddRecord (log_ d) updates) as [[lw s0]|]; [|done]. simpl_bind.
  destruct (ok s0 && sync).
  - destruct (file_Sync (dest_ lw)) as [[f s1]|] eqn:Es; [apply Sync_ok in Es as ->|done]. simpl_bind. cbn [ok negb].
    destruct (InsertInto updates (mem_ d)) as [[m s2]|]; simpl_bind; congruence.
  - simpl_bind. destruct (ok s0); [destruct (InsertInto updates (mem_ d)) as [[m s2]|]|]; simpl_bind; congruence.
Qed.

Lemma filter_all {A} (P : A → Prop) `{∀ x, Decision (P x)} (l : list A) : Forall P l → filter P l = l.
Proof. induction 1; [done|]. rewrite filter_cons_True by done. by f_equal. Qed.

Section demo.
#[local] Existing Instances posix_x86 sse_cpu sse_cpu_laws.
#[local] Existing Instances Files.memenv_sequential Files.memenv_sequential_laws.
#[local] Instance demo_file : WritableFile FileState.t := Files.memenv_writable zero_block.
#[local] Instance demo_file_laws : WritableFileLaws FileState.t :=
  Files.memenv_writable_laws zero_block zero_block_length.
#[local] Instance demo_reliable : Reliable FileState.t := Files.memenv_reliable zero_block.
#[local] Instance demo_crc : Crc32c := crc32c_impl Sse64 0 0.
#[local] Instance demo_crc_laws : Crc32cLaws demo_crc := crc32c_impl_laws Sse64 0 0 ltac:(lia).

Lemma demo_writable : writable FileState.new.
Proof. apply FileState.data_new. Qed.

(** Two clients that put a key, the second of which does not sync, and one
    that asks for a new memtable. *)
Definition client1 : QWriter := MkQWriter 1 (Some (rep_of 0 [BPut [1] [2]])) true.
Definition client2 : QWriter := MkQWriter 2 (Some (rep_of 0 [BPut [3] [4]])) false.
Definition client3 : QWriter := MkQWriter 3 None false.

Lemma demo_arrivals : arrivals_ok [client1; client2; client3].
Proof.
  split.
  - repeat constructor; eexists 0, _; (split; [reflexivity|]); (split; [|by vm_compute]);
      repeat first [apply Forall_cons; split | apply Forall_nil; done | split | done].
  - by vm_compute.
Qed.

Definition calm (present : bool) : room := Room OK 0 0 0 false present.

(** The first two have joined and are one group. *)
Lemma demo_group w0 :
  ∃ d updates tmp, rtc db_step (new_sys 1 w0) (MkSys d (Grouped updates tmp 2 2) [client1; client2] []) ∧
    writers_ d = [client1; client2] ∧ logfile_number_ d = 1 ∧ imm_ d = None ∧ bg_error_ d = OK ∧ prev_log_ d = None.
Proof.
  eexists _, _, _. split.
  - eapply rtc_l; [apply (step_join _ _ _ _ client1)|].
    eapply rtc_l; [apply (step_join _ _ _ _ client2)|].
    eapply rtc_l; [apply (step_enter _ _ _ client1 [client2] false); reflexivity|].
    apply rtc_once. eapply (step_room _ _ _ (calm false) (inl (IOError ""))); [done|done|vm_compute; reflexivity].
  - done.
Qed.

(** The group is written, and the third gets its memtable and log. *)
Lemma demo_run :
  ∃ w0 d, new_Writer [0; 0; 0; 0; 0] FileState.new = Some w0 ∧
    let s := MkSys d Idle [client1; client2; client3] [(client1, OK); (client2, OK); (client3, OK)] in
    rtc db_step (new_sys 1 w0) s ∧ last_sequence_ d = 2 ∧ writers_ d = [] ∧
    logfile_number_ d = 2 ∧ (∃ f, prev_log_ d = Some (1, f) ∧ writable f) ∧ is_Some (imm_ d).
Proof.
  destruct (new_Writer [0; 0; 0; 0; 0] FileState.new) as [w0|] eqn:E; [|by vm_compute in E]. exists w0.
  destruct (demo_group w0) as (d & updates & tmp & Hr & Hq & Hno & Hi & Hbg & Hprev).
  destruct (new_sys_ok 1 [0; 0; 0; 0; 0] FileState.new w0) as [Hs0 _]; [exact demo_writable|done|done|done|].
  assert (Ha : arrivals_ok [client1; client2]) by (eapply arrivals_ok_prefix; [|exact demo_arrivals]; by exists [client3]).
  destruct (db_steps_ok _ _ _ _ _ Hr Hs0 Ha) as (lf & li & lm & Hs & _).
  pose proof (db_room _ _ _ _ Hs Ha eq_refl) as (Hseq0 & _ & Hmax).
  destruct (so_phase _ _ _ _ Hs) as (_ & Hu & Hup & Hc & _ & Hlast). cbn [sys_db] in *.
  pose proof (so_numbers _ _ _ _ Hs) as Hnum. unfold last_number in Hnum. cbn [sys_phase sys_db] in Hnum.
  rewrite Hq in Hu, Hup, Hc, Hlast, Hmax. cbn [take] in *.
  destruct (write_log_ok d lf li lm true [client1; client2] (so_db _ _ _ _ Hs) Hnum Hseq0 Hup Hc)
    as (lw & m & st & se & Ew & Hlw & _ & _ & Hrel); [done|].
  pose proof (write_log_reliable _ _ _ _ _ _ Ew) as ->. destruct (Hrel _) as [Hst _].
  assert (st = OK) as -> by (destruct (decide (st = OK)); [done|]; by specialize (Hst n)). clear Hrel Hst.
  rewrite <-Hu, Hq, Hno, Hi, Hbg, Hprev in Ew.
  destruct (new_Writer [0; 0; 0; 0; 0] FileState.new) as [lw2|] eqn:E2; [|done].
  eexists. split; [done|]. cbv zeta. split.
  - etransitivity; [exact Hr|].
    eapply rtc_l; [eapply (step_log _ _ _ client1); [exact Hq|exact Ew]|].
    eapply rtc_l; [apply step_finish|]. cbn [writers_ take drop write_finish app fmap list_fmap].
    eapply rtc_l; [apply (step_join _ _ _ _ client3)|]. unfold set_writers.
    cbn [writers_ logfile_number_ log_ mem_ imm_ prev_log_ last_sequence_ bg_error_ tmp_batch_ flushed_ saved_sequence_ app].
    eapply rtc_l; [apply (step_enter _ _ _ client3 [] true); reflexivity|].
    eapply rtc_l; [eapply (step_room _ _ _ (calm false) (inr (2, FileState.new, [0; 0; 0; 0; 0])))|].
    + split; reflexivity.
    + split; [reflexivity|]. split; [apply FileState.data_new|split; reflexivity].
    + unfold room_turn, switch_memtable. cbn [room_decide]. rewrite E2. reflexivity.
    + eapply rtc_l; [eapply (step_room _ _ _ (calm true) (inl (IOError ""))); [split; reflexivity|discriminate|reflexivity]|].
      eapply rtc_once. apply step_finish.
  - split; [reflexivity|]. split; [reflexivity|]. split; [reflexivity|]. split; [|eexists; reflexivity].
    exists (dest_ lw). split; [reflexivity|apply Hlw].
Qed.

Lemma db_writes_in_order_witness :
  ∃ w0 d, new_Writer [0; 0; 0; 0; 0] FileState.new = Some w0 ∧
    let s := MkSys d Idle [client1; client2; client3] [(client1, OK); (client2, OK); (client3, OK)] in
    rtc db_step (new_sys 1 w0) s ∧ is_Some (imm_ d) ∧
    ∃ lk, NewLookupKey [1] kMaxSequenceNumber = Some lk ∧ get_first (memtables d) lk = Some (GotValue [2]).
Proof.
  destruct demo_run as (w0 & d & Ew & Hr & Hlast & _ & _ & _ & Himm). exists w0, d.
  split; [exact Ew|]. cbv zeta. split; [exact Hr|]. split; [exact Himm|].
  destruct (db_writes_in_order 1 FileState.new [0; 0; 0; 0; 0] w0 _
    demo_writable eq_refl eq_refl Ew Hr demo_arrivals) as (_ & (no & Eno & _ & Hno & Hget) & _).
  destruct (Hget [1] kMaxSequenceNumber) as (lk & Hlk & Hg).
  { split; [apply Forall_cons; split; [|constructor]|]; split; vm_compute; congruence. }
  { split; vm_compute; congruence. }
  exists lk. split; [exact Hlk|]. cbn [sys_db] in Hg. rewrite Hg.
  assert (filter (λ p, p.1 ≤ kMaxSequenceNumber) no = no) as ->.
  { apply filter_all. eapply Forall_impl; [exact Hno|]. unfold last_number. cbn. rewrite Hlast.
    intros p Hp. unfold kMaxSequenceNumber. change (Z.shiftl 1 56) with 72057594037927936. lia. }
  rewrite Eno. reflexivity.
Defined.

(** Both logs are read back whole. *)
Lemma db_crash_recovery_witness :
  ∃ w0 (d : Db FileState.t) (gs : list Files.SequentialFileImpl) fuel s max tables m l,
    let s2 := MkSys d Idle [client1; client2; client3] [(client1, OK); (client2, OK); (client3, OK)] in
    rtc db_step (new_sys 1 w0) s2 ∧ Forall2 (survives d) (db_logs d) gs ∧ length gs = 2%nat ∧
    recover_logs true 1000 false (λ _, 0) (λ _, OK) fuel fuel (inr <$> gs) true 0 [] = Some (s, max, tables, m) ∧
    s = OK ∧ tables_hold (flushed_ d ++ tables ++ option_list m) l ∧
    ok_writers (answers s2) = [client1; client2] ∧ [client1; client2] `prefix_of` group_writers l.
Proof.
  destruct demo_run as (w0 & d & Ew & Hr & _ & _ & Hno & (f & Hprev & Hf) & _).
  destruct (new_sys_ok 1 [0; 0; 0; 0; 0] FileState.new w0) as [Hs0 _]; [exact demo_writable|done|done|done|].
  destruct (db_steps_ok _ _ _ _ _ Hr Hs0 demo_arrivals) as (lf & li & lm & Hs & _).
  pose proof (do_log _ _ _ _ (so_db _ _ _ _ Hs)) as (_ & _ & Hf2). cbn [sys_db] in Hf2.
  set (f2 := dest_ (log_ d)) in *. set (fuel := S (length (contents f) + length (contents f2))).
  assert (Hlogs : db_logs d = [(1, f); (2, f2)]) by (unfold db_logs; rewrite Hprev, Hno; reflexivity).
  assert (Hread : ∀ n1 g, writable g → (∀ g', (n1, g') ∈ [(1, f); (2, f2)] → g' = g) →
    survives d (n1, g) (Files.Seq g 0)).
  { intros n1 g Hg Hone. split.
    - split; [exact Hg|]. cbn [Files.pos_ Files.seq_file_]. pose proof (FileState.length_data _ Hg). lia.
    - exists (length (contents g)). split; [symmetry; apply firstn_all|]. rewrite Hlogs.
      intros g' Hin. by rewrite (Hone g' Hin). }
  assert (Hsurv : Forall2 (survives d) (db_logs d) [Files.Seq f 0; Files.Seq f2 0]).
  { rewrite Hlogs. constructor; [apply Hread; [exact Hf|]|constructor; [apply Hread; [exact Hf2|]|constructor]];
      intros g' [Hin|[Hin|[]%not_elem_of_nil]%elem_of_cons]%elem_of_cons; congruence. }
  destruct (db_crash_recovery 1 FileState.new [0; 0; 0; 0; 0] w0 _ _ [Files.Seq f 0; Files.Seq f2 0] fuel fuel
    true false true 1000 (λ _, 0) (λ _, OK) demo_writable eq_refl eq_refl Ew Hr (rtc_refl _ _) demo_arrivals)
    as (s & mx & tables & m & E & Hor & Hl).
  - exact Hsurv.
  - cbn [sys_db]. rewrite Hlogs. constructor; [|constructor; [|constructor]]; unfold fuel; cbn [snd]; lia.
  - assert (s = OK) as Hok by (destruct Hor as [|(t & _ & <-)]; done). destruct (Hl Hok) as (l & Ht & _ & _ & Hpre & _).
    exists w0, d, [Files.Seq f 0; Files.Seq f2 0], fuel, s, mx, tables, m, l. cbv zeta. split; [exact Hr|].
    split; [exact Hsurv|]. split; [reflexivity|].
    split; [exact E|]. split; [exact Hok|]. split; [exact Ht|]. split; [reflexivity|exact Hpre].
Defined.

End demo.
