(* ===== verification/Iterator.v ===== *)
(** leveldb's iterators: the interface of leveldb/include/leveldb/iterator.h,
    the empty iterators of leveldb/table/iterator.cc and the wrapper of
    leveldb/table/iterator_wrapper.h.

    What an iterator promises is that it behaves like a cursor over a list of
    entries: the clients of iterators are proved against [IteratorLaws], and
    every kind of iterator is an instance of it.  [None] is a failed
    [assert]. *)

From Stdlib Require Import ZArith Lia.
From stdpp Require Import base option numbers list.
From S2P Require Import Prelude Slice.

(** ** The interface *)

Class Iterator (T : Type) := {
  i_Valid : T → bool;
  i_SeekToFirst : T → option T;
  i_SeekToLast : T → option T;
  i_Seek : T → list Z → option T;
  i_Next : T → option T;
  i_Prev : T → option T;
  i_key : T → option (list Z);
  i_value : T → option (list Z);
  i_status : T → option Status
}.

Inductive iter_op :=
  | OpSeekToFirst
  | OpSeekToLast
  | OpSeek (target : list Z)
  | OpNext
  | OpPrev.

Definition i_apply `{Iterator T} (it : T) (o : iter_op) : option T :=
  match o with
  | OpSeekToFirst => i_SeekToFirst it
  | OpSeekToLast => i_SeekToLast it
  | OpSeek target => i_Seek it target
  | OpNext => i_Next it
  | OpPrev => i_Prev it
  end.

(** What a client sees: the entry, if there is one. *)
Definition i_entry `{Iterator T} (it : T) : option (option (list Z * list Z)) :=
  if i_Valid it then k ← i_key it; v ← i_value it; Some (Some (k, v)) else Some None.

Fixpoint run_ops {A} (step : A → iter_op → option A) (a : A) (ops : list iter_op) : option A :=
  match ops with
  | [] => Some a
  | o :: ops => a ← step a o; run_ops step a ops
  end.

(** ** Cursors *)

Section cursor.
Context {C : Comparator}.

(** The first key that is not before the target. *)
Fixpoint seek_index (keys : list (list Z)) (target : list Z) : nat :=
  match keys with
  | [] => 0
  | k :: keys => if 0 <=? Compare k target then 0 else S (seek_index keys target)
  end.

Lemma seek_index_unique keys target i :
  (i ≤ length keys)%nat →
  (∀ j k, (j < i)%nat → keys !! j = Some k → Compare k target < 0) →
  (∀ k, keys !! i = Some k → 0 ≤ Compare k target) →
  seek_index keys target = i.
Proof.
  revert i. induction keys as [|k keys IH]; intros i Hi Hlt Hge; cbn [seek_index length] in *; [lia|].
  destruct i as [|i].
  - by rewrite (proj2 (Z.leb_le _ _) (Hge k eq_refl)).
  - rewrite (proj2 (Z.leb_gt _ _) (Hlt 0%nat k ltac:(lia) eq_refl)). f_equal.
    apply IH; [lia| |exact Hge]. intros j k' Hj Hk'. by apply (Hlt (S j)); [lia|].
Qed.

Lemma seek_index_le keys target : (seek_index keys target ≤ length keys)%nat.
Proof. induction keys as [|k keys IH]; cbn; [lia|]. case_match; lia. Qed.

Lemma seek_index_app keys keys' target :
  Forall (λ k, Compare k target < 0) keys →
  seek_index (keys ++ keys') target = (length keys + seek_index keys' target)%nat.
Proof.
  induction 1 as [|k keys Hk _ IH]; [done|]. cbn [app seek_index length].
  rewrite (proj2 (Z.leb_gt _ _) Hk), IH. lia.
Qed.

Lemma seek_index_app_r keys keys' target :
  Forall (λ k, 0 ≤ Compare k target) keys' → seek_index (keys ++ keys') target = seek_index keys target.
Proof.
  intros Hk. induction keys as [|k keys IH]; cbn [app seek_index]; [|by rewrite IH].
  destruct Hk as [|k keys Hk _]; [done|]. cbn. by rewrite (proj2 (Z.leb_le _ _) Hk).
Qed.

Lemma seek_index_before keys target j k :
  (j < seek_index keys target)%nat → keys !! j = Some k → Compare k target < 0.
Proof.
  revert j. induction keys as [|k' keys IH]; intros j; cbn [seek_index]; [done|].
  destruct (Z.leb_spec 0 (Compare k' target)); [lia|]. destruct j as [|j]; cbn.
  - by intros _ [= <-].
  - intros Hj. apply IH. lia.
Qed.

Lemma seek_index_at keys target k :
  keys !! seek_index keys target = Some k → 0 ≤ Compare k target.
Proof.
  induction keys as [|k' keys IH]; cbn [seek_index]; [done|].
  destruct (Z.leb_spec 0 (Compare k' target)) as [Hle|Hlt]; cbn; [by intros [= <-]|exact IH].
Qed.

(** A cursor is a position in the list; the end of the list is no entry.
    [Next] and [Prev] need an entry. *)
Definition cursor_op (es : list (list Z * list Z)) (i : nat) (o : iter_op) : option nat :=
  match o with
  | OpSeekToFirst => Some 0%nat
  | OpSeekToLast => Some (length es - 1)%nat
  | OpSeek target => Some (seek_index es.*1 target)
  | OpNext => if (i <? length es)%nat then Some (S i) else None
  | OpPrev => if (i <? length es)%nat
              then Some (match i with O => length es | S j => j end) else None
  end.

Lemma cursor_op_le es i o j : (i ≤ length es)%nat → cursor_op es i o = Some j → (j ≤ length es)%nat.
Proof.
  intros Hi. destruct o; cbn [cursor_op].
  - intros [= <-]. lia.
  - intros [= <-]. lia.
  - intros [= <-]. rewrite <-(length_fmap fst es). apply seek_index_le.
  - destruct (Nat.ltb_spec i (length es)); [|done]. intros [= <-]. lia.
  - destruct (Nat.ltb_spec i (length es)); [|done]. intros [= <-]. destruct i; lia.
Qed.
End cursor.

(** The contract of iterators: [positioned it es i] says that the entries of
    [it] are [es], that it is at entry [i] of them (at none if [i] is their
    number), and that there has been no error. *)
Class IteratorLaws {C : Comparator} (T : Type) `{Iterator T} := {
  positioned : T → list (list Z * list Z) → nat → Prop;
  positioned_op it es i o j :
    positioned it es i → cursor_op es i o = Some j → ∃ it', i_apply it o = Some it' ∧ positioned it' es j;
  positioned_entry it es i :
    positioned it es i → (i ≤ length es)%nat ∧ i_Valid it = (i <? length es)%nat ∧
    (∀ k v, es !! i = Some (k, v) → i_key it = Some k ∧ i_value it = Some v) ∧ i_status it = Some OK
}.

Section laws.
Context {C : Comparator} `{IteratorLaws T}.

Lemma positioned_ops ops : ∀ (it : T) es i j,
  positioned it es i → run_ops (cursor_op es) i ops = Some j →
  ∃ it', run_ops i_apply it ops = Some it' ∧ positioned it' es j.
Proof.
  induction ops as [|o ops IH]; intros it es i j Ha; cbn [run_ops].
  - intros [= <-]. by exists it.
  - destruct (cursor_op es i o) as [k|] eqn:E; [|done]. simpl_bind. intros Hr.
    destruct (positioned_op it es i o k Ha E) as (it1 & -> & Ha1). simpl_bind. eauto.
Qed.

Lemma positioned_shows (it : T) es i :
  positioned it es i → i_status it = Some OK ∧ i_entry it = Some (es !! i).
Proof.
  intros (Hi & Hv & He & Hs)%positioned_entry. split; [done|]. unfold i_entry. rewrite Hv.
  destruct (Nat.ltb_spec i (length es)) as [Hlt|Hge].
  - destruct (lookup_lt_is_Some_2 es i Hlt) as [[k v] Hk]. destruct (He k v Hk) as [-> ->].
    simpl_bind. by rewrite Hk.
  - by rewrite lookup_ge_None_2.
Qed.
End laws.

(** ** [EmptyIterator] *)

Record EmptyIterator := mkEmpty { empty_status_ : Status }.

Definition NewEmptyIterator : EmptyIterator := mkEmpty OK.

Definition NewErrorIterator (status : Status) : EmptyIterator := mkEmpty status.

#[export] Instance empty_iterator : Iterator EmptyIterator := {|
  i_Valid _ := false;
  i_Seek it _ := Some it;
  i_SeekToFirst it := Some it;
  i_SeekToLast it := Some it;
  i_Next _ := None (* assert *);
  i_Prev _ := None (* assert *);
  i_key _ := None (* assert *);
  i_value _ := None (* assert *);
  i_status it := Some (empty_status_ it)
|}.

#[export] Instance empty_iterator_laws {C : Comparator} : IteratorLaws EmptyIterator.
Proof.
  exists (λ it es i, es = [] ∧ i = 0%nat ∧ empty_status_ it = OK).
  - intros it es i o j (-> & -> & Hs) E. exists it.
    destruct o; cbn in E |- *; try done; injection E as <-; done.
  - intros it es i (-> & -> & Hs). split_and!; [done..|]. cbn. by rewrite Hs.
Defined.

(** A pointer to an [Iterator] may be to one of two kinds. *)
Section sum.
Context `{Iterator A} `{Iterator B}.

#[export] Instance sum_iterator : Iterator (A + B) := {|
  i_Valid it := match it with inl a => i_Valid a | inr b => i_Valid b end;
  i_Seek it k := match it with inl a => inl <$> i_Seek a k | inr b => inr <$> i_Seek b k end;
  i_SeekToFirst it := match it with inl a => inl <$> i_SeekToFirst a | inr b => inr <$> i_SeekToFirst b end;
  i_SeekToLast it := match it with inl a => inl <$> i_SeekToLast a | inr b => inr <$> i_SeekToLast b end;
  i_Next it := match it with inl a => inl <$> i_Next a | inr b => inr <$> i_Next b end;
  i_Prev it := match it with inl a => inl <$> i_Prev a | inr b => inr <$> i_Prev b end;
  i_key it := match it with inl a => i_key a | inr b => i_key b end;
  i_value it := match it with inl a => i_value a | inr b => i_value b end;
  i_status it := match it with inl a => i_status a | inr b => i_status b end
|}.

Lemma sum_apply (it : A + B) o :
  i_apply it o = match it with inl a => inl <$> i_apply a o | inr b => inr <$> i_apply b o end.
Proof. by destruct it, o. Qed.

#[export] Instance sum_iterator_laws {C : Comparator} `{!IteratorLaws A} `{!IteratorLaws B} :
  IteratorLaws (A + B).
Proof.
  exists (λ it es i, match it with inl a => positioned a es i | inr b => positioned b es i end).
  - intros [a|b] es i o j Hp E; rewrite sum_apply;
      destruct (positioned_op _ es i o j Hp E) as (it' & -> & Hp').
    + by exists (inl it').
    + by exists (inr it').
  - intros [a|b] es i Hp; exact (positioned_entry _ es i Hp).
Defined.
End sum.

(** ** [IteratorWrapper] *)

Record IteratorWrapper (T : Type) := mkWrapper {
  iter_ : option T;
  valid_ : bool;
  wkey_ : list Z
}.
Arguments mkWrapper {T}.
Arguments iter_ {T}.
Arguments valid_ {T}.
Arguments wkey_ {T}.

Section wrapper.
Context `{Iterator T}.
Implicit Types (w : IteratorWrapper T).

(** [Update] after the iterator has changed to [it]. *)
Definition w_Update w (it : T) : option (IteratorWrapper T) :=
  if i_Valid it then k ← i_key it; Some (mkWrapper (Some it) true k)
  else Some (mkWrapper (Some it) false (wkey_ w)).

Definition w_Set w (iter : option T) : option (IteratorWrapper T) :=
  match iter with
  | None => Some (mkWrapper None false (wkey_ w))
  | Some it => w_Update w it
  end.

(** The constructors; [key_] is an empty slice. *)
Definition NewWrapper (iter : option T) : option (IteratorWrapper T) := w_Set (mkWrapper None false []) iter.

Definition w_Valid w : bool := valid_ w.

Definition w_key w : option (list Z) := if w_Valid w then Some (wkey_ w) else None.

Definition w_value w : option (list Z) := if w_Valid w then it ← iter_ w; i_value it else None.

Definition w_status w : option Status := it ← iter_ w; i_status it.

(** [assert(iter_); iter_->op(); Update()] for each of the operations. *)
Definition w_apply w (o : iter_op) : option (IteratorWrapper T) :=
  it ← iter_ w; it ← i_apply it o; w_Update w it.

Context {C : Comparator} `{!IteratorLaws T}.

(** A wrapper of an iterator at entry [i], its copies up to date. *)
Definition w_at w (es : list (list Z * list Z)) (i : nat) : Prop :=
  (i ≤ length es)%nat ∧ (∃ it, iter_ w = Some it ∧ positioned it es i) ∧
  valid_ w = (i <? length es)%nat ∧ ∀ k v, es !! i = Some (k, v) → wkey_ w = k.

Lemma w_Update_at w it es i :
  positioned it es i → ∃ w', w_Update w it = Some w' ∧ w_at w' es i.
Proof.
  intros Hp. pose proof Hp as (Hi & Hv & He & _)%positioned_entry. unfold w_Update. rewrite Hv.
  destruct (Nat.ltb_spec i (length es)) as [Hlt|Hge].
  - destruct (lookup_lt_is_Some_2 es i Hlt) as [[k v] Hk]. destruct (He k v Hk) as [-> _].
    simpl_bind. eexists. split; [done|]. split; [done|]. cbn [iter_ valid_ wkey_].
    split; [by exists it|]. split; [symmetry; by apply Nat.ltb_lt|]. intros k' v' Hk'. congruence.
  - eexists. split; [done|]. split; [done|]. cbn [iter_ valid_ wkey_].
    split; [by exists it|]. split; [symmetry; by apply Nat.ltb_ge|]. intros k v Hk.
    apply lookup_lt_Some in Hk. lia.
Qed.

Lemma w_apply_at w es i o j :
  w_at w es i → cursor_op es i o = Some j → ∃ w', w_apply w o = Some w' ∧ w_at w' es j.
Proof.
  intros (_ & (it & Hit & Hp) & _) E. unfold w_apply. rewrite Hit. simpl_bind.
  destruct (positioned_op it es i o j Hp E) as (it' & -> & Hp'). simpl_bind.
  by apply w_Update_at.
Qed.

Lemma w_at_le w es i : w_at w es i → (i ≤ length es)%nat.
Proof. by intros [? _]. Qed.

Lemma w_at_valid w es i : w_at w es i → w_Valid w = (i <? length es)%nat.
Proof. by intros (_ & _ & ? & _). Qed.

Lemma w_at_status w es i : w_at w es i → w_status w = Some OK.
Proof.
  intros (_ & (it & Hit & Hp) & _). apply positioned_entry in Hp as (_ & _ & _ & Hs).
  unfold w_status. by rewrite Hit.
Qed.

Lemma w_at_entry w es i k v :
  w_at w es i → es !! i = Some (k, v) → w_key w = Some k ∧ w_value w = Some v.
Proof.
  intros (_ & (it & Hit & Hp) & Hv & Hk) He. pose proof (lookup_lt_Some _ _ _ He) as Hlt.
  apply Nat.ltb_lt in Hlt. unfold w_key, w_value, w_Valid. rewrite Hv, Hlt, (Hk k v He), Hit.
  simpl_bind. apply positioned_entry in Hp as (_ & _ & Hkv & _). split; [done|]. by apply (Hkv k v).
Qed.
End wrapper.
