(* ===== verification/TwoLevel.v ===== *)
(** leveldb's two-level iterator: leveldb/table/two_level_iterator.cc.

    An iterator over the index gives the handles of the blocks, and
    [block_function_] an iterator over the block of a handle.  [arg_] is the
    state behind [block_function_]'s argument.  The loops that skip empty
    blocks move the index iterator at every turn; [fuel] must be above the
    number of its entries. *)

From Stdlib Require Import ZArith Lia.
From stdpp Require Import base option numbers list.
From S2P Require Import Prelude Slice Iterator.

Record TwoLevelIterator (A T1 T2 : Type) := mkTwoLevel {
  arg_ : A;
  tl_status_ : Status;
  index_iter_ : IteratorWrapper T1;
  data_iter_ : IteratorWrapper T2;    (* may be NULL *)
  data_block_handle_ : list Z
}.
Arguments mkTwoLevel {A T1 T2}.
Arguments arg_ {A T1 T2}.
Arguments tl_status_ {A T1 T2}.
Arguments index_iter_ {A T1 T2}.
Arguments data_iter_ {A T1 T2}.
Arguments data_block_handle_ {A T1 T2}.

Section two_level.
Context {A : Type} `{Iterator T1} `{Iterator T2} (fuel : nat).
Context (block_function : A → list Z → option (A * T2)).
Implicit Types (t : TwoLevelIterator A T1 T2).

Definition NewTwoLevelIterator (index_iter : T1) (arg : A) : option (TwoLevelIterator A T1 T2) :=
  index ← NewWrapper (Some index_iter);
  data ← NewWrapper None;
  Some (mkTwoLevel arg OK index data []).

Definition SaveError t (s : Status) : Status :=
  if ok (tl_status_ t) && negb (ok s) then s else tl_status_ t.

(** [data_iter_.iter() != NULL]. *)
Definition has_data t : bool := bool_decide (is_Some (iter_ (data_iter_ t))).

Definition SetDataIterator t (data_iter : option T2) : option (TwoLevelIterator A T1 T2) :=
  status ← (if has_data t then s ← w_status (data_iter_ t); Some (SaveError t s) else Some (tl_status_ t));
  data ← w_Set (data_iter_ t) data_iter;
  Some (mkTwoLevel (arg_ t) status (index_iter_ t) data (data_block_handle_ t)).

Definition InitDataBlock t : option (TwoLevelIterator A T1 T2) :=
  if negb (w_Valid (index_iter_ t)) then SetDataIterator t None
  else
    handle ← w_value (index_iter_ t);
    if has_data t && (slice_compare handle (data_block_handle_ t) =? 0) then Some t
    else
      '(arg, iter) ← block_function (arg_ t) handle;
      SetDataIterator (mkTwoLevel arg (tl_status_ t) (index_iter_ t) (data_iter_ t) handle) (Some iter).

(** [index_iter_.op()] and [if (data_iter_.iter() != NULL) data_iter_.op()]. *)
Definition index_apply t (o : iter_op) : option (TwoLevelIterator A T1 T2) :=
  index ← w_apply (index_iter_ t) o;
  Some (mkTwoLevel (arg_ t) (tl_status_ t) index (data_iter_ t) (data_block_handle_ t)).

Definition data_apply t (o : iter_op) : option (TwoLevelIterator A T1 T2) :=
  data ← w_apply (data_iter_ t) o;
  Some (mkTwoLevel (arg_ t) (tl_status_ t) (index_iter_ t) data (data_block_handle_ t)).

Definition data_apply_if t (o : iter_op) : option (TwoLevelIterator A T1 T2) :=
  if has_data t then data_apply t o else Some t.

(** [SkipEmptyDataBlocksForward] and [SkipEmptyDataBlocksBackward] differ in
    the operations on the index and on the block. *)
Fixpoint skip_empty (step start : iter_op) (fuel : nat) t : option (TwoLevelIterator A T1 T2) :=
  if negb (has_data t) || negb (w_Valid (data_iter_ t)) then
    if negb (w_Valid (index_iter_ t)) then SetDataIterator t None
    else
      match fuel with
      | O => None
      | S fuel =>
          t ← index_apply t step;
          t ← InitDataBlock t;
          t ← data_apply_if t start;
          skip_empty step start fuel t
      end
  else Some t.

Definition SkipEmptyDataBlocksForward t := skip_empty OpNext OpSeekToFirst fuel t.

Definition SkipEmptyDataBlocksBackward t := skip_empty OpPrev OpSeekToLast fuel t.

Definition tl_Seek t (target : list Z) : option (TwoLevelIterator A T1 T2) :=
  t ← index_apply t (OpSeek target);
  t ← InitDataBlock t;
  t ← data_apply_if t (OpSeek target);
  SkipEmptyDataBlocksForward t.

Definition tl_SeekToFirst t : option (TwoLevelIterator A T1 T2) :=
  t ← index_apply t OpSeekToFirst;
  t ← InitDataBlock t;
  t ← data_apply_if t OpSeekToFirst;
  SkipEmptyDataBlocksForward t.

Definition tl_SeekToLast t : option (TwoLevelIterator A T1 T2) :=
  t ← index_apply t OpSeekToLast;
  t ← InitDataBlock t;
  t ← data_apply_if t OpSeekToLast;
  SkipEmptyDataBlocksBackward t.

Definition tl_Valid t : bool := w_Valid (data_iter_ t).

Definition tl_Next t : option (TwoLevelIterator A T1 T2) :=
  if tl_Valid t then t ← data_apply t OpNext; SkipEmptyDataBlocksForward t else None (* assert *).

Definition tl_Prev t : option (TwoLevelIterator A T1 T2) :=
  if tl_Valid t then t ← data_apply t OpPrev; SkipEmptyDataBlocksBackward t else None (* assert *).

Definition tl_key t : option (list Z) :=
  if tl_Valid t then w_key (data_iter_ t) else None (* assert *).

Definition tl_value t : option (list Z) :=
  if tl_Valid t then w_value (data_iter_ t) else None (* assert *).

Definition tl_status t : option Status :=
  s ← w_status (index_iter_ t);
  if negb (ok s) then Some s
  else if has_data t then
    s ← w_status (data_iter_ t);
    Some (if negb (ok s) then s else tl_status_ t)
  else Some (tl_status_ t).

Definition two_level_iterator : Iterator (TwoLevelIterator A T1 T2) := {|
  i_Valid := tl_Valid;
  i_SeekToFirst := tl_SeekToFirst;
  i_SeekToLast := tl_SeekToLast;
  i_Seek := tl_Seek;
  i_Next := tl_Next;
  i_Prev := tl_Prev;
  i_key := tl_key;
  i_value := tl_value;
  i_status := tl_status
|}.
End two_level.

(** The two-level iterator (TwoLevel.v) behaves like a cursor over the
    concatenation of its blocks. *)

Section spec.
Context {C : Comparator} {HC : ComparatorLaws C}.
Context {A : Type} `{Iterator T1} `{Iterator T2} `{!IteratorLaws T1} `{!IteratorLaws T2} (fuel : nat).
Context (block_function : A → list Z → option (A * T2)) (arg_ok : A → Prop).

(** [ies] are the keys and the handles of the index, [blk] the entries of the
    block of a handle. *)
Context (blk : list Z → list (list Z * list Z)) (ies : list (list Z * list Z)).

Abbreviation es := (concat (blk <$> ies.*2)).
Abbreviation n := (length ies).

(** What the index promises: a block's keys are up to its key in the index,
    and those of later blocks behind it. *)
Definition index_ok : Prop :=
  ∀ j k h, ies !! j = Some (k, h) →
    Forall (λ e, Compare e.1 k ≤ 0) (blk h) ∧
    ∀ j' k' h', (j < j')%nat → ies !! j' = Some (k', h') → Forall (λ e, Compare k e.1 < 0) (blk h').

Definition block_function_ok : Prop :=
  ∀ a h, arg_ok a → h ∈ ies.*2 →
    ∃ a' it p, block_function a h = Some (a', it) ∧ arg_ok a' ∧ positioned it (blk h) p.

Implicit Types (t : TwoLevelIterator A T1 T2).

(** The position of the first entry of block [j]. *)
Definition boff (j : nat) : nat := length (concat (blk <$> take j ies.*2)).

Lemma boff_0 : boff 0 = 0%nat.
Proof. done. Qed.

Lemma boff_end : boff n = length es.
Proof. unfold boff. by rewrite take_ge by (by rewrite length_fmap). Qed.

Lemma handle_at j k h : ies !! j = Some (k, h) → ies.*2 !! j = Some h.
Proof. intros E. by rewrite list_lookup_fmap, E. Qed.

Lemma boff_S j k h : ies !! j = Some (k, h) → boff (S j) = (boff j + length (blk h))%nat.
Proof.
  intros E. unfold boff. rewrite (take_S_r _ _ h) by (by eapply handle_at).
  rewrite fmap_app, concat_app, length_app. cbn. by rewrite app_nil_r.
Qed.

Lemma es_split j k h :
  ies !! j = Some (k, h) →
  es = concat (blk <$> take j ies.*2) ++ blk h ++ concat (blk <$> drop (S j) ies.*2).
Proof.
  intros E. rewrite <-(take_drop_middle _ j h (handle_at j k h E)) at 1.
  by rewrite fmap_app, concat_app.
Qed.

Lemma es_lookup j k h p :
  ies !! j = Some (k, h) → (p < length (blk h))%nat → es !! (boff j + p)%nat = blk h !! p.
Proof.
  intros E Hp. rewrite (es_split j k h E). unfold boff. rewrite lookup_app_r by lia.
  rewrite Nat.add_comm, Nat.add_sub. by apply lookup_app_l.
Qed.

Lemma boff_le j k h : ies !! j = Some (k, h) → (boff j + length (blk h) ≤ length es)%nat.
Proof. intros E. rewrite (es_split j k h E), !length_app. unfold boff. lia. Qed.

(** ** States *)

(** Between operations on the index and on the block. *)
Definition tl_base t (j : nat) : Prop :=
  arg_ok (arg_ t) ∧ tl_status_ t = OK ∧ w_at (index_iter_ t) ies j ∧
  (iter_ (data_iter_ t) = None ∧ valid_ (data_iter_ t) = false ∨
   ∃ p, w_at (data_iter_ t) (blk (data_block_handle_ t)) p).

(** At entry [p] of block [j], or past the last block. *)
Definition in_block t (j p : nat) : Prop :=
  tl_base t j ∧
  (j = n ∧ p = 0%nat ∧ iter_ (data_iter_ t) = None ∨
   ∃ k h, ies !! j = Some (k, h) ∧ data_block_handle_ t = h ∧ w_at (data_iter_ t) (blk h) p).

Definition tl_at t (i : nat) : Prop :=
  ∃ j p, in_block t j p ∧ i = (boff j + p)%nat ∧
    ∀ k h, ies !! j = Some (k, h) → (p < length (blk h))%nat.

Lemma w_at_has t l p : w_at (data_iter_ t) l p → has_data t = true.
Proof. intros (_ & (it & Hit & _) & _). unfold has_data. apply bool_decide_eq_true. by exists it. Qed.

Lemma no_data t : iter_ (data_iter_ t) = None → has_data t = false.
Proof. intros E. unfold has_data. rewrite E. apply bool_decide_eq_false. by intros [? ?]. Qed.

Lemma SetDataIterator_ok t d :
  tl_status_ t = OK → (iter_ (data_iter_ t) = None ∨ ∃ l p, w_at (data_iter_ t) l p) →
  (∀ it, d = Some it → ∃ p, positioned it (blk (data_block_handle_ t)) p) →
  ∃ data, SetDataIterator t d
      = Some (mkTwoLevel (arg_ t) OK (index_iter_ t) data (data_block_handle_ t)) ∧
    match d with
    | None => iter_ data = None ∧ valid_ data = false
    | Some _ => ∃ p, w_at data (blk (data_block_handle_ t)) p
    end.
Proof.
  intros Hs Hd Hit. unfold SetDataIterator.
  assert (E : (if has_data t then s ← w_status (data_iter_ t); Some (SaveError t s)
               else Some (tl_status_ t)) = Some OK).
  { destruct Hd as [Hn|(l & p & Hp)].
    - by rewrite (no_data t Hn), Hs.
    - rewrite (w_at_has t l p Hp), (w_at_status _ _ _ Hp). simpl_bind. unfold SaveError. by rewrite Hs. }
  rewrite E. simpl_bind. destruct d as [it|]; cbn [w_Set].
  - destruct (Hit it eq_refl) as [p Hp]. destruct (w_Update_at (data_iter_ t) it _ p Hp) as (w & -> & Hw).
    simpl_bind. exists w. split; [done|]. by exists p.
  - simpl_bind. eexists. done.
Qed.

Lemma SetDataIterator_none t j :
  tl_base t j → ∃ t', SetDataIterator t None = Some t' ∧ tl_base t' j ∧ iter_ (data_iter_ t') = None.
Proof.
  intros (Ha & Hs & Hi & Hd). destruct (SetDataIterator_ok t None Hs) as (data & -> & Hn & Hv); [|done|].
  { destruct Hd as [[? _]|[p ?]]; [by left|right; eauto]. }
  eexists. split; [done|]. split; [|done]. split_and!; [done..|]. by left.
Qed.

Lemma tl_at_data t i :
  tl_at t i → (i < length es)%nat →
  ∃ j k h p, in_block t j p ∧ ies !! j = Some (k, h) ∧ (p < length (blk h))%nat ∧ i = (boff j + p)%nat ∧
    data_block_handle_ t = h ∧ w_at (data_iter_ t) (blk h) p.
Proof.
  intros (j & p & Hp & -> & Hlt) Hi. pose proof Hp as [_ [(-> & -> & _)|(k & h & E & Hh & Hw)]].
  - rewrite boff_end in Hi. lia.
  - exists j, k, h, p. split; [done|]. split; [done|]. split; [by eapply Hlt|]. done.
Qed.

Lemma tl_at_valid t i : tl_at t i → (i ≤ length es)%nat ∧ tl_Valid t = (i <? length es)%nat.
Proof.
  intros (j & p & [(_ & _ & _ & Hd) Hp] & -> & Hlt). unfold tl_Valid, w_Valid.
  destruct Hp as [(-> & -> & Hn)|(k & h & E & Hh & Hw)].
  - rewrite boff_end, Nat.add_0_r, Nat.ltb_irrefl. split; [done|].
    destruct Hd as [[_ ?]|(q & _ & (it & Hit & _) & _)]; [done|]. congruence.
  - pose proof (boff_le j k h E). specialize (Hlt k h E). pose proof (w_at_valid _ _ _ Hw) as Hv.
    unfold w_Valid in Hv. rewrite Hv, !(proj2 (Nat.ltb_lt _ _)) by lia. split; [lia|done].
Qed.

Lemma tl_at_shows t i :
  tl_at t i → (∀ k v, es !! i = Some (k, v) → tl_key t = Some k ∧ tl_value t = Some v) ∧
  tl_status t = Some OK.
Proof.
  intros Ht. destruct (tl_at_valid t i Ht) as [Hle Hv]. split.
  - intros k v He. pose proof (lookup_lt_Some _ _ _ He) as Hi.
    destruct (tl_at_data t i Ht Hi) as (j & ik & h & p & Hp & E & Hlt & -> & _ & Hw).
    rewrite (es_lookup j ik h p E Hlt) in He. unfold tl_key, tl_value. rewrite Hv, (proj2 (Nat.ltb_lt _ _) Hi).
    by apply (w_at_entry _ _ _ _ _ Hw).
  - destruct Ht as (j & p & [(_ & Hs & Hi & Hd) _] & _). unfold tl_status.
    rewrite (w_at_status _ _ _ Hi). simpl_bind. cbn [ok negb].
    destruct Hd as [[Hn _]|[q Hq]].
    + by rewrite (no_data t Hn), Hs.
    + rewrite (w_at_has _ _ _ Hq), (w_at_status _ _ _ Hq). simpl_bind. cbn [ok negb]. by rewrite Hs.
Qed.

Lemma NewTwoLevelIterator_at index_iter q arg :
  positioned index_iter ies q → q = n → arg_ok arg →
  ∃ t, NewTwoLevelIterator index_iter arg = Some t ∧ tl_at t (length es).
Proof.
  intros Hq -> Ha. unfold NewTwoLevelIterator, NewWrapper. cbn [w_Set].
  destruct (w_Update_at (mkWrapper None false []) index_iter ies n Hq) as (w & -> & Hw). simpl_bind.
  eexists. split; [done|]. exists n, 0%nat. split; [|split; [by rewrite boff_end, Nat.add_0_r|]].
  - split; [|by left]. split_and!; [done..|]. by left.
  - intros k h E%lookup_lt_Some. lia.
Qed.

Context (Hbf : block_function_ok).

Lemma InitDataBlock_base t j :
  tl_base t j → ∃ t' p, InitDataBlock block_function t = Some t' ∧ in_block t' j p.
Proof.
  intros Hb. pose proof Hb as (Ha & Hs & Hi & Hd). unfold InitDataBlock.
  rewrite (w_at_valid _ _ _ Hi). pose proof (w_at_le _ _ _ Hi) as Hle.
  destruct (Nat.ltb_spec j n) as [Hlt|Hge]; cbn [negb].
  - destruct (lookup_lt_is_Some_2 ies j Hlt) as [[k h] Hkh].
    destruct (w_at_entry _ _ _ _ _ Hi Hkh) as [_ ->]. simpl_bind. rewrite slice_compare_lex.
    destruct (has_data t && (lex h (data_block_handle_ t) =? 0)) eqn:E.
    + apply andb_true_iff in E as [Hh Heq%Z.eqb_eq%lex_eq].
      destruct Hd as [[Hn _]|[p Hp]]; [by rewrite (no_data t Hn) in Hh|].
      exists t, p. split; [done|]. split; [done|]. right. exists k, h. split; [done|]. split; [done|]. by rewrite Heq.
    + destruct (Hbf (arg_ t) h Ha) as (a' & it & p & -> & Ha' & Hp).
      { apply list_elem_of_lookup. exists j. by eapply handle_at. }
      simpl_bind. destruct (SetDataIterator_ok
        (mkTwoLevel a' (tl_status_ t) (index_iter_ t) (data_iter_ t) h) (Some it) Hs)
        as (data & -> & q & Hq).
      { cbn. destruct Hd as [[? _]|[q ?]]; [by left|right; eauto]. }
      { intros it' [= <-]. by exists p. }
      eexists _, q. split; [done|]. split; [split_and!; [done..|right; by exists q]|].
      right. by exists k, h.
  - destruct (SetDataIterator_none t j Hb) as (t' & -> & Hb' & Hn).
    exists t', 0%nat. split; [done|]. split; [done|]. left. split; [lia|done].
Qed.

(** ** Moving the two iterators *)

Lemma index_apply_base t i j o :
  tl_base t i → cursor_op ies i o = Some j → ∃ t', index_apply t o = Some t' ∧ tl_base t' j.
Proof.
  intros (Ha & Hs & Hi & Hd) E. unfold index_apply.
  destruct (w_apply_at _ _ _ _ _ Hi E) as (w & -> & Hw). simpl_bind. by eexists.
Qed.

Lemma data_apply_block t j p q o k h :
  in_block t j p → ies !! j = Some (k, h) → cursor_op (blk h) p o = Some q →
  ∃ t', data_apply t o = Some t' ∧ in_block t' j q.
Proof.
  intros [(Ha & Hs & Hi & _) [(-> & _)|(k' & h' & E' & Hh & Hp)]] E Hq.
  { apply lookup_lt_Some in E. lia. }
  rewrite E in E'. injection E' as <- <-. unfold data_apply.
  destruct (w_apply_at _ _ _ _ _ Hp Hq) as (w & -> & Hw). simpl_bind. eexists. split; [done|].
  split; [|right; by exists k, h]. split_and!; [done..|]. right. exists q. cbn. by rewrite Hh.
Qed.

(** [InitDataBlock] and then an operation on the block, which does not depend
    on where the block's iterator is. *)
Lemma load_block t j o f :
  tl_base t j → (∀ l p, cursor_op l p o = Some (f l)) →
  ∃ t1 t', InitDataBlock block_function t = Some t1 ∧ data_apply_if t1 o = Some t' ∧
    ∀ k h, (ies !! j = Some (k, h) → in_block t' j (f (blk h))) ∧ (j = n → in_block t' j 0).
Proof.
  intros Hb Ho. destruct (InitDataBlock_base t j Hb) as (t1 & p & E1 & Hp).
  exists t1. pose proof Hp as [_ [(-> & Hp0 & Hn)|(k & h & E & _ & Hw)]]; unfold data_apply_if.
  - rewrite (no_data _ Hn). exists t1. split; [done|]. split; [done|]. intros k h. split.
    + intros E%lookup_lt_Some. lia.
    + intros _. by rewrite <-Hp0.
  - rewrite (w_at_has _ _ _ Hw).
    destruct (data_apply_block t1 j p _ o k h Hp E (Ho _ _)) as (t' & -> & Ht').
    exists t'. split; [done|]. split; [done|]. intros k' h'. split.
    + rewrite E. by intros [= <- <-].
    + intros ->. apply lookup_lt_Some in E. lia.
Qed.

Context (Hfuel : (n < fuel)%nat).

Lemma in_block_valid t j p k h :
  in_block t j p → ies !! j = Some (k, h) →
  negb (has_data t) || negb (w_Valid (data_iter_ t)) = negb (p <? length (blk h))%nat.
Proof.
  intros [_ [(-> & _)|(k' & h' & E' & Hh & Hp)]] E; [apply lookup_lt_Some in E; lia|].
  rewrite E in E'. injection E' as <- <-. by rewrite (w_at_has _ _ _ Hp), (w_at_valid _ _ _ Hp).
Qed.

(** Past the last block. *)
Lemma skip_empty_end step start m t :
  in_block t n 0 → ∃ t', skip_empty block_function step start m t = Some t' ∧ tl_at t' (length es).
Proof.
  intros [Hb [(_ & _ & Hn)|(k & h & E & _)]]; [|apply lookup_lt_Some in E; lia].
  pose proof Hb as (_ & _ & Hi & _).
  destruct (SetDataIterator_none t n Hb) as (t' & E & Hb' & Hn').
  destruct m; cbn [skip_empty]; rewrite (no_data t Hn), (w_at_valid _ _ _ Hi), Nat.ltb_irrefl; cbn [negb orb].
  all: rewrite E; exists t'; split; [done|]; exists n, 0%nat; split; [split; [done|by left]|].
  all: split; [by rewrite boff_end, Nat.add_0_r|]; intros k h Hk%lookup_lt_Some; lia.
Qed.

Lemma tl_at_block t j p k h :
  in_block t j p → ies !! j = Some (k, h) → (p < length (blk h))%nat → tl_at t (boff j + p).
Proof.
  intros Hp E Hlt. exists j, p. split; [done|]. split; [done|]. intros k' h' E'. congruence.
Qed.

(** Forward, from position [p] of block [j]: to the entry at that position of
    the concatenation. *)
Lemma skip_forward t j p m :
  in_block t j p → (n - j < m)%nat →
  ∃ t', skip_empty block_function OpNext OpSeekToFirst m t = Some t' ∧ tl_at t' (boff j + p).
Proof.
  revert t j p. induction m as [|m IH]; intros t j p Hp Hm; [lia|].
  pose proof Hp as [Hb [(-> & -> & _)|(k & h & E & Hh & Hw)]].
  { rewrite boff_end, Nat.add_0_r. by apply skip_empty_end. }
  pose proof (lookup_lt_Some _ _ _ E) as Hj. cbn [skip_empty]. rewrite (in_block_valid t j p k h Hp E).
  destruct (Nat.ltb_spec p (length (blk h))) as [Hlt|Hge]; cbn [negb].
  { exists t. split; [done|]. by eapply tl_at_block. }
  pose proof (w_at_le _ _ _ Hw) as Hle.
  replace (boff j + p)%nat with (boff (S j) + 0)%nat by (rewrite (boff_S j k h E); lia).
  pose proof Hb as (_ & _ & Hi & _). rewrite (w_at_valid _ _ _ Hi), (proj2 (Nat.ltb_lt _ _) Hj). cbn [negb].
  destruct (index_apply_base t j (S j) OpNext Hb) as (t1 & -> & Hb1).
  { cbn [cursor_op]. by rewrite (proj2 (Nat.ltb_lt _ _) Hj). }
  simpl_bind. destruct (load_block t1 (S j) OpSeekToFirst (λ _, 0%nat) Hb1) as (t2 & t3 & -> & E3 & H3); [done|].
  simpl_bind. rewrite E3. simpl_bind. apply IH; [|lia].
  destruct (decide (S j = n)) as [En|]; [exact (proj2 (H3 [] []) En)|].
  destruct (lookup_lt_is_Some_2 ies (S j) ltac:(lia)) as [[k' h'] E']. exact (proj1 (H3 k' h') E').
Qed.

(** The position before [i]; before the first there is none. *)
Definition pred_pos (i : nat) : nat := match i with O => length es | S i => i end.

(** Backward, from block [j]: to the entry of the block if there is one, else
    to the last entry before the block. *)
Lemma skip_backward t j p m k h :
  in_block t j p → ies !! j = Some (k, h) → (j < m)%nat →
  ∃ t', skip_empty block_function OpPrev OpSeekToLast m t = Some t' ∧
    tl_at t' (if (p <? length (blk h))%nat then boff j + p else pred_pos (boff j))%nat.
Proof.
  revert t j p k h. induction m as [|m IH]; intros t j p k h Hp E Hm; [lia|].
  pose proof Hp as [Hb _]. pose proof (lookup_lt_Some _ _ _ E) as Hj.
  cbn [skip_empty]. rewrite (in_block_valid t j p k h Hp E).
  destruct (Nat.ltb_spec p (length (blk h))) as [Hlt|Hge]; cbn [negb].
  { exists t. split; [done|]. by eapply tl_at_block. }
  pose proof Hb as (_ & _ & Hi & _). rewrite (w_at_valid _ _ _ Hi), (proj2 (Nat.ltb_lt _ _) Hj). cbn [negb].
  destruct (index_apply_base t j (match j with O => n | S j => j end) OpPrev Hb) as (t1 & -> & Hb1).
  { cbn [cursor_op]. by rewrite (proj2 (Nat.ltb_lt _ _) Hj). }
  simpl_bind.
  destruct (load_block t1 _ OpSeekToLast (λ l, length l - 1)%nat Hb1) as (t2 & t3 & -> & E3 & H3); [done|].
  simpl_bind. rewrite E3. simpl_bind. destruct j as [|j].
  { rewrite boff_0. apply skip_empty_end. exact (proj2 (H3 [] []) eq_refl). }
  destruct (lookup_lt_is_Some_2 ies j ltac:(lia)) as [[k' h'] E'].
  destruct (IH t3 j _ k' h' (proj1 (H3 k' h') E') E' ltac:(lia)) as (t' & -> & Ht').
  exists t'. split; [done|]. rewrite (boff_S j k' h' E').
  destruct (Nat.ltb_spec (length (blk h') - 1) (length (blk h'))) as [Hl|Hl].
  - replace (pred_pos _) with (boff j + (length (blk h') - 1))%nat; [done|].
    unfold pred_pos. destruct (boff j + length (blk h'))%nat eqn:?; lia.
  - replace (boff j + length (blk h'))%nat with (boff j) by lia. done.
Qed.

Context (Hindex : index_ok).

Lemma Forall_blocks (Q : list Z → Prop) hs :
  (∀ j h, hs !! j = Some h → Forall (λ e, Q e.1) (blk h)) → Forall Q (concat (blk <$> hs)).*1.
Proof.
  induction hs as [|h hs IH]; intros HQ; [constructor|]. cbn. rewrite fmap_app. apply Forall_app. split.
  - apply Forall_fmap. by apply (HQ 0%nat).
  - apply IH. intros j h' Hh'. by apply (HQ (S j)).
Qed.

Lemma before_target target j h :
  (j < seek_index ies.*1 target)%nat → ies.*2 !! j = Some h →
  Forall (λ e, Compare e.1 target < 0) (blk h).
Proof.
  intros Hj Hh. apply list_lookup_fmap_Some in Hh as ([k' h'] & -> & Hk).
  destruct (Hindex j k' h' Hk) as [Hin _]. eapply Forall_impl; [exact Hin|]. cbn. intros e He.
  apply (Compare_le_lt_trans _ k'); [done|].
  apply (seek_index_before ies.*1 target j); [done|]. by rewrite list_lookup_fmap, Hk.
Qed.

(** The block that the index gives for a target holds the first entry that is
    not before it, unless that is the first entry of a later block. *)
Lemma seek_split target k h :
  let j := seek_index ies.*1 target in
  ies !! j = Some (k, h) → seek_index es.*1 target = (boff j + seek_index (blk h).*1 target)%nat.
Proof.
  intros j E. destruct (Hindex j k h E) as [_ Hafter].
  assert (Hk : 0 ≤ Compare k target).
  { apply (seek_index_at ies.*1). fold j. by rewrite list_lookup_fmap, E. }
  rewrite (es_split j k h E), fmap_app, fmap_app, seek_index_app.
  - rewrite seek_index_app_r; [unfold boff; by rewrite length_fmap|].
    apply Forall_blocks. intros j' h' Hj'. rewrite lookup_drop in Hj'.
    apply list_lookup_fmap_Some in Hj' as ([k' h''] & -> & Hj').
    eapply Forall_impl; [exact (Hafter (S j + j')%nat k' h'' ltac:(lia) Hj')|]. cbn. intros e He.
    pose proof (Compare_anti k target). pose proof (Compare_anti e.1 target).
    assert (Compare target e.1 < 0); [|lia]. apply (Compare_le_lt_trans target k); [lia|done].
  - apply Forall_blocks. intros j' h' Hj'. apply lookup_take_Some in Hj' as [Hj' Hlt].
    by apply (before_target target j').
Qed.

Lemma seek_past target :
  seek_index ies.*1 target = n → seek_index es.*1 target = length es.
Proof.
  intros E. rewrite <-(app_nil_r es.*1), seek_index_app; [cbn; rewrite length_fmap; lia|].
  apply Forall_blocks. intros j' h' Hj'. apply (before_target target j'); [|done].
  rewrite E. apply lookup_lt_Some in Hj'. by rewrite length_fmap in Hj'.
Qed.

(** ** The operations *)

Abbreviation tl_iterator := (two_level_iterator fuel block_function).

Lemma tl_at_base t i : tl_at t i → ∃ j, tl_base t j.
Proof. intros (j & p & [Hb _] & _). by exists j. Qed.

(** The three seeks: position the index, load the block, position the block. *)
Lemma reposition t i o j f :
  tl_at t i → (∀ q, cursor_op ies q o = Some j) → (∀ l p, cursor_op l p o = Some (f l)) →
  ∃ t1 t2 t3, index_apply t o = Some t1 ∧ InitDataBlock block_function t1 = Some t2 ∧
    data_apply_if t2 o = Some t3 ∧
    ∀ k h, (ies !! j = Some (k, h) → in_block t3 j (f (blk h))) ∧ (j = n → in_block t3 j 0).
Proof.
  intros (q & Hb)%tl_at_base Hj Hf. destruct (index_apply_base t q j o Hb (Hj q)) as (t1 & E1 & Hb1).
  destruct (load_block t1 j o f Hb1 Hf) as (t2 & t3 & E2 & E3 & H3). by exists t1, t2, t3.
Qed.

Lemma tl_Seek_at t i target :
  tl_at t i → ∃ t', tl_Seek fuel block_function t target = Some t' ∧ tl_at t' (seek_index es.*1 target).
Proof.
  intros Ht. destruct (reposition t i (OpSeek target) (seek_index ies.*1 target)
    (λ l, seek_index l.*1 target) Ht) as (t1 & t2 & t3 & E1 & E2 & E3 & H3); [done..|].
  unfold tl_Seek. rewrite E1. simpl_bind. rewrite E2. simpl_bind. rewrite E3. simpl_bind.
  pose proof (seek_index_le ies.*1 target) as Hle. rewrite length_fmap in Hle.
  destruct (decide (seek_index ies.*1 target = n)) as [En|Hne].
  - rewrite (seek_past target En), <-boff_end, <-(Nat.add_0_r (boff n)), <-En.
    apply skip_forward; [|lia]. exact (proj2 (H3 [] []) En).
  - destruct (lookup_lt_is_Some_2 ies (seek_index ies.*1 target) ltac:(lia)) as [[k h] E].
    rewrite (seek_split target k h E). apply skip_forward; [|lia]. exact (proj1 (H3 k h) E).
Qed.

Lemma tl_SeekToFirst_at t i :
  tl_at t i → ∃ t', tl_SeekToFirst fuel block_function t = Some t' ∧ tl_at t' 0.
Proof.
  intros Ht. destruct (reposition t i OpSeekToFirst 0 (λ _, 0%nat) Ht)
    as (t1 & t2 & t3 & E1 & E2 & E3 & H3); [done..|].
  unfold tl_SeekToFirst. rewrite E1. simpl_bind. rewrite E2. simpl_bind. rewrite E3. simpl_bind.
  change 0%nat with (boff 0 + 0)%nat. apply skip_forward; [|lia].
  destruct (ies !! 0%nat) as [[k h]|] eqn:E; [exact (proj1 (H3 k h) eq_refl)|].
  apply (proj2 (H3 [] [])). apply lookup_ge_None in E. lia.
Qed.

Lemma tl_SeekToLast_at t i :
  tl_at t i → ∃ t', tl_SeekToLast fuel block_function t = Some t' ∧ tl_at t' (length es - 1).
Proof.
  intros Ht. destruct (reposition t i OpSeekToLast (n - 1) (λ l, length l - 1)%nat Ht)
    as (t1 & t2 & t3 & E1 & E2 & E3 & H3); [done..|].
  unfold tl_SeekToLast. rewrite E1. simpl_bind. rewrite E2. simpl_bind. rewrite E3. simpl_bind.
  destruct (ies !! (n - 1)%nat) as [[k h]|] eqn:E.
  - destruct (skip_backward t3 (n - 1) _ fuel k h (proj1 (H3 k h) eq_refl) E ltac:(lia)) as (t' & Et & Ht').
    exists t'. split; [exact Et|]. pose proof (lookup_lt_Some _ _ _ E).
    pose proof (boff_S _ _ _ E) as HS. replace (S (n - 1)) with n in HS by lia. rewrite boff_end in HS.
    destruct (Nat.ltb_spec (length (blk h) - 1) (length (blk h))) as [Hl|Hl].
    + replace (length es - 1)%nat with (boff (n - 1) + (length (blk h) - 1))%nat by lia. done.
    + replace (length es - 1)%nat with (pred_pos (boff (n - 1))); [done|].
      unfold pred_pos. destruct (boff (n - 1)); lia.
  - apply lookup_ge_None in E. assert (n = 0%nat) as En by lia.
    destruct (skip_empty_end OpPrev OpSeekToLast fuel t3) as (t' & Et & Ht').
    { replace n with (n - 1)%nat at 1 by lia. apply (proj2 (H3 [] [])). lia. }
    exists t'. split; [exact Et|]. rewrite <-boff_end, En in *. done.
Qed.

Lemma tl_Next_at t i :
  tl_at t i → (i < length es)%nat → ∃ t', tl_Next fuel block_function t = Some t' ∧ tl_at t' (S i).
Proof.
  intros Ht Hi. destruct (tl_at_valid t i Ht) as [_ Hv].
  destruct (tl_at_data t i Ht Hi) as (j & k & h & p & Hp & E & Hlt & -> & _).
  unfold tl_Next. rewrite Hv, (proj2 (Nat.ltb_lt _ _) Hi).
  destruct (data_apply_block t j p (S p) OpNext k h Hp E) as (t1 & -> & H1).
  { cbn [cursor_op]. by rewrite (proj2 (Nat.ltb_lt _ _) Hlt). }
  simpl_bind. rewrite <-Nat.add_succ_r. apply skip_forward; [done|lia].
Qed.

Lemma tl_Prev_at t i :
  tl_at t i → (i < length es)%nat →
  ∃ t', tl_Prev fuel block_function t = Some t' ∧ tl_at t' (match i with O => length es | S j => j end).
Proof.
  intros Ht Hi. destruct (tl_at_valid t i Ht) as [_ Hv].
  destruct (tl_at_data t i Ht Hi) as (j & k & h & p & Hp & E & Hlt & Ei & _).
  unfold tl_Prev. rewrite Hv, (proj2 (Nat.ltb_lt _ _) Hi).
  destruct (data_apply_block t j p (match p with O => length (blk h) | S p => p end) OpPrev k h Hp E)
    as (t1 & -> & H1).
  { cbn [cursor_op]. by rewrite (proj2 (Nat.ltb_lt _ _) Hlt). }
  simpl_bind. pose proof (lookup_lt_Some _ _ _ E).
  destruct (skip_backward t1 j _ fuel k h H1 E ltac:(lia)) as (t' & Et & Ht'). exists t'.
  split; [exact Et|]. subst i. destruct p as [|p].
  - by rewrite Nat.ltb_irrefl, Nat.add_0_r in *.
  - rewrite (proj2 (Nat.ltb_lt _ _)) in Ht' by lia. by rewrite Nat.add_succ_r.
Qed.

Lemma tl_op_at t i o j :
  tl_at t i → cursor_op es i o = Some j → ∃ t', i_apply (H := tl_iterator) t o = Some t' ∧ tl_at t' j.
Proof.
  intros Ht. destruct o as [| |target| |]; cbn [cursor_op i_apply].
  - intros [= <-]. by apply (tl_SeekToFirst_at t i).
  - intros [= <-]. by apply (tl_SeekToLast_at t i).
  - intros [= <-]. by apply (tl_Seek_at t i).
  - destruct (Nat.ltb_spec i (length es)) as [Hi|]; [|done]. intros [= <-]. by apply tl_Next_at.
  - destruct (Nat.ltb_spec i (length es)) as [Hi|]; [|done]. intros [= <-]. by apply tl_Prev_at.
Qed.

End spec.

(** The two-level iterator as an iterator: its entries are those of the
    blocks, in the order of the index. *)
Section laws.
Context {C : Comparator} {HC : ComparatorLaws C} {A : Type} `{Iterator T1} `{Iterator T2}.
Context `{!IteratorLaws T1} `{!IteratorLaws T2} (fuel : nat).
Context (block_function : A → list Z → option (A * T2)).

Definition tl_positioned (t : TwoLevelIterator A T1 T2) (es : list (list Z * list Z)) (i : nat) : Prop :=
  ∃ arg_ok blk ies, block_function_ok block_function arg_ok blk ies ∧ (length ies < fuel)%nat ∧
    index_ok blk ies ∧ es = concat (blk <$> ies.*2) ∧ tl_at arg_ok blk ies t i.

Definition two_level_laws :
  IteratorLaws (H := two_level_iterator fuel block_function) (TwoLevelIterator A T1 T2).
Proof.
  exists tl_positioned.
  - intros t es i o j (arg_ok & blk & ies & Hbf & Hfuel & Hindex & -> & Ht) E.
    destruct (tl_op_at fuel block_function arg_ok blk ies Hbf Hfuel Hindex t i o j Ht E) as (t' & Et & Ht').
    exists t'. split; [done|]. by exists arg_ok, blk, ies.
  - intros t es i (arg_ok & blk & ies & Hbf & Hfuel & Hindex & -> & Ht).
    destruct (tl_at_valid arg_ok blk ies t i Ht) as [Hle Hv].
    destruct (tl_at_shows arg_ok blk ies t i Ht) as [He Hs]. by split_and!.
Defined.

Lemma NewTwoLevelIterator_positioned arg_ok blk ies index_iter arg :
  block_function_ok block_function arg_ok blk ies → (length ies < fuel)%nat → index_ok blk ies →
  positioned index_iter ies (length ies) → arg_ok arg →
  ∃ t, NewTwoLevelIterator index_iter arg = Some t ∧
    tl_positioned t (concat (blk <$> ies.*2)) (length (concat (blk <$> ies.*2))).
Proof.
  intros Hbf Hfuel Hindex Hi Ha.
  destruct (NewTwoLevelIterator_at arg_ok blk ies index_iter (length ies) arg Hi eq_refl Ha) as (t & Et & Ht).
  exists t. split; [done|]. by exists arg_ok, blk, ies.
Qed.
End laws.
