(* ===== verification/Merger.v ===== *)
(** leveldb's merging iterator: leveldb/table/merger.cc.

    [current_] is the number of a child.  [None] is a failed [assert]. *)

From Stdlib Require Import ZArith Lia.
From stdpp Require Import base option numbers list sorting.
From S2P Require Import Prelude Slice Iterator.

Inductive Direction := kForward | kReverse.

#[export] Instance Direction_eq_dec : EqDecision Direction.
Proof. solve_decision. Defined.

Record MergingIterator (T : Type) := mkMerging {
  children_ : list (IteratorWrapper T);
  m_current_ : option nat;
  direction_ : Direction
}.
Arguments mkMerging {T}.
Arguments children_ {T}.
Arguments m_current_ {T}.
Arguments direction_ {T}.

Section merger.
Context {C : Comparator} `{Iterator T}.
Implicit Types (m : MergingIterator T) (cs : list (IteratorWrapper T)).

(** The loop of [FindSmallest] and of [FindLargest] over the children [order];
    [better] is the test on the result of [Compare]. *)
Fixpoint find_best (better : Z → bool) cs (order : list nat) (best : option nat) : option (option nat) :=
  match order with
  | [] => Some best
  | i :: order =>
      child ← cs !! i;
      best ← (if w_Valid child then
                match best with
                | None => Some (Some i)
                | Some b =>
                    bchild ← cs !! b;
                    k ← w_key child; bk ← w_key bchild;
                    Some (if better (Compare k bk) then Some i else best)
                end
              else Some best);
      find_best better cs order best
  end.

Definition FindSmallest cs : option (option nat) :=
  find_best (λ c, c <? 0) cs (seq 0 (length cs)) None.

Definition FindLargest cs : option (option nat) :=
  find_best (λ c, 0 <? c) cs (rev (seq 0 (length cs))) None.

Definition NewMerging (children : list T) : option (MergingIterator T) :=
  cs ← mapM (λ it, NewWrapper (Some it)) children;
  Some (mkMerging cs None kForward).

Definition m_Valid m : bool := bool_decide (is_Some (m_current_ m)).

(** [SeekToFirst], [Seek] and [SeekToLast]. *)
Definition m_SeekToFirst m : option (MergingIterator T) :=
  cs ← mapM (λ c, w_apply c OpSeekToFirst) (children_ m);
  current ← FindSmallest cs;
  Some (mkMerging cs current kForward).

Definition m_SeekToLast m : option (MergingIterator T) :=
  cs ← mapM (λ c, w_apply c OpSeekToLast) (children_ m);
  current ← FindLargest cs;
  Some (mkMerging cs current kReverse).

Definition m_Seek m (target : list Z) : option (MergingIterator T) :=
  cs ← mapM (λ c, w_apply c (OpSeek target)) (children_ m);
  current ← FindSmallest cs;
  Some (mkMerging cs current kForward).

Definition m_key m : option (list Z) :=
  current ← m_current_ m; child ← children_ m !! current; w_key child.

Definition m_value m : option (list Z) :=
  current ← m_current_ m; child ← children_ m !! current; w_value child.

(** [for (int i = 0; i < n_; i++)] over the children but [current_]; [i] of
    them are behind. *)
Fixpoint others (f : IteratorWrapper T → option (IteratorWrapper T)) (current i : nat) cs
  : option (list (IteratorWrapper T)) :=
  match cs with
  | [] => Some []
  | child :: cs =>
      child ← (if (i =? current)%nat then Some child else f child);
      cs ← others f current (S i) cs;
      Some (child :: cs)
  end.

(** Position a child after [key]. *)
Definition child_after (key : list Z) (child : IteratorWrapper T) : option (IteratorWrapper T) :=
  child ← w_apply child (OpSeek key);
  if w_Valid child then
    k ← w_key child;
    if Compare key k =? 0 then w_apply child OpNext else Some child
  else Some child.

(** Position a child before [key]. *)
Definition child_before (key : list Z) (child : IteratorWrapper T) : option (IteratorWrapper T) :=
  child ← w_apply child (OpSeek key);
  if w_Valid child then w_apply child OpPrev else w_apply child OpSeekToLast.

(** [current_->Next()] or [current_->Prev()]. *)
Definition step_current (o : iter_op) cs (current : nat) : option (list (IteratorWrapper T)) :=
  child ← cs !! current;
  child ← w_apply child o;
  Some (<[current := child]> cs).

Definition m_Next m : option (MergingIterator T) :=
  current ← m_current_ m (* assert *);
  cs ← (if decide (direction_ m = kForward) then Some (children_ m)
        else key ← m_key m; others (child_after key) current 0 (children_ m));
  cs ← step_current OpNext cs current;
  current ← FindSmallest cs;
  Some (mkMerging cs current kForward).

Definition m_Prev m : option (MergingIterator T) :=
  current ← m_current_ m (* assert *);
  cs ← (if decide (direction_ m = kReverse) then Some (children_ m)
        else key ← m_key m; others (child_before key) current 0 (children_ m));
  cs ← step_current OpPrev cs current;
  current ← FindLargest cs;
  Some (mkMerging cs current kReverse).

(** The status of the first child that has one which is not OK. *)
Fixpoint children_status cs (status : Status) : option Status :=
  match cs with
  | [] => Some status
  | child :: cs =>
      status ← w_status child;
      if negb (ok status) then Some status else children_status cs status
  end.

Definition m_status m : option Status := children_status (children_ m) OK.

#[export] Instance merging_iterator : Iterator (MergingIterator T) := {|
  i_Valid := m_Valid;
  i_SeekToFirst := m_SeekToFirst;
  i_SeekToLast := m_SeekToLast;
  i_Seek := m_Seek;
  i_Next := m_Next;
  i_Prev := m_Prev;
  i_key := m_key;
  i_value := m_value;
  i_status := m_status
|}.

Definition NewMergingIterator (list_ : list T) : option (EmptyIterator + (T + MergingIterator T)) :=
  match list_ with
  | [] => Some (inl NewEmptyIterator)
  | [it] => Some (inr (inl it))
  | _ => m ← NewMerging list_; Some (inr (inr m))
  end.
End merger.

(** The merging iterator (Merger.v) behaves like a cursor over the sorted list
    of the entries of its children, no two of which have the same key. *)

Section order.
Context {C : Comparator} {HC : ComparatorLaws C}.
Implicit Types (L : list (list Z * list Z)).

Definition key_lt (x y : list Z * list Z) : Prop := Compare x.1 y.1 < 0.

Lemma sorted_lt L a b x y :
  StronglySorted key_lt L → L !! a = Some x → L !! b = Some y → (a < b)%nat → key_lt x y.
Proof.
  intros Hs. revert a b. induction Hs as [|z L Hs IH Hz]; intros a b Ha Hb Hlt; [done|].
  destruct b as [|b]; [lia|]. destruct a as [|a].
  - injection Ha as ->. cbn in Hb. rewrite Forall_forall in Hz. apply Hz. by eapply list_elem_of_lookup_2.
  - apply (IH a b); [done..|lia].
Qed.

Lemma sorted_index_lt L a b x y :
  StronglySorted key_lt L → L !! a = Some x → L !! b = Some y → Compare x.1 y.1 < 0 → (a < b)%nat.
Proof.
  intros Hs Ha Hb Hlt. destruct (decide (a < b)%nat) as [|Hge]; [done|exfalso].
  destruct (decide (a = b)) as [->|].
  - rewrite Ha in Hb. injection Hb as ->. rewrite Compare_refl in Hlt. lia.
  - pose proof (sorted_lt L b a y x Hs Hb Ha ltac:(lia)) as Hyx. unfold key_lt in Hyx.
    pose proof (Compare_anti x.1 y.1). lia.
Qed.

Lemma sorted_index_eq L a b x y :
  StronglySorted key_lt L → L !! a = Some x → L !! b = Some y → Compare x.1 y.1 = 0 → a = b.
Proof.
  intros Hs Ha Hb Heq. destruct (Nat.lt_trichotomy a b) as [Hlt|[|Hlt]]; [|done|].
  - pose proof (sorted_lt L a b x y Hs Ha Hb Hlt) as Hxy. unfold key_lt in Hxy. lia.
  - pose proof (sorted_lt L b a y x Hs Hb Ha Hlt) as Hyx. unfold key_lt in Hyx.
    pose proof (Compare_anti x.1 y.1). lia.
Qed.

Lemma sorted_unique L L' : StronglySorted key_lt L → StronglySorted key_lt L' → L ≡ₚ L' → L = L'.
Proof.
  intros Hs. revert L'. induction Hs as [|x L Hs IH Hx]; intros L' Hs' Hp.
  { by apply Permutation_nil_l in Hp as ->. }
  destruct L' as [|y L']; [by apply Permutation_nil_r in Hp|].
  inversion Hs' as [|? ? Hs2 Hy]; subst.
  assert (x = y) as ->; [|f_equal; apply IH; [done|by apply Permutation_cons_inv in Hp]].
  assert (Hx' : x ∈ y :: L') by (rewrite <-Hp; apply elem_of_cons; by left).
  assert (Hy' : y ∈ x :: L) by (rewrite Hp; apply elem_of_cons; by left).
  apply elem_of_cons in Hx' as [|Hx']; [done|]. apply elem_of_cons in Hy' as [->|Hy']; [done|exfalso].
  rewrite Forall_forall in Hx, Hy. specialize (Hx y Hy'). specialize (Hy x Hx'). unfold key_lt in *.
  pose proof (Compare_anti x.1 y.1). lia.
Qed.

(** How many entries are before [k]. *)
Definition rank L (k : list Z) : nat := seek_index L.*1 k.

Lemma rank_le L k : (rank L k ≤ length L)%nat.
Proof. unfold rank. rewrite <-(length_fmap fst L). apply seek_index_le. Qed.

Lemma rank_unique L k p :
  (p ≤ length L)%nat → (∀ q e, (q < p)%nat → L !! q = Some e → Compare e.1 k < 0) →
  (∀ e, L !! p = Some e → 0 ≤ Compare e.1 k) → rank L k = p.
Proof.
  intros Hp Hlt Hge. apply seek_index_unique.
  - by rewrite length_fmap.
  - intros q k' Hq (e & -> & He)%list_lookup_fmap_Some. by apply (Hlt q).
  - intros k' (e & -> & He)%list_lookup_fmap_Some. by apply Hge.
Qed.

Lemma rank_before L k q e : (q < rank L k)%nat → L !! q = Some e → Compare e.1 k < 0.
Proof. intros Hq He. apply (seek_index_before L.*1 k q); [done|]. by rewrite list_lookup_fmap, He. Qed.

Lemma rank_at L k e : L !! rank L k = Some e → 0 ≤ Compare e.1 k.
Proof. intros He. unfold rank in He. apply (seek_index_at L.*1 k). by rewrite list_lookup_fmap, He. Qed.

Lemma rank_of L p e : StronglySorted key_lt L → L !! p = Some e → rank L e.1 = p.
Proof.
  intros Hs He. apply rank_unique.
  - apply lookup_lt_Some in He. lia.
  - intros q e' Hq He'. by apply (sorted_lt L q p).
  - intros e' He'. rewrite He in He'. injection He' as ->. rewrite Compare_refl. lia.
Qed.

(** Moving the key up without passing an entry. *)
Lemma rank_up L k k' :
  Compare k k' ≤ 0 → (∀ e, e ∈ L → 0 ≤ Compare e.1 k → 0 ≤ Compare e.1 k') → rank L k' = rank L k.
Proof.
  intros Hk He. apply rank_unique; [apply rank_le| |].
  - intros q e Hq Hqe. apply (Compare_lt_le_trans _ k); [by eapply rank_before|done].
  - intros e Hre. apply He; [by eapply list_elem_of_lookup_2|by eapply rank_at].
Qed.

(** The position before [r]; before the first there is none. *)
Definition pred_in L (r : nat) : nat := match r with O => length L | S r => r end.
End order.

Section spec.
Context {C : Comparator} {HC : ComparatorLaws C} `{Iterator T} `{!IteratorLaws T}.
Implicit Types (m : MergingIterator T) (cs : list (IteratorWrapper T)).

Context (Ls : list (list (list Z * list Z))) (es : list (list Z * list Z)).
Context (Hperm : es ≡ₚ concat Ls) (Hes : StronglySorted key_lt es) (HLs : Forall (StronglySorted key_lt) Ls).

(** No two children have the same key. *)
Definition distinct : Prop :=
  ∀ c c' L L' x y, c ≠ c' → Ls !! c = Some L → Ls !! c' = Some L' → x ∈ L → y ∈ L' → Compare x.1 y.1 ≠ 0.
Context (Hdis : distinct).

Lemma member c L q e : Ls !! c = Some L → L !! q = Some e → ∃ i, es !! i = Some e.
Proof.
  intros HL He. apply list_elem_of_lookup. rewrite Hperm. apply list_elem_of_In, in_concat.
  exists L. split; apply list_elem_of_In; by eapply list_elem_of_lookup_2.
Qed.

Lemma holder i e : es !! i = Some e → ∃ c L q, Ls !! c = Some L ∧ L !! q = Some e.
Proof.
  intros He%list_elem_of_lookup_2. rewrite Hperm in He. apply list_elem_of_In, in_concat in He as (L & HL & He).
  apply list_elem_of_In, list_elem_of_lookup in HL as [c Hc], He as [q Hq]. by exists c, L, q.
Qed.

(** ** The children *)

(** Child [c] is over the list [c], at a position that [P] allows. *)
Definition kids cs (P : nat → list (list Z * list Z) → nat → Prop) : Prop :=
  length cs = length Ls ∧
  ∀ c w L, cs !! c = Some w → Ls !! c = Some L → ∃ p, w_at w L p ∧ P c L p.

Lemma kids_lookup cs P c L :
  kids cs P → Ls !! c = Some L → ∃ w p, cs !! c = Some w ∧ w_at w L p ∧ P c L p.
Proof.
  intros [Hlen Hk] HL. destruct (lookup_lt_is_Some_2 cs c) as [w Hw].
  { rewrite Hlen. by eapply lookup_lt_Some. }
  destruct (Hk c w L Hw HL) as (p & Hp & HP). by exists w, p.
Qed.

Lemma kids_list cs P c w : kids cs P → cs !! c = Some w → ∃ L p, Ls !! c = Some L ∧ w_at w L p ∧ P c L p.
Proof.
  intros [Hlen Hk] Hw. destruct (lookup_lt_is_Some_2 Ls c) as [L HL].
  { rewrite <-Hlen. by eapply lookup_lt_Some. }
  destruct (Hk c w L Hw HL) as (p & Hp & HP). by exists L, p.
Qed.

Lemma kids_impl cs P Q : kids cs P → (∀ c L p, Ls !! c = Some L → P c L p → Q c L p) → kids cs Q.
Proof.
  intros [Hlen Hk] HPQ. split; [done|]. intros c w L Hw HL. destruct (Hk c w L Hw HL) as (p & Hp & HP).
  exists p. split; [done|]. by apply HPQ.
Qed.

Lemma seek_kids cs P o f :
  kids cs P → (∀ l p, cursor_op l p o = Some (f l)) →
  ∃ cs', mapM (λ c, w_apply c o) cs = Some cs' ∧ kids cs' (λ _ L p, p = f L).
Proof.
  intros Hk Ho. pose proof Hk as [Hlen _].
  assert (Hm : ∃ cs', mapM (λ c, w_apply c o) cs = Some cs').
  { apply mapM_is_Some, Forall_lookup. intros c w Hw.
    destruct (kids_list cs P c w Hk Hw) as (L & p & _ & Hp & _).
    destruct (w_apply_at w L p o (f L) Hp (Ho L p)) as (w' & E & _). exists w'. exact E. }
  destruct Hm as [cs' Hm]. exists cs'. split; [done|]. apply mapM_Some_1 in Hm.
  split; [by rewrite <-Hlen; symmetry; eapply Forall2_length|]. intros c w' L Hw' HL.
  destruct (Forall2_lookup_r _ _ _ _ _ Hm Hw') as (w & Hw & E). cbn beta in E.
  destruct (kids_list cs P c w Hk Hw) as (L' & p & HL' & Hp & _). rewrite HL in HL'. injection HL' as <-.
  destruct (w_apply_at w L p o (f L) Hp (Ho L p)) as (w1 & E1 & H1). rewrite E in E1. injection E1 as <-.
  by exists (f L).
Qed.

Lemma others_kids f cur cs P Q :
  kids cs P →
  (∀ c L p w, c ≠ cur → Ls !! c = Some L → w_at w L p → P c L p →
     ∃ w' p', f w = Some w' ∧ w_at w' L p' ∧ Q c L p') →
  (∀ L p, Ls !! cur = Some L → P cur L p → Q cur L p) →
  ∃ cs', others f cur 0 cs = Some cs' ∧ kids cs' Q.
Proof.
  intros [Hlen Hk] Hf Hcur.
  assert (Hgo : ∀ cs0 i, (∀ c w, cs0 !! c = Some w → cs !! (i + c)%nat = Some w) →
    ∃ cs', others f cur i cs0 = Some cs' ∧ length cs' = length cs0 ∧
      ∀ c w L, cs' !! c = Some w → Ls !! (i + c)%nat = Some L → ∃ p, w_at w L p ∧ Q (i + c)%nat L p).
  { induction cs0 as [|w cs0 IH]; intros i Hi; cbn [others].
    { exists []. by split_and!. }
    destruct (IH (S i)) as (cs' & E' & Hl' & Hc').
    { intros c w' Hw'. rewrite Nat.add_succ_l, <-Nat.add_succ_r. by apply Hi. }
    pose proof (Hi 0%nat w eq_refl) as Hw. rewrite Nat.add_0_r in Hw.
    destruct (lookup_lt_is_Some_2 Ls i) as [L HL]; [rewrite <-Hlen; by eapply lookup_lt_Some|].
    destruct (Hk i w L Hw HL) as (p & Hp & HP).
    assert (Hstep : ∃ w' p', (if (i =? cur)%nat then Some w else f w) = Some w' ∧ w_at w' L p' ∧ Q i L p').
    { destruct (Nat.eqb_spec i cur) as [->|Hne].
      - exists w, p. split; [done|]. split; [done|]. by apply Hcur.
      - by apply (Hf i L p w). }
    destruct Hstep as (w' & p' & -> & Hp' & HQ'). simpl_bind. rewrite E'. simpl_bind.
    eexists. split; [done|]. split; [cbn; by rewrite Hl'|]. intros [|c] w1 L1 Hw1 HL1.
    - rewrite Nat.add_0_r in *. rewrite HL in HL1. injection HL1 as <-. injection Hw1 as <-. by exists p'.
    - rewrite Nat.add_succ_r, <-Nat.add_succ_l in *. by apply Hc'. }
  destruct (Hgo cs 0%nat ltac:(done)) as (cs' & E & Hl & Hc). exists cs'. split; [done|].
  split; [by rewrite Hl|]. exact Hc.
Qed.

Lemma step_current_kids cs cur P Q o L :
  kids cs P → Ls !! cur = Some L →
  (∀ p, P cur L p → ∃ p', cursor_op L p o = Some p' ∧ Q cur L p') →
  (∀ c L p, c ≠ cur → P c L p → Q c L p) →
  ∃ cs', step_current o cs cur = Some cs' ∧ kids cs' Q.
Proof.
  intros Hk HL Hcur Hoth. destruct (kids_lookup cs P cur L Hk HL) as (w & p & Hw & Hp & HP).
  destruct (Hcur p HP) as (p' & Ep & HQ). destruct (w_apply_at w L p o p' Hp Ep) as (w' & E & Hp').
  unfold step_current. rewrite Hw. simpl_bind. rewrite E. simpl_bind. eexists. split; [done|].
  destruct Hk as [Hlen Hk]. split; [by rewrite length_insert|]. intros c w1 L1 Hw1 HL1.
  destruct (decide (c = cur)) as [->|Hne].
  - rewrite list_lookup_insert_eq in Hw1 by (by eapply lookup_lt_Some). injection Hw1 as <-.
    rewrite HL in HL1. injection HL1 as <-. by exists p'.
  - rewrite list_lookup_insert_ne in Hw1 by done. destruct (Hk c w1 L1 Hw1 HL1) as (p1 & Hp1 & HP1).
    exists p1. split; [done|]. by apply Hoth.
Qed.

(** ** [FindSmallest] and [FindLargest] *)

(** Child [i] is at the entry [e]. *)
Definition shows cs (i : nat) (e : list Z * list Z) : Prop :=
  ∃ w, cs !! i = Some w ∧ w_Valid w = true ∧ w_key w = Some e.1 ∧ w_value w = Some e.2.

(** The child [b] is the only best of those that are at an entry. *)
Definition best_child better cs (b : nat) (e : list Z * list Z) : Prop :=
  shows cs b e ∧
  ∀ i e', i ≠ b → shows cs i e' → better (Compare e.1 e'.1) = true ∧ better (Compare e'.1 e.1) = false.

Lemma kids_cases cs P i :
  kids cs P → (i < length cs)%nat → (∃ e, shows cs i e) ∨ ∃ w, cs !! i = Some w ∧ w_Valid w = false.
Proof.
  intros Hk Hi. destruct (lookup_lt_is_Some_2 cs i Hi) as [w Hw].
  destruct (kids_list cs P i w Hk Hw) as (L & p & HL & Hp & _). pose proof (w_at_valid _ _ _ Hp) as Hv.
  destruct (Nat.ltb_spec p (length L)) as [Hlt|Hge]; [left|right; by exists w].
  destruct (lookup_lt_is_Some_2 L p Hlt) as [[k v] He]. destruct (w_at_entry _ _ _ _ _ Hp He) as [Hk1 Hv1].
  exists (k, v), w. by split_and!.
Qed.

Lemma find_best_keep better cs P order b e :
  kids cs P → Forall (λ i, i < length cs)%nat order → best_child better cs b e →
  (∀ x, better (Compare x x) = false) → find_best better cs order (Some b) = Some (Some b).
Proof.
  intros Hk Ho [(wb & Hb & _ & Hkb & _) Hbest] Hrefl. induction Ho as [|i order Hi _ IH]; [done|].
  cbn [find_best]. destruct (kids_cases cs P i Hk Hi) as [(e' & w & Hw & Hv & Hkw & Hvw)|(w & Hw & Hv)].
  - rewrite Hw. simpl_bind. rewrite Hv, Hb. simpl_bind. rewrite Hkw, Hkb. simpl_bind.
    replace (better (Compare e'.1 e.1)) with false; [exact IH|]. symmetry.
    destruct (decide (i = b)) as [->|Hne].
    + rewrite Hw in Hb. injection Hb as <-. rewrite Hkw in Hkb. injection Hkb as ->. apply Hrefl.
    + apply (Hbest i e' Hne). by exists w.
  - rewrite Hw. simpl_bind. by rewrite Hv.
Qed.

Lemma find_best_run better cs P order b e best :
  kids cs P → Forall (λ i, i < length cs)%nat order → best_child better cs b e → b ∈ order →
  (∀ x, better (Compare x x) = false) → (∀ i, best = Some i → i ≠ b ∧ ∃ e', shows cs i e') →
  find_best better cs order best = Some (Some b).
Proof.
  intros Hk Ho Hb Hin Hrefl. revert best. induction Ho as [|i order Hi Ho IH]; intros best Hbest.
  { by apply not_elem_of_nil in Hin. }
  cbn [find_best]. destruct (decide (i = b)) as [->|Hne].
  - pose proof Hb as [(w & Hw & Hv & Hkw & _) Hbetter]. rewrite Hw. simpl_bind. rewrite Hv.
    assert (Hkeep : find_best better cs order (Some b) = Some (Some b)) by (by eapply find_best_keep).
    destruct best as [j|]; simpl_bind; [|exact Hkeep].
    destruct (Hbest j eq_refl) as [Hj (e' & w' & Hw' & Hv' & Hkw' & Hvw')].
    rewrite Hw'. simpl_bind. rewrite Hkw, Hkw'. simpl_bind.
    rewrite (proj1 (Hbetter j e' Hj ltac:(by exists w'))). exact Hkeep.
  - apply elem_of_cons in Hin as [?|Hin]; [done|]. specialize (IH Hin).
    destruct (kids_cases cs P i Hk Hi) as [(e' & w & Hw & Hv & Hkw & Hvw)|(w & Hw & Hv)];
      rewrite Hw; simpl_bind; rewrite Hv; [|by apply IH].
    assert (Hsh : shows cs i e') by (by exists w). destruct best as [j|].
    + destruct (Hbest j eq_refl) as [Hj (e1 & w1 & Hw1 & Hv1 & Hkw1 & Hvw1)].
      rewrite Hw1. simpl_bind. rewrite Hkw, Hkw1. simpl_bind. apply IH.
      destruct (better _); intros ? [= <-]; [by split; [|exists e']|split; [done|]].
      exists e1. by exists w1.
    + simpl_bind. apply IH. intros ? [= <-]. split; [done|]. by exists e'.
Qed.

Lemma find_best_none better cs order :
  Forall (λ i, i < length cs)%nat order → (∀ i w, cs !! i = Some w → w_Valid w = false) →
  find_best better cs order None = Some None.
Proof.
  intros Ho Hv. induction Ho as [|i order Hi _ IH]; [done|]. cbn [find_best].
  destruct (lookup_lt_is_Some_2 cs i Hi) as [w Hw]. rewrite Hw. simpl_bind. by rewrite (Hv i w Hw).
Qed.

Lemma order_bound cs order : order ≡ₚ seq 0 (length cs) → Forall (λ i, i < length cs)%nat order.
Proof. intros ->. apply Forall_forall. intros i Hi%elem_of_seq. lia. Qed.

Lemma rev_order cs : rev (seq 0 (length cs)) ≡ₚ seq 0 (length cs).
Proof. symmetry. apply Permutation_rev. Qed.

Lemma FindSmallest_best cs P b e :
  kids cs P → best_child (λ c, c <? 0) cs b e → FindSmallest cs = Some (Some b).
Proof.
  intros Hk Hb. apply (find_best_run _ cs P _ b e); [done|by apply order_bound|done| | |done].
  - apply elem_of_seq. pose proof Hb as [(w & Hw & _) _]. apply lookup_lt_Some in Hw. lia.
  - intros x. by rewrite Compare_refl.
Qed.

Lemma FindLargest_best cs P b e :
  kids cs P → best_child (λ c, 0 <? c) cs b e → FindLargest cs = Some (Some b).
Proof.
  intros Hk Hb. apply (find_best_run _ cs P _ b e); [done|apply order_bound, rev_order|done| | |done].
  - rewrite rev_order. apply elem_of_seq. pose proof Hb as [(w & Hw & _) _]. apply lookup_lt_Some in Hw. lia.
  - intros x. by rewrite Compare_refl.
Qed.

(** ** Positions *)

Lemma sorted_list c L : Ls !! c = Some L → StronglySorted key_lt L.
Proof. intros HL. by apply (Forall_lookup_1 _ _ _ _ HLs HL). Qed.

Lemma shows_entry cs P i e :
  kids cs P → shows cs i e → ∃ L p, Ls !! i = Some L ∧ P i L p ∧ L !! p = Some e.
Proof.
  intros Hk (w & Hw & Hv & Hkw & Hvw). destruct (kids_list cs P i w Hk Hw) as (L & p & HL & Hp & HP).
  exists L, p. split; [done|]. split; [done|]. rewrite (w_at_valid _ _ _ Hp) in Hv. apply Nat.ltb_lt in Hv.
  destruct (lookup_lt_is_Some_2 L p Hv) as [[k v] He]. destruct (w_at_entry _ _ _ _ _ Hp He) as [E1 E2].
  rewrite E1 in Hkw. rewrite E2 in Hvw. injection Hkw as ->. injection Hvw as ->. by destruct e.
Qed.

Lemma entry_shows cs P i L p e :
  kids cs P → Ls !! i = Some L → L !! p = Some e → (∀ q, P i L q → q = p) → shows cs i e.
Proof.
  intros Hk HL He HP. destruct (kids_lookup cs P i L Hk HL) as (w & q & Hw & Hp & Hq).
  apply HP in Hq as ->. destruct e as [k v]. destruct (w_at_entry _ _ _ _ _ Hp He) as [E1 E2].
  exists w. split_and!; [done| |done|done]. rewrite (w_at_valid _ _ _ Hp). apply Nat.ltb_lt.
  by eapply lookup_lt_Some.
Qed.

(** Position [p] of [L] is where the merged list is cut at [i]. *)
Definition cut (i : nat) L (p : nat) : Prop :=
  (p ≤ length L)%nat ∧ (∀ q x, (q < p)%nat → L !! q = Some x → ∃ a, (a < i)%nat ∧ es !! a = Some x) ∧
  ∀ q x, (p ≤ q)%nat → L !! q = Some x → ∃ a, (i ≤ a)%nat ∧ es !! a = Some x.

Lemma es_index x a b : es !! a = Some x → es !! b = Some x → a = b.
Proof. intros Ha Hb. apply (sorted_index_eq es a b x x Hes Ha Hb). apply Compare_refl. Qed.

Lemma cut_rank i L p e : cut i L p → es !! i = Some e → p = rank L e.1.
Proof.
  intros (Hle & Hlt & Hge) He. symmetry. apply rank_unique; [done| |].
  - intros q x Hq Hx. destruct (Hlt q x Hq Hx) as (a & Ha & Hxa). by apply (sorted_lt es a i).
  - intros x Hx. destruct (Hge p x ltac:(lia) Hx) as (a & Ha & Hxa).
    destruct (decide (a = i)) as [->|].
    + rewrite He in Hxa. injection Hxa as ->. rewrite Compare_refl. lia.
    + pose proof (sorted_lt es i a e x Hes He Hxa ltac:(lia)) as Hl. unfold key_lt in Hl.
      pose proof (Compare_anti e.1 x.1). lia.
Qed.

Lemma cut_end L p : cut (length es) L p → p = length L.
Proof.
  intros (Hle & _ & Hge). destruct (decide (p = length L)) as [|Hne]; [done|exfalso].
  destruct (lookup_lt_is_Some_2 L p ltac:(lia)) as [x Hx].
  destruct (Hge p x ltac:(lia) Hx) as (a & Ha & Hxa). apply lookup_lt_Some in Hxa. lia.
Qed.

Lemma cut_zero L p : cut 0 L p → p = 0%nat.
Proof.
  intros (Hle & Hlt & _). destruct p as [|p]; [done|].
  destruct (lookup_lt_is_Some_2 L 0%nat ltac:(lia)) as [x Hx].
  destruct (Hlt 0%nat x ltac:(lia) Hx) as (a & Ha & _). lia.
Qed.

(** Where the entry [i] of the merged list is. *)
Definition cur_at (cur i : nat) : Prop :=
  ∃ L q e, Ls !! cur = Some L ∧ L !! q = Some e ∧ es !! i = Some e.

Lemma cut_other i c L p cur : cur_at cur i → c ≠ cur → Ls !! c = Some L → cut i L p ↔ cut (S i) L p.
Proof.
  intros (L' & q' & e & HL' & Hq' & He) Hc HL.
  assert (Hno : ∀ x, x ∈ L → es !! i ≠ Some x).
  { intros x Hx E. rewrite He in E. injection E as <-.
    apply (Hdis c cur L L' e e Hc HL HL' Hx); [by eapply list_elem_of_lookup_2|apply Compare_refl]. }
  split; intros (Hle & Hlt & Hge); (split; [done|split]).
  - intros q x Hq Hx. destruct (Hlt q x Hq Hx) as (a & Ha & ?). exists a. split; [lia|done].
  - intros q x Hq Hx. destruct (Hge q x Hq Hx) as (a & Ha & Hxa). exists a. split; [|done].
    destruct (decide (a = i)) as [->|]; [|lia]. by destruct (Hno x (list_elem_of_lookup_2 _ _ _ Hx)).
  - intros q x Hq Hx. destruct (Hlt q x Hq Hx) as (a & Ha & Hxa). exists a. split; [|done].
    destruct (decide (a = i)) as [->|]; [|lia]. by destruct (Hno x (list_elem_of_lookup_2 _ _ _ Hx)).
  - intros q x Hq Hx. destruct (Hge q x Hq Hx) as (a & Ha & ?). exists a. split; [lia|done].
Qed.

Lemma cut_here i c L q e :
  Ls !! c = Some L → L !! q = Some e → es !! i = Some e → cut i L q ∧ cut (S i) L (S q).
Proof.
  intros HL Hq He. pose proof (lookup_lt_Some _ _ _ Hq) as Hlt. pose proof (sorted_list c L HL) as Hs.
  assert (Hidx : ∀ q' x, L !! q' = Some x → ∃ a, es !! a = Some x ∧ ((q' < q)%nat → (a < i)%nat) ∧
    ((q < q')%nat → (i < a)%nat) ∧ (q' = q → a = i)).
  { intros q' x Hx. destruct (member c L q' x HL Hx) as [a Ha]. exists a. split; [done|].
    split; [|split].
    - intros Hl. apply (sorted_index_lt es a i x e Hes Ha He). by apply (sorted_lt L q' q).
    - intros Hl. apply (sorted_index_lt es i a e x Hes He Ha). by apply (sorted_lt L q q').
    - intros ->. rewrite Hq in Hx. injection Hx as <-. by eapply es_index. }
  split; (split; [lia|split]); intros q' x Hq' Hx; destruct (Hidx q' x Hx) as (a & Ha & H1 & H2 & H3);
    exists a; (split; [|done]); destruct (Nat.lt_trichotomy q' q) as [?|[?|?]]; lia.
Qed.

Lemma holder_at i e : es !! i = Some e → ∃ cur, cur_at cur i.
Proof. intros He. destruct (holder i e He) as (c & L & q & HL & Hq). by exists c, L, q, e. Qed.

(** The children at the cut [i], or at the entry before it. *)
Definition fwd (i : nat) (_ : nat) L (p : nat) : Prop := cut i L p.
Definition bwd (i : nat) (_ : nat) L (p : nat) : Prop := ∃ r, cut i L r ∧ p = pred_in L r.
(** Child [cur] at the entry [i], the others before it. *)
Definition rev_pos (cur i : nat) (c : nat) L (p : nat) : Prop := if decide (c = cur) then cut i L p else bwd i c L p.

Lemma rev_pos_cur cur i L p : rev_pos cur i cur L p ↔ cut i L p.
Proof. unfold rev_pos. by rewrite decide_True. Qed.

Lemma rev_pos_ne cur i c L p : c ≠ cur → rev_pos cur i c L p ↔ bwd i c L p.
Proof. intros ?. unfold rev_pos. by rewrite decide_False. Qed.

Lemma distinct_keys cur i c L p e e' :
  cur_at cur i → es !! i = Some e → c ≠ cur → Ls !! c = Some L → L !! p = Some e' → Compare e.1 e'.1 ≠ 0.
Proof.
  intros (L' & q & e0 & HL' & Hq & He0) He Hc HL He'. rewrite He in He0. injection He0 as <-.
  apply (Hdis cur c L' L); [done..| |]; by eapply list_elem_of_lookup_2.
Qed.

Lemma FindSmallest_fwd cs i :
  kids cs (fwd i) → (i ≤ length es)%nat →
  (i = length es ∧ FindSmallest cs = Some None) ∨ ∃ cur, FindSmallest cs = Some (Some cur) ∧ cur_at cur i.
Proof.
  intros Hk Hi. destruct (es !! i) as [e|] eqn:He.
  - right. destruct (holder_at i e He) as [cur Hcur]. exists cur. split; [|done].
    pose proof Hcur as (L & q & e0 & HL & Hq & He0). rewrite He in He0. injection He0 as <-.
    destruct (cut_here i cur L q e HL Hq He) as [Hcut _].
    apply (FindSmallest_best cs _ cur e Hk). split.
    + apply (entry_shows cs _ cur L q e Hk HL Hq). intros q' Hq'.
      by rewrite (cut_rank i L q' e Hq' He), (cut_rank i L q e Hcut He).
    + intros j e' Hj Hsh. destruct (shows_entry cs _ j e' Hk Hsh) as (L' & p & HL' & Hp & He').
      rewrite (cut_rank i L' p e Hp He) in He'. pose proof (rank_at _ _ _ He') as Hge.
      pose proof (distinct_keys cur i j L' _ e e' Hcur He Hj HL' He') as Hne.
      pose proof (Compare_anti e.1 e'.1). rewrite Z.ltb_lt, Z.ltb_ge. lia.
  - left. apply lookup_ge_None in He. assert (i = length es) as -> by lia. split; [done|].
    apply find_best_none; [by apply order_bound|]. intros c w Hw.
    destruct (kids_list cs _ c w Hk Hw) as (L & p & HL & Hp & HP). apply cut_end in HP as ->.
    by rewrite (w_at_valid _ _ _ Hp), Nat.ltb_irrefl.
Qed.

(** The last entry before the cut is the largest that the children show. *)
Lemma FindLargest_bwd cs i :
  kids cs (bwd i) → (i ≤ length es)%nat →
  (i = 0%nat ∧ FindLargest cs = Some None) ∨
  ∃ cur j, i = S j ∧ FindLargest cs = Some (Some cur) ∧ cur_at cur j ∧ kids cs (rev_pos cur j).
Proof.
  intros Hk Hi. destruct i as [|j].
  - left. split; [done|]. apply find_best_none; [apply order_bound, rev_order|]. intros c w Hw.
    destruct (kids_list cs _ c w Hk Hw) as (L & p & HL & Hp & r & Hr & ->).
    apply cut_zero in Hr as ->. cbn [pred_in] in Hp. by rewrite (w_at_valid _ _ _ Hp), Nat.ltb_irrefl.
  - right. destruct (lookup_lt_is_Some_2 es j ltac:(lia)) as [e He].
    destruct (holder_at j e He) as [cur Hcur]. exists cur, j. split; [done|].
    pose proof Hcur as (L & q & e0 & HL & Hq & He0). rewrite He in He0. injection He0 as <-.
    destruct (cut_here j cur L q e HL Hq He) as [Hcut HcutS].
    (* the cut behind the entry is where its list continues *)
    assert (Hr : ∀ r, cut (S j) L r → r = S q).
    { intros r (Hle & Hlt & Hge). destruct HcutS as (HleS & HltS & HgeS).
      destruct (Nat.lt_trichotomy r (S q)) as [Hl|[|Hl]]; [|done|].
      - destruct (lookup_lt_is_Some_2 L r ltac:(lia)) as [x Hx].
        destruct (Hge r x ltac:(lia) Hx) as (a & Ha & Hxa). destruct (HltS r x Hl Hx) as (b & Hb & Hxb).
        pose proof (es_index x a b Hxa Hxb). lia.
      - destruct (lookup_lt_is_Some_2 L (S q) ltac:(lia)) as [x Hx].
        destruct (Hlt (S q) x Hl Hx) as (a & Ha & Hxa). destruct (HgeS (S q) x ltac:(lia) Hx) as (b & Hb & Hxb).
        pose proof (es_index x a b Hxa Hxb). lia. }
    assert (Hrev : kids cs (rev_pos cur j)).
    { eapply kids_impl; [exact Hk|]. intros c L' p HL' (r & Hr' & ->). unfold rev_pos.
      destruct (decide (c = cur)) as [->|Hne].
      - rewrite HL in HL'. injection HL' as <-. by rewrite (Hr r Hr').
      - exists r. split; [|done]. by apply (cut_other j c L' r cur). }
    split; [|by split]. apply (FindLargest_best cs _ cur e Hk). split.
    + apply (entry_shows cs _ cur L q e Hk HL Hq). intros q' (r & Hr' & ->). by rewrite (Hr r Hr').
    + intros i e' Hne Hsh. destruct (shows_entry cs _ i e' Hrev Hsh) as (L' & p & HL' & Hp & He').
      unfold rev_pos in Hp. rewrite decide_False in Hp by done. destruct Hp as (r & Hr' & ->).
      pose proof (distinct_keys cur j i L' _ e e' Hcur He Hne HL' He') as Hneq.
      assert (Compare e'.1 e.1 < 0).
      { rewrite (cut_rank j L' r e Hr' He) in He'. pose proof (lookup_lt_Some _ _ _ He') as Hlt.
        destruct (rank L' e.1) as [|r'] eqn:Er; cbn [pred_in] in He', Hlt; [lia|].
        apply (rank_before L' e.1 r'); [lia|done]. }
      pose proof (Compare_anti e.1 e'.1). rewrite Z.ltb_lt, Z.ltb_ge. lia.
Qed.

(** ** The operations *)

Definition m_at m (i : nat) : Prop :=
  (i ≤ length es)%nat ∧ kids (children_ m) (λ _ _ _, True) ∧
  (m_current_ m = None ∧ i = length es ∨
   ∃ cur, m_current_ m = Some cur ∧ cur_at cur i ∧
     kids (children_ m) (match direction_ m with kForward => fwd i | kReverse => rev_pos cur i end)).

Lemma forward_at cs i :
  kids cs (fwd i) → (i ≤ length es)%nat →
  ∃ current, FindSmallest cs = Some current ∧ m_at (mkMerging cs current kForward) i.
Proof.
  intros Hk Hi. assert (Hk' : kids cs (λ _ _ _, True)) by (by eapply kids_impl).
  destruct (FindSmallest_fwd cs i Hk Hi) as [[-> ->]|(cur & -> & Hcur)]; eexists; (split; [done|]);
    (split; [done|split; [done|]]); [by left|right]. by exists cur.
Qed.

Lemma reverse_at cs i :
  kids cs (bwd i) → (i ≤ length es)%nat →
  ∃ current, FindLargest cs = Some current ∧
    m_at (mkMerging cs current kReverse) (match i with O => length es | S j => j end).
Proof.
  intros Hk Hi. assert (Hk' : kids cs (λ _ _ _, True)) by (by eapply kids_impl).
  destruct (FindLargest_bwd cs i Hk Hi) as [[-> ->]|(cur & j & -> & -> & Hcur & Hrev)]; eexists;
    (split; [done|]); (split; [lia|split; [done|]]); [by left|right]. by exists cur.
Qed.

Lemma cut_first c L : Ls !! c = Some L → cut 0 L 0.
Proof.
  intros HL. split; [lia|]. split; [lia|]. intros q x _ Hx. destruct (member c L q x HL Hx) as [a Ha].
  exists a. split; [lia|done].
Qed.

Lemma cut_last c L : Ls !! c = Some L → cut (length es) L (length L).
Proof.
  intros HL. split; [lia|]. split.
  - intros q x _ Hx. destruct (member c L q x HL Hx) as [a Ha]. exists a. split; [|done].
    by eapply lookup_lt_Some.
  - intros q x Hq Hx. apply lookup_lt_Some in Hx. lia.
Qed.

Lemma cut_seek c L target : Ls !! c = Some L → cut (rank es target) L (rank L target).
Proof.
  intros HL. pose proof (sorted_list c L HL) as Hs. split; [apply rank_le|]. split.
  - intros q x Hq Hx. destruct (member c L q x HL Hx) as [a Ha]. exists a. split; [|done].
    pose proof (rank_before L target q x Hq Hx) as Hlt.
    destruct (decide (a < rank es target)%nat) as [|Hge]; [done|exfalso].
    destruct (lookup_lt_is_Some_2 es (rank es target)) as [y Hy].
    { apply lookup_lt_Some in Ha. lia. }
    pose proof (rank_at es target y Hy) as Hy0.
    destruct (decide (a = rank es target)) as [->|].
    + rewrite Hy in Ha. injection Ha as ->. lia.
    + pose proof (sorted_lt es _ a y x Hes Hy Ha ltac:(lia)) as Hyx.
      pose proof (Compare_le_lt_trans y.1 x.1 target) as Htr. unfold key_lt in Hyx. lia.
  - intros q x Hq Hx. destruct (member c L q x HL Hx) as [a Ha]. exists a. split; [|done].
    destruct (decide (rank es target ≤ a)%nat) as [|Hlt]; [done|exfalso].
    pose proof (rank_before es target a x ltac:(lia) Ha) as Hxt.
    destruct (lookup_lt_is_Some_2 L (rank L target)) as [y Hy].
    { apply lookup_lt_Some in Hx. lia. }
    pose proof (rank_at L target y Hy) as Hy0.
    destruct (decide (q = rank L target)) as [->|].
    + rewrite Hy in Hx. injection Hx as ->. lia.
    + pose proof (sorted_lt L _ q y x Hs Hy Hx ltac:(lia)) as Hyx.
      pose proof (Compare_le_lt_trans y.1 x.1 target) as Htr. unfold key_lt in Hyx. lia.
Qed.

Lemma m_SeekToFirst_at m i : m_at m i → ∃ m', m_SeekToFirst m = Some m' ∧ m_at m' 0.
Proof.
  intros (_ & Hk & _). destruct (seek_kids _ _ OpSeekToFirst (λ _, 0%nat) Hk) as (cs & E & Hcs); [done|].
  unfold m_SeekToFirst. rewrite E. simpl_bind.
  destruct (forward_at cs 0) as (current & -> & Hm); [|lia|simpl_bind; by eexists].
  eapply kids_impl; [exact Hcs|]. intros c L p HL ->. by eapply cut_first.
Qed.

Lemma m_Seek_at m i target : m_at m i → ∃ m', m_Seek m target = Some m' ∧ m_at m' (rank es target).
Proof.
  intros (_ & Hk & _). destruct (seek_kids _ _ (OpSeek target) (λ L, rank L target) Hk) as (cs & E & Hcs); [done|].
  unfold m_Seek. rewrite E. simpl_bind.
  destruct (forward_at cs (rank es target)) as (current & -> & Hm); [|apply rank_le|simpl_bind; by eexists].
  eapply kids_impl; [exact Hcs|]. intros c L p HL ->. by eapply cut_seek.
Qed.

Lemma pred_in_last L : (length L - 1)%nat = pred_in L (length L).
Proof. unfold pred_in. destruct (length L) eqn:E; lia. Qed.

Lemma m_SeekToLast_at m i : m_at m i → ∃ m', m_SeekToLast m = Some m' ∧ m_at m' (length es - 1).
Proof.
  intros (_ & Hk & _). destruct (seek_kids _ _ OpSeekToLast (λ L, length L - 1)%nat Hk) as (cs & E & Hcs); [done|].
  unfold m_SeekToLast. rewrite E. simpl_bind.
  destruct (reverse_at cs (length es)) as (current & -> & Hm).
  - eapply kids_impl; [exact Hcs|]. intros c L p HL ->. exists (length L).
    split; [by eapply cut_last|apply pred_in_last].
  - lia.
  - simpl_bind. eexists. split; [done|].
    replace (length es - 1)%nat with (match length es with O => length es | S j => j end); [done|].
    destruct (length es); lia.
Qed.

(** Turning around. *)
Lemma child_after_at cur i c L p w e :
  cur_at cur i → es !! i = Some e → c ≠ cur → Ls !! c = Some L → w_at w L p →
  ∃ w' p', child_after e.1 w = Some w' ∧ w_at w' L p' ∧ fwd i c L p'.
Proof.
  intros Hcur He Hc HL Hp. unfold child_after.
  destruct (w_apply_at w L p (OpSeek e.1) (rank L e.1) Hp eq_refl) as (w' & -> & Hw'). simpl_bind.
  assert (Hcut : cut i L (rank L e.1)).
  { pose proof (cut_seek c L e.1 HL) as Hr. by rewrite (rank_of es i e Hes He) in Hr. }
  rewrite (w_at_valid _ _ _ Hw'). destruct (Nat.ltb_spec (rank L e.1) (length L)) as [Hlt|]; [|by exists w', (rank L e.1)].
  destruct (lookup_lt_is_Some_2 L _ Hlt) as [[k v] Hkv]. destruct (w_at_entry _ _ _ _ _ Hw' Hkv) as [-> _].
  simpl_bind. pose proof (distinct_keys cur i c L _ e (k, v) Hcur He Hc HL Hkv) as Hne.
  cbn [fst] in Hne. rewrite (proj2 (Z.eqb_neq _ _) Hne). by exists w', (rank L e.1).
Qed.

Lemma child_before_at i c L p w e :
  es !! i = Some e → Ls !! c = Some L → w_at w L p →
  ∃ w' p', child_before e.1 w = Some w' ∧ w_at w' L p' ∧ bwd i c L p'.
Proof.
  intros He HL Hp. unfold child_before.
  destruct (w_apply_at w L p (OpSeek e.1) (rank L e.1) Hp eq_refl) as (w' & -> & Hw'). simpl_bind.
  assert (Hcut : cut i L (rank L e.1)).
  { pose proof (cut_seek c L e.1 HL) as Hr. by rewrite (rank_of es i e Hes He) in Hr. }
  rewrite (w_at_valid _ _ _ Hw'). pose proof (rank_le L e.1) as Hle.
  destruct (Nat.ltb_spec (rank L e.1) (length L)) as [Hlt|Hge].
  - destruct (w_apply_at w' L _ OpPrev (pred_in L (rank L e.1)) Hw') as (w2 & -> & Hw2).
    { cbn [cursor_op]. by rewrite (proj2 (Nat.ltb_lt _ _) Hlt). }
    exists w2, (pred_in L (rank L e.1)). split; [done|]. split; [done|]. by exists (rank L e.1).
  - destruct (w_apply_at w' L _ OpSeekToLast (length L - 1)%nat Hw' eq_refl) as (w2 & -> & Hw2).
    exists w2, (length L - 1)%nat. split; [done|]. split; [done|]. exists (rank L e.1). split; [done|].
    replace (rank L e.1) with (length L) by lia. apply pred_in_last.
Qed.

Lemma m_at_entry m i :
  m_at m i → (i < length es)%nat →
  ∃ cur e, m_current_ m = Some cur ∧ cur_at cur i ∧ es !! i = Some e ∧ m_key m = Some e.1 ∧ m_value m = Some e.2 ∧
    kids (children_ m) (match direction_ m with kForward => fwd i | kReverse => rev_pos cur i end).
Proof.
  intros (_ & _ & [[_ ->]|(cur & Hc & Hcur & Hk)]) Hi; [lia|]. pose proof Hcur as (L & q & e & HL & Hq & He).
  exists cur, e. split; [done|]. split; [done|]. split; [done|].
  assert (Hsh : shows (children_ m) cur e).
  { destruct (cut_here i cur L q e HL Hq He) as [Hcut _].
    assert (Huniq : ∀ q', cut i L q' → q' = q).
    { intros q' Hq'. by rewrite (cut_rank i L q' e Hq' He), (cut_rank i L q e Hcut He). }
    apply (entry_shows _ _ cur L q e Hk HL Hq). intros q'. destruct (direction_ m); [apply Huniq|].
    intros Hq'%rev_pos_cur. by apply Huniq. }
  destruct Hsh as (w & Hw & _ & Hkw & Hvw). unfold m_key, m_value. rewrite Hc. simpl_bind. rewrite Hw.
  simpl_bind. done.
Qed.

Lemma m_Next_at m i : m_at m i → (i < length es)%nat → ∃ m', m_Next m = Some m' ∧ m_at m' (S i).
Proof.
  intros Hm Hi. destruct (m_at_entry m i Hm Hi) as (cur & e & Hc & Hcur & He & Hkey & _ & Hk).
  unfold m_Next. rewrite Hc. simpl_bind.
  assert (Hfwd : ∃ cs, (if decide (direction_ m = kForward) then Some (children_ m)
    else key ← m_key m; others (child_after key) cur 0 (children_ m)) = Some cs ∧ kids cs (fwd i)).
  { destruct (decide (direction_ m = kForward)) as [Ed|Ed].
    - exists (children_ m). split; [done|]. by rewrite Ed in Hk.
    - rewrite Hkey. simpl_bind. apply (others_kids _ cur _ _ _ Hk).
      + intros c L p w Hne HL Hp _. by eapply child_after_at.
      + intros L p HL. destruct (direction_ m); [done|]. apply rev_pos_cur. }
  destruct Hfwd as (cs & -> & Hcs). simpl_bind. pose proof Hcur as (L & q & e' & HL & Hq & He').
  rewrite He in He'. injection He' as <-. destruct (cut_here i cur L q e HL Hq He) as [Hcut HcutS].
  destruct (step_current_kids cs cur (fwd i) (λ c L p, Ls !! c = Some L → fwd (S i) c L p) OpNext L Hcs HL)
    as (cs' & -> & Hcs').
  - intros p Hp. rewrite (cut_rank i L p e Hp He), <-(cut_rank i L q e Hcut He). exists (S q).
    split; [|done]. cbn [cursor_op]. by rewrite (proj2 (Nat.ltb_lt _ _)) by (by eapply lookup_lt_Some).
  - intros c L' p Hne Hp HL'. by apply (cut_other i c L' p cur).
  - simpl_bind. destruct (forward_at cs' (S i)) as (current & -> & Hm'); [|lia|simpl_bind; by eexists].
    eapply kids_impl; [exact Hcs'|]. intros c L' p HL' Hp. by apply Hp.
Qed.

Lemma m_Prev_at m i :
  m_at m i → (i < length es)%nat →
  ∃ m', m_Prev m = Some m' ∧ m_at m' (match i with O => length es | S j => j end).
Proof.
  intros Hm Hi. destruct (m_at_entry m i Hm Hi) as (cur & e & Hc & Hcur & He & Hkey & _ & Hk).
  unfold m_Prev. rewrite Hc. simpl_bind.
  assert (Hrev : ∃ cs, (if decide (direction_ m = kReverse) then Some (children_ m)
    else key ← m_key m; others (child_before key) cur 0 (children_ m)) = Some cs ∧ kids cs (rev_pos cur i)).
  { destruct (decide (direction_ m = kReverse)) as [Ed|Ed].
    - exists (children_ m). split; [done|]. by rewrite Ed in Hk.
    - rewrite Hkey. simpl_bind. apply (others_kids _ cur _ _ _ Hk).
      + intros c L p w Hne HL Hp _. destruct (child_before_at i c L p w e He HL Hp) as (w' & p' & E & Hp' & Hb).
        exists w', p'. by rewrite rev_pos_ne.
      + intros L p HL. destruct (direction_ m); [|done]. apply rev_pos_cur. }
  destruct Hrev as (cs & -> & Hcs). simpl_bind. pose proof Hcur as (L & q & e' & HL & Hq & He').
  rewrite He in He'. injection He' as <-. destruct (cut_here i cur L q e HL Hq He) as [Hcut _].
  destruct (step_current_kids cs cur (rev_pos cur i) (bwd i) OpPrev L Hcs HL) as (cs' & -> & Hcs').
  - intros p Hp%rev_pos_cur.
    rewrite (cut_rank i L p e Hp He), <-(cut_rank i L q e Hcut He). exists (pred_in L q).
    split; [|by exists q]. cbn [cursor_op]. by rewrite (proj2 (Nat.ltb_lt _ _)) by (by eapply lookup_lt_Some).
  - intros c L' p Hne. by apply rev_pos_ne.
  - simpl_bind. destruct (reverse_at cs' i Hcs' ltac:(lia)) as (current & -> & Hm'). simpl_bind. by eexists.
Qed.

Lemma m_op_at m i o j :
  m_at m i → cursor_op es i o = Some j → ∃ m', i_apply m o = Some m' ∧ m_at m' j.
Proof.
  intros Hm. destruct o as [| |target| |]; cbn [cursor_op].
  - intros [= <-]. by apply (m_SeekToFirst_at m i).
  - intros [= <-]. by apply (m_SeekToLast_at m i).
  - intros [= <-]. by apply (m_Seek_at m i).
  - destruct (Nat.ltb_spec i (length es)); [|done]. intros [= <-]. by apply m_Next_at.
  - destruct (Nat.ltb_spec i (length es)); [|done]. intros [= <-]. by apply m_Prev_at.
Qed.

Lemma children_status_ok cs P : kids cs P → children_status cs OK = Some OK.
Proof.
  intros Hk. assert (Hs : Forall (λ w, w_status w = Some OK) cs).
  { apply Forall_lookup. intros c w Hw. destruct (kids_list cs P c w Hk Hw) as (L & p & _ & Hp & _).
    by eapply w_at_status. }
  clear Hk. induction Hs as [|w cs Hw _ IH]; [done|]. cbn [children_status]. rewrite Hw. by simpl_bind.
Qed.

Lemma m_at_shows m i :
  m_at m i → (i ≤ length es)%nat ∧ m_Valid m = (i <? length es)%nat ∧
  (∀ k v, es !! i = Some (k, v) → m_key m = Some k ∧ m_value m = Some v) ∧ m_status m = Some OK.
Proof.
  intros Hm. pose proof Hm as (Hi & Hk & Hc). split; [done|]. split; [|split].
  - unfold m_Valid. destruct Hc as [[-> ->]|(cur & -> & (L & q & e & _ & _ & He) & _)].
    + by rewrite Nat.ltb_irrefl.
    + symmetry. apply Nat.ltb_lt. by eapply lookup_lt_Some.
  - intros k v Hkv. destruct (m_at_entry m i Hm) as (cur & e & _ & _ & He & Hkey & Hval & _).
    { by eapply lookup_lt_Some. }
    rewrite Hkv in He. injection He as <-. done.
  - by eapply children_status_ok.
Qed.
End spec.

(** ** The merging iterator as an iterator *)

Section laws.
Context {C : Comparator} {HC : ComparatorLaws C} `{Iterator T} `{!IteratorLaws T}.

(** [es] is the merge of the lists [Ls]. *)
Definition merge_of (Ls : list (list (list Z * list Z))) (es : list (list Z * list Z)) : Prop :=
  es ≡ₚ concat Ls ∧ StronglySorted key_lt es ∧ Forall (StronglySorted key_lt) Ls ∧ distinct Ls.

#[export] Instance merging_laws : IteratorLaws (MergingIterator T).
Proof.
  exists (λ m es i, ∃ Ls, merge_of Ls es ∧ m_at Ls es m i).
  - intros m es i o j (Ls & Hmerge & Hm) E. pose proof Hmerge as (Hp & Hes & HLs & Hd).
    destruct (m_op_at Ls es Hp Hes HLs Hd m i o j Hm E) as (m' & E' & Hm'). exists m'. split; [done|]. by exists Ls.
  - intros m es i (Ls & (Hp & Hes & HLs & Hd) & Hm). by eapply m_at_shows.
Defined.

Lemma NewMerging_at Ls es (its : list T) :
  merge_of Ls es → Forall2 (λ it L, ∃ p, positioned it L p) its Ls →
  ∃ m, NewMerging its = Some m ∧ positioned m es (length es).
Proof.
  intros Hmerge Hits. unfold NewMerging.
  assert (Hcs : ∃ cs, mapM (λ it, NewWrapper (Some it)) its = Some cs ∧ kids Ls cs (λ _ _ _, True)).
  { clear Hmerge. induction Hits as [|it L its Ls [p Hp] _ (cs & E & Hlen & Hk)].
    - exists []. split; [done|]. by split.
    - destruct (w_Update_at (mkWrapper None false []) it L p Hp) as (w & Ew & Hw).
      change (mapM _ (it :: its)) with
        (w ← NewWrapper (Some it); ws ← mapM (λ it, NewWrapper (Some it)) its; Some (w :: ws)).
      change (NewWrapper (Some it) = Some w) in Ew. rewrite Ew. simpl_bind. rewrite E. simpl_bind.
      eexists. split; [done|]. split; [cbn; by rewrite Hlen|]. intros [|c] w' L' Hw' HL'; [|by eapply Hk].
      injection Hw' as <-. injection HL' as <-. by exists p. }
  destruct Hcs as (cs & -> & Hcs). simpl_bind. eexists. split; [done|]. exists Ls. split; [done|].
  split; [done|]. split; [done|]. by left.
Qed.

(** Whatever the number of children. *)
Lemma NewMergingIterator_positioned Ls es (its : list T) :
  merge_of Ls es → Forall2 (λ it L, ∃ p, positioned it L p) its Ls →
  ∃ m p, NewMergingIterator its = Some m ∧ positioned m es p.
Proof.
  intros Hmerge Hits. pose proof Hmerge as (Hp & Hes & HLs & _). unfold NewMergingIterator.
  destruct Hits as [|it L its Ls [p HL] Hits]; [|destruct Hits as [|it' L' its Ls HL' Hits]].
  - eexists _, 0%nat. split; [done|]. cbn in Hp. apply Permutation_nil_r in Hp as ->.
    exact (conj eq_refl (conj eq_refl eq_refl)).
  - eexists _, p. split; [done|]. cbn in Hp. rewrite app_nil_r in Hp. apply Forall_cons in HLs as [HLs _].
    rewrite (sorted_unique es L Hes HLs Hp). exact HL.
  - destruct (NewMerging_at (L :: L' :: Ls) es (it :: it' :: its) Hmerge) as (m & -> & Hm).
    { constructor; [by exists p|]. by constructor. }
    simpl_bind. eexists _, (length es). by split.
Qed.
End laws.
