(* ===== verification/Bloom.v ===== *)
(** leveldb's filters: leveldb/util/hash.cc and leveldb/util/bloom.cc.

    A filter policy makes a summary of a set of keys; a lookup that the
    summary rejects never reads the block.  [FilterPolicyLaws] is what makes
    that sound, the Bloom filter is an instance, and the filter block is
    proved against the laws. *)

From Stdlib Require Import ZArith Lia.
From stdpp Require Import base option numbers list strings.
From S2P Require Import Prelude Coding Slice DbFormat.

(** ** Hash *)

Section hash.
Context `{P : Port}.

Definition hash_m : Z := 3332679571.

(** [while (data + 4 <= limit)]: the hash and the bytes that remain. *)
Fixpoint hash_words (h : Z) (data : list Z) : Z * list Z :=
  match data with
  | b0 :: b1 :: b2 :: b3 :: data' =>
      let w := default 0 (DecodeFixed32 [b0; b1; b2; b3]) in
      let h := u32 (h + w) in
      let h := u32 (h * hash_m) in
      let h := Z.lxor h (Z.shiftr h 16) in
      hash_words h data'
  | _ => (h, data)
  end.

Definition Hash (data : list Z) (seed : Z) : Z :=
  let r := 24 in
  let h := Z.lxor seed (u32 (u32 (Z.of_nat (length data)) * hash_m)) in
  let '(h, data) := hash_words h data in
  let tail h b0 :=
    let h := u32 (h + b0) in
    let h := u32 (h * hash_m) in
    Z.lxor h (Z.shiftr h r) in
  match data with
  | [b0; b1; b2] =>
      let h := u32 (h + Z.shiftl b2 16) in
      let h := u32 (h + Z.shiftl b1 8) in
      tail h b0
  | [b0; b1] => let h := u32 (h + Z.shiftl b1 8) in tail h b0
  | [b0] => tail h b0
  | _ => h
  end.

Definition BloomHash (key : list Z) : Z := Hash key 3164544308.

(** ** The Bloom filter *)

Record BloomFilterPolicy := mkBloom { bits_per_key_ : Z; k_ : Z }.

(** [probes] is [bits_per_key * 0.69] truncated. *)
Definition NewBloomFilterPolicy (bits_per_key probes : Z) : BloomFilterPolicy :=
  let k := probes in
  let k := if k <? 1 then 1 else k in
  let k := if 30 <? k then 30 else k in
  mkBloom (u64 bits_per_key) k.

(** [array[bitpos/8] |= (1 << (bitpos % 8))] *)
Definition set_bit (array : list Z) (bitpos : Z) : list Z :=
  alter (λ b, u8 (Z.lor b (Z.shiftl 1 (bitpos mod 8)))) (Z.to_nat (bitpos / 8)) array.

Definition test_bit (array : list Z) (bitpos : Z) : bool :=
  negb (Z.land (default 0 (array !! Z.to_nat (bitpos / 8))) (Z.shiftl 1 (bitpos mod 8)) =? 0).

Definition rotate17 (h : Z) : Z := Z.lor (Z.shiftr h 17) (u32 (Z.shiftl h 15)).

Fixpoint add_probes (k : nat) (bits h delta : Z) (array : list Z) : list Z :=
  match k with
  | O => array
  | S k => add_probes k bits (u32 (h + delta)) delta (set_bit array (h mod bits))
  end.

Definition add_key (k : nat) (bits : Z) (array key : list Z) : list Z :=
  let h := BloomHash key in add_probes k bits h (rotate17 h) array.

Definition bloom_CreateFilter (p : BloomFilterPolicy) (keys : list (list Z)) (dst : list Z) : list Z :=
  let n := Z.of_nat (length keys) in
  let bits := u64 (n * bits_per_key_ p) in
  let bits := if bits <? 64 then 64 else bits in
  let bytes := u64 (bits + 7) / 8 in
  let bits := u64 (bytes * 8) in
  let array := replicate (Z.to_nat bytes) 0 in
  dst ++ foldl (add_key (Z.to_nat (k_ p)) bits) (array ++ [u8 (k_ p)]) keys.

Fixpoint all_probes (k : nat) (bits h delta : Z) (array : list Z) : bool :=
  match k with
  | O => true
  | S k => if negb (test_bit array (h mod bits)) then false
           else all_probes k bits (u32 (h + delta)) delta array
  end.

(** A [char] as a [size_t]. *)
Definition char_size (c : Z) : Z := if c <? 128 then c else c - 256 + 2 ^ 64.

Definition bloom_KeyMayMatch (key bloom_filter : list Z) : bool :=
  let len := length bloom_filter in
  if (len <? 2)%nat then false
  else
    let array := bloom_filter in
    let bits := Z.of_nat (len - 1) * 8 in
    let k := char_size (default 0 (array !! (len - 1)%nat)) in
    if 30 <? k then true
    else
      let h := BloomHash key in
      all_probes (Z.to_nat k) bits h (rotate17 h) array.

Definition bloom_policy (p : BloomFilterPolicy) : FilterPolicy := {|
  policy_Name := bytes_of "leveldb.BuiltinBloomFilter2";
  CreateFilter := bloom_CreateFilter p;
  KeyMayMatch := bloom_KeyMayMatch
|}.
End hash.

(** What the tables rely on: a filter is appended to the destination, and
    matches every key it was made from. *)
Class FilterPolicyLaws (F : FilterPolicy) : Prop := {
  policy_Name_bytes : bytes policy_Name;
  CreateFilter_match keys dst :
    Z.of_nat (length keys) < 2 ^ 31 → keys ≠ [] →
    ∃ filter, CreateFilter keys dst = dst ++ filter ∧ bytes filter ∧
      Forall (λ key, KeyMayMatch key filter = true) keys
}.

(** ** Bits of the array *)

Lemma test_bit_spec array pos :
  0 ≤ pos →
  test_bit array pos = Z.testbit (default 0 (array !! Z.to_nat (pos / 8))) (pos mod 8).
Proof.
  intros Hp. unfold test_bit. set (b := default 0 _). pose proof (Z.mod_pos_bound pos 8 ltac:(lia)).
  destruct (Z.testbit b (pos mod 8)) eqn:E.
  - apply negb_true_iff, Z.eqb_neq. intros H0.
    apply (f_equal (λ x, Z.testbit x (pos mod 8))) in H0.
    rewrite Z.land_spec, E, Z.shiftl_spec, Z.bits_0 in H0 by lia.
    by rewrite Z.sub_diag in H0.
  - apply negb_false_iff, Z.eqb_eq, Z.bits_inj'. intros i Hi.
    rewrite Z.land_spec, Z.bits_0, Z.shiftl_spec by lia.
    destruct (decide (i = pos mod 8)) as [->|Hne]; [by rewrite E|].
    destruct (decide (i < pos mod 8)); [rewrite (Z.testbit_neg_r 1) by lia; apply andb_false_r|].
    assert (Hb : Z.testbit 1 (i - pos mod 8) = false).
    { change 1 with (2 ^ 0). apply Z.pow2_bits_false. lia. }
    rewrite Hb. apply andb_false_r.
Qed.

Lemma length_set_bit array pos : length (set_bit array pos) = length array.
Proof. apply length_alter. Qed.

(** Setting a bit keeps the bits that are set. *)
Lemma set_bit_mono array pos pos' :
  0 ≤ pos → 0 ≤ pos' → test_bit array pos' = true → test_bit (set_bit array pos) pos' = true.
Proof.
  intros H H'. rewrite !test_bit_spec by done. unfold set_bit.
  destruct (decide (Z.to_nat (pos / 8) = Z.to_nat (pos' / 8))) as [E|E].
  - rewrite E. destruct (array !! Z.to_nat (pos' / 8)) as [b|] eqn:Hb.
    + rewrite list_lookup_alter_eq, Hb. cbn [fmap option_fmap option_map default from_option id].
      intros Ht. pose proof (Z.mod_pos_bound pos' 8 ltac:(lia)). unfold wrap.
      rewrite Z.mod_pow2_bits_low by lia. by rewrite Z.lor_spec, Ht.
    + cbn. by rewrite Z.bits_0.
  - by rewrite list_lookup_alter_ne.
Qed.

Lemma set_bit_sets array pos :
  0 ≤ pos → pos / 8 < Z.of_nat (length array) → test_bit (set_bit array pos) pos = true.
Proof.
  intros H Hl. rewrite test_bit_spec by done. unfold set_bit.
  assert (Hd : 0 ≤ pos / 8) by (apply Z.div_pos; lia).
  destruct (lookup_lt_is_Some_2 array (Z.to_nat (pos / 8)) ltac:(lia)) as [b Hb].
  rewrite list_lookup_alter_eq, Hb. cbn [fmap option_fmap option_map default from_option id].
  pose proof (Z.mod_pos_bound pos 8 ltac:(lia)). unfold wrap. rewrite Z.mod_pow2_bits_low by lia.
  rewrite Z.lor_spec, Z.shiftl_spec, Z.sub_diag by lia. apply orb_true_r.
Qed.

Lemma u8_lor_bytes array pos : bytes array → bytes (set_bit array pos).
Proof.
  intros Ha. unfold set_bit. apply Forall_lookup. intros i x Hx.
  destruct (decide (i = Z.to_nat (pos / 8))) as [->|Hne].
  - rewrite list_lookup_alter_eq in Hx. apply fmap_Some in Hx as (b & _ & ->).
    apply wrap_range. lia.
  - rewrite list_lookup_alter_ne in Hx by done. by eapply Forall_lookup_1.
Qed.

Section probes.
Context (bits : Z) (Hbits : 0 < bits).

Lemma add_probes_mono k h delta array pos :
  0 ≤ pos → test_bit array pos = true → test_bit (add_probes k bits h delta array) pos = true.
Proof.
  revert h array. induction k as [|k IH]; intros h array Hp Ht; [done|]. cbn [add_probes].
  apply IH; [done|]. apply set_bit_mono; [|done|done]. by apply Z.mod_pos_bound.
Qed.

Lemma length_add_probes k h delta array : length (add_probes k bits h delta array) = length array.
Proof.
  revert h array. induction k as [|k IH]; intros h array; [done|]. cbn [add_probes].
  by rewrite IH, length_set_bit.
Qed.

Lemma add_probes_bytes k h delta array : bytes array → bytes (add_probes k bits h delta array).
Proof.
  revert h array. induction k as [|k IH]; intros h array Ha; [done|]. cbn [add_probes].
  by apply IH, u8_lor_bytes.
Qed.

Lemma add_probes_all k h delta array array' :
  bits ≤ 8 * Z.of_nat (length array) →
  (∀ pos, 0 ≤ pos → test_bit (add_probes k bits h delta array) pos = true →
    test_bit array' pos = true) →
  all_probes k bits h delta array' = true.
Proof.
  revert h array. induction k as [|k IH]; intros h array Hl Ht; [done|]. cbn [all_probes add_probes] in *.
  pose proof (Z.mod_pos_bound h bits Hbits) as Hm.
  rewrite Ht; [|lia|].
  - cbn [negb]. eapply IH; [|exact Ht]. by rewrite length_set_bit.
  - apply add_probes_mono; [lia|]. apply set_bit_sets; [lia|].
    apply Z.div_lt_upper_bound; lia.
Qed.

(** Adding probes only touches the bytes below [bits / 8]. *)
Lemma add_probes_last k h delta array i :
  (bits ≤ 8 * Z.of_nat i) → add_probes k bits h delta array !! i = array !! i.
Proof.
  revert h array. induction k as [|k IH]; intros h array Hi; [done|]. cbn [add_probes].
  rewrite IH by done. unfold set_bit. apply list_lookup_alter_ne.
  pose proof (Z.mod_pos_bound h bits Hbits) as Hm.
  assert (h mod bits / 8 < Z.of_nat i) by (apply Z.div_lt_upper_bound; lia). lia.
Qed.
End probes.

Section filter.
Context `{P : Port} (bits : Z) (Hbits : 0 < bits) (k : nat).

Lemma add_keys_mono keys array pos :
  0 ≤ pos → test_bit array pos = true → test_bit (foldl (add_key k bits) array keys) pos = true.
Proof.
  revert array. induction keys as [|key keys IH]; intros array Hp Ht; [done|]. cbn [foldl].
  apply IH; [done|]. by apply add_probes_mono.
Qed.

Lemma length_add_keys keys array : length (foldl (add_key k bits) array keys) = length array.
Proof.
  revert array. induction keys as [|key keys IH]; intros array; [done|]. cbn [foldl].
  rewrite IH. apply length_add_probes.
Qed.

Lemma add_keys_bytes keys array : bytes array → bytes (foldl (add_key k bits) array keys).
Proof.
  revert array. induction keys as [|key keys IH]; intros array Ha; [done|]. cbn [foldl].
  apply IH. by apply add_probes_bytes.
Qed.

Lemma add_keys_last keys array i :
  bits ≤ 8 * Z.of_nat i → foldl (add_key k bits) array keys !! i = array !! i.
Proof.
  intros Hi. revert array. induction keys as [|key keys IH]; intros array; [done|]. cbn [foldl].
  rewrite IH. by apply add_probes_last.
Qed.

Lemma add_keys_all keys array key :
  bits ≤ 8 * Z.of_nat (length array) → key ∈ keys →
  all_probes k bits (BloomHash key) (rotate17 (BloomHash key))
    (foldl (add_key k bits) array keys) = true.
Proof.
  intros Hl Hk. revert array Hl. induction keys as [|key' keys IH]; intros array Hl.
  { by apply not_elem_of_nil in Hk. }
  cbn [foldl]. apply elem_of_cons in Hk as [<-|Hk].
  - apply (add_probes_all bits Hbits _ _ _ array); [done|]. intros pos Hp Ht.
    by apply add_keys_mono.
  - apply IH; [done|]. unfold add_key. by rewrite length_add_probes.
Qed.
End filter.

(** ** The Bloom filter has no false negatives *)

Definition bloom_ok (p : BloomFilterPolicy) : Prop :=
  1 ≤ k_ p ≤ 30 ∧ 0 ≤ bits_per_key_ p < 2 ^ 31.

Lemma NewBloomFilterPolicy_ok b probes : 0 ≤ b < 2 ^ 31 → bloom_ok (NewBloomFilterPolicy b probes).
Proof.
  intros Hb. unfold NewBloomFilterPolicy, bloom_ok. cbn [k_ bits_per_key_].
  rewrite wrap_small by (unfold in_width; lia). split; [|done].
  destruct (Z.ltb_spec probes 1); [done|]. destruct (Z.ltb_spec 30 probes); lia.
Qed.

Lemma bloom_match `{P : Port} p keys dst :
  bloom_ok p → Z.of_nat (length keys) < 2 ^ 31 →
  ∃ filter, bloom_CreateFilter p keys dst = dst ++ filter ∧ bytes filter ∧
    Forall (λ key, bloom_KeyMayMatch key filter = true) keys.
Proof.
  intros [Hk Hb] Hn. unfold bloom_CreateFilter.
  set (bits0 := u64 (Z.of_nat (length keys) * bits_per_key_ p)).
  assert (Hb0 : 0 ≤ bits0 < 2 ^ 62).
  { unfold bits0. rewrite wrap_small; [|unfold in_width]; change (2 ^ 31) with 2147483648 in *;
      change (2 ^ 62) with (2147483648 * 2147483648);
      change (2 ^ 64) with (4 * (2147483648 * 2147483648)); nia. }
  set (bits1 := if bits0 <? 64 then 64 else bits0).
  assert (Hb1 : 64 ≤ bits1 < 2 ^ 62) by (unfold bits1; destruct (Z.ltb_spec bits0 64); lia).
  rewrite (wrap_small 64 (bits1 + 7)) by (unfold in_width; lia).
  set (B := (bits1 + 7) / 8).
  assert (HB : 8 ≤ B < 2 ^ 60).
  { unfold B. split; [apply Z.div_le_lower_bound; lia|apply Z.div_lt_upper_bound; lia]. }
  rewrite (wrap_small 64 (B * 8)) by (unfold in_width; lia).
  eexists. split; [done|].
  set (array := replicate (Z.to_nat B) 0 ++ [u8 (k_ p)]).
  assert (Hk8 : u8 (k_ p) = k_ p) by (apply wrap_small; unfold in_width; cbn; lia).
  assert (Hlen : length array = S (Z.to_nat B))
    by (unfold array; rewrite length_app, length_replicate; cbn; lia).
  assert (Hba : bytes array).
  { unfold array. apply Forall_app. split; [|apply Forall_singleton, wrap_range; lia].
    apply Forall_replicate. by split. }
  split; [by apply add_keys_bytes|]. apply Forall_forall. intros key Hkey.
  unfold bloom_KeyMayMatch. rewrite length_add_keys, Hlen.
  rewrite (proj2 (Nat.ltb_ge _ 2)) by lia. rewrite Nat.sub_succ, Nat.sub_0_r, Z2Nat.id by lia.
  rewrite add_keys_last by lia.
  assert (Hlast : array !! Z.to_nat B = Some (k_ p)).
  { unfold array. rewrite lookup_app_r by (rewrite length_replicate; lia).
    by rewrite length_replicate, Nat.sub_diag, Hk8. }
  rewrite Hlast. change (default 0 (Some (k_ p))) with (k_ p).
  assert (Hcs : char_size (k_ p) = k_ p)
    by (unfold char_size; by rewrite (proj2 (Z.ltb_lt (k_ p) 128)) by lia).
  rewrite Hcs, (proj2 (Z.ltb_ge 30 (k_ p))) by lia.
  apply add_keys_all; [lia|rewrite Hlen; lia|done].
Qed.

Lemma bloom_laws `{P : Port} p : bloom_ok p → FilterPolicyLaws (bloom_policy p).
Proof.
  intros Hp. split; [apply bytes_of_bytes|]. intros keys dst Hn _. by apply bloom_match.
Qed.
