(* ===== verification/InternalKey.v ===== *)
(** The comparator and the filter policy that the database gives to its
    tables, [InternalKeyComparator] and [InternalFilterPolicy] of
    leveldb/db/dbformat.cc, as instances of the interfaces of Slice.v and
    DbFormat.v.

    The code asserts that every internal key has eight bytes at least.  The
    functions of DbFormat.v are [None] on shorter ones; the comparator here
    orders those before all others, so that the laws hold on all strings. *)

From Stdlib Require Import ZArith Lia.
From stdpp Require Import base option numbers list.
From S2P Require Import Prelude Coding Slice WriteBatch DbFormat Bloom.

Section comparator.
Context `{P : Port} (C : Comparator).

Definition icmp_Compare (a b : list Z) : Z :=
  match (8 <=? length a)%nat, (8 <=? length b)%nat with
  | true, true => default 0 (ikey_Compare a b)
  | false, true => -1
  | true, false => 1
  | false, false => slice_compare a b
  end.

Definition InternalKeyComparator : Comparator := {|
  Compare := icmp_Compare;
  FindShortestSeparator start limit := default start (ikey_FindShortestSeparator start limit);
  FindShortSuccessor key := default key (ikey_FindShortSuccessor key)
|}.

(** The user key and the tag of an internal key, whatever its bytes. *)
Definition ikey_user (a : list Z) : list Z := take (length a - 8) a.
Definition ikey_tag (a : list Z) : Z := default 0 (DecodeFixed64 (tag_bytes a)).

Lemma DecodeFixed32_some p : (4 ≤ length p)%nat → is_Some (DecodeFixed32 p).
Proof.
  intros Hl. unfold DecodeFixed32. destruct kLittleEndian.
  { rewrite bool_decide_true by done. by eexists. }
  destruct p as [|b0 [|b1 [|b2 [|b3 p]]]]; cbn [length] in Hl; try lia.
  change ((b0 :: b1 :: b2 :: b3 :: p).[0]) with (Some b0).
  change ((b0 :: b1 :: b2 :: b3 :: p).[1]) with (Some b1).
  change ((b0 :: b1 :: b2 :: b3 :: p).[2]) with (Some b2).
  change ((b0 :: b1 :: b2 :: b3 :: p).[3]) with (Some b3). simpl_bind. by eexists.
Qed.

Lemma DecodeFixed64_some p : (8 ≤ length p)%nat → is_Some (DecodeFixed64 p).
Proof.
  intros Hl. unfold DecodeFixed64. destruct kLittleEndian.
  { rewrite bool_decide_true by done. by eexists. }
  destruct (DecodeFixed32_some p) as [lo ->]; [lia|]. simpl_bind.
  destruct (DecodeFixed32_some (drop 4 p)) as [hi ->]; [rewrite length_drop; lia|]. simpl_bind. by eexists.
Qed.

Lemma ikey_Compare_long a b :
  (8 ≤ length a)%nat → (8 ≤ length b)%nat →
  ikey_Compare a b = Some (ikey_cmp (ikey_user a) (ikey_tag a) (ikey_user b) (ikey_tag b)).
Proof.
  intros Ha Hb. unfold ikey_Compare, ExtractUserKey.
  rewrite !(proj2 (Nat.leb_le _ _)) by done. simpl_bind. fold (ikey_user a) (ikey_user b).
  unfold ikey_cmp. destruct (Z.eqb_spec (Compare (ikey_user a) (ikey_user b)) 0) as [E|]; [|done].
  assert (Hd : ∀ x, (8 ≤ length x)%nat → DecodeFixed64 (tag_bytes x) = Some (ikey_tag x)).
  { intros x Hx. unfold ikey_tag. destruct (DecodeFixed64_some (tag_bytes x)) as [t ->]; [|done].
    unfold tag_bytes. rewrite length_drop. lia. }
  rewrite !Hd by done. simpl_bind. by rewrite E.
Qed.

Lemma icmp_long a b :
  (8 ≤ length a)%nat → (8 ≤ length b)%nat →
  icmp_Compare a b = ikey_cmp (ikey_user a) (ikey_tag a) (ikey_user b) (ikey_tag b).
Proof.
  intros Ha Hb. unfold icmp_Compare. rewrite !(proj2 (Nat.leb_le _ _)) by done.
  by rewrite ikey_Compare_long.
Qed.

Lemma icmp_bytes ua ta ub tb :
  in_width 64 ta → in_width 64 tb →
  icmp_Compare (ikey_bytes ua ta) (ikey_bytes ub tb) = ikey_cmp ua ta ub tb.
Proof.
  intros Ha Hb. unfold icmp_Compare.
  rewrite !(proj2 (Nat.leb_le _ _)) by (rewrite length_ikey_bytes; lia). by rewrite ikey_Compare_bytes.
Qed.

(** An internal key that is bytes is one of those written. *)
Lemma ikey_split a :
  bytes a → (8 ≤ length a)%nat → ∃ u t, a = ikey_bytes u t ∧ bytes u ∧ in_width 64 t.
Proof.
  intros Hb Hl. exists (ikey_user a), (of_le_bytes (tag_bytes a)). unfold ikey_bytes, ikey_user.
  assert (Ht : length (tag_bytes a) = 8%nat) by (unfold tag_bytes; rewrite length_drop; lia).
  assert (Hbt : bytes (tag_bytes a)) by (by apply Forall_drop).
  split; [|split; [by apply Forall_take|]].
  - rewrite <-Ht at 2. rewrite le_bytes_of_le_bytes by done. unfold tag_bytes. by rewrite take_drop.
  - pose proof (of_le_bytes_width _ Hbt) as Hw. by rewrite Ht in Hw.
Qed.

Context {HC : ComparatorLaws C}.

Lemma icmp_anti a b : Z.sgn (icmp_Compare b a) = - Z.sgn (icmp_Compare a b).
Proof.
  destruct (Nat.leb_spec 8 (length a)) as [Ha|Ha], (Nat.leb_spec 8 (length b)) as [Hb|Hb].
  1: rewrite !icmp_long by done; apply ikey_cmp_anti.
  all: unfold icmp_Compare; rewrite ?(proj2 (Nat.leb_le 8 (length a))), ?(proj2 (Nat.leb_le 8 (length b))),
    ?(proj2 (Nat.leb_gt 8 (length a))), ?(proj2 (Nat.leb_gt 8 (length b))) by done; try done.
  apply (Compare_anti (C := BytewiseComparator)).
Qed.

Lemma icmp_trans a b c : icmp_Compare a b ≤ 0 → icmp_Compare b c ≤ 0 → icmp_Compare a c ≤ 0.
Proof.
  destruct (Nat.leb_spec 8 (length a)) as [Ha|Ha], (Nat.leb_spec 8 (length b)) as [Hb|Hb],
    (Nat.leb_spec 8 (length c)) as [Hc|Hc].
  1: rewrite !icmp_long by done; apply ikey_cmp_trans.
  all: unfold icmp_Compare;
    rewrite ?(proj2 (Nat.leb_le 8 (length a))), ?(proj2 (Nat.leb_le 8 (length b))),
      ?(proj2 (Nat.leb_le 8 (length c))), ?(proj2 (Nat.leb_gt 8 (length a))),
      ?(proj2 (Nat.leb_gt 8 (length b))), ?(proj2 (Nat.leb_gt 8 (length c))) by done; try lia.
  apply (Compare_trans (C := BytewiseComparator)).
Qed.

(** A separator of two internal keys is the first of them, or its user key is
    before that of the second. *)
Lemma icmp_separator_user s l :
  bytes s → bytes l → (8 ≤ length s)%nat → (8 ≤ length l)%nat → icmp_Compare s l < 0 →
  let r := default s (ikey_FindShortestSeparator s l) in
  r = s ∨ (8 ≤ length r)%nat ∧ Compare (ikey_user r) (ikey_user l) < 0.
Proof.
  intros Hs Hl Hls Hll Hlt. destruct (ikey_split s Hs Hls) as (us & ts & -> & Hus & Hts).
  destruct (ikey_split l Hl Hll) as (ul & tl & -> & Hul & Htl). rewrite icmp_bytes in Hlt by done.
  destruct (ikey_separator_user us ts ul tl Hus Hul Hts Htl Hlt) as [->|(ur & tr & -> & Hu)]; [by left|].
  right. cbn. rewrite length_ikey_bytes. split; [lia|]. unfold ikey_user, ikey_bytes.
  rewrite !length_app, !length_le_bytes, !Nat.add_sub, !take_app_length. done.
Qed.

(** The separator of two internal keys, also if they are not in order. *)
Lemma icmp_separator s l :
  bytes s → bytes l → (8 ≤ length s)%nat → (8 ≤ length l)%nat →
  ∃ r, ikey_FindShortestSeparator s l = Some r ∧ bytes r ∧ (length r ≤ length s)%nat ∧
    (0 ≤ icmp_Compare s l → r = s) ∧
    (icmp_Compare s l < 0 → icmp_Compare s r ≤ 0 ∧ icmp_Compare r l < 0).
Proof.
  intros Hs Hl Hls Hll. destruct (ikey_split s Hs Hls) as (us & ts & -> & Hus & Hts).
  destruct (ikey_split l Hl Hll) as (ul & tl & -> & Hul & Htl). rewrite !icmp_bytes by done.
  destruct (decide (ikey_cmp us ts ul tl < 0)) as [Hlt|Hge].
  - destruct (ikey_separator_run us ts ul tl Hus Hul Hts Htl Hlt)
      as (ur & tr & -> & Htr & Hlen & H1 & H2 & Hb).
    exists (ikey_bytes ur tr). split; [done|]. split; [by apply ikey_bytes_bytes|].
    rewrite !length_ikey_bytes, !icmp_bytes by done. split; [lia|]. split; [lia|done].
  - exists (ikey_bytes us ts). split.
    + unfold ikey_FindShortestSeparator. rewrite !ExtractUserKey_ikey. simpl_bind.
      rewrite FindShortestSeparator_unchanged; [by rewrite Nat.ltb_irrefl|done|done|].
      destruct (decide (Compare us ul < 0)) as [Hu|]; [|lia].
      pose proof (ikey_cmp_user us ts ul tl Hu). lia.
    + split; [done|]. split; [done|]. split; [done|lia].
Qed.

Lemma short_separator s l :
  (length s < 8)%nat ∨ (length l < 8)%nat → default s (ikey_FindShortestSeparator s l) = s.
Proof.
  intros Hsl. unfold ikey_FindShortestSeparator, ExtractUserKey.
  destruct (Nat.leb_spec 8 (length s)); simpl_bind; [|done].
  destruct (Nat.leb_spec 8 (length l)); simpl_bind; [lia|done].
Qed.

Lemma icmp_successor k :
  bytes k → let r := default k (ikey_FindShortSuccessor k) in
  bytes r ∧ (length r ≤ length k)%nat ∧ icmp_Compare k r ≤ 0.
Proof.
  intros Hk. destruct (Nat.leb_spec 8 (length k)) as [Hl|Hl].
  - destruct (ikey_split k Hk Hl) as (u & t & -> & Hu & Ht).
    destruct (ikey_successor_run u t Hu Ht) as (ur & tr & -> & Htr & Hlen & H1 & Hb). cbn.
    split; [by apply ikey_bytes_bytes|]. rewrite !length_ikey_bytes, icmp_bytes by done. split; [lia|done].
  - unfold ikey_FindShortSuccessor, ExtractUserKey. rewrite (proj2 (Nat.leb_gt _ _)) by done. cbn.
    split; [done|]. split; [done|]. pose proof (icmp_anti k k). lia.
Qed.

#[export] Instance InternalKeyComparator_laws : ComparatorLaws InternalKeyComparator.
Proof.
  assert (Hrefl : ∀ k, icmp_Compare k k = 0) by (intros k; pose proof (icmp_anti k k); lia).
  assert (Hsep : ∀ s l, bytes s → bytes l → let r := default s (ikey_FindShortestSeparator s l) in
    bytes r ∧ (length r ≤ length s)%nat ∧ (0 ≤ icmp_Compare s l → r = s) ∧
    (icmp_Compare s l < 0 → icmp_Compare s r ≤ 0 ∧ icmp_Compare r l < 0)).
  { intros s l Hs Hl. destruct (decide (8 ≤ length s ∧ 8 ≤ length l)%nat) as [[H1 H2]|Hn].
    - destruct (icmp_separator s l Hs Hl H1 H2) as (r & -> & Hr). exact Hr.
    - rewrite short_separator by lia. cbn. rewrite Hrefl. split; [done|]. split; [done|]. split; [done|lia]. }
  split; cbn [Compare FindShortestSeparator FindShortSuccessor InternalKeyComparator].
  - apply icmp_anti.
  - apply icmp_trans.
  - intros s l Hs Hl. by apply Hsep.
  - intros s l Hs Hl. by apply Hsep.
  - intros k Hk. by apply icmp_successor.
  - intros s l Hs Hl. by apply Hsep.
  - intros k Hk. by apply icmp_successor.
  - intros s l Hs Hl. by apply Hsep.
  - intros k Hk. by apply icmp_successor.
Qed.
End comparator.

(** ** Entries *)

Section entries.
Context `{P : Port} {C : Comparator}.

Lemma ikey_user_bytes u tag : ikey_user (ikey_bytes u tag) = u.
Proof. unfold ikey_user, ikey_bytes. by rewrite length_app, length_le_bytes, Nat.add_sub, take_app_length. Qed.

Lemma ikey_tag_bytes u tag : in_width 64 tag → ikey_tag (ikey_bytes u tag) = tag.
Proof. intros Ht. unfold ikey_tag. by rewrite tag_bytes_ikey, <-tag_bytes_ikey with (u := u), DecodeFixed64_tag. Qed.

(** The newest entry of user key [u] that is visible at sequence number [seq]. *)
Definition visible (es : list (list Z * list Z)) (u : list Z) (seq : Z) : option (list Z * list Z) :=
  snd <$> list_find (λ e, Compare (ikey_user e.1) u = 0 ∧ ikey_tag e.1 ≤ tag_of seq kValueTypeForSeek) es.

(** The sequence number and the type of an internal key. *)
Definition ikey_seq (k : list Z) : Z := Z.shiftr (ikey_tag k) 8.
Definition ikey_type (k : list Z) : Z := Z.land (ikey_tag k) 255.

(** Internal keys as the database writes them. *)
Definition ikey_wf (k : list Z) : Prop :=
  ∃ u s t, k = ikey_bytes u (tag_of s t) ∧ seq_ok s ∧ type_ok t.

Lemma ikey_wf_parts u s t :
  seq_ok s → type_ok t → let k := ikey_bytes u (tag_of s t) in
  ikey_user k = u ∧ ikey_tag k = tag_of s t ∧ ikey_seq k = s ∧ ikey_type k = t.
Proof.
  intros Hs Ht. cbv zeta. unfold ikey_seq, ikey_type. rewrite ikey_user_bytes, ikey_tag_bytes by (by apply tag_of_width).
  by rewrite tag_of_seq, tag_of_type.
Qed.

Lemma ikey_wf_long k : ikey_wf k → (8 ≤ length k)%nat.
Proof. intros (u & s & t & -> & _). rewrite length_ikey_bytes. lia. Qed.

Lemma ikey_wf_type k : ikey_wf k → ikey_type k = kTypeDeletion ∨ ikey_type k = kTypeValue.
Proof.
  intros (u & s & t & -> & Hs & Ht). destruct (ikey_wf_parts u s t Hs Ht) as (_ & _ & _ & ->).
  unfold type_ok, kTypeDeletion, kTypeValue in *. lia.
Qed.

Lemma ikey_wf_parse k :
  ikey_wf k → ParseInternalKey k = Some (Some (mkParsed (ikey_user k) (ikey_seq k) (ikey_type k))) ∧
    ExtractUserKey k = Some (ikey_user k).
Proof.
  intros (u & s & t & -> & Hs & Ht). destruct (ikey_wf_parts u s t Hs Ht) as (Hu & _ & Hq & Hy).
  rewrite Hu, Hq, Hy. split; [by apply ParseInternalKey_bytes|apply ExtractUserKey_ikey].
Qed.

Lemma ikey_wf_visible k seq :
  ikey_wf k → ikey_tag k ≤ tag_of seq kValueTypeForSeek ↔ ikey_seq k ≤ seq.
Proof.
  intros (u & s & t & -> & Hs & Ht). destruct (ikey_wf_parts u s t Hs Ht) as (_ & -> & -> & _).
  unfold type_ok, tag_of, kValueTypeForSeek, kTypeValue in *. lia.
Qed.
End entries.

(** ** [InternalFilterPolicy] *)

(** [default]: as above, for keys without a tag. *)
Definition InternalFilterPolicy (user_policy_ : FilterPolicy) : FilterPolicy := {|
  policy_Name := policy_Name (FilterPolicy := user_policy_);
  CreateFilter keys dst := CreateFilter ((λ key, default key (ExtractUserKey key)) <$> keys) dst;
  KeyMayMatch key filter := KeyMayMatch (default key (ExtractUserKey key)) filter
|}.

#[export] Instance InternalFilterPolicy_laws (F : FilterPolicy) :
  FilterPolicyLaws F → FilterPolicyLaws (InternalFilterPolicy F).
Proof.
  intros HF. split; [apply (policy_Name_bytes (F := F))|]. intros keys dst Hn Hne. cbn.
  destruct (CreateFilter_match (F := F) ((λ key, default key (ExtractUserKey key)) <$> keys) dst)
    as (filter & E & Hb & Hm).
  - by rewrite length_fmap.
  - by destruct keys.
  - exists filter. split; [done|]. split; [done|]. by apply Forall_fmap in Hm.
Qed.

(** On internal keys the policy is that of dbformat.cc. *)
Lemma InternalFilterPolicy_agrees (F : FilterPolicy) keys dst key filter :
  Forall (λ k, 8 ≤ length k)%nat keys → (8 ≤ length key)%nat →
  ifilter_CreateFilter keys dst = Some (CreateFilter (FilterPolicy := InternalFilterPolicy F) keys dst) ∧
  ifilter_KeyMayMatch key filter = Some (KeyMayMatch (FilterPolicy := InternalFilterPolicy F) key filter).
Proof.
  assert (Hx : ∀ k, (8 ≤ length k)%nat → ExtractUserKey k = Some (default k (ExtractUserKey k))).
  { intros k Hk. unfold ExtractUserKey. by rewrite (proj2 (Nat.leb_le _ _)) by done. }
  intros Hkeys Hkey. unfold ifilter_CreateFilter, ifilter_KeyMayMatch. split.
  - rewrite (proj2 (mapM_Some _ _ ((λ key, default key (ExtractUserKey key)) <$> keys))); [done|].
    apply Forall2_fmap_r. apply Forall_Forall2_diag. eapply Forall_impl; [exact Hkeys|]. exact Hx.
  - by rewrite (Hx key Hkey).
Qed.
