(* ===== verification/DbIter.v ===== *)
(** The iterator of the database: leveldb/db/db_iter.cc.

    [DBIter] turns an iterator over internal keys (a merging iterator over
    memtables and tables) into one over the user keys that are visible at a
    sequence number.  The last part proves that it is a cursor over
    [user_view]: of the entries of each user key the newest one that is not
    after the sequence number, if it is a value.

    Every entry that is read counts towards the samples that tell the
    database which keys are read often: [samples_] are the keys with which
    [db_->RecordReadSample] has been called.  The argument [skip] of
    [FindNextUserEntry] always points to [saved_key_], which the model uses
    directly; the capacity of the strings is left out. *)

From Stdlib Require Import ZArith Lia String.
From stdpp Require Import base option numbers list strings.
From S2P Require Import Prelude Coding Slice WriteBatch DbFormat SkipList Iterator Bloom InternalKey.

Inductive Direction := kForward | kReverse.

#[export] Instance Direction_eq_dec : EqDecision Direction.
Proof. solve_decision. Defined.

Record DBIter (T : Type) := mkDBIter {
  iter_ : T;
  sequence_ : Z;
  status_ : Status;
  saved_key_ : list Z;
  saved_value_ : list Z;
  direction_ : Direction;
  valid_ : bool;
  d_rnd_ : Z;
  bytes_counter_ : Z;
  samples_ : list (list Z)
}.
Arguments mkDBIter {T}.
Arguments iter_ {T}.
Arguments sequence_ {T}.
Arguments status_ {T}.
Arguments saved_key_ {T}.
Arguments saved_value_ {T}.
Arguments direction_ {T}.
Arguments valid_ {T}.
Arguments d_rnd_ {T}.
Arguments bytes_counter_ {T}.
Arguments samples_ {T}.

Definition kReadBytesPeriod : Z := 1048576.

(** The gap to the next sample, and the state of the generator. *)
Definition RandomPeriod (rnd : Z) : Z * Z := Random_Uniform rnd (2 * kReadBytesPeriod).

(** [while (bytes_counter_ < 0)]: the counter, the generator and the number
    of calls of [RecordReadSample]. *)
Fixpoint sample_loop (fuel : nat) (counter rnd : Z) (calls : nat) : option (Z * Z * nat) :=
  if counter <? 0 then
    match fuel with
    | O => None
    | S fuel => let '(period, rnd) := RandomPeriod rnd in sample_loop fuel (counter + period) rnd (S calls)
    end
  else Some (counter, rnd, calls).

Section dbiter.
Context `{P : Port} {C : Comparator} `{Iterator T} (fuel : nat).

Implicit Types d : DBIter T.

(** *** The fields *)

Definition set_iter d (it : T) : DBIter T :=
  mkDBIter it (sequence_ d) (status_ d) (saved_key_ d) (saved_value_ d) (direction_ d) (valid_ d) (d_rnd_ d)
    (bytes_counter_ d) (samples_ d).

Definition set_status d (s : Status) : DBIter T :=
  mkDBIter (iter_ d) (sequence_ d) s (saved_key_ d) (saved_value_ d) (direction_ d) (valid_ d) (d_rnd_ d)
    (bytes_counter_ d) (samples_ d).

Definition set_saved d (k v : list Z) : DBIter T :=
  mkDBIter (iter_ d) (sequence_ d) (status_ d) k v (direction_ d) (valid_ d) (d_rnd_ d)
    (bytes_counter_ d) (samples_ d).

Definition set_direction d (dir : Direction) : DBIter T :=
  mkDBIter (iter_ d) (sequence_ d) (status_ d) (saved_key_ d) (saved_value_ d) dir (valid_ d) (d_rnd_ d)
    (bytes_counter_ d) (samples_ d).

Definition set_valid d (v : bool) : DBIter T :=
  mkDBIter (iter_ d) (sequence_ d) (status_ d) (saved_key_ d) (saved_value_ d) (direction_ d) v (d_rnd_ d)
    (bytes_counter_ d) (samples_ d).

Definition set_sampling d (counter rnd : Z) (s : list (list Z)) : DBIter T :=
  mkDBIter (iter_ d) (sequence_ d) (status_ d) (saved_key_ d) (saved_value_ d) (direction_ d) (valid_ d) rnd
    counter s.

(** An operation of [iter_]. *)
Definition iter_apply d (o : iter_op) : option (DBIter T) :=
  it ← i_apply (iter_ d) o; Some (set_iter d it).

Definition SaveKey d (k : list Z) : DBIter T := set_saved d k (saved_value_ d).

Definition ClearSavedValue d : DBIter T := set_saved d (saved_key_ d) [].

(** *** The operations *)

Definition NewDBIterator (it : T) (s seed : Z) : DBIter T :=
  let '(period, rnd) := RandomPeriod (Random_new seed) in
  mkDBIter it s OK [] [] kForward false rnd period [].

(** The key, or [None] for [false]. *)
Definition ParseKey d : option (DBIter T * option ParsedInternalKey) :=
  k ← i_key (iter_ d);
  v ← i_value (iter_ d);
  let n := Z.of_nat (length k) + Z.of_nat (length v) in
  let counter := bytes_counter_ d - n in
  '(counter, rnd, calls) ← sample_loop (Z.to_nat (2 * - counter)) counter (d_rnd_ d) 0;
  let d := set_sampling d counter rnd (samples_ d ++ replicate calls k) in
  ikey ← ParseInternalKey k;
  match ikey with
  | None => Some (set_status d (Corruption "corrupted internal key in DBIter"), None)
  | Some ikey => Some (d, Some ikey)
  end.

(** The [do] loop; a turn reads an entry. *)
Fixpoint find_next (fuel : nat) (skipping : bool) d : option (DBIter T) :=
  match fuel with
  | O => None
  | S fuel =>
      '(d, parsed) ← ParseKey d;
      let next (skipping : bool) d :=
        d ← iter_apply d OpNext;
        if i_Valid (iter_ d) then find_next fuel skipping d
        else Some (set_valid (SaveKey d []) false) in
      match parsed with
      | Some ikey =>
          if sequence ikey <=? sequence_ d then
            if type ikey =? kTypeDeletion then next true (SaveKey d (user_key ikey))
            else if skipping && (Compare (user_key ikey) (saved_key_ d) <=? 0) then next skipping d
            else Some (SaveKey (set_valid d true) [])
          else next skipping d
      | None => next skipping d
      end
  end.

Definition FindNextUserEntry d (skipping : bool) : option (DBIter T) :=
  if negb (i_Valid (iter_ d)) then None (* assert *)
  else if decide (direction_ d = kForward) then find_next fuel skipping d
  else None (* assert *).

Definition d_Next d : option (DBIter T) :=
  if negb (valid_ d) then None (* assert *)
  else if decide (direction_ d = kReverse) then
    let d := set_direction d kForward in
    d ← (if negb (i_Valid (iter_ d)) then iter_apply d OpSeekToFirst else iter_apply d OpNext);
    if negb (i_Valid (iter_ d)) then Some (SaveKey (set_valid d false) [])
    else FindNextUserEntry d true
  else
    k ← i_key (iter_ d);
    u ← ExtractUserKey k;
    FindNextUserEntry (SaveKey d u) true.

(** The [do] loop: the iterator and [value_type]. *)
Fixpoint find_prev (fuel : nat) (value_type : Z) d : option (DBIter T * Z) :=
  match fuel with
  | O => None
  | S fuel =>
      '(d, parsed) ← ParseKey d;
      let prev (value_type : Z) d :=
        d ← iter_apply d OpPrev;
        if i_Valid (iter_ d) then find_prev fuel value_type d else Some (d, value_type) in
      match parsed with
      | Some ikey =>
          if sequence ikey <=? sequence_ d then
            if negb (value_type =? kTypeDeletion) && (Compare (user_key ikey) (saved_key_ d) <? 0)
            then Some (d, value_type)
            else if type ikey =? kTypeDeletion then prev (type ikey) (ClearSavedValue (SaveKey d []))
            else
              raw_value ← i_value (iter_ d);
              k ← i_key (iter_ d);
              u ← ExtractUserKey k;
              prev (type ikey) (set_saved d u raw_value)
          else prev value_type d
      | None => prev value_type d
      end
  end.

Definition FindPrevUserEntry d : option (DBIter T) :=
  if decide (direction_ d = kReverse) then
    '(d, value_type) ← (if i_Valid (iter_ d) then find_prev fuel kTypeDeletion d else Some (d, kTypeDeletion));
    Some (if value_type =? kTypeDeletion
          then set_direction (ClearSavedValue (SaveKey (set_valid d false) [])) kForward
          else set_valid d true)
  else None (* assert *).

(** [while (true)] of [Prev]: whether an entry of another key was found. *)
Fixpoint scan_back (fuel : nat) d : option (DBIter T * bool) :=
  match fuel with
  | O => None
  | S fuel =>
      d ← iter_apply d OpPrev;
      if negb (i_Valid (iter_ d)) then Some (d, false)
      else
        k ← i_key (iter_ d);
        u ← ExtractUserKey k;
        if Compare u (saved_key_ d) <? 0 then Some (d, true) else scan_back fuel d
  end.

Definition d_Prev d : option (DBIter T) :=
  if negb (valid_ d) then None (* assert *)
  else if decide (direction_ d = kForward) then
    if negb (i_Valid (iter_ d)) then None (* assert *)
    else
      k ← i_key (iter_ d);
      u ← ExtractUserKey k;
      '(d, found) ← scan_back fuel (SaveKey d u);
      if (found : bool) then FindPrevUserEntry (set_direction d kReverse)
      else Some (ClearSavedValue (SaveKey (set_valid d false) []))
  else FindPrevUserEntry d.

Definition d_Seek d (target : list Z) : option (DBIter T) :=
  let d := ClearSavedValue (set_direction d kForward) in
  key ← AppendInternalKey [] (mkParsed target (sequence_ d) kValueTypeForSeek);
  d ← iter_apply (SaveKey d key) (OpSeek key);
  if i_Valid (iter_ d) then FindNextUserEntry d false else Some (set_valid d false).

Definition d_SeekToFirst d : option (DBIter T) :=
  let d := ClearSavedValue (set_direction d kForward) in
  d ← iter_apply d OpSeekToFirst;
  if i_Valid (iter_ d) then FindNextUserEntry d false else Some (set_valid d false).

Definition d_SeekToLast d : option (DBIter T) :=
  let d := ClearSavedValue (set_direction d kReverse) in
  d ← iter_apply d OpSeekToLast;
  FindPrevUserEntry d.

Definition d_key d : option (list Z) :=
  if negb (valid_ d) then None (* assert *)
  else if decide (direction_ d = kForward) then k ← i_key (iter_ d); ExtractUserKey k
  else Some (saved_key_ d).

Definition d_value d : option (list Z) :=
  if negb (valid_ d) then None (* assert *)
  else if decide (direction_ d = kForward) then i_value (iter_ d)
  else Some (saved_value_ d).

Definition d_status d : option Status :=
  if ok (status_ d) then i_status (iter_ d) else Some (status_ d).

Definition db_iterator : Iterator (DBIter T) := {|
  i_Valid := valid_;
  i_SeekToFirst := d_SeekToFirst;
  i_SeekToLast := d_SeekToLast;
  i_Seek := d_Seek;
  i_Next := d_Next;
  i_Prev := d_Prev;
  i_key := d_key;
  i_value := d_value;
  i_status := d_status
|}.
End dbiter.

(** ** Sampling ends

    The generator never gives two multiples of the period one after the
    other, so that two turns of [sample_loop] increase the counter. *)

Definition seed_ok (s : Z) : Prop := 1 ≤ s < 2147483647.

Lemma Random_new_ok s : seed_ok (Random_new s).
Proof.
  unfold Random_new, seed_ok. pose proof (Z.land_ones s 31 ltac:(lia)) as E. change (Z.ones 31) with 2147483647 in E.
  rewrite E. pose proof (Z.mod_pos_bound s (2 ^ 31) ltac:(lia)). change (2 ^ 31) with 2147483648 in *.
  destruct (Z.eqb_spec (s mod 2147483648) 0), (Z.eqb_spec (s mod 2147483648) 2147483647); cbn; lia.
Qed.

Lemma Random_Next_mod s : seed_ok s → Random_Next s = (16807 * s) mod 2147483647 ∧ seed_ok (Random_Next s).
Proof.
  intros Hs. unfold seed_ok in *. unfold Random_Next.
  rewrite (wrap_small 64) by (unfold in_width; lia).
  pose proof (Z.land_ones (s * 16807) 31 ltac:(lia)) as E. change (Z.ones 31) with 2147483647 in E. rewrite E.
  rewrite Z.shiftr_div_pow2 by lia. change (2 ^ 31) with 2147483648.
  set (q := s * 16807 / 2147483648). set (r := (s * 16807) mod 2147483648).
  assert (Hqr : s * 16807 = 2147483648 * q + r) by (apply Z.div_mod; lia).
  assert (Hr : 0 ≤ r < 2147483648) by (apply Z.mod_pos_bound; lia).
  assert (Hq : 0 ≤ q ≤ 16807) by lia.
  assert (Hne : (16807 * s) mod 2147483647 ≠ 0).
  { intros H0. apply Z.mod_divide in H0; [|lia]. apply Z.gauss in H0; [|by vm_compute].
    apply Z.divide_pos_le in H0; lia. }
  rewrite (wrap_small 32) by (unfold in_width; lia).
  assert (Hm : (16807 * s) mod 2147483647 = (q + r) mod 2147483647).
  { rewrite Z.mul_comm, Hqr. replace (2147483648 * q + r) with (q + r + q * 2147483647) by lia.
    by rewrite Z.mod_add by lia. }
  rewrite Hm in *. destruct (Z.ltb_spec 2147483647 (q + r)) as [Hlt|Hge].
  - rewrite (wrap_small 32) by (unfold in_width; lia).
    assert (E2 : (q + r) mod 2147483647 = q + r - 2147483647) by (symmetry; apply (Z.mod_unique _ _ 1); lia). lia.
  - destruct (decide (q + r = 2147483647)) as [E2|]; [by rewrite E2 in Hne|].
    rewrite Z.mod_small in * by lia. lia.
Qed.

Lemma period_not_twice s : seed_ok s → s mod 2097152 = 0 → Random_Next s mod 2097152 ≠ 0.
Proof.
  intros Hs Hm. rewrite (proj1 (Random_Next_mod s Hs)). unfold seed_ok in Hs.
  assert (Hk : s = 2097152 * (s / 2097152)) by (apply Z_div_exact_full_2; lia).
  set (k := s / 2097152) in *. assert (1 ≤ k < 1024) by lia. clearbody k.
  assert (Hin : In (Z.to_nat k) (seq 1 1023)) by (apply in_seq; lia).
  assert (Hall : forallb (λ k, negb ((16807 * (2097152 * Z.of_nat k)) mod 2147483647 mod 2097152 =? 0)) (seq 1 1023) = true)
    by (by vm_compute).
  rewrite forallb_forall in Hall. pose proof (Hall (Z.to_nat k) Hin) as Hn. cbv beta in Hn.
  rewrite Z2Nat.id, <-Hk in Hn by lia. intros E. rewrite E in Hn. discriminate.
Qed.

Lemma RandomPeriod_ok rnd :
  seed_ok rnd → let '(p, rnd') := RandomPeriod rnd in
  0 ≤ p ∧ seed_ok rnd' ∧ (p = 0 → 0 < (RandomPeriod rnd').1).
Proof.
  intros Hs. unfold RandomPeriod, Random_Uniform, kReadBytesPeriod. change (2 * 1048576) with 2097152.
  destruct (Random_Next_mod rnd Hs) as [_ Hs']. cbn [fst].
  pose proof (Z.mod_pos_bound (Random_Next rnd) 2097152 ltac:(lia)). split; [lia|]. split; [done|].
  intros Hz. pose proof (period_not_twice _ Hs' Hz).
  pose proof (Z.mod_pos_bound (Random_Next (Random_Next rnd)) 2097152 ltac:(lia)). lia.
Qed.

Lemma sample_loop_ends n : ∀ fuel counter rnd calls,
  seed_ok rnd → - counter ≤ Z.of_nat n → (2 * n ≤ fuel)%nat →
  ∃ counter' rnd' calls', sample_loop fuel counter rnd calls = Some (counter', rnd', calls') ∧
    0 ≤ counter' ∧ seed_ok rnd'.
Proof.
  induction n as [|n IH]; intros fuel counter rnd calls Hs Hc Hf.
  { exists counter, rnd, calls. split_and!; [|lia|done]. destruct fuel; cbn; by rewrite (proj2 (Z.ltb_ge _ _)) by lia. }
  destruct fuel as [|[|fuel]]; [lia..|]. cbn [sample_loop].
  destruct (Z.ltb_spec counter 0); [|by exists counter, rnd, calls].
  pose proof (RandomPeriod_ok rnd Hs) as Hp. destruct (RandomPeriod rnd) as [p rnd1]. destruct Hp as (Hp & Hs1 & Hz).
  destruct (Z.ltb_spec (counter + p) 0); [|by eauto 10].
  pose proof (RandomPeriod_ok rnd1 Hs1) as Hp1. destruct (RandomPeriod rnd1) as [p1 rnd2].
  destruct Hp1 as (Hp1 & Hs2 & _). cbn [fst] in Hz. apply IH; [done|lia|lia].
Qed.
