(* ===== verification/DbIterSpec.v ===== *)
(** [DBIter] (DbIter.v) is a cursor over the entries that are visible at its
    sequence number.

    Positions of the internal iterator are indexes into its entries [es];
    [rank i] of the entries before [i] are shown to the user. *)

From Stdlib Require Import ZArith Lia.
From stdpp Require Import base option numbers list sorting.
From S2P Require Import Prelude Coding Slice WriteBatch DbFormat SkipList Iterator Merger Bloom InternalKey DbIter.

Section view.
Context `{P : Port} {C : Comparator}.

(** An entry is shown if it is the newest visible one of its user key and a
    value. *)
Definition shown (es : list (list Z * list Z)) (snap : Z) (e : list Z * list Z) : Prop :=
  visible es (ikey_user e.1) snap = Some e ∧ ikey_type e.1 = kTypeValue.

#[export] Instance shown_dec es snap e : Decision (shown es snap e).
Proof. unfold shown. apply _. Defined.

(** The user keys and values at sequence number [snap]. *)
Definition user_view (es : list (list Z * list Z)) (snap : Z) : list (list Z * list Z) :=
  (λ e, (ikey_user e.1, e.2)) <$> filter (shown es snap) es.
End view.

Section spec.
Context `{P : Port} {C : Comparator} {HC : ComparatorLaws C}.
Context (es : list (list Z * list Z)) (snap : Z).
Hypothesis Hwf : Forall (λ e, ikey_wf e.1) es.
Hypothesis Hsort : StronglySorted (key_lt (C := InternalKeyComparator C)) es.
Hypothesis Hsnap : seq_ok snap.

Abbreviation n := (length es).
Abbreviation sh := (shown es snap).
Abbreviation view := (user_view es snap).
Abbreviation vis e := (ikey_seq (fst e) ≤ snap).
Abbreviation user e := (ikey_user (fst e)).

Lemma internal_wf i e : es !! i = Some e → ikey_wf e.1.
Proof. intros Hi. eapply (proj1 (Forall_forall _ _) Hwf), list_elem_of_lookup_2, Hi. Qed.

Lemma user_le i j a b : (i ≤ j)%nat → es !! i = Some a → es !! j = Some b → Compare (user a) (user b) ≤ 0.
Proof.
  intros Hij Ha Hb. destruct (decide (i = j)) as [->|Hne].
  { rewrite Ha in Hb. injection Hb as <-. rewrite Compare_refl. lia. }
  pose proof (sorted_lt (C := InternalKeyComparator C) es i j a b Hsort Ha Hb ltac:(lia)) as Hlt.
  unfold key_lt in Hlt. cbn [Compare InternalKeyComparator] in Hlt.
  rewrite icmp_long in Hlt by (eapply ikey_wf_long, internal_wf; eassumption).
  unfold ikey_cmp in Hlt. destruct (Z.eqb_spec (Compare (user a) (user b)) 0); lia.
Qed.

Lemma index_unique i j e : es !! i = Some e → es !! j = Some e → i = j.
Proof.
  intros Hi Hj. destruct (decide (i < j)%nat) as [Hlt|]; [|destruct (decide (j < i)%nat) as [Hlt|]; [|lia]];
    [pose proof (sorted_lt (C := InternalKeyComparator C) es i j e e Hsort Hi Hj Hlt) as Hk
    |pose proof (sorted_lt (C := InternalKeyComparator C) es j i e e Hsort Hj Hi Hlt) as Hk];
    unfold key_lt in Hk; rewrite Compare_refl in Hk; lia.
Qed.

Lemma shown_at i e :
  es !! i = Some e →
  sh e ↔ vis e ∧ ikey_type e.1 = kTypeValue ∧
    ∀ j e', (j < i)%nat → es !! j = Some e' → vis e' → Compare (user e') (user e) ≠ 0.
Proof.
  intros Hi. unfold shown, visible. split.
  - intros [Hv Ht]. destruct (list_find _ es) as [[k x]|] eqn:Ef; [|done]. injection Hv as ->.
    apply list_find_Some in Ef as (Hk & [Hu Hg] & Hmin). rewrite (index_unique _ _ _ Hi Hk).
    apply ikey_wf_visible in Hg; [|by eapply internal_wf]. split; [done|]. split; [done|].
    intros j e' Hj He' Hv' Hu'. apply (Hmin j e' He' Hj). split; [done|].
    apply ikey_wf_visible; [by eapply internal_wf|done].
  - intros (Hv & Ht & Hmin). split; [|done].
    assert (Hf : list_find (λ x, Compare (ikey_user x.1) (user e) = 0 ∧ ikey_tag x.1 ≤ tag_of snap kValueTypeForSeek) es
                 = Some (i, e)); [|by rewrite Hf].
    apply list_find_Some. split; [done|]. split.
    + split; [apply Compare_refl|]. apply ikey_wf_visible; [by eapply internal_wf|done].
    + intros j e' He' Hj [Hu Hg]. apply ikey_wf_visible in Hg; [|by eapply internal_wf]. by apply (Hmin j e' Hj He' Hg).
Qed.

Lemma shown_visible i e : es !! i = Some e → sh e → vis e.
Proof. intros Hi Hs. by apply (shown_at i) in Hs as [? _]. Qed.

(** ** Ranks *)

Definition rank (i : nat) : nat := length (filter sh (take i es)).

Lemma rank_S i e : es !! i = Some e → rank (S i) = if decide (sh e) then S (rank i) else rank i.
Proof.
  intros Hi. unfold rank. rewrite (take_S_r _ _ _ Hi), filter_app, length_app.
  rewrite filter_cons, filter_nil. case_decide; cbn [length]; lia.
Qed.

Lemma rank_n : rank n = length view.
Proof. unfold rank, user_view. by rewrite firstn_all, length_fmap. Qed.

Lemma rank_mono i j : (i ≤ j)%nat → (rank i ≤ rank j)%nat.
Proof.
  intros Hij. replace j with (i + (j - i))%nat by lia. generalize (j - i)%nat as k. clear Hij. intros k.
  unfold rank. rewrite <-(take_drop i (take (i + k) es)), take_take, Nat.min_l by lia.
  rewrite filter_app, length_app. lia.
Qed.

Lemma user_rank_le i : (i ≤ n)%nat → (rank i ≤ length view)%nat.
Proof. intros Hi. rewrite <-rank_n. by apply rank_mono. Qed.

Lemma rank_same i j :
  (i ≤ j)%nat → (∀ k e, (i ≤ k < j)%nat → es !! k = Some e → ¬ sh e) → rank j = rank i.
Proof.
  intros Hij Hno. induction Hij as [|j Hij IH]; [done|]. rewrite <-IH by (intros k e Hk; apply Hno; lia).
  destruct (es !! j) as [e|] eqn:E.
  - rewrite (rank_S j e E). rewrite decide_False; [done|]. apply (Hno j e); [lia|done].
  - apply lookup_ge_None in E. unfold rank. by rewrite !take_ge by lia.
Qed.

Lemma rank_hidden i j :
  (i ≤ j)%nat → (∀ k e, (i ≤ k < j)%nat → es !! k = Some e → ¬ vis e) → rank j = rank i.
Proof.
  intros Hij Hno. apply rank_same; [done|]. intros k e Hk He Hs. apply (Hno k e Hk He). by eapply shown_visible.
Qed.

Lemma view_lookup i e : es !! i = Some e → sh e → view !! rank i = Some (user e, e.2).
Proof.
  intros Hi Hs. unfold user_view, rank. rewrite list_lookup_fmap.
  assert (E : filter sh es = filter sh (take i es) ++ filter sh (e :: drop (S i) es))
    by (by rewrite <-filter_app, take_drop_middle).
  rewrite E, lookup_app_r, Nat.sub_diag, filter_cons_True by done. done.
Qed.

Lemma rank_shown_lt i e : es !! i = Some e → sh e → (rank i < length view)%nat.
Proof. intros Hi Hs. eapply lookup_lt_Some, view_lookup; eassumption. Qed.

Lemma filter_index {A} (Q : A → Prop) `{∀ x, Decision (Q x)} (l : list A) p x :
  filter Q l !! p = Some x → ∃ i, l !! i = Some x ∧ Q x ∧ length (filter Q (take i l)) = p.
Proof.
  revert p. induction l as [|y l IH]; intros p; [done|]. rewrite filter_cons. case_decide as Hy.
  - destruct p as [|p]; cbn.
    + intros [= <-]. by exists 0%nat.
    + intros (i & Hi & Hx & Hr)%IH. exists (S i). cbn [take]. rewrite filter_cons_True by done. cbn. split_and!; [done..|lia].
  - intros (i & Hi & Hx & Hr)%IH. exists (S i). cbn [take]. by rewrite filter_cons_False.
Qed.

Lemma view_index p x :
  view !! p = Some x → ∃ i e, es !! i = Some e ∧ sh e ∧ rank i = p ∧ x = (user e, e.2).
Proof.
  unfold user_view. rewrite list_lookup_fmap. intros (e & He & ->)%fmap_Some_1.
  apply filter_index in He as (i & Hi & Hs & Hr). by exists i, e.
Qed.

(** Where a target is sought. *)
Lemma seek_rank target i :
  (i ≤ n)%nat →
  (∀ j e, (j < i)%nat → es !! j = Some e → vis e → Compare (user e) target < 0) →
  (∀ j e, (i ≤ j)%nat → es !! j = Some e → 0 ≤ Compare (user e) target) →
  seek_index view.*1 target = rank i.
Proof.
  intros Hi Hlt Hge. apply seek_index_unique.
  - rewrite length_fmap. by apply user_rank_le.
  - intros p k Hp Hk. rewrite list_lookup_fmap in Hk. apply fmap_Some_1 in Hk as (x & Hx & ->).
    apply view_index in Hx as (j & e & Hj & Hs & <- & ->). cbn.
    apply (Hlt j e); [|done|by eapply shown_visible].
    destruct (decide (j < i)%nat); [done|]. pose proof (rank_mono i j ltac:(lia)). lia.
  - intros k Hk. rewrite list_lookup_fmap in Hk. apply fmap_Some_1 in Hk as (x & Hx & ->).
    apply view_index in Hx as (j & e & Hj & Hs & Hr & ->). cbn.
    apply (Hge j e); [|done]. destruct (decide (i ≤ j)%nat); [done|].
    pose proof (rank_mono (S j) i ltac:(lia)) as Hm. rewrite (rank_S j e Hj), decide_True in Hm by done. lia.
Qed.

(** ** States *)

Context `{Iterator T} `{HL : !IteratorLaws (C := InternalKeyComparator C) T}.
Implicit Types d : DBIter T.

Abbreviation at_entry it i := (positioned (C := InternalKeyComparator C) it es i).

(** No error so far, and the sampling is in order. *)
Record good d : Prop := {
  good_seq : sequence_ d = snap;
  good_status : status_ d = OK;
  good_seed : seed_ok (d_rnd_ d);
  good_counter : 0 ≤ bytes_counter_ d
}.

(** The entries behind position [x] start here: [Prev] from the first entry
    leads to no entry. *)
Definition after (x : nat) : nat := if (x <? n)%nat then S x else 0%nat.

(** [d] is at entry [p] of the view.  When moving backwards the entry is
    saved, and [iter_] is before it with nothing visible in between. *)
Definition db_at d (p : nat) : Prop :=
  good d ∧ ∃ x, at_entry (iter_ d) x ∧
    if valid_ d then
      ∃ i e, es !! i = Some e ∧ sh e ∧ rank i = p ∧
        (direction_ d = kForward ∧ x = i ∨
         direction_ d = kReverse ∧ saved_key_ d = user e ∧ saved_value_ d = e.2 ∧ (after x ≤ i)%nat ∧
           ∀ j e', (after x ≤ j < i)%nat → es !! j = Some e' → ¬ vis e')
    else p = length view.

Lemma at_valid it i : at_entry it i → i_Valid it = (i <? n)%nat.
Proof. intros Hp. by apply positioned_entry in Hp as (_ & -> & _). Qed.

Lemma at_le it i : at_entry it i → (i ≤ n)%nat.
Proof. intros Hp. by apply positioned_entry in Hp as (? & _). Qed.

Lemma at_kv it i e : at_entry it i → es !! i = Some e → i_key it = Some e.1 ∧ i_value it = Some e.2.
Proof. intros Hp He. apply positioned_entry in Hp as (_ & _ & Hk & _). destruct e. by apply Hk. Qed.

Lemma iter_apply_ok d i o j :
  at_entry (iter_ d) i → cursor_op (C := InternalKeyComparator C) es i o = Some j →
  ∃ it, iter_apply d o = Some (set_iter d it) ∧ at_entry it j.
Proof.
  intros Hp Ho. destruct (positioned_op _ _ _ _ _ Hp Ho) as (it & E & Hp').
  exists it. split; [|done]. unfold iter_apply. by rewrite E.
Qed.

Lemma ParseKey_ok d i e :
  good d → at_entry (iter_ d) i → es !! i = Some e →
  ∃ c r s, let d' := set_sampling d c r s in
    ParseKey d = Some (d', Some (mkParsed (user e) (ikey_seq e.1) (ikey_type e.1))) ∧ good d'.
Proof.
  intros [Hq Hs Hr Hc] Hp He. destruct (at_kv _ _ _ Hp He) as [Hk Hv]. unfold ParseKey. rewrite Hk, Hv. simpl_bind.
  set (c := bytes_counter_ d - _).
  destruct (sample_loop_ends (Z.to_nat (- c)) (Z.to_nat (2 * - c)) c (d_rnd_ d) 0 Hr) as (c' & r' & m & -> & Hc' & Hr');
    [lia..|].
  simpl_bind. rewrite (proj1 (ikey_wf_parse _ (internal_wf _ _ He))). simpl_bind.
  eexists _, _, _. split; [reflexivity|]. by split.
Qed.

(** ** Forwards *)

(** What [skip] hides from [i] on is what an entry before [i] hides. *)
Definition skips (i : nat) (skip : option (list Z)) : Prop :=
  ∀ j e, (i ≤ j)%nat → es !! j = Some e → vis e →
    (∃ k, skip = Some k ∧ Compare (user e) k ≤ 0) ↔
    ∃ j' e', (j' < i)%nat ∧ es !! j' = Some e' ∧ vis e' ∧ Compare (user e') (user e) = 0.

Lemma skips_invisible i e skip : es !! i = Some e → ¬ vis e → skips i skip → skips (S i) skip.
Proof.
  intros He Hv Hs j x Hj Hx Hvx. rewrite (Hs j x ltac:(lia) Hx Hvx). split; intros (j' & e' & Hj' & He' & Hv' & Hc).
  - exists j', e'. split_and!; [lia|done..].
  - exists j', e'. split_and!; [|done..]. destruct (decide (j' = i)) as [->|]; [|lia].
    rewrite He in He'. by injection He' as <-.
Qed.

Lemma skips_after i e k :
  es !! i = Some e → vis e → Compare (user e) k = 0 → skips (S i) (Some k).
Proof.
  intros He Hv Hk j x Hj Hx Hvx. pose proof (user_le i j e x ltac:(lia) He Hx) as Hle.
  pose proof (Compare_eq_l _ _ (user x) Hk) as Heq. split.
  - intros (k' & [= <-] & Hc). exists i, e. split_and!; [lia|done|done|].
    pose proof (Compare_anti k (user x)). lia.
  - intros (j' & e' & Hj' & He' & Hv' & Hc). exists k. split; [done|].
    pose proof (user_le j' i e' e ltac:(lia) He' He) as Hle'.
    pose proof (Compare_eq_l _ _ (user e) Hc). pose proof (Compare_anti (user x) (user e)).
    pose proof (Compare_anti k (user x)). lia.
Qed.

Lemma skips_hidden i e k :
  es !! i = Some e → vis e → Compare (user e) k ≤ 0 → skips i (Some k) → skips (S i) (Some k).
Proof.
  intros He Hv Hk Hs j x Hj Hx Hvx. rewrite (Hs j x ltac:(lia) Hx Hvx). split; intros (j' & e' & Hj' & He' & Hv' & Hc).
  - exists j', e'. split_and!; [lia|done..].
  - destruct (decide (j' = i)) as [->|]; [|exists j', e'; split_and!; [lia|done..]].
    apply (Hs j x ltac:(lia) Hx Hvx). exists k. split; [done|]. rewrite He in He'. injection He' as <-.
    pose proof (Compare_eq_l _ _ k Hc). lia.
Qed.

Lemma find_next_ok fuel : ∀ d i (skipping : bool),
  good d → direction_ d = kForward → at_entry (iter_ d) i → (i < n)%nat → (n - i ≤ fuel)%nat →
  skips i (if skipping then Some (saved_key_ d) else None) →
  ∃ d', find_next fuel skipping d = Some d' ∧ db_at d' (rank i).
Proof.
  induction fuel as [|fuel IH]; intros d i skipping Hg Hdir Hp Hi Hf Hskip; [lia|].
  destruct (lookup_lt_is_Some_2 es i Hi) as [e He]. cbn [find_next].
  destruct (ParseKey_ok d i e Hg Hp He) as (c & r & s & -> & Hg'). simpl_bind. clear Hg.
  set (d1 := set_sampling d c r s) in *.
  (* to the next entry *)
  assert (Hnext : ∀ (sk : bool) d2, good d2 → direction_ d2 = kForward → iter_ d2 = iter_ d →
    skips (S i) (if sk then Some (saved_key_ d2) else None) → ¬ sh e →
    ∃ d', (d0 ← iter_apply d2 OpNext;
           if i_Valid (iter_ d0) then find_next fuel sk d0 else Some (set_valid (SaveKey d0 []) false)) = Some d' ∧
      db_at d' (rank i)).
  { intros sk d2 Hg2 Hd2 Hi2 Hs2 Hns. assert (Hr : rank (S i) = rank i) by (by rewrite (rank_S i e He), decide_False).
    destruct (iter_apply_ok d2 i OpNext (S i)) as (it & -> & Hp'); [by rewrite Hi2|
      cbn [cursor_op]; by rewrite (proj2 (Nat.ltb_lt _ _)) by done|].
    simpl_bind. cbn [iter_ set_iter]. rewrite (at_valid it (S i) Hp'). destruct (Nat.ltb_spec (S i) n) as [Hlt|Hge].
    - rewrite <-Hr. apply IH; cbn [iter_ set_iter direction_ saved_key_]; try done; [|lia].
      destruct Hg2. by split.
    - eexists. split; [reflexivity|]. split; [destruct Hg2; by split|]. exists (S i). split; [done|]. cbn.
      rewrite <-Hr, <-rank_n. f_equal. lia. }
  cbn [sequence type user_key]. rewrite (good_seq _ Hg'). destruct (Z.leb_spec (ikey_seq e.1) snap) as [Hv|Hv].
  2: { apply Hnext; try done; [|intros Hs%(shown_visible i); [lia|done]]. eapply skips_invisible; [done|lia|done]. }
  destruct (ikey_wf_type _ (internal_wf _ _ He)) as [Ht|Ht]; rewrite Ht; cbn [Z.eqb kTypeDeletion kTypeValue].
  - apply Hnext; try done; [destruct Hg'; by split| |by intros [_ E]; rewrite Ht in E].
    cbn [saved_key_ SaveKey set_saved]. eapply skips_after; [done..|apply Compare_refl].
  - destruct (skipping && (Compare (user e) (saved_key_ d1) <=? 0)) eqn:Eh.
    + apply andb_true_iff in Eh as [-> Hc%Z.leb_le]. cbn in Hskip. apply Hnext; try done.
      * by eapply skips_hidden.
      * intros (_ & _ & Hmin)%(shown_at i); [|done].
        destruct (proj1 (Hskip i e ltac:(lia) He Hv)) as (j' & e' & Hj' & He' & Hv' & Hc'); [by eauto|].
        by apply (Hmin j' e').
    + eexists. split; [reflexivity|]. split; [destruct Hg'; by split|]. exists i. split; [done|]. cbn.
      exists i, e. split_and!; [done| |done|by left]. apply (shown_at i); [done|]. split_and!; [done..|].
      intros j e' Hj He' Hv' Hc. apply andb_false_iff in Eh.
      destruct (proj2 (Hskip i e ltac:(lia) He Hv)) as (k & Hk & Hle); [by eauto 10|].
      destruct skipping; [|done]. injection Hk as <-. destruct Eh as [|Eh%Z.leb_gt]; [done|]. cbn in Eh. lia.
Qed.

(** ** Backwards *)

(** The entries from [i] to [q] have been scanned.  The last value seen is
    saved, unless what was seen last is a deletion. *)
Definition scanned (i q : nat) (vt : Z) d : Prop :=
  vt = kTypeDeletion ∧ (∀ j e, (i ≤ j < q)%nat → es !! j = Some e → ¬ sh e) ∨
  vt ≠ kTypeDeletion ∧ ∃ j e, (i ≤ j < q)%nat ∧ es !! j = Some e ∧ vis e ∧ ikey_type e.1 = kTypeValue ∧
    saved_key_ d = user e ∧ saved_value_ d = e.2 ∧
    (∀ a x, (i ≤ a < j)%nat → es !! a = Some x → ¬ vis x) ∧
    (∀ a x, (j < a < q)%nat → es !! a = Some x → ¬ sh x).

(** The result of a scan of the entries before [q]: the last one that is
    shown, saved, with the iterator before it, or none. *)
Definition scan_result (q : nat) d (vt : Z) : Prop :=
  good d ∧ ∃ x, at_entry (iter_ d) x ∧
    (vt = kTypeDeletion ∧ rank q = 0%nat ∨
     vt ≠ kTypeDeletion ∧ ∃ j e, es !! j = Some e ∧ sh e ∧ rank q = S (rank j) ∧
       saved_key_ d = user e ∧ saved_value_ d = e.2 ∧ (after x ≤ j)%nat ∧
       ∀ a y, (after x ≤ a < j)%nat → es !! a = Some y → ¬ vis y).

(** The scan ends before [i] of the entries ([i] of them are left). *)
Lemma scanned_result d x i q vt :
  good d → at_entry (iter_ d) x → after x = i → (i ≤ q)%nat →
  (∀ a y, (a < i)%nat → es !! a = Some y → vis y → vt ≠ kTypeDeletion ∧ Compare (user y) (saved_key_ d) < 0) →
  scanned i q vt d →
  scan_result q d vt.
Proof.
  intros Hg Hp Hx Hiq Hbefore Hscan. split; [done|]. exists x. split; [done|].
  destruct Hscan as [[-> Hno]|(Hvt & j & e & Hj & He & Hv & Ht & Hk & Hval & Hbet & Hno)].
  - left. split; [done|]. change 0%nat with (rank 0). apply rank_same; [lia|]. intros a y Ha Hy Hs.
    destruct (decide (a < i)%nat) as [Hlt|Hge].
    + by destruct (Hbefore a y Hlt Hy (shown_visible _ _ Hy Hs)) as [? _].
    + apply (Hno a y); [lia|done..].
  - right. split; [done|]. exists j, e. assert (Hs : sh e).
    { apply (shown_at j); [done|]. split_and!; [done..|]. intros a y Ha Hy Hvy Hc.
      destruct (decide (a < i)%nat) as [Hlt|Hge]; [|by apply (Hbet a y); [lia|..]].
      destruct (Hbefore a y Hlt Hy Hvy) as [_ Hlt']. rewrite Hk in Hlt'. lia. }
    rewrite Hx. split_and!; try done; [|lia].
    rewrite (rank_same (S j) q) by (lia || intros a y Ha; apply Hno; lia).
    by rewrite (rank_S j e He), decide_True.
Qed.

(** One more entry, of the key saved if there is one. *)
Lemma scanned_more i q vt d e :
  es !! i = Some e → (i < q)%nat → scanned (S i) q vt d →
  (vis e → vt ≠ kTypeDeletion → 0 ≤ Compare (user e) (saved_key_ d)) →
  vis e → ∀ j x, (S i ≤ j < q)%nat → es !! j = Some x → ¬ sh x.
Proof.
  intros He Hq [[_ Hno]|(Hvt & j0 & e0 & Hj0 & He0 & Hv0 & _ & Hk & _ & Hbet & Hno)] Hkey Hv; [done|].
  intros j x Hj Hx Hs. destruct (decide (j < j0)%nat) as [Hlt|]; [by apply (Hbet j x); [lia|done|eapply shown_visible]|].
  destruct (decide (j0 < j)%nat) as [Hlt|]; [by apply (Hno j x); [lia|..]|].
  assert (j = j0) as -> by lia. rewrite He0 in Hx. injection Hx as <-.
  apply (shown_at j0) in Hs as (_ & _ & Hmin); [|done]. apply (Hmin i e); [lia|done|done|].
  specialize (Hkey Hv Hvt). rewrite Hk in Hkey. pose proof (user_le i j0 e e0 ltac:(lia) He He0). lia.
Qed.

Lemma scanned_skip i q vt d e :
  es !! i = Some e → ¬ vis e → scanned (S i) q vt d → scanned i q vt d.
Proof.
  intros He Hv [[-> Hno]|(Hvt & j0 & e0 & Hj0 & He0 & Hv0 & Ht & Hk & Hval & Hbet & Hno)].
  - left. split; [done|]. intros j x Hj Hx. destruct (decide (j = i)) as [->|]; [|apply (Hno j x); [lia|done]].
    intros Hs%(shown_visible i); [|done]. rewrite He in Hx. by injection Hx as <-.
  - right. split; [done|]. exists j0, e0. split_and!; try done; [lia..|]. intros a x Ha Hx.
    destruct (decide (a = i)) as [->|]; [|by apply (Hbet a x); [lia|]]. rewrite He in Hx. by injection Hx as <-.
Qed.

Lemma find_prev_ok fuel : ∀ d i q vt,
  good d → at_entry (iter_ d) i → (i < q ≤ n)%nat → (S i ≤ fuel)%nat → scanned (S i) q vt d →
  ∃ d' vt', find_prev fuel vt d = Some (d', vt') ∧ direction_ d' = direction_ d ∧ scan_result q d' vt'.
Proof.
  induction fuel as [|fuel IH]; intros d i q vt Hg Hp Hi Hf Hscan; [lia|].
  destruct (lookup_lt_is_Some_2 es i ltac:(lia)) as [e He]. cbn [find_prev].
  destruct (ParseKey_ok d i e Hg Hp He) as (c & r & s & -> & Hg'). simpl_bind. clear Hg.
  set (d1 := set_sampling d c r s) in *. change (scanned (S i) q vt d1) in Hscan.
  change (direction_ d) with (direction_ d1).
  assert (Hprev : ∀ vt2 d2, good d2 → direction_ d2 = direction_ d1 → iter_ d2 = iter_ d → scanned i q vt2 d2 →
    ∃ d' vt', (d0 ← iter_apply d2 OpPrev;
           if i_Valid (iter_ d0) then find_prev fuel vt2 d0 else Some (d0, vt2)) = Some (d', vt') ∧
      direction_ d' = direction_ d1 ∧ scan_result q d' vt').
  { intros vt2 d2 Hg2 Hd2 Hi2 Hs2.
    destruct (iter_apply_ok d2 i OpPrev (match i with O => n | S j => j end)) as (it & -> & Hp');
      [by rewrite Hi2|cbn [cursor_op]; by rewrite (proj2 (Nat.ltb_lt _ _)) by lia|].
    simpl_bind. cbn [iter_ set_iter]. rewrite (at_valid it _ Hp').
    assert (Hg3 : good (set_iter d2 it)) by (destruct Hg2; by split).
    destruct i as [|i].
    - rewrite Nat.ltb_irrefl. eexists _, _. split; [reflexivity|]. split; [done|].
      apply (scanned_result (set_iter d2 it) n 0); [done|done| |lia|lia|exact Hs2].
      unfold after. by rewrite Nat.ltb_irrefl.
    - rewrite (proj2 (Nat.ltb_lt _ _)) by lia.
      destruct (IH (set_iter d2 it) i q vt2 Hg3 Hp' ltac:(lia) ltac:(lia) Hs2) as (d' & vt' & E & Hd' & Hr).
      exists d', vt'. split; [done|]. split; [by rewrite Hd'|done]. }
  cbn [sequence type user_key]. rewrite (good_seq _ Hg').
  destruct (Z.leb_spec (ikey_seq e.1) snap) as [Hv|Hv].
  2: { apply Hprev; try done. eapply scanned_skip; [done|lia|done]. }
  destruct (negb (vt =? kTypeDeletion) && (Compare (user e) (saved_key_ d1) <? 0)) eqn:Eb.
  { apply andb_true_iff in Eb as [Hvt%negb_true_iff%Z.eqb_neq Hlt%Z.ltb_lt].
    exists d1, vt. split; [done|]. split; [done|]. apply (scanned_result d1 i (S i)); try done; [|lia|].
    - unfold after. by rewrite (proj2 (Nat.ltb_lt _ _)) by lia.
    - intros a y Ha Hy Hvy. split; [done|]. pose proof (user_le a i y e ltac:(lia) Hy He).
      by eapply Compare_le_lt_trans. }
  assert (Hno : ∀ j x, (S i ≤ j < q)%nat → es !! j = Some x → ¬ sh x).
  { eapply (scanned_more i q vt d1 e); [done|lia|done| |done]. intros _ Hvt. apply andb_false_iff in Eb as [Eb|Eb%Z.ltb_ge]; [|done].
    by apply negb_false_iff, Z.eqb_eq in Eb. }
  destruct (ikey_wf_type _ (internal_wf _ _ He)) as [Ht|Ht]; rewrite Ht; cbn [Z.eqb kTypeDeletion kTypeValue].
  - apply Hprev; try done; [destruct Hg'; by split|]. left. split; [done|]. intros j x Hj Hx.
    destruct (decide (j = i)) as [->|]; [|apply (Hno j x); [lia|done]]. rewrite He in Hx. injection Hx as <-.
    intros [_ E]. by rewrite Ht in E.
  - destruct (at_kv _ _ _ Hp He) as [Hk Hval]. change (iter_ d1) with (iter_ d). rewrite Hk, Hval. simpl_bind.
    rewrite (proj2 (ikey_wf_parse _ (internal_wf _ _ He))). simpl_bind.
    apply Hprev; try done; [destruct Hg'; by split|]. right. split; [done|]. exists i, e.
    split; [lia|]. do 5 (split; [done|]). split.
    + intros a x Ha. lia.
    + intros a x Ha. apply Hno. lia.
Qed.

(** ** The operations *)

Context (fuel : nat).
Hypothesis Hfuel : (n < fuel)%nat.

Ltac good_tac := match goal with H : good _ |- good _ => destruct H; by split end.

Lemma FindPrevUserEntry_ok d x :
  good d → at_entry (iter_ d) x → direction_ d = kReverse →
  ∃ d', FindPrevUserEntry fuel d = Some d' ∧
    db_at d' (match rank (after x) with O => length view | S p => p end).
Proof.
  intros Hg Hp Hd. unfold FindPrevUserEntry. rewrite decide_True by done. rewrite (at_valid _ _ Hp).
  assert (Hr : ∃ d1 vt, (if (x <? n)%nat then find_prev fuel kTypeDeletion d else Some (d, kTypeDeletion)) = Some (d1, vt) ∧
    direction_ d1 = direction_ d ∧ scan_result (after x) d1 vt).
  { pose proof (at_le _ _ Hp). unfold after. destruct (Nat.ltb_spec x n) as [Hlt|Hge].
    - apply find_prev_ok with (i := x); [done|done|lia|lia|]. left. split; [done|]. lia.
    - exists d, kTypeDeletion. split; [done|]. split; [done|]. split; [done|]. exists x. split; [done|]. left. done. }
  destruct Hr as (d1 & vt & -> & Hd1 & Hg1 & y & Hy & Hres). simpl_bind.
  eexists. split; [reflexivity|]. destruct Hres as [[-> ->]|(Hvt & j & e & He & Hs & -> & Hk & Hv & Hay & Hno)].
  - cbn [Z.eqb kTypeDeletion]. split; [good_tac|]. exists y. by split.
  - rewrite (proj2 (Z.eqb_neq _ _) Hvt). split; [good_tac|]. exists y. split; [done|]. cbn.
    exists j, e. split_and!; [done..|]. right. split_and!; try done. by rewrite Hd1.
Qed.

Lemma FindNextUserEntry_ok d i (skipping : bool) :
  good d → at_entry (iter_ d) i → (i < n)%nat → direction_ d = kForward →
  skips i (if skipping then Some (saved_key_ d) else None) →
  ∃ d', FindNextUserEntry fuel d skipping = Some d' ∧ db_at d' (rank i).
Proof.
  intros Hg Hp Hi Hd Hs. unfold FindNextUserEntry. rewrite (at_valid _ _ Hp), (proj2 (Nat.ltb_lt _ _)), decide_True by done.
  cbn [negb]. apply find_next_ok; [done..|lia|done].
Qed.

(** From [i] to the next entry behind [j], which is the only visible one in
    between and has the key saved. *)
Lemma find_next_past f : ∀ d i j e,
  good d → direction_ d = kForward → at_entry (iter_ d) i → (i ≤ j)%nat → (n - i ≤ f)%nat →
  es !! j = Some e → sh e → Compare (user e) (saved_key_ d) = 0 →
  (∀ a x, (i ≤ a < j)%nat → es !! a = Some x → ¬ vis x) →
  ∃ d', find_next f true d = Some d' ∧ db_at d' (S (rank j)).
Proof.
  induction f as [|f IH]; intros d i j e Hg Hdir Hp Hij Hf He Hs Hk Hno.
  { pose proof (lookup_lt_Some _ _ _ He). lia. }
  pose proof (lookup_lt_Some _ _ _ He) as Hjn. destruct (lookup_lt_is_Some_2 es i ltac:(lia)) as [y Hy]. cbn [find_next].
  destruct (ParseKey_ok d i y Hg Hp Hy) as (c & r & s & -> & Hg'). simpl_bind. cbn [sequence type user_key].
  rewrite (good_seq _ Hg').
  destruct (iter_apply_ok (set_sampling d c r s) i OpNext (S i)) as (it & Hit & Hp'); [done|
    cbn [cursor_op]; by rewrite (proj2 (Nat.ltb_lt _ _)) by lia|].
  destruct (decide (i = j)) as [->|Hne].
  - rewrite He in Hy. injection Hy as <-. destruct (proj1 (shown_at j e He) Hs) as (Hv & Ht & _).
    rewrite (proj2 (Z.leb_le _ _) Hv), Ht. cbn [Z.eqb kTypeDeletion kTypeValue saved_key_ set_sampling andb].
    rewrite (proj2 (Z.leb_le _ 0)) by lia. rewrite Hit. simpl_bind. cbn [iter_ set_iter]. rewrite (at_valid _ _ Hp').
    assert (Hr : rank (S j) = S (rank j)) by (by rewrite (rank_S j e He), decide_True). rewrite <-Hr.
    destruct (Nat.ltb_spec (S j) n) as [Hlt|Hge].
    + apply find_next_ok; [good_tac|done|done|done|lia|]. cbn. by eapply skips_after.
    + eexists. split; [reflexivity|]. split; [good_tac|]. exists (S j). split; [done|]. cbn. rewrite <-rank_n. f_equal. lia.
  - pose proof (Hno i y ltac:(lia) Hy) as Hv. rewrite (proj2 (Z.leb_gt _ _)) by lia. rewrite Hit. simpl_bind.
    cbn [iter_ set_iter]. rewrite (at_valid _ _ Hp'), (proj2 (Nat.ltb_lt _ _)) by lia.
    apply (IH _ (S i) j e); try done; [good_tac|lia|lia|]. intros a x Ha. apply Hno. lia.
Qed.

Lemma d_Next_ok d p : db_at d p → (p < length view)%nat → ∃ d', d_Next fuel d = Some d' ∧ db_at d' (S p).
Proof.
  intros (Hg & x & Hp & Hv) Hlt. unfold d_Next. destruct (valid_ d) eqn:Ev; [cbn [negb]|lia].
  destruct Hv as (i & e & He & Hs & <- & [[Hd ->]|(Hd & Hk & Hval & Hax & Hno)]); rewrite Hd.
  - rewrite decide_False by done. destruct (at_kv _ _ _ Hp He) as [-> _]. simpl_bind.
    rewrite (proj2 (ikey_wf_parse _ (internal_wf _ _ He))). simpl_bind. unfold FindNextUserEntry.
    cbn [iter_ SaveKey set_saved direction_]. rewrite (at_valid _ _ Hp), (proj2 (Nat.ltb_lt _ _)) by (by eapply lookup_lt_Some).
    cbn [negb]. rewrite decide_True by done.
    apply (find_next_past fuel _ i i e); try done; [good_tac|lia|apply Compare_refl|lia].
  - rewrite decide_True by done. cbn [iter_ set_direction]. pose proof (lookup_lt_Some _ _ _ He) as Hin.
    assert (Hmove : ∃ it, (if negb (i_Valid (iter_ d)) then iter_apply (set_direction d kForward) OpSeekToFirst
        else iter_apply (set_direction d kForward) OpNext) = Some (set_iter (set_direction d kForward) it) ∧
        at_entry it (after x)).
    { rewrite (at_valid _ _ Hp). unfold after. destruct (Nat.ltb_spec x n) as [Hx|Hx]; cbn [negb].
      - apply (iter_apply_ok (set_direction d kForward) x); [done|]. cbn [cursor_op]. by rewrite (proj2 (Nat.ltb_lt _ _)) by lia.
      - by apply (iter_apply_ok (set_direction d kForward) x). }
    destruct Hmove as (it & -> & Hp'). simpl_bind. cbn [iter_ set_iter].
    rewrite (at_valid _ _ Hp'), (proj2 (Nat.ltb_lt (after x) n)) by lia. cbn [negb]. unfold FindNextUserEntry.
    cbn [iter_ set_iter direction_ set_direction].
    rewrite (at_valid _ _ Hp'), (proj2 (Nat.ltb_lt (after x) n)) by lia. cbn [negb]. rewrite decide_True by done.
    apply (find_next_past fuel _ (after x) i e); try done; [good_tac|lia|]. cbn. rewrite Hk. apply Compare_refl.
Qed.

(** Back to an entry of another key; [i] is the entry shown, [j] where the scan
    has arrived. *)
Lemma scan_back_ok f : ∀ d i j e,
  good d → es !! i = Some e → sh e → (j ≤ i)%nat → (j < f)%nat → at_entry (iter_ d) j → saved_key_ d = user e →
  (∀ a x, (j ≤ a < i)%nat → es !! a = Some x → ¬ vis x) →
  ∃ it x (found : bool), scan_back f d = Some (set_iter d it, found) ∧ at_entry it x ∧ found = (x <? n)%nat ∧
    rank (after x) = rank i.
Proof.
  induction f as [|f IH]; intros d i j e Hg He Hs Hij Hf Hp Hk Hno; [lia|]. pose proof (lookup_lt_Some _ _ _ He) as Hin.
  cbn [scan_back].
  destruct (iter_apply_ok d j OpPrev (match j with O => n | S k => k end)) as (it & -> & Hp');
    [done|cbn [cursor_op]; by rewrite (proj2 (Nat.ltb_lt _ _)) by lia|].
  simpl_bind. cbn [iter_ set_iter]. rewrite (at_valid _ _ Hp'). destruct j as [|j].
  { rewrite Nat.ltb_irrefl. exists it, n, false. split; [done|]. split; [done|]. split; [by rewrite Nat.ltb_irrefl|].
    unfold after. rewrite Nat.ltb_irrefl. symmetry. apply rank_hidden; [lia|done]. }
  rewrite (proj2 (Nat.ltb_lt _ _)) by lia. cbn [negb]. destruct (lookup_lt_is_Some_2 es j ltac:(lia)) as [y Hy].
  destruct (at_kv _ _ _ Hp' Hy) as [-> _]. simpl_bind. rewrite (proj2 (ikey_wf_parse _ (internal_wf _ _ Hy))). simpl_bind.
  cbn [saved_key_ set_iter]. rewrite Hk. destruct (Z.ltb_spec (Compare (user y) (user e)) 0) as [Hlt|Hge].
  - exists it, j, true. split; [done|]. split; [done|]. rewrite (proj2 (Nat.ltb_lt _ _)) by lia. split; [done|].
    unfold after. rewrite (proj2 (Nat.ltb_lt _ _)) by lia. symmetry. by apply rank_hidden.
  - destruct (IH (set_iter d it) i j e) as (it' & x & found & -> & Hrest); try done; [good_tac|lia|lia| |].
    { intros a z Ha Hz Hv. destruct (decide (a = j)) as [->|]; [|by apply (Hno a z); [lia|..]].
      rewrite Hy in Hz. injection Hz as <-. apply (shown_at i) in Hs as (_ & _ & Hmin); [|done].
      apply (Hmin j y ltac:(lia) Hy Hv). pose proof (user_le j i y e ltac:(lia) Hy He). lia. }
    by exists it', x, found.
Qed.

Lemma d_Prev_ok d p :
  db_at d p → (p < length view)%nat →
  ∃ d', d_Prev fuel d = Some d' ∧ db_at d' (match p with O => length view | S q => q end).
Proof.
  intros (Hg & x & Hp & Hv) Hlt. unfold d_Prev. destruct (valid_ d) eqn:Ev; [cbn [negb]|lia].
  destruct Hv as (i & e & He & Hs & <- & [[Hd ->]|(Hd & Hk & Hval & Hax & Hno)]); rewrite Hd.
  - rewrite decide_True by done. pose proof (lookup_lt_Some _ _ _ He) as Hin.
    rewrite (at_valid _ _ Hp), (proj2 (Nat.ltb_lt _ _)) by done. cbn [negb].
    destruct (at_kv _ _ _ Hp He) as [-> _]. simpl_bind. rewrite (proj2 (ikey_wf_parse _ (internal_wf _ _ He))). simpl_bind.
    destruct (scan_back_ok fuel (SaveKey d (user e)) i i e) as (it & x & found & -> & Hp' & -> & <-); try done; [good_tac|lia|lia|].
    simpl_bind. destruct (Nat.ltb_spec x n) as [Hx|Hx].
    + apply (FindPrevUserEntry_ok _ x); [good_tac|done|done].
    + eexists. split; [reflexivity|]. split; [good_tac|]. exists x. split; [done|]. cbn.
      unfold after. by rewrite (proj2 (Nat.ltb_ge _ _)) by lia.
  - rewrite decide_False by done. rewrite (rank_hidden (after x) i) by done. by apply FindPrevUserEntry_ok.
Qed.

Lemma d_SeekToFirst_ok d p : db_at d p → ∃ d', d_SeekToFirst fuel d = Some d' ∧ db_at d' 0.
Proof.
  intros (Hg & x & Hp & _). unfold d_SeekToFirst.
  destruct (iter_apply_ok (ClearSavedValue (set_direction d kForward)) x OpSeekToFirst 0) as (it & -> & Hp'); [done..|].
  simpl_bind. cbn [iter_ set_iter]. rewrite (at_valid _ _ Hp'). destruct (Nat.ltb_spec 0 n) as [Hn|Hn].
  - change 0%nat with (rank 0). apply (FindNextUserEntry_ok _ 0); [good_tac|done..|].
    intros j e _ _ _. split; [by intros (k & ? & _)|intros (j' & e' & ? & _); lia].
  - eexists. split; [reflexivity|]. split; [good_tac|]. exists 0%nat. split; [done|]. cbn.
    rewrite <-rank_n. by replace n with 0%nat by lia.
Qed.

Lemma d_SeekToLast_ok d p : db_at d p → ∃ d', d_SeekToLast fuel d = Some d' ∧ db_at d' (length view - 1).
Proof.
  intros (Hg & x & Hp & _). unfold d_SeekToLast.
  destruct (iter_apply_ok (ClearSavedValue (set_direction d kReverse)) x OpSeekToLast (n - 1)) as (it & -> & Hp'); [done..|].
  simpl_bind. destruct (FindPrevUserEntry_ok (set_iter (ClearSavedValue (set_direction d kReverse)) it) (n - 1))
    as (d' & E & Hd'); [good_tac|done..|]. exists d'. split; [done|].
  assert (Ha : after (n - 1) = n).
  { unfold after. destruct (Nat.ltb_spec (n - 1) n); lia. }
  rewrite Ha, rank_n in Hd'. destruct (length view) as [|m]; [done|]. cbn. by rewrite Nat.sub_0_r.
Qed.

Lemma d_Seek_ok d p target :
  db_at d p → ∃ d', d_Seek fuel d target = Some d' ∧ db_at d' (seek_index view.*1 target).
Proof.
  intros (Hg & x & Hp & _). unfold d_Seek. cbn [sequence_ ClearSavedValue set_saved set_direction]. rewrite (good_seq _ Hg).
  assert (Ht1 : type_ok kValueTypeForSeek) by (by split).
  assert (HT : in_width 64 (tag_of snap kValueTypeForSeek)) by (by apply tag_of_width).
  unfold AppendInternalKey. cbn [sequence type user_key app]. rewrite PackSequenceAndType_tag by done. simpl_bind.
  assert (Hkey : PutFixed64 target (tag_of snap kValueTypeForSeek) = ikey_bytes target (tag_of snap kValueTypeForSeek))
    by (unfold PutFixed64, ikey_bytes; by rewrite EncodeFixed64_le).
  rewrite Hkey. set (key := ikey_bytes target (tag_of snap kValueTypeForSeek)).
  set (d1 := SaveKey (ClearSavedValue (set_direction d kForward)) key).
  set (i := seek_index (C := InternalKeyComparator C) es.*1 key).
  destruct (iter_apply_ok d1 x (OpSeek key) i) as (it & -> & Hp'); [done..|]. simpl_bind.
  (* the order of an entry and the key sought *)
  assert (Hcmp : ∀ j e, es !! j = Some e → icmp_Compare C e.1 key =
    ikey_cmp (user e) (ikey_tag e.1) target (tag_of snap kValueTypeForSeek)).
  { intros j e He. rewrite icmp_long by (first [eapply ikey_wf_long, internal_wf, He|unfold key; rewrite length_ikey_bytes; lia]).
    unfold key. by rewrite ikey_user_bytes, ikey_tag_bytes. }
  assert (Hbefore : ∀ j e, (j < i)%nat → es !! j = Some e → vis e → Compare (user e) target < 0).
  { intros j e Hj He Hv. pose proof (seek_index_before (C := InternalKeyComparator C) es.*1 key j e.1 Hj) as Hb.
    rewrite list_lookup_fmap, He in Hb. specialize (Hb eq_refl). cbn [Compare InternalKeyComparator] in Hb.
    rewrite (Hcmp j e He) in Hb. apply ikey_wf_visible in Hv; [|by eapply internal_wf]. unfold ikey_cmp in Hb.
    destruct (Z.eqb_spec (Compare (user e) target) 0); [|lia].
    destruct (Z.ltb_spec (tag_of snap kValueTypeForSeek) (ikey_tag e.1)); [lia|].
    destruct (Z.ltb_spec (ikey_tag e.1) (tag_of snap kValueTypeForSeek)); lia. }
  assert (Hfrom : ∀ j e, (i ≤ j)%nat → es !! j = Some e → 0 ≤ Compare (user e) target).
  { intros j e Hj He. pose proof (lookup_lt_Some _ _ _ He). destruct (lookup_lt_is_Some_2 es i ltac:(lia)) as [y Hy].
    pose proof (seek_index_at (C := InternalKeyComparator C) es.*1 key y.1) as Ha. fold i in Ha.
    rewrite list_lookup_fmap, Hy in Ha. specialize (Ha eq_refl). cbn [Compare InternalKeyComparator] in Ha.
    rewrite (Hcmp i y Hy) in Ha. pose proof (user_le i j y e Hj Hy He) as Hle.
    assert (Hy0 : 0 ≤ Compare (user y) target).
    { unfold ikey_cmp in Ha. destruct (Z.eqb_spec (Compare (user y) target) 0); lia. }
    destruct (decide (0 ≤ Compare (user e) target)); [done|].
    pose proof (Compare_le_lt_trans _ _ target Hle ltac:(lia)). lia. }
  pose proof (at_le _ _ Hp') as Hin. rewrite (seek_rank target i Hin Hbefore Hfrom).
  cbn [iter_ set_iter]. rewrite (at_valid _ _ Hp'). destruct (Nat.ltb_spec i n) as [Hlt|Hge].
  - apply FindNextUserEntry_ok; [good_tac|done..|]. intros j e Hj He Hv.
    split; [by intros (k & ? & _)|]. intros (j' & e' & Hj' & He' & Hv' & Hc). exfalso.
    pose proof (Hbefore j' e' Hj' He' Hv'). pose proof (Hfrom j e Hj He). pose proof (Compare_eq_l _ _ target Hc). lia.
  - eexists. split; [reflexivity|]. split; [good_tac|]. exists i. split; [done|]. cbn. rewrite <-rank_n. f_equal. lia.
Qed.

Lemma db_at_entry d p :
  db_at d p → (p ≤ length view)%nat ∧ valid_ d = (p <? length view)%nat ∧
    (∀ k v, view !! p = Some (k, v) → d_key d = Some k ∧ d_value d = Some v) ∧ d_status d = Some OK.
Proof.
  intros (Hg & x & Hp & Hv).
  assert (Hst : d_status d = Some OK).
  { unfold d_status. rewrite (good_status _ Hg). by apply positioned_entry in Hp as (_ & _ & _ & ->). }
  unfold d_key, d_value. destruct (valid_ d) eqn:Ev.
  - destruct Hv as (i & e & He & Hs & <- & Hdir). pose proof (rank_shown_lt i e He Hs) as Hr.
    split; [lia|]. split; [by rewrite (proj2 (Nat.ltb_lt _ _)) by done|]. split; [|done].
    intros k v Hkv. rewrite (view_lookup i e He Hs) in Hkv. injection Hkv as <- <-. cbn [negb].
    destruct Hdir as [[-> ->]|(-> & Hk & Hval & _)].
    + rewrite !decide_True by done. destruct (at_kv _ _ _ Hp He) as [-> ->]. simpl_bind.
      by rewrite (proj2 (ikey_wf_parse _ (internal_wf _ _ He))).
    + rewrite !decide_False by done. by rewrite Hk, Hval.
  - rewrite Hv. split; [lia|]. split; [by rewrite Nat.ltb_irrefl|]. split; [|done].
    intros k v Hkv. apply lookup_lt_Some in Hkv. lia.
Qed.
End spec.

(** ** The contract *)

Section laws.
Context `{P : Port} {C : Comparator} {HC : ComparatorLaws C}.
Context `{Iterator T} `{HL : !IteratorLaws (C := InternalKeyComparator C) T} (fuel : nat).

(** Entries as the database writes them, in the order of internal keys. *)
Definition internal_entries (es : list (list Z * list Z)) : Prop :=
  Forall (λ e, ikey_wf e.1) es ∧ StronglySorted (key_lt (C := InternalKeyComparator C)) es.

Definition db_positioned (d : DBIter T) (ves : list (list Z * list Z)) (p : nat) : Prop :=
  ∃ es snap, internal_entries es ∧ seq_ok snap ∧ (length es < fuel)%nat ∧ ves = user_view es snap ∧ db_at es snap d p.

Lemma db_positioned_op d ves p o q :
  db_positioned d ves p → cursor_op ves p o = Some q →
  ∃ d', i_apply (H := db_iterator fuel) d o = Some d' ∧ db_positioned d' ves q.
Proof.
  intros (es & snap & [Hwf Hs] & Hsnap & Hf & -> & Ha) Ho.
  assert (Hres : ∃ d', i_apply (H := db_iterator fuel) d o = Some d' ∧ db_at es snap d' q).
  { destruct o; cbn [cursor_op] in Ho.
    - injection Ho as <-. by eapply d_SeekToFirst_ok.
    - injection Ho as <-. by eapply d_SeekToLast_ok.
    - injection Ho as <-. by eapply d_Seek_ok.
    - destruct (Nat.ltb_spec p (length (user_view es snap))); [|done]. injection Ho as <-. by apply d_Next_ok.
    - destruct (Nat.ltb_spec p (length (user_view es snap))); [|done]. injection Ho as <-. by apply d_Prev_ok. }
  destruct Hres as (d' & E & Ha'). exists d'. split; [done|]. by exists es, snap.
Qed.

Lemma db_positioned_entry d ves p :
  db_positioned d ves p → (p ≤ length ves)%nat ∧ valid_ d = (p <? length ves)%nat ∧
    (∀ k v, ves !! p = Some (k, v) → d_key d = Some k ∧ d_value d = Some v) ∧ d_status d = Some OK.
Proof. intros (es & snap & [Hwf Hs] & _ & Hf & -> & Ha). by eapply db_at_entry. Qed.

Definition db_laws : IteratorLaws (C := C) (DBIter T) (H := db_iterator fuel) := {|
  positioned := db_positioned : DBIter T → list (list Z * list Z) → nat → Prop;
  positioned_op := db_positioned_op;
  positioned_entry := db_positioned_entry
|}.

Lemma NewDBIterator_positioned (it : T) es p snap seed :
  internal_entries es → seq_ok snap → (length es < fuel)%nat → positioned (C := InternalKeyComparator C) it es p →
  db_positioned (NewDBIterator it snap seed) (user_view es snap) (length (user_view es snap)).
Proof.
  intros Hes Hsnap Hf Hp. exists es, snap. split; [done|]. split; [done|]. split; [done|]. split; [done|].
  unfold NewDBIterator. pose proof (RandomPeriod_ok _ (Random_new_ok seed)) as Hr.
  destruct (RandomPeriod (Random_new seed)) as [period rnd]. destruct Hr as (? & ? & _).
  split; [by split|]. exists p. by split.
Qed.

(** The keys of the view are in order and no two are the same. *)
Lemma user_view_sorted es snap : internal_entries es → StronglySorted key_lt (user_view es snap).
Proof.
  intros [Hwf Hs].
  assert (Hlt : ∀ a b x y, (a < b)%nat → user_view es snap !! a = Some x → user_view es snap !! b = Some y → key_lt x y).
  { intros a b x y Hab Hx Hy. apply view_index in Hx as (i & e & Hi & He & Hri & ->).
    apply view_index in Hy as (j & f & Hj & Hf & Hrj & ->). unfold key_lt. cbn.
    assert (Hij : (i < j)%nat) by (destruct (decide (i < j)%nat); [done|]; pose proof (rank_mono es snap j i ltac:(lia)); lia).
    pose proof (user_le es Hwf Hs i j e f ltac:(lia) Hi Hj).
    apply (shown_at es snap Hwf Hs j) in Hf as (_ & _ & Hmin); [|done].
    pose proof (Hmin i e Hij Hi (shown_visible es snap Hwf Hs i e Hi He)). lia. }
  revert Hlt. generalize (user_view es snap) as l. clear. induction l as [|x l IH]; intros Hlt; constructor.
  - apply IH. intros a b u v Hab. apply (Hlt (S a) (S b)). lia.
  - apply Forall_lookup. intros b y Hy. by apply (Hlt 0%nat (S b) x y ltac:(lia)).
Qed.
End laws.
