(* ===== verification/FilterBlock.v ===== *)
(** leveldb's filter blocks: leveldb/table/filter_block.cc.

    A filter block holds one filter for every 2KB of data blocks, and the
    offsets of the filters; a block with no key has no bytes of filter.
    [None] is a failed [assert] or a read outside the block. *)

From Stdlib Require Import ZArith Lia.
From stdpp Require Import base option numbers list strings.
From S2P Require Import Prelude Coding Slice DbFormat Bloom.

Definition kFilterBaseLg : Z := 11.
Definition kFilterBase : Z := Z.shiftl 1 kFilterBaseLg.

Record FilterBlockBuilder := mkBuilder {
  keys_ : list Z;             (* flattened key contents *)
  start_ : list Z;            (* starting index in keys_ of each key *)
  result_ : list Z;           (* filter data computed so far *)
  filter_offsets_ : list Z
}.

Record FilterBlockReader := mkReader {
  data_ : list Z;             (* the contents, [[]] when they are invalid *)
  offset_ : Z;                (* offset_ - data_ *)
  num_ : Z;
  base_lg_ : Z
}.

Section filterblock.
Context `{P : Port} {F : FilterPolicy}.

Definition NewBuilder : FilterBlockBuilder := mkBuilder [] [] [] [].

(** The slice of key [i] in the flattened keys, [start_] ending in
    [keys_.size()]. *)
Definition tmp_key (keys_ start_ : list Z) (i : nat) : option (list Z) :=
  a ← start_ !! i; b ← start_ !! S i;
  Some (take (Z.to_nat (b - a)) (drop (Z.to_nat a) keys_)).

Definition GenerateFilter (b : FilterBlockBuilder) : option FilterBlockBuilder :=
  let num_keys := length (start_ b) in
  if (num_keys =? 0)%nat then
    Some (mkBuilder (keys_ b) (start_ b) (result_ b)
            (filter_offsets_ b ++ [u32 (Z.of_nat (length (result_ b)))]))
  else
    let start := start_ b ++ [Z.of_nat (length (keys_ b))] in
    tmp_keys ← mapM (tmp_key (keys_ b) start) (seq 0 num_keys);
    let offsets := filter_offsets_ b ++ [u32 (Z.of_nat (length (result_ b)))] in
    Some (mkBuilder [] [] (CreateFilter tmp_keys (result_ b)) offsets).

(** [while (filter_index > filter_offsets_.size()) GenerateFilter()]. *)
Definition StartBlock (b : FilterBlockBuilder) (block_offset : Z) : option FilterBlockBuilder :=
  let filter_index := block_offset / kFilterBase in
  if filter_index <? Z.of_nat (length (filter_offsets_ b)) then None (* assert *)
  else
    while (Z.to_nat (filter_index - Z.of_nat (length (filter_offsets_ b))))
      (λ b, Z.of_nat (length (filter_offsets_ b)) <? filter_index) GenerateFilter b.

Definition AddKey (b : FilterBlockBuilder) (key : list Z) : FilterBlockBuilder :=
  mkBuilder (keys_ b ++ key) (start_ b ++ [Z.of_nat (length (keys_ b))]) (result_ b)
    (filter_offsets_ b).

Definition Finish (b : FilterBlockBuilder) : option (list Z) :=
  b ← (if negb (length (start_ b) =? 0)%nat then GenerateFilter b else Some b);
  let array_offset := u32 (Z.of_nat (length (result_ b))) in
  let result := foldl PutFixed32 (result_ b) (filter_offsets_ b) in
  let result := PutFixed32 result array_offset in
  Some (result ++ [u8 kFilterBaseLg]).

Definition NewReader (contents : list Z) : option FilterBlockReader :=
  let n := Z.of_nat (length contents) in
  if n <? 5 then Some (mkReader [] 0 0 0)
  else
    base_lg ← contents.[n - 1];
    let base_lg := char_size base_lg in
    last_word ← DecodeFixed32 (drop (Z.to_nat (n - 5)) contents);
    if n - 5 <? last_word then Some (mkReader [] 0 0 base_lg)
    else Some (mkReader contents last_word ((n - 5 - last_word) / 4) base_lg).

Definition block_KeyMayMatch (r : FilterBlockReader) (block_offset : Z) (key : list Z) : option bool :=
  if 64 <=? base_lg_ r then None (* undefined shift *)
  else
  let index := Z.shiftr block_offset (base_lg_ r) in
  if index <? num_ r then
    start ← DecodeFixed32 (drop (Z.to_nat (offset_ r + index * 4)) (data_ r));
    limit ← DecodeFixed32 (drop (Z.to_nat (offset_ r + index * 4 + 4)) (data_ r));
    if (start <=? limit) && (limit <=? offset_ r) then
      let filter := take (Z.to_nat (limit - start)) (drop (Z.to_nat start) (data_ r)) in
      Some (KeyMayMatch key filter)
    else if start =? limit then Some false
    else Some true
  else Some true.
End filterblock.

(** ** What a builder holds

    [groups] are the keys of the filters generated so far, [cur] the keys of
    the next one. *)

Section spec.
Context `{P : Port} {F : FilterPolicy} {FL : FilterPolicyLaws F}.

Definition group_ok (g : list (list Z)) (f : list Z) : Prop :=
  bytes f ∧ Forall (λ key, KeyMayMatch key f = true) g.

Record fb_inv (b : FilterBlockBuilder) (groups : list (list (list Z))) (cur : list (list Z))
    (filters : list (list Z)) : Prop := {
  fb_groups : Forall2 group_ok groups filters;
  fb_result : result_ b = concat filters;
  fb_offsets : filter_offsets_ b = wrap 32 <$> offsets_of filters (length filters);
  fb_keys : keys_ b = concat cur;
  fb_start : start_ b = offsets_of cur (length cur);
  fb_count : Z.of_nat (length cur) < 2 ^ 31
}.

Lemma tmp_keys_cur cur :
  mapM (tmp_key (concat cur) (offsets_of cur (length cur) ++ [Z.of_nat (length (concat cur))]))
    (seq 0 (length cur)) = Some cur.
Proof.
  replace (offsets_of cur (length cur) ++ [Z.of_nat (length (concat cur))])
    with (offsets_of cur (S (length cur))) by (by rewrite offsets_of_snoc, firstn_all).
  apply mapM_Some, Forall2_same_length_lookup. rewrite length_seq. split; [done|].
  intros i j x Hj Hx. apply lookup_seq in Hj as [-> Hi]. rewrite Nat.add_0_l. unfold tmp_key.
  rewrite !offsets_of_lookup by lia. simpl_bind.
  by destruct (concat_piece cur i x Hx) as [-> _].
Qed.

Lemma GenerateFilter_inv b groups cur filters :
  fb_inv b groups cur filters →
  ∃ b' f, GenerateFilter b = Some b' ∧ fb_inv b' (groups ++ [cur]) [] (filters ++ [f]).
Proof.
  intros [Hg Hr Ho Hk Hs Hc]. unfold GenerateFilter. rewrite Hs, length_offsets_of.
  assert (Hoff : filter_offsets_ b ++ [u32 (Z.of_nat (length (result_ b)))]
    = wrap 32 <$> offsets_of filters (S (length filters))).
  { by rewrite offsets_of_snoc, fmap_app, Ho, Hr, firstn_all. }
  destruct (Nat.eqb_spec (length cur) 0) as [E|E].
  - apply nil_length_inv in E as ->. eexists _, []. split; [done|]. split; cbn [result_ filter_offsets_
      keys_ start_ FilterBlock.keys_ FilterBlock.start_].
    + apply Forall2_app; [done|]. constructor; [|constructor]. split; [constructor|constructor].
    + rewrite concat_app. cbn. by rewrite app_nil_r.
    + rewrite Hoff, length_app. cbn [length]. rewrite Nat.add_1_r.
      by rewrite !offsets_of_snoc, offsets_of_app, take_app_le, firstn_all by lia.
    + done.
    + done.
    + done.
  - rewrite Hk, tmp_keys_cur. simpl_bind.
    destruct (CreateFilter_match cur (result_ b) Hc) as (f & -> & Hfb & Hfm); [by intros ->|].
    eexists _, f. split; [done|]. split; cbn [result_ filter_offsets_].
    + apply Forall2_app; [done|]. constructor; [|constructor]. by split.
    + rewrite concat_app, Hr. cbn. by rewrite app_nil_r.
    + rewrite Hoff, length_app. cbn [length]. rewrite Nat.add_1_r.
      by rewrite !offsets_of_snoc, offsets_of_app, take_app_le, firstn_all by lia.
    + done.
    + done.
    + done.
Qed.

(** The keys that filter [i] stands for, or will. *)
Definition slot (groups : list (list (list Z))) (cur : list (list Z)) (i : nat) : list (list Z) :=
  default [] ((groups ++ [cur]) !! i).

Lemma slot_generate groups cur i key :
  key ∈ slot groups cur i → key ∈ slot (groups ++ [cur]) [] i.
Proof.
  unfold slot. destruct ((groups ++ [cur]) !! i) as [g|] eqn:E; [|by intros ?%not_elem_of_nil].
  by rewrite (lookup_app_l_Some _ _ _ _ E).
Qed.

Lemma StartBlock_inv b groups cur filters off :
  fb_inv b groups cur filters → Z.of_nat (length groups) ≤ off / kFilterBase →
  ∃ b' groups' cur' filters', StartBlock b off = Some b' ∧ fb_inv b' groups' cur' filters' ∧
    Z.of_nat (length groups') = off / kFilterBase ∧ (length cur' ≤ length cur)%nat ∧
    (∀ i key, key ∈ slot groups cur i → key ∈ slot groups' cur' i).
Proof.
  intros Hi Hle. unfold StartBlock.
  assert (Hlen : ∀ b groups cur filters, fb_inv b groups cur filters →
    length (filter_offsets_ b) = length groups).
  { intros ? ? ? ? [Hg _ Ho _ _ _]. rewrite Ho, length_fmap, length_offsets_of.
    symmetry. by eapply Forall2_length. }
  rewrite (Hlen _ _ _ _ Hi), (proj2 (Z.ltb_ge _ _)) by done.
  remember (Z.to_nat (off / kFilterBase - Z.of_nat (length groups))) as n eqn:En.
  revert b groups cur filters Hi Hle En. induction n as [|n IH]; intros b groups cur filters Hi Hle En;
    cbn [while]; rewrite (Hlen _ _ _ _ Hi).
  - rewrite (proj2 (Z.ltb_ge _ _)) by lia. exists b, groups, cur, filters.
    split; [done|]. split; [done|]. split; [lia|]. split; [lia|done].
  - rewrite (proj2 (Z.ltb_lt _ _)) by lia.
    destruct (GenerateFilter_inv b groups cur filters Hi) as (b1 & f & -> & Hi1).
    simpl_bind.
    destruct (IH b1 _ _ _ Hi1) as (b' & g' & c' & f' & Hw & Hi' & Hl' & Hc' & Hs').
    { rewrite length_app. cbn. lia. }
    { rewrite length_app. cbn. lia. }
    exists b', g', c', f'. split; [done|]. split; [done|]. split; [done|].
    split; [cbn in Hc'; lia|]. intros i key Hk. by apply Hs', slot_generate.
Qed.

Lemma AddKey_inv b groups cur filters key :
  fb_inv b groups cur filters → Z.of_nat (length cur) + 1 < 2 ^ 31 →
  fb_inv (AddKey b key) groups (cur ++ [key]) filters.
Proof.
  intros [Hg Hr Ho Hk Hs Hc] Hn. split; cbn [AddKey result_ filter_offsets_ FilterBlock.keys_
    FilterBlock.start_]; [done|done|done|..].
  - rewrite Hk, concat_app. cbn. by rewrite app_nil_r.
  - rewrite Hs, Hk, length_app. cbn [length]. rewrite Nat.add_1_r.
    by rewrite offsets_of_snoc, offsets_of_app, take_app_le, firstn_all by lia.
  - rewrite length_app. cbn. lia.
Qed.

Lemma AddKeys_inv keys : ∀ b groups cur filters,
  fb_inv b groups cur filters → Z.of_nat (length cur + length keys) < 2 ^ 31 →
  fb_inv (foldl AddKey b keys) groups (cur ++ keys) filters.
Proof.
  induction keys as [|key keys IH]; intros b groups cur filters Hi Hn; cbn [foldl].
  { by rewrite app_nil_r. }
  cbn [length] in Hn. replace (cur ++ key :: keys) with ((cur ++ [key]) ++ keys)
    by (by rewrite <-app_assoc).
  apply IH; [|rewrite length_app; cbn; lia]. apply AddKey_inv; [done|lia].
Qed.

(** ** Reading a finished block *)

Definition fb_contents (filters : list (list Z)) : list Z :=
  concat filters ++ words (wrap 32 <$> offsets_of filters (S (length filters))) ++ [11].

Lemma Finish_inv b groups cur filters :
  fb_inv b groups cur filters →
  ∃ groups' filters', Finish b = Some (fb_contents filters') ∧ Forall2 group_ok groups' filters' ∧
    (∀ i key, key ∈ slot groups cur i → ∃ g, groups' !! i = Some g ∧ key ∈ g).
Proof.
  intros Hi. unfold Finish.
  assert (Hdone : ∀ b groups filters, fb_inv b groups [] filters →
    Some (PutFixed32 (foldl PutFixed32 (result_ b) (filter_offsets_ b))
      (u32 (Z.of_nat (length (result_ b)))) ++ [u8 kFilterBaseLg]) = Some (fb_contents filters)).
  { intros ? ? fs [_ Hr Ho _ _ _]. unfold fb_contents.
    rewrite foldl_PutFixed32, offsets_of_snoc, fmap_app, Ho, Hr, firstn_all. unfold words.
    rewrite bind_app. cbn [fmap list_fmap mbind list_bind]. unfold PutFixed32.
    rewrite app_nil_r, <-!app_assoc. done. }
  rewrite (fb_start _ _ _ _ Hi), length_offsets_of.
  destruct (Nat.eqb_spec (length cur) 0) as [E|E]; cbn [negb].
  - apply nil_length_inv in E as ->. simpl_bind. exists groups, filters.
    rewrite (Hdone b groups filters Hi). split; [done|]. split; [apply (fb_groups _ _ _ _ Hi)|].
    intros i key. unfold slot. destruct (decide (i < length groups)%nat).
    + rewrite lookup_app_l by done. destruct (groups !! i) as [g|] eqn:Eg.
      * intros Hk. by exists g.
      * apply lookup_ge_None in Eg. lia.
    + rewrite lookup_app_r by lia. destruct (i - length groups)%nat; cbn;
        by intros ?%not_elem_of_nil.
  - destruct (GenerateFilter_inv b groups cur filters Hi) as (b1 & f & -> & Hi1).
    simpl_bind. rewrite (Hdone _ _ _ Hi1).
    exists (groups ++ [cur]), (filters ++ [f]). split; [done|].
    split; [apply (fb_groups _ _ _ _ Hi1)|]. intros i key. unfold slot.
    destruct ((groups ++ [cur]) !! i) as [g|]; [|by intros ?%not_elem_of_nil]. intros Hk.
    by exists g.
Qed.

Lemma reader_filters filters :
  Z.of_nat (length (fb_contents filters)) < 2 ^ 32 →
  ∃ r, NewReader (fb_contents filters) = Some r ∧
    ∀ i f off key, filters !! i = Some f → Z.of_nat i = off / kFilterBase →
      block_KeyMayMatch r off key = Some (KeyMayMatch key f).
Proof.
  intros Hlen.
  set (offs := wrap 32 <$> offsets_of filters (S (length filters))) in *.
  assert (Hwl : length (words offs) = (4 * S (length filters))%nat)
    by (rewrite length_words; unfold offs; by rewrite length_fmap, length_offsets_of).
  assert (Hn : length (fb_contents filters) = (length (concat filters) + 4 * length filters + 5)%nat).
  { unfold fb_contents. fold offs. rewrite !length_app, Hwl. cbn [length]. lia. }
  assert (Hcl : Z.of_nat (length (concat filters)) < 2 ^ 32) by lia.
  assert (Hoffs : ∀ j, (j ≤ length filters)%nat →
    DecodeFixed32 (drop (length (concat filters) + 4 * j) (fb_contents filters))
    = Some (Z.of_nat (length (concat (take j filters))))).
  { intros j Hj. unfold fb_contents. rewrite <-drop_drop, drop_app_length. fold offs.
    apply words_lookup; [|by apply offset_width|by apply Forall_singleton; split].
    unfold offs. rewrite list_lookup_fmap, offsets_of_lookup by lia. cbn.
    by rewrite wrap_small by (by apply offset_width). }
  unfold NewReader. rewrite (proj2 (Z.ltb_ge _ 5)) by lia.
  assert (Hlast : (fb_contents filters).[Z.of_nat (length (fb_contents filters)) - 1] = Some 11).
  { apply aget_some. split; [lia|]. unfold fb_contents. fold offs.
    rewrite app_assoc, lookup_app_r by (rewrite !length_app, Hwl; cbn [length]; lia).
    replace (_ - _)%nat with 0%nat; [done|]. rewrite !length_app. cbn [length]. lia. }
  rewrite Hlast. simpl_bind. change (char_size 11) with 11. cbv zeta.
  replace (Z.to_nat (Z.of_nat (length (fb_contents filters)) - 5))
    with (length (concat filters) + 4 * length filters)%nat by lia.
  rewrite Hoffs, firstn_all by lia. simpl_bind.
  rewrite (proj2 (Z.ltb_ge _ _)) by lia. eexists. split; [done|].
  intros i f off key Hf Hoff. pose proof (lookup_lt_Some _ _ _ Hf) as Hif.
  unfold block_KeyMayMatch. cbn [base_lg_ num_ offset_ data_]. change (64 <=? 11) with false. cbv iota.
  rewrite shiftr_div by lia. change (2 ^ 11) with kFilterBase. rewrite <-Hoff.
  replace ((Z.of_nat (length (fb_contents filters)) - 5 - Z.of_nat (length (concat filters))) / 4)
    with (Z.of_nat (length filters)).
  2:{ rewrite Hn. replace (_ - _ - _) with (Z.of_nat (length filters) * 4) by lia.
      by rewrite Z.div_mul. }
  rewrite (proj2 (Z.ltb_lt _ _)) by lia.
  replace (Z.to_nat (Z.of_nat (length (concat filters)) + Z.of_nat i * 4))
    with (length (concat filters) + 4 * i)%nat by lia.
  replace (Z.to_nat (Z.of_nat (length (concat filters)) + Z.of_nat i * 4 + 4))
    with (length (concat filters) + 4 * S i)%nat by lia.
  rewrite !Hoffs by lia. simpl_bind.
  destruct (concat_piece filters i f Hf) as [Hp Hle].
  rewrite !(proj2 (Z.leb_le _ _)) by lia. cbn [andb]. unfold fb_contents.
  rewrite drop_app_le by lia. rewrite take_app_le by (rewrite length_drop; lia).
  by rewrite Hp.
Qed.

Lemma reader_match groups filters i g key off :
  Forall2 group_ok groups filters → groups !! i = Some g → key ∈ g →
  Z.of_nat i = off / kFilterBase → Z.of_nat (length (fb_contents filters)) < 2 ^ 32 →
  ∃ r, NewReader (fb_contents filters) = Some r ∧ block_KeyMayMatch r off key = Some true.
Proof.
  intros Hg Hi Hkey Hoff Hlen. destruct (Forall2_lookup_l _ _ _ _ _ Hg Hi) as (f & Hf & _ & Hm).
  destruct (reader_filters filters Hlen) as (r & E & Hr). exists r. split; [done|].
  rewrite (Hr i f off key Hf Hoff). rewrite Forall_forall in Hm. by rewrite (Hm key Hkey).
Qed.

(** ** Blocks of a table *)

(** A table's data blocks: their offsets and keys. *)
Definition add_block (b : FilterBlockBuilder) (blk : Z * list (list Z)) : option FilterBlockBuilder :=
  b ← StartBlock b blk.1; Some (foldl AddKey b blk.2).

Fixpoint add_blocks (b : FilterBlockBuilder) (blks : list (Z * list (list Z)))
  : option FilterBlockBuilder :=
  match blks with
  | [] => Some b
  | blk :: blks => b ← add_block b blk; add_blocks b blks
  end.

Definition build (blks : list (Z * list (list Z))) : option (list Z) :=
  b ← add_blocks NewBuilder blks; Finish b.

(** Blocks come in order of their offsets. *)
Fixpoint ascending (lo : Z) (blks : list (Z * list (list Z))) : Prop :=
  match blks with
  | [] => True
  | blk :: blks => lo ≤ blk.1 ∧ ascending blk.1 blks
  end.

Lemma ascending_nonneg blks lo blk : 0 ≤ lo → ascending lo blks → blk ∈ blks → 0 ≤ blk.1.
Proof.
  revert lo. induction blks as [|b blks IH]; intros lo Hlo Ha Hin; [by apply not_elem_of_nil in Hin|].
  destruct Ha as [Hle Ha]. apply elem_of_cons in Hin as [->|Hin]; [lia|].
  eapply (IH b.1); [lia|done|done].
Qed.

Definition total_keys (blks : list (Z * list (list Z))) : nat :=
  sum_list_with (λ blk, length blk.2) blks.

Lemma add_blocks_inv blks : ∀ b groups cur filters lo,
  fb_inv b groups cur filters → ascending lo blks → Z.of_nat (length groups) ≤ lo / kFilterBase →
  Z.of_nat (length cur + total_keys blks) < 2 ^ 31 →
  ∃ b' groups' cur' filters', add_blocks b blks = Some b' ∧ fb_inv b' groups' cur' filters' ∧
    (∀ i key, key ∈ slot groups cur i → key ∈ slot groups' cur' i) ∧
    (∀ blk key, blk ∈ blks → key ∈ blk.2 → key ∈ slot groups' cur' (Z.to_nat (blk.1 / kFilterBase))).
Proof.
  induction blks as [|[off ks] blks IH]; intros b groups cur filters lo Hi Ha Hlo Hn.
  { exists b, groups, cur, filters. split; [done|]. split; [done|]. split; [done|].
    intros blk key Hb. by apply not_elem_of_nil in Hb. }
  cbn [add_blocks]. unfold add_block. cbn [fst snd] in *. destruct Ha as [Hle Ha]. cbn [fst] in *.
  change (total_keys ((off, ks) :: blks)) with (length ks + total_keys blks)%nat in Hn.
  assert (Hdiv : lo / kFilterBase ≤ off / kFilterBase) by (apply Z.div_le_mono; [done|lia]).
  destruct (StartBlock_inv b groups cur filters off Hi ltac:(lia))
    as (b1 & g1 & c1 & f1 & -> & Hi1 & Hl1 & Hc1 & Hs1). simpl_bind.
  pose proof (AddKeys_inv ks b1 g1 c1 f1 Hi1 ltac:(lia)) as Hi2.
  destruct (IH _ g1 (c1 ++ ks) f1 off Hi2 Ha ltac:(lia) ltac:(rewrite length_app; lia))
    as (b' & g' & c' & f' & -> & Hi' & Hs' & Hb').
  assert (Hgrow : ∀ i key, key ∈ slot g1 c1 i → key ∈ slot g1 (c1 ++ ks) i).
  { intros i key. unfold slot. destruct (decide (i < length g1)%nat).
    - by rewrite !lookup_app_l.
    - rewrite !lookup_app_r by lia. destruct (i - length g1)%nat; [|done].
      cbn. rewrite elem_of_app. by left. }
  exists b', g', c', f'. split; [done|]. split; [done|]. split.
  - intros i key Hk. by apply Hs', Hgrow, Hs1.
  - intros blk key [->|Hb]%elem_of_cons Hk; [|by apply Hb']. cbn [fst snd] in *.
    apply Hs'. unfold slot. rewrite <-Hl1, Nat2Z.id, lookup_app_r, Nat.sub_diag by lia.
    cbn. apply elem_of_app. by right.
Qed.
End spec.
