(* ===== verification/Block.v ===== *)
(** leveldb's data blocks: leveldb/table/block_builder.cc and
    leveldb/table/block.cc.

    A block is a sequence of entries, each key without the prefix it shares
    with the key before it, then the offsets of the restart points (entries
    that share nothing) and their number.  A pointer into [data_] is its
    offset.  [None] is a failed [assert], a read outside the block, or the use
    of a pointer that is not into it. *)

From Stdlib Require Import ZArith Lia.
From stdpp Require Import base option numbers list strings.
From S2P Require Import Prelude Coding Slice Iterator.

(** ** [BlockBuilder] *)

Record BlockBuilder := mkBlockBuilder {
  buffer_ : list Z;           (* destination buffer *)
  bb_restarts_ : list Z;      (* restart points *)
  counter_ : Z;               (* number of entries emitted since restart *)
  finished_ : bool;           (* has Finish() been called? *)
  last_key_ : list Z
}.

Section builder.
Context `{P : Port} {C : Comparator} (block_restart_interval : Z).

Definition bb_Reset : BlockBuilder := mkBlockBuilder [] [0] 0 false [].

Definition NewBlockBuilder : option BlockBuilder :=
  if 1 <=? block_restart_interval then Some (mkBlockBuilder [] [0] 0 false []) else None.

Definition CurrentSizeEstimate (b : BlockBuilder) : Z :=
  Z.of_nat (length (buffer_ b)) + Z.of_nat (length (bb_restarts_ b)) * 4 + 4.

Definition bb_empty (b : BlockBuilder) : bool := bool_decide (buffer_ b = []).

Definition bb_Finish (b : BlockBuilder) : BlockBuilder * list Z :=
  let buffer := foldl PutFixed32 (buffer_ b) (bb_restarts_ b) in
  let buffer := PutFixed32 buffer (u32 (Z.of_nat (length (bb_restarts_ b)))) in
  (mkBlockBuilder buffer (bb_restarts_ b) (counter_ b) true (last_key_ b), buffer).

(** [while (shared < min_length && last_key_piece[shared] == key[shared]) shared++]. *)
Definition shared_prefix (last_key key : list Z) (min_length : nat) : option nat :=
  while min_length
    (λ i, (i <? min_length)%nat && bool_decide (last_key !! i = key !! i))
    (λ i, Some (S i)) 0%nat.

Definition bb_Add (b : BlockBuilder) (key value : list Z) : option BlockBuilder :=
  let last_key_piece := last_key_ b in
  if finished_ b then None (* assert *)
  else if negb (counter_ b <=? block_restart_interval) then None (* assert *)
  else if negb (bb_empty b || (0 <? Compare key last_key_piece)) then None (* assert *)
  else
    '(shared, restarts, counter) ←
      (if counter_ b <? block_restart_interval then
         let min_length := (length last_key_piece `min` length key)%nat in
         shared ← shared_prefix last_key_piece key min_length;
         Some (shared, bb_restarts_ b, counter_ b)
       else Some (0%nat, bb_restarts_ b ++ [u32 (Z.of_nat (length (buffer_ b)))], 0));
    let non_shared := (length key - shared)%nat in
    let buffer := PutVarint32 (buffer_ b) (u32 (Z.of_nat shared)) in
    let buffer := PutVarint32 buffer (u32 (Z.of_nat non_shared)) in
    let buffer := PutVarint32 buffer (u32 (Z.of_nat (length value))) in
    let buffer := buffer ++ take non_shared (drop shared key) in
    let buffer := buffer ++ value in
    let last_key := take shared last_key_piece ++ take non_shared (drop shared key) in
    if negb (slice_eqb last_key key) then None (* assert *)
    else Some (mkBlockBuilder buffer restarts (counter + 1) false last_key).
End builder.

(** ** [Block] *)

Record Block := mkBlock {
  block_data_ : list Z;
  size_ : Z;
  restart_offset_ : Z
}.

(** An entry of the block from the bytes [p..limit): the three numbers and the
    bytes from the key delta on; [None] is [NULL]. *)
Definition DecodeEntry (p : list Z) : option (Z * Z * Z * list Z) :=
  match p with
  | b0 :: b1 :: b2 :: p3 =>
      '(shared, non_shared, value_length, p') ←
        (if Z.lor (Z.lor b0 b1) b2 <? 128 then Some (b0, b1, b2, p3)
         else
           '(shared, p) ← GetVarint32Ptr p;
           '(non_shared, p) ← GetVarint32Ptr p;
           '(value_length, p) ← GetVarint32Ptr p;
           Some (shared, non_shared, value_length, p));
      if u32 (Z.of_nat (length p')) <? u32 (non_shared + value_length) then None
      else Some (shared, non_shared, value_length, p')
  | _ => None
  end.

Section block.
Context `{P : Port} {C : Comparator}.

(** [DecodeFixed32(data_ + size_ - sizeof(uint32_t))]. *)
Definition NumRestarts (data : list Z) (size : Z) : option Z :=
  if 4 <=? size then DecodeFixed32 (drop (Z.to_nat (size - 4)) data) else None.

(** [restart_offset_] is not set when the contents are bad; it is 0 here. *)
Definition NewBlock (contents : list Z) : option Block :=
  let size := Z.of_nat (length contents) in
  if size <? 4 then Some (mkBlock contents 0 0)
  else
    n ← NumRestarts contents size;
    if (size - 4) / 4 <? n then Some (mkBlock contents 0 0)
    else Some (mkBlock contents size (u32 (u32 size - (1 + n) * 4))).

(** ** [Block::Iter]

    [value_] is the offset and the size of the value; [None] is a slice that
    is not into the block. *)

Record Iter := mkIter {
  iter_data_ : list Z;
  restarts_ : Z;
  num_restarts_ : Z;
  current_ : Z;
  restart_index_ : Z;
  key_ : list Z;
  value_ : option (Z * Z);
  status_ : Status
}.

Definition NextEntryOffset (it : Iter) : option Z :=
  '(off, size) ← value_ it; Some (off + size).

Definition GetRestartPoint (it : Iter) (index : Z) : option Z :=
  if index <? num_restarts_ it
  then DecodeFixed32 (drop (Z.to_nat (restarts_ it + index * 4)) (iter_data_ it))
  else None (* assert *).

Definition SeekToRestartPoint (it : Iter) (index : Z) : option Iter :=
  offset ← GetRestartPoint it index;
  Some (mkIter (iter_data_ it) (restarts_ it) (num_restarts_ it) (current_ it) index []
          (Some (offset, 0)) (status_ it)).

Definition NewIter (data : list Z) (restarts num_restarts : Z) : option Iter :=
  if 0 <? num_restarts
  then Some (mkIter data restarts num_restarts restarts num_restarts [] None OK)
  else None (* assert *).

Definition Valid (it : Iter) : bool := current_ it <? restarts_ it.

Definition iter_status (it : Iter) : Status := status_ it.

Definition iter_key (it : Iter) : option (list Z) := if Valid it then Some (key_ it) else None.

Definition iter_value (it : Iter) : option (list Z) :=
  if Valid it then
    '(off, size) ← value_ it;
    if off + size <=? Z.of_nat (length (iter_data_ it))
    then Some (take (Z.to_nat size) (drop (Z.to_nat off) (iter_data_ it))) else None
  else None.

(** [current_ = restarts_; restart_index_ = num_restarts_]: no entry. *)
Definition set_invalid (it : Iter) : Iter :=
  mkIter (iter_data_ it) (restarts_ it) (num_restarts_ it) (restarts_ it) (num_restarts_ it)
    (key_ it) (value_ it) (status_ it).

Definition CorruptionError (it : Iter) : Iter :=
  mkIter (iter_data_ it) (restarts_ it) (num_restarts_ it) (restarts_ it) (num_restarts_ it)
    [] None (Corruption "bad entry in block").

(** [while (restart_index_ + 1 < num_restarts_ &&
    GetRestartPoint(restart_index_ + 1) < current_) ++restart_index_]. *)
Fixpoint advance_restart (fuel : nat) (it : Iter) (current restart_index : Z) : option Z :=
  if restart_index + 1 <? num_restarts_ it then
    r ← GetRestartPoint it (restart_index + 1);
    if r <? current then
      match fuel with
      | O => None
      | S fuel => advance_restart fuel it current (restart_index + 1)
      end
    else Some restart_index
  else Some restart_index.

(** The key and the value are read from [p..limit); what [DecodeEntry] found
    must be there. *)
Definition ParseNextKey (it : Iter) : option (Iter * bool) :=
  current ← NextEntryOffset it;
  let current := u32 current in
  if restarts_ it <=? current then Some (set_invalid it, false)
  else
    let p := take (Z.to_nat (restarts_ it - current)) (drop (Z.to_nat current) (iter_data_ it)) in
    match DecodeEntry p with
    | None => Some (CorruptionError it, false)
    | Some (shared, non_shared, value_length, p) =>
        if Z.of_nat (length (key_ it)) <? shared then Some (CorruptionError it, false)
        else if Z.of_nat (length p) <? non_shared + value_length then None
        else
          let key := take (Z.to_nat shared) (key_ it) ++ take (Z.to_nat non_shared) p in
          let value := (restarts_ it - Z.of_nat (length p) + non_shared, value_length) in
          index ← advance_restart (Z.to_nat (num_restarts_ it)) it current (restart_index_ it);
          Some (mkIter (iter_data_ it) (restarts_ it) (num_restarts_ it) current index key
                  (Some value) (status_ it), true)
    end.

Definition Next (it : Iter) : option Iter :=
  if Valid it then '(it, _) ← ParseNextKey it; Some it else None (* assert *).

(** The first loop of [Prev]: the restart point to scan from, or [None] at the
    first entry. *)
Fixpoint prev_restart (fuel : nat) (it : Iter) (original restart_index : Z) : option (option Z) :=
  r ← GetRestartPoint it restart_index;
  if original <=? r then
    if restart_index =? 0 then Some None
    else
      match fuel with
      | O => None
      | S fuel => prev_restart fuel it original (restart_index - 1)
      end
  else Some (Some restart_index).

(** [do {} while (ParseNextKey() && NextEntryOffset() < limit)]: every turn
    takes bytes of the block. *)
Fixpoint parse_until (fuel : nat) (it : Iter) (limit : Z) : option Iter :=
  '(it, more) ← ParseNextKey it;
  if (more : bool) then
    next ← NextEntryOffset it;
    if next <? limit then
      match fuel with
      | O => None
      | S fuel => parse_until fuel it limit
      end
    else Some it
  else Some it.

Definition Prev (it : Iter) : option Iter :=
  if Valid it then
    let original := current_ it in
    r ← prev_restart (Z.to_nat (num_restarts_ it)) it original (restart_index_ it);
    match r with
    | None => Some (set_invalid it)
    | Some restart_index =>
        it ← SeekToRestartPoint it restart_index;
        parse_until (length (iter_data_ it)) it original
    end
  else None (* assert *).

(** The binary search of [Seek]: the last restart point with a smaller key, or
    [None] when an entry is bad. *)
Fixpoint seek_restart (fuel : nat) (it : Iter) (target : list Z) (left right : Z) : option (option Z) :=
  if left <? right then
    match fuel with
    | O => None
    | S fuel =>
        let mid := u32 (left + right + 1) / 2 in
        region_offset ← GetRestartPoint it mid;
        let p := take (Z.to_nat (restarts_ it - region_offset))
                   (drop (Z.to_nat region_offset) (iter_data_ it)) in
        match DecodeEntry p with
        | None => Some None
        | Some (shared, non_shared, value_length, key_ptr) =>
            if negb (shared =? 0) then Some None
            else if Z.of_nat (length key_ptr) <? non_shared then None
            else
              let mid_key := take (Z.to_nat non_shared) key_ptr in
              if Compare mid_key target <? 0
              then seek_restart fuel it target mid right
              else seek_restart fuel it target left (mid - 1)
        end
    end
  else Some (Some left).

(** The linear search of [Seek]. *)
Fixpoint seek_scan (fuel : nat) (it : Iter) (target : list Z) : option Iter :=
  '(it, more) ← ParseNextKey it;
  if (more : bool) then
    if 0 <=? Compare (key_ it) target then Some it
    else
      match fuel with
      | O => None
      | S fuel => seek_scan fuel it target
      end
  else Some it.

Definition Seek (it : Iter) (target : list Z) : option Iter :=
  r ← seek_restart (Z.to_nat (num_restarts_ it)) it target 0 (num_restarts_ it - 1);
  match r with
  | None => Some (CorruptionError it)
  | Some l =>
      it ← SeekToRestartPoint it l;
      seek_scan (length (iter_data_ it)) it target
  end.

Definition SeekToFirst (it : Iter) : option Iter :=
  it ← SeekToRestartPoint it 0;
  '(it, _) ← ParseNextKey it; Some it.

Definition SeekToLast (it : Iter) : option Iter :=
  it ← SeekToRestartPoint it (num_restarts_ it - 1);
  parse_until (length (iter_data_ it)) it (restarts_ it).

(** [Block::NewIterator]. *)
Definition NewIterator (b : Block) : option (EmptyIterator + Iter) :=
  if size_ b <? 4 then Some (inl (NewErrorIterator (Corruption "bad block contents")))
  else
    num_restarts ← NumRestarts (block_data_ b) (size_ b);
    if num_restarts =? 0 then Some (inl NewEmptyIterator)
    else it ← NewIter (block_data_ b) (restart_offset_ b) num_restarts; Some (inr it).

#[export] Instance block_iterator : Iterator Iter := {|
  i_Valid := Valid;
  i_SeekToFirst := SeekToFirst;
  i_SeekToLast := SeekToLast;
  i_Seek := Seek;
  i_Next := Next;
  i_Prev := Prev;
  i_key := iter_key;
  i_value := iter_value;
  i_status it := Some (iter_status it)
|}.
End block.
