(* ===== verification/BlockSpec.v ===== *)
(** The iterator of a data block (Block.v) moves over the entries that the
    builder was given.

    [layout] describes a finished block: entries with the length of the prefix
    they share with the key before, and the indices of the restart points.
    [at_entry it i] says that the iterator is at entry [i] (past the last one
    when [i] is their number), [ready it i] that the next entry it parses is
    [i]. *)

From Stdlib Require Import ZArith Lia.
From stdpp Require Import base option numbers list strings sorting.
From S2P Require Import Prelude Coding Slice Iterator WriteBatch Block.

Record bentry := mkEntry { e_shared : nat; e_key : list Z; e_value : list Z }.

Definition enc_entry (e : bentry) : list Z :=
  EncodeVarint32 (Z.of_nat (e_shared e)) ++ EncodeVarint32 (Z.of_nat (length (e_key e) - e_shared e))
    ++ EncodeVarint32 (Z.of_nat (length (e_value e))) ++ drop (e_shared e) (e_key e) ++ e_value e.

Definition entry_ok (e : bentry) : Prop :=
  str_ok (e_key e) ∧ str_ok (e_value e) ∧ (e_shared e ≤ length (e_key e))%nat.

(** ** Decoding an entry *)

(** The first byte of a varint. *)
Lemma EncodeVarint32_head v :
  in_width 32 v → ∃ b r, EncodeVarint32 v = b :: r ∧ 0 ≤ b ∧
    (v < 128 → b = v ∧ r = []) ∧ (128 ≤ v → 128 ≤ b).
Proof.
  intros [H0 H]. rewrite EncodeVarint32_leb128 by done. cbn [leb128].
  change B with 128. destruct (Z.ltb_spec v 128).
  - exists v, []. split; [done|]. split; [done|]. split; [done|lia].
  - eexists _, _. split; [done|]. pose proof (Z.mod_pos_bound v 128). split; [lia|]. split; lia.
Qed.

Lemma log2_small a : 0 ≤ a → a < 128 ↔ Z.log2 a < 7.
Proof.
  intros Ha. destruct (decide (a = 0)) as [->|]; [done|].
  change 128 with (2 ^ 7). apply Z.log2_lt_pow2. lia.
Qed.

Lemma lor_small a b : 0 ≤ a → 0 ≤ b → Z.lor a b < 128 ↔ a < 128 ∧ b < 128.
Proof.
  intros Ha Hb. rewrite !log2_small, Z.log2_lor by (done || by apply Z.lor_nonneg). lia.
Qed.

Lemma lor_three a b c :
  0 ≤ a → 0 ≤ b → 0 ≤ c →
  (Z.lor (Z.lor a b) c <? 128) = (a <? 128) && (b <? 128) && (c <? 128).
Proof.
  intros Ha Hb Hc. apply Bool.eq_iff_eq_true. rewrite !andb_true_iff, !Z.ltb_lt.
  rewrite !lor_small by (done || by apply Z.lor_nonneg). done.
Qed.

Lemma GetVarint32Ptr_encode v r :
  in_width 32 v → bytes r → GetVarint32Ptr (EncodeVarint32 v ++ r) = Some (v, r).
Proof. intros. rewrite GetVarint32Ptr_eq. by apply GetVarint32_encode. Qed.

(** The three numbers of an entry, by either path. *)
Lemma decode_three a b c r :
  in_width 32 a → in_width 32 b → in_width 32 c → bytes r →
  ∃ b0 b1 b2 p3,
    EncodeVarint32 a ++ EncodeVarint32 b ++ EncodeVarint32 c ++ r = b0 :: b1 :: b2 :: p3 ∧
    (if Z.lor (Z.lor b0 b1) b2 <? 128 then Some (b0, b1, b2, p3)
     else
       '(shared, p) ← GetVarint32Ptr (b0 :: b1 :: b2 :: p3);
       '(non_shared, p) ← GetVarint32Ptr p;
       '(value_length, p) ← GetVarint32Ptr p;
       Some (shared, non_shared, value_length, p)) = Some (a, b, c, r).
Proof.
  intros Ha Hb Hc Hr.
  destruct (EncodeVarint32_head a Ha) as (ha & ra & Ea & Ha0 & Hal & Hag).
  destruct (EncodeVarint32_head b Hb) as (hb & rb & Eb & Hb0 & Hbl & Hbg).
  destruct (EncodeVarint32_head c Hc) as (hc & rc & Ec & Hc0 & Hcl & Hcg).
  assert (Hslow : (
    '(shared, p) ← GetVarint32Ptr (EncodeVarint32 a ++ EncodeVarint32 b ++ EncodeVarint32 c ++ r);
    '(non_shared, p) ← GetVarint32Ptr p;
    '(value_length, p) ← GetVarint32Ptr p;
    Some (shared, non_shared, value_length, p)) = Some (a, b, c, r)).
  { rewrite GetVarint32Ptr_encode by solve_width. simpl_bind.
    rewrite GetVarint32Ptr_encode by solve_width. simpl_bind.
    by rewrite GetVarint32Ptr_encode by solve_width. }
  assert (Hb3 : bytes (EncodeVarint32 a ++ EncodeVarint32 b ++ EncodeVarint32 c ++ r)) by solve_width.
  assert (Hlen : (3 ≤ length (EncodeVarint32 a ++ EncodeVarint32 b ++ EncodeVarint32 c ++ r))%nat).
  { rewrite !length_app, Ea, Eb, Ec. cbn [length]. lia. }
  destruct (EncodeVarint32 a ++ EncodeVarint32 b ++ EncodeVarint32 c ++ r) as [|b0 [|b1 [|b2 p3]]] eqn:E;
    [cbn in Hlen; lia..|]. exists b0, b1, b2, p3. split; [done|].
  apply Forall_cons in Hb3 as [[? _] Hb3]. apply Forall_cons in Hb3 as [[? _] Hb3].
  apply Forall_cons in Hb3 as [[? _] _]. rewrite lor_three by done.
  rewrite Ea, Eb, Ec in E. destruct (Z.ltb_spec b0 128); [|done].
  destruct (Z.ltb_spec b1 128); [|done]. destruct (Z.ltb_spec b2 128); [|done]. cbn [andb].
  cbn [app] in E. injection E as -> E.
  destruct (decide (a < 128)) as [Hlt|]; [|lia]. destruct (Hal Hlt) as [-> ->].
  cbn [app] in E. injection E as -> E.
  destruct (decide (b < 128)) as [Hlt'|]; [|lia]. destruct (Hbl Hlt') as [-> ->].
  cbn [app] in E. injection E as -> E.
  destruct (decide (c < 128)) as [Hlt''|]; [|lia]. destruct (Hcl Hlt'') as [-> ->].
  cbn [app] in E. by rewrite E.
Qed.

Lemma DecodeEntry_enc e r :
  entry_ok e → bytes r → Z.of_nat (length (enc_entry e ++ r)) < 2 ^ 32 →
  DecodeEntry (enc_entry e ++ r)
  = Some (Z.of_nat (e_shared e), Z.of_nat (length (e_key e) - e_shared e),
      Z.of_nat (length (e_value e)), drop (e_shared e) (e_key e) ++ e_value e ++ r).
Proof.
  intros ([Hk Hkl] & [Hv Hvl] & Hs) Hr Hlen. unfold in_width in Hkl.
  assert (Hb : bytes (drop (e_shared e) (e_key e) ++ e_value e ++ r)) by solve_width.
  destruct (decode_three (Z.of_nat (e_shared e)) (Z.of_nat (length (e_key e) - e_shared e))
    (Z.of_nat (length (e_value e))) (drop (e_shared e) (e_key e) ++ e_value e ++ r))
    as (b0 & b1 & b2 & p3 & E & Hd); [unfold in_width; lia|unfold in_width; lia|done|done|].
  assert (E' : enc_entry e ++ r = b0 :: b1 :: b2 :: p3)
    by (rewrite <-E; unfold enc_entry; by rewrite <-!app_assoc).
  rewrite E' in Hlen |- *. rewrite <-E, !length_app in Hlen.
  unfold DecodeEntry. rewrite Hd. simpl_bind. rewrite !length_app, !length_drop in *.
  rewrite !wrap_small; [|unfold in_width; lia..]. by rewrite (proj2 (Z.ltb_ge _ _)) by lia.
Qed.

Lemma length_enc_entry e : (3 ≤ length (enc_entry e))%nat.
Proof.
  unfold enc_entry. rewrite !length_app.
  assert (H : ∀ v, (1 ≤ length (EncodeVarint32 v))%nat).
  { intros v. unfold EncodeVarint32. repeat case_match; cbn; lia. }
  pose proof (H (Z.of_nat (e_shared e))). pose proof (H (Z.of_nat (length (e_key e) - e_shared e))).
  pose proof (H (Z.of_nat (length (e_value e)))). lia.
Qed.

(** ** Finished blocks *)

Definition body (ents : list bentry) : list Z := concat (enc_entry <$> ents).

(** The offset of entry [i], and of the end. *)
Definition off (ents : list bentry) (i : nat) : nat := length (body (take i ents)).

Section block.
Context `{P : Port} {C : Comparator} {HC : ComparatorLaws C}.

Definition restart_words (ents : list bentry) (rs : list nat) : list Z :=
  (λ r, Z.of_nat (off ents r)) <$> rs.

Definition block_contents (ents : list bentry) (rs : list nat) : list Z :=
  body ents ++ words (restart_words ents rs ++ [Z.of_nat (length rs)]).

(** Consecutive entries share the prefix they say they do. *)
Definition shares (ents : list bentry) : Prop :=
  ∀ i e e', ents !! i = Some e → ents !! S i = Some e' →
    (e_shared e' ≤ length (e_key e))%nat ∧
    take (e_shared e') (e_key e) = take (e_shared e') (e_key e').

(** Restart points share nothing. *)
Definition restarts_ok (ents : list bentry) (rs : list nat) : Prop :=
  rs !! 0%nat = Some 0%nat ∧
  ∀ j r, rs !! j = Some r →
    (r ≤ length ents)%nat ∧ (0 < j → r < length ents)%nat ∧
    ∀ e, ents !! r = Some e → e_shared e = 0%nat.

Record layout (ents : list bentry) (rs : list nat) : Prop := {
  lay_entries : Forall entry_ok ents;
  lay_shares : shares ents;
  lay_restarts : restarts_ok ents rs;
  lay_sorted : StronglySorted (λ a b, Compare (e_key a) (e_key b) < 0) ents;
  lay_size : Z.of_nat (length (block_contents ents rs)) < 2 ^ 32
}.

Lemma off_0 ents : off ents 0 = 0%nat.
Proof. done. Qed.

Lemma off_S ents i e : ents !! i = Some e → off ents (S i) = (off ents i + length (enc_entry e))%nat.
Proof.
  intros He. unfold off, body. rewrite (take_S_r _ _ _ He), fmap_app, concat_app, length_app.
  cbn. by rewrite app_nil_r.
Qed.

Lemma off_mono ents i j : (i ≤ j ≤ length ents)%nat → (off ents i + 3 * (j - i) ≤ off ents j)%nat.
Proof.
  intros [Hij Hj]. induction Hij as [|j Hij IH]; [lia|].
  destruct (lookup_lt_is_Some_2 ents j ltac:(lia)) as [e He].
  rewrite (off_S _ _ _ He). pose proof (length_enc_entry e). specialize (IH ltac:(lia)). lia.
Qed.

Lemma off_lt ents i j : (i ≤ length ents)%nat → (j ≤ length ents)%nat →
  (off ents i < off ents j)%nat ↔ (i < j)%nat.
Proof.
  intros Hi Hj. split; intros H.
  - destruct (decide (i < j)%nat); [done|]. pose proof (off_mono ents j i). lia.
  - pose proof (off_mono ents i j). lia.
Qed.

Section iter.
Context (ents : list bentry) (rs : list nat) (HL : layout ents rs).
Abbreviation off := (off ents).
Abbreviation n := (length ents).
Abbreviation contents := (block_contents ents rs).

Lemma length_contents : length contents = (off n + 4 * (length rs + 1))%nat.
Proof.
  unfold block_contents, BlockSpec.off. rewrite firstn_all, length_app, length_words, length_app.
  unfold restart_words. rewrite length_fmap. cbn. lia.
Qed.

Lemma off_end i : (i ≤ n)%nat → Z.of_nat (off i) < 2 ^ 32.
Proof.
  intros Hi. pose proof (lay_size _ _ HL) as H. rewrite length_contents in H.
  pose proof (off_mono ents i n ltac:(lia)). lia.
Qed.

(** The bytes of the entries from [i] on. *)
Lemma block_bytes_at i :
  (i ≤ n)%nat → take (off n - off i) (drop (off i) contents) = body (drop i ents).
Proof.
  intros Hi. assert (E : body ents = body (take i ents) ++ body (drop i ents)).
  { unfold body. by rewrite <-concat_app, <-fmap_app, take_drop. }
  unfold block_contents. rewrite E, <-!app_assoc.
  rewrite drop_app_length' by done.
  replace (off n - off i)%nat with (length (body (drop i ents))); [apply take_app_length|].
  unfold BlockSpec.off. rewrite firstn_all, E, length_app. lia.
Qed.

Lemma body_bytes l : Forall entry_ok l → bytes (body l).
Proof.
  induction 1 as [|e l He Hl IH]; [constructor|]. destruct He as ([Hk Hkl] & [Hv Hvl] & Hs).
  unfold in_width in Hkl. change (body (e :: l)) with (enc_entry e ++ body l).
  assert (H1 : in_width 32 (Z.of_nat (e_shared e))) by (unfold in_width; lia).
  assert (H2 : in_width 32 (Z.of_nat (length (e_key e) - e_shared e))) by (unfold in_width; lia).
  unfold enc_entry. solve_width.
Qed.

Lemma decode_at i e :
  ents !! i = Some e →
  DecodeEntry (take (off n - off i) (drop (off i) contents))
  = Some (Z.of_nat (e_shared e), Z.of_nat (length (e_key e) - e_shared e),
      Z.of_nat (length (e_value e)),
      drop (e_shared e) (e_key e) ++ e_value e ++ body (drop (S i) ents)).
Proof.
  intros He. pose proof (lookup_lt_Some _ _ _ He) as Hi.
  pose proof (lay_entries _ _ HL) as Hok. rewrite block_bytes_at by lia.
  assert (E : body (drop i ents) = enc_entry e ++ body (drop (S i) ents))
    by (by rewrite (drop_S _ _ _ He)).
  rewrite E. apply DecodeEntry_enc.
  - by eapply (Forall_lookup_1 _ _ _ _ Hok He).
  - by apply body_bytes, Forall_drop.
  - rewrite <-E, <-block_bytes_at by lia. pose proof (off_end n ltac:(lia)).
    rewrite length_take, length_drop. lia.
Qed.

Lemma body_drop_length i : (i ≤ n)%nat → length (body (drop i ents)) = (off n - off i)%nat.
Proof.
  intros Hi. rewrite <-block_bytes_at by done. rewrite length_take, length_drop, length_contents.
  pose proof (off_mono ents i n ltac:(lia)). lia.
Qed.

(** ** The iterator *)

Record base (it : Iter) : Prop := {
  base_data : iter_data_ it = contents;
  base_restarts : restarts_ it = Z.of_nat (off n);
  base_num : num_restarts_ it = Z.of_nat (length rs);
  base_status : status_ it = OK
}.

Definition at_entry (it : Iter) (i : nat) : Prop :=
  base it ∧ (i ≤ n)%nat ∧ current_ it = Z.of_nat (off i) ∧
  ∀ e, ents !! i = Some e →
    key_ it = e_key e ∧
    value_ it = Some (Z.of_nat (off (S i) - length (e_value e)), Z.of_nat (length (e_value e))) ∧
    0 ≤ restart_index_ it < Z.of_nat (length rs).

Definition ready (it : Iter) (i : nat) : Prop :=
  base it ∧ (i ≤ n)%nat ∧ NextEntryOffset it = Some (Z.of_nat (off i)) ∧
  0 ≤ restart_index_ it < Z.of_nat (length rs) ∧
  ∀ e, ents !! i = Some e →
    (e_shared e ≤ length (key_ it))%nat ∧ take (e_shared e) (key_ it) = take (e_shared e) (e_key e).

Lemma value_end i e : ents !! i = Some e → (length (e_value e) ≤ off (S i))%nat.
Proof. intros He. rewrite (off_S _ _ _ He). unfold enc_entry. rewrite !length_app. lia. Qed.

(** The value of entry [i] ends where the entry does. *)
Lemma entry_value_bytes i e :
  ents !! i = Some e →
  take (length (e_value e)) (drop (off (S i) - length (e_value e)) contents) = e_value e.
Proof.
  intros He. pose proof (lookup_lt_Some _ _ _ He) as Hi.
  set (h := EncodeVarint32 (Z.of_nat (e_shared e))
    ++ EncodeVarint32 (Z.of_nat (length (e_key e) - e_shared e))
    ++ EncodeVarint32 (Z.of_nat (length (e_value e))) ++ drop (e_shared e) (e_key e)).
  assert (Eh : enc_entry e = h ++ e_value e) by (unfold enc_entry, h; by rewrite <-!app_assoc).
  assert (E : contents = (body (take i ents) ++ h) ++ e_value e
    ++ body (drop (S i) ents) ++ words (restart_words ents rs ++ [Z.of_nat (length rs)])).
  { unfold block_contents. rewrite <-(take_drop_middle ents i e He) at 1. unfold body.
    rewrite fmap_app, concat_app. cbn. rewrite Eh, <-!app_assoc. done. }
  rewrite E, (off_S _ _ _ He), Eh, length_app.
  rewrite drop_app_length' by (rewrite length_app; unfold BlockSpec.off; lia). apply take_app_length.
Qed.

Lemma at_entry_ready it i : (i < n)%nat → at_entry it i → ready it (S i).
Proof.
  intros Hi (Hb & _ & Hc & He). destruct (lookup_lt_is_Some_2 ents i Hi) as [e Hei].
  destruct (He e Hei) as (Hk & Hv & Hr). split; [done|]. split; [lia|].
  split; [|split; [done|]].
  - unfold NextEntryOffset. rewrite Hv. simpl_bind. f_equal. pose proof (value_end i e Hei). lia.
  - intros e' He'. rewrite Hk. by apply (lay_shares _ _ HL i).
Qed.

Lemma GetRestartPoint_at it j r :
  base it → rs !! j = Some r → GetRestartPoint it (Z.of_nat j) = Some (Z.of_nat (off r)).
Proof.
  intros [Hd Hr Hn _] Hj. pose proof (lookup_lt_Some _ _ _ Hj) as Hlt.
  destruct (lay_restarts _ _ HL) as [_ Hrs]. destruct (Hrs j r Hj) as (Hrn & _).
  unfold GetRestartPoint. rewrite Hn, (proj2 (Z.ltb_lt _ _)) by lia. rewrite Hd, Hr.
  replace (Z.to_nat _) with (off n + 4 * j)%nat by lia. rewrite <-drop_drop.
  unfold block_contents, BlockSpec.off at 1. rewrite firstn_all, drop_app_length.
  rewrite <-(app_nil_r (words _)). apply words_lookup; [|split; [lia|by apply off_end]|constructor].
  unfold restart_words. rewrite lookup_app_l by (by rewrite length_fmap).
  by rewrite list_lookup_fmap, Hj.
Qed.

Lemma restart_lookup (k : Z) : 0 ≤ k < Z.of_nat (length rs) → ∃ r, rs !! Z.to_nat k = Some r.
Proof. intros Hk. apply lookup_lt_is_Some_2. lia. Qed.

Lemma SeekToRestartPoint_ready it j r :
  base it → rs !! j = Some r →
  ∃ it', SeekToRestartPoint it (Z.of_nat j) = Some it' ∧ ready it' r.
Proof.
  intros Hb Hj. unfold SeekToRestartPoint. rewrite (GetRestartPoint_at it j r Hb Hj). simpl_bind.
  eexists. split; [done|]. destruct (lay_restarts _ _ HL) as [_ Hrs].
  destruct (Hrs j r Hj) as (Hr & _ & Hs). destruct Hb as [Hd Hr' Hn Hst].
  split; [by split|]. split; [done|]. pose proof (lookup_lt_Some _ _ _ Hj).
  split; [cbn; by rewrite Z.add_0_r|]. split; [cbn; lia|].
  intros e He. rewrite (Hs e He). split; [lia|done].
Qed.

Lemma advance_restart_run it current fuel : ∀ k,
  base it → 0 ≤ k < Z.of_nat (length rs) → (Z.of_nat (length rs) - k ≤ Z.of_nat fuel) →
  ∃ k', advance_restart fuel it current k = Some k' ∧ 0 ≤ k' < Z.of_nat (length rs).
Proof.
  induction fuel as [|fuel IH]; intros k Hb Hk Hf; [lia|]. cbn [advance_restart].
  rewrite (base_num _ Hb). destruct (Z.ltb_spec (k + 1) (Z.of_nat (length rs))); [|by exists k].
  destruct (restart_lookup (k + 1) ltac:(lia)) as [r Hr].
  pose proof (GetRestartPoint_at it _ r Hb Hr) as Hg. rewrite Z2Nat.id in Hg by lia.
  rewrite Hg. simpl_bind. destruct (_ <? _); [|by exists k]. apply IH; [done|lia|lia].
Qed.

Lemma ParseNextKey_end it : ready it n → ∃ it', ParseNextKey it = Some (it', false) ∧ at_entry it' n.
Proof.
  intros (Hb & _ & Ho & _ & _). unfold ParseNextKey. rewrite Ho. simpl_bind.
  rewrite wrap_small by (split; [lia|by apply off_end]).
  rewrite (base_restarts _ Hb), Z.leb_refl. eexists. split; [done|].
  destruct Hb as [Hd Hr Hn Hs]. split; [by split|]. split; [lia|]. split; [done|].
  intros e He. apply lookup_lt_Some in He. lia.
Qed.

Lemma ParseNextKey_entry it i :
  (i < n)%nat → ready it i → ∃ it', ParseNextKey it = Some (it', true) ∧ at_entry it' i.
Proof.
  intros Hi (Hb & _ & Ho & Hri & Hkey). destruct (lookup_lt_is_Some_2 ents i Hi) as [e He].
  destruct (Hkey e He) as [Hs Ht]. pose proof (off_mono ents i n ltac:(lia)) as Hm.
  assert (Hok : entry_ok e) by (by eapply (Forall_lookup_1 _ _ _ _ (lay_entries _ _ HL))).
  destruct Hok as (_ & _ & Hsk). unfold ParseNextKey. rewrite Ho. simpl_bind.
  rewrite wrap_small by (split; [lia|apply off_end; lia]).
  rewrite (base_restarts _ Hb), (base_data _ Hb), (proj2 (Z.leb_gt _ _)) by lia.
  replace (Z.to_nat (Z.of_nat (off n) - Z.of_nat (off i))) with (off n - off i)%nat by lia.
  rewrite Nat2Z.id, (decode_at i e He). cbv zeta.
  set (p := drop (e_shared e) (e_key e) ++ e_value e ++ body (drop (S i) ents)).
  assert (Hp : length p = (length (e_key e) - e_shared e + length (e_value e) + (off n - off (S i)))%nat).
  { unfold p. rewrite !length_app, length_drop, body_drop_length by lia. lia. }
  pose proof (off_mono ents (S i) n ltac:(lia)). pose proof (value_end i e He).
  rewrite (proj2 (Z.ltb_ge (Z.of_nat (length (key_ it))) _)) by lia.
  rewrite (proj2 (Z.ltb_ge (Z.of_nat (length p)) _)) by lia.
  rewrite (base_num _ Hb).
  destruct (advance_restart_run it (Z.of_nat (off i)) (Z.to_nat (Z.of_nat (length rs)))
    (restart_index_ it) Hb Hri ltac:(lia)) as (k & -> & Hk). simpl_bind.
  eexists. split; [done|]. split; [by destruct Hb|]. split; [lia|]. split; [done|].
  intros e' He'. rewrite He in He'. injection He' as <-. cbn [key_ value_ restart_index_].
  split; [|split; [|done]].
  - rewrite !Nat2Z.id, Ht. unfold p. rewrite take_app_length' by (rewrite length_drop; done).
    apply take_drop.
  - rewrite Hp. f_equal. f_equal. lia.
Qed.

Lemma ParseNextKey_ready it i :
  ready it i → ∃ it', ParseNextKey it = Some (it', bool_decide (i < n)%nat) ∧ at_entry it' i.
Proof.
  intros Hr. destruct (decide (i < n)%nat) as [Hi|Hi].
  - rewrite bool_decide_eq_true_2 by done. by apply ParseNextKey_entry.
  - rewrite bool_decide_eq_false_2 by done. destruct Hr as (Hb & Hle & Hr).
    replace i with n in * by lia. by apply ParseNextKey_end.
Qed.

(** ** Moving *)

Lemma Next_at it i :
  (i < n)%nat → at_entry it i → ∃ it', Next it = Some it' ∧ at_entry it' (S i).
Proof.
  intros Hi Ha. unfold Next, Valid. pose proof Ha as (Hb & _ & Hc & _).
  rewrite Hc, (base_restarts _ Hb). pose proof (off_mono ents i n ltac:(lia)).
  rewrite (proj2 (Z.ltb_lt _ _)) by lia.
  destruct (ParseNextKey_ready it (S i) (at_entry_ready it i Hi Ha)) as (it' & -> & Ha').
  by exists it'.
Qed.

Lemma SeekToFirst_at it : base it → ∃ it', SeekToFirst it = Some it' ∧ at_entry it' 0.
Proof.
  intros Hb. unfold SeekToFirst. destruct (lay_restarts _ _ HL) as [H0 _].
  destruct (SeekToRestartPoint_ready it 0 0 Hb H0) as (it1 & E & Hr).
  change (Z.of_nat 0) with 0 in E. rewrite E. simpl_bind.
  destruct (ParseNextKey_ready it1 0 Hr) as (it' & -> & Ha). by exists it'.
Qed.

Lemma parse_until_run k fuel : ∀ it i,
  ready it i → (i < k ≤ n)%nat → (k - i ≤ S fuel)%nat →
  ∃ it', parse_until fuel it (Z.of_nat (off k)) = Some it' ∧ at_entry it' (k - 1).
Proof.
  induction fuel as [|fuel IH]; intros it i Hr Hk Hf; cbn [parse_until];
    destruct (ParseNextKey_ready it i Hr) as (it1 & -> & Ha); simpl_bind;
    rewrite bool_decide_eq_true_2 by lia;
    pose proof (at_entry_ready it1 i ltac:(lia) Ha) as Hr1; destruct Hr1 as (Hb1 & Hle1 & Ho1 & Hx1);
    rewrite Ho1; simpl_bind.
  - rewrite (proj2 (Z.ltb_ge _ _)); [|replace (S i) with k by lia; lia].
    exists it1. split; [done|]. by replace (k - 1)%nat with i by lia.
  - destruct (decide (S i = k)) as [<-|Hne].
    + rewrite Z.ltb_irrefl. exists it1. split; [done|]. by replace (S i - 1)%nat with i by lia.
    + rewrite (proj2 (Z.ltb_lt _ _)); [apply (IH it1 (S i)); [done|lia|lia]|].
      apply Nat2Z.inj_lt, off_lt; lia.
Qed.

Lemma entries_fit : (n ≤ length contents)%nat.
Proof. rewrite length_contents. pose proof (off_mono ents 0 n ltac:(lia)). lia. Qed.

Lemma SeekToLast_at it : base it → ∃ it', SeekToLast it = Some it' ∧ at_entry it' (n - 1).
Proof.
  intros Hb. unfold SeekToLast. destruct (lay_restarts _ _ HL) as [H0 Hrs].
  pose proof (lookup_lt_Some _ _ _ H0) as Hlen.
  destruct (lookup_lt_is_Some_2 rs (length rs - 1) ltac:(lia)) as [r Hr].
  destruct (SeekToRestartPoint_ready it _ r Hb Hr) as (it1 & E & Hr1).
  rewrite (base_num _ Hb). replace (Z.of_nat (length rs) - 1) with (Z.of_nat (length rs - 1)) by lia.
  rewrite E. simpl_bind. pose proof Hr1 as (Hb1 & Hrn & _).
  rewrite (base_restarts _ Hb1), (base_data _ Hb1).
  destruct (decide (r < n)%nat) as [Hlt|Hge].
  - pose proof entries_fit. apply (parse_until_run n _ it1 r Hr1); lia.
  - destruct (ParseNextKey_ready it1 r Hr1) as (it2 & Ep & Ha).
    rewrite bool_decide_eq_false_2 in Ep by done. exists it2.
    destruct (Hrs _ r Hr) as (_ & Hpos & _).
    replace (length rs - 1)%nat with 0%nat in Hr by lia. assert (r = 0%nat) as -> by congruence.
    replace (n - 1)%nat with 0%nat by lia.
    destruct (length contents); cbn [parse_until]; by rewrite Ep.
Qed.

(** Scanning back to a restart point before entry [i]. *)
Lemma prev_restart_run it i fuel : ∀ k,
  base it → (i ≤ n)%nat → 0 ≤ k < Z.of_nat (length rs) → k ≤ Z.of_nat fuel →
  ∃ o, prev_restart fuel it (Z.of_nat (off i)) k = Some o ∧
    match o with
    | None => i = 0%nat
    | Some k' => 0 ≤ k' < Z.of_nat (length rs) ∧
        ∀ r, rs !! Z.to_nat k' = Some r → (r < i)%nat
    end.
Proof.
  assert (Hstop : ∀ k r, rs !! Z.to_nat k = Some r → (i ≤ n)%nat →
    Z.of_nat (off i) ≤ Z.of_nat (off r) ∨ (r < i)%nat).
  { intros k r Hr Hi. destruct (lay_restarts _ _ HL) as [_ Hrs]. destruct (Hrs _ r Hr) as (Hrn & _).
    pose proof (off_lt ents r i Hrn Hi). lia. }
  induction fuel as [|fuel IH]; intros k Hb Hi Hk Hf; cbn [prev_restart];
    destruct (restart_lookup k Hk) as [r Hr]; pose proof (GetRestartPoint_at it _ r Hb Hr) as Hg;
    rewrite Z2Nat.id in Hg by lia; rewrite Hg; simpl_bind.
  all: destruct (Z.leb_spec (Z.of_nat (off i)) (Z.of_nat (off r))) as [Hle|Hgt].
  2,4: exists (Some k); split; [done|]; split; [done|]; intros r' Hr'; rewrite Hr in Hr';
    injection Hr' as <-; destruct (Hstop k r Hr Hi); lia.
  - replace k with 0 in * by lia. cbn. eexists. split; [done|]. cbn.
    destruct (lay_restarts _ _ HL) as [H0 _]. change (Z.to_nat 0) with 0%nat in Hr.
    rewrite Hr in H0. injection H0 as ->. pose proof (off_mono ents 0 i ltac:(lia)).
    rewrite off_0 in *. lia.
  - destruct (Z.eqb_spec k 0) as [->|Hne]; [|apply IH; (done || lia)].
    eexists. split; [done|]. cbn. destruct (lay_restarts _ _ HL) as [H0 _].
    change (Z.to_nat 0) with 0%nat in Hr. rewrite Hr in H0. injection H0 as ->.
    pose proof (off_mono ents 0 i ltac:(lia)). rewrite off_0 in *. lia.
Qed.

Lemma Prev_at it i :
  (i < n)%nat → at_entry it i →
  ∃ it', Prev it = Some it' ∧ at_entry it' (match i with O => n | S j => j end).
Proof.
  intros Hi Ha. unfold Prev, Valid. pose proof Ha as (Hb & _ & Hc & He).
  rewrite Hc, (base_restarts _ Hb). pose proof (off_mono ents i n ltac:(lia)).
  rewrite (proj2 (Z.ltb_lt _ _)) by lia.
  destruct (lookup_lt_is_Some_2 ents i Hi) as [e Hei]. destruct (He e Hei) as (_ & _ & Hk).
  rewrite (base_num _ Hb).
  destruct (prev_restart_run it i (Z.to_nat (Z.of_nat (length rs))) (restart_index_ it) Hb
    ltac:(lia) Hk ltac:(lia)) as (o & -> & Ho). simpl_bind. destruct o as [k|].
  - destruct Ho as [Hk' Hr]. destruct (restart_lookup k Hk') as [r Hrk]. specialize (Hr r Hrk).
    destruct (SeekToRestartPoint_ready it _ r Hb Hrk) as (it1 & E & Hr1).
    rewrite Z2Nat.id in E by lia. rewrite E. simpl_bind. pose proof Hr1 as (Hb1 & _).
    rewrite (base_data _ Hb1). pose proof entries_fit.
    destruct (parse_until_run i (length contents) it1 r Hr1) as (it' & -> & Ha'); [lia|lia|].
    exists it'. split; [done|]. destruct i; [lia|]. by replace i with (S i - 1)%nat by lia.
  - subst i. eexists. split; [done|]. destruct Hb as [Hd Hr Hn Hs].
    split; [by split|]. split; [lia|]. split; [done|]. intros e' He'. apply lookup_lt_Some in He'. lia.
Qed.

(** ** Seeking *)

Abbreviation keys := (e_key <$> ents).

Lemma sorted_before i j a b :
  (i < j)%nat → ents !! i = Some a → ents !! j = Some b → Compare (e_key a) (e_key b) < 0.
Proof.
  intros Hij Ha Hb. pose proof (lay_sorted _ _ HL) as Hs.
  rewrite <-(take_drop_middle ents i a Ha) in Hs.
  apply StronglySorted_app in Hs as (_ & _ & Hs2). apply StronglySorted_cons in Hs2 as [Hf _].
  rewrite Forall_forall in Hf. apply Hf, list_elem_of_lookup. exists (j - S i)%nat.
  rewrite lookup_drop. by replace (S i + (j - S i))%nat with j by lia.
Qed.

(** The binary search ends at a restart point that is the first one or has a
    key before the target. *)
Lemma seek_restart_run it target fuel : ∀ l r,
  base it → 0 ≤ l ≤ r → r < Z.of_nat (length rs) → r - l ≤ Z.of_nat fuel →
  (l = 0 ∨ ∀ x e, rs !! Z.to_nat l = Some x → ents !! x = Some e → Compare (e_key e) target < 0) →
  ∃ k, seek_restart fuel it target l r = Some (Some k) ∧ 0 ≤ k < Z.of_nat (length rs) ∧
    (k = 0 ∨ ∀ x e, rs !! Z.to_nat k = Some x → ents !! x = Some e → Compare (e_key e) target < 0).
Proof.
  induction fuel as [|fuel IH]; intros l r Hb Hl Hr Hf Hbefore; cbn [seek_restart];
    destruct (Z.ltb_spec l r) as [Hlr|Hlr];
    try (exists l; split; [done|]; split; [lia|done]); [lia|].
  assert (Hw : Z.of_nat (length rs) < 2 ^ 30).
  { pose proof (lay_size _ _ HL) as Hs. rewrite length_contents in Hs.
    change (2 ^ 32) with (4 * 2 ^ 30) in Hs. lia. }
  change (2 ^ 30) with 1073741824 in Hw.
  assert (Hwr : u32 (l + r + 1) = l + r + 1) by (apply wrap_small; split; [lia|]; change (2 ^ 32) with 4294967296; lia).
  rewrite Hwr. set (m := (l + r + 1) / 2).
  assert (Hm : l < m ≤ r) by (unfold m; pose proof (Z.div_mod (l + r + 1) 2); pose proof (Z.mod_pos_bound (l + r + 1) 2); lia).
  destruct (restart_lookup m ltac:(lia)) as [x Hx].
  pose proof (GetRestartPoint_at it _ x Hb Hx) as Hg. rewrite Z2Nat.id in Hg by lia.
  rewrite Hg. simpl_bind. destruct (lay_restarts _ _ HL) as [_ Hrs].
  destruct (Hrs _ x Hx) as (_ & Hxn & Hs). specialize (Hxn ltac:(lia)).
  destruct (lookup_lt_is_Some_2 ents x Hxn) as [e He]. specialize (Hs e He).
  rewrite (base_restarts _ Hb), (base_data _ Hb). pose proof (off_mono ents x n ltac:(lia)).
  replace (Z.to_nat (Z.of_nat (off n) - Z.of_nat (off x))) with (off n - off x)%nat by lia.
  rewrite Nat2Z.id, (decode_at x e He), Hs, drop_0, Nat.sub_0_r. cbn [Z.of_nat Z.eqb negb].
  rewrite (proj2 (Z.ltb_ge _ _)) by (rewrite length_app; lia).
  rewrite Nat2Z.id, take_app_length. destruct (Z.ltb_spec (Compare (e_key e) target) 0).
  - apply IH; [done|lia|done|lia|]. right. intros x' e' Hx' He'. congruence.
  - apply IH; (done || lia).
Qed.

Lemma seek_scan_run target fuel : ∀ it i,
  ready it i → (n - i ≤ fuel)%nat →
  (∀ j e, (j < i)%nat → ents !! j = Some e → Compare (e_key e) target < 0) →
  ∃ it', seek_scan fuel it target = Some it' ∧ at_entry it' (seek_index keys target).
Proof.
  assert (Hkeys : ∀ i, (∀ j e, (j < i)%nat → ents !! j = Some e → Compare (e_key e) target < 0) →
    ∀ j k, (j < i)%nat → keys !! j = Some k → Compare k target < 0).
  { intros i Hi j k Hj. rewrite list_lookup_fmap. intros (e & He & ->)%fmap_Some. by apply (Hi j). }
  induction fuel as [|fuel IH]; intros it i Hr Hf Hlt; cbn [seek_scan];
    destruct (ParseNextKey_ready it i Hr) as (it1 & -> & Ha); simpl_bind; pose proof Ha as (Hb & Hin & Hc & Hx).
  - rewrite bool_decide_eq_false_2 by lia. exists it1. split; [done|].
    rewrite (seek_index_unique keys target i); [done|rewrite length_fmap; lia|by apply Hkeys|].
    intros k Hk. apply lookup_lt_Some in Hk. rewrite length_fmap in Hk. lia.
  - case_bool_decide as Hi.
    + destruct (lookup_lt_is_Some_2 ents i Hi) as [e He]. destruct (Hx e He) as (-> & _).
      destruct (Z.leb_spec 0 (Compare (e_key e) target)).
      * exists it1. split; [done|].
        rewrite (seek_index_unique keys target i); [done|rewrite length_fmap; lia|by apply Hkeys|].
        intros k. rewrite list_lookup_fmap, He. by intros [= <-].
      * apply (IH it1 (S i)); [by apply at_entry_ready|lia|]. intros j e' Hj He'.
        destruct (decide (j = i)) as [->|]; [congruence|]. apply (Hlt j); [lia|done].
    + exists it1. split; [done|].
      rewrite (seek_index_unique keys target i); [done|rewrite length_fmap; lia|by apply Hkeys|].
      intros k Hk. apply lookup_lt_Some in Hk. rewrite length_fmap in Hk. lia.
Qed.

Lemma Seek_at it target :
  base it → ∃ it', Seek it target = Some it' ∧ at_entry it' (seek_index keys target).
Proof.
  intros Hb. unfold Seek. destruct (lay_restarts _ _ HL) as [H0 Hrs].
  pose proof (lookup_lt_Some _ _ _ H0) as Hlen. rewrite (base_num _ Hb).
  destruct (seek_restart_run it target (Z.to_nat (Z.of_nat (length rs))) 0 (Z.of_nat (length rs) - 1))
    as (k & -> & Hk & Hbefore); [done|lia|lia|lia|by left|]. simpl_bind.
  destruct (restart_lookup k Hk) as [r Hr].
  destruct (SeekToRestartPoint_ready it _ r Hb Hr) as (it1 & E & Hr1).
  rewrite Z2Nat.id in E by lia. rewrite E. simpl_bind. pose proof Hr1 as (Hb1 & _).
  rewrite (base_data _ Hb1). pose proof entries_fit.
  apply (seek_scan_run target _ it1 r); [done|lia|]. intros j e Hj He.
  destruct Hbefore as [->|Hbefore].
  { change (Z.to_nat 0) with 0%nat in Hr. assert (r = 0%nat) as -> by congruence. lia. }
  destruct (Hrs _ r Hr) as (Hrn & Hpos & _).
  assert (Hrlt : (r < n)%nat).
  { destruct (decide (k = 0)) as [->|]; [|apply Hpos; lia].
    change (Z.to_nat 0) with 0%nat in Hr. assert (r = 0%nat) as -> by congruence. lia. }
  destruct (lookup_lt_is_Some_2 ents r Hrlt) as [e' He'].
  apply (Compare_lt_le_trans _ (e_key e')); [by apply (sorted_before j r)|].
  specialize (Hbefore r e' Hr He'). lia.
Qed.
End iter.
End block.

(** What the builder of data blocks (Block.v) makes: a block with the layout
    of BlockSpec.v and exactly the entries it was given. *)

(** The bytes of the keys and values, with [c] more for each entry. *)
Fixpoint weight (c : nat) (es : list (list Z * list Z)) : nat :=
  match es with
  | [] => 0
  | e :: es => length e.1 + length e.2 + c + weight c es
  end.

Lemma weight_app c es es' : weight c (es ++ es') = (weight c es + weight c es')%nat.
Proof. induction es as [|e es IH]; [done|]. cbn. rewrite IH. lia. Qed.

Lemma weight_mono c c' es : (c ≤ c')%nat → (weight c es ≤ weight c' es)%nat.
Proof. intros Hc. induction es as [|e es IH]; [done|]. cbn. lia. Qed.

Lemma weight_add c d es : weight (c + d) es = (weight c es + d * length es)%nat.
Proof. induction es as [|e es IH]; cbn [weight length]; lia. Qed.

Lemma weight_length c es : (c * length es ≤ weight c es)%nat.
Proof. induction es as [|e es IH]; cbn; lia. Qed.

Lemma length_enc_entry_le e : (length (enc_entry e) ≤ 15 + length (e_key e) + length (e_value e))%nat.
Proof.
  unfold enc_entry. rewrite !length_app, length_drop.
  assert (Hv : ∀ v, (length (EncodeVarint32 v) ≤ 5)%nat).
  { intros v. unfold EncodeVarint32. repeat case_match; cbn; lia. }
  pose proof (Hv (Z.of_nat (e_shared e))). pose proof (Hv (Z.of_nat (length (e_key e) - e_shared e))).
  pose proof (Hv (Z.of_nat (length (e_value e)))). lia.
Qed.

(** Building a block from its entries. *)
Section build.
Context `{P : Port} {C : Comparator} (block_restart_interval : Z).

Fixpoint add_all (b : BlockBuilder) (es : list (list Z * list Z)) : option BlockBuilder :=
  match es with
  | [] => Some b
  | (key, value) :: es => b ← bb_Add block_restart_interval b key value; add_all b es
  end.

Definition build_block (es : list (list Z * list Z)) : option (list Z) :=
  b ← NewBlockBuilder block_restart_interval; b ← add_all b es; Some (bb_Finish b).2.
End build.

Section spec.
Context `{P : Port} {C : Comparator} {HC : ComparatorLaws C} (interval : Z) (Hint : 1 ≤ interval).

Record bb_inv (b : BlockBuilder) (ents : list bentry) (rs : list nat) : Prop := {
  bb_buffer : buffer_ b = body ents;
  bb_words : bb_restarts_ b = wrap 32 <$> restart_words ents rs;
  bb_counter : counter_ b ≤ interval;
  bb_open : finished_ b = false;
  bb_last : last_key_ b = default [] (e_key <$> last ents);
  bb_entries : Forall entry_ok ents;
  bb_shares : shares ents;
  bb_points : restarts_ok ents rs;
  bb_sorted : StronglySorted (λ a b, Compare (e_key a) (e_key b) < 0) ents;
  bb_count : (length rs ≤ length ents + 1)%nat
}.

Lemma body_app l1 l2 : body (l1 ++ l2) = body l1 ++ body l2.
Proof. unfold body. by rewrite fmap_app, concat_app. Qed.

Lemma off_snoc ents e r : (r ≤ length ents)%nat → off (ents ++ [e]) r = off ents r.
Proof. intros Hr. unfold off. by rewrite take_app_le by done. Qed.

Lemma restart_words_snoc ents e rs :
  Forall (λ r, r ≤ length ents)%nat rs → restart_words (ents ++ [e]) rs = restart_words ents rs.
Proof.
  intros Hr. apply list_fmap_ext. intros j r Hj. by rewrite off_snoc by (by eapply (Forall_lookup_1 _ _ _ _ Hr Hj)).
Qed.

Lemma restarts_le ents rs : restarts_ok ents rs → Forall (λ r, r ≤ length ents)%nat rs.
Proof. intros [_ H]. apply Forall_lookup. intros j r Hj. by apply (H j r). Qed.

(** The prefix of the last key that the new key shares. *)
Lemma shares_snoc ents e :
  shares ents →
  (∀ p, last ents = Some p →
    (e_shared e ≤ length (e_key p))%nat ∧ take (e_shared e) (e_key p) = take (e_shared e) (e_key e)) →
  shares (ents ++ [e]).
Proof.
  intros Hs Hl i a b Ha Hb. pose proof (lookup_lt_Some _ _ _ Hb) as Hi.
  rewrite length_app in Hi. cbn in Hi. rewrite lookup_app_l in Ha by lia.
  destruct (decide (S i < length ents)%nat).
  - rewrite lookup_app_l in Hb by done. by apply (Hs i).
  - rewrite lookup_app_r in Hb by lia. replace (S i - length ents)%nat with 0%nat in Hb by lia.
    injection Hb as <-. apply Hl. rewrite last_lookup. by replace (Nat.pred (length ents)) with i by lia.
Qed.

(** The old restart points, and perhaps one at the new entry. *)
Lemma restarts_ok_snoc ents e rs extra :
  restarts_ok ents rs → (ents = [] → e_shared e = 0%nat) →
  extra = [] ∨ (extra = [length ents] ∧ e_shared e = 0%nat) →
  restarts_ok (ents ++ [e]) (rs ++ extra).
Proof.
  intros [H0 Hr] Hempty Hx. split; [by apply lookup_app_l_Some|]. intros j r Hj.
  rewrite length_app. cbn [length]. apply lookup_app_Some in Hj as [Hj|[Hlen Hj]].
  - destruct (Hr j r Hj) as (H1 & H2 & H3). split; [lia|]. split; [lia|]. intros e' He'.
    destruct (decide (r < length ents)%nat); [rewrite lookup_app_l in He' by done; by apply H3|].
    replace r with (length ents) in * by lia. rewrite list_lookup_middle in He' by done.
    injection He' as <-. apply Hempty. destruct (decide (j = 0%nat)) as [->|]; [|lia].
    assert (length ents = 0%nat) by congruence. by apply nil_length_inv.
  - destruct Hx as [->|[-> Hs]]; [done|]. destruct (j - length rs)%nat; [|done].
    injection Hj as <-. split; [lia|]. split; [lia|]. intros e' He'.
    rewrite list_lookup_middle in He' by done. by injection He' as <-.
Qed.

Lemma sorted_snoc ents e :
  StronglySorted (λ a b, Compare (e_key a) (e_key b) < 0) ents →
  (∀ p, last ents = Some p → Compare (e_key p) (e_key e) < 0) →
  StronglySorted (λ a b, Compare (e_key a) (e_key b) < 0) (ents ++ [e]).
Proof.
  intros Hs Hl. apply StronglySorted_app. split; [|split; [done|repeat constructor]].
  intros a b Ha Hb. apply list_elem_of_singleton in Hb as ->.
  destruct (last ents) as [p|] eqn:Ep; [|apply last_None in Ep as ->; by apply not_elem_of_nil in Ha].
  specialize (Hl p eq_refl). apply last_Some in Ep as [l ->].
  apply elem_of_app in Ha as [Ha|Ha%list_elem_of_singleton]; [|by subst].
  apply StronglySorted_app in Hs as (Hs & _). apply (Compare_lt_le_trans _ (e_key p)); [|lia].
  apply Hs; [done|by left].
Qed.

(** How much of the last key a new entry shares. *)
Lemma shared_prefix_run (last_key key : list Z) :
  ∃ s, shared_prefix last_key key (length last_key `min` length key) = Some s ∧
    (s ≤ length last_key)%nat ∧ (s ≤ length key)%nat ∧ take s last_key = take s key.
Proof.
  destruct (diff_index_spec last_key key (length last_key `min` length key)) as (s & E & Hs & Ht & _);
    [lia|lia|]. exists s. split; [exact E|]. split; [lia|]. split; [lia|done].
Qed.

Lemma bb_Add_inv b ents rs key value :
  bb_inv b ents rs → str_ok key → str_ok value →
  (∀ p, last ents = Some p → Compare (e_key p) key < 0) →
  ∃ b' e rs', bb_Add interval b key value = Some b' ∧ e_key e = key ∧ e_value e = value ∧
    bb_inv b' (ents ++ [e]) rs'.
Proof.
  intros [Hbuf Hw Hc Hopen Hlast Hents Hsh Hrs Hs Hcnt] Hk Hv Hlt. unfold bb_Add.
  rewrite Hopen, (proj2 (Z.leb_le _ _) Hc). cbn [negb].
  assert (Hassert : bb_empty b || (0 <? Compare key (last_key_ b)) = true).
  { rewrite Hlast. destruct (last ents) as [p|] eqn:Ep; cbn.
    - specialize (Hlt p eq_refl). apply orb_true_iff. right.
      apply Z.ltb_lt. apply Compare_lt_anti in Hlt. lia.
    - apply last_None in Ep as ->. unfold bb_empty. by rewrite Hbuf. }
  rewrite Hassert. cbn [negb].
  assert (Hshare : ∃ s extra counter,
    (if counter_ b <? interval then
       shared ← shared_prefix (last_key_ b) key (length (last_key_ b) `min` length key);
       Some (shared, bb_restarts_ b, counter_ b)
     else Some (0%nat, bb_restarts_ b ++ [u32 (Z.of_nat (length (buffer_ b)))], 0))
    = Some (s, wrap 32 <$> restart_words ents (rs ++ extra), counter) ∧
    (s ≤ length (last_key_ b))%nat ∧ (s ≤ length key)%nat ∧ take s (last_key_ b) = take s key ∧
    counter + 1 ≤ interval ∧ (extra = [] ∨ extra = [length ents] ∧ s = 0%nat)).
  { destruct (Z.ltb_spec (counter_ b) interval).
    - destruct (shared_prefix_run (last_key_ b) key) as (s & -> & H1 & H2 & H3). simpl_bind.
      exists s, [], (counter_ b). rewrite app_nil_r, Hw. repeat split; try done; [lia|by left].
    - exists 0%nat, [length ents], 0. split; [|repeat split; (done || lia || by right)].
      unfold restart_words. rewrite !fmap_app. cbn. unfold off at 2. rewrite firstn_all, Hbuf.
      unfold restart_words in Hw. by rewrite Hw. }
  destruct Hshare as (s & extra & counter & -> & Hs1 & Hs2 & Hs3 & Hc' & Hx). simpl_bind.
  pose proof Hk as [Hkb Hkl]. pose proof Hv as [Hvb Hvl]. unfold in_width in Hkl.
  assert (Hdrop : take (length key - s) (drop s key) = drop s key)
    by (apply take_ge; rewrite length_drop; lia).
  rewrite Hdrop, Hs3, take_drop, slice_eqb_spec, bool_decide_eq_true_2 by done. cbn [negb].
  set (e := mkEntry s key value). eexists _, e, (rs ++ extra). split; [done|]. split; [done|].
  split; [done|]. split; cbn [buffer_ bb_restarts_ counter_ finished_ last_key_].
  - rewrite body_app, Hbuf. unfold PutVarint32, body at 2. cbn. rewrite app_nil_r.
    rewrite !wrap_small by (unfold in_width in *; lia). unfold enc_entry, e. cbn. by rewrite <-!app_assoc.
  - rewrite restart_words_snoc; [done|]. apply Forall_app. split; [by apply restarts_le|].
    destruct Hx as [->|[-> _]]; [constructor|]. by apply Forall_singleton.
  - done.
  - done.
  - by rewrite last_snoc.
  - apply Forall_app. split; [done|]. apply Forall_singleton. by split; [|split].
  - apply shares_snoc; [done|]. intros p Hp. rewrite Hlast, Hp in Hs1, Hs3. by split.
  - apply restarts_ok_snoc; [done| |by destruct Hx; [left|right]].
    intros ->. rewrite Hlast in Hs1. cbn in Hs1. unfold e. cbn. lia.
  - by apply sorted_snoc.
  - rewrite !length_app. destruct Hx as [->|[-> _]]; cbn [length]; lia.
Qed.

Lemma NewBlockBuilder_inv :
  ∃ b, NewBlockBuilder interval = Some b ∧ bb_inv b [] [0%nat].
Proof.
  unfold NewBlockBuilder. rewrite (proj2 (Z.leb_le _ _) Hint). eexists. split; [done|].
  split; try done; try (by constructor); [cbn; lia|].
  split; [done|]. intros j r Hj. destruct j; [|done]. injection Hj as <-. split; [lia|].
  split; [lia|done].
Qed.

Definition entry_pair (e : bentry) : list Z * list Z := (e_key e, e_value e).

Definition keys_sorted (es : list (list Z * list Z)) : Prop :=
  StronglySorted (λ a b, Compare a.1 b.1 < 0) es.

Lemma add_all_inv es : ∀ b ents rs,
  bb_inv b ents rs → Forall (λ e, str_ok e.1 ∧ str_ok e.2) es →
  keys_sorted ((entry_pair <$> ents) ++ es) →
  ∃ b' ents' rs', add_all interval b es = Some b' ∧ bb_inv b' ents' rs' ∧
    entry_pair <$> ents' = (entry_pair <$> ents) ++ es.
Proof.
  induction es as [|[key value] es IH]; intros b ents rs Hi Hok Hsort; cbn [add_all].
  { exists b, ents, rs. by rewrite app_nil_r. }
  apply Forall_cons in Hok as [[Hk Hv] Hok].
  destruct (bb_Add_inv b ents rs key value Hi Hk Hv) as (b1 & e & rs1 & -> & Ek & Ev & Hi1).
  { intros p Hp. apply StronglySorted_app in Hsort as (Hs & _).
    apply (Hs (entry_pair p) (key, value)); [|by left]. apply list_elem_of_fmap. exists p.
    split; [done|]. by apply last_Some_elem_of. }
  simpl_bind. assert (Ee : entry_pair e = (key, value)) by (unfold entry_pair; by rewrite Ek, Ev).
  destruct (IH b1 (ents ++ [e]) rs1 Hi1 Hok) as (b' & ents' & rs' & E & Hi' & He).
  { rewrite fmap_app. cbn [fmap list_fmap]. rewrite Ee, <-app_assoc. done. }
  exists b', ents', rs'. split; [done|]. split; [done|].
  rewrite He, fmap_app. cbn [fmap list_fmap]. by rewrite Ee, <-app_assoc.
Qed.

(** A finished block has the layout of its entries. *)
Lemma bb_Finish_layout b ents rs :
  bb_inv b ents rs → Z.of_nat (length (bb_Finish b).2) < 2 ^ 32 →
  (bb_Finish b).2 = block_contents ents rs ∧ layout ents rs.
Proof.
  intros [Hbuf Hw Hc Hopen Hlast Hents Hsh Hrs Hs _] Hlen.
  assert (E : (bb_Finish b).2 = block_contents ents rs); [|split; [done|by split; [..|rewrite <-E]]].
  revert Hlen. unfold bb_Finish, block_contents. cbn [snd]. rewrite foldl_PutFixed32, Hw, Hbuf.
  unfold PutFixed32. rewrite !length_app, !length_words, !length_fmap. intros Hlen.
  rewrite <-app_assoc. f_equal. unfold words. rewrite bind_app. cbn [mbind list_bind].
  rewrite app_nil_r. unfold restart_words in *. rewrite length_fmap in *. f_equal.
  - f_equal. rewrite <-list_fmap_compose. apply list_fmap_ext. intros j r Hj. cbn.
    apply wrap_small. split; [lia|]. destruct Hrs as [_ Hrs]. destruct (Hrs j r Hj) as (Hr & _).
    pose proof (off_mono ents r (length ents) ltac:(lia)) as Hm. unfold off at 2 in Hm.
    rewrite firstn_all in Hm. lia.
  - rewrite wrap_small; [done|]. split; lia.
Qed.

Lemma build_block_layout es :
  Forall (λ e, str_ok e.1 ∧ str_ok e.2) es → keys_sorted es →
  ∃ contents, build_block interval es = Some contents ∧
    (Z.of_nat (length contents) < 2 ^ 32 →
     ∃ ents rs, entry_pair <$> ents = es ∧ contents = block_contents ents rs ∧ layout ents rs).
Proof.
  intros Hok Hsort. unfold build_block.
  destruct NewBlockBuilder_inv as (b0 & -> & Hi0). simpl_bind.
  destruct (add_all_inv es b0 [] _ Hi0 Hok Hsort) as (b & ents & rs & -> & Hi & He). simpl_bind.
  eexists. split; [done|]. intros Hlen. exists ents, rs. split; [done|]. by apply bb_Finish_layout.
Qed.

(** How long a finished block can be. *)
Lemma bb_Finish_length b ents rs :
  bb_inv b ents rs → (length (bb_Finish b).2 ≤ weight 19 (entry_pair <$> ents) + 8)%nat.
Proof.
  intros [Hbuf Hw _ _ _ _ _ _ _ Hcnt]. unfold bb_Finish. cbn [snd].
  rewrite foldl_PutFixed32, Hw, Hbuf. unfold PutFixed32.
  rewrite !length_app, length_words, EncodeFixed32_le, length_le_bytes, length_fmap.
  unfold restart_words. rewrite length_fmap.
  assert (Hbody : (length (body ents) + 4 * length ents ≤ weight 19 (entry_pair <$> ents))%nat); [|lia].
  clear. unfold body. induction ents as [|e ents IH]; [done|].
  change (concat (enc_entry <$> e :: ents)) with (enc_entry e ++ concat (enc_entry <$> ents)).
  change (weight 19 (entry_pair <$> e :: ents))
    with (length (e_key e) + length (e_value e) + 19 + weight 19 (entry_pair <$> ents))%nat.
  rewrite length_app. cbn [length]. pose proof (length_enc_entry_le e). lia.
Qed.
End spec.
