(* ===== verification/BlockTheorems.v ===== *)
(** Data blocks as a whole: the builder and the iterator of Block.v refine a
    cursor over the sorted list of entries. *)

From Stdlib Require Import ZArith Lia.
From stdpp Require Import base option numbers list strings sorting.
From S2P Require Import Prelude Coding Slice Iterator WriteBatch Block BlockSpec Merger.

(** ** Cursors *)

Section block.
Context `{P : Port} {C : Comparator} {HC : ComparatorLaws C}.
Context (ents : list bentry) (rs : list nat) (HL : layout ents rs).
Abbreviation es := (entry_pair <$> ents).
Abbreviation at_entry := (at_entry ents rs).

Lemma keys_es : es.*1 = e_key <$> ents.
Proof. by rewrite <-list_fmap_compose. Qed.

Lemma iter_apply_at (it : Iter) i o j :
  at_entry it i → cursor_op es i o = Some j → ∃ it', i_apply it o = Some it' ∧ at_entry it' j.
Proof.
  intros Ha. pose proof Ha as (Hb & _). destruct o as [| |target| |]; cbn [cursor_op i_apply];
    rewrite ?length_fmap, ?keys_es.
  - intros [= <-]. by apply SeekToFirst_at.
  - intros [= <-]. by apply SeekToLast_at.
  - intros [= <-]. by apply Seek_at.
  - destruct (Nat.ltb_spec i (length ents)); [|done]. intros [= <-]. by apply Next_at.
  - destruct (Nat.ltb_spec i (length ents)); [|done]. intros [= <-]. by apply Prev_at.
Qed.

Lemma iter_entry_at it i :
  at_entry it i → (i ≤ length es)%nat ∧ Valid it = (i <? length es)%nat ∧
  (∀ k v, es !! i = Some (k, v) → iter_key it = Some k ∧ iter_value it = Some v) ∧ iter_status it = OK.
Proof.
  intros ([Hd Hr Hn Hs] & Hi & Hc & He). rewrite length_fmap.
  assert (Hv : Valid it = (i <? length ents)%nat).
  { unfold Valid. rewrite Hc, Hr. apply Bool.eq_iff_eq_true. rewrite Z.ltb_lt, Nat.ltb_lt, <-Nat2Z.inj_lt.
    by apply off_lt. }
  split; [done|]. split; [done|]. split; [|done]. intros k v. rewrite list_lookup_fmap.
  destruct (ents !! i) as [e|] eqn:Hei; [|done]. intros [= <- <-].
  destruct (He e eq_refl) as (Hk & Hval & _). pose proof (lookup_lt_Some _ _ _ Hei) as Hlt.
  unfold iter_key, iter_value. rewrite Hv, (proj2 (Nat.ltb_lt _ _) Hlt), Hk, Hval, Hd. simpl_bind.
  pose proof (value_end ents i e Hei) as Hve.
  pose proof (off_mono ents (S i) (length ents) ltac:(lia)) as Hm.
  rewrite (proj2 (Z.leb_le _ _)) by (rewrite length_contents; lia). simpl_bind.
  by rewrite !Nat2Z.id, (entry_value_bytes ents rs i e Hei).
Qed.

Lemma NewBlock_contents :
  ∃ blk it, NewBlock (block_contents ents rs) = Some blk ∧ NewIterator blk = Some (inr it) ∧
    at_entry it (length ents).
Proof.
  pose proof (lay_size _ _ HL) as Hsz. pose proof (length_contents ents rs) as Hlen.
  destruct (lay_restarts _ _ HL) as [H0 _]. pose proof (lookup_lt_Some _ _ _ H0) as Hpos.
  assert (Hnum : NumRestarts (block_contents ents rs) (Z.of_nat (length (block_contents ents rs)))
    = Some (Z.of_nat (length rs))).
  { unfold NumRestarts. rewrite (proj2 (Z.leb_le _ _)) by lia.
    replace (Z.to_nat _) with (off ents (length ents) + 4 * length rs)%nat by lia.
    rewrite <-drop_drop. unfold block_contents, off at 1. rewrite firstn_all, drop_app_length.
    rewrite <-(app_nil_r (words _)). apply words_lookup; [|split; lia|constructor].
    rewrite lookup_app_r; unfold restart_words; rewrite length_fmap; [by rewrite Nat.sub_diag|lia]. }
  unfold NewBlock. rewrite (proj2 (Z.ltb_ge _ _)) by lia. rewrite Hnum. simpl_bind.
  rewrite (proj2 (Z.ltb_ge _ _)) by (apply Z.div_le_lower_bound; lia).
  eexists. eexists. split; [done|]. unfold NewIterator. cbn [size_ block_data_ restart_offset_].
  rewrite (proj2 (Z.ltb_ge _ _)) by lia. rewrite Hnum. simpl_bind.
  rewrite (proj2 (Z.eqb_neq _ _)) by lia. unfold NewIter. rewrite (proj2 (Z.ltb_lt _ _)) by lia.
  simpl_bind. split; [done|].
  rewrite (wrap_small 32 (Z.of_nat _)) by (split; lia).
  replace (Z.of_nat (length (block_contents ents rs)) - (1 + Z.of_nat (length rs)) * 4)
    with (Z.of_nat (off ents (length ents))) by lia.
  rewrite wrap_small by (split; [lia|by apply (off_end ents rs HL)]).
  split; [by split|]. split; [done|]. split; [done|]. intros e He. apply lookup_lt_Some in He. lia.
Qed.
End block.

(** An iterator over a block behaves like a cursor over its entries. *)
#[export] Instance block_iterator_laws `{P : Port} {C : Comparator} {HC : ComparatorLaws C} :
  IteratorLaws Iter.
Proof.
  exists (λ it es i, ∃ ents rs, layout ents rs ∧ entry_pair <$> ents = es ∧ at_entry ents rs it i).
  - intros it es i o j (ents & rs & HL & <- & Ha) E.
    destruct (iter_apply_at ents rs HL it i o j Ha E) as (it' & Hit & Ha'). exists it'.
    split; [done|]. by exists ents, rs.
  - intros it es i (ents & rs & HL & <- & Ha).
    destruct (iter_entry_at ents rs it i Ha) as (Hi & Hv & He & Hs). split_and!; [done..|]. cbn. by rewrite Hs.
Defined.

Lemma NewIterator_positioned `{P : Port} {C : Comparator} {HC : ComparatorLaws C} ents rs :
  layout ents rs →
  ∃ blk it, NewBlock (block_contents ents rs) = Some blk ∧ NewIterator blk = Some (inr it) ∧
    positioned it (entry_pair <$> ents) (length ents).
Proof.
  intros HL. destruct (NewBlock_contents ents rs HL) as (blk & it & Hb & Hit & Ha).
  exists blk, it. split; [done|]. split; [done|]. by exists ents, rs.
Qed.

(** ** The results *)

(** C29. A data block is a sorted list with a cursor: for any restart interval
    and any entries in the order of a lawful comparator, building the block
    succeeds; if it is under 4GB, opening it gives an iterator that, whatever
    sequence of [Seek], [SeekToFirst], [SeekToLast], [Next] and [Prev] is
    asked of it (the last two at an entry), stays inside the block, ends, has
    status OK, and shows the key and the value of the entry at which a cursor
    over the list of entries would be. *)
Theorem block_refines_cursor `{P : Port} {C : Comparator} {HC : ComparatorLaws C} interval es :
  1 ≤ interval → Forall (λ e, str_ok e.1 ∧ str_ok e.2) es → keys_sorted es →
  ∃ contents, build_block interval es = Some contents ∧
    (Z.of_nat (length contents) < 2 ^ 32 →
     ∃ blk it, NewBlock contents = Some blk ∧ NewIterator blk = Some (inr it) ∧
       ∀ ops i, run_ops (cursor_op es) (length es) ops = Some i →
         ∃ it', run_ops i_apply it ops = Some it' ∧ i_status it' = Some OK ∧
           i_entry it' = Some (es !! i)).
Proof.
  intros Hint Hok Hs. destruct (build_block_layout interval Hint es Hok Hs) as (contents & -> & Hl).
  exists contents. split; [done|]. intros Hlen. destruct (Hl Hlen) as (ents & rs & <- & -> & HL).
  destruct (NewIterator_positioned ents rs HL) as (blk & it & -> & Hit & Ha). exists blk, it.
  split; [done|]. split; [done|]. intros ops i Hops. rewrite length_fmap in Hops.
  destruct (positioned_ops ops it _ _ i Ha Hops) as (it' & -> & Ha'). exists it'.
  split; [done|]. by apply positioned_shows.
Qed.

#[local] Existing Instance BytewiseComparator.
#[local] Existing Instance posix_x86.

Lemma block_refines_cursor_witness :
  ∃ contents, build_block 2 [([1], [7]); ([1; 2], []); ([3], [8; 9])] = Some contents ∧
    (Z.of_nat (length contents) < 2 ^ 32 →
     ∃ blk it, NewBlock contents = Some blk ∧ NewIterator blk = Some (inr it) ∧
       ∀ ops i, run_ops (cursor_op [([1], [7]); ([1; 2], []); ([3], [8; 9])]) 3%nat ops = Some i →
         ∃ it', run_ops i_apply it ops = Some it' ∧ i_status it' = Some OK ∧
           i_entry it' = Some ([([1], [7]); ([1; 2], []); ([3], [8; 9])] !! i)).
Proof.
  apply (block_refines_cursor 2 [([1], [7]); ([1; 2], []); ([3], [8; 9])]).
  - done.
  - repeat first [apply Forall_cons; split | apply Forall_nil; done | split | done].
  - repeat first [apply SSorted_nil | apply SSorted_cons | apply Forall_nil | apply Forall_cons; split | done].
Defined.

(** Seeking a key in that block, and stepping back from it. *)
Lemma block_example :
  (contents ← build_block 2 [([1], [7]); ([1; 2], []); ([3], [8; 9])];
   blk ← NewBlock contents;
   r ← NewIterator blk;
   match r with
   | inr it => it ← run_ops i_apply it [OpSeek [2]; OpPrev]; i_entry it
   | inl _ => None
   end) = Some (Some ([1; 2], [])).
Proof. by vm_compute. Qed.

(** A block with a bad entry: the sum of its two lengths wraps around, the
    check against the end of the block passes, and the key is read far outside
    the block. *)
Lemma block_overflow_read :
  DecodeEntry [0; 255; 255; 255; 255; 15; 1] = Some (0, 4294967295, 1, []) ∧
  (blk ← NewBlock ([0; 255; 255; 255; 255; 15; 1] ++ words [0; 1]);
   r ← NewIterator blk;
   match r with inr it => SeekToFirst it | inl _ => None end) = None.
Proof. by vm_compute. Qed.

(** Merging iterators: a cursor over all entries of the children. *)

(** C17. Merging is sorting.  For any number of children that keep the contract
    of iterators, each over a sorted list and no two with the same key, the
    merging iterator is a cursor over the sorted list of all their entries:
    whatever sequence of [Seek], [SeekToFirst], [SeekToLast], [Next] and
    [Prev] is asked of it (the last two at an entry), changes of direction
    included, it has status OK and shows the entry at which such a cursor
    would be. *)
Theorem merging_refines_cursor {C : Comparator} {HC : ComparatorLaws C} `{Iterator T} `{!IteratorLaws T}
    (its : list T) (Ls : list (list (list Z * list Z))) (es : list (list Z * list Z)) :
  merge_of Ls es → Forall2 (λ it L, ∃ p, positioned it L p) its Ls →
  ∃ m p, NewMergingIterator its = Some m ∧
    ∀ ops i, run_ops (cursor_op es) p ops = Some i →
      ∃ m', run_ops i_apply m ops = Some m' ∧ i_status m' = Some OK ∧ i_entry m' = Some (es !! i).
Proof.
  intros Hm Hits. destruct (NewMergingIterator_positioned Ls es its Hm Hits) as (m & p & E & Hp).
  exists m, p. split; [done|]. intros ops i Hops.
  destruct (positioned_ops ops m es p i Hp Hops) as (m' & Er & Hp'). exists m'. split; [done|]. by apply positioned_shows.
Qed.

(** The iterator over a block with the entries. *)
Definition block_over `{P : Port} {C : Comparator} (es : list (list Z * list Z)) : option Iter :=
  contents ← build_block 2 es; blk ← NewBlock contents; it ← NewIterator blk;
  match it with inr it => Some it | inl _ => None end.

Lemma block_over_ok `{P : Port} {C : Comparator} {HC : ComparatorLaws C} es :
  Forall (λ e, str_ok e.1 ∧ str_ok e.2) es → keys_sorted es →
  match build_block 2 es with Some c => Z.of_nat (length c) <? 2 ^ 32 | None => false end = true →
  ∃ it, block_over es = Some it ∧ positioned it es (length es).
Proof.
  intros Hok Hs Hlen. unfold block_over.
  destruct (build_block_layout 2 ltac:(lia) es Hok Hs) as (c & E & Hl). rewrite E in *. apply Z.ltb_lt in Hlen.
  destruct (Hl Hlen) as (ents & rs & <- & -> & HL). simpl_bind.
  destruct (NewIterator_positioned ents rs HL) as (blk & it & -> & Hit & Hp). simpl_bind. rewrite Hit. simpl_bind.
  exists it. split; [done|]. by rewrite length_fmap.
Qed.

Section witness.
#[local] Existing Instance BytewiseComparator.
#[local] Existing Instance posix_x86.

Definition odd_entries : list (list Z * list Z) := [([1], [10]); ([3], [30]); ([5], [50])].
Definition even_entries : list (list Z * list Z) := [([2], [20]); ([4], [40])].
Definition both_entries : list (list Z * list Z) :=
  [([1], [10]); ([2], [20]); ([3], [30]); ([4], [40]); ([5], [50])].

(** Forward and back again over two blocks. *)
Lemma merging_refines_cursor_witness :
  ∃ it1 it2 m p, block_over odd_entries = Some it1 ∧ block_over even_entries = Some it2 ∧
    NewMergingIterator [it1; it2] = Some m ∧
    ∀ ops i, run_ops (cursor_op both_entries) p ops = Some i →
      ∃ m', run_ops i_apply m ops = Some m' ∧ i_status m' = Some OK ∧ i_entry m' = Some (both_entries !! i).
Proof.
  destruct (block_over_ok odd_entries) as (it1 & E1 & H1);
    [repeat first [apply Forall_cons; split | apply Forall_nil; done | split | done]
    |repeat first [apply SSorted_nil | apply SSorted_cons | apply Forall_nil | apply Forall_cons; split | done]
    |vm_compute; reflexivity|].
  destruct (block_over_ok even_entries) as (it2 & E2 & H2);
    [repeat first [apply Forall_cons; split | apply Forall_nil; done | split | done]
    |repeat first [apply SSorted_nil | apply SSorted_cons | apply Forall_nil | apply Forall_cons; split | done]
    |vm_compute; reflexivity|].
  destruct (merging_refines_cursor [it1; it2] [odd_entries; even_entries] both_entries) as (m & p & Em & Hm).
  - split; [|split; [|split]].
    + unfold both_entries, odd_entries, even_entries. cbn. solve_Permutation.
    + repeat first [apply SSorted_nil | apply SSorted_cons | apply Forall_nil | apply Forall_cons; split | done].
    + repeat first [apply SSorted_nil | apply SSorted_cons | apply Forall_nil | apply Forall_cons; split | done].
    + intros [|[|c]] [|[|c']] L L' x y Hne HL HL' Hx Hy; try done; injection HL as <-; injection HL' as <-;
        apply list_elem_of_In in Hx, Hy; cbn in Hx, Hy; destruct_or!; subst; done.
  - repeat constructor; by eexists.
  - exists it1, it2, m, p. split; [exact E1|]. split; [exact E2|]. split; [exact Em|]. exact Hm.
Defined.
End witness.
