(* ===== verification/TableFormat.v ===== *)
(** The format of leveldb's table files: leveldb/table/format.h and format.cc,
    with the options and the compressors it uses
    (leveldb/include/leveldb/options.h and compressor.h).

    [None] is a failed [assert] or a read of bytes that are not there. *)

From Stdlib Require Import ZArith Lia.
From stdpp Require Import base option numbers list strings.
From S2P Require Import Prelude Coding Slice Crc32c Env DbFormat.

(** ** Compressors

    [compressImpl] and [decompress] append to the string they are given.
    [uniqueCompressionID] is a [char], which is signed. *)

Record Compressor := mkCompressor {
  uniqueCompressionID : Z;
  compressImpl : list Z → list Z → list Z;
  decompress : list Z → list Z → bool * list Z
}.

Record Options := mkOptions {
  paranoid_checks : bool;
  block_size : Z;
  block_restart_interval : Z;
  compressors : list (option Compressor);    (* 256 pointers *)
  filter_policy : option FilterPolicy
}.

Record ReadOptions := mkReadOptions {
  verify_checksums : bool;
  fill_cache : bool
}.

Definition DefaultReadOptions : ReadOptions := mkReadOptions false true.

(** ** [BlockHandle] *)

Record BlockHandle := mkHandle { h_offset : Z; h_size : Z }.

Definition kNoHandle : Z := 2 ^ 64 - 1.   (* ~static_cast<uint64_t>(0) *)

Definition NewBlockHandle : BlockHandle := mkHandle kNoHandle kNoHandle.

Definition kMaxEncodedLength : Z := 10 + 10.

Definition handle_EncodeTo (h : BlockHandle) (dst : list Z) : option (list Z) :=
  if (h_offset h =? kNoHandle) || (h_size h =? kNoHandle) then None (* asserts *)
  else dst ← PutVarint64 dst (h_offset h); PutVarint64 dst (h_size h).

(** The status, the handle and what is left of the input.  The first number
    stays when the second cannot be read. *)
Definition handle_DecodeFrom (h : BlockHandle) (input : list Z) : Status * BlockHandle * list Z :=
  match GetVarint64 input with
  | None => (Corruption "bad block handle", h, input)
  | Some (offset, input) =>
      match GetVarint64 input with
      | None => (Corruption "bad block handle", mkHandle offset (h_size h), input)
      | Some (size, input) => (OK, mkHandle offset size, input)
      end
  end.

(** ** [Footer] *)

Record Footer := mkFooter { metaindex_handle_ : BlockHandle; index_handle_ : BlockHandle }.

Definition NewFooter : Footer := mkFooter NewBlockHandle NewBlockHandle.

Definition kEncodedLength : Z := 2 * kMaxEncodedLength + 8.

Definition kTableMagicNumber : Z := 15800726617472432983.   (* 0xdb4775248b80fb57 *)

Definition kBlockTrailerSize : Z := 5.

(** [std::string::resize]. *)
Definition resize (s : list Z) (n : nat) : list Z := take n s ++ replicate (n - length s) 0.

Record BlockContents := mkContents { bc_data : list Z; cachable : bool; heap_allocated : bool }.

Section format.
Context `{Port}.

Definition footer_EncodeTo (f : Footer) (dst : list Z) : option (list Z) :=
  let original_size := length dst in
  dst ← handle_EncodeTo (metaindex_handle_ f) dst;
  dst ← handle_EncodeTo (index_handle_ f) dst;
  let dst := resize dst (Z.to_nat (2 * kMaxEncodedLength)) in
  let dst := PutFixed32 dst (u32 (Z.land kTableMagicNumber 4294967295)) in
  let dst := PutFixed32 dst (u32 (Z.shiftr kTableMagicNumber 32)) in
  if (length dst =? original_size + Z.to_nat kEncodedLength)%nat then Some dst else None (* assert *).

(** The eight bytes of the magic number are read from [input] whatever its
    size is. *)
Definition footer_DecodeFrom (f : Footer) (input : list Z) : option (Status * Footer * list Z) :=
  let magic_ptr := drop (Z.to_nat (kEncodedLength - 8)) input in
  magic_lo ← DecodeFixed32 magic_ptr;
  magic_hi ← DecodeFixed32 (drop 4 magic_ptr);
  let magic := Z.lor (u64 (Z.shiftl magic_hi 32)) magic_lo in
  if negb (magic =? kTableMagicNumber)
  then Some (Corruption "not an sstable (bad magic number)", f, input)
  else
    let '(result, m, rest) := handle_DecodeFrom (metaindex_handle_ f) input in
    let f := mkFooter m (index_handle_ f) in
    if negb (ok result) then Some (result, f, rest)
    else
      let '(result, i, rest) := handle_DecodeFrom (index_handle_ f) rest in
      let f := mkFooter m i in
      if negb (ok result) then Some (result, f, rest)
      else Some (result, f, drop (Z.to_nat kEncodedLength) input).

(** ** [ReadBlock] *)

(** [for (auto& c : dbOptions.compressors)]: the first that is null or has the
    id. *)
Fixpoint find_compressor (cs : list (option Compressor)) (compressionID : Z) : option Compressor :=
  match cs with
  | [] => None
  | None :: _ => None
  | Some c :: cs =>
      if uniqueCompressionID c =? compressionID then Some c else find_compressor cs compressionID
  end.

Context `{RandomAccessFile R} `{Env.Crc32c}.

(** [n + kBlockTrailerSize] wraps around at 64 bits; the trailer is then read
    from outside the data.  A buffer of the allocator is empty when it is
    handed out, so that where it comes from does not matter. *)
Definition ReadBlock (file : R) (dbOptions : Options) (options : ReadOptions) (handle : BlockHandle)
  : option (Status * BlockContents) :=
  let result := mkContents [] false false in
  let n := h_size handle in
  let m := u64 (n + kBlockTrailerSize) in
  '(data, s, scratch) ← file_ReadAt file (h_offset handle) m;
  if negb (ok s) then Some (s, result)
  else if negb (Z.of_nat (length data) =? m) then Some (Corruption "truncated block read", result)
  else if m <? n + kBlockTrailerSize then None
  else
    good ← (if verify_checksums options then
              w ← DecodeFixed32 (drop (Z.to_nat (n + 1)) data);
              let crc := Unmask w in
              actual ← crc_Value (slice data 0 (n + 1));
              Some (actual =? crc)
            else Some true);
    if negb good then Some (Corruption "block checksum mismatch", result)
    else
      compressionID ← data.[n];
      if compressionID =? 0 then Some (OK, mkContents (slice data 0 n) scratch scratch)
      else
        match find_compressor (compressors dbOptions) compressionID with
        | None => Some (NotSupported "encountered a block compressed with an unknown decompressor", result)
        | Some compressor =>
            let '(success, buffer) := decompress compressor (slice data 0 n) [] in
            if success then Some (OK, mkContents buffer true true)
            else Some (Corruption "corrupted compressed block contents", result)
        end.
End format.

(** The format of table files (TableFormat.v): handles and footers are read
    back as they were written, and a block that is stored in a file is read
    back with its checksum verified and its data decompressed. *)

(** ** Handles *)

Definition handle_ok (h : BlockHandle) : Prop :=
  0 ≤ h_offset h < 2 ^ 64 - 1 ∧ 0 ≤ h_size h < 2 ^ 64 - 1.

Definition handle_bytes (h : BlockHandle) : list Z := leb128 9 (h_offset h) ++ leb128 9 (h_size h).

Lemma handle_ok_width h : handle_ok h → in_width 64 (h_offset h) ∧ in_width 64 (h_size h).
Proof. unfold handle_ok, in_width. lia. Qed.

Lemma handle_bytes_bytes h : handle_ok h → bytes (handle_bytes h).
Proof. intros [? ?]%handle_ok_width. unfold handle_bytes. solve_width. Qed.

Lemma length_handle_bytes h : (2 ≤ length (handle_bytes h) ≤ 20)%nat.
Proof.
  unfold handle_bytes. rewrite length_app.
  pose proof (length_leb128 9 (h_offset h)). pose proof (length_leb128 9 (h_size h)). lia.
Qed.

Lemma PutVarint64_leb128 dst v : in_width 64 v → PutVarint64 dst v = Some (dst ++ leb128 9 v).
Proof.
  intros Hv. unfold PutVarint64. rewrite EncodeVarint64_leb128 by done. simpl_bind.
  rewrite bool_decide_true; [done|]. pose proof (length_leb128 9 v). lia.
Qed.

Lemma handle_EncodeTo_bytes h dst : handle_ok h → handle_EncodeTo h dst = Some (dst ++ handle_bytes h).
Proof.
  intros Hh. pose proof (handle_ok_width h Hh) as [Ho Hs]. destruct Hh as [? ?].
  unfold handle_EncodeTo, kNoHandle. rewrite !(proj2 (Z.eqb_neq _ _)) by lia. cbn [orb].
  rewrite PutVarint64_leb128 by done. simpl_bind. rewrite PutVarint64_leb128 by done.
  unfold handle_bytes. by rewrite app_assoc.
Qed.

Lemma handle_DecodeFrom_bytes h h0 r :
  handle_ok h → bytes r → handle_DecodeFrom h0 (handle_bytes h ++ r) = (OK, h, r).
Proof.
  intros Hh Hr. pose proof (handle_ok_width h Hh) as [Ho Hs]. unfold handle_DecodeFrom, handle_bytes.
  rewrite <-app_assoc, GetVarint64_leb128 by (done || solve_width).
  rewrite GetVarint64_leb128 by done. by destruct h.
Qed.

Lemma handle_bytes_inj h h' : handle_ok h → handle_ok h' → handle_bytes h = handle_bytes h' → h = h'.
Proof.
  intros Hh Hh' E. pose proof (handle_DecodeFrom_bytes h h [] Hh ltac:(constructor)) as E1.
  pose proof (handle_DecodeFrom_bytes h' h [] Hh' ltac:(constructor)) as E2.
  rewrite E, E2 in E1. by injection E1.
Qed.

(** ** The footer *)

Section footer.
Context `{Port}.

Definition footer_bytes (f : Footer) : list Z :=
  resize (handle_bytes (metaindex_handle_ f) ++ handle_bytes (index_handle_ f)) 40 ++
  le_bytes 4 (Z.land kTableMagicNumber 4294967295) ++ le_bytes 4 (Z.shiftr kTableMagicNumber 32).

Definition footer_ok (f : Footer) : Prop := handle_ok (metaindex_handle_ f) ∧ handle_ok (index_handle_ f).

Lemma length_resize s n : length (resize s n) = n.
Proof. unfold resize. rewrite length_app, length_take, length_replicate. lia. Qed.

Lemma length_footer_bytes f : length (footer_bytes f) = 48%nat.
Proof. unfold footer_bytes. by rewrite !length_app, length_resize, !length_le_bytes. Qed.

Lemma resize_longer s n : (length s ≤ n)%nat → resize s n = s ++ replicate (n - length s) 0.
Proof. intros Hl. unfold resize. by rewrite take_ge by done. Qed.

Lemma footer_bytes_split f : ∃ pad, bytes pad ∧
  footer_bytes f = handle_bytes (metaindex_handle_ f) ++ handle_bytes (index_handle_ f) ++ pad.
Proof.
  pose proof (length_handle_bytes (metaindex_handle_ f)). pose proof (length_handle_bytes (index_handle_ f)).
  unfold footer_bytes. rewrite resize_longer by (rewrite length_app; lia).
  eexists. rewrite <-!app_assoc. split; [|done]. apply Forall_app. split.
  - apply Forall_replicate. by split.
  - apply Forall_app. split; apply le_bytes_bytes.
Qed.

Lemma footer_bytes_bytes f : footer_ok f → bytes (footer_bytes f).
Proof.
  intros [Hm Hi]. destruct (footer_bytes_split f) as (pad & Hp & ->).
  apply Forall_app. split; [by apply handle_bytes_bytes|]. apply Forall_app.
  split; [by apply handle_bytes_bytes|done].
Qed.

Lemma footer_EncodeTo_bytes f : footer_ok f → footer_EncodeTo f [] = Some (footer_bytes f).
Proof.
  intros [Hm Hi]. unfold footer_EncodeTo.
  rewrite handle_EncodeTo_bytes by done. simpl_bind. rewrite handle_EncodeTo_bytes by done. simpl_bind.
  cbn [app]. change (Z.to_nat (2 * kMaxEncodedLength)) with 40%nat.
  change (Z.to_nat kEncodedLength) with 48%nat. unfold PutFixed32. rewrite !EncodeFixed32_le.
  change (u32 (Z.land kTableMagicNumber 4294967295)) with (Z.land kTableMagicNumber 4294967295).
  change (u32 (Z.shiftr kTableMagicNumber 32)) with (Z.shiftr kTableMagicNumber 32).
  rewrite <-app_assoc. fold (footer_bytes f). by rewrite length_footer_bytes.
Qed.

Lemma footer_DecodeFrom_bytes f f0 r :
  footer_ok f → bytes r → footer_DecodeFrom f0 (footer_bytes f ++ r) = Some (OK, f, r).
Proof.
  intros [Hm Hi] Hr. unfold footer_DecodeFrom. change (Z.to_nat (kEncodedLength - 8)) with 40%nat.
  change (Z.to_nat kEncodedLength) with 48%nat.
  assert (Hmagic : drop 40 (footer_bytes f ++ r) =
    le_bytes 4 (Z.land kTableMagicNumber 4294967295) ++ le_bytes 4 (Z.shiftr kTableMagicNumber 32) ++ r).
  { unfold footer_bytes. rewrite <-!app_assoc. apply drop_app_length'. by rewrite length_resize. }
  rewrite Hmagic, <-!EncodeFixed32_le.
  rewrite DecodeFixed32_encode; [|by split|rewrite EncodeFixed32_le; solve_width]. simpl_bind.
  rewrite (drop_app_length' (EncodeFixed32 _)) by (by rewrite EncodeFixed32_le, length_le_bytes).
  rewrite DecodeFixed32_encode by (done || by split). simpl_bind.
  change (_ =? kTableMagicNumber) with true. cbn [negb].
  destruct (footer_bytes_split f) as (pad & Hp & E). rewrite E at 1. rewrite <-!app_assoc.
  rewrite handle_DecodeFrom_bytes; [|done|].
  2:{ apply Forall_app. split; [by apply handle_bytes_bytes|]. by apply Forall_app. }
  cbn [ok negb]. rewrite handle_DecodeFrom_bytes by (done || by apply Forall_app). cbn [ok negb].
  rewrite drop_app_length' by (by rewrite length_footer_bytes). by destruct f.
Qed.
End footer.

(** ** Stored blocks *)

(** A compressor that [ReadBlock] can undo. *)
Definition compressor_ok (c : Compressor) : Prop :=
  0 < uniqueCompressionID c < 128 ∧
  ∀ raw, bytes raw → bytes (compressImpl c raw []) ∧ decompress c (compressImpl c raw []) [] = (true, raw).

Definition type_of (c : option Compressor) : Z := match c with None => 0 | Some c => uniqueCompressionID c end.

(** What is written for a block stored as [s] with compressor [c]. *)
Definition stored_bytes (s : list Z) (type : Z) : list Z :=
  s ++ [type] ++ le_bytes 4 (Mask (crc32c_ref 0 (s ++ [type]))).

Lemma length_stored_bytes s type : length (stored_bytes s type) = (length s + 5)%nat.
Proof. unfold stored_bytes. rewrite !length_app, length_le_bytes. cbn. lia. Qed.

(** The block [raw] as it is when it is stored as [s] with the type [type]. *)
Definition unpacks (o : Options) (s : list Z) (type : Z) (raw : list Z) : Prop :=
  type = 0 ∧ s = raw ∨
  type ≠ 0 ∧ ∃ c, find_compressor (compressors o) type = Some c ∧ decompress c s [] = (true, raw).

(** The file holds the block [raw] at [h]. *)
Definition holds (o : Options) (data : list Z) (h : BlockHandle) (raw : list Z) : Prop :=
  ∃ pre s type post, data = pre ++ stored_bytes s type ++ post ∧
    h = mkHandle (Z.of_nat (length pre)) (Z.of_nat (length s)) ∧
    bytes s ∧ in_width 8 type ∧ unpacks o s type raw.

Lemma holds_app o data more h raw : holds o data h raw → holds o (data ++ more) h raw.
Proof.
  intros (pre & s & type & post & -> & Hh & Hs & Ht & Hu). exists pre, s, type, (post ++ more).
  by rewrite <-!app_assoc.
Qed.

Lemma holds_handle o data h raw :
  holds o data h raw → Z.of_nat (length data) < 2 ^ 64 → handle_ok h.
Proof.
  intros (pre & s & type & post & -> & -> & _). rewrite !length_app, length_stored_bytes. intros Hl.
  unfold handle_ok. cbn. lia.
Qed.

Lemma stored_read s type post :
  slice (stored_bytes s type ++ post) 0 (Z.of_nat (length s) + 5) = stored_bytes s type.
Proof.
  unfold slice. rewrite drop_0. apply take_app_length'. rewrite length_stored_bytes. lia.
Qed.

Section read.
Context `{Port} `{RandomAccessFileLaws R} `{Crc32cLaws}.

(** A block that is there is read, whatever the options for the reads. *)
Lemma ReadBlock_holds (f : R) o ro h raw :
  random f → holds o (random_contents f) h raw → Z.of_nat (length (random_contents f)) < 2 ^ 64 →
  ∃ cachable heap, ReadBlock f o ro h = Some (OK, mkContents raw cachable heap).
Proof.
  intros Hf Hh Hlen. pose proof Hh as (pre & s & type & post & E & -> & Hs & Ht & Hu).
  pose proof (f_equal length E) as El. rewrite !length_app, length_stored_bytes in El.
  unfold ReadBlock, kBlockTrailerSize. cbn [h_size h_offset].
  rewrite wrap_small by (unfold in_width; lia).
  destruct (ReadAt_contents f (Z.of_nat (length pre)) (Z.of_nat (length s) + 5) Hf) as [scratch ->]; [lia..|].
  simpl_bind. cbn [ok negb].
  assert (Ed : slice (random_contents f) (Z.of_nat (length pre)) (Z.of_nat (length s) + 5) = stored_bytes s type).
  { rewrite E. unfold slice. rewrite Nat2Z.id, drop_app_length. apply take_app_length'.
    rewrite length_stored_bytes. lia. }
  rewrite Ed, length_stored_bytes, Nat2Z.inj_add, Z.eqb_refl, Z.ltb_irrefl. cbn [negb].
  assert (Hcrc : in_width 32 (crc32c_ref 0 (s ++ [type]))).
  { apply crc32c_ref_width; [unfold in_width; lia|]. apply Forall_app. split; [done|by apply Forall_singleton]. }
  assert (Hgood : (if verify_checksums ro then
     w ← DecodeFixed32 (drop (Z.to_nat (Z.of_nat (length s) + 1)) (stored_bytes s type));
     actual ← crc_Value (slice (stored_bytes s type) 0 (Z.of_nat (length s) + 1));
     Some (actual =? Unmask w) else Some true) = Some true).
  { destruct (verify_checksums ro); [|done]. unfold stored_bytes. rewrite app_assoc.
    rewrite drop_app_length' by (rewrite length_app; cbn; lia).
    rewrite <-(app_nil_r (le_bytes 4 _)), <-EncodeFixed32_le.
    rewrite DecodeFixed32_encode by (apply Mask_width || constructor). simpl_bind.
    unfold slice. rewrite drop_0, take_app_length' by (rewrite length_app; cbn; lia).
    rewrite crc_Value_ref by (apply Forall_app; split; [done|by apply Forall_singleton]). simpl_bind.
    by rewrite Unmask_Mask, Z.eqb_refl. }
  rewrite Hgood. simpl_bind. cbn [negb].
  assert (Htype : (stored_bytes s type).[Z.of_nat (length s)] = Some type).
  { apply aget_some. split; [lia|]. unfold stored_bytes. rewrite Nat2Z.id, lookup_app_r by lia.
    by rewrite Nat.sub_diag. }
  rewrite Htype. simpl_bind.
  assert (Hslice : slice (stored_bytes s type) 0 (Z.of_nat (length s)) = s).
  { unfold slice, stored_bytes. rewrite drop_0, Nat2Z.id. apply take_app_length. }
  rewrite Hslice. destruct Hu as [[-> ->]|(Hne & c & -> & Hd)].
  - eexists _, _. done.
  - rewrite (proj2 (Z.eqb_neq _ _) Hne), Hd. eexists _, _. done.
Qed.
End read.
