(* ===== verification/Table.v ===== *)
(** leveldb's tables: the builder, leveldb/table/table_builder.cc, and the
    reader, leveldb/table/table.cc.

    A table file is the data blocks, the filter block, the metaindex block, the
    index block and the footer, each block followed by its type and checksum.
    [None] is a failed [assert], or a policy that is null where there is a
    filter. *)

From Stdlib Require Import ZArith Lia.
From stdpp Require Import base option numbers list strings.
From S2P Require Import Prelude Coding Slice Crc32c Env DbFormat Bloom FilterBlock Block.
From S2P Require Import TableFormat Iterator TwoLevel.

(** [TableBuilder::Rep]. *)
Record Rep (W : Type) := mkRep {
  rep_options : Options;
  index_interval : Z;             (* index_block_options.block_restart_interval *)
  rep_file : W;
  rep_offset : Z;
  rep_status : Status;
  data_block : BlockBuilder;
  index_block : BlockBuilder;
  last_key : list Z;
  num_entries : Z;
  closed : bool;
  filter_block : option (FilterPolicy * FilterBlockBuilder);   (* with its policy_ *)
  pending_index_entry : bool;
  pending_handle : BlockHandle;
  compressed_output : list Z
}.
Arguments mkRep {W}.
Arguments rep_options {W}.
Arguments index_interval {W}.
Arguments rep_file {W}.
Arguments rep_offset {W}.
Arguments rep_status {W}.
Arguments data_block {W}.
Arguments index_block {W}.
Arguments last_key {W}.
Arguments num_entries {W}.
Arguments closed {W}.
Arguments filter_block {W}.
Arguments pending_index_entry {W}.
Arguments pending_handle {W}.
Arguments compressed_output {W}.

(** ** Assignments to the members *)

Section set.
Context {W : Type}.
Implicit Types (r : Rep W).

Definition set_file r f off s : Rep W :=
  mkRep (rep_options r) (index_interval r) f off s (data_block r) (index_block r) (last_key r)
    (num_entries r) (closed r) (filter_block r) (pending_index_entry r) (pending_handle r) (compressed_output r).

Definition set_data_block r b : Rep W :=
  mkRep (rep_options r) (index_interval r) (rep_file r) (rep_offset r) (rep_status r) b (index_block r)
    (last_key r) (num_entries r) (closed r) (filter_block r) (pending_index_entry r) (pending_handle r)
    (compressed_output r).

Definition set_index_block r b : Rep W :=
  mkRep (rep_options r) (index_interval r) (rep_file r) (rep_offset r) (rep_status r) (data_block r) b
    (last_key r) (num_entries r) (closed r) (filter_block r) (pending_index_entry r) (pending_handle r)
    (compressed_output r).

Definition set_last_key r k n : Rep W :=
  mkRep (rep_options r) (index_interval r) (rep_file r) (rep_offset r) (rep_status r) (data_block r)
    (index_block r) k n (closed r) (filter_block r) (pending_index_entry r) (pending_handle r)
    (compressed_output r).

Definition set_closed r : Rep W :=
  mkRep (rep_options r) (index_interval r) (rep_file r) (rep_offset r) (rep_status r) (data_block r)
    (index_block r) (last_key r) (num_entries r) true (filter_block r) (pending_index_entry r)
    (pending_handle r) (compressed_output r).

Definition set_filter r f : Rep W :=
  mkRep (rep_options r) (index_interval r) (rep_file r) (rep_offset r) (rep_status r) (data_block r)
    (index_block r) (last_key r) (num_entries r) (closed r) f (pending_index_entry r) (pending_handle r)
    (compressed_output r).

Definition set_pending r p h : Rep W :=
  mkRep (rep_options r) (index_interval r) (rep_file r) (rep_offset r) (rep_status r) (data_block r)
    (index_block r) (last_key r) (num_entries r) (closed r) (filter_block r) p h (compressed_output r).

Definition set_compressed r c : Rep W :=
  mkRep (rep_options r) (index_interval r) (rep_file r) (rep_offset r) (rep_status r) (data_block r)
    (index_block r) (last_key r) (num_entries r) (closed r) (filter_block r) (pending_index_entry r)
    (pending_handle r) c.
End set.

Section builder.
Context `{P : Port} {C : Comparator} `{WritableFile W} `{Env.Crc32c}.
Implicit Types (r : Rep W).

Definition tb_ok r : bool := ok (rep_status r).

(** [rep_->filter_block->StartBlock(offset)], if there is a filter. *)
Definition start_filter r (off : Z) : option (Rep W) :=
  match filter_block r with
  | Some (F, fb) => fb ← StartBlock (F := F) fb off; Some (set_filter r (Some (F, fb)))
  | None => Some r
  end.

Definition NewTableBuilder (options : Options) (file : W) : option (Rep W) :=
  data ← NewBlockBuilder (block_restart_interval options);
  index ← NewBlockBuilder 1;
  let r := mkRep options 1 file 0 OK data index [] 0 false
             ((λ F, (F, NewBuilder)) <$> filter_policy options)
             false NewBlockHandle [] in
  start_filter r 0.

(** [same_comparator]: whether the comparator of the options is that of the
    builder. *)
Definition ChangeOptions r (options : Options) (same_comparator : bool) : Rep W * Status :=
  if negb same_comparator then (r, InvalidArgument "changing comparator while building table")
  else (mkRep options 1 (rep_file r) (rep_offset r) (rep_status r) (data_block r) (index_block r)
          (last_key r) (num_entries r) (closed r) (filter_block r) (pending_index_entry r)
          (pending_handle r) (compressed_output r), OK).

(** The handle is that of the block written. *)
Definition WriteRawBlock r (block_contents : list Z) (compressor : option Compressor)
  : option (Rep W * BlockHandle) :=
  let handle := mkHandle (rep_offset r) (Z.of_nat (length block_contents)) in
  '(f, s) ← file_Append (rep_file r) block_contents;
  if negb (ok s) then Some (set_file r f (rep_offset r) s, handle)
  else
    let type := match compressor with None => 0 | Some c => u8 (uniqueCompressionID c) end in
    crc ← crc_Value block_contents;
    crc ← crc_Extend crc [type];
    let trailer := type :: EncodeFixed32 (Mask crc) in
    '(f, s) ← file_Append f trailer;
    let off := if ok s
               then u64 (rep_offset r + (Z.of_nat (length block_contents) + kBlockTrailerSize))
               else rep_offset r in
    Some (set_file r f off s, handle).

(** The block is reset; [compressors[0]] is read from an array of 256. *)
Definition WriteBlock r (block : BlockBuilder) : option (Rep W * BlockBuilder * BlockHandle) :=
  if negb (tb_ok r) then None (* assert *)
  else
    let raw := (bb_Finish block).2 in
    let '(block_contents, compressor) :=
      match compressors (rep_options r) !! 0%nat with
      | Some (Some c) =>
          let compressed := compressImpl c raw (compressed_output r) in
          let n := Z.of_nat (length raw) in
          if Z.of_nat (length compressed) <? n - n / 8 then (compressed, Some c) else (raw, None)
      | _ => (raw, None)
      end in
    '(r, handle) ← WriteRawBlock r block_contents compressor;
    Some (set_compressed r [], bb_Reset, handle).

Definition tb_Flush r : option (Rep W) :=
  if closed r then None (* assert *)
  else if negb (tb_ok r) then Some r
  else if bb_empty (data_block r) then Some r
  else if pending_index_entry r then None (* assert *)
  else
    '(r, data, handle) ← WriteBlock r (data_block r);
    let r := set_pending (set_data_block r data) (pending_index_entry r) handle in
    r ← (if tb_ok r then
           '(f, s) ← file_Flush (rep_file r);
           Some (set_pending (set_file r f (rep_offset r) s) true handle)
         else Some r);
    start_filter r (rep_offset r).

(** The index entry of the last block, under the key [last_key]. *)
Definition add_index_entry r : option (Rep W) :=
  handle_encoding ← handle_EncodeTo (pending_handle r) [];
  index ← bb_Add (index_interval r) (index_block r) (last_key r) handle_encoding;
  Some (set_pending (set_index_block r index) false (pending_handle r)).

Definition tb_Add r (key value : list Z) : option (Rep W) :=
  if closed r then None (* assert *)
  else if negb (tb_ok r) then Some r
  else if (0 <? num_entries r) && negb (0 <? Compare key (last_key r)) then None (* assert *)
  else
    r ← (if pending_index_entry r then
           if negb (bb_empty (data_block r)) then None (* assert *)
           else add_index_entry (set_last_key r (FindShortestSeparator (last_key r) key) (num_entries r))
         else Some r);
    let r := set_filter r ((λ fb, (fb.1, AddKey fb.2 key)) <$> filter_block r) in
    let r := set_last_key r key (num_entries r + 1) in
    data ← bb_Add (block_restart_interval (rep_options r)) (data_block r) key value;
    let r := set_data_block r data in
    if block_size (rep_options r) <=? CurrentSizeEstimate data then tb_Flush r else Some r.

(** [key = "filter."; key.append(Name())]. *)
Definition filter_key (F : FilterPolicy) : list Z := bytes_of "filter." ++ policy_Name.

Definition tb_Finish r : option (Rep W * Status) :=
  r ← tb_Flush r;
  if closed r then None (* assert *)
  else
    let r := set_closed r in
    '(r, filter_block_handle) ←
      (match filter_block r with
       | Some (F, fb) =>
           if tb_ok r then contents ← Finish (F := F) fb; WriteRawBlock r contents None
           else Some (r, NewBlockHandle)
       | None => Some (r, NewBlockHandle)
       end);
    '(r, metaindex_block_handle) ←
      (if tb_ok r then
         meta ← NewBlockBuilder (block_restart_interval (rep_options r));
         meta ← (match filter_block r with
                 | Some _ =>
                     F ← filter_policy (rep_options r);
                     handle_encoding ← handle_EncodeTo filter_block_handle [];
                     bb_Add (block_restart_interval (rep_options r)) meta (filter_key F) handle_encoding
                 | None => Some meta
                 end);
         '(r, _, handle) ← WriteBlock r meta; Some (r, handle)
       else Some (r, NewBlockHandle));
    '(r, index_block_handle) ←
      (if tb_ok r then
         r ← (if pending_index_entry r
              then add_index_entry (set_last_key r (FindShortSuccessor (last_key r)) (num_entries r))
              else Some r);
         '(r, index, handle) ← WriteBlock r (index_block r); Some (set_index_block r index, handle)
       else Some (r, NewBlockHandle));
    r ← (if tb_ok r then
           footer_encoding ← footer_EncodeTo (mkFooter metaindex_block_handle index_block_handle) [];
           '(f, s) ← file_Append (rep_file r) footer_encoding;
           let off := if ok s then u64 (rep_offset r + Z.of_nat (length footer_encoding)) else rep_offset r in
           Some (set_file r f off s)
         else Some r);
    Some (r, rep_status r).

Definition tb_Abandon r : option (Rep W) := if closed r then None (* assert *) else Some (set_closed r).

Definition NumEntries r : Z := num_entries r.

Definition FileSize r : Z := rep_offset r.
End builder.

(** leveldb's table reader: leveldb/table/table.cc.

    The block cache is an interface; it is [None] when the options have none.
    A call of [saver] is the entry it is called with.  [None] is a failed
    [assert] or a read of bytes that are not there. *)

(** What a table uses of [Cache] (leveldb/include/leveldb/cache.h).  Blocks do
    not change, so that the time at which their handles are released does not
    matter: [cache_Lookup] is [Lookup], [Value] and [Release], and
    [cache_Insert] is [Insert] and [Release]. *)
Class BlockCache (K : Type) := {
  cache_NewId : K → K * Z;
  cache_Lookup : K → list Z → option (K * option Block);
  cache_Insert : K → list Z → Block → Z → option K
}.

(** [Table::Rep]; [t_filter] with its policy. *)
Record Table (R : Type) := mkTable {
  t_options : Options;
  t_file : R;
  cache_id : Z;
  t_filter : option (FilterPolicy * FilterBlockReader);
  metaindex_handle : BlockHandle;
  t_index_block : Block
}.
Arguments mkTable {R}.
Arguments t_options {R}.
Arguments t_file {R}.
Arguments cache_id {R}.
Arguments t_filter {R}.
Arguments metaindex_handle {R}.
Arguments t_index_block {R}.

Section table.
Context `{P : Port} {C : Comparator} `{RandomAccessFile R} `{Env.Crc32c} `{BlockCache K}.

(** [opt.verify_checksums = true] if the checks are paranoid. *)
Definition meta_options (options : Options) : ReadOptions :=
  if paranoid_checks options then mkReadOptions true true else DefaultReadOptions.

(** [ReadFilter]: the filter, if it could be read. *)
Definition ReadFilter (options : Options) (file : R) (F : FilterPolicy) (filter_handle_value : list Z)
  : option (option (FilterPolicy * FilterBlockReader)) :=
  let '(s, filter_handle, _) := handle_DecodeFrom NewBlockHandle filter_handle_value in
  if negb (ok s) then Some None
  else
    '(s, block) ← ReadBlock file options (meta_options options) filter_handle;
    if negb (ok s) then Some None
    else reader ← NewReader (bc_data block); Some (Some (F, reader)).

Definition ReadMeta (options : Options) (file : R) (footer : Footer)
  : option (option (FilterPolicy * FilterBlockReader)) :=
  match filter_policy options with
  | None => Some None
  | Some F =>
      '(s, contents) ← ReadBlock file options (meta_options options) (metaindex_handle_ footer);
      if negb (ok s) then Some None
      else
        meta ← NewBlock (bc_data contents);
        iter ← NewIterator meta;
        iter ← i_Seek (Iterator := sum_iterator (H0 := block_iterator (C := BytewiseComparator)))
                 iter (filter_key F);
        if i_Valid iter then
          key ← i_key iter;
          if slice_eqb key (filter_key F) then
            value ← i_value iter; ReadFilter options file F value
          else Some None
        else Some None
  end.

(** The status, the table and the cache. *)
Definition Open (options : Options) (cache : option K) (file : R) (size : Z)
  : option (Status * option (Table R) * option K) :=
  if size <? kEncodedLength
  then Some (Corruption "file is too short to be an sstable", None, cache)
  else
    '(footer_input, s, _) ← file_ReadAt file (size - kEncodedLength) kEncodedLength;
    if negb (ok s) then Some (s, None, cache)
    else
      '(s, footer, _) ← footer_DecodeFrom NewFooter footer_input;
      if negb (ok s) then Some (s, None, cache)
      else
        '(s, contents) ← ReadBlock file options (meta_options options) (index_handle_ footer);
        if negb (ok s) then Some (s, None, cache)
        else
          index_block ← NewBlock (bc_data contents);
          let '(cache, id) := match cache with
                              | None => (None, 0)
                              | Some c => let '(c, id) := cache_NewId c in (Some c, id)
                              end in
          filter ← ReadMeta options file footer;
          Some (s, Some (mkTable options file id filter (metaindex_handle_ footer) index_block), cache).

Definition cache_key (table : Table R) (handle : BlockHandle) : list Z :=
  EncodeFixed64 (cache_id table) ++ EncodeFixed64 (h_offset handle).

(** The block of a handle, from the cache or from the file. *)
Definition find_block (table : Table R) (cache : option K) (options : ReadOptions) (handle : BlockHandle)
  : option (option K * Status * option Block) :=
  let read := ReadBlock (t_file table) (t_options table) options handle in
  match cache with
  | Some c =>
      let key := cache_key table handle in
      '(c, found) ← cache_Lookup c key;
      match found with
      | Some block => Some (Some c, OK, Some block)
      | None =>
          '(s, contents) ← read;
          if negb (ok s) then Some (Some c, s, None)
          else
            block ← NewBlock (bc_data contents);
            c ← (if cachable contents && fill_cache options
                 then cache_Insert c key block (size_ block) else Some c);
            Some (Some c, s, Some block)
      end
  | None =>
      '(s, contents) ← read;
      if negb (ok s) then Some (None, s, None)
      else block ← NewBlock (bc_data contents); Some (None, s, Some block)
  end.

Definition BlockReader (table : Table R) (cache : option K) (options : ReadOptions) (index_value : list Z)
  : option (option K * (EmptyIterator + Iter)) :=
  let '(s, handle, _) := handle_DecodeFrom NewBlockHandle index_value in
  '(cache, s, block) ← (if ok s then find_block table cache options handle else Some (cache, s, None));
  match block with
  | Some block => iter ← NewIterator block; Some (cache, iter)
  | None => Some (cache, inl (NewErrorIterator s))
  end.

(** [block_function_]: its argument is the table, with the cache. *)
Definition table_block_function (options : ReadOptions) (arg : Table R * option K) (index_value : list Z)
  : option (Table R * option K * (EmptyIterator + Iter)) :=
  '(cache, iter) ← BlockReader arg.1 arg.2 options index_value;
  Some ((arg.1, cache), iter).

Definition table_iter : Type := TwoLevelIterator (Table R * option K) (EmptyIterator + Iter) (EmptyIterator + Iter).

Definition table_NewIterator (table : Table R) (cache : option K) : option table_iter :=
  index_iter ← NewIterator (t_index_block table);
  NewTwoLevelIterator index_iter (table, cache).

(** The iterator's operations; the fuel is for its loops over empty blocks. *)
Definition table_iterator (fuel : nat) (options : ReadOptions) : Iterator table_iter :=
  two_level_iterator fuel (table_block_function options).

(** [filter != NULL && handle.DecodeFrom(&handle_value).ok() &&
    !filter->KeyMayMatch(handle.offset(), k)]. *)
Definition filtered_out (table : Table R) (handle_value k : list Z) : option bool :=
  match t_filter table with
  | None => Some false
  | Some (F, filter) =>
      let '(s, handle, _) := handle_DecodeFrom NewBlockHandle handle_value in
      if ok s then may ← block_KeyMayMatch (F := F) filter (h_offset handle) k; Some (negb may)
      else Some false
  end.

(** The cache, the status, and the entry [saver] is called with. *)
Definition InternalGet (table : Table R) (cache : option K) (options : ReadOptions) (k : list Z)
  : option (option K * Status * option (list Z * list Z)) :=
  iiter ← NewIterator (t_index_block table);
  iiter ← i_Seek iiter k;
  '(cache, s, saved) ←
    (if i_Valid iiter then
       handle_value ← i_value iiter;
       out ← filtered_out table handle_value k;
       if (out : bool) then Some (cache, OK, None)
       else
         '(cache, block_iter) ← BlockReader table cache options handle_value;
         block_iter ← i_Seek block_iter k;
         saved ← i_entry block_iter;
         s ← i_status block_iter;
         Some (cache, s, saved)
     else Some (cache, OK, None));
  s ← (if ok s then i_status iiter else Some s);
  Some (cache, s, saved).

Definition ApproximateOffsetOf (table : Table R) (key : list Z) : option Z :=
  index_iter ← NewIterator (t_index_block table);
  index_iter ← i_Seek index_iter key;
  if i_Valid index_iter then
    value ← i_value index_iter;
    let '(s, handle, _) := handle_DecodeFrom NewBlockHandle value in
    Some (if ok s then h_offset handle else h_offset (metaindex_handle table))
  else Some (h_offset (metaindex_handle table)).
End table.
