(* ===== verification/TableBuildSpec.v ===== *)
(** What the table builder (Table.v) makes of a sorted sequence of
    entries: the invariant between the calls of [Add]. *)

From Stdlib Require Import ZArith Lia.
From stdpp Require Import base option numbers list strings sorting.
From S2P Require Import Prelude Coding Slice WriteBatch Crc32c Env DbFormat Bloom FilterBlock.
From S2P Require Import Iterator Block BlockSpec TableFormat Table.

(** Reading a member after assignments. *)
Ltac rep_simpl :=
  cbn [rep_options index_interval rep_file rep_offset rep_status data_block index_block last_key num_entries
       closed filter_block pending_index_entry pending_handle compressed_output
       set_file set_data_block set_index_block set_last_key set_closed set_filter set_pending set_compressed] in *.

(** ** Keys that a separator keeps together

    [near k e]: whoever asks for [k] wants to find the entry [e].  The
    separator of two keys must not come between them. *)
Class Neighbours (C : Comparator) := {
  near : list Z → list Z → Prop;
  near_between k a e : near k e → Compare k a ≤ 0 → Compare a e ≤ 0 → near k a;
  near_separator a b e k :
    bytes a → bytes b → Compare a b < 0 → Compare b e ≤ 0 → near k e →
    Compare k (FindShortestSeparator a b) ≤ 0 → Compare k a ≤ 0
}.

(** Keys that the comparator does not tell apart. *)
Definition equal_neighbours `{C : Comparator} {HC : ComparatorLaws C} : Neighbours C.
Proof.
  exists (λ k e, Compare k e = 0).
  - intros k a e Hke Hka Hae. pose proof (Compare_eq_l k e a Hke). pose proof (Compare_anti a e). lia.
  - intros a b e k Ha Hb Hlt Hbe Hke Hle. exfalso.
    destruct (FindShortestSeparator_spec a b Ha Hb Hlt) as [_ Hlim].
    pose proof (Compare_le_lt_trans _ _ _ Hle (Compare_lt_le_trans _ _ _ Hlim Hbe)). lia.
Defined.

(** ** Filters of bounded size *)

(** The filter of [n] keys, and the name of the policy, have a bounded size. *)
Definition filter_size (F : FilterPolicy) (B : nat) : Prop :=
  (length policy_Name ≤ B)%nat ∧
  ∀ keys dst, (length (CreateFilter keys dst) ≤ length dst + B * S (length keys))%nat.

Section filter.
Context `{P : Port} (F : FilterPolicy) (B : nat) (HB : filter_size F B).

(** [n] keys have been added. *)
Definition fb_small (b : FilterBlockBuilder) (n : nat) : Prop :=
  (length (result_ b) + 2 * B * length (FilterBlock.start_ b) ≤ 2 * B * n)%nat.

Lemma GenerateFilter_small b b' n : fb_small b n → GenerateFilter b = Some b' → fb_small b' n.
Proof.
  unfold fb_small, GenerateFilter. intros Hn. destruct (Nat.eqb_spec (length (FilterBlock.start_ b)) 0) as [E|E].
  { by intros [= <-]. }
  destruct (mapM _ _) as [tmp_keys|] eqn:Em; [|done]. simpl_bind. intros [= <-].
  cbn [FilterBlock.result_ FilterBlock.start_]. apply mapM_Some_1, Forall2_length in Em. rewrite length_seq in Em.
  destruct HB as [_ Hs]. specialize (Hs tmp_keys (FilterBlock.result_ b)). cbn [length]. nia.
Qed.

Lemma StartBlock_small b b' n off : fb_small b n → StartBlock b off = Some b' → fb_small b' n.
Proof.
  unfold StartBlock. intros Hn. destruct (_ <? _); [done|].
  remember (Z.to_nat (_ - _)) as m eqn:Em. clear Em. revert b Hn. induction m as [|m IH]; intros b Hn; cbn [while].
  - destruct (_ <? _); [done|]. by intros [= <-].
  - destruct (_ <? _); [|by intros [= <-]]. destruct (GenerateFilter b) as [b1|] eqn:E; [|done].
    simpl_bind. apply IH. by eapply GenerateFilter_small.
Qed.

Lemma AddKey_small b n key : fb_small b n → fb_small (AddKey b key) (S n).
Proof. unfold fb_small. intros Hn. cbn [AddKey result_ FilterBlock.start_]. rewrite length_app. cbn [length]. lia. Qed.

Lemma Finish_small b n contents :
  fb_small b n → Finish b = Some contents →
  (length contents ≤ 2 * B * n + 4 * (length (filter_offsets_ b) + 2) + 1)%nat.
Proof.
  intros Hn. unfold Finish.
  assert (Hb : ∀ b', fb_small b' n → (length (filter_offsets_ b') ≤ S (length (filter_offsets_ b)))%nat →
    Some (PutFixed32 (foldl PutFixed32 (result_ b') (filter_offsets_ b')) (u32 (Z.of_nat (length (result_ b'))))
      ++ [u8 kFilterBaseLg]) = Some contents →
    (length contents ≤ 2 * B * n + 4 * (length (filter_offsets_ b) + 2) + 1)%nat).
  { intros b' Hb' Ho [= <-]. unfold PutFixed32 at 1. rewrite foldl_PutFixed32, !length_app, length_words.
    rewrite EncodeFixed32_le, length_le_bytes. cbn [length]. unfold fb_small in Hb'. lia. }
  destruct (negb _) eqn:E.
  - destruct (GenerateFilter b) as [b'|] eqn:Eg; [|done]. simpl_bind. apply Hb.
    + by eapply GenerateFilter_small.
    + unfold GenerateFilter in Eg. destruct (_ =? 0)%nat; [injection Eg as <-; cbn; rewrite length_app; cbn; lia|].
      destruct (mapM _ _); [|done]. simpl_bind. injection Eg as <-. cbn. rewrite length_app. cbn. lia.
  - simpl_bind. apply Hb; [done|lia].
Qed.
End filter.

(** ** Options *)

Record options_ok `{Port} (o : Options) (B : nat) : Prop := {
  opt_interval : 1 ≤ block_restart_interval o;
  opt_compressor c : compressors o !! 0%nat = Some (Some c) → compressor_ok c;
  opt_filter F : filter_policy o = Some F → FilterPolicyLaws F ∧ filter_size F B
}.

(** ** Writing blocks *)

Section write.
Context `{P : Port} {C : Comparator} {HC : ComparatorLaws C} {NB : Neighbours C}.
Context `{WritableFileLaws W} `{!Reliable W} `{Crc32cLaws} (o : Options) (B : nat) (Ho : options_ok o B).
Implicit Types (r : Rep W).

Abbreviation fdata r := (contents (rep_file r)).

(** The file is where the builder thinks it is. *)
Definition file_ok r : Prop :=
  rep_options r = o ∧ rep_status r = OK ∧ compressed_output r = [] ∧
  writable (rep_file r) ∧ rep_offset r = Z.of_nat (length (fdata r)).

Lemma WriteRawBlock_ok r s c :
  file_ok r → bytes s → (∀ x, c = Some x → 0 < uniqueCompressionID x < 128) →
  Z.of_nat (length (fdata r) + length s + 5) < 2 ^ 64 →
  let type := match c with None => 0 | Some x => uniqueCompressionID x end in
  ∃ f, WriteRawBlock r s c
      = Some (set_file r f (Z.of_nat (length (contents f))) OK,
              mkHandle (Z.of_nat (length (fdata r))) (Z.of_nat (length s))) ∧
    writable f ∧ contents f = fdata r ++ stored_bytes s type ∧ in_width 8 type.
Proof.
  intros (_ & Hst & _ & Hw & Hoff) Hs Hc Hlen type. unfold WriteRawBlock. rewrite Hoff.
  assert (Htype : in_width 8 type).
  { unfold type, in_width. change (2 ^ 8) with 256. destruct c as [x|]; [specialize (Hc x eq_refl); lia|lia]. }
  replace (match c with None => 0 | Some c => u8 (uniqueCompressionID c) end) with type.
  2:{ destruct c as [x|]; [|done]. symmetry. apply (wrap_small 8). exact Htype. }
  destruct (Append_reliable (rep_file r) s Hw) as (f1 & -> & Hw1 & C1). simpl_bind. cbn [ok negb].
  rewrite crc_Value_ref by done. simpl_bind.
  assert (Hcrc : in_width 32 (crc32c_ref 0 s)) by (apply crc32c_ref_width; [unfold in_width; lia|done]).
  rewrite crc_Extend_ref by (done || by apply Forall_singleton). simpl_bind.
  rewrite <-crc32c_ref_app, EncodeFixed32_le.
  destruct (Append_reliable f1 (type :: le_bytes 4 (Mask (crc32c_ref 0 (s ++ [type])))) Hw1) as (f2 & -> & Hw2 & C2).
  simpl_bind. cbn [ok].
  assert (Hcont : contents f2 = fdata r ++ stored_bytes s type).
  { rewrite C2, C1. unfold stored_bytes. by rewrite <-!app_assoc. }
  exists f2. split; [|done]. unfold kBlockTrailerSize. rewrite wrap_small by (unfold in_width; lia).
  do 3 f_equal. rewrite Hcont, length_app, length_stored_bytes. lia.
Qed.

(** The raw contents of a block with the entries [es]. *)
Definition is_block (raw : list Z) (es : list (list Z * list Z)) : Prop :=
  ∃ ents rs, raw = block_contents ents rs ∧ layout ents rs ∧ entry_pair <$> ents = es.

Lemma is_block_bytes raw es : is_block raw es → bytes raw.
Proof.
  intros (ents & rs & -> & HL & _). unfold block_contents. apply Forall_app.
  split; [by apply body_bytes, HL|apply words_bytes].
Qed.

Lemma find_first c cs : compressors o !! 0%nat = Some (Some c) →
  cs = compressors o → find_compressor cs (uniqueCompressionID c) = Some c.
Proof. intros E ->. destruct (compressors o) as [|x l]; [done|]. injection E as ->. cbn. by rewrite Z.eqb_refl. Qed.

Lemma WriteBlock_ok r b es interval ents rs :
  file_ok r → bb_inv interval b ents rs → entry_pair <$> ents = es →
  Z.of_nat (weight 19 es + 8) < 2 ^ 32 → Z.of_nat (length (fdata r)) < 2 ^ 63 →
  ∃ f h raw, WriteBlock r b
      = Some (set_compressed (set_file r f (Z.of_nat (length (contents f))) OK) [], bb_Reset, h) ∧
    writable f ∧ is_block raw es ∧ holds o (contents f) h raw ∧ h_offset h = Z.of_nat (length (fdata r)) ∧
    (∃ more, contents f = fdata r ++ more ∧ (0 < length more ≤ weight 19 es + 13)%nat).
Proof.
  intros Hf Hb He Hsz Hlen. pose proof Hf as (Hopt & Hst & Hcomp & _).
  pose proof (bb_Finish_length interval b ents rs Hb) as Hbl. rewrite He in Hbl.
  assert (Hbz : Z.of_nat (length (bb_Finish b).2) < 2 ^ 32) by lia.
  destruct (bb_Finish_layout interval b ents rs Hb Hbz) as [Eraw HL].
  set (raw := (bb_Finish b).2) in *.
  assert (Hblk : is_block raw es) by (by exists ents, rs). pose proof (is_block_bytes raw es Hblk) as Hraw.
  unfold WriteBlock, tb_ok. rewrite Hst, Hopt, Hcomp. cbn [ok negb]. fold raw. cbv zeta.
  assert (Hchoice : ∃ s c, (match compressors o !! 0%nat with
      | Some (Some c) => let compressed := compressImpl c raw [] in let n := Z.of_nat (length raw) in
          if Z.of_nat (length compressed) <? n - n / 8 then (compressed, Some c) else (raw, None)
      | _ => (raw, None) end) = (s, c) ∧ bytes s ∧ (length s ≤ length raw)%nat ∧
      (∀ x, c = Some x → 0 < uniqueCompressionID x < 128) ∧
      unpacks o s (match c with None => 0 | Some x => uniqueCompressionID x end) raw).
  { assert (Hraw0 : unpacks o raw 0 raw) by (by left).
    destruct (compressors o !! 0%nat) as [[c|]|] eqn:Ec; [|by exists raw, None..].
    destruct (opt_compressor o B Ho c Ec) as [Hid Hcd]. destruct (Hcd raw Hraw) as [Hcb Hdec].
    cbv zeta. destruct (Z.ltb_spec (Z.of_nat (length (compressImpl c raw [])))
      (Z.of_nat (length raw) - Z.of_nat (length raw) / 8)) as [Hlt|]; [|by exists raw, None].
    exists (compressImpl c raw []), (Some c). split; [done|]. split; [done|].
    pose proof (Z.div_pos (Z.of_nat (length raw)) 8 ltac:(lia) ltac:(lia)).
    split; [lia|]. split; [by intros ? [= <-]|]. right. split; [lia|]. exists c.
    split; [by apply find_first|done]. }
  cbv zeta in Hchoice. destruct Hchoice as (s & c & -> & Hsb & Hsl & Hc & Hu).
  destruct (WriteRawBlock_ok r s c Hf Hsb Hc ltac:(lia)) as (f & -> & Hw & Hcont & Htype). simpl_bind.
  eexists f, _, raw. split; [done|]. split; [done|]. split; [done|]. split; [|split; [done|]].
  - rewrite Hcont. eexists (fdata r), s, _, []. rewrite app_nil_r. done.
  - eexists. split; [exact Hcont|]. rewrite length_stored_bytes. lia.
Qed.

(** ** The filter *)

(** [hs] are the handles of the blocks written so far, [cur] the entries of
    the next one; [n] keys have been added. *)
Definition filter_inv (fbo : option (FilterPolicy * FilterBlockBuilder)) (off : Z) (hs : list BlockHandle)
    (blocks : list (list (list Z * list Z))) (cur : list (list Z * list Z)) (n : nat) : Prop :=
  match filter_policy o with
  | None => fbo = None
  | Some F => ∃ fb groups ck filters,
      fbo = Some (F, fb) ∧ fb_inv (F := F) fb groups ck filters ∧ fb_small B fb n ∧ (length ck ≤ n)%nat ∧
      Z.of_nat (length groups) = off / kFilterBase ∧
      (∀ j h b e, hs !! j = Some h → blocks !! j = Some b → e ∈ b →
         e.1 ∈ slot groups ck (Z.to_nat (h_offset h / kFilterBase))) ∧
      ∀ e, e ∈ cur → e.1 ∈ slot groups ck (Z.to_nat (off / kFilterBase))
  end.

Lemma slot_add groups ck key i k :
  k ∈ slot groups ck i → k ∈ slot groups (ck ++ [key]) i.
Proof.
  unfold slot. destruct (decide (i < length groups)%nat).
  - by rewrite !lookup_app_l.
  - rewrite !lookup_app_r by lia. destruct (i - length groups)%nat; [|done]. cbn. rewrite elem_of_app. by left.
Qed.

Lemma filter_inv_add fbo off hs blocks cur n key value :
  filter_inv fbo off hs blocks cur n → Z.of_nat n + 1 < 2 ^ 31 →
  filter_inv ((λ fb, (fb.1, AddKey fb.2 key)) <$> fbo) off hs blocks (cur ++ [(key, value)]) (S n).
Proof.
  unfold filter_inv. destruct (filter_policy o) as [F|]; [|by intros ->].
  intros (fb & groups & ck & filters & -> & Hi & Hs & Hc & Hg & Hb & He) Hn.
  exists (AddKey fb key), groups, (ck ++ [key]), filters. split; [done|].
  split; [apply AddKey_inv; [done|lia]|]. split; [by apply AddKey_small|].
  split; [rewrite length_app; cbn; lia|]. split; [done|]. split.
  - intros j h b e Hh Hbj Hin. eapply slot_add, Hb; done.
  - intros e [Hin|Hin%list_elem_of_singleton]%elem_of_app; [by apply slot_add, He|]. subst e. cbn [fst].
    unfold slot. rewrite <-Hg, Nat2Z.id, lookup_app_r, Nat.sub_diag by lia. cbn. apply elem_of_app. right.
    by apply list_elem_of_singleton.
Qed.

Lemma set_filter_same r : set_filter r (filter_block r) = r.
Proof. by destruct r. Qed.

Lemma start_filter_ok r off' off hs blocks cur n h :
  filter_inv (filter_block r) off hs blocks cur n → h_offset h = off → 0 ≤ off ≤ off' →
  length hs = length blocks →
  ∃ fbo, start_filter r off' = Some (set_filter r fbo) ∧ filter_inv fbo off' (hs ++ [h]) (blocks ++ [cur]) [] n.
Proof.
  intros Hfi Hh Hoff Hlen. unfold filter_inv in *. unfold start_filter.
  destruct (filter_policy o) as [F|] eqn:EF.
  2:{ exists (filter_block r). rewrite set_filter_same. by rewrite Hfi. }
  destruct Hfi as (fb & groups & ck & filters & -> & Hi & Hs & Hc & Hg & Hb & He).
  destruct (opt_filter o B Ho F EF) as [HF HB].
  destruct (StartBlock_inv fb groups ck filters off' Hi) as (fb' & g' & c' & f' & E & Hi' & Hl' & Hc' & Hs').
  { rewrite Hg. apply Z.div_le_mono; [done|lia]. }
  rewrite E. simpl_bind. eexists. split; [done|]. exists fb', g', c', f'. split; [done|]. split; [done|].
  split; [by eapply StartBlock_small|]. split; [lia|]. split; [done|]. split; [|by intros e ?%not_elem_of_nil].
  intros j h' b e Hj Hbj Hin. apply Hs'. destruct (decide (j < length hs)%nat).
  - rewrite lookup_app_l in Hj by done. rewrite lookup_app_l in Hbj by lia. by apply (Hb j h' b e).
  - assert (j = length hs) as -> by (apply lookup_lt_Some in Hj; rewrite length_app in Hj; cbn in Hj; lia).
    rewrite lookup_app_r, Nat.sub_diag in Hj by lia. injection Hj as <-.
    rewrite lookup_app_r, Hlen, Nat.sub_diag in Hbj by lia. injection Hbj as <-. rewrite Hh. by apply He.
Qed.

Lemma start_filter_new r :
  filter_block r = (λ F, (F, NewBuilder)) <$> filter_policy o →
  ∃ fbo, start_filter r 0 = Some (set_filter r fbo) ∧ filter_inv fbo 0 [] [] [] 0.
Proof.
  intros Hr. unfold start_filter, filter_inv. destruct (filter_policy o) as [F|] eqn:EF; cbn [fmap option_fmap option_map] in Hr.
  2:{ exists (filter_block r). rewrite set_filter_same. by rewrite Hr. }
  rewrite Hr.
  destruct (opt_filter o B Ho F EF) as [HF HB].
  assert (Hi : fb_inv (F := F) NewBuilder [] [] []) by (split; done).
  destruct (StartBlock_inv NewBuilder [] [] [] 0 Hi) as (fb' & g' & c' & f' & E & Hi' & Hl' & Hc' & Hs'); [done|].
  rewrite E. simpl_bind. eexists. split; [done|]. exists fb', g', c', f'. split; [done|]. split; [done|].
  split; [eapply (StartBlock_small F B HB); [|exact E]; unfold fb_small; cbn; lia|]. split; [cbn in Hc'; lia|]. split; [done|].
  split; [done|]. by intros e ?%not_elem_of_nil.
Qed.

(** ** The invariant between calls *)

(** The entries fit: every block and the filter stay under 4GB. *)
Definition small (es : list (list Z * list Z)) : Prop :=
  Z.of_nat (weight (64 + 2 * B) es + 2 * B + 1024) < 2 ^ 32.

(** A key that is not behind [k] and near an entry from [lim] on is not behind
    all of [earlier]. *)
Definition tight_at (k lim : list Z) (earlier : list (list Z * list Z)) : Prop :=
  ∀ e k', Compare lim e ≤ 0 → near k' e → Compare k' k ≤ 0 → Exists (λ a, Compare k' a.1 ≤ 0) earlier.

Definition sep_tight (k : list Z) (earlier later : list (list Z * list Z)) : Prop :=
  later = [] ∨ ∃ lim, Forall (λ e, Compare lim e.1 ≤ 0) later ∧ tight_at k lim earlier.

(** The key of block [j] in the index is not before the entries of the blocks
    up to [j] and before all others, and keeps neighbours together. *)
Definition seps_ok (ies : list (list Z * list Z)) (blocks : list (list (list Z * list Z)))
    (cur : list (list Z * list Z)) : Prop :=
  ∀ j k, ies.*1 !! j = Some k →
    Forall (λ e, Compare e.1 k ≤ 0) (concat (take (S j) blocks)) ∧
    Forall (λ e, Compare k e.1 < 0) (concat (drop (S j) blocks) ++ cur) ∧
    sep_tight k (concat (take (S j) blocks)) (concat (drop (S j) blocks) ++ cur).

Record tb_inv r (hs : list BlockHandle) (blocks : list (list (list Z * list Z)))
    (cur ies : list (list Z * list Z)) : Prop := {
  ti_file : file_ok r;
  ti_interval : index_interval r = 1;
  ti_open : closed r = false;
  ti_len : (length (fdata r) ≤ weight 32 (concat blocks))%nat;
  ti_order : NoDup (h_offset <$> hs) ∧ Forall (λ h, h_offset h < rep_offset r) hs;
  ti_blocks : Forall2 (λ h b, b ≠ [] ∧ ∃ raw, holds o (fdata r) h raw ∧ is_block raw b) hs blocks;
  ti_data : ∃ ents rs, bb_inv (block_restart_interval o) (data_block r) ents rs ∧ entry_pair <$> ents = cur;
  ti_index : ∃ ents rs, bb_inv 1 (index_block r) ents rs ∧ entry_pair <$> ents = ies;
  ti_handles : if pending_index_entry r
    then cur = [] ∧ ∃ hs0, hs = hs0 ++ [pending_handle r] ∧ ies.*2 = handle_bytes <$> hs0
    else ies.*2 = handle_bytes <$> hs ∧ (cur = [] → hs = []);
  ti_seps : seps_ok ies blocks cur;
  ti_seplast : Forall (λ k, Compare k (last_key r) < 0) ies.*1;
  ti_isize : (weight 19 ies ≤ weight 39 (concat (take (length ies) blocks)))%nat;
  ti_last e : last (concat blocks ++ cur) = Some e → last_key r = e.1;
  ti_num : num_entries r = Z.of_nat (length (concat blocks ++ cur));
  ti_entries : Forall (λ e, str_ok e.1 ∧ str_ok e.2) (concat blocks ++ cur);
  ti_filter : filter_inv (filter_block r) (rep_offset r) hs blocks cur (length (concat blocks ++ cur))
}.

Lemma small_weight c es : small es → (c ≤ 64)%nat → Z.of_nat (weight c es + 1024) < 2 ^ 32.
Proof. unfold small. intros Hs Hc. pose proof (weight_mono c (64 + 2 * B) es ltac:(lia)). lia. Qed.

Lemma small_app es es' : small (es ++ es') → small es.
Proof. unfold small. rewrite weight_app. lia. Qed.

Lemma small_length es : small es → Z.of_nat (length es) < 2 ^ 26.
Proof. intros Hs. pose proof (small_weight 64 es Hs ltac:(lia)). pose proof (weight_length 64 es). lia. Qed.

Lemma tb_inv_lengths r hs blocks cur ies :
  tb_inv r hs blocks cur ies →
  length hs = length blocks ∧
  length blocks = (length ies + if pending_index_entry r then 1 else 0)%nat.
Proof.
  intros Hi. pose proof (Forall2_length _ _ _ (ti_blocks _ _ _ _ _ Hi)) as Hl. split; [done|].
  pose proof (ti_handles _ _ _ _ _ Hi) as Hh. destruct (pending_index_entry r).
  - destruct Hh as (_ & hs0 & -> & E). apply (f_equal length) in E. rewrite !length_fmap in E.
    rewrite length_app in Hl. cbn in Hl. lia.
  - destruct Hh as [E _]. apply (f_equal length) in E. rewrite !length_fmap in E. lia.
Qed.

Lemma data_empty interval b ents rs : bb_inv interval b ents rs → bb_empty b = bool_decide (ents = []).
Proof.
  intros Hb. unfold bb_empty. rewrite (bb_buffer _ _ _ _ Hb). apply bool_decide_ext.
  destruct ents as [|e ents]; [done|]. split; [|done]. intros E%(f_equal length).
  change (body (e :: ents)) with (enc_entry e ++ body ents) in E. rewrite length_app in E.
  pose proof (length_enc_entry e). cbn in E. lia.
Qed.

Lemma last_in {A} (l : list A) x : last l = Some x → ∃ l', l = l' ++ [x].
Proof. apply last_Some. Qed.

Lemma sorted_last es e x : keys_sorted es → last es = Some e → x ∈ es → Compare x.1 e.1 ≤ 0.
Proof.
  intros Hs (l & ->)%last_in [Hx|Hx%list_elem_of_singleton]%elem_of_app.
  - apply StronglySorted_app in Hs as (Hs & _). specialize (Hs x e Hx ltac:(by apply list_elem_of_singleton)). lia.
  - subst x. rewrite Compare_refl. lia.
Qed.

(** ** The index entry of a finished block *)

Lemma add_index_ok r hs blocks ies k e :
  tb_inv r hs blocks [] ies → pending_index_entry r = true → last (concat blocks) = Some e →
  keys_sorted (concat blocks) → small (concat blocks) →
  Compare e.1 k ≤ 0 → bytes k → (length k ≤ length e.1)%nat →
  let ie := (k, handle_bytes (pending_handle r)) in
  ∃ idx ents rs,
    handle_ok (pending_handle r) ∧ bb_Add 1 (index_block r) k (handle_bytes (pending_handle r)) = Some idx ∧
    bb_inv 1 idx ents rs ∧ entry_pair <$> ents = ies ++ [ie] ∧
    (ies ++ [ie]).*2 = handle_bytes <$> hs ∧ seps_ok (ies ++ [ie]) blocks [] ∧
    (weight 19 (ies ++ [ie]) ≤ weight 39 (concat blocks))%nat.
Proof.
  intros Hi Hp Hlast Hsort Hsm Hk Hkb Hkl ie. destruct (tb_inv_lengths _ _ _ _ _ Hi) as [Hl1 Hl2]. rewrite Hp in Hl2.
  pose proof (ti_last _ _ _ _ _ Hi e) as Hlk. rewrite app_nil_r in Hlk. specialize (Hlk Hlast).
  destruct (ti_index _ _ _ _ _ Hi) as (ients & irs & Hb & Hies).
  pose proof (ti_handles _ _ _ _ _ Hi) as Hh. rewrite Hp in Hh. destruct Hh as (_ & hs0 & Hhs & Hih).
  pose proof (ti_blocks _ _ _ _ _ Hi) as Hblk. rewrite Hhs in Hblk.
  apply Forall2_app_inv_l in Hblk as (bl0 & bl1 & Hbl0 & Hbl1 & Ebl).
  apply Forall2_cons_inv_l in Hbl1 as (b & bl2 & (Hbne & raw & Hholds & _) & Hbl2 & ->).
  apply Forall2_nil_inv_l in Hbl2 as ->.
  assert (Hlen0 : length bl0 = length ies).
  { apply Forall2_length in Hbl0. apply (f_equal length) in Hih. rewrite !length_fmap in Hih. lia. }
  assert (Hho : handle_ok (pending_handle r)).
  { apply (holds_handle o (fdata r) _ raw Hholds). pose proof (ti_len _ _ _ _ _ Hi).
    pose proof (small_weight 32 _ Hsm ltac:(lia)). lia. }
  assert (Heb : e ∈ b).
  { rewrite Ebl, concat_app in Hlast. cbn in Hlast. rewrite app_nil_r in Hlast.
    destruct b as [|x b] using rev_ind; [done|]. rewrite app_assoc, last_snoc in Hlast. injection Hlast as ->.
    apply elem_of_app. right. by apply list_elem_of_singleton. }
  assert (Hstr : str_ok e.1).
  { pose proof (ti_entries _ _ _ _ _ Hi) as He. rewrite app_nil_r, Forall_forall in He.
    apply (He e). by apply last_Some_elem_of. }
  assert (Hkw : str_ok k) by (split; [done|]; destruct Hstr as [_ Hw]; unfold in_width in *; lia).
  assert (Hvw : str_ok (handle_bytes (pending_handle r))).
  { split; [by apply handle_bytes_bytes|]. pose proof (length_handle_bytes (pending_handle r)). unfold in_width. lia. }
  destruct (bb_Add_inv 1 ltac:(lia) (index_block r) ients irs k (handle_bytes (pending_handle r)) Hb Hkw Hvw)
    as (idx & ent & rs & E & Ek & Ev & Hidx).
  { intros p Hp'. apply (Compare_lt_le_trans _ e.1); [|done]. rewrite <-Hlk.
    pose proof (ti_seplast _ _ _ _ _ Hi) as Hsl. rewrite Forall_forall in Hsl. apply Hsl.
    rewrite <-Hies, <-list_fmap_compose. apply list_elem_of_fmap. exists p. split; [done|]. by apply last_Some_elem_of. }
  exists idx, (ients ++ [ent]), rs. split; [done|]. split; [done|]. split; [done|]. split; [|split; [|split]].
  - rewrite fmap_app, Hies. cbn. unfold entry_pair. by rewrite Ek, Ev.
  - by rewrite fmap_app, Hih, Hhs, fmap_app.
  - intros j k' Hj. rewrite fmap_app in Hj. destruct (decide (j < length ies)%nat) as [Hlt|Hge].
    + rewrite lookup_app_l in Hj by (by rewrite length_fmap). by apply (ti_seps _ _ _ _ _ Hi).
    + assert (j = length ies) as ->.
      { apply lookup_lt_Some in Hj. rewrite length_app, length_fmap in Hj. cbn in Hj. lia. }
      rewrite lookup_app_r, length_fmap, Nat.sub_diag in Hj by (by rewrite length_fmap). injection Hj as <-.
      rewrite take_ge, drop_ge by lia. split; [|split; [constructor|by left]]. apply Forall_forall. intros x Hx.
      apply (Compare_trans _ e.1); [by eapply sorted_last|done].
  - rewrite weight_app, Ebl, concat_app, weight_app. cbn [weight concat fst snd]. rewrite app_nil_r.
    pose proof (ti_isize _ _ _ _ _ Hi) as Hsz. rewrite Ebl, take_app_le, take_ge in Hsz by lia.
    pose proof (length_handle_bytes (pending_handle r)).
    assert (length e.1 + 39 ≤ weight 39 b)%nat; [|unfold ie; cbn [fst snd]; lia].
    apply list_elem_of_split in Heb as (l1 & l2 & ->). rewrite weight_app. cbn [weight]. lia.
Qed.

Lemma add_index_run r k n idx :
  index_interval r = 1 → handle_ok (pending_handle r) →
  bb_Add 1 (index_block r) k (handle_bytes (pending_handle r)) = Some idx →
  add_index_entry (set_last_key r k n)
  = Some (set_pending (set_index_block (set_last_key r k n) idx) false (pending_handle r)).
Proof.
  intros Hi Hh E. unfold add_index_entry. rep_simpl. rewrite handle_EncodeTo_bytes by done. simpl_bind.
  rewrite Hi. cbn [app]. rewrite E. by simpl_bind.
Qed.

(** ** [Flush] *)

Lemma bb_Reset_inv interval : 1 ≤ interval → bb_inv interval bb_Reset [] [0%nat].
Proof.
  intros Hi. destruct (NewBlockBuilder_inv interval Hi) as (b & E & Hb). unfold NewBlockBuilder in E.
  rewrite (proj2 (Z.leb_le _ _) Hi) in E. by injection E as <-.
Qed.

Lemma seps_ok_flush ies blocks cur :
  seps_ok ies blocks cur → length ies = length blocks → seps_ok ies (blocks ++ [cur]) [].
Proof.
  intros Hs Hl j k Hj. destruct (Hs j k Hj) as (H1' & H2' & H3').
  assert (Hjl : (S j ≤ length blocks)%nat).
  { apply lookup_lt_Some in Hj. rewrite length_fmap in Hj. lia. }
  rewrite take_app_le, drop_app_le, concat_app by done. cbn. by rewrite !app_nil_r.
Qed.

Lemma tb_Flush_inv r hs blocks cur ies :
  tb_inv r hs blocks cur ies → cur ≠ [] → small (concat blocks ++ cur) →
  ∃ r' h, tb_Flush r = Some r' ∧ tb_inv r' (hs ++ [h]) (blocks ++ [cur]) [] ies ∧
    pending_index_entry r' = true ∧ ∃ more, fdata r' = fdata r ++ more.
Proof.
  intros Hi Hcur Hsm. destruct (tb_inv_lengths _ _ _ _ _ Hi) as [Hl1 Hl2].
  assert (Hp : pending_index_entry r = false).
  { pose proof (ti_handles _ _ _ _ _ Hi) as Hh. destruct (pending_index_entry r); [|done]. by destruct Hh as [? _]. }
  pose proof (ti_handles _ _ _ _ _ Hi) as Hh. rewrite Hp in Hh, Hl2. destruct Hh as [Hih _].
  pose proof (ti_file _ _ _ _ _ Hi) as Hf. pose proof Hf as (Hopt & Hst & Hcomp & Hw & Hoff).
  destruct (ti_data _ _ _ _ _ Hi) as (ents & rs & Hb & He).
  unfold tb_Flush. rewrite (ti_open _ _ _ _ _ Hi). unfold tb_ok at 1. rewrite Hst. cbn [ok negb].
  rewrite (data_empty _ _ _ _ Hb), bool_decide_false by (intros ->; by subst cur). rewrite Hp.
  pose proof (ti_len _ _ _ _ _ Hi) as Hlen. pose proof (small_weight 32 _ Hsm ltac:(lia)) as H32.
  pose proof (small_weight 19 _ Hsm ltac:(lia)) as H19. rewrite weight_app in H32, H19.
  destruct (WriteBlock_ok r (data_block r) cur _ ents rs Hf Hb He) as
    (f & h & raw & -> & Hwf & Hblk & Hholds & Hho & more & Hmore & Hml); [lia|lia|].
  simpl_bind. rep_simpl. unfold tb_ok. rep_simpl. cbn [ok].
  destruct (Flush_reliable f Hwf) as (f' & -> & Hwf' & Hcf). simpl_bind. rep_simpl.
  match goal with |- context [start_filter ?x _] => set (r2 := x) end.
  destruct (start_filter_ok r2 (Z.of_nat (length (contents f))) (rep_offset r) hs blocks cur
    (length (concat blocks ++ cur)) h) as (fbo & E & Hfi).
  { exact (ti_filter _ _ _ _ _ Hi). }
  { by rewrite Hoff. }
  { rewrite Hoff, Hmore, length_app. lia. }
  { done. }
  rewrite E. eexists _, h. split; [done|].
  assert (Hcat : concat (blocks ++ [cur]) ++ [] = concat blocks ++ cur).
  { rewrite concat_app. cbn. by rewrite !app_nil_r. }
  split; [|split; [done|exists more; unfold r2; rep_simpl; by rewrite Hcf]].
  unfold r2. split; rep_simpl; rewrite ?Hcat.
  - split_and!; rep_simpl; [done..|]. by rewrite Hcf.
  - exact (ti_interval _ _ _ _ _ Hi).
  - exact (ti_open _ _ _ _ _ Hi).
  - rewrite Hcf, Hmore, length_app, concat_app, weight_app. cbn [concat]. rewrite app_nil_r.
    destruct cur as [|e0 cur]; [done|]. cbn [weight] in *. pose proof (weight_mono 19 32 cur ltac:(lia)). lia.
  - destruct (ti_order _ _ _ _ _ Hi) as [Hnd Hord]. rewrite Forall_forall in Hord. split.
    + rewrite fmap_app. apply NoDup_app. split; [done|]. split; [|apply NoDup_singleton].
      intros z (h' & -> & Hh')%list_elem_of_fmap Hz%list_elem_of_singleton. specialize (Hord h' Hh'). lia.
    + rewrite Hmore, length_app. apply Forall_app. split; [|constructor; [lia|constructor]].
      apply Forall_forall. intros h' Hh'. specialize (Hord h' Hh'). lia.
  - apply Forall2_app; [|constructor; [|constructor]].
    + eapply Forall2_impl; [exact (ti_blocks _ _ _ _ _ Hi)|]. intros h' b [Hb' (raw' & Hr' & Hbl')].
      split; [done|]. exists raw'. split; [|done]. rewrite Hcf, Hmore. by apply holds_app.
    + split; [done|]. exists raw. by rewrite Hcf.
  - exists [], [0%nat]. split; [|done]. apply bb_Reset_inv. apply (opt_interval o B Ho).
  - exact (ti_index _ _ _ _ _ Hi).
  - split; [done|]. by exists hs.
  - apply seps_ok_flush; [exact (ti_seps _ _ _ _ _ Hi)|lia].
  - exact (ti_seplast _ _ _ _ _ Hi).
  - rewrite take_app_le by lia. exact (ti_isize _ _ _ _ _ Hi).
  - exact (ti_last _ _ _ _ _ Hi).
  - exact (ti_num _ _ _ _ _ Hi).
  - exact (ti_entries _ _ _ _ _ Hi).
  - exact Hfi.
Qed.

Lemma tb_Flush_empty r hs blocks ies : tb_inv r hs blocks [] ies → tb_Flush r = Some r.
Proof.
  intros Hi. pose proof (ti_file _ _ _ _ _ Hi) as (_ & Hst & _). unfold tb_Flush, tb_ok.
  rewrite (ti_open _ _ _ _ _ Hi), Hst. cbn [ok negb]. destruct (ti_data _ _ _ _ _ Hi) as (ents & rs & Hb & He).
  apply fmap_nil_inv in He as ->. by rewrite (data_empty _ _ _ _ Hb).
Qed.

(** ** [Add] *)

Lemma NewTableBuilder_inv f :
  writable f → contents f = [] → ∃ r, NewTableBuilder o f = Some r ∧ tb_inv r [] [] [] [] ∧ rep_file r = f.
Proof.
  intros Hw Hc. unfold NewTableBuilder.
  destruct (NewBlockBuilder_inv _ (opt_interval o B Ho)) as (data & -> & Hd). simpl_bind.
  destruct (NewBlockBuilder_inv 1 ltac:(lia)) as (index & -> & Hx). simpl_bind.
  match goal with |- context [start_filter ?x _] => set (r0 := x) end.
  destruct (start_filter_new r0 eq_refl) as (fbo & -> & Hfi). eexists. split; [done|]. split; [|done].
  unfold r0. split; rep_simpl; try done; try (by exists [], [0%nat]); try (by constructor); [|by rewrite Hc|by split; constructor].
  split_and!; rep_simpl; [done..|]. by rewrite Hc.
Qed.

(** The state after the index entry of the last block has been added, if it
    was pending. *)
Definition with_index r idx lk : Rep W :=
  set_pending (set_index_block (set_last_key r lk (num_entries r)) idx) false (pending_handle r).

Lemma Add_index_inv r hs blocks cur ies key :
  tb_inv r hs blocks cur ies → keys_sorted (concat blocks ++ cur) → small (concat blocks ++ cur) → bytes key →
  Forall (λ e, Compare e.1 key < 0) (concat blocks ++ cur) →
  ∃ idx lk ies' ents rs,
    (if pending_index_entry r then
       if negb (bb_empty (data_block r)) then None
       else add_index_entry (set_last_key r (FindShortestSeparator (last_key r) key) (num_entries r))
     else Some r) = Some (with_index r idx lk) ∧
    bb_inv 1 idx ents rs ∧ entry_pair <$> ents = ies' ∧ ies'.*2 = handle_bytes <$> hs ∧
    seps_ok ies' blocks cur ∧ Forall (λ k, Compare k key < 0) ies'.*1 ∧
    (∀ j k, ies'.*1 !! j = Some k → concat (drop (S j) blocks) ++ cur = [] →
       tight_at k key (concat (take (S j) blocks))) ∧
    (weight 19 ies' ≤ weight 39 (concat (take (length ies') blocks)))%nat.
Proof.
  intros Hi Hs Hsm Hkey Hlt. pose proof (ti_handles _ _ _ _ _ Hi) as Hh.
  destruct (tb_inv_lengths _ _ _ _ _ Hi) as [Hl1 Hl2].
  assert (Hnon : concat blocks ++ cur ≠ [] → ∃ e, last (concat blocks ++ cur) = Some e ∧ last_key r = e.1 ∧
    Compare e.1 key < 0 ∧ str_ok e.1).
  { intros Hne. destruct (last (concat blocks ++ cur)) as [e|] eqn:Ee; [|by apply last_None in Ee].
    exists e. split; [done|]. split; [by apply (ti_last _ _ _ _ _ Hi)|]. apply last_Some_elem_of in Ee.
    pose proof (ti_entries _ _ _ _ _ Hi) as He. rewrite Forall_forall in Hlt, He. split; [by apply Hlt|]. by apply He. }
  destruct (pending_index_entry r) eqn:Hp.
  - destruct Hh as (-> & hs0 & Hhs & _). rewrite app_nil_r in *.
    destruct (ti_data _ _ _ _ _ Hi) as (ents & rs & Hb & He). apply fmap_nil_inv in He as ->.
    rewrite (data_empty _ _ _ _ Hb), bool_decide_true by done. cbn [negb].
    assert (Hne : concat blocks ≠ []).
    { pose proof (ti_blocks _ _ _ _ _ Hi) as Hblk. rewrite Hhs in Hblk.
      apply Forall2_app_inv_l in Hblk as (bl0 & bl1 & _ & Hbl1 & ->).
      apply Forall2_cons_inv_l in Hbl1 as (b & bl2 & (Hbne & _) & _ & ->).
      rewrite concat_app. cbn. by destruct b, (concat bl0). }
    destruct (Hnon Hne) as (e & Ee & Hlk & Hek & Hstr). pose proof Hstr as [Hebytes _]. rewrite Hlk.
    destruct (FindShortestSeparator_spec e.1 key Hebytes Hkey Hek) as [Hle Hlim].
    destruct (add_index_ok r hs blocks ies (FindShortestSeparator e.1 key) e Hi Hp Ee Hs Hsm Hle)
      as (idx & ients & irs & Hho & E & Hidx & Hies & Hhb & Hseps & Hw).
    { by apply FindShortestSeparator_bytes. }
    { by apply FindShortestSeparator_length. }
    eexists idx, (FindShortestSeparator e.1 key), _, ients, irs.
    split; [apply add_index_run; [exact (ti_interval _ _ _ _ _ Hi)|done|exact E]|]. split; [done|].
    split; [exact Hies|]. split; [done|]. split; [done|]. split.
    + rewrite fmap_app. apply Forall_app. split; [|by constructor].
      eapply Forall_impl; [exact (ti_seplast _ _ _ _ _ Hi)|]. cbn. intros k Hk. rewrite Hlk in Hk.
      apply (Compare_lt_le_trans _ e.1); [done|lia].
    + rewrite take_ge by (rewrite length_app; cbn; lia). split; [|done].
      intros j k Hj Hnil. rewrite app_nil_r in Hnil. rewrite fmap_app in Hj.
      assert (Hjl : j = length ies).
      { destruct (decide (S j < length blocks)%nat) as [Hlt'|].
        - destruct (lookup_lt_is_Some_2 blocks (S j) Hlt') as [b Hbj].
          destruct (Forall2_lookup_r _ _ _ _ _ (ti_blocks _ _ _ _ _ Hi) Hbj) as (h & _ & Hbne & _).
          rewrite (drop_S _ _ _ Hbj) in Hnil. cbn in Hnil. by apply app_eq_nil in Hnil as [-> _].
        - apply lookup_lt_Some in Hj. rewrite length_app, length_fmap in Hj. cbn in Hj. lia. }
      subst j. rewrite lookup_app_r, length_fmap, Nat.sub_diag in Hj by (by rewrite length_fmap). injection Hj as <-.
      rewrite take_ge by lia. intros e' k' He' Hnear Hk'. apply Exists_exists. exists e.
      split; [by apply last_Some_elem_of|]. by apply (near_separator e.1 key e' k').
  - destruct Hh as [Hih Hcur]. destruct (ti_index _ _ _ _ _ Hi) as (ients & irs & Hb & He).
    exists (index_block r), (last_key r), ies, ients, irs. split.
    { unfold with_index. destruct r. cbn in Hp. by rewrite Hp. }
    split; [done|]. split; [done|]. split; [done|]. split; [exact (ti_seps _ _ _ _ _ Hi)|].
    split; [|split; [|exact (ti_isize _ _ _ _ _ Hi)]].
    2:{ intros j k Hj Hnil. exfalso. apply app_eq_nil in Hnil as [_ ->].
        rewrite (Hcur eq_refl) in *. apply lookup_lt_Some in Hj. rewrite length_fmap in Hj. cbn in Hl1. lia. }
    destruct (decide (concat blocks ++ cur = [])) as [Hnil|Hne].
    + assert (ies = []) as ->; [|constructor]. apply app_eq_nil in Hnil as [_ ->].
      apply length_zero_iff_nil. rewrite (Hcur eq_refl) in Hl1. cbn in Hl1. lia.
    + destruct (Hnon Hne) as (e & _ & Hlk & Hek & _).
      eapply Forall_impl; [exact (ti_seplast _ _ _ _ _ Hi)|]. cbn. intros k Hk. rewrite Hlk in Hk.
      apply (Compare_lt_le_trans _ e.1); [done|lia].
Qed.

Lemma seps_ok_add ies blocks cur key value :
  seps_ok ies blocks cur → Forall (λ k, Compare k key < 0) ies.*1 →
  Forall (λ e, Compare e.1 key < 0) (concat blocks ++ cur) →
  (∀ j k, ies.*1 !! j = Some k → concat (drop (S j) blocks) ++ cur = [] →
     tight_at k key (concat (take (S j) blocks))) →
  seps_ok ies blocks (cur ++ [(key, value)]).
Proof.
  intros Hs Hk Hlt Hnew j k Hj. destruct (Hs j k Hj) as (H1' & H2' & H3'). split; [done|]. rewrite app_assoc.
  specialize (Hnew j k Hj). set (later := concat (drop (S j) blocks) ++ cur) in *. split.
  { apply Forall_app. split; [done|]. constructor; [|constructor]. cbn. by apply (Forall_lookup_1 _ _ j k Hk). }
  right. destruct later as [|e0 later'] eqn:El.
  - exists key. split; [|by apply Hnew]. constructor; [|constructor]. cbn. by rewrite Compare_refl.
  - destruct H3' as [|(lim & Hlim & Ht)]; [done|]. exists lim. split; [|done]. apply Forall_app. split; [done|].
    constructor; [|constructor]. cbn. apply Forall_cons in Hlim as [Hl0 _].
    assert (He0 : e0 ∈ concat blocks ++ cur).
    { rewrite <-(take_drop (S j) blocks), concat_app, <-app_assoc. apply elem_of_app. right.
      fold later. rewrite El. by left. }
    rewrite Forall_forall in Hlt. specialize (Hlt e0 He0). apply (Compare_trans _ e0.1); [done|lia].
Qed.

Lemma sorted_before_last es key value :
  keys_sorted (es ++ [(key, value)]) → keys_sorted es ∧ Forall (λ e, Compare e.1 key < 0) es.
Proof.
  intros (Hs & Hs1 & _)%StronglySorted_app. split; [done|]. apply Forall_forall. intros e He.
  apply (Hs e (key, value) He). by apply list_elem_of_singleton.
Qed.

Lemma tb_Add_inv r hs blocks cur ies key value :
  tb_inv r hs blocks cur ies → keys_sorted ((concat blocks ++ cur) ++ [(key, value)]) →
  str_ok key → str_ok value → small ((concat blocks ++ cur) ++ [(key, value)]) →
  ∃ r' hs' blocks' cur' ies', tb_Add r key value = Some r' ∧ tb_inv r' hs' blocks' cur' ies' ∧
    concat blocks' ++ cur' = (concat blocks ++ cur) ++ [(key, value)].
Proof.
  intros Hi Hsort Hk Hv Hsm. destruct (sorted_before_last _ _ _ Hsort) as [Hs Hlt].
  pose proof (small_app _ _ Hsm) as Hsm0. pose proof (small_length _ Hsm) as Hcount.
  rewrite length_app in Hcount. cbn [length] in Hcount.
  pose proof (ti_file _ _ _ _ _ Hi) as (Hopt & Hst & Hcomp & Hw & Hoff).
  unfold tb_Add. rewrite (ti_open _ _ _ _ _ Hi). unfold tb_ok at 1. rewrite Hst. cbn [ok negb].
  assert (Hassert : (0 <? num_entries r) && negb (0 <? Compare key (last_key r)) = false).
  { rewrite (ti_num _ _ _ _ _ Hi). destruct (last (concat blocks ++ cur)) as [e|] eqn:Ee.
    - rewrite (ti_last _ _ _ _ _ Hi e Ee). apply andb_false_iff. right. apply negb_false_iff, Z.ltb_lt.
      apply last_Some_elem_of in Ee. rewrite Forall_forall in Hlt. specialize (Hlt e Ee).
      apply Compare_lt_anti in Hlt. lia.
    - apply last_None in Ee as ->. done. }
  rewrite Hassert.
  destruct (Add_index_inv r hs blocks cur ies key Hi Hs Hsm0 (proj1 Hk) Hlt)
    as (idx & lk & ies' & ients & irs & -> & Hidx & Hies & Hih & Hseps & Hsk & Htight & Hisz).
  simpl_bind. unfold with_index. rep_simpl. rewrite Hopt.
  destruct (ti_data _ _ _ _ _ Hi) as (ents & rs & Hb & He).
  destruct (bb_Add_inv _ (opt_interval o B Ho) (data_block r) ents rs key value Hb Hk Hv)
    as (data & ent & rs' & -> & Ek & Ev & Hdata).
  { intros p Hp. rewrite Forall_forall in Hlt. apply (Hlt (entry_pair p)). apply elem_of_app. right.
    rewrite <-He. apply list_elem_of_fmap. exists p. split; [done|]. by apply last_Some_elem_of. }
  simpl_bind. rep_simpl.
  match goal with |- context [tb_Flush ?x] => set (r3 := x) end.
  assert (Hi3 : tb_inv r3 hs blocks (cur ++ [(key, value)]) ies').
  { unfold r3. split; rep_simpl; try (exact (ti_open _ _ _ _ _ Hi)); rewrite ?app_assoc.
    - by split_and!.
    - exact (ti_interval _ _ _ _ _ Hi).
    - exact (ti_len _ _ _ _ _ Hi).
    - exact (ti_order _ _ _ _ _ Hi).
    - exact (ti_blocks _ _ _ _ _ Hi).
    - exists (ents ++ [ent]), rs'. split; [done|]. rewrite fmap_app, He. cbn. unfold entry_pair. by rewrite Ek, Ev.
    - by exists ients, irs.
    - split; [done|]. by destruct cur.
    - by apply seps_ok_add.
    - done.
    - done.
    - intros e. rewrite last_snoc. by intros [= <-].
    - rewrite (ti_num _ _ _ _ _ Hi), (length_app _ [_]). cbn [length]. lia.
    - apply Forall_app. split; [exact (ti_entries _ _ _ _ _ Hi)|]. by apply Forall_singleton.
    - rewrite (length_app _ [_]), Nat.add_comm. cbn [length Nat.add].
      apply filter_inv_add; [exact (ti_filter _ _ _ _ _ Hi)|lia]. }
  destruct (_ <=? _).
  - destruct (tb_Flush_inv r3 hs blocks (cur ++ [(key, value)]) ies' Hi3) as (r' & h & E & Hi' & _).
    { by destruct cur. }
    { by rewrite app_assoc. }
    rewrite E. eexists _, _, _, _, _. split; [done|]. split; [exact Hi'|].
    rewrite concat_app. cbn. by rewrite !app_nil_r, app_assoc.
  - eexists _, _, _, _, _. split; [done|]. split; [exact Hi3|]. by rewrite app_assoc.
Qed.

(** Adding a sequence of entries. *)
Fixpoint tb_add_all r (es : list (list Z * list Z)) : option (Rep W) :=
  match es with
  | [] => Some r
  | (key, value) :: es => r ← tb_Add r key value; tb_add_all r es
  end.

Lemma tb_add_all_inv es : ∀ r hs blocks cur ies,
  tb_inv r hs blocks cur ies → keys_sorted ((concat blocks ++ cur) ++ es) →
  Forall (λ e, str_ok e.1 ∧ str_ok e.2) es → small ((concat blocks ++ cur) ++ es) →
  ∃ r' hs' blocks' cur' ies', tb_add_all r es = Some r' ∧ tb_inv r' hs' blocks' cur' ies' ∧
    concat blocks' ++ cur' = (concat blocks ++ cur) ++ es.
Proof.
  induction es as [|[key value] es IH]; intros r hs blocks cur ies Hi Hs Hok Hsm; cbn [tb_add_all].
  { eexists _, _, _, _, _. split; [done|]. split; [exact Hi|]. by rewrite app_nil_r. }
  apply Forall_cons in Hok as [[Hk Hv] Hok]. cbn [fst snd] in Hk, Hv.
  rewrite (cons_middle (key, value) (concat blocks ++ cur) es), app_assoc in Hs, Hsm.
  destruct (tb_Add_inv r hs blocks cur ies key value Hi) as (r1 & hs1 & bl1 & cur1 & ies1 & -> & Hi1 & E1).
  { by apply StronglySorted_app in Hs as (_ & Hs & _). }
  { done. }
  { done. }
  { by apply small_app in Hsm. }
  simpl_bind. rewrite <-E1 in Hs, Hsm. destruct (IH r1 _ _ _ _ Hi1 Hs Hok Hsm) as (r' & hs' & bl' & cur' & ies' & E & Hi' & Ec).
  rewrite E. eexists _, _, _, _, _. split; [done|]. split; [exact Hi'|].
  rewrite Ec, E1. by rewrite <-app_assoc.
Qed.
End write.
