(* ===== verification/TableFile.v ===== *)
(** A finished table file: what [TableBuilder::Finish] writes after the data
    blocks. *)

From Stdlib Require Import ZArith Lia.
From stdpp Require Import base option numbers list strings sorting.
From S2P Require Import Prelude Coding Slice WriteBatch Crc32c Env DbFormat Bloom FilterBlock.
From S2P Require Import Iterator Block BlockSpec TableFormat Table TableBuildSpec.

(** A file with the entries [es], split into [blocks] whose handles are [hs];
    [ies] are the entries of the index. *)
Record table_file `{P : Port} {C : Comparator} {NB : Neighbours C} (o : Options) (data : list Z) (es : list (list Z * list Z))
    (hs : list BlockHandle) (blocks : list (list (list Z * list Z))) (ies : list (list Z * list Z))
    (footer : Footer) : Prop := {
  tf_entries : concat blocks = es;
  tf_len : Z.of_nat (length data) < 2 ^ 63;
  tf_footer : footer_ok footer ∧ ∃ pre, data = pre ++ footer_bytes footer;
  tf_order : NoDup (h_offset <$> hs);
  tf_blocks : Forall2 (λ h b, b ≠ [] ∧ ∃ raw, holds o data h raw ∧ is_block raw b) hs blocks;
  tf_index : ∃ raw, holds o data (index_handle_ footer) raw ∧ is_block raw ies;
  tf_handles : ies.*2 = handle_bytes <$> hs;
  tf_seps : seps_ok ies blocks [];
  tf_filter F : filter_policy o = Some F → ∃ mraw fh groups filters,
    holds o data (metaindex_handle_ footer) mraw ∧
    is_block (C := BytewiseComparator) mraw [(filter_key F, handle_bytes fh)] ∧
    handle_ok fh ∧ holds o data fh (fb_contents filters) ∧
    Z.of_nat (length (fb_contents filters)) < 2 ^ 32 ∧ Forall2 (group_ok (F := F)) groups filters ∧
    ∀ j h b e, hs !! j = Some h → blocks !! j = Some b → e ∈ b →
      ∃ g, groups !! Z.to_nat (h_offset h / kFilterBase) = Some g ∧ e.1 ∈ g
}.

Section finish.
Context `{P : Port} {C : Comparator} {HC : ComparatorLaws C} {NB : Neighbours C}.
Context `{WritableFileLaws W} `{!Reliable W} `{Crc32cLaws} (o : Options) (B : nat) (Ho : options_ok o B).
Implicit Types (r : Rep W).

Abbreviation fdata r := (contents (rep_file r)).
Abbreviation file_ok := (file_ok o).
Abbreviation tb_inv := (tb_inv o B).
Abbreviation filter_inv := (filter_inv o B).
Abbreviation small := (small B).

(** The builder after a write to the file. *)
Definition moved r f : Rep W := set_file r f (Z.of_nat (length (contents f))) OK.

Lemma moved_same r : file_ok r → moved r (rep_file r) = r.
Proof. intros (_ & Hs & _ & _ & Hoff). unfold moved. rewrite <-Hoff. destruct r. cbn in *. by rewrite Hs. Qed.

Lemma moved_ok r f : file_ok r → writable f → file_ok (moved r f).
Proof. intros (Hopt & _ & Hc & _) Hw. by split_and!. Qed.

(** *** The filter block *)

Definition filter_stage (data : list Z) (fh : BlockHandle) (hs : list BlockHandle)
    (blocks : list (list (list Z * list Z))) : Prop :=
  ∀ F, filter_policy o = Some F → ∃ groups filters,
    holds o data fh (fb_contents filters) ∧ Z.of_nat (length (fb_contents filters)) < 2 ^ 32 ∧
    Forall2 (group_ok (F := F)) groups filters ∧
    ∀ j h b e, hs !! j = Some h → blocks !! j = Some b → e ∈ b →
      ∃ g, groups !! Z.to_nat (h_offset h / kFilterBase) = Some g ∧ e.1 ∈ g.

Lemma fb_contents_bytes (F : FilterPolicy) groups filters :
  Forall2 (group_ok (F := F)) groups filters → bytes (fb_contents filters).
Proof.
  intros Hg. unfold fb_contents. apply Forall_app. split; [|apply Forall_app; split; [apply words_bytes|by apply Forall_singleton]].
  clear -Hg. induction Hg as [|g f groups filters [Hf _] _ IH]; [constructor|]. cbn. apply Forall_app. by split.
Qed.

Lemma finish_filter r hs blocks es :
  file_ok r → filter_inv (filter_block r) (rep_offset r) hs blocks [] (length es) → small es →
  (length (fdata r) ≤ weight 32 es)%nat →
  ∃ f fh more,
    (match filter_block r with
     | Some (F, fb) =>
         if tb_ok r then contents ← Finish (F := F) fb; WriteRawBlock r contents None
         else Some (r, NewBlockHandle)
     | None => Some (r, NewBlockHandle)
     end) = Some (moved r f, fh) ∧
    writable f ∧ contents f = fdata r ++ more ∧ Z.of_nat (length more) < 2 ^ 32 + 5 ∧
    filter_stage (contents f) fh hs blocks.
Proof.
  intros Hf Hfi Hsm Hlen. pose proof Hf as (Hopt & Hst & Hcomp & Hw & Hoff). unfold TableBuildSpec.filter_inv, filter_stage in *.
  destruct (filter_policy o) as [F|] eqn:EF.
  2:{ rewrite Hfi. exists (rep_file r), NewBlockHandle, []. rewrite (moved_same r Hf), app_nil_r.
      split; [done|]. split; [done|]. split; [done|]. split; [done|]. done. }
  destruct Hfi as (fb & groups & ck & filters & -> & Hi & Hs & Hc & Hg & Hb & _).
  destruct (opt_filter o B Ho F EF) as [HF HB].
  destruct (Finish_inv (F := F) fb groups ck filters Hi) as (groups' & filters' & E & Hg' & Hin).
  unfold tb_ok. rewrite Hst. cbn [ok]. rewrite E. simpl_bind.
  assert (Hfb : Z.of_nat (length (fb_contents filters')) < 2 ^ 32).
  { pose proof (Finish_small F B HB fb (length es) _ Hs E) as Hle.
    assert (Hfo : length (filter_offsets_ fb) = length groups).
    { rewrite (fb_offsets _ _ _ _ Hi), length_fmap, length_offsets_of. symmetry. eapply Forall2_length, (fb_groups _ _ _ _ Hi). }
    assert (Hq : 4 * (rep_offset r / kFilterBase) ≤ rep_offset r).
    { pose proof (Z.mul_div_le (rep_offset r) kFilterBase ltac:(done)) as Hmd.
      pose proof (Z.div_pos (rep_offset r) kFilterBase ltac:(lia) ltac:(done)) as Hdp.
      revert Hmd Hdp. change kFilterBase with 2048. lia. }
    unfold TableBuildSpec.small in Hsm. rewrite weight_add in Hsm.
    pose proof (weight_mono 32 64 es ltac:(lia)). lia. }
  pose proof (fb_contents_bytes F groups' filters' Hg') as Hbytes.
  pose proof (small_weight B 32 es Hsm ltac:(lia)) as H32.
  destruct (WriteRawBlock_ok o r (fb_contents filters') None Hf Hbytes ltac:(done) ltac:(lia)) as (f & -> & Hwf & Hcf & Htype).
  eexists f, _, _. split; [done|]. split; [done|]. split; [exact Hcf|].
  split; [rewrite length_stored_bytes; lia|]. intros F' [= <-]. exists groups', filters'. split; [|split; [done|split; [done|]]].
  - rewrite Hcf. eexists (fdata r), (fb_contents filters'), 0, []. rewrite app_nil_r. split; [done|].
    split; [done|]. split; [done|]. split; [done|]. by left.
  - intros j h b e Hj Hbj He. apply Hin. by apply (Hb j h b e).
Qed.

(** *** The metaindex block *)

Lemma set_compressed_same r : compressed_output r = [] → set_compressed r [] = r.
Proof. intros E. destruct r. cbn in *. by rewrite E. Qed.

Lemma WriteBlock_moved r b es interval ents rs :
  file_ok r → bb_inv interval b ents rs → entry_pair <$> ents = es →
  Z.of_nat (weight 19 es + 8) < 2 ^ 32 → Z.of_nat (length (fdata r)) < 2 ^ 62 →
  ∃ f h raw more, WriteBlock r b = Some (moved r f, bb_Reset, h) ∧
    writable f ∧ is_block raw es ∧ holds o (contents f) h raw ∧ handle_ok h ∧
    contents f = fdata r ++ more ∧ Z.of_nat (length more) < 2 ^ 32 + 5.
Proof.
  intros Hf Hb He Hsz Hlen.
  destruct (WriteBlock_ok o B Ho r b es interval ents rs Hf Hb He Hsz ltac:(lia))
    as (f & h & raw & E & Hw & Hblk & Hh & _ & more & Hc & Hml).
  exists f, h, raw, more. split.
  { rewrite E. rewrite set_compressed_same; [done|]. by destruct Hf as (_ & _ & ? & _). }
  split; [done|]. split; [done|]. split; [done|]. split; [|split; [done|lia]].
  apply (holds_handle o _ h raw Hh). rewrite Hc, length_app. lia.
Qed.

(** A block with one entry is sorted for every comparator. *)
Lemma is_block_single C1 C2 raw e : is_block (C := C1) raw [e] → is_block (C := C2) raw [e].
Proof.
  intros (ents & rs & E & [Hen Hsh Hrs Hso Hsz] & He). exists ents, rs. split; [done|]. split; [|done].
  split; [done..| |done]. destruct ents as [|x [|y ents]]; [done| |done]. apply SSorted_cons; constructor.
Qed.

Lemma filter_key_ok F : filter_policy o = Some F → Z.of_nat B < 2 ^ 31 → str_ok (filter_key F).
Proof.
  intros EF HB31. destruct (opt_filter o B Ho F EF) as [HF [HB _]]. split.
  - apply Forall_app. split; [apply bytes_of_bytes|apply (policy_Name_bytes (F := F))].
  - unfold filter_key, in_width. rewrite length_app. change (length (bytes_of "filter.")) with 7%nat. lia.
Qed.

Lemma finish_meta r fh :
  file_ok r → Z.of_nat (length (fdata r)) < 2 ^ 62 → Z.of_nat B < 2 ^ 31 →
  (filter_policy o = None → filter_block r = None) →
  (∀ F, filter_policy o = Some F → is_Some (filter_block r) ∧ handle_ok fh) →
  ∃ f mh more,
    (if tb_ok r then
       meta ← NewBlockBuilder (block_restart_interval (rep_options r));
       meta ← (match filter_block r with
               | Some _ =>
                   F ← filter_policy (rep_options r);
                   handle_encoding ← handle_EncodeTo fh [];
                   bb_Add (block_restart_interval (rep_options r)) meta (filter_key F) handle_encoding
               | None => Some meta
               end);
       '(r, _, handle) ← WriteBlock r meta; Some (r, handle)
     else Some (r, NewBlockHandle)) = Some (moved r f, mh) ∧
    writable f ∧ contents f = fdata r ++ more ∧ Z.of_nat (length more) < 2 ^ 32 + 5 ∧ handle_ok mh ∧
    ∀ F, filter_policy o = Some F → ∃ mraw,
      holds o (contents f) mh mraw ∧ is_block (C := BytewiseComparator) mraw [(filter_key F, handle_bytes fh)].
Proof.
  intros Hf Hlen HB31 Hnone Hsome. pose proof Hf as (Hopt & Hst & _). unfold tb_ok. rewrite Hst, Hopt. cbn [ok].
  pose proof (opt_interval o B Ho) as Hint.
  destruct (NewBlockBuilder_inv _ Hint) as (meta & -> & Hmeta). simpl_bind.
  destruct (filter_policy o) as [F|] eqn:EF.
  - destruct (Hsome F eq_refl) as [[fb ->] Hfh]. simpl_bind. rewrite handle_EncodeTo_bytes by done. simpl_bind.
    pose proof (filter_key_ok F EF HB31) as Hk. pose proof (length_handle_bytes fh) as Hl20.
    destruct (opt_filter o B Ho F EF) as [_ [HB _]].
    destruct (bb_Add_inv _ Hint meta [] [0%nat] (filter_key F) (handle_bytes fh) Hmeta Hk)
      as (b & e & rs & E & Ek & Ev & Hb); [|done|].
    { split; [by apply handle_bytes_bytes|]. unfold in_width. lia. }
    cbn [app]. rewrite E. simpl_bind.
    destruct (WriteBlock_moved r b [(filter_key F, handle_bytes fh)] _ _ rs Hf Hb)
      as (f & h & raw & more & -> & Hw & Hblk & Hh & Hho & Hc & Hm).
    { cbn. unfold entry_pair. by rewrite Ek, Ev. }
    { cbn [weight fst snd]. unfold filter_key. rewrite length_app. change (length (bytes_of "filter.")) with 7%nat. lia. }
    { done. }
    simpl_bind. exists f, h, more. do 5 (split; [done|]). intros F' [= <-]. exists raw.
    split; [done|]. by eapply is_block_single.
  - rewrite (Hnone eq_refl). simpl_bind.
    destruct (WriteBlock_moved r meta [] _ _ _ Hf Hmeta eq_refl ltac:(done) Hlen)
      as (f & h & raw & more & -> & Hw & Hblk & Hh & Hho & Hc & Hm).
    simpl_bind. exists f, h, more. by do 5 (split; [done|]).
Qed.

(** *** The index block *)

Lemma closed_ok r : file_ok r → file_ok (set_closed r).
Proof. intros Hf. exact Hf. Qed.

Lemma finish_index r hs blocks ies f0 :
  tb_inv r hs blocks [] ies → keys_sorted (concat blocks) → small (concat blocks) →
  writable f0 → Z.of_nat (length (contents f0)) < 2 ^ 62 →
  let r0 := moved (set_closed r) f0 in
  ∃ r' ih raw ies' more,
    (if tb_ok r0 then
       r ← (if pending_index_entry r0
            then add_index_entry (set_last_key r0 (FindShortSuccessor (last_key r0)) (num_entries r0))
            else Some r0);
       '(r, index, handle) ← WriteBlock r (index_block r); Some (set_index_block r index, handle)
     else Some (r0, NewBlockHandle)) = Some (r', ih) ∧
    file_ok r' ∧ num_entries r' = num_entries r ∧ closed r' = true ∧
    fdata r' = contents f0 ++ more ∧ Z.of_nat (length more) < 2 ^ 32 + 5 ∧
    handle_ok ih ∧ holds o (fdata r') ih raw ∧ is_block raw ies' ∧
    ies'.*2 = handle_bytes <$> hs ∧ seps_ok ies' blocks [].
Proof.
  intros Hi Hsort Hsm Hw0 Hlen r0.
  assert (Hf0 : file_ok r0) by (apply moved_ok; [apply closed_ok, (ti_file _ _ _ _ _ _ _ Hi)|done]).
  assert (Hrun : ∃ lk idx ents rs p ies',
    (if pending_index_entry r0
     then add_index_entry (set_last_key r0 (FindShortSuccessor (last_key r0)) (num_entries r0))
     else Some r0) = Some (set_pending (set_index_block (set_last_key r0 lk (num_entries r0)) idx) p (pending_handle r0)) ∧
    bb_inv 1 idx ents rs ∧ entry_pair <$> ents = ies' ∧ ies'.*2 = handle_bytes <$> hs ∧ seps_ok ies' blocks [] ∧
    (weight 19 ies' ≤ weight 39 (concat blocks))%nat).
  { unfold r0, moved. rep_simpl. pose proof (ti_handles _ _ _ _ _ _ _ Hi) as Hh.
    destruct (pending_index_entry r) eqn:Hp.
    - destruct Hh as (_ & hs0 & Hhs & _).
      assert (Hne : concat blocks ≠ []).
      { pose proof (ti_blocks _ _ _ _ _ _ _ Hi) as Hblk. rewrite Hhs in Hblk.
        apply Forall2_app_inv_l in Hblk as (bl0 & bl1 & _ & Hbl1 & ->).
        apply Forall2_cons_inv_l in Hbl1 as (b & bl2 & (Hbne & _) & _ & ->).
        rewrite concat_app. cbn. by destruct b, (concat bl0). }
      destruct (last (concat blocks)) as [e|] eqn:Ee; [|by apply last_None in Ee].
      pose proof (ti_last _ _ _ _ _ _ _ Hi e) as Hlk. rewrite app_nil_r in Hlk. rewrite (Hlk Ee).
      assert (Hebytes : bytes e.1).
      { pose proof (ti_entries _ _ _ _ _ _ _ Hi) as He. rewrite app_nil_r, Forall_forall in He.
        apply (He e). by apply last_Some_elem_of. }
      destruct (add_index_ok o B r hs blocks ies (FindShortSuccessor e.1) e Hi Hp Ee Hsort Hsm)
        as (idx & ients & irs & Hho & E & Hidx & Hies & Hhb & Hseps & Hwt).
      { by apply FindShortSuccessor_spec. }
      { by apply FindShortSuccessor_bytes. }
      { by apply FindShortSuccessor_length. }
      eexists _, idx, ients, irs, false, _. split.
      { apply (add_index_run (set_file (set_closed r) f0 _ OK)); rep_simpl; [exact (ti_interval _ _ _ _ _ _ _ Hi)|done|exact E]. }
      split; [done|]. split; [exact Hies|]. done.
    - destruct Hh as [Hih _]. destruct (ti_index _ _ _ _ _ _ _ Hi) as (ients & irs & Hb & He).
      exists (last_key r), (index_block r), ients, irs, false, ies. split.
      { rewrite <-Hp. by destruct r. }
      split; [done|]. split; [done|]. split; [done|]. split; [exact (ti_seps _ _ _ _ _ _ _ Hi)|].
      destruct (tb_inv_lengths _ _ _ _ _ _ _ Hi) as [_ Hl]. rewrite Hp in Hl.
      pose proof (ti_isize _ _ _ _ _ _ _ Hi) as Hz. rewrite take_ge in Hz by lia. done. }
  destruct Hrun as (lk & idx & ents & rs & p & ies' & -> & Hb & He & Hih & Hseps & Hwt).
  unfold tb_ok. replace (rep_status r0) with OK by done. cbn [ok]. simpl_bind. rep_simpl.
  match goal with |- context [WriteBlock ?x idx] => set (r1 := x) end.
  assert (Hf1 : file_ok r1) by exact Hf0.
  pose proof (small_weight B 39 _ Hsm ltac:(lia)) as H39.
  destruct (WriteBlock_moved r1 idx ies' 1 ents rs Hf1 Hb He) as (f & h & raw & more & -> & Hw & Hblk & Hh & Hho & Hc & Hm).
  { lia. }
  { exact Hlen. }
  simpl_bind. eexists _, h, raw, ies', more. split; [done|]. split; [exact (moved_ok r1 f Hf1 Hw)|].
  split_and!; rep_simpl; done.
Qed.

(** *** [Finish] *)

Lemma tb_Finish_stages r hs blocks ies :
  tb_inv r hs blocks [] ies → keys_sorted (concat blocks) → small (concat blocks) → Z.of_nat B < 2 ^ 31 →
  tb_Flush r = Some r →
  ∃ r' ies' footer, tb_Finish r = Some (r', OK) ∧ file_ok r' ∧
    num_entries r' = num_entries r ∧ closed r' = true ∧
    table_file o (fdata r') (concat blocks) hs blocks ies' footer.
Proof.
  intros Hi Hsort Hsm HB31 Hfl. unfold tb_Finish. rewrite Hfl. simpl_bind.
  rewrite (ti_open _ _ _ _ _ _ _ Hi). cbv zeta.
  pose proof (ti_file _ _ _ _ _ _ _ Hi) as Hf. pose proof (closed_ok r Hf) as Hfc.
  pose proof (small_weight B 32 _ Hsm ltac:(lia)) as H32. pose proof (ti_len _ _ _ _ _ _ _ Hi) as Hlen.
  pose proof (ti_filter _ _ _ _ _ _ _ Hi) as Hfi. rewrite app_nil_r in Hfi.
  destruct (finish_filter (set_closed r) hs blocks (concat blocks) Hfc Hfi Hsm Hlen)
    as (f1 & fh & m1 & E1 & Hw1 & Hc1 & Hm1 & Hstage).
  rewrite E1. simpl_bind. clear E1.
  pose proof (moved_ok _ f1 Hfc Hw1) as Hf1.
  assert (Hl1 : Z.of_nat (length (contents f1)) < 2 ^ 34) by (rewrite Hc1, length_app; rep_simpl; lia).
  assert (Hfh : ∀ F, filter_policy o = Some F → handle_ok fh).
  { intros F EF. destruct (Hstage F EF) as (groups & filters & Hh & _).
    apply (holds_handle o _ fh _ Hh). lia. }
  destruct (finish_meta (moved (set_closed r) f1) fh Hf1)
    as (f2 & mh & m2 & E2 & Hw2 & Hc2 & Hm2 & Hmh & Hmeta).
  { unfold moved. rep_simpl. lia. }
  { done. }
  { intros EF. unfold TableBuildSpec.filter_inv in Hfi. by rewrite EF in Hfi. }
  { intros F EF. split; [|by eapply Hfh]. unfold TableBuildSpec.filter_inv in Hfi. rewrite EF in Hfi.
    destruct Hfi as (fb & ? & ? & ? & E & _). exists (F, fb). exact E. }
  rewrite E2. simpl_bind. clear E2. change (moved (moved ?a f1) f2) with (moved a f2).
  assert (Hl2 : Z.of_nat (length (contents f2)) < 2 ^ 35).
  { rewrite Hc2, length_app. unfold moved. rep_simpl. lia. }
  destruct (finish_index r hs blocks ies f2 Hi Hsort Hsm Hw2)
    as (r3 & ih & iraw & ies' & m3 & E3 & Hf3 & Hn3 & Hc3 & Hd3 & Hm3 & Hih & Hholds & Hblk & Hhandles & Hseps).
  { lia. }
  cbv zeta in E3. rewrite E3. simpl_bind. clear E3.
  pose proof Hf3 as (Hopt3 & Hst3 & Hcomp3 & Hw3 & Hoff3). unfold tb_ok. rewrite Hst3. cbn [ok].
  assert (Hfo : footer_ok (mkFooter mh ih)) by (split; done).
  rewrite footer_EncodeTo_bytes by done. simpl_bind.
  destruct (Append_reliable (rep_file r3) (footer_bytes (mkFooter mh ih)) Hw3) as (f4 & -> & Hw4 & C4).
  simpl_bind. cbn [ok].
  assert (Hl4 : (length (contents f4) = length (fdata r3) + 48)%nat) by (by rewrite C4, length_app, length_footer_bytes).
  assert (Hl3 : Z.of_nat (length (fdata r3)) < 2 ^ 36) by (rewrite Hd3, length_app; lia).
  eexists _, ies', (mkFooter mh ih). split; [done|]. rep_simpl. split; [|split; [done|split; [done|]]].
  { split_and!; rep_simpl; [done..|]. rewrite length_footer_bytes, Hoff3, Hl4.
    rewrite wrap_small by (unfold in_width; lia). lia. }
  assert (E42 : contents f4 = contents f2 ++ (m3 ++ footer_bytes (mkFooter mh ih))).
  { by rewrite C4, Hd3, <-app_assoc. }
  assert (E41 : contents f4 = contents f1 ++ (m2 ++ m3 ++ footer_bytes (mkFooter mh ih))).
  { rewrite E42, Hc2. unfold moved. rep_simpl. by rewrite <-app_assoc. }
  assert (E40 : contents f4 = fdata r ++ (m1 ++ m2 ++ m3 ++ footer_bytes (mkFooter mh ih))).
  { rewrite E41, Hc1. rep_simpl. by rewrite <-app_assoc. }
  split.
  - done.
  - lia.
  - split; [done|]. by exists (fdata r3).
  - exact (proj1 (ti_order _ _ _ _ _ _ _ Hi)).
  - eapply Forall2_impl; [exact (ti_blocks _ _ _ _ _ _ _ Hi)|]. intros h b [Hb (raw & Hr & Hbl)].
    split; [done|]. exists raw. split; [|done]. rewrite E40. by apply holds_app.
  - exists iraw. split; [|done]. rewrite C4. by apply holds_app.
  - done.
  - done.
  - intros F EF. destruct (Hstage F EF) as (groups & filters & Hh & Hsz & Hg & Hin).
    destruct (Hmeta F EF) as (mraw & Hmr & Hmb). exists mraw, fh, groups, filters.
    split; [rewrite E42; by apply holds_app|]. split; [done|]. split; [by eapply Hfh|].
    split; [rewrite E41; by apply holds_app|done].
Qed.

Lemma tb_Finish_ok r hs blocks cur ies :
  tb_inv r hs blocks cur ies → keys_sorted (concat blocks ++ cur) → small (concat blocks ++ cur) →
  Z.of_nat B < 2 ^ 31 →
  ∃ r' hs' blocks' ies' footer, tb_Finish r = Some (r', OK) ∧ file_ok r' ∧
    NumEntries r' = Z.of_nat (length (concat blocks ++ cur)) ∧ closed r' = true ∧
    table_file o (fdata r') (concat blocks ++ cur) hs' blocks' ies' footer.
Proof.
  intros Hi Hsort Hsm HB31. destruct (decide (cur = [])) as [->|Hne].
  - rewrite app_nil_r in *.
    destruct (tb_Finish_stages r hs blocks ies Hi Hsort Hsm HB31 ltac:(by eapply tb_Flush_empty))
      as (r' & ies' & footer & E & Hf & Hn & Hc & Ht).
    exists r', hs, blocks, ies', footer. split; [done|]. split; [done|]. split; [|done].
    unfold NumEntries. rewrite Hn, (ti_num _ _ _ _ _ _ _ Hi). by rewrite app_nil_r.
  - destruct (tb_Flush_inv o B Ho r hs blocks cur ies Hi Hne Hsm) as (r1 & h & Efl & Hi1 & _).
    pose proof (tb_Flush_empty o B r1 _ _ _ Hi1) as Efl1.
    assert (Ecat : concat (blocks ++ [cur]) = concat blocks ++ cur) by (rewrite concat_app; cbn; by rewrite app_nil_r).
    rewrite <-Ecat in *.
    destruct (tb_Finish_stages r1 _ _ ies Hi1 Hsort Hsm HB31 Efl1) as (r' & ies' & footer & E & Hf & Hn & Hc & Ht).
    exists r', (hs ++ [h]), (blocks ++ [cur]), ies', footer. split.
    { revert E. unfold tb_Finish. rewrite Efl, Efl1. by simpl_bind. }
    split; [done|]. split; [|done].
    unfold NumEntries. rewrite Hn, (ti_num _ _ _ _ _ _ _ Hi1). by rewrite app_nil_r.
Qed.
End finish.
