(* ===== verification/TableSpec.v ===== *)
(** Reading a table (Table.v): on a file with a finished table (TableFile.v)
    the reader finds the entries, with or without a block cache and a
    filter. *)

From Stdlib Require Import ZArith Lia.
From stdpp Require Import base option numbers list gmap strings sorting.
From S2P Require Import Prelude Coding Slice WriteBatch Crc32c Env DbFormat Bloom FilterBlock.
From S2P Require Import Iterator Block BlockSpec BlockTheorems TwoLevel TableFormat Table.
From S2P Require Import TableBuildSpec TableFile.

(** ** The block cache

    [cached c k b]: [b] has been inserted under [k] and may be found there. *)
Class BlockCacheLaws (K : Type) `{BlockCache K} := {
  cache_wf : K → Prop;
  cached : K → list Z → Block → Prop;
  last_id : K → Z;
  Lookup_cached c k : cache_wf c →
    ∃ c' r, cache_Lookup c k = Some (c', r) ∧ cache_wf c' ∧
    (∀ b, r = Some b → cached c k b) ∧ (∀ k' b, cached c' k' b → cached c k' b) ∧ last_id c' = last_id c;
  Insert_cached c k b n : cache_wf c → 1 ≤ n < 2 ^ 32 →
    ∃ c', cache_Insert c k b n = Some c' ∧ cache_wf c' ∧
    (∀ k' b', cached c' k' b' → k' = k ∧ b' = b ∨ cached c k' b') ∧ last_id c' = last_id c;
  NewId_fresh c c' id : cache_wf c → cache_NewId c = (c', id) →
    cache_wf c' ∧ id = u64 (last_id c + 1) ∧ last_id c' = id ∧ ∀ k b, cached c' k b → cached c k b
}.

Lemma EncodeFixed64_inj `{P : Port} x y : in_width 64 x → in_width 64 y → EncodeFixed64 x = EncodeFixed64 y → x = y.
Proof.
  rewrite !EncodeFixed64_le. intros Hx Hy E%(f_equal of_le_bytes). rewrite !of_le_bytes_le_bytes in E.
  by rewrite !Z.mod_small in E by done.
Qed.

Lemma elem_of_concat {A} (x : A) (ls : list (list A)) : x ∈ concat ls ↔ ∃ j l, ls !! j = Some l ∧ x ∈ l.
Proof.
  split.
  - intros (l & Hl & Hx)%list_elem_of_In%in_concat. apply list_elem_of_In, list_elem_of_lookup in Hl as [j Hj].
    exists j, l. by rewrite list_elem_of_In.
  - intros (j & l & Hj & Hx). apply list_elem_of_In, in_concat. exists l.
    split; apply list_elem_of_In; [by eapply list_elem_of_lookup_2|done].
Qed.

(** A block of raw contents [raw] with the entries [es]. *)
Definition block_for `{P : Port} {C : Comparator} (blk : Block) (es : list (list Z * list Z)) : Prop :=
  ∃ raw, is_block raw es ∧ NewBlock raw = Some blk.

Section block.
Context `{P : Port} {C : Comparator} {HC : ComparatorLaws C}.

Lemma is_block_NewBlock raw es : is_block raw es → ∃ blk, NewBlock raw = Some blk.
Proof.
  intros (ents & rs & -> & HL & _). destruct (NewIterator_positioned ents rs HL) as (blk & _ & E & _). by exists blk.
Qed.

Lemma block_for_iterator blk es :
  block_for blk es → ∃ it : EmptyIterator + Iter, NewIterator blk = Some it ∧ positioned it es (length es).
Proof.
  intros (raw & (ents & rs & -> & HL & <-) & E).
  destruct (NewIterator_positioned ents rs HL) as (blk' & it & E' & Hit & Hp).
  rewrite E in E'. injection E' as <-. exists (inr it). split; [done|]. by rewrite length_fmap.
Qed.

(** A block is not empty and under 4GB. *)
Lemma block_size_range blk es : block_for blk es → 1 ≤ size_ blk < 2 ^ 32.
Proof.
  intros (raw & (ents & rs & -> & HL & _) & E). pose proof (lay_size _ _ HL).
  destruct (NewIterator_positioned ents rs HL) as (blk' & it & E' & Hit & _). rewrite E in E'. injection E' as <-. split.
  - revert Hit. unfold NewIterator. destruct (Z.ltb_spec (size_ blk) 4); [done|lia].
  - revert E. unfold NewBlock. cbv zeta. destruct (_ <? 4); [intros [= <-]; done|].
    destruct (NumRestarts _ _); [|done]. simpl_bind. destruct (_ <? _); intros [= <-]; cbn [size_]; lia.
Qed.
End block.

Lemma meta_seek `{P : Port} {C : Comparator} raw k v :
  is_block (C := BytewiseComparator) raw [(k, v)] →
  ∃ blk it it', NewBlock raw = Some blk ∧ NewIterator blk = Some it ∧
    i_Seek (Iterator := sum_iterator (H0 := block_iterator (C := BytewiseComparator))) it k = Some it' ∧
    i_Valid it' = true ∧ i_key it' = Some k ∧ i_value it' = Some v.
Proof.
  intros Hb. destruct (is_block_NewBlock (C := BytewiseComparator) raw _ Hb) as [blk Eb].
  destruct (block_for_iterator (C := BytewiseComparator) blk [(k, v)]) as (it & Ei & Hp); [by exists raw|].
  destruct (positioned_op it [(k, v)] 1 (OpSeek k) 0%nat Hp) as (it' & Es & Hp').
  { cbn [cursor_op fmap list_fmap seek_index fst]. by rewrite (Compare_refl (C := BytewiseComparator)). }
  destruct (positioned_entry it' [(k, v)] 0 Hp') as (_ & Hv & He & _). destruct (He k v eq_refl) as [Hk Hval].
  by exists blk, it, it'.
Qed.

Section reader.
Context `{P : Port} {C : Comparator} {HC : ComparatorLaws C} {NB : Neighbours C}.
Context `{RandomAccessFileLaws R} `{Crc32cLaws} `{BlockCacheLaws K}.
Implicit Types (t : Table R).

(** *** An open table *)

Record table_ok t (es : list (list Z * list Z)) (hs : list BlockHandle) (blocks : list (list (list Z * list Z)))
    (ies : list (list Z * list Z)) (footer : Footer) : Prop := {
  to_file : random (t_file t);
  to_table : table_file (t_options t) (random_contents (t_file t)) es hs blocks ies footer;
  to_index : block_for (t_index_block t) ies;
  to_meta : metaindex_handle t = metaindex_handle_ footer;
  to_id : in_width 64 (cache_id t);
  to_filter F reader : t_filter t = Some (F, reader) →
    filter_policy (t_options t) = Some F ∧ ∃ groups filters, Forall2 (group_ok (F := F)) groups filters ∧
    (∀ i f off key, filters !! i = Some f → Z.of_nat i = off / kFilterBase →
       block_KeyMayMatch (F := F) reader off key = Some (KeyMayMatch key f)) ∧
    ∀ j h b e, hs !! j = Some h → blocks !! j = Some b → e ∈ b →
      ∃ g, groups !! Z.to_nat (h_offset h / kFilterBase) = Some g ∧ e.1 ∈ g
}.

(** What the cache has for the blocks of the table is right. *)
Definition cache_ok t (hs : list BlockHandle) (blocks : list (list (list Z * list Z))) (cache : option K) : Prop :=
  match cache with
  | None => True
  | Some c => cache_wf c ∧
      ∀ j h b blk, hs !! j = Some h → blocks !! j = Some b → cached c (cache_key t h) blk → block_for blk b
  end.

(** The cache has changed for the blocks of [t] only. *)
Definition cache_frame t (cache cache' : option K) : Prop :=
  match cache, cache' with
  | None, None => True
  | Some c, Some c' => cache_wf c' ∧ last_id c' = last_id c ∧
      ∀ k b, cached c' k b → cached c k b ∨ ∃ h, 0 ≤ h_offset h < 2 ^ 64 ∧ k = cache_key t h
  | _, _ => False
  end.

Lemma cache_key_inj t t' h h' :
  in_width 64 (cache_id t) → in_width 64 (cache_id t') → 0 ≤ h_offset h < 2 ^ 64 → 0 ≤ h_offset h' < 2 ^ 64 →
  cache_key t h = cache_key t' h' → cache_id t = cache_id t' ∧ h_offset h = h_offset h'.
Proof.
  intros Ht Ht' Hh Hh' E. apply app_inj_1 in E as [E1 E2]; [|by rewrite !EncodeFixed64_le, !length_le_bytes].
  split; by apply EncodeFixed64_inj.
Qed.

(** A table does not disturb what the cache has for another one. *)
Lemma cache_frame_ok t t' hs blocks cache cache' :
  in_width 64 (cache_id t) → in_width 64 (cache_id t') → cache_id t ≠ cache_id t' →
  Forall (λ h, 0 ≤ h_offset h < 2 ^ 64) hs →
  cache_frame t cache cache' → cache_ok t' hs blocks cache → cache_ok t' hs blocks cache'.
Proof.
  intros Ht Ht' Hne Hhs. destruct cache as [c|], cache' as [c'|]; try done. intros (Hwf & _ & Hf) [_ Hok].
  split; [done|]. intros j h b blk Hj Hb Hc.
  destruct (Hf _ _ Hc) as [Hold|(h' & Hh' & E)]; [by eapply Hok|].
  apply cache_key_inj in E as [E _]; try done. by eapply (Forall_lookup_1 _ _ j h Hhs).
Qed.

Lemma table_handle_ok o data es hs blocks ies footer j h :
  table_file o data es hs blocks ies footer → hs !! j = Some h → handle_ok h.
Proof.
  intros Ht Hj. destruct (Forall2_lookup_l _ _ _ _ _ (tf_blocks _ _ _ _ _ _ _ Ht) Hj) as (b & _ & _ & raw & Hh & _).
  apply (holds_handle o data h raw Hh). pose proof (tf_len _ _ _ _ _ _ _ Ht). lia.
Qed.

Section table.
Context (t : Table R) (es : list (list Z * list Z)) (hs : list BlockHandle).
Context (blocks : list (list (list Z * list Z))) (ies : list (list Z * list Z)) (footer : Footer).
Context (Ht : table_ok t es hs blocks ies footer).

Abbreviation cache_ok := (cache_ok t hs blocks).

Lemma table_read j h b ro :
  hs !! j = Some h → blocks !! j = Some b →
  ∃ contents blk, ReadBlock (t_file t) (t_options t) ro h = Some (OK, contents) ∧
    NewBlock (bc_data contents) = Some blk ∧ block_for blk b.
Proof.
  intros Hj Hb. pose proof (to_table _ _ _ _ _ _ Ht) as Hf.
  destruct (Forall2_lookup_lr _ _ _ _ _ _ (tf_blocks _ _ _ _ _ _ _ Hf) Hj Hb) as (_ & raw & Hh & Hblk).
  pose proof (tf_len _ _ _ _ _ _ _ Hf) as Hl.
  destruct (ReadBlock_holds (t_file t) (t_options t) ro h raw (to_file _ _ _ _ _ _ Ht) Hh ltac:(lia)) as (ca & heap & E).
  destruct (is_block_NewBlock raw b Hblk) as [blk Eb]. eexists _, blk. split; [exact E|]. split; [done|]. by exists raw.
Qed.

Lemma insert_ok c c' j h b blk :
  cache_ok (Some c) → hs !! j = Some h → blocks !! j = Some b → block_for blk b → cache_wf c' →
  (∀ k' b', cached c' k' b' → k' = cache_key t h ∧ b' = blk ∨ cached c k' b') → cache_ok (Some c').
Proof.
  intros [_ Hok] Hj Hb Hfor Hwf Hins. split; [done|]. intros j' h' b' blk' Hj' Hb' Hc.
  pose proof (to_table _ _ _ _ _ _ Ht) as Hf.
  destruct (Hins _ _ Hc) as [[E ->]|Hold]; [|by eapply Hok].
  pose proof (table_handle_ok _ _ _ _ _ _ _ _ _ Hf Hj) as [Hho _].
  pose proof (table_handle_ok _ _ _ _ _ _ _ _ _ Hf Hj') as [Hho' _].
  apply cache_key_inj in E as [_ E]; try (exact (to_id _ _ _ _ _ _ Ht)); [|lia|lia].
  assert (j = j') as <-; [|by simplify_eq].
  apply (NoDup_lookup (h_offset <$> hs) j j' (h_offset h) (tf_order _ _ _ _ _ _ _ Hf)); rewrite list_lookup_fmap.
  - by rewrite Hj.
  - rewrite Hj'. cbn. by rewrite E.
Qed.

Lemma find_block_ok cache j h b ro :
  cache_ok cache → hs !! j = Some h → blocks !! j = Some b →
  ∃ cache' blk, find_block t cache ro h = Some (cache', OK, Some blk) ∧ block_for blk b ∧
    cache_ok cache' ∧ cache_frame t cache cache'.
Proof.
  intros Hok Hj Hb. destruct (table_read j h b ro Hj Hb) as (contents & blk & Er & En & Hfor).
  pose proof (table_handle_ok _ _ _ _ _ _ _ _ _ (to_table _ _ _ _ _ _ Ht) Hj) as [Hho _].
  unfold find_block. destruct cache as [c|].
  2:{ rewrite Er. simpl_bind. cbn [ok negb]. rewrite En. simpl_bind. by exists None, blk. }
  destruct Hok as [Hwf Hok].
  destruct (Lookup_cached c (cache_key t h) Hwf) as (c' & r & -> & Hwf' & Hr & Hmono & Hid). simpl_bind.
  assert (Hok' : cache_ok (Some c')).
  { split; [done|]. intros j' h' b' blk' Hj' Hb' Hc'. eapply Hok; [done|done|]. by apply Hmono. }
  destruct r as [blk'|].
  - exists (Some c'), blk'. split; [done|]. split; [by eapply Hok; [..|apply Hr]|]. split; [done|].
    split; [done|]. split; [done|]. intros k b' Hc. left. by apply Hmono.
  - rewrite Er. simpl_bind. cbn [ok negb]. rewrite En. simpl_bind.
    destruct (cachable contents && fill_cache ro).
    + destruct (Insert_cached c' (cache_key t h) blk (size_ blk) Hwf') as (c2 & -> & Hwf2 & Hi & Hii).
      { by eapply block_size_range. }
      simpl_bind. eexists _, blk. split; [done|]. split; [done|]. split; [by eapply insert_ok|].
      split; [done|]. split; [by rewrite Hii|]. intros k b' Hc. destruct (Hi _ _ Hc) as [[-> _]|Hc'].
      * right. exists h. split; [lia|done].
      * left. by apply Hmono.
    + simpl_bind. eexists _, blk. split; [done|]. split; [done|]. split; [done|]. split; [done|]. split; [done|].
      intros k b' Hc. left. by apply Hmono.
Qed.

Lemma BlockReader_ok cache j h b ro :
  cache_ok cache → hs !! j = Some h → blocks !! j = Some b →
  ∃ cache' it, BlockReader t cache ro (handle_bytes h) = Some (cache', it) ∧ positioned it b (length b) ∧
    cache_ok cache' ∧ cache_frame t cache cache'.
Proof.
  intros Hok Hj Hb. pose proof (table_handle_ok _ _ _ _ _ _ _ _ _ (to_table _ _ _ _ _ _ Ht) Hj) as Hho.
  unfold BlockReader. rewrite <-(app_nil_r (handle_bytes h)), handle_DecodeFrom_bytes by (done || constructor).
  cbn [ok]. destruct (find_block_ok cache j h b ro Hok Hj Hb) as (cache' & blk & -> & Hfor & Hok' & Hfr).
  simpl_bind. destruct (block_for_iterator blk b Hfor) as (it & -> & Hp). simpl_bind. by exists cache', it.
Qed.

(** *** The iterator *)

(** The entries of the block of an index value. *)
Definition block_of (hv : list Z) : list (list Z * list Z) :=
  default [] ((list_to_map (zip (handle_bytes <$> hs) blocks) : gmap (list Z) _) !! hv).

Lemma block_of_lookup j h b : hs !! j = Some h → blocks !! j = Some b → block_of (handle_bytes h) = b.
Proof.
  intros Hj Hb. pose proof (to_table _ _ _ _ _ _ Ht) as Hf. unfold block_of.
  rewrite (elem_of_list_to_map_1 _ _ b); [done| |].
  - rewrite fst_zip by (rewrite length_fmap, (Forall2_length _ _ _ (tf_blocks _ _ _ _ _ _ _ Hf)); lia).
    apply NoDup_fmap_2_strong; [|by eapply NoDup_fmap_1, tf_order].
    intros x y (jx & Hx)%list_elem_of_lookup (jy & Hy)%list_elem_of_lookup.
    apply handle_bytes_inj; by eapply table_handle_ok.
  - apply list_elem_of_lookup. exists j. rewrite lookup_zip_with, list_lookup_fmap, Hj, Hb. done.
Qed.

Lemma ies_lookup j k hv :
  ies !! j = Some (k, hv) →
  ∃ h b, hs !! j = Some h ∧ blocks !! j = Some b ∧ hv = handle_bytes h ∧ block_of hv = b.
Proof.
  intros Hj. pose proof (to_table _ _ _ _ _ _ Ht) as Hf. pose proof (tf_handles _ _ _ _ _ _ _ Hf) as Hh.
  assert (Hv : ies.*2 !! j = Some hv) by (by rewrite list_lookup_fmap, Hj).
  rewrite Hh in Hv. apply list_lookup_fmap_Some in Hv as (h & -> & Hhj).
  destruct (Forall2_lookup_l _ _ _ _ _ (tf_blocks _ _ _ _ _ _ _ Hf) Hhj) as (b & Hb & _).
  exists h, b. split; [done|]. split; [done|]. split; [done|]. by eapply block_of_lookup.
Qed.

Lemma blocks_of_index : block_of <$> ies.*2 = blocks.
Proof.
  pose proof (to_table _ _ _ _ _ _ Ht) as Hf. apply list_eq_same_length with (length blocks); [done| |].
  - rewrite (tf_handles _ _ _ _ _ _ _ Hf), !length_fmap. eapply Forall2_length, tf_blocks, Hf.
  - intros j x y _ Hx Hy. apply list_lookup_fmap_Some in Hx as (hv & -> & Hhv).
    apply list_lookup_fmap_Some in Hhv as ([k hv'] & -> & Hj).
    destruct (ies_lookup j k hv' Hj) as (h & b & _ & Hb & _ & E). cbn. rewrite E. by simplify_eq.
Qed.

Lemma entries_of_index : concat (block_of <$> ies.*2) = es.
Proof. rewrite blocks_of_index. exact (tf_entries _ _ _ _ _ _ _ (to_table _ _ _ _ _ _ Ht)). Qed.

Lemma table_index_ok : index_ok block_of ies.
Proof.
  intros j k hv Hj. destruct (ies_lookup j k hv Hj) as (h & b & Hh & Hb & -> & ->).
  pose proof (tf_seps _ _ _ _ _ _ _ (to_table _ _ _ _ _ _ Ht)) as Hs.
  assert (Hk : ies.*1 !! j = Some k) by (by rewrite list_lookup_fmap, Hj).
  destruct (Hs j k Hk) as (Hle & Hlt & _). rewrite app_nil_r in Hlt. split.
  - rewrite (take_S_r _ _ b Hb), concat_app in Hle. apply Forall_app in Hle as [_ Hle]. cbn in Hle.
    by rewrite app_nil_r in Hle.
  - intros j' k' hv' Hjj Hj'. destruct (ies_lookup j' k' hv' Hj') as (h' & b' & Hh' & Hb' & -> & ->).
    apply Forall_forall. intros e He. rewrite Forall_forall in Hlt. apply Hlt.
    apply elem_of_concat. exists (j' - S j)%nat, b'. split; [|done].
    rewrite lookup_drop. by replace (S j + (j' - S j))%nat with j' by lia.
Qed.

Lemma table_block_function_ok ro :
  block_function_ok (table_block_function ro) (λ a : Table R * option K, a.1 = t ∧ cache_ok a.2) block_of ies.
Proof.
  intros [t' cache] hv [Et Hok] (j & Hj)%list_elem_of_lookup. cbn [fst snd] in Et, Hok. subst t'.
  apply list_lookup_fmap_Some in Hj as ([k hv'] & -> & Hj). cbn [snd].
  destruct (ies_lookup j k hv' Hj) as (h & b & Hh & Hb & -> & ->).
  destruct (BlockReader_ok cache j h b ro Hok Hh Hb) as (cache' & it & E & Hp & Hok' & _).
  unfold table_block_function. cbn [fst snd]. rewrite E. simpl_bind. by eexists _, it, _.
Qed.

Lemma table_NewIterator_ok cache ro fuel :
  cache_ok cache → (length blocks < fuel)%nat →
  ∃ it, table_NewIterator t cache = Some it ∧
    tl_positioned fuel (table_block_function ro) it es (length es).
Proof.
  intros Hok Hfuel. unfold table_NewIterator.
  destruct (block_for_iterator _ _ (to_index _ _ _ _ _ _ Ht)) as (iit & -> & Hp). simpl_bind.
  rewrite <-entries_of_index. apply (NewTwoLevelIterator_positioned fuel (table_block_function ro)
    (λ a : Table R * option K, a.1 = t ∧ cache_ok a.2) block_of ies iit (t, cache));
    [apply table_block_function_ok| |apply table_index_ok|done|done].
  rewrite <-blocks_of_index, !length_fmap in Hfuel. lia.
Qed.

(** *** [InternalGet] *)

(** The filter must not tell neighbours apart. *)
Definition filter_near : Prop :=
  ∀ F, filter_policy (t_options t) = Some F → ∀ k e f, near k e → KeyMayMatch e f = true → KeyMayMatch k f = true.

(** The neighbours of [k] are in the block that the index gives, if they are
    not before [k]. *)
Definition in_block_of (k : list Z) (j : nat) (b : list (list Z * list Z)) : Prop :=
  ∀ e, e ∈ es → near k e.1 → 0 ≤ Compare e.1 k → ∃ a, a ∈ b ∧ near k a.1 ∧ Compare k a.1 ≤ 0.

Lemma seek_neighbours k sep hv b :
  let j := seek_index ies.*1 k in
  ies !! j = Some (sep, hv) → blocks !! j = Some b → in_block_of k j b.
Proof.
  intros j Hj Hb e He Hnear Hge. pose proof (to_table _ _ _ _ _ _ Ht) as Hf.
  rewrite <-(tf_entries _ _ _ _ _ _ _ Hf) in He.
  assert (Hsep : ies.*1 !! j = Some sep) by (by rewrite list_lookup_fmap, Hj).
  destruct (tf_seps _ _ _ _ _ _ _ Hf j sep Hsep) as (Hle & Hlt & Htight). rewrite app_nil_r in Hlt, Htight.
  pose proof (seek_index_at _ _ _ Hsep) as Hks. pose proof (Compare_anti sep k) as Hanti.
  assert (Hbefore : ∀ x, x ∈ concat (take j blocks) → Compare x.1 k < 0).
  { intros x (i & bi & Hi & Hx)%elem_of_concat. apply lookup_take_Some in Hi as [Hi Hij].
    assert (Hi' : (i < length ies)%nat) by (apply lookup_lt_Some in Hj; lia).
    destruct (lookup_lt_is_Some_2 ies i Hi') as [[s' hv'] Hie].
    destruct (ies_lookup i s' hv' Hie) as (h & b' & Hh & Hb' & -> & Eb).
    assert (bi = b') as -> by congruence.
    pose proof (before_target block_of ies table_index_ok k i (handle_bytes h) Hij) as Hbt.
    rewrite list_lookup_fmap, Hie, Eb, Forall_forall in Hbt. by apply Hbt. }
  rewrite (take_S_r _ _ b Hb), concat_app in Hle, Htight. cbn in Hle, Htight. rewrite app_nil_r in Hle, Htight.
  rewrite <-(take_drop_middle blocks j b Hb), concat_app in He. cbn [concat] in He.
  apply elem_of_app in He as [He|[He|He]%elem_of_app].
  - specialize (Hbefore e He). lia.
  - exists e. split; [done|]. split; [done|]. pose proof (Compare_anti e.1 k). lia.
  - destruct Htight as [Hnil|(lim & Hlim & Ht')]; [rewrite Hnil in He; by apply not_elem_of_nil in He|].
    rewrite Forall_forall in Hlim, Hle, Hlt.
    destruct (proj1 (Exists_exists _ _) (Ht' e.1 k (Hlim e He) Hnear ltac:(lia))) as (a & Ha & Hka).
    specialize (Hle a Ha). specialize (Hlt e He).
    pose proof (Compare_le_lt_trans _ _ _ Hle Hlt) as Hae.
    apply elem_of_app in Ha as [Ha|Ha].
    + specialize (Hbefore a Ha). pose proof (Compare_anti a.1 k). lia.
    + exists a. split; [done|]. split; [|done]. apply (near_between k a.1 e.1); [done|done|lia].
Qed.

Lemma filtered_out_ok j h b k :
  hs !! j = Some h → blocks !! j = Some b →
  ∃ out, filtered_out t (handle_bytes h) k = Some out ∧
    (filter_near → out = true → ∀ e, e ∈ b → near k e.1 → False).
Proof.
  intros Hj Hb. pose proof (to_table _ _ _ _ _ _ Ht) as Hf. unfold filtered_out.
  destruct (t_filter t) as [[F reader]|] eqn:EF; [|by exists false].
  destruct (to_filter _ _ _ _ _ _ Ht F reader EF) as (Epol & groups & filters & Hg & Hr & Hin).
  pose proof (table_handle_ok _ _ _ _ _ _ _ _ _ Hf Hj) as Hho.
  rewrite <-(app_nil_r (handle_bytes h)), handle_DecodeFrom_bytes by (done || constructor). cbn [ok].
  destruct (Forall2_lookup_lr _ _ _ _ _ _ (tf_blocks _ _ _ _ _ _ _ Hf) Hj Hb) as [Hne _].
  destruct b as [|e0 b]; [done|]. destruct (Hin j h _ e0 Hj Hb ltac:(by left)) as (g & Eg & _).
  destruct (Forall2_lookup_l _ _ _ _ _ Hg Eg) as (f & Ef & _ & Hm). rewrite Forall_forall in Hm.
  assert (Hpos : 0 ≤ h_offset h / kFilterBase) by (apply Z.div_pos; [apply Hho|done]).
  rewrite (Hr _ f (h_offset h) k Ef) by (by rewrite Z2Nat.id). simpl_bind. eexists. split; [done|].
  intros Hnear Hout e He Hke. destruct (Hin j h _ e Hj Hb He) as (g' & Eg' & Heg). simplify_eq.
  rewrite (Hnear F Epol k e.1 f Hke (Hm e.1 Heg)) in Hout. done.
Qed.

(** What a lookup for [k] may give. *)
Definition table_get_result (k : list Z) (saved : option (list Z * list Z)) : Prop :=
  match saved with
  | Some e => es !! seek_index es.*1 k = Some e
  | None => ∀ e, e ∈ es → near k e.1 → Compare e.1 k < 0
  end.

Lemma InternalGet_ok cache ro k :
  cache_ok cache → filter_near →
  ∃ cache' saved, InternalGet t cache ro k = Some (cache', OK, saved) ∧
    cache_ok cache' ∧ cache_frame t cache cache' ∧ table_get_result k saved.
Proof.
  intros Hok Hfn. unfold InternalGet.
  assert (Hframe : cache_frame t cache cache).
  { destruct cache; [|done]. destruct Hok as [Hwf _]. split; [done|]. split; [done|]. by left. }
  destruct (block_for_iterator _ _ (to_index _ _ _ _ _ _ Ht)) as (iit & -> & Hp). simpl_bind.
  destruct (positioned_op iit ies (length ies) (OpSeek k) _ Hp eq_refl) as (iit' & Es & Hp').
  cbn [i_apply] in Es. rewrite Es. simpl_bind. set (j := seek_index ies.*1 k) in *.
  destruct (positioned_entry iit' ies j Hp') as (Hjle & -> & Hentry & Hst).
  destruct (Nat.ltb_spec j (length ies)) as [Hlt|Hge].
  2:{ simpl_bind. cbn [ok]. rewrite Hst. simpl_bind. exists cache, None. split_and!; try done.
      intros e He _. assert (Ej : seek_index ies.*1 k = length ies) by (unfold j in *; lia).
      pose proof (seek_past _ block_of ies (Nat.lt_succ_diag_r _) table_index_ok k Ej) as Hpast. rewrite entries_of_index in Hpast.
      apply list_elem_of_lookup in He as [i Hi]. pose proof (lookup_lt_Some _ _ _ Hi).
      apply (seek_index_before es.*1 k i); [lia|]. by rewrite list_lookup_fmap, Hi. }
  destruct (lookup_lt_is_Some_2 ies j Hlt) as [[sep hv] Hj]. destruct (Hentry sep hv Hj) as [_ ->]. simpl_bind.
  destruct (ies_lookup j sep hv Hj) as (h & b & Hh & Hb & -> & Eb).
  pose proof (seek_neighbours k sep (handle_bytes h) b Hj Hb) as Hin.
  destruct (filtered_out_ok j h b k Hh Hb) as (out & -> & Hout). simpl_bind. destruct out.
  { simpl_bind. cbn [ok]. rewrite Hst. simpl_bind. exists cache, None. split_and!; try done.
    intros e He Hnear. destruct (decide (Compare e.1 k < 0)) as [|Hge']; [done|exfalso].
    destruct (Hin e He Hnear ltac:(lia)) as (a & Ha & Hna & _). by apply (Hout Hfn eq_refl a Ha). }
  destruct (BlockReader_ok cache j h b ro Hok Hh Hb) as (cache' & bit & -> & Hbp & Hok' & Hfr'). simpl_bind.
  destruct (positioned_op bit b (length b) (OpSeek k) _ Hbp eq_refl) as (bit' & Ebs & Hbp').
  cbn [i_apply] in Ebs. rewrite Ebs. simpl_bind.
  destruct (positioned_shows bit' b _ Hbp') as [-> ->]. simpl_bind. cbn [ok]. rewrite Hst. simpl_bind.
  eexists _, _. split; [done|]. split; [done|]. split; [done|].
  pose proof (seek_split _ block_of ies (Nat.lt_succ_diag_r _) table_index_ok k sep (handle_bytes h) Hj) as Hsplit.
  rewrite entries_of_index, Eb in Hsplit.
  destruct (b !! seek_index b.*1 k) as [e|] eqn:Ee; cbn [table_get_result].
  - rewrite Hsplit, <-entries_of_index, (es_lookup block_of ies j sep (handle_bytes h)); rewrite ?Eb; try done.
    by eapply lookup_lt_Some.
  - intros e He Hnear. destruct (decide (Compare e.1 k < 0)) as [|Hge']; [done|exfalso].
    destruct (Hin e He Hnear ltac:(lia)) as (a & (i & Ha)%list_elem_of_lookup & _ & Hka).
    apply lookup_ge_None in Ee. pose proof (lookup_lt_Some _ _ _ Ha).
    pose proof (seek_index_before b.*1 k i a.1 ltac:(lia)) as Hlt'. rewrite list_lookup_fmap, Ha in Hlt'.
    specialize (Hlt' eq_refl). pose proof (Compare_anti a.1 k). lia.
Qed.

(** *** [ApproximateOffsetOf] *)

(** The offset of the block that has the key, or of the metaindex. *)
Lemma ApproximateOffsetOf_ok k :
  ApproximateOffsetOf t k = Some (default (h_offset (metaindex_handle_ footer)) (h_offset <$> hs !! seek_index ies.*1 k)).
Proof.
  unfold ApproximateOffsetOf.
  destruct (block_for_iterator _ _ (to_index _ _ _ _ _ _ Ht)) as (iit & -> & Hp). simpl_bind.
  destruct (positioned_op iit ies (length ies) (OpSeek k) _ Hp eq_refl) as (iit' & Es & Hp').
  cbn [i_apply] in Es. rewrite Es. simpl_bind. set (j := seek_index ies.*1 k) in *.
  destruct (positioned_entry iit' ies j Hp') as (Hjle & -> & Hentry & Hst).
  destruct (Nat.ltb_spec j (length ies)) as [Hlt|Hge].
  - destruct (lookup_lt_is_Some_2 ies j Hlt) as [[sep hv] Hj]. destruct (Hentry sep hv Hj) as [_ ->]. simpl_bind.
    destruct (ies_lookup j sep hv Hj) as (h & b & Hh & Hb & -> & Eb).
    pose proof (table_handle_ok _ _ _ _ _ _ _ _ _ (to_table _ _ _ _ _ _ Ht) Hh) as Hho.
    rewrite <-(app_nil_r (handle_bytes h)), handle_DecodeFrom_bytes by (done || constructor). cbn [ok]. by rewrite Hh.
  - rewrite (to_meta _ _ _ _ _ _ Ht), lookup_ge_None_2; [done|].
    pose proof (f_equal length (tf_handles _ _ _ _ _ _ _ (to_table _ _ _ _ _ _ Ht))) as El.
    rewrite !length_fmap in El. lia.
Qed.
End table.

(** *** [Open] *)

(** Every key of the cache has the id of a table that was opened with it. *)
Definition tidy (cache : option K) : Prop :=
  match cache with
  | None => True
  | Some c => cache_wf c ∧ in_width 64 (last_id c) ∧
      ∀ k b, cached c k b → ∃ id rest, 0 ≤ id ≤ last_id c ∧ k = EncodeFixed64 id ++ rest
  end.

Definition has_ids (cache : option K) : Prop :=
  match cache with None => True | Some c => last_id c + 1 < 2 ^ 64 end.

Lemma tidy_frame t cache cache' :
  tidy cache → cache_frame t cache cache' → 0 ≤ cache_id t →
  match cache with None => True | Some c => cache_id t ≤ last_id c end → tidy cache'.
Proof.
  destruct cache as [c|], cache' as [c'|]; try done. intros (_ & Hw & Hk) (Hwf & Hid & Hf) H0' Hle.
  split; [done|]. split; [by rewrite Hid|].
  intros k b Hc. rewrite Hid. destruct (Hf k b Hc) as [Hold|(h & _ & ->)]; [by eapply Hk|].
  exists (cache_id t), (EncodeFixed64 (h_offset h)). done.
Qed.

Lemma ReadMeta_ok o file es hs blocks ies footer :
  random file → table_file o (random_contents file) es hs blocks ies footer →
  ∃ filter, ReadMeta o file footer = Some filter ∧
    ∀ F reader, filter = Some (F, reader) →
      filter_policy o = Some F ∧ ∃ groups filters, Forall2 (group_ok (F := F)) groups filters ∧
      (∀ i f off key, filters !! i = Some f → Z.of_nat i = off / kFilterBase →
         block_KeyMayMatch (F := F) reader off key = Some (KeyMayMatch key f)) ∧
      ∀ j h b e, hs !! j = Some h → blocks !! j = Some b → e ∈ b →
        ∃ g, groups !! Z.to_nat (h_offset h / kFilterBase) = Some g ∧ e.1 ∈ g.
Proof.
  intros Hr Hf. pose proof (tf_len _ _ _ _ _ _ _ Hf) as Hl. unfold ReadMeta.
  destruct (filter_policy o) as [F|] eqn:EF; [|by exists None].
  destruct (tf_filter _ _ _ _ _ _ _ Hf F EF) as (mraw & fh & groups & filters & Hm & Hmb & Hfh & Hfb & Hsz & Hg & Hin).
  destruct (ReadBlock_holds file o (meta_options o) _ mraw Hr Hm ltac:(lia)) as (ca & heap & ->). simpl_bind.
  cbn [ok negb bc_data].
  destruct (meta_seek mraw _ _ Hmb) as (blk & it & it' & -> & Ei & Es & Hv & Hk & Hval).
  simpl_bind. rewrite Ei. simpl_bind. rewrite Es. simpl_bind. rewrite Hv, Hk. simpl_bind.
  rewrite slice_eqb_spec, bool_decide_true, Hval by done. simpl_bind. unfold ReadFilter.
  rewrite <-(app_nil_r (handle_bytes fh)), handle_DecodeFrom_bytes by (done || constructor). cbn [ok negb].
  destruct (ReadBlock_holds file o (meta_options o) _ _ Hr Hfb ltac:(lia)) as (ca' & heap' & ->). simpl_bind.
  cbn [ok negb bc_data]. destruct (reader_filters (F := F) filters Hsz) as (reader & -> & Hmatch). simpl_bind.
  eexists. split; [done|]. intros F' reader' [= <- <-]. split; [done|]. by exists groups, filters.
Qed.

Lemma read_footer (file : R) o es hs blocks ies footer :
  random file → table_file o (random_contents file) es hs blocks ies footer →
  let size := Z.of_nat (length (random_contents file)) in
  48 ≤ size ∧ ∃ scratch, file_ReadAt file (size - 48) 48 = Some (footer_bytes footer, OK, scratch).
Proof.
  intros Hr Hf size. destruct (tf_footer _ _ _ _ _ _ _ Hf) as [Hfo (pre & Ed)].
  assert (Hlen : length (random_contents file) = (length pre + 48)%nat)
    by (by rewrite Ed, length_app, length_footer_bytes).
  unfold size. split; [lia|].
  destruct (ReadAt_contents file (Z.of_nat (length (random_contents file)) - 48) 48 Hr) as [scratch ->]; [lia..|].
  exists scratch. do 3 f_equal. unfold slice.
  replace (Z.to_nat (_ - 48)) with (length pre) by lia. rewrite Ed, drop_app_length.
  apply take_ge. by rewrite length_footer_bytes.
Qed.

Lemma Open_ok o cache file es hs blocks ies footer :
  random file → table_file o (random_contents file) es hs blocks ies footer → tidy cache → has_ids cache →
  ∃ t cache', Open o cache file (Z.of_nat (length (random_contents file))) = Some (OK, Some t, cache') ∧
    t_options t = o ∧ table_ok t es hs blocks ies footer ∧ cache_ok t hs blocks cache' ∧ tidy cache' ∧
    match cache' with None => cache = None | Some c => ∃ c0, cache = Some c0 ∧ last_id c0 + 1 = cache_id t ∧ cache_id t = last_id c ∧
      ∀ k b, cached c k b → cached c0 k b end.
Proof.
  intros Hr Hf Hti Hid. pose proof (tf_len _ _ _ _ _ _ _ Hf) as Hl.
  destruct (tf_footer _ _ _ _ _ _ _ Hf) as [Hfo _].
  destruct (read_footer file o es hs blocks ies footer Hr Hf) as [H48 [scratch Erd]]. cbv zeta in Erd.
  unfold Open. change kEncodedLength with 48. rewrite (proj2 (Z.ltb_ge _ _)) by lia. rewrite Erd. simpl_bind.
  cbn [ok negb]. rewrite <-(app_nil_r (footer_bytes footer)), footer_DecodeFrom_bytes by (done || constructor).
  simpl_bind. cbn [ok negb]. destruct (tf_index _ _ _ _ _ _ _ Hf) as (iraw & Hi & Hib).
  destruct (ReadBlock_holds file o (meta_options o) _ iraw Hr Hi ltac:(lia)) as (ca & heap & ->). simpl_bind.
  cbn [ok negb bc_data]. destruct (is_block_NewBlock iraw ies Hib) as [iblk Eib]. rewrite Eib. simpl_bind.
  destruct (ReadMeta_ok o file es hs blocks ies footer Hr Hf) as (filter & -> & Hfilter).
  assert (Hiblk : block_for iblk ies) by (by exists iraw).
  destruct cache as [c|]; cbn [tidy has_ids] in *.
  2:{ simpl_bind. eexists _, None. split; [done|]. split; [done|]. split; [by split|]. done. }
  destruct Hti as (Hwf & Hw & Hkeys). unfold in_width in Hw.
  destruct (cache_NewId c) as [c' id] eqn:Eid. destruct (NewId_fresh _ _ _ Hwf Eid) as (Hwf' & -> & Hid' & Hmono).
  rewrite wrap_small in * by (unfold in_width; lia). simpl_bind.
  eexists _, (Some c'). split; [done|]. split; [done|]. split.
  { split; cbn; first [exact Hfilter|done|unfold in_width; lia]. }
  split; [|split; [|exists c; cbn; split; [done|]; split; [lia|]; split; [lia|done]]].
  - split; [done|]. intros j h b blk Hj Hb Hc. exfalso. destruct (Hkeys _ _ (Hmono _ _ Hc)) as (id & rest & Hle & E).
    apply app_inj_1 in E as [E _]; [|by rewrite !EncodeFixed64_le, !length_le_bytes]. cbn [cache_id] in E.
    apply EncodeFixed64_inj in E; unfold in_width; lia.
  - split; [done|]. split; [rewrite Hid'; unfold in_width; lia|]. intros k b Hc. destruct (Hkeys _ _ (Hmono _ _ Hc)) as (id & rest & Hle & E).
    exists id, rest. split; [lia|done].
Qed.
End reader.
