(* ===== verification/TableTheorems.v ===== *)
(** What tables promise: a finished table is a sorted list with a cursor, a
    lookup by internal key finds the newest visible version, and damage to a
    block is noticed. *)

From Stdlib Require Import ZArith Lia.
From stdpp Require Import base option numbers list gmap strings sorting.
From S2P Require Import Prelude Coding Slice WriteBatch Crc32c Env DbFormat Bloom InternalKey.
From S2P Require Import FilterBlock Iterator Block BlockSpec BlockTheorems TwoLevel Merger.
From S2P Require Import TableFormat Table TableBuildSpec TableFile TableSpec.

(** ** Building a table *)

Section build.
Context `{P : Port} {C : Comparator} `{WritableFile W} `{Env.Crc32c}.

(** The calls that make a table of the entries [es]. *)
Definition build_table (o : Options) (file : W) (es : list (list Z * list Z)) : option (Rep W * Status) :=
  r ← NewTableBuilder o file; r ← tb_add_all r es; tb_Finish r.
End build.

Section tables.
Context `{P : Port} {C : Comparator} {HC : ComparatorLaws C} {NB : Neighbours C}.
Context `{WritableFileLaws W} `{!Reliable W} `{Crc32cLaws}.

(** The entries a table can be made of: in order, and with the index, the
    filter and every block under 4GB. *)
Definition table_input (B : nat) (es : list (list Z * list Z)) : Prop :=
  keys_sorted es ∧ Forall (λ e, str_ok e.1 ∧ str_ok e.2) es ∧ small B es ∧ Z.of_nat B < 2 ^ 31.

Lemma build_table_ok o B (file : W) es :
  options_ok o B → table_input B es → writable file → contents file = [] →
  ∃ r hs blocks ies footer, build_table o file es = Some (r, OK) ∧
    writable (rep_file r) ∧ FileSize r = Z.of_nat (length (contents (rep_file r))) ∧
    NumEntries r = Z.of_nat (length es) ∧
    table_file o (contents (rep_file r)) es hs blocks ies footer.
Proof.
  intros Ho (Hsort & Hstr & Hsm & HB) Hw Hc. unfold build_table.
  destruct (NewTableBuilder_inv o B Ho file Hw Hc) as (r0 & -> & Hi0 & _). simpl_bind.
  destruct (tb_add_all_inv o B Ho es r0 [] [] [] [] Hi0 Hsort Hstr Hsm) as (r1 & hs & blocks & cur & ies & -> & Hi1 & E).
  simpl_bind. cbn in E.
  destruct (tb_Finish_ok o B Ho r1 hs blocks cur ies Hi1) as (r & hs' & blocks' & ies' & footer & -> & Hf & Hn & _ & Ht);
    rewrite ?E in *; [done..|].
  exists r, hs', blocks', ies', footer. destruct Hf as (_ & _ & _ & Hw' & Hoff). done.
Qed.

Lemma blocks_le_entries o data es hs blocks ies footer :
  table_file o data es hs blocks ies footer → (length blocks ≤ length es)%nat.
Proof.
  intros Ht. rewrite <-(tf_entries _ _ _ _ _ _ _ Ht). pose proof (tf_blocks _ _ _ _ _ _ _ Ht) as Hb. clear -Hb.
  induction Hb as [|h b hs blocks [Hne _] _ IH]; [done|]. cbn. rewrite length_app. destruct b; [done|]. cbn. lia.
Qed.

End tables.

Section cursor.
Context `{P : Port} {C : Comparator} {HC : ComparatorLaws C}.
Context `{WritableFileLaws W} `{!Reliable W} `{Crc32cLaws}.

(** C16. A table is a sorted list with a cursor.  Any entries in the order of a
    lawful comparator (under the size limits of the format), with any restart
    interval, block size, compressor and filter policy that keep their
    contracts, can be built into a table: every call succeeds, and the file
    size and the number of entries are right.  Opened from any file with these
    contents, with or without a block cache and checking of checksums, it
    gives an iterator that, whatever sequence of [Seek], [SeekToFirst],
    [SeekToLast], [Next] and [Prev] is asked of it (the last two at an entry),
    ends, has status OK, and shows the key and the value of the entry at which
    a cursor over the list of entries would be. *)
Theorem table_refines_cursor `{RandomAccessFileLaws R} `{BlockCacheLaws K}
    (o : Options) (B : nat) (file : W) (es : list (list Z * list Z)) :
  options_ok o B → table_input B es → writable file → contents file = [] →
  ∃ r, build_table o file es = Some (r, OK) ∧ writable (rep_file r) ∧
    FileSize r = Z.of_nat (length (contents (rep_file r))) ∧ NumEntries r = Z.of_nat (length es) ∧
    ∀ (g : R) (cache : option K) (ro : ReadOptions) (fuel : nat),
      random g → random_contents g = contents (rep_file r) → tidy cache → has_ids cache → (length es < fuel)%nat →
      ∃ t cache' it, Open o cache g (FileSize r) = Some (OK, Some t, cache') ∧
        table_NewIterator t cache' = Some it ∧
        let iterator := table_iterator fuel ro in
        ∀ ops i, run_ops (cursor_op es) (length es) ops = Some i →
          ∃ it', run_ops (i_apply (H := iterator)) it ops = Some it' ∧
            i_status (Iterator := iterator) it' = Some OK ∧ i_entry (H := iterator) it' = Some (es !! i).
Proof.
  intros Ho Hes Hw Hc.
  destruct (build_table_ok (NB := equal_neighbours) o B file es Ho Hes Hw Hc) as (r & hs & blocks & ies & footer & E & Hw' & Hsz & Hn & Ht).
  exists r. split; [done|]. split; [done|]. split; [done|]. split; [done|]. intros g cache ro fuel Hg Ec Hti Hid Hfuel.
  rewrite Hsz, <-Ec. rewrite <-Ec in Ht.
  destruct (Open_ok o cache g es hs blocks ies footer Hg Ht Hti Hid) as (t & cache' & -> & Eo & Htok & Hok & _).
  pose proof (blocks_le_entries _ _ _ _ _ _ _ Ht).
  destruct (table_NewIterator_ok t es hs blocks ies footer Htok cache' ro fuel Hok ltac:(lia)) as (it & Eit & Hp).
  exists t, cache', it. split; [done|]. split; [done|]. intros iterator ops i Hops.
  destruct (positioned_ops (H0 := two_level_laws fuel (table_block_function ro)) ops it es _ i Hp Hops)
    as (it' & Er & Hp').
  exists it'. split; [done|]. exact (positioned_shows (H0 := two_level_laws fuel (table_block_function ro)) it' es i Hp').
Qed.
End cursor.

(** ** Tables of the database

    The keys are internal keys: whoever asks for a user key at a sequence
    number wants the first entry from there on with this user key. *)

Section ikeys.
Context `{P : Port} (C : Comparator) {HC : ComparatorLaws C}.

Definition ikey_near (k e : list Z) : Prop :=
  (8 ≤ length k)%nat ∧ (8 ≤ length e)%nat ∧ Compare (ikey_user k) (ikey_user e) = 0.

Lemma icmp_le_long a b : (8 ≤ length a)%nat → icmp_Compare C a b ≤ 0 → (8 ≤ length b)%nat.
Proof.
  intros Ha. unfold icmp_Compare. rewrite (proj2 (Nat.leb_le _ _)) by done.
  destruct (Nat.leb_spec 8 (length b)); [done|lia].
Qed.

Lemma icmp_le_user a b :
  (8 ≤ length a)%nat → (8 ≤ length b)%nat → icmp_Compare C a b ≤ 0 → Compare (ikey_user a) (ikey_user b) ≤ 0.
Proof. intros Ha Hb. rewrite icmp_long by done. unfold ikey_cmp. destruct (Z.eqb_spec (Compare (ikey_user a) (ikey_user b)) 0); lia. Qed.

#[export] Instance ikey_neighbours : Neighbours (InternalKeyComparator C).
Proof.
  exists ikey_near; cbn [Compare FindShortestSeparator InternalKeyComparator].
  - intros k a e (Hk & He & Hke) Hka Hae. pose proof (icmp_le_long k a Hk Hka) as Ha.
    split; [done|]. split; [done|]. pose proof (icmp_le_user _ _ Hk Ha Hka). pose proof (icmp_le_user _ _ Ha He Hae) as Hae'.
    pose proof (Compare_eq_l _ _ (ikey_user a) Hke). pose proof (Compare_anti (ikey_user a) (ikey_user e)). lia.
  - intros a b e k Ha Hb Hlt Hbe (Hk & He & Hke) Hle.
    destruct (decide (8 ≤ length a ∧ 8 ≤ length b)%nat) as [[H1 H2]|Hn]; [|by rewrite short_separator in Hle by lia].
    destruct (icmp_separator_user C a b Ha Hb H1 H2 Hlt) as [E|[Hr Hu]]; [by rewrite E in Hle|exfalso].
    pose proof (icmp_le_user _ _ Hk Hr Hle) as Hkr. pose proof (icmp_le_user _ _ H2 He Hbe) as Hbe'.
    pose proof (Compare_le_lt_trans _ _ _ Hkr (Compare_lt_le_trans _ _ _ Hu Hbe')). lia.
Defined.

Lemma visible_spec (e : list Z * list Z) u T :
  (8 ≤ length e.1)%nat → in_width 64 T →
  Compare (ikey_user e.1) u = 0 ∧ ikey_tag e.1 ≤ T ↔
  ikey_near (ikey_bytes u T) e.1 ∧ 0 ≤ icmp_Compare C e.1 (ikey_bytes u T).
Proof.
  intros He HT. unfold ikey_near. rewrite icmp_long by (rewrite ?length_ikey_bytes; lia).
  rewrite ikey_user_bytes, ikey_tag_bytes, length_ikey_bytes by done. unfold ikey_cmp.
  rewrite (Compare_eq_sym u). destruct (Z.eqb_spec (Compare (ikey_user e.1) u) 0) as [E|E]; [|lia].
  destruct (Z.ltb_spec T (ikey_tag e.1)), (Z.ltb_spec (ikey_tag e.1) T); lia.
Qed.

(** From what [InternalGet] may give to what a client of the database wants. *)
Lemma get_visible es u seq saved :
  keys_sorted (C := InternalKeyComparator C) es → Forall (λ e, 8 ≤ length e.1)%nat es → seq_ok seq →
  table_get_result (C := InternalKeyComparator C) es (ikey_bytes u (tag_of seq kValueTypeForSeek)) saved →
  match visible es u seq with
  | Some e => saved = Some e
  | None => ∀ e, saved = Some e → Compare (ikey_user e.1) u ≠ 0
  end.
Proof.
  intros Hsort Hlong Hseq. set (T := tag_of seq kValueTypeForSeek).
  assert (HT : in_width 64 T) by (apply tag_of_width; [done|by split]).
  set (k := ikey_bytes u T). rewrite Forall_forall in Hlong. unfold visible. fold T. intros Hget.
  set (keys := es.*1) in *. set (s := seek_index (C := InternalKeyComparator C) keys k) in *.
  destruct (list_find _ es) as [[i e]|] eqn:Ef; cbn.
  - apply list_find_Some in Ef as (Hi & Hvis & Hmin). cbn beta in *.
    assert (He : e ∈ es) by (by eapply list_elem_of_lookup_2).
    destruct (proj1 (visible_spec e u T (Hlong e He) HT) Hvis) as [Hnear Hge]. fold k in Hnear, Hge.
    destruct saved as [e'|]; cbn [table_get_result] in Hget; [|specialize (Hget e He Hnear); change (icmp_Compare C e.1 k < 0) in Hget; lia].
    destruct (decide (i < s)%nat) as [Hlt|Hsi].
    { pose proof (seek_index_before (C := InternalKeyComparator C) keys k i e.1 Hlt) as Hb. unfold keys in Hb.
      rewrite list_lookup_fmap, Hi in Hb. specialize (Hb eq_refl). change (icmp_Compare C e.1 k < 0) in Hb. lia. }
    destruct (decide (s = i)) as [<-|Hne].
    { change (es !! s = Some e') in Hget. rewrite Hget in Hi. congruence. }
    exfalso.
    assert (He' : e' ∈ es) by (by eapply list_elem_of_lookup_2).
    pose proof (seek_index_at (C := InternalKeyComparator C) keys k e'.1) as Hat. unfold keys in Hat.
    rewrite list_lookup_fmap, Hget in Hat. specialize (Hat eq_refl). change (0 ≤ icmp_Compare C e'.1 k) in Hat.
    assert (Hlt : icmp_Compare C e'.1 e.1 < 0).
    { apply (sorted_lt (C := InternalKeyComparator C) es s i e' e Hsort Hget Hi). lia. }
    apply (Hmin s e' Hget ltac:(lia)). apply visible_spec; [by apply Hlong|done|]. split; [|done].
    pose proof (icmp_anti C e'.1 k).
    apply (near_between (C := InternalKeyComparator C) (Neighbours := ikey_neighbours) k e'.1 e.1 Hnear); cbn [Compare InternalKeyComparator]; lia.
  - apply list_find_None in Ef. rewrite Forall_forall in Ef. intros e -> Heq. cbn [table_get_result] in Hget.
    assert (He : e ∈ es) by (by eapply list_elem_of_lookup_2).
    pose proof (seek_index_at (C := InternalKeyComparator C) keys k e.1) as Hat. unfold keys in Hat.
    rewrite list_lookup_fmap, Hget in Hat. specialize (Hat eq_refl). change (0 ≤ icmp_Compare C e.1 k) in Hat.
    apply (Ef e He). apply visible_spec; [by apply Hlong|done|]. split; [|done].
    split; [unfold k; rewrite length_ikey_bytes; lia|]. split; [by apply Hlong|].
    unfold k. rewrite ikey_user_bytes. by rewrite (Compare_eq_sym u).
Qed.
End ikeys.

(** Lookups one after the other, the cache going from one to the next. *)
Fixpoint get_all `{P : Port} {C : Comparator} `{RandomAccessFile R} `{Env.Crc32c} `{BlockCache K} (t : Table R)
    (cache : option K) (ro : ReadOptions) (ks : list (list Z)) : option (list (Status * option (list Z * list Z))) :=
  match ks with
  | [] => Some []
  | k :: ks =>
      '(cache, s, saved) ← InternalGet t cache ro k;
      rest ← get_all t cache ro ks; Some ((s, saved) :: rest)
  end.

Section get.
Context `{P : Port} {C : Comparator} {HC : ComparatorLaws C}.
Context `{WritableFileLaws W} `{!Reliable W} `{Crc32cLaws} `{RandomAccessFileLaws R} `{BlockCacheLaws K}.

Lemma get_all_ok (t : Table R) es hs blocks ies footer ro ks : ∀ cache,
  table_ok (C := InternalKeyComparator C) t es hs blocks ies footer →
  cache_ok (C := InternalKeyComparator C) t hs blocks cache →
  filter_near (C := InternalKeyComparator C) t →
  ∃ rs, get_all (C := InternalKeyComparator C) t cache ro ks = Some rs ∧
    Forall2 (λ k r, r.1 = OK ∧ table_get_result (C := InternalKeyComparator C) es k r.2) ks rs.
Proof.
  induction ks as [|k ks IH]; intros cache Ht Hok Hfn; cbn [get_all]; [by exists []|].
  destruct (InternalGet_ok (C := InternalKeyComparator C) t es hs blocks ies footer Ht cache ro k Hok Hfn)
    as (cache' & saved & -> & Hok' & _ & Hres).
  simpl_bind. destruct (IH cache' Ht Hok' Hfn) as (rs & -> & Hrs). simpl_bind. eexists. split; [done|]. by constructor.
Qed.

(** A policy of the database: one for user keys that does not tell apart what
    the user's comparator does not. *)
Definition user_filter (o : Options) : Prop :=
  ∀ F, filter_policy o = Some F → ∃ F0, F = InternalFilterPolicy F0 ∧
    ∀ u u' f, Compare u u' = 0 → KeyMayMatch (FilterPolicy := F0) u f = KeyMayMatch (FilterPolicy := F0) u' f.

Lemma user_filter_near (t : Table R) :
  user_filter (t_options t) → filter_near (C := InternalKeyComparator C) t.
Proof.
  intros Hu F EF k e f (Hk & He & Heq) Hm. destruct (Hu F EF) as (F0 & -> & Hagree). cbn in *.
  assert (Hx : ∀ x, (8 ≤ length x)%nat → default x (ExtractUserKey x) = ikey_user x).
  { intros x Hx. unfold ExtractUserKey. by rewrite (proj2 (Nat.leb_le _ _)) by done. }
  rewrite Hx in * by done. by rewrite (Hagree _ _ f Heq).
Qed.

(** C15. A table of the database finds the newest visible version.  In a table of
    internal keys, built and opened as above, every lookup of a user key at a
    sequence number, in any series of lookups that share a block cache,
    succeeds; it gives the entry with the largest sequence number up to the
    given one among those of this user key, and if there is none it does not
    give an entry of this user key.  In particular neither the shortened keys
    of the index nor the filter hide it. *)
Theorem table_get_newest (o : Options) (B : nat) (file : W) (es : list (list Z * list Z)) :
  options_ok o B → user_filter o → table_input (C := InternalKeyComparator C) B es →
  Forall (λ e, 8 ≤ length e.1)%nat es → writable file → contents file = [] →
  ∃ r, build_table (C := InternalKeyComparator C) o file es = Some (r, OK) ∧ writable (rep_file r) ∧
    ∀ (g : R) (cache : option K) (ro : ReadOptions) (ks : list (list Z * Z)),
      random g → random_contents g = contents (rep_file r) → tidy cache → has_ids cache →
      Forall (λ k, seq_ok k.2) ks →
      ∃ t cache' rs, Open (C := InternalKeyComparator C) o cache g (FileSize r) = Some (OK, Some t, cache') ∧
        get_all (C := InternalKeyComparator C) t cache' ro
          ((λ k, ikey_bytes k.1 (tag_of k.2 kValueTypeForSeek)) <$> ks) = Some rs ∧
        Forall2 (λ k r, r.1 = OK ∧
          match visible (C := C) es k.1 k.2 with
          | Some e => r.2 = Some e
          | None => ∀ e, r.2 = Some e → Compare (ikey_user e.1) k.1 ≠ 0
          end) ks rs.
Proof.
  intros Ho Hu Hes Hlong Hw Hc.
  destruct (build_table_ok (C := InternalKeyComparator C) o B file es Ho Hes Hw Hc)
    as (r & hs & blocks & ies & footer & E & Hw' & Hsz & Hn & Ht).
  exists r. split; [done|]. split; [done|]. intros g cache ro ks Hg Ec Hti Hid Hks. rewrite Hsz, <-Ec. rewrite <-Ec in Ht.
  destruct (Open_ok (C := InternalKeyComparator C) o cache g es hs blocks ies footer Hg Ht Hti Hid)
    as (t & cache' & Eop & Eo & Htok & Hok & _).
  destruct (get_all_ok t es hs blocks ies footer ro ((λ k, ikey_bytes k.1 (tag_of k.2 kValueTypeForSeek)) <$> ks)
    cache' Htok Hok) as (rs & Eg & Hrs).
  { apply user_filter_near. by rewrite Eo. }
  exists t, cache', rs. split; [exact Eop|]. split; [done|]. apply Forall2_fmap_l in Hrs.
  destruct Hes as [Hsort _]. clear -Hrs Hks Hsort Hlong HC.
  induction Hrs as [|k res ks rs [Hst Hres] _ IH]; [constructor|]. apply Forall_cons in Hks as [Hk Hks].
  constructor; [|by apply IH]. split; [done|]. exact (get_visible C es k.1 k.2 res.2 Hsort Hlong Hk Hres).
Qed.
End get.

(** ** Damage *)

(** The file has a block at [h], up to four consecutive bytes of whose data and
    type, [m], now read [m']. *)
Definition damaged_at (data : list Z) (h : BlockHandle) : Prop :=
  ∃ pre a m m' b post,
    data = pre ++ (a ++ m' ++ b) ++ le_bytes 4 (Mask (crc32c_ref 0 (a ++ m ++ b))) ++ post ∧
    bytes (a ++ m ++ b) ∧ bytes m' ∧ length m = length m' ∧ (length m ≤ 4)%nat ∧ m ≠ m' ∧
    0 ≤ h_size h ∧ h = mkHandle (Z.of_nat (length pre)) (Z.of_nat (length (a ++ m ++ b)) - 1).

Section damage.
Context `{P : Port} {C : Comparator} {HC : ComparatorLaws C} {NB : Neighbours C}.
Context `{RandomAccessFileLaws R} `{Crc32cLaws}.

Lemma ReadBlock_damaged (g : R) o ro h :
  random g → Z.of_nat (length (random_contents g)) < 2 ^ 63 → damaged_at (random_contents g) h →
  verify_checksums ro = true →
  ReadBlock g o ro h = Some (Corruption "block checksum mismatch", mkContents [] false false).
Proof.
  intros Hg Hlen (pre & a & m & m' & b & post & E & Hb & Hm' & Hl & H4 & Hne & Hh0 & ->) Hv. cbn [h_size] in Hh0.
  set (p := a ++ m ++ b) in *. set (p' := a ++ m' ++ b) in *. set (c := crc32c_ref 0 p) in *.
  assert (Hlp : length p' = length p) by (unfold p, p'; rewrite !length_app; lia).
  assert (Hb' : bytes p').
  { unfold p, p' in *. apply Forall_app in Hb as [Ha [_ Hbb]%Forall_app]. apply Forall_app. split; [done|]. by apply Forall_app. }
  pose proof (f_equal length E) as El. rewrite !length_app, length_le_bytes in El.
  unfold ReadBlock, kBlockTrailerSize. cbn [h_size h_offset].
  rewrite wrap_small by (unfold in_width; lia).
  destruct (ReadAt_contents g (Z.of_nat (length pre)) (Z.of_nat (length p) - 1 + 5) Hg) as [scratch ->]; [lia..|].
  simpl_bind. cbn [ok negb].
  assert (Ed : slice (random_contents g) (Z.of_nat (length pre)) (Z.of_nat (length p) - 1 + 5) = p' ++ le_bytes 4 (Mask c)).
  { rewrite E. unfold slice. rewrite Nat2Z.id, drop_app_length, app_assoc. apply take_app_length'.
    rewrite length_app, length_le_bytes. lia. }
  rewrite Ed, length_app, length_le_bytes. rewrite (proj2 (Z.eqb_eq _ _)) by lia. cbn [negb].
  rewrite (proj2 (Z.ltb_ge _ _)), Hv by lia.
  rewrite drop_app_length' by lia. rewrite <-(app_nil_r (le_bytes 4 _)), <-EncodeFixed32_le.
  assert (Hc : in_width 32 c) by (apply crc32c_ref_width; [unfold in_width; lia|done]).
  rewrite DecodeFixed32_encode by (apply Mask_width || constructor). simpl_bind.
  assert (Hsl : ∀ t, slice (p' ++ t) 0 (Z.of_nat (length p) - 1 + 1) = p').
  { intros t. unfold slice. rewrite drop_0. apply take_app_length'. lia. }
  rewrite Hsl, crc_Value_ref by done. simpl_bind.
  rewrite Unmask_Mask by done. rewrite (proj2 (Z.eqb_neq _ _)); [done|].
  intros Ec. apply Hne. symmetry. unfold p, p' in *.
  apply Forall_app in Hb as [Ha [Hm Hbb]%Forall_app].
  apply (crc32c_burst 0 a m' m b); [unfold in_width; lia|done..|lia|exact Ec].
Qed.

(** C19. Damage is noticed.  If up to four consecutive bytes of a block have
    changed, a reader that verifies checksums gets no contents but a
    corruption; a block iterator asked of a table is then one that is at no
    entry and has this status; and if the block is the index, opening the
    table with paranoid checks gives the corruption and no table, whatever
    the rest of the file is. *)
Theorem table_detects_damage `{BlockCache K} (g : R) (o : Options) (h : BlockHandle) :
  random g → Z.of_nat (length (random_contents g)) < 2 ^ 63 → damaged_at (random_contents g) h →
  let mismatch := Corruption "block checksum mismatch" in
  (∀ ro, verify_checksums ro = true →
     ReadBlock g o ro h = Some (mismatch, mkContents [] false false) ∧
     ∀ t : Table R, t_file t = g → t_options t = o → handle_ok h →
       BlockReader t (None : option K) ro (handle_bytes h) = Some (None, inl (NewErrorIterator mismatch))) ∧
  (∀ footer pre (cache : option K),
     random_contents g = pre ++ footer_bytes footer → footer_ok footer → index_handle_ footer = h →
     paranoid_checks o = true →
     Open o cache g (Z.of_nat (length (random_contents g))) = Some (mismatch, None, cache)).
Proof.
  intros Hg Hlen Hd mismatch. split.
  - intros ro Hv. pose proof (ReadBlock_damaged g o ro h Hg Hlen Hd Hv) as E. split; [done|].
    intros t <- <- Hho. unfold BlockReader. rewrite <-(app_nil_r (handle_bytes h)).
    rewrite handle_DecodeFrom_bytes by (done || constructor). cbn [ok]. unfold find_block. rewrite E. by simpl_bind.
  - intros footer pre cache Ep Hfo <- Hpar.
    assert (Hl : length (random_contents g) = (length pre + 48)%nat) by (by rewrite Ep, length_app, length_footer_bytes).
    unfold Open. change kEncodedLength with 48. rewrite (proj2 (Z.ltb_ge _ _)) by lia.
    destruct (ReadAt_contents g (Z.of_nat (length (random_contents g)) - 48) 48 Hg) as [scratch ->]; [lia..|].
    simpl_bind. cbn [ok negb].
    replace (slice _ _ _) with (footer_bytes footer).
    2:{ unfold slice. replace (Z.to_nat (_ - 48)) with (length pre) by lia. rewrite Ep, drop_app_length.
        symmetry. apply take_ge. by rewrite length_footer_bytes. }
    rewrite <-(app_nil_r (footer_bytes footer)), footer_DecodeFrom_bytes by (done || constructor). simpl_bind.
    cbn [ok negb]. rewrite (ReadBlock_damaged g o _ _ Hg Hlen Hd) by (unfold meta_options; by rewrite Hpar).
    by simpl_bind.
Qed.
End damage.
