(* ===== verification/Version.v ===== *)
(** The files of a version of the database and how they are searched:
    leveldb/db/version_set.cc, class [Version], and [DBImpl::Get] of
    leveldb/db/db_impl.cc.

    The tables are reached through an interface, [TableStore] (what the code
    uses of leveldb/db/table_cache.h).  A [FileMetaData*] is the structure it
    points to; a file is found again by its level and number.  [None] is a
    failed [assert] or a read outside an array or a key. *)

From Stdlib Require Import ZArith Lia String.
From stdpp Require Import base option numbers list strings sorting.
From S2P Require Import Prelude Coding Slice WriteBatch DbFormat SkipList SkipListSpec SkipListRefine.
From S2P Require Import MemTable Iterator TwoLevel Merger Bloom InternalKey TableFormat VersionEdit.

(** What a version uses of [TableCache]: [Get] gives the status and the entry
    that [saver] is called with, if it is. *)
Class TableStore (TS : Type) := {
  tc_Get : TS → ReadOptions → Z → Z → list Z → option (TS * Status * option (list Z * list Z))
}.

Record Version := mkVersion {
  files_ : list (list FileMetaData);
  file_to_compact_ : option FileMetaData;
  file_to_compact_level_ : Z
}.

(** A new version: no files in any of the levels. *)
Definition NewVersion : Version := mkVersion (replicate (Z.to_nat kNumLevels) []) None (-1).

Section version.
Context `{P : Port} {C : Comparator}.

(** ** Searching a list of files *)

Fixpoint find_file (fuel : nat) (files : list FileMetaData) (key : list Z) (left right : Z) : option Z :=
  if left <? right then
    match fuel with
    | O => None
    | S fuel =>
        let mid := u32 (left + right) / 2 in
        f ← files.[mid];
        largest ← ikey_Encode (f_largest f);
        if icmp_Compare C largest key <? 0 then find_file fuel files key (u32 (mid + 1)) right
        else find_file fuel files key left mid
    end
  else Some right.

Definition FindFile (files : list FileMetaData) (key : list Z) : option Z :=
  find_file (length files) files key 0 (u32 (Z.of_nat (length files))).

(** [None] is [NULL]: a key before all, or after all. *)
Definition AfterFile (user_key : option (list Z)) (f : FileMetaData) : option bool :=
  match user_key with
  | None => Some false
  | Some k => largest ← ikey_user_key (f_largest f); Some (0 <? Compare k largest)
  end.

Definition BeforeFile (user_key : option (list Z)) (f : FileMetaData) : option bool :=
  match user_key with
  | None => Some false
  | Some k => smallest ← ikey_user_key (f_smallest f); Some (Compare k smallest <? 0)
  end.

Fixpoint some_file_overlaps (files : list FileMetaData) (smallest largest : option (list Z)) : option bool :=
  match files with
  | [] => Some false
  | f :: files =>
      after ← AfterFile smallest f;
      before ← (if (after : bool) then Some true else BeforeFile largest f);
      if (after || before) then some_file_overlaps files smallest largest else Some true
  end.

Definition SomeFileOverlapsRange (disjoint_sorted_files : bool) (files : list FileMetaData)
    (smallest_user_key largest_user_key : option (list Z)) : option bool :=
  if negb disjoint_sorted_files then some_file_overlaps files smallest_user_key largest_user_key
  else
    index ← match smallest_user_key with
            | None => Some 0
            | Some k => small ← NewInternalKey k kMaxSequenceNumber kValueTypeForSeek;
                        small ← ikey_Encode small; FindFile files small
            end;
    if Z.of_nat (length files) <=? index then Some false
    else
      f ← files.[index];
      before ← BeforeFile largest_user_key f;
      Some (negb before).

(** ** [LevelFileNumIterator] *)

Record LevelFileNumIterator := mkLevelIter { flist_ : list FileMetaData; index_ : Z }.

Definition NewLevelIter (flist : list FileMetaData) : LevelFileNumIterator :=
  mkLevelIter flist (u32 (Z.of_nat (length flist))).

Definition li_Valid (it : LevelFileNumIterator) : bool := index_ it <? Z.of_nat (length (flist_ it)).

Definition li_Seek (it : LevelFileNumIterator) (target : list Z) : option LevelFileNumIterator :=
  i ← FindFile (flist_ it) target; Some (mkLevelIter (flist_ it) i).

Definition li_SeekToLast (it : LevelFileNumIterator) : LevelFileNumIterator :=
  mkLevelIter (flist_ it)
    (if bool_decide (flist_ it = []) then 0 else u32 (Z.of_nat (length (flist_ it)) - 1)).

Definition li_Next (it : LevelFileNumIterator) : option LevelFileNumIterator :=
  if negb (li_Valid it) then None (* assert *) else Some (mkLevelIter (flist_ it) (u32 (index_ it + 1))).

Definition li_Prev (it : LevelFileNumIterator) : option LevelFileNumIterator :=
  if negb (li_Valid it) then None (* assert *)
  else Some (mkLevelIter (flist_ it)
    (if index_ it =? 0 then u32 (Z.of_nat (length (flist_ it))) else index_ it - 1)).

Definition li_key (it : LevelFileNumIterator) : option (list Z) :=
  if negb (li_Valid it) then None (* assert *)
  else f ← (flist_ it).[index_ it]; ikey_Encode (f_largest f).

(** The number and the size of the file. *)
Definition file_value (f : FileMetaData) : list Z := EncodeFixed64 (f_number f) ++ EncodeFixed64 (f_file_size f).

Definition li_value (it : LevelFileNumIterator) : option (list Z) :=
  if negb (li_Valid it) then None (* assert *)
  else f ← (flist_ it).[index_ it]; Some (file_value f).

#[export] Instance level_iterator : Iterator LevelFileNumIterator := {|
  i_Valid := li_Valid;
  i_SeekToFirst it := Some (mkLevelIter (flist_ it) 0);
  i_SeekToLast it := Some (li_SeekToLast it);
  i_Seek := li_Seek;
  i_Next := li_Next;
  i_Prev := li_Prev;
  i_key := li_key;
  i_value := li_value;
  i_status _ := Some OK
|}.

(** ** Lookup *)

Inductive SaverState := kNotFound | kFound | kDeleted | kCorrupt.

(** The state and the value of the [Saver] after the callback. *)
Definition SaveValue (user_key : list Z) (ikey v : list Z) : option (SaverState * option (list Z)) :=
  parsed ← ParseInternalKey ikey;
  match parsed with
  | None => Some (kCorrupt, None)
  | Some parsed_key =>
      if Compare (DbFormat.user_key parsed_key) user_key =? 0 then
        if type parsed_key =? kTypeValue then Some (kFound, Some v) else Some (kDeleted, None)
      else Some (kNotFound, None)
  end.

(** [std::sort] by [NewestFirst]. *)
Definition NewestFirst (a b : FileMetaData) : Prop := f_number b ≤ f_number a.

#[export] Instance NewestFirst_dec a b : Decision (NewestFirst a b).
Proof. unfold NewestFirst. apply _. Defined.

Definition sort_newest (files : list FileMetaData) : list FileMetaData := merge_sort NewestFirst files.

(** [ucmp->Compare(user_key, f->smallest.user_key()) >= 0 && ... <= 0]. *)
Definition covers (user_key : list Z) (f : FileMetaData) : option bool :=
  smallest ← ikey_user_key (f_smallest f);
  if 0 <=? Compare user_key smallest then
    largest ← ikey_user_key (f_largest f);
    Some (Compare user_key largest <=? 0)
  else Some false.

Fixpoint covering (user_key : list Z) (files : list FileMetaData) : option (list FileMetaData) :=
  match files with
  | [] => Some []
  | f :: files =>
      c ← covers user_key f;
      tmp ← covering user_key files;
      Some (if (c : bool) then f :: tmp else tmp)
  end.

(** The file of a level above 0 that may have the key. *)
Definition file_at_level (user_key ikey : list Z) (files : list FileMetaData) : option (list FileMetaData) :=
  index ← FindFile files ikey;
  if Z.of_nat (length files) <=? index then Some []
  else
    tmp2 ← files.[index];
    smallest ← ikey_user_key (f_smallest tmp2);
    Some (if Compare user_key smallest <? 0 then [] else [tmp2]).

(** The list of files to search in a level. *)
Definition files_to_search (user_key ikey : list Z) (level : Z) (files : list FileMetaData)
  : option (list FileMetaData) :=
  if bool_decide (files = []) then Some []
  else if level =? 0 then tmp ← covering user_key files; Some (sort_newest tmp)
  else file_at_level user_key ikey files.

(** [GetStats], and the file that was read last. *)
Record GetStats := mkStats { seek_file : option (FileMetaData * Z); last_file_read : option (FileMetaData * Z) }.

Definition charge_seek (st : GetStats) (f : FileMetaData) (level : Z) : GetStats :=
  mkStats (match seek_file st, last_file_read st with None, Some l => Some l | s, _ => s end) (Some (f, level)).

Definition bytes_string (l : list Z) : string :=
  String.string_of_list_ascii ((λ b, Ascii.ascii_of_nat (Z.to_nat b)) <$> l).

Section get.
Context `{TableStore TS} (options : ReadOptions) (user_key ikey : list Z).

(** The files of a level: [None] in the result keeps searching. *)
Fixpoint search_files (level : Z) (files : list FileMetaData) (tc : TS) (st : GetStats)
  : option (TS * GetStats * option (Status * option (list Z))) :=
  match files with
  | [] => Some (tc, st, None)
  | f :: files =>
      let st := charge_seek st f level in
      '(tc, s, saved) ← tc_Get tc options (f_number f) (f_file_size f) ikey;
      '(state, value) ← match saved with
                        | Some (k, v) => SaveValue user_key k v
                        | None => Some (kNotFound, None)
                        end;
      if negb (ok s) then Some (tc, st, Some (s, value))
      else
        match state with
        | kNotFound => search_files level files tc st
        | kFound => Some (tc, st, Some (s, value))
        | kDeleted => Some (tc, st, Some (NotFound "", None))
        | kCorrupt => Some (tc, st, Some (Corruption (status_message "corrupted key for " (bytes_string user_key)), None))
        end
  end.

Fixpoint search_levels (level : Z) (levels : list (list FileMetaData)) (tc : TS) (st : GetStats)
  : option (TS * GetStats * Status * option (list Z)) :=
  match levels with
  | [] => Some (tc, st, NotFound "", None)
  | files :: levels =>
      files ← files_to_search user_key ikey level files;
      '(tc, st, r) ← search_files level files tc st;
      match r with
      | Some (s, value) => Some (tc, st, s, value)
      | None => search_levels (level + 1) levels tc st
      end
  end.
End get.

Definition version_Get `{TableStore TS} (v : Version) (tc : TS) (options : ReadOptions) (k : LookupKey)
  : option (TS * GetStats * Status * option (list Z)) :=
  search_levels options (lookup_user_key k) (internal_key k) 0 (files_ v) tc (mkStats None None).

(** [f->allowed_seeks--] on the file of that level and number. *)
Definition dec_seeks (f : FileMetaData) : FileMetaData :=
  mkFile (f_refs f) (f_allowed_seeks f - 1) (f_number f) (f_file_size f) (f_smallest f) (f_largest f).

Definition update_file (v : Version) (level number : Z) (g : FileMetaData → FileMetaData) : Version :=
  mkVersion (alter (fmap (λ f, if f_number f =? number then g f else f)) (Z.to_nat level) (files_ v))
    (file_to_compact_ v) (file_to_compact_level_ v).

Definition UpdateStats (v : Version) (st : GetStats) : Version * bool :=
  match seek_file st with
  | None => (v, false)
  | Some (f, level) =>
      let v := update_file v level (f_number f) dec_seeks in
      let f := dec_seeks f in
      if (f_allowed_seeks f <=? 0) && bool_decide (file_to_compact_ v = None)
      then (mkVersion (files_ v) (Some f) level, true) else (v, false)
  end.

(** [ForEachOverlapping] with [State::Match]: the first match, and how many
    files match, up to two. *)
Definition match_file (level : Z) (state : option (FileMetaData * Z) * nat) (f : FileMetaData)
  : option (FileMetaData * Z) * nat :=
  let '(first, matches) := state in
  (match first with None => Some (f, level) | _ => first end, S matches).

Fixpoint match_files (level : Z) (state : option (FileMetaData * Z) * nat) (files : list FileMetaData)
  : option (FileMetaData * Z) * nat :=
  match files with
  | [] => state
  | f :: files => if (state.2 <? 2)%nat then match_files level (match_file level state f) files else state
  end.

Fixpoint ForEachOverlapping (user_key ikey : list Z) (level : Z) (levels : list (list FileMetaData))
    (state : option (FileMetaData * Z) * nat) : option (option (FileMetaData * Z) * nat) :=
  match levels with
  | [] => Some state
  | files :: levels =>
      if (2 <=? state.2)%nat then Some state
      else
        files ← files_to_search user_key ikey level files;
        ForEachOverlapping user_key ikey (level + 1) levels (match_files level state files)
  end.

Definition version_RecordReadSample (v : Version) (ikey : list Z) : option (Version * bool) :=
  parsed ← ParseInternalKey ikey;
  match parsed with
  | None => Some (v, false)
  | Some parsed =>
      '(first, matches) ← ForEachOverlapping (DbFormat.user_key parsed) ikey 0 (files_ v) (None, 0%nat);
      Some (if (2 <=? matches)%nat then UpdateStats v (mkStats first None) else (v, false))
  end.

(** ** Overlaps *)

(** [user_begin] and [user_end], [None] for [NULL]; the files seen so far and
    the remaining ones. *)
Fixpoint overlapping_inputs (fuel : nat) (level : Z) (all : list FileMetaData) (user_begin user_end : option (list Z))
    (inputs rest : list FileMetaData) : option (list FileMetaData) :=
  match rest with
  | [] => Some inputs
  | f :: rest =>
      match fuel with
      | O => None
      | S fuel =>
          file_start ← ikey_user_key (f_smallest f);
          file_limit ← ikey_user_key (f_largest f);
          let lt o k := match o with Some b => Compare k b <? 0 | None => false end in
          let gt o k := match o with Some e => 0 <? Compare k e | None => false end in
          if lt user_begin file_limit then overlapping_inputs fuel level all user_begin user_end inputs rest
          else if gt user_end file_start then overlapping_inputs fuel level all user_begin user_end inputs rest
          else if (level =? 0) && lt user_begin file_start
          then overlapping_inputs fuel level all (Some file_start) user_end [] all
          else if (level =? 0) && gt user_end file_limit
          then overlapping_inputs fuel level all user_begin (Some file_limit) [] all
          else overlapping_inputs fuel level all user_begin user_end (inputs ++ [f]) rest
      end
  end.

Definition user_key_opt (k : option (list Z)) : option (option (list Z)) :=
  match k with None => Some None | Some k => u ← ikey_user_key k; Some (Some u) end.

(** Every turn but the last of a pass is followed by another one; a pass that
    is cut short has extended the range to a file. *)
Definition GetOverlappingInputs (v : Version) (level : Z) (begin end_ : option (list Z)) : option (list FileMetaData) :=
  if (0 <=? level) && (level <? kNumLevels) then
    files ← (files_ v).[level];
    user_begin ← user_key_opt begin;
    user_end ← user_key_opt end_;
    let n := length files in
    overlapping_inputs ((2 * n + 1) * n) level files user_begin user_end [] files
  else None (* assert *).

Definition OverlapInLevel (v : Version) (level : Z) (smallest largest : option (list Z)) : option bool :=
  files ← (files_ v).[level];
  SomeFileOverlapsRange (0 <? level) files smallest largest.

Definition TotalFileSize (files : list FileMetaData) : Z := foldl (λ sum f, sum + f_file_size f) 0 files.

Definition kMaxMemCompactLevel : Z := 2.

(** [TargetFileSize] is an [int], and so is ten times it: [None] if that is
    too large for one. *)
Definition TargetFileSize (max_file_size : Z) : Z := s32 (u32 max_file_size).

Definition int_times (n size : Z) : option Z :=
  if (- 2 ^ 31 <=? n * size) && (n * size <? 2 ^ 31) then Some (n * size) else None.

Definition MaxGrandParentOverlapBytes (max_file_size : Z) : option Z := int_times 10 (TargetFileSize max_file_size).

Fixpoint pick_level (fuel : nat) (max_file_size : Z) (v : Version) (smallest largest start limit : list Z) (level : Z)
  : option Z :=
  if level <? kMaxMemCompactLevel then
    match fuel with
    | O => None
    | S fuel =>
        overlap ← OverlapInLevel v (level + 1) (Some smallest) (Some largest);
        if (overlap : bool) then Some level
        else if level + 2 <? kNumLevels then
          overlaps ← GetOverlappingInputs v (level + 2) (Some start) (Some limit);
          max_bytes ← MaxGrandParentOverlapBytes max_file_size;
          if max_bytes <? TotalFileSize overlaps then Some level
          else pick_level fuel max_file_size v smallest largest start limit (level + 1)
        else pick_level fuel max_file_size v smallest largest start limit (level + 1)
    end
  else Some level.

Definition PickLevelForMemTableOutput (max_file_size : Z) (v : Version) (smallest largest : list Z) : option Z :=
  overlap ← OverlapInLevel v 0 (Some smallest) (Some largest);
  if (overlap : bool) then Some 0
  else
    start ← NewInternalKey smallest kMaxSequenceNumber kValueTypeForSeek;
    limit ← NewInternalKey largest 0 0;
    pick_level (Z.to_nat kMaxMemCompactLevel) max_file_size v smallest largest start limit 0.

(** ** [DBImpl::Get]

    The memtable, the memtable that is being written to a table, and the
    current version. *)
Record DBState (T : OrderedTable (list Z)) := mkDBState {
  mem_ : MemTable (T := T);
  imm_ : option (MemTable (T := T));
  current_ : Version;
  last_seq_ : Z
}.
Arguments mkDBState {T}.
Arguments mem_ {T}.
Arguments imm_ {T}.
Arguments current_ {T}.
Arguments last_seq_ {T}.

(** Whether a compaction has to be scheduled, the status and the value. *)
Definition DBImpl_Get {T : OrderedTable (list Z)} `{TableStore TS} (db : DBState T) (tc : TS) (options : ReadOptions)
    (snapshot : option Z) (key : list Z) : option (DBState T * TS * bool * Status * option (list Z)) :=
  let snapshot := default (last_seq_ db) snapshot in
  lkey ← NewLookupKey key snapshot;
  let found (s : Status) (value : option (list Z)) := Some (db, tc, false, s, value) in
  r ← Get (mem_ db) lkey;
  match r with
  | GotValue v => found OK (Some v)
  | GotDeletion s => found s None
  | GotNothing =>
      r ← match imm_ db with Some imm => Get imm lkey | None => Some GotNothing end;
      match r with
      | GotValue v => found OK (Some v)
      | GotDeletion s => found s None
      | GotNothing =>
          '(tc, stats, s, value) ← version_Get (current_ db) tc options lkey;
          let '(current, compact) := UpdateStats (current_ db) stats in
          Some (mkDBState (mem_ db) (imm_ db) current (last_seq_ db), tc, compact, s, value)
      end
  end.
End version.
Arguments mkDBState {T}.
Arguments mem_ {T}.
Arguments imm_ {T}.
Arguments current_ {T}.
Arguments last_seq_ {T}.
