(* ===== verification/VersionSpec.v ===== *)
(** Searching the files of a version (Version.v) finds the newest entry that
    is visible.

    The files of a level above 0 are in the order of their keys and do not
    overlap; those of level 0 may, and a higher number is newer; entries of a
    lower level are newer than entries of a higher one with the same user
    key. *)

From Stdlib Require Import ZArith Lia.
From stdpp Require Import base option numbers list strings sorting.
From S2P Require Import Prelude Coding Slice WriteBatch DbFormat SkipList SkipListSpec SkipListRefine.
From S2P Require Import MemTable Iterator TwoLevel Merger Bloom InternalKey TableFormat VersionEdit Version DbIterSpec.

(** ** [FindFile] *)

Section files.
Context `{P : Port} {C : Comparator} {HC : ComparatorLaws C}.

(** Files as they are in a level above 0: with keys, and in order. *)
Definition files_sorted (files : list FileMetaData) : Prop :=
  Z.of_nat (length files) < 2 ^ 31 ∧ Forall (λ f, f_largest f ≠ []) files ∧
  StronglySorted (λ a b, icmp_Compare C (f_largest a) (f_largest b) ≤ 0) files.

Abbreviation largest_keys files := (f_largest <$> files).

Lemma files_sorted_le files i j a b :
  files_sorted files → (i ≤ j)%nat → files !! i = Some a → files !! j = Some b →
  icmp_Compare C (f_largest a) (f_largest b) ≤ 0.
Proof.
  intros (_ & _ & Hs) Hij Ha Hb. destruct (decide (i = j)) as [->|Hne].
  { rewrite Ha in Hb. injection Hb as <-. pose proof (icmp_anti C (f_largest a) (f_largest a)). lia. }
  rewrite <-(take_drop_middle files i a Ha) in Hs. apply StronglySorted_app_1_r in Hs.
  apply StronglySorted_cons in Hs as [Hs _]. rewrite Forall_forall in Hs. apply Hs.
  apply list_elem_of_lookup. exists (j - S i)%nat. rewrite lookup_drop. rewrite <-Hb. f_equal. lia.
Qed.

Lemma find_file_ok files key : files_sorted files →
  ∀ fuel (left right : nat), (left ≤ right ≤ length files)%nat → (right - left ≤ fuel)%nat →
  (∀ j f, (j < left)%nat → files !! j = Some f → icmp_Compare C (f_largest f) key < 0) →
  (∀ j f, (right ≤ j)%nat → files !! j = Some f → 0 ≤ icmp_Compare C (f_largest f) key) →
  find_file fuel files key (Z.of_nat left) (Z.of_nat right) =
  Some (Z.of_nat (seek_index (C := InternalKeyComparator C) (largest_keys files) key)).
Proof.
  intros Hs. pose proof Hs as (Hlen & Hne & _). induction fuel as [|fuel IH]; intros left right Hlr Hf Hlt Hge; cbn [find_file].
  all: destruct (Z.ltb_spec (Z.of_nat left) (Z.of_nat right)) as [Hl|Hl]; [|].
  1: lia.
  1,3: assert (left = right) as -> by lia; do 2 f_equal; symmetry; apply seek_index_unique;
    [rewrite length_fmap; lia
    |intros j k Hj Hk; rewrite list_lookup_fmap in Hk; apply fmap_Some_1 in Hk as (f & Hf' & ->); by eapply Hlt
    |intros k Hk; rewrite list_lookup_fmap in Hk; apply fmap_Some_1 in Hk as (f & Hf' & ->); by eapply Hge].
  rewrite (wrap_small 32 (Z.of_nat left + Z.of_nat right)) by (unfold in_width; lia).
  assert (Hmid : (Z.of_nat left + Z.of_nat right) / 2 = Z.of_nat ((left + right) / 2)%nat)
    by (rewrite Nat2Z.inj_div, Nat2Z.inj_add; done). rewrite Hmid.
  set (mid := ((left + right) / 2)%nat) in *. assert (Hm : (left ≤ mid < right)%nat) by (unfold mid; split; [apply Nat.div_le_lower_bound|apply Nat.Div0.div_lt_upper_bound]; lia).
  destruct (lookup_lt_is_Some_2 files mid ltac:(lia)) as [f Hfm].
  rewrite aget_lookup, Hfm. simpl_bind.
  rewrite Forall_forall in Hne. unfold ikey_Encode. rewrite bool_decide_eq_false_2 by (by eapply Hne, list_elem_of_lookup_2).
  simpl_bind. destruct (Z.ltb_spec (icmp_Compare C (f_largest f) key) 0) as [Hc|Hc].
  - rewrite (wrap_small 32) by (unfold in_width; change (2 ^ 32) with (2 * 2 ^ 31); lia). replace (Z.of_nat mid + 1) with (Z.of_nat (S mid)) by lia.
    apply IH; [lia|lia| |done]. intros j g Hj Hg. pose proof (files_sorted_le files j mid g f Hs ltac:(lia) Hg Hfm).
    by apply (Compare_le_lt_trans (C := InternalKeyComparator C) _ (f_largest f)).
  - apply IH; [lia|lia|done|]. intros j g Hj Hg. pose proof (files_sorted_le files mid j f g Hs ltac:(lia) Hfm Hg) as Hle.
    destruct (decide (0 ≤ icmp_Compare C (f_largest g) key)); [done|].
    pose proof (Compare_le_lt_trans (C := InternalKeyComparator C) (f_largest f) (f_largest g) key Hle). cbn in *. lia.
Qed.

Lemma FindFile_ok files key :
  files_sorted files →
  FindFile files key = Some (Z.of_nat (seek_index (C := InternalKeyComparator C) (largest_keys files) key)).
Proof.
  intros Hs. pose proof Hs as (Hlen & _). unfold FindFile. rewrite (wrap_small 32) by (unfold in_width; change (2 ^ 32) with (2 * 2 ^ 31); lia).
  apply (find_file_ok files key Hs (length files) 0 (length files)); [lia|lia|lia|].
  intros j f Hj Hf. apply lookup_lt_Some in Hf. lia.
Qed.
End files.

(** ** [LevelFileNumIterator] is a cursor over the files of its level *)

Section level_iter.
Context `{P : Port} {C : Comparator} {HC : ComparatorLaws C}.

Definition file_pair (f : FileMetaData) : list Z * list Z := (f_largest f, file_value f).

Definition level_positioned (it : LevelFileNumIterator) (es : list (list Z * list Z)) (i : nat) : Prop :=
  files_sorted (C := C) (flist_ it) ∧ es = file_pair <$> flist_ it ∧ index_ it = Z.of_nat i ∧
  (i ≤ length (flist_ it))%nat.

Lemma largest_pairs files : (file_pair <$> files).*1 = f_largest <$> files.
Proof. by rewrite <-list_fmap_compose. Qed.

Lemma level_positioned_op it es i o j :
  level_positioned it es i → cursor_op (C := InternalKeyComparator C) es i o = Some j →
  ∃ it', i_apply it o = Some it' ∧ level_positioned it' es j.
Proof.
  intros (Hs & -> & Hi & Hle) Ho. pose proof Hs as (Hlen & _).
  assert (Hj : (j ≤ length (flist_ it))%nat).
  { apply cursor_op_le in Ho; rewrite ?length_fmap in *; done. }
  assert (H32 : in_width 32 (Z.of_nat (length (flist_ it)))) by (unfold in_width; lia).
  destruct o; cbn [cursor_op i_apply i_SeekToFirst i_SeekToLast i_Seek i_Next i_Prev level_iterator] in *;
    rewrite ?length_fmap in *.
  - injection Ho as <-. eexists. split; [done|]. by split_and!.
  - injection Ho as <-. eexists. split; [done|]. unfold level_positioned, li_SeekToLast. cbn [flist_ index_].
    split_and!; [done|done| |done]. case_bool_decide as Hn; [by rewrite Hn|].
    destruct (flist_ it) as [|f fs]; [done|]. cbn [length] in *. rewrite wrap_small by (unfold in_width in *; lia). lia.
  - injection Ho as <-. unfold li_Seek. rewrite FindFile_ok by done. simpl_bind. eexists. split; [done|].
    rewrite largest_pairs in *. by split_and!.
  - destruct (Nat.ltb_spec i (length (flist_ it))); [|done]. injection Ho as <-. unfold li_Next, li_Valid.
    rewrite Hi, (proj2 (Z.ltb_lt _ _)) by lia. cbn [negb]. eexists. split; [done|].
    unfold level_positioned. cbn [flist_ index_]. rewrite wrap_small by (unfold in_width in *; lia). split_and!; [done|done|lia|lia].
  - destruct (Nat.ltb_spec i (length (flist_ it))); [|done]. injection Ho as <-. unfold li_Prev, li_Valid.
    rewrite Hi, (proj2 (Z.ltb_lt _ _)) by lia. cbn [negb]. eexists. split; [done|].
    unfold level_positioned. cbn [flist_ index_]. split_and!; [done|done| |done].
    destruct i as [|i]; [by rewrite wrap_small|]. rewrite (proj2 (Z.eqb_neq _ _)) by lia. lia.
Qed.

Lemma level_positioned_entry it es i :
  level_positioned it es i → (i ≤ length es)%nat ∧ i_Valid it = (i <? length es)%nat ∧
    (∀ k v, es !! i = Some (k, v) → i_key it = Some k ∧ i_value it = Some v) ∧ i_status it = Some OK.
Proof.
  intros (Hs & -> & Hi & Hle). rewrite length_fmap. cbn [i_Valid i_key i_value i_status level_iterator].
  assert (Hv : li_Valid it = (i <? length (flist_ it))%nat).
  { unfold li_Valid. rewrite Hi. destruct (Nat.ltb_spec i (length (flist_ it))); lia. }
  split; [done|]. split; [done|]. split; [|done]. intros k v Hk. rewrite list_lookup_fmap in Hk.
  apply fmap_Some_1 in Hk as (f & Hf & E). injection E as -> ->. pose proof (lookup_lt_Some _ _ _ Hf).
  unfold li_key, li_value. rewrite Hv, (proj2 (Nat.ltb_lt _ _)) by done. cbn [negb].
  rewrite Hi, aget_lookup, Hf. simpl_bind. split; [|done]. destruct Hs as (_ & Hne & _).
  unfold ikey_Encode. by rewrite bool_decide_eq_false_2 by (eapply Forall_lookup_1 in Hne; done).
Qed.

#[export] Instance level_laws : IteratorLaws (C := InternalKeyComparator C) LevelFileNumIterator := {|
  positioned := level_positioned;
  positioned_op := level_positioned_op;
  positioned_entry := level_positioned_entry
|}.
End level_iter.

(** ** The entries of tables as those of the memtable *)

Section entries.
Context `{P : Port} {C : Comparator} {HC : ComparatorLaws C}.

Definition entry_of (e : list Z * list Z) : entry := mkEntry (ikey_user e.1) (ikey_seq e.1) (ikey_type e.1) e.2.

(** What a lookup in a list of entries answers. *)
Definition answer_of (e : option (list Z * list Z)) : get_result :=
  match e with
  | None => GotNothing
  | Some e => if ikey_type e.1 =? kTypeValue then GotValue e.2 else GotDeletion (NotFound "")
  end.

Lemma entry_of_tag e : ikey_wf e.1 → e_tag (entry_of e) = ikey_tag e.1.
Proof.
  intros (u & s & t & Ek & Hs & Ht). unfold e_tag, entry_of. cbn [e_seq e_type]. rewrite Ek.
  destruct (ikey_wf_parts u s t Hs Ht) as (_ & -> & -> & ->). done.
Qed.

(** The first entry that matches is the newest. *)
Lemma visible_get_ok es u snap :
  internal_entries es → get_ok (entry_of <$> es) u snap (answer_of (visible es u snap)).
Proof.
  intros [Hwf Hs]. unfold visible. destruct (list_find _ es) as [[i e]|] eqn:Ef; cbn [fmap option_fmap option_map].
  - apply list_find_Some in Ef as (Hi & [Hu Ht] & Hmin).
    assert (Hwe : ikey_wf e.1) by (by eapply (internal_wf es Hwf)).
    apply ikey_wf_visible in Ht; [|done].
    assert (Hnew : newest (entry_of <$> es) u snap (entry_of e)).
    { split; [by apply list_elem_of_fmap_2, (list_elem_of_lookup_2 _ i)|]. split; [done|].
      intros e' (x & -> & Hx)%list_elem_of_fmap [Hu' Hv']. cbn in Hu', Hv'.
      apply list_elem_of_lookup in Hx as [j Hj]. assert (Hwx : ikey_wf x.1) by (by eapply (internal_wf es Hwf)).
      rewrite !entry_of_tag by done. destruct (decide (j < i)%nat) as [Hlt|Hge].
      { destruct (Hmin j x Hj Hlt). split; [done|]. by apply ikey_wf_visible. }
      destruct (decide (i = j)) as [->|Hne]; [rewrite Hi in Hj; injection Hj as ->; lia|].
      pose proof (sorted_lt (C := InternalKeyComparator C) es i j e x Hs Hi Hj ltac:(lia)) as Hlt.
      unfold key_lt in Hlt. cbn [Compare InternalKeyComparator] in Hlt. rewrite icmp_long in Hlt by (by apply ikey_wf_long).
      unfold ikey_cmp in Hlt. rewrite (proj2 (Z.eqb_eq _ _)) in Hlt.
      - destruct (Z.ltb_spec (ikey_tag x.1) (ikey_tag e.1)); [lia|].
        destruct (Z.ltb_spec (ikey_tag e.1) (ikey_tag x.1)); lia.
      - pose proof (Compare_eq_l _ _ (ikey_user x.1) Hu). pose proof (proj1 (Compare_eq_sym _ _) Hu'). lia. }
    unfold answer_of. cbn [snd]. destruct (ikey_wf_type _ Hwe) as [Hty|Hty]; rewrite Hty; cbn [Z.eqb kTypeDeletion kTypeValue].
    + split; [done|]. by exists (entry_of e).
    + by exists (entry_of e).
  - apply list_find_None in Ef. cbn [answer_of get_ok]. intros e' (x & -> & Hx)%list_elem_of_fmap [Hu Hv].
    rewrite Forall_forall in Ef, Hwf. apply (Ef x Hx). split; [done|]. apply ikey_wf_visible; [by apply Hwf|done].
Qed.
End entries.

(** ** The tables

    [ts_holds tc number size es]: the table of that number holds [es].  A
    lookup finds the entry that is visible, or one of another user key.
    [ts_left tc]: how many more lookups are sure to work (the numbers of
    tables in a block cache are of 64 bits). *)

Definition saved_ok `{P : Port} {C : Comparator} (es : list (list Z * list Z)) (u : list Z) (snap : Z)
    (saved : option (list Z * list Z)) : Prop :=
  match visible es u snap with
  | Some e => saved = Some e
  | None => ∀ e, saved = Some e → e ∈ es ∧ Compare (ikey_user e.1) u ≠ 0
  end.

Class TableStoreLaws `{P : Port} {C : Comparator} (TS : Type) `{TableStore TS} := {
  ts_holds : TS → Z → Z → list (list Z * list Z) → Prop;
  ts_left : TS → Z;
  ts_Get tc ro number size es u snap :
    ts_holds tc number size es → 1 ≤ ts_left tc → internal_entries es → key_ok u → seq_ok snap →
    ∃ tc' saved, tc_Get tc ro number size (ikey_bytes u (tag_of snap kValueTypeForSeek)) = Some (tc', OK, saved) ∧
      saved_ok es u snap saved ∧ (∀ n s es', ts_holds tc n s es' → ts_holds tc' n s es') ∧ ts_left tc - 1 ≤ ts_left tc'
}.

Section lookup.
Context `{P : Port} {C : Comparator} {HC : ComparatorLaws C} `{TableStore TS} {HT : TableStoreLaws (P := P) (C := C) TS}.
Context (ro : ReadOptions) (u : list Z) (snap : Z).
Hypothesis Hu : key_ok u.
Hypothesis Hsnap : seq_ok snap.

Abbreviation ikey := (ikey_bytes u (tag_of snap kValueTypeForSeek)).
Implicit Types (tc : TS) (L Lb La : list (FileMetaData * list (list Z * list Z))).

(** After at most [n] lookups. *)
Definition keeps (n : nat) tc tc' : Prop :=
  (∀ n s es, ts_holds tc n s es → ts_holds tc' n s es) ∧ ts_left tc - Z.of_nat n ≤ ts_left tc'.

Lemma keeps_refl n tc : keeps n tc tc.
Proof. split; [done|lia]. Qed.

Lemma keeps_trans n m k tc1 tc2 tc3 : keeps n tc1 tc2 → keeps m tc2 tc3 → (n + m ≤ k)%nat → keeps k tc1 tc3.
Proof. intros [H1 L1] [H2 L2] Hk. split; [eauto|lia]. Qed.

(** A file with its entries: its bounds are the first and the last key. *)
Record file_ok tc (p : FileMetaData * list (list Z * list Z)) : Prop := {
  fo_table : ts_holds tc (f_number p.1) (f_file_size p.1) p.2;
  fo_entries : internal_entries p.2;
  fo_smallest : fst <$> head p.2 = Some (f_smallest p.1);
  fo_largest : fst <$> last p.2 = Some (f_largest p.1)
}.

Definition all_of L : list entry := entry_of <$> concat L.*2.

Lemma file_ok_keeps n tc tc' p : keeps n tc tc' → file_ok tc p → file_ok tc' p.
Proof. intros [Hk _] []. split; auto. Qed.

Lemma files_ok_keeps n tc tc' L : keeps n tc tc' → Forall (file_ok tc) L → Forall (file_ok tc') L.
Proof. intros Hk HL. eapply Forall_impl; [exact HL|]. intros p. by eapply file_ok_keeps. Qed.

Lemma SaveValue_ok es saved :
  internal_entries es → saved_ok es u snap saved →
  match saved with Some (k, v) => SaveValue u k v | None => Some (kNotFound, None) end =
  Some (match answer_of (visible es u snap) with
        | GotNothing => (kNotFound, None) | GotValue v => (kFound, Some v) | GotDeletion _ => (kDeleted, None) end).
Proof.
  intros [Hwf _] Hs. unfold saved_ok in Hs. destruct (visible es u snap) as [e|] eqn:Ev.
  - subst saved. destruct e as [k v]. unfold visible in Ev.
    destruct (list_find _ es) as [[i e]|] eqn:Ef; [|done]. injection Ev as ->.
    apply list_find_Some in Ef as (Hi & [Hc _] & _). cbn [fst] in Hc.
    pose proof (internal_wf es Hwf i _ Hi) as Hk. cbn [fst] in Hk. unfold SaveValue.
    rewrite (proj1 (ikey_wf_parse _ Hk)). simpl_bind. cbn [DbFormat.user_key type].
    rewrite (proj2 (Z.eqb_eq _ _) Hc). unfold answer_of. cbn [fst snd]. by destruct (ikey_type k =? kTypeValue).
  - destruct saved as [[k v]|]; [|done]. destruct (Hs (k, v) eq_refl) as [He Hne]. cbn [fst] in Hne.
    rewrite Forall_forall in Hwf. pose proof (Hwf _ He) as Hk. cbn [fst] in Hk. unfold SaveValue.
    rewrite (proj1 (ikey_wf_parse _ Hk)). simpl_bind. cbn [DbFormat.user_key].
    by rewrite (proj2 (Z.eqb_neq _ _) Hne).
Qed.

Definition found (a : get_result) : option (Status * option (list Z)) :=
  match a with
  | GotNothing => None
  | GotValue v => Some (OK, Some v)
  | GotDeletion s => Some (s, None)
  end.

Lemma newer_all p L :
  Forall (λ q, newer (entry_of <$> p) (entry_of <$> q.2)) L → newer (entry_of <$> p) (all_of L).
Proof.
  intros HL a b Ha (x & -> & Hx)%list_elem_of_fmap Hc.
  apply list_elem_of_In, in_concat in Hx as (es & Hes & Hx). apply list_elem_of_In, list_elem_of_fmap in Hes as (q & -> & Hq).
  rewrite Forall_forall in HL. apply (HL q Hq a (entry_of x) Ha); [|done]. by apply list_elem_of_fmap_2, list_elem_of_In.
Qed.

(** Files from the newest to the oldest. *)
Lemma search_files_ok level L : ∀ tc st,
  Z.of_nat (length L) ≤ ts_left tc → Forall (file_ok tc) L → StronglySorted (λ p q, newer (entry_of <$> p.2) (entry_of <$> q.2)) L →
  ∃ tc' st' a, search_files ro u ikey level L.*1 tc st = Some (tc', st', found a) ∧
    get_ok (all_of L) u snap a ∧ keeps (length L) tc tc'.
Proof.
  induction L as [|p L IH]; intros tc st Hleft Hok Hn; cbn [length] in *.
  { exists tc, st, GotNothing. split; [done|]. split; [by intros e ?%not_elem_of_nil|apply keeps_refl]. }
  apply Forall_cons in Hok as [Hp Hok]. apply StronglySorted_cons in Hn as [Hpn Hn].
  rewrite fmap_cons. cbn [search_files]. set (st1 := charge_seek st p.1 level).
  destruct (ts_Get tc ro _ _ _ u snap (fo_table _ _ Hp) ltac:(lia) (fo_entries _ _ Hp) Hu Hsnap) as (tc1 & saved & -> & Hs & Hh & Hl).
  assert (Hk : keeps 1 tc tc1) by (by split).
  simpl_bind. rewrite (SaveValue_ok p.2 saved (fo_entries _ _ Hp) Hs). simpl_bind.
  pose proof (visible_get_ok p.2 u snap (fo_entries _ _ Hp)) as Ha.
  destruct (IH tc1 st1) as (tc' & st' & a & E & Hg & Hk');
    [lia|by eapply files_ok_keeps|done|].
  assert (Happ : get_ok (all_of (p :: L)) u snap (or_else (answer_of (visible p.2 u snap)) a)).
  { unfold all_of. rewrite fmap_cons. cbn [concat]. rewrite fmap_app. apply get_ok_app; [by apply newer_all|done|done]. }
  destruct (answer_of (visible p.2 u snap)) as [|v|s] eqn:Ea; cbn [ok negb].
  - exists tc', st', a. split; [exact E|]. split; [done|]. by eapply keeps_trans.
  - exists tc1, st1, (GotValue v). split; [done|]. split; [done|]. eapply keeps_trans; [exact Hk|apply (keeps_refl 0)|lia].
  - assert (s = NotFound "") as ->.
    { unfold answer_of in Ea. destruct (visible p.2 u snap) as [e|]; [|done].
      destruct (ikey_type e.1 =? kTypeValue); [done|]. by injection Ea. }
    exists tc1, st1, (GotDeletion (NotFound "")). split; [done|]. split; [done|].
    eapply keeps_trans; [exact Hk|apply (keeps_refl 0)|lia].
Qed.

(** *** Order and bounds *)

Lemma key_before_tag a b :
  ikey_wf a → ikey_wf b → icmp_Compare C a b < 0 → Compare (ikey_user a) (ikey_user b) = 0 → ikey_tag b < ikey_tag a.
Proof.
  intros Ha Hb Hlt Hc. rewrite icmp_long in Hlt by (by apply ikey_wf_long). unfold ikey_cmp in Hlt.
  rewrite (proj2 (Z.eqb_eq _ _) Hc) in Hlt. destruct (Z.ltb_spec (ikey_tag b) (ikey_tag a)); [done|].
  destruct (Z.ltb_spec (ikey_tag a) (ikey_tag b)); lia.
Qed.

Lemma key_before_user a b :
  ikey_wf a → ikey_wf b → icmp_Compare C a b ≤ 0 → Compare (ikey_user a) (ikey_user b) ≤ 0.
Proof.
  intros Ha Hb Hlt. rewrite icmp_long in Hlt by (by apply ikey_wf_long). unfold ikey_cmp in Hlt.
  destruct (Z.eqb_spec (Compare (ikey_user a) (ikey_user b)) 0); lia.
Qed.

Lemma internal_entries_app l1 l2 :
  internal_entries (l1 ++ l2) →
  internal_entries l1 ∧ internal_entries l2 ∧ ∀ x y, x ∈ l1 → y ∈ l2 → icmp_Compare C x.1 y.1 < 0.
Proof.
  intros [Hwf Hs]. apply Forall_app in Hwf as [H1 H2]. split; [|split].
  - split; [done|]. by eapply StronglySorted_app_1_l.
  - split; [done|]. by eapply StronglySorted_app_1_r.
  - intros x y Hx Hy. exact (StronglySorted_app_1_elem_of _ _ _ x y Hs Hx Hy).
Qed.

Lemma internal_entries_newer l1 l2 :
  internal_entries (l1 ++ l2) → newer (entry_of <$> l1) (entry_of <$> l2).
Proof.
  intros Hi. pose proof Hi as [Hwf _]. rewrite Forall_forall in Hwf. apply internal_entries_app in Hi as (_ & _ & Hlt).
  intros a b (x & -> & Hx)%list_elem_of_fmap (y & -> & Hy)%list_elem_of_fmap Hc.
  assert (ikey_wf x.1) by (apply Hwf, elem_of_app; by left). assert (ikey_wf y.1) by (apply Hwf, elem_of_app; by right).
  rewrite !entry_of_tag by done. apply key_before_tag; [done..|by apply Hlt|done].
Qed.

(** The bounds of a file. *)
Lemma file_bounds tc p :
  file_ok tc p →
  (∃ e, e ∈ p.2 ∧ e.1 = f_smallest p.1) ∧ (∃ e, e ∈ p.2 ∧ e.1 = f_largest p.1) ∧
  ∀ e, e ∈ p.2 → icmp_Compare C (f_smallest p.1) e.1 ≤ 0 ∧ icmp_Compare C e.1 (f_largest p.1) ≤ 0.
Proof.
  intros [_ [Hwf Hs] Hsm Hlg]. destruct p as [f es]. cbn [fst snd] in *.
  destruct (head es) as [a|] eqn:Ha; [|done]. destruct (last es) as [b|] eqn:Hb; [|done].
  injection Hsm as <-. injection Hlg as <-.
  assert (Hrefl : ∀ k, icmp_Compare C k k = 0) by (intros k; exact (Compare_refl (C := InternalKeyComparator C) k)).
  rewrite head_lookup in Ha. rewrite last_lookup in Hb.
  split; [exists a; split; [by eapply list_elem_of_lookup_2|done]|].
  split; [exists b; split; [by eapply list_elem_of_lookup_2|done]|].
  intros e [i Hi]%list_elem_of_lookup. pose proof (lookup_lt_Some _ _ _ Hi). split.
  - destruct i as [|i]; [rewrite Ha in Hi; injection Hi as ->; by rewrite Hrefl|].
    apply Z.lt_le_incl. exact (sorted_lt (C := InternalKeyComparator C) es 0 (S i) a e Hs Ha Hi ltac:(lia)).
  - destruct (decide (i = pred (length es))) as [->|]; [rewrite Hb in Hi; injection Hi as ->; by rewrite Hrefl|].
    apply Z.lt_le_incl. exact (sorted_lt (C := InternalKeyComparator C) es i (pred (length es)) e b Hs Hi Hb ltac:(lia)).
Qed.

Lemma file_keys_wf tc p : file_ok tc p → ikey_wf (f_smallest p.1) ∧ ikey_wf (f_largest p.1).
Proof.
  intros Hp. destruct (file_bounds tc p Hp) as ((a & Ha & <-) & (b & Hb & <-) & _).
  destruct (fo_entries _ _ Hp) as [Hwf _]. rewrite Forall_forall in Hwf. split; by apply Hwf.
Qed.

Lemma file_user_bounds tc p e :
  file_ok tc p → e ∈ p.2 →
  Compare (ikey_user (f_smallest p.1)) (ikey_user e.1) ≤ 0 ∧ Compare (ikey_user e.1) (ikey_user (f_largest p.1)) ≤ 0.
Proof.
  intros Hp He. destruct (file_keys_wf tc p Hp) as [Hs Hl]. destruct (file_bounds tc p Hp) as (_ & _ & Hb).
  destruct (Hb e He) as [H1 H2]. destruct (fo_entries _ _ Hp) as [Hwf _]. rewrite Forall_forall in Hwf.
  split; apply key_before_user; auto.
Qed.

Lemma ikey_user_key_wf k : ikey_wf k → ikey_user_key k = Some (ikey_user k).
Proof. intros Hk. exact (proj2 (ikey_wf_parse k Hk)). Qed.

Lemma elem_of_all L x : x ∈ all_of L ↔ ∃ p e, p ∈ L ∧ e ∈ p.2 ∧ x = entry_of e.
Proof.
  unfold all_of. rewrite list_elem_of_fmap. split.
  - intros (e & -> & He). apply list_elem_of_In, in_concat in He as (es & Hes & He).
    apply list_elem_of_In, list_elem_of_fmap in Hes as (p & -> & Hp). exists p, e. split; [done|]. by rewrite list_elem_of_In.
  - intros (p & e & Hp & He & ->). exists e. split; [done|]. apply list_elem_of_In, in_concat. exists p.2.
    split; apply list_elem_of_In; [by apply list_elem_of_fmap_2|done].
Qed.

(** *** Level 0 *)

Definition covered (p : FileMetaData * list (list Z * list Z)) : Prop :=
  0 ≤ Compare u (ikey_user (f_smallest p.1)) ∧ Compare u (ikey_user (f_largest p.1)) ≤ 0.

Lemma covering_ok tc L :
  Forall (file_ok tc) L → covering u L.*1 = Some (filter covered L).*1.
Proof.
  induction 1 as [|p L Hp _ IH]; [done|]. rewrite fmap_cons. cbn [covering]. unfold covers.
  destruct (file_keys_wf tc p Hp) as [Hs Hl]. rewrite !ikey_user_key_wf by done. simpl_bind. rewrite filter_cons.
  destruct (Z.leb_spec 0 (Compare u (ikey_user (f_smallest p.1)))) as [H1|H1]; simpl_bind; rewrite IH; simpl_bind.
  - destruct (Z.leb_spec (Compare u (ikey_user (f_largest p.1))) 0) as [H2|H2].
    + by rewrite decide_True.
    + rewrite decide_False by (unfold covered; lia). done.
  - rewrite decide_False by (unfold covered; lia). done.
Qed.

(** The files of level 0: numbers are distinct, and order the files by age. *)
Definition level0_ok L : Prop :=
  NoDup (f_number <$> L.*1) ∧
  ∀ p q, p ∈ L → q ∈ L → f_number q.1 < f_number p.1 → newer (entry_of <$> p.2) (entry_of <$> q.2).

#[local] Instance NewestFirst_trans : Transitive NewestFirst.
Proof. intros a b c. unfold NewestFirst. lia. Qed.

#[local] Instance NewestFirst_total : Total NewestFirst.
Proof. intros a b. unfold NewestFirst. lia. Qed.

Lemma sorted_files L :
  level0_ok L → StronglySorted NewestFirst L.*1 → StronglySorted (λ p q, newer (entry_of <$> p.2) (entry_of <$> q.2)) L.
Proof.
  intros [Hnd Hn]. induction L as [|p L IH]; [constructor|].
  rewrite fmap_cons in *. cbn [fmap list_fmap] in Hnd. apply NoDup_cons in Hnd as [Hp Hnd].
  intros [Hall Hs]%StronglySorted_cons. constructor.
  - apply IH; [done|intros; by apply Hn; try apply elem_of_cons; auto|done].
  - apply Forall_forall. intros q Hq. apply Hn; [by left|by right|].
    assert (Hq1 : q.1 ∈ L.*1) by (by apply list_elem_of_fmap_2). rewrite Forall_forall in Hall.
    pose proof (Hall _ Hq1) as Hle. unfold NewestFirst in Hle.
    destruct (decide (f_number q.1 = f_number p.1)) as [E|]; [|lia].
    destruct Hp. rewrite <-E. by apply (list_elem_of_fmap_2 f_number).
Qed.

Lemma level0_search tc st L :
  Z.of_nat (length L) ≤ ts_left tc → Forall (file_ok tc) L → level0_ok L →
  ∃ fs tc' st' a, files_to_search u ikey 0 L.*1 = Some fs ∧ search_files ro u ikey 0 fs tc st = Some (tc', st', found a) ∧
    get_ok (all_of L) u snap a ∧ keeps (length L) tc tc'.
Proof.
  intros Hleft Hok [Hnd Hn]. unfold files_to_search. case_bool_decide as Hnil.
  { destruct L; [|done]. exists [], tc, st, GotNothing. split; [done|]. split; [done|].
    split; [by intros e ?%not_elem_of_nil|apply keeps_refl]. }
  cbn [Z.eqb]. rewrite (covering_ok tc) by done. simpl_bind. set (M := filter covered L).
  pose proof (merge_sort_Permutation NewestFirst M.*1) as Hperm.
  symmetry in Hperm. apply Permutation_sym, (Permutation_map_inv fst) in Hperm as (M' & E & HM).
  fold (sort_newest M.*1) in E. change (map fst M') with (M'.*1) in E.
  assert (Hin : ∀ p, p ∈ M' → p ∈ L).
  { intros p. rewrite <-HM. intros [_ ?]%list_elem_of_filter. done. }
  assert (Hlen : (length M' ≤ length L)%nat) by (rewrite <-(Permutation_length HM); apply length_filter).
  destruct (search_files_ok 0 M' tc st) as (tc' & st' & a & Es & Ha & Hk).
  - lia.
  - apply Forall_forall. intros p Hp%Hin. by apply (proj1 (Forall_forall _ _) Hok).
  - apply sorted_files.
    + split; [|intros p q Hp%Hin Hq%Hin; by apply Hn].
      rewrite <-HM. unfold M. eapply sublist_NoDup; [exact Hnd|].
      apply fmap_sublist, fmap_sublist, sublist_filter.
    + rewrite <-E. apply Sorted_StronglySorted; [intros ???; apply NewestFirst_trans|]. apply (Sorted_merge_sort _).
  - exists (sort_newest M.*1), tc', st', a. split; [done|]. split; [by rewrite E|].
    split; [|eapply keeps_trans; [exact Hk|apply (keeps_refl 0)|lia]]. eapply get_ok_ext; [|exact Ha]. intros e [Hu' _]. rewrite !elem_of_all. split.
    + intros (p & x & Hp & Hx & ->). exists p, x. split_and!; [by apply Hin|done|done].
    + intros (p & x & Hp & Hx & ->). exists p, x. split_and!; [|done|done].
      rewrite <-HM. apply list_elem_of_filter. split; [|done]. cbn in Hu'.
      destruct (file_user_bounds tc p x) as [H1 H2]; [by apply (proj1 (Forall_forall _ _) Hok)|done|].
      unfold covered. pose proof (Compare_eq_l _ _ (ikey_user (f_largest p.1)) Hu').
      pose proof (Compare_eq_l _ _ (ikey_user (f_smallest p.1)) Hu').
      pose proof (Compare_anti (ikey_user (f_smallest p.1)) (ikey_user x.1)). lia.
Qed.

(** *** The levels above 0 *)

Definition level_ok L : Prop := Z.of_nat (length L) < 2 ^ 31 ∧ internal_entries (concat L.*2).

Lemma concat_split L1 p L2 : concat (L1 ++ p :: L2).*2 = concat L1.*2 ++ (p.2 ++ concat L2.*2).
Proof. by rewrite fmap_app, fmap_cons, concat_app. Qed.

Lemma elem_of_level p e L : p ∈ L → e ∈ p.2 → e ∈ concat L.*2.
Proof.
  intros Hp He. apply list_elem_of_In, in_concat. exists p.2.
  split; apply list_elem_of_In; [by apply list_elem_of_fmap_2|done].
Qed.

Lemma level_files_sorted tc L : Forall (file_ok tc) L → level_ok L → files_sorted (C := C) L.*1.
Proof.
  intros Hok [Hlen Hi]. split; [by rewrite length_fmap|]. split.
  { apply Forall_fmap, (Forall_impl _ _ _ Hok). intros p Hp. cbn.
    destruct (file_keys_wf tc p Hp) as [_ Hl%ikey_wf_long]. by destruct (f_largest p.1); [cbn in Hl; lia|]. }
  clear Hlen. revert Hok Hi. induction L as [|p L IH]; [constructor|]. intros [Hp Hok]%Forall_cons Hi.
  rewrite !fmap_cons in *. cbn [concat] in Hi. apply internal_entries_app in Hi as (_ & Hi & Hlt). constructor; [by apply IH|].
  apply Forall_fmap, Forall_forall. intros q Hq. cbn. destruct (file_bounds tc p Hp) as (_ & (a & Ha & <-) & _).
  pose proof Hok as Hok'. rewrite Forall_forall in Hok'. destruct (file_bounds tc q (Hok' q Hq)) as (_ & (b & Hb & <-) & _).
  apply Z.lt_le_incl, Hlt; [done|]. by eapply elem_of_level.
Qed.

(** The lookup key is where the visible entries of [u] start. *)
Lemma probe_cmp k :
  ikey_wf k → icmp_Compare C ikey k = ikey_cmp u (tag_of snap kValueTypeForSeek) (ikey_user k) (ikey_tag k).
Proof.
  intros Hk. rewrite icmp_long; [|by rewrite length_ikey_bytes; lia|by apply ikey_wf_long].
  rewrite ikey_user_bytes, ikey_tag_bytes; [done|]. by apply tag_of_width; [|split].
Qed.

Lemma visible_from_probe e :
  ikey_wf e.1 → MemTable.visible u snap (entry_of e) → icmp_Compare C ikey e.1 ≤ 0.
Proof.
  intros Hk [Hc Hs]. cbn in Hc, Hs. rewrite probe_cmp by done. apply ikey_wf_visible in Hs; [|done].
  unfold ikey_cmp. rewrite (proj2 (Z.eqb_eq _ _)) by (by apply Compare_eq_sym).
  destruct (Z.ltb_spec (ikey_tag e.1) (tag_of snap kValueTypeForSeek)); [lia|].
  destruct (Z.ltb_spec (tag_of snap kValueTypeForSeek) (ikey_tag e.1)); lia.
Qed.

Lemma visible_after_probe e :
  ikey_wf e.1 → 0 ≤ icmp_Compare C e.1 ikey → Compare (ikey_user e.1) u = 0 → MemTable.visible u snap (entry_of e).
Proof.
  intros Hk Hle Hc. split; [done|]. cbn. apply ikey_wf_visible; [done|].
  pose proof (icmp_anti C e.1 ikey) as Ha. rewrite probe_cmp in Ha by done. unfold ikey_cmp in Ha.
  rewrite (proj2 (Z.eqb_eq _ _)) in Ha by (by apply Compare_eq_sym).
  destruct (Z.ltb_spec (ikey_tag e.1) (tag_of snap kValueTypeForSeek)); [lia|].
  destruct (Z.ltb_spec (tag_of snap kValueTypeForSeek) (ikey_tag e.1)); lia.
Qed.

Lemma none_before_probe tc L :
  Forall (file_ok tc) L → Forall (λ p : FileMetaData * list (list Z * list Z), icmp_Compare C (f_largest p.1) ikey < 0) L → get_ok (all_of L) u snap GotNothing.
Proof.
  intros Hok Hlt. rewrite !Forall_forall in *. intros x (p & e & Hp & He & ->)%elem_of_all Hv.
  destruct (fo_entries _ _ (Hok p Hp)) as [Hwf _]. rewrite Forall_forall in Hwf.
  apply visible_from_probe in Hv; [|by apply Hwf]. destruct (file_bounds tc p (Hok p Hp)) as (_ & _ & Hb).
  destruct (Hb e He) as [_ Hle]. pose proof (icmp_trans C _ _ _ Hv Hle). pose proof (Hlt p Hp).
  pose proof (icmp_anti C (f_largest p.1) ikey). lia.
Qed.

Lemma none_above_user l :
  Forall (λ e, 0 < Compare (ikey_user e.1) u) l → get_ok (entry_of <$> l) u snap GotNothing.
Proof.
  intros Hl x (e & -> & He)%list_elem_of_fmap [Hc _]. cbn in Hc. rewrite Forall_forall in Hl. pose proof (Hl e He). lia.
Qed.

Lemma user_above (e : list Z * list Z) (es : list (list Z * list Z)) :
  ikey_wf e.1 → 0 < Compare (ikey_user e.1) u → Forall (λ e, ikey_wf e.1) es →
  Forall (λ x, icmp_Compare C e.1 x.1 ≤ 0) es → Forall (λ x, 0 < Compare (ikey_user x.1) u) es.
Proof.
  intros He Hu' Hwf Hle. rewrite !Forall_forall in *. intros x Hx.
  pose proof (key_before_user _ _ He (Hwf x Hx) (Hle x Hx)) as H1.
  pose proof (Compare_anti u (ikey_user x.1)). pose proof (Compare_anti u (ikey_user e.1)).
  pose proof (Compare_lt_le_trans u (ikey_user e.1) (ikey_user x.1)). lia.
Qed.

(** The one file of a level that is searched answers for the level. *)
Lemma level_answer tc Lb p La a :
  Forall (file_ok tc) (Lb ++ p :: La) → internal_entries (concat (Lb ++ p :: La).*2) →
  Forall (λ p : FileMetaData * list (list Z * list Z), icmp_Compare C (f_largest p.1) ikey < 0) Lb → 0 ≤ icmp_Compare C (f_largest p.1) ikey →
  get_ok (all_of [p]) u snap a → get_ok (all_of (Lb ++ p :: La)) u snap a.
Proof.
  intros Hok Hi Hb Hp Ha. rewrite concat_split in Hi. apply Forall_app in Hok as [Hokb [Hokp Hoka]%Forall_cons].
  pose proof (internal_entries_newer _ _ Hi) as Hn1. pose proof Hi as (_ & Hi2 & _)%internal_entries_app.
  pose proof (internal_entries_newer _ _ Hi2) as Hn2. pose proof Hi2 as (Hip & Hia & Hlt)%internal_entries_app.
  unfold all_of in *. rewrite concat_split, !fmap_app. cbn in Ha. rewrite app_nil_r in Ha.
  change a with (or_else GotNothing a). apply get_ok_app; [by rewrite <-fmap_app|by eapply none_before_probe|].
  pose proof (visible_get_ok (concat La.*2) u snap Hia) as Hr.
  destruct a as [|v|st].
  - change GotNothing with (or_else GotNothing GotNothing). apply get_ok_app; [done|done|].
    apply none_above_user. destruct (file_bounds tc p Hokp) as (_ & (e & He & El) & _).
    rewrite <-El in Hp. pose proof (proj1 (Forall_forall _ _) (proj1 Hip) e He) as Hwe.
    apply (user_above e); [done| |exact (proj1 Hia)|].
    + destruct (decide (Compare (ikey_user e.1) u = 0)) as [E|E].
      { destruct (Ha (entry_of e)); [by apply list_elem_of_fmap_2|by apply visible_after_probe]. }
      pose proof (icmp_anti C e.1 ikey) as Hanti. rewrite probe_cmp in Hanti by done. unfold ikey_cmp in Hanti.
      pose proof (Compare_anti (ikey_user e.1) u). rewrite (proj2 (Z.eqb_neq _ _)) in Hanti by lia. lia.
    + apply Forall_forall. intros x Hx. apply Z.lt_le_incl. by apply Hlt.
  - change (GotValue v) with (or_else (GotValue v) (answer_of (visible (concat La.*2) u snap))). by apply get_ok_app.
  - change (GotDeletion st) with (or_else (GotDeletion st) (answer_of (visible (concat La.*2) u snap))). by apply get_ok_app.
Qed.

Lemma level_search tc st level L :
  Z.of_nat (length L) ≤ ts_left tc → level ≠ 0 → Forall (file_ok tc) L → level_ok L →
  ∃ fs tc' st' a, files_to_search u ikey level L.*1 = Some fs ∧ search_files ro u ikey level fs tc st = Some (tc', st', found a) ∧
    get_ok (all_of L) u snap a ∧ keeps (length L) tc tc'.
Proof.
  intros Hleft Hlevel Hok Hl. pose proof Hl as [Hlen Hi]. unfold files_to_search. case_bool_decide as Hnil.
  { destruct L; [|done]. exists [], tc, st, GotNothing. split; [done|]. split; [done|].
    split; [by intros e ?%not_elem_of_nil|apply keeps_refl]. }
  rewrite (proj2 (Z.eqb_neq _ _)) by done. unfold file_at_level.
  rewrite (FindFile_ok L.*1 ikey (level_files_sorted tc L Hok Hl)). simpl_bind.
  set (i := seek_index _ _). rewrite length_fmap.
  assert (Hbefore : ∀ j p, (j < i)%nat → L !! j = Some p → icmp_Compare C (f_largest p.1) ikey < 0).
  { intros j p Hj Hp. apply (seek_index_before (C := InternalKeyComparator C) (f_largest <$> L.*1) ikey j); [done|].
    by rewrite !list_lookup_fmap, Hp. }
  destruct (Z.leb_spec (Z.of_nat (length L)) (Z.of_nat i)) as [Hge|Hlt].
  { exists [], tc, st, GotNothing. split; [done|]. split; [done|]. split; [|apply keeps_refl].
    eapply none_before_probe; [done|]. apply Forall_lookup. intros j p Hp. pose proof (lookup_lt_Some _ _ _ Hp).
    by apply (Hbefore j); [lia|]. }
  destruct (lookup_lt_is_Some_2 L i ltac:(lia)) as [p Hp].
  assert (Hat : 0 ≤ icmp_Compare C (f_largest p.1) ikey).
  { apply (seek_index_at (C := InternalKeyComparator C) (f_largest <$> L.*1) ikey). fold i. by rewrite !list_lookup_fmap, Hp. }
  rewrite aget_lookup, list_lookup_fmap, Hp. simpl_bind. cbn [fmap option_fmap option_map]. simpl_bind.
  assert (Hokp : file_ok tc p) by (by eapply Forall_lookup_1).
  destruct (file_keys_wf tc p Hokp) as [Hsm _]. rewrite ikey_user_key_wf by done. simpl_bind.
  pose proof (take_drop_middle L i p Hp) as HL.
  assert (Hb : Forall (λ p : FileMetaData * list (list Z * list Z), icmp_Compare C (f_largest p.1) ikey < 0) (take i L)).
  { apply Forall_lookup. intros j q [Hq Hj]%lookup_take_Some. by eapply Hbefore. }
  rewrite <-HL in Hok, Hi. destruct (Z.ltb_spec (Compare u (ikey_user (f_smallest p.1))) 0) as [Hc|Hc].
  - exists [], tc, st, GotNothing. split; [done|]. split; [done|]. split; [|apply keeps_refl].
    rewrite <-HL. apply (level_answer tc); [done..|]. unfold all_of. cbn. rewrite app_nil_r. apply none_above_user.
    destruct (fo_entries _ _ Hokp) as [Hwf _]. destruct (file_bounds tc p Hokp) as ((e & He & Ee) & _ & Hbd).
    apply (user_above e); [by apply (proj1 (Forall_forall _ _) Hwf)| |done|].
    + rewrite Ee. pose proof (Compare_anti u (ikey_user (f_smallest p.1))). lia.
    + apply Forall_forall. intros x Hx. rewrite Ee. by apply Hbd.
  - destruct (search_files_ok level [p] tc st) as (tc' & st' & a & Es & Ha & Hk); [cbn; lia|by constructor|by repeat constructor|].
    exists [p.1], tc', st', a. split; [done|]. split; [done|].
    split; [|eapply keeps_trans; [exact Hk|apply (keeps_refl 0)|cbn; lia]]. rewrite <-HL. by apply (level_answer tc).
Qed.

(** *** All levels *)

Abbreviation levels := (list (list (FileMetaData * list (list Z * list Z)))).
Abbreviation lentries LL := (fmap (M := list) all_of LL).
Abbreviation lfiles LL := (fmap (M := list) (fmap (M := list) fst) LL).

Fixpoint levels_ok (level : Z) (LL : levels) : Prop :=
  match LL with
  | [] => True
  | L :: LL => (if level =? 0 then level0_ok L else level_ok L) ∧ levels_ok (level + 1) LL
  end.

Lemma newer_concat es l : Forall (newer es) l → newer es (concat l).
Proof.
  intros Hl a b Ha Hb. apply list_elem_of_In, in_concat in Hb as (es' & He & Hb). apply list_elem_of_In in He, Hb.
  rewrite Forall_forall in Hl. exact (Hl es' He a b Ha Hb).
Qed.

(** What a lookup that answers [a] returns. *)
Definition get_status (a : get_result) : Status * option (list Z) := default (NotFound "", None) (found a).

Lemma search_levels_ok LL : ∀ level tc st,
  0 ≤ level → Z.of_nat (length (concat LL)) ≤ ts_left tc → Forall (Forall (file_ok tc)) LL → levels_ok level LL → StronglySorted newer (lentries LL) →
  ∃ tc' st' a, search_levels ro u ikey level (lfiles LL) tc st = Some (tc', st', (get_status a).1, (get_status a).2) ∧
    get_ok (concat (lentries LL)) u snap a ∧ keeps (length (concat LL)) tc tc'.
Proof.
  induction LL as [|L LL IH]; intros level tc st Hlevel Hleft Hok Hl Hn; cbn [concat] in *.
  { exists tc, st, GotNothing. split; [done|]. split; [by intros e ?%not_elem_of_nil|apply keeps_refl]. }
  rewrite length_app in *.
  apply Forall_cons in Hok as [HL Hok]. destruct Hl as [Hlv Hl]. rewrite fmap_cons in Hn.
  apply StronglySorted_cons in Hn as [Hn Hns]. rewrite !fmap_cons. cbn [search_levels concat].
  assert (Hone : ∃ fs tc' st' a, files_to_search u ikey level L.*1 = Some fs ∧
    search_files ro u ikey level fs tc st = Some (tc', st', found a) ∧ get_ok (all_of L) u snap a ∧ keeps (length L) tc tc').
  { destruct (Z.eqb_spec level 0) as [->|]; [apply level0_search|apply level_search]; try done; lia. }
  destruct Hone as (fs & tc1 & st1 & a1 & -> & E & Ha1 & Hk1). simpl_bind. rewrite E. simpl_bind.
  destruct (IH (level + 1) tc1 st1) as (tc2 & st2 & a2 & E2 & Ha2 & Hk2);
    [lia|destruct Hk1; lia|eapply Forall_impl; [exact Hok|]; intros M; by eapply files_ok_keeps|done|done|].
  pose proof (get_ok_app _ _ u snap a1 a2 (newer_concat _ _ Hn) Ha1 Ha2) as Ha.
  destruct a1 as [|v|s]; cbn [found or_else] in *.
  - exists tc2, st2, a2. split; [exact E2|]. split; [done|]. by eapply keeps_trans.
  - exists tc1, st1, (GotValue v). split; [done|]. split; [done|]. eapply keeps_trans; [exact Hk1|apply (keeps_refl 0)|lia].
  - exists tc1, st1, (GotDeletion s). split; [done|]. split; [done|]. eapply keeps_trans; [exact Hk1|apply (keeps_refl 0)|lia].
Qed.

(** How many files a version has. *)
Definition version_files (v : Version) : nat := length (concat (files_ v)).

(** ** A version, the entries it holds, and what a lookup changes of it *)

Definition version_rep tc (v : Version) (es : list entry) : Prop :=
  ∃ LL, files_ v = lfiles LL ∧ Forall (Forall (file_ok tc)) LL ∧ levels_ok 0 LL ∧
    StronglySorted newer (lentries LL) ∧ es = concat (lentries LL).

(** Another record of the same file. *)
Definition same_meta (g : FileMetaData → FileMetaData) : Prop :=
  ∀ f, f_number (g f) = f_number f ∧ f_file_size (g f) = f_file_size f ∧
    f_smallest (g f) = f_smallest f ∧ f_largest (g f) = f_largest f.

Definition touch (g : FileMetaData → FileMetaData) (p : FileMetaData * list (list Z * list Z)) := (g p.1, p.2).

Lemma touch_all g L : all_of (touch g <$> L) = all_of L.
Proof. unfold all_of. by rewrite <-list_fmap_compose. Qed.

Lemma touch_file g tc p : same_meta g → file_ok tc p → file_ok tc (touch g p).
Proof. intros Hg []. destruct (Hg p.1) as (E1 & E2 & E3 & E4). split; cbn; rewrite ?E1, ?E2, ?E3, ?E4; done. Qed.

Lemma touch_levels g LL : same_meta g → ∀ level i, levels_ok level LL → levels_ok level (alter (fmap (touch g)) i LL).
Proof.
  intros Hg. induction LL as [|L LL IH]; intros level i Hl; [by destruct i|]. destruct Hl as [H1 H2].
  destruct i as [|i]; cbn [alter list_alter levels_ok]; (split; [|by try apply IH]); [|done].
  case_match.
  - destruct H1 as [Hnd Hn]. split.
    + rewrite <-!list_fmap_compose in *. erewrite list_fmap_ext; [exact Hnd|]. intros j p _. cbn. apply Hg.
    + intros p q (p' & -> & Hp)%list_elem_of_fmap (q' & -> & Hq)%list_elem_of_fmap. cbn.
      destruct (Hg p'.1) as [-> _], (Hg q'.1) as [-> _]. by apply Hn.
  - destruct H1 as [H1 H3]. split; [by rewrite length_fmap|]. by rewrite <-list_fmap_compose.
Qed.

Lemma touch_version g tc v level es :
  same_meta g → version_rep tc v es →
  ∀ c n, version_rep tc (mkVersion (alter (fmap g) level (files_ v)) c n) es.
Proof.
  intros Hg (LL & Ef & Hok & Hl & Hn & ->) c n. exists (alter (fmap (touch g)) level LL).
  assert (Hall : lentries (alter (fmap (touch g)) level LL) = lentries LL).
  { rewrite (list_fmap_alter _ _ id); [by rewrite list_alter_id|]. apply Forall_forall. intros L _. apply touch_all. }
  rewrite Hall. split_and!; [|by apply Forall_alter; [|intros L _ HL; apply Forall_fmap, (Forall_impl _ _ _ HL); intros p; by apply touch_file]|by apply touch_levels|done|done].
  cbn [files_]. rewrite Ef. rewrite (list_fmap_alter _ _ (fmap g)); [done|]. apply Forall_forall. intros L _.
  by rewrite <-!list_fmap_compose.
Qed.

Lemma UpdateStats_files v st : version_files (UpdateStats v st).1 = version_files v.
Proof.
  unfold UpdateStats, version_files. destruct (seek_file st) as [[f level]|]; [|done].
  assert (E : ∀ g i (LL : list (list FileMetaData)), length (concat (alter (fmap g) i LL)) = length (concat LL)).
  { intros g i LL. revert i. induction LL as [|L LL IH]; intros [|i]; [done..| |]; cbn [alter list_alter concat];
      rewrite !length_app, ?length_fmap; [done|]. by rewrite <-(IH i). }
  case_match; apply E.
Qed.

Lemma UpdateStats_rep tc v st es : version_rep tc v es → version_rep tc (UpdateStats v st).1 es.
Proof.
  intros Hv. unfold UpdateStats. destruct (seek_file st) as [[f level]|]; [|done].
  assert (Hg : same_meta (λ f', if f_number f' =? f_number f then dec_seeks f' else f')) by (intros f'; by case_match).
  case_match; by apply touch_version.
Qed.

Lemma version_rep_keeps n tc tc' v es : keeps n tc tc' → version_rep tc v es → version_rep tc' v es.
Proof.
  intros Hk (LL & ? & Hok & ?). exists LL. split; [done|]. split; [|done]. eapply Forall_impl; [exact Hok|].
  intros L. by eapply files_ok_keeps.
Qed.

Lemma version_Get_ok tc v es lk :
  version_rep tc v es → Z.of_nat (version_files v) ≤ ts_left tc → internal_key lk = ikey → lookup_user_key lk = u →
  ∃ tc' st a, version_Get v tc ro lk = Some (tc', st, (get_status a).1, (get_status a).2) ∧
    get_ok es u snap a ∧ keeps (version_files v) tc tc'.
Proof.
  intros (LL & Ef & Hok & Hl & Hn & ->) Hleft Hik Huk.
  assert (E : version_files v = length (concat LL)).
  { unfold version_files. rewrite Ef. clear. induction LL as [|L LL IH]; [done|].
    rewrite fmap_cons. cbn [concat]. by rewrite !length_app, length_fmap, IH. }
  unfold version_Get. rewrite E in *. rewrite Ef, Hik, Huk. by apply search_levels_ok.
Qed.
End lookup.
