(* ===== verification/VersionBuilder.v ===== *)
(** Applying edits to a version: class [VersionSet::Builder] of
    leveldb/db/version_set.cc.

    A new version has, in every level, the files of the base version and the
    added ones without those that were deleted, sorted; [SaveTo] merges the
    two sorted lists.  Reference counts of files are memory management and
    are left out.  [None] is a failed [assert] or [abort], or an index outside
    an array. *)

From Stdlib Require Import ZArith Lia.
From stdpp Require Import base option numbers sets list strings gmap sorting.
From S2P Require Import Prelude Coding Slice WriteBatch DbFormat SkipList SkipListSpec SkipListRefine.
From S2P Require Import MemTable Iterator TwoLevel Merger Bloom InternalKey TableFormat VersionEdit.
From S2P Require Import DbIterSpec Version VersionSpec.

Record LevelState := mkLevelState {
  deleted_files : gset Z;
  added_files : list FileMetaData      (* in the order of [BySmallestKey] *)
}.

(** [compact_pointer_] is that of the [VersionSet]. *)
Record Builder := mkBuilder {
  compact_pointer_ : list (list Z);
  base_ : Version;
  levels_ : list LevelState
}.

Section builder.
Context `{P : Port} {C : Comparator}.

(** [BySmallestKey]: keys by the internal comparator, then numbers. *)
Definition by_smallest (f1 f2 : FileMetaData) : bool :=
  let r := icmp_Compare C (f_smallest f1) (f_smallest f2) in
  if negb (r =? 0) then r <? 0 else f_number f1 <? f_number f2.

(** [std::set::insert]: nothing happens if an equivalent element is there. *)
Fixpoint file_insert (f : FileMetaData) (l : list FileMetaData) : list FileMetaData :=
  match l with
  | [] => [f]
  | g :: l' => if by_smallest f g then f :: l else if by_smallest g f then g :: file_insert f l' else l
  end.

Definition NewVersionBuilder (pointers : list (list Z)) (base : Version) : Builder :=
  mkBuilder pointers base (replicate (Z.to_nat kNumLevels) (mkLevelState ∅ [])).

(** [levels_[level]] changed by [g]. *)
Definition on_level (b : Builder) (level : Z) (g : LevelState → LevelState) : option Builder :=
  s ← (levels_ b).[level];
  l ← aset (levels_ b) level (g s);
  Some (mkBuilder (compact_pointer_ b) (base_ b) l).

Definition apply_pointer (b : Builder) (p : Z * list Z) : option Builder :=
  key ← ikey_Encode p.2;
  l ← aset (compact_pointer_ b) p.1 key;
  Some (mkBuilder l (base_ b) (levels_ b)).

Definition apply_deleted (b : Builder) (p : Z * Z) : option Builder :=
  on_level b p.1 (λ s, mkLevelState ({[p.2]} ∪ deleted_files s) (added_files s)).

(** [(int)(f->file_size / 16384)], at least 100. *)
Definition seeks_allowed (file_size : Z) : Z :=
  let n := s32 (u32 (file_size / 16384)) in if n <? 100 then 100 else n.

Definition prepare_file (f : FileMetaData) : FileMetaData :=
  mkFile 1 (seeks_allowed (f_file_size f)) (f_number f) (f_file_size f) (f_smallest f) (f_largest f).

Definition apply_new (b : Builder) (p : Z * FileMetaData) : option Builder :=
  let f := prepare_file p.2 in
  on_level b p.1 (λ s, mkLevelState (deleted_files s ∖ {[f_number f]}) (file_insert f (added_files s))).

Fixpoint apply_all {A} (apply : Builder → A → option Builder) (b : Builder) (l : list A) : option Builder :=
  match l with
  | [] => Some b
  | x :: l => b ← apply b x; apply_all apply b l
  end.

Definition builder_Apply (b : Builder) (edit : VersionEdit) : option Builder :=
  b ← apply_all apply_pointer b (compact_pointers_ edit);
  b ← apply_all apply_deleted b (deleted_files_ edit);
  apply_all apply_new b (new_files_ edit).

(** The files of the level so far, and one more. *)
Definition MaybeAddFile (deleted : gset Z) (level : Z) (files : list FileMetaData) (f : FileMetaData)
  : option (list FileMetaData) :=
  if bool_decide (f_number f ∈ deleted) then Some files
  else
    match last files with
    | Some g =>
        if (0 <? level) && negb (icmp_Compare C (f_largest g) (f_smallest f) <? 0) then None (* assert *)
        else Some (files ++ [f])
    | None => Some (files ++ [f])
    end.

Fixpoint maybe_add_all (deleted : gset Z) (level : Z) (files l : list FileMetaData) : option (list FileMetaData) :=
  match l with
  | [] => Some files
  | f :: l => files ← MaybeAddFile deleted level files f; maybe_add_all deleted level files l
  end.

(** [std::upper_bound]: the files before the first one that [f] is less
    than, and the rest. *)
Fixpoint upper_bound (f : FileMetaData) (base : list FileMetaData) : list FileMetaData * list FileMetaData :=
  match base with
  | [] => ([], [])
  | g :: base' => if by_smallest f g then ([], base) else let '(l, r) := upper_bound f base' in (g :: l, r)
  end.

Fixpoint merge_files (deleted : gset Z) (level : Z) (files base added : list FileMetaData)
  : option (list FileMetaData) :=
  match added with
  | [] => maybe_add_all deleted level files base
  | f :: added =>
      let '(smaller, base) := upper_bound f base in
      files ← maybe_add_all deleted level files smaller;
      files ← MaybeAddFile deleted level files f;
      merge_files deleted level files base added
  end.

(** No two neighbours overlap, or [abort()]. *)
Fixpoint no_overlap (files : list FileMetaData) : bool :=
  match files with
  | f :: (g :: _) as rest => (icmp_Compare C (f_largest f) (f_smallest g) <? 0) && no_overlap rest
  | _ => true
  end.

Definition save_level (level : Z) (s : LevelState) (base files : list FileMetaData) : option (list FileMetaData) :=
  files ← merge_files (deleted_files s) level files base (added_files s);
  if (0 <? level) && negb (no_overlap files) then None (* abort *) else Some files.

Fixpoint save_levels (level : Z) (states : list LevelState) (base files : list (list FileMetaData))
  : option (list (list FileMetaData)) :=
  match states, base, files with
  | s :: states, b :: base, f :: files =>
      f ← save_level level s b f;
      rest ← save_levels (level + 1) states base files;
      Some (f :: rest)
  | [], [], [] => Some []
  | _, _, _ => None
  end.

Definition SaveTo (b : Builder) (v : Version) : option Version :=
  files ← save_levels 0 (levels_ b) (files_ (base_ b)) (files_ v);
  Some (mkVersion files (file_to_compact_ v) (file_to_compact_level_ v)).
End builder.

(** ** The order of files *)

Section order.
Context `{P : Port} {C : Comparator} {HC : ComparatorLaws C}.

Definition file_lt (a b : FileMetaData) : Prop := by_smallest a b = true.

Lemma file_lt_spec a b :
  file_lt a b ↔ icmp_Compare C (f_smallest a) (f_smallest b) < 0 ∨
    icmp_Compare C (f_smallest a) (f_smallest b) = 0 ∧ f_number a < f_number b.
Proof. unfold file_lt, by_smallest. destruct (Z.eqb_spec (icmp_Compare C (f_smallest a) (f_smallest b)) 0); cbn [negb]; lia. Qed.

Lemma file_lt_irrefl a : ¬ file_lt a a.
Proof. rewrite file_lt_spec. pose proof (icmp_anti C (f_smallest a) (f_smallest a)). lia. Qed.

#[export] Instance file_lt_trans : Transitive file_lt.
Proof.
  intros a b c. rewrite !file_lt_spec. set (x := f_smallest a). set (y := f_smallest b). set (z := f_smallest c).
  pose proof (Compare_le_lt_trans (C := InternalKeyComparator C) x y z) as H1.
  pose proof (Compare_lt_le_trans (C := InternalKeyComparator C) x y z) as H2.
  pose proof (Compare_eq_l (C := InternalKeyComparator C) x y z) as H3. cbn [Compare InternalKeyComparator] in *. lia.
Qed.

(** Files with different numbers are ordered. *)
Lemma file_lt_total a b : f_number a ≠ f_number b → file_lt a b ∨ file_lt b a.
Proof. rewrite !file_lt_spec. pose proof (icmp_anti C (f_smallest a) (f_smallest b)). lia. Qed.

Abbreviation sorted := (StronglySorted file_lt).

Lemma file_insert_perm f l :
  f_number f ∉ f_number <$> l → file_insert f l ≡ₚ f :: l.
Proof.
  induction l as [|g l IH]; [done|]. rewrite fmap_cons, not_elem_of_cons. intros [Hne Hn]. cbn [file_insert].
  destruct (by_smallest f g) eqn:E1; [done|]. destruct (by_smallest g f) eqn:E2.
  - rewrite (IH Hn). apply Permutation_swap.
  - exfalso. destruct (file_lt_total f g Hne); unfold file_lt in *; congruence.
Qed.

Lemma file_insert_sorted f l :
  f_number f ∉ f_number <$> l → sorted l → sorted (file_insert f l).
Proof.
  intros Hn Hs. induction Hs as [|g l Hs IH Hg]; [repeat constructor|].
  pose proof (file_insert_perm f l) as Hp. rewrite fmap_cons, not_elem_of_cons in Hn. destruct Hn as [Hne Hn]. cbn [file_insert].
  destruct (by_smallest f g) eqn:E1.
  - constructor; [by constructor|]. constructor; [done|]. eapply Forall_impl; [exact Hg|]. intros x Hx. by transitivity g.
  - destruct (by_smallest g f) eqn:E2.
    + constructor; [by apply IH|]. rewrite (Hp Hn). by constructor.
    + exfalso. destruct (file_lt_total f g Hne); unfold file_lt in *; congruence.
Qed.

(** ** Merging *)

(** The files in the order in which [SaveTo] offers them. *)
Fixpoint merged (base added : list FileMetaData) : list FileMetaData :=
  match added with
  | [] => base
  | f :: added => let '(l, r) := upper_bound f base in l ++ f :: merged r added
  end.

Lemma upper_bound_app f base : (upper_bound f base).1 ++ (upper_bound f base).2 = base.
Proof.
  induction base as [|g base IH]; [done|]. cbn [upper_bound]. destruct (by_smallest f g); [done|].
  destruct (upper_bound f base) as [l r]. cbn in *. by rewrite IH.
Qed.

Lemma upper_bound_sorted f base :
  f_number f ∉ f_number <$> base → sorted base →
  Forall (λ g, file_lt g f) (upper_bound f base).1 ∧ Forall (file_lt f) (upper_bound f base).2.
Proof.
  intros Hn Hs. induction Hs as [|g base Hs IH Hg]; [done|]. rewrite fmap_cons, not_elem_of_cons in Hn.
  destruct Hn as [Hne Hn]. specialize (IH Hn). cbn [upper_bound]. destruct (by_smallest f g) eqn:E.
  - split; [constructor|]. constructor; [done|]. eapply Forall_impl; [exact Hg|]. intros x Hx. by transitivity g.
  - destruct (upper_bound f base) as [l r]. cbn in *. destruct IH as [Hl Hr]. split; [|done]. constructor; [|done].
    destruct (file_lt_total f g Hne); [unfold file_lt in *; congruence|done].
Qed.

Lemma merged_perm base added : merged base added ≡ₚ base ++ added.
Proof.
  revert base. induction added as [|f added IH]; intros base; cbn [merged]; [by rewrite app_nil_r|].
  rewrite <-(upper_bound_app f base) at 2. destruct (upper_bound f base) as [l r]. cbn [fst snd].
  rewrite IH, <-app_assoc. f_equiv. by rewrite Permutation_middle.
Qed.

Lemma merged_sorted base added :
  NoDup (f_number <$> base ++ added) → sorted base → sorted added → sorted (merged base added).
Proof.
  revert base. induction added as [|f added IH]; intros base Hnd Hb Ha; cbn [merged]; [done|].
  apply StronglySorted_cons in Ha as [Hf Ha]. rewrite fmap_app, fmap_cons in Hnd.
  assert (Hn : f_number f ∉ f_number <$> base).
  { apply NoDup_app in Hnd as (_ & Hd & _). intros Hin. by apply (Hd _ Hin); left. }
  destruct (upper_bound_sorted f base Hn Hb) as [Hl Hr]. pose proof (upper_bound_app f base) as E.
  destruct (upper_bound f base) as [l r]. cbn [fst snd] in *. subst base.
  rewrite fmap_app in Hnd.
  assert (Hm : Forall (file_lt f) (merged r added)) by (rewrite merged_perm; by apply Forall_app).
  assert (Hs : sorted (merged r added)).
  { apply IH; [|by apply StronglySorted_app_1_r in Hb|done]. rewrite fmap_app.
    rewrite <-app_assoc in Hnd. apply NoDup_app in Hnd as (_ & _ & Hnd). apply NoDup_app in Hnd as (N1 & N2 & N3).
    apply NoDup_cons in N3 as [_ N3]. apply NoDup_app. split; [done|]. split; [|done]. intros x Hx Hx'. apply (N2 x Hx). by right. }
  apply StronglySorted_app_2; [|by apply StronglySorted_app_1_l in Hb|by constructor].
  intros x y Hx Hy. rewrite Forall_forall in Hl, Hm. apply elem_of_cons in Hy as [->|Hy]; [by apply Hl|].
  transitivity f; [by apply Hl|by apply Hm].
Qed.

(** *** The assertions *)

Definition kept (deleted : gset Z) (l : list FileMetaData) : list FileMetaData := filter (λ f, f_number f ∉ deleted) l.

Lemma maybe_add_all_app deleted level files l1 l2 :
  maybe_add_all deleted level files (l1 ++ l2) =
  (files ← maybe_add_all deleted level files l1; maybe_add_all deleted level files l2).
Proof.
  revert files. induction l1 as [|f l1 IH]; intros files; [done|]. cbn [app maybe_add_all].
  destruct (MaybeAddFile deleted level files f); [apply IH|done].
Qed.

Lemma merge_files_merged deleted level files base added :
  merge_files deleted level files base added = maybe_add_all deleted level files (merged base added).
Proof.
  revert files base. induction added as [|f added IH]; intros files base; cbn [merge_files merged]; [done|].
  destruct (upper_bound f base) as [l r]. rewrite maybe_add_all_app.
  destruct (maybe_add_all deleted level files l) as [files'|]; [|done]. cbn [mbind option_bind maybe_add_all].
  destruct (MaybeAddFile deleted level files' f); [apply IH|done].
Qed.

Lemma no_overlap_snoc files f :
  no_overlap (files ++ [f]) =
  no_overlap files && match last files with Some g => icmp_Compare C (f_largest g) (f_smallest f) <? 0 | None => true end.
Proof.
  induction files as [|a [|b files] IH]; [done|cbn; by rewrite andb_true_r|].
  change (no_overlap ((a :: b :: files) ++ [f])) with ((icmp_Compare C (f_largest a) (f_smallest b) <? 0) && no_overlap ((b :: files) ++ [f])).
  rewrite IH. change (last (a :: b :: files)) with (last (b :: files)). cbn [no_overlap]. by rewrite andb_assoc.
Qed.

Lemma no_overlap_app_l l1 l2 : no_overlap (l1 ++ l2) = true → no_overlap l1 = true.
Proof.
  revert l1. induction l2 as [|f l2 IH] using rev_ind; intros l1; [by rewrite app_nil_r|].
  rewrite app_assoc, no_overlap_snoc. intros [H _]%andb_true_iff. by apply IH.
Qed.

(** A level is saved unless files of a level above 0 overlap. *)
Definition checked (level : Z) (files : list FileMetaData) : option (list FileMetaData) :=
  if (0 <? level) && negb (no_overlap files) then None else Some files.

Lemma maybe_add_all_ok deleted level l : ∀ files,
  checked level files = Some files → maybe_add_all deleted level files l = checked level (files ++ kept deleted l).
Proof.
  unfold checked, kept. induction l as [|f l IH]; intros files Hf; cbn [maybe_add_all]; [by rewrite app_nil_r|].
  unfold MaybeAddFile. rewrite filter_cons. case_bool_decide as Hd; [rewrite decide_False by auto; by apply IH|].
  rewrite decide_True by done. set (rest := filter _ l) in *.
  assert (Er : files ++ f :: rest = (files ++ [f]) ++ rest) by (by rewrite <-app_assoc). rewrite Er. pose proof (no_overlap_snoc files f) as Hs.
  destruct (0 <? level); cbn [andb] in *.
  2:{ destruct (last files); simpl_bind; by apply IH. }
  destruct (no_overlap files); [|done]. cbn [negb andb] in *.
  assert (Hbad : no_overlap (files ++ [f]) = false → no_overlap ((files ++ [f]) ++ rest) = false).
  { intros Hb. apply not_true_is_false. intros Ht%no_overlap_app_l. congruence. }
  destruct (last files) as [g|].
  - destruct (icmp_Compare C (f_largest g) (f_smallest f) <? 0); cbn [negb].
    + simpl_bind. apply IH. by rewrite Hs.
    + simpl_bind. by rewrite Hbad.
  - simpl_bind. apply IH. by rewrite Hs.
Qed.

Lemma save_level_ok level s base :
  save_level level s base [] = checked level (kept (deleted_files s) (merged base (added_files s))).
Proof.
  unfold save_level. rewrite merge_files_merged, maybe_add_all_ok by (unfold checked; by destruct (0 <? level)).
  cbn [app]. unfold checked. destruct ((0 <? level) && negb (no_overlap _)) eqn:E; [done|]. simpl_bind. by rewrite E.
Qed.
End order.

(** ** What the edits mean *)

(** The files of a level after an edit. *)
Definition edit_level (level : Z) (fs : list FileMetaData) (e : VersionEdit) : list FileMetaData :=
  filter (λ f, (level, f_number f) ∉ deleted_files_ e) fs ++
  (prepare_file ∘ snd <$> filter (λ p, p.1 = level) (new_files_ e)).

Definition spec_level (level : Z) (fs : list FileMetaData) (edits : list VersionEdit) : list FileMetaData :=
  foldl (edit_level level) fs edits.

(** The numbers of the files that edits add to a level. *)
Definition new_numbers (level : Z) (edits : list VersionEdit) : list Z :=
  edits ≫= λ e, f_number ∘ snd <$> filter (λ p, p.1 = level) (new_files_ e).

(** Edits as [DecodeFrom] gives them. *)
Definition edit_ok (e : VersionEdit) : Prop :=
  Forall (λ p, VersionEdit.level_ok p.1 ∧ p.2 ≠ []) (compact_pointers_ e) ∧
  Forall (λ p, VersionEdit.level_ok p.1) (deleted_files_ e) ∧ Forall (λ p, VersionEdit.level_ok p.1) (new_files_ e).

(** The last compaction pointers. *)
Definition pointers_after (ptrs : list (list Z)) (edits : list VersionEdit) : list (list Z) :=
  foldl (λ l p, <[Z.to_nat p.1 := p.2]> l) ptrs (edits ≫= compact_pointers_).

Section spec.
Context `{P : Port} {C : Comparator} {HC : ComparatorLaws C}.
Implicit Types (s : LevelState).

Abbreviation sorted := (StronglySorted file_lt).
Abbreviation numbers l := (f_number <$> (l : list FileMetaData)).

(** The state of a level has what the edits so far mean. *)
Record level_rep (base : list FileMetaData) s (fs : list FileMetaData) : Prop := {
  lr_sorted : sorted (added_files s);
  lr_numbers : NoDup (numbers (base ++ added_files s));
  lr_files : kept (deleted_files s) (base ++ added_files s) ≡ₚ fs
}.

Lemma filter_agree {A} (P1 P2 : A → Prop) `{∀ x, Decision (P1 x), ∀ x, Decision (P2 x)} (l : list A) :
  Forall (λ x, P1 x ↔ P2 x) l → filter P1 l = filter P2 l.
Proof.
  induction 1 as [|x l Hx _ IH]; [done|]. rewrite !filter_cons, IH. by destruct (decide (P1 x)), (decide (P2 x)); try tauto.
Qed.

Lemma kept_delete d n l : kept ({[n]} ∪ d) l = filter (λ f, f_number f ≠ n) (kept d l).
Proof. unfold kept. rewrite list_filter_filter. apply list_filter_iff. intros f. set_solver. Qed.

Lemma level_rep_delete (base fs : list FileMetaData) s n :
  level_rep base s fs →
  level_rep base (mkLevelState ({[n]} ∪ deleted_files s) (added_files s)) (filter (λ f, f_number f ≠ n) fs).
Proof. intros [H1 H2 H3]. split; [done|done|]. cbn. rewrite kept_delete. by rewrite H3. Qed.

Lemma level_rep_add (base fs : list FileMetaData) s f :
  level_rep base s fs → f_number f ∉ numbers (base ++ added_files s) →
  level_rep base (mkLevelState (deleted_files s ∖ {[f_number f]}) (file_insert f (added_files s))) (fs ++ [f]).
Proof.
  intros [H1 H2 H3] Hn. pose proof Hn as Hn'. rewrite fmap_app, not_elem_of_app in Hn'. destruct Hn' as [_ Hna].
  pose proof (file_insert_perm f (added_files s) Hna) as Hp. split; cbn [added_files deleted_files].
  - by apply file_insert_sorted.
  - rewrite Hp. rewrite <-Permutation_middle. rewrite fmap_cons. by constructor.
  - unfold kept in *. rewrite Hp, <-Permutation_middle, filter_cons.
    rewrite decide_True; [|intros [_ Hx]%elem_of_difference; apply Hx; by apply elem_of_singleton].
    rewrite <-H3. etrans; [|apply Permutation_app_comm]. apply Permutation_skip, reflexive_eq, filter_agree.
    apply Forall_forall. intros g Hg. rewrite elem_of_difference, elem_of_singleton. split; [|tauto].
    intros Hd Hg'. apply Hd. split; [done|]. intros E. apply Hn. rewrite <-E. by apply list_elem_of_fmap_2.
Qed.

Lemma level_rep_perm (base : list FileMetaData) s (fs fs' : list FileMetaData) : fs ≡ₚ fs' → level_rep base s fs → level_rep base s fs'.
Proof. intros Hp [H1 H2 H3]. split; [done|done|]. by rewrite H3. Qed.

(** *** All levels *)

(** [adds level] are the numbers of the files that were added to a level. *)
Record builder_rep (base : Version) (b : Builder) (fs : Z → list FileMetaData) (adds : Z → list Z) : Prop := {
  br_base : base_ b = base;
  br_levels : length (levels_ b) = 7%nat;
  br_level i bs s : files_ base !! i = Some bs → levels_ b !! i = Some s →
    level_rep bs s (fs (Z.of_nat i)) ∧ numbers (added_files s) ≡ₚ adds (Z.of_nat i)
}.

Lemma builder_rep_perm (base : Version) b fs fs' adds adds' :
  (∀ level, fs level ≡ₚ fs' level) → (∀ level, adds level ≡ₚ adds' level) →
  builder_rep base b fs adds → builder_rep base b fs' adds'.
Proof.
  intros Hf Ha Hb0. destruct Hb0 as [E1 E2 E3]. split; [done|done|]. intros i bs s Hb Hs. destruct (E3 i bs s Hb Hs) as [Hr Hn].
  split; [exact (level_rep_perm _ _ _ _ (Hf _) Hr)|]. rewrite Hn. apply Ha.
Qed.

Lemma on_level_rep (base : Version) b fs adds level g fs' adds' :
  builder_rep base b fs adds → VersionEdit.level_ok level →
  (∀ bs s, files_ base !! Z.to_nat level = Some bs → level_rep bs s (fs level) → numbers (added_files s) ≡ₚ adds level →
     level_rep bs (g s) fs' ∧ numbers (added_files (g s)) ≡ₚ adds') →
  ∃ b', on_level b level g = Some b' ∧ compact_pointer_ b' = compact_pointer_ b ∧
    builder_rep base b' (λ l, if decide (l = level) then fs' else fs l) (λ l, if decide (l = level) then adds' else adds l).
Proof.
  unfold VersionEdit.level_ok, kNumLevels. intros [H1 H2 H3] Hl Hg. unfold on_level.
  destruct (aget_in (levels_ b) level) as [s Hs]; [lia|]. rewrite Hs. simpl_bind.
  rewrite aset_in by lia. simpl_bind. eexists. split; [done|]. split; [done|].
  apply aget_some in Hs as [_ Hs]. split; [done|cbn; by rewrite length_insert|].
  intros i bs s' Hb Hs'. cbn [levels_] in Hs'. destruct (decide (Z.of_nat i = level)) as [E|E].
  - assert (i = Z.to_nat level) as -> by lia. rewrite list_lookup_insert_eq in Hs' by (apply lookup_lt_Some in Hs; lia).
    injection Hs' as <-. destruct (H3 _ bs s Hb Hs) as [Hr Hn]. rewrite Z2Nat.id in Hr, Hn by lia. by apply Hg.
  - rewrite list_lookup_insert_ne in Hs' by lia. by apply H3.
Qed.

Lemma apply_deleted_all (base : Version) dels : ∀ b fs adds,
  builder_rep base b fs adds → Forall (λ p, VersionEdit.level_ok p.1) dels →
  ∃ b', apply_all apply_deleted b dels = Some b' ∧ compact_pointer_ b' = compact_pointer_ b ∧
    builder_rep base b' (λ level, filter (λ f, (level, f_number f) ∉ dels) (fs level)) adds.
Proof.
  induction dels as [|[lv n] dels IH]; intros b fs adds Hb Hok; cbn [apply_all].
  { exists b. split; [done|]. split; [done|]. eapply builder_rep_perm; [|done|exact Hb]. intros level. cbn beta.
    apply reflexive_eq. induction (fs level) as [|f l IH]; [done|]. rewrite filter_cons, decide_True, <-IH; [done|apply not_elem_of_nil]. }
  apply Forall_cons in Hok as [Hlv Hok]. unfold apply_deleted at 2. cbn [fst snd] in *.
  destruct (on_level_rep base b fs adds lv (λ s, mkLevelState ({[n]} ∪ deleted_files s) (added_files s))
    (filter (λ f, f_number f ≠ n) (fs lv)) (adds lv) Hb Hlv) as (b1 & -> & Ep & Hb1).
  { intros bs s _ Hr Hn. split; [by apply level_rep_delete|done]. }
  simpl_bind. destruct (IH b1 _ _ Hb1 Hok) as (b2 & -> & Ep2 & Hb2). exists b2. split; [done|]. split; [congruence|].
  eapply builder_rep_perm; [| |exact Hb2]; intros level; cbn beta.
  - apply reflexive_eq. destruct (decide (level = lv)) as [->|Hne].
    + rewrite list_filter_filter. apply list_filter_iff. intros f. rewrite elem_of_cons, pair_equal_spec. tauto.
    + apply list_filter_iff. intros f. rewrite elem_of_cons, pair_equal_spec. tauto.
  - by destruct (decide (level = lv)) as [->|].
Qed.

Abbreviation added_at level news := (filter (λ p : Z * FileMetaData, p.1 = level) news).

Lemma apply_new_all (base : Version) news : ∀ b fs adds,
  builder_rep base b fs adds → Forall (λ p, VersionEdit.level_ok p.1) news →
  (∀ level bs, files_ base !! Z.to_nat level = Some bs → NoDup (numbers bs ++ adds level ++ (f_number ∘ snd <$> added_at level news))) →
  ∃ b', apply_all apply_new b news = Some b' ∧ compact_pointer_ b' = compact_pointer_ b ∧
    builder_rep base b' (λ level, fs level ++ (prepare_file ∘ snd <$> added_at level news))
      (λ level, adds level ++ (f_number ∘ snd <$> added_at level news)).
Proof.
  induction news as [|[lv f] news IH]; intros b fs adds Hb Hok Hfresh; cbn [apply_all].
  { exists b. split; [done|]. split; [done|]. eapply builder_rep_perm; [| |exact Hb]; intros level; cbn; by rewrite app_nil_r. }
  apply Forall_cons in Hok as [Hlv Hok]. unfold apply_new at 2. cbn [fst snd] in *. set (pf := prepare_file f) in *.
  destruct (on_level_rep base b fs adds lv
    (λ s, mkLevelState (deleted_files s ∖ {[f_number pf]}) (file_insert pf (added_files s)))
    (fs lv ++ [pf]) (adds lv ++ [f_number f]) Hb Hlv) as (b1 & -> & Ep & Hb1).
  { intros bs s Hbs Hr Hn. specialize (Hfresh lv bs Hbs). rewrite filter_cons, decide_True, fmap_cons in Hfresh by done.
    cbn [compose snd] in Hfresh.
    assert (Hnew : f_number pf ∉ numbers (bs ++ added_files s)).
    { rewrite fmap_app, Hn. change (f_number pf) with (f_number f). rewrite app_assoc in Hfresh.
      apply NoDup_app in Hfresh as (_ & Hd & _). intros Hin. apply (Hd _ Hin). by left. }
    split; [by apply level_rep_add|]. cbn [added_files]. rewrite fmap_app, not_elem_of_app in Hnew.
    rewrite (file_insert_perm pf _ (proj2 Hnew)), fmap_cons, Hn. change (f_number pf) with (f_number f).
    by rewrite Permutation_cons_append. }
  simpl_bind. destruct (IH b1 _ _ Hb1 Hok) as (b2 & -> & Ep2 & Hb2).
  { intros level bs Hbs. specialize (Hfresh level bs Hbs). rewrite filter_cons in Hfresh. cbn [fst] in Hfresh.
    destruct (decide (level = lv)) as [->|Hne].
    - rewrite decide_True, fmap_cons in Hfresh by done. by rewrite <-app_assoc.
    - by rewrite decide_False in Hfresh by done. }
  exists b2. split; [done|]. split; [congruence|].
  eapply builder_rep_perm; [| |exact Hb2]; intros level; cbn beta; rewrite filter_cons; cbn [fst];
    (destruct (decide (level = lv)) as [->|Hne]; [rewrite decide_True by done|rewrite decide_False by done; done]);
    by rewrite fmap_cons, <-app_assoc.
Qed.

Lemma apply_pointers ptrs : ∀ b,
  length (compact_pointer_ b) = 7%nat → Forall (λ p, VersionEdit.level_ok p.1 ∧ p.2 ≠ []) ptrs →
  apply_all apply_pointer b ptrs =
  Some (mkBuilder (foldl (λ l p, <[Z.to_nat p.1 := p.2]> l) (compact_pointer_ b) ptrs) (base_ b) (levels_ b)).
Proof.
  induction ptrs as [|[lv k] ptrs IH]; intros b Hlen Hok; cbn [apply_all foldl]; [by destruct b|].
  apply Forall_cons in Hok as [[Hlv Hk] Hok]. cbn [fst snd] in *. unfold VersionEdit.level_ok, kNumLevels in Hlv.
  unfold apply_pointer at 2. cbn [fst snd]. unfold ikey_Encode. rewrite bool_decide_eq_false_2 by done. simpl_bind.
  rewrite aset_in by lia. simpl_bind. rewrite IH; [done|cbn; by rewrite length_insert|done].
Qed.

(** One edit. *)
Lemma builder_Apply_ok base b fs adds e :
  builder_rep base b fs adds → length (compact_pointer_ b) = 7%nat → edit_ok e →
  (∀ level bs, files_ base !! Z.to_nat level = Some bs → NoDup (numbers bs ++ adds level ++ new_numbers level [e])) →
  ∃ b', builder_Apply b e = Some b' ∧
    compact_pointer_ b' = pointers_after (compact_pointer_ b) [e] ∧
    builder_rep base b' (λ level, edit_level level (fs level) e) (λ level, adds level ++ new_numbers level [e]).
Proof.
  intros Hb Hlen (Hp & Hd & Hn) Hfresh. unfold builder_Apply, new_numbers, pointers_after in *.
  rewrite apply_pointers by done. simpl_bind. cbn [mbind list_bind] in *. rewrite app_nil_r.
  set (b0 := mkBuilder _ _ _).
  assert (Hb0 : builder_rep base b0 fs adds) by (destruct Hb; by split).
  destruct (apply_deleted_all base (deleted_files_ e) b0 fs adds Hb0 Hd) as (b1 & -> & Ep1 & Hb1). simpl_bind.
  destruct (apply_new_all base (new_files_ e) b1 _ adds Hb1 Hn) as (b2 & -> & Ep2 & Hb2).
  { intros level bs Hbs. specialize (Hfresh level bs Hbs). by rewrite app_nil_r in Hfresh. }
  exists b2. split; [done|]. split; [by rewrite Ep2, Ep1|].
  eapply builder_rep_perm; [| |exact Hb2]; intros level; [done|]. by rewrite app_nil_r.
Qed.

Lemma builder_edits_ok base edits : ∀ b fs adds,
  builder_rep base b fs adds → length (compact_pointer_ b) = 7%nat → Forall edit_ok edits →
  (∀ level bs, files_ base !! Z.to_nat level = Some bs → NoDup (numbers bs ++ adds level ++ new_numbers level edits)) →
  ∃ b', apply_all builder_Apply b edits = Some b' ∧
    compact_pointer_ b' = pointers_after (compact_pointer_ b) edits ∧
    builder_rep base b' (λ level, spec_level level (fs level) edits) (λ level, adds level ++ new_numbers level edits).
Proof.
  induction edits as [|e edits IH]; intros b fs adds Hb Hlen Hok Hfresh; cbn [apply_all].
  { exists b. split; [done|]. split; [done|]. eapply builder_rep_perm; [| |exact Hb]; intros level; [done|].
    cbn. by rewrite app_nil_r. }
  apply Forall_cons in Hok as [He Hok].
  assert (Hcons : ∀ level, new_numbers level (e :: edits) = new_numbers level [e] ++ new_numbers level edits).
  { intros level. unfold new_numbers. cbn [mbind list_bind]. by rewrite app_nil_r. }
  destruct (builder_Apply_ok base b fs adds e Hb Hlen He) as (b1 & -> & Ep1 & Hb1).
  { intros level bs Hbs. specialize (Hfresh level bs Hbs). rewrite Hcons, !app_assoc in Hfresh.
    apply NoDup_app in Hfresh as (Hfresh & _ & _). by rewrite <-app_assoc in Hfresh. }
  simpl_bind. destruct (IH b1 _ _ Hb1) as (b2 & -> & Ep2 & Hb2).
  - rewrite Ep1. unfold pointers_after. generalize ([e] ≫= compact_pointers_) as l, (compact_pointer_ b), Hlen.
    intros l. induction l as [|p l IHl]; intros l0 Hl0; [done|]. cbn [foldl]. apply IHl. by rewrite length_insert.
  - done.
  - intros level bs Hbs. specialize (Hfresh level bs Hbs). rewrite Hcons in Hfresh. by rewrite <-app_assoc.
  - exists b2. split; [done|]. split.
    + rewrite Ep2, Ep1. unfold pointers_after. cbn [mbind list_bind]. by rewrite app_nil_r, foldl_app.
    + eapply builder_rep_perm; [| |exact Hb2]; intros level; [done|]. by rewrite Hcons, app_assoc.
Qed.

Lemma new_numbers_neg level edits : Forall edit_ok edits → level < 0 → new_numbers level edits = [].
Proof.
  intros Hok Hl. induction Hok as [|e edits (_ & _ & Hn) _ IH]; [done|].
  change (new_numbers level (e :: edits)) with ((f_number ∘ snd <$> filter (λ p, p.1 = level) (new_files_ e)) ++ new_numbers level edits).
  rewrite IH, app_nil_r. unfold VersionEdit.level_ok in Hn. clear -Hn Hl. induction Hn as [|p news Hp _ IH]; [done|].
  by rewrite filter_cons, decide_False by lia.
Qed.

Lemma NewBuilder_rep ptrs (base : Version) :
  Forall (λ bs, sorted bs ∧ NoDup (numbers bs)) (files_ base) → length (files_ base) = 7%nat →
  builder_rep base (NewVersionBuilder ptrs base) (λ level, default [] (files_ base !! Z.to_nat level)) (λ _, []).
Proof.
  intros Hb Hlen. split; [done|done|]. intros i bs s Hbs Hs.
  unfold NewVersionBuilder in Hs. cbn [levels_] in Hs. apply lookup_replicate in Hs as [-> _].
  cbn [added_files deleted_files]. rewrite Nat2Z.id, Hbs. split; [|done].
  split; cbn [added_files deleted_files]; rewrite ?app_nil_r; [constructor|by apply (Forall_lookup_1 _ _ _ _ Hb Hbs)|].
  apply reflexive_eq. cbn [default]. clear. unfold kept. induction bs as [|f bs IH]; [done|].
  rewrite filter_cons, decide_True; [by rewrite IH|set_solver].
Qed.

(** The files of a saved level. *)
Definition saved s (bs : list FileMetaData) : list FileMetaData := kept (deleted_files s) (merged bs (added_files s)).

Lemma StronglySorted_filter (Q : FileMetaData → Prop) `{∀ f, Decision (Q f)} l : sorted l → sorted (filter Q l).
Proof.
  induction 1 as [|f l _ IH Hf]; [constructor|]. rewrite filter_cons. destruct (decide (Q f)); [|done].
  constructor; [done|]. rewrite Forall_forall in *. intros g [_ Hg]%list_elem_of_filter. by apply Hf.
Qed.

Lemma saved_ok bs s fs : sorted bs → level_rep bs s fs → sorted (saved s bs) ∧ saved s bs ≡ₚ fs.
Proof.
  intros Hs [H1 H2 H3]. unfold saved, kept in *. split; [|by rewrite merged_perm].
  apply StronglySorted_filter. by apply merged_sorted.
Qed.

Lemma save_levels_above level (states : list LevelState) (bases : list (list FileMetaData)) :
  0 < level → length states = length bases →
  save_levels level states bases (replicate (length states) []) =
  if forallb no_overlap (zip_with saved states bases) then Some (zip_with saved states bases) else None.
Proof.
  revert level bases. induction states as [|s states IH]; intros level [|bs bases] Hl Hlen; try done.
  cbn [save_levels length replicate zip_with forallb] in *. rewrite save_level_ok, (IH (level + 1)) by lia.
  unfold checked. change (kept _ _) with (saved s bs).
  destruct (Z.ltb_spec 0 level); [|lia]. destruct (no_overlap (saved s bs)); cbn [negb andb]; [|done].
  simpl_bind. by destruct (forallb _ _).
Qed.

Lemma SaveTo_NewVersion (b : Builder) :
  length (levels_ b) = 7%nat → length (files_ (base_ b)) = 7%nat →
  SaveTo b NewVersion =
  let files := zip_with saved (levels_ b) (files_ (base_ b)) in
  if forallb no_overlap (tail files) then Some (mkVersion files None (-1)) else None.
Proof.
  unfold SaveTo. intros Hs Hb. destruct (levels_ b) as [|s states]; [done|]. destruct (files_ (base_ b)) as [|bs bases]; [done|].
  injection Hs as Hs. injection Hb as Hb. unfold NewVersion, kNumLevels. cbn [files_].
  change (replicate (Z.to_nat 7) []) with ([] :: replicate 6 ([] : list FileMetaData)). rewrite <-Hs.
  cbn [save_levels zip_with tail]. rewrite save_level_ok, (save_levels_above (0 + 1)) by lia.
  unfold checked. change (kept _ _) with (saved s bs). change (0 <? 0) with false. cbn [andb]. simpl_bind.
  by destruct (forallb _ _).
Qed.

Lemma builder_saves (base : Version) (ptrs : list (list Z)) (edits : list VersionEdit) :
  length (files_ base) = 7%nat → length ptrs = 7%nat → Forall edit_ok edits →
  Forall sorted (files_ base) →
  (∀ i bs, files_ base !! i = Some bs → NoDup (numbers bs ++ new_numbers (Z.of_nat i) edits)) →
  ∃ b files, apply_all builder_Apply (NewVersionBuilder ptrs base) edits = Some b ∧
    compact_pointer_ b = pointers_after ptrs edits ∧
    (length files = 7%nat ∧ Forall sorted files) ∧
    (∀ i bs fs, files_ base !! i = Some bs → files !! i = Some fs → fs ≡ₚ spec_level (Z.of_nat i) bs edits) ∧
    SaveTo b NewVersion = if forallb no_overlap (tail files) then Some (mkVersion files None (-1)) else None.
Proof.
  intros Hlen Hp Hok Hs Hfresh.
  assert (Hb0 : Forall (λ bs, sorted bs ∧ NoDup (numbers bs)) (files_ base)).
  { apply Forall_lookup. intros i bs Hi. split; [by apply (Forall_lookup_1 _ _ _ _ Hs Hi)|].
    specialize (Hfresh i bs Hi). by apply NoDup_app in Hfresh as [Hfresh _]. }
  destruct (builder_edits_ok base edits _ _ _ (NewBuilder_rep ptrs base Hb0 Hlen) Hp Hok) as (b & Eb & Ep & Hb).
  { intros level bs Hi. cbn [app]. specialize (Hfresh _ bs Hi).
    destruct (decide (0 ≤ level)); [by rewrite Z2Nat.id in Hfresh by lia|].
    assert (E : new_numbers level edits = []) by (by apply new_numbers_neg; [|lia]).
    rewrite E, app_nil_r. by apply NoDup_app in Hfresh as [Hfresh _]. }
  destruct Hb as [E1 E2 E3]. exists b, (zip_with saved (levels_ b) (files_ base)).
  assert (Hsaved : ∀ i bs fs, files_ base !! i = Some bs → zip_with saved (levels_ b) (files_ base) !! i = Some fs →
    sorted fs ∧ fs ≡ₚ spec_level (Z.of_nat i) bs edits).
  { intros i bs fs Hbs Hfs. rewrite lookup_zip_with, Hbs in Hfs. destruct (levels_ b !! i) as [s|] eqn:Ei; [|done].
    injection Hfs as <-. destruct (E3 i bs s Hbs Ei) as [Hr _]. rewrite Nat2Z.id, Hbs in Hr.
    apply saved_ok; [by apply (Forall_lookup_1 _ _ _ _ Hs Hbs)|done]. }
  split; [done|]. split; [done|]. split; [split|split].
  - rewrite length_zip_with. lia.
  - apply Forall_lookup. intros i fs Hfs. destruct (files_ base !! i) as [bs|] eqn:Hbs; [by apply (Hsaved i bs fs)|].
    rewrite lookup_zip_with, Hbs in Hfs. by destruct (levels_ b !! i).
  - intros i bs fs Hbs Hfs. by apply (Hsaved i bs fs).
  - rewrite <-E1. apply SaveTo_NewVersion; [done|by rewrite E1].
Qed.

(** C31. Builder refines edits: when the files that [edits] add to a level are
    new to it, applying the edits one by one to a builder over [base] sets
    the compaction pointers of the edits, and [SaveTo] a new version gives
    every level the files the edits mean, sorted by smallest key; or it
    aborts, exactly when two of these files overlap in a level above 0. *)
Theorem builder_refines (base : Version) (ptrs : list (list Z)) (edits : list VersionEdit) :
  length (files_ base) = 7%nat → length ptrs = 7%nat → Forall edit_ok edits →
  Forall sorted (files_ base) →
  (∀ i bs, files_ base !! i = Some bs → NoDup (numbers bs ++ new_numbers (Z.of_nat i) edits)) →
  ∃ b files, apply_all builder_Apply (NewVersionBuilder ptrs base) edits = Some b ∧
    compact_pointer_ b = pointers_after ptrs edits ∧
    (length files = 7%nat ∧ Forall sorted files) ∧
    (∀ i bs fs, files_ base !! i = Some bs → files !! i = Some fs → fs ≡ₚ spec_level (Z.of_nat i) bs edits) ∧
    SaveTo b NewVersion = if forallb no_overlap (tail files) then Some (mkVersion files None (-1)) else None.
Proof. apply builder_saves. Qed.
End spec.

(** ** An example *)

#[local] Existing Instances posix_x86 BytewiseComparator.

Definition example_file (number : Z) (smallest largest : Z) : FileMetaData :=
  mkFile 1 100 number 2000000 ([smallest] ++ [1; 9; 0; 0; 0; 0; 0; 0]) ([largest] ++ [1; 4; 0; 0; 0; 0; 0; 0]).

Definition example_base : Version :=
  mkVersion ([example_file 5 1 6] :: [example_file 3 1 2; example_file 4 5 6] :: replicate 5 []) None (-1).

(** A compaction of level 0 into level 1, then a new file in level 0. *)
Definition example_edits : list VersionEdit :=
  [mkEdit [] 0 0 0 0 false false false false false [(0, [6; 1; 4; 0; 0; 0; 0; 0; 0])] [(0, 5); (1, 3); (1, 4)]
     [(1, example_file 8 4 6); (1, example_file 7 1 3)];
   mkEdit [] 0 0 0 0 false false false false false [] [] [(0, example_file 9 2 8)]].

Definition example_saved : option (list (list Z)) :=
  b ← apply_all builder_Apply (NewVersionBuilder (replicate 7 []) example_base) example_edits;
  v ← SaveTo b NewVersion;
  Some (map (map f_number) (files_ v)).

Lemma builder_refines_witness :
  example_saved = Some [[9]; [7; 8]; []; []; []; []; []] ∧
  ∃ b files, apply_all builder_Apply (NewVersionBuilder (replicate 7 []) example_base) example_edits = Some b ∧
    compact_pointer_ b = pointers_after (replicate 7 []) example_edits ∧
    (length files = 7%nat ∧ Forall (StronglySorted file_lt) files) ∧
    (∀ i bs fs, files_ example_base !! i = Some bs → files !! i = Some fs → fs ≡ₚ spec_level (Z.of_nat i) bs example_edits) ∧
    SaveTo b NewVersion =
    if forallb no_overlap (tail files) then Some (mkVersion files None (-1)) else None.
Proof.
  split; [vm_compute; reflexivity|].
  apply (builder_refines example_base (replicate 7 []) example_edits); [reflexivity|reflexivity| | |].
  - repeat constructor; cbn; (discriminate || lia).
  - repeat constructor.
  - intros i bs Hi. do 7 (destruct i as [|i]; [injection Hi as <-; apply (bool_decide_eq_true_1 (NoDup _)); vm_compute; reflexivity|]). discriminate Hi.
Defined.
