(* ===== verification/Compaction.v ===== *)
(** Compactions: class [Compaction] and how [VersionSet] chooses the inputs
    of one, from leveldb/db/version_set.cc, and [SnapshotList] of
    leveldb/db/snapshot.h.

    A [FileMetaData*] is the structure it points to.  [None] is a failed
    [assert], or a read outside an array or a key. *)

From Stdlib Require Import ZArith Lia.
From stdpp Require Import base option numbers sets list strings gmap sorting.
From S2P Require Import Prelude Coding Slice WriteBatch DbFormat SkipList SkipListSpec SkipListRefine.
From S2P Require Import MemTable Iterator TwoLevel Merger Bloom InternalKey TableFormat VersionEdit.
From S2P Require Import DbIterSpec Version VersionSpec VersionBuilder.

Record Compaction := mkCompaction {
  level_ : Z;
  max_output_file_size_ : Z;
  input_version_ : Version;
  edit_ : VersionEdit;
  inputs_ : list FileMetaData * list FileMetaData;
  grandparents_ : list FileMetaData;
  grandparent_index_ : Z;
  seen_key_ : bool;
  overlapped_bytes_ : Z;
  level_ptrs_ : list Z
}.

(** ** [SnapshotList]: the sequence numbers, oldest first; a snapshot is
    named by its place. *)

Definition snapshot_New (l : list (nat * Z)) (id : nat) (seq : Z) : list (nat * Z) := l ++ [(id, seq)].

Definition snapshot_Delete (l : list (nat * Z)) (id : nat) : list (nat * Z) := filter (λ s, s.1 ≠ id) l.

(** [compact->smallest_snapshot]. *)
Definition smallest_snapshot (l : list (nat * Z)) (last_sequence : Z) : Z :=
  match l with [] => last_sequence | s :: _ => s.2 end.

(** To an [int64_t]. *)
Definition s64 (z : Z) : Z := if u64 z <? 2 ^ 63 then u64 z else u64 z - 2 ^ 64.

Section compaction.
Context `{P : Port} {C : Comparator}.
Implicit Types (c : Compaction) (files : list FileMetaData).

Definition ExpandedCompactionByteSizeLimit (max_file_size : Z) : option Z := int_times 25 (TargetFileSize max_file_size).

Definition MaxFileSizeForLevel (max_file_size : Z) : Z := u64 (TargetFileSize max_file_size).

Definition NewCompaction (max_file_size level : Z) (v : Version) : Compaction :=
  mkCompaction level (MaxFileSizeForLevel max_file_size) v NewVersionEdit ([], []) [] 0 false 0
    (replicate (Z.to_nat kNumLevels) 0).

Definition set_inputs c (inputs : list FileMetaData * list FileMetaData) : Compaction :=
  mkCompaction (level_ c) (max_output_file_size_ c) (input_version_ c) (edit_ c) inputs (grandparents_ c)
    (grandparent_index_ c) (seen_key_ c) (overlapped_bytes_ c) (level_ptrs_ c).

Definition set_grandparents c (files : list FileMetaData) : Compaction :=
  mkCompaction (level_ c) (max_output_file_size_ c) (input_version_ c) (edit_ c) (inputs_ c) files
    (grandparent_index_ c) (seen_key_ c) (overlapped_bytes_ c) (level_ptrs_ c).

Definition set_edit c (edit : VersionEdit) : Compaction :=
  mkCompaction (level_ c) (max_output_file_size_ c) (input_version_ c) edit (inputs_ c) (grandparents_ c)
    (grandparent_index_ c) (seen_key_ c) (overlapped_bytes_ c) (level_ptrs_ c).

Definition set_overlap c (index : Z) (seen : bool) (bytes : Z) : Compaction :=
  mkCompaction (level_ c) (max_output_file_size_ c) (input_version_ c) (edit_ c) (inputs_ c) (grandparents_ c)
    index seen bytes (level_ptrs_ c).

Definition set_ptrs c (ptrs : list Z) : Compaction :=
  mkCompaction (level_ c) (max_output_file_size_ c) (input_version_ c) (edit_ c) (inputs_ c) (grandparents_ c)
    (grandparent_index_ c) (seen_key_ c) (overlapped_bytes_ c) ptrs.

(** ** Choosing the inputs *)

Fixpoint range_of (smallest largest : list Z) files : list Z * list Z :=
  match files with
  | [] => (smallest, largest)
  | f :: files =>
      range_of (if icmp_Compare C (f_smallest f) smallest <? 0 then f_smallest f else smallest)
        (if 0 <? icmp_Compare C (f_largest f) largest then f_largest f else largest) files
  end.

Definition GetRange files : option (list Z * list Z) :=
  match files with
  | [] => None (* assert *)
  | f :: files => Some (range_of (f_smallest f) (f_largest f) files)
  end.

Definition GetRange2 (inputs1 inputs2 : list FileMetaData) : option (list Z * list Z) := GetRange (inputs1 ++ inputs2).

(** More files of the level, when the level below has no more for them: the
    inputs and the largest key of those of the level. *)
Definition expand_inputs (max_file_size : Z) c (largest : list Z) (all : list Z * list Z)
  : option (Compaction * list Z) :=
  let '(inputs0, inputs1) := inputs_ c in
  if bool_decide (inputs1 = []) then Some (c, largest)
  else
    expanded0 ← GetOverlappingInputs (input_version_ c) (level_ c) (Some all.1) (Some all.2);
    if (length inputs0 <? length expanded0)%nat then
      limit ← ExpandedCompactionByteSizeLimit max_file_size;
      if TotalFileSize inputs1 + TotalFileSize expanded0 <? limit then
        '(new_start, new_limit) ← GetRange expanded0;
        expanded1 ← GetOverlappingInputs (input_version_ c) (level_ c + 1) (Some new_start) (Some new_limit);
        if (length expanded1 =? length inputs1)%nat
        then Some (set_inputs c (expanded0, expanded1), new_limit)
        else Some (c, largest)
      else Some (c, largest)
    else Some (c, largest).

(** [pointers] is [compact_pointer_]; the current version is that of the
    compaction. *)
Definition SetupOtherInputs (max_file_size : Z) (pointers : list (list Z)) c
  : option (list (list Z) * Compaction) :=
  let level := level_ c in
  '(smallest, largest) ← GetRange (inputs_ c).1;
  inputs1 ← GetOverlappingInputs (input_version_ c) (level + 1) (Some smallest) (Some largest);
  let c := set_inputs c ((inputs_ c).1, inputs1) in
  all ← GetRange2 (inputs_ c).1 (inputs_ c).2;
  '(c, largest) ← expand_inputs max_file_size c largest all;
  all ← GetRange2 (inputs_ c).1 (inputs_ c).2;
  c ← (if level + 2 <? kNumLevels then
         grandparents ← GetOverlappingInputs (input_version_ c) (level + 2) (Some all.1) (Some all.2);
         Some (set_grandparents c grandparents)
       else Some c);
  pointer ← ikey_Encode largest;
  pointers ← aset pointers level pointer;
  Some (pointers, set_edit c (SetCompactPointer (edit_ c) level largest)).

(** The first file behind the compaction pointer. *)
Fixpoint after_pointer (pointer : list Z) files : option (option FileMetaData) :=
  match files with
  | [] => Some None
  | f :: files =>
      if bool_decide (pointer = []) then Some (Some f)
      else
        largest ← ikey_Encode (f_largest f);
        if 0 <? icmp_Compare C largest pointer then Some (Some f) else after_pointer pointer files
  end.

(** [size_compaction]: the level that has too much data, if one has
    ([compaction_score_ >= 1], [compaction_level_]). *)
Definition PickCompaction (max_file_size : Z) (pointers : list (list Z)) (v : Version) (size_compaction : option Z)
  : option (list (list Z) * option Compaction) :=
  picked ← match size_compaction with
           | Some level =>
               if (0 <=? level) && (level + 1 <? kNumLevels) then
                 files ← (files_ v).[level];
                 pointer ← pointers.[level];
                 f ← after_pointer pointer files;
                 f ← match f with Some f => Some f | None => head files end;
                 Some (Some (level, f))
               else None (* assert *)
           | None => Some ((λ f, (file_to_compact_level_ v, f)) <$> file_to_compact_ v)
           end;
  match picked with
  | None => Some (pointers, None)
  | Some (level, f) =>
      inputs0 ← (if level =? 0 then
                   '(smallest, largest) ← GetRange [f];
                   inputs ← GetOverlappingInputs v 0 (Some smallest) (Some largest);
                   if bool_decide (inputs = []) then None (* assert *) else Some inputs
                 else Some [f]);
      let c := set_inputs (NewCompaction max_file_size level v) (inputs0, []) in
      '(pointers, c) ← SetupOtherInputs max_file_size pointers c;
      Some (pointers, Some c)
  end.

(** The first files up to the one with which [limit] bytes are reached. *)
Fixpoint take_bytes (limit total : Z) files : list FileMetaData :=
  match files with
  | [] => []
  | f :: files =>
      let total := u64 (total + f_file_size f) in
      if limit <=? total then [f] else f :: take_bytes limit total files
  end.

Definition CompactRange (max_file_size : Z) (pointers : list (list Z)) (v : Version) (level : Z)
    (begin end_ : option (list Z)) : option (list (list Z) * option Compaction) :=
  inputs ← GetOverlappingInputs v level begin end_;
  if bool_decide (inputs = []) then Some (pointers, None)
  else
    let inputs := if 0 <? level then take_bytes (MaxFileSizeForLevel max_file_size) 0 inputs else inputs in
    let c := set_inputs (NewCompaction max_file_size level v) (inputs, []) in
    '(pointers, c) ← SetupOtherInputs max_file_size pointers c;
    Some (pointers, Some c).

(** ** [Compaction] *)

Definition IsTrivialMove (max_file_size : Z) c : option bool :=
  if (length (inputs_ c).1 =? 1)%nat && (length (inputs_ c).2 =? 0)%nat then
    max_bytes ← MaxGrandParentOverlapBytes max_file_size;
    Some (TotalFileSize (grandparents_ c) <=? max_bytes)
  else Some false.

Definition AddInputDeletions c (edit : VersionEdit) : VersionEdit :=
  let delete level edit files := foldl (λ edit f, edit_DeleteFile edit level (f_number f)) edit files in
  delete (level_ c + 1) (delete (level_ c) edit (inputs_ c).1) (inputs_ c).2.

(** One level: the new pointer, and whether its file covers the key. *)
Fixpoint advance_ptr (user_key : list Z) (rest : list FileMetaData) (ptr : Z) : option (Z * bool) :=
  match rest with
  | [] => Some (ptr, false)
  | f :: rest =>
      largest ← ikey_user_key (f_largest f);
      if Compare user_key largest <=? 0 then
        smallest ← ikey_user_key (f_smallest f);
        Some (ptr, 0 <=? Compare user_key smallest)
      else advance_ptr user_key rest (ptr + 1)
  end.

(** [levels] and [ptrs] from some level on. *)
Fixpoint base_levels (user_key : list Z) (levels : list (list FileMetaData)) (ptrs : list Z) : option (list Z * bool) :=
  match levels, ptrs with
  | [], [] => Some ([], true)
  | files :: levels, ptr :: ptrs =>
      '(ptr, found) ← advance_ptr user_key (drop (Z.to_nat ptr) files) ptr;
      if (found : bool) then Some (ptr :: ptrs, false)
      else '(ptrs, base) ← base_levels user_key levels ptrs; Some (ptr :: ptrs, base)
  | _, _ => None
  end.

Definition IsBaseLevelForKey c (user_key : list Z) : option (Compaction * bool) :=
  let n := Z.to_nat (level_ c + 2) in
  '(ptrs, base) ← base_levels user_key (drop n (files_ (input_version_ c))) (drop n (level_ptrs_ c));
  Some (set_ptrs c (take n (level_ptrs_ c) ++ ptrs), base).

(** The grandparents behind the index: how many are before the key, and
    their bytes. *)
Fixpoint skip_grandparents (internal_key : list Z) (seen : bool) (rest : list FileMetaData) (index bytes : Z) : Z * Z :=
  match rest with
  | [] => (index, bytes)
  | f :: rest =>
      if 0 <? icmp_Compare C internal_key (f_largest f)
      then skip_grandparents internal_key seen rest (index + 1) (if seen then s64 (bytes + f_file_size f) else bytes)
      else (index, bytes)
  end.

Definition ShouldStopBefore (max_file_size : Z) c (internal_key : list Z) : option (Compaction * bool) :=
  let '(index, bytes) :=
    skip_grandparents internal_key (seen_key_ c) (drop (Z.to_nat (grandparent_index_ c)) (grandparents_ c))
      (grandparent_index_ c) (overlapped_bytes_ c) in
  max_bytes ← MaxGrandParentOverlapBytes max_file_size;
  if max_bytes <? bytes then Some (set_overlap c index true 0, true)
  else Some (set_overlap c index true bytes, false).
End compaction.

(** ** Overlapping files *)

Section overlap.
Context `{P : Port} {C : Comparator} {HC : ComparatorLaws C}.
Implicit Types (f g : FileMetaData) (files : list FileMetaData) (b e : option (list Z)).

Abbreviation first_user f := (ikey_user (f_smallest f)).
Abbreviation last_user f := (ikey_user (f_largest f)).

(** A file has keys, in order. *)
Definition file_range f : Prop :=
  ikey_wf (f_smallest f) ∧ ikey_wf (f_largest f) ∧ icmp_Compare C (f_smallest f) (f_largest f) ≤ 0.

(** The file overlaps the user keys from [b] to [e]; it is inside. *)
Definition within b e f : Prop :=
  match b with Some k => 0 ≤ Compare (last_user f) k | None => True end ∧
  match e with Some k => Compare (first_user f) k ≤ 0 | None => True end.

Definition inside b e f : Prop :=
  match b with Some k => 0 ≤ Compare (first_user f) k | None => True end ∧
  match e with Some k => Compare (last_user f) k ≤ 0 | None => True end.

#[export] Instance within_dec b e f : Decision (within b e f).
Proof. unfold within. destruct b, e; apply _. Defined.

Lemma file_range_users f : file_range f →
  ikey_user_key (f_smallest f) = Some (first_user f) ∧ ikey_user_key (f_largest f) = Some (last_user f) ∧
  Compare (first_user f) (last_user f) ≤ 0.
Proof.
  intros (Hs & Hl & Hle). split; [by apply ikey_user_key_wf|]. split; [by apply ikey_user_key_wf|]. by apply key_before_user.
Qed.

(** *** Above level 0 *)

Lemma overlapping_above level all b e : level ≠ 0 → ∀ files fuel inputs,
  Forall file_range files → (length files ≤ fuel)%nat →
  overlapping_inputs fuel level all b e inputs files = Some (inputs ++ filter (within b e) files).
Proof.
  intros Hl. induction files as [|f files IH]; intros fuel inputs Hok Hfuel; [destruct fuel; cbn; by rewrite app_nil_r|].
  destruct fuel as [|fuel]; [cbn in Hfuel; lia|]. apply Forall_cons in Hok as [Hf Hok]. cbn [length overlapping_inputs] in *.
  destruct (file_range_users f Hf) as (-> & -> & _). simpl_bind. rewrite (proj2 (Z.eqb_neq level 0) Hl). cbn [andb].
  rewrite filter_cons.
  assert (Hb : (match b with Some k => Compare (last_user f) k <? 0 | None => false end) = false ↔
    match b with Some k => 0 ≤ Compare (last_user f) k | None => True end) by (destruct b; [apply Z.ltb_ge|tauto]).
  assert (He : (match e with Some k => 0 <? Compare (first_user f) k | None => false end) = false ↔
    match e with Some k => Compare (first_user f) k ≤ 0 | None => True end) by (destruct e; [apply Z.ltb_ge|tauto]).
  destruct (match b with Some k => Compare (last_user f) k <? 0 | None => false end).
  { rewrite IH by (done || lia). rewrite decide_False; [done|]. intros [Hx _]. by apply Hb in Hx. }
  destruct (match e with Some k => 0 <? Compare (first_user f) k | None => false end).
  { rewrite IH by (done || lia). rewrite decide_False; [done|]. intros [_ Hx]. by apply He in Hx. }
  rewrite IH by (done || lia). rewrite decide_True by (exact (conj (proj1 Hb eq_refl) (proj1 He eq_refl))). by rewrite <-app_assoc.
Qed.

(** *** Level 0 *)

(** The files that begin before the range, and those that end behind it. *)
Definition outside (b e : list Z) files : nat :=
  length (filter (λ f, Compare (first_user f) b < 0) files) + length (filter (λ f, 0 < Compare (last_user f) e) files).

Lemma filter_length_lt {A} (P1 P2 : A → Prop) `{∀ x, Decision (P1 x), ∀ x, Decision (P2 x)} (l : list A) x :
  (∀ y, P1 y → P2 y) → x ∈ l → P2 x → ¬ P1 x → (length (filter P1 l) < length (filter P2 l))%nat.
Proof.
  intros Hsub Hx H2 H1. assert (Hle : ∀ l, (length (filter P1 l) ≤ length (filter P2 l))%nat).
  { clear x Hx H2 H1 l. induction l as [|y l IH]; [done|]. rewrite !filter_cons.
    destruct (decide (P1 y)), (decide (P2 y)); cbn; naive_solver lia. }
  induction Hx as [y l'|y z l' Hx IH]; rewrite !filter_cons.
  - rewrite decide_False, decide_True by done. cbn. pose proof (Hle l'). lia.
  - specialize (IH H2 H1). destruct (decide (P1 z)), (decide (P2 z)); cbn; naive_solver lia.
Qed.

(** The range grows until every file that overlaps it is inside. *)
Lemma overlapping_level0 all : Forall file_range all → ∀ fuel (b e : list Z) seen files,
  all = seen ++ files → Forall (λ f, within (Some b) (Some e) f → inside (Some b) (Some e) f) seen →
  (length files + outside b e all * length all ≤ fuel)%nat →
  ∃ (b' e' : list Z), overlapping_inputs fuel 0 all (Some b) (Some e) (filter (within (Some b) (Some e)) seen) files =
      Some (filter (within (Some b') (Some e')) all) ∧
    Compare b' b ≤ 0 ∧ Compare e e' ≤ 0 ∧ Forall (λ f, within (Some b') (Some e') f → inside (Some b') (Some e') f) all.
Proof.
  intros Hok. induction fuel as [|fuel IH]; intros b e seen files Hall Hdone Hfuel.
  { destruct files as [|f files]; [|cbn in Hfuel; lia]. rewrite app_nil_r in Hall. subst seen.
    exists b, e. pose proof (Compare_refl b). pose proof (Compare_refl e). cbn. split; [reflexivity|]. split; [lia|]. split; [lia|assumption]. }
  destruct files as [|f files].
  { rewrite app_nil_r in Hall. subst seen. exists b, e. pose proof (Compare_refl b). pose proof (Compare_refl e).
    cbn. split; [reflexivity|]. split; [lia|]. split; [lia|assumption]. }
  assert (Hf : f ∈ all) by (rewrite Hall; apply elem_of_app; right; by left).
  pose proof (proj1 (Forall_forall _ _) Hok f Hf) as Hfr. cbn [length overlapping_inputs] in *.
  destruct (file_range_users f Hfr) as (-> & -> & Hfl). simpl_bind. rewrite Z.eqb_refl. cbn [andb].
  assert (Hnext : (within (Some b) (Some e) f → inside (Some b) (Some e) f) →
    ∃ (b' e' : list Z), overlapping_inputs fuel 0 all (Some b) (Some e) (filter (within (Some b) (Some e)) (seen ++ [f])) files =
      Some (filter (within (Some b') (Some e')) all) ∧ Compare b' b ≤ 0 ∧ Compare e e' ≤ 0 ∧
      Forall (λ f, within (Some b') (Some e') f → inside (Some b') (Some e') f) all).
  { intros Hin. apply IH; [by rewrite <-app_assoc| |lia]. apply Forall_app. split; [assumption|by constructor]. }
  assert (Hskip : ∀ b e, ¬ within b e f → filter (within b e) (seen ++ [f]) = filter (within b e) seen).
  { intros b0 e0 Hn. rewrite filter_app, filter_cons, decide_False, app_nil_r by done. reflexivity. }
  destruct (Z.ltb_spec (Compare (last_user f) b) 0) as [H1|H1].
  { rewrite Hskip in Hnext by (intros [? _]; lia). apply Hnext. intros [? _]. lia. }
  destruct (Z.ltb_spec 0 (Compare (first_user f) e)) as [H2|H2].
  { rewrite Hskip in Hnext by (intros [_ ?]; lia). apply Hnext. intros [_ ?]. lia. }
  destruct (Z.ltb_spec (Compare (first_user f) b) 0) as [H3|H3].
  { destruct (IH (first_user f) e [] all) as (b' & e' & E & Hb & He & Hin); [done|constructor| |].
    - pose proof (filter_length_lt (λ g, Compare (first_user g) (first_user f) < 0) (λ g, Compare (first_user g) b < 0) all f) as Hlt.
      assert (Hx : (outside (first_user f) e all < outside b e all)%nat).
      { unfold outside. apply Nat.add_lt_mono_r, Hlt; [|done|done|rewrite Compare_refl; lia].
        intros y Hy. exact (Compare_lt_le_trans _ _ _ Hy (Z.lt_le_incl _ _ H3)). }
      nia.
    - exists b', e'. split; [exact E|]. split; [|by split]. pose proof (Compare_le_lt_trans _ _ _ Hb H3). lia. }
  destruct (Z.ltb_spec 0 (Compare (last_user f) e)) as [H4|H4].
  { destruct (IH b (last_user f) [] all) as (b' & e' & E & Hb & He & Hin); [done|constructor| |].
    - pose proof (filter_length_lt (λ g, 0 < Compare (last_user g) (last_user f)) (λ g, 0 < Compare (last_user g) e) all f) as Hlt.
      assert (Hx : (outside b (last_user f) all < outside b e all)%nat).
      { unfold outside. apply Nat.add_lt_mono_l, Hlt; [|done|done|rewrite Compare_refl; lia].
        intros y Hy. pose proof (Compare_anti (last_user y) (last_user f)). pose proof (Compare_anti (last_user y) e).
        pose proof (Compare_anti (last_user f) e).
        pose proof (Compare_lt_le_trans e (last_user f) (last_user y)). lia. }
      nia.
    - exists b', e'. split; [exact E|]. split; [done|]. split; [|done].
      pose proof (Compare_anti (last_user f) e). pose proof (Compare_lt_le_trans e (last_user f) e'). lia. }
  rewrite filter_app, filter_cons, decide_True in Hnext by done. apply Hnext. by split.
Qed.

Lemma GetOverlappingInputs_ok (v : Version) level files lo hi :
  0 ≤ level < 7 → files_ v !! Z.to_nat level = Some files → Forall file_range files → ikey_wf lo → ikey_wf hi →
  ∃ b e : list Z, GetOverlappingInputs v level (Some lo) (Some hi) = Some (filter (within (Some b) (Some e)) files) ∧
    Compare b (ikey_user lo) ≤ 0 ∧ Compare (ikey_user hi) e ≤ 0 ∧
    (level ≠ 0 → b = ikey_user lo ∧ e = ikey_user hi) ∧
    (level = 0 → Forall (λ f, within (Some b) (Some e) f → inside (Some b) (Some e) f) files).
Proof.
  intros Hl Hf Hok Hlo Hhi. unfold GetOverlappingInputs, kNumLevels.
  rewrite (proj2 (Z.leb_le 0 level)), (proj2 (Z.ltb_lt level 7)) by lia. cbn [andb].
  unfold aget. rewrite (proj2 (Z.leb_le 0 level)) by lia. rewrite Hf. simpl_bind.
  unfold user_key_opt. rewrite !ikey_user_key_wf by done. simpl_bind. cbv zeta.
  destruct (decide (level = 0)) as [->|Hne].
  - destruct (overlapping_level0 files Hok ((2 * length files + 1) * length files) (ikey_user lo) (ikey_user hi) [] files)
      as (b & e & E & Hb & He & Hin); [done|constructor| |].
    { unfold outside. pose proof (length_filter (λ f, Compare (first_user f) (ikey_user lo) < 0) files).
      pose proof (length_filter (λ f, 0 < Compare (last_user f) (ikey_user hi)) files). nia. }
    exists b, e. split; [exact E|]. split; [done|]. split; [done|]. by split.
  - exists (ikey_user lo), (ikey_user hi). rewrite overlapping_above by (done || lia). rewrite !Compare_refl.
    split; [done|]. split; [lia|]. split; [lia|]. by split.
Qed.

(** *** The range of files *)

Lemma range_of_ok files : ∀ lo hi, Forall file_range files → ikey_wf lo → ikey_wf hi →
  let r := range_of lo hi files in
  ikey_wf r.1 ∧ ikey_wf r.2 ∧ icmp_Compare C r.1 lo ≤ 0 ∧ icmp_Compare C hi r.2 ≤ 0 ∧
  (r.1 = lo ∨ ∃ f, f ∈ files ∧ r.1 = f_smallest f) ∧ (r.2 = hi ∨ ∃ f, f ∈ files ∧ r.2 = f_largest f) ∧
  Forall (λ f, icmp_Compare C r.1 (f_smallest f) ≤ 0 ∧ icmp_Compare C (f_largest f) r.2 ≤ 0) files.
Proof.
  pose proof (Compare_refl (C := InternalKeyComparator C)) as Hrefl. cbn [Compare InternalKeyComparator] in Hrefl.
  induction files as [|f files IH]; intros lo hi Hok Hlo Hhi; cbn [range_of].
  { rewrite !Hrefl. split_and!; try done; try lia; by left. }
  apply Forall_cons in Hok as [(Hs & Hl & _) Hok].
  set (lo' := if _ : bool then f_smallest f else lo). set (hi' := if _ : bool then f_largest f else hi).
  assert (Hlo' : ikey_wf lo' ∧ icmp_Compare C lo' lo ≤ 0 ∧ icmp_Compare C lo' (f_smallest f) ≤ 0 ∧ (lo' = lo ∨ lo' = f_smallest f)).
  { unfold lo'. pose proof (icmp_anti C (f_smallest f) lo). destruct (Z.ltb_spec (icmp_Compare C (f_smallest f) lo) 0);
      rewrite ?Hrefl; split_and!; auto; lia. }
  assert (Hhi' : ikey_wf hi' ∧ icmp_Compare C hi hi' ≤ 0 ∧ icmp_Compare C (f_largest f) hi' ≤ 0 ∧ (hi' = hi ∨ hi' = f_largest f)).
  { unfold hi'. pose proof (icmp_anti C (f_largest f) hi). destruct (Z.ltb_spec 0 (icmp_Compare C (f_largest f) hi));
      rewrite ?Hrefl; split_and!; auto; lia. }
  clearbody lo' hi'. destruct Hlo' as (W1 & A1 & A2 & A3), Hhi' as (W2 & B1 & B2 & B3).
  destruct (IH lo' hi' Hok W1 W2) as (V1 & V2 & D1 & D2 & D3 & D4 & D5). cbv zeta in *.
  pose proof (icmp_trans C) as Htr. split; [done|]. split; [done|]. split; [by eapply Htr|]. split; [by eapply Htr|].
  split; [|split; [|constructor; [split; by eapply Htr|done]]].
  - destruct D3 as [->|(g & Hg & ->)]; [destruct A3 as [-> | ->]; [by left|right; exists f; split; [by left|done]]|].
    right. exists g. split; [by right|done].
  - destruct D4 as [->|(g & Hg & ->)]; [destruct B3 as [-> | ->]; [by left|right; exists f; split; [by left|done]]|].
    right. exists g. split; [by right|done].
Qed.

Lemma GetRange_ok files : files ≠ [] → Forall file_range files →
  ∃ lo hi, GetRange files = Some (lo, hi) ∧ ikey_wf lo ∧ ikey_wf hi ∧
    (∃ f, f ∈ files ∧ lo = f_smallest f) ∧ (∃ f, f ∈ files ∧ hi = f_largest f) ∧
    Forall (λ f, Compare (ikey_user lo) (first_user f) ≤ 0 ∧ Compare (last_user f) (ikey_user hi) ≤ 0) files.
Proof.
  intros Hne Hok. destruct files as [|f files]; [done|]. apply Forall_cons in Hok as [Hf Hok]. pose proof Hf as (Hs & Hl & _).
  destruct (range_of_ok files (f_smallest f) (f_largest f) Hok Hs Hl) as (V1 & V2 & D1 & D2 & D3 & D4 & D5). cbv zeta in *.
  unfold GetRange. destruct (range_of (f_smallest f) (f_largest f) files) as [lo hi]. cbn [fst snd] in *.
  exists lo, hi. split; [done|]. split; [done|]. split; [done|]. split; [|split].
  - destruct D3 as [->|(g & Hg & ->)]; [exists f; split; [by left|done]|exists g; split; [by right|done]].
  - destruct D4 as [->|(g & Hg & ->)]; [exists f; split; [by left|done]|exists g; split; [by right|done]].
  - constructor; [split; by apply key_before_user|]. apply Forall_forall. intros g Hg. rewrite Forall_forall in D5, Hok.
    destruct (D5 g Hg) as [E1 E2], (Hok g Hg) as (Hgs & Hgl & _). split; by apply key_before_user.
Qed.

(** *** The inputs of a compaction *)

(** No user key is in the ranges of both files. *)
Definition apart f g : Prop :=
  Compare (last_user f) (first_user g) < 0 ∨ Compare (last_user g) (first_user f) < 0.

Definition version_ranges (v : Version) : Prop := length (files_ v) = 7%nat ∧ Forall (Forall file_range) (files_ v).

(** Files of the level; at level 0, with all that overlap them. *)
Definition inputs0_ok (v : Version) (level : Z) (inputs0 : list FileMetaData) : Prop :=
  inputs0 ≠ [] ∧ ∃ files, files_ v !! Z.to_nat level = Some files ∧ sublist inputs0 files ∧
    (level = 0 → ∀ p q, p ∈ inputs0 → q ∈ files → q ∉ inputs0 → apart p q).

(** And all files of the next level that overlap their range. *)
Definition inputs_ok (v : Version) (level : Z) (inputs : list FileMetaData * list FileMetaData) : Prop :=
  inputs0_ok v level inputs.1 ∧ ∃ files lo hi, files_ v !! Z.to_nat (level + 1) = Some files ∧
    GetRange inputs.1 = Some (lo, hi) ∧ inputs.2 = filter (within (Some (ikey_user lo)) (Some (ikey_user hi))) files.

Record started (v : Version) (level : Z) (c : Compaction) : Prop := {
  st_level : level_ c = level;
  st_version : input_version_ c = v;
  st_ptrs : level_ptrs_ c = replicate 7 0;
  st_index : grandparent_index_ c = 0;
  st_inputs : inputs_ok v level (inputs_ c)
}.

Lemma version_ranges_level v level files :
  version_ranges v → files_ v !! Z.to_nat level = Some files → Forall file_range files.
Proof. intros [_ Hv] Hf. exact (Forall_lookup_1 _ _ _ _ Hv Hf). Qed.

Lemma inputs0_range v level inputs0 : version_ranges v → inputs0_ok v level inputs0 → Forall file_range inputs0.
Proof.
  intros Hv (_ & files & Hf & Hsub & _). pose proof (version_ranges_level v level files Hv Hf) as Hok.
  apply Forall_forall. intros f Hin. rewrite Forall_forall in Hok. apply Hok. by apply (elem_of_sublist _ _ _ Hin Hsub).
Qed.

Lemma version_level v level : version_ranges v → 0 ≤ level < 7 → ∃ files, files_ v !! Z.to_nat level = Some files.
Proof. intros [Hlen _] Hl. apply lookup_lt_is_Some. lia. Qed.

(** Overlapping files of a level are inputs for it. *)
Lemma overlapping_inputs0 (v : Version) level lo hi :
  version_ranges v → 0 ≤ level < 7 → ikey_wf lo → ikey_wf hi →
  ∃ inputs0, GetOverlappingInputs v level (Some lo) (Some hi) = Some inputs0 ∧ (inputs0 ≠ [] → inputs0_ok v level inputs0).
Proof.
  intros Hv Hl Hlo Hhi. destruct (version_level v level Hv Hl) as [files Hf].
  destruct (GetOverlappingInputs_ok v level files lo hi Hl Hf (version_ranges_level v level files Hv Hf) Hlo Hhi)
    as (b & e & E & _ & _ & _ & H0).
  eexists. split; [exact E|]. intros Hne. split; [done|]. exists files. split; [done|]. split; [apply sublist_filter|].
  intros E0 p q Hp Hq Hnq. specialize (H0 E0). rewrite Forall_forall in H0. apply list_elem_of_filter in Hp as [Hp Hpf].
  destruct (H0 p Hpf Hp) as [Hp1 Hp2]. rewrite list_elem_of_filter in Hnq.
  assert (Hq' : ¬ within (Some b) (Some e) q) by tauto. unfold within in Hq'. unfold apart.
  destruct (decide (0 ≤ Compare (last_user q) b)) as [Hb|Hb].
  - left. assert (He : 0 < Compare (first_user q) e) by lia. pose proof (Compare_anti (first_user q) e).
    pose proof (Compare_le_lt_trans (last_user p) e (first_user q) Hp2). lia.
  - right. pose proof (Compare_anti b (first_user p)). pose proof (Compare_anti (first_user p) b).
    pose proof (Compare_lt_le_trans (last_user q) b (first_user p)). lia.
Qed.

Lemma expand_inputs_ok (max_file_size : Z) v level c largest all :
  version_ranges v → 0 ≤ level < 6 → 0 ≤ max_file_size ∧ 25 * max_file_size < 2 ^ 31 → ikey_wf all.1 → ikey_wf all.2 → ikey_wf largest →
  started v level c →
  ∃ c' largest', expand_inputs max_file_size c largest all = Some (c', largest') ∧ ikey_wf largest' ∧ started v level c' ∧
    edit_ c' = edit_ c.
Proof.
  intros Hv Hl Hmax Ha1 Ha2 Hlg Hc. pose proof Hc as [E1 E2 E3 E4 Hin]. unfold expand_inputs. rewrite E1, E2.
  destruct (inputs_ c) as [inputs0 inputs1] eqn:Ei.
  assert (Hsame : ∃ c' largest', Some (c, largest) = Some (c', largest') ∧ ikey_wf largest' ∧ started v level c' ∧ edit_ c' = edit_ c)
    by (by exists c, largest).
  case_bool_decide; [done|].
  destruct (overlapping_inputs0 v level all.1 all.2 Hv ltac:(lia) Ha1 Ha2) as (ex0 & -> & Hex0). simpl_bind.
  destruct (Nat.ltb_spec (length inputs0) (length ex0)) as [Hlt|]; [|done].
  unfold ExpandedCompactionByteSizeLimit, int_times, TargetFileSize, s32. rewrite wrap_small by (unfold in_width; lia).
  rewrite (proj2 (Z.ltb_lt max_file_size (2 ^ 31))) by lia.
  rewrite (proj2 (Z.leb_le (- 2 ^ 31) (25 * max_file_size))), (proj2 (Z.ltb_lt (25 * max_file_size) (2 ^ 31))) by lia. cbn [andb]. simpl_bind.
  destruct (_ <? _); [|done]. specialize (Hex0 ltac:(destruct ex0; [cbn in Hlt; lia|done])).
  destruct (GetRange_ok ex0 (proj1 Hex0) (inputs0_range v level ex0 Hv Hex0)) as (lo & hi & Er & Hlo & Hhi & _).
  rewrite Er. simpl_bind. destruct (version_level v (level + 1) Hv ltac:(lia)) as [files1 Hf1].
  destruct (GetOverlappingInputs_ok v (level + 1) files1 lo hi ltac:(lia) Hf1 (version_ranges_level v _ files1 Hv Hf1) Hlo Hhi)
    as (b & e & -> & _ & _ & Hne & _). simpl_bind. destruct (Hne ltac:(lia)) as [-> ->].
  destruct (_ =? _)%nat; [|done]. exists (set_inputs c (ex0, filter (within (Some (ikey_user lo)) (Some (ikey_user hi))) files1)), hi.
  split; [done|]. split; [done|]. split; [|done]. split; [done..|]. cbn [inputs_ set_inputs]. split; [done|].
  by exists files1, lo, hi.
Qed.

Lemma SetupOtherInputs_ok (max_file_size : Z) (pointers : list (list Z)) v level c :
  version_ranges v → 0 ≤ level < 6 → 0 ≤ max_file_size ∧ 25 * max_file_size < 2 ^ 31 → length pointers = 7%nat →
  level_ c = level → input_version_ c = v → level_ptrs_ c = replicate 7 0 → grandparent_index_ c = 0 →
  inputs0_ok v level (inputs_ c).1 →
  ∃ c' key, SetupOtherInputs max_file_size pointers c = Some (<[Z.to_nat level := key]> pointers, c') ∧
    started v level c' ∧ ikey_wf key ∧ edit_ c' = SetCompactPointer (edit_ c) level key.
Proof.
  intros Hv Hl Hmax Hptr E1 E2 E3 E4 Hin. unfold SetupOtherInputs. rewrite E1, E2. pose proof (proj1 Hin) as Hne.
  destruct (GetRange_ok _ Hne (inputs0_range v level _ Hv Hin)) as (lo & hi & Er & Hlo & Hhi & _). rewrite Er. simpl_bind.
  destruct (version_level v (level + 1) Hv ltac:(lia)) as [files1 Hf1].
  pose proof (version_ranges_level v _ files1 Hv Hf1) as Hok1.
  destruct (GetOverlappingInputs_ok v (level + 1) files1 lo hi ltac:(lia) Hf1 Hok1 Hlo Hhi)
    as (b & e & -> & _ & _ & Hbe & _). simpl_bind. destruct (Hbe ltac:(lia)) as [-> ->].
  set (c1 := set_inputs c _). cbv zeta.
  assert (Hc1 : started v level c1) by (split; [done..|]; split; [done|]; by exists files1, lo, hi).
  assert (Hrange : ∀ c', started v level c' → ∃ lo hi, GetRange2 (inputs_ c').1 (inputs_ c').2 = Some (lo, hi) ∧ ikey_wf lo ∧ ikey_wf hi).
  { intros c' [_ _ _ _ (H0 & files & l & h & Hf & _ & E)]. unfold GetRange2.
    destruct (GetRange_ok ((inputs_ c').1 ++ (inputs_ c').2)) as (lo' & hi' & E' & ? & ? & _).
    - destruct (inputs_ c').1; [by destruct H0|done].
    - apply Forall_app. split; [by apply (inputs0_range v level)|]. rewrite E.
      pose proof (version_ranges_level v (level + 1) files Hv Hf) as Hok. rewrite Forall_forall in *.
      intros x [_ Hx]%list_elem_of_filter. by apply Hok.
    - by exists lo', hi'. }
  destruct (Hrange c1 Hc1) as (lo1 & hi1 & -> & Hlo1 & Hhi1). simpl_bind.
  destruct (expand_inputs_ok max_file_size v level c1 hi (lo1, hi1) Hv Hl Hmax Hlo1 Hhi1 Hhi Hc1) as (c2 & key & -> & Hkey & Hc2 & Ee).
  simpl_bind. destruct (Hrange c2 Hc2) as (lo2 & hi2 & -> & Hlo2 & Hhi2). simpl_bind. pose proof Hc2 as [F1 F2 F3 F4 F5].
  assert (Hg : ∃ c3, (if level + 2 <? kNumLevels then
         grandparents ← GetOverlappingInputs (input_version_ c2) (level + 2) (Some lo2) (Some hi2);
         Some (set_grandparents c2 grandparents)
       else Some c2) = Some c3 ∧ started v level c3 ∧ edit_ c3 = edit_ c2).
  { unfold kNumLevels. destruct (Z.ltb_spec (level + 2) 7); [|by exists c2]. rewrite F2.
    destruct (overlapping_inputs0 v (level + 2) lo2 hi2 Hv ltac:(lia) Hlo2 Hhi2) as (gs & -> & _). simpl_bind.
    eexists. split; [done|]. split; [|done]. by split. }
  destruct Hg as (c3 & E & Hc3 & Ee3). cbn [fst snd]. rewrite E. simpl_bind. clear E.
  unfold ikey_Encode. rewrite bool_decide_eq_false_2 by (intros ->; apply ikey_wf_long in Hkey; cbn in Hkey; lia).
  simpl_bind. rewrite aset_in by lia. simpl_bind.
  exists (set_edit c3 (SetCompactPointer (edit_ c3) level key)), key. split; [done|].
  destruct Hc3 as [G1 G2 G3 G4 G5]. split; [by split|]. split; [done|]. cbn [edit_ set_edit]. by rewrite Ee3, Ee.
Qed.

Lemma after_pointer_ok pointer files :
  Forall file_range files → ∃ r, after_pointer pointer files = Some r ∧ ∀ f, r = Some f → f ∈ files.
Proof.
  induction 1 as [|f files (_ & Hl & _) _ IH]; cbn [after_pointer]; [by exists None|].
  case_bool_decide; [exists (Some f); split; [done|intros ? [= <-]; by left]|].
  unfold ikey_Encode. rewrite bool_decide_eq_false_2 by (intros E; rewrite E in Hl; apply ikey_wf_long in Hl; cbn in Hl; lia).
  simpl_bind. destruct (_ <? _); [exists (Some f); split; [done|intros ? [= <-]; by left]|].
  destruct IH as (r & Hr & Hin). exists r. split; [done|]. intros g Hg. right. by apply Hin.
Qed.

(** What is chosen has files, and is not in the last level. *)
Definition pick_ok (v : Version) (size_compaction : option Z) : Prop :=
  match size_compaction, file_to_compact_ v with
  | Some level, _ => 0 ≤ level < 6 ∧ ∃ f files, files_ v !! Z.to_nat level = Some (f :: files)
  | None, Some f => 0 ≤ file_to_compact_level_ v < 6 ∧
      ∃ files, files_ v !! Z.to_nat (file_to_compact_level_ v) = Some files ∧ f ∈ files
  | None, None => True
  end.

Lemma PickCompaction_ok (max_file_size : Z) (pointers : list (list Z)) v size_compaction :
  version_ranges v → 0 ≤ max_file_size ∧ 25 * max_file_size < 2 ^ 31 → length pointers = 7%nat → pick_ok v size_compaction →
  (size_compaction = None ∧ file_to_compact_ v = None ∧
     PickCompaction max_file_size pointers v size_compaction = Some (pointers, None)) ∨
  ∃ level c key, PickCompaction max_file_size pointers v size_compaction = Some (<[Z.to_nat level := key]> pointers, Some c) ∧
    0 ≤ level < 6 ∧ started v level c ∧ ikey_wf key ∧ edit_ c = SetCompactPointer NewVersionEdit level key.
Proof.
  intros Hv Hmax Hptr Hpick. unfold PickCompaction.
  assert (Hgo : ∀ level f files, 0 ≤ level < 6 → files_ v !! Z.to_nat level = Some files → f ∈ files →
    ∃ level' c key,
      (inputs0 ← (if level =? 0 then
                   '(smallest, largest) ← GetRange [f];
                   inputs ← GetOverlappingInputs v 0 (Some smallest) (Some largest);
                   if bool_decide (inputs = []) then None else Some inputs
                 else Some [f]);
       let c := set_inputs (NewCompaction max_file_size level v) (inputs0, []) in
       '(pointers, c) ← SetupOtherInputs max_file_size pointers c;
       Some (pointers, Some c)) = Some (<[Z.to_nat level' := key]> pointers, Some c) ∧
      0 ≤ level' < 6 ∧ started v level' c ∧ ikey_wf key ∧ edit_ c = SetCompactPointer NewVersionEdit level' key).
  { intros level f files Hl Hf Hin. pose proof (version_ranges_level v level files Hv Hf) as Hok.
    pose proof (proj1 (Forall_forall _ _) Hok f Hin) as Hfr. pose proof Hfr as (Hs & Hg & _).
    assert (H0 : ∃ inputs0, (if level =? 0 then
                   '(smallest, largest) ← GetRange [f];
                   inputs ← GetOverlappingInputs v 0 (Some smallest) (Some largest);
                   if bool_decide (inputs = []) then None else Some inputs
                 else Some [f]) = Some inputs0 ∧ inputs0_ok v level inputs0).
    { destruct (Z.eqb_spec level 0) as [->|Hne].
      - cbn [GetRange range_of]. simpl_bind.
        destruct (GetOverlappingInputs_ok v 0 files _ _ ltac:(lia) Hf Hok Hs Hg) as (b & e & E & Hb & He & _ & _).
        destruct (overlapping_inputs0 v 0 _ _ Hv ltac:(lia) Hs Hg) as (inputs & E' & Hi). rewrite E'. simpl_bind.
        assert (Hne : inputs ≠ []).
        { rewrite E in E'. injection E' as <-. intros Hnil. apply (not_elem_of_nil f). rewrite <-Hnil.
          apply list_elem_of_filter. split; [|done]. destruct (file_range_users f Hfr) as (_ & _ & Hfl). unfold within.
          pose proof (Compare_anti b (last_user f)). pose proof (Compare_anti (last_user f) b).
          pose proof (Compare_le_lt_trans b (first_user f) (last_user f)).
          pose proof (Compare_eq_l b (first_user f) (last_user f)).
          pose proof (Compare_trans b (first_user f) (last_user f) Hb Hfl).
          pose proof (Compare_trans (first_user f) (last_user f) e Hfl He). lia. }
        rewrite bool_decide_eq_false_2 by done. exists inputs. split; [done|by apply Hi].
      - exists [f]. split; [done|]. split; [done|]. exists files. split; [done|]. split; [|lia].
        by apply singleton_sublist_l. }
    destruct H0 as (inputs0 & -> & Hi). simpl_bind. cbv zeta. set (c0 := set_inputs _ _).
    destruct (SetupOtherInputs_ok max_file_size pointers v level c0 Hv Hl Hmax Hptr) as (c & key & -> & Hc & Hk & Ee); [done..|].
    simpl_bind. by exists level, c, key. }
  unfold pick_ok in Hpick. destruct size_compaction as [level|].
  - right. destruct Hpick as (Hl & f & files & Hf). unfold kNumLevels.
    rewrite (proj2 (Z.leb_le 0 level)), (proj2 (Z.ltb_lt (level + 1) 7)) by lia. cbn [andb].
    unfold aget. rewrite (proj2 (Z.leb_le 0 level)) by lia. rewrite Hf. simpl_bind.
    destruct (lookup_lt_is_Some_2 pointers (Z.to_nat level)) as [ptr ->]; [lia|]. simpl_bind.
    destruct (after_pointer_ok ptr (f :: files) (version_ranges_level v level _ Hv Hf)) as (r & -> & Hr). simpl_bind.
    destruct r as [g|]; simpl_bind; cbn [head]; simpl_bind; [by apply (Hgo level g (f :: files)); auto|].
    apply (Hgo level f (f :: files)); [done|done|by left].
  - destruct (file_to_compact_ v) as [f|]; simpl_bind; cbn [fmap option_fmap option_map]; simpl_bind; [|by left].
    right. destruct Hpick as (Hl & files & Hf & Hin). by apply (Hgo _ f files).
Qed.
End overlap.
