(* ===== verification/CompactionWork.v ===== *)
(** The work of a compaction: [DBImpl::DoCompactionWork] of
    leveldb/db/db_impl.cc merges the entries of the inputs, drops those that
    no reader needs, and writes the others to new tables.

    The first part is about what is dropped, the second about the loop. *)

From Stdlib Require Import ZArith Lia.
From stdpp Require Import base option numbers sets list strings gmap sorting.
From S2P Require Import Prelude Coding Slice WriteBatch DbFormat SkipList SkipListSpec SkipListRefine.
From S2P Require Import MemTable Crc32c Env FileName Iterator TwoLevel Merger Bloom InternalKey BlockSpec TableFormat Table.
From S2P Require Import TableBuildSpec TableFile TableSpec TableTheorems VersionEdit DbIterSpec Version VersionSpec VersionBuilder Compaction.

(** ** What is dropped *)

Record DropState := mkDrop {
  current_user_key : list Z;
  has_current_user_key : bool;
  last_sequence_for_key : Z
}.

Definition no_key : DropState := mkDrop [] false kMaxSequenceNumber.

Section drop.
Context `{P : Port} {C : Comparator}.

(** Whether the entry under [key] is dropped. *)
Definition drop_entry (smallest : Z) (c : Compaction) (d : DropState) (key : list Z)
  : option (Compaction * DropState * bool) :=
  parsed ← ParseInternalKey key;
  match parsed with
  | None => Some (c, no_key, false)
  | Some ikey =>
      let d := if negb (has_current_user_key d) || negb (Compare (user_key ikey) (current_user_key d) =? 0)
               then mkDrop (user_key ikey) true kMaxSequenceNumber else d in
      '(c, drop) ← (if last_sequence_for_key d <=? smallest then Some (c, true)
                    else if (type ikey =? kTypeDeletion) && (sequence ikey <=? smallest)
                    then IsBaseLevelForKey c (user_key ikey)
                    else Some (c, false));
      Some (c, mkDrop (current_user_key d) (has_current_user_key d) (sequence ikey), drop)
  end.

(** The entries that are kept. *)
Fixpoint survivors (smallest : Z) (c : Compaction) (d : DropState) (es : list (list Z * list Z))
  : option (list (list Z * list Z)) :=
  match es with
  | [] => Some []
  | e :: es =>
      '(c, d, drop) ← drop_entry smallest c d e.1;
      rest ← survivors smallest c d es;
      Some (if (drop : bool) then rest else e :: rest)
  end.
End drop.

(** *** The base level *)

Section base.
Context `{P : Port} {C : Comparator} {HC : ComparatorLaws C}.
Implicit Types (f g : FileMetaData) (files : list FileMetaData) (u : list Z).

Abbreviation first_user f := (ikey_user (f_smallest f)).
Abbreviation last_user f := (ikey_user (f_largest f)).

(** The files of a level above 0, by their user keys. *)
Definition user_sorted files : Prop :=
  Forall file_range files ∧ StronglySorted (λ f g, Compare (last_user f) (first_user g) ≤ 0) files.

Definition outside_file u f : Prop := Compare u (first_user f) < 0 ∨ Compare (last_user f) u < 0.

Lemma advance_ptr_ok u rest : ∀ ptr, user_sorted rest →
  ∃ (n : nat) found, advance_ptr u rest ptr = Some (ptr + Z.of_nat n, found) ∧ (n ≤ length rest)%nat ∧
    Forall (λ f, Compare (last_user f) u < 0) (take n rest) ∧
    (found = false → Forall (outside_file u) (drop n rest)).
Proof.
  induction rest as [|f rest IH]; intros ptr [Hok Hs]; cbn [advance_ptr].
  { exists 0%nat, false. rewrite Z.add_0_r. by repeat constructor. }
  apply Forall_cons in Hok as [Hf Hok]. apply StronglySorted_cons in Hs as [Hfs Hs].
  destruct (file_range_users f Hf) as (-> & -> & Hfl). simpl_bind.
  destruct (Z.leb_spec (Compare u (last_user f)) 0) as [Hle|Hgt].
  - exists 0%nat, (0 <=? Compare u (first_user f)). rewrite Z.add_0_r. split; [done|]. split; [lia|]. split; [apply Forall_nil_2|].
    cbn [drop]. intros Hlt%Z.leb_gt. constructor; [by left|]. apply Forall_forall. intros g Hg. left.
    rewrite Forall_forall in Hfs, Hok. apply (Compare_lt_le_trans u (first_user f)); [done|].
    apply (Compare_trans _ (last_user f)); [done|by apply Hfs].
  - destruct (IH (ptr + 1) (conj Hok Hs)) as (n & found & -> & Hn & Hb & Ho). exists (S n), found.
    split; [f_equal; f_equal; lia|]. split; [cbn; lia|]. split; [|done]. cbn [take]. constructor; [|done].
    pose proof (Compare_anti u (last_user f)). lia.
Qed.

(** The files before the pointer are behind us: for all keys [us] to come. *)
Definition ptr_ok (us : list (list Z)) files (ptr : Z) : Prop :=
  user_sorted files ∧ 0 ≤ ptr ≤ Z.of_nat (length files) ∧
  Forall (λ f, Forall (λ u, Compare (last_user f) u < 0) us) (take (Z.to_nat ptr) files).

(** The keys are in order. *)
Definition ascending u (us : list (list Z)) : Prop := Forall (λ u', Compare u u' ≤ 0) us.

Lemma advance_level u us files ptr :
  ascending u us → ptr_ok (u :: us) files ptr →
  ∃ ptr' found, advance_ptr u (drop (Z.to_nat ptr) files) ptr = Some (ptr', found) ∧ ptr_ok (u :: us) files ptr' ∧
    (found = false → Forall (outside_file u) files).
Proof.
  intros Hu ([Hok Hs] & Hp & Hb). rewrite <-(take_drop (Z.to_nat ptr) files) in Hok, Hs.
  apply Forall_app in Hok as [Hok1 Hok2]. pose proof (StronglySorted_app_1_r _ _ _ Hs) as Hs2.
  destruct (advance_ptr_ok u (drop (Z.to_nat ptr) files) ptr (conj Hok2 Hs2)) as (n & found & E & Hn & Hpass & Hout).
  rewrite length_drop in Hn. exists (ptr + Z.of_nat n), found. split; [exact E|]. split.
  - split; [split; [by rewrite <-(take_drop (Z.to_nat ptr) files); apply Forall_app|by rewrite <-(take_drop (Z.to_nat ptr) files)]|].
    split; [lia|]. rewrite Z2Nat.inj_add, Nat2Z.id by lia. rewrite <-take_take_drop. apply Forall_app. split; [done|].
    eapply Forall_impl; [exact Hpass|]. intros f Hf. constructor; [done|]. eapply Forall_impl; [exact Hu|].
    intros u' Hu'. exact (Compare_lt_le_trans _ _ _ Hf Hu').
  - intros Hfound. rewrite <-(take_drop (Z.to_nat ptr) files). apply Forall_app. split.
    + eapply Forall_impl; [exact Hb|]. intros f Hf. right. by apply Forall_cons in Hf as [Hf _].
    + rewrite <-(take_drop n (drop _ files)). apply Forall_app. split; [|by apply Hout].
      eapply Forall_impl; [exact Hpass|]. intros f Hf. by right.
Qed.

Lemma base_levels_ok u us levels ptrs :
  ascending u us → Forall2 (ptr_ok (u :: us)) levels ptrs →
  ∃ ptrs' base, base_levels u levels ptrs = Some (ptrs', base) ∧ Forall2 (ptr_ok (u :: us)) levels ptrs' ∧
    (base = true → Forall (Forall (outside_file u)) levels).
Proof.
  intros Hu. induction 1 as [|files ptr levels ptrs Hf Hr IH]; cbn [base_levels].
  { by exists [], true. }
  destruct (advance_level u us files ptr Hu Hf) as (ptr' & found & -> & Hp & Hout). simpl_bind.
  destruct found; [exists (ptr' :: ptrs), false; split; [done|]; split; [by constructor|done]|].
  destruct IH as (ptrs' & base & -> & Hps & Hbase). simpl_bind. exists (ptr' :: ptrs'), base.
  split; [done|]. split; [by constructor|]. intros E. constructor; auto.
Qed.

(** The pointers of a compaction, for the keys to come. *)
Definition base_state (v : Version) (level : Z) (us : list (list Z)) (c : Compaction) : Prop :=
  level_ c = level ∧ input_version_ c = v ∧
  Forall2 (ptr_ok us) (drop (Z.to_nat (level + 2)) (files_ v)) (drop (Z.to_nat (level + 2)) (level_ptrs_ c)).

Definition base_level (v : Version) (level : Z) u : Prop :=
  Forall (Forall (outside_file u)) (drop (Z.to_nat (level + 2)) (files_ v)).

Lemma ptr_ok_tail u us files ptr : ptr_ok (u :: us) files ptr → ptr_ok us files ptr.
Proof.
  intros (H1 & H2 & H3). split; [done|]. split; [done|]. eapply Forall_impl; [exact H3|]. intros f Hf. by apply Forall_cons in Hf as [_ Hf].
Qed.

Lemma base_state_tail v level u us c : base_state v level (u :: us) c → base_state v level us c.
Proof.
  intros (H1 & H2 & H3). split; [done|]. split; [done|]. eapply Forall2_impl; [exact H3|]. intros files ptr. apply ptr_ok_tail.
Qed.

Lemma IsBaseLevelForKey_ok v level u us c :
  0 ≤ level → ascending u us → base_state v level (u :: us) c →
  ∃ c' base, IsBaseLevelForKey c u = Some (c', base) ∧ base_state v level (u :: us) c' ∧ (base = true → base_level v level u) ∧
    ∃ ptrs, c' = set_ptrs c ptrs.
Proof.
  intros Hl Hu (E1 & E2 & Hp). unfold IsBaseLevelForKey. rewrite E1, E2.
  destruct (base_levels_ok u us _ _ Hu Hp) as (ptrs & base & -> & Hps & Hbase). simpl_bind.
  eexists _, base. split; [done|]. split; [|split; [done|by eexists]]. split; [done|]. split; [done|].
  cbn [level_ptrs_ set_ptrs]. destruct (decide (Z.to_nat (level + 2) ≤ length (level_ptrs_ c))%nat) as [Hle|Hgt].
  - rewrite drop_app_length' by (rewrite length_take; lia). done.
  - rewrite (take_ge _ (Z.to_nat (level + 2))) by lia. rewrite (drop_ge (level_ptrs_ c)) in Hp by lia.
    apply Forall2_nil_inv_r in Hp. rewrite Hp in Hps |- *. apply Forall2_nil_inv_l in Hps. subst ptrs.
    rewrite app_nil_r, drop_ge by lia. constructor.
Qed.
End base.

(** *** The entries that are kept *)

Section survivors.
Context `{P : Port} {C : Comparator} {HC : ComparatorLaws C}.
Context (v : Version) (level smallest : Z) (Hlevel : 0 ≤ level) (HS : smallest < kMaxSequenceNumber).
Implicit Types (e p q : list Z * list Z) (es pre : list (list Z * list Z)) (c : Compaction) (d : DropState).

Abbreviation user e := (ikey_user e.1).
Abbreviation users es := ((λ e : list Z * list Z, ikey_user e.1) <$> es).

(** A newer entry of the key is in the list that every reader sees. *)
Definition hidden (all : list (list Z * list Z)) e : Prop :=
  ∃ p, p ∈ all ∧ Compare (user p) (user e) = 0 ∧ ikey_seq p.1 ≤ smallest ∧ icmp_Compare C p.1 e.1 < 0.

(** A deletion that every reader sees, and nothing below it to delete. *)
Definition obsolete e : Prop :=
  ikey_type e.1 = kTypeDeletion ∧ ikey_seq e.1 ≤ smallest ∧ base_level v level (user e).

Definition drop_state_ok pre d : Prop :=
  match last pre with
  | None => d = no_key
  | Some p => has_current_user_key d = true ∧ Compare (current_user_key d) (user p) = 0 ∧
      last_sequence_for_key d = ikey_seq p.1
  end.

Lemma drop_entry_ok pre d c e es :
  ikey_wf e.1 → drop_state_ok pre d → base_state v level (user e :: users es) c → ascending (user e) (users es) →
  ∃ c' d' drop, drop_entry smallest c d e.1 = Some (c', d', drop) ∧ base_state v level (users es) c' ∧ drop_state_ok (pre ++ [e]) d' ∧
    (drop = true → (∃ p, last pre = Some p ∧ Compare (user p) (user e) = 0 ∧ ikey_seq p.1 ≤ smallest) ∨ obsolete e) ∧
    (drop = false → ∀ p, last pre = Some p → Compare (user p) (user e) = 0 → smallest < ikey_seq p.1).
Proof.
  intros He Hd Hc Hasc. unfold drop_entry. rewrite (proj1 (ikey_wf_parse e.1 He)). simpl_bind. cbn [user_key sequence type].
  set (d1 := if _ : bool then mkDrop (user e) true kMaxSequenceNumber else d).
  assert (Hd1 : has_current_user_key d1 = true ∧ Compare (current_user_key d1) (user e) = 0 ∧
    last_sequence_for_key d1 = match last pre with
      | Some p => if decide (Compare (user p) (user e) = 0) then ikey_seq p.1 else kMaxSequenceNumber
      | None => kMaxSequenceNumber end).
  { unfold d1, drop_state_ok in *. destruct (last pre) as [p|]; [|subst d; split; [done|]; split; [apply Compare_refl|done]].
    destruct Hd as (Hh & Hk & Hs). rewrite Hh. cbn [negb orb]. pose proof (Compare_eq_l (current_user_key d) (user p) (user e) Hk) as Hsgn.
    pose proof (Compare_anti (user e) (current_user_key d)) as Han.
    destruct (Z.eqb_spec (Compare (user e) (current_user_key d)) 0) as [E|E]; cbn [negb].
    - rewrite decide_True by lia. split; [done|]. by split; [lia|].
    - rewrite decide_False by lia. split; [done|]. split; [apply Compare_refl|done]. }
  clearbody d1. destruct Hd1 as (Hhas & Hkey & Hseq).
  assert (Hrun : ∃ c' drop, (if last_sequence_for_key d1 <=? smallest then Some (c, true)
                    else if (ikey_type e.1 =? kTypeDeletion) && (ikey_seq e.1 <=? smallest)
                    then IsBaseLevelForKey c (user e) else Some (c, false)) = Some (c', drop) ∧
    base_state v level (user e :: users es) c' ∧
    (drop = true → last_sequence_for_key d1 ≤ smallest ∨ obsolete e) ∧ (drop = false → smallest < last_sequence_for_key d1)).
  { destruct (Z.leb_spec (last_sequence_for_key d1) smallest) as [Hle|Hgt].
    { exists c, true. split; [done|]. split; [done|]. split; [by left|done]. }
    destruct (_ && _) eqn:E; [|exists c, false; by split_and!].
    apply andb_true_iff in E as [E1%Z.eqb_eq E2%Z.leb_le].
    destruct (IsBaseLevelForKey_ok v level (user e) (users es) c Hlevel Hasc Hc) as (c' & base & -> & Hc' & Hb & _).
    exists c', base. split; [done|]. split; [done|]. split; [|lia]. intros Eb. right. split; [done|]. split; [done|by apply Hb]. }
  destruct Hrun as (c' & drop & -> & Hc' & Ht & Hf). simpl_bind. eexists c', _, drop. split; [done|].
  split; [by eapply base_state_tail|]. split; [|split].
  - unfold drop_state_ok. by rewrite last_snoc.
  - intros E. destruct (Ht E) as [Hle|]; [left|by right]. rewrite Hseq in Hle. destruct (last pre) as [p|]; [|lia].
    destruct (decide _); [by exists p|lia].
  - intros E p Hp Hsame. specialize (Hf E). rewrite Hseq, Hp, decide_True in Hf by done. done.
Qed.

Lemma sorted_users e es : internal_entries (e :: es) → ascending (user e) (users es).
Proof.
  intros [Hwf Hs]. apply Forall_cons in Hwf as [He Hwf]. apply StronglySorted_cons in Hs as [Hlt _].
  apply Forall_fmap. rewrite Forall_forall in *. intros x Hx. cbn. apply key_before_user; [done|by apply Hwf|].
  specialize (Hlt x Hx). unfold key_lt in Hlt. cbn [Compare InternalKeyComparator] in Hlt. lia.
Qed.

(** The last entry before [e] hides it if one does. *)
Lemma hidden_last pre e es p :
  internal_entries (pre ++ e :: es) → last pre = Some p → hidden (pre ++ e :: es) e →
  Compare (user p) (user e) = 0 ∧ ikey_seq p.1 ≤ smallest.
Proof.
  intros Hi Hp (q & Hq & Hsame & Hseq & Hlt). pose proof Hi as [Hwf _]. rewrite Forall_forall in Hwf.
  assert (Hpe : icmp_Compare C p.1 e.1 < 0).
  { apply internal_entries_app in Hi as (_ & _ & Hx). apply Hx; [by apply last_Some_elem_of|by left]. }
  assert (Hqp : icmp_Compare C q.1 p.1 ≤ 0).
  { apply last_Some in Hp as [pre' ->]. rewrite <-app_assoc in Hi, Hq. apply elem_of_app in Hq as [Hq|Hq].
    - apply internal_entries_app in Hi as (_ & _ & Hx). specialize (Hx q p Hq). apply Z.lt_le_incl, Hx. by left.
    - cbn [app] in Hq. apply elem_of_cons in Hq as [->|Hq]; [pose proof (icmp_anti C p.1 p.1); lia|].
      exfalso. apply internal_entries_app in Hi as (_ & Hi & _). destruct Hi as [_ [_ Hs]%StronglySorted_cons].
      apply StronglySorted_cons in Hs as [Hs _]. apply elem_of_cons in Hq as [->|Hq].
      + pose proof (icmp_anti C e.1 e.1). lia.
      + rewrite Forall_forall in Hs. specialize (Hs q Hq). unfold key_lt in Hs. cbn [Compare InternalKeyComparator] in Hs.
        pose proof (icmp_anti C e.1 q.1). lia. }
  assert (Wp : ikey_wf p.1) by (apply Hwf, elem_of_app; left; by apply last_Some_elem_of).
  assert (We : ikey_wf e.1) by (apply Hwf, elem_of_app; right; by left). pose proof (Hwf q Hq) as Wq.
  pose proof (key_before_user p.1 e.1 Wp We (Z.lt_le_incl _ _ Hpe)) as U1. pose proof (key_before_user q.1 p.1 Wq Wp Hqp) as U2.
  pose proof (Compare_eq_l (user q) (user e) (user p) Hsame) as U3.
  pose proof (Compare_anti (user e) (user p)) as U4. split; [lia|].
  destruct (decide (icmp_Compare C q.1 p.1 = 0)) as [E|Hne].
  - rewrite icmp_long in E by (by apply ikey_wf_long). unfold ikey_cmp in E.
    destruct (Z.eqb_spec (Compare (user q) (user p)) 0); [|lia].
    assert (Et : ikey_tag q.1 = ikey_tag p.1) by (destruct (Z.ltb_spec (ikey_tag p.1) (ikey_tag q.1)), (Z.ltb_spec (ikey_tag q.1) (ikey_tag p.1)); lia).
    unfold ikey_seq in *. by rewrite <-Et.
  - assert (Hlt' : icmp_Compare C q.1 p.1 < 0) by lia. assert (Huq : Compare (user q) (user p) = 0) by lia.
    pose proof (key_before_tag q.1 p.1 Wq Wp Hlt' Huq) as Ht. unfold ikey_seq in *.
    etrans; [|exact Hseq]. rewrite !Z.shiftr_div_pow2 by lia. apply Z.div_le_mono; [done|]. by apply Z.lt_le_incl.
Qed.

Lemma survivors_ok es : ∀ pre c d,
  internal_entries (pre ++ es) → drop_state_ok pre d → base_state v level (users es) c →
  ∃ out, survivors smallest c d es = Some out ∧ sublist out es ∧
    (∀ e, e ∈ es → e ∈ out ∨ hidden (pre ++ es) e ∨ obsolete e) ∧ (∀ e, e ∈ out → ¬ hidden (pre ++ es) e).
Proof.
  induction es as [|e es IH]; intros pre c d Hi Hd Hc; cbn [survivors].
  { exists []. split; [done|]. split; [done|]. split; intros e He; by apply not_elem_of_nil in He. }
  pose proof Hi as (_ & Hie & Hx)%internal_entries_app. pose proof Hie as [[He _]%Forall_cons _].
  destruct (drop_entry_ok pre d c e es He Hd Hc (sorted_users e es Hie)) as (c' & d' & drop & -> & Hc' & Hd' & Ht & Hf).
  simpl_bind. destruct (IH (pre ++ [e]) c' d') as (out & -> & Hsub & Hkeep & Hnot); [by rewrite <-app_assoc|done|done|].
  rewrite <-app_assoc in Hkeep, Hnot. cbn [app] in Hkeep, Hnot. simpl_bind.
  assert (Hnew : drop = false → ¬ hidden (pre ++ e :: es) e).
  { intros E Hh. destruct (last pre) as [p|] eqn:Ep.
    - destruct (hidden_last pre e es p Hi Ep Hh) as [H1 H2]. specialize (Hf E p eq_refl H1). lia.
    - apply last_None in Ep as ->. destruct Hh as (q & Hq & _ & _ & Hlt). cbn [app] in *. destruct Hi as [_ [Hs _]%StronglySorted_cons].
      apply elem_of_cons in Hq as [->|Hq]; [pose proof (icmp_anti C e.1 e.1); lia|].
      rewrite Forall_forall in Hs. specialize (Hs q Hq). unfold key_lt in Hs. cbn [Compare InternalKeyComparator] in Hs.
      pose proof (icmp_anti C e.1 q.1). lia. }
  eexists. split; [done|]. destruct drop.
  - split; [by apply sublist_cons|]. split; [|done]. intros x [->|Hx']%elem_of_cons; [|by apply Hkeep].
    destruct (Ht eq_refl) as [(p & Hp & Hsame & Hs)|]; [|by right; right]. right. left. exists p.
    split; [apply elem_of_app; left; by apply last_Some_elem_of|]. split; [done|]. split; [done|].
    apply Hx; [by apply last_Some_elem_of|by left].
  - split; [by apply sublist_skip|]. split.
    + intros x [->|Hx']%elem_of_cons; [left; by left|]. destruct (Hkeep x Hx') as [|?]; [left; by right|by right].
    + intros x [->|Hx']%elem_of_cons; [by apply Hnew|by apply Hnot].
Qed.
End survivors.

(** ** The results *)

Record Output := mkOutput { o_number : Z; o_file_size : Z; o_smallest : list Z; o_largest : list Z }.

(** The edit of [InstallCompactionResults]. *)
Definition results_edit (c : Compaction) (outputs : list Output) : VersionEdit :=
  foldl (λ edit out, AddFile edit (level_ c + 1) (o_number out) (o_file_size out) (o_smallest out) (o_largest out))
    (AddInputDeletions c (edit_ c)) outputs.

(** ** The loop *)

(** What the loop uses of the environment and of the table cache:
    [NewWritableFile] and [Close] by the name of the file, and
    [TableCache::NewIterator] for its status.  [shared_turn] is what happens
    to the files, the next file number and [pending_outputs_] at the beginning
    of a turn: [CompactMemTable], when there is a full memtable, and the work
    of other threads, since the mutex is free. *)
Class OutputStore (ST W : Type) := {
  store_NewWritableFile : ST → list Z → option (ST * (Status + W));
  store_Close : ST → list Z → W → option (ST * Status);
  store_NewIterator : ST → Z → Z → option (ST * Status);
  shared_turn : nat → ST → Z → gset Z → option (ST * Z * gset Z)
}.

(** [builder] is the table builder with its [outfile]. *)
Record CompactionState (W : Type) := mkCompactionState {
  compaction : Compaction;
  cs_smallest_snapshot : Z;
  outputs : list Output;
  builder : option (Rep W);
  total_bytes : Z
}.
Arguments mkCompactionState {W}.
Arguments compaction {W}.
Arguments cs_smallest_snapshot {W}.
Arguments outputs {W}.
Arguments builder {W}.
Arguments total_bytes {W}.

(** With what the loop keeps besides: [next_file_number_] and
    [pending_outputs_] of the database, the input and the last user key. *)
Record WorkState (ST W T : Type) := mkWork {
  compact : CompactionState W;
  store : ST;
  next_file_number : Z;
  pending_outputs : gset Z;
  input : T;
  drop_state : DropState
}.
Arguments mkWork {ST W T}.
Arguments compact {ST W T}.
Arguments store {ST W T}.
Arguments next_file_number {ST W T}.
Arguments pending_outputs {ST W T}.
Arguments input {ST W T}.
Arguments drop_state {ST W T}.

Section work.
Context `{P : Port} {C : Comparator} `{WritableFile W} `{Env.Crc32c} `{Iterator T} `{OutputStore ST W}.
Context (dbname : list Z) (options : Options) (max_file_size : Z).
Implicit Types (w : WorkState ST W T) (cs : CompactionState W).

Definition set_outputs cs (outs : list Output) (b : option (Rep W)) (bytes : Z) : CompactionState W :=
  mkCompactionState (compaction cs) (cs_smallest_snapshot cs) outs b bytes.

Definition set_compaction cs (c : Compaction) : CompactionState W :=
  mkCompactionState c (cs_smallest_snapshot cs) (outputs cs) (builder cs) (total_bytes cs).

Definition set_compact w cs : WorkState ST W T :=
  mkWork cs (store w) (next_file_number w) (pending_outputs w) (input w) (drop_state w).

Definition set_store w (st : ST) : WorkState ST W T :=
  mkWork (compact w) st (next_file_number w) (pending_outputs w) (input w) (drop_state w).

(** [NewFileNumber]; the size of the output is not set yet. *)
Definition OpenCompactionOutputFile w : option (WorkState ST W T * Status) :=
  let cs := compact w in
  match builder cs with
  | Some _ => None (* assert *)
  | None =>
      let file_number := next_file_number w in
      let outs := outputs cs ++ [mkOutput file_number 0 ikey_Clear ikey_Clear] in
      fname ← TableFileName dbname file_number;
      '(st, r) ← store_NewWritableFile (store w) fname;
      let w' b := mkWork (set_outputs cs outs b (total_bytes cs)) st (u64 (file_number + 1))
                    ({[file_number]} ∪ pending_outputs w) (input w) (drop_state w) in
      match r with
      | inl s => Some (w' None, s)
      | inr f => b ← NewTableBuilder options f; Some (w' (Some b), OK)
      end
  end.

(** The last output, changed. *)
Definition current_output (outs : list Output) (g : Output → Output) : option (list Output) :=
  out ← last outs; Some (removelast outs ++ [g out]).

Definition set_size (size : Z) (o : Output) : Output := mkOutput (o_number o) size (o_smallest o) (o_largest o).

Definition FinishCompactionOutputFile w : option (WorkState ST W T * Status) :=
  let cs := compact w in
  match builder cs with
  | None => None (* assert *)
  | Some b =>
      out ← last (outputs cs);
      if o_number out =? 0 then None (* assert *)
      else
        s ← i_status (input w);
        let current_entries := NumEntries b in
        '(b, s) ← (if ok s then tb_Finish (C := InternalKeyComparator C) b else b ← tb_Abandon b; Some (b, s));
        let current_bytes := FileSize b in
        outs ← current_output (outputs cs) (set_size current_bytes);
        let cs := set_outputs cs outs None (u64 (total_bytes cs + current_bytes)) in
        let outfile := rep_file b in
        '(outfile, s) ← (if ok s then file_Sync outfile else Some (outfile, s));
        '(st, s) ← (if ok s then
                      fname ← TableFileName dbname (o_number out);
                      store_Close (store w) fname outfile
                    else Some (store w, s));
        '(st, s) ← (if ok s && (0 <? current_entries)
                    then store_NewIterator st (o_number out) current_bytes else Some (st, s));
        Some (set_store (set_compact w cs) st, s)
  end.

Definition set_keys (key : list Z) (first : bool) (o : Output) : Output :=
  mkOutput (o_number o) (o_file_size o) (if first then ikey_DecodeFrom key else o_smallest o) (ikey_DecodeFrom key).

(** An entry that is not dropped. *)
Definition add_entry w (key : list Z) : option (WorkState ST W T * Status) :=
  '(w, status) ← (match builder (compact w) with
                  | None => OpenCompactionOutputFile w
                  | Some _ => Some (w, OK)
                  end);
  if negb (ok status) then Some (w, status)
  else
    let cs := compact w in
    b ← builder cs;
    outs ← current_output (outputs cs) (set_keys key (NumEntries b =? 0));
    value ← i_value (input w);
    b ← tb_Add (C := InternalKeyComparator C) b key value;
    let w := set_compact w (set_outputs cs outs (Some b) (total_bytes cs)) in
    if max_output_file_size_ (compaction cs) <=? FileSize b then FinishCompactionOutputFile w else Some (w, OK).

(** One turn of the loop, up to the last [Next]; an error leaves the loop. *)
Definition work_entry w : option (WorkState ST W T * Status) :=
  key ← i_key (input w);
  '(c, stop) ← ShouldStopBefore max_file_size (compaction (compact w)) key;
  let w := set_compact w (set_compaction (compact w) c) in
  '(w, status) ← (if stop && bool_decide (is_Some (builder (compact w)))
                  then FinishCompactionOutputFile w else Some (w, OK));
  if negb (ok status) then Some (w, status)
  else
    '(c, d, drop) ← drop_entry (cs_smallest_snapshot (compact w)) (compaction (compact w)) (drop_state w) key;
    let w := mkWork (set_compaction (compact w) c) (store w) (next_file_number w) (pending_outputs w) (input w) d in
    if (drop : bool) then Some (w, OK) else add_entry w key.

(** [shutdown] is the turn at which [shutting_down_] is found set, if it is;
    a number greater than that of the turns stands for the time after the
    loop. *)
Definition running (shutdown : option nat) (turn : nat) : bool :=
  match shutdown with None => true | Some n => (turn <? n)%nat end.

Fixpoint work_loop (fuel : nat) (shutdown : option nat) (turn : nat) w : option (WorkState ST W T * Status) :=
  if i_Valid (input w) && running shutdown turn then
    match fuel with
    | O => None
    | S fuel =>
        '(st, next, pending) ← shared_turn turn (store w) (next_file_number w) (pending_outputs w);
        '(w, status) ← work_entry (mkWork (compact w) st next pending (input w) (drop_state w));
        if negb (ok status) then Some (w, status)
        else
          it ← i_Next (input w);
          work_loop fuel shutdown (S turn)
            (mkWork (compact w) (store w) (next_file_number w) (pending_outputs w) it (drop_state w))
    end
  else Some (w, OK).

(** The work up to [InstallCompactionResults].  [files] is the number of files
    of the level. *)
Definition DoCompactionWork (fuel : nat) (shutdown : option nat) (files : Z) (c : Compaction) (smallest : Z)
    (st : ST) (next : Z) (pending : gset Z) (it : T) : option (WorkState ST W T * Status) :=
  if negb (0 <? files) then None (* assert *)
  else
    it ← i_SeekToFirst it;
    let w := mkWork (mkCompactionState c smallest [] None 0) st next pending it no_key in
    '(w, status) ← work_loop fuel shutdown 0 w;
    let stopped := match shutdown with Some _ => true | None => false end in
    let status := if ok status && stopped then IOError "Deleting DB during compaction" else status in
    '(w, status) ← (if ok status && bool_decide (is_Some (builder (compact w)))
                    then FinishCompactionOutputFile w else Some (w, status));
    status ← (if ok status then i_status (input w) else Some status);
    Some (w, status).
End work.

(** ** What the loop makes *)

(** [stored st n data]: the file of table [n] has been closed with the bytes
    [data]; finished tables can be opened.  In a turn at most [store_gap] file
    numbers are taken for other files. *)
Class OutputStoreLaws `{P : Port} {C : Comparator} {NB : Neighbours (InternalKeyComparator C)} (ST W : Type)
    `{WritableFileLaws W} `{OutputStore ST W} (dbname : list Z) (options : Options) := {
  stored : ST → Z → list Z → Prop;
  store_create st n name : 0 < n < 2 ^ 64 → TableFileName dbname n = Some name →
    ∃ st' f, store_NewWritableFile st name = Some (st', inr f) ∧ writable f ∧ contents f = [] ∧
      ∀ n' data, n' ≠ n → stored st n' data → stored st' n' data;
  store_close st n name f : 0 < n < 2 ^ 64 → TableFileName dbname n = Some name → writable f →
    ∃ st', store_Close st name f = Some (st', OK) ∧ stored st' n (contents f) ∧
      ∀ n' data, n' ≠ n → stored st n' data → stored st' n' data;
  store_open st n data es hs blocks ies footer : stored st n data →
    table_file (C := InternalKeyComparator C) options data es hs blocks ies footer →
    ∃ st', store_NewIterator st n (Z.of_nat (length data)) = Some (st', OK) ∧
      ∀ n' d, stored st n' d → stored st' n' d;
  store_gap : Z;
  store_gap_pos : 0 ≤ store_gap;
  store_turn turn st next pending : 0 < next → next + store_gap < 2 ^ 64 →
    ∃ st' next' pending', shared_turn turn st next pending = Some (st', next', pending') ∧
      next ≤ next' ≤ next + store_gap ∧ ∀ n d, stored st n d → stored st' n d
}.

Section outputs.
Context `{P : Port} {C : Comparator} {HC : ComparatorLaws C}.
Context `{WritableFileLaws W} `{!Reliable W} `{Crc32cLaws} `{OutputStore ST W}.
Context `{Iterator T} {HI : IteratorLaws (C := InternalKeyComparator C) T}.
Context (dbname : list Z) (options : Options) {HO : OutputStoreLaws ST W dbname options} (B : nat).
Context (Hoptions : options_ok options B) (HB : Z.of_nat B < 2 ^ 31).
Context (max_file_size : Z) (Hmax : 0 ≤ max_file_size ∧ 25 * max_file_size < 2 ^ 31).
Implicit Types (b : Rep W) (es cur : list (list Z * list Z)) (w : WorkState ST W T).

Abbreviation icmp := (InternalKeyComparator C).

(** *** The builder *)

Definition building b es : Prop :=
  ∃ hs blocks cur ies, tb_inv (C := icmp) options B b hs blocks cur ies ∧ concat blocks ++ cur = es.

Definition can_add es : Prop :=
  keys_sorted (C := icmp) es ∧ Forall (λ e, str_ok e.1 ∧ str_ok e.2) es ∧ small B es.

Lemma building_new (f : W) : writable f → contents f = [] →
  ∃ b, NewTableBuilder options f = Some b ∧ building b [].
Proof.
  intros Hw Hc. destruct (NewTableBuilder_inv (C := icmp) options B Hoptions f Hw Hc) as (b & E & Hi & _).
  exists b. split; [done|]. by exists [], [], [], [].
Qed.

Lemma building_count b es : building b es → NumEntries b = Z.of_nat (length es).
Proof. intros (hs & blocks & cur & ies & Hi & <-). exact (ti_num _ _ _ _ _ _ _ Hi). Qed.

Lemma building_add b es e : building b es → can_add (es ++ [e]) →
  ∃ b', tb_Add (C := icmp) b e.1 e.2 = Some b' ∧ building b' (es ++ [e]).
Proof.
  intros (hs & blocks & cur & ies & Hi & <-) (Hs & Hstr & Hsm). destruct e as [k v]. cbn [fst snd] in *.
  apply Forall_app in Hstr as [_ [[Hk Hv] _]%Forall_cons].
  destruct (tb_Add_inv (C := icmp) options B Hoptions b hs blocks cur ies k v Hi Hs Hk Hv Hsm) as (b' & hs' & blocks' & cur' & ies' & E & Hi' & Ec).
  exists b'. split; [done|]. by exists hs', blocks', cur', ies'.
Qed.

Lemma building_finish b es : building b es → can_add es →
  ∃ b' hs blocks ies footer, tb_Finish (C := icmp) b = Some (b', OK) ∧ writable (rep_file b') ∧
    FileSize b' = Z.of_nat (length (contents (rep_file b'))) ∧
    table_file (C := icmp) options (contents (rep_file b')) es hs blocks ies footer.
Proof.
  intros (hs & blocks & cur & ies & Hi & <-) (Hs & _ & Hsm).
  destruct (tb_Finish_ok (C := icmp) options B Hoptions b hs blocks cur ies Hi Hs Hsm HB)
    as (b' & hs' & blocks' & ies' & footer & E & Hf & _ & _ & Ht).
  destruct Hf as (_ & _ & _ & Hw & Hoff). by exists b', hs', blocks', ies', footer.
Qed.

(** *** Finished outputs *)

Definition finished (st : ST) (out : Output) es : Prop :=
  es ≠ [] ∧ fst <$> head es = Some (o_smallest out) ∧ fst <$> last es = Some (o_largest out) ∧
  ∃ data hs blocks ies footer, stored st (o_number out) data ∧ o_file_size out = Z.of_nat (length data) ∧
    table_file (C := icmp) options data es hs blocks ies footer.

(** The output under way: [size] is not set yet. *)
Definition under_way (out : Output) es : Prop :=
  es ≠ [] ∧ fst <$> head es = Some (o_smallest out) ∧ fst <$> last es = Some (o_largest out).

Lemma finished_keeps st st' out es :
  (∀ data, stored st (o_number out) data → stored st' (o_number out) data) → finished st out es → finished st' out es.
Proof.
  intros Hk (F1 & F2 & F3 & data & hs & blocks & ies & footer & Hst & Hsz & Ht). split; [done|]. split; [done|]. split; [done|].
  exists data, hs, blocks, ies, footer. split; [by apply Hk|done].
Qed.

Lemma finished_all_keep st st' outs groups :
  Forall (λ o, ∀ data, stored st (o_number o) data → stored st' (o_number o) data) outs →
  Forall2 (finished st) outs groups → Forall2 (finished st') outs groups.
Proof.
  intros Hn Hf. induction Hf as [|o g outs groups Ho _ IH]; [constructor|]. apply Forall_cons in Hn as [Hk Hn].
  constructor; [by apply (finished_keeps st)|by apply IH].
Qed.

(** *** The state between the turns *)

Context (first smallest : Z) (kept : list (list Z * list Z)) (Hfirst : 0 < first) (Hkept : can_add kept).

(** The numbers of the outputs, and the next one. *)
Definition numbers_ok (ns : list Z) (next : Z) : Prop :=
  StronglySorted Z.lt ns ∧ Forall (λ n, first ≤ n < next) ns ∧ first ≤ next < 2 ^ 64.

(** What [InstallCompactionResults] reads of the compaction stays as it is. *)
Context (c0 : Compaction).

Definition same_work (c : Compaction) : Prop := level_ c = level_ c0 ∧ inputs_ c = inputs_ c0 ∧ edit_ c = edit_ c0.

(** [rest] is what of the remaining entries [rem] will be kept. *)
Record work_inv w es (i : nat) (rem : list (list Z * list Z)) (groups : list (list (list Z * list Z))) cur rest : Prop := {
  wi_input : positioned (C := icmp) (input w) es i;
  wi_rest : survivors smallest (compaction (compact w)) (drop_state w) rem = Some rest;
  wi_kept : kept = concat groups ++ cur ++ rest;
  wi_same : same_work (compaction (compact w));
  wi_smallest : cs_smallest_snapshot (compact w) = smallest;
  wi_numbers : numbers_ok (o_number <$> outputs (compact w)) (next_file_number w);
  wi_files : match builder (compact w) with
    | None => cur = [] ∧ Forall2 (finished (store w)) (outputs (compact w)) groups
    | Some b => building b cur ∧ ∃ outs o, outputs (compact w) = outs ++ [o] ∧ under_way o cur ∧ Forall2 (finished (store w)) outs groups
    end
}.

Lemma can_add_mid (a m z : list (list Z * list Z)) : can_add (a ++ m ++ z) → can_add m.
Proof.
  intros (Hs & Hstr & Hsm). unfold keys_sorted in Hs. split; [|split].
  - apply StronglySorted_app_1_r in Hs. by apply StronglySorted_app_1_l in Hs.
  - by apply Forall_app in Hstr as [_ [Hstr _]%Forall_app].
  - unfold small in *. rewrite !weight_app in Hsm. lia.
Qed.

Lemma numbers_last ns n next :
  numbers_ok (ns ++ [n]) next → 0 < n < 2 ^ 64 ∧ Forall (λ n', n' ≠ n) ns ∧ numbers_ok ns next.
Proof.
  intros (Hs & Hr & Hn). apply Forall_app in Hr as [Hr Hrn]. apply Forall_cons in Hrn as [Hrn _]. split; [lia|]. split.
  - apply Forall_forall. intros x Hx. enough (x < n) by lia.
    eapply StronglySorted_app_1_elem_of; [exact Hs|done|by left].
  - split; [by apply StronglySorted_app_1_l in Hs|by split].
Qed.

Lemma numbers_snoc ns next : numbers_ok ns next → next + 1 < 2 ^ 64 → numbers_ok (ns ++ [next]) (next + 1).
Proof.
  intros (Hs & Hr & Hn) Hb. split; [|split; [|lia]].
  - apply StronglySorted_app_2; [|done|by repeat constructor]. intros x y Hx ->%list_elem_of_singleton.
    rewrite Forall_forall in Hr. by apply Hr.
  - apply Forall_app. split; [eapply Forall_impl; [exact Hr|cbn; lia]|]. constructor; [lia|done].
Qed.

Lemma numbers_more ns next next' : numbers_ok ns next → next ≤ next' < 2 ^ 64 → numbers_ok ns next'.
Proof. intros (Hs & Hr & Hn) Hb. split; [done|]. split; [eapply Forall_impl; [exact Hr|cbn; lia]|lia]. Qed.

Lemma TableFileName_some n : 0 < n < 2 ^ 64 → ∃ name, TableFileName dbname n = Some name.
Proof.
  intros Hn. unfold TableFileName. rewrite (proj2 (Z.ltb_lt 0 n)) by lia. eauto.
Qed.

Lemma removelast_last {A} (l : list A) x : removelast (l ++ [x]) = l.
Proof. apply List.removelast_last. Qed.

Lemma current_output_last (outs : list Output) o g : current_output (outs ++ [o]) g = Some (outs ++ [g o]).
Proof. unfold current_output. rewrite last_snoc. simpl_bind. by rewrite removelast_last. Qed.

(** *** Finishing an output *)

Lemma Finish_ok w es i rem groups cur rest b :
  work_inv w es i rem groups cur rest → builder (compact w) = Some b →
  ∃ w', FinishCompactionOutputFile dbname w = Some (w', OK) ∧ work_inv w' es i rem (groups ++ [cur]) [] rest ∧
    next_file_number w' = next_file_number w ∧ builder (compact w') = None ∧ compaction (compact w') = compaction (compact w) ∧ drop_state w' = drop_state w ∧ input w' = input w.
Proof.
  intros Hw Eb. destruct Hw as [Hin Hrest Hk Hsame Hsm Hnum Hf].
  unfold FinishCompactionOutputFile. rewrite Eb in *. destruct Hf as (Hb & outs & o & Eo & Hu & Hfin). rewrite Eo in *.
  rewrite last_snoc. simpl_bind. rewrite fmap_app in Hnum. destruct (numbers_last (o_number <$> outs) (o_number o) _ Hnum) as (Hrange & Hne & _).
  rewrite (proj2 (Z.eqb_neq (o_number o) 0)) by lia.
  destruct (positioned_entry (C := icmp) _ _ _ Hin) as (_ & _ & _ & Est). rewrite Est. simpl_bind. cbn [ok].
  destruct (building_finish b cur Hb) as (b' & hs & blocks & ies & footer & -> & Hwr & Hsz & Ht).
  { rewrite Hk in Hkept. by apply can_add_mid in Hkept. }
  simpl_bind. rewrite current_output_last. simpl_bind.
  destruct (Sync_reliable (rep_file b') Hwr) as (f & -> & Hwf & Hcf). simpl_bind. cbn [ok].
  destruct (TableFileName_some (o_number o) Hrange) as [name Hname]. rewrite Hname. simpl_bind.
  destruct (store_close (store w) (o_number o) name f Hrange Hname Hwf) as (st1 & -> & Hst1 & Hkeep1). simpl_bind. cbn [ok andb].
  rewrite (building_count b cur Hb). destruct Hu as (Hcne & Hhead & Hlast).
  rewrite (proj2 (Z.ltb_lt 0 (Z.of_nat (length cur)))) by (destruct cur; [done|cbn [length]; lia]).
  cbn [andb]. rewrite Hcf in Hst1. rewrite Hsz.
  simpl_bind. cbn [ok andb]. destruct (store_open st1 (o_number o) _ _ _ _ _ _ Hst1 Ht) as (st2 & -> & Hkeep2). simpl_bind.
  eexists. split; [done|]. split; [|done]. split; cbn [input compact drop_state compaction cs_smallest_snapshot next_file_number outputs
    builder store set_store set_compact set_outputs].
  - done.
  - done.
  - rewrite concat_app. cbn [concat]. by rewrite app_nil_r, Hk, <-app_assoc.
  - done.
  - done.
  - rewrite fmap_app. exact Hnum.
  - split; [done|]. apply Forall2_app.
    + apply (finished_all_keep (store w)); [|done]. apply Forall_forall. intros x Hx data Hs.
      rewrite Forall_forall in Hne. apply Hkeep2, Hkeep1; [by apply Hne, list_elem_of_fmap_2|done].
    + constructor; [|constructor]. split; [done|]. split; [done|]. split; [done|].
      exists (contents (rep_file b')), hs, blocks, ies, footer. split; [by apply Hkeep2|]. done.
Qed.

(** *** Adding an entry *)

Lemma head_snoc {A} (l : list A) x : head (l ++ [x]) = Some (default x (head l)).
Proof. by destruct l. Qed.

(** The state before an entry [e] that is not dropped is added. *)
Lemma add_entry_ok w es i e rem groups cur rest :
  positioned (C := icmp) (input w) es i → es !! i = Some e →
  survivors smallest (compaction (compact w)) (drop_state w) rem = Some rest →
  kept = concat groups ++ (cur ++ [e]) ++ rest →
  same_work (compaction (compact w)) → cs_smallest_snapshot (compact w) = smallest →
  numbers_ok (o_number <$> outputs (compact w)) (next_file_number w) → next_file_number w + 1 < 2 ^ 64 →
  match builder (compact w) with
    | None => cur = [] ∧ Forall2 (finished (store w)) (outputs (compact w)) groups
    | Some b => building b cur ∧ ∃ outs o, outputs (compact w) = outs ++ [o] ∧ under_way o cur ∧ Forall2 (finished (store w)) outs groups
  end →
  ∃ w' groups' cur', add_entry dbname options w e.1 = Some (w', OK) ∧ work_inv w' es i rem groups' cur' rest ∧
    next_file_number w' ≤ next_file_number w + 1.
Proof.
  intros Hin He Hrest Hk Hsame Hsm Hnum Hnext Hf.
  (* an open output *)
  assert (Hopen : ∃ w1 b outs o, (match builder (compact w) with
      | None => OpenCompactionOutputFile dbname options w | Some _ => Some (w, OK) end) = Some (w1, OK) ∧
    builder (compact w1) = Some b ∧ building b cur ∧ outputs (compact w1) = outs ++ [o] ∧ (cur ≠ [] → under_way o cur) ∧
    Forall2 (finished (store w1)) outs groups ∧ compaction (compact w1) = compaction (compact w) ∧ drop_state w1 = drop_state w ∧
    input w1 = input w ∧ cs_smallest_snapshot (compact w1) = smallest ∧
    next_file_number w1 ≤ next_file_number w + 1 ∧
    numbers_ok (o_number <$> outputs (compact w1)) (next_file_number w1)).
  { destruct (builder (compact w)) as [b|] eqn:Eb.
    - destruct Hf as (Hb & outs & o & Eo & Hu & Hfin). exists w, b, outs, o. rewrite Eb. split_and!; (done || lia).
    - destruct Hf as [-> Hfin]. unfold OpenCompactionOutputFile. rewrite Eb.
      assert (Hrange : 0 < next_file_number w < 2 ^ 64) by (destruct Hnum as (_ & _ & ?); lia).
      destruct (TableFileName_some _ Hrange) as [name Hname]. rewrite Hname. simpl_bind.
      destruct (store_create (store w) _ name Hrange Hname) as (st & f & -> & Hwr & Hcf & Hkeep). simpl_bind.
      destruct (building_new f Hwr Hcf) as (b & -> & Hb). simpl_bind.
      eexists _, b, (outputs (compact w)), _. split; [done|].
      cbn [compact builder outputs store compaction drop_state input cs_smallest_snapshot next_file_number set_outputs].
      split; [done|]. split; [done|]. split; [done|]. split; [done|]. split; [|split; [done|split; [done|split; [done|split; [done|]]]]].
      + apply (finished_all_keep (store w)); [|done]. destruct Hnum as (_ & Hr & _). apply Forall_forall. intros x Hx data Hs.
        rewrite Forall_forall in Hr. specialize (Hr (o_number x) ltac:(by apply list_elem_of_fmap_2)). apply Hkeep; [lia|done].
      + rewrite wrap_small by (unfold in_width; lia). split; [done|]. rewrite fmap_app. by apply numbers_snoc. }
  destruct Hopen as (w1 & b & outs & o & Eo & Eb & Hb & Eouts & Hu & Hfin & Ec & Ed & Ei & Es & Hn1 & Hn2).
  unfold add_entry. rewrite Eo. simpl_bind. cbn [ok negb]. rewrite Eb. simpl_bind. rewrite Eouts, current_output_last. simpl_bind.
  destruct (positioned_entry (C := icmp) _ _ _ Hin) as (_ & _ & Hent & _). destruct e as [key value]. destruct (Hent key value He) as [_ Hval].
  rewrite Ei, Hval. simpl_bind. cbn [fst].
  destruct (building_add b cur (key, value) Hb) as (b' & Ea & Hb'); [by rewrite Hk in Hkept; apply can_add_mid in Hkept|].
  cbn [fst snd] in Ea. rewrite Ea. simpl_bind.
  set (w2 := set_compact w1 _).
  assert (Hw2 : work_inv w2 es i rem groups (cur ++ [(key, value)]) rest).
  { split; cbn [w2 input compact drop_state compaction cs_smallest_snapshot next_file_number outputs builder store set_compact set_outputs].
    - by rewrite Ei.
    - by rewrite Ec, Ed.
    - done.
    - by rewrite Ec.
    - done.
    - rewrite Eouts, fmap_app in Hn2. rewrite fmap_app. exact Hn2.
    - split; [done|]. eexists outs, _. split; [done|]. split; [|done]. rewrite (building_count b cur Hb). split; [by destruct cur|].
      rewrite head_snoc, last_snoc. cbn [fmap option_fmap option_map fst o_smallest o_largest set_keys ikey_DecodeFrom]. split; [|done].
      destruct cur as [|x cur]; [done|]. destruct (Hu ltac:(done)) as (_ & Hh & _). cbn [head fmap option_fmap option_map default] in *.
      rewrite (proj2 (Z.eqb_neq (Z.of_nat (length (x :: cur))) 0)) by (cbn [length]; lia). exact Hh. }
  destruct (_ <=? _).
  - destruct (Finish_ok w2 es i rem groups _ rest b' Hw2 eq_refl) as (w3 & -> & Hw3 & En3 & _).
    exists w3, (groups ++ [cur ++ [(key, value)]]), []. split; [done|]. split; [done|]. rewrite En3. exact Hn1.
  - exists w2, groups, (cur ++ [(key, value)]). split; [done|]. split; [done|]. exact Hn1.
Qed.

(** *** The overlap with the grandparents changes nothing of what is kept *)

Lemma drop_entry_overlap c x y z d key :
  drop_entry smallest (set_overlap c x y z) d key =
  ('(c', d', b) ← drop_entry smallest c d key; Some (set_overlap c' x y z, d', b)).
Proof.
  unfold drop_entry. destruct (ParseInternalKey key) as [[k|]|]; [|done|done]. simpl_bind. destruct (_ <=? smallest); [done|].
  destruct (_ && _); [|done]. unfold IsBaseLevelForKey. cbn [level_ input_version_ level_ptrs_ set_overlap].
  destruct (base_levels _ _ _) as [[ptrs base]|]; done.
Qed.

Lemma survivors_overlap es : ∀ c x y z d, survivors smallest (set_overlap c x y z) d es = survivors smallest c d es.
Proof.
  induction es as [|e es IH]; intros c x y z d; [done|]. cbn [survivors]. rewrite drop_entry_overlap.
  destruct (drop_entry smallest c d e.1) as [[[c' d'] b]|]; [|done]. simpl_bind. by rewrite IH.
Qed.

Lemma ShouldStopBefore_ok c key : ∃ x y z (stop : bool), ShouldStopBefore max_file_size c key = Some (set_overlap c x y z, stop).
Proof.
  unfold ShouldStopBefore. destruct (skip_grandparents _ _ _ _ _) as [index bytes].
  unfold MaxGrandParentOverlapBytes, int_times, TargetFileSize, s32. rewrite wrap_small by (unfold in_width; lia).
  rewrite (proj2 (Z.ltb_lt max_file_size (2 ^ 31))) by lia.
  rewrite (proj2 (Z.leb_le (- 2 ^ 31) (10 * max_file_size))), (proj2 (Z.ltb_lt (10 * max_file_size) (2 ^ 31))) by lia. cbn [andb]. simpl_bind.
  destruct (_ <? _); eauto 10.
Qed.

Lemma drop_entry_same c d key c' d' drop :
  same_work c → drop_entry smallest c d key = Some (c', d', drop) → same_work c'.
Proof.
  intros Hc. unfold drop_entry. destruct (ParseInternalKey key) as [[k|]|]; [|by intros [= <- <- <-]|done]. simpl_bind.
  destruct (_ <=? smallest); [by intros [= <- <- <-]|]. destruct (_ && _); [|by intros [= <- <- <-]].
  unfold IsBaseLevelForKey. destruct (base_levels _ _ _) as [[ptrs base]|]; [|done]. by intros [= <- <- <-].
Qed.

(** *** One turn *)

Lemma work_entry_ok w es i e groups cur rest :
  es !! i = Some e → work_inv w es i (drop i es) groups cur rest → next_file_number w + 1 < 2 ^ 64 →
  ∃ w' groups' cur' rest', work_entry dbname options max_file_size w = Some (w', OK) ∧
    work_inv w' es i (drop (S i) es) groups' cur' rest' ∧ next_file_number w' ≤ next_file_number w + 1.
Proof.
  intros He Hw Hnext. pose proof Hw as [Hin Hrest Hk Hsame Hsm Hnum Hf]. unfold work_entry.
  destruct (positioned_entry (C := icmp) _ _ _ Hin) as (_ & _ & Hent & _). destruct (Hent e.1 e.2) as [Hkey _]; [by destruct e|].
  rewrite Hkey. simpl_bind. destruct (ShouldStopBefore_ok (compaction (compact w)) e.1) as (x & y & z & stop & ->). simpl_bind.
  set (w1 := set_compact w _).
  assert (Hw1 : work_inv w1 es i (drop i es) groups cur rest).
  { split; cbn [w1 input compact drop_state compaction cs_smallest_snapshot next_file_number outputs builder store set_compact set_compaction]; try done.
    by rewrite survivors_overlap. }
  assert (En1 : next_file_number w1 = next_file_number w) by done.
  clearbody w1. clear Hw Hin Hrest Hk Hsame Hsm Hnum Hf Hent Hkey.
  assert (Hstop : ∃ w2 groups2 cur2, (if stop && bool_decide (is_Some (builder (compact w1)))
      then FinishCompactionOutputFile dbname w1 else Some (w1, OK)) = Some (w2, OK) ∧ work_inv w2 es i (drop i es) groups2 cur2 rest ∧
      next_file_number w2 = next_file_number w1).
  { destruct (builder (compact w1)) as [b|] eqn:Eb.
    - rewrite bool_decide_eq_true_2 by done. destruct stop; cbn [andb]; [|by exists w1, groups, cur].
      destruct (Finish_ok w1 es i _ groups cur rest b Hw1 Eb) as (w2 & -> & Hw2 & En & _). by eexists w2, _, _.
    - rewrite bool_decide_eq_false_2 by (by intros [? ?]). rewrite andb_false_r. by exists w1, groups, cur. }
  destruct Hstop as (w2 & groups2 & cur2 & -> & Hw2 & En2). simpl_bind. cbn [ok negb]. destruct Hw2 as [Hin Hrest Hk Hsame Hsm Hnum Hf].
  rewrite (drop_S _ _ _ He) in Hrest. cbn [survivors] in Hrest. rewrite Hsm.
  destruct (drop_entry smallest (compaction (compact w2)) (drop_state w2) e.1) as [[[c d] b]|] eqn:Ed; [|done].
  pose proof (drop_entry_same _ _ _ _ _ _ Hsame Ed) as Hsame'. simpl_bind. cbn [mbind option_bind] in Hrest.
  destruct (survivors smallest c d (drop (S i) es)) as [rest'|] eqn:Er; [|done]. cbn [mbind option_bind] in Hrest. injection Hrest as <-.
  destruct b.
  - eexists _, groups2, cur2, rest'. split; [done|]. split; [by split|]. cbn [next_file_number]. lia.
  - destruct (add_entry_ok (mkWork (set_compaction (compact w2) c) (store w2) (next_file_number w2) (pending_outputs w2) (input w2) d)
      es i e (drop (S i) es) groups2 cur2 rest' Hin He Er) as (w' & groups' & cur' & E & Hw' & Hn');
      [by rewrite Hk, <-app_assoc|done|done|done|cbn [next_file_number]; lia|exact Hf|].
    rewrite E. exists w', groups', cur', rest'. split; [done|]. split; [done|]. cbn [next_file_number] in Hn'. lia.
Qed.

(** *** The loop *)

Lemma shared_turn_ok w es i rem groups cur rest turn :
  work_inv w es i rem groups cur rest → next_file_number w + store_gap < 2 ^ 64 →
  ∃ st next pending, shared_turn turn (store w) (next_file_number w) (pending_outputs w) = Some (st, next, pending) ∧
    next ≤ next_file_number w + store_gap ∧ work_inv (mkWork (compact w) st next pending (input w) (drop_state w)) es i rem groups cur rest.
Proof.
  intros [Hin Hrest Hk Hsame Hsm Hnum Hf] Hb. pose proof Hnum as (_ & _ & Hn).
  destruct (store_turn turn (store w) (next_file_number w) (pending_outputs w)) as (st & next & pending & E & Hle & Hkeep); [lia|done|].
  exists st, next, pending. split; [done|]. split; [lia|]. split; try done.
  - apply (numbers_more _ (next_file_number w)); [done|]. cbn [next_file_number]. lia.
  - assert (Hall : ∀ outs gs, Forall2 (finished (store w)) outs gs → Forall2 (finished st) outs gs).
    { intros outs gs. apply finished_all_keep. apply Forall_forall. intros o _ data. apply Hkeep. }
    cbn [compact store]. destruct (builder (compact w)).
    + destruct Hf as (Hb' & outs & o & Eo & Hu & Hfin). split; [done|]. exists outs, o. by split_and!; [..|apply Hall].
    + destruct Hf as [-> Hfin]. split; [done|by apply Hall].
Qed.

Lemma work_loop_ok es : ∀ fuel turn i w groups cur rest,
  (i ≤ length es)%nat → (length es - i < fuel)%nat → work_inv w es i (drop i es) groups cur rest →
  next_file_number w + (store_gap + 1) * Z.of_nat (length es - i) < 2 ^ 64 →
  ∃ w' groups' cur', work_loop dbname options max_file_size fuel None turn w = Some (w', OK) ∧
    work_inv w' es (length es) [] groups' cur' [].
Proof.
  induction fuel as [|fuel IH]; intros turn i w groups cur rest Hi Hfuel Hw Hbound; [lia|]. cbn [work_loop running].
  destruct (positioned_entry (C := icmp) _ _ _ (wi_input _ _ _ _ _ _ _ Hw)) as (_ & Hval & _ & _). rewrite Hval, andb_true_r.
  destruct (Nat.ltb_spec i (length es)) as [Hlt|Hge].
  - destruct (lookup_lt_is_Some_2 es i Hlt) as [e He].
    replace (Z.of_nat (length es - i)) with (Z.of_nat (length es - S i) + 1) in Hbound by lia. pose proof store_gap_pos as Hgap.
    destruct (shared_turn_ok w es i _ groups cur rest turn Hw ltac:(nia)) as (st & next & pending & -> & Hle & Hw0). simpl_bind.
    destruct (work_entry_ok _ es i e groups cur rest He Hw0) as (w1 & groups1 & cur1 & rest1 & -> & Hw1 & Hn1);
      [cbn [next_file_number]; nia|]. simpl_bind. cbn [ok negb next_file_number] in *.
    pose proof Hw1 as [Hin Hrest Hk Hsame Hsm Hnum Hf].
    destruct (positioned_op (C := icmp) _ es i OpNext (S i) Hin) as (it & Eit & Hit); [by cbn [cursor_op]; rewrite (proj2 (Nat.ltb_lt _ _) Hlt)|].
    cbn [i_apply] in Eit. rewrite Eit. simpl_bind. apply (IH (S turn) (S i) _ groups1 cur1 rest1); [lia|lia|by split|]. cbn [next_file_number]. nia.
  - replace i with (length es) in * by lia. rewrite drop_all in Hw. exists w, groups, cur. split; [done|].
    assert (rest = []) as ->; [|done]. pose proof (wi_rest _ _ _ _ _ _ _ Hw) as Hr. cbn [survivors] in Hr. by injection Hr.
Qed.

Lemma DoCompactionWork_ok es (st : ST) (it : T) i files pending :
  positioned (C := icmp) it es i → first + (store_gap + 1) * Z.of_nat (length es) < 2 ^ 64 → 0 < files →
  survivors smallest c0 no_key es = Some kept →
  ∃ w groups, DoCompactionWork dbname options max_file_size (S (length es)) None files c0 smallest st first pending it = Some (w, OK) ∧
    concat groups = kept ∧ Forall2 (finished (store w)) (outputs (compact w)) groups ∧
    same_work (compaction (compact w)) ∧ numbers_ok (o_number <$> outputs (compact w)) (next_file_number w).
Proof.
  intros Hin Hbound Hfiles Hkeep. unfold DoCompactionWork. rewrite (proj2 (Z.ltb_lt 0 files)) by lia. cbn [negb].
  destruct (positioned_op (C := icmp) it es i OpSeekToFirst 0 Hin eq_refl) as (it0 & Eit & Hit). cbn [i_apply] in Eit. rewrite Eit. simpl_bind.
  set (w0 := mkWork _ _ _ _ _ _).
  assert (Hw0 : work_inv w0 es 0 (drop 0 es) [] [] kept).
  { pose proof store_gap_pos. split; cbn [w0 input compact drop_state compaction cs_smallest_snapshot next_file_number outputs builder store]; try done.
    split; [constructor|]. split; [constructor|nia]. }
  destruct (work_loop_ok es (S (length es)) 0 0 w0 [] [] kept) as (w1 & groups & cur & -> & Hw1);
    [lia|lia|done|by rewrite Nat.sub_0_r|].
  simpl_bind. cbn [ok andb].
  assert (Hfinish : ∃ w2 groups2, (if bool_decide (is_Some (builder (compact w1))) then FinishCompactionOutputFile dbname w1 else Some (w1, OK)) = Some (w2, OK) ∧
    work_inv w2 es (length es) [] groups2 [] [] ∧ builder (compact w2) = None).
  { destruct (builder (compact w1)) as [b|] eqn:Eb.
    - rewrite bool_decide_eq_true_2 by done. destruct (Finish_ok w1 es _ _ groups cur [] b Hw1 Eb) as (w2 & -> & Hw2 & _ & Enone & _). by eexists w2, _.
    - rewrite bool_decide_eq_false_2 by (by intros [? ?]). exists w1, groups. split; [done|]. split; [|done].
      pose proof (wi_files _ _ _ _ _ _ _ Hw1) as Hf. rewrite Eb in Hf. destruct Hf as [-> _]. done. }
  destruct Hfinish as (w2 & groups2 & E2 & Hw2 & Enone). rewrite E2. simpl_bind. cbn [ok].
  destruct Hw2 as [Hin2 _ Hk2 Hsame2 _ Hnum2 Hf2]. destruct (positioned_entry (C := icmp) _ _ _ Hin2) as (_ & _ & _ & ->). simpl_bind.
  exists w2, groups2. rewrite Enone in Hf2. destruct Hf2 as [_ Hf2]. rewrite !app_nil_r in Hk2. by split_and!.
Qed.
End outputs.
