(* ===== verification/LruCache.v ===== *)
(** leveldb's LRU cache: leveldb/util/cache.cc.

    Entries are in a heap, a map from handles to the structures; a handle that
    has been freed is not in it.  A circular list with its dummy head is the
    list of its handles from the head's [next] to its [prev]; a bucket of the
    hash table is the list of handles along [next_hash].  The field [next] of
    the entries, which [LRUHandle::key()] reads, is in a map of its own: an
    entry that is not there has never had it set.  [deleted_] are the keys and
    values that were given to the deleter, [None] being a key that depends on
    an uninitialised [next].  [None] as a result is a failed [assert] or the use
    of a handle or a link that is not there.

    The entries of the hash table are in a list, where [key()] is the key they
    were made with (LruSpec.v, [handle_key_ok]): the table compares [h_key]. *)

From Stdlib Require Import ZArith Lia.
From stdpp Require Import base option numbers list gmap.
From S2P Require Import Prelude Coding Slice Bloom.

Record LRUHandle (V : Type) := mkLRUHandle {
  h_value : V;
  h_charge : Z;
  h_key : list Z;
  h_in_cache : bool;
  h_refs : Z;
  h_hash : Z
}.
Arguments mkLRUHandle {V}.
Arguments h_value {V}.
Arguments h_charge {V}.
Arguments h_key {V}.
Arguments h_in_cache {V}.
Arguments h_refs {V}.
Arguments h_hash {V}.

(** What [next] can point to: the dummy head of a list, or an entry. *)
Inductive link := Lru_head | In_use_head | Entry (e : nat).

#[export] Instance link_eq_dec : EqDecision link.
Proof. solve_decision. Defined.

Record HandleTable := mkHandleTable { length_ : Z; elems_ : Z; list_ : list (list nat) }.

Record LRUCache (V : Type) := mkLRU {
  capacity_ : Z;
  usage_ : Z;
  lru_ : list nat;             (* from the oldest to the newest *)
  in_use_ : list nat;
  next_ : gmap nat link;
  table_ : HandleTable;
  heap_ : gmap nat (LRUHandle V);
  fresh_ : nat;                (* the next handle that malloc gives *)
  deleted_ : list (option (list Z) * V)
}.
Arguments mkLRU {V}.
Arguments capacity_ {V}.
Arguments usage_ {V}.
Arguments lru_ {V}.
Arguments in_use_ {V}.
Arguments next_ {V}.
Arguments table_ {V}.
Arguments heap_ {V}.
Arguments fresh_ {V}.
Arguments deleted_ {V}.

(** ** [HandleTable] *)

Section table.
Context {V : Type}.
Implicit Types (heap : gmap nat (LRUHandle V)) (chain : list nat) (t : HandleTable).

(** [FindPointer]: the bucket up to the slot, and from it on. *)
Fixpoint find_slot heap chain (key : list Z) (hash : Z) : option (list nat * list nat) :=
  match chain with
  | [] => Some ([], [])
  | h :: rest =>
      e ← heap !! h;
      if negb (h_hash e =? hash) || negb (slice_eqb key (h_key e))
      then '(before, slot) ← find_slot heap rest key hash; Some (h :: before, slot)
      else Some ([], chain)
  end.

Definition bucket t (hash : Z) : Z := Z.land hash (u32 (length_ t - 1)).

Definition FindPointer heap t (key : list Z) (hash : Z) : option (list nat * list nat) :=
  chain ← (list_ t).[bucket t hash];
  find_slot heap chain key hash.

Definition table_Lookup heap t (key : list Z) (hash : Z) : option (option nat) :=
  '(_, slot) ← FindPointer heap t key hash; Some (head slot).

(** [while (new_length < elems_) new_length *= 2]: after 32 turns it is 0. *)
Fixpoint grow (fuel : nat) (elems new_length : Z) : option Z :=
  if new_length <? elems then
    match fuel with
    | O => None
    | S fuel => grow fuel elems (u32 (new_length * 2))
    end
  else Some new_length.

(** The entries of a bucket go to the front of their new ones. *)
Fixpoint rehash heap (new_length : Z) chain (new_list : list (list nat)) : option (list (list nat)) :=
  match chain with
  | [] => Some new_list
  | h :: chain =>
      e ← heap !! h;
      let b := Z.land (h_hash e) (u32 (new_length - 1)) in
      old ← new_list.[b];
      new_list ← aset new_list b (h :: old);
      rehash heap new_length chain new_list
  end.

Fixpoint rehash_all heap (new_length : Z) (buckets : list (list nat)) (new_list : list (list nat))
  : option (list (list nat)) :=
  match buckets with
  | [] => Some new_list
  | chain :: buckets =>
      new_list ← rehash heap new_length chain new_list;
      rehash_all heap new_length buckets new_list
  end.

Definition Resize heap t : option HandleTable :=
  new_length ← grow 33 (elems_ t) 4;
  new_list ← rehash_all heap new_length (list_ t) (replicate (Z.to_nat new_length) []);
  let count := u32 (Z.of_nat (length (concat (list_ t)))) in
  if elems_ t =? count then Some (mkHandleTable new_length (elems_ t) new_list) else None (* assert *).

Definition NewHandleTable : option HandleTable := Resize (∅ : gmap nat (LRUHandle V)) (mkHandleTable 0 0 []).

(** The entry that was replaced. *)
Definition table_Insert heap t (h : nat) : option (HandleTable * option nat) :=
  e ← heap !! h;
  '(before, slot) ← FindPointer heap t (h_key e) (h_hash e);
  list' ← aset (list_ t) (bucket t (h_hash e)) (before ++ h :: tail slot);
  match head slot with
  | Some old => Some (mkHandleTable (length_ t) (elems_ t) list', Some old)
  | None =>
      let t := mkHandleTable (length_ t) (u32 (elems_ t + 1)) list' in
      t ← (if length_ t <? elems_ t then Resize heap t else Some t);
      Some (t, None)
  end.

Definition table_Remove heap t (key : list Z) (hash : Z) : option (HandleTable * option nat) :=
  '(before, slot) ← FindPointer heap t key hash;
  match head slot with
  | Some result =>
      list' ← aset (list_ t) (bucket t hash) (before ++ tail slot);
      Some (mkHandleTable (length_ t) (u32 (elems_ t - 1)) list', Some result)
  | None => Some (t, None)
  end.
End table.

(** ** [LRUCache] *)

Section cache.
Context {V : Type}.
Implicit Types (c : LRUCache V) (e : nat).

Definition NewLRUCache_shard : option (LRUCache V) :=
  t ← NewHandleTable (V := V); Some (mkLRU 0 0 [] [] ∅ t ∅ 0 []).

Definition SetCapacity c (capacity : Z) : LRUCache V :=
  mkLRU capacity (usage_ c) (lru_ c) (in_use_ c) (next_ c) (table_ c) (heap_ c) (fresh_ c) (deleted_ c).

Definition TotalCharge c : Z := usage_ c.

Definition set_lists c (lru in_use : list nat) (next : gmap nat link) : LRUCache V :=
  mkLRU (capacity_ c) (usage_ c) lru in_use next (table_ c) (heap_ c) (fresh_ c) (deleted_ c).

Definition set_heap c (heap : gmap nat (LRUHandle V)) : LRUCache V :=
  mkLRU (capacity_ c) (usage_ c) (lru_ c) (in_use_ c) (next_ c) (table_ c) heap (fresh_ c) (deleted_ c).

Definition set_usage c (usage : Z) : LRUCache V :=
  mkLRU (capacity_ c) usage (lru_ c) (in_use_ c) (next_ c) (table_ c) (heap_ c) (fresh_ c) (deleted_ c).

Definition set_table c (t : HandleTable) : LRUCache V :=
  mkLRU (capacity_ c) (usage_ c) (lru_ c) (in_use_ c) (next_ c) t (heap_ c) (fresh_ c) (deleted_ c).

Definition set_refs (h : LRUHandle V) (refs : Z) : LRUHandle V :=
  mkLRUHandle (h_value h) (h_charge h) (h_key h) (h_in_cache h) refs (h_hash h).

Definition set_in_cache (h : LRUHandle V) (b : bool) : LRUHandle V :=
  mkLRUHandle (h_value h) (h_charge h) (h_key h) b (h_refs h) (h_hash h).

(** [LRUHandle::key()]: the key of the entry if [next] is not the entry
    itself; a [next] that was never set may be anything, and an entry that is
    its own [next] has its key where its value points. *)
Definition handle_key c e (h : LRUHandle V) : option (list Z) :=
  next ← next_ c !! e;
  if decide (next = Entry e) then None else Some (h_key h).

(** The entry before [e] in a list, if that is not the dummy head. *)
Fixpoint prev_in (l : list nat) e : option nat :=
  match l with
  | x :: ((y :: _) as l') => if decide (y = e) then Some x else prev_in l' e
  | _ => None
  end.

Definition prev_of c e : option nat :=
  match prev_in (lru_ c) e with Some p => Some p | None => prev_in (in_use_ c) e end.

(** An entry is unlinked from the list it is in: [e->prev->next = e->next].
    Its own [next] stays.  Outside the lists its links are not good. *)
Definition LRU_Remove c e : option (LRUCache V) :=
  next ← next_ c !! e;
  if bool_decide (e ∈ lru_ c ++ in_use_ c)
  then Some (set_lists c (filter (.≠ e) (lru_ c)) (filter (.≠ e) (in_use_ c))
               match prev_of c e with Some p => <[p := next]> (next_ c) | None => next_ c end)
  else None.

(** [e->next = list; e->prev = list->prev; e->prev->next = e]. *)
Definition append_next (next : gmap nat link) (l : list nat) (head : link) e : gmap nat link :=
  match last l with
  | Some p => <[p := Entry e]> (<[e := head]> next)
  | None => <[e := head]> next
  end.

Definition LRU_Append_lru c e : LRUCache V :=
  set_lists c (lru_ c ++ [e]) (in_use_ c) (append_next (next_ c) (lru_ c) Lru_head e).
Definition LRU_Append_in_use c e : LRUCache V :=
  set_lists c (lru_ c) (in_use_ c ++ [e]) (append_next (next_ c) (in_use_ c) In_use_head e).

Definition lru_Ref c e : option (LRUCache V) :=
  h ← heap_ c !! e;
  c ← (if (h_refs h =? 1) && h_in_cache h then c ← LRU_Remove c e; Some (LRU_Append_in_use c e) else Some c);
  Some (set_heap c (<[e := set_refs h (u32 (h_refs h + 1))]> (heap_ c))).

(** [free] takes the fields of the entry with it. *)
Definition lru_Unref c e : option (LRUCache V) :=
  h ← heap_ c !! e;
  if negb (0 <? h_refs h) then None (* assert *)
  else
    let h := set_refs h (h_refs h - 1) in
    if h_refs h =? 0 then
      if h_in_cache h then None (* assert *)
      else Some (mkLRU (capacity_ c) (usage_ c) (lru_ c) (in_use_ c) (delete e (next_ c)) (table_ c)
                   (delete e (heap_ c)) (fresh_ c) (deleted_ c ++ [(handle_key c e h, h_value h)]))
    else
      let c := set_heap c (<[e := h]> (heap_ c)) in
      if h_in_cache h && (h_refs h =? 1)
      then c ← LRU_Remove c e; Some (LRU_Append_lru c e)
      else Some c.

Definition lru_Lookup c (key : list Z) (hash : Z) : option (LRUCache V * option nat) :=
  found ← table_Lookup (heap_ c) (table_ c) key hash;
  match found with
  | Some e => c ← lru_Ref c e; Some (c, Some e)
  | None => Some (c, None)
  end.

Definition lru_Release c (handle : nat) : option (LRUCache V) := lru_Unref c handle.

(** The entry has been removed from the hash table. *)
Definition FinishErase c (e : option nat) : option (LRUCache V * bool) :=
  match e with
  | Some e =>
      h ← heap_ c !! e;
      if negb (h_in_cache h) then None (* assert *)
      else
        c ← LRU_Remove c e;
        let c := set_heap c (<[e := set_in_cache h false]> (heap_ c)) in
        let c := set_usage c (u64 (usage_ c - h_charge h)) in
        c ← lru_Unref c e;
        Some (c, true)
  | None => Some (c, false)
  end.

(** The oldest entry of [lru_] is evicted. *)
Definition evict_oldest c (old : nat) : option (LRUCache V) :=
  h ← heap_ c !! old;
  if negb (h_refs h =? 1) then None (* assert *)
  else
    key ← handle_key c old h;
    '(t, removed) ← table_Remove (heap_ c) (table_ c) key (h_hash h);
    '(c, erased) ← FinishErase (set_table c t) removed;
    if (erased : bool) then Some c else None (* assert *).

(** [while (more && lru_.next != &lru_)]; every turn shortens [lru_]. *)
Fixpoint evict_while (fuel : nat) (more : LRUCache V → bool) c : option (LRUCache V) :=
  match lru_ c with
  | old :: _ =>
      if more c then
        match fuel with
        | O => None
        | S fuel => c ← evict_oldest c old; evict_while fuel more c
        end
      else Some c
  | [] => Some c
  end.

Definition over_capacity c : bool := capacity_ c <? usage_ c.

(** A new entry, with a reference for the handle that is returned.  [malloc]
    does not set [next]: with capacity 0 it stays as it is. *)
Definition lru_Insert c (key : list Z) (hash : Z) (value : V) (charge : Z) : option (LRUCache V * nat) :=
  let e := fresh_ c in
  let h := mkLRUHandle value charge key false 1 hash in
  let c := mkLRU (capacity_ c) (usage_ c) (lru_ c) (in_use_ c) (next_ c) (table_ c) (<[e := h]> (heap_ c)) (S e)
             (deleted_ c) in
  c ← (if 0 <? capacity_ c then
         let c := set_heap c (<[e := set_in_cache (set_refs h (h_refs h + 1)) true]> (heap_ c)) in
         let c := LRU_Append_in_use c e in
         let c := set_usage c (u64 (usage_ c + charge)) in
         '(t, old) ← table_Insert (heap_ c) (table_ c) e;
         '(c, _) ← FinishErase (set_table c t) old;
         Some c
       else Some c);
  c ← evict_while (length (lru_ c)) over_capacity c;
  Some (c, e).

Definition lru_Erase c (key : list Z) (hash : Z) : option (LRUCache V) :=
  '(t, removed) ← table_Remove (heap_ c) (table_ c) key hash;
  '(c, _) ← FinishErase (set_table c t) removed;
  Some c.

Definition lru_Prune c : option (LRUCache V) := evict_while (length (lru_ c)) (λ _, true) c.

(** The destructor goes along [lru_] and drops the cache's reference of every
    entry; it does not touch the lists. *)
Fixpoint destroy_entries c (l : list nat) : option (LRUCache V) :=
  match l with
  | [] => Some c
  | e :: l =>
      h ← heap_ c !! e;
      if negb (h_in_cache h) then None (* assert *)
      else if negb (h_refs h =? 1) then None (* assert *)
      else
        c ← lru_Unref (set_heap c (<[e := set_in_cache h false]> (heap_ c))) e;
        destroy_entries c l
  end.

Definition lru_destroy c : option (LRUCache V) :=
  if bool_decide (in_use_ c = []) then destroy_entries c (lru_ c) else None (* assert *).
End cache.

(** ** [ShardedLRUCache] *)

Record ShardedLRUCache (V : Type) := mkSharded { shard_ : list (LRUCache V); last_id_ : Z }.
Arguments mkSharded {V}.
Arguments shard_ {V}.
Arguments last_id_ {V}.

Definition kNumShardBits : Z := 4.
Definition kNumShards : Z := Z.shiftl 1 kNumShardBits.

Section sharded.
Context `{P : Port} {V : Type}.
Implicit Types (c : ShardedLRUCache V).

Definition HashSlice (s : list Z) : Z := Hash s 0.

Definition Shard (hash : Z) : Z := Z.shiftr hash (32 - kNumShardBits).

Definition NewLRUCache (capacity : Z) : option (ShardedLRUCache V) :=
  let per_shard := u64 (capacity + (kNumShards - 1)) / kNumShards in
  s ← NewLRUCache_shard;
  Some (mkSharded (replicate (Z.to_nat kNumShards) (SetCapacity s per_shard)) 0).

(** An operation on the shard of a hash. *)
Definition on_shard {A} c (hash : Z) (f : LRUCache V → option (LRUCache V * A)) : option (ShardedLRUCache V * A) :=
  s ← (shard_ c).[Shard hash];
  '(s, a) ← f s;
  shards ← aset (shard_ c) (Shard hash) s;
  Some (mkSharded shards (last_id_ c), a).

(** A handle has its hash. *)
Definition sharded_Insert c (key : list Z) (value : V) (charge : Z) : option (ShardedLRUCache V * (Z * nat)) :=
  let hash := HashSlice key in
  '(c, e) ← on_shard c hash (λ s, lru_Insert s key hash value charge);
  Some (c, (hash, e)).

Definition sharded_Lookup c (key : list Z) : option (ShardedLRUCache V * option (Z * nat)) :=
  let hash := HashSlice key in
  '(c, e) ← on_shard (A := option nat) c hash (λ s, lru_Lookup s key hash);
  Some (c, match e with Some e => Some (hash, e) | None => None end).

Definition sharded_Release c (handle : Z * nat) : option (ShardedLRUCache V) :=
  '(c, _) ← on_shard c handle.1 (λ s, s ← lru_Release s handle.2; Some (s, tt));
  Some c.

Definition sharded_Erase c (key : list Z) : option (ShardedLRUCache V) :=
  let hash := HashSlice key in
  '(c, _) ← on_shard c hash (λ s, s ← lru_Erase s key hash; Some (s, tt));
  Some c.

Definition sharded_Value c (handle : Z * nat) : option V :=
  s ← (shard_ c).[Shard handle.1];
  h ← heap_ s !! handle.2;
  Some (h_value h).

Definition sharded_NewId c : ShardedLRUCache V * Z :=
  let id := u64 (last_id_ c + 1) in (mkSharded (shard_ c) id, id).

Definition sharded_Prune c : option (ShardedLRUCache V) :=
  shards ← mapM lru_Prune (shard_ c);
  Some (mkSharded shards (last_id_ c)).

Definition sharded_TotalCharge c : Z := foldl (λ total s, u64 (total + TotalCharge s)) 0 (shard_ c).
End sharded.

(** The hash table of the LRU cache (LruCache.v) is a set of handles in which
    an entry is found by its key and its hash. *)

Section table.
Context {V : Type}.
Implicit Types (heap : gmap nat (LRUHandle V)) (chain ms : list nat) (t : HandleTable).

Definition matches (key : list Z) (hash : Z) (h : LRUHandle V) : Prop := h_hash h = hash ∧ h_key h = key.

(** The handles [ms] are in the table, every one in the bucket of its hash. *)
Record table_ok heap t ms : Prop := {
  tk_length : ∃ k, 2 ≤ k ≤ 31 ∧ length_ t = 2 ^ k ∧ Z.of_nat (length (list_ t)) = 2 ^ k;
  tk_members : concat (list_ t) ≡ₚ ms;
  tk_elems : elems_ t = Z.of_nat (length ms);
  tk_bucket i chain e : list_ t !! i = Some chain → e ∈ chain →
    ∃ h, heap !! e = Some h ∧ Z.of_nat i = bucket t (h_hash h)
}.

(** No two members have the same key and hash. *)
Definition keys_distinct heap ms : Prop :=
  ∀ e e' h h', e ∈ ms → e' ∈ ms → heap !! e = Some h → heap !! e' = Some h' →
    h_hash h = h_hash h' → h_key h = h_key h' → e = e'.

(** *** Buckets *)

Lemma bucket_mod t hash k : 0 ≤ k ≤ 31 → length_ t = 2 ^ k → bucket t hash = hash mod 2 ^ k.
Proof.
  intros Hk E. unfold bucket. rewrite E, wrap_small.
  - rewrite <-Z.land_ones by lia. f_equal. rewrite Z.ones_equiv. lia.
  - pose proof (Z.pow_pos_nonneg 2 k ltac:(lia) ltac:(lia)).
    pose proof (Z.pow_le_mono_r 2 k 31 ltac:(lia) ltac:(lia)). split; [lia|]. change (2 ^ 32) with (2 * 2 ^ 31). lia.
Qed.

Lemma bucket_range heap t ms hash : table_ok heap t ms → 0 ≤ bucket t hash < Z.of_nat (length (list_ t)).
Proof.
  intros Ht. destruct (tk_length _ _ _ Ht) as (k & Hk & E & ->). rewrite (bucket_mod t hash k ltac:(lia) E).
  apply Z.mod_pos_bound. apply Z.pow_pos_nonneg; lia.
Qed.

Lemma find_slot_ok heap chain key hash :
  Forall (λ e, is_Some (heap !! e)) chain →
  ∃ before slot, find_slot heap chain key hash = Some (before, slot) ∧ chain = before ++ slot ∧
    (∀ e h, e ∈ before → heap !! e = Some h → ¬ matches key hash h) ∧
    (∀ e, head slot = Some e → ∃ h, heap !! e = Some h ∧ matches key hash h).
Proof.
  induction 1 as [|x chain [h Hx] _ IH]; cbn [find_slot].
  { exists [], []. split; [done|]. split; [done|]. split; [|done]. by intros e h ?%not_elem_of_nil. }
  rewrite Hx. simpl_bind. rewrite slice_eqb_spec.
  destruct (decide (matches key hash h)) as [[Hh Hk]|Hno].
  - rewrite (proj2 (Z.eqb_eq _ _) Hh), bool_decide_true by done. cbn [negb orb]. exists [], (x :: chain).
    split; [done|]. split; [done|]. split; [by intros e h' ?%not_elem_of_nil|]. intros e [= <-]. by exists h.
  - assert (negb (h_hash h =? hash) || negb (bool_decide (key = h_key h)) = true) as ->.
    { apply orb_true_iff. unfold matches in Hno. destruct (Z.eqb_spec (h_hash h) hash); [right|by left].
      apply negb_true_iff, bool_decide_eq_false. naive_solver. }
    destruct IH as (before & slot & -> & -> & Hb & Hs). simpl_bind. exists (x :: before), slot.
    split; [done|]. split; [done|]. split; [|done].
    intros e h' [->|He]%elem_of_cons E; [by simplify_eq|by eapply Hb].
Qed.

Lemma member_bucket heap t ms e h :
  table_ok heap t ms → e ∈ ms → heap !! e = Some h →
  ∃ chain, list_ t !! Z.to_nat (bucket t (h_hash h)) = Some chain ∧ e ∈ chain.
Proof.
  intros Ht He Hh. rewrite <-(tk_members _ _ _ Ht) in He.
  apply list_elem_of_In, in_concat in He as (chain & Hc & Hin).
  apply list_elem_of_In, list_elem_of_lookup in Hc as [i Hi]. apply list_elem_of_In in Hin.
  destruct (tk_bucket _ _ _ Ht i chain e Hi Hin) as (h' & Hh' & E). simplify_eq. exists chain.
  by rewrite <-E, Nat2Z.id.
Qed.

(** What [FindPointer] finds. *)
Lemma FindPointer_ok heap t ms key hash :
  table_ok heap t ms →
  ∃ before slot, FindPointer heap t key hash = Some (before, slot) ∧
    list_ t !! Z.to_nat (bucket t hash) = Some (before ++ slot) ∧
    match head slot with
    | Some e => e ∈ ms ∧ ∃ h, heap !! e = Some h ∧ matches key hash h
    | None => ∀ e h, e ∈ ms → heap !! e = Some h → ¬ matches key hash h
    end.
Proof.
  intros Ht. pose proof (bucket_range heap t ms hash Ht) as Hr. unfold FindPointer.
  destruct (aget_in (list_ t) (bucket t hash) Hr) as [chain Hc]. rewrite Hc. simpl_bind.
  apply aget_some in Hc as [_ Hc].
  destruct (find_slot_ok heap chain key hash) as (before & slot & -> & -> & Hb & Hs).
  { apply Forall_forall. intros e He. destruct (tk_bucket _ _ _ Ht _ _ _ Hc He) as (h & Hh & _). by exists h. }
  exists before, slot. split; [done|]. split; [done|]. destruct (head slot) as [e|] eqn:Es.
  - destruct (Hs e eq_refl) as (h & Hh & Hm). split; [|by exists h]. rewrite <-(tk_members _ _ _ Ht).
    apply list_elem_of_In, in_concat. exists (before ++ slot).
    split; apply list_elem_of_In; [by eapply list_elem_of_lookup_2|]. apply elem_of_app. right.
    destruct slot; [done|]. injection Es as ->. by left.
  - intros e h He Hh Hm. destruct (member_bucket _ _ _ _ _ Ht He Hh) as (chain & Hc' & Hin).
    destruct Hm as [Eh Ek]. rewrite Eh in Hc'. rewrite Hc in Hc'. injection Hc' as <-.
    destruct slot; [|done]. rewrite app_nil_r in Hin. by apply (Hb e h Hin Hh).
Qed.

Lemma table_Lookup_ok heap t ms key hash :
  table_ok heap t ms →
  ∃ r, table_Lookup heap t key hash = Some r ∧
    match r with
    | Some e => e ∈ ms ∧ ∃ h, heap !! e = Some h ∧ matches key hash h
    | None => ∀ e h, e ∈ ms → heap !! e = Some h → ¬ matches key hash h
    end.
Proof.
  intros Ht. destruct (FindPointer_ok heap t ms key hash Ht) as (before & slot & E & _ & Hs).
  unfold table_Lookup. rewrite E. simpl_bind. by eexists.
Qed.

(** *** Changing a bucket *)

Lemma concat_insert (ls : list (list nat)) i old new :
  ls !! i = Some old → ∃ rest, concat ls ≡ₚ old ++ rest ∧ concat (<[i := new]> ls) ≡ₚ new ++ rest.
Proof.
  intros Hi. exists (concat (take i ls) ++ concat (drop (S i) ls)). split.
  - rewrite <-(take_drop_middle ls i old Hi) at 1. rewrite concat_app. cbn. solve_Permutation.
  - rewrite insert_take_drop by (by eapply lookup_lt_Some). rewrite concat_app. cbn. solve_Permutation.
Qed.

(** The bucket of [hash] changes from [old] to [new]. *)
Lemma table_change heap t ms hash old new ms' n :
  table_ok heap t ms → list_ t !! Z.to_nat (bucket t hash) = Some old →
  (∀ e, e ∈ new → e ∈ old ∨ ∃ h, heap !! e = Some h ∧ h_hash h = hash) →
  (∀ rest, ms ≡ₚ old ++ rest → ms' ≡ₚ new ++ rest) → n = Z.of_nat (length ms') →
  ∃ l, aset (list_ t) (bucket t hash) new = Some l ∧ table_ok heap (mkHandleTable (length_ t) n l) ms'.
Proof.
  intros Ht Hold Hnew Hms ->. pose proof (bucket_range heap t ms hash Ht) as Hr.
  rewrite aset_in by done. eexists. split; [done|].
  destruct (concat_insert (list_ t) _ old new Hold) as (rest & Ho & Hn). split; cbn [length_ elems_ list_].
  - destruct (tk_length _ _ _ Ht) as (k & Hk & El & Ell). exists k. by rewrite length_insert.
  - rewrite Hn. symmetry. apply Hms. by rewrite <-Ho, (tk_members _ _ _ Ht).
  - done.
  - intros i chain e Hi He. destruct (decide (i = Z.to_nat (bucket t hash))) as [->|Hne].
    + rewrite list_lookup_insert_eq in Hi by lia. injection Hi as <-.
      destruct (Hnew e He) as [Hin|(h & Hh & <-)].
      * by apply (tk_bucket _ _ _ Ht _ old e).
      * exists h. split; [done|]. rewrite Z2Nat.id by lia. done.
    + rewrite list_lookup_insert_ne in Hi by done. by apply (tk_bucket _ _ _ Ht i chain e).
Qed.

Lemma table_Remove_ok heap t ms key hash :
  table_ok heap t ms → Z.of_nat (length ms) < 2 ^ 32 →
  ∃ t' r, table_Remove heap t key hash = Some (t', r) ∧
    match r with
    | Some e => (∃ h, heap !! e = Some h ∧ matches key hash h) ∧ ∃ ms', ms ≡ₚ e :: ms' ∧ table_ok heap t' ms'
    | None => t' = t ∧ ∀ e h, e ∈ ms → heap !! e = Some h → ¬ matches key hash h
    end.
Proof.
  intros Ht Hlen. destruct (FindPointer_ok heap t ms key hash Ht) as (before & slot & E & Hold & Hs).
  unfold table_Remove. rewrite E. simpl_bind. destruct slot as [|e slot]; cbn [head tail] in *.
  { exists t, None. split; [done|]. by split. }
  destruct Hs as [He Hm]. apply elem_of_Permutation in He as [ms' Hms'].
  destruct (table_change heap t ms hash (before ++ e :: slot) (before ++ slot) ms' (u32 (elems_ t - 1)) Ht Hold) as (l & -> & Ht').
  - intros x Hx. left. apply elem_of_app in Hx as [Hx|Hx]; apply elem_of_app; [by left|right; by right].
  - intros rest Hrest. apply (Permutation_cons_inv (a := e)). rewrite <-Hms', Hrest. solve_Permutation.
  - rewrite (tk_elems _ _ _ Ht), Hms'. rewrite Hms' in Hlen. cbn [length] in *.
    rewrite wrap_small by (unfold in_width; lia). lia.
  - simpl_bind. eexists _, (Some e). split; [done|]. split; [done|]. by exists ms'.
Qed.

(** *** [Resize] *)

Lemma grow_ok elems fuel : ∀ k,
  2 ≤ k ≤ 31 → elems ≤ 2 ^ 31 → (31 - k < Z.of_nat fuel)%Z →
  ∃ k', grow fuel elems (2 ^ k) = Some (2 ^ k') ∧ 2 ≤ k' ≤ 31 ∧ elems ≤ 2 ^ k'.
Proof.
  induction fuel as [|fuel IH]; intros k Hk He Hf; [lia|]. cbn [grow].
  destruct (Z.ltb_spec (2 ^ k) elems) as [Hlt|Hge]; [|by exists k].
  assert (k ≠ 31) by (intros ->; lia).
  replace (u32 (2 ^ k * 2)) with (2 ^ (k + 1)).
  - apply IH; lia.
  - rewrite Z.pow_add_r by lia. symmetry. apply wrap_small.
    pose proof (Z.pow_pos_nonneg 2 k ltac:(lia) ltac:(lia)).
    pose proof (Z.pow_le_mono_r 2 k 30 ltac:(lia) ltac:(lia)). split; [lia|]. change (2 ^ 32) with (4 * 2 ^ 30). lia.
Qed.

Lemma rehash_ok heap t chain : ∀ ms,
  table_ok heap t ms → Forall (λ e, is_Some (heap !! e)) chain →
  ∃ l, rehash heap (length_ t) chain (list_ t) = Some l ∧
    table_ok heap (mkHandleTable (length_ t) (Z.of_nat (length (chain ++ ms))) l) (chain ++ ms).
Proof.
  revert t. induction chain as [|e chain IH]; intros t ms Ht Hc; cbn [rehash].
  { exists (list_ t). split; [done|]. destruct Ht. split; cbn; [done..|]. by eauto. }
  apply Forall_cons in Hc as [[h Hh] Hc]. rewrite Hh. simpl_bind. fold (bucket t (h_hash h)).
  destruct (aget_in (list_ t) (bucket t (h_hash h)) (bucket_range _ _ _ _ Ht)) as [old Hold]. rewrite Hold. simpl_bind.
  apply aget_some in Hold as [_ Hold].
  destruct (table_change heap t ms (h_hash h) old (e :: old) (e :: ms) (Z.of_nat (S (length ms))) Ht Hold) as (l & -> & Ht').
  - intros x [->|Hx]%elem_of_cons; [right; by exists h|by left].
  - intros rest ->. done.
  - done.
  - simpl_bind. destruct (IH _ _ Ht' Hc) as (l' & E & Ht''). cbn [length_ list_] in E. exists l'. split; [exact E|].
    cbn [length_] in Ht''. destruct Ht'' as [A1 A2 A3 A4]. split; [exact A1| | |exact A4].
    + cbn [list_] in *. rewrite A2. solve_Permutation.
    + done.
Qed.

Lemma rehash_all_ok heap buckets : ∀ t ms,
  table_ok heap t ms → Forall (λ e, is_Some (heap !! e)) (concat buckets) →
  ∃ l, rehash_all heap (length_ t) buckets (list_ t) = Some l ∧
    ∀ ms', ms' ≡ₚ concat buckets ++ ms →
      table_ok heap (mkHandleTable (length_ t) (Z.of_nat (length ms')) l) ms'.
Proof.
  induction buckets as [|chain buckets IH]; intros t ms Ht Hb; cbn [rehash_all concat].
  { exists (list_ t). split; [done|]. intros ms' Hms'. destruct Ht. split; cbn; [done| |done|eauto]. by rewrite Hms'. }
  apply Forall_app in Hb as [Hc Hb]. destruct (rehash_ok heap t chain ms Ht Hc) as (l & -> & Ht'). simpl_bind.
  destruct (IH _ _ Ht' Hb) as (l' & E & Hl'). cbn [length_ list_] in E, Hl'. exists l'. split; [done|].
  intros ms' Hms'. apply Hl'. rewrite Hms'. solve_Permutation.
Qed.

Lemma concat_replicate_nil n : concat (replicate n ([] : list nat)) = [].
Proof. by induction n. Qed.

Lemma empty_table heap k n : 2 ≤ k ≤ 31 → n = Z.of_nat 0 → table_ok heap (mkHandleTable (2 ^ k) n (replicate (Z.to_nat (2 ^ k)) [])) [].
Proof.
  intros Hk ->. split; cbn [length_ elems_ list_].
  - exists k. split; [done|]. split; [done|]. rewrite length_replicate, Z2Nat.id by (apply Z.pow_nonneg; lia). done.
  - by rewrite concat_replicate_nil.
  - done.
  - intros i chain e Hi He. apply lookup_replicate in Hi as [-> _]. by apply not_elem_of_nil in He.
Qed.

Lemma Resize_ok heap t ms :
  concat (list_ t) ≡ₚ ms → elems_ t = Z.of_nat (length ms) → Z.of_nat (length ms) ≤ 2 ^ 31 →
  Forall (λ e, is_Some (heap !! e)) ms → ∃ t', Resize heap t = Some t' ∧ table_ok heap t' ms.
Proof.
  intros Hp He Hlen Hin. unfold Resize. change 4 with (2 ^ 2) at 1.
  destruct (grow_ok (elems_ t) 33 2 ltac:(lia) ltac:(lia) ltac:(lia)) as (k & -> & Hk & _). simpl_bind.
  destruct (rehash_all_ok heap (list_ t) (mkHandleTable (2 ^ k) 0 (replicate (Z.to_nat (2 ^ k)) [])) []) as (l & E & Hl).
  { by apply empty_table. }
  { by rewrite Hp. }
  cbn [length_ list_] in E, Hl. rewrite E. simpl_bind. rewrite (Permutation_length Hp), He.
  rewrite wrap_small by (unfold in_width; change (2 ^ 32) with (2 * 2 ^ 31); lia).
  rewrite Z.eqb_refl. eexists. split; [done|]. apply Hl. by rewrite app_nil_r, Hp.
Qed.

Lemma NewHandleTable_ok heap : ∃ t, NewHandleTable (V := V) = Some t ∧ table_ok heap t [].
Proof.
  unfold NewHandleTable. destruct (Resize_ok ∅ (mkHandleTable 0 0 []) []) as (t & -> & Ht); [done..|by constructor|].
  exists t. split; [done|]. destruct Ht as [A1 A2 A3 A4]. split; [done..|]. intros i chain e Hi He. exfalso.
  assert (e ∈ concat (list_ t)) as Hin.
  { apply list_elem_of_In, in_concat. exists chain. split; apply list_elem_of_In; [by eapply list_elem_of_lookup_2|done]. }
  rewrite A2 in Hin. by apply not_elem_of_nil in Hin.
Qed.

Lemma table_Insert_ok heap t ms e h :
  table_ok heap t ms → heap !! e = Some h → Z.of_nat (length ms) < 2 ^ 31 →
  ∃ t' old, table_Insert heap t e = Some (t', old) ∧
    match old with
    | Some o => (∃ h', heap !! o = Some h' ∧ matches (h_key h) (h_hash h) h') ∧
        ∃ ms', ms ≡ₚ o :: ms' ∧ table_ok heap t' (e :: ms')
    | None => table_ok heap t' (e :: ms) ∧
        ∀ e' h', e' ∈ ms → heap !! e' = Some h' → ¬ matches (h_key h) (h_hash h) h'
    end.
Proof.
  intros Ht Hh Hlen. unfold table_Insert. rewrite Hh. simpl_bind.
  destruct (FindPointer_ok heap t ms (h_key h) (h_hash h) Ht) as (before & slot & -> & Hold & Hs). simpl_bind.
  destruct slot as [|o slot]; cbn [head tail] in *.
  - destruct (table_change heap t ms (h_hash h) (before ++ []) (before ++ [e]) (e :: ms) (u32 (elems_ t + 1)) Ht Hold)
      as (l & -> & Ht').
    + rewrite app_nil_r. intros x [Hx|Hx%list_elem_of_singleton]%elem_of_app; [by left|right; subst; by exists h].
    + intros rest ->. solve_Permutation.
    + rewrite (tk_elems _ _ _ Ht). cbn [length]. rewrite wrap_small by (unfold in_width; change (2 ^ 32) with (2 * 2 ^ 31); lia). lia.
    + simpl_bind. cbn [length_ elems_]. destruct (_ <? _).
      * destruct (Resize_ok heap (mkHandleTable (length_ t) (u32 (elems_ t + 1)) l) (e :: ms)) as (t2 & -> & Ht2).
        { exact (tk_members _ _ _ Ht'). }
        { exact (tk_elems _ _ _ Ht'). }
        { cbn [length]. lia. }
        { constructor; [by exists h|]. apply Forall_forall. intros x Hx.
          assert (x ∈ concat (list_ t)) as Hin by (by rewrite (tk_members _ _ _ Ht)).
          apply list_elem_of_In, in_concat in Hin as (chain & Hc & Hin).
          apply list_elem_of_In, list_elem_of_lookup in Hc as [i Hi]. apply list_elem_of_In in Hin.
          destruct (tk_bucket _ _ _ Ht i chain x Hi Hin) as (hx & Hhx & _). by exists hx. }
        simpl_bind. eexists _, None. split; [done|]. by split.
      * simpl_bind. eexists _, None. split; [done|]. by split.
  - destruct Hs as [Ho Hm]. apply elem_of_Permutation in Ho as [ms' Hms'].
    destruct (table_change heap t ms (h_hash h) (before ++ o :: slot) (before ++ e :: slot) (e :: ms') (elems_ t) Ht Hold)
      as (l & -> & Ht').
    + intros x [Hx|[->|Hx]%elem_of_cons]%elem_of_app; [left; apply elem_of_app; by left|right; by exists h|].
      left. apply elem_of_app. right. by right.
    + intros rest Hrest. rewrite <-Permutation_middle. cbn. apply Permutation_skip, (Permutation_cons_inv (a := o)).
      rewrite <-Hms', Hrest. solve_Permutation.
    + rewrite (tk_elems _ _ _ Ht), Hms'. done.
    + simpl_bind. eexists _, (Some o). split; [done|]. split; [done|]. by exists ms'.
Qed.

(** The table does not see changes of counts. *)
Lemma table_ok_heap heap heap' t ms :
  (∀ e h, e ∈ ms → heap !! e = Some h → ∃ h', heap' !! e = Some h' ∧ h_hash h' = h_hash h) →
  table_ok heap t ms → table_ok heap' t ms.
Proof.
  intros Hsame Ht. pose proof Ht as [A1 A2 A3 A4]. split; [done..|]. intros i chain e Hi He.
  destruct (A4 i chain e Hi He) as (h & Hh & Hb).
  assert (e ∈ ms) as Hin.
  { rewrite <-A2. apply list_elem_of_In, in_concat. exists chain.
    split; apply list_elem_of_In; [by eapply list_elem_of_lookup_2|done]. }
  destruct (Hsame e h Hin Hh) as (h' & Hh' & E). exists h'. by rewrite E.
Qed.

Lemma table_ok_perm heap t ms ms' : ms ≡ₚ ms' → table_ok heap t ms → table_ok heap t ms'.
Proof. intros Hp [A1 A2 A3 A4]. split; [done|by rewrite A2|by rewrite A3, Hp|done]. Qed.
End table.
