(* ===== verification/LruSpec.v ===== *)
(** The LRU cache (LruCache.v): its invariant, and what the operations do to
    the entries. *)

From Stdlib Require Import ZArith Lia.
From stdpp Require Import base option numbers list gmap.
From S2P Require Import Prelude Coding Slice Bloom LruCache.

(** Reading a member after assignments. *)
Ltac lru_simpl :=
  cbn [capacity_ usage_ lru_ in_use_ next_ table_ heap_ fresh_ deleted_ set_lists set_heap set_usage set_table
       LRU_Append_lru LRU_Append_in_use h_value h_charge h_key h_in_cache h_refs h_hash set_refs set_in_cache] in *.

(** ** Links *)

Section links.
Implicit Types (next : gmap nat link) (l : list nat) (hd : link).

(** Where the head of a list with the entries [l] points. *)
Definition first_link l hd : link := match l with [] => hd | x :: _ => Entry x end.

(** [next] goes along [l] to the head [hd]. *)
Fixpoint chained next hd l : Prop :=
  match l with
  | [] => True
  | x :: l => next !! x = Some (first_link l hd) ∧ chained next hd l
  end.

Lemma chained_ext next next' hd l :
  (∀ x, x ∈ l → next' !! x = next !! x) → chained next hd l → chained next' hd l.
Proof.
  induction l as [|x l IH]; intros He; [done|]. cbn [chained]. intros [Hx Hl]. split.
  - rewrite He; [done|by left].
  - apply IH; [|done]. intros y Hy. apply He. by right.
Qed.

Lemma chained_app next hd l1 l2 :
  chained next hd (l1 ++ l2) ↔ chained next (first_link l2 hd) l1 ∧ chained next hd l2.
Proof.
  induction l1 as [|x l1 IH]; [by cbn; naive_solver|]. cbn [app chained]. rewrite IH.
  assert (first_link (l1 ++ l2) hd = first_link l1 (first_link l2 hd)) as -> by (by destruct l1). tauto.
Qed.

Lemma chained_in next hd l x : chained next hd l → x ∈ l → is_Some (next !! x).
Proof. intros Hc (l1 & l2 & ->)%list_elem_of_split. apply chained_app in Hc as [_ [Hx _]]. by rewrite Hx. Qed.

Lemma prev_in_none l e : e ∉ l → prev_in l e = None.
Proof.
  induction l as [|x l IH]; intros He; [done|]. destruct l as [|y l]; [done|].
  apply not_elem_of_cons in He as [_ He]. cbn [prev_in]. rewrite decide_False; [by apply IH|]. intros ->. apply He. by left.
Qed.

Lemma prev_in_app l1 l2 e : e ∉ l1 → e ∉ l2 → prev_in (l1 ++ e :: l2) e = last l1.
Proof.
  intros H1 H2. induction l1 as [|x l1 IH].
  - cbn [app]. destruct l2 as [|y l2]; [done|].
    change (prev_in (e :: y :: l2) e) with (if decide (y = e) then Some e else prev_in (y :: l2) e).
    rewrite decide_False; [by apply prev_in_none|]. intros ->. apply H2. by left.
  - apply not_elem_of_cons in H1 as [Hx H1]. destruct l1 as [|y l1].
    + cbn [app prev_in last]. by rewrite decide_True.
    + cbn [app prev_in]. rewrite decide_False; [exact (IH H1)|]. intros ->. apply H1. by left.
Qed.

Lemma filter_ne_id e (l : list nat) : e ∉ l → filter (.≠ e) l = l.
Proof.
  induction l as [|x l IH]; intros He; [done|]. apply not_elem_of_cons in He as [Hx He].
  rewrite filter_cons, decide_True by done. by rewrite IH.
Qed.

(** An entry is appended. *)
Lemma chained_append next hd l e :
  NoDup l → e ∉ l → chained next hd l → chained (append_next next l hd e) hd (l ++ [e]).
Proof.
  intros Hnd He Hc. unfold append_next. destruct l as [|p l _] using rev_ind.
  - cbn. split; [apply lookup_insert_eq|done].
  - apply not_elem_of_app in He as [He Hp]. rewrite last_snoc. rewrite list_elem_of_singleton in Hp.
    apply NoDup_app in Hnd as (_ & Hnd & _).
    apply chained_app in Hc as [Hc _]. rewrite !chained_app. cbn [first_link chained] in *. split_and!; [|by rewrite lookup_insert_eq|done| |done].
    + eapply chained_ext; [|exact Hc]. intros x Hx.
      rewrite !lookup_insert_ne; [done|by intros ->|intros ->]. by apply (Hnd x Hx), list_elem_of_singleton.
    + rewrite lookup_insert_ne by congruence. by rewrite lookup_insert_eq.
Qed.

(** An entry is unlinked. *)
Lemma chained_remove next hd l e :
  NoDup l → e ∈ l → chained next hd l → (∀ x, hd ≠ Entry x) →
  ∃ n, next !! e = Some n ∧
    chained match prev_in l e with Some p => <[p := n]> next | None => next end hd (filter (.≠ e) l) ∧
    ∀ p, prev_in l e = Some p → p ∈ l ∧ n ≠ Entry p.
Proof.
  intros Hnd (l1 & l2 & ->)%list_elem_of_split Hc Hhd.
  apply NoDup_app in Hnd as (Hnd1 & H12 & [He2 Hnd2]%NoDup_cons).
  assert (He1 : e ∉ l1) by (intros H; apply (H12 e H); by left).
  apply chained_app in Hc as [Hc1 [Hn Hc2]]. exists (first_link l2 hd). split; [done|].
  rewrite prev_in_app by done. rewrite filter_app, filter_cons, decide_False by auto. rewrite !filter_ne_id by done.
  rewrite chained_app. destruct l1 as [|p l1 _] using rev_ind; [done|]. rewrite last_snoc.
  assert (Hp : p ∉ l2) by (intros H; apply (H12 p); [apply elem_of_app; right; by left|by right]).
  split; [split|].
  - apply chained_app in Hc1 as [Hc1 _]. apply chained_app. cbn [first_link chained] in *.
    split; [|by rewrite lookup_insert_eq]. eapply chained_ext; [|exact Hc1].
    intros x Hx. apply lookup_insert_ne. intros ->. apply NoDup_app in Hnd1 as (_ & Hnd1 & _). apply (Hnd1 x Hx). by left.
  - eapply chained_ext; [|exact Hc2]. intros x Hx. apply lookup_insert_ne. by intros ->.
  - intros p' [= <-]. split; [apply elem_of_app; left; apply elem_of_app; right; by left|].
    destruct l2 as [|y l2]; [apply Hhd|]. cbn. intros [= ->]. apply Hp. by left.
Qed.
End links.

Section spec.
Context {V : Type}.
Implicit Types (c : LRUCache V) (e : nat) (h : LRUHandle V) (heap : gmap nat (LRUHandle V)).

(** The entries in the cache. *)
Definition members c : list nat := lru_ c ++ in_use_ c.

Definition charge_of heap e : Z := default 0 (h_charge <$> heap !! e).

Definition total heap (ms : list nat) : Z := foldr (λ e s, charge_of heap e + s) 0 ms.

(** The references that clients have. *)
Definition client_refs h : Z := h_refs h - (if h_in_cache h then 1 else 0).

(** The invariant without the hash table. *)
Record lru_core c : Prop := {
  lc_nodup : NoDup (members c);
  lc_lru e : e ∈ lru_ c → ∃ h, heap_ c !! e = Some h ∧ h_in_cache h = true ∧ h_refs h = 1;
  lc_use e : e ∈ in_use_ c → ∃ h, heap_ c !! e = Some h ∧ h_in_cache h = true ∧ 1 < h_refs h;
  lc_heap e h : heap_ c !! e = Some h →
    (e < fresh_ c)%nat ∧ 0 < h_refs h < 2 ^ 32 ∧ (h_in_cache h = true → e ∈ members c);
  lc_usage : usage_ c = u64 (total (heap_ c) (members c))
}.

(** [next] goes along the lists, it never is the entry itself, and it is set
    in the entries that are alive, unless the capacity is 0: then in none. *)
Record links_ok (cap : Z) (lru in_use : list nat) (next : gmap nat link) heap : Prop := {
  lk_lru : chained next Lru_head lru;
  lk_use : chained next In_use_head in_use;
  lk_self e : next !! e ≠ Some (Entry e);
  lk_set : dom next = if 0 <? cap then dom heap else ∅
}.

Record lru_inv c : Prop := {
  li_core : lru_core c;
  li_links : links_ok (capacity_ c) (lru_ c) (in_use_ c) (next_ c) (heap_ c);
  li_table : table_ok (heap_ c) (table_ c) (members c);
  li_keys : keys_distinct (heap_ c) (members c)
}.

(** What the deleter is given for an entry: with capacity 0 its value, and a
    key that is not determined. *)
Definition given (cap : Z) (p : list Z * V) : option (list Z) * V :=
  (if 0 <? cap then Some p.1 else None, p.2).

(** *** Links *)

Lemma handle_key_ok cap lru in_use heap c e h h' :
  links_ok cap lru in_use (next_ c) heap → heap !! e = Some h →
  handle_key c e h' = if 0 <? cap then Some (h_key h') else None.
Proof.
  intros Hl Hh. unfold handle_key. pose proof (lk_set _ _ _ _ _ Hl) as Hd.
  pose proof (lk_self _ _ _ _ _ Hl e) as Hs. destruct (next_ c !! e) as [n|] eqn:En; simpl_bind.
  - rewrite decide_False by congruence. apply elem_of_dom_2 in En. rewrite Hd in En.
    destruct (0 <? cap); [done|]. by apply not_elem_of_empty in En.
  - apply not_elem_of_dom in En. rewrite Hd in En. destruct (0 <? cap); [|done].
    apply elem_of_dom_2 in Hh. done.
Qed.

Lemma links_member cap lru in_use next heap e :
  links_ok cap lru in_use next heap → e ∈ lru ++ in_use → 0 <? cap = true ∧ is_Some (next !! e).
Proof.
  intros [H1 H2 _ Hd] He. assert (is_Some (next !! e)) as Hn
    by (apply elem_of_app in He as [He|He]; [exact (chained_in _ _ _ _ H1 He)|exact (chained_in _ _ _ _ H2 He)]).
  split; [|done]. apply elem_of_dom in Hn. rewrite Hd in Hn. destruct (0 <? cap); [done|]. by apply not_elem_of_empty in Hn.
Qed.

Lemma links_heap cap lru in_use next heap heap' :
  dom heap' = dom heap → links_ok cap lru in_use next heap → links_ok cap lru in_use next heap'.
Proof. intros Hd [? ? ? Hs]. split; try done. by rewrite Hd. Qed.

Lemma links_update cap lru in_use next heap e h h' :
  heap !! e = Some h → links_ok cap lru in_use next heap → links_ok cap lru in_use next (<[e := h']> heap).
Proof. intros Hh. apply links_heap. rewrite dom_insert_lookup_L; [done|by rewrite Hh]. Qed.

(** The memory of an entry in neither list is freed. *)
Lemma links_delete cap lru in_use next heap e :
  e ∉ lru ++ in_use → links_ok cap lru in_use next heap →
  links_ok cap lru in_use (delete e next) (delete e heap).
Proof.
  intros [He1 He2]%not_elem_of_app [H1 H2 H3 H4]. split.
  - eapply chained_ext; [|exact H1]. intros x Hx. apply lookup_delete_ne. by intros ->.
  - eapply chained_ext; [|exact H2]. intros x Hx. apply lookup_delete_ne. by intros ->.
  - intros x [_ Hx]%lookup_delete_Some. by apply (H3 x).
  - rewrite !dom_delete_L, H4. destruct (0 <? cap); set_solver.
Qed.

(** A new entry without links, with capacity 0. *)
Lemma links_outside cap lru in_use next heap e h :
  cap ≤ 0 → links_ok cap lru in_use next heap → links_ok cap lru in_use next (<[e := h]> heap).
Proof. intros Hc [? ? ? Hs]. split; try done. rewrite Hs. by rewrite (proj2 (Z.ltb_ge _ _) Hc). Qed.

Lemma append_next_lookup next l hd e x y :
  (∀ z, hd ≠ Entry z) → e ∉ l → append_next next l hd e !! x = Some y → y ≠ Entry x ∨ next !! x = Some y.
Proof.
  intros Hhd He. unfold append_next. destruct (last l) as [p|] eqn:El.
  - assert (p ≠ e) by (intros ->; by apply last_Some_elem_of in El).
    intros [[<- <-]|[_ [[<- <-]|[_ ?]]%lookup_insert_Some]]%lookup_insert_Some; [left; congruence|left; apply Hhd|by right].
  - intros [[<- <-]|[_ ?]]%lookup_insert_Some; [left; apply Hhd|by right].
Qed.

Lemma append_next_dom next l hd e :
  (∀ x, x ∈ l → is_Some (next !! x)) → dom (append_next next l hd e) = {[e]} ∪ dom next.
Proof.
  intros Hl. unfold append_next. destruct (last l) as [p|] eqn:El; rewrite !dom_insert_L; [|done].
  apply last_Some_elem_of, Hl, elem_of_dom in El. set_solver.
Qed.

Lemma append_next_other next l hd e x :
  x ≠ e → x ∉ l → append_next next l hd e !! x = next !! x.
Proof.
  intros Hx Hl. unfold append_next. destruct (last l) as [p|] eqn:El; rewrite ?lookup_insert_ne by auto; [|done].
  rewrite !lookup_insert_ne; [done|auto|]. intros ->. by apply last_Some_elem_of in El.
Qed.

(** An entry is appended to a list. *)
Lemma links_append_in_use cap lru in_use next heap heap' e :
  NoDup (lru ++ in_use) → e ∉ lru ++ in_use → 0 < cap → dom heap' = {[e]} ∪ dom heap →
  links_ok cap lru in_use next heap →
  links_ok cap lru (in_use ++ [e]) (append_next next in_use In_use_head e) heap'.
Proof.
  intros (Hn1 & H12 & Hn2)%NoDup_app [He1 He2]%not_elem_of_app Hc Hd [H1 H2 H3 H4].
  split.
  - eapply chained_ext; [|exact H1]. intros x Hx. apply append_next_other; [by intros ->|by apply H12].
  - by apply chained_append.
  - intros x Hx. by destruct (append_next_lookup _ _ In_use_head _ x _ ltac:(done) He2 Hx) as [|?%H3].
  - rewrite append_next_dom by (intros x Hx; exact (chained_in _ _ _ _ H2 Hx)).
    rewrite Hd, H4, (proj2 (Z.ltb_lt _ _) Hc). done.
Qed.

Lemma links_append_lru cap lru in_use next heap heap' e :
  NoDup (lru ++ in_use) → e ∉ lru ++ in_use → 0 < cap → dom heap' = {[e]} ∪ dom heap →
  links_ok cap lru in_use next heap →
  links_ok cap (lru ++ [e]) in_use (append_next next lru Lru_head e) heap'.
Proof.
  intros (Hn1 & H12 & Hn2)%NoDup_app [He1 He2]%not_elem_of_app Hc Hd [H1 H2 H3 H4].
  split.
  - by apply chained_append.
  - eapply chained_ext; [|exact H2]. intros x Hx. apply append_next_other; [by intros ->|]. intros Hx'. by apply (H12 x).
  - intros x Hx. by destruct (append_next_lookup _ _ Lru_head _ x _ ltac:(done) He1 Hx) as [|?%H3].
  - rewrite append_next_dom by (intros x Hx; exact (chained_in _ _ _ _ H1 Hx)).
    rewrite Hd, H4, (proj2 (Z.ltb_lt _ _) Hc). done.
Qed.

(** *** Members *)

Lemma member_heap c e : lru_core c → e ∈ members c → ∃ h, heap_ c !! e = Some h ∧ h_in_cache h = true.
Proof.
  intros Hc [He|He]%elem_of_app.
  - destruct (lc_lru _ Hc e He) as (h & ? & ? & _). by exists h.
  - destruct (lc_use _ Hc e He) as (h & ? & ? & _). by exists h.
Qed.

Lemma not_member c e h : lru_core c → heap_ c !! e = Some h → h_in_cache h = false → e ∉ members c.
Proof. intros Hc Hh Hi He. destruct (member_heap c e Hc He) as (h' & ? & ?). congruence. Qed.

Lemma member_list c e h :
  lru_core c → heap_ c !! e = Some h → h_in_cache h = true →
  if h_refs h =? 1 then e ∈ lru_ c ∧ e ∉ in_use_ c else e ∈ in_use_ c ∧ e ∉ lru_ c.
Proof.
  intros Hc Hh Hi. destruct (lc_heap _ Hc e h Hh) as (_ & _ & Hm). specialize (Hm Hi).
  assert (Hl : e ∈ lru_ c → h_refs h = 1) by (intros He; destruct (lc_lru _ Hc e He) as (h' & ? & _ & ?); congruence).
  assert (Hu : e ∈ in_use_ c → 1 < h_refs h) by (intros He; destruct (lc_use _ Hc e He) as (h' & ? & _ & ?); congruence).
  destruct (Z.eqb_spec (h_refs h) 1) as [E|E]; apply elem_of_app in Hm as [He|He].
  - split; [done|]. intros He'. specialize (Hu He'). lia.
  - specialize (Hu He). lia.
  - specialize (Hl He). lia.
  - split; [done|]. intros He'. specialize (Hl He'). lia.
Qed.

Lemma total_perm heap ms ms' : ms ≡ₚ ms' → total heap ms = total heap ms'.
Proof. unfold total. induction 1; cbn [foldr]; lia. Qed.

Lemma total_same heap heap' ms :
  (∀ e, e ∈ ms → charge_of heap' e = charge_of heap e) → total heap' ms = total heap ms.
Proof.
  unfold total. induction ms as [|e ms IH]; intros Hs; [done|]. cbn [foldr]. rewrite IH, Hs; [done|by left|].
  intros e' He'. apply Hs. by right.
Qed.

(** *** Changes of counts *)

(** The entry [e] gets the reference count [refs]; the lists change so that it
    is in the right one. *)
Lemma recount c c' e h refs :
  lru_inv c → heap_ c !! e = Some h → 0 < refs < 2 ^ 32 →
  heap_ c' = <[e := set_refs h refs]> (heap_ c) →
  fresh_ c' = fresh_ c → usage_ c' = usage_ c → table_ c' = table_ c → members c' ≡ₚ members c →
  (∀ x, x ≠ e → x ∈ lru_ c' → x ∈ lru_ c) → (∀ x, x ≠ e → x ∈ in_use_ c' → x ∈ in_use_ c) →
  (e ∈ lru_ c' → h_in_cache h = true ∧ refs = 1) → (e ∈ in_use_ c' → h_in_cache h = true ∧ 1 < refs) →
  links_ok (capacity_ c') (lru_ c') (in_use_ c') (next_ c') (heap_ c') →
  lru_inv c'.
Proof.
  intros [Hcore _ Ht Hk] Hh Hr Eh Ef Eu Et Hm Hl Hu Hel Heu Hlinks.
  assert (Hcharge : ∀ x, charge_of (heap_ c') x = charge_of (heap_ c) x).
  { intros x. unfold charge_of. rewrite Eh. destruct (decide (x = e)) as [->|Hne].
    - by rewrite lookup_insert_eq, Hh.
    - by rewrite lookup_insert_ne. }
  split.
  - split.
    + rewrite Hm. apply (lc_nodup _ Hcore).
    + intros x Hx. rewrite Eh. destruct (decide (x = e)) as [->|Hne].
      * rewrite lookup_insert_eq. eexists. split; [done|]. by apply Hel.
      * rewrite lookup_insert_ne by done. apply (lc_lru _ Hcore). by apply Hl.
    + intros x Hx. rewrite Eh. destruct (decide (x = e)) as [->|Hne].
      * rewrite lookup_insert_eq. eexists. split; [done|]. by apply Heu.
      * rewrite lookup_insert_ne by done. apply (lc_use _ Hcore). by apply Hu.
    + intros x hx. rewrite Eh, Ef, Hm. destruct (decide (x = e)) as [->|Hne].
      * rewrite lookup_insert_eq. intros [= <-]. lru_simpl. destruct (lc_heap _ Hcore e h Hh) as (? & _ & ?). done.
      * rewrite lookup_insert_ne by done. apply (lc_heap _ Hcore).
    + rewrite Eu, (lc_usage _ Hcore), (total_perm _ _ _ Hm). f_equal. symmetry. by apply total_same.
  - exact Hlinks.
  - rewrite Et. apply (table_ok_perm _ _ (members c)); [done|].
    apply (table_ok_heap (heap_ c)); [|done]. intros x hx _ Hx. rewrite Eh. destruct (decide (x = e)) as [->|Hne].
    + rewrite lookup_insert_eq. simplify_eq. by eexists.
    + rewrite lookup_insert_ne by done. by exists hx.
  - intros x y hx hy. rewrite Hm, Eh. intros Hx Hy Ex Ey Hhash Hkey.
    assert (Hold : ∀ z hz, <[e := set_refs h refs]> (heap_ c) !! z = Some hz →
      ∃ hz', heap_ c !! z = Some hz' ∧ h_hash hz' = h_hash hz ∧ h_key hz' = h_key hz).
    { intros z hz. destruct (decide (z = e)) as [->|Hne].
      - rewrite lookup_insert_eq. intros [= <-]. by exists h.
      - rewrite lookup_insert_ne by done. intros Hz. by exists hz. }
    destruct (Hold x hx Ex) as (hx' & Hx' & A1 & A2). destruct (Hold y hy Ey) as (hy' & Hy' & B1 & B2).
    apply (Hk x y hx' hy'); try done; congruence.
Qed.

Lemma filter_ne_perm e (l : list nat) : NoDup l → e ∈ l → l ≡ₚ e :: filter (.≠ e) l.
Proof.
  induction 1 as [|x l Hx Hl IH]; [by intros ?%not_elem_of_nil|]. intros [->|He]%elem_of_cons.
  - rewrite filter_cons, decide_False by auto. by rewrite filter_ne_id.
  - assert (x ≠ e) by (intros ->; done). rewrite filter_cons, decide_True by done.
    rewrite (IH He) at 1. apply Permutation_swap.
Qed.

(** Unlinking a member. *)
Lemma LRU_Remove_ok c e heap :
  NoDup (members c) → e ∈ members c → links_ok (capacity_ c) (lru_ c) (in_use_ c) (next_ c) heap →
  ∃ lru in_use next, LRU_Remove c e = Some (set_lists c lru in_use next) ∧ members c ≡ₚ e :: (lru ++ in_use) ∧
    lru = filter (.≠ e) (lru_ c) ∧ in_use = filter (.≠ e) (in_use_ c) ∧ links_ok (capacity_ c) lru in_use next heap ∧
    0 < capacity_ c.
Proof.
  intros Hnd He Hl. unfold LRU_Remove. destruct (links_member _ _ _ _ _ _ Hl He) as [Hcap [n Hn]].
  rewrite Hn. simpl_bind. rewrite bool_decide_true by done. eexists _, _, _. split; [done|].
  split; [rewrite <-filter_app; by apply filter_ne_perm|]. split; [done|]. split; [done|].
  split; [|by apply Z.ltb_lt].
  destruct Hl as [H1 H2 H3 H4]. unfold members in *. apply NoDup_app in Hnd as (Hn1 & H12 & Hn2).
  assert (Hown : ∀ p l hd, prev_of c e = Some p → (∀ q, prev_of c e = Some q → q ∈ l ∧ n ≠ Entry q) → chained (next_ c) hd l →
    (∀ x, <[p := n]> (next_ c) !! x ≠ Some (Entry x)) ∧ dom (<[p := n]> (next_ c)) = dom (next_ c)).
  { intros p l hd Hp Hq Hc. destruct (Hq p Hp) as [Hin Hne]. split.
    - intros x [[<- ?]|[_ ?]]%lookup_insert_Some; [congruence|by apply (H3 x)].
    - apply dom_insert_lookup_L. by eapply chained_in. }
  apply elem_of_app in He as [He|He].
  - destruct (chained_remove _ _ _ e Hn1 He H1 ltac:(done)) as (n' & Hn' & Hc & Hp). rewrite Hn in Hn'. injection Hn' as <-.
    assert (prev_of c e = prev_in (lru_ c) e) as Ep.
    { unfold prev_of. destruct (prev_in (lru_ c) e); [done|]. apply prev_in_none. by apply H12. }
    rewrite (filter_ne_id e (in_use_ c)) by (by apply H12). rewrite <-Ep in *. destruct (prev_of c e) as [p|]; [|by split].
    destruct (Hp p eq_refl) as [Hpl _]. destruct (Hown p _ _ eq_refl Hp H1) as [Hs Hd]. split; [done| |done|by rewrite Hd].
    eapply chained_ext; [|exact H2]. intros x Hx. apply lookup_insert_ne. intros ->. by apply (H12 x).
  - destruct (chained_remove _ _ _ e Hn2 He H2 ltac:(done)) as (n' & Hn' & Hc & Hp). rewrite Hn in Hn'. injection Hn' as <-.
    assert (He' : e ∉ lru_ c) by (intros Hx; by apply (H12 e)).
    assert (prev_of c e = prev_in (in_use_ c) e) as Ep by (unfold prev_of; by rewrite (prev_in_none _ _ He')).
    rewrite (filter_ne_id e (lru_ c)) by done. rewrite <-Ep in *. destruct (prev_of c e) as [p|]; [|by split].
    destruct (Hp p eq_refl) as [Hpl _]. destruct (Hown p _ _ eq_refl Hp H2) as [Hs Hd]. split; [|done|done|by rewrite Hd].
    eapply chained_ext; [|exact H1]. intros x Hx. apply lookup_insert_ne. intros ->. by apply (H12 x).
Qed.

Lemma not_in_filter e (l : list nat) : e ∉ filter (.≠ e) l.
Proof. intros [? _]%list_elem_of_filter. done. Qed.

Lemma Ref_ok c e h :
  lru_inv c → heap_ c !! e = Some h → h_refs h + 1 < 2 ^ 32 →
  ∃ c', lru_Ref c e = Some c' ∧ lru_inv c' ∧ heap_ c' = <[e := set_refs h (h_refs h + 1)]> (heap_ c) ∧
    capacity_ c' = capacity_ c ∧ usage_ c' = usage_ c ∧ fresh_ c' = fresh_ c ∧ deleted_ c' = deleted_ c ∧
    members c' ≡ₚ members c ∧ lru_ c' = filter (.≠ e) (lru_ c).
Proof.
  intros Hinv Hh Hr. pose proof (li_core _ Hinv) as Hcore.
  destruct (lc_heap _ Hcore e h Hh) as (Hf & Hpos & Hm). unfold lru_Ref. rewrite Hh. simpl_bind.
  rewrite wrap_small by (unfold in_width; lia).
  destruct (h_in_cache h) eqn:Hi; [|rewrite andb_false_r]; [destruct (Z.eqb_spec (h_refs h) 1) as [E1|E1]; cbn [andb]|].
  - pose proof (member_list c e h Hcore Hh Hi) as Hl. rewrite E1, Z.eqb_refl in Hl. destruct Hl as [Hl Hu].
    destruct (LRU_Remove_ok c e (heap_ c) (lc_nodup _ Hcore) (Hm eq_refl) (li_links _ Hinv))
      as (lru & use & nx & -> & Hp & -> & -> & Hlk & Hcap).
    simpl_bind. eexists. split; [done|]. rewrite (filter_ne_id e (in_use_ c) Hu) in *.
    assert (Hmem : (filter (.≠ e) (lru_ c)) ++ in_use_ c ++ [e] ≡ₚ members c) by (rewrite Hp; solve_Permutation).
    pose proof (lc_nodup _ Hcore) as Hnd. rewrite Hp in Hnd. apply NoDup_cons in Hnd as [Hnin Hnd].
    split_and!; lru_simpl; try done.
    eapply (recount c _ e h (h_refs h + 1) Hinv Hh); lru_simpl; try done.
    + lia.
    + intros x _ [_ ?]%list_elem_of_filter. done.
    + intros x Hne [?|?%list_elem_of_singleton]%elem_of_app; done.
    + by intros ?%not_in_filter.
    + intros _. split; [done|lia].
    + apply (links_append_in_use _ _ _ _ (heap_ c)); try done. apply dom_insert_L.
  - pose proof (member_list c e h Hcore Hh Hi) as Hl. rewrite (proj2 (Z.eqb_neq _ _) E1) in Hl. destruct Hl as [Hu Hl].
    simpl_bind. eexists. split; [done|]. split_and!; lru_simpl; try done; [|by rewrite filter_ne_id].
    eapply (recount c _ e h (h_refs h + 1) Hinv Hh); lru_simpl; try done; [lia| |].
    + intros _. split; [done|lia].
    + eapply links_update; [exact Hh|apply (li_links _ Hinv)].
  - pose proof (not_member c e h Hcore Hh Hi) as Hn.
    assert (e ∉ lru_ c ∧ e ∉ in_use_ c) as [Hl Hu] by (by apply not_elem_of_app).
    simpl_bind. eexists. split; [done|]. split_and!; lru_simpl; try done; [|by rewrite filter_ne_id].
    eapply (recount c _ e h (h_refs h + 1) Hinv Hh); lru_simpl; try done; [lia|].
    eapply links_update; [exact Hh|apply (li_links _ Hinv)].
Qed.

(** An entry that is not in the cache is deleted. *)
Lemma delete_inv c e h d :
  lru_inv c → heap_ c !! e = Some h → h_in_cache h = false →
  lru_inv (mkLRU (capacity_ c) (usage_ c) (lru_ c) (in_use_ c) (delete e (next_ c)) (table_ c) (delete e (heap_ c))
             (fresh_ c) d).
Proof.
  intros [Hcore Hlinks Ht Hk] Hh Hi. pose proof (not_member c e h Hcore Hh Hi) as Hn.
  assert (Hne : ∀ x, x ∈ members c → x ≠ e) by (intros x Hx ->; done).
  assert (Hdel : ∀ x, x ∈ members c → delete e (heap_ c) !! x = heap_ c !! x).
  { intros x Hx. apply lookup_delete_ne. intros ->. done. }
  split; lru_simpl.
  - split; lru_simpl.
    + apply (lc_nodup _ Hcore).
    + intros x Hx. rewrite Hdel by (apply elem_of_app; by left). by apply (lc_lru _ Hcore).
    + intros x Hx. rewrite Hdel by (apply elem_of_app; by right). by apply (lc_use _ Hcore).
    + intros x hx. rewrite lookup_delete_Some. intros [_ Hx]. by apply (lc_heap _ Hcore).
    + rewrite (lc_usage _ Hcore). f_equal. symmetry. apply total_same. intros x Hx. unfold charge_of.
      unfold members in *. lru_simpl. by rewrite Hdel.
  - by apply links_delete.
  - apply (table_ok_heap (heap_ c)); [|done]. intros x hx Hx Hhx. exists hx. split; [|done].
    rewrite lookup_delete_ne; [done|]. intros ->. done.
  - intros x y hx hy Hx Hy. rewrite !Hdel by done. by apply Hk.
Qed.

(** The effect of a release on the entries. *)
Definition unref_heap heap e h : gmap nat (LRUHandle V) :=
  if h_refs h =? 1 then delete e heap else <[e := set_refs h (h_refs h - 1)]> heap.

Definition unref_deleted (cap : Z) (d : list (option (list Z) * V)) h : list (option (list Z) * V) :=
  if h_refs h =? 1 then d ++ [given cap (h_key h, h_value h)] else d.

Lemma Unref_ok c e h :
  lru_inv c → heap_ c !! e = Some h → 0 < client_refs h →
  ∃ c', lru_Unref c e = Some c' ∧ lru_inv c' ∧ heap_ c' = unref_heap (heap_ c) e h ∧
    deleted_ c' = unref_deleted (capacity_ c) (deleted_ c) h ∧
    capacity_ c' = capacity_ c ∧ usage_ c' = usage_ c ∧ fresh_ c' = fresh_ c ∧ members c' ≡ₚ members c ∧
    lru_ c' = (if h_in_cache h && (h_refs h =? 2) then lru_ c ++ [e] else lru_ c) ∧
    (h_in_cache h = false → in_use_ c' = in_use_ c).
Proof.
  intros Hinv Hh Hr. pose proof (li_core _ Hinv) as Hcore. unfold client_refs in Hr.
  destruct (lc_heap _ Hcore e h Hh) as (Hf & Hpos & Hm). unfold lru_Unref, unref_heap, unref_deleted. rewrite Hh. simpl_bind.
  rewrite (proj2 (Z.ltb_lt _ _)) by lia. cbn [negb]. cbv zeta. lru_simpl.
  destruct (Z.eqb_spec (h_refs h) 1) as [E1|E1].
  - rewrite E1 in *. change (1 - 1 =? 0) with true. change (1 =? 2) with false. cbv iota.
    destruct (h_in_cache h) eqn:Hi; [lia|]. eexists. split; [done|].
    split; [by eapply delete_inv|]. lru_simpl.
    rewrite (handle_key_ok _ _ _ _ c e h _ (li_links _ Hinv) Hh). lru_simpl. by split_and!.
  - rewrite (proj2 (Z.eqb_neq _ 0)) by lia. destruct (h_in_cache h) eqn:Hi; cbn [andb].
    + pose proof (member_list c e h Hcore Hh Hi) as Hl. rewrite (proj2 (Z.eqb_neq _ _) E1) in Hl. destruct Hl as [Hu Hl].
      destruct (Z.eqb_spec (h_refs h - 1) 1) as [E2|E2].
      * rewrite (proj2 (Z.eqb_eq (h_refs h) 2)) by lia.
        pose proof (links_update _ _ _ _ _ e h (set_refs h (h_refs h - 1)) Hh (li_links _ Hinv)) as Hlk.
        destruct (LRU_Remove_ok (set_heap c (<[e := set_refs h (h_refs h - 1)]> (heap_ c))) e _ (lc_nodup _ Hcore)
          (Hm eq_refl) Hlk) as (lru & use & nx & E & Hp & -> & -> & Hlk' & Hcap).
        rewrite E. lru_simpl. rewrite (filter_ne_id e (lru_ c) Hl) in *. simpl_bind. eexists. split; [done|].
        assert (Hmem : (lru_ c ++ [e]) ++ filter (.≠ e) (in_use_ c) ≡ₚ members c).
        { change (members c) with (members (set_heap c (<[e := set_refs h (h_refs h - 1)]> (heap_ c)))). rewrite Hp.
          solve_Permutation. }
        pose proof (lc_nodup _ Hcore) as Hnd.
        change (members c) with (members (set_heap c (<[e := set_refs h (h_refs h - 1)]> (heap_ c)))) in Hnd.
        rewrite Hp in Hnd. apply NoDup_cons in Hnd as [Hnin Hnd].
        split_and!; lru_simpl; try done.
        eapply (recount c _ e h (h_refs h - 1) Hinv Hh); lru_simpl; try done.
        { lia. }
        { intros x Hne [?|?%list_elem_of_singleton]%elem_of_app; done. }
        { intros x _ [_ ?]%list_elem_of_filter. done. }
        { by intros ?%not_in_filter. }
        { apply (links_append_lru _ _ _ _ (<[e := set_refs h (h_refs h - 1)]> (heap_ c))); try done.
          rewrite dom_insert_L. set_solver. }
      * rewrite (proj2 (Z.eqb_neq (h_refs h) 2)) by lia. eexists. split; [done|]. split_and!; lru_simpl; try done.
        eapply (recount c _ e h (h_refs h - 1) Hinv Hh); lru_simpl; try done; [lia| |].
        { intros _. split; [done|lia]. }
        { eapply links_update; [exact Hh|apply (li_links _ Hinv)]. }
    + pose proof (not_member c e h Hcore Hh Hi) as Hn.
      assert (e ∉ lru_ c ∧ e ∉ in_use_ c) as [Hl Hu] by (by apply not_elem_of_app).
      eexists. split; [done|]. split_and!; lru_simpl; try done.
      eapply (recount c _ e h (h_refs h - 1) Hinv Hh); lru_simpl; try done; [lia|].
      eapply links_update; [exact Hh|apply (li_links _ Hinv)].
Qed.

(** *** Leaving the cache *)

(** The effect on the entries of an entry leaving the cache. *)
Definition drop_heap heap e h : gmap nat (LRUHandle V) :=
  if h_refs h =? 1 then delete e heap else <[e := set_refs (set_in_cache h false) (h_refs h - 1)]> heap.

Lemma FinishErase_ok c o h ms :
  lru_core c → links_ok (capacity_ c) (lru_ c) (in_use_ c) (next_ c) (heap_ c) →
  heap_ c !! o = Some h → h_in_cache h = true → members c ≡ₚ o :: ms →
  table_ok (heap_ c) (table_ c) ms → keys_distinct (heap_ c) ms →
  ∃ c', FinishErase c (Some o) = Some (c', true) ∧ lru_inv c' ∧ heap_ c' = drop_heap (heap_ c) o h ∧
    deleted_ c' = unref_deleted (capacity_ c) (deleted_ c) h ∧ capacity_ c' = capacity_ c ∧ fresh_ c' = fresh_ c ∧
    lru_ c' = filter (.≠ o) (lru_ c) ∧ in_use_ c' = filter (.≠ o) (in_use_ c).
Proof.
  intros Hcore Hlinks Hh Hi Hms Ht Hk. unfold FinishErase. rewrite Hh. simpl_bind. rewrite Hi. cbn [negb].
  pose proof (lc_nodup _ Hcore) as Hnd.
  destruct (LRU_Remove_ok c o _ Hnd ltac:(rewrite Hms; by left) Hlinks) as (lru & use & nx & -> & Hp & -> & -> & Hlk & _).
  simpl_bind. lru_simpl.
  assert (Hmem : filter (.≠ o) (lru_ c) ++ filter (.≠ o) (in_use_ c) ≡ₚ ms).
  { apply (Permutation_cons_inv (a := o)). by rewrite <-Hp, Hms. }
  assert (Hnd' : NoDup (o :: ms)) by (by rewrite <-Hms). apply NoDup_cons in Hnd' as [Ho Hnd'].
  assert (Hne : ∀ x, x ∈ ms → x ≠ o) by (intros x Hx ->; done).
  match goal with |- context [lru_Unref ?x o] => set (c1 := x) end.
  assert (Hsame : ∀ x, x ∈ ms → heap_ c1 !! x = heap_ c !! x).
  { intros x Hx. apply lookup_insert_ne. intros ->. done. }
  assert (Hin : ∀ x, x ∈ members c1 ↔ x ∈ ms) by (intros x; unfold members, c1; lru_simpl; by rewrite Hmem).
  assert (Hinv : lru_inv c1).
  { split.
    - split.
      + unfold members, c1. lru_simpl. by rewrite Hmem.
      + intros x Hx. rewrite Hsame by (apply Hin, elem_of_app; by left). unfold c1 in Hx. lru_simpl.
        apply list_elem_of_filter in Hx as [_ Hx]. by apply (lc_lru _ Hcore).
      + intros x Hx. rewrite Hsame by (apply Hin, elem_of_app; by right). unfold c1 in Hx. lru_simpl.
        apply list_elem_of_filter in Hx as [_ Hx]. by apply (lc_use _ Hcore).
      + intros x hx Hx. rewrite Hin. unfold c1 in *. lru_simpl. destruct (decide (x = o)) as [->|Hxo].
        * rewrite lookup_insert_eq in Hx. injection Hx as <-. lru_simpl.
          destruct (lc_heap _ Hcore o h Hh) as (? & ? & _). done.
        * rewrite lookup_insert_ne in Hx by done. destruct (lc_heap _ Hcore x hx Hx) as (? & ? & Hxm).
          split; [done|]. split; [done|]. intros Hc. specialize (Hxm Hc). rewrite Hms in Hxm.
          by apply elem_of_cons in Hxm as [->|?].
      + unfold members. unfold c1 at 1. lru_simpl. rewrite (lc_usage _ Hcore), (total_perm _ _ _ Hms).
        change (lru_ c1 ++ in_use_ c1) with (filter (.≠ o) (lru_ c) ++ filter (.≠ o) (in_use_ c)).
        rewrite (total_perm (heap_ c1) _ _ Hmem), (total_same (heap_ c) (heap_ c1) ms).
        2:{ intros x Hx. unfold charge_of. by rewrite Hsame. }
        unfold wrap. rewrite Zminus_mod_idemp_l. f_equal. unfold total. cbn [foldr]. unfold charge_of at 1. rewrite Hh. cbn. lia.
    - unfold c1. lru_simpl. by eapply links_update.
    - apply (table_ok_perm _ _ ms); [by symmetry|]. apply (table_ok_heap (heap_ c)); [|exact Ht].
      intros x hx Hx Hhx. exists hx. by rewrite Hsame.
    - intros x y hx hy. rewrite !Hin. intros Hx Hy. rewrite !Hsame by done. by apply Hk. }
  destruct (lc_heap _ Hcore o h Hh) as (_ & Hpos & _).
  destruct (Unref_ok c1 o (set_in_cache h false) Hinv) as (c' & E & Hinv' & Hheap & Hdel & Hcap & Hus & Hfr & Hm & Hl & Hu).
  { unfold c1. lru_simpl. by rewrite lookup_insert_eq. }
  { unfold client_refs. lru_simpl. lia. }
  rewrite E. simpl_bind. exists c'. split; [done|]. split; [done|].
  unfold unref_heap, unref_deleted, drop_heap, c1 in *. lru_simpl. rewrite (Hu eq_refl).
  split; [|split; [done|split; [done|split; [done|split; [done|done]]]]].
  rewrite Hheap. destruct (h_refs h =? 1); [|by rewrite insert_insert_eq]. by rewrite delete_insert_eq.
Qed.

(** *** Lookup *)

Lemma lru_Lookup_ok c key hash :
  lru_inv c → (∀ e h, heap_ c !! e = Some h → h_refs h + 1 < 2 ^ 32) →
  ∃ c' r, lru_Lookup c key hash = Some (c', r) ∧ lru_inv c' ∧
    match r with
    | Some e => ∃ h, heap_ c !! e = Some h ∧ h_in_cache h = true ∧ matches key hash h ∧
        heap_ c' = <[e := set_refs h (h_refs h + 1)]> (heap_ c) ∧ capacity_ c' = capacity_ c ∧
        usage_ c' = usage_ c ∧ fresh_ c' = fresh_ c ∧ deleted_ c' = deleted_ c ∧ members c' ≡ₚ members c ∧
        lru_ c' = filter (.≠ e) (lru_ c)
    | None => c' = c ∧ ∀ e h, heap_ c !! e = Some h → h_in_cache h = true → ¬ matches key hash h
    end.
Proof.
  intros Hinv Hr. pose proof (li_core _ Hinv) as Hcore. unfold lru_Lookup.
  destruct (table_Lookup_ok _ _ _ key hash (li_table _ Hinv)) as (r & -> & Hres). simpl_bind. destruct r as [e|].
  - destruct Hres as [He (h & Hh & Hm)]. destruct (member_heap c e Hcore He) as (h' & Hh' & Hi). simplify_eq.
    destruct (Ref_ok c e h Hinv Hh (Hr e h Hh)) as (c' & -> & Hinv' & Hrest). simpl_bind. exists c', (Some e).
    split; [done|]. split; [done|]. exists h. by destruct Hrest as (? & ? & ? & ? & ? & ? & ?).
  - exists c, None. split; [done|]. split; [done|]. split; [done|]. intros e h Hh Hi. apply (Hres e h); [|done].
    by apply (lc_heap _ Hcore e h Hh).
Qed.

(** *** Erase and eviction *)

Lemma keys_distinct_sub heap ms ms' : (∀ x, x ∈ ms' → x ∈ ms) → keys_distinct heap ms → keys_distinct heap ms'.
Proof. intros Hs Hk x y hx hy Hx Hy. apply Hk; by apply Hs. Qed.

(** Removing what matches from the table, and from the cache. *)
Lemma remove_ok c key hash :
  lru_inv c → Z.of_nat (length (members c)) < 2 ^ 32 →
  ∃ t r c' b, table_Remove (heap_ c) (table_ c) key hash = Some (t, r) ∧
    FinishErase (set_table c t) r = Some (c', b) ∧ lru_inv c' ∧
    match r with
    | Some e => b = true ∧ ∃ h, heap_ c !! e = Some h ∧ h_in_cache h = true ∧ matches key hash h ∧
        heap_ c' = drop_heap (heap_ c) e h ∧ deleted_ c' = unref_deleted (capacity_ c) (deleted_ c) h ∧
        capacity_ c' = capacity_ c ∧ fresh_ c' = fresh_ c ∧
        lru_ c' = filter (.≠ e) (lru_ c) ∧ in_use_ c' = filter (.≠ e) (in_use_ c)
    | None => b = false ∧ c' = c ∧ ∀ e h, heap_ c !! e = Some h → h_in_cache h = true → ¬ matches key hash h
    end.
Proof.
  intros Hinv Hlen. pose proof (li_core _ Hinv) as Hcore.
  destruct (table_Remove_ok _ _ _ key hash (li_table _ Hinv) Hlen) as (t & r & -> & Hres). destruct r as [e|].
  - destruct Hres as [(h & Hh & Hm) (ms & Hms & Ht)].
    assert (He : e ∈ members c) by (rewrite Hms; by left).
    destruct (member_heap c e Hcore He) as (h' & Hh' & Hi). simplify_eq.
    destruct (FinishErase_ok (set_table c t) e h ms) as (c' & E & Hinv' & Hrest); lru_simpl; try done.
    { destruct Hcore. by split. }
    { apply (li_links _ Hinv). }
    { eapply keys_distinct_sub; [|exact (li_keys _ Hinv)]. intros x Hx. rewrite Hms. by right. }
    exists t, (Some e), c', true. split; [done|]. split; [done|]. split; [done|]. split; [done|]. exists h.
    by destruct Hrest as (? & ? & ? & ? & ? & ?).
  - destruct Hres as [-> Hno]. exists (table_ c), None, c, false. split; [done|].
    split; [by destruct c|]. split; [done|]. split; [done|]. split; [done|].
    intros e h Hh Hi. apply (Hno e h); [|done]. by apply (lc_heap _ Hcore e h Hh).
Qed.

(** The oldest entry leaves. *)
Lemma evict_oldest_ok c old rest :
  lru_inv c → Z.of_nat (length (members c)) < 2 ^ 32 → lru_ c = old :: rest →
  ∃ c' h, evict_oldest c old = Some c' ∧ lru_inv c' ∧ heap_ c !! old = Some h ∧ h_in_cache h = true ∧
    h_refs h = 1 ∧ heap_ c' = delete old (heap_ c) ∧
    deleted_ c' = deleted_ c ++ [given (capacity_ c) (h_key h, h_value h)] ∧
    capacity_ c' = capacity_ c ∧ fresh_ c' = fresh_ c ∧ lru_ c' = rest ∧ in_use_ c' = in_use_ c.
Proof.
  intros Hinv Hlen El. pose proof (li_core _ Hinv) as Hcore.
  assert (Hold : old ∈ lru_ c) by (rewrite El; by left).
  destruct (lc_lru _ Hcore old Hold) as (h & Hh & Hi & Hr). unfold evict_oldest. rewrite Hh. simpl_bind.
  rewrite Hr. change (1 =? 1) with true. cbn [negb].
  destruct (links_member _ _ _ _ _ old (li_links _ Hinv)) as [Hcap0 _]; [apply elem_of_app; by left|].
  rewrite (handle_key_ok _ _ _ _ c old h h (li_links _ Hinv) Hh), Hcap0. simpl_bind.
  destruct (remove_ok c (h_key h) (h_hash h) Hinv Hlen) as (t & r & c' & b & -> & E & Hinv' & Hres). simpl_bind.
  rewrite E. simpl_bind. destruct r as [e|].
  2:{ destruct Hres as (_ & _ & Hno). exfalso. by apply (Hno old h Hh Hi). }
  destruct Hres as [-> (h' & Hh' & Hi' & [Eh Ek] & Hheap & Hdel & Hcap & Hfr & Hl & Hu)].
  assert (e = old) as ->.
  { apply (li_keys _ Hinv e old h' h); try done.
    - by apply (lc_heap _ Hcore e h' Hh').
    - apply elem_of_app. by left. }
  simplify_eq. exists c', h. split; [done|]. split; [done|]. split; [done|]. split; [done|]. split; [done|].
  unfold drop_heap, unref_deleted in *. rewrite Hr in *. change (1 =? 1) with true in *. cbv iota in *.
  pose proof (lc_nodup _ Hcore) as Hnd. unfold members in Hnd. rewrite El in Hnd. apply NoDup_cons in Hnd as [Hn _].
  apply not_elem_of_app in Hn as [Hn1 Hn2].
  split; [done|]. split; [done|]. split; [done|]. split; [done|]. split.
  - rewrite Hl, El, filter_cons, decide_False by auto. by apply filter_ne_id.
  - rewrite Hu. by apply filter_ne_id.
Qed.

(** Entries leave the cache, one after the other. *)
Definition drop_one (cap : Z) (s s' : gmap nat (LRUHandle V) * list (option (list Z) * V)) : Prop :=
  ∃ e h, s.1 !! e = Some h ∧ h_in_cache h = true ∧ 0 < h_refs h ∧ s' = (drop_heap s.1 e h, unref_deleted cap s.2 h).

Definition drops (cap : Z) := rtc (drop_one cap).

Lemma total_delete heap e ms : e ∉ ms → total (delete e heap) ms = total heap ms.
Proof.
  intros He. apply total_same. intros x Hx. unfold charge_of. rewrite lookup_delete_ne; [done|]. intros ->. done.
Qed.

(** Eviction goes from the oldest entry on, as long as the test holds. *)
Lemma evict_while_ok (test : Z → Z → bool) fuel : ∀ c,
  lru_inv c → Z.of_nat (length (members c)) < 2 ^ 32 → (length (lru_ c) ≤ fuel)%nat →
  ∃ c' n, evict_while fuel (λ c, test (capacity_ c) (usage_ c)) c = Some c' ∧ lru_inv c' ∧
    lru_ c' = drop n (lru_ c) ∧ in_use_ c' = in_use_ c ∧ capacity_ c' = capacity_ c ∧ fresh_ c' = fresh_ c ∧
    (∀ x, x ∉ take n (lru_ c) → heap_ c' !! x = heap_ c !! x) ∧
    drops (capacity_ c) (heap_ c, deleted_ c) (heap_ c', deleted_ c') ∧
    (lru_ c' = [] ∨ test (capacity_ c') (usage_ c') = false) ∧
    ∀ m, (m < n)%nat → test (capacity_ c) (u64 (total (heap_ c) (drop m (lru_ c) ++ in_use_ c))) = true.
Proof.
  induction fuel as [|fuel IH]; intros c Hinv Hlen Hfuel; cbn [evict_while].
  { destruct (lru_ c) as [|old rest] eqn:El; [|cbn in Hfuel; lia]. exists c, 0%nat. rewrite El.
    split; [done|]. split; [done|]. do 5 (split; [done|]). split; [apply rtc_refl|]. split; [by left|]. intros m. lia. }
  destruct (lru_ c) as [|old rest] eqn:El.
  { exists c, 0%nat. rewrite El.
    split; [done|]. split; [done|]. do 5 (split; [done|]). split; [apply rtc_refl|]. split; [by left|]. intros m. lia. }
  destruct (test (capacity_ c) (usage_ c)) eqn:Etest.
  2:{ exists c, 0%nat. rewrite El.
      split; [done|]. split; [done|]. do 5 (split; [done|]). split; [apply rtc_refl|]. split; [by right|]. intros m. lia. }
  destruct (evict_oldest_ok c old rest Hinv Hlen El)
    as (c1 & h & -> & Hinv1 & Hh & Hi & Hr & Hheap & Hdel & Hcap & Hfr & Hl & Hu). simpl_bind.
  pose proof (lc_nodup _ (li_core _ Hinv)) as Hnd. unfold members in Hnd, Hlen. rewrite El in Hnd, Hlen.
  apply NoDup_cons in Hnd as [Hn _].
  destruct (IH c1 Hinv1) as (c' & n & E & Hinv' & Hl' & Hu' & Hcap' & Hfr' & Hsame & Hdrops & Hstop & Hmin).
  { unfold members. rewrite Hl, Hu. cbn in Hlen. lia. }
  { rewrite Hl. cbn in Hfuel. lia. }
  exists c', (S n). split; [done|]. split; [done|]. split; [by rewrite Hl', Hl|]. cbn [take]. split; [congruence|].
  split; [congruence|]. split; [congruence|]. split; [|split; [|split; [done|]]].
  - intros x [Hx1 Hx2]%not_elem_of_cons. rewrite Hsame by (by rewrite Hl). rewrite Hheap. by apply lookup_delete_ne.
  - rewrite Hcap in Hdrops. eapply rtc_l; [|exact Hdrops]. exists old, h. cbn [fst snd]. split; [done|]. split; [done|]. split; [lia|].
    unfold drop_heap, unref_deleted. rewrite Hr. by rewrite Hheap, Hdel.
  - intros [|m] Hm; cbn [drop].
    + rewrite (lc_usage _ (li_core _ Hinv)) in Etest. unfold members in Etest. rewrite El in Etest. exact Etest.
    + specialize (Hmin m ltac:(lia)). rewrite Hl, Hu, Hcap, Hheap, total_delete in Hmin; [done|].
      intros Hx. apply Hn. apply elem_of_app in Hx as [Hx|Hx]; apply elem_of_app; [left|by right].
      apply list_elem_of_lookup in Hx as [i Hx]. rewrite lookup_drop in Hx. by eapply list_elem_of_lookup_2.
Qed.

(** *** Insert *)

(** The new entry is outside the cache at first. *)
Lemma add_outside c h :
  lru_inv c → capacity_ c ≤ 0 → h_in_cache h = false → 0 < h_refs h < 2 ^ 32 →
  lru_inv (mkLRU (capacity_ c) (usage_ c) (lru_ c) (in_use_ c) (next_ c) (table_ c) (<[fresh_ c := h]> (heap_ c))
             (S (fresh_ c)) (deleted_ c)).
Proof.
  intros [Hcore Hlinks Ht Hk] Hc0 Hi Hr.
  assert (Hne : ∀ x, x ∈ members c → x ≠ fresh_ c).
  { intros x Hx ->. destruct (member_heap c _ Hcore Hx) as (h' & Hh' & _). apply (lc_heap _ Hcore) in Hh' as [? _]. lia. }
  assert (Hsame : ∀ x, x ∈ members c → <[fresh_ c := h]> (heap_ c) !! x = heap_ c !! x).
  { intros x Hx. apply lookup_insert_ne. intros <-. by apply (Hne _ Hx). }
  split; lru_simpl.
  - split; lru_simpl.
    + apply (lc_nodup _ Hcore).
    + intros x Hx. rewrite Hsame by (apply elem_of_app; by left). by apply (lc_lru _ Hcore).
    + intros x Hx. rewrite Hsame by (apply elem_of_app; by right). by apply (lc_use _ Hcore).
    + intros x hx. destruct (decide (x = fresh_ c)) as [->|Hx].
      * rewrite lookup_insert_eq. intros [= <-]. split; [lia|]. split; [done|]. by rewrite Hi.
      * rewrite lookup_insert_ne by done. intros Hhx. destruct (lc_heap _ Hcore x hx Hhx) as (? & ? & ?).
        split; [lia|]. done.
    + rewrite (lc_usage _ Hcore). f_equal. symmetry. apply total_same. intros x Hx. unfold charge_of. by rewrite Hsame.
  - by apply links_outside.
  - apply (table_ok_heap (heap_ c)); [|done]. intros x hx Hx Hhx. exists hx. split; [|done].
    by rewrite Hsame.
  - intros x y hx hy Hx Hy. rewrite !Hsame by done. by apply Hk.
Qed.

(** ... and then enters it. *)
Definition entered c h : LRUCache V :=
  mkLRU (capacity_ c) (u64 (usage_ c + h_charge h)) (lru_ c) (in_use_ c ++ [fresh_ c])
    (append_next (next_ c) (in_use_ c) In_use_head (fresh_ c)) (table_ c)
    (<[fresh_ c := h]> (heap_ c)) (S (fresh_ c)) (deleted_ c).

Lemma fresh_outside c : lru_core c → fresh_ c ∉ members c.
Proof.
  intros Hcore Hx. destruct (member_heap c _ Hcore Hx) as (h' & Hh' & _). apply (lc_heap _ Hcore) in Hh' as [? _]. lia.
Qed.

Lemma enter_links c h :
  lru_inv c → 0 < capacity_ c →
  links_ok (capacity_ c) (lru_ c) (in_use_ (entered c h)) (next_ (entered c h)) (heap_ (entered c h)).
Proof.
  intros Hinv Hc. apply (links_append_in_use _ _ _ _ (heap_ c)); [..|exact (li_links _ Hinv)].
  - apply (lc_nodup _ (li_core _ Hinv)).
  - apply fresh_outside, Hinv.
  - done.
  - apply dom_insert_L.
Qed.

Lemma enter_core c h :
  lru_inv c → h_in_cache h = true → h_refs h = 2 → lru_core (entered c h).
Proof.
  intros [Hcore _ _ _] Hi Hr.
  assert (Hne : fresh_ c ∉ members c).
  { intros Hx. destruct (member_heap c _ Hcore Hx) as (h' & Hh' & _). apply (lc_heap _ Hcore) in Hh' as [? _]. lia. }
  assert (Hsame : ∀ x, x ∈ members c → <[fresh_ c := h]> (heap_ c) !! x = heap_ c !! x).
  { intros x Hx. apply lookup_insert_ne. intros <-. done. }
  assert (Hp : lru_ c ++ in_use_ c ++ [fresh_ c] ≡ₚ fresh_ c :: members c) by (unfold members; solve_Permutation).
  unfold entered. split; lru_simpl.
  - unfold members at 1. lru_simpl. rewrite Hp. apply NoDup_cons. split; [done|]. apply (lc_nodup _ Hcore).
  - intros x Hx. rewrite Hsame by (apply elem_of_app; by left). by apply (lc_lru _ Hcore).
  - intros x [Hx|Hx%list_elem_of_singleton]%elem_of_app.
    + rewrite Hsame by (apply elem_of_app; by right). by apply (lc_use _ Hcore).
    + subst x. rewrite lookup_insert_eq. exists h. split; [done|]. split; [done|lia].
  - intros x hx. unfold members at 1. lru_simpl. rewrite Hp. destruct (decide (x = fresh_ c)) as [->|Hx].
    + rewrite lookup_insert_eq. intros [= <-]. split; [lia|]. split; [lia|]. by left.
    + rewrite lookup_insert_ne by done. intros Hhx. destruct (lc_heap _ Hcore x hx Hhx) as (? & ? & Hm).
      split; [lia|]. split; [done|]. intros Hc. right. by apply Hm.
  - unfold members at 1. lru_simpl. rewrite (total_perm _ _ _ Hp), (lc_usage _ Hcore). unfold total at 2. cbn [foldr].
    fold (total (<[fresh_ c := h]> (heap_ c)) (members c)).
    rewrite (total_same (heap_ c) (<[fresh_ c := h]> (heap_ c)) (members c)).
    2:{ intros x Hx. unfold charge_of. by rewrite Hsame. }
    unfold charge_of. rewrite lookup_insert_eq. cbn [fmap option_fmap option_map default].
    unfold wrap. rewrite Zplus_mod_idemp_l. f_equal. unfold default. cbn. lia.
Qed.

(** Entering the hash table, which may drive out an entry with the same key. *)
Lemma enter_ok c h :
  lru_inv c → 0 < capacity_ c → h_in_cache h = true → h_refs h = 2 → Z.of_nat (length (members c)) < 2 ^ 31 →
  let c1 := entered c h in
  ∃ t old c' b, table_Insert (heap_ c1) (table_ c1) (fresh_ c) = Some (t, old) ∧
    FinishErase (set_table c1 t) old = Some (c', b) ∧ lru_inv c' ∧
    capacity_ c' = capacity_ c ∧ fresh_ c' = S (fresh_ c) ∧ heap_ c' !! fresh_ c = Some h ∧
    drops (capacity_ c) (heap_ c1, deleted_ c) (heap_ c', deleted_ c') ∧
    (length (members c') ≤ S (length (members c)))%nat ∧
    lru_ c' = filter (λ e, Some e ≠ old) (lru_ c) ∧ fresh_ c ∉ lru_ c' ∧
    ∀ x, x ∈ lru_ c' → charge_of (heap_ c') x = charge_of (heap_ c) x.
Proof.
  intros Hinv Hc0 Hi Hr Hlen c1. pose proof (li_core _ Hinv) as Hcore. pose proof (enter_core c h Hinv Hi Hr) as Hcore1.
  pose proof (enter_links c h Hinv Hc0) as Hlinks1. fold c1 in Hcore1, Hlinks1.
  assert (Hne : fresh_ c ∉ members c).
  { intros Hx. destruct (member_heap c _ Hcore Hx) as (h' & Hh' & _). apply (lc_heap _ Hcore) in Hh' as [? _]. lia. }
  assert (Hsame : ∀ x, x ∈ members c → heap_ c1 !! x = heap_ c !! x).
  { intros x Hx. apply lookup_insert_ne. intros <-. done. }
  assert (Hnew : heap_ c1 !! fresh_ c = Some h) by apply lookup_insert_eq.
  assert (Hp : members c1 ≡ₚ fresh_ c :: members c) by (unfold members, c1; lru_simpl; solve_Permutation).
  assert (Hnl : fresh_ c ∉ lru_ c) by (intros Hx; apply Hne, elem_of_app; by left).
  assert (Ht1 : table_ok (heap_ c1) (table_ c1) (members c)).
  { apply (table_ok_heap (heap_ c)); [|exact (li_table _ Hinv)]. intros x hx Hx Hhx. exists hx. by rewrite Hsame. }
  destruct (table_Insert_ok _ _ _ _ h Ht1 Hnew Hlen) as (t & old & Et & Hold). destruct old as [o|].
  - destruct Hold as [(ho & Hho & Hm) (ms & Hms & Ht)].
    assert (Ho : o ∈ members c) by (rewrite Hms; by left).
    assert (Hnd : NoDup (o :: ms)) by (rewrite <-Hms; apply (lc_nodup _ Hcore)). apply NoDup_cons in Hnd as [Homs _].
    destruct (member_heap c o Hcore Ho) as (ho' & Hho' & Hoi). rewrite Hsame in Hho by done. simplify_eq.
    assert (Hsub : ∀ x, x ∈ ms → x ∈ members c) by (intros x Hx; rewrite Hms; by right).
    destruct (FinishErase_ok (set_table c1 t) o ho (fresh_ c :: ms)) as (c' & E & Hinv' & Hheap & Hdel & Hcap & Hfr & Hl & Hu).
    { destruct Hcore1. by split. }
    { exact Hlinks1. }
    { change (heap_ c1 !! o = Some ho). by rewrite Hsame. }
    { done. }
    { change (members c1 ≡ₚ o :: fresh_ c :: ms). rewrite Hp, Hms. apply Permutation_swap. }
    { exact Ht. }
    { change (heap_ (set_table c1 t)) with (heap_ c1). intros x y hx hy Hx Hy Ehx Ehy Hhash Hkey.
      assert (Hclash : ∀ z hz, z ∈ ms → heap_ c !! z = Some hz → h_hash hz = h_hash h → h_key hz = h_key h → False).
      { intros z hz Hz Hhz Hh1 Hk1. destruct Hm as [Hm1 Hm2]. assert (z = o); [|by subst].
        apply (li_keys _ Hinv z o hz ho); try done; [by apply Hsub|congruence|congruence]. }
      apply elem_of_cons in Hx as [->|Hx]; apply elem_of_cons in Hy as [->|Hy]; [done|..].
      - exfalso. rewrite Hnew in Ehx. injection Ehx as <-. rewrite Hsame in Ehy by (by apply Hsub).
        by apply (Hclash y hy Hy Ehy).
      - exfalso. rewrite Hnew in Ehy. injection Ehy as <-. rewrite Hsame in Ehx by (by apply Hsub).
        by apply (Hclash x hx Hx Ehx).
      - rewrite !Hsame in * by (by apply Hsub). apply (li_keys _ Hinv x y hx hy); try done; by apply Hsub. }
    exists t, (Some o), c', true. split; [done|]. split; [exact E|]. split; [done|].
    change (capacity_ (set_table c1 t)) with (capacity_ c) in *. change (heap_ (set_table c1 t)) with (heap_ c1) in *.
    change (deleted_ (set_table c1 t)) with (deleted_ c) in *. change (lru_ (set_table c1 t)) with (lru_ c) in *.
    change (fresh_ (set_table c1 t)) with (S (fresh_ c)) in *.
    change (in_use_ (set_table c1 t)) with (in_use_ c ++ [fresh_ c]) in *.
    assert (Hof : o ≠ fresh_ c) by (intros ->; done).
    split; [done|]. split; [done|]. split; [|split; [|split; [|split; [|split]]]].
    + rewrite Hheap. unfold drop_heap. destruct (_ =? _); [by rewrite lookup_delete_ne|by rewrite lookup_insert_ne].
    + rewrite Hheap, Hdel. apply rtc_once. exists o, ho. cbn [fst snd]. rewrite Hsame by done. split; [done|].
      split; [done|]. split; [|done]. by apply (lc_heap _ Hcore o ho).
    + assert (Hml : (length (members c') ≤ length (lru_ c) + length (in_use_ c ++ [fresh_ c]))%nat).
      { unfold members. rewrite Hl, Hu, length_app. pose proof (length_filter (.≠ o) (lru_ c)).
        pose proof (length_filter (.≠ o) (in_use_ c ++ [fresh_ c])). lia. }
      unfold members at 2. rewrite length_app in *. cbn in Hml. lia.
    + rewrite Hl. apply list_filter_iff. intros x. split; [by intros Hx [= ->]|by intros Hx ->].
    + rewrite Hl. intros [_ ?]%list_elem_of_filter. done.
    + intros x. rewrite Hl. intros [Hxo Hx]%list_elem_of_filter. rewrite Hheap. unfold charge_of, drop_heap.
      assert (Hx' : x ∈ members c) by (apply elem_of_app; by left).
      destruct (_ =? _); [rewrite lookup_delete_ne by done|rewrite lookup_insert_ne by done]; by rewrite Hsame.
  - destruct Hold as [Ht Hno]. exists t, None, (set_table c1 t), false. split; [done|]. split; [done|].
    assert (Hinv' : lru_inv (set_table c1 t)).
    { split; [destruct Hcore1; by split|exact Hlinks1|by apply (table_ok_perm _ _ (fresh_ c :: members c))|].
      change (heap_ (set_table c1 t)) with (heap_ c1). change (members (set_table c1 t)) with (members c1).
      intros x y hx hy. rewrite Hp. intros Hx Hy Ehx Ehy Hhash Hkey.
      apply elem_of_cons in Hx as [->|Hx]; apply elem_of_cons in Hy as [->|Hy]; [done|..].
      - exfalso. rewrite Hnew in Ehx. injection Ehx as <-. apply (Hno y hy Hy Ehy). by split.
      - exfalso. rewrite Hnew in Ehy. injection Ehy as <-. apply (Hno x hx Hx Ehx). by split.
      - rewrite !Hsame in * by done. by apply (li_keys _ Hinv x y hx hy). }
    split; [done|]. split; [done|]. split; [done|]. split; [done|]. split; [apply rtc_refl|]. split; [|split; [|split]].
    + change (members (set_table c1 t)) with (members c1). by rewrite Hp.
    + change (lru_ (set_table c1 t)) with (lru_ c). symmetry. rewrite (list_filter_iff _ (λ _, True)); [|by intros].
      clear. induction (lru_ c) as [|x l IH]; [done|]. rewrite filter_cons, decide_True by done. by rewrite IH.
    + exact Hnl.
    + intros x Hx. unfold charge_of. change (heap_ (set_table c1 t)) with (heap_ c1). rewrite Hsame; [done|].
      apply elem_of_app. by left.
Qed.

(** The handle that [Insert] makes. *)
Definition new_handle (capacity : Z) (key : list Z) (hash : Z) (value : V) (charge : Z) : LRUHandle V :=
  if 0 <? capacity then mkLRUHandle value charge key true 2 hash else mkLRUHandle value charge key false 1 hash.

Lemma total_app heap l l' : total heap (l ++ l') = total heap l + total heap l'.
Proof. unfold total. induction l as [|x l IH]; [done|]. cbn [foldr app]. rewrite IH. lia. Qed.

(** Eviction after an insertion. *)
Lemma evict_capacity c :
  lru_inv c → Z.of_nat (length (members c)) < 2 ^ 32 →
  ∃ c' n, evict_while (length (lru_ c)) over_capacity c = Some c' ∧ lru_inv c' ∧
    lru_ c' = drop n (lru_ c) ∧ capacity_ c' = capacity_ c ∧ fresh_ c' = fresh_ c ∧
    (∀ x, x ∉ lru_ c → heap_ c' !! x = heap_ c !! x) ∧
    drops (capacity_ c) (heap_ c, deleted_ c) (heap_ c', deleted_ c') ∧
    (lru_ c' = [] ∨ usage_ c' ≤ capacity_ c') ∧
    ∀ m, (m < n)%nat →
      capacity_ c < u64 (total (heap_ c) (drop m (take n (lru_ c))) + total (heap_ c') (members c')).
Proof.
  intros Hinv Hlen.
  destruct (evict_while_ok (λ cap use, cap <? use) (length (lru_ c)) c Hinv Hlen ltac:(done))
    as (c' & n & E & Hinv' & Hl & Hu & Hcap & Hfr & Hsame & Hdrops & Hstop & Hmin).
  exists c', n. split; [exact E|]. split; [done|]. split; [done|]. split; [done|]. split; [done|].
  split. { intros x Hx. apply Hsame. intros Ht. apply Hx. apply list_elem_of_lookup in Ht as [i Ht].
           apply lookup_take_Some in Ht as [Ht _]. by eapply list_elem_of_lookup_2. }
  split; [done|]. split; [destruct Hstop as [?|Hs]; [by left|right; by apply Z.ltb_ge in Hs]|].
  intros m Hm. specialize (Hmin m Hm). apply Z.ltb_lt in Hmin.
  replace (total (heap_ c') (members c')) with (total (heap_ c) (members c')).
  - rewrite <-total_app. unfold members. rewrite Hl, Hu, app_assoc.
    replace (drop m (take n (lru_ c)) ++ drop n (lru_ c)) with (drop m (lru_ c)); [done|].
    rewrite <-(take_drop n (lru_ c)) at 1. destruct (decide (n ≤ length (lru_ c))%nat).
    + by rewrite drop_app_le by (rewrite length_take; lia).
    + rewrite (drop_ge (lru_ c) n) by lia. by rewrite !app_nil_r.
  - symmetry. apply total_same. intros x Hx. unfold charge_of. rewrite Hsame; [done|].
    pose proof (lc_nodup _ (li_core _ Hinv)) as Hnd. unfold members in Hnd. rewrite <-(take_drop n (lru_ c)), <-app_assoc in Hnd.
    unfold members in Hx. rewrite Hl, Hu in Hx. apply NoDup_app in Hnd as (_ & Hnd & _). intros Ht. by apply (Hnd x Ht).
Qed.

Lemma drops_trans cap s1 s2 s3 : drops cap s1 s2 → drops cap s2 s3 → drops cap s1 s3.
Proof. intros H1 H2. by etrans. Qed.

(** [Insert]: the new entry is found; entries leave from the oldest one on,
    as long as the charges are above the capacity. *)
Lemma lru_Insert_ok c key hash value charge :
  lru_inv c → Z.of_nat (length (members c)) < 2 ^ 31 →
  let e := fresh_ c in
  let h := new_handle (capacity_ c) key hash value charge in
  ∃ c' old n, lru_Insert c key hash value charge = Some (c', e) ∧ lru_inv c' ∧
    capacity_ c' = capacity_ c ∧ fresh_ c' = S e ∧ heap_ c' !! e = Some h ∧
    drops (capacity_ c) (<[e := h]> (heap_ c), deleted_ c) (heap_ c', deleted_ c') ∧
    let kept := filter (λ e, Some e ≠ old) (lru_ c) in
    lru_ c' = drop n kept ∧ (lru_ c' = [] ∨ usage_ c' ≤ capacity_ c') ∧
    ∀ m, (m < n)%nat → capacity_ c' < u64 (total (heap_ c) (drop m (take n kept)) + total (heap_ c') (members c')).
Proof.
  intros Hinv Hlen e h. unfold lru_Insert, h, new_handle, set_table, set_usage, LRU_Append_in_use, set_lists, set_heap, set_in_cache, set_refs.
  lru_simpl. rewrite insert_insert_eq. change (1 + 1) with 2.
  destruct (Z.ltb_spec 0 (capacity_ c)) as [Hcap|Hcap].
  - destruct (enter_ok c (mkLRUHandle value charge key true 2 hash) Hinv Hcap eq_refl eq_refl Hlen)
      as (t & old & c1 & b & Et & Ef & Hinv1 & Hcap1 & Hfr1 & Hnew & Hdrops1 & Hlen1 & Hl1 & Hn1 & Hch).
    unfold entered in *. lru_simpl. unfold e. rewrite Et. simpl_bind. unfold set_table in Ef. lru_simpl. rewrite Ef. simpl_bind.
    destruct (evict_capacity c1 Hinv1 ltac:(lia)) as (c' & n & -> & Hinv' & Hl & Hcap' & Hfr & Hsame & Hdrops & Hstop & Hmin).
    simpl_bind. exists c', old, n. split; [done|]. split; [done|]. split; [congruence|]. split; [congruence|].
    split; [by rewrite Hsame|]. split; [rewrite Hcap1 in Hdrops; by eapply drops_trans|]. rewrite <-Hl1. split; [done|]. split; [done|].
    intros m Hm. specialize (Hmin m Hm). rewrite Hcap', <-(total_same (heap_ c) (heap_ c1)); [done|].
    intros x Hx. apply Hch. apply list_elem_of_lookup in Hx as [i Hx]. rewrite lookup_drop in Hx.
    apply lookup_take_Some in Hx as [Hx _]. by eapply list_elem_of_lookup_2.
  - simpl_bind. set (c1 := mkLRU _ _ _ _ _ _ _ _ _).
    assert (Hinv1 : lru_inv c1) by (apply add_outside; done).
    assert (Hne : fresh_ c ∉ members c).
    { intros Hx. destruct (member_heap c _ (li_core _ Hinv) Hx) as (h' & Hh' & _).
      apply (lc_heap _ (li_core _ Hinv)) in Hh' as [? _]. lia. }
    destruct (evict_capacity c1 Hinv1) as (c' & n & E & Hinv' & Hl & Hcap' & Hfr & Hsame & Hdrops & Hstop & Hmin).
    { unfold c1, members. lru_simpl. unfold members in Hlen. lia. }
    change (lru_ c1) with (lru_ c) in *. rewrite E. simpl_bind. exists c', None, n.
    split; [done|]. split; [done|]. split; [done|]. split; [done|]. split.
    { rewrite Hsame; [by apply lookup_insert_eq|]. intros Hx. apply Hne, elem_of_app. by left. }
    split; [done|].
    assert (Hall : ∀ old : option nat, old = None → filter (λ x, Some x ≠ old) (lru_ c) = lru_ c).
    { clear. intros old ->. induction (lru_ c) as [|x l IH]; [done|]. rewrite filter_cons, decide_True by done. by rewrite IH. }
    rewrite (Hall None eq_refl). split; [done|]. split; [done|]. intros m Hm. specialize (Hmin m Hm).
    rewrite Hcap', <-(total_same (heap_ c) (heap_ c1)); [done|]. intros x Hx. unfold charge_of, c1. lru_simpl.
    rewrite lookup_insert_ne; [done|]. intros <-. apply Hne, elem_of_app. left.
    apply list_elem_of_lookup in Hx as [i Hx]. rewrite lookup_drop in Hx.
    apply lookup_take_Some in Hx as [Hx _]. by eapply list_elem_of_lookup_2.
Qed.

Lemma lru_Erase_ok c key hash :
  lru_inv c → Z.of_nat (length (members c)) < 2 ^ 32 →
  ∃ c', lru_Erase c key hash = Some c' ∧ lru_inv c' ∧ capacity_ c' = capacity_ c ∧ fresh_ c' = fresh_ c ∧
    drops (capacity_ c) (heap_ c, deleted_ c) (heap_ c', deleted_ c') ∧
    ∀ e h, heap_ c' !! e = Some h → h_in_cache h = true → ¬ matches key hash h.
Proof.
  intros Hinv Hlen. pose proof (li_core _ Hinv) as Hcore. unfold lru_Erase.
  destruct (remove_ok c key hash Hinv Hlen) as (t & r & c' & b & -> & E & Hinv' & Hres). simpl_bind. rewrite E. simpl_bind.
  exists c'. split; [done|]. split; [done|]. destruct r as [o|].
  - destruct Hres as [-> (h & Hh & Hi & Hm & Hheap & Hdel & Hcap & Hfr & _)]. split; [done|]. split; [done|]. split.
    + rewrite Hheap, Hdel. apply rtc_once. exists o, h. cbn. split; [done|]. split; [done|]. split; [|done].
      by apply (lc_heap _ Hcore o h).
    + intros e he. rewrite Hheap. intros He Hei [M1 M2]. destruct Hm as [M3 M4].
      destruct (decide (e = o)) as [->|Hne].
      * unfold drop_heap in He. destruct (_ =? _); [by rewrite lookup_delete_eq in He|].
        rewrite lookup_insert_eq in He. injection He as <-. done.
      * assert (He' : heap_ c !! e = Some he).
        { unfold drop_heap in He. destruct (_ =? _); [by rewrite lookup_delete_ne in He|by rewrite lookup_insert_ne in He]. }
        apply Hne. apply (li_keys _ Hinv e o he h); try done; try congruence.
        -- by apply (lc_heap _ Hcore e he He').
        -- by apply (lc_heap _ Hcore o h Hh).
  - destruct Hres as (_ & -> & Hno). split; [done|]. split; [done|]. split; [apply rtc_refl|done].
Qed.

Lemma lru_Prune_ok c :
  lru_inv c → Z.of_nat (length (members c)) < 2 ^ 32 →
  ∃ c', lru_Prune c = Some c' ∧ lru_inv c' ∧ capacity_ c' = capacity_ c ∧ fresh_ c' = fresh_ c ∧
    drops (capacity_ c) (heap_ c, deleted_ c) (heap_ c', deleted_ c') ∧ lru_ c' = [] ∧ in_use_ c' = in_use_ c.
Proof.
  intros Hinv Hlen.
  destruct (evict_while_ok (λ _ _, true) (length (lru_ c)) c Hinv Hlen ltac:(done))
    as (c' & n & E & Hinv' & Hl & Hu & Hcap & Hfr & _ & Hdrops & Hstop & _).
  exists c'. split; [exact E|]. destruct Hstop as [Hs|]; [|done]. done.
Qed.

Lemma NewLRUCache_shard_ok capacity :
  ∃ c, NewLRUCache_shard = Some c ∧ lru_inv (SetCapacity c capacity) ∧
    heap_ (SetCapacity c capacity) = ∅ ∧ deleted_ (SetCapacity c capacity) = [] ∧
    lru_ (SetCapacity c capacity) = [] ∧ in_use_ (SetCapacity c capacity) = [] ∧ fresh_ (SetCapacity c capacity) = 0%nat.
Proof.
  unfold NewLRUCache_shard. destruct (NewHandleTable_ok (V := V) ∅) as (t & -> & Ht). simpl_bind.
  eexists. split; [done|]. split; [|done]. split; [split| |exact Ht|].
  - constructor.
  - by intros e ?%not_elem_of_nil.
  - by intros e ?%not_elem_of_nil.
  - intros e h. cbn. by rewrite lookup_empty.
  - done.
  - split; [done|done|intros e; cbn; by rewrite lookup_empty|]. cbn. by destruct (0 <? capacity); rewrite !dom_empty_L.
  - intros x y hx hy Hx. by apply not_elem_of_nil in Hx.
Qed.
End spec.
