(* ===== verification/LruTheorems.v ===== *)
(** What the LRU cache promises to clients that release the handles they hold,
    and no others. *)

From Stdlib Require Import ZArith Lia.
From stdpp Require Import base option numbers list gmap.
From S2P Require Import Prelude Coding Slice Bloom LruCache LruSpec.

(** ** Sessions *)

Inductive cache_op (V : Type) :=
  | CInsert (key : list Z) (hash : Z) (value : V) (charge : Z)
  | CLookup (key : list Z) (hash : Z)
  | CRelease (i : nat)                    (* the [i]-th handle that is held *)
  | CErase (key : list Z) (hash : Z)
  | CPrune.
Arguments CInsert {V}.
Arguments CLookup {V}.
Arguments CRelease {V}.
Arguments CErase {V}.
Arguments CPrune {V}.

Section session.
Context {V : Type}.
Implicit Types (c : LRUCache V) (held : list nat) (heap : gmap nat (LRUHandle V)).

(** [held] are the handles that the clients have and have not released. *)
Definition session_step (s : LRUCache V * list nat) (op : cache_op V) : option (LRUCache V * list nat) :=
  let '(c, held) := s in
  match op with
  | CInsert key hash value charge => '(c, e) ← lru_Insert c key hash value charge; Some (c, held ++ [e])
  | CLookup key hash =>
      '(c, r) ← lru_Lookup c key hash;
      Some (c, held ++ match r with Some e => [e] | None => [] end)
  | CRelease i =>
      match held !! i with
      | Some e => c ← lru_Release c e; Some (c, delete i held)
      | None => Some (c, held)
      end
  | CErase key hash => c ← lru_Erase c key hash; Some (c, held)
  | CPrune => c ← lru_Prune c; Some (c, held)
  end.

Fixpoint run_session (s : LRUCache V * list nat) (ops : list (cache_op V)) : option (LRUCache V * list nat) :=
  match ops with
  | [] => Some s
  | op :: ops => s ← session_step s op; run_session s ops
  end.

(** The keys and values that have been inserted, in order: handle [e] is that
    of insertion [e]. *)
Definition inserted (ops : list (cache_op V)) : list (list Z * V) :=
  ops ≫= λ op, match op with CInsert key _ value _ => [(key, value)] | _ => [] end.

(** The last insertion of a hash and key that has not been erased since. *)
Fixpoint latest (n : nat) (m : gmap (Z * list Z) nat) (ops : list (cache_op V)) : gmap (Z * list Z) nat :=
  match ops with
  | [] => m
  | CInsert key hash _ _ :: ops => latest (S n) (<[(hash, key) := n]> m) ops
  | CErase key hash :: ops => latest n (delete (hash, key) m) ops
  | _ :: ops => latest n m ops
  end.

(** The entries that are alive. *)
Definition live heap : list (list Z * V) := (λ p, (h_key p.2, h_value p.2)) <$> map_to_list heap.

Definition times e held : Z := Z.of_nat (length (filter (.= e) held)).

Record entries_ok (cap : Z) heap (deleted : list (option (list Z) * V)) (ins : list (list Z * V)) held : Prop := {
  eo_refs e h : heap !! e = Some h → client_refs h = times e held;
  eo_held e : e ∈ held → is_Some (heap !! e);
  eo_values e h : heap !! e = Some h → ins !! e = Some (h_key h, h_value h);
  eo_deleted : given cap <$> ins ≡ₚ deleted ++ (given cap <$> live heap)
}.

Lemma live_delete heap e h : heap !! e = Some h → live heap ≡ₚ (h_key h, h_value h) :: live (delete e heap).
Proof. intros Hh. unfold live. by rewrite <-(map_to_list_delete heap e h Hh). Qed.

Lemma live_insert heap e h : heap !! e = None → live (<[e := h]> heap) ≡ₚ (h_key h, h_value h) :: live heap.
Proof. intros Hh. unfold live. by rewrite map_to_list_insert. Qed.

Lemma live_update heap e h h' :
  heap !! e = Some h → h_key h' = h_key h → h_value h' = h_value h → live (<[e := h']> heap) ≡ₚ live heap.
Proof.
  intros Hh Hk Hv. rewrite (live_delete heap e h Hh), <-insert_delete_eq, live_insert by apply lookup_delete_eq.
  by rewrite Hk, Hv.
Qed.

Lemma times_app e l l' : times e (l ++ l') = times e l + times e l'.
Proof. unfold times. rewrite filter_app, length_app. lia. Qed.

Lemma times_one e e' : times e [e'] = if decide (e' = e) then 1 else 0.
Proof. unfold times. rewrite filter_cons. by destruct (decide (e' = e)). Qed.

Lemma times_perm e l l' : l ≡ₚ l' → times e l = times e l'.
Proof. intros Hp. unfold times. by rewrite Hp. Qed.

Lemma times_in e l : 0 < times e l ↔ e ∈ l.
Proof.
  unfold times. split.
  - intros Hp. destruct (filter (.= e) l) as [|x l'] eqn:E; [cbn in Hp; lia|].
    assert (x ∈ filter (.= e) l) as [-> ?]%list_elem_of_filter by (rewrite E; by left). done.
  - intros He. assert (e ∈ filter (.= e) l) as Hf by (by apply list_elem_of_filter).
    destruct (filter (.= e) l); [by apply not_elem_of_nil in Hf|cbn; lia].
Qed.

Lemma times_le e l : times e l ≤ Z.of_nat (length l).
Proof. unfold times. pose proof (length_filter (.= e) l). lia. Qed.

(** An entry's count changes with the handles that are held. *)
Lemma entries_recount cap heap deleted ins held held' e h refs :
  entries_ok cap heap deleted ins held → heap !! e = Some h →
  (∀ x, x ≠ e → times x held' = times x held) → refs - h_refs h = times e held' - times e held →
  entries_ok cap (<[e := set_refs h refs]> heap) deleted ins held'.
Proof.
  intros [H1 H2 H3 H4] Hh Hx He. split.
  - intros x hx. destruct (decide (x = e)) as [->|Hne].
    + rewrite lookup_insert_eq. intros [= <-]. specialize (H1 e h Hh). unfold client_refs in *. lru_simpl. lia.
    + rewrite lookup_insert_ne by done. intros Hhx. rewrite Hx by done. by apply H1.
  - intros x Hin. destruct (decide (x = e)) as [->|Hne]; [rewrite lookup_insert_eq; by eexists|].
    rewrite lookup_insert_ne by done. apply H2. apply times_in. rewrite <-Hx by done. by apply times_in.
  - intros x hx. destruct (decide (x = e)) as [->|Hne].
    + rewrite lookup_insert_eq. intros [= <-]. exact (H3 e h Hh).
    + rewrite lookup_insert_ne by done. apply H3.
  - by rewrite (live_update heap e h).
Qed.

Lemma entries_delete cap heap deleted ins held held' e h :
  entries_ok cap heap deleted ins held → heap !! e = Some h → e ∉ held' →
  (∀ x, x ≠ e → times x held' = times x held) →
  entries_ok cap (delete e heap) (deleted ++ [given cap (h_key h, h_value h)]) ins held'.
Proof.
  intros [H1 H2 H3 H4] Hh He Hx. split.
  - intros x hx. rewrite lookup_delete_Some. intros [Hne Hhx]. rewrite Hx by done. by apply H1.
  - intros x Hin. assert (Hne : x ≠ e) by (intros ->; done).
    rewrite lookup_delete_ne by done. apply H2, times_in. rewrite <-Hx by done. by apply times_in.
  - intros x hx. rewrite lookup_delete_Some. intros [_ Hhx]. by apply H3.
  - rewrite H4, (live_delete heap e h Hh), <-app_assoc. done.
Qed.

Lemma entries_drop_one cap heap deleted ins held s :
  entries_ok cap heap deleted ins held → drop_one cap (heap, deleted) s → entries_ok cap s.1 s.2 ins held.
Proof.
  intros Hok (e & h & Hh & Hi & Hr & ->). cbn [fst snd] in *. unfold drop_heap, unref_deleted.
  pose proof (eo_refs _ _ _ _ _ Hok e h Hh) as Hc. unfold client_refs in Hc. rewrite Hi in Hc.
  destruct (Z.eqb_spec (h_refs h) 1) as [E|E].
  - apply (entries_delete _ _ _ _ held); [done|done| |done]. intros He%times_in. lia.
  - destruct Hok as [H1 H2 H3 H4]. split.
    + intros x hx. destruct (decide (x = e)) as [->|Hne].
      * rewrite lookup_insert_eq. intros [= <-]. unfold client_refs. lru_simpl. lia.
      * rewrite lookup_insert_ne by done. apply H1.
    + intros x Hx. destruct (decide (x = e)) as [->|Hne]; [rewrite lookup_insert_eq; by eexists|].
      rewrite lookup_insert_ne by done. by apply H2.
    + intros x hx. destruct (decide (x = e)) as [->|Hne].
      * rewrite lookup_insert_eq. intros [= <-]. exact (H3 e h Hh).
      * rewrite lookup_insert_ne by done. apply H3.
    + by rewrite (live_update heap e h).
Qed.

Lemma entries_drops cap (s s' : gmap nat (LRUHandle V) * list (option (list Z) * V)) ins held :
  drops cap s s' → entries_ok cap s.1 s.2 ins held → entries_ok cap s'.1 s'.2 ins held.
Proof.
  induction 1 as [|[heap deleted] s2 s3 Hd _ IH]; [done|]. intros Hok. apply IH. by eapply entries_drop_one.
Qed.

(** What is in the cache afterwards was there before. *)
Lemma drops_cached cap (s s' : gmap nat (LRUHandle V) * list (option (list Z) * V)) e h :
  drops cap s s' → s'.1 !! e = Some h → h_in_cache h = true → s.1 !! e = Some h.
Proof.
  induction 1 as [|s s2 s3 (o & ho & Ho & Hi & _ & ->) _ IH]; [done|]. intros Hh Hc. specialize (IH Hh Hc).
  cbn [fst] in IH. unfold drop_heap in IH. destruct (decide (e = o)) as [->|Hne].
  - destruct (_ =? _); [by rewrite lookup_delete_eq in IH|]. rewrite lookup_insert_eq in IH. injection IH as <-. done.
  - destruct (_ =? _); [by rewrite lookup_delete_ne in IH|by rewrite lookup_insert_ne in IH].
Qed.

(** ** The invariant of a session *)

(** [ins] are the insertions so far, [m] the latest of them for each key; [n]
    bounds the numbers of entries in the cache and of handles that are held. *)
Record session_ok (c : LRUCache V) held (ins : list (list Z * V)) (m : gmap (Z * list Z) nat) (n : nat) : Prop := {
  so_inv : lru_inv c;
  so_entries : entries_ok (capacity_ c) (heap_ c) (deleted_ c) ins held;
  so_fresh : length ins = fresh_ c;
  so_latest e h : heap_ c !! e = Some h → h_in_cache h = true → m !! (h_hash h, h_key h) = Some e;
  so_off : capacity_ c ≤ 0 → members c = [];
  so_bound : (length (members c) ≤ n)%nat ∧ (length held ≤ n)%nat
}.

Lemma NoDup_sub_length (l l' : list nat) : NoDup l → l ⊆ l' → (length l ≤ length l')%nat.
Proof. intros Hnd Hs. by apply submseteq_length, NoDup_submseteq. Qed.

(** The members after entries have left. *)
Lemma drops_members cap c c' s :
  lru_inv c' → drops cap s (heap_ c', deleted_ c') → ∀ x, x ∈ members c' → ∃ h, s.1 !! x = Some h ∧ h_in_cache h = true.
Proof.
  intros Hinv Hd x Hx. destruct (member_heap c' x (li_core _ Hinv) Hx) as (h & Hh & Hi). exists h.
  split; [|done]. by apply (drops_cached _ _ _ x h Hd).
Qed.

Lemma refs_bound c held ins m n e h :
  session_ok c held ins m n → heap_ c !! e = Some h → h_refs h ≤ Z.of_nat n + 1.
Proof.
  intros Hs Hh. pose proof (eo_refs _ _ _ _ _ (so_entries _ _ _ _ _ Hs) e h Hh) as Hr. unfold client_refs in Hr.
  pose proof (times_le e held). destruct (so_bound _ _ _ _ _ Hs). destruct (h_in_cache h); lia.
Qed.

(** Entries that leave do not disturb a session. *)
Lemma session_drops c c' held ins m n m' :
  session_ok c held ins m n → lru_inv c' → capacity_ c' = capacity_ c → fresh_ c' = fresh_ c →
  drops (capacity_ c) (heap_ c, deleted_ c) (heap_ c', deleted_ c') →
  (∀ e h, heap_ c' !! e = Some h → h_in_cache h = true → m !! (h_hash h, h_key h) = Some e →
     m' !! (h_hash h, h_key h) = Some e) →
  session_ok c' held ins m' n.
Proof.
  intros [Hinv Hent Hfr Hlat Hoff Hb] Hinv' Hcap Hf Hd Hm.
  assert (Hsub : members c' ⊆ members c).
  { intros x Hx. destruct (drops_members _ c c' _ Hinv' Hd x Hx) as (h & Hh & Hi).
    by apply (lc_heap _ (li_core _ Hinv) x h). }
  split; [done| |by rewrite Hf| | |].
  - rewrite Hcap. by apply (entries_drops _ _ _ ins held Hd).
  - intros e h Hh Hi. apply (Hm e h Hh Hi). apply (Hlat e h); [|done]. by apply (drops_cached _ _ _ e h Hd).
  - rewrite Hcap. intros Hc. specialize (Hoff Hc). rewrite Hoff in Hsub. by apply list_nil_subseteq in Hsub.
  - pose proof (NoDup_sub_length _ _ (lc_nodup _ (li_core _ Hinv')) Hsub). lia.
Qed.

(** *** The operations *)

Lemma session_Insert c held ins m n key hash value charge :
  session_ok c held ins m n → Z.of_nat n + 1 < 2 ^ 31 →
  ∃ c', lru_Insert c key hash value charge = Some (c', fresh_ c) ∧
    session_ok c' (held ++ [fresh_ c]) (ins ++ [(key, value)]) (<[(hash, key) := fresh_ c]> m) (S n) ∧
    capacity_ c' = capacity_ c.
Proof.
  intros Hs Hn. pose proof Hs as [Hinv Hent Hfr Hlat Hoff [Hb1 Hb2]].
  destruct (lru_Insert_ok c key hash value charge Hinv ltac:(lia))
    as (c' & old & k & -> & Hinv' & Hcap & Hf & Hnew & Hd & _).
  exists c'. split; [done|]. set (h := new_handle _ _ _ _ _) in *.
  assert (Hfresh : heap_ c !! fresh_ c = None).
  { destruct (heap_ c !! fresh_ c) as [h'|] eqn:E; [|done]. apply (lc_heap _ (li_core _ Hinv)) in E as [? _]. lia. }
  assert (Hheld : fresh_ c ∉ held).
  { intros Hx. destruct (eo_held _ _ _ _ _ Hent _ Hx) as [h' E]. congruence. }
  assert (Ht0 : times (fresh_ c) held = 0).
  { pose proof (times_in (fresh_ c) held) as Hin. unfold times in *.
    destruct (decide (0 < Z.of_nat (length (filter (.= fresh_ c) held)))) as [Hp|]; [by apply Hin in Hp|lia]. }
  assert (Hkey : h_key h = key ∧ h_value h = value ∧ h_hash h = hash ∧ client_refs h = 1 ∧ (h_in_cache h = true → 0 < capacity_ c)).
  { unfold h, new_handle, client_refs. destruct (Z.ltb_spec 0 (capacity_ c)); by split_and!. }
  destruct Hkey as (Ek & Ev & Eh & Ec & Eoff).
  assert (Hent1 : entries_ok (capacity_ c) (<[fresh_ c := h]> (heap_ c)) (deleted_ c) (ins ++ [(key, value)]) (held ++ [fresh_ c])).
  { destruct Hent as [H1 H2 H3 H4]. split.
    - intros x hx. rewrite times_app, times_one. destruct (decide (fresh_ c = x)) as [<-|Hne].
      + rewrite lookup_insert_eq. intros [= <-]. lia.
      + rewrite lookup_insert_ne by done. intros Hx. rewrite (H1 x hx Hx). lia.
    - intros x Hx. destruct (decide (fresh_ c = x)) as [<-|Hne]; [rewrite lookup_insert_eq; by eexists|].
      rewrite lookup_insert_ne by done. apply H2. apply elem_of_app in Hx as [?|?%list_elem_of_singleton]; congruence.
    - intros x hx. destruct (decide (fresh_ c = x)) as [<-|Hne].
      + rewrite lookup_insert_eq. intros [= <-]. rewrite lookup_app_r, Hfr, Nat.sub_diag by lia. cbn. by rewrite Ek, Ev.
      + rewrite lookup_insert_ne by done. intros Hx. apply lookup_app_l_Some. by apply H3.
    - rewrite (live_insert _ _ _ Hfresh), Ek, Ev, fmap_app, H4. cbn [fmap list_fmap]. solve_Permutation. }
  split; [|done]. split; [done| | | | |].
  - rewrite Hcap. exact (entries_drops _ _ _ _ _ Hd Hent1).
  - rewrite length_app, Hf, Hfr. cbn. lia.
  - intros x hx Hx Hi. pose proof (drops_cached _ _ _ x hx Hd Hx Hi) as Hold. cbn [fst] in Hold.
    destruct (decide (fresh_ c = x)) as [<-|Hne].
    + rewrite lookup_insert_eq in Hold. injection Hold as <-. by rewrite Eh, Ek, lookup_insert_eq.
    + rewrite lookup_insert_ne in Hold by done. rewrite lookup_insert_ne; [by apply Hlat|].
      intros [= E1 E2]. apply Hne.
      assert (Hmem : ∀ y hy, heap_ c' !! y = Some hy → h_in_cache hy = true → y ∈ members c')
        by (intros y hy Hy; by apply (lc_heap _ (li_core _ Hinv') y hy)).
      assert (Hci : h_in_cache h = true).
      { unfold h, new_handle. destruct (Z.ltb_spec 0 (capacity_ c)) as [|Hc0]; [done|exfalso].
        destruct (lc_heap _ (li_core _ Hinv) x hx Hold) as (_ & _ & Hmx). specialize (Hmx Hi).
        rewrite (Hoff Hc0) in Hmx. by apply not_elem_of_nil in Hmx. }
      apply (li_keys _ Hinv' (fresh_ c) x h hx); try done; [by eapply Hmem|by eapply Hmem|congruence|congruence].
  - rewrite Hcap. intros Hc. destruct (members c') as [|x l] eqn:Em; [done|exfalso].
    destruct (member_heap c' x (li_core _ Hinv')) as (hx & Hx & Hi); [rewrite Em; by left|].
    pose proof (drops_cached _ _ _ x hx Hd Hx Hi) as Hold. cbn [fst] in Hold.
    destruct (decide (fresh_ c = x)) as [<-|Hne].
    + rewrite lookup_insert_eq in Hold. injection Hold as <-. specialize (Eoff Hi). lia.
    + rewrite lookup_insert_ne in Hold by done.
      destruct (lc_heap _ (li_core _ Hinv) x hx Hold) as (_ & _ & Hmx). specialize (Hmx Hi).
      rewrite (Hoff Hc) in Hmx. by apply not_elem_of_nil in Hmx.
  - rewrite length_app. cbn. split; [|lia].
    assert (Hsub : members c' ⊆ fresh_ c :: members c).
    { intros x Hx. destruct (drops_members _ c c' _ Hinv' Hd x Hx) as (hx & Hhx & Hi). cbn [fst] in Hhx.
      destruct (decide (fresh_ c = x)) as [<-|Hne]; [by left|]. rewrite lookup_insert_ne in Hhx by done. right.
      by apply (lc_heap _ (li_core _ Hinv) x hx). }
    pose proof (NoDup_sub_length _ _ (lc_nodup _ (li_core _ Hinv')) Hsub) as Hl. cbn in Hl. lia.
Qed.

Lemma session_same c c' held held' ins m n e h refs :
  session_ok c held ins m n → lru_inv c' → heap_ c !! e = Some h →
  heap_ c' = <[e := set_refs h refs]> (heap_ c) → deleted_ c' = deleted_ c → fresh_ c' = fresh_ c →
  capacity_ c' = capacity_ c → members c' ≡ₚ members c →
  (∀ x, x ≠ e → times x held' = times x held) → refs - h_refs h = times e held' - times e held →
  (length held' ≤ S n)%nat → session_ok c' held' ins m (S n).
Proof.
  intros [Hinv Hent Hfr Hlat Hoff [Hb1 Hb2]] Hinv' Hh Eh Ed Ef Ec Hm Hx He Hl.
  split; [done| |by rewrite Ef| | |rewrite (Permutation_length Hm); lia].
  - rewrite Eh, Ed, Ec. by apply (entries_recount _ _ _ _ held).
  - intros x hx. rewrite Eh. destruct (decide (x = e)) as [->|Hne].
    + rewrite lookup_insert_eq. intros [= <-] Hi. exact (Hlat e h Hh Hi).
    + rewrite lookup_insert_ne by done. apply Hlat.
  - rewrite Ec. intros Hc. rewrite (Hoff Hc) in Hm. by apply Permutation_nil_r in Hm.
Qed.

Lemma session_more c held ins m n : session_ok c held ins m n → session_ok c held ins m (S n).
Proof. intros [? ? ? ? ? [? ?]]. split; try done. lia. Qed.

Lemma session_Lookup c held ins m n key hash :
  session_ok c held ins m n → Z.of_nat n + 1 < 2 ^ 31 →
  ∃ c' r, lru_Lookup c key hash = Some (c', r) ∧
    session_ok c' (held ++ match r with Some e => [e] | None => [] end) ins m (S n) ∧
    capacity_ c' = capacity_ c ∧ ∀ e, r = Some e → m !! (hash, key) = Some e.
Proof.
  intros Hs Hn. pose proof Hs as [Hinv Hent Hfr Hlat Hoff [Hb1 Hb2]].
  destruct (lru_Lookup_ok c key hash Hinv) as (c' & r & -> & Hinv' & Hres).
  { intros e h Hh. pose proof (refs_bound _ _ _ _ _ _ _ Hs Hh). change (2 ^ 32) with (2 * 2 ^ 31). lia. }
  exists c', r. split; [done|]. destruct r as [e|].
  - destruct Hres as (h & Hh & Hi & [E1 E2] & Eh & Ec & _ & Ef & Ed & Hm & _). split.
    + apply (session_same c c' held _ ins m n e h (h_refs h + 1)); try done.
      * intros x Hne. rewrite times_app, times_one, decide_False by auto. lia.
      * rewrite times_app, times_one, decide_True by done. lia.
      * rewrite length_app. cbn. lia.
    + split; [done|]. intros e' [= <-]. rewrite <-E1, <-E2. by apply Hlat.
  - destruct Hres as [-> _]. rewrite app_nil_r. split; [by apply session_more|done].
Qed.

Lemma session_Release c held ins m n i e :
  session_ok c held ins m n → held !! i = Some e → Z.of_nat n + 1 < 2 ^ 31 →
  ∃ c', lru_Release c e = Some c' ∧ session_ok c' (delete i held) ins m (S n) ∧ capacity_ c' = capacity_ c.
Proof.
  intros Hs Hi Hn. pose proof Hs as [Hinv Hent Hfr Hlat Hoff [Hb1 Hb2]].
  assert (He : e ∈ held) by (by eapply list_elem_of_lookup_2).
  destruct (eo_held _ _ _ _ _ Hent e He) as [h Hh]. pose proof (eo_refs _ _ _ _ _ Hent e h Hh) as Hr.
  pose proof (proj2 (times_in e held) He) as Hpos. unfold lru_Release.
  destruct (Unref_ok c e h Hinv Hh ltac:(lia)) as (c' & -> & Hinv' & Eh & Ed & Ec & _ & Ef & Hm & _).
  exists c'. split; [done|]. split; [|done]. pose proof (delete_Permutation held i e Hi) as Hp.
  assert (Ht : ∀ x, times x held = times x [e] + times x (delete i held))
    by (intros x; rewrite <-times_app; by apply times_perm).
  pose proof (f_equal Z.of_nat (Permutation_length Hp)) as Hlen. cbn [length] in Hlen.
  unfold unref_heap, unref_deleted in *. destruct (Z.eqb_spec (h_refs h) 1) as [E1|E1].
  - assert (Hic : h_in_cache h = false) by (unfold client_refs in Hr; destruct (h_in_cache h); [lia|done]).
    assert (Hte : times e (delete i held) = 0).
    { specialize (Ht e). rewrite times_one, decide_True in Ht by done. unfold client_refs in Hr. rewrite Hic in Hr. lia. }
    assert (Hne : e ∉ delete i held) by (intros Hin%times_in; lia).
    split; [done| |by rewrite Ef| | |rewrite (Permutation_length Hm); lia].
    + rewrite Eh, Ed, Ec. apply (entries_delete _ _ _ _ held); [done..|].
      intros x Hne'. rewrite Ht, times_one, decide_False by auto. lia.
    + intros x hx. rewrite Eh, lookup_delete_Some. intros [_ Hx]. by apply Hlat.
    + rewrite Ec. intros Hc. rewrite (Hoff Hc) in Hm. by apply Permutation_nil_r in Hm.
  - apply (session_same c c' held _ ins m n e h (h_refs h - 1)); try done.
    + intros x Hne. rewrite Ht, times_one, decide_False by auto. lia.
    + rewrite (Ht e), times_one, decide_True by done. lia.
    + lia.
Qed.

(** One step of a session, and the bookkeeping for it. *)
Definition step_ins (ins : list (list Z * V)) (op : cache_op V) : list (list Z * V) :=
  match op with CInsert key _ value _ => ins ++ [(key, value)] | _ => ins end.

Definition step_latest (n : nat) (m : gmap (Z * list Z) nat) (op : cache_op V) : gmap (Z * list Z) nat :=
  match op with
  | CInsert key hash _ _ => <[(hash, key) := n]> m
  | CErase key hash => delete (hash, key) m
  | _ => m
  end.

Lemma session_step_ok c held ins m n op :
  session_ok c held ins m n → Z.of_nat n + 1 < 2 ^ 31 →
  ∃ c' held', session_step (c, held) op = Some (c', held') ∧
    session_ok c' held' (step_ins ins op) (step_latest (length ins) m op) (S n) ∧ capacity_ c' = capacity_ c.
Proof.
  intros Hs Hn. pose proof (so_fresh _ _ _ _ _ Hs) as Hfr.
  destruct (so_bound _ _ _ _ _ Hs) as [Hb1 Hb2].
  assert (Hml : Z.of_nat (length (members c)) < 2 ^ 32) by (change (2 ^ 32) with (2 * 2 ^ 31); lia).
  destruct op as [key hash value charge|key hash|i|key hash|]; cbn [session_step step_ins step_latest].
  - destruct (session_Insert c held ins m n key hash value charge Hs Hn) as (c' & -> & Hs' & Hc). simpl_bind.
    eexists _, _. split; [done|]. by rewrite Hfr.
  - destruct (session_Lookup c held ins m n key hash Hs Hn) as (c' & r & -> & Hs' & Hc & _). simpl_bind. by eexists _, _.
  - destruct (held !! i) as [e|] eqn:Ei.
    + destruct (session_Release c held ins m n i e Hs Ei Hn) as (c' & -> & Hs' & Hc). simpl_bind. by eexists _, _.
    + eexists _, _. split; [done|]. split; [by apply session_more|done].
  - destruct (lru_Erase_ok c key hash (so_inv _ _ _ _ _ Hs) Hml) as (c' & -> & Hinv' & Ec & Ef & Hd & Hno). simpl_bind.
    eexists _, _. split; [done|]. split; [|done]. apply session_more. apply (session_drops c c' held ins m n); try done.
    intros e h Hh Hi Hm. rewrite lookup_delete_ne; [done|]. intros [= E1 E2]. apply (Hno e h Hh Hi). by split.
  - destruct (lru_Prune_ok c (so_inv _ _ _ _ _ Hs) Hml) as (c' & -> & Hinv' & Ec & Ef & Hd & _). simpl_bind.
    eexists _, _. split; [done|]. split; [|done]. apply session_more. by apply (session_drops c c' held ins m n).
Qed.

Lemma run_session_ok ops : ∀ c held ins m n,
  session_ok c held ins m n → Z.of_nat (n + length ops) < 2 ^ 31 →
  ∃ c' held', run_session (c, held) ops = Some (c', held') ∧
    session_ok c' held' (ins ++ inserted ops) (latest (length ins) m ops) (n + length ops) ∧
    capacity_ c' = capacity_ c.
Proof.
  induction ops as [|op ops IH]; intros c held ins m n Hs Hn; cbn [run_session].
  { exists c, held. split; [done|]. cbn. by rewrite app_nil_r, Nat.add_0_r. }
  cbn [length] in Hn. destruct (session_step_ok c held ins m n op Hs ltac:(lia)) as (c1 & held1 & -> & Hs1 & Hc1). simpl_bind.
  destruct (IH c1 held1 _ _ (S n) Hs1 ltac:(lia)) as (c' & held' & -> & Hs' & Hc'). exists c', held'. split; [done|].
  split; [|congruence].
  replace (n + length (op :: ops))%nat with (S n + length ops)%nat by (cbn; lia).
  destruct op; cbn [step_ins step_latest latest] in *; try exact Hs'.
  rewrite length_app in Hs'. cbn [length] in Hs'. rewrite Nat.add_1_r in Hs'.
  unfold inserted in *. cbn [mbind list_bind app] in *. by rewrite <-app_assoc in Hs'.
Qed.

(** The entries that the destructor deletes. *)
Lemma destroy_entries_ok l : ∀ c,
  NoDup l →
  (∀ e, e ∈ l → ∃ h, heap_ c !! e = Some h ∧ h_in_cache h = true ∧ h_refs h = 1 ∧
     ∀ h', handle_key c e h' = (given (capacity_ c) (h_key h', h_value h')).1) →
  ∃ c', destroy_entries c l = Some c' ∧ (∀ e, heap_ c' !! e = if decide (e ∈ l) then None else heap_ c !! e) ∧
    deleted_ c ++ (given (capacity_ c) <$> live (heap_ c)) ≡ₚ deleted_ c' ++ (given (capacity_ c) <$> live (heap_ c')).
Proof.
  induction l as [|e l IH]; intros c Hnd Hl; cbn [destroy_entries]; [by exists c|].
  apply NoDup_cons in Hnd as [Hne Hnd]. destruct (Hl e ltac:(by left)) as (h & Hh & Hi & Hr & Hk).
  rewrite Hh. simpl_bind. rewrite Hi, Hr. change (negb (1 =? 1)) with false. cbn [negb].
  unfold lru_Unref. lru_simpl. rewrite lookup_insert_eq. simpl_bind. lru_simpl. rewrite Hr.
  change (negb (0 <? 1)) with false. change (1 - 1 =? 0) with true. cbv iota zeta. simpl_bind.
  change (handle_key (set_heap c (<[e:=set_in_cache h false]> (heap_ c))) e) with (handle_key c e). rewrite Hk.
  lru_simpl. rewrite delete_insert_eq.
  match goal with |- context [destroy_entries ?x l] => set (c1 := x) end.
  destruct (IH c1 Hnd) as (c' & -> & Hheap & Hd).
  { intros x Hx. assert (x ≠ e) by (intros ->; done). destruct (Hl x ltac:(by right)) as (hx & H1 & H2 & H3 & H4).
    exists hx. unfold handle_key, c1 in *. lru_simpl. rewrite !lookup_delete_ne by done. by split_and!. }
  exists c'. split; [done|]. split.
  - intros x. rewrite Hheap. unfold c1. lru_simpl. destruct (decide (x = e)) as [->|Hx].
    + rewrite decide_False, lookup_delete_eq by done. rewrite decide_True; [done|by left].
    + rewrite lookup_delete_ne by done. destruct (decide (x ∈ l)); [rewrite decide_True; [done|by right]|].
      rewrite decide_False; [done|]. by intros [?|?]%elem_of_cons.
  - unfold c1 in Hd. lru_simpl. rewrite <-Hd, (live_delete (heap_ c) e h Hh), <-app_assoc. done.
Qed.

(** When no handle is held the destructor gives what is left to the deleter. *)
Lemma session_destroy c held ins m n :
  session_ok c held ins m n → held = [] →
  ∃ c', lru_destroy c = Some c' ∧ heap_ c' = ∅ ∧ given (capacity_ c) <$> ins ≡ₚ deleted_ c'.
Proof.
  intros [Hinv Hent _ _ _ _] ->. pose proof (li_core _ Hinv) as Hcore.
  assert (Hall : ∀ e h, heap_ c !! e = Some h → e ∈ lru_ c ∧ h_in_cache h = true).
  { intros e h Hh. pose proof (eo_refs _ _ _ _ _ Hent e h Hh) as Hr. unfold client_refs in Hr. change (times e []) with 0 in Hr.
    destruct (lc_heap _ Hcore e h Hh) as (_ & Hpos & _). destruct (h_in_cache h) eqn:Hi; [|lia].
    pose proof (member_list c e h Hcore Hh Hi) as Hm. rewrite (proj2 (Z.eqb_eq (h_refs h) 1)) in Hm by lia. by destruct Hm. }
  pose proof (lc_nodup _ Hcore) as (Hnd & H12 & _)%NoDup_app. unfold lru_destroy. rewrite bool_decide_true.
  2:{ destruct (in_use_ c) as [|x l] eqn:El; [done|exfalso].
      destruct (lc_use _ Hcore x) as (h & Hh & _); [rewrite El; by left|]. destruct (Hall x h Hh) as [Hx _].
      apply (H12 x Hx). by left. }
  destruct (destroy_entries_ok (lru_ c) c Hnd) as (c' & -> & Hheap & Hd).
  { intros e He. destruct (lc_lru _ Hcore e He) as (h & Hh & Hi & Hr). exists h. split_and!; try done.
    intros h'. by rewrite (handle_key_ok _ _ _ _ c e h h' (li_links _ Hinv) Hh). }
  assert (Hempty : heap_ c' = ∅).
  { apply map_eq. intros e. rewrite Hheap, lookup_empty. destruct (decide _) as [|Hn]; [done|].
    destruct (heap_ c !! e) as [h|] eqn:Hh; [|done]. by destruct (Hall e h Hh). }
  exists c'. split; [done|]. split; [done|]. rewrite (eo_deleted _ _ _ _ _ Hent), Hd, Hempty.
  unfold live. rewrite map_to_list_empty. by rewrite app_nil_r.
Qed.

Lemma new_session capacity :
  ∃ c0, NewLRUCache_shard (V := V) = Some c0 ∧ session_ok (SetCapacity c0 capacity) [] [] ∅ 0.
Proof.
  destruct (NewLRUCache_shard_ok (V := V) capacity) as (c0 & E & Hinv & Hheap & Hdel & Hl & Hu & Hfr).
  exists c0. split; [done|]. split; [done| |by rewrite Hfr| | |unfold members; by rewrite Hl, Hu].
  - rewrite Hheap, Hdel. split; [|by intros e ?%not_elem_of_nil| |done]; intros e h; by rewrite lookup_empty.
  - intros e h. by rewrite Hheap, lookup_empty.
  - intros _. unfold members. by rewrite Hl, Hu.
Qed.

(** C18. The LRU cache keeps what is held and forgets only the rest.  For every
    capacity and every sequence of insertions, lookups, releases of handles
    that are held, erasures and prunings (up to 2^31), no assertion of the
    code fails, and afterwards: the invariant of its lists, their links, its
    hash table and its counts holds; every handle that is held is alive and has
    the key and the value it was inserted with; an entry that is found in the
    cache is the latest insertion of its key, and has not been erased since;
    and of the values inserted each is either alive or has been given to the
    deleter, once.  When the capacity is not 0, [LRUHandle::key()] of every live
    entry is the key it was inserted with, and the deleter is given that key
    with its value.  With capacity 0 the field [next] that [key()] reads
    (cache.cc:58) is set in no entry, and the key the deleter is given is not
    determined: only the values are then those that were inserted.  When no
    handle is held, the destructor of the cache gives the rest to the deleter
    and leaves no entry. *)
Theorem lru_cache_session (capacity : Z) (ops : list (cache_op V)) :
  Z.of_nat (length ops) < 2 ^ 31 →
  ∃ c0 c held, NewLRUCache_shard = Some c0 ∧ run_session (SetCapacity c0 capacity, []) ops = Some (c, held) ∧
    lru_inv c ∧
    (∀ e, e ∈ held → ∃ h, heap_ c !! e = Some h ∧ inserted ops !! e = Some (h_key h, h_value h)) ∧
    (∀ e h, heap_ c !! e = Some h → h_in_cache h = true →
       latest 0 ∅ ops !! (h_hash h, h_key h) = Some e ∧ inserted ops !! e = Some (h_key h, h_value h)) ∧
    (∀ e h, heap_ c !! e = Some h → h_in_cache h = false → e ∈ held) ∧
    (0 < capacity →
       (∀ e h, heap_ c !! e = Some h → handle_key c e h = Some (h_key h)) ∧
       (λ p, (Some p.1, p.2)) <$> inserted ops ≡ₚ deleted_ c ++ ((λ p, (Some p.1, p.2)) <$> live (heap_ c))) ∧
    (capacity ≤ 0 →
       next_ c = ∅ ∧ (∀ e h, heap_ c !! e = Some h → handle_key c e h = None) ∧
       (λ p, (None, p.2)) <$> inserted ops ≡ₚ deleted_ c ++ ((λ p, (None, p.2)) <$> live (heap_ c))) ∧
    (held = [] → ∃ c', lru_destroy c = Some c' ∧ heap_ c' = ∅ ∧
       (λ p, (if 0 <? capacity then Some p.1 else None, p.2)) <$> inserted ops ≡ₚ deleted_ c').
Proof.
  intros Hn. destruct (new_session capacity) as (c0 & E & Hs0).
  destruct (run_session_ok ops _ _ _ _ _ Hs0 Hn) as (c & held & Er & Hs & Hcap). pose proof Hs as [Hinv' Hent _ Hlat _ _].
  exists c0, c, held. split; [done|]. split; [done|]. split; [done|]. destruct Hent as [H1 H2 H3 H4].
  cbn in Hcap. rewrite Hcap in H4. pose proof (li_links _ Hinv') as Hlinks. rewrite Hcap in Hlinks.
  split; [|split; [|split; [|split; [|split]]]].
  - intros e He. destruct (H2 e He) as [h Hh]. exists h. split; [done|]. by apply H3.
  - intros e h Hh Hi. split; [by apply Hlat|by apply H3].
  - intros e h Hh Hi. apply times_in. rewrite <-(H1 e h Hh). unfold client_refs. rewrite Hi.
    destruct (lc_heap _ (li_core _ Hinv') e h Hh) as (_ & ? & _). lia.
  - intros Hc%Z.ltb_lt. unfold given in H4. rewrite Hc in H4. split; [|exact H4].
    intros e h Hh. by rewrite (handle_key_ok _ _ _ _ c e h h Hlinks Hh), Hc.
  - intros Hc%Z.ltb_ge. unfold given in H4. rewrite Hc in H4. split; [|split; [|exact H4]].
    + apply dom_empty_inv_L. by rewrite (lk_set _ _ _ _ _ Hlinks), Hc.
    + intros e h Hh. by rewrite (handle_key_ok _ _ _ _ c e h h Hlinks Hh), Hc.
  - intros Hh. destruct (session_destroy _ _ _ _ _ Hs Hh) as (c' & H5 & H6 & H7). cbn in Hcap. rewrite Hcap in H7.
    exists c'. by split_and!.
Qed.

End session.

Definition session_example : list (cache_op Z) :=
  [CInsert [1] 7 100 3; CRelease 0; CInsert [2] 7 200 3; CLookup [1] 7; CInsert [1] 7 101 4; CErase [2] 7; CRelease 0].

(** With capacity 5 the deleter is given the keys; with capacity 0 it is not
    determined which. *)
Lemma lru_cache_session_witness :
  (∃ c0 c held, NewLRUCache_shard = Some c0 ∧ run_session (SetCapacity c0 5, []) session_example = Some (c, held) ∧
     lru_inv c ∧
     (λ p, (Some p.1, p.2)) <$> inserted session_example
       ≡ₚ deleted_ c ++ ((λ p, (Some p.1, p.2)) <$> live (heap_ c))) ∧
  (∃ c0 c held, NewLRUCache_shard = Some c0 ∧ run_session (SetCapacity c0 0, []) session_example = Some (c, held) ∧
     (λ p, (None, p.2)) <$> inserted session_example
       ≡ₚ deleted_ c ++ ((λ p, (None, p.2)) <$> live (heap_ c))).
Proof.
  split.
  - destruct (lru_cache_session 5 session_example) as (c0 & c & held & H1 & H2 & H3 & _ & _ & _ & H4 & _); [done|].
    exists c0, c, held. split; [exact H1|]. split; [exact H2|]. split; [exact H3|]. by apply H4.
  - destruct (lru_cache_session 0 session_example) as (c0 & c & held & H1 & H2 & _ & _ & _ & _ & _ & H4 & _); [done|].
    exists c0, c, held. split; [exact H1|]. split; [exact H2|]. by apply H4.
Defined.

(** The keys the deleter was given in the two runs. *)
Example session_example_keys :
  (∃ c0 c held, NewLRUCache_shard = Some c0 ∧ run_session (SetCapacity c0 5, []) session_example = Some (c, held) ∧
     deleted_ c = [(Some [1], 100); (Some [2], 200)]) ∧
  (∃ c0 c held, NewLRUCache_shard = Some c0 ∧ run_session (SetCapacity c0 0, []) session_example = Some (c, held) ∧
     deleted_ c = [(None, 100); (None, 200)]).
Proof. split; eexists _, _, _; (split; [reflexivity|]; split; [vm_compute; reflexivity|reflexivity]). Qed.

