(* ===== verification/LruBlockCache.v ===== *)
(** The sharded LRU cache (LruCache.v) is a block cache of tables (Table.v). *)

From Stdlib Require Import ZArith Lia.
From stdpp Require Import base option numbers list gmap.
From S2P Require Import Prelude Coding Slice Bloom LruCache LruSpec LruTheorems Env TableFormat.
From S2P Require Import Block Table TableSpec.

(** *** Hashes *)

Lemma hash_words_width `{P : Port} n : ∀ data h, (length data ≤ n)%nat → in_width 32 h → in_width 32 (hash_words h data).1.
Proof.
  induction n as [n IH] using lt_wf_ind. intros data h Hn Hh.
  destruct data as [|b0 [|b1 [|b2 [|b3 data]]]]; try done. cbn [hash_words length] in *.
  apply (IH (length data)); [lia|done|]. apply lxor_width; [lia|..]; [by apply wrap_range|].
  apply shiftr_width; [lia|lia|by apply wrap_range].
Qed.

Lemma Hash_width `{P : Port} data seed : in_width 32 seed → in_width 32 (Hash data seed).
Proof.
  intros Hs. unfold Hash.
  pose proof (hash_words_width (length data) data (Z.lxor seed (u32 (u32 (Z.of_nat (length data)) * hash_m))) ltac:(done)) as Hw.
  destruct (hash_words _ data) as [h rest]. cbn [fst] in Hw.
  assert (Hh : in_width 32 h) by (apply Hw, lxor_width; [lia|done|by apply wrap_range]).
  assert (Ht : ∀ x, in_width 32 (Z.lxor (u32 x) (Z.shiftr (u32 x) 24))).
  { intros x. apply lxor_width; [lia|..]; [by apply wrap_range|]. apply shiftr_width; [lia|lia|by apply wrap_range]. }
  destruct rest as [|b0 [|b1 [|b2 [|b3 rest]]]]; try done; apply Ht.
Qed.

Lemma Shard_range `{P : Port} key : 0 ≤ Shard (HashSlice key) < 16.
Proof.
  pose proof (Hash_width key 0 ltac:(by split)) as [H0 H1]. unfold Shard, HashSlice, kNumShardBits.
  rewrite Z.shiftr_div_pow2 by lia. split; [apply Z.div_pos; lia|].
  apply Z.div_lt_upper_bound; [lia|]. change (2 ^ (32 - 4) * 16) with (2 ^ 32). done.
Qed.

(** *** Shards that nobody holds anything of *)

Section shard.
Context {V : Type}.
Implicit Types (s : LRUCache V).

Record shard_wf s : Prop := {
  sw_inv : lru_inv s;
  sw_idle e h : heap_ s !! e = Some h → h_in_cache h = true ∧ h_refs h = 1;
  sw_capacity : 0 ≤ capacity_ s < 2 ^ 30;
  sw_charges e : e ∈ members s → 1 ≤ charge_of (heap_ s) e < 2 ^ 32;
  sw_total : total (heap_ s) (members s) ≤ capacity_ s ∨ (length (members s) ≤ 1)%nat
}.

Lemma total_bounds (heap : gmap nat (LRUHandle V)) ms :
  (∀ e, e ∈ ms → 1 ≤ charge_of heap e < 2 ^ 32) →
  Z.of_nat (length ms) ≤ total heap ms ≤ 2 ^ 32 * Z.of_nat (length ms).
Proof.
  unfold total. induction ms as [|e ms IH]; intros Hb; [done|]. cbn [foldr length].
  pose proof (Hb e ltac:(by left)). specialize (IH (λ x Hx, Hb x (list_elem_of_further x e ms Hx))). lia.
Qed.

Lemma shard_length s : shard_wf s → Z.of_nat (length (members s)) ≤ 2 ^ 30.
Proof.
  intros Hs. pose proof (total_bounds _ _ (sw_charges _ Hs)). pose proof (sw_capacity _ Hs).
  destruct (sw_total _ Hs); lia.
Qed.

(** What is in a shard. *)
Definition shard_has s (key : list Z) (hash : Z) (v : V) : Prop :=
  ∃ e h, heap_ s !! e = Some h ∧ h_in_cache h = true ∧ matches key hash h ∧ h_value h = v.

(** A lookup whose handle is released. *)
Lemma shard_get_ok s key hash :
  shard_wf s →
  ∃ s1 r, lru_Lookup s key hash = Some (s1, r) ∧
    match r with
    | Some e => ∃ h s', heap_ s1 !! e = Some h ∧ lru_Release s1 e = Some s' ∧ shard_wf s' ∧ heap_ s' = heap_ s ∧
        shard_has s key hash (h_value h)
    | None => s1 = s
    end.
Proof.
  intros Hs. pose proof Hs as [Hinv Hidle Hcap Hch Htot].
  destruct (lru_Lookup_ok s key hash Hinv) as (s1 & r & -> & Hinv1 & Hres).
  { intros e h Hh. destruct (Hidle e h Hh) as [_ ->]. done. }
  exists s1, r. split; [done|]. destruct r as [e|]; [|by destruct Hres].
  destruct Hres as (h & Hh & Hi & Hm & Eh & Ec & Eu & Ef & Ed & Hmem & El). destruct (Hidle e h Hh) as [_ Hr].
  rewrite Hr in Eh. change (1 + 1) with 2 in Eh.
  assert (Hh1 : heap_ s1 !! e = Some (set_refs h 2)) by (rewrite Eh; apply lookup_insert_eq).
  destruct (Unref_ok s1 e (set_refs h 2) Hinv1 Hh1) as (s' & E & Hinv' & Eh' & Ed' & Ec' & Eu' & Ef' & Hmem' & _).
  { unfold client_refs. lru_simpl. rewrite Hi. lia. }
  assert (Eheap : heap_ s' = heap_ s).
  { rewrite Eh', Eh. unfold unref_heap. lru_simpl. change (2 =? 1) with false. cbv iota.
    rewrite insert_insert_eq. change (2 - 1) with 1. apply insert_id. rewrite Hh. f_equal. destruct h. cbn in *. by subst. }
  exists (set_refs h 2), s'. split; [done|]. split; [exact E|].
  assert (Hms : members s' ≡ₚ members s) by (by rewrite Hmem', Hmem).
  split; [|split; [done|by exists e, h]].
  split; [done| | | |]; rewrite ?Eheap, ?Ec', ?Ec; [done|done| |].
  - intros x. rewrite Hms. apply Hch.
  - rewrite (total_perm _ _ _ Hms), (Permutation_length Hms). done.
Qed.

(** What remains of the entries when some leave the cache. *)
Lemma drops_remain cap (a b : gmap nat (LRUHandle V) * list (option (list Z) * V)) x hx :
  drops cap a b → b.1 !! x = Some hx →
  a.1 !! x = Some hx ∨ ∃ h0, a.1 !! x = Some h0 ∧ h_in_cache h0 = true ∧ h_refs h0 ≠ 1 ∧ h_in_cache hx = false.
Proof.
  induction 1 as [|a a2 b (o & ho & Ho & Hi & _ & ->) _ IH]; [by left|]. intros Hx. specialize (IH Hx). cbn [fst] in IH.
  unfold drop_heap in IH. destruct (decide (x = o)) as [->|Hne].
  - destruct (Z.eqb_spec (h_refs ho) 1) as [E|E].
    + rewrite lookup_delete_eq in IH. by destruct IH as [|(? & ? & _)].
    + rewrite lookup_insert_eq in IH. destruct IH as [[= <-]|(h0 & [= <-] & Hc & _)]; [|done].
      right. by exists ho.
  - destruct (_ =? _); [by rewrite lookup_delete_ne in IH|by rewrite lookup_insert_ne in IH].
Qed.

(** An insertion whose handle is released. *)
Lemma shard_put_ok s key hash value charge :
  shard_wf s → 1 ≤ charge < 2 ^ 32 →
  ∃ s1 e s', lru_Insert s key hash value charge = Some (s1, e) ∧ lru_Release s1 e = Some s' ∧ shard_wf s' ∧
    h_value <$> heap_ s1 !! e = Some value ∧
    ∀ k hs v, shard_has s' k hs v → (k = key ∧ hs = hash ∧ v = value) ∨ shard_has s k hs v.
Proof.
  intros Hs Hcharge. pose proof Hs as [Hinv Hidle Hcap Hch Htot]. pose proof (shard_length s Hs) as Hlen.
  destruct (lru_Insert_ok s key hash value charge Hinv) as (s1 & old & n & -> & Hinv1 & Ec & Ef & Hnew & Hd & Hl & Hstop & _); [lia|].
  set (e := fresh_ s) in *. set (h := new_handle _ _ _ _ _) in *.
  assert (Hh : h_key h = key ∧ h_hash h = hash ∧ h_value h = value ∧ h_charge h = charge ∧
    h_refs h = (if h_in_cache h then 2 else 1)) by (unfold h, new_handle; by destruct (0 <? capacity_ s)).
  destruct Hh as (Hk & Hhs & Hv & Hcg & Hrf).
  assert (Hold : ∀ x hx, heap_ s1 !! x = Some hx → x ≠ e → heap_ s !! x = Some hx).
  { intros x hx Hx Hne. destruct (drops_remain _ _ _ x hx Hd Hx) as [Hr|(h0 & Hr & Hi0 & Hr0 & _)]; cbn [fst] in Hr;
      rewrite lookup_insert_ne in Hr by done; [done|]. by destruct (Hidle x h0 Hr). }
  destruct (Unref_ok s1 e h Hinv1 Hnew) as (s' & E & Hinv' & Eh' & Ed' & Ec' & Eu' & Ef' & Hmem' & _).
  { unfold client_refs. rewrite Hrf. destruct (h_in_cache h); lia. }
  exists s1, e, s'. split; [done|]. split; [exact E|].
  assert (Hin' : ∀ x hx, heap_ s' !! x = Some hx →
    (x = e ∧ hx = set_refs h 1 ∧ h_in_cache h = true) ∨ (x ≠ e ∧ heap_ s !! x = Some hx)).
  { intros x hx. rewrite Eh'. unfold unref_heap. rewrite Hrf. destruct (h_in_cache h).
    - change (2 =? 1) with false. cbv iota. destruct (decide (x = e)) as [->|Hne].
      + rewrite lookup_insert_eq. intros [= <-]. by left.
      + rewrite lookup_insert_ne by done. intros Hx. right. split; [done|]. by apply Hold.
    - change (1 =? 1) with true. cbv iota. rewrite lookup_delete_Some. intros [Hne Hx]. right. split; [done|]. by apply Hold. }
  assert (Hch1 : ∀ x, x ∈ members s1 → 1 ≤ charge_of (heap_ s1) x < 2 ^ 32).
  { intros x Hx. destruct (member_heap s1 x (li_core _ Hinv1) Hx) as (hx & Hhx & Hix). unfold charge_of. rewrite Hhx. cbn.
    destruct (decide (x = e)) as [->|Hne]; [rewrite Hnew in Hhx; injection Hhx as <-; lia|].
    pose proof (Hold x hx Hhx Hne) as Hx0. specialize (Hch x). unfold charge_of in Hch. rewrite Hx0 in Hch. apply Hch.
    by apply (lc_heap _ (li_core _ Hinv) x hx Hx0). }
  assert (Hsame : ∀ x, x ∈ members s1 → charge_of (heap_ s') x = charge_of (heap_ s1) x).
  { intros x Hx. destruct (member_heap s1 x (li_core _ Hinv1) Hx) as (hx & Hhx & Hix). unfold charge_of. rewrite Eh'. unfold unref_heap.
    rewrite Hrf. destruct (decide (x = e)) as [->|Hne].
    - rewrite Hnew in Hhx. injection Hhx as <-. rewrite Hix. change (2 =? 1) with false. cbv iota.
      by rewrite lookup_insert_eq, Hnew.
    - destruct (_ =? _); [by rewrite lookup_delete_ne|by rewrite lookup_insert_ne]. }
  split; [|split; [by rewrite Hnew, <-Hv|]].
  - split; [done| |by rewrite Ec', Ec| |].
    + intros x hx Hx. destruct (Hin' x hx Hx) as [(-> & -> & Hi)|[_ Hx0]]; [done|exact (Hidle x hx Hx0)].
    + intros x. rewrite Hmem'. intros Hx. rewrite Hsame by done. by apply Hch1.
    + rewrite Ec', Ec, (total_perm _ _ _ Hmem'), (Permutation_length Hmem'), (total_same (heap_ s1) (heap_ s') _ Hsame).
      destruct Hstop as [Hnil|Hus].
      * right. assert (Hsub : members s1 ⊆ [e]).
        { unfold members. rewrite Hnil. intros x Hx. cbn in Hx. apply list_elem_of_singleton.
          destruct (decide (x = e)) as [|Hne]; [done|exfalso].
          destruct (lc_use _ (li_core _ Hinv1) x Hx) as (hx & Hhx & _ & Hr).
          destruct (Hidle x hx (Hold x hx Hhx Hne)). lia. }
        exact (NoDup_sub_length _ _ (lc_nodup _ (li_core _ Hinv1)) Hsub).
      * left. rewrite (lc_usage _ (li_core _ Hinv1)), Ec in Hus.
        assert (Hl1 : (length (members s1) ≤ S (length (members s)))%nat).
        { apply (NoDup_sub_length _ (e :: members s) (lc_nodup _ (li_core _ Hinv1))). intros x Hx.
          destruct (decide (x = e)) as [->|Hne]; [by left|right].
          destruct (member_heap s1 x (li_core _ Hinv1) Hx) as (hx & Hhx & Hix).
          apply (lc_heap _ (li_core _ Hinv) x hx (Hold x hx Hhx Hne)). done. }
        pose proof (total_bounds _ _ Hch1). rewrite wrap_small in Hus; [done|]. unfold in_width. lia.
  - intros k hs v (x & hx & Hx & Hi & [M1 M2] & Hval). destruct (Hin' x hx Hx) as [(-> & -> & _)|[_ Hx0]].
    + left. lru_simpl. by rewrite <-M1, <-M2, <-Hval, Hk, Hhs, Hv.
    + right. by exists x, hx.
Qed.
End shard.

(** ** The cache *)

Section sharded.
Context `{P : Port} {V : Type}.
Implicit Types (c : ShardedLRUCache V) (v : V).

Definition sharded_wf c : Prop := length (shard_ c) = 16%nat ∧ Forall shard_wf (shard_ c).

Definition sharded_has c (key : list Z) v : Prop :=
  ∃ s, (shard_ c).[Shard (HashSlice key)] = Some s ∧ shard_has s key (HashSlice key) v.

Lemma shard_of c key :
  sharded_wf c → ∃ s, (shard_ c).[Shard (HashSlice key)] = Some s ∧ shard_wf s.
Proof.
  intros [Hl Hf]. destruct (aget_in (shard_ c) (Shard (HashSlice key))) as [s Hs].
  { rewrite Hl. apply Shard_range. }
  exists s. split; [done|]. apply aget_some in Hs as [_ Hs]. by apply (Forall_lookup_1 _ _ _ _ Hf Hs).
Qed.

(** Replacing a shard. *)
Lemma set_shard c key s' :
  sharded_wf c → shard_wf s' →
  let l := <[Z.to_nat (Shard (HashSlice key)) := s']> (shard_ c) in
  aset (shard_ c) (Shard (HashSlice key)) s' = Some l ∧ sharded_wf (mkSharded l (last_id_ c)) ∧
  ∀ key', l.[Shard (HashSlice key')] =
    if decide (Shard (HashSlice key) = Shard (HashSlice key')) then Some s' else (shard_ c).[Shard (HashSlice key')].
Proof.
  intros [Hl Hf] Hs' l. pose proof (Shard_range key) as Hr. split; [apply aset_in; lia|]. split.
  - split; [exact (eq_trans (length_insert _ _ _) Hl)|]. by apply Forall_insert.
  - intros key'. apply aget_insert. lia.
Qed.

Lemma sharded_has_set c key s s' :
  (shard_ c).[Shard (HashSlice key)] = Some s → sharded_wf c → shard_wf s' →
  ∀ (Q : list Z → V → Prop),
    (∀ k v, shard_has s' k (HashSlice k) v → Q k v ∨ shard_has s k (HashSlice k) v) →
    ∀ k v, sharded_has (mkSharded (<[Z.to_nat (Shard (HashSlice key)) := s']> (shard_ c)) (last_id_ c)) k v →
      Q k v ∨ sharded_has c k v.
Proof.
  intros Hs Hwf Hs' Q HQ k v (x & Hx & Hhas). destruct (set_shard c key s' Hwf Hs') as (_ & _ & Hget).
  cbn [shard_] in Hx. rewrite Hget in Hx. destruct (decide _) as [E|E].
  - injection Hx as <-. destruct (HQ k v Hhas) as [?|Hold]; [by left|right]. exists s. by rewrite <-E.
  - right. by exists x.
Qed.

(** [c'] is a good cache that has nothing that [c] does not have, but for what
    [Q] allows. *)
Definition sharded_after (Q : list Z → V → Prop) c c' : Prop :=
  sharded_wf c' ∧ last_id_ c' = last_id_ c ∧ ∀ k v, sharded_has c' k v → Q k v ∨ sharded_has c k v.

Lemma sharded_after_set c key s s' (Q : list Z → V → Prop) :
  sharded_wf c → (shard_ c).[Shard (HashSlice key)] = Some s → shard_wf s' →
  (∀ k v, shard_has s' k (HashSlice k) v → Q k v ∨ shard_has s k (HashSlice k) v) →
  sharded_after Q c (mkSharded (<[Z.to_nat (Shard (HashSlice key)) := s']> (shard_ c)) (last_id_ c)).
Proof.
  intros Hwf Hs Hs' HQ. destruct (set_shard c key s' Hwf Hs') as (_ & Hwf' & _). split; [done|]. split; [done|].
  by apply (sharded_has_set c key s).
Qed.

(** Looking up, and what becomes of the cache when the handle is released. *)
Lemma sharded_Lookup_ok c k :
  sharded_wf c →
  ∃ c1 r, sharded_Lookup c k = Some (c1, r) ∧
    match r with
    | Some handle => ∃ v c', sharded_Value c1 handle = Some v ∧ sharded_Release c1 handle = Some c' ∧
        sharded_has c k v ∧ sharded_after (λ _ _, False) c c'
    | None => sharded_after (λ _ _, False) c c1
    end.
Proof.
  intros Hwf. destruct (shard_of c k Hwf) as (s & Hs & Hsw).
  unfold sharded_Lookup, on_shard. rewrite Hs. simpl_bind.
  destruct (shard_get_ok s k (HashSlice k) Hsw) as (s1 & r & -> & Hres). simpl_bind.
  pose proof Hwf as [Hlen _]. pose proof (Shard_range k) as Hr. rewrite aset_in by lia. simpl_bind.
  destruct r as [e|]; eexists _, _; (split; [done|]).
  - destruct Hres as (h & s' & Hh & Er & Hsw' & Eheap & Hhas).
    unfold sharded_Value, sharded_Release, on_shard. cbn [shard_ fst snd].
    rewrite aget_insert, decide_True by (done || lia). simpl_bind. rewrite Hh. simpl_bind. rewrite Er. simpl_bind.
    cbn [shard_]. rewrite aset_in by (rewrite ?length_insert; lia). simpl_bind. rewrite list_insert_insert_eq.
    eexists _, _. split; [done|]. split; [done|]. split; [by exists s|]. apply (sharded_after_set c k s); [done..|].
    intros k2 v2 (x & hx & Hx & ?). right. exists x, hx. by rewrite <-Eheap.
  - subst s1. apply (sharded_after_set c k s); [done..|]. by right.
Qed.

Lemma sharded_Insert_ok c k v n :
  sharded_wf c → 1 ≤ n < 2 ^ 32 →
  ∃ c1 handle c', sharded_Insert c k v n = Some (c1, handle) ∧ sharded_Value c1 handle = Some v ∧
    sharded_Release c1 handle = Some c' ∧ sharded_after (λ k' v', k' = k ∧ v' = v) c c'.
Proof.
  intros Hwf Hn. destruct (shard_of c k Hwf) as (s & Hs & Hsw).
  unfold sharded_Insert, on_shard. rewrite Hs. simpl_bind.
  destruct (shard_put_ok s k (HashSlice k) v n Hsw Hn) as (s1 & e & s' & -> & Er & Hsw' & Hval & Hhas). simpl_bind.
  pose proof Hwf as [Hlen _]. pose proof (Shard_range k) as Hr.
  rewrite aset_in by lia. simpl_bind. eexists _, _, _. split; [done|].
  unfold sharded_Value, sharded_Release, on_shard. cbn [shard_ fst snd].
  rewrite aget_insert, decide_True by (done || lia). simpl_bind. rewrite Er. simpl_bind.
  cbn [shard_]. rewrite aset_in by (rewrite ?length_insert; lia). simpl_bind. rewrite list_insert_insert_eq.
  split; [by destruct (heap_ s1 !! e)|]. split; [done|]. apply (sharded_after_set c k s); [done..|].
  intros k2 v2 H2. destruct (Hhas _ _ _ H2) as [(-> & _ & ->)|]; [by left|by right].
Qed.

(** A new cache is good and empty. *)
Lemma NewLRUCache_ok capacity :
  0 ≤ capacity < 2 ^ 33 →
  ∃ c, NewLRUCache (V := V) capacity = Some c ∧ sharded_wf c ∧ last_id_ c = 0 ∧ ∀ k b, ¬ sharded_has c k b.
Proof.
  intros Hc. unfold NewLRUCache, kNumShards, kNumShardBits. change (Z.shiftl 1 4) with 16.
  rewrite wrap_small by (unfold in_width; lia). set (cap := (capacity + (16 - 1)) / 16).
  assert (Hcap : 0 ≤ cap < 2 ^ 30).
  { unfold cap. split; [apply Z.div_pos; lia|]. apply Z.div_lt_upper_bound; lia. }
  destruct (NewLRUCache_shard_ok (V := V) cap) as (c0 & -> & Hinv & Hheap & Hdel & Hl & Hu & _). simpl_bind.
  eexists. split; [done|].
  assert (Hsw : shard_wf (SetCapacity c0 cap)).
  { assert (Hm : members (SetCapacity c0 cap) = []) by (unfold members; by rewrite Hl, Hu). split; [done| |done| |].
    - intros e h. by rewrite Hheap, lookup_empty.
    - intros e. rewrite Hm. by intros ?%not_elem_of_nil.
    - right. rewrite Hm; cbn; lia. }
  split; [split; [done|by apply Forall_replicate]|]. split; [done|].
  intros k b (s & Hs & e & h & Hh & _). cbn [shard_] in Hs. apply aget_some in Hs as [_ Hs].
  apply lookup_replicate in Hs as [-> _]. by rewrite Hheap, lookup_empty in Hh.
Qed.
End sharded.

(** ** As a block cache *)

Section block_cache.
Context `{P : Port}.

#[export] Instance lru_block_cache : BlockCache (ShardedLRUCache Block) := {|
  cache_NewId := sharded_NewId;
  cache_Lookup c key :=
    '(c, handle) ← sharded_Lookup c key;
    match handle with
    | Some handle =>
        block ← sharded_Value c handle;
        c ← sharded_Release c handle;
        Some (c, Some block)
    | None => Some (c, None)
    end;
  cache_Insert c key block charge :=
    '(c, handle) ← sharded_Insert c key block charge;
    sharded_Release c handle
|}.

#[export] Instance lru_block_cache_laws : BlockCacheLaws (ShardedLRUCache Block).
Proof.
  refine {| cache_wf := sharded_wf; cached := sharded_has; last_id := last_id_ |}.
  - intros c k Hwf. unfold cache_Lookup, lru_block_cache.
    destruct (sharded_Lookup_ok c k Hwf) as (c1 & [handle|] & -> & Hres); simpl_bind.
    + destruct Hres as (b & c' & -> & E & Hhas & Hwf' & Hid & Hsub). simpl_bind. rewrite E. simpl_bind.
      eexists _, _. split; [done|]. split; [done|]. split; [by intros b' [= <-]|]. split; [|done].
      intros k' b' Hb. by destruct (Hsub k' b' Hb).
    + destruct Hres as (Hwf' & Hid & Hsub). eexists _, None. split; [done|]. split; [done|]. split; [done|].
      split; [|done]. intros k' b' Hb. by destruct (Hsub k' b' Hb).
  - intros c k b n Hwf Hn. unfold cache_Insert, lru_block_cache.
    destruct (sharded_Insert_ok c k b n Hwf Hn) as (c1 & handle & c' & -> & _ & E & Hwf' & Hid & Hsub). simpl_bind.
    eexists. split; [exact E|]. done.
  - intros c c' id Hwf [= <- <-]. split; [done|]. split; [done|]. done.
Defined.
End block_cache.
