(* ===== verification/TableCache.v ===== *)
(** The cache of open tables: leveldb/db/table_cache.cc.

    An entry of the cache, a [TableAndFile], is the table, which has its file.
    [Get] and [NewIterator] hold the handle of the table while they use it.
    What becomes of the environment when a table that has left the cache is
    deleted (its file is closed) is not modelled.  [None] is a failed [assert]
    or a failure within the table. *)

From Stdlib Require Import ZArith Lia.
From stdpp Require Import base option numbers list gmap strings sorting.
From S2P Require Import Prelude Coding Slice WriteBatch Crc32c Env DbFormat SkipList SkipListSpec.
From S2P Require Import SkipListRefine MemTable Bloom FilterBlock InternalKey FileName Iterator.
From S2P Require Import Block TableFormat Table TwoLevel LruCache LruBlockCache TableSpec TableFile.
From S2P Require Import TableTheorems Version DbIterSpec VersionSpec.

(** What the cache uses of [Env]. *)
Class FileOpener (E R : Type) := {
  env_NewRandomAccessFile : E → list Z → option (E * (Status + R))
}.

Record TableCache (E R K : Type) := mkTableCache {
  env_ : E;
  dbname_ : list Z;
  options_ : Options;
  block_cache : option K;
  cache_ : ShardedLRUCache (Table R)
}.
Arguments mkTableCache {E R K}.
Arguments env_ {E R K}.
Arguments dbname_ {E R K}.
Arguments options_ {E R K}.
Arguments block_cache {E R K}.
Arguments cache_ {E R K}.

Section table_cache.
Context `{P : Port} {C : Comparator} `{RandomAccessFile R} `{Env.Crc32c} `{BlockCache K} `{FileOpener E R}.
Implicit Types (tc : TableCache E R K).

Definition NewTableCache (env : E) (dbname : list Z) (options : Options) (block_cache : option K) (entries : Z)
  : option (TableCache E R K) :=
  cache ← NewLRUCache entries; Some (mkTableCache env dbname options block_cache cache).

Definition set_cache tc (cache : ShardedLRUCache (Table R)) : TableCache E R K :=
  mkTableCache (env_ tc) (dbname_ tc) (options_ tc) (block_cache tc) cache.

Definition set_env tc (env : E) : TableCache E R K :=
  mkTableCache env (dbname_ tc) (options_ tc) (block_cache tc) (cache_ tc).

Definition set_blocks tc (blocks : option K) : TableCache E R K :=
  mkTableCache (env_ tc) (dbname_ tc) (options_ tc) blocks (cache_ tc).

(** The file by its name or by the name it had in the past. *)
Definition open_table_file tc (file_number : Z) : option (TableCache E R K * (Status + R)) :=
  fname ← TableFileName (dbname_ tc) file_number;
  '(env, r) ← env_NewRandomAccessFile (env_ tc) fname;
  match r with
  | inr file => Some (set_env tc env, inr file)
  | inl s =>
      old_fname ← SSTTableFileName (dbname_ tc) file_number;
      '(env, r) ← env_NewRandomAccessFile env old_fname;
      Some (set_env tc env, match r with inr file => inr file | inl _ => inl s end)
  end.

(** The status and the handle. *)
Definition FindTable tc (file_number file_size : Z) : option (TableCache E R K * Status * option (Z * nat)) :=
  let key := EncodeFixed64 file_number in
  '(cache, handle) ← sharded_Lookup (cache_ tc) key;
  let tc := set_cache tc cache in
  match handle with
  | Some handle => Some (tc, OK, Some handle)
  | None =>
      '(tc, r) ← open_table_file tc file_number;
      match r with
      | inl s => Some (tc, s, None)
      | inr file =>
          '(s, table, blocks) ← Open (C := InternalKeyComparator C) (options_ tc) (block_cache tc) file file_size;
          let tc := set_blocks tc blocks in
          if negb (ok s) then
            if bool_decide (is_Some table) then None (* assert *) else Some (tc, s, None)
          else
            table ← table;
            '(cache, handle) ← sharded_Insert (cache_ tc) key table 1;
            Some (set_cache tc cache, s, Some handle)
      end
  end.

Definition release_table tc (handle : Z * nat) : option (TableCache E R K) :=
  cache ← sharded_Release (cache_ tc) handle; Some (set_cache tc cache).

(** The iterator with the handle that its cleanup function releases. *)
Definition tc_NewIterator tc (file_number file_size : Z)
  : option (TableCache E R K * (EmptyIterator + table_iter (R := R) (K := K)) * option (Z * nat)) :=
  '(tc, s, handle) ← FindTable tc file_number file_size;
  if negb (ok s) then Some (tc, inl (NewErrorIterator s), None)
  else
    handle ← handle;
    table ← sharded_Value (cache_ tc) handle;
    result ← table_NewIterator table (block_cache tc);
    Some (tc, inr result, Some handle).

(** The status and the entry that [saver] is called with. *)
Definition cached_Get tc (options : ReadOptions) (file_number file_size : Z) (k : list Z)
  : option (TableCache E R K * Status * option (list Z * list Z)) :=
  '(tc, s, handle) ← FindTable tc file_number file_size;
  if ok s then
    handle ← handle;
    t ← sharded_Value (cache_ tc) handle;
    '(blocks, s, saved) ← InternalGet (C := InternalKeyComparator C) t (block_cache tc) options k;
    tc ← release_table (set_blocks tc blocks) handle;
    Some (tc, s, saved)
  else Some (tc, s, None).

Definition Evict tc (file_number : Z) : option (TableCache E R K) :=
  cache ← sharded_Erase (cache_ tc) (EncodeFixed64 file_number); Some (set_cache tc cache).

#[export] Instance table_cache_store : TableStore (TableCache E R K) := {| tc_Get := cached_Get |}.
End table_cache.

(** ** The cache is a store of tables *)

(** [file_at env name data]: opening [name] gives a file with these bytes, and
    opening files changes nothing of that. *)
Class FileOpenerLaws (E R : Type) `{RandomAccessFileLaws R} `{FileOpener E R} := {
  file_at : E → list Z → list Z → Prop;
  open_file_at env name data : file_at env name data →
    ∃ env' f, env_NewRandomAccessFile env name = Some (env', inr f) ∧ random f ∧ random_contents f = data ∧
      ∀ name' data', file_at env name' data' → file_at env' name' data'
}.

(** What a table file holds. *)
Record file_info := mkInfo {
  fi_data : list Z;
  fi_entries : list (list Z * list Z);
  fi_handles : list BlockHandle;
  fi_blocks : list (list (list Z * list Z));
  fi_index : list (list Z * list Z);
  fi_footer : Footer
}.

Section laws.
Context `{P : Port} {C : Comparator} {HC : ComparatorLaws C}.
Context `{RandomAccessFileLaws R} `{Crc32cLaws} `{BlockCacheLaws K} `{FileOpener E R} `{!FileOpenerLaws E R}.
(** The tables of the database, by number. *)
Context (catalog : gmap Z file_info).
Implicit Types (tc : TableCache E R K) (t : Table R) (i : file_info).

Abbreviation has tc n t := (sharded_has (cache_ tc) (EncodeFixed64 n) t).
Abbreviation icmp := (InternalKeyComparator C).
Abbreviation info_ok o i :=
  (table_file (C := icmp) o (fi_data i) (fi_entries i) (fi_handles i) (fi_blocks i) (fi_index i) (fi_footer i)).

(** An open table is the table of its file, and the block cache has nothing
    wrong for it. *)
Definition good_table tc i t : Prop :=
  table_ok (C := icmp) t (fi_entries i) (fi_handles i) (fi_blocks i) (fi_index i) (fi_footer i) ∧
  t_options t = options_ tc ∧ cache_ok (C := icmp) t (fi_handles i) (fi_blocks i) (block_cache tc).

(** The id of the table is in use, and by no table of another number. *)
Definition id_ok tc (key : list Z) t : Prop :=
  match block_cache tc with
  | None => True
  | Some c => 0 ≤ cache_id t ≤ last_id c ∧
      ∀ k2 t2, sharded_has (cache_ tc) k2 t2 → k2 ≠ key → cache_id t2 ≠ cache_id t
  end.

Record tc_wf tc : Prop := {
  tw_cache : sharded_wf (cache_ tc);
  tw_blocks : tidy (block_cache tc);
  tw_filter : user_filter (options_ tc);
  tw_ids k t : sharded_has (cache_ tc) k t → id_ok tc k t;
  tw_files n i : catalog !! n = Some i → 0 < n < 2 ^ 64 ∧ info_ok (options_ tc) i ∧
    ∃ name, TableFileName (dbname_ tc) n = Some name ∧ file_at (env_ tc) name (fi_data i);
  tw_tables n i t : catalog !! n = Some i → has tc n t → good_table tc i t
}.

(** How many tables can still be opened: their ids are of 64 bits. *)
Definition tc_left tc : Z :=
  match block_cache tc with None => 2 ^ 64 | Some c => 2 ^ 64 - 1 - last_id c end.

Lemma handles_range o i : info_ok o i → Forall (λ h, 0 ≤ h_offset h < 2 ^ 64) (fi_handles i).
Proof.
  intros Ht. apply Forall_lookup. intros j h Hj.
  pose proof (table_handle_ok (C := icmp) _ _ _ _ _ _ _ _ _ Ht Hj) as [? _]. lia.
Qed.

(** Tables with the same id share what the block cache has. *)
Lemma cache_ok_same_id t t' hs blocks (c : option K) :
  cache_id t = cache_id t' → cache_ok (C := icmp) t hs blocks c → cache_ok (C := icmp) t' hs blocks c.
Proof.
  intros Hid. destruct c as [c|]; [|done]. intros [Hwf Hok]. split; [done|]. intros j h b blk Hj Hb Hc.
  apply (Hok j h b blk Hj Hb). unfold cache_key in *. by rewrite Hid.
Qed.

(** *** Finding the table *)

(** The cache has lost some tables, or none. *)
Lemma tc_shrink tc cache :
  tc_wf tc → sharded_after (λ _ _, False) (cache_ tc) cache → tc_wf (set_cache tc cache).
Proof.
  intros [W1 W2 W3 W4 W5 W6] (Hwf & _ & Hsub).
  assert (Hhas : ∀ k t, sharded_has cache k t → sharded_has (cache_ tc) k t) by (intros k t Ht; by destruct (Hsub k t Ht)).
  split; [done..| |done|].
  - intros k t Ht. specialize (W4 k t (Hhas k t Ht)). unfold id_ok in *. cbn [block_cache set_cache cache_].
    destruct (block_cache tc); [|done]. destruct W4 as [Ha Hb]. split; [done|]. eauto.
  - intros n i t Hn Ht. by apply (W6 n i t Hn), Hhas.
Qed.

(** A new table has come. *)
Lemma tc_grow tc tc' n i t :
  tc_wf tc → catalog !! n = Some i → good_table tc' i t → id_ok tc' (EncodeFixed64 n) t →
  options_ tc' = options_ tc → dbname_ tc' = dbname_ tc → tidy (block_cache tc') →
  (∀ name data, file_at (env_ tc) name data → file_at (env_ tc') name data) →
  (∀ k t', sharded_has (cache_ tc) k t' → id_ok tc' k t' ∧
     ∀ m i', catalog !! m = Some i' → k = EncodeFixed64 m → good_table tc' i' t') →
  cache_ tc' = cache_ tc → ∀ cache, sharded_after (λ k' t', k' = EncodeFixed64 n ∧ t' = t) (cache_ tc) cache →
  tc_wf (set_cache tc' cache) ∧ good_table (set_cache tc' cache) i t ∧ id_ok (set_cache tc' cache) (EncodeFixed64 n) t.
Proof.
  intros [W1 W2 W3 W4 W5 W6] Hn Hg Hid Eo Ed Hti Hfile Hold Ec cache (Hwf & _ & Hsub). unfold id_ok in *.
  cbn [block_cache set_cache cache_]. rewrite Ec in *.
  assert (Hids : ∀ k t', sharded_has cache k t' → match block_cache tc' with
      | None => True
      | Some c => 0 ≤ cache_id t' ≤ last_id c ∧ ∀ k2 t2, sharded_has cache k2 t2 → k2 ≠ k → cache_id t2 ≠ cache_id t' end).
  { intros k t' Ht'. destruct (block_cache tc') as [c|]; [|done]. split.
    - destruct (Hsub k t' Ht') as [[-> ->]|Ht]; [by destruct Hid|]. by destruct (proj1 (Hold k t' Ht)).
    - intros k2 t2 Ht2 Hne. destruct (Hsub k t' Ht') as [[-> ->]|Ht], (Hsub k2 t2 Ht2) as [[-> ->]|Ht2']; [done| | |].
      + destruct Hid as [_ Hid]. by apply Hid with k2.
      + destruct Hid as [_ Hid]. intros E'. by apply (Hid k t' Ht).
      + destruct (Hold k t' Ht) as [[_ Hk] _]. by apply Hk with k2. }
  split; [split|split; [done|]]; cbn [cache_ block_cache options_ dbname_ env_ set_cache].
  - done.
  - done.
  - by rewrite Eo.
  - exact Hids.
  - intros m i' Hm. rewrite Eo, Ed. destruct (W5 m i' Hm) as (? & ? & name & ? & ?). split; [done|]. split; [done|].
    exists name. auto.
  - intros m i' t' Hm Ht'. destruct (W5 m i' Hm) as [Hmr _]. destruct (W5 n i Hn) as [Hnr _].
    destruct (Hsub _ _ Ht') as [[Ek ->]|Ht].
    + apply EncodeFixed64_inj in Ek; [|unfold in_width; lia..]. subst m. rewrite Hn in Hm. by injection Hm as <-.
    + by apply (proj2 (Hold _ _ Ht) m i' Hm).
  - destruct (block_cache tc'); [|done]. split; [by destruct Hid|].
    intros k2 t2 Ht2 Hne. destruct (Hsub k2 t2 Ht2) as [[-> ->]|Ht2']; [done|]. destruct Hid as [_ Hid]. by apply Hid with k2.
Qed.

Lemma FindTable_ok tc n i :
  tc_wf tc → catalog !! n = Some i → 1 ≤ tc_left tc →
  ∃ tc1 handle t cache', FindTable tc n (Z.of_nat (length (fi_data i))) = Some (tc1, OK, Some handle) ∧
    sharded_Value (cache_ tc1) handle = Some t ∧ sharded_Release (cache_ tc1) handle = Some cache' ∧
    let tc' := set_cache tc1 cache' in
    tc_wf tc' ∧ good_table tc' i t ∧ id_ok tc' (EncodeFixed64 n) t ∧ tc_left tc - 1 ≤ tc_left tc'.
Proof.
  intros Hwf Hn Hleft. pose proof Hwf as [W1 W2 W3 W4 W5 W6]. unfold FindTable.
  destruct (sharded_Lookup_ok (cache_ tc) (EncodeFixed64 n) W1) as (c1 & [handle|] & -> & Hres); simpl_bind.
  { destruct Hres as (t & c' & Hval & Hrel & Hhas & Hafter). exists (set_cache tc c1), handle, t, c'.
    split; [done|]. split; [done|]. split; [done|]. split; [by apply (tc_shrink tc c')|].
    split; [exact (W6 n i t Hn Hhas)|].
    split; [|unfold tc_left in *; cbn [block_cache set_cache]; lia]. specialize (W4 _ t Hhas). unfold id_ok in *. cbn.
    destruct (block_cache tc); [|done]. destruct W4 as [? Hne]. split; [done|]. intros k2 t2 Ht2.
    destruct Hafter as (_ & _ & Hsub). apply Hne. by destruct (Hsub k2 t2 Ht2). }
  pose proof (tc_shrink tc c1 Hwf Hres) as Hwf1. destruct (W5 n i Hn) as (Hnr & Hfile & name & Hname & Hat).
  unfold open_table_file. cbn [dbname_ set_cache env_]. rewrite Hname. simpl_bind.
  destruct (open_file_at _ _ _ Hat) as (env' & f & Hopen & Hf & Hdata & Hkeep). rewrite Hopen. simpl_bind.
  cbn [options_ set_env block_cache set_cache]. rewrite <-Hdata in Hfile.
  assert (Hids : has_ids (block_cache tc)) by (unfold tc_left, has_ids in *; destruct (block_cache tc); lia).
  destruct (Open_ok (C := icmp) (options_ tc) (block_cache tc) f _ _ _ _ _ Hf Hfile W2 Hids)
    as (t & blocks' & Eo & Eopt & Htok & Hcok & Hti' & Hid').
  rewrite Hdata in Eo. rewrite Eo. simpl_bind. cbn [ok negb].
  set (tcB := set_blocks (set_env (set_cache tc c1) env') blocks').
  assert (Ec : cache_ tcB = c1) by done. rewrite Ec.
  destruct (sharded_Insert_ok c1 (EncodeFixed64 n) t 1 (proj1 Hres) ltac:(lia)) as (c2 & handle & c' & -> & Hval & Hrel & Hafter).
  simpl_bind. exists (set_cache tcB c2), handle, t, c'. split; [done|]. split; [done|]. split; [done|].
  change (set_cache (set_cache tcB c2) c') with (set_cache tcB c'). cbv zeta.
  destruct (tc_grow (set_cache tc c1) tcB n i t Hwf1 Hn) with (cache := c') as (Hw & Hg & Hi).
  - by split.
  - unfold id_ok. cbn [tcB block_cache set_blocks]. destruct blocks' as [c|]; [|done].
    destruct Hid' as (c0 & Eb & E1 & E2 & _). pose proof (to_id (C := icmp) _ _ _ _ _ _ Htok) as [Hlo _]. split; [lia|].
    intros k2 t2 Ht2 _. destruct Hres as (_ & _ & Hsub). destruct (Hsub k2 t2 Ht2) as [[]|Ht2'].
    specialize (W4 k2 t2 Ht2'). unfold id_ok in W4. rewrite Eb in W4. destruct W4 as [Hle _]. lia.
  - done.
  - done.
  - done.
  - done.
  - intros k t' Ht'. destruct Hres as (_ & _ & Hsub). destruct (Hsub k t' Ht') as [[]|Ht2].
    specialize (W4 k t' Ht2). split.
    + unfold id_ok in *. cbn [tcB block_cache set_blocks]. destruct blocks' as [c|]; [|done].
      destruct Hid' as (c0 & Eb & E1 & E2 & _). rewrite Eb in W4. destruct W4 as [Hle Hne]. split; [lia|].
      intros k2 t2 Hk2. destruct (Hsub k2 t2 Hk2) as [[]|Hk2']. by apply Hne.
    + intros m i' Hm ->. destruct (W6 m i' t' Hm Ht2) as (G1 & G2 & G3). split; [done|]. split; [done|].
      cbn [tcB block_cache set_blocks]. destruct blocks' as [c|]; [|done].
      destruct Hid' as (c0 & Eb & E1 & E2 & Hsame). rewrite Eb in G3. destruct G3 as [_ G3]. destruct Hcok as [Hcwf _].
      split; [done|]. intros j h b blk Hj Hb Hc. by apply (G3 j h b blk Hj Hb), Hsame.
  - done.
  - exact Hafter.
  - split; [exact Hw|]. split; [exact Hg|]. split; [exact Hi|]. unfold tc_left in *. cbn [tcB block_cache set_blocks set_cache].
    destruct blocks' as [c|].
    + destruct Hid' as (c0 & -> & E1 & E2 & _). lia.
    + rewrite Hid'. lia.
Qed.

(** The table was read: the block cache may have changed. *)
Lemma tc_read tc n i t blocks :
  tc_wf tc → catalog !! n = Some i → good_table tc i t → id_ok tc (EncodeFixed64 n) t →
  cache_ok (C := icmp) t (fi_handles i) (fi_blocks i) blocks → cache_frame t (block_cache tc) blocks →
  tc_wf (set_blocks tc blocks) ∧ tc_left (set_blocks tc blocks) = tc_left tc.
Proof.
  intros [W1 W2 W3 W4 W5 W6] Hn (G1 & G2 & G3) Hid Hok Hfr. pose proof (to_id (C := icmp) _ _ _ _ _ _ G1) as Hit.
  assert (Hlast : match block_cache tc, blocks with
    | None, None => True | Some c, Some c' => last_id c' = last_id c | _, _ => False end).
  { destruct (block_cache tc), blocks; try done. by destruct Hfr as (_ & ? & _). }
  split; [|unfold tc_left; cbn; destruct (block_cache tc), blocks; by rewrite ?Hlast].
  split; cbn [cache_ block_cache options_ dbname_ env_ set_blocks]; [done| |done| |done|].
  - apply (tidy_frame t (block_cache tc)); [done|done|by destruct Hit|]. unfold id_ok in Hid. destruct (block_cache tc); [by destruct Hid as [[_ ?] _]|done].
  - intros k t' Ht'. specialize (W4 k t' Ht'). unfold id_ok in *. cbn [block_cache set_blocks cache_].
    destruct (block_cache tc), blocks; try done. by rewrite Hlast.
  - intros m i' t' Hm Ht'. destruct (W6 m i' t' Hm Ht') as (F1 & F2 & F3). split; [done|]. split; [done|].
    cbn [block_cache set_blocks]. destruct (block_cache tc) as [c|] eqn:Eb; [|by destruct blocks].
    destruct (decide (cache_id t' = cache_id t)) as [Heq|Heq].
    + destruct (decide (m = n)) as [->|Hne].
      { rewrite Hn in Hm. injection Hm as <-. by apply (cache_ok_same_id t t'). }
      unfold id_ok in Hid. rewrite Eb in Hid. destruct Hid as [_ Hid]. exfalso. apply (Hid _ t' Ht'); [|done].
      destruct (W5 m i' Hm) as [? _], (W5 n i Hn) as [? _].
      intros Ek. apply EncodeFixed64_inj in Ek; [done|unfold in_width; lia..].
    + apply (cache_frame_ok (C := icmp) t t' _ _ (Some c)); [done|by apply (to_id (C := icmp) _ _ _ _ _ _ F1)|done| |done|done].
      destruct (W5 m i' Hm) as (_ & ? & _). by eapply handles_range.
Qed.

Lemma NewTableCache_wf (env : E) dbname o (blocks : option K) entries :
  0 ≤ entries < 2 ^ 33 → tidy blocks → user_filter o →
  (∀ n i, catalog !! n = Some i → 0 < n < 2 ^ 64 ∧ info_ok o i ∧
     ∃ name, TableFileName dbname n = Some name ∧ file_at env name (fi_data i)) →
  ∃ tc, NewTableCache env dbname o blocks entries = Some tc ∧ tc_wf tc ∧ block_cache tc = blocks.
Proof.
  intros He Hb Ho Hfiles. unfold NewTableCache.
  destruct (NewLRUCache_ok (V := Table R) entries He) as (c & -> & Hc & _ & Hno). simpl_bind.
  eexists. split; [done|]. split; [|done]. split; [done..| |done|]; intros; exfalso; by eapply Hno.
Qed.

Definition tc_holds tc (n size : Z) (es : list (list Z * list Z)) : Prop :=
  tc_wf tc ∧ ∃ i, catalog !! n = Some i ∧ size = Z.of_nat (length (fi_data i)) ∧ es = fi_entries i.

Lemma cached_Get_ok tc ro n size es u snap :
  tc_holds tc n size es → 1 ≤ tc_left tc → internal_entries es → key_ok u → seq_ok snap →
  ∃ tc' saved, cached_Get tc ro n size (ikey_bytes u (tag_of snap kValueTypeForSeek)) = Some (tc', OK, saved) ∧
    saved_ok es u snap saved ∧ (∀ n s es', tc_holds tc n s es' → tc_holds tc' n s es') ∧ tc_left tc - 1 ≤ tc_left tc'.
Proof.
  intros (Hwf & i & Hn & -> & ->) Hleft Hes Hu Hsnap. unfold cached_Get.
  destruct (FindTable_ok tc n i Hwf Hn Hleft) as (tc1 & handle & t & cache' & -> & Hval & Hrel & Hw & Hg & Hi & Hl).
  simpl_bind. cbn [ok]. rewrite Hval. simpl_bind. pose proof Hg as (G1 & G2 & G3).
  destruct (InternalGet_ok (C := icmp) t _ _ _ _ _ G1 (block_cache tc1) ro (ikey_bytes u (tag_of snap kValueTypeForSeek)) G3)
    as (blocks & saved & -> & Hok & Hfr & Hget).
  { apply (user_filter_near t). rewrite G2. apply Hw. }
  simpl_bind. unfold release_table. cbn [cache_ set_blocks]. rewrite Hrel. simpl_bind.
  destruct (tc_read (set_cache tc1 cache') n i t blocks Hw Hn Hg Hi Hok Hfr) as [Hw' Hl'].
  exists (set_blocks (set_cache tc1 cache') blocks), saved. split; [done|]. split; [|split; [|by rewrite Hl']].
  - destruct Hes as [Hwe Hsort]. pose proof (get_visible C (fi_entries i) u snap saved Hsort) as Hvis.
    unfold saved_ok. specialize (Hvis (Forall_impl _ _ _ Hwe (λ e, ikey_wf_long e.1)) Hsnap Hget).
    destruct (visible (fi_entries i) u snap) as [e|]; [done|]. intros e He. split; [|by apply Hvis].
    rewrite He in Hget. cbn in Hget. by eapply list_elem_of_lookup_2.
  - intros m s es (_ & j & ? & ? & ?). split; [exact Hw'|]. by exists j.
Qed.

Definition table_cache_laws : TableStoreLaws (TableCache E R K) := {|
  ts_holds := tc_holds;
  ts_left := tc_left;
  ts_Get := cached_Get_ok
|}.
End laws.
