(* ===== verification/DbReadTheorems.v ===== *)
(** What reading the database gives: [DBImpl::Get] over memtables, versions and
    tables, and the iterator of the database.  And tables at work: the
    theorems of TableTheorems.v for the in-memory files of memenv, the
    accelerated checksum, the LRU cache and a Bloom filter. *)

From Stdlib Require Import ZArith Lia.
From stdpp Require Import base option numbers list gmap strings sorting.
From S2P Require Import Prelude Coding Slice BlockSpec WriteBatch DbFormat SkipList SkipListSpec SkipListRefine.
From S2P Require Import MemTable KvStore Crc32c Env MemEnv MemFs FileName Iterator TwoLevel Merger Bloom InternalKey.
From S2P Require Import FilterBlock Block BlockTheorems TableFormat TableBuildSpec TableFile Table TableSpec.
From S2P Require Import TableTheorems VersionEdit DbIter DbIterSpec Version VersionSpec LruCache LruBlockCache TableCache.

(** The size of a Bloom filter. *)
Lemma bloom_filter_size `{P : Port} p :
  bloom_ok p → filter_size (bloom_policy p) (Z.to_nat (bits_per_key_ p) + 27).
Proof.
  intros [Hk Hb]. split; [cbn [policy_Name bloom_policy]; change (length (bytes_of _)) with 27%nat; lia|].
  intros keys dst. cbn [CreateFilter bloom_policy]. unfold bloom_CreateFilter.
  set (n := Z.of_nat (length keys)). rewrite length_app, length_add_keys, length_app, length_replicate. cbn [length].
  set (bits := if _ <? 64 then 64 else _).
  assert (Hbits : 0 ≤ bits ≤ 64 + n * bits_per_key_ p).
  { pose proof (wrap_range 64 (n * bits_per_key_ p) ltac:(lia)) as [Hw _].
    pose proof (Z.mod_le (n * bits_per_key_ p) (2 ^ 64) ltac:(nia) ltac:(lia)).
    unfold bits. destruct (Z.ltb_spec (u64 (n * bits_per_key_ p)) 64); unfold wrap in *; nia. }
  pose proof (Z.mod_le (bits + 7) (2 ^ 64) ltac:(lia) ltac:(lia)) as Hm.
  pose proof (wrap_range 64 (bits + 7) ltac:(lia)) as [Hw0 _].
  assert (Hdiv : u64 (bits + 7) / 8 ≤ 9 + n * bits_per_key_ p).
  { unfold wrap in *. apply Z.div_le_upper_bound; [lia|]. nia. }
  unfold n in *. nia.
Qed.

Lemma internal_filter_size F B : filter_size F B → filter_size (InternalFilterPolicy F) B.
Proof.
  intros [Hn Hs]. split; [exact Hn|]. intros keys dst. cbn [CreateFilter InternalFilterPolicy].
  pose proof (Hs ((λ key, default key (ExtractUserKey key)) <$> keys) dst) as Hl. by rewrite length_fmap in Hl.
Qed.

Section witness.
#[local] Existing Instances posix_x86 sse_cpu sse_cpu_laws.
#[local] Existing Instances Files.memenv_random Files.memenv_random_laws.
#[local] Instance table_file_w : WritableFile FileState.t := Files.memenv_writable zero_block.
#[local] Instance table_laws : WritableFileLaws FileState.t := Files.memenv_writable_laws zero_block zero_block_length.
#[local] Instance table_reliable : Reliable FileState.t := Files.memenv_reliable zero_block.
#[local] Instance table_crc : Crc32c := crc32c_impl Sse64 0 0.
#[local] Instance table_crc_laws : Crc32cLaws table_crc := crc32c_impl_laws Sse64 0 0 ltac:(lia).

Definition bloom10 : BloomFilterPolicy := NewBloomFilterPolicy 10 6.

(** Blocks of 30 bytes, a restart point every two entries, no compressor. *)
Definition example_options : Options :=
  mkOptions true 30 2 (replicate 256 None) (Some (InternalFilterPolicy (bloom_policy bloom10))).

(** Two versions of one user key, a deletion, and another key. *)
Definition example_entries : list (list Z * list Z) :=
  [(ikey_bytes [1; 1] (tag_of 7 1), [70]); (ikey_bytes [1; 1] (tag_of 5 1), [50]);
   (ikey_bytes [2; 1; 1] (tag_of 6 0), []); (ikey_bytes [4] (tag_of 2 1), [20; 21])].

Abbreviation icmp := (InternalKeyComparator BytewiseComparator).

(** The lookups that are made of the table. *)
Definition example_gets (cache : option (ShardedLRUCache Block)) (ks : list (list Z * Z)) :=
  '(r, _) ← build_table (C := icmp) example_options FileState.new example_entries;
  '(s, t, cache) ← Open (C := icmp) example_options cache (rep_file r) (FileSize r);
  t ← t;
  get_all (C := icmp) t cache (mkReadOptions true true)
    ((λ k, ikey_bytes k.1 (tag_of k.2 kValueTypeForSeek)) <$> ks).

Lemma table_example :
  (cache ← NewLRUCache 1000;
   example_gets (Some cache) [([1; 1], 9); ([1; 1], 6); ([1; 1], 4); ([2; 1; 1], 9); ([3], 9); ([4], 1); ([1; 1], 9)])
  = Some [(OK, Some (ikey_bytes [1; 1] (tag_of 7 1), [70])); (OK, Some (ikey_bytes [1; 1] (tag_of 5 1), [50]));
          (OK, Some (ikey_bytes [2; 1; 1] (tag_of 6 0), [])); (OK, Some (ikey_bytes [2; 1; 1] (tag_of 6 0), []));
          (OK, None); (OK, None); (OK, Some (ikey_bytes [1; 1] (tag_of 7 1), [70]))].
Proof. vm_compute. reflexivity. Qed.

(** *** The hypotheses of the theorems *)

Lemma bloom10_ok : bloom_ok bloom10.
Proof. by apply NewBloomFilterPolicy_ok. Qed.

Lemma example_options_ok : options_ok example_options 37.
Proof.
  split; [done| |].
  - intros c. cbn [compressors example_options]. rewrite lookup_replicate_2 by lia. done.
  - intros F [= <-]. split.
    + apply InternalFilterPolicy_laws, bloom_laws, bloom10_ok.
    + apply internal_filter_size, (bloom_filter_size bloom10 bloom10_ok).
Qed.

Lemma slice_compare_zero a b : Compare (Comparator := BytewiseComparator) a b = 0 → a = b.
Proof. intros E. apply lex_eq. by rewrite <-slice_compare_lex. Qed.

Lemma example_user_filter : user_filter (C := BytewiseComparator) example_options.
Proof.
  intros F [= <-]. eexists. split; [done|]. intros u u' f E. by rewrite (slice_compare_zero u u' E).
Qed.

Definition str_okb (s : list Z) : bool :=
  forallb (λ b, (0 <=? b) && (b <? 256)) s && (Z.of_nat (length s) <? 2 ^ 32).

Lemma str_okb_ok s : str_okb s = true → str_ok s.
Proof.
  intros [Hb Hl]%andb_true_iff. split.
  - apply Forall_forall. intros b Hin%list_elem_of_In. rewrite forallb_forall in Hb. specialize (Hb b Hin).
    apply andb_true_iff in Hb as [?%Z.leb_le ?%Z.ltb_lt]. by split.
  - apply Z.ltb_lt in Hl. split; [lia|done].
Qed.

Lemma entries_okb_ok (es : list (list Z * list Z)) :
  forallb (λ e, str_okb e.1 && str_okb e.2) es = true → Forall (λ e, str_ok e.1 ∧ str_ok e.2) es.
Proof.
  intros Hb. apply Forall_forall. intros e Hin%list_elem_of_In. rewrite forallb_forall in Hb. specialize (Hb e Hin).
  apply andb_true_iff in Hb as [??]. split; by apply str_okb_ok.
Qed.

Lemma example_input : table_input (C := icmp) 37 example_entries.
Proof.
  split; [|split; [|split; [vm_compute; reflexivity|done]]].
  - repeat first [apply SSorted_nil | apply SSorted_cons | apply Forall_nil | apply Forall_cons; split
      | vm_compute; reflexivity].
  - apply entries_okb_ok. vm_compute. reflexivity.
Qed.

Lemma cache_tidy capacity :
  0 ≤ capacity < 2 ^ 33 → ∃ c, NewLRUCache capacity = Some c ∧ tidy (Some c) ∧ has_ids (Some c).
Proof.
  intros Hc. destruct (NewLRUCache_ok (V := Block) capacity Hc) as (c & E & Hwf & Hid & Hno). exists c. split; [done|].
  split; [|cbn; rewrite Hid; lia]. split; [exact Hwf|]. split; [cbn; rewrite Hid; by split|].
  intros k b Hb. by apply Hno in Hb.
Qed.

Lemma table_refines_cursor_witness :
  ∃ r (cache : ShardedLRUCache Block) t cache' it, build_table (C := icmp) example_options FileState.new example_entries = Some (r, OK) ∧
    NewLRUCache 1000 = Some cache ∧
    Open (C := icmp) example_options (Some cache) (rep_file r) (FileSize r) = Some (OK, Some t, cache') ∧
    table_NewIterator (C := icmp) t cache' = Some it ∧
    let iterator := table_iterator (C := icmp) 5 (mkReadOptions true true) in
    ∃ it', run_ops (i_apply (H := iterator)) it [OpSeek (ikey_bytes [1; 1] (tag_of 5 1)); OpNext] = Some it' ∧
      i_status (Iterator := iterator) it' = Some OK ∧
      i_entry (H := iterator) it' = Some (example_entries !! 2%nat).
Proof.
  destruct (table_refines_cursor (C := icmp) (R := FileState.t) (K := ShardedLRUCache Block) example_options 37
    FileState.new example_entries example_options_ok example_input) as (r & E & Hw & Hsz & Hn & HR).
  - apply FileState.data_new.
  - reflexivity.
  - destruct (cache_tidy 1000 ltac:(lia)) as (cache & Ec & Hti & Hid).
    destruct (HR (rep_file r) (Some cache) (mkReadOptions true true) 5%nat) as (t & cache' & it & Eo & Ei & Hops).
    + exact Hw.
    + reflexivity.
    + exact Hti.
    + exact Hid.
    + cbn. lia.
    + exists r, cache, t, cache', it. split; [exact E|]. split; [exact Ec|]. split; [exact Eo|]. split; [exact Ei|].
      apply (Hops [OpSeek (ikey_bytes [1; 1] (tag_of 5 1)); OpNext] 2%nat). vm_compute. reflexivity.
Defined.

Lemma table_get_newest_witness :
  ∃ r (cache : ShardedLRUCache Block) t cache' rs, build_table (C := icmp) example_options FileState.new example_entries = Some (r, OK) ∧
    NewLRUCache 1000 = Some cache ∧
    Open (C := icmp) example_options (Some cache) (rep_file r) (FileSize r) = Some (OK, Some t, cache') ∧
    get_all (C := icmp) t cache' (mkReadOptions true true)
      ((λ k, ikey_bytes k.1 (tag_of k.2 kValueTypeForSeek)) <$> [([1; 1], 6); ([3], 9)]) = Some rs ∧
    Forall2 (λ k r, r.1 = OK ∧
      match visible (C := BytewiseComparator) example_entries k.1 k.2 with
      | Some e => r.2 = Some e
      | None => ∀ e, r.2 = Some e → Compare (Comparator := BytewiseComparator) (ikey_user e.1) k.1 ≠ 0
      end) [([1; 1], 6); ([3], 9)] rs.
Proof.
  destruct (table_get_newest (C := BytewiseComparator) (R := FileState.t) (K := ShardedLRUCache Block) example_options 37
    FileState.new example_entries example_options_ok example_user_filter example_input) as (r & E & Hw & HR).
  - repeat first [apply Forall_nil; done | apply Forall_cons; split; [cbn; lia|]].
  - apply FileState.data_new.
  - reflexivity.
  - destruct (cache_tidy 1000 ltac:(lia)) as (cache & Ec & Hti & Hid).
    destruct (HR (rep_file r) (Some cache) (mkReadOptions true true) [([1; 1], 6); ([3], 9)])
      as (t & cache' & rs & Eo & Eg & Hrs).
    + exact Hw.
    + reflexivity.
    + exact Hti.
    + exact Hid.
    + repeat first [apply Forall_nil; done | apply Forall_cons; split]; split; cbn; (lia || done).
    + exists r, cache, t, cache', rs. split; [exact E|]. split; [exact Ec|]. split; [exact Eo|]. split; [exact Eg|].
      exact Hrs.
Defined.

(** *** Damage *)

(** A file with one block, whose second byte should be 2. *)
Definition damaged_file : FileState.t :=
  let d := [1; 9; 3; 0] ++ le_bytes 4 (Mask (crc32c_ref 0 [1; 2; 3; 0])) in
  match FileState.Append zero_block FileState.new d with Some (f, _) => f | None => FileState.new end.

Lemma table_detects_damage_witness :
  ReadBlock damaged_file example_options (mkReadOptions true true) (mkHandle 0 3)
  = Some (Corruption "block checksum mismatch", mkContents [] false false).
Proof.
  assert (Hwf : random damaged_file).
  { unfold damaged_file. destruct (FileState.Append_data zero_block FileState.new
      ([1; 9; 3; 0] ++ le_bytes 4 (Mask (crc32c_ref 0 [1; 2; 3; 0]))) zero_block_length (proj1 FileState.data_new))
      as (f & E & Hw & _). rewrite E. exact Hw. }
  assert (Hd : random_contents damaged_file = [1; 9; 3; 0] ++ le_bytes 4 (Mask (crc32c_ref 0 [1; 2; 3; 0])))
    by (vm_compute; reflexivity).
  destruct (table_detects_damage (C := BytewiseComparator) (K := ShardedLRUCache Block) damaged_file example_options
    (mkHandle 0 3) Hwf) as [Hr _].
  - rewrite Hd. vm_compute. reflexivity.
  - rewrite Hd. exists [], [1], [2], [9], [3; 0], []. split; [vm_compute; reflexivity|].
    split; [repeat constructor; unfold in_width; lia|]. split; [repeat constructor; unfold in_width; lia|].
    split; [done|]. split; [cbn; lia|]. split; [done|]. split; [cbn; lia|reflexivity].
  - apply (Hr (mkReadOptions true true) eq_refl).
Defined.
End witness.

(** Reading the database: [DBImpl::Get] answers from the newest visible entry
    of the memtables and of the tables of the current version, and the
    iterator for users is a cursor over what is visible. *)

(** ** [Get] *)

Section get.
Context `{P : Port} {C : Comparator} {HC : ComparatorLaws C}.
Context {T : OrderedTable (list Z)} {TL : OrderedTableLaws T table_wf table_cmp}.
Context `{TableStore TS} {HT : TableStoreLaws (P := P) (C := C) TS}.

(** The entries of a database: the memtable has the newest, then the one that
    is being written, then the tables. *)
Definition db_holds (tc : TS) (db : DBState T) (es : list entry) : Prop :=
  ∃ em ei ev, mem_rep (mem_ db) em ∧ match imm_ db with Some imm => mem_rep imm ei | None => ei = [] end ∧
    version_rep tc (current_ db) ev ∧ newer em (ei ++ ev) ∧ newer ei ev ∧ es = em ++ ei ++ ev.

Lemma DBImpl_Get_ok (tc : TS) (db : DBState T) es options snapshot key :
  db_holds tc db es → key_ok key → seq_ok (default (last_seq_ db) snapshot) →
  Z.of_nat (version_files (current_ db)) ≤ ts_left tc →
  ∃ db' tc' compact a, DBImpl_Get db tc options snapshot key = Some (db', tc', compact, (get_status a).1, (get_status a).2) ∧
    get_ok es key (default (last_seq_ db) snapshot) a ∧ db_holds tc' db' es ∧ last_seq_ db' = last_seq_ db ∧
    version_files (current_ db') = version_files (current_ db) ∧
    ts_left tc - Z.of_nat (version_files (current_ db)) ≤ ts_left tc'.
Proof.
  intros (em & ei & ev & Hm & Hi & Hv & Hn1 & Hn2 & ->) Hk Hs Hleft. unfold DBImpl_Get. set (snap := default _ _) in *.
  destruct (NewLookupKey_bytes key snap Hk Hs) as (lk & Hlk & _ & Hik & Huk).
  destruct (Get_rep (mem_ db) em key snap Hm Hk Hs) as (lk' & r1 & Hlk' & Hr1 & Hok1).
  rewrite Hlk in Hlk'. injection Hlk' as <-. rewrite Hlk. simpl_bind. rewrite Hr1. simpl_bind.
  assert (Hi' : ∃ r2, match imm_ db with Some imm => Get imm lk | None => Some GotNothing end = Some r2 ∧ get_ok ei key snap r2).
  { destruct (imm_ db) as [imm|].
    - destruct (Get_rep imm ei key snap Hi Hk Hs) as (lk' & r2 & Hlk' & Hr2 & Hok2).
      rewrite Hlk in Hlk'. injection Hlk' as <-. by exists r2.
    - subst ei. exists GotNothing. split; [done|]. by intros e ?%not_elem_of_nil. }
  destruct Hi' as (r2 & Hr2 & Hok2).
  destruct (version_Get_ok options key snap Hk Hs tc (current_ db) ev lk Hv Hleft Hik Huk) as (tc' & st & r3 & Hr3 & Hok3 & Hkeep).
  pose proof (get_ok_app _ _ _ _ _ _ Hn2 Hok2 Hok3) as Hok23. pose proof (get_ok_app _ _ _ _ _ _ Hn1 Hok1 Hok23) as Hok.
  assert (Hsame : ∀ a, get_ok (em ++ ei ++ ev) key snap a → ∃ db' tc' compact a',
    Some (db, tc, false, (get_status a).1, (get_status a).2) = Some (db', tc', compact, (get_status a').1, (get_status a').2) ∧
    get_ok (em ++ ei ++ ev) key snap a' ∧ db_holds tc' db' (em ++ ei ++ ev) ∧ last_seq_ db' = last_seq_ db ∧
    version_files (current_ db') = version_files (current_ db) ∧
    ts_left tc - Z.of_nat (version_files (current_ db)) ≤ ts_left tc').
  { intros a Ha. exists db, tc, false, a. split_and!; [done|done|by exists em, ei, ev|done|done|lia]. }
  destruct r1 as [|v|s]; cbn [or_else] in Hok; [|by apply (Hsame (GotValue v))|by apply (Hsame (GotDeletion s))].
  rewrite Hr2. simpl_bind. destruct r2 as [|v|s]; cbn [or_else] in Hok; [|by apply (Hsame (GotValue v))|by apply (Hsame (GotDeletion s))].
  rewrite Hr3. simpl_bind. pose proof (UpdateStats_files (current_ db) st) as Hfiles.
  pose proof (UpdateStats_rep tc (current_ db) st ev Hv) as Hrep.
  destruct (UpdateStats (current_ db) st) as [cur compact]. cbn [fst] in *.
  exists (mkDBState (mem_ db) (imm_ db) cur (last_seq_ db)), tc', compact, r3. split; [done|]. split; [done|].
  split; [|split; [done|split; [exact Hfiles|exact (proj2 Hkeep)]]].
  exists em, ei, ev. split_and!; [done|done| |done|done|done]. by apply (version_rep_keeps _ tc tc' _ _ Hkeep).
Qed.

(** Lookups one after the other, each of a key at a snapshot or now. *)
Fixpoint db_get_all (db : DBState T) (tc : TS) (options : ReadOptions) (ks : list (option Z * list Z))
  : option (list (Status * option (list Z))) :=
  match ks with
  | [] => Some []
  | (snapshot, key) :: ks =>
      '(db, tc, _, s, value) ← DBImpl_Get db tc options snapshot key;
      rest ← db_get_all db tc options ks; Some ((s, value) :: rest)
  end.

(** C5. Lookups in the database find the newest visible entries.  Let the
    memtable, the memtable that is being written and the files of the version
    hold entries, newer ones first: the files of a level above 0 are in order
    and disjoint, those of level 0 may overlap and are ordered by number.
    Then every [DBImpl::Get] of a series of lookups, each of a key at a
    snapshot or at the last sequence number, returns: the status is OK and the
    value is that of the newest entry of the key that is not newer than the
    snapshot, or the status is NotFound, because that entry is a deletion or
    there is none.  The statistics that the lookups update change nothing of
    this. *)
Theorem db_get_newest (tc : TS) (db : DBState T) (es : list entry) (options : ReadOptions) (ks : list (option Z * list Z)) :
  db_holds tc db es → Forall (λ k, key_ok k.2 ∧ seq_ok (default (last_seq_ db) k.1)) ks →
  Z.of_nat (length ks * version_files (current_ db)) ≤ ts_left tc →
  ∃ rs, db_get_all db tc options ks = Some rs ∧
    Forall2 (λ k r, ∃ a, r = get_status a ∧ get_ok es k.2 (default (last_seq_ db) k.1) a) ks rs.
Proof.
  revert tc db. induction ks as [|[snapshot key] ks IH]; intros tc db Hdb Hks Hleft; [by exists []|].
  apply Forall_cons in Hks as [[Hk Hs] Hks]. cbn [length fst snd db_get_all] in *.
  destruct (DBImpl_Get_ok tc db es options snapshot key Hdb Hk Hs) as (db' & tc' & c & a & -> & Ha & Hdb' & El & Ef & Hl); [lia|].
  simpl_bind. destruct (IH tc' db' Hdb') as (rs & -> & Hrs); [by rewrite El|rewrite Ef; lia|].
  simpl_bind. eexists. split; [done|]. rewrite El in Hrs. constructor; [|done].
  exists a. split; [|done]. symmetry. apply surjective_pairing.
Qed.
End get.

(** *** A database in memory *)

#[local] Existing Instances Files.memenv_random Files.memenv_random_laws.

(** The files of the in-memory environment, opened for reading. *)
#[export] Instance memenv_opener : FileOpener InMemoryEnv FileState.t := {|
  env_NewRandomAccessFile e fname :=
    '(e, r) ← MemFs.NewRandomAccessFile e (bytes_string fname);
    match r with
    | inl s => Some (e, inl s)
    | inr loc => f ← deref e loc; Some (e, inr f)
    end
|}.

#[export] Instance memenv_opener_laws : FileOpenerLaws InMemoryEnv FileState.t.
Proof.
  refine {| file_at e name data := ∃ loc f, file_map_ e !! bytes_string name = Some (Some loc) ∧ heap e !! loc = Some f ∧
    FileState.wf f ∧ FileState.data f = data |}.
  intros e name data (loc & f & Em & Eh & Hw & Hd). unfold env_NewRandomAccessFile, memenv_opener, MemFs.NewRandomAccessFile.
  rewrite Em. unfold open_file, env_Ref, deref. simpl_bind. rewrite Eh. simpl_bind. cbn [heap set_obj].
  rewrite lookup_insert_eq. simpl_bind. eexists _, _. split; [done|]. split; [exact Hw|]. split; [exact Hd|].
  intros name' data' (loc' & f' & Em' & Eh' & Hw' & Hd'). cbn [heap set_obj file_map_].
  destruct (decide (loc = loc')) as [<-|Hne].
  - exists loc, (FileState.Ref f). rewrite lookup_insert_eq. rewrite Eh in Eh'. injection Eh' as <-. by split_and!.
  - exists loc', f'. by rewrite lookup_insert_ne.
Defined.

Section get_witness.
#[local] Existing Instances posix_x86 sse_cpu sse_cpu_laws.
#[local] Existing Instances table_file_w table_laws table_reliable table_crc table_crc_laws.
#[local] Existing Instance BytewiseComparator.
Abbreviation icmp := (InternalKeyComparator BytewiseComparator).

(** A table of entries that are newer than those of [example_entries]. *)
Definition newer_entries : list (list Z * list Z) :=
  [(ikey_bytes [2; 1; 1] (tag_of 9 1), [90]); (ikey_bytes [3] (tag_of 8 1), [80])].

(** Table 7 is at level 0, table 3 at level 1. *)
Definition example_files (size7 size3 : Z) : list (list FileMetaData) :=
  [[NewFile 7 size7 (ikey_bytes [2; 1; 1] (tag_of 9 1)) (ikey_bytes [3] (tag_of 8 1))];
   [NewFile 3 size3 (ikey_bytes [1; 1] (tag_of 7 1)) (ikey_bytes [4] (tag_of 2 1))]; []; []; []; []; []].

(** Key 4 was deleted last. *)
Definition mem_entry : entry := mkEntry [4] 10 0 [].

Definition example_env (f7 f3 : FileState.t) : InMemoryEnv :=
  MkEnv {[0%nat := f7; 1%nat := f3]} {["/db/000007.ldb"%string := Some 0%nat; "/db/000003.ldb"%string := Some 1%nat]}.

(** Values of three ages, deletions, and a key that is not there. *)
Definition example_lookups : list (option Z * list Z) :=
  [(Some 6, [1; 1]); (None, [2; 1; 1]); (Some 8, [2; 1; 1]); (None, [4]); (Some 9, [4]); (None, [5])].

Lemma newer_input : table_input (C := icmp) 37 newer_entries.
Proof.
  split; [|split; [|split; [vm_compute; reflexivity|done]]].
  - repeat first [apply SSorted_nil | apply SSorted_cons | apply Forall_nil | apply Forall_cons; split
      | vm_compute; reflexivity].
  - apply entries_okb_ok. vm_compute. reflexivity.
Qed.

Lemma build_info es :
  table_input (C := icmp) 37 es →
  ∃ r i, build_table (C := icmp) example_options FileState.new es = Some (r, OK) ∧ FileState.wf (rep_file r) ∧
    fi_data i = FileState.data (rep_file r) ∧ fi_entries i = es ∧ FileSize r = Z.of_nat (length (fi_data i)) ∧
    table_file (C := icmp) example_options (fi_data i) es (fi_handles i) (fi_blocks i) (fi_index i) (fi_footer i).
Proof.
  intros Hes. destruct (build_table_ok (C := icmp) (NB := ikey_neighbours BytewiseComparator) example_options 37 FileState.new es
    example_options_ok Hes) as (r & hs & blocks & ies & footer & E & Hw & Hsz & _ & Ht); [apply FileState.data_new|done|].
  by exists r, (mkInfo (FileState.data (rep_file r)) es hs blocks ies footer).
Qed.

Lemma example_entries_internal : internal_entries example_entries ∧ internal_entries newer_entries.
Proof.
  assert (Hwf : ∀ u s t v, seq_ok s → type_ok t → ikey_wf (ikey_bytes u (tag_of s t), v : list Z).1) by (intros; by eexists _, _, _).
  split; (split; [repeat first [apply Forall_nil; done | apply Forall_cons; split]; apply Hwf; by split|]);
    repeat first [apply SSorted_nil | apply SSorted_cons | apply Forall_nil | apply Forall_cons; split | done].
Qed.
Definition example_run : option (list (Status * option (list Z))) :=
  '(r7, _) ← build_table (C := icmp) example_options FileState.new newer_entries;
  '(r3, _) ← build_table (C := icmp) example_options FileState.new example_entries;
  m ← Add NewMemTable 10 0 [4] [];
  blocks ← NewLRUCache (V := Block) 1000;
  tc ← NewTableCache (example_env (rep_file r7) (rep_file r3)) (bytes_of "/db") example_options (Some blocks) 990;
  db_get_all (mkDBState m None (mkVersion (example_files (FileSize r7) (FileSize r3)) None (-1)) 10) tc
    (mkReadOptions true true) example_lookups.

Lemma example_results :
  example_run = Some [(OK, Some [50]); (OK, Some [90]); (NotFound "", None); (NotFound "", None);
    (OK, Some [20; 21]); (NotFound "", None)].
Proof. vm_compute. reflexivity. Qed.

Lemma newer_check (es1 es2 : list entry) :
  forallb (λ a, forallb (λ b, negb (Compare (e_key a) (e_key b) =? 0) || (e_tag b <? e_tag a)) es2) es1 = true →
  newer es1 es2.
Proof.
  intros Hb a b Ha%list_elem_of_In Hb'%list_elem_of_In Hc. rewrite forallb_forall in Hb. specialize (Hb a Ha).
  rewrite forallb_forall in Hb. specialize (Hb b Hb'). cbv beta in Hb. rewrite (proj2 (Z.eqb_eq _ _) Hc) in Hb. cbn [negb orb] in Hb. lia.
Qed.

Definition example_db (m : MemTable) (size7 size3 : Z) : DBState memtable_table :=
  mkDBState m None (mkVersion (example_files size7 size3) None (-1)) 10.

Definition example_all : list entry := mem_entry :: (entry_of <$> newer_entries ++ example_entries).

Lemma example_version `{TableStore TS} {HT : TableStoreLaws (P := posix_x86) (C := BytewiseComparator) TS} (tc : TS) size7 size3 :
  ts_holds tc 7 size7 newer_entries → ts_holds tc 3 size3 example_entries →
  version_rep tc (mkVersion (example_files size7 size3) None (-1)) (entry_of <$> newer_entries ++ example_entries).
Proof.
  intros H7 H3. destruct example_entries_internal as [I3 I7].
  exists [[(NewFile 7 size7 (ikey_bytes [2; 1; 1] (tag_of 9 1)) (ikey_bytes [3] (tag_of 8 1)), newer_entries)];
    [(NewFile 3 size3 (ikey_bytes [1; 1] (tag_of 7 1)) (ikey_bytes [4] (tag_of 2 1)), example_entries)]; []; []; []; []; []].
  split; [done|]. split; [repeat first [apply Forall_nil; done | apply Forall_cons; split];
    (split; [assumption|assumption|reflexivity|reflexivity])|].
  split; [|split; [|done]].
  - split; [split; [apply NoDup_singleton|]; intros p q ->%list_elem_of_singleton ->%list_elem_of_singleton; cbn; lia|].
    split; [by split|]. repeat (split; [split; [done|split; constructor]|]). done.
  - repeat first [apply SSorted_nil | apply SSorted_cons | apply Forall_nil; done | apply Forall_cons; split];
      apply newer_check; vm_compute; reflexivity.
Qed.

Lemma db_get_newest_witness :
  ∃ r7 r3 m (blocks : ShardedLRUCache Block) tc rs,
    build_table (C := icmp) example_options FileState.new newer_entries = Some (r7, OK) ∧
    build_table (C := icmp) example_options FileState.new example_entries = Some (r3, OK) ∧
    Add NewMemTable 10 0 [4] [] = Some m ∧ NewLRUCache 1000 = Some blocks ∧
    NewTableCache (example_env (rep_file r7) (rep_file r3)) (bytes_of "/db") example_options (Some blocks) 990 = Some tc ∧
    db_get_all (example_db m (FileSize r7) (FileSize r3)) tc (mkReadOptions true true) example_lookups = Some rs ∧
    Forall2 (λ k r, ∃ a, r = get_status a ∧ get_ok example_all k.2 (default 10 k.1) a) example_lookups rs.
Proof.
  destruct (build_info newer_entries newer_input) as (r7 & i7 & E7 & W7 & D7 & Es7 & S7 & T7).
  destruct (build_info example_entries example_input) as (r3 & i3 & E3 & W3 & D3 & Es3 & S3 & T3).
  destruct (Add_rep NewMemTable [] mem_entry NewMemTable_rep) as (m & Em & Hm);
    [by repeat first [split | constructor]|constructor|].
  destruct (cache_tidy 1000 ltac:(lia)) as (blocks & Eb & Hti & Hid).
  set (catalog := {[7 := i7; 3 := i3]} : gmap Z file_info).
  destruct (NewTableCache_wf (C := BytewiseComparator) catalog (example_env (rep_file r7) (rep_file r3)) (bytes_of "/db")
    example_options (Some blocks) 990 ltac:(lia) Hti example_user_filter) as (tc & Etc & Hw & Hbc).
  { intros n i [[<- <-]|[Hne [<- <-]%lookup_singleton_Some]]%lookup_insert_Some; (split; [lia|]); (split; [by rewrite ?Es7, ?Es3|]);
      eexists; (split; [reflexivity|]).
    - exists 0%nat, (rep_file r7). split; [vm_compute; reflexivity|]. split; [reflexivity|]. by split.
    - exists 1%nat, (rep_file r3). split; [vm_compute; reflexivity|]. split; [reflexivity|]. by split. }
  destruct (db_get_newest (HT := table_cache_laws catalog) tc (example_db m (FileSize r7) (FileSize r3)) example_all
    (mkReadOptions true true) example_lookups) as (rs & Ers & Hrs).
  - exists [mem_entry], [], (entry_of <$> newer_entries ++ example_entries). split; [exact Hm|]. split; [reflexivity|].
    split; [|split; [|split]].
    2: { apply newer_check. vm_compute. reflexivity. }
    2: { intros a b Ha. exfalso. revert Ha. apply not_elem_of_nil. }
    2: { reflexivity. }
    apply (example_version (HT := table_cache_laws catalog)); (split; [exact Hw|]).
    + exists i7. split; [apply lookup_insert_eq|]. split; [exact S7|by rewrite Es7].
    + exists i3. split; [subst catalog; rewrite lookup_insert_ne by done; apply lookup_singleton_eq|]. split; [exact S3|by rewrite Es3].
  - repeat first [apply Forall_nil; done | apply Forall_cons; split];
      (split; [split; [repeat first [apply Forall_nil; done | apply Forall_cons; split]|]|]); by (vm_compute; split).
  - assert (E0 : last_id_ blocks = 0).
    { destruct (NewLRUCache_ok (V := Block) 1000 ltac:(lia)) as (c & Ec & _ & E0 & _). rewrite Eb in Ec. by injection Ec as ->. }
    unfold ts_left, table_cache_laws, tc_left. rewrite Hbc. cbn. rewrite E0. lia.
  - exists r7, r3, m, blocks, tc, rs. split; [exact E7|]. split; [exact E3|]. split; [exact Em|]. split; [exact Eb|].
    split; [exact Etc|]. split; [exact Ers|exact Hrs].
Defined.
End get_witness.

(** ** Iteration *)

(** What [NewMergingIterator] makes, as an iterator over internal keys. *)
Definition internal_iterator `{P : Port} {C : Comparator} `{Iterator T} : Iterator (EmptyIterator + (T + MergingIterator T)) :=
  sum_iterator (H0 := sum_iterator (H0 := merging_iterator (C := InternalKeyComparator C))).

(** C6. The iterator for users is a cursor over what is visible.  For any
    children that keep the contract of iterators over internal keys, the
    entries of all of them being [es] in order, the iterator of
    [NewDBIterator] over their merging iterator shows exactly the newest entry
    of each user key that is not newer than the snapshot, unless that entry is
    a deletion: whatever sequence of [Seek], [SeekToFirst], [SeekToLast],
    [Next] and [Prev] is asked of it (the last two at an entry), changes of
    direction included, every operation ends, the status is OK, and the key and
    the value are those of the entry at which a cursor over this list would
    be; whatever the random sampling of reads does. *)
Theorem db_iterator_refines_view `{P : Port} {C : Comparator} {HC : ComparatorLaws C}
    `{Iterator T} `{!IteratorLaws (C := InternalKeyComparator C) T}
    (its : list T) (Ls : list (list (list Z * list Z))) (es : list (list Z * list Z)) (snap seed : Z) (fuel : nat) :
  merge_of (C := InternalKeyComparator C) Ls es →
  Forall2 (λ it L, ∃ p, positioned (C := InternalKeyComparator C) it L p) its Ls →
  Forall (λ e, ikey_wf e.1) es → seq_ok snap → (length es < fuel)%nat →
  let iterator := db_iterator (C := C) (H := internal_iterator) fuel in
  let view := user_view es snap in
  ∃ m, NewMergingIterator its = Some m ∧
    ∀ ops i, run_ops (cursor_op view) (length view) ops = Some i →
      ∃ d, run_ops (i_apply (H := iterator)) (NewDBIterator m snap seed) ops = Some d ∧
        i_status (Iterator := iterator) d = Some OK ∧ i_entry (H := iterator) d = Some (view !! i).
Proof.
  intros Hm Hits Hwf Hsnap Hfuel iterator view.
  destruct (NewMergingIterator_positioned (C := InternalKeyComparator C) Ls es its Hm Hits) as (m & p & E & Hp).
  exists m. split; [done|]. intros ops i Hops.
  assert (Hes : internal_entries es) by (split; [done|]; apply Hm).
  pose proof (NewDBIterator_positioned fuel m es p snap seed Hes Hsnap Hfuel Hp) as Hd.
  destruct (positioned_ops (H0 := db_laws fuel) ops _ _ _ i Hd Hops) as (d & Er & Hd').
  exists d. split; [done|]. exact (positioned_shows (H0 := db_laws fuel) d _ i Hd').
Qed.

Section iter_witness.
#[local] Existing Instance BytewiseComparator.
#[local] Existing Instance posix_x86.
Abbreviation icmp := (InternalKeyComparator BytewiseComparator).

(** Two versions of key 1, a deletion of key 2 over a value, and key 3. *)
Definition new_entries : list (list Z * list Z) :=
  [(ikey_bytes [1] (tag_of 7 1), [70]); (ikey_bytes [2] (tag_of 6 0), [])].
Definition old_entries : list (list Z * list Z) :=
  [(ikey_bytes [1] (tag_of 3 1), [30]); (ikey_bytes [2] (tag_of 4 1), [40]); (ikey_bytes [3] (tag_of 5 1), [50])].
Definition all_entries : list (list Z * list Z) :=
  [(ikey_bytes [1] (tag_of 7 1), [70]); (ikey_bytes [1] (tag_of 3 1), [30]); (ikey_bytes [2] (tag_of 6 0), []);
   (ikey_bytes [2] (tag_of 4 1), [40]); (ikey_bytes [3] (tag_of 5 1), [50])].

Lemma views : user_view all_entries 9 = [([1], [70]); ([3], [50])] ∧
  user_view all_entries 5 = [([1], [30]); ([2], [40]); ([3], [50])].
Proof. by vm_compute. Qed.

(** The entries as they are at sequence number 5. *)
Lemma db_iterator_refines_view_witness :
  ∃ it1 it2 m, block_over (C := icmp) new_entries = Some it1 ∧ block_over (C := icmp) old_entries = Some it2 ∧
    NewMergingIterator (H := block_iterator (C := icmp)) [it1; it2] = Some m ∧
    let iterator := db_iterator (H := internal_iterator (H := block_iterator (C := icmp))) 6 in
    let view := user_view all_entries 5 in
    ∀ ops i, run_ops (cursor_op view) (length view) ops = Some i →
      ∃ d, run_ops (i_apply (H := iterator)) (NewDBIterator m 5 1) ops = Some d ∧
        i_status (Iterator := iterator) d = Some OK ∧ i_entry (H := iterator) d = Some (view !! i).
Proof.
  destruct (block_over_ok (C := icmp) new_entries) as (it1 & E1 & H1);
    [repeat first [apply Forall_cons; split | apply Forall_nil; done | split | done]
    |repeat first [apply SSorted_nil | apply SSorted_cons | apply Forall_nil | apply Forall_cons; split | done]
    |vm_compute; reflexivity|].
  destruct (block_over_ok (C := icmp) old_entries) as (it2 & E2 & H2);
    [repeat first [apply Forall_cons; split | apply Forall_nil; done | split | done]
    |repeat first [apply SSorted_nil | apply SSorted_cons | apply Forall_nil | apply Forall_cons; split | done]
    |vm_compute; reflexivity|].
  destruct (db_iterator_refines_view (C := BytewiseComparator) (H := block_iterator (C := icmp)) [it1; it2] [new_entries; old_entries] all_entries 5 1 6) as (m & Em & Hm).
  - split; [|split; [|split]].
    + unfold all_entries, new_entries, old_entries. cbn. solve_Permutation.
    + repeat first [apply SSorted_nil | apply SSorted_cons | apply Forall_nil | apply Forall_cons; split | done].
    + repeat first [apply SSorted_nil | apply SSorted_cons | apply Forall_nil | apply Forall_cons; split | done].
    + intros [|[|c]] [|[|c']] L L' x y Hne HL HL' Hx Hy; try done; injection HL as <-; injection HL' as <-;
        apply list_elem_of_In in Hx, Hy; cbn in Hx, Hy; destruct_or!; subst; done.
  - repeat constructor; by eexists.
  - repeat first [apply Forall_nil; done | apply Forall_cons; split]; do 3 eexists; (split; [reflexivity|]); by split.
  - by split.
  - cbn; lia.
  - exists it1, it2, m. split; [exact E1|]. split; [exact E2|]. split; [exact Em|]. exact Hm.
Defined.
End iter_witness.
