(* ===== verification/CompactionTheorems.v ===== *)
(** What a compaction changes: the version that [InstallCompactionResults]
    makes is well formed, and reads at every snapshot that is held see in it
    what they saw before; the work of a compaction ends with tables of what is
    kept.  The last part has two examples where the code goes wrong: a user
    key that is split between two files of a level, and a memtable that is
    written out into the range of a manual compaction. *)

From Stdlib Require Import ZArith Lia Permutation.
From stdpp Require Import base option numbers sets list strings gmap sorting.
From S2P Require Import Prelude Coding Slice WriteBatch DbFormat SkipList SkipListSpec SkipListRefine.
From S2P Require Import BlockSpec MemTable Crc32c Env FileName Iterator TwoLevel Merger Bloom InternalKey TableFormat Table.
From S2P Require Import TableBuildSpec TableFile TableSpec TableTheorems VersionEdit DbIterSpec Version VersionSpec.
From S2P Require Import MemEnv Block BlockTheorems LruCache LruBlockCache DbReadTheorems.
From S2P Require Import VersionBuilder Compaction CompactionWork.

#[export] Instance FileMetaData_eq_dec : EqDecision FileMetaData.
Proof. solve_decision. Defined.

(** ** Lists of levels *)

(** Lists in the order of other ones. *)
Lemma permuted_levels {A B} (g : A → B) (SS : list (list A)) (fs : list (list B)) :
  Forall2 (λ S f, f ≡ₚ g <$> S) SS fs → ∃ LL, (fmap (M := list) g) <$> LL = fs ∧ Forall2 (≡ₚ) LL SS.
Proof.
  induction 1 as [|S f SS fs Hp _ IH]; [by exists []|]. destruct IH as (LL & E & HLL).
  apply Permutation_map_inv in Hp as (L & -> & HL). exists (L :: LL). split; [by rewrite fmap_cons, E|].
  constructor; [by symmetry|done].
Qed.

Section levels.
Context `{P : Port} {C : Comparator} {HC : ComparatorLaws C}.
Context `{TableStore TS} {HT : TableStoreLaws (P := P) (C := C) TS}.

Abbreviation file := (FileMetaData * list (list Z * list Z))%type.
Implicit Types (tc : TS) (L M : list file) (p q : file).

Lemma levels_ok_lookup (LL : list (list file)) : ∀ level, 0 ≤ level →
  levels_ok level LL ↔ ∀ i L, LL !! i = Some L → if level + Z.of_nat i =? 0 then level0_ok L else level_ok L.
Proof.
  induction LL as [|L LL IH]; intros level Hl; cbn [levels_ok]; [done|]. rewrite IH by lia. split.
  - intros [H1 H2] [|i] L' Hi; [injection Hi as <-; by rewrite Z.add_0_r|]. specialize (H2 i L' Hi).
    by replace (level + Z.of_nat (S i)) with (level + 1 + Z.of_nat i) by lia.
  - intros Hall. split; [specialize (Hall 0%nat L eq_refl); by rewrite Z.add_0_r in Hall|]. intros i L' Hi.
    specialize (Hall (S i) L' Hi). by replace (level + 1 + Z.of_nat i) with (level + Z.of_nat (S i)) by lia.
Qed.

(** *** Disjoint files *)

(** The keys of [p] are before those of [q]. *)
Definition before p q : Prop := icmp_Compare C (f_largest p.1) (f_smallest q.1) < 0.

Definition disjoint_files L : Prop := ∀ p q, p ∈ L → q ∈ L → p ≠ q → before p q ∨ before q p.

Lemma file_ok_range tc p : file_ok tc p → file_range p.1.
Proof.
  intros Hp. destruct (file_keys_wf tc p Hp) as [Hs Hl]. split; [done|]. split; [done|].
  destruct (file_bounds tc p Hp) as ((a & Ha & Ea) & _ & Hb). rewrite <-Ea. by apply Hb.
Qed.

Lemma before_entries tc p q a b :
  file_ok tc p → file_ok tc q → before p q → a ∈ p.2 → b ∈ q.2 → icmp_Compare C a.1 b.1 < 0.
Proof.
  intros Hp Hq Hb Ha Hbq. destruct (file_bounds tc p Hp) as (_ & _ & Bp), (file_bounds tc q Hq) as (_ & _ & Bq).
  pose proof (Compare_le_lt_trans (C := InternalKeyComparator C) _ _ _ (proj2 (Bp a Ha)) Hb) as H1.
  exact (Compare_lt_le_trans (C := InternalKeyComparator C) _ _ _ H1 (proj1 (Bq b Hbq))).
Qed.

Lemma entries_before tc p q :
  file_ok tc p → file_ok tc q → (∀ a b, a ∈ p.2 → b ∈ q.2 → icmp_Compare C a.1 b.1 < 0) → before p q.
Proof.
  intros Hp Hq Hlt. destruct (file_bounds tc p Hp) as (_ & (a & Ha & Ea) & _).
  destruct (file_bounds tc q Hq) as ((b & Hb & Eb) & _). unfold before. rewrite <-Ea, <-Eb. by apply Hlt.
Qed.

Lemma level_before tc L i j p q :
  Forall (file_ok tc) L → level_ok L → (i < j)%nat → L !! i = Some p → L !! j = Some q → before p q.
Proof.
  intros Hok [_ Hi] Hij Hp Hq. rewrite Forall_forall in Hok.
  apply (entries_before tc); [by apply Hok, list_elem_of_lookup_2 with i|by apply Hok, list_elem_of_lookup_2 with j|].
  intros a b Ha Hb. rewrite <-(take_drop_middle L i p Hp), concat_split in Hi.
  apply internal_entries_app in Hi as (_ & Hi & _). apply internal_entries_app in Hi as (_ & _ & Hlt).
  apply Hlt; [done|]. apply (elem_of_level q); [|done]. apply list_elem_of_lookup. exists (j - S i)%nat.
  rewrite lookup_drop. by replace (S i + (j - S i))%nat with j by lia.
Qed.

Lemma level_disjoint tc L : Forall (file_ok tc) L → level_ok L → disjoint_files L.
Proof.
  intros Hok Hl p q [i Hp]%list_elem_of_lookup [j Hq]%list_elem_of_lookup Hne.
  destruct (Nat.lt_trichotomy i j) as [Hij|[->|Hij]]; [left|congruence|right]; by eapply level_before.
Qed.

(** Disjoint files in the order of their first keys are a level. *)
Lemma disjoint_sorted tc L :
  Forall (file_ok tc) L → disjoint_files L → NoDup (f_number <$> L.*1) → StronglySorted file_lt L.*1 →
  no_overlap L.*1 = true ∧ internal_entries (concat L.*2).
Proof.
  intros Hok Hd Hnd Hs.
  assert (Hb : StronglySorted before L).
  { induction L as [|p L IH]; [constructor|]. rewrite !fmap_cons in *. pose proof Hok as [Hp0 Hok']%Forall_cons.
    apply StronglySorted_cons in Hs as [Hp Hs]. cbn [fmap list_fmap] in Hnd. apply NoDup_cons in Hnd as [Hn Hnd].
    constructor; [apply IH; [done| |done|done]; intros x y Hx Hy; apply Hd; by right|].
    apply Forall_forall. intros q Hq. destruct (Hd p q) as [|Hqp]; [by left|by right| |done|].
    { intros ->. apply Hn. by apply list_elem_of_fmap_2, list_elem_of_fmap_2. }
    exfalso. rewrite Forall_forall in Hp. rewrite Forall_forall in Hok'. specialize (Hp q.1 ltac:(by apply list_elem_of_fmap_2)).
    apply file_lt_spec in Hp. unfold before in Hqp. destruct (file_ok_range tc q (Hok' q Hq)) as (_ & _ & Hle).
    pose proof (Compare_le_lt_trans (C := InternalKeyComparator C) _ _ _ Hle Hqp) as H1. cbn [Compare InternalKeyComparator] in H1.
    pose proof (icmp_anti C (f_smallest q.1) (f_smallest p.1)). lia. }
  clear Hd Hnd Hs. induction Hb as [|p L Hb IH Hp]; [split; [done|]; split; constructor|].
  apply Forall_cons in Hok as [Hpo Hok]. destruct (IH Hok) as [Hno Hi]. rewrite !fmap_cons. split.
  - destruct L as [|q L]; [done|]. rewrite fmap_cons in *. cbn [no_overlap]. apply andb_true_iff. split; [|done].
    apply Forall_cons in Hp as [Hpq _]. unfold before in Hpq. by apply Z.ltb_lt.
  - cbn [concat]. destruct (fo_entries _ _ Hpo) as [W1 S1], Hi as [W2 S2]. split; [by apply Forall_app|].
    apply StronglySorted_app_2; [|done|done]. intros a b Ha Hb'. unfold key_lt. cbn [Compare InternalKeyComparator].
    apply list_elem_of_In, in_concat in Hb' as (es & Hes & Hb'). apply list_elem_of_In, list_elem_of_fmap in Hes as (q & -> & Hq).
    apply list_elem_of_In in Hb'. rewrite Forall_forall in Hp, Hok. by apply (before_entries tc p q); auto.
Qed.
End levels.

(** ** Versions *)

Section version.
Context `{P : Port} {C : Comparator} {HC : ComparatorLaws C}.
Context `{TableStore TS} {HT : TableStoreLaws (P := P) (C := C) TS}.

Abbreviation file := (FileMetaData * list (list Z * list Z))%type.
Abbreviation lentries LL := (fmap (M := list) all_of LL).
Abbreviation lfiles LL := (fmap (M := list) (fmap (M := list) fst) LL).
Implicit Types (tc : TS) (L M : list file) (p q : file) (LL : list (list file)).

Record version_lists tc (v : Version) LL : Prop := {
  vl_files : files_ v = lfiles LL;
  vl_count : length LL = 7%nat;
  vl_ok : Forall (Forall (file_ok tc)) LL;
  vl_levels : levels_ok 0 LL;
  vl_newer : StronglySorted newer (lentries LL);
  vl_sorted : Forall (StronglySorted file_lt) (files_ v);
  vl_numbers : Forall (λ L, NoDup (f_number <$> L.*1)) LL
}.

Lemma version_lists_rep tc v LL : version_lists tc v LL → version_rep tc v (concat (lentries LL)).
Proof. intros [H1 _ H3 H4 H5 _ _]. by exists LL. Qed.

Lemma version_lists_ranges tc v LL : version_lists tc v LL → version_ranges v.
Proof.
  intros [H1 H2 H3 _ _ _ _]. split; [by rewrite H1, length_fmap|]. rewrite H1. apply Forall_fmap. eapply Forall_impl; [exact H3|].
  intros L HL. apply Forall_fmap. eapply Forall_impl; [exact HL|]. intros p. apply file_ok_range.
Qed.

Lemma version_lists_level tc v LL i L :
  version_lists tc v LL → LL !! i = Some L →
  Forall (file_ok tc) L ∧ NoDup (f_number <$> L.*1) ∧ StronglySorted file_lt L.*1 ∧ files_ v !! i = Some L.*1 ∧
  (if Z.of_nat i =? 0 then level0_ok L else level_ok L).
Proof.
  intros [H1 H2 H3 H4 _ H6 H7] Hi. split; [exact (Forall_lookup_1 _ _ _ _ H3 Hi)|]. split; [exact (Forall_lookup_1 _ _ _ _ H7 Hi)|].
  assert (Hf : files_ v !! i = Some L.*1) by (by rewrite H1, list_lookup_fmap, Hi).
  split; [exact (Forall_lookup_1 _ _ _ _ H6 Hf)|]. split; [done|]. by apply (proj1 (levels_ok_lookup LL 0 ltac:(lia)) H4 i L).
Qed.

Lemma version_lists_newer tc v LL i j L M :
  version_lists tc v LL → (i < j)%nat → LL !! i = Some L → LL !! j = Some M → newer (all_of L) (all_of M).
Proof.
  intros Hv Hij HL HM. apply (proj1 (StronglySorted_lookup newer (lentries LL)) (vl_newer _ _ _ Hv) i j); [done| |];
    by rewrite list_lookup_fmap, ?HL, ?HM.
Qed.

(** Above level 0 the files are in order by user keys. *)
Lemma level_user_sorted tc L : Forall (file_ok tc) L → level_ok L → user_sorted L.*1.
Proof.
  intros Hok Hl. split; [apply Forall_fmap; eapply Forall_impl; [exact Hok|]; intros p; apply file_ok_range|].
  apply StronglySorted_lookup. intros i j f g Hij Hi Hj. rewrite list_lookup_fmap in Hi, Hj.
  destruct (L !! i) as [p|] eqn:Ep; [|done]. destruct (L !! j) as [q|] eqn:Eq; [|done]. injection Hi as <-. injection Hj as <-.
  pose proof (level_before tc L i j p q Hok Hl Hij Ep Eq) as Hb. unfold before in Hb. rewrite Forall_forall in Hok.
  apply key_before_user; [by apply (file_keys_wf tc p), Hok, list_elem_of_lookup_2 with i
                         |by apply (file_keys_wf tc q), Hok, list_elem_of_lookup_2 with j|by apply Z.lt_le_incl].
Qed.

(** ** Inputs and other files of a level *)

Definition chosen (inputs : list FileMetaData) L : list file := filter (λ p, p.1 ∈ inputs) L.
Definition remaining (inputs : list FileMetaData) L : list file := filter (λ p, p.1 ∉ inputs) L.

Lemma elem_of_chosen inputs L p : p ∈ chosen inputs L ↔ p ∈ L ∧ p.1 ∈ inputs.
Proof. unfold chosen. rewrite list_elem_of_filter. tauto. Qed.

Lemma elem_of_others inputs L p : p ∈ remaining inputs L ↔ p ∈ L ∧ p.1 ∉ inputs.
Proof. unfold remaining. rewrite list_elem_of_filter. tauto. Qed.

(** No user key is split between the end of an input and the beginning of a
    file behind it that is not an input. *)
Definition unsplit (inputs files : list FileMetaData) : Prop :=
  ∀ f g, f ∈ inputs → g ∈ files → g ∉ inputs → icmp_Compare C (f_largest f) (f_smallest g) < 0 →
    Compare (ikey_user (f_largest f)) (ikey_user (f_smallest g)) ≠ 0.

Lemma entry_key_newer tc p q a b :
  file_ok tc p → file_ok tc q → before p q → a ∈ p.2 → b ∈ q.2 → Compare (ikey_user a.1) (ikey_user b.1) = 0 →
  e_tag (entry_of b) < e_tag (entry_of a).
Proof.
  intros Hp Hq Hb Ha Hbq Hu. pose proof (before_entries tc p q a b Hp Hq Hb Ha Hbq) as Hlt.
  destruct (fo_entries _ _ Hp) as [Wp _], (fo_entries _ _ Hq) as [Wq _]. rewrite Forall_forall in Wp, Wq.
  rewrite !entry_of_tag by auto. by apply key_before_tag; auto.
Qed.

(** Above level 0 the other files have newer entries of the keys of the inputs. *)
Lemma others_newer tc L inputs :
  Forall (file_ok tc) L → level_ok L → unsplit inputs L.*1 → newer (all_of (remaining inputs L)) (all_of (chosen inputs L)).
Proof.
  intros Hok Hl Hun x y (q & a & [Hq Hnq]%elem_of_others & Ha & ->)%elem_of_all (p & b & [Hp Hpi]%elem_of_chosen & Hb & ->)%elem_of_all Hc.
  cbn [e_key entry_of] in Hc. pose proof (level_disjoint tc L Hok Hl) as Hd. rewrite Forall_forall in Hok.
  destruct (Hd q p Hq Hp) as [Hqp|Hpq]; [by intros ->| |].
  - by apply (entry_key_newer tc q p a b (Hok q Hq) (Hok p Hp)).
  - exfalso. apply (Hun p.1 q.1 Hpi ltac:(by apply list_elem_of_fmap_2) Hnq Hpq).
    destruct (file_user_bounds tc p b (Hok p Hp) Hb) as [_ B1]. destruct (file_user_bounds tc q a (Hok q Hq) Ha) as [B2 _].
    destruct (file_keys_wf tc p (Hok p Hp)) as [_ W1], (file_keys_wf tc q (Hok q Hq)) as [W2 _].
    pose proof (key_before_user _ _ W1 W2 (Z.lt_le_incl _ _ Hpq)) as B3.
    pose proof (Compare_trans (ikey_user (f_smallest q.1)) (ikey_user a.1) (ikey_user b.1) B2 ltac:(lia)) as B4.
    pose proof (Compare_trans _ _ _ B4 B1) as B5. pose proof (Compare_anti (ikey_user (f_smallest q.1)) (ikey_user (f_largest p.1))). lia.
Qed.

(** At level 0 the other files have no keys of the inputs. *)
Lemma others_apart tc L inputs :
  Forall (file_ok tc) L → (∀ f g, f ∈ inputs → g ∈ L.*1 → g ∉ inputs → apart f g) →
  newer (all_of (remaining inputs L)) (all_of (chosen inputs L)).
Proof.
  intros Hok Hap x y (q & a & [Hq Hnq]%elem_of_others & Ha & ->)%elem_of_all (p & b & [Hp Hpi]%elem_of_chosen & Hb & ->)%elem_of_all Hc.
  exfalso. cbn [e_key entry_of] in Hc. rewrite Forall_forall in Hok.
  destruct (file_user_bounds tc p b (Hok p Hp) Hb) as [B1 B2], (file_user_bounds tc q a (Hok q Hq) Ha) as [B3 B4].
  pose proof (Compare_eq_sym (ikey_user a.1) (ikey_user b.1)) as [Hc' _]. specialize (Hc' Hc).
  destruct (Hap p.1 q.1 Hpi ltac:(by apply list_elem_of_fmap_2) Hnq) as [Hx|Hx].
  - pose proof (Compare_le_lt_trans _ _ _ B2 Hx) as Hy. pose proof (Compare_lt_le_trans _ _ _ Hy B3). lia.
  - pose proof (Compare_le_lt_trans _ _ _ B4 Hx) as Hy. pose proof (Compare_lt_le_trans _ _ _ Hy B1). lia.
Qed.

Lemma user_lt_icmp a b : ikey_wf a → ikey_wf b → Compare (ikey_user a) (ikey_user b) < 0 → icmp_Compare C a b < 0.
Proof.
  intros Ha Hb Hlt. rewrite icmp_long by (by apply ikey_wf_long). unfold ikey_cmp.
  destruct (Z.eqb_spec (Compare (ikey_user a) (ikey_user b)) 0); lia.
Qed.

(** The range of the inputs of the upper level, in user keys. *)
Definition in_range (lo hi : list Z) L : Prop :=
  ∀ p e, p ∈ L → e ∈ p.2 → Compare lo (ikey_user e.1) ≤ 0 ∧ Compare (ikey_user e.1) hi ≤ 0.

(** A file of the lower level that is no input is before all entries of the
    inputs, or behind all of them; and it has none of the user keys of the
    inputs of the upper level. *)
Lemma others_side tc L M lo hi q :
  Forall (file_ok tc) L → Forall (file_ok tc) M → level_ok M → in_range lo hi L →
  let inputs := filter (within (Some lo) (Some hi)) M.*1 in
  q ∈ remaining inputs M →
  (Forall (before q) (L ++ chosen inputs M) ∨ Forall (λ p, before p q) (L ++ chosen inputs M)) ∧
  ∀ p a b, p ∈ L → a ∈ p.2 → b ∈ q.2 → Compare (ikey_user b.1) (ikey_user a.1) ≠ 0.
Proof.
  intros HL HM Hl Hr inputs [Hq Hnq]%elem_of_others. pose proof (level_disjoint tc M HM Hl) as Hd.
  rewrite Forall_forall in HL. rewrite Forall_forall in HM. pose proof (HM q Hq) as Hqo.
  destruct (file_keys_wf tc q Hqo) as [Wqs Wql]. destruct (file_ok_range tc q Hqo) as (_ & _ & Hqr).
  pose proof (key_before_user _ _ Wqs Wql Hqr) as Hqu. unfold inputs in Hnq. rewrite list_elem_of_filter in Hnq.
  assert (Hq1 : q.1 ∈ M.*1) by (by apply list_elem_of_fmap_2).
  assert (Hcases : Compare (ikey_user (f_largest q.1)) lo < 0 ∨ 0 < Compare (ikey_user (f_smallest q.1)) hi).
  { destruct (decide (0 ≤ Compare (ikey_user (f_largest q.1)) lo)); [|lia].
    destruct (decide (Compare (ikey_user (f_smallest q.1)) hi ≤ 0)); [|lia]. exfalso. apply Hnq. by split. }
  assert (Hlow : ∀ p, p ∈ chosen inputs M → within (Some lo) (Some hi) p.1 ∧ p ∈ M ∧ p ≠ q).
  { intros p [Hp Hpi]%elem_of_chosen. unfold inputs in Hpi. apply list_elem_of_filter in Hpi as [Hw _].
    split; [done|]. split; [done|]. intros ->. by apply Hnq. }
  destruct Hcases as [Hlt|Hgt].
  - assert (HLq : ∀ p a, p ∈ L → a ∈ p.2 → Compare (ikey_user (f_largest q.1)) (ikey_user a.1) < 0).
    { intros p a Hp Ha. destruct (Hr p a Hp Ha) as [Hlo _]. exact (Compare_lt_le_trans _ _ _ Hlt Hlo). }
    split.
    + left. apply Forall_forall. intros p [Hp|Hp]%elem_of_app.
      * destruct (file_bounds tc p (HL p Hp)) as ((a & Ha & Ea) & _). unfold before. rewrite <-Ea.
        destruct (fo_entries _ _ (HL p Hp)) as [Wp _]. rewrite Forall_forall in Wp.
        apply user_lt_icmp; [done|by apply Wp|by apply (HLq p)].
      * destruct (Hlow p Hp) as ((Hw1 & _) & HpM & Hne). destruct (Hd q p Hq HpM) as [|Hpq]; [by intros ->|done|].
        exfalso. destruct (file_keys_wf tc p (HM p HpM)) as [_ Wpl].
        pose proof (key_before_user _ _ Wpl Wqs (Z.lt_le_incl _ _ Hpq)) as H1. pose proof (Compare_trans _ _ _ H1 Hqu) as H2.
        pose proof (Compare_le_lt_trans _ _ _ H2 Hlt). lia.
    + intros p a b Hp Ha Hb Heq. destruct (file_user_bounds tc q b Hqo Hb) as [_ B].
      pose proof (Compare_le_lt_trans _ _ _ B (HLq p a Hp Ha)). lia.
  - assert (Hgt' : Compare hi (ikey_user (f_smallest q.1)) < 0) by (pose proof (Compare_anti hi (ikey_user (f_smallest q.1))); lia).
    assert (HLq : ∀ p a, p ∈ L → a ∈ p.2 → Compare (ikey_user a.1) (ikey_user (f_smallest q.1)) < 0).
    { intros p a Hp Ha. destruct (Hr p a Hp Ha) as [_ Hhi]. exact (Compare_le_lt_trans _ _ _ Hhi Hgt'). }
    split.
    + right. apply Forall_forall. intros p [Hp|Hp]%elem_of_app.
      * destruct (file_bounds tc p (HL p Hp)) as (_ & (a & Ha & Ea) & _). unfold before. rewrite <-Ea.
        destruct (fo_entries _ _ (HL p Hp)) as [Wp _]. rewrite Forall_forall in Wp.
        apply user_lt_icmp; [by apply Wp|done|by apply (HLq p)].
      * destruct (Hlow p Hp) as ((_ & Hw2) & HpM & Hne). destruct (Hd p q HpM Hq) as [|Hqp]; [done|done|].
        exfalso. destruct (file_keys_wf tc p (HM p HpM)) as [Wps _].
        pose proof (key_before_user _ _ Wql Wps (Z.lt_le_incl _ _ Hqp)) as H1. pose proof (Compare_trans _ _ _ Hqu H1) as H2.
        pose proof (Compare_le_lt_trans (ikey_user (f_smallest q.1)) (ikey_user (f_smallest p.1)) hi) as H3.
        pose proof (Compare_trans (ikey_user (f_smallest q.1)) (ikey_user (f_smallest p.1)) hi H2 Hw2). lia.
    + intros p a b Hp Ha Hb Heq. destruct (file_user_bounds tc q b Hqo Hb) as [B _].
      pose proof (Compare_lt_le_trans _ _ _ (HLq p a Hp Ha) B) as H1.
      pose proof (Compare_anti (ikey_user a.1) (ikey_user b.1)). lia.
Qed.
End version.

(** ** The edit *)

Section edit.
Context `{P : Port} {C : Comparator} {HC : ComparatorLaws C}.
Implicit Types (e : VersionEdit) (outs : list Output).

Lemma set_insert_iff x y l : y ∈ set_insert x l ↔ y = x ∨ y ∈ l.
Proof.
  split; [apply elem_of_set_insert|]. induction l as [|z l IH]; cbn [set_insert]; [set_solver|].
  destruct (pair_lt x z) eqn:E1; [set_solver|]. destruct (pair_lt z x) eqn:E2; [set_solver|].
  intros [->|Hy]; [|done]. assert (x = z) as ->; [|by left]. destruct x as [a b], z as [a' b']. unfold pair_lt in *.
  cbn [fst snd] in *. f_equal; lia.
Qed.

Lemma delete_files_spec level files : ∀ e,
  let e' := foldl (λ edit f, edit_DeleteFile edit level (f_number f)) e files in
  compact_pointers_ e' = compact_pointers_ e ∧ new_files_ e' = new_files_ e ∧
  ∀ p, p ∈ deleted_files_ e' ↔ p ∈ deleted_files_ e ∨ p.1 = level ∧ p.2 ∈ f_number <$> files.
Proof.
  induction files as [|f files IH]; intros e; cbn [foldl].
  { split; [done|]. split; [done|]. set_solver. }
  destruct (IH (edit_DeleteFile e level (f_number f))) as (E1 & E2 & E3). cbv zeta in *. rewrite E1, E2. split; [done|].
  split; [done|]. intros [l n]. rewrite E3. cbn [edit_DeleteFile deleted_files_ set_files fst snd]. rewrite set_insert_iff, fmap_cons, elem_of_cons.
  rewrite pair_equal_spec. tauto.
Qed.

Definition file_of (out : Output) : FileMetaData :=
  prepare_file (NewFile (o_number out) (o_file_size out) (o_smallest out) (o_largest out)).

Lemma results_edit_spec c outs :
  let e := results_edit c outs in
  compact_pointers_ e = compact_pointers_ (edit_ c) ∧
  (∀ p, p ∈ deleted_files_ e ↔ p ∈ deleted_files_ (edit_ c) ∨
     (p.1 = level_ c ∧ p.2 ∈ f_number <$> (inputs_ c).1) ∨ (p.1 = level_ c + 1 ∧ p.2 ∈ f_number <$> (inputs_ c).2)) ∧
  new_files_ e = new_files_ (edit_ c) ++
    ((λ o, (level_ c + 1, NewFile (o_number o) (o_file_size o) (o_smallest o) (o_largest o))) <$> outs).
Proof.
  cbv zeta. unfold results_edit.
  assert (Hadd : ∀ e, let e' := foldl (λ edit out, AddFile edit (level_ c + 1) (o_number out) (o_file_size out) (o_smallest out) (o_largest out)) e outs in
    compact_pointers_ e' = compact_pointers_ e ∧ deleted_files_ e' = deleted_files_ e ∧
    new_files_ e' = new_files_ e ++ ((λ o, (level_ c + 1, NewFile (o_number o) (o_file_size o) (o_smallest o) (o_largest o))) <$> outs)).
  { induction outs as [|o outs IH]; intros e; cbn [foldl]; [by rewrite app_nil_r|].
    destruct (IH (AddFile e (level_ c + 1) (o_number o) (o_file_size o) (o_smallest o) (o_largest o))) as (E1 & E2 & E3).
    cbv zeta in *. rewrite E1, E2, E3. cbn [AddFile compact_pointers_ deleted_files_ new_files_ set_files].
    by rewrite fmap_cons, <-app_assoc. }
  destruct (Hadd (AddInputDeletions c (edit_ c))) as (-> & E2 & ->). unfold AddInputDeletions in *.
  destruct (delete_files_spec (level_ c) (inputs_ c).1 (edit_ c)) as (D1 & D2 & D3).
  destruct (delete_files_spec (level_ c + 1) (inputs_ c).2
    (foldl (λ edit f, edit_DeleteFile edit (level_ c) (f_number f)) (edit_ c) (inputs_ c).1)) as (F1 & F2 & F3).
  cbv zeta in *. rewrite F1, D1, F2, D2. split; [done|]. split; [|done]. intros p. rewrite E2, F3, D3. tauto.
Qed.
End edit.

(** ** The new version *)

Section install.
Context `{P : Port} {C : Comparator} {HC : ComparatorLaws C}.
Context `{TableStore TS} {HT : TableStoreLaws (P := P) (C := C) TS}.

Abbreviation file := (FileMetaData * list (list Z * list Z))%type.
Abbreviation lentries LL := (fmap (M := list) all_of LL).
Abbreviation lfiles LL := (fmap (M := list) (fmap (M := list) fst) LL).

Context (tc tc' : TS) (v : Version) (LL : list (list file)) (Hv : version_lists tc v LL).
Context (level smallest : Z) (Hlevel : 0 ≤ level < 6) (Hsmall : smallest < kMaxSequenceNumber).
Context (c : Compaction) (Hc : started v level c).
Context (L M : list file) (HL : LL !! Z.to_nat level = Some L) (HM : LL !! Z.to_nat (level + 1) = Some M).

Abbreviation inputs0 := (inputs_ c).1.
Abbreviation inputs1 := (inputs_ c).2.
Abbreviation in0 := (chosen inputs0 L).
Abbreviation in1 := (chosen inputs1 M).
Abbreviation rest0 := (remaining inputs0 L).
Abbreviation rest1 := (remaining inputs1 M).

Context (Hun0 : level ≠ 0 → unsplit inputs0 L.*1) (Hun1 : unsplit inputs1 M.*1).
Context (merged kept : list (list Z * list Z)) (Hmerged : internal_entries merged).
Context (Hentries : ∀ e, e ∈ merged ↔ ∃ p, p ∈ in0 ++ in1 ∧ e ∈ p.2).
Context (Hsub : sublist kept merged).
Context (Hkeep : ∀ e, e ∈ merged → e ∈ kept ∨ hidden smallest merged e ∨ obsolete v level smallest e).
Context (Hnot : ∀ e, e ∈ kept → ¬ hidden smallest merged e).

Lemma upper_level : Forall (file_ok tc) L ∧ NoDup (f_number <$> L.*1) ∧ StronglySorted file_lt L.*1 ∧
  files_ v !! Z.to_nat level = Some L.*1 ∧ (if level =? 0 then level0_ok L else level_ok L).
Proof. pose proof (version_lists_level tc v LL _ L Hv HL) as H'. by rewrite Z2Nat.id in H' by lia. Qed.

Lemma lower_level : Forall (file_ok tc) M ∧ NoDup (f_number <$> M.*1) ∧ StronglySorted file_lt M.*1 ∧
  files_ v !! Z.to_nat (level + 1) = Some M.*1 ∧ level_ok M.
Proof.
  pose proof (version_lists_level tc v LL _ M Hv HM) as H'. rewrite Z2Nat.id in H' by lia.
  by rewrite (proj2 (Z.eqb_neq (level + 1) 0)) in H' by lia.
Qed.

(** *** The inputs and the others *)

Lemma rest0_newer : newer (all_of rest0) (all_of in0).
Proof.
  destruct upper_level as (Hok & _ & _ & Hf & Hlv). destruct (Z.eqb_spec level 0) as [E|E].
  - apply (others_apart tc); [done|]. intros f g Hfi Hg Hgn.
    destruct (st_inputs _ _ _ Hc) as [(_ & files & Hf' & _ & Hap) _]. rewrite Hf in Hf'. injection Hf' as <-. by apply Hap.
  - by apply (others_newer tc); [| |apply Hun0].
Qed.

Lemma rest1_newer : newer (all_of rest1) (all_of in1).
Proof. destruct lower_level as (Hok & _ & _ & _ & Hlv). by apply (others_newer tc). Qed.

Lemma levels_newer : newer (all_of L) (all_of M).
Proof. by apply (version_lists_newer tc v LL (Z.to_nat level) (Z.to_nat (level + 1)) L M); [|lia|..]. Qed.

Lemma chosen_files : Forall (file_ok tc) (in0 ++ in1).
Proof.
  destruct upper_level as (HokL & _), lower_level as (HokM & _). rewrite !Forall_forall in *.
  intros p [[Hp _]%elem_of_chosen|[Hp _]%elem_of_chosen]%elem_of_app; auto.
Qed.

Lemma rest1_side q : q ∈ rest1 →
  (Forall (before q) (in0 ++ in1) ∨ Forall (λ p, before p q) (in0 ++ in1)) ∧
  ∀ p a b, p ∈ in0 → a ∈ p.2 → b ∈ q.2 → Compare (ikey_user b.1) (ikey_user a.1) ≠ 0.
Proof.
  destruct upper_level as (HokL & _), lower_level as (HokM & _ & _ & HfM & HlM).
  destruct (st_inputs _ _ _ Hc) as [Hi0 (files & lo & hi & Hf & Er & Ei)]. rewrite HfM in Hf. injection Hf as <-.
  pose proof (inputs0_range v level inputs0 (version_lists_ranges tc v LL Hv) Hi0) as Hrange.
  destruct (GetRange_ok inputs0 (proj1 Hi0) Hrange) as (lo' & hi' & Er' & _ & _ & _ & _ & Hcov).
  rewrite Er in Er'. injection Er' as <- <-. rewrite Ei. apply (others_side tc); [|done|done|].
  - rewrite Forall_forall in HokL |- *. intros p [Hp _]%elem_of_chosen. by apply HokL.
  - intros p e [Hp Hpi]%elem_of_chosen He. rewrite Forall_forall in HokL. rewrite Forall_forall in Hcov.
    destruct (file_user_bounds tc p e (HokL p Hp) He) as [B1 B2], (Hcov p.1 Hpi) as [B3 B4].
    split; by eapply Compare_trans.
Qed.

Lemma kept_input e : e ∈ kept → ∃ p, p ∈ in0 ++ in1 ∧ e ∈ p.2.
Proof. intros He. apply Hentries. by apply (elem_of_sublist _ _ _ He Hsub). Qed.

(** The entries of the inputs are entries of their levels. *)
Lemma input_entry p e : p ∈ in0 ++ in1 → e ∈ p.2 → entry_of e ∈ all_of L ∨ entry_of e ∈ all_of M.
Proof.
  intros [[Hp _]%elem_of_chosen|[Hp _]%elem_of_chosen]%elem_of_app He; [left|right]; apply elem_of_all; eauto.
Qed.

(** *** The outputs *)

Context (outs : list (Output * list (list Z * list Z))).
Abbreviation out_files := ((λ o : Output * list (list Z * list Z), (file_of o.1, o.2)) <$> outs).
Context (Houts : concat outs.*2 = kept) (Hofiles : Forall (file_ok tc') out_files).
Context (Hstore : ∀ n s es, ts_holds tc n s es → ts_holds tc' n s es).
Context (Hfresh : NoDup ((f_number <$> M.*1) ++ ((λ o, o_number o.1) <$> outs))).
Context (Hcount : Z.of_nat (length M + length outs) < 2 ^ 31).

Definition new_levels : list (list file) := <[Z.to_nat (level + 1) := rest1 ++ out_files]> (<[Z.to_nat level := rest0]> LL).

Lemma file_ok_store p : file_ok tc p → file_ok tc' p.
Proof. intros []. split; auto. Qed.

Lemma out_entry p e : p ∈ out_files → e ∈ p.2 → e ∈ kept.
Proof.
  intros (o & -> & Ho)%list_elem_of_fmap He. rewrite <-Houts. apply list_elem_of_In, in_concat. exists o.2.
  split; apply list_elem_of_In; [by apply list_elem_of_fmap_2|done].
Qed.

Lemma outs_ordered p q i j : (i < j)%nat → out_files !! i = Some p → out_files !! j = Some q → before p q.
Proof.
  intros Hij Hp Hq. assert (Hps : file_ok tc' p) by exact (Forall_lookup_1 _ _ _ _ Hofiles Hp).
  assert (Hqs : file_ok tc' q) by exact (Forall_lookup_1 _ _ _ _ Hofiles Hq).
  apply (entries_before tc' p q Hps Hqs). intros a b Ha Hb.
  assert (Hi : internal_entries (concat out_files.*2)).
  { replace (concat out_files.*2) with kept; [|by rewrite <-Houts, <-list_fmap_compose].
    destruct Hmerged as [W S]. split; [apply Forall_forall; intros e He; rewrite Forall_forall in W; apply W; by apply (elem_of_sublist _ _ _ He Hsub)|].
    by apply (StronglySorted_sublist _ kept merged). }
  rewrite <-(take_drop_middle _ i p Hp), concat_split in Hi.
  apply internal_entries_app in Hi as (_ & Hi & _). apply internal_entries_app in Hi as (_ & _ & Hlt).
  apply Hlt; [done|]. apply (elem_of_level q); [|done]. apply list_elem_of_lookup. exists (j - S i)%nat.
  rewrite lookup_drop. by replace (S i + (j - S i))%nat with j by lia.
Qed.

Lemma rest1_outs q p : q ∈ rest1 → p ∈ out_files → before q p ∨ before p q.
Proof.
  intros Hq Hp. destruct lower_level as (HokM & _). rewrite Forall_forall in HokM.
  assert (Hqo : file_ok tc q) by (apply HokM; by apply elem_of_others in Hq as [? _]).
  pose proof (proj1 (Forall_forall _ _) Hofiles p Hp) as Hpo. pose proof chosen_files as Hch. rewrite Forall_forall in Hch.
  destruct (rest1_side q Hq) as [[Hb|Hb] _]; rewrite Forall_forall in Hb; [left|right].
  - apply (entries_before tc'); [by apply file_ok_store|done|]. intros a b Ha Hbe.
    destruct (kept_input b (out_entry p b Hp Hbe)) as (p0 & Hp0 & Hb0). by apply (before_entries tc q p0); auto.
  - apply (entries_before tc'); [done|by apply file_ok_store|]. intros a b Ha Hbe.
    destruct (kept_input a (out_entry p a Hp Ha)) as (p0 & Hp0 & Ha0). by apply (before_entries tc p0 q); auto.
Qed.

Lemma lower_disjoint : disjoint_files (rest1 ++ out_files).
Proof.
  destruct lower_level as (HokM & _ & _ & _ & HlM). pose proof (level_disjoint tc M HokM HlM) as Hd.
  intros p q [Hp|Hp]%elem_of_app [Hq|Hq]%elem_of_app Hne.
  - apply elem_of_others in Hp as [Hp _], Hq as [Hq _]. by apply Hd.
  - by apply rest1_outs.
  - destruct (rest1_outs q p Hq Hp); auto.
  - apply list_elem_of_lookup in Hp as [i Hp], Hq as [j Hq].
    destruct (Nat.lt_trichotomy i j) as [Hij|[->|Hij]]; [left|congruence|right]; by eapply outs_ordered.
Qed.

(** *** Its levels *)

Lemma new_levels_lookup i S : new_levels !! i = Some S →
  (i = Z.to_nat (level + 1) ∧ S = rest1 ++ out_files) ∨ (i = Z.to_nat level ∧ S = rest0) ∨
  (i ≠ Z.to_nat level ∧ i ≠ Z.to_nat (level + 1) ∧ LL !! i = Some S).
Proof.
  unfold new_levels. pose proof (lookup_lt_Some _ _ _ HL) as Hl1. pose proof (lookup_lt_Some _ _ _ HM) as Hl2.
  destruct (decide (i = Z.to_nat (level + 1))) as [->|H1].
  { rewrite list_lookup_insert_eq by (rewrite length_insert; lia). intros [= <-]. by left. }
  rewrite list_lookup_insert_ne by done. destruct (decide (i = Z.to_nat level)) as [->|H2].
  { rewrite list_lookup_insert_eq by lia. intros [= <-]. by right; left. }
  rewrite list_lookup_insert_ne by done. intros Hi. by right; right.
Qed.

Lemma others_sublist inputs (X : list file) : sublist (remaining inputs X) X.
Proof. apply sublist_filter. Qed.

Lemma others_ok inputs (X : list file) : Forall (file_ok tc) X → Forall (file_ok tc') (remaining inputs X).
Proof.
  intros Hok. rewrite Forall_forall in *. intros p [Hp _]%elem_of_others. by apply file_ok_store, Hok.
Qed.

Lemma others_numbers inputs (X : list file) : NoDup (f_number <$> X.*1) → NoDup (f_number <$> (remaining inputs X).*1).
Proof.
  intros Hnd. eapply sublist_NoDup; [exact Hnd|]. apply fmap_sublist, fmap_sublist, others_sublist.
Qed.

Lemma out_numbers : f_number <$> out_files.*1 = (λ o, o_number o.1) <$> outs.
Proof. by rewrite <-!list_fmap_compose. Qed.

Lemma new_level_ok i S : new_levels !! i = Some S →
  Forall (file_ok tc') S ∧ NoDup (f_number <$> S.*1) ∧
  (if Z.of_nat i =? 0 then level0_ok S else disjoint_files S ∧ Z.of_nat (length S) < 2 ^ 31).
Proof.
  destruct upper_level as (HokL & HndL & _ & _ & HlL), lower_level as (HokM & HndM & _ & _ & HlM).
  intros [[-> ->]|[[-> ->]|(H1 & H2 & Hi)]]%new_levels_lookup.
  - split; [apply Forall_app; split; [by apply others_ok|done]|]. split.
    + rewrite !fmap_app, out_numbers. apply NoDup_app in Hfresh as (_ & Hd & Hno). apply NoDup_app.
      split; [by apply others_numbers|]. split; [|done]. intros n Hn. apply Hd.
      eapply elem_of_sublist; [exact Hn|]. apply fmap_sublist, fmap_sublist, others_sublist.
    + rewrite (proj2 (Z.eqb_neq _ 0)) by lia. split; [apply lower_disjoint|]. rewrite length_app, length_fmap.
      pose proof (sublist_length _ _ (others_sublist inputs1 M)). lia.
  - split; [by apply others_ok|]. split; [by apply others_numbers|]. rewrite Z2Nat.id by lia. destruct (level =? 0).
    + destruct HlL as [_ Hn]. split; [by apply others_numbers|]. intros p q [Hp _]%elem_of_others [Hq _]%elem_of_others. by apply Hn.
    + pose proof (level_disjoint tc L HokL HlL) as Hd. destruct HlL as [Hlen _]. split.
      * intros p q [Hp _]%elem_of_others [Hq _]%elem_of_others. by apply Hd.
      * pose proof (sublist_length _ _ (others_sublist inputs0 L)). lia.
  - destruct (version_lists_level tc v LL i S Hv Hi) as (Hok & Hnd & _ & _ & Hlv).
    split; [eapply Forall_impl; [exact Hok|]; intros p; apply file_ok_store|]. split; [done|].
    destruct (Z.of_nat i =? 0); [done|]. split; [by apply (level_disjoint tc)|by destruct Hlv].
Qed.

Lemma chosen_number (inputs : list FileMetaData) (X : list file) p :
  NoDup (f_number <$> X.*1) → (∀ f, f ∈ inputs → f ∈ X.*1) → p ∈ X → (f_number p.1 ∈ f_number <$> inputs ↔ p.1 ∈ inputs).
Proof.
  intros Hnd Hin Hp. split; [|by apply list_elem_of_fmap_2]. intros (f & Ef & Hf)%list_elem_of_fmap.
  replace p.1 with f; [done|]. specialize (Hin f Hf). assert (Hp' : p.1 ∈ X.*1) by (by apply list_elem_of_fmap_2).
  apply list_elem_of_lookup in Hin as [i Hi], Hp' as [j Hj].
  assert (i = j) as ->; [|congruence]. apply (NoDup_lookup _ i j (f_number p.1) Hnd); rewrite list_lookup_fmap, ?Hi, ?Hj; cbn; congruence.
Qed.

Lemma others_files (inputs : list FileMetaData) (X : list file) (ns : list Z) :
  (∀ p, p ∈ X → (f_number p.1 ∈ ns ↔ p.1 ∈ inputs)) → (remaining inputs X).*1 = filter (λ f, f_number f ∉ ns) X.*1.
Proof.
  induction X as [|p X IH]; intros Hns; [done|]. unfold remaining in *. rewrite fmap_cons, !filter_cons.
  specialize (IH ltac:(intros q Hq; apply Hns; by right)). specialize (Hns p ltac:(by left)).
  destruct (decide (p.1 ∉ inputs)), (decide (f_number p.1 ∉ ns)); try tauto. by rewrite fmap_cons, IH.
Qed.

Context (key : list Z) (Hkey : ikey_wf key) (Hedit : edit_ c = SetCompactPointer NewVersionEdit level key).
Abbreviation edit := (results_edit c outs.*1).

Lemma spec_new i S bs : new_levels !! i = Some S → files_ v !! i = Some bs →
  spec_level (Z.of_nat i) bs [edit] = S.*1.
Proof.
  intros HS Hbs. destruct upper_level as (_ & HndL & _ & HfL & _), lower_level as (_ & HndM & _ & HfM & _).
  destruct (results_edit_spec c outs.*1) as (_ & Hdel & Hnew). cbv zeta in *. rewrite (st_level _ _ _ Hc) in *.
  rewrite Hedit in Hdel, Hnew. cbn [SetCompactPointer NewVersionEdit deleted_files_ new_files_ set_files app] in Hdel, Hnew.
  unfold spec_level. cbn [foldl]. unfold edit_level. rewrite Hnew. clear Hnew.
  assert (Hout : ∀ l : Z, prepare_file ∘ snd <$> filter (λ p, p.1 = l)
      ((λ o, (level + 1, NewFile (o_number o) (o_file_size o) (o_smallest o) (o_largest o))) <$> outs.*1) =
    if decide (l = level + 1) then out_files.*1 else []).
  { intros l. rewrite <-!list_fmap_compose. clear. induction outs as [|o l' IH]; [by destruct (decide _)|].
    rewrite !fmap_cons, filter_cons. cbn [compose fst]. destruct (decide (level + 1 = l)), (decide (l = level + 1)); try lia; [|done].
    rewrite fmap_cons. by f_equal. }
  rewrite Hout. clear Hout.
  assert (Hno : ∀ l n, l ≠ level → l ≠ level + 1 → (l, n) ∉ deleted_files_ edit).
  { intros l n H1 H2. rewrite Hdel. cbn [fst snd]. pose proof (not_elem_of_nil (l, n)). naive_solver lia. }
  destruct (st_inputs _ _ _ Hc) as [(_ & files0 & Hf0 & Hs0 & _) (files1 & lo & hi & Hf1 & _ & Ei1)].
  rewrite HfL in Hf0. injection Hf0 as <-. rewrite HfM in Hf1. injection Hf1 as <-.
  apply new_levels_lookup in HS as [[-> ->]|[[-> ->]|(H1 & H2 & Hi)]].
  - rewrite HfM in Hbs. injection Hbs as <-. rewrite Z2Nat.id, decide_True, fmap_app by lia. f_equal.
    symmetry. rewrite (others_files _ _ (f_number <$> inputs1)).
    + apply list_filter_iff. intros f. rewrite Hdel. cbn [fst snd]. pose proof (not_elem_of_nil (level + 1, f_number f)). naive_solver lia.
    + intros p Hp. apply (chosen_number _ M); [done| |done]. intros f. rewrite Ei1. by intros [_ ?]%list_elem_of_filter.
  - rewrite HfL in Hbs. injection Hbs as <-. rewrite Z2Nat.id, decide_False, app_nil_r by lia.
    symmetry. rewrite (others_files _ _ (f_number <$> inputs0)).
    + apply list_filter_iff. intros f. rewrite Hdel. cbn [fst snd]. pose proof (not_elem_of_nil (level, f_number f)). naive_solver lia.
    + intros p Hp. apply (chosen_number _ L); [done| |done]. intros f Hf. by apply (elem_of_sublist _ _ _ Hf Hs0).
  - rewrite decide_False, app_nil_r by lia. destruct (version_lists_level tc v LL i S Hv Hi) as (_ & _ & _ & Hf & _).
    rewrite Hf in Hbs. injection Hbs as <-. clear Hf Hi. generalize S.*1 as l. induction l as [|f l IH]; [done|].
    rewrite filter_cons, decide_True by (apply Hno; lia). by rewrite IH.
Qed.

(** *** Newer levels above older ones *)

Lemma newer_sub (X Y X' Y' : list entry) :
  newer X Y → (∀ x, x ∈ X' → x ∈ X) → (∀ y, y ∈ Y' → y ∈ Y) → newer X' Y'.
Proof. intros Hn HX HY x y Hx Hy. apply Hn; auto. Qed.

Lemma all_of_others inputs (X : list file) x : x ∈ all_of (remaining inputs X) → x ∈ all_of X.
Proof. intros (p & e & [Hp _]%elem_of_others & He & ->)%elem_of_all. apply elem_of_all. by exists p, e. Qed.

Lemma lower_entry x : x ∈ all_of (rest1 ++ out_files) → x ∈ all_of M ∨ x ∈ all_of in0.
Proof.
  intros (p & e & [Hp|Hp]%elem_of_app & He & ->)%elem_of_all.
  - left. apply elem_of_all. apply elem_of_others in Hp as [Hp _]. by exists p, e.
  - destruct (kept_input e (out_entry p e Hp He)) as (p0 & [Hp0|Hp0]%elem_of_app & He0).
    + right. apply elem_of_all. by exists p0, e.
    + left. apply elem_of_all. apply elem_of_chosen in Hp0 as [Hp0 _]. by exists p0, e.
Qed.

Lemma all_of_in0 x : x ∈ all_of in0 → x ∈ all_of L.
Proof. intros (p & e & [Hp _]%elem_of_chosen & He & ->)%elem_of_all. apply elem_of_all. by exists p, e. Qed.

Lemma new_levels_newer i j S T :
  (i < j)%nat → new_levels !! i = Some S → new_levels !! j = Some T → newer (all_of S) (all_of T).
Proof.
  intros Hij HS HT'. pose proof (version_lists_newer tc v LL) as Hold.
  assert (Hlow : ∀ k (N : list file), LL !! k = Some N → (k < Z.to_nat level)%nat → newer (all_of N) (all_of (rest1 ++ out_files))).
  { intros k N HN Hk x y Hx [Hy|Hy%all_of_in0]%lower_entry; [by apply (Hold k (Z.to_nat (level + 1)) N M); [|lia|..]|].
    by apply (Hold k (Z.to_nat level) N L). }
  assert (Hhigh : ∀ k (N : list file), LL !! k = Some N → (Z.to_nat (level + 1) < k)%nat → newer (all_of (rest1 ++ out_files)) (all_of N)).
  { intros k N HN Hk x y [Hx|Hx%all_of_in0]%lower_entry Hy; [by apply (Hold (Z.to_nat (level + 1)) k M N)|].
    by apply (Hold (Z.to_nat level) k L N); [|lia|..]. }
  apply new_levels_lookup in HS as [[-> ->]|[[-> ->]|(A1 & A2 & HS)]];
    apply new_levels_lookup in HT' as [[-> ->]|[[-> ->]|(B1 & B2 & HT')]]; try lia.
  - by apply (Hhigh j T).
  - intros x y Hx [Hy|Hy]%lower_entry; [apply levels_newer; [by eapply all_of_others|done]|by apply rest0_newer].
  - apply (newer_sub (all_of L) (all_of T)); [by apply (Hold (Z.to_nat level) j L T)|intros x; apply all_of_others|done].
  - by apply (Hlow i S); [|lia].
  - apply (newer_sub (all_of S) (all_of L)); [by apply (Hold i (Z.to_nat level) S L)|done|intros x; apply all_of_others].
  - by apply (Hold i j S T).
Qed.

(** *** The builder *)

Lemma level_in_range i : i ∈ [level; level + 1] → VersionEdit.level_ok i.
Proof. intros Hi. unfold VersionEdit.level_ok, kNumLevels. rewrite !elem_of_cons in Hi. destruct Hi as [->|[->|Hi]]; [lia|lia|by apply not_elem_of_nil in Hi]. Qed.

Lemma results_edit_ok : edit_ok edit.
Proof.
  destruct (results_edit_spec c outs.*1) as (Hp & Hdel & Hnew). cbv zeta in *. rewrite (st_level _ _ _ Hc) in *. rewrite Hedit in *.
  cbn [SetCompactPointer NewVersionEdit compact_pointers_ deleted_files_ new_files_ set_files app] in *. split; [|split].
  - rewrite Hp. repeat constructor; cbn; [lia|unfold kNumLevels; lia|].
    intros E. rewrite E in Hkey. apply ikey_wf_long in Hkey. cbn in Hkey. lia.
  - apply Forall_forall. intros p [Hx|[[-> _]|[-> _]]]%Hdel; [by apply not_elem_of_nil in Hx| |]; apply level_in_range; set_solver.
  - rewrite Hnew. apply Forall_fmap, Forall_forall. intros o _. apply level_in_range. cbn. set_solver.
Qed.

Lemma new_numbers_edit i : new_numbers i [edit] = if decide (i = level + 1) then (λ o, o_number o.1) <$> outs else [].
Proof.
  destruct (results_edit_spec c outs.*1) as (_ & _ & Hnew). cbv zeta in *. rewrite (st_level _ _ _ Hc) in *. rewrite Hedit in *.
  cbn [SetCompactPointer NewVersionEdit new_files_ set_files app] in *. unfold new_numbers. cbn [mbind list_bind]. rewrite app_nil_r, Hnew.
  clear. rewrite <-!list_fmap_compose. induction outs as [|o l IH]; [by destruct (decide _)|].
  rewrite !fmap_cons, filter_cons. cbn [compose fst]. destruct (decide (level + 1 = i)), (decide (i = level + 1)); try lia; [|done].
  rewrite fmap_cons. by f_equal.
Qed.

Lemma new_version (ptrs : list (list Z)) : length ptrs = 7%nat →
  ∃ b v' LL', builder_Apply (NewVersionBuilder ptrs v) edit = Some b ∧ compact_pointer_ b = <[Z.to_nat level := key]> ptrs ∧
    SaveTo b NewVersion = Some v' ∧ version_lists tc' v' LL' ∧ Forall2 (≡ₚ) LL' new_levels.
Proof.
  intros Hptr. pose proof (version_lists_ranges tc v LL Hv) as [Hlen _].
  assert (Hnl : length new_levels = 7%nat) by (unfold new_levels; rewrite !length_insert; by destruct Hv).
  assert (HLL : ∀ i bs, files_ v !! i = Some bs → ∃ S, LL !! i = Some S ∧ bs = S.*1).
  { intros i bs Hbs. rewrite (vl_files _ _ _ Hv), list_lookup_fmap in Hbs. destruct (LL !! i) as [S|]; [|done].
    exists S. split; [done|]. by injection Hbs. }
  destruct (builder_saves v ptrs [edit]) as (b & files & Eb & Ep & [Elen Esort] & Hperm & Esave); [done|done| | | |].
  { constructor; [apply results_edit_ok|constructor]. }
  { by destruct Hv. }
  { intros i bs Hbs. rewrite new_numbers_edit. destruct (HLL i bs Hbs) as (S & HS & ->).
    destruct (decide _) as [E|_]; [|rewrite app_nil_r; by destruct (version_lists_level tc v LL i S Hv HS) as (_ & ? & _)].
    replace i with (Z.to_nat (level + 1)) in HS by lia. rewrite HM in HS. by injection HS as <-. }
  destruct (permuted_levels fst new_levels files) as (LL' & Ef & HLL').
  { apply Forall2_same_length_lookup_2; [lia|]. intros i S fs HS Hfs.
    destruct (lookup_lt_is_Some_2 (files_ v) i) as [bs Hbs]; [apply lookup_lt_Some in HS; lia|].
    rewrite (Hperm i bs fs Hbs Hfs). by rewrite (spec_new i S bs HS Hbs). }
  assert (Hlv : ∀ i (N : list file), LL' !! i = Some N → ∃ S, new_levels !! i = Some S ∧ N ≡ₚ S ∧ StronglySorted file_lt N.*1 ∧
    Forall (file_ok tc') N ∧ NoDup (f_number <$> N.*1) ∧
    if Z.of_nat i =? 0 then level0_ok N else no_overlap N.*1 = true ∧ level_ok N).
  { intros i N HN. destruct (Forall2_lookup_l _ _ _ _ _ HLL' HN) as (S & HS & Hp). exists S. split; [done|]. split; [done|].
    assert (Hs : StronglySorted file_lt N.*1).
    { apply (Forall_lookup_1 _ files i); [done|]. by rewrite <-Ef, list_lookup_fmap, HN. }
    split; [done|]. destruct (new_level_ok i S HS) as (Hok & Hnd & Hrest).
    assert (Hnd' : NoDup (f_number <$> N.*1)) by (by rewrite Hp). assert (Hok' : Forall (file_ok tc') N) by (by rewrite Hp).
    split; [done|]. split; [done|]. destruct (Z.of_nat i =? 0).
    - destruct Hrest as [_ Hn]. split; [done|]. intros p q Hpn Hqn. rewrite Hp in Hpn, Hqn. by apply Hn.
    - destruct Hrest as [Hd Hcnt].
      destruct (disjoint_sorted tc' N Hok') as [Hno Hi]; [intros p q Hpn Hqn; rewrite Hp in Hpn, Hqn; by apply Hd|done|done|].
      split; [done|]. split; [by rewrite Hp|done]. }
  assert (Hno : forallb no_overlap (tail files) = true).
  { apply forallb_forall. intros fs Hfs%list_elem_of_In. apply list_elem_of_lookup in Hfs as [i Hi]. rewrite lookup_tail in Hi.
    rewrite <-Ef, list_lookup_fmap in Hi. destruct (LL' !! S i) as [N|] eqn:EN; [|done]. injection Hi as <-.
    destruct (Hlv _ N EN) as (_ & _ & _ & _ & _ & _ & Hx). by destruct Hx. }
  rewrite Hno in Esave. exists b, (mkVersion files None (-1)), LL'.
  cbn [apply_all] in Eb. destruct (builder_Apply _ edit) as [b'|]; [|done]. cbn [mbind option_bind] in Eb. injection Eb as ->.
  split; [done|]. split.
  { rewrite Ep. unfold pointers_after. cbn [mbind list_bind]. rewrite app_nil_r, (proj1 (results_edit_spec c outs.*1)), Hedit. done. }
  split; [done|]. split; [|done]. split.
  - done.
  - by rewrite (Forall2_length _ _ _ HLL').
  - apply Forall_lookup. intros i N HN. by destruct (Hlv i N HN) as (_ & _ & _ & _ & ? & _).
  - apply levels_ok_lookup; [done|]. intros i N HN. destruct (Hlv i N HN) as (_ & _ & _ & _ & _ & _ & Hx). cbn [Z.add].
    rewrite Z.add_0_l. destruct (Z.of_nat i =? 0); [done|by destruct Hx].
  - apply StronglySorted_lookup. intros i j x y Hij Hx Hy. rewrite list_lookup_fmap in Hx, Hy.
    destruct (LL' !! i) as [N|] eqn:EN; [|done]. destruct (LL' !! j) as [N'|] eqn:EN'; [|done]. injection Hx as <-. injection Hy as <-.
    destruct (Hlv i N EN) as (S & HS & Hp & _), (Hlv j N' EN') as (S' & HS' & Hp' & _).
    apply (newer_sub (all_of S) (all_of S')); [by apply (new_levels_newer i j)| |];
      intros z (p & e & Hz & He & ->)%elem_of_all; apply elem_of_all; exists p, e; [by rewrite <-Hp|by rewrite <-Hp'].
  - done.
  - apply Forall_lookup. intros i N HN. by destruct (Hlv i N HN) as (_ & _ & _ & _ & _ & ? & _).
Qed.

(** *** Reads *)

Abbreviation old_entries := (concat (lentries LL)).

Lemma elem_of_lentries (X : list (list file)) x :
  x ∈ concat (lentries X) ↔ ∃ i N, X !! i = Some N ∧ x ∈ all_of N.
Proof.
  split.
  - intros Hx. apply list_elem_of_In, in_concat in Hx as (es & Hes & Hx). apply list_elem_of_In, list_elem_of_fmap in Hes as (N & -> & HN).
    apply list_elem_of_lookup in HN as [i HN]. exists i, N. split; [done|by apply list_elem_of_In].
  - intros (i & N & HN & Hx). apply list_elem_of_In, in_concat. exists (all_of N). split; apply list_elem_of_In; [|done].
    apply list_elem_of_fmap_2. by apply list_elem_of_lookup_2 with i.
Qed.

Lemma new_entries_old x : x ∈ concat (lentries new_levels) → x ∈ old_entries.
Proof.
  intros (i & N & HN & Hx)%elem_of_lentries. apply elem_of_lentries.
  apply new_levels_lookup in HN as [[-> ->]|[[-> ->]|(_ & _ & HN)]].
  - destruct (lower_entry x Hx) as [|Hi%all_of_in0]; [by exists (Z.to_nat (level + 1)), M|by exists (Z.to_nat level), L].
  - exists (Z.to_nat level), L. split; [done|]. by eapply all_of_others.
  - by exists i, N.
Qed.

Lemma kept_new e : e ∈ kept → entry_of e ∈ concat (lentries new_levels).
Proof.
  intros He. apply elem_of_lentries. exists (Z.to_nat (level + 1)), (rest1 ++ out_files). split.
  - unfold new_levels. apply lookup_lt_Some in HM. rewrite list_lookup_insert_eq; [done|by rewrite length_insert].
  - rewrite <-Houts in He. apply list_elem_of_In, in_concat in He as (es & Hes & He). apply list_elem_of_In in Hes, He.
    apply list_elem_of_fmap in Hes as (o & -> & Ho). apply elem_of_all. exists (file_of o.1, o.2), e.
    split; [apply elem_of_app; right; by apply (list_elem_of_fmap_2 (λ o, (file_of o.1, o.2)))|done].
Qed.

(** An entry is still there, or it is an entry of an input that was dropped. *)
Lemma old_entries_new x : x ∈ old_entries →
  x ∈ concat (lentries new_levels) ∨ ∃ e, x = entry_of e ∧ e ∈ merged ∧ e ∉ kept.
Proof.
  intros (i & N & HN & Hx)%elem_of_lentries. pose proof (lookup_lt_Some _ _ _ HL) as Hl1. pose proof (lookup_lt_Some _ _ _ HM) as Hl2.
  assert (Hin : ∀ p e, p ∈ in0 ++ in1 → e ∈ p.2 →
    entry_of e ∈ concat (lentries new_levels) ∨ ∃ e', entry_of e = entry_of e' ∧ e' ∈ merged ∧ e' ∉ kept).
  { intros p e Hp He. destruct (decide (e ∈ kept)) as [Hk|Hk]; [left; by apply kept_new|].
    right. exists e. split; [done|]. split; [|done]. apply Hentries. by exists p. }
  apply elem_of_all in Hx as (p & e & Hp & He & ->).
  destruct (decide (i = Z.to_nat (level + 1))) as [->|H1].
  { rewrite HM in HN. injection HN as <-. destruct (decide (p.1 ∈ inputs1)) as [Hi|Hi].
    - apply (Hin p e); [apply elem_of_app; right; by apply elem_of_chosen|done].
    - left. apply elem_of_lentries. exists (Z.to_nat (level + 1)), (rest1 ++ out_files). split.
      + unfold new_levels. rewrite list_lookup_insert_eq; [done|rewrite length_insert; lia].
      + apply elem_of_all. exists p, e. split; [apply elem_of_app; left; by apply elem_of_others|done]. }
  destruct (decide (i = Z.to_nat level)) as [->|H2].
  { rewrite HL in HN. injection HN as <-. destruct (decide (p.1 ∈ inputs0)) as [Hi|Hi].
    - apply (Hin p e); [apply elem_of_app; left; by apply elem_of_chosen|done].
    - left. apply elem_of_lentries. exists (Z.to_nat level), rest0. split.
      + unfold new_levels. rewrite list_lookup_insert_ne by lia. rewrite list_lookup_insert_eq; [done|lia].
      + apply elem_of_all. exists p, e. split; [by apply elem_of_others|done]. }
  left. apply elem_of_lentries. exists i, N. split; [|apply elem_of_all; by exists p, e].
  unfold new_levels. by rewrite !list_lookup_insert_ne by done.
Qed.

Lemma merged_wf e : e ∈ merged → ikey_wf e.1.
Proof. intros He. destruct Hmerged as [W _]. rewrite Forall_forall in W. by apply W. Qed.

(** Below a dropped deletion nothing of the key is left. *)
Lemma obsolete_alone e x (u : list Z) snap :
  e ∈ merged → e ∉ kept → obsolete v level smallest e → newest old_entries u snap (entry_of e) →
  x ∈ concat (lentries new_levels) → ¬ MemTable.visible u snap x.
Proof.
  intros He Hk (Htype & Hseq & Hbase) (Hold & [Heu Hes] & Hmax) Hx Hvis. pose proof (Hmax x (new_entries_old x Hx) Hvis) as Hle.
  destruct Hvis as [Hxu Hxs]. cbn [e_key entry_of] in Heu.
  assert (Hsame : Compare (e_key x) (e_key (entry_of e)) = 0).
  { pose proof (Compare_eq_l (e_key x) u (ikey_user e.1) Hxu). pose proof (Compare_anti u (ikey_user e.1)). cbn [e_key entry_of]. lia. }
  pose proof (proj1 (Hentries e) He) as (p0 & Hp0 & Hep).
  assert (Hcontra : ∀ X, newer X (all_of L) ∧ newer X (all_of M) → x ∉ X).
  { intros X [HX1 HX2] Hin. destruct (input_entry p0 e Hp0 Hep) as [Hy|Hy].
    - specialize (HX1 x _ Hin Hy Hsame). lia.
    - specialize (HX2 x _ Hin Hy Hsame). lia. }
  pose proof (version_lists_newer tc v LL) as Hn.
  apply elem_of_lentries in Hx as (i & N & HN & Hx). apply new_levels_lookup in HN as [[-> ->]|[[-> ->]|(H1 & H2 & HN)]].
  - apply elem_of_all in Hx as (q & b & [Hq|Hq]%elem_of_app & Hb & ->).
    + apply elem_of_app in Hp0 as [Hp0|Hp0].
      * by apply (proj2 (rest1_side q Hq) p0 e b Hp0 Hep Hb).
      * pose proof (rest1_newer (entry_of b) (entry_of e)) as Hr. rewrite !elem_of_all in Hr.
        specialize (Hr ltac:(by exists q, b) ltac:(by exists p0, e) Hsame). lia.
    + pose proof (out_entry q b Hq Hb) as Hbk. apply (Hnot b Hbk). exists e. split; [done|].
      cbn [e_key entry_of] in Hsame. split; [by apply Compare_eq_sym|]. split; [done|].
      assert (Hbm : b ∈ merged) by (by apply (elem_of_sublist _ _ _ Hbk Hsub)).
      rewrite !entry_of_tag in Hle by (by apply merged_wf).
      assert (Hcmp : icmp_Compare C e.1 b.1 ≤ 0).
      { rewrite icmp_long by (by apply ikey_wf_long, merged_wf). unfold ikey_cmp.
        rewrite (proj2 (Z.eqb_eq _ 0)) by (by apply Compare_eq_sym).
        destruct (Z.ltb_spec (ikey_tag b.1) (ikey_tag e.1)), (Z.ltb_spec (ikey_tag e.1) (ikey_tag b.1)); lia. }
      destruct (decide (icmp_Compare C e.1 b.1 = 0)) as [E0|]; [|lia]. exfalso. apply Hk. replace e with b; [done|].
      destruct Hmerged as [_ Hs]. apply list_elem_of_lookup in He as [i Hi], Hbm as [j Hj].
      destruct (Nat.lt_trichotomy i j) as [Hij|[->|Hij]]; [|congruence|].
      * pose proof (proj1 (StronglySorted_lookup _ merged) Hs i j e b Hij Hi Hj) as Hx. unfold key_lt in Hx.
        cbn [Compare InternalKeyComparator] in Hx. lia.
      * pose proof (proj1 (StronglySorted_lookup _ merged) Hs j i b e Hij Hj Hi) as Hx. unfold key_lt in Hx.
        cbn [Compare InternalKeyComparator] in Hx. pose proof (icmp_anti C e.1 b.1). lia.
  - destruct (proj1 (elem_of_app _ _ _) Hp0) as [Hp|Hp].
    + pose proof (rest0_newer x (entry_of e) Hx) as Hr. rewrite elem_of_all in Hr. specialize (Hr ltac:(by exists p0, e) Hsame). lia.
    + pose proof (levels_newer x (entry_of e) (all_of_others _ _ _ Hx)) as Hr. rewrite elem_of_all in Hr.
      apply elem_of_chosen in Hp as [Hp _]. specialize (Hr ltac:(by exists p0, e) Hsame). lia.
  - destruct (decide (i < Z.to_nat level)%nat) as [Hlt|Hge].
    + apply (Hcontra (all_of N)); [|done]. split; [by apply (Hn i (Z.to_nat level) N L)|apply (Hn i (Z.to_nat (level + 1)) N M); [done|lia|done|done]].
    + apply elem_of_all in Hx as (q & b & Hq & Hb & ->). destruct (version_lists_level tc v LL i N Hv HN) as (Hok & _ & _ & Hf & _).
      rewrite Forall_forall in Hok. destruct (file_user_bounds tc q b (Hok q Hq) Hb) as [B1 B2].
      unfold base_level in Hbase. assert (Hd : drop (Z.to_nat (level + 2)) (files_ v) !! (i - Z.to_nat (level + 2))%nat = Some N.*1).
      { rewrite lookup_drop. replace (Z.to_nat (level + 2) + (i - Z.to_nat (level + 2)))%nat with i by lia. done. }
      pose proof (Forall_lookup_1 _ _ _ _ Hbase Hd) as Hout. rewrite Forall_forall in Hout.
      cbn [e_key entry_of] in Hsame. pose proof (Compare_eq_l (ikey_user b.1) (ikey_user e.1) (ikey_user (f_smallest q.1)) Hsame) as S1.
      pose proof (Compare_eq_l (ikey_user b.1) (ikey_user e.1) (ikey_user (f_largest q.1)) Hsame) as S2.
      pose proof (Compare_anti (ikey_user (f_smallest q.1)) (ikey_user b.1)). pose proof (Compare_anti (ikey_user (f_largest q.1)) (ikey_user e.1)).
      destruct (Hout q.1 ltac:(by apply list_elem_of_fmap_2)); lia.
Qed.

Lemma new_reads (u : list Z) snap a :
  smallest ≤ snap → get_ok old_entries u snap a →
  ∃ a', get_ok (concat (lentries new_levels)) u snap a' ∧ get_status a' = get_status a.
Proof.
  intros Hsnap Ha.
  assert (Hnewest : ∀ x, newest old_entries u snap x →
    newest (concat (lentries new_levels)) u snap x ∨
    (e_type x = kTypeDeletion ∧ get_ok (concat (lentries new_levels)) u snap GotNothing)).
  { intros x Hx. pose proof Hx as (Hold & Hvis & Hmax). destruct (old_entries_new x Hold) as [Hin|(e & -> & He & Hk)].
    - left. split; [done|]. split; [done|]. intros y Hy. by apply Hmax, new_entries_old.
    - right. destruct (Hkeep e He) as [|[Hh|Ho]]; [done| |].
      + exfalso. destruct Hh as (p & Hp & Hpu & Hps & Hlt). destruct Hvis as [Hvu Hvs]. cbn [e_key entry_of] in Hvu.
        pose proof (key_before_tag p.1 e.1 (merged_wf p Hp) (merged_wf e He) Hlt Hpu) as Htag.
        assert (Hpv : MemTable.visible u snap (entry_of p)).
        { split; cbn [e_key e_seq entry_of]; [|lia]. pose proof (Compare_eq_l (ikey_user p.1) (ikey_user e.1) u Hpu). lia. }
        assert (Hpo : entry_of p ∈ old_entries).
        { apply Hentries in Hp as (q & Hq & Hpq). apply elem_of_lentries.
          destruct (input_entry q p Hq Hpq); [by exists (Z.to_nat level), L|by exists (Z.to_nat (level + 1)), M]. }
        specialize (Hmax _ Hpo Hpv). rewrite !entry_of_tag in Hmax by (by apply merged_wf). lia.
      + split; [by destruct Ho|]. intros y Hy. by apply (obsolete_alone e y u snap). }
  destruct a as [|val|st]; cbn [get_ok] in Ha.
  - exists GotNothing. split; [|done]. intros x Hx. by apply Ha, new_entries_old.
  - destruct Ha as (x & Hx & Ht & Hval). destruct (Hnewest x Hx) as [Hn|[Hd _]]; [|by rewrite Ht in Hd].
    exists (GotValue val). split; [by exists x|done].
  - destruct Ha as (-> & x & Hx & Ht). destruct (Hnewest x Hx) as [Hn|[_ Hn]].
    + exists (GotDeletion (NotFound "")). split; [split; [done|by exists x]|done].
    + exists GotNothing. by split.
Qed.
End install.

(** ** Compactions preserve reads *)

Section preserve.
Context `{P : Port} {C : Comparator} {HC : ComparatorLaws C}.
Context `{TableStore TS} {HT : TableStoreLaws (P := P) (C := C) TS}.

Abbreviation file := (FileMetaData * list (list Z * list Z))%type.

(** The entries of a version. *)
Definition entries_of (LL : list (list file)) : list entry := concat (fmap (M := list) all_of LL).

Lemma permuted_entries (X Y : list (list file)) x : Forall2 (≡ₚ) X Y → x ∈ entries_of X ↔ x ∈ entries_of Y.
Proof.
  unfold entries_of. induction 1 as [|S T X Y Hp _ IH]; [done|]. rewrite !fmap_cons. cbn [concat]. rewrite !elem_of_app, IH.
  rewrite !elem_of_all. by setoid_rewrite Hp.
Qed.

(** [merged] are the entries of the inputs in order, and no user key is split
    between an input and another file of its level. *)
Record compaction_input (LL : list (list file)) (c : Compaction) (merged : list (list Z * list Z)) : Prop := {
  ci_upper : level_ c ≠ 0 → ∀ L, LL !! Z.to_nat (level_ c) = Some L → unsplit (inputs_ c).1 L.*1;
  ci_lower M : LL !! Z.to_nat (level_ c + 1) = Some M → unsplit (inputs_ c).2 M.*1;
  ci_sorted : internal_entries merged;
  ci_entries e : e ∈ merged ↔ ∃ p L, p ∈ L ∧ e ∈ p.2 ∧
    (LL !! Z.to_nat (level_ c) = Some L ∧ p.1 ∈ (inputs_ c).1 ∨ LL !! Z.to_nat (level_ c + 1) = Some L ∧ p.1 ∈ (inputs_ c).2)
}.

(** The outputs are tables of the entries that are kept, with new numbers,
    and all other tables are still there. *)
Record compaction_output (tc tc' : TS) (LL : list (list file)) (c : Compaction) (kept : list (list Z * list Z))
    (outs : list (Output * list (list Z * list Z))) : Prop := {
  co_kept : concat outs.*2 = kept;
  co_tables : Forall (λ o, file_ok tc' (file_of o.1, o.2)) outs;
  co_store n s es : ts_holds tc n s es → ts_holds tc' n s es;
  co_fresh M : LL !! Z.to_nat (level_ c + 1) = Some M → NoDup ((f_number <$> M.*1) ++ ((λ o, o_number o.1) <$> outs));
  co_count M : LL !! Z.to_nat (level_ c + 1) = Some M → Z.of_nat (length M + length outs) < 2 ^ 31
}.

Lemma started_base v level c us (LL : list (list file)) tc :
  0 ≤ level → version_lists tc v LL → started v level c → base_state v level us c.
Proof.
  intros Hl Hv [E1 E2 E3 E4 E5]. split; [done|]. split; [done|]. rewrite E3. pose proof (version_lists_ranges tc v LL Hv) as [Hlen _].
  apply Forall2_same_length_lookup_2; [rewrite !length_drop, length_replicate; lia|]. intros i files ptr Hf Hp.
  rewrite lookup_drop in Hf. rewrite lookup_drop in Hp. apply lookup_replicate in Hp as [-> _].
  rewrite (vl_files _ _ _ Hv), list_lookup_fmap in Hf. destruct (LL !! _) as [L|] eqn:EL; [|done]. injection Hf as <-.
  destruct (version_lists_level tc v LL _ L Hv EL) as (Hok & _ & _ & _ & Hlv).
  rewrite (proj2 (Z.eqb_neq _ 0)) in Hlv by lia. split; [by apply (level_user_sorted tc)|]. split; [lia|apply Forall_nil_2].
Qed.

(** C7. Compactions preserve reads.  Let [PickCompaction] choose a compaction
    of a version, and [merged] be the entries of its inputs in the order of
    the internal keys, where no user key is split between the last input of a
    level and the file behind it.  Then the loop of [DoCompactionWork]
    decides for every entry whether to keep it; and whenever tables are made
    of the entries that are kept, under new file numbers, then applying the
    edit of [InstallCompactionResults] gives a version that is well formed
    again, its files in order and without overlap, in which a lookup at a
    snapshot returns what it returned before, for every snapshot that is not
    older than the oldest one held. *)
Theorem compaction_preserves_reads (tc : TS) (v : Version) (LL : list (list file)) (max_file_size : Z)
    (pointers pointers' : list (list Z)) (size_compaction : option Z) (c : Compaction)
    (snapshots : list (nat * Z)) (last_sequence : Z) (merged : list (list Z * list Z)) :
  version_lists tc v LL → 0 ≤ max_file_size ∧ 25 * max_file_size < 2 ^ 31 → length pointers = 7%nat →
  pick_ok v size_compaction → PickCompaction max_file_size pointers v size_compaction = Some (pointers', Some c) →
  smallest_snapshot snapshots last_sequence < kMaxSequenceNumber → compaction_input LL c merged →
  ∃ kept, survivors (smallest_snapshot snapshots last_sequence) c no_key merged = Some kept ∧
    ∀ tc' outs, compaction_output tc tc' LL c kept outs →
    ∃ b v' LL', builder_Apply (NewVersionBuilder pointers' v) (results_edit c outs.*1) = Some b ∧
      SaveTo b NewVersion = Some v' ∧ version_lists tc' v' LL' ∧
      ∀ u snap a, smallest_snapshot snapshots last_sequence ≤ snap → get_ok (entries_of LL) u snap a →
        ∃ a', get_ok (entries_of LL') u snap a' ∧ get_status a' = get_status a.
Proof.
  intros Hv Hmax Hptr Hpick Ec Hsm Hin. pose proof (version_lists_ranges tc v LL Hv) as Hrange.
  destruct (PickCompaction_ok max_file_size pointers v size_compaction Hrange Hmax Hptr Hpick)
    as [(_ & _ & E)|(level & c0 & key & E & Hl & Hc & Hkey & Hedit)]; rewrite E in Ec; [done|]. injection Ec as <- <-. clear E.
  set (smallest := smallest_snapshot snapshots last_sequence) in *. destruct Hin as [Hun0 Hun1 Hsorted Hentries].
  rewrite (st_level _ _ _ Hc) in *.
  destruct (lookup_lt_is_Some_2 LL (Z.to_nat level)) as [L HL]; [rewrite (vl_count _ _ _ Hv); lia|].
  destruct (lookup_lt_is_Some_2 LL (Z.to_nat (level + 1))) as [M HM]; [rewrite (vl_count _ _ _ Hv); lia|].
  destruct (survivors_ok v level smallest (proj1 Hl) Hsm merged [] c0 no_key) as (kept & Ek & Hsub & Hkeep & Hnot);
    [done|done|by apply (started_base v level c0 _ LL tc); [lia|..]|].
  exists kept. split; [done|]. intros tc' outs [Ho1 Ho2 Ho3 Ho4 Ho5]. cbn [app] in *. rewrite (st_level _ _ _ Hc) in *.
  assert (Hent : ∀ e, e ∈ merged ↔ ∃ p, p ∈ chosen (inputs_ c0).1 L ++ chosen (inputs_ c0).2 M ∧ e ∈ p.2).
  { intros e. rewrite Hentries. split.
    - intros (p & N & Hp & He & [[HN Hi]|[HN Hi]]); exists p; (split; [|done]); apply elem_of_app;
        [left; rewrite HL in HN|right; rewrite HM in HN]; injection HN as <-; by apply elem_of_chosen.
    - intros (p & [[Hp Hi]%elem_of_chosen|[Hp Hi]%elem_of_chosen]%elem_of_app & He); [exists p, L|exists p, M]; split_and!; auto. }
  assert (Hofiles : Forall (file_ok tc') ((λ o : Output * list (list Z * list Z), (file_of o.1, o.2)) <$> outs)) by (by apply Forall_fmap).
  set (pointers' := <[Z.to_nat level := key]> pointers).
  assert (Hptr' : length pointers' = 7%nat) by (unfold pointers'; by rewrite length_insert).
  destruct (new_version tc tc' v LL Hv level smallest Hl Hsm c0 Hc L M HL HM (λ Hne, Hun0 Hne L HL) (Hun1 M HM) merged kept Hsorted Hent Hsub
    Hkeep Hnot outs Ho1 Hofiles Ho3 (Ho4 M HM) (Ho5 M HM) key Hkey Hedit pointers' Hptr') as (b & v' & LL' & Eb & _ & Esave & Hv' & HLL').
  exists b, v', LL'. split; [done|]. split; [done|]. split; [done|]. intros u snap a Hsnap Ha.
  destruct (new_reads tc v LL Hv level smallest Hl c0 Hc L M HL HM (λ Hne, Hun0 Hne L HL) (Hun1 M HM) merged kept Hsorted Hent Hsub
    Hkeep Hnot outs Ho1 (Ho5 M HM) u snap a Hsnap Ha) as (a' & Ha' & Est).
  exists a'. split; [|done]. eapply get_ok_ext; [|exact Ha']. intros e _.
  symmetry. by apply permuted_entries.
Qed.
End preserve.

(** ** The work and its result *)

Section work.
Context `{P : Port} {C : Comparator} {HC : ComparatorLaws C}.
Context `{TableStore TS} {HT : TableStoreLaws (P := P) (C := C) TS}.
Context `{WritableFileLaws W} `{!Reliable W} `{Crc32cLaws} `{OutputStore ST W}.
Context `{Iterator T} {HI : IteratorLaws (C := InternalKeyComparator C) T}.

Abbreviation file := (FileMetaData * list (list Z * list Z))%type.

Lemma can_add_sublist B (l k : list (list Z * list Z)) : sublist l k → can_add (C := C) B k → can_add (C := C) B l.
Proof.
  intros Hs (H1' & H2' & H3'). split; [by apply (StronglySorted_sublist _ l k)|]. split.
  - rewrite Forall_forall in *. intros e He. apply H2'. by apply (elem_of_sublist _ _ _ He Hs).
  - unfold small in *. assert (Hw : (weight (64 + 2 * B) l ≤ weight (64 + 2 * B) k)%nat); [|lia].
    clear -Hs. induction Hs as [|x l k _ IH|x l k _ IH]; cbn [weight]; lia.
Qed.

(** C8. The work of a compaction.  Let [merged] be the entries of the inputs of
    a compaction, and [it] an iterator over them.  When no call of the
    environment fails and there is no shutdown, [DoCompactionWork] ends with
    status OK, whatever the limits for the size of an output and for its
    overlap with the next level are, and although in every turn memtables may
    be written out and file numbers used for other files.  Every output is a
    finished table, with at least one entry, its size and its first and last
    keys recorded, under a file number of its own, in increasing order; the
    entries of the outputs in a row are just those that are to be kept; and
    the compaction is as it was in what [InstallCompactionResults] reads of
    it. *)
Theorem do_compaction_work (dbname : list Z) (options : Options) {HO : OutputStoreLaws ST W dbname options} (B : nat)
    (max_file_size first smallest level files : Z) (tc : TS) (v : Version) (LL : list (list file)) (c : Compaction)
    (merged : list (list Z * list Z)) (st : ST) (it : T) (i : nat) (pending : gset Z) :
  options_ok options B → 0 ≤ max_file_size ∧ 25 * max_file_size < 2 ^ 31 →
  version_lists tc v LL → 0 ≤ level → started v level c → smallest < kMaxSequenceNumber →
  internal_entries merged → table_input (C := InternalKeyComparator C) B merged →
  positioned (C := InternalKeyComparator C) it merged i → 0 < files → 0 < first → first + (store_gap + 1) * Z.of_nat (length merged) < 2 ^ 64 →
  ∃ kept w groups, survivors smallest c no_key merged = Some kept ∧
    DoCompactionWork dbname options max_file_size (S (length merged)) None files c smallest st first pending it = Some (w, OK) ∧
    concat groups = kept ∧ Forall2 (finished dbname options (store w)) (outputs (compact w)) groups ∧
    numbers_ok first (o_number <$> outputs (compact w)) (next_file_number w) ∧
    ∀ outs, results_edit (compaction (compact w)) outs = results_edit c outs.
Proof.
  intros Ho Hmax Hv Hl Hc Hsm Hi (Hsort & Hstr & Hsmall & HB) Hit Hfiles Hfirst Hbound.
  destruct (survivors_ok v level smallest Hl Hsm merged [] c no_key) as (kept & Ek & Hsub & _);
    [done|done|by apply (started_base v level c _ LL tc)|].
  destruct (DoCompactionWork_ok dbname options B Ho HB max_file_size Hmax first smallest kept Hfirst)
    with (c0 := c) (es := merged) (st := st) (it := it) (i := i) (files := files) (pending := pending)
    as (w & groups & Ew & Eg & Hf & (S1 & S2 & S3) & Hn); [|done..|].
  { apply (can_add_sublist B kept merged Hsub). by split. }
  exists kept, w, groups. split_and!; try done. intros outs. unfold results_edit, AddInputDeletions. by rewrite S1, S2, S3.
Qed.
End work.

(** ** Examples *)

Section example.
#[local] Existing Instances posix_x86 BytewiseComparator.
Abbreviation icmp := (InternalKeyComparator BytewiseComparator).
Abbreviation file := (FileMetaData * list (list Z * list Z))%type.

(** Tables as lists of entries. *)
#[local] Instance list_store : TableStore (gmap Z (list (list Z * list Z))) := {|
  tc_Get tc _ number _ k :=
    match tc !! number with
    | Some es => Some (tc, OK, InternalKey.visible es (ikey_user k) (ikey_seq k))
    | None => Some (tc, IOError "no table", None)
    end
|}.

#[local] Instance list_store_laws : TableStoreLaws (P := posix_x86) (C := BytewiseComparator) (gmap Z (list (list Z * list Z))).
Proof.
  refine {| ts_holds tc number _ es := tc !! number = Some es; ts_left _ := 2 ^ 64 |}.
  intros tc ro number size es u snap Hes _ _ Hu Hs. cbn [tc_Get list_store]. rewrite Hes.
  destruct (ikey_wf_parts u snap kValueTypeForSeek Hs ltac:(unfold type_ok, kValueTypeForSeek, kTypeValue; lia)) as (Eu & _ & Eq & _).
  rewrite Eu, Eq. eexists tc, _. split; [reflexivity|]. split; [|split; [done|lia]].
  unfold VersionSpec.saved_ok. by destruct (InternalKey.visible es u snap).
Defined.

Definition key (u seq t : Z) : list Z := ikey_bytes [u] (tag_of seq t).

(** A value of key 1, a deletion of key 2; below it values of the keys 2 and
    4, the upper one of key 4 newer; and an old value of key 1 at level 3. *)
Definition upper_entries : list (list Z * list Z) := [(key 1 9 1, [90]); (key 2 8 0, [])].
Definition lower_entries : list (list Z * list Z) := [(key 2 5 1, [50]); (key 4 4 1, [40]); (key 4 3 1, [30])].
Definition base_entries : list (list Z * list Z) := [(key 1 1 1, [10])].
Definition merged_entries : list (list Z * list Z) := upper_entries ++ lower_entries.

Definition upper_file : file := (NewFile 3 100 (key 1 9 1) (key 2 8 0), upper_entries).
Definition lower_file : file := (NewFile 4 100 (key 2 5 1) (key 4 3 1), lower_entries).
Definition base_file : file := (NewFile 5 100 (key 1 1 1) (key 1 1 1), base_entries).
Definition example_levels : list (list file) := [[]; [upper_file]; [lower_file]; [base_file]; []; []; []].
Definition example_version : Version := mkVersion (fmap (M := list) (fmap (M := list) fst) example_levels) None (-1).
Definition example_tables : gmap Z (list (list Z * list Z)) := {[3 := upper_entries; 4 := lower_entries; 5 := base_entries]}.

Definition kept_entries : list (list Z * list Z) := [(key 1 9 1, [90]); (key 4 4 1, [40])].
Definition example_output : Output := mkOutput 6 100 (key 1 9 1) (key 4 4 1).
Definition new_tables : gmap Z (list (list Z * list Z)) := <[6 := kept_entries]> example_tables.

(** Level 1 is compacted: the oldest snapshot is at 8, the last sequence
    number is 9. *)
Definition example_compaction : option (Compaction * list (list Z)) :=
  '(pointers, c) ← PickCompaction 2097152 (replicate 7 []) example_version (Some 1); c ← c; Some (c, pointers).

Definition example_snapshots : list (nat * Z) := snapshot_New (snapshot_New [] 0%nat 8) 1%nat 9.

Lemma example_survivors : ('(c, _) ← example_compaction; survivors (smallest_snapshot example_snapshots 9) c no_key merged_entries) = Some kept_entries.
Proof. vm_compute. reflexivity. Qed.

Ltac concrete := repeat first [apply SSorted_nil | apply SSorted_cons | apply Forall_nil_2 | apply Forall_cons; split | split | reflexivity | done].

Lemma wf_key u seq t : seq_ok seq → type_ok t → ikey_wf (key u seq t).
Proof. by exists [u], seq, t. Qed.

Lemma example_internal : internal_entries merged_entries ∧ internal_entries upper_entries ∧ internal_entries lower_entries ∧
  internal_entries base_entries ∧ internal_entries kept_entries.
Proof.
  split_and!; (split; [repeat first [apply Forall_nil_2 | apply Forall_cons; split]; apply wf_key; unfold seq_ok, type_ok; by vm_compute
    |repeat first [apply SSorted_nil | apply SSorted_cons | apply Forall_nil_2 | apply Forall_cons; split]; vm_compute; reflexivity]).
Qed.

Lemma newer_forallb (es1 es2 : list entry) :
  forallb (λ a, forallb (λ b, negb (Compare (e_key a) (e_key b) =? 0) || (e_tag b <? e_tag a)) es2) es1 = true → newer es1 es2.
Proof.
  intros Hb x y Hx Hy Hc. rewrite forallb_forall in Hb. specialize (Hb x ltac:(by apply list_elem_of_In)).
  rewrite forallb_forall in Hb. specialize (Hb y ltac:(by apply list_elem_of_In)). rewrite (proj2 (Z.eqb_eq _ _) Hc) in Hb. by apply Z.ltb_lt.
Qed.

Lemma example_lists : version_lists example_tables example_version example_levels.
Proof.
  destruct example_internal as (_ & Iu & Il & Ib & _). split.
  - done.
  - done.
  - repeat first [apply Forall_nil_2 | apply Forall_cons; split]; by split.
  - assert (Hnil : level_ok []) by (split; [done|split; constructor]).
    cbn [levels_ok example_levels]. split; [split; [constructor|intros p q Hp; by apply not_elem_of_nil in Hp]|].
    repeat (split; [first [exact Hnil | split; [done|assumption]]|]). done.
  - repeat first [apply SSorted_nil | apply SSorted_cons | apply Forall_nil_2 | apply Forall_cons; split];
      apply newer_forallb; vm_compute; reflexivity.
  - repeat first [apply SSorted_nil | apply SSorted_cons | apply Forall_nil_2 | apply Forall_cons; split].
  - repeat first [apply Forall_nil_2 | apply Forall_cons; split]; apply (bool_decide_eq_true_1 (NoDup _)); vm_compute; reflexivity.
Qed.

Lemma example_pick : ∃ c pointers, PickCompaction 2097152 (replicate 7 []) example_version (Some 1) = Some (pointers, Some c) ∧
  level_ c = 1 ∧ inputs_ c = ([upper_file.1], [lower_file.1]).
Proof. eexists _, _. split; [vm_compute; reflexivity|]. by split. Qed.

Lemma example_compaction_input c : level_ c = 1 → inputs_ c = ([upper_file.1], [lower_file.1]) → compaction_input example_levels c merged_entries.
Proof.
  intros El Ei. destruct example_internal as (Im & _). split; rewrite ?El, ?Ei; cbn [fst snd].
  - intros _ L [= <-] f g Hf Hg Hng. set_solver.
  - intros M [= <-] f g Hf Hg Hng. set_solver.
  - done.
  - intros e. unfold merged_entries. rewrite elem_of_app. split.
    + intros [He|He]; [exists upper_file, [upper_file]|exists lower_file, [lower_file]]; split_and!; try (by left); try done;
        [left|right]; (split; [done|by left]).
    + intros (p & L & Hp & He & [[[= <-] Hi]|[[= <-] Hi]]); apply list_elem_of_singleton in Hp as ->; [by left|by right].
Qed.

Lemma compaction_preserves_reads_witness :
  ∃ c pointers b v' LL', PickCompaction 2097152 (replicate 7 []) example_version (Some 1) = Some (pointers, Some c) ∧
    survivors (smallest_snapshot example_snapshots 9) c no_key merged_entries = Some kept_entries ∧
    builder_Apply (NewVersionBuilder pointers example_version) (results_edit c [example_output]) = Some b ∧
    SaveTo b NewVersion = Some v' ∧ version_lists new_tables v' LL' ∧
    ∀ u snap a, 8 ≤ snap → get_ok (entries_of example_levels) u snap a →
      ∃ a', get_ok (entries_of LL') u snap a' ∧ get_status a' = get_status a.
Proof.
  destruct example_pick as (c & pointers & Ep & El & Ei).
  destruct (compaction_preserves_reads (TS := gmap Z (list (list Z * list Z))) example_tables example_version example_levels 2097152
    (replicate 7 []) pointers (Some 1) c example_snapshots 9 merged_entries) as (kept & Ek & Hrest).
  - apply example_lists.
  - lia.
  - reflexivity.
  - split; [lia|]. by exists upper_file.1, [].
  - exact Ep.
  - by vm_compute.
  - by apply example_compaction_input.
  - assert (Es : survivors (smallest_snapshot example_snapshots 9) c no_key merged_entries = Some kept_entries).
    { pose proof example_survivors as Es. unfold example_compaction in Es. rewrite Ep in Es. exact Es. }
    rewrite Ek in Es. injection Es as ->.
    destruct (Hrest new_tables [(example_output, kept_entries)]) as (b & v' & LL' & Eb & Esv & Hv & Hreads).
    + split.
      * reflexivity.
      * apply Forall_cons. split; [|by apply Forall_nil_2].
        split; [reflexivity|exact (proj2 (proj2 (proj2 (proj2 example_internal))))|reflexivity|reflexivity].
      * intros n s es. cbn. unfold new_tables. intros Hn. rewrite lookup_insert_ne; [done|]. intros <-. discriminate Hn.
      * rewrite El. intros M [= <-]. apply (bool_decide_eq_true_1 (NoDup _)). vm_compute. reflexivity.
      * rewrite El. intros M [= <-]. cbn. lia.
    + exists c, pointers, b, v', LL'. split; [exact Ep|]. split; [exact Ek|]. split; [exact Eb|]. split; [exact Esv|]. split; [exact Hv|exact Hreads].
Defined.

(** *** Two ways to go wrong *)

Definition lookup_key2 (v : Version) (tc : gmap Z (list (list Z * list Z))) : option (Status * option (list Z)) :=
  lk ← NewLookupKey [2] 9;
  '(_, _, s, value) ← version_Get v tc (mkReadOptions false false) lk;
  Some (s, value).

(** Key 2 is split between two files of level 1, as a compaction with a
    snapshot between its two values leaves it.  Only the first file is an
    input of the next compaction. *)
Definition split_tables : gmap Z (list (list Z * list Z)) :=
  {[3 := [(key 1 9 1, [90]); (key 2 8 1, [80])]; 4 := [(key 2 5 1, [50]); (key 3 4 1, [40])];
    6 := [(key 1 9 1, [90]); (key 2 8 1, [80])]]}.
Definition split_version : Version :=
  mkVersion [[]; [NewFile 3 100 (key 1 9 1) (key 2 8 1); NewFile 4 100 (key 2 5 1) (key 3 4 1)]; []; []; []; []; []] None (-1).
Definition split_after : option Version :=
  '(pointers, c) ← PickCompaction 2097152 (replicate 7 []) split_version (Some 1);
  c ← c;
  b ← builder_Apply (NewVersionBuilder pointers split_version) (results_edit c [mkOutput 6 100 (key 1 9 1) (key 2 8 1)]);
  SaveTo b NewVersion.

(** The newer value has gone to level 2; a lookup finds the older one. *)
Example split_key_lost :
  lookup_key2 split_version split_tables = Some (OK, Some [80]) ∧
  (v ← split_after; lookup_key2 v split_tables) = Some (OK, Some [50]).
Proof. split; vm_compute; reflexivity. Qed.

(** A manual compaction of two files of level 1, with a gap between them;
    meanwhile a memtable with key 5 is written out. *)
Definition gap_version : Version :=
  mkVersion [[]; [NewFile 3 100 (key 1 9 1) (key 2 8 1); NewFile 4 100 (key 8 5 1) (key 9 4 1)]; []; []; []; []; []] None (-1).
Definition gap_result : option (Z * option Version) :=
  '(pointers, c) ← CompactRange 2097152 (replicate 7 []) gap_version 1 None None;
  c ← c;
  level ← PickLevelForMemTableOutput 2097152 gap_version [5] [5];
  b ← builder_Apply (NewVersionBuilder pointers gap_version) (AddFile NewVersionEdit level 7 100 (key 5 10 1) (key 5 10 1));
  v ← SaveTo b NewVersion;
  b ← builder_Apply (NewVersionBuilder (compact_pointer_ b) v) (results_edit c [mkOutput 6 200 (key 1 9 1) (key 9 4 1)]);
  Some (level, SaveTo b NewVersion).

(** The memtable goes to level 2, into the range of the output: two files
    overlap, and the assertion of [SaveTo] fails. *)
Example flush_into_compaction : gap_result = Some (2, None).
Proof. vm_compute. reflexivity. Qed.
End example.

(** ** The work at a concrete input *)

Section work_example.
#[local] Existing Instances posix_x86 sse_cpu sse_cpu_laws.
#[local] Existing Instances Files.memenv_random Files.memenv_random_laws.
#[local] Existing Instances table_file_w table_laws table_reliable table_crc table_crc_laws.
#[local] Existing Instances BytewiseComparator list_store list_store_laws.
Abbreviation icmp := (InternalKeyComparator BytewiseComparator).

(** Files by their names; a table is opened without a block cache.  In turn 1
    a memtable is written to a file. *)
#[local] Instance map_store (dbname : list Z) (options : Options) : OutputStore (gmap (list Z) FileState.t) FileState.t := {|
  store_NewWritableFile st name := Some (<[name := FileState.new]> st, inr FileState.new);
  store_Close st name f := Some (<[name := f]> st, OK);
  store_NewIterator st number size :=
    name ← TableFileName dbname number;
    f ← st !! name;
    '(s, _, _) ← Open (C := icmp) options (None : option (ShardedLRUCache Block)) f size;
    Some (st, s);
  shared_turn turn st next pending :=
    if (turn =? 1)%nat then
      name ← TableFileName dbname next;
      Some (match st !! name with Some _ => st | None => <[name := FileState.new]> st end, next + 1, pending)
    else Some (st, next, pending)
|}.

Lemma TableFileName_inj dbname n n' name :
  0 < n < 2 ^ 64 → 0 < n' < 2 ^ 64 → TableFileName dbname n = Some name → TableFileName dbname n' = Some name → n = n'.
Proof.
  intros Hn Hn'. unfold TableFileName. rewrite !(proj2 (Z.ltb_lt 0 _)) by lia. intros [= <-] [= E].
  unfold MakeFileName in E. apply app_inv_head, app_inv_head in E. rewrite !app_assoc in E. apply app_inv_tail, app_inv_tail in E.
  destruct (format_06llu_ok n) as (_ & _ & <-); [unfold in_width; lia|].
  destruct (format_06llu_ok n') as (_ & _ & <-); [unfold in_width; lia|]. by rewrite E.
Qed.

#[local] Instance map_store_laws (dbname : list Z) (options : Options) :
  OutputStoreLaws (H1 := map_store dbname options) (gmap (list Z) FileState.t) FileState.t dbname options.
Proof.
  assert (Hother : ∀ (st : gmap (list Z) FileState.t) n name f n' data, 0 < n < 2 ^ 64 → TableFileName dbname n = Some name → n' ≠ n →
    (0 < n' < 2 ^ 64 ∧ ∃ name f, TableFileName dbname n' = Some name ∧ st !! name = Some f ∧ FileState.wf f ∧ FileState.data f = data) →
    0 < n' < 2 ^ 64 ∧ ∃ name' f', TableFileName dbname n' = Some name' ∧ <[name := f]> st !! name' = Some f' ∧ FileState.wf f' ∧ FileState.data f' = data).
  { intros st n name f n' data Hn En Hne (Hn' & name' & f' & En' & Es & Hf). split; [done|]. exists name', f'. split; [done|].
    split; [|done]. rewrite lookup_insert_ne; [done|]. intros <-. by apply Hne, (TableFileName_inj dbname n' n name). }
  refine {| stored st n data := 0 < n < 2 ^ 64 ∧ ∃ name f, TableFileName dbname n = Some name ∧ st !! name = Some f ∧
    FileState.wf f ∧ FileState.data f = data; store_gap := 1 |}.
  - intros st n name Hn En. eexists _, _. split; [reflexivity|]. split; [exact (proj1 FileState.data_new)|]. split; [done|].
    intros n' data Hne. by apply (Hother st n).
  - intros st n name f Hn En Hw. eexists. split; [reflexivity|]. split; [|intros n' data Hne; by apply (Hother st n)].
    split; [done|]. exists name, f. split; [done|]. by rewrite lookup_insert_eq.
  - intros st n data es hs blocks ies footer (Hn & name & f & En & Es & Hw & <-) Ht. exists st. split; [|done].
    cbn [store_NewIterator map_store]. rewrite En. simpl_bind. rewrite Es. simpl_bind.
    destruct (Open_ok (C := icmp) options (None : option (ShardedLRUCache Block)) f es hs blocks ies footer) as (t & cache & E & _);
      [exact Hw|exact Ht|done|done|]. change (random_contents f) with (FileState.data f) in E. rewrite E. done.
  - done.
  - intros turn st next pending H0 Hb. cbn [shared_turn map_store]. destruct (turn =? 1)%nat.
    + unfold TableFileName. rewrite (proj2 (Z.ltb_lt 0 next)) by lia. simpl_bind. eexists _, _, _. split; [done|]. split; [lia|].
      intros n d (Hn & name & f & En & Es & Hf). split; [done|]. exists name, f. split; [done|]. split; [|done].
      destruct (st !! MakeFileName dbname next "ldb") eqn:E; [done|]. rewrite lookup_insert_ne; [done|]. intros <-. congruence.
    + eexists _, _, _. split; [done|]. split; [lia|]. done.
Defined.

(** Both versions of key 1 and key 4 that are kept go to one table. *)
Lemma do_compaction_work_witness :
  ∃ it c pointers w groups, block_over (C := icmp) merged_entries = Some it ∧
    PickCompaction 2097152 (replicate 7 []) example_version (Some 1) = Some (pointers, Some c) ∧
    DoCompactionWork (H2 := map_store (bytes_of "/db") example_options) (H1 := block_iterator (C := icmp))
      (bytes_of "/db") example_options 2097152 6 None 1 c 8 ∅ 6 ∅ it = Some (w, OK) ∧
    concat groups = kept_entries ∧
    Forall2 (finished (HO := map_store_laws (bytes_of "/db") example_options) (bytes_of "/db") example_options (store w)) (outputs (compact w)) groups.
Proof.
  destruct (block_over_ok (C := icmp) merged_entries) as (it & Eit & Hit).
  1: apply entries_okb_ok; vm_compute; reflexivity.
  1: repeat first [apply SSorted_nil | apply SSorted_cons | apply Forall_nil_2 | apply Forall_cons; split]; vm_compute; reflexivity.
  1: vm_compute; reflexivity.
  destruct (PickCompaction_ok 2097152 (replicate 7 []) example_version (Some 1)
    (version_lists_ranges example_tables example_version example_levels example_lists)) as [(? & _)|(level & c & key & Ep & Hl & Hc & _)];
    [lia|done|split; [lia|]; by exists upper_file.1, []|done|].
  destruct example_pick as (c' & pointers & Ep' & El & Ei). rewrite Ep in Ep'. injection Ep' as <- <-.
  pose proof (st_level _ _ _ Hc) as El'. rewrite El in El'. subst level.
  destruct (do_compaction_work (TS := gmap Z (list (list Z * list Z))) (T := Iter) (H5 := block_iterator (C := icmp)) (HI := block_iterator_laws (C := icmp)) (bytes_of "/db") example_options
    (HO := map_store_laws (bytes_of "/db") example_options) 37
    2097152 6 8 1 1 example_tables example_version example_levels c merged_entries ∅ it (length merged_entries) ∅)
    as (kept & w & groups & Ek & Ew & Eg & Hf & _).
  - exact example_options_ok.
  - lia.
  - exact example_lists.
  - lia.
  - exact Hc.
  - by vm_compute.
  - exact (proj1 example_internal).
  - split; [|split; [apply entries_okb_ok; vm_compute; reflexivity|split; [vm_compute; reflexivity|done]]].
    repeat first [apply SSorted_nil | apply SSorted_cons | apply Forall_nil_2 | apply Forall_cons; split]; vm_compute; reflexivity.
  - exact Hit.
  - lia.
  - lia.
  - cbn. lia.
  - eexists it, c, _, w, groups. split; [exact Eit|]. split; [exact Ep|]. split; [exact Ew|]. split; [|exact Hf]. rewrite Eg.
    assert (Es : survivors (smallest_snapshot example_snapshots 9) c no_key merged_entries = Some kept_entries).
    { pose proof example_survivors as Es. unfold example_compaction in Es. rewrite Ep in Es. exact Es. }
    change (smallest_snapshot example_snapshots 9) with 8 in Es. rewrite Ek in Es. by injection Es.
Defined.
End work_example.
