(* ===== verification/StoreTheorems.v ===== *)
(** What the storage modules guarantee: the encodings, the batches, the
    internal keys, the skip list with its readers, the memtable as a map, and
    the filters.  The properties of leveldb, each with an instance. *)

From Stdlib Require Import ZArith Lia.
From stdpp Require Import base option numbers list strings sorting relations gmap.
From S2P Require Import Prelude Coding Slice WriteBatch DbFormat SkipList SkipListSpec.
From S2P Require Import SkipListRefine SkipListReaders MemTable KvStore Bloom FilterBlock.

(** ** The memtable *)

(** C4. Batches of updates and a memtable over a skip list refine a map with
    history: whatever the updates are, written batch by batch through
    [Put] and [Delete], stamped with consecutive sequence numbers and applied
    by [InsertInto], every step succeeds, and [Get] of any key at any snapshot
    answers what the map obtained by replaying the updates up to the
    snapshot's number holds: the value, a deletion, or nothing. *)
Theorem memtable_refines_map `{P : Port} seq batches k s :
  batches_ok seq batches → key_ok k → seq_ok s →
  ∃ m lk, write_batches seq batches (NewMemTable (T := memtable_table)) = Some m ∧
    NewLookupKey k s = Some lk ∧
    Get (C := BytewiseComparator) m lk
    = Some (answer (replay (take (Z.to_nat (s + 1 - seq)) (concat batches)) !! k)).
Proof.
  intros Hb Hk Hs.
  destruct (write_batches_run batches seq NewMemTable [] NewMemTable_rep ltac:(constructor) Hb)
    as (m & es & Hw & Hm & Hp). cbn [app] in Hp.
  destruct (Get_rep m es k s Hm Hk Hs) as (lk & r & Hlk & Hg & Hok).
  exists m, lk. split; [done|]. split; [done|]. rewrite Hg. f_equal. by eapply get_ok_answer.
Qed.

Definition demo_batches : list (list batch_op) :=
  [[BPut [1] [2]; BDelete [3]]; [BPut [1] [5]; BPut [3] [4]]].

Lemma memtable_refines_map_witness :
  ∃ m lk, write_batches (P := posix_x86) 1 demo_batches (NewMemTable (T := memtable_table)) = Some m ∧
    NewLookupKey (P := posix_x86) [1] 2 = Some lk ∧
    Get (P := posix_x86) (C := BytewiseComparator) m lk = Some (GotValue [2]).
Proof.
  apply (memtable_refines_map (P := posix_x86) 1 demo_batches [1] 2).
  - split; [|by split].
    repeat first [apply Forall_cons; split | apply Forall_nil; done | split | done].
  - split; [apply Forall_singleton|]; by split.
  - by split.
Defined.

(** ** The skip list *)

(** Forward iteration. *)
Fixpoint iterate_table {K} {T : OrderedTable K} (fuel : nat) (t : table) (it : table_iter)
  : option (list K) :=
  if table_Valid it then
    match fuel with
    | O => None
    | S fuel =>
        k ← table_key t it; it ← table_Next t it;
        ks ← iterate_table fuel t it; Some (k :: ks)
    end
  else Some [].

Fixpoint insert_all {K} {T : OrderedTable K} (t : table) (ks : list K) : option table :=
  match ks with
  | [] => Some t
  | k :: ks => t ← table_Insert t k; insert_all t ks
  end.

Section tables.
Context {K} {T : OrderedTable K} {wf : K → Prop} {cmp : K → K → Z} {TL : OrderedTableLaws T wf cmp}.

Lemma iterate_table_at t ks : ∀ n it i,
  table_at t ks it i → (length ks - i = n)%nat → iterate_table n t it = Some (drop i ks).
Proof.
  induction n as [|n IH]; intros it i Hat Hn; cbn [iterate_table];
    rewrite (at_Valid t ks it i Hat).
  - rewrite bool_decide_eq_false_2 by lia. by rewrite drop_ge by lia.
  - rewrite bool_decide_eq_true_2 by lia. rewrite (at_key t ks it i Hat).
    destruct (lookup_lt_is_Some_2 ks i ltac:(lia)) as [k Hk]. rewrite Hk. simpl_bind.
    destruct (at_Next t ks it i Hat ltac:(lia)) as (it' & -> & Hat'). simpl_bind.
    rewrite (IH it' (S i) Hat' ltac:(lia)). simpl_bind. by rewrite (drop_S _ _ _ Hk).
Qed.

Lemma sorted_insert_perm key ks : sorted_insert cmp key ks ≡ₚ key :: ks.
Proof.
  unfold sorted_insert. rewrite <-Permutation_middle. f_equiv. apply filter_app_complement.
Qed.

Lemma insert_all_run ks : ∀ t held,
  table_rep t held → Forall wf ks → StronglySorted (λ a b, cmp b a ≠ 0) ks →
  Forall (λ k, Forall (λ h, cmp k h ≠ 0) held) ks →
  ∃ t' out, insert_all t ks = Some t' ∧ table_rep t' out ∧ out ≡ₚ ks ++ held.
Proof.
  induction ks as [|k ks IH]; intros t held Ht Hw Hd Hh; cbn [insert_all].
  { by exists t, held. }
  apply Forall_cons in Hw as [Hk Hw]. apply StronglySorted_inv in Hd as [Hd Hkd].
  apply Forall_cons in Hh as [Hkh Hh].
  destruct (rep_Insert t held k Ht Hk Hkh) as (t1 & -> & Ht1). simpl_bind.
  destruct (IH t1 _ Ht1 Hw Hd) as (t' & out & -> & Ht' & Hp).
  { rewrite Forall_forall in *. intros k' Hk'. rewrite sorted_insert_perm.
    constructor; [by apply Hkd|by apply Hh]. }
  exists t', out. split; [done|]. split; [done|].
  rewrite Hp, sorted_insert_perm. cbn. by rewrite Permutation_middle.
Qed.
End tables.

(** C30. A skip list is a sorted list: with a comparator that orders its
    keys, inserting any keys that differ pairwise succeeds (no link is
    followed outside the arena, every search ends), and iterating from the
    first entry gives the keys inserted, each once, in strictly increasing
    order, whatever heights the random numbers give the nodes. *)
Theorem skiplist_sorts {K} (any_key : K) (compare_ : K → K → option Z) (wf : K → Prop)
    (cmp : K → K → Z) (HK : KeyOrder wf compare_ cmp) (ks : list K) :
  Forall wf ks → StronglySorted (λ a b, cmp b a ≠ 0) ks →
  ∃ s it out,
    insert_all (T := skiplist_table any_key compare_) (NewSkipList any_key) ks = Some s ∧
    it_SeekToFirst s = Some it ∧
    iterate_table (T := skiplist_table any_key compare_) (length ks) s it = Some out ∧
    out ≡ₚ ks ∧ StronglySorted (λ a b, cmp a b < 0) out.
Proof.
  intros Hw Hd.
  set (TL := skiplist_laws any_key compare_ wf cmp : OrderedTableLaws (skiplist_table any_key compare_) wf cmp).
  destruct (insert_all_run (TL := TL) ks (NewSkipList any_key) [] (rep_new (OrderedTableLaws := TL)) Hw Hd)
    as (s & out & Hs & Hrep & Hp); [by apply Forall_true|]. rewrite app_nil_r in Hp.
  destruct (rep_SeekToFirst (OrderedTableLaws := TL) s out Hrep) as (it & Hit & Hat).
  exists s, it, out. split; [done|]. split; [done|].
  rewrite (iterate_table_at (TL := TL) s out (length ks) it 0 Hat); [|rewrite <-Hp; lia].
  split; [done|]. split; [done|]. by apply (rep_sorted (OrderedTableLaws := TL) s).
Qed.

(** Integers by difference. *)
Definition zcompare (a b : Z) : option Z := Some (a - b).

Lemma z_order : KeyOrder (λ _, True) zcompare Z.sub.
Proof. split; [done|intros; lia|intros; lia]. Qed.

Lemma skiplist_sorts_witness :
  ∃ s it out,
    insert_all (T := skiplist_table 0 zcompare) (NewSkipList 0) [5; 1; 3] = Some s ∧
    it_SeekToFirst s = Some it ∧
    iterate_table (T := skiplist_table 0 zcompare) 3 s it = Some out ∧
    out ≡ₚ [5; 1; 3] ∧ StronglySorted (λ a b, a - b < 0) out.
Proof.
  apply (skiplist_sorts 0 zcompare (λ _, True) Z.sub z_order [5; 1; 3]).
  - by apply Forall_true.
  - repeat constructor; lia.
Defined.

(** ** Readers beside a writer *)

Section reading.
Context {K : Type} (any_key : K) (compare_ : K → K → option Z).
Context (wf : K → Prop) (cmp : K → K → Z).

(** A step of the reader alone. *)
Definition rstep (s : SkipList) (key : K) (r r' : reader) : Prop :=
  match r with
  | RSearch x level => reader_step compare_ s key x level = Some r'
  | _ => False
  end.

Lemma fge_loop_rsteps fuel s key x level next :
  fge_loop compare_ fuel s key x level [] = Some (next, []) →
  ∃ n, (n ≤ fuel)%nat ∧ nsteps (rstep s key) n (RSearch x level) (RDone next).
Proof.
  revert x level. induction fuel as [|fuel IH]; intros x level; [done|].
  rewrite reader_step_fge. destruct (reader_step compare_ s key x level) as [r|] eqn:E; [|done].
  simpl_bind. destruct r as [|x' level'|next']; [done| |].
  - intros (n & Hn & Hs)%IH. exists (S n). split; [lia|]. by eapply nsteps_l; [|exact Hs].
  - intros [= ->]. exists 1%nat. split; [lia|]. by apply nsteps_once.
Qed.

Context {HK : KeyOrder wf compare_ cmp}.

Lemma reader_reach s0 ks key s w x level :
  sl_rep any_key wf cmp s0 ks → wf key →
  rtc (sys_step compare_ wf key) (s0, WIdle, RStart) (s, w, RSearch x level) →
  (∃ f, search_fuel s = S f) ∧
  ∃ next, it_Seek compare_ s key = Some next ∧
    fge_loop compare_ (search_fuel s) s key x level [] = Some (next, []).
Proof.
  intros (C0 & HI0 & _) Hk Hr.
  destruct (sys_reach_inv any_key compare_ wf cmp key Hk (s0, WIdle, RStart) (s, w, RSearch x level))
    as (C & Hw & Hrd); [by exists C0|done|]. cbn [fst snd] in *.
  pose proof (w_inv_skip any_key wf cmp s w C Hw) as HI.
  split; [by eapply (search_fuel_pos any_key compare_ wf cmp)|].
  by eapply (reader_finishes any_key compare_ wf cmp).
Qed.
End reading.

(** C11. A reader beside a writer is safe: however the loads of a search
    interleave with the stores of any number of insertions of new keys, the
    search never follows an invalid link, and when it ends it returns exactly
    the node that a search run without interruption would return in the
    list's state at that moment. *)
Theorem skiplist_readers_safe {K} (any_key : K) (compare_ : K → K → option Z) (wf : K → Prop)
    (cmp : K → K → Z) (HK : KeyOrder wf compare_ cmp) s0 ks key s w x level :
  sl_rep any_key wf cmp s0 ks → wf key →
  rtc (sys_step compare_ wf key) (s0, WIdle, RStart) (s, w, RSearch x level) →
  (∃ r, reader_step compare_ s key x level = Some r) ∧
  ∀ next, reader_step compare_ s key x level = Some (RDone next) →
    it_Seek compare_ s key = Some next.
Proof.
  intros Hs Hk Hr.
  destruct (reader_reach any_key compare_ wf cmp s0 ks key s w x level Hs Hk Hr)
    as ([f Hf] & next & Hseek & Hloop). rewrite Hf, reader_step_fge in Hloop.
  destruct (reader_step compare_ s key x level) as [r|]; [|done]. split; [by exists r|].
  intros next' [= ->]. cbn in Hloop. by injection Hloop as ->.
Qed.

Lemma zlist_rep : sl_rep 0 (λ _, True) Z.sub (NewSkipList 0) [].
Proof. exists (λ _, []). split; [apply NewSkipList_inv|done]. Qed.

(** The writer has allocated a node and the reader is at the head. *)
Lemma zlist_reach :
  ∃ s w x level, w ≠ WIdle ∧
    rtc (sys_step zcompare (λ _, True) 7) (NewSkipList 0, WIdle, RStart) (s, w, RSearch x level).
Proof.
  destruct (insert_prepare zcompare (NewSkipList 0) 5) as [[[[x h] prev] s]|] eqn:E; [|by vm_compute in E].
  exists s, (WLink x h prev 0), head_, (GetMaxHeight s - 1)%nat. split; [done|].
  eapply rtc_l; [apply sys_write; by eapply (ws_begin _ _ _ 5)|].
  apply rtc_once, sys_start.
Qed.

Lemma skiplist_readers_safe_witness :
  ∃ s w x level, w ≠ WIdle ∧ (∃ r, reader_step zcompare s 7 x level = Some r) ∧
    ∀ next, reader_step zcompare s 7 x level = Some (RDone next) → it_Seek zcompare s 7 = Some next.
Proof.
  destruct zlist_reach as (s & w & x & level & Hw & Hr). exists s, w, x, level. split; [done|].
  apply (skiplist_readers_safe 0 zcompare (λ _, True) Z.sub z_order (NewSkipList 0) [] 7 s w);
    [apply zlist_rep|done|done].
Defined.

(** C33. A reader is never held up by the writer: from every reachable state,
    in the middle of any insertion, the reader alone reaches the end of its
    search within as many steps as the list has nodes times levels. *)
Theorem skiplist_readers_finish {K} (any_key : K) (compare_ : K → K → option Z) (wf : K → Prop)
    (cmp : K → K → Z) (HK : KeyOrder wf compare_ cmp) s0 ks key s w x level :
  sl_rep any_key wf cmp s0 ks → wf key →
  rtc (sys_step compare_ wf key) (s0, WIdle, RStart) (s, w, RSearch x level) →
  ∃ n next, (n ≤ search_fuel s)%nat ∧
    nsteps (rstep compare_ s key) n (RSearch x level) (RDone next) ∧
    it_Seek compare_ s key = Some next.
Proof.
  intros Hs Hk Hr.
  destruct (reader_reach any_key compare_ wf cmp s0 ks key s w x level Hs Hk Hr)
    as (_ & next & Hseek & Hloop).
  apply fge_loop_rsteps in Hloop as (n & Hn & Hsteps). by exists n, next.
Qed.

Lemma skiplist_readers_finish_witness :
  ∃ s w x level, w ≠ WIdle ∧ ∃ n next, (n ≤ search_fuel s)%nat ∧
    nsteps (rstep zcompare s 7) n (RSearch x level) (RDone next) ∧ it_Seek zcompare s 7 = Some next.
Proof.
  destruct zlist_reach as (s & w & x & level & Hw & Hr). exists s, w, x, level. split; [done|].
  apply (skiplist_readers_finish 0 zcompare (λ _, True) Z.sub z_order (NewSkipList 0) [] 7 s w);
    [apply zlist_rep|done|done].
Defined.

(** ** Encodings *)

(** Each reader of the encodings inverts its writer, whatever bytes
    follow, on machines of either byte order: fixed 32- and 64-bit integers,
    variable-length 32- and 64-bit integers (which fit the 5- and 10-byte
    buffers of the code and are as long as [VarintLength] says), and
    length-prefixed strings through both forms of the reader. *)
Theorem coding_roundtrip `{P : Port} v32 v64 str r :
  in_width 32 v32 → in_width 64 v64 → str_ok str → bytes r →
  DecodeFixed32 (PutFixed32 [] v32 ++ r) = Some v32 ∧
  DecodeFixed64 (PutFixed64 [] v64 ++ r) = Some v64 ∧
  GetVarint32 (PutVarint32 [] v32 ++ r) = Some (v32, r) ∧
  (length (EncodeVarint32 v32) ≤ 5)%nat ∧
  (∃ enc, PutVarint64 [] v64 = Some enc ∧ GetVarint64 (enc ++ r) = Some (v64, r) ∧
    VarintLength v64 = Some (Z.of_nat (length enc))) ∧
  GetLengthPrefixedSlice (PutLengthPrefixedSlice [] str ++ r) = (Some str, r) ∧
  GetLengthPrefixedSlicePtr (PutLengthPrefixedSlice [] str ++ r) = Some (str, r).
Proof.
  intros H32 H64 [Hs Hl] Hr.
  split; [by apply DecodeFixed32_encode|]. split; [by apply DecodeFixed64_encode|].
  split; [by apply GetVarint32_encode|].
  split. { rewrite EncodeVarint32_leb128 by done. pose proof (length_leb128 4 v32). lia. }
  split; [|split; [by apply GetLengthPrefixedSlice_put|by apply GetLengthPrefixedSlicePtr_put]].
  destruct (GetVarint64_encode v64 r H64 Hr) as (enc & E & Hle & Hg). exists enc.
  unfold PutVarint64. rewrite E. cbn [mbind option_bind app].
  rewrite bool_decide_eq_true_2 by done. split; [done|]. split; [done|].
  assert (Henc : enc = leb128 9 v64) by (rewrite EncodeVarint64_leb128 in E by done; congruence).
  rewrite Henc. by apply VarintLength_leb128.
Qed.

Lemma coding_roundtrip_witness :
  DecodeFixed32 (P := posix_x86) (PutFixed32 (P := posix_x86) [] 300 ++ [9]) = Some 300 ∧
  GetVarint32 (PutVarint32 [] 300 ++ [9]) = Some (300, [9]).
Proof.
  destruct (coding_roundtrip (P := posix_x86) 300 (2 ^ 40) [1; 2] [9]) as (H1 & _ & H2 & _).
  - by split.
  - by split.
  - split; [|by split]. repeat (apply Forall_cons; split; [by split|]). by apply Forall_nil.
  - apply Forall_singleton. by split.
  - done.
Defined.

(** The variable-length readers on arbitrary bytes: they read LEB128.
    [GetVarint32] takes at most five bytes and [GetVarint64] at most ten;
    the value is the number the bytes spell, reduced to the width of the
    result, and the reading fails exactly when no byte among those ends the
    number.  In particular an encoding cut short is rejected. *)
Theorem varint_readers_total p v k :
  bytes p → in_width 64 v → (k < length (leb128 9 v))%nat →
  GetVarint32 p = ('(n, r) ← leb_decode 5 p; Some (u32 n, r)) ∧
  GetVarint64 p = ('(n, r) ← leb_decode 10 p; Some (u64 n, r)) ∧
  EncodeVarint64 v = Some (leb128 9 v) ∧
  GetVarint64 (take k (leb128 9 v)) = None ∧ GetVarint32 (take k (leb128 9 v)) = None.
Proof.
  intros Hp Hv Hk. pose proof (leb128_9_bytes v Hv) as Hb.
  split; [by apply GetVarint32_leb|]. split; [by apply GetVarint64_leb|].
  split; [by apply EncodeVarint64_leb128|]. destruct Hv as [Hv _].
  rewrite GetVarint64_leb, GetVarint32_leb by (by apply Forall_take).
  by rewrite !leb_decode_cut.
Qed.

Lemma varint_readers_total_witness :
  GetVarint32 [255; 255; 255; 255; 255] = None ∧ GetVarint64 (take 1 (leb128 9 300)) = None.
Proof.
  destruct (varint_readers_total [255; 255; 255; 255; 255] 300 1) as (H1 & _ & _ & H2 & _).
  - repeat (apply Forall_cons; split; [by split|]). by apply Forall_nil.
  - by split.
  - vm_compute. lia.
  - split; [exact H1|exact H2].
Defined.

(** ** Batches *)

(** C24. A batch holds the updates written into it: filling a new batch with
    any updates succeeds, the result is the documented layout (sequence
    number, count, records), appending another batch concatenates the updates
    and keeps the sequence number, and iterating over the result hands
    exactly these updates to the handler, in order, and returns OK. *)
Theorem write_batch_roundtrip `{P : Port} {S} (h : Handler S) st seq ops ops' :
  in_width 64 seq → Forall op_ok (ops ++ ops') → count_ok (ops ++ ops') →
  ∃ b b' d, write_ops NewWriteBatch ops = Some b ∧ write_ops NewWriteBatch ops' = Some b' ∧
    (b ← SetSequence b seq; Append b b') = Some d ∧ d = rep_of seq (ops ++ ops') ∧
    Sequence d = Some seq ∧ Count d = Some (Z.of_nat (length (ops ++ ops'))) ∧
    Iterate d h st = Some (foldl (apply_op h) st (ops ++ ops'), OK).
Proof.
  intros Hs Hok Hc. pose proof Hok as [Hok1 Hok2]%Forall_app.
  assert (Hc1 : count_ok ops ∧ count_ok ops') by (unfold count_ok in *; rewrite length_app in Hc; lia).
  destruct Hc1 as [Hc1 Hc2].
  exists (rep_of 0 ops), (rep_of 0 ops'), (rep_of seq (ops ++ ops')).
  rewrite NewWriteBatch_rep_of. split; [by apply (write_ops_rep_of 0 [])|].
  split; [by apply (write_ops_rep_of 0 [])|]. rewrite SetSequence_rep_of. simpl_bind.
  split; [by apply Append_rep_of|]. split; [done|]. split; [by apply Sequence_rep_of|].
  split; [by apply Count_rep_of|by apply Iterate_rep_of].
Qed.

Lemma write_batch_roundtrip_witness :
  ∃ b b' d, write_ops (P := posix_x86) NewWriteBatch [BPut [1] [2]] = Some b ∧
    write_ops (P := posix_x86) NewWriteBatch [BDelete [1]] = Some b' ∧
    (b ← SetSequence (P := posix_x86) b 7; Append (P := posix_x86) b b') = Some d ∧
    d = rep_of 7 [BPut [1] [2]; BDelete [1]] ∧ Sequence (P := posix_x86) d = Some 7 ∧
    Count (P := posix_x86) d = Some 2 ∧
    Iterate (P := posix_x86) d recorder [] = Some ([BPut [1] [2]; BDelete [1]], OK).
Proof.
  apply (write_batch_roundtrip (P := posix_x86) recorder [] 7 [BPut [1] [2]] [BDelete [1]]).
  - by split.
  - repeat first [apply Forall_cons; split | apply Forall_nil; done | split | done].
  - done.
Defined.

(** Iterating over a batch ends on every input: whatever the bytes, the
    loop stays inside them and returns a status after handing a sequence of
    updates to the handler, and it returns OK only if the number of these
    updates is the count in the header. *)
Theorem write_batch_iterate_total `{P : Port} {S} (h : Handler S) st rep_ :
  bytes rep_ →
  ∃ ops status, Iterate rep_ h st = Some (foldl (apply_op h) st ops, status) ∧
    (status = OK → Count rep_ = Some (Z.of_nat (length ops))).
Proof.
  intros Hb. unfold Iterate. destruct (Nat.ltb_spec (length rep_) kHeader) as [Hlt|Hge].
  { by exists [], (Corruption "malformed WriteBatch (too small)"). }
  destruct (iterate_loop_total h (length rep_) st 0 (drop kHeader rep_)) as (ops & r & -> & Hr).
  { by apply Forall_drop. }
  { rewrite length_drop. lia. }
  simpl_bind. destruct r as [n|s]; [|exists ops, s; by split].
  destruct (Count_total rep_ Hb Hge) as [c ->]. simpl_bind.
  destruct (Z.eqb_spec n c) as [->|]; cbn [negb].
  - exists ops, OK. split; [done|]. intros _. f_equal. lia.
  - by exists ops, (Corruption "WriteBatch has wrong count").
Qed.

Lemma write_batch_iterate_total_witness :
  ∃ ops status, Iterate (P := posix_x86) (replicate 12 0 ++ [1; 1; 7]) recorder []
      = Some (foldl (apply_op recorder) [] ops, status) ∧
    (status = OK → Count (P := posix_x86) (replicate 12 0 ++ [1; 1; 7]) = Some (Z.of_nat (length ops))).
Proof.
  apply (write_batch_iterate_total (P := posix_x86) recorder [] (replicate 12 0 ++ [1; 1; 7])).
  apply Forall_app. split; [by apply Forall_replicate|].
  repeat (apply Forall_cons; split; [by split|]). by apply Forall_nil.
Defined.

(** ** Internal keys *)

Definition parsed_ok (p : ParsedInternalKey) : Prop := seq_ok (sequence p) ∧ type_ok (type p).

(** Internal keys keep what they are made of and sort newest first: with
    any lawful comparator of user keys, parsing an appended key gives it
    back, and the comparator of internal keys puts one key before another
    exactly when its user key is smaller, or the user keys are equal and its
    sequence number, or then its type, is larger. *)
Theorem internal_key_order `{P : Port} {C : Comparator} {HC : ComparatorLaws C} p q :
  parsed_ok p → parsed_ok q →
  ∃ a b c, AppendInternalKey [] p = Some a ∧ AppendInternalKey [] q = Some b ∧
    ParseInternalKey a = Some (Some p) ∧ ikey_Compare a b = Some c ∧
    (c < 0 ↔ Compare (user_key p) (user_key q) < 0 ∨
      (Compare (user_key p) (user_key q) = 0 ∧
       (sequence q < sequence p ∨ (sequence q = sequence p ∧ type q < type p)))).
Proof.
  intros [Hps Hpt] [Hqs Hqt]. eexists _, _, _.
  split; [by apply AppendInternalKey_bytes|]. split; [by apply AppendInternalKey_bytes|].
  cbn [app]. rewrite ParseInternalKey_bytes by done. split; [by destruct p|].
  split; [by apply ikey_Compare_bytes; apply tag_of_width|].
  unfold ikey_cmp, tag_of, type_ok in *.
  destruct (Z.eqb_spec (Compare (user_key p) (user_key q)) 0) as [E|E]; [|lia].
  destruct (Z.ltb_spec (sequence q * 256 + type q) (sequence p * 256 + type p)),
    (Z.ltb_spec (sequence p * 256 + type p) (sequence q * 256 + type q)); lia.
Qed.

Lemma internal_key_order_witness :
  ∃ a b c, AppendInternalKey (P := posix_x86) [] (mkParsed [1; 2] 9 1) = Some a ∧
    AppendInternalKey (P := posix_x86) [] (mkParsed [1; 2] 4 1) = Some b ∧
    ParseInternalKey (P := posix_x86) a = Some (Some (mkParsed [1; 2] 9 1)) ∧
    ikey_Compare (P := posix_x86) (C := BytewiseComparator) a b = Some c ∧
    (c < 0 ↔ slice_compare [1; 2] [1; 2] < 0 ∨ (slice_compare [1; 2] [1; 2] = 0 ∧ (4 < 9 ∨ (4 = 9 ∧ 1 < 1)))).
Proof.
  apply (internal_key_order (P := posix_x86) (C := BytewiseComparator)
    (mkParsed [1; 2] 9 1) (mkParsed [1; 2] 4 1)); by split; split.
Defined.

(** C38. Shortened keys still separate: for internal keys in order, the
    separator that the internal comparator derives from any lawful user
    comparator is an internal key at or after the first and before the
    second with a user key no longer than the first's, the short successor of
    a key is at or after it, and no [assert] of either function fails. *)
Theorem internal_key_separators `{P : Port} {C : Comparator} {HC : ComparatorLaws C} us ts ul tl c :
  bytes us → bytes ul → in_width 64 ts → in_width 64 tl →
  ikey_Compare (ikey_bytes us ts) (ikey_bytes ul tl) = Some c → c < 0 →
  (∃ ur tr c1 c2, ikey_FindShortestSeparator (ikey_bytes us ts) (ikey_bytes ul tl)
      = Some (ikey_bytes ur tr) ∧ (length ur ≤ length us)%nat ∧
    ikey_Compare (ikey_bytes us ts) (ikey_bytes ur tr) = Some c1 ∧ c1 ≤ 0 ∧
    ikey_Compare (ikey_bytes ur tr) (ikey_bytes ul tl) = Some c2 ∧ c2 < 0) ∧
  (∃ ur tr c, ikey_FindShortSuccessor (ikey_bytes us ts) = Some (ikey_bytes ur tr) ∧
    (length ur ≤ length us)%nat ∧
    ikey_Compare (ikey_bytes us ts) (ikey_bytes ur tr) = Some c ∧ c ≤ 0).
Proof.
  intros Hus Hul Hts Htl. rewrite ikey_Compare_bytes by done. intros Hc Hlt.
  apply (inj Some) in Hc. rewrite <-Hc in Hlt.
  destruct (ikey_separator_run us ts ul tl Hus Hul Hts Htl Hlt) as (ur & tr & E & Htr & Hl & H1 & H2 & _).
  destruct (ikey_successor_run us ts Hus Hts) as (ur' & tr' & E' & Htr' & Hl' & H1' & _). split.
  - eexists ur, tr, _, _. split; [done|]. split; [done|].
    split; [by apply ikey_Compare_bytes|]. split; [done|]. split; [by apply ikey_Compare_bytes|done].
  - eexists ur', tr', _. split; [done|]. split; [done|]. split; [by apply ikey_Compare_bytes|done].
Qed.

Lemma internal_key_separators_witness :
  ∃ ur tr, ikey_FindShortestSeparator (P := posix_x86) (C := BytewiseComparator)
    (ikey_bytes [1; 2; 3; 4] 257) (ikey_bytes [1; 9] 257) = Some (ikey_bytes ur tr) ∧ (length ur ≤ 4)%nat.
Proof.
  destruct (internal_key_separators (P := posix_x86) (C := BytewiseComparator) [1; 2; 3; 4] 257
    [1; 9] 257 (-1)) as [(ur & tr & _ & _ & E & Hl & _) _].
  1-2: repeat (apply Forall_cons; split; [by split|]); by apply Forall_nil.
  1-2: by split.
  - by vm_compute.
  - done.
  - exists ur, tr. split; [exact E|exact Hl].
Defined.

(** ** Filters *)

(** C28. A lookup never skips a block that holds its key: with the Bloom
    filter of any parameters, building the filter block of a table's data
    blocks (given in order of their offsets, with fewer than 2^31 keys)
    succeeds, and if the block is under 4GB its reader, for the offset of any
    data block and any key added for it, answers that the key may match. *)
Theorem filter_block_no_false_negatives `{P : Port} bits_per_key probes blks blk key :
  0 ≤ bits_per_key < 2 ^ 31 → ascending 0 blks → Z.of_nat (total_keys blks) < 2 ^ 31 →
  blk ∈ blks → key ∈ blk.2 →
  let F := bloom_policy (NewBloomFilterPolicy bits_per_key probes) in
  ∃ contents, build (F := F) blks = Some contents ∧
    (Z.of_nat (length contents) < 2 ^ 32 →
     ∃ r, NewReader contents = Some r ∧ block_KeyMayMatch (F := F) r blk.1 key = Some true).
Proof.
  intros Hbits Ha Hn Hblk Hkey F.
  assert (FL : FilterPolicyLaws F) by (by apply bloom_laws, NewBloomFilterPolicy_ok).
  destruct (add_blocks_inv (F := F) blks NewBuilder [] [] [] 0) as (b & g & c & f & Hb & Hi & _ & Hs);
    [by split; constructor|done|done|done|].
  destruct (Finish_inv (F := F) b g c f Hi) as (g' & f' & Hf & Hg & Hslot).
  exists (fb_contents f'). unfold build. rewrite Hb. simpl_bind. split; [done|].
  intros Hlen. destruct (Hslot _ key (Hs blk key Hblk Hkey)) as (grp & Hgrp & Hin).
  eapply (reader_match (F := F) g' f' _ grp key blk.1); [done|done|done| |done].
  rewrite Z2Nat.id; [done|]. apply Z.div_pos; [|done].
  by eapply (ascending_nonneg blks 0).
Qed.

Lemma filter_block_no_false_negatives_witness :
  let F := bloom_policy (P := posix_x86) (NewBloomFilterPolicy 10 6) in
  ∃ contents, build (P := posix_x86) (F := F) [(0, [[1; 2]; [3]]); (5000, [[7]])] = Some contents ∧
    (Z.of_nat (length contents) < 2 ^ 32 →
     ∃ r, NewReader (P := posix_x86) contents = Some r ∧
       block_KeyMayMatch (P := posix_x86) (F := F) r 5000 [7] = Some true).
Proof.
  apply (filter_block_no_false_negatives (P := posix_x86) 10 6 [(0, [[1; 2]; [3]]); (5000, [[7]])]
    (5000, [[7]]) [7]).
  - done.
  - cbn. lia.
  - done.
  - apply elem_of_cons. right. by apply list_elem_of_singleton.
  - by apply list_elem_of_singleton.
Defined.
