(* ===== verification/Loc.v ===== *)
(** Tile locations: core/Loc.h.

    A [Loc] is a cell of an octree: at level [m_l] the world is split into
    [2^m_l] cells along each axis.  Coordinates are mathematical integers;
    [loc_ok] are the cells of the octree down to the levels whose coordinates
    an [int] holds, on which none of these operations overflows. *)

From Stdlib Require Import ZArith Lia.
From stdpp Require Import base option numbers list.
From S2P Require Import Prelude Coding.

Record Loc := mkLoc { m_x : Z; m_y : Z; m_z : Z; m_l : Z }.

#[export] Instance Loc_eq_dec : EqDecision Loc.
Proof. solve_decision. Defined.

Definition lsize : Z := 8.

Definition NewLoc (x y z : Z) : Loc := mkLoc x y z 8.

(** ** Octree *)

Definition GetChildren (c : Loc) : list Loc :=
  let '(mkLoc x y z l) := c in
  [ mkLoc (x * 2) (y * 2) (z * 2) (l + 1);
    mkLoc (x * 2) (y * 2) (z * 2 + 1) (l + 1);
    mkLoc (x * 2) (y * 2 + 1) (z * 2) (l + 1);
    mkLoc (x * 2) (y * 2 + 1) (z * 2 + 1) (l + 1);
    mkLoc (x * 2 + 1) (y * 2) (z * 2) (l + 1);
    mkLoc (x * 2 + 1) (y * 2) (z * 2 + 1) (l + 1);
    mkLoc (x * 2 + 1) (y * 2 + 1) (z * 2) (l + 1);
    mkLoc (x * 2 + 1) (y * 2 + 1) (z * 2 + 1) (l + 1) ].

Definition IsGroundLoc (c : Loc) : bool := m_y c =? Z.shiftl 1 (m_l c - 1).

Definition GetGroundLoc (c : Loc) : Loc := mkLoc (m_x c) (Z.shiftl 1 (m_l c - 1)) (m_z c) (m_l c).

Definition Parent (c : Loc) : Loc :=
  mkLoc (Z.shiftr (m_x c) 1) (Z.shiftr (m_y c) 1) (Z.shiftr (m_z c) 1) (m_l c - 1).

Definition ParentAtLevel (c : Loc) (l : Z) : Loc :=
  let d := m_l c - l in
  mkLoc (Z.shiftr (m_x c) d) (Z.shiftr (m_y c) d) (Z.shiftr (m_z c) d) l.

Definition GetLocal (c parent : Loc) : Loc :=
  let d := m_l c - m_l parent in
  mkLoc (m_x c - Z.shiftl (m_x parent) d) (m_y c - Z.shiftl (m_y parent) d)
        (m_z c - Z.shiftl (m_z parent) d) d.

Definition GetChild (c local : Loc) : Loc :=
  mkLoc (Z.shiftl (m_x c) (m_l local) + m_x local) (Z.shiftl (m_y c) (m_l local) + m_y local)
        (Z.shiftl (m_z c) (m_l local) + m_z local) (m_l c + m_l local).

(** ** Orders and equality *)

(** The member [operator<]. *)
Definition loc_lt_member (a b : Loc) : bool :=
  if negb (m_l a =? m_l b) then m_l a <? m_l b
  else if negb (m_x a =? m_x b) then m_x a <? m_x b
  else if negb (m_y a =? m_y b) then m_y a <? m_y b
  else m_z a <? m_z b.

Definition loc_eqb (a b : Loc) : bool :=
  if negb (m_x a =? m_x b) then false
  else if negb (m_y a =? m_y b) then false
  else if negb (m_z a =? m_z b) then false
  else if negb (m_l a =? m_l b) then false
  else true.

(** The free [operator<] on [const Loc&], the order of the [std::map]s and
    [std::set]s of tiles. *)
Definition loc_lt (lhs rhs : Loc) : bool :=
  if negb (m_y lhs =? m_y rhs) then m_y lhs <? m_y rhs
  else if negb (m_x lhs =? m_x rhs) then m_x lhs <? m_x rhs
  else if negb (m_l lhs =? m_l rhs) then m_l lhs <? m_l rhs
  else if negb (m_z lhs =? m_z rhs) then m_z lhs <? m_z rhs
  else false.

(** ** Tile numbers *)

(** [(1 << l) * (1 << l) * (1 << l)] as an [int]; overflow is undefined. *)
Definition cube (l : Z) : option Z :=
  let n := Z.shiftl 1 l * Z.shiftl 1 l * Z.shiftl 1 l in
  if (l <? 31) && (n <? 2 ^ 31) then Some n else None.

Fixpoint GetLodOffset (l : nat) : option Z :=
  match l with
  | O => Some 0
  | S l' => n ← cube (Z.of_nat l); r ← GetLodOffset l'; Some (u64 (n + r))
  end.

Definition GetTileIndex (c : Loc) : option Z :=
  o ← GetLodOffset (Z.to_nat (m_l c));
  Some (u64 (o + m_x c * Z.shiftl 1 lsize * Z.shiftl 1 lsize + m_y c * Z.shiftl 1 lsize + m_z c)).

(** The loop of [GetLocFromIndex] on [(index, l)]. *)
Fixpoint lod_loop (fuel : nat) (index l : Z) : option (Z * Z) :=
  n ← cube l;
  if n <? index then
    match fuel with
    | O => None
    | S fuel => lod_loop fuel (index - n) (l + 1)
    end
  else Some (index, l).

(** The values are small here; each assignment is to an [int] or stays a
    [uint64_t]. *)
Definition GetLocFromIndex (index : Z) : option Loc :=
  '(index, l) ← lod_loop 11 index 0;
  let x := index / (Z.shiftl 1 l * Z.shiftl 1 l) in
  let index := u64 (index - x * (Z.shiftl 1 l * Z.shiftl 1 l)) in
  let y := index / Z.shiftl 1 l in
  let index := u64 (index - Z.shiftl 1 l) in
  let z := u32 index in
  Some (mkLoc x y (if z <? 2 ^ 31 then z else z - 2 ^ 32) l).

(** ** Cells of the octree *)

Definition loc_ok (c : Loc) : Prop :=
  0 ≤ m_l c ≤ 30 ∧ 0 ≤ m_x c < 2 ^ m_l c ∧ 0 ≤ m_y c < 2 ^ m_l c ∧ 0 ≤ m_z c < 2 ^ m_l c.

(** The cells of [p] at [d] levels below it. *)
Definition below_loc (p c : Loc) : Prop :=
  m_l p ≤ m_l c ∧
  let d := m_l c - m_l p in
  m_x c / 2 ^ d = m_x p ∧ m_y c / 2 ^ d = m_y p ∧ m_z c / 2 ^ d = m_z p.

Lemma half_double x b : 0 ≤ b ≤ 1 → Z.shiftr (x * 2 + b) 1 = x.
Proof.
  intros. rewrite Z.shiftr_div_pow2 by lia. change (2 ^ 1) with 2.
  rewrite Z.add_comm, Z.div_add, Z.div_small by lia. lia.
Qed.

Lemma GetChildren_spec c k :
  k ∈ GetChildren c ↔ ∃ i j n, 0 ≤ i ≤ 1 ∧ 0 ≤ j ≤ 1 ∧ 0 ≤ n ≤ 1 ∧
    k = mkLoc (m_x c * 2 + i) (m_y c * 2 + j) (m_z c * 2 + n) (m_l c + 1).
Proof.
  destruct c as [x y z l]. cbn [GetChildren m_x m_y m_z m_l]. rewrite !elem_of_cons, elem_of_nil.
  split.
  - intros H. destruct H as [->|[->|[->|[->|[->|[->|[->|[->|[]]]]]]]]].
    + exists 0, 0, 0. rewrite !Z.add_0_r. repeat split; lia.
    + exists 0, 0, 1. rewrite !Z.add_0_r. repeat split; lia.
    + exists 0, 1, 0. rewrite !Z.add_0_r. repeat split; lia.
    + exists 0, 1, 1. rewrite !Z.add_0_r. repeat split; lia.
    + exists 1, 0, 0. rewrite !Z.add_0_r. repeat split; lia.
    + exists 1, 0, 1. rewrite !Z.add_0_r. repeat split; lia.
    + exists 1, 1, 0. rewrite !Z.add_0_r. repeat split; lia.
    + exists 1, 1, 1. repeat split; lia.
  - intros (i & j & n & Hi & Hj & Hn & ->).
    assert (Ei : i = 0 ∨ i = 1) by lia. assert (Ej : j = 0 ∨ j = 1) by lia.
    assert (En : n = 0 ∨ n = 1) by lia.
    destruct Ei as [->| ->], Ej as [->| ->], En as [->| ->]; rewrite ?Z.add_0_r; tauto.
Qed.

(** A cell is a child of [c] iff its parent is [c]. *)
Lemma Parent_GetChildren c k : k ∈ GetChildren c ↔ Parent k = c.
Proof.
  rewrite GetChildren_spec. split.
  - intros (i & j & n & Hi & Hj & Hn & ->). unfold Parent. cbn [m_x m_y m_z m_l].
    rewrite !half_double by done. destruct c. cbn. f_equal; lia.
  - intros <-. destruct k as [x y z l]. unfold Parent. cbn [m_x m_y m_z m_l].
    exists (x mod 2), (y mod 2), (z mod 2). rewrite !Z.shiftr_div_pow2 by lia. change (2 ^ 1) with 2.
    pose proof (Z.mod_pos_bound x 2). pose proof (Z.mod_pos_bound y 2).
    pose proof (Z.mod_pos_bound z 2).
    pose proof (Z.div_mod x 2). pose proof (Z.div_mod y 2). pose proof (Z.div_mod z 2).
    repeat split; try lia. f_equal; lia.
Qed.

Lemma child_ok c k : loc_ok c → m_l c < 30 → k ∈ GetChildren c → loc_ok k.
Proof.
  intros (Hl & Hx & Hy & Hz) Hlt (i & j & n & Hi & Hj & Hn & ->)%GetChildren_spec.
  unfold loc_ok. cbn [m_x m_y m_z m_l]. rewrite Z.pow_add_r by lia. change (2 ^ 1) with 2.
  repeat split; lia.
Qed.

Lemma NoDup_GetChildren c : NoDup (GetChildren c).
Proof.
  destruct c as [x y z l]. cbn [GetChildren].
  repeat (apply NoDup_cons; split; [rewrite ?not_elem_of_cons; repeat split;
    (apply not_elem_of_nil || (intros [=]; lia))|]).
  apply NoDup_nil_2.
Qed.

Lemma ParentAtLevel_below c l : 0 ≤ l ≤ m_l c → below_loc (ParentAtLevel c l) c.
Proof.
  intros Hl. unfold below_loc, ParentAtLevel. cbn [m_x m_y m_z m_l].
  rewrite !Z.shiftr_div_pow2 by lia. repeat split; lia.
Qed.

Lemma ParentAtLevel_ok c l : loc_ok c → 0 ≤ l ≤ m_l c → loc_ok (ParentAtLevel c l).
Proof.
  intros (Hl & Hx & Hy & Hz) Hll. unfold loc_ok, ParentAtLevel. cbn [m_x m_y m_z m_l].
  rewrite !Z.shiftr_div_pow2 by lia.
  assert (Hb : ∀ v, 0 ≤ v < 2 ^ m_l c → 0 ≤ v / 2 ^ (m_l c - l) < 2 ^ l).
  { intros v Hv. split; [apply Z.div_pos; [lia|apply pow2_pos; lia]|].
    apply Z.div_lt_upper_bound; [apply pow2_pos; lia|]. rewrite <-Z.pow_add_r by lia.
    replace (m_l c - l + l) with (m_l c) by lia. lia. }
  split; [lia|]. split; [by apply Hb|]. split; by apply Hb.
Qed.

(** The parent of the code is one level up. *)
Lemma Parent_AtLevel c : Parent c = ParentAtLevel c (m_l c - 1).
Proof. unfold Parent, ParentAtLevel. by replace (m_l c - (m_l c - 1)) with 1 by lia. Qed.

Lemma ParentAtLevel_compose c l1 l2 :
  0 ≤ l2 ≤ l1 → l1 ≤ m_l c → ParentAtLevel (ParentAtLevel c l1) l2 = ParentAtLevel c l2.
Proof.
  intros. unfold ParentAtLevel. cbn [m_x m_y m_z m_l].
  rewrite !Z.shiftr_shiftr by lia. by replace (m_l c - l1 + (l1 - l2)) with (m_l c - l2) by lia.
Qed.

(** [GetLocal] and [GetChild] are inverse. *)
Lemma GetChild_GetLocal c p : GetChild p (GetLocal c p) = c.
Proof. destruct c, p. unfold GetChild, GetLocal. cbn. f_equal; lia. Qed.

Lemma GetLocal_GetChild p k : GetLocal (GetChild p k) p = k.
Proof.
  destruct p, k. unfold GetChild, GetLocal. cbn [m_x m_y m_z m_l].
  match goal with |- context [?a + ?b - ?a] => replace (a + b - a) with b by lia end.
  f_equal; lia.
Qed.

Lemma GetLocal_ok p c : loc_ok c → 0 ≤ m_l p → below_loc p c → loc_ok (GetLocal c p).
Proof.
  intros (Hl & Hx & Hy & Hz) Hp (Hle & Ex & Ey & Ez). unfold loc_ok, GetLocal.
  cbn [m_x m_y m_z m_l].
  rewrite !Z.shiftl_mul_pow2 by lia. pose proof (pow2_pos (m_l c - m_l p) ltac:(lia)).
  assert (Hb : ∀ v q, v / 2 ^ (m_l c - m_l p) = q →
    0 ≤ v - q * 2 ^ (m_l c - m_l p) < 2 ^ (m_l c - m_l p)).
  { intros v q <-. pose proof (Z.div_mod v (2 ^ (m_l c - m_l p)) ltac:(lia)).
    pose proof (Z.mod_pos_bound v (2 ^ (m_l c - m_l p)) ltac:(lia)). lia. }
  split; [lia|]. split; [by apply Hb|]. split; by apply Hb.
Qed.

(** ** The order *)

Lemma loc_eqb_spec a b : loc_eqb a b = bool_decide (a = b).
Proof.
  destruct a as [x y z l], b as [x' y' z' l']. unfold loc_eqb. cbn [m_x m_y m_z m_l].
  destruct (Z.eqb_spec x x') as [->|]; [|by rewrite bool_decide_eq_false_2 by congruence].
  destruct (Z.eqb_spec y y') as [->|]; [|by rewrite bool_decide_eq_false_2 by congruence].
  destruct (Z.eqb_spec z z') as [->|]; [|by rewrite bool_decide_eq_false_2 by congruence].
  destruct (Z.eqb_spec l l') as [->|]; [|by rewrite bool_decide_eq_false_2 by congruence].
  by rewrite bool_decide_eq_true_2.
Qed.

Lemma loc_lt_irrefl a : loc_lt a a = false.
Proof. destruct a. unfold loc_lt. cbn. by rewrite !Z.eqb_refl. Qed.

(** The four keys of the order, most significant first. *)
Definition loc_key (c : Loc) : list Z := [m_y c; m_x c; m_l c; m_z c].

Fixpoint list_ltb (a b : list Z) : bool :=
  match a, b with
  | x :: a, y :: b => if x =? y then list_ltb a b else x <? y
  | _, _ => false
  end.

Lemma loc_lt_key a b : loc_lt a b = list_ltb (loc_key a) (loc_key b).
Proof.
  unfold loc_lt, loc_key. cbn [list_ltb].
  destruct (m_y a =? m_y b), (m_x a =? m_x b), (m_l a =? m_l b), (m_z a =? m_z b); done.
Qed.

Lemma list_ltb_trans a b c : list_ltb a b = true → list_ltb b c = true → list_ltb a c = true.
Proof.
  revert b c. induction a as [|x a IH]; intros [|y b] [|z c]; cbn [list_ltb]; try done.
  destruct (Z.eqb_spec x y), (Z.eqb_spec y z), (Z.eqb_spec x z); try lia; subst;
    rewrite ?Z.ltb_lt; try lia. apply IH.
Qed.

Lemma list_ltb_total a b :
  length a = length b → list_ltb a b = false → list_ltb b a = false → a = b.
Proof.
  revert b. induction a as [|x a IH]; intros [|y b]; cbn [list_ltb length]; try done.
  intros Hl. destruct (Z.eqb_spec x y), (Z.eqb_spec y x); try lia; rewrite ?Z.ltb_ge; try lia.
  intros H1 H2. subst. f_equal. apply IH; [lia|done|done].
Qed.
