(* ===== verification/Level.v ===== *)
(** The saved world: core/Level.cpp over a key-value store (KvStore.v).

    Terrain chunks, octree chunks and the camera are three maps kept in one
    store.  A chunk's key is the memory of its [Loc], four [int]s; a terrain
    chunk's key has the level negated.  [CamPos] is the memory of the struct,
    [sizeof_CamPos] bytes. *)

From Stdlib Require Import ZArith Lia.
From stdpp Require Import base option numbers list strings gmap.
From S2P Require Import Prelude Coding Slice WriteBatch DbFormat MemTable KvStore Loc.

(** An [int] in memory. *)
Definition int_bytes `{Port} (v : Z) : list Z :=
  if kLittleEndian then le_bytes 4 (u32 v) else rev (le_bytes 4 (u32 v)).

(** [Slice((const char* )&l, sizeof(l))]. *)
Definition loc_slice `{Port} (l : Loc) : list Z :=
  int_bytes (m_x l) ++ int_bytes (m_y l) ++ int_bytes (m_z l) ++ int_bytes (m_l l).

Definition terrain_key `{Port} (il : Loc) : list Z :=
  loc_slice (mkLoc (m_x il) (m_y il) (m_z il) (- m_l il)).

(** "cam" *)
Definition cam_key : list Z := [99; 97; 109].

Section level.
Context `{P : Port} {S : KvStore} (sizeof_CamPos : nat).

(** The Get functions of the level: [status.ok()] with the value, or false. *)
Definition get_ok_value (r : Status * list Z) : option (list Z) :=
  match r with (OK, v) => Some v | _ => None end.

Definition GetTerrainChunk (m_db : db) (il : Loc) : option (option (list Z)) :=
  r ← db_Get m_db (terrain_key il); Some (get_ok_value r).

Definition WriteTerrainChunk (m_db : db) (il : Loc) (val : list Z) : option (db * bool) :=
  '(d, status) ← db_Put m_db (terrain_key il) val; Some (d, bool_decide (status = OK)).

Definition GetOctChunk (m_db : db) (l : Loc) : option (option (list Z)) :=
  r ← db_Get m_db (loc_slice l); Some (get_ok_value r).

Definition WriteOctChunk (m_db : db) (l : Loc) (val : list Z) : option (db * bool) :=
  '(d, status) ← db_Put m_db (loc_slice l) val; Some (d, bool_decide (status = OK)).

Definition WriteCameraPos (m_db : db) (pos : list Z) : option (db * bool) :=
  '(d, status) ← db_Put m_db cam_key pos; Some (d, bool_decide (status = OK)).

Definition GetCameraPos (m_db : db) : option (option (list Z)) :=
  r ← db_Get m_db cam_key;
  Some (match r with
        | (OK, val) => if (length val =? sizeof_CamPos)%nat then Some val else None
        | _ => None
        end).
End level.

(** ** Keys *)

Definition is_int (v : Z) : Prop := - 2 ^ 31 ≤ v < 2 ^ 31.

Definition loc_int (l : Loc) : Prop := is_int (m_x l) ∧ is_int (m_y l) ∧ is_int (m_z l) ∧ is_int (m_l l).

Section keys.
Context `{P : Port}.

Lemma length_int_bytes v : length (int_bytes v) = 4%nat.
Proof. unfold int_bytes. destruct kLittleEndian; by rewrite ?length_rev, length_le_bytes. Qed.

Lemma int_bytes_bytes v : bytes (int_bytes v).
Proof.
  unfold int_bytes. destruct kLittleEndian; [|apply Forall_rev]; apply le_bytes_bytes.
Qed.

Lemma int_bytes_inj v w : is_int v → is_int w → int_bytes v = int_bytes w → v = w.
Proof.
  intros Hv Hw H. assert (E : le_bytes 4 (u32 v) = le_bytes 4 (u32 w)).
  { unfold int_bytes in H. destruct kLittleEndian; [done|].
    by rewrite <-(rev_involutive (le_bytes 4 (u32 v))), H, rev_involutive. }
  apply (f_equal of_le_bytes) in E. rewrite !of_le_bytes_le_bytes in E.
  change (8 * Z.of_nat 4) with 32 in E. fold (u32 (u32 v)) (u32 (u32 w)) in E.
  rewrite !wrap_idemp in E by lia. unfold wrap, is_int in *.
  change (2 ^ 31) with 2147483648 in *. change (2 ^ 32) with 4294967296 in E.
  pose proof (Z.div_mod v 4294967296). pose proof (Z.div_mod w 4294967296). lia.
Qed.

Lemma app_inj_4 (a b c d : list Z) :
  length a = 4%nat → length b = 4%nat → a ++ c = b ++ d → a = b ∧ c = d.
Proof. intros Ha Hb H. apply app_inj_1 in H; [done|lia]. Qed.

Lemma loc_slice_inj l k : loc_int l → loc_int k → loc_slice l = loc_slice k → l = k.
Proof.
  intros (Hx & Hy & Hz & Hl) (Hx' & Hy' & Hz' & Hl'). unfold loc_slice. intros H.
  apply app_inj_4 in H as [E1 H]; [|apply length_int_bytes..].
  apply app_inj_4 in H as [E2 H]; [|apply length_int_bytes..].
  apply app_inj_4 in H as [E3 E4]; [|apply length_int_bytes..].
  apply int_bytes_inj in E1, E2, E3, E4; try done. destruct l, k; cbn in *; by subst.
Qed.

Lemma length_loc_slice l : length (loc_slice l) = 16%nat.
Proof. unfold loc_slice. rewrite !length_app, !length_int_bytes. done. Qed.

Lemma loc_slice_ok l : key_ok (loc_slice l).
Proof.
  split; [|by rewrite length_loc_slice].
  unfold loc_slice. repeat (apply Forall_app; split); apply int_bytes_bytes.
Qed.

Lemma cam_key_ok : key_ok cam_key.
Proof. split; [|done]. repeat (constructor; [by split|]). constructor. Qed.

(** Locations whose level says which kind of chunk a key is for. *)
Definition stored_loc (l : Loc) : Prop := loc_int l ∧ 0 < m_l l.

Lemma neg_loc_int l :
  stored_loc l → loc_int (mkLoc (m_x l) (m_y l) (m_z l) (- m_l l)).
Proof. intros [(Hx & Hy & Hz & Hl) Hp]. unfold loc_int, is_int in *. cbn. lia. Qed.

Lemma terrain_key_inj l k : stored_loc l → stored_loc k → terrain_key l = terrain_key k → l = k.
Proof.
  intros Hl Hk H. apply loc_slice_inj in H; [|by apply neg_loc_int..].
  destruct l, k; injection H as -> -> -> E; f_equal; lia.
Qed.

Lemma terrain_oct_ne l k : stored_loc l → stored_loc k → terrain_key l ≠ loc_slice k.
Proof.
  intros Hl Hk H. apply loc_slice_inj in H; [|by apply neg_loc_int|apply Hk].
  destruct Hl as [_ Hl], Hk as [_ Hk]. destruct l, k; injection H as -> -> -> E. cbn in *. lia.
Qed.

Lemma cam_key_ne l : cam_key ≠ loc_slice l.
Proof. intros H. apply (f_equal length) in H. by rewrite length_loc_slice in H. Qed.
End keys.

(** ** The level is three maps *)

Record saved := mkSaved {
  terrain : Loc → option (list Z);
  oct : Loc → option (list Z);
  camera : option (list Z)
}.

Definition upd (f : Loc → option (list Z)) (l : Loc) (v : list Z) : Loc → option (list Z) :=
  λ k, if decide (k = l) then Some v else f k.

Section refine.
Context `{P : Port} {S : KvStore} {L : KvLaws S}.

Definition level_rep (d : db) (A : saved) : Prop :=
  ∃ M, db_rep d M ∧
    (∀ l, stored_loc l → M !! terrain_key l = terrain A l) ∧
    (∀ l, stored_loc l → M !! loc_slice l = oct A l) ∧
    M !! cam_key = camera A.

Lemma store_get d M key :
  db_rep d M → key_ok key → ∃ r, db_Get d key = Some r ∧ get_ok_value r = M !! key.
Proof.
  intros Hd Hk. pose proof (rep_Get d M key Hd Hk) as H. destruct (M !! key) as [v|].
  - exists (OK, v). done.
  - destruct H as (s & -> & Hs). exists (s, []). split; [done|]. by destruct s.
Qed.

Lemma get_terrain d A l :
  level_rep d A → stored_loc l → GetTerrainChunk d l = Some (terrain A l).
Proof.
  intros (M & Hd & Ht & _ & _) Hl. unfold GetTerrainChunk.
  destruct (store_get d M (terrain_key l) Hd (loc_slice_ok _)) as (r & -> & Hr).
  simpl_bind. by rewrite Hr, Ht.
Qed.

Lemma get_oct d A l : level_rep d A → stored_loc l → GetOctChunk d l = Some (oct A l).
Proof.
  intros (M & Hd & _ & Ho & _) Hl. unfold GetOctChunk.
  destruct (store_get d M (loc_slice l) Hd (loc_slice_ok _)) as (r & -> & Hr).
  simpl_bind. by rewrite Hr, Ho.
Qed.

Lemma get_camera d A n :
  level_rep d A →
  GetCameraPos n d = Some (v ← camera A; if (length v =? n)%nat then Some v else None).
Proof.
  intros (M & Hd & _ & _ & Hc). unfold GetCameraPos.
  destruct (store_get d M cam_key Hd cam_key_ok) as ([s v] & -> & Hr).
  simpl_bind. rewrite <-Hc, <-Hr. by destruct s.
Qed.

Lemma write_terrain d A l v :
  level_rep d A → db_room d → stored_loc l → str_ok v →
  ∃ d', WriteTerrainChunk d l v = Some (d', true) ∧
    level_rep d' (mkSaved (upd (terrain A) l v) (oct A) (camera A)).
Proof.
  intros (M & Hd & Ht & Ho & Hc) Hroom Hl Hv. unfold WriteTerrainChunk.
  destruct (rep_Put d M (terrain_key l) v Hd Hroom (loc_slice_ok _) Hv) as (d' & -> & Hd').
  simpl_bind. exists d'. split; [done|]. exists (<[terrain_key l := v]> M).
  split; [done|]. cbn [terrain oct camera]. split; [|split].
  - intros k Hk. unfold upd. case_decide as E; [subst; by rewrite lookup_insert_eq|].
    rewrite lookup_insert_ne; [by apply Ht|]. intros Hkk%terrain_key_inj; done.
  - intros k Hk. rewrite lookup_insert_ne; [by apply Ho|]. by apply terrain_oct_ne.
  - rewrite lookup_insert_ne; [done|]. intros H. by apply (cam_key_ne (mkLoc (m_x l) (m_y l) (m_z l) (- m_l l))).
Qed.

Lemma write_oct d A l v :
  level_rep d A → db_room d → stored_loc l → str_ok v →
  ∃ d', WriteOctChunk d l v = Some (d', true) ∧
    level_rep d' (mkSaved (terrain A) (upd (oct A) l v) (camera A)).
Proof.
  intros (M & Hd & Ht & Ho & Hc) Hroom Hl Hv. unfold WriteOctChunk.
  destruct (rep_Put d M (loc_slice l) v Hd Hroom (loc_slice_ok _) Hv) as (d' & -> & Hd').
  simpl_bind. exists d'. split; [done|]. exists (<[loc_slice l := v]> M).
  split; [done|]. cbn [terrain oct camera]. split; [|split].
  - intros k Hk. rewrite lookup_insert_ne; [by apply Ht|]. intros H. by apply (terrain_oct_ne k l).
  - intros k Hk. unfold upd. case_decide as E; [subst; by rewrite lookup_insert_eq|].
    rewrite lookup_insert_ne; [by apply Ho|]. destruct Hl, Hk. intros Hkk%loc_slice_inj; done.
  - rewrite lookup_insert_ne; [done|]. intros H. by apply (cam_key_ne l).
Qed.

Lemma write_camera d A v :
  level_rep d A → db_room d → str_ok v →
  ∃ d', WriteCameraPos d v = Some (d', true) ∧
    level_rep d' (mkSaved (terrain A) (oct A) (Some v)).
Proof.
  intros (M & Hd & Ht & Ho & Hc) Hroom Hv. unfold WriteCameraPos.
  destruct (rep_Put d M cam_key v Hd Hroom cam_key_ok Hv) as (d' & -> & Hd').
  simpl_bind. exists d'. split; [done|]. exists (<[cam_key := v]> M).
  split; [done|]. cbn [terrain oct camera]. split; [|split].
  - intros k Hk. rewrite lookup_insert_ne; [by apply Ht|]. apply cam_key_ne.
  - intros k Hk. rewrite lookup_insert_ne; [by apply Ho|]. apply cam_key_ne.
  - by rewrite lookup_insert_eq.
Qed.
End refine.
