(* ===== verification/OctTile.v ===== *)
(** The voxels of a tile: core/OctTile.cpp, with the sizes of
    core/TerrainTile.h.

    A tile's voxels are [SquarePtsCt]^3 bytes, stored run-length encoded.
    [None] is a read or a write outside a vector, or a loop that does not end
    within its fuel. *)

From Stdlib Require Import ZArith Lia.
From stdpp Require Import base option numbers list.
From S2P Require Import Prelude.

Definition SquarePtsCt : Z := 256.
Definition OverlapPtsCt : Z := SquarePtsCt / 4.
Definition TotalPtsCt : Z := SquarePtsCt + OverlapPtsCt * 2.

(** ** Run-length encoding *)

(** The bytes pushed for a run. *)
Definition push_run (outrle : list Z) (cnt curval : Z) : list Z :=
  (if cnt <? 128 then outrle ++ [u8 cnt]
   else
     let b1 := u8 (Z.shiftr cnt 8) in
     let b2 := u8 (Z.land cnt 255) in
     let b1 := Z.lor b1 128 in
     outrle ++ [b1; b2]) ++ [curval].

(** The body of [for (byte v : data)] on [(outrle, curval, cnt)]. *)
Definition rle_step (s : list Z * Z * Z) (v : Z) : list Z * Z * Z :=
  let '(outrle, curval, cnt) := s in
  if negb (v =? curval) || (cnt =? 32767)
  then (push_run outrle cnt curval, v, 1)
  else (outrle, curval, cnt + 1).

(** [data[0]] of an empty vector is outside it. *)
Definition RleEncode (data : list Z) : option (list Z) :=
  curval ← data.[0];
  let '(outrle, curval, cnt) := foldl rle_step ([], curval, 0) data in
  Some (if 0 <? cnt then push_run outrle cnt curval else outrle).

(** [memset(outdata.data() + offset, v, n)]. *)
Definition memset_at (outdata : list Z) (offset v n : Z) : option (list Z) :=
  if offset + n <=? Z.of_nat (length outdata)
  then Some (take (Z.to_nat offset) outdata ++ replicate (Z.to_nat n) v
               ++ drop (Z.to_nat (offset + n)) outdata)
  else None.

(** The loop over [data], each iteration taking two or three bytes. *)
Fixpoint rle_decode_loop (data outdata : list Z) (offset : Z) : option (list Z) :=
  match data with
  | [] => Some outdata
  | cnt0 :: data =>
      if cnt0 <? 128 then
        match data with
        | v :: data =>
            outdata ← memset_at outdata offset v cnt0;
            rle_decode_loop data outdata (offset + cnt0)
        | [] => None
        end
      else
        match data with
        | cnt1 :: v :: data =>
            let size := Z.lor (Z.shiftl (Z.land cnt0 127) 8) cnt1 in
            outdata ← memset_at outdata offset v size;
            rle_decode_loop data outdata (offset + size)
        | _ => None
        end
  end.

Definition RleDecode (data : list Z) : option (list Z) :=
  rle_decode_loop data (replicate (Z.to_nat (SquarePtsCt * SquarePtsCt * SquarePtsCt)) 0) 0.

(** ** The points drawn: [LoadVB] up to the creation of the vertex buffer *)

Definition voxel_of (v : Z) : Z * Z * Z :=
  let tsz := SquarePtsCt in
  let y := v / (tsz * tsz) in
  let v := v - y * tsz * tsz in
  let z := v / tsz in
  let x := v - z * tsz in
  (x, y, z).

(** [for (byte idx = 0; idx < size; ++idx)]: the index is a byte. *)
Fixpoint push_points (fuel : nat) (offset size idx : Z) (octPts : list (Z * Z * Z))
  : option (list (Z * Z * Z)) :=
  if idx <? size then
    match fuel with
    | O => None
    | S fuel => push_points fuel offset size (u8 (idx + 1)) (octPts ++ [voxel_of (offset + idx)])
    end
  else Some octPts.

Fixpoint load_vb_loop (fuel : nat) (rle : list Z) (offset : Z) (octPts : list (Z * Z * Z))
  : option (list (Z * Z * Z)) :=
  match rle with
  | [] => Some octPts
  | cnt0 :: rle =>
      if cnt0 <? 128 then
        match rle with
        | v :: rle =>
            octPts ← (if v =? 1 then push_points fuel offset cnt0 0 octPts else Some octPts);
            load_vb_loop fuel rle (offset + cnt0) octPts
        | [] => None
        end
      else
        match rle with
        | cnt1 :: v :: rle =>
            let size := Z.lor (Z.shiftl (Z.land cnt0 127) 8) cnt1 in
            octPts ← (if v =? 1 then push_points fuel offset size 0 octPts else Some octPts);
            load_vb_loop fuel rle (offset + size) octPts
        | _ => None
        end
  end.

Definition LoadVB_points (fuel : nat) (m_rledata : list Z) : option (list (Z * Z * Z)) :=
  load_vb_loop fuel m_rledata 0 [].

(** ** Ray casting *)

(** [R(x)]: clamped to the tile. *)
Definition R (x : Z) : Z := Z.max 0 (Z.min (SquarePtsCt - 1) x).

(** [data[y * tsz * tsz + z * tsz + x]], for [0 <= x < tsz] and so on. *)
Definition voxel (data : list Z) (x y z : Z) : option Z :=
  data.[y * SquarePtsCt * SquarePtsCt + z * SquarePtsCt + x].

(** Walking along the driving axis: the coordinate [a] goes to [a2] one step
    at a time, [b] and [c] follow with their error terms.  [at_] puts the
    coordinates back in the order x, y, z. *)
Fixpoint hit_walk (fuel : nat) (data : list Z) (at_ : Z → Z → Z → Z * Z * Z)
    (a a2 sa da b sb db c sc dc p1 p2 : Z) : option (Z * Z * Z) :=
  if a =? a2 then Some (-1, -1, -1)
  else
    match fuel with
    | O => None
    | S fuel =>
        let a := a + sa in
        let '(b, p1) := if 0 <=? p1 then (b + sb, p1 - 2 * da) else (b, p1) in
        let '(c, p2) := if 0 <=? p2 then (c + sc, p2 - 2 * da) else (c, p2) in
        let p1 := p1 + 2 * db in
        let p2 := p2 + 2 * dc in
        let '(x, y, z) := at_ a b c in
        v ← voxel data x y z;
        if 0 <? v then Some (x, y, z)
        else hit_walk fuel data at_ a a2 sa da b sb db c sc dc p1 p2
    end.

Definition dir (a1 a2 : Z) : Z := if a1 <? a2 then 1 else -1.

Definition hit_fuel : nat := 255.

Definition FindHit (data : list Z) (pt1 pt2 : Z * Z * Z) : option (Z * Z * Z) :=
  let '(px, py, pz) := pt1 in
  let '(qx, qy, qz) := pt2 in
  let x1 := R px in let y1 := R py in let z1 := R pz in
  let x2 := R qx in let y2 := R qy in let z2 := R qz in
  v ← voxel data x1 y1 z1;
  if 0 <? v then Some (x1, y1, z1)
  else
    let dx := Z.abs (x2 - x1) in
    let dy := Z.abs (y2 - y1) in
    let dz := Z.abs (z2 - z1) in
    let xs := dir x1 x2 in let ys := dir y1 y2 in let zs := dir z1 z2 in
    if (dy <=? dx) && (dz <=? dx) then
      hit_walk hit_fuel data (λ a b c, (a, b, c))
        x1 x2 xs dx y1 ys dy z1 zs dz (2 * dy - dx) (2 * dz - dx)
    else if (dx <=? dy) && (dz <=? dy) then
      hit_walk hit_fuel data (λ a b c, (b, a, c))
        y1 y2 ys dy x1 xs dx z1 zs dz (2 * dx - dy) (2 * dz - dy)
    else
      hit_walk hit_fuel data (λ a b c, (c, b, a))
        z1 z2 zs dz y1 ys dy x1 xs dx (2 * dy - dz) (2 * dx - dz).

(** The end of [Intersect], from the clamped integer points on; an empty tile
    is never hit. *)
Definition Intersect_voxels (m_rledata : list Z) (c0 c1 : Z * Z * Z) : option bool :=
  if bool_decide (m_rledata = []) then Some false
  else
    rawdata ← RleDecode m_rledata;
    '(hx, _, _) ← FindHit rawdata c0 c1;
    Some (0 <? hx).

(** The scan of [GetGroundPos] down a column: the height of the first voxel
    that is set. *)
Fixpoint ground_scan (n : nat) (data : list Z) (x z : Z) : option (option Z) :=
  match n with
  | O => Some None
  | S n =>
      let y := Z.of_nat n in
      v ← voxel data x y z;
      if 0 <? v then Some (Some y) else ground_scan n data x z
  end.

(** [GetGroundPos] from the integer column on; [None] inside is [NAN]. *)
Definition GetGroundPos_voxel (m_rledata : list Z) (x z : Z) : option (option Z) :=
  if bool_decide (m_rledata = []) then Some None
  else
    let x := Z.min (SquarePtsCt - 1) (Z.max 0 x) in
    let z := Z.min (SquarePtsCt - 1) (Z.max 0 z) in
    data ← RleDecode m_rledata;
    ground_scan (Z.to_nat SquarePtsCt) data x z.

(** ** Run-length encoding and its inverse *)

Definition run_ok (r : Z * Z) : Prop := 1 ≤ r.1 ≤ 32767.

Definition enc_run (r : Z * Z) : list Z :=
  (if r.1 <? 128 then [r.1] else [128 + r.1 / 256; r.1 mod 256]) ++ [r.2].

Definition dec_runs (runs : list (Z * Z)) : list Z :=
  runs ≫= λ r, replicate (Z.to_nat r.1) r.2.

Lemma push_run_enc outrle cnt v :
  1 ≤ cnt ≤ 32767 → push_run outrle cnt v = outrle ++ enc_run (cnt, v).
Proof.
  intros Hc. unfold push_run, enc_run. cbn [fst snd]. destruct (Z.ltb_spec cnt 128).
  - rewrite wrap_small by (unfold in_width; change (2 ^ 8) with 256; lia). by rewrite <-app_assoc.
  - assert (Hd : 0 ≤ cnt / 256 < 128)
      by (split; [apply Z.div_pos; lia|apply Z.div_lt_upper_bound; lia]).
    change 255 with (Z.ones 8). rewrite Z.land_ones, Z.shiftr_div_pow2 by lia.
    change (2 ^ 8) with 256. rewrite (wrap_small 8 (cnt / 256)) by (unfold in_width; cbn; lia).
    pose proof (Z.mod_pos_bound cnt 256).
    rewrite (wrap_small 8 (cnt mod 256)) by (unfold in_width; cbn; lia).
    change 128 with (Z.shiftl 1 7) at 1. rewrite lor_shiftl_add; [|lia|unfold in_width; cbn; lia].
    change (1 * 2 ^ 7) with 128. rewrite <-app_assoc. do 3 f_equal. lia.
Qed.

Lemma dec_runs_app a b : dec_runs (a ++ b) = dec_runs a ++ dec_runs b.
Proof. apply bind_app. Qed.

(** What the encoder has written so far, with the run it is in. *)
Definition rle_inv (s : list Z * Z * Z) (done : list Z) : Prop :=
  ∃ runs, Forall run_ok runs ∧ s.1.1 = (runs ≫= enc_run) ∧ 0 ≤ s.2 ≤ 32767 ∧
    done = dec_runs runs ++ replicate (Z.to_nat s.2) s.1.2 ∧ (s.2 = 0 → runs = []).

Lemma rle_step_inv s done v :
  rle_inv s done → (s.2 = 0 → v = s.1.2) → rle_inv (rle_step s v) (done ++ [v]).
Proof.
  destruct s as [[out cur] cnt]. intros (runs & Hok & Hout & Hc & -> & H0) Hv.
  cbn [fst snd] in *. unfold rle_step.
  destruct (negb (v =? cur) || (cnt =? 32767)) eqn:E.
  - assert (Hpos : 1 ≤ cnt).
    { destruct (decide (cnt = 0)) as [->|]; [|lia]. rewrite (Hv eq_refl), Z.eqb_refl in E. done. }
    exists (runs ++ [(cnt, cur)]). cbn [fst snd]. split.
    { apply Forall_app. split; [done|]. apply Forall_singleton. unfold run_ok. cbn. lia. }
    rewrite push_run_enc, bind_app, dec_runs_app by lia. cbn [mbind list_bind].
    rewrite app_nil_r, Hout. split; [done|]. split; [lia|]. split; [|lia].
    unfold dec_runs at 3. cbn. rewrite app_nil_r. done.
  - apply orb_false_iff in E as [Ev Ec]. apply negb_false_iff, Z.eqb_eq in Ev as ->.
    apply Z.eqb_neq in Ec. exists runs. cbn [fst snd]. split; [done|]. split; [done|].
    split; [lia|]. split; [|lia]. rewrite Z2Nat.inj_add by lia.
    rewrite replicate_add. cbn. by rewrite app_assoc.
Qed.

Lemma rle_fold_inv data s done :
  rle_inv s done → (s.2 = 0 → head data = Some s.1.2 ∨ data = []) →
  rle_inv (foldl rle_step s data) (done ++ data).
Proof.
  revert s done. induction data as [|v data IH]; intros s done Hs Hh; [by rewrite app_nil_r|].
  cbn [foldl]. replace (done ++ v :: data) with ((done ++ [v]) ++ data) by (by rewrite <-app_assoc).
  apply IH.
  - apply rle_step_inv; [done|]. intros H0. destruct (Hh H0) as [[= ->]|]; done.
  - intros H0. exfalso. destruct s as [[out cur] cnt]. destruct Hs as (? & _ & _ & Hc & _).
    unfold rle_step in H0. cbn [fst snd] in *.
    destruct (negb (v =? cur) || (cnt =? 32767)); cbn in H0; lia.
Qed.

(** The encoding is a list of runs that spells the data. *)
Lemma RleEncode_runs data :
  data ≠ [] → ∃ runs, RleEncode data = Some (runs ≫= enc_run) ∧ Forall run_ok runs ∧
    dec_runs runs = data.
Proof.
  intros Hne. destruct data as [|c data]; [done|]. unfold RleEncode.
  change ((c :: data).[0]) with (Some c). simpl_bind.
  assert (H0 : rle_inv ([], c, 0) []).
  { exists []. cbn. repeat split; try done; lia. }
  pose proof (rle_fold_inv (c :: data) _ _ H0 ltac:(by left)) as Hr. cbn [app] in Hr.
  destruct (foldl rle_step ([], c, 0) (c :: data)) as [[out cur] cnt].
  destruct Hr as (runs & Hok & Hout & Hc & Hd & Hz). cbn [fst snd] in *.
  destruct (Z.ltb_spec 0 cnt).
  - exists (runs ++ [(cnt, cur)]). rewrite push_run_enc, bind_app, dec_runs_app by lia.
    cbn [mbind list_bind]. rewrite app_nil_r, Hout. split; [done|]. split.
    + apply Forall_app. split; [done|]. apply Forall_singleton. unfold run_ok. cbn. lia.
    + rewrite Hd. f_equal. unfold dec_runs. cbn. by rewrite app_nil_r.
  - exists runs. split; [by rewrite Hout|]. split; [done|].
    replace cnt with 0 in Hd by lia. by rewrite app_nil_r in Hd.
Qed.

Lemma memset_at_app pre post v n :
  0 ≤ n → n ≤ Z.of_nat (length post) →
  memset_at (pre ++ post) (Z.of_nat (length pre)) v n
  = Some ((pre ++ replicate (Z.to_nat n) v) ++ drop (Z.to_nat n) post).
Proof.
  intros Hn Hl. unfold memset_at. rewrite length_app, (proj2 (Z.leb_le _ _)) by lia.
  rewrite Nat2Z.id, take_app_length, Z2Nat.inj_add, Nat2Z.id by lia.
  rewrite <-drop_drop, drop_app_length, <-app_assoc. done.
Qed.

(** Reading the count of a run back. *)
Lemma run_size cnt : 128 ≤ cnt ≤ 32767 →
  128 ≤ 128 + cnt / 256 ∧
  Z.lor (Z.shiftl (Z.land (128 + cnt / 256) 127) 8) (cnt mod 256) = cnt.
Proof.
  intros Hc. assert (Hd : 0 ≤ cnt / 256 < 128)
    by (split; [apply Z.div_pos; lia|apply Z.div_lt_upper_bound; lia]).
  split; [lia|]. change 127 with (Z.ones 7). rewrite Z.land_ones by lia.
  replace (128 + cnt / 256) with (cnt / 256 + 1 * 2 ^ 7) by (change (2 ^ 7) with 128; lia).
  rewrite Z_mod_plus_full, Z.mod_small by done.
  rewrite Z.lor_comm, lor_shiftl_add; [|lia|apply Z.mod_pos_bound; lia].
  change (2 ^ 8) with 256. pose proof (Z.div_mod cnt 256). lia.
Qed.

Lemma dec_runs_cons cnt v runs :
  dec_runs ((cnt, v) :: runs) = replicate (Z.to_nat cnt) v ++ dec_runs runs.
Proof. done. Qed.

Lemma rle_decode_runs runs pre post :
  Forall run_ok runs → (length (dec_runs runs) ≤ length post)%nat →
  rle_decode_loop (runs ≫= enc_run) (pre ++ post) (Z.of_nat (length pre))
  = Some (pre ++ dec_runs runs ++ drop (length (dec_runs runs)) post).
Proof.
  intros Hok. revert pre post. induction Hok as [|[cnt v] runs Hr Hok IH]; intros pre post Hl.
  { done. }
  rewrite dec_runs_cons, length_app, length_replicate in Hl |- *.
  unfold run_ok in Hr. cbn [fst] in Hr.
  assert (Hstep : (outdata ← memset_at (pre ++ post) (Z.of_nat (length pre)) v cnt;
      rle_decode_loop (runs ≫= enc_run) outdata (Z.of_nat (length pre) + cnt))
    = Some (pre ++ (replicate (Z.to_nat cnt) v ++ dec_runs runs)
            ++ drop (Z.to_nat cnt + length (dec_runs runs)) post)).
  { rewrite memset_at_app by lia. simpl_bind.
    replace (Z.of_nat (length pre) + cnt) with (Z.of_nat (length (pre ++ replicate (Z.to_nat cnt) v)))
      by (rewrite length_app, length_replicate; lia).
    rewrite IH by (rewrite length_drop; lia). rewrite drop_drop, <-!app_assoc. done. }
  cbn [mbind list_bind]. unfold enc_run at 1. cbn [fst snd].
  destruct (Z.ltb_spec cnt 128) as [Hlt|Hge]; cbn [app rle_decode_loop].
  - rewrite (proj2 (Z.ltb_lt cnt 128)) by done. exact Hstep.
  - destruct (run_size cnt ltac:(lia)) as [H1 H2]. rewrite (proj2 (Z.ltb_ge _ 128)) by done.
    rewrite H2. exact Hstep.
Qed.

Lemma dec_runs_nil_iff runs : Forall run_ok runs → dec_runs runs = [] → runs = [].
Proof.
  intros Hok H. destruct Hok as [|[cnt v] runs Hr _]; [done|]. unfold run_ok in Hr. cbn in Hr.
  rewrite dec_runs_cons in H. destruct (Z.to_nat cnt) eqn:E; [lia|done].
Qed.

(** ** The points of a tile *)

(** The positions of the voxels that are 1, from offset [o] on. *)
Fixpoint ones (o : Z) (data : list Z) : list (Z * Z * Z) :=
  match data with
  | [] => []
  | v :: data => (if v =? 1 then [voxel_of o] else []) ++ ones (o + 1) data
  end.

Lemma ones_app o a b : ones o (a ++ b) = ones o a ++ ones (o + Z.of_nat (length a)) b.
Proof.
  revert o. induction a as [|v a IH]; intros o; cbn [app ones length].
  - by rewrite Z.add_0_r.
  - rewrite IH, <-app_assoc. do 3 f_equal. lia.
Qed.

Lemma push_points_byte fuel offset size idx pts :
  0 ≤ idx ≤ size → size ≤ 255 → (Z.to_nat (size - idx) ≤ fuel)%nat →
  push_points fuel offset size idx pts
  = Some (pts ++ ones (offset + idx) (replicate (Z.to_nat (size - idx)) 1)).
Proof.
  revert idx pts. induction fuel as [|fuel IH]; intros idx pts Hi Hs Hf; cbn [push_points].
  - destruct (Z.ltb_spec idx size); [lia|]. replace (Z.to_nat (size - idx)) with 0%nat by lia.
    cbn. by rewrite app_nil_r.
  - destruct (Z.ltb_spec idx size) as [Hlt|Hge].
    + rewrite wrap_small by (unfold in_width; change (2 ^ 8) with 256; lia).
      rewrite IH by lia.
      replace (Z.to_nat (size - idx)) with (S (Z.to_nat (size - (idx + 1)))) by lia.
      cbn [replicate ones]. change (1 =? 1) with true.
      replace (offset + (idx + 1)) with (offset + idx + 1) by lia. by rewrite <-app_assoc.
    + replace (Z.to_nat (size - idx)) with 0%nat by lia. cbn. by rewrite app_nil_r.
Qed.

(** A byte never reaches 256: the loop over a longer run does not end. *)
Lemma push_points_forever fuel offset size idx pts :
  256 ≤ size → 0 ≤ idx < 256 → push_points fuel offset size idx pts = None.
Proof.
  revert idx pts. induction fuel as [|fuel IH]; intros idx pts Hs Hi; cbn [push_points];
    rewrite (proj2 (Z.ltb_lt idx size)) by lia; [done|].
  apply IH; [done|]. apply (wrap_range 8). lia.
Qed.

Lemma ones_zero o n v : v ≠ 1 → ones o (replicate n v) = [].
Proof.
  intros Hv. revert o. induction n as [|n IH]; intros o; [done|]. cbn [replicate ones].
  by rewrite (proj2 (Z.eqb_neq v 1)), IH.
Qed.

Definition run_drawable (r : Z * Z) : Prop := r.2 = 1 → r.1 ≤ 255.

Lemma load_vb_runs runs fuel offset pts :
  Forall run_ok runs → Forall run_drawable runs → (255 ≤ fuel)%nat →
  load_vb_loop fuel (runs ≫= enc_run) offset pts = Some (pts ++ ones offset (dec_runs runs)).
Proof.
  intros Hok Hd Hf. revert offset pts Hd.
  induction Hok as [|[cnt v] runs Hr Hok IH]; intros offset pts Hd.
  { cbn. by rewrite app_nil_r. }
  apply Forall_cons in Hd as [Hdr Hd]. unfold run_ok, run_drawable in *. cbn [fst snd] in *.
  rewrite dec_runs_cons, ones_app, length_replicate, Z2Nat.id by lia.
  assert (Hstep : (octPts ← (if v =? 1 then push_points fuel offset cnt 0 pts else Some pts);
      load_vb_loop fuel (runs ≫= enc_run) (offset + cnt) octPts)
    = Some (pts ++ ones offset (replicate (Z.to_nat cnt) v) ++ ones (offset + cnt) (dec_runs runs))).
  { destruct (Z.eqb_spec v 1) as [->|Hv].
    - specialize (Hdr eq_refl). rewrite push_points_byte by lia. simpl_bind.
      rewrite IH by done. rewrite Z.add_0_r, Z.sub_0_r, <-app_assoc. done.
    - simpl_bind. rewrite IH by done. by rewrite ones_zero by done. }
  cbn [mbind list_bind]. unfold enc_run at 1. cbn [fst snd].
  destruct (Z.ltb_spec cnt 128) as [Hlt|Hge]; cbn [app load_vb_loop].
  - rewrite (proj2 (Z.ltb_lt cnt 128)) by done. exact Hstep.
  - destruct (run_size cnt ltac:(lia)) as [H1 H2]. rewrite (proj2 (Z.ltb_ge _ 128)) by done.
    rewrite H2. exact Hstep.
Qed.

Lemma load_vb_long_run runs cnt rest fuel offset pts :
  Forall run_ok runs → 256 ≤ cnt ≤ 32767 →
  Forall run_drawable runs →
  load_vb_loop fuel ((runs ≫= enc_run) ++ enc_run (cnt, 1) ++ rest) offset pts = None.
Proof.
  intros Hok Hc. revert offset pts.
  induction Hok as [|[c v] runs Hr Hok IH]; intros offset pts Hd.
  - cbn [mbind list_bind app]. unfold enc_run. cbn [fst snd].
    rewrite (proj2 (Z.ltb_ge cnt 128)) by lia. cbn [app load_vb_loop].
    destruct (run_size cnt ltac:(lia)) as [H1 H2]. rewrite (proj2 (Z.ltb_ge _ 128)) by done.
    rewrite H2. change (1 =? 1) with true. cbv iota.
    by rewrite push_points_forever by lia.
  - apply Forall_cons in Hd as [Hdr Hd]. unfold run_ok in Hr. cbn [fst] in Hr.
    assert (Hstep : (octPts ← (if v =? 1 then push_points fuel offset c 0 pts else Some pts);
      load_vb_loop fuel ((runs ≫= enc_run) ++ enc_run (cnt, 1) ++ rest) (offset + c) octPts) = None).
    { destruct (if v =? 1 then _ else _); [|done]. simpl_bind. by apply IH. }
    cbn [mbind list_bind]. unfold enc_run at 1. cbn [fst snd]. rewrite <-app_assoc.
    destruct (Z.ltb_spec c 128) as [Hlt|Hge]; cbn [app load_vb_loop].
    + rewrite (proj2 (Z.ltb_lt c 128)) by done. exact Hstep.
    + destruct (run_size c ltac:(lia)) as [H1 H2]. rewrite (proj2 (Z.ltb_ge _ 128)) by done.
      rewrite H2. exact Hstep.
Qed.

(** Casting a ray through a tile: the walk of [OctTile::FindHit]
    (OctTile.v) visits the points of the digital line between its end points,
    and returns the first one that is set. *)

Definition in_tile (x : Z) : Prop := 0 ≤ x < SquarePtsCt.

Definition tile_data (data : list Z) : Prop :=
  Z.of_nat (length data) = SquarePtsCt * SquarePtsCt * SquarePtsCt.

Definition in_tile3 (p : Z * Z * Z) : Prop := in_tile p.1.1 ∧ in_tile p.1.2 ∧ in_tile p.2.

Definition voxel3 (data : list Z) (p : Z * Z * Z) : option Z := voxel data p.1.1 p.1.2 p.2.

Definition solid (data : list Z) (p : Z * Z * Z) : Prop :=
  in_tile3 p ∧ ∃ v, voxel3 data p = Some v ∧ 0 < v.

Definition clear (data : list Z) (p : Z * Z * Z) : Prop :=
  in_tile3 p ∧ ∃ v, voxel3 data p = Some v ∧ v ≤ 0.

Definition miss : Z * Z * Z := (-1, -1, -1).

Definition is_solid (data : list Z) (p : Z * Z * Z) : bool :=
  match voxel3 data p with Some v => 0 <? v | None => false end.

(** The first point that is solid, or the miss. *)
Definition first_solid (data : list Z) (path : list (Z * Z * Z)) : Z * Z * Z :=
  default miss (head (filter (is_solid data) path)).

(** ** The digital line

    With [d] the longest of the three distances, the line from [p] to [q] has
    the points [p + i/d * (q - p)] for [i] from 0 to [d], each coordinate
    rounded to the nearest integer. *)

Definition rounded (d delta i : Z) : Z := (2 * delta * i + d) / (2 * d).

Definition line_coord (d a1 a2 i : Z) : Z := a1 + rounded d (Z.abs (a2 - a1)) i * dir a1 a2.

Definition line_length (p q : Z * Z * Z) : Z :=
  Z.abs (q.1.1 - p.1.1) `max` (Z.abs (q.1.2 - p.1.2) `max` Z.abs (q.2 - p.2)).

Definition line_point (p q : Z * Z * Z) (i : Z) : Z * Z * Z :=
  let d := line_length p q in
  (line_coord d p.1.1 q.1.1 i, line_coord d p.1.2 q.1.2 i, line_coord d p.2 q.2 i).

Definition line (p q : Z * Z * Z) : list (Z * Z * Z) :=
  line_point p q <$> seqZ 0 (line_length p q + 1).

Definition clamp (p : Z * Z * Z) : Z * Z * Z := (R p.1.1, R p.1.2, R p.2).

Lemma voxel_in data x y z :
  tile_data data → in_tile x → in_tile y → in_tile z → ∃ v, voxel data x y z = Some v.
Proof.
  unfold tile_data, in_tile, voxel, SquarePtsCt. intros Hd Hx Hy Hz. apply aget_in. lia.
Qed.

Lemma R_in_tile x : in_tile (R x).
Proof. unfold in_tile, R, SquarePtsCt. lia. Qed.

Lemma rounded_0 d delta : 0 ≤ d → rounded d delta 0 = 0.
Proof.
  intros. unfold rounded. rewrite Z.mul_0_r, Z.add_0_l.
  destruct (decide (d = 0)) as [->|]; [done|]. apply Z.div_small. lia.
Qed.

Lemma rounded_same d i : 0 < d → rounded d d i = i.
Proof. intros. unfold rounded. symmetry. apply (Z.div_unique _ _ i d); lia. Qed.

Lemma rounded_range d delta i : 0 ≤ delta ≤ d → 0 ≤ i ≤ d → 0 ≤ rounded d delta i ≤ delta.
Proof.
  intros Hd Hi. unfold rounded. destruct (decide (d = 0)) as [->|]; [by replace delta with 0 by lia|].
  split; [apply Z.div_pos; nia|]. apply Z.lt_succ_r, Z.div_lt_upper_bound; nia.
Qed.

Lemma rounded_end d delta : 0 ≤ delta ≤ d → rounded d delta d = delta.
Proof.
  intros Hd. destruct (decide (d = 0)) as [->|]; [by replace delta with 0 by lia|].
  unfold rounded. symmetry. apply (Z.div_unique _ _ delta d); lia.
Qed.

(** The error term [p] of a following axis decides its next step. *)
Lemma rounded_step d delta i p :
  0 ≤ delta ≤ d → 0 < d → p = 2 * delta * (i + 1) - d * (2 * rounded d delta i + 1) →
  rounded d delta (i + 1) = rounded d delta i + (if 0 <=? p then 1 else 0).
Proof.
  intros Hd Hp ->. unfold rounded.
  pose proof (Z.div_mod (2 * delta * i + d) (2 * d) ltac:(lia)) as E.
  pose proof (Z.mod_pos_bound (2 * delta * i + d) (2 * d) ltac:(lia)) as Hm.
  set (j := (2 * delta * i + d) / (2 * d)) in *. set (r := (2 * delta * i + d) mod (2 * d)) in *.
  symmetry. destruct (Z.leb_spec 0 (2 * delta * (i + 1) - d * (2 * j + 1))).
  - apply (Z.div_unique _ _ _ (r + 2 * delta - 2 * d)); lia.
  - apply (Z.div_unique _ _ _ (r + 2 * delta)); lia.
Qed.

Lemma dir_end b1 b2 : b1 + Z.abs (b2 - b1) * dir b1 b2 = b2.
Proof. unfold dir. destruct (Z.ltb_spec b1 b2); lia. Qed.

Lemma line_coord_in d a1 a2 i :
  in_tile a1 → in_tile a2 → Z.abs (a2 - a1) ≤ d → 0 ≤ i ≤ d → in_tile (line_coord d a1 a2 i).
Proof.
  intros H1 H2 Hd Hi. pose proof (rounded_range d (Z.abs (a2 - a1)) i ltac:(lia) Hi) as Hr.
  unfold line_coord, dir, in_tile in *. destruct (Z.ltb_spec a1 a2); lia.
Qed.

Lemma line_coord_0 d a1 a2 : 0 ≤ d → line_coord d a1 a2 0 = a1.
Proof. intros. unfold line_coord. rewrite rounded_0 by done. lia. Qed.

Lemma line_coord_end d a1 a2 : Z.abs (a2 - a1) ≤ d → line_coord d a1 a2 d = a2.
Proof. intros. unfold line_coord. rewrite rounded_end by lia. apply dir_end. Qed.

Lemma line_point_in p q i :
  in_tile3 p → in_tile3 q → 0 ≤ i ≤ line_length p q → in_tile3 (line_point p q i).
Proof.
  intros (Hx & Hy & Hz) (Hx' & Hy' & Hz') Hi. unfold line_length in Hi.
  split; [|split]; apply line_coord_in; try done; unfold line_length; lia.
Qed.

Lemma line_in p q : in_tile3 p → in_tile3 q → Forall in_tile3 (line p q).
Proof.
  intros Hp Hq. apply Forall_fmap, Forall_forall. intros i Hi%elem_of_seqZ.
  apply line_point_in; [done|done|lia].
Qed.

Lemma line_point_0 p q : line_point p q 0 = p.
Proof.
  destruct p as [[x y] z]. unfold line_point. rewrite !line_coord_0 by (unfold line_length; lia). done.
Qed.

Lemma line_point_end p q : line_point p q (line_length p q) = q.
Proof.
  destruct p as [[x y] z], q as [[x' y'] z']. unfold line_point.
  rewrite !line_coord_end by (unfold line_length; cbn; lia). done.
Qed.

Lemma line_ends p q : head (line p q) = Some p ∧ last (line p q) = Some q.
Proof.
  assert (Hl : 0 ≤ line_length p q) by (unfold line_length; lia). unfold line. split.
  - rewrite seqZ_cons by lia. cbn [fmap list_fmap head]. by rewrite line_point_0.
  - rewrite seqZ_app by lia. rewrite fmap_app, last_app, (seqZ_cons (0 + _)) by lia.
    cbn [fmap list_fmap]. change (Z.pred 1) with 0. cbn. by rewrite line_point_end.
Qed.

(** Neighbours on the line touch. *)
Definition near (a b : Z * Z * Z) : Prop :=
  Z.abs (b.1.1 - a.1.1) ≤ 1 ∧ Z.abs (b.1.2 - a.1.2) ≤ 1 ∧ Z.abs (b.2 - a.2) ≤ 1.

Lemma line_coord_near d a1 a2 i :
  0 < d → Z.abs (a2 - a1) ≤ d → Z.abs (line_coord d a1 a2 (i + 1) - line_coord d a1 a2 i) ≤ 1.
Proof.
  intros Hd Ha. unfold line_coord. rewrite (rounded_step d (Z.abs (a2 - a1)) i _ ltac:(lia) Hd eq_refl).
  unfold dir. destruct (0 <=? _), (a1 <? a2); lia.
Qed.

Lemma line_near p q i a b : line p q !! i = Some a → line p q !! S i = Some b → near a b.
Proof.
  unfold line. rewrite !list_lookup_fmap. intros (i1 & H1 & ->)%fmap_Some (i2 & H2 & ->)%fmap_Some.
  apply lookup_seqZ in H1 as [-> H1], H2 as [-> H2].
  replace (0 + Z.of_nat (S i)) with (0 + Z.of_nat i + 1) by lia.
  split; [|split]; apply line_coord_near; unfold line_length in *; lia.
Qed.

(** ** The walk *)

Lemma first_solid_cons data x y z v path :
  voxel data x y z = Some v →
  first_solid data ((x, y, z) :: path) = if 0 <? v then (x, y, z) else first_solid data path.
Proof.
  intros Hv. unfold first_solid. rewrite filter_cons.
  assert (E : is_solid data (x, y, z) = (0 <? v)) by (unfold is_solid, voxel3; cbn; by rewrite Hv).
  rewrite E. by destruct (0 <? v).
Qed.

Section walk.
Context (data : list Z) (Hdata : tile_data data).
Context (at_ : Z → Z → Z → Z * Z * Z).
Context (Hat : ∀ a b c, in_tile a → in_tile b → in_tile c → in_tile3 (at_ a b c)).
Context (a1 a2 b1 b2 c1 c2 : Z).
Context (Ha1 : in_tile a1) (Ha2 : in_tile a2) (Hb1 : in_tile b1) (Hb2 : in_tile b2).
Context (Hc1 : in_tile c1) (Hc2 : in_tile c2).
Abbreviation da := (Z.abs (a2 - a1)).
Abbreviation db := (Z.abs (b2 - b1)).
Abbreviation dc := (Z.abs (c2 - c1)).
Context (Hda : 0 < da) (Hdb : db ≤ da) (Hdc : dc ≤ da).

Definition walk_point (i : Z) : Z * Z * Z :=
  at_ (line_coord da a1 a2 i) (line_coord da b1 b2 i) (line_coord da c1 c2 i).

(** The error term of an axis after [i] steps. *)
Definition error (delta i : Z) : Z := 2 * delta * (i + 1) - da * (2 * rounded da delta i + 1).

Lemma axis_step u1 u2 i :
  Z.abs (u2 - u1) ≤ da →
  (if 0 <=? error (Z.abs (u2 - u1)) i
   then (line_coord da u1 u2 i + dir u1 u2, error (Z.abs (u2 - u1)) i - 2 * da)
   else (line_coord da u1 u2 i, error (Z.abs (u2 - u1)) i))
  = (line_coord da u1 u2 (i + 1), error (Z.abs (u2 - u1)) (i + 1) - 2 * Z.abs (u2 - u1)).
Proof.
  intros Hu. pose proof (rounded_step da (Z.abs (u2 - u1)) i _ ltac:(lia) Hda eq_refl) as Hs.
  fold (error (Z.abs (u2 - u1)) i) in Hs. unfold line_coord.
  destruct (0 <=? error (Z.abs (u2 - u1)) i); unfold error; rewrite Hs; f_equal; lia.
Qed.

Lemma driving_coord i : line_coord da a1 a2 i = a1 + i * dir a1 a2.
Proof. unfold line_coord. by rewrite rounded_same. Qed.

Lemma hit_walk_first n : ∀ i,
  0 ≤ i → i + Z.of_nat n = da →
  hit_walk n data at_ (line_coord da a1 a2 i) a2 (dir a1 a2) da
    (line_coord da b1 b2 i) (dir b1 b2) db (line_coord da c1 c2 i) (dir c1 c2) dc
    (error db i) (error dc i)
  = Some (first_solid data (walk_point <$> seqZ (i + 1) (da - i))).
Proof.
  induction n as [|n IH]; intros i Hi Hn; cbn [hit_walk].
  { replace i with da by lia. rewrite line_coord_end by lia. rewrite Z.eqb_refl, Z.sub_diag. done. }
  rewrite (proj2 (Z.eqb_neq (line_coord da a1 a2 i) a2)).
  2:{ rewrite driving_coord. pose proof (dir_end a1 a2). unfold dir in *. destruct (a1 <? a2); lia. }
  rewrite !axis_step by lia. cbv iota.
  replace (line_coord da a1 a2 i + dir a1 a2) with (line_coord da a1 a2 (i + 1))
    by (rewrite !driving_coord; lia).
  rewrite !Z.sub_add. rewrite (seqZ_cons (i + 1)) by lia. cbn [fmap list_fmap].
  replace (Z.succ (i + 1)) with (i + 1 + 1) by lia. replace (Z.pred (da - i)) with (da - (i + 1)) by lia.
  assert (Hin : in_tile3 (walk_point (i + 1))) by (apply Hat; apply line_coord_in; (done || lia)).
  fold (walk_point (i + 1)). destruct (walk_point (i + 1)) as [[x y] z].
  destruct Hin as (Hx & Hy & Hz). destruct (voxel_in data x y z Hdata Hx Hy Hz) as [v Hv].
  rewrite Hv, (first_solid_cons _ _ _ _ v _ Hv). simpl_bind.
  destruct (0 <? v); [done|]. apply IH; lia.
Qed.
End walk.

(** A longer fuel changes nothing. *)
Lemma hit_walk_more n m data at_ a a2 sa da b sb db c sc dc p1 p2 h :
  (n ≤ m)%nat → hit_walk n data at_ a a2 sa da b sb db c sc dc p1 p2 = Some h →
  hit_walk m data at_ a a2 sa da b sb db c sc dc p1 p2 = Some h.
Proof.
  revert n a b c p1 p2. induction m as [|m IH]; intros n a b c p1 p2 Hn.
  { by replace n with 0%nat by lia. }
  destruct n as [|n]; cbn [hit_walk]; destruct (a =? a2); try done.
  destruct (if 0 <=? p1 then _ else _) as [b' q1]. destruct (if 0 <=? p2 then _ else _) as [c' q2].
  destruct (at_ (a + sa) b' c') as [[x y] z]. destruct (voxel data x y z) as [v|]; [|done].
  simpl_bind. destruct (0 <? v); [done|]. apply IH. lia.
Qed.

(** A walk of [FindHit] between two points of the tile. *)
Lemma hit_walk_between data at_ a1 a2 b1 b2 c1 c2 :
  tile_data data →
  (∀ a b c, in_tile a → in_tile b → in_tile c → in_tile3 (at_ a b c)) →
  in_tile a1 → in_tile a2 → in_tile b1 → in_tile b2 → in_tile c1 → in_tile c2 →
  Z.abs (b2 - b1) ≤ Z.abs (a2 - a1) → Z.abs (c2 - c1) ≤ Z.abs (a2 - a1) →
  hit_walk hit_fuel data at_ a1 a2 (dir a1 a2) (Z.abs (a2 - a1))
    b1 (dir b1 b2) (Z.abs (b2 - b1)) c1 (dir c1 c2) (Z.abs (c2 - c1))
    (2 * Z.abs (b2 - b1) - Z.abs (a2 - a1)) (2 * Z.abs (c2 - c1) - Z.abs (a2 - a1))
  = Some (first_solid data
      (walk_point at_ a1 a2 b1 b2 c1 c2 <$> seqZ 1 (Z.abs (a2 - a1)))).
Proof.
  intros Hd Hat Ha1 Ha2 Hb1 Hb2 Hc1 Hc2 Hb Hc.
  destruct (decide (a1 = a2)) as [->|Hne].
  { unfold hit_fuel. cbn [hit_walk]. rewrite Z.eqb_refl, Z.sub_diag. done. }
  apply (hit_walk_more (Z.to_nat (Z.abs (a2 - a1)))).
  { unfold in_tile, SquarePtsCt in *. unfold hit_fuel. lia. }
  pose proof (hit_walk_first data Hd at_ Hat a1 a2 b1 b2 c1 c2 Ha1 Ha2 Hb1 Hb2 Hc1 Hc2
    ltac:(lia) Hb Hc (Z.to_nat (Z.abs (a2 - a1))) 0 ltac:(lia) ltac:(lia)) as H.
  unfold error in H. rewrite !rounded_0, !line_coord_0, Z.sub_0_r in H by lia.
  change (0 + 1) with 1 in H. rewrite <-H. f_equal; lia.
Qed.

(** [FindHit] is the search of the digital line. *)
Lemma line_split p q :
  line p q = p :: (line_point p q <$> seqZ 1 (line_length p q)).
Proof.
  unfold line. rewrite seqZ_cons by (unfold line_length; lia). cbn [fmap list_fmap].
  rewrite line_point_0. do 3 f_equal. lia.
Qed.

Lemma FindHit_first data p q :
  tile_data data → FindHit data p q = Some (first_solid data (line (clamp p) (clamp q))).
Proof.
  intros Hd. destruct p as [[px py] pz], q as [[qx qy] qz]. rewrite line_split.
  unfold clamp. cbn [fst snd].
  pose proof (R_in_tile px) as H1. pose proof (R_in_tile py) as H2. pose proof (R_in_tile pz) as H3.
  pose proof (R_in_tile qx) as H4. pose proof (R_in_tile qy) as H5. pose proof (R_in_tile qz) as H6.
  unfold FindHit. revert H1 H2 H3 H4 H5 H6.
  generalize (R px) (R py) (R pz) (R qx) (R qy) (R qz).
  clear px py pz qx qy qz. intros x1 y1 z1 x2 y2 z2 H1 H2 H3 H4 H5 H6.
  destruct (voxel_in data x1 y1 z1 Hd H1 H2 H3) as [v Hv].
  rewrite Hv, (first_solid_cons _ _ _ _ v _ Hv). simpl_bind. destruct (0 <? v); [done|].
  destruct (Z.leb_spec (Z.abs (y2 - y1)) (Z.abs (x2 - x1)));
    [destruct (Z.leb_spec (Z.abs (z2 - z1)) (Z.abs (x2 - x1)))|]; cbn [andb].
  { rewrite hit_walk_between by done. unfold line_point, line_length. cbn [fst snd].
    rewrite Z.max_l by lia. done. }
  all: destruct (Z.leb_spec (Z.abs (x2 - x1)) (Z.abs (y2 - y1)));
    [destruct (Z.leb_spec (Z.abs (z2 - z1)) (Z.abs (y2 - y1)))|]; cbn [andb]; try lia.
  all: rewrite hit_walk_between by (lia || done || (intros; by split; [|split])).
  all: unfold line_point, line_length; cbn [fst snd]; rewrite Z.max_r by lia.
  all: first [rewrite Z.max_l by lia; done | rewrite Z.max_r by lia; done].
Qed.

(** ** The column scan *)

Lemma ground_scan_run data x z n :
  tile_data data → in_tile x → in_tile z → Z.of_nat n ≤ SquarePtsCt →
  ∃ r, ground_scan n data x z = Some r ∧
    match r with
    | Some y => 0 ≤ y < Z.of_nat n ∧ solid data (x, y, z) ∧
        ∀ y', y < y' < Z.of_nat n → clear data (x, y', z)
    | None => ∀ y', 0 ≤ y' < Z.of_nat n → clear data (x, y', z)
    end.
Proof.
  intros Hd Hx Hz. induction n as [|n IH]; intros Hn; cbn [ground_scan].
  { exists None. split; [done|]. lia. }
  assert (Hy : in_tile (Z.of_nat n)) by (unfold in_tile; lia).
  destruct (voxel_in data x (Z.of_nat n) z Hd Hx Hy Hz) as [v Hv]. rewrite Hv.
  simpl_bind. destruct (Z.ltb_spec 0 v) as [Hp|Hp].
  - exists (Some (Z.of_nat n)). split; [done|]. split; [lia|]. split; [|lia].
    split; [done|]. by exists v.
  - destruct (IH ltac:(lia)) as (r & -> & Hr). exists r. split; [done|].
    assert (Hc : clear data (x, Z.of_nat n, z)) by (split; [done|]; by exists v).
    destruct r as [y|].
    + destruct Hr as (H1 & H2 & H3). split; [lia|]. split; [done|]. intros y' Hy'.
      destruct (decide (y' = Z.of_nat n)) as [->|]; [done|]. apply H3. lia.
    + intros y' Hy'. destruct (decide (y' = Z.of_nat n)) as [->|]; [done|]. apply Hr. lia.
Qed.
