(* ===== verification/TileTheorems.v ===== *)
(** What the game's tiles guarantee: locations, voxels, and the saved level;
    and where they fall short. *)

From Stdlib Require Import ZArith Lia.
From stdpp Require Import base option numbers list strings gmap.
From S2P Require Import Prelude Coding Slice WriteBatch DbFormat MemTable KvStore Loc Level OctTile.

(** ** The saved level *)

(** C25. The level is three maps in one store: over any store that keeps what
    is put in it, a level whose terrain chunks, octree chunks and camera are
    [A] reads each of them back (a camera only if it has the size of the
    struct), and writing one changes that one and no other, for all locations
    of positive level.  A write succeeds while the store has room. *)
Theorem level_keeps_three_maps `{P : Port} {S : KvStore} {L : KvLaws S} d A sizeof_CamPos :
  level_rep d A →
  (∀ l, stored_loc l →
    GetTerrainChunk d l = Some (terrain A l) ∧ GetOctChunk d l = Some (oct A l)) ∧
  GetCameraPos sizeof_CamPos d
    = Some (v ← camera A; if (length v =? sizeof_CamPos)%nat then Some v else None) ∧
  (db_room d → ∀ v, str_ok v →
    (∀ l, stored_loc l →
      (∃ d', WriteTerrainChunk d l v = Some (d', true) ∧
        level_rep d' (mkSaved (upd (terrain A) l v) (oct A) (camera A))) ∧
      (∃ d', WriteOctChunk d l v = Some (d', true) ∧
        level_rep d' (mkSaved (terrain A) (upd (oct A) l v) (camera A)))) ∧
    (∃ d', WriteCameraPos d v = Some (d', true) ∧
      level_rep d' (mkSaved (terrain A) (oct A) (Some v)))).
Proof.
  intros Hr. split; [|split].
  - intros l Hl. split; [by apply get_terrain|by apply get_oct].
  - by apply get_camera.
  - intros Hroom v Hv. split; [|by apply write_camera].
    intros l Hl. split; [by apply write_terrain|by apply write_oct].
Qed.

Definition new_saved : saved := mkSaved (λ _, None) (λ _, None) None.

Lemma new_level_rep `{P : Port} : level_rep (S := memtable_store) NewMemDb new_saved.
Proof. exists ∅. split; [apply NewMemDb_rep|]. split; [|split]; intros; apply lookup_empty. Qed.

Lemma level_keeps_three_maps_witness :
  GetTerrainChunk (P := posix_x86) (S := memtable_store (P := posix_x86))
    (NewMemDb (P := posix_x86)) (mkLoc 1 0 2 3) = Some None ∧
  ∃ d', WriteTerrainChunk (P := posix_x86) (S := memtable_store (P := posix_x86))
    (NewMemDb (P := posix_x86)) (mkLoc 1 0 2 3) [7] = Some (d', true) ∧
    level_rep (P := posix_x86) d'
      (mkSaved (upd (terrain new_saved) (mkLoc 1 0 2 3) [7]) (oct new_saved) (camera new_saved)).
Proof.
  destruct (level_keeps_three_maps (P := posix_x86) (S := memtable_store (P := posix_x86))
    (NewMemDb (P := posix_x86)) new_saved 44 new_level_rep) as (Hget & _ & Hput).
  assert (Hl : stored_loc (mkLoc 1 0 2 3)) by (by repeat split).
  split; [apply (Hget _ Hl)|].
  refine (proj1 (proj1 (Hput _ [7] _) (mkLoc 1 0 2 3) Hl)).
  - done.
  - split; [apply Forall_singleton|]; by split.
Defined.

(** The condition on the level is needed: the negation that tells the two
    kinds of chunk apart does nothing at level zero. *)
Lemma level_zero_keys_collide `{P : Port} x y z :
  terrain_key (mkLoc x y z 0) = loc_slice (mkLoc x y z 0).
Proof. done. Qed.

(** ** Locations *)

(** C39. The cells form an octree: the eight children of a cell are distinct
    cells one level down and are exactly the cells whose parent it is; the
    ancestors of a cell at every level are cells; and the position of a cell
    inside an ancestor is a cell of its own that [GetChild] takes back. *)
Theorem loc_octree c :
  loc_ok c →
  (m_l c < 30 → ∀ k, k ∈ GetChildren c → loc_ok k) ∧
  length (GetChildren c) = 8%nat ∧ NoDup (GetChildren c) ∧
  (∀ k, k ∈ GetChildren c ↔ Parent k = c) ∧
  (0 < m_l c → Parent c = ParentAtLevel c (m_l c - 1)) ∧
  ∀ l, 0 ≤ l ≤ m_l c →
    loc_ok (ParentAtLevel c l) ∧ loc_ok (GetLocal c (ParentAtLevel c l)) ∧
    GetChild (ParentAtLevel c l) (GetLocal c (ParentAtLevel c l)) = c.
Proof.
  intros Hc. split; [intros; by eapply child_ok|]. split; [by destruct c|].
  split; [apply NoDup_GetChildren|]. split; [apply Parent_GetChildren|].
  split; [intros _; apply Parent_AtLevel|]. intros l Hl.
  pose proof (ParentAtLevel_ok c l Hc Hl) as Hp. split; [done|].
  split; [|apply GetChild_GetLocal].
  apply GetLocal_ok; [done|apply Hp|by apply ParentAtLevel_below].
Qed.

Lemma loc_octree_witness :
  NoDup (GetChildren (mkLoc 3 1 2 2)) ∧
  ∀ k, k ∈ GetChildren (mkLoc 3 1 2 2) ↔ Parent k = mkLoc 3 1 2 2.
Proof.
  destruct (loc_octree (mkLoc 3 1 2 2)) as (_ & _ & Hd & Hp & _); [by repeat split|]. by split.
Defined.

(** The order of the tile maps is a strict total order: no location is
    before itself, the order is transitive, two locations neither of which is
    before the other are equal, and [operator==] is equality. *)
Theorem loc_order_total a b c :
  loc_lt a a = false ∧ loc_eqb a b = bool_decide (a = b) ∧
  (loc_lt a b = false ∧ loc_lt b a = false ↔ a = b) ∧
  (loc_lt a b && loc_lt b c) = (loc_lt a b && loc_lt b c && loc_lt a c).
Proof.
  split; [apply loc_lt_irrefl|]. split; [apply loc_eqb_spec|]. split.
  - split; [|intros ->; by rewrite loc_lt_irrefl]. rewrite !loc_lt_key. intros [H1 H2].
    apply list_ltb_total in H1; [|done|done]. destruct a, b. unfold loc_key in H1. cbn in H1. congruence.
  - rewrite !loc_lt_key.
    destruct (list_ltb (loc_key a) (loc_key b)) eqn:E1; [|done].
    destruct (list_ltb (loc_key b) (loc_key c)) eqn:E2; [|done]. cbn [andb].
    by rewrite (list_ltb_trans _ _ _ E1 E2).
Qed.

(** The tile numbers are not unique, and do not lead back to the tile. *)
Lemma tile_index_collides :
  GetTileIndex (mkLoc 0 2 0 2) = Some 584 ∧ GetTileIndex (mkLoc 0 0 0 3) = Some 584 ∧
  GetTileIndex (mkLoc 0 0 0 1) = Some 8 ∧ GetLocFromIndex 8 = Some (mkLoc 1 1 1 1).
Proof. by vm_compute. Qed.

(** ** Voxels *)

Lemma rle_decode_full runs data n :
  Forall run_ok runs → dec_runs runs = data → n = length data →
  rle_decode_loop (runs ≫= enc_run) (replicate n 0) 0 = Some data.
Proof.
  intros Hok Hruns ->.
  pose proof (rle_decode_runs runs [] (replicate (length data) 0) Hok) as H. cbn [app length] in H.
  rewrite Hruns, length_replicate in H.
  transitivity (Some (data ++ drop (length data) (replicate (length data) 0))); [apply H; lia|].
  rewrite drop_ge by (rewrite length_replicate; lia). by rewrite app_nil_r.
Qed.

Lemma rle_stored data :
  tile_data data → ∃ rle, RleEncode data = Some rle ∧ rle ≠ [] ∧ RleDecode rle = Some data.
Proof.
  intros Hd. assert (Hne : data ≠ []) by (intros ->; by compute in Hd).
  destruct (RleEncode_runs data Hne) as (runs & -> & Hok & Hruns). eexists. split; [done|].
  split.
  - destruct runs as [|[cnt v] runs]; [by rewrite <-Hruns in Hne|].
    cbn [mbind list_bind]. unfold enc_run. by case_match.
  - unfold RleDecode. apply rle_decode_full; [done|done|].
    unfold tile_data in Hd. rewrite <-Hd. by rewrite Nat2Z.id.
Qed.

(** C35. Storing a tile loses nothing: encoding the voxels of a tile succeeds
    and decoding the result gives them back, inside the buffer of the
    decoder. *)
Theorem rle_roundtrip data :
  tile_data data → ∃ rle, RleEncode data = Some rle ∧ RleDecode rle = Some data.
Proof. intros Hd. destruct (rle_stored data Hd) as (rle & ? & _ & ?). by exists rle. Qed.

Definition flat_tile : list Z := replicate (Z.to_nat (SquarePtsCt * SquarePtsCt * SquarePtsCt)) 1.

Lemma flat_tile_data : tile_data flat_tile.
Proof. unfold tile_data, flat_tile. rewrite length_replicate, Z2Nat.id; [done|]. unfold SquarePtsCt. lia. Qed.

Lemma rle_roundtrip_witness : ∃ rle, RleEncode flat_tile = Some rle ∧ RleDecode rle = Some flat_tile.
Proof. apply (rle_roundtrip flat_tile). apply flat_tile_data. Defined.

Lemma not_drawable_split runs :
  ¬ Forall run_drawable runs →
  ∃ pre cnt post, runs = pre ++ (cnt, 1) :: post ∧ Forall run_drawable pre ∧ 256 ≤ cnt.
Proof.
  induction runs as [|[cnt v] runs IH]; intros Hn; [by destruct Hn|].
  destruct (decide (v = 1 ∧ 255 < cnt)) as [[-> Hc]|Hc].
  { exists [], cnt, runs. split; [done|]. split; [constructor|lia]. }
  assert (Hd : run_drawable (cnt, v)) by (unfold run_drawable; cbn; lia).
  destruct IH as (pre & cnt' & post & -> & Hp & Hc').
  { intros Hf. apply Hn. by constructor. }
  exists ((cnt, v) :: pre), cnt', post. split; [done|]. split; [by constructor|done].
Qed.

(** C37. What [LoadVB] draws: the encoding of any tile is a list of runs that
    spells its voxels.  If no run of ones is longer than 255, [LoadVB] ends
    and has exactly the positions of the voxels that are 1, in order; if one
    is, its loop over a byte index does not end. *)
Theorem load_vb_points data :
  data ≠ [] →
  ∃ runs, RleEncode data = Some (runs ≫= enc_run) ∧ dec_runs runs = data ∧
    (Forall run_drawable runs →
      ∀ fuel, (255 ≤ fuel)%nat → LoadVB_points fuel (runs ≫= enc_run) = Some (ones 0 data)) ∧
    (¬ Forall run_drawable runs → ∀ fuel, LoadVB_points fuel (runs ≫= enc_run) = None).
Proof.
  intros Hne. destruct (RleEncode_runs data Hne) as (runs & Henc & Hok & Hd).
  exists runs. split; [done|]. split; [done|]. unfold LoadVB_points. split.
  - intros Hdr fuel Hf. rewrite load_vb_runs by done. by rewrite Hd.
  - intros (pre & cnt & post & -> & Hp & Hc)%not_drawable_split fuel.
    apply Forall_app in Hok as [Hok1 Hok2]. apply Forall_cons in Hok2 as [Hr _].
    unfold run_ok in Hr. cbn [fst] in Hr. rewrite bind_app. cbn [mbind list_bind].
    apply load_vb_long_run; [done|lia|done].
Qed.

Lemma load_vb_points_witness :
  ∃ runs, RleEncode [0; 1; 1; 0] = Some (runs ≫= enc_run) ∧ dec_runs runs = [0; 1; 1; 0] ∧
    (Forall run_drawable runs →
      ∀ fuel, (255 ≤ fuel)%nat → LoadVB_points fuel (runs ≫= enc_run) = Some (ones 0 [0; 1; 1; 0])) ∧
    (¬ Forall run_drawable runs → ∀ fuel, LoadVB_points fuel (runs ≫= enc_run) = None).
Proof. apply (load_vb_points [0; 1; 1; 0]). done. Defined.

(** A layer of a flat tile is such a run. *)
Lemma load_vb_hangs fuel :
  ∃ rle, RleEncode (replicate 256 1) = Some rle ∧ LoadVB_points fuel rle = None.
Proof.
  exists [129; 0; 1]. split; [by vm_compute|]. unfold LoadVB_points. cbn [load_vb_loop].
  change (129 <? 128) with false. cbv iota.
  change (Z.lor (Z.shiftl (Z.land 129 127) 8) 0) with 256. change (1 =? 1) with true. cbv iota.
  by rewrite push_points_forever.
Qed.

(** C36. Casting a ray through a tile ends, reads only voxels of the tile, and
    finds the first voxel on the ray: for any two points, however far outside,
    [FindHit] returns the first voxel that is set on the digital line between
    the two clamped points, and (-1, -1, -1) when there is none.  That line
    (each coordinate the nearest integer to the exact one) starts and ends at
    the two points, stays in the tile, and moves by at most one voxel along
    each axis. *)
Theorem find_hit_line data p q :
  tile_data data →
  let path := line (clamp p) (clamp q) in
  FindHit data p q = Some (first_solid data path) ∧
  head path = Some (clamp p) ∧ last path = Some (clamp q) ∧ Forall in_tile3 path ∧
  ∀ i a b, path !! i = Some a → path !! S i = Some b → near a b.
Proof.
  intros Hd path. split; [by apply FindHit_first|]. split; [apply line_ends|].
  split; [apply line_ends|]. split; [apply line_in; repeat split; apply R_in_tile|].
  apply line_near.
Qed.

Lemma find_hit_line_witness :
  FindHit flat_tile (-5, 300, 7) (9, 0, 80)
  = Some (first_solid flat_tile (line (clamp (-5, 300, 7)) (clamp (9, 0, 80)))) ∧
  last (line (clamp (-5, 300, 7)) (clamp (9, 0, 80))) = Some (clamp (9, 0, 80)).
Proof.
  pose proof (find_hit_line flat_tile (-5, 300, 7) (9, 0, 80) flat_tile_data) as (H1 & _ & H2 & _).
  split; [exact H1|exact H2].
Defined.

(** The ground of a stored tile: for any column, however far outside the
    tile, [GetGroundPos] on the encoding of a tile ends inside the decoded
    voxels, and answers with the highest voxel of the (clamped) column that is
    set, or with no position when the whole column is clear. *)
Theorem ground_pos_top data rle x z :
  tile_data data → RleEncode data = Some rle →
  ∃ r, GetGroundPos_voxel rle x z = Some r ∧
    match r with
    | Some y => solid data (R x, y, R z) ∧ ∀ y', y < y' < SquarePtsCt → clear data (R x, y', R z)
    | None => ∀ y, in_tile y → clear data (R x, y, R z)
    end.
Proof.
  intros Hd Henc. destruct (rle_stored data Hd) as (rle' & E & Hne & Hdec).
  rewrite Henc in E. injection E as <-. unfold GetGroundPos_voxel.
  rewrite bool_decide_eq_false_2 by done. rewrite Hdec. simpl_bind.
  replace (Z.min (SquarePtsCt - 1) (Z.max 0 x)) with (R x) by (unfold R, SquarePtsCt; lia).
  replace (Z.min (SquarePtsCt - 1) (Z.max 0 z)) with (R z) by (unfold R, SquarePtsCt; lia).
  destruct (ground_scan_run data (R x) (R z) (Z.to_nat SquarePtsCt) Hd) as (r & -> & Hr);
    [apply R_in_tile|apply R_in_tile|unfold SquarePtsCt; lia|].
  exists r. split; [done|]. rewrite Z2Nat.id in Hr by done.
  destruct r; [by destruct Hr as (_ & ? & ?)|exact Hr].
Qed.

Lemma ground_pos_top_witness :
  ∃ rle, RleEncode flat_tile = Some rle ∧
  ∃ r, GetGroundPos_voxel rle 3 (-4) = Some r ∧
    match r with
    | Some y => solid flat_tile (R 3, y, R (-4)) ∧
        ∀ y', y < y' < SquarePtsCt → clear flat_tile (R 3, y', R (-4))
    | None => ∀ y, in_tile y → clear flat_tile (R 3, y, R (-4))
    end.
Proof.
  destruct (rle_stored flat_tile flat_tile_data) as (rle & Hrle & _ & _). exists rle.
  split; [exact Hrle|]. apply (ground_pos_top flat_tile rle 3 (-4)); [apply flat_tile_data|exact Hrle].
Defined.

(** A voxel on the face [x = 0] is found but not reported. *)
Lemma intersect_misses_face rle data p q y z v :
  rle ≠ [] → RleDecode rle = Some data → R p.1.1 = 0 → R p.1.2 = y → R p.2 = z →
  voxel data 0 y z = Some v → 0 < v →
  FindHit data p q = Some (0, y, z) ∧ Intersect_voxels rle p q = Some false.
Proof.
  intros Hne Hd Hx Hy Hz Hv Hp. destruct p as [[px py] pz], q as [[qx qy] qz]. cbn [fst snd] in *.
  assert (Hf : FindHit data (px, py, pz) (qx, qy, qz) = Some (0, y, z)).
  { unfold FindHit. rewrite Hx, Hy, Hz, Hv. simpl_bind.
    by rewrite (proj2 (Z.ltb_lt 0 v)). }
  split; [done|]. unfold Intersect_voxels. rewrite bool_decide_eq_false_2 by done.
  rewrite Hd. simpl_bind. by rewrite Hf.
Qed.
